(* ===== verification/_CoqProject ===== *)
-Q . S2P
Prelude.v
Varint.v
Header.v
Value.v
Record.v
Balance.v
Ptrmap.v
PCache.v
Vfs.v
Image.v
Pager.v
Wal.v
WalProps.v
WalIndexProps.v
Journal.v
JournalProps.v
BtPage.v
Cursor.v
CursorProps.v
CursorSpec.v
Schema.v
Integrity.v
Forest.v
IntegrityProps.v
WritePager.v
WritePagerProps.v
Writer.v
WriterPages.v
WriterHeap.v
WriterTree.v
WriterBalance.v
WriterNode.v
WriterInsert.v
WriterTable.v
WriterSpec.v
WriterDelete.v
TableSpec.v
IndexSeek.v
IndexSeekProps.v
IndexWriter.v
IndexPages.v
IndexTree.v
IndexBalance.v
IndexInsert.v
IndexSpec.v
Catalog.v
AutoVacuum.v
AutoVacuumProps.v
AutoVacuumMap.v
Decimal.v
DecimalProps.v
Pattern.v
Eval.v
EvalProps.v
Base64.v
Base85.v
Codecs.v
Regex.v
RegexNfa.v
RegexLang.v
RegexMatch.v
RegexCompile.v
RegexSafe.v
Session.v
SessionRead.v
SessionProps.v
SessionApply.v
SessionStore.v
SessionStep.v
SessionNet.v
Changeset.v
ChangesetInvert.v
ChangesetMerge.v
ChangesetConcat.v
ChangesetCompose.v
Rebase.v
RebaseRows.v
RebaseApply.v
RebaseRemote.v
RebaseDiamond.v
