(* ===== verification/Prelude.v ===== *)
(** * The storage engine, sessions and expression semantics of graphitesql, verified

    graphitesql is an SQLite-compatible database engine. This library models
    its storage layer, from the byte formats up to table and index updates, its
    sessions and changesets, the scalar semantics of expressions and some of the
    function libraries, as executable definitions translated from the Rust sources under [src/src/],
    and proves the properties that make each layer correct and that make the
    layers fit together.

    ** The program's parts and how they interact

    A connection keeps a [WritePager] ([pager/write.rs]) over a VFS file. SQL
    statements change tables through [btree/writer.rs], which allocates, reads,
    writes and frees pages of the pager; queries read them with the cursors of
    [btree/cursor.rs], over any [PageSource]: a read-only [Pager]
    ([pager/mod.rs], with the cache of [pager/pcache.rs]), a WAL overlay
    ([pager/wal.rs]) or the write pager itself. Pages are decoded by
    [btree/page.rs] and their cells split and rebalanced by [btree/balance.rs];
    rows are encoded by [format/record.rs] with the varints of
    [util/varint.rs] and the values of [value.rs]. A transaction becomes
    durable through the rollback journal or the write-ahead log, both in
    [pager/write.rs], under the locks of [vfs/mod.rs]. Expressions are
    evaluated on values by [exec/eval.rs], with the helpers of [util/]. A
    session ([session.rs]) is told of every row the connection changes by a hook
    of [exec/mod.rs] and writes the changes as a blob; [exec/mod.rs] applies
    such blobs, and [session.rs] inverts, concatenates and rebases them.

    ** Files

    - [Prelude]: errors ([error.rs]) and the result monad ([Ok], [Err] for an
      error value, [Panic] for a Rust panic), machine integers and byte
      buffers, checked slicing and indexing, the tactics and hints.
    - [Varint], [Header], [Value], [Record]: the byte formats, each with its
      round trip and its safety on arbitrary input.
    - [Balance]: [distribute] and [sibling_window] of [btree/balance.rs].
    - [Ptrmap]: pointer-map pages of [btree/ptrmap.rs].
    - [PCache], [Vfs], [Pager]: the LRU page cache, the lock state machine with
      the in-memory files, the read-only pager. [Vfs.File]/[Vfs.FileLaws] and
      [Pager.PageSource]/[Pager.SourceOk] are the interfaces the layers above
      are proved against.
    - [Image]: files as sequences of pages, shared by the log and the journal.
    - [Wal], [WalProps], [WalIndexProps]: the write-ahead log, its index, its
      commits and its checkpoints.
    - [Journal], [JournalProps]: the rollback journal; a commit is a list of
      file operations and a crash is a prefix of it.
    - [BtPage], [Cursor], [CursorProps], [CursorSpec]: b-tree pages, the table
      and index cursors, and their behaviour on trees of pages.
    - [WritePager], [WritePagerProps]: the overlay, the free list, allocation
      and savepoints inside a write transaction, and the refinement of a heap
      of independent pages ([holds]).
    - [Writer]: all of [btree/writer.rs], with [free_tree] of
      [btree/index_writer.rs].
    - [WriterPages] (page images), [WriterHeap] (pages, overflow chains and
      rows on the heap), [WriterTree] (the abstract tree [btree] and its
      representation [tree_ok]), [WriterBalance] (leaf balancing),
      [WriterNode] (interior pages), [WriterInsert] (the descent),
      [WriterTable] (the root), [WriterSpec] (the cursors on such trees, and
      tables as sorted lists of rows), [WriterDelete] (deletion on them),
      [TableSpec] (the contract).
    - [Schema]: the catalog of [schema/mod.rs]. [Integrity],
      [IntegrityProps]: the page accounting of [exec/integrity.rs] and the
      pass of [pragma_integrity_check] that drives it.
    - [IndexSeek], [IndexSeekProps]: the seeks and range scans of
      [btree/index_writer.rs]; [IndexSeekProps.ColumnOrder] is the interface
      the order of the columns is used through. [IndexWriter]: the rest of that
      file, insertion with sibling balancing, clearing, serialisation.
    - [IndexPages] (page images), [IndexTree] (the abstract index tree and its
      representation), [IndexBalance] (leaf balancing), [IndexInsert] (the
      descent, against the interface [KeyOrder] of the order of records),
      [IndexSpec] (indexes as ordered lists of rows, and a table with its
      index).
    - [Catalog]: the storage steps of [CREATE TABLE] in [exec/mod.rs], over the
      table writer and the catalog.
    - [Forest]: free lists, trees and overflow chains over any page source, with
      the demand they make on the pointer map; shared by [IntegrityProps] and
      [AutoVacuumProps].
    - [AutoVacuum]: the auto-vacuum part of [pager/write.rs]: the pointer map
      derived from the trees and the free list, its rebuilding at commit, the
      relocation of trailing pages, and [commit] in rollback-journal mode as a
      whole, over the file operations of [Journal]. [AutoVacuumProps] (the walks compute what the
      forest demands), [AutoVacuumMap] (the map pages, the contract with
      the integrity check, and the crash outcomes of a shrinking commit).
    - [Decimal], [DecimalProps]: the arbitrary-precision decimals of
      [util/decimal.rs], specified by rational numbers.
    - [Pattern]: [LIKE] and [GLOB] of [exec/eval.rs] with the lenient UTF-8
      reader under them, specified by tokens that match segments of the text.
    - [Eval], [EvalProps]: three-valued logic, comparison of row values,
      arithmetic, shifts, text to number conversion and sums of
      [exec/eval.rs]; rounding arithmetic on doubles is the class [Eval.Std].
    - [Regex]: the regular-expression engine of [util/regex.rs], compiler and
      matcher. [RegexNfa] (the program as an automaton, and the simulation of
      all its states), [RegexLang] (expressions, their languages and their
      code), [RegexMatch] (UTF-8 text and the literal prefix), [RegexCompile] (the
      grammar of patterns, and the compiler produces their code),
      [RegexSafe] (arbitrary bytes).
    - [Base64], [Base85], [Codecs]: the text codecs of [util/base64.rs] and
      [util/base85.rs].
    - [Session]: the recorder of [session.rs] with its hash tables, the hook of
      [exec/mod.rs], the writer and the parser of changesets and patchsets.
      [SessionRead] (the parser reads what the writer wrote), [SessionProps] (the
      hash tables are maps from keys to changes).
    - [SessionApply]: applying a blob ([changeset_apply] and below in
      [exec/mod.rs]) with a conflict handler, over the class [Store] of the SQL
      statements it runs, and the rebase blob of its conflicts. [SessionStore]
      (the laws of such a store on a keyed table, [KeyedStore], and finite maps
      as an instance), [SessionStep] (one clean change), [SessionNet] (a whole
      session).
    - [Changeset]: [invert] and [changeset_concat] of [session.rs], with the
      byte-level view of records. [ChangesetInvert] (the session that goes back),
      [ChangesetMerge] (two changes of one row), [ChangesetConcat] (the tables
      of the concatenation), [ChangesetCompose] (two sessions).
    - [Rebase]: the rebaser of [session.rs]. [RebaseRows] (one row under a local
      and a remote change), [RebaseApply] (conflicts on a store, and the bytes of
      rebase blobs and rebased records), [RebaseRemote] (a remote changeset on a
      local store), [RebaseDiamond] (the local changeset on the remote rows).

    ** How state and effects are modelled

    A function that mutates [&mut WritePager] takes the pager and returns the
    new one in the result monad, so an error or a panic in the middle of an
    operation is the result of the whole operation. Integers are [Z] with the
    wrap-around ([wrap]) or the debug-build overflow check of the source
    written out; a byte buffer is a list of [Z] in 0..255. Interior mutability
    ([RefCell], [Cell], [Rc]) becomes an explicit store or a returned state.

    ** What the theorems show

    - Tables. [TableSpec.session_scan]: whatever sequence of insertions and
      deletions runs on a table, a scan returns the rows of a sorted list under
      the same sequence. [insert_table_refines] and [delete_table_refines]
      state one operation on any stored table (any tree shape, overflow chains,
      page one as the root), with success as part of the statement;
      [insert_isolated] that other tables are untouched; [insert_depth_limit]
      the error of the depth limit; [page_image_roundtrip] and
      [distribute_correct] the page images and the redistribution under them.
    - Indexes. [insert_index_refines]: an insertion refines insertion into an
      ordered list of rows; [index_session_lookup]: seeks and range scans after
      any sequence of insertions return exactly the matching rows;
      [insert_table_and_index]: a row goes into a table and its index.
    - The catalog and the whole file. [create_table_registers]: on any stored
      catalog [CREATE TABLE] succeeds and its row goes to the rowid
      [next_rowid] answers; the next reading of a UTF-8 catalog finds the table
      at a root of its own ([Catalog.placed] says where, and which object it replaces
      when the rowid is in use), that of a UTF-16 one fails.
      [integrity_check_exact]: the accounting terminates on arbitrary pages and
      reports nothing exactly when every page is referenced once.
      [rebuild_ptrmap_accounted]: the pointer map a commit rebuilds is the one
      that accounting demands, on any file without lost or shared pages.
    - Transactions. [commit_crash_atomic] and [recover_total] for the rollback
      journal; [wal_commit_atomic], [wal_snapshot_isolation],
      [wal_readers_agree] and [checkpoint_complete] for the log (the two
      readers agree on every file but one of another page size);
      [shrink_loses_page] gives every crash outcome of a commit that shortens
      the file;
      [page_heap_refinement] and [savepoint_restores] for the write pager.
    - Reading. [pager_cache_transparent] and [pcache_refines_lru] for the cache;
      [table_scan_complete], [seek_spec], [index_scan_complete],
      [read_payload_safe] for the cursors; [index_seek_correct] and
      [index_range_correct] for index lookups; [page_access_safe] for pages of
      arbitrary bytes and any usable size below 2^58, where the [usize]
      arithmetic of [payload_split] starts to overflow
      ([payload_split_overflow]).
    - Expressions. [like_glob_correct] and [like_bytes_agree] for pattern
      matching; [sql_logic_kleene] for the connectives and row comparison;
      [integer_operators] for arithmetic at the width of an [i64]; with
      [int_prefix_saturates] and [sum_integers] beside them.
    - Function libraries. [regexp_match_correct]: a pattern matches a text
      exactly when a part of the text is in the language it denotes;
      [regexp_total]: no bytes make the engine panic or run forever.
      [decimal_arith_exact], [decimal_text_roundtrip] and
      [decimal_double_expansion] for decimals; [codecs_roundtrip] for base64 and
      base85.
    - Sessions. [session_net_effect]: the changeset or the patchset of any
      sequence of row operations applies to every store that holds the original
      rows and leaves the final ones. [changeset_invert_undoes]: the inverted
      changeset goes back, and inverting twice is the identity on the bytes.
      [changeset_concat_composes]: the concatenation of two changesets does what
      they do one after the other, and is empty when nothing is left.
      [rebase_diamond]: a local changeset rebased over the conflicts of a remote
      one applies on top of the remote rows, and both sides end with the same
      rows; where the handler omits a remote update of a row that was also
      updated locally, the remote side keeps the remote values of the columns
      the local update does not set, as in SQLite.
    - Formats. Round trips of varints, headers and records, safety of their
      decoders, the total order on values.
    - Locks. [vfs_lock_safety] for the states of the in-memory files: what holds
      under any requests ([reached any]), and the full exclusion under the
      pager's protocol ([reached polite]), which asks for [Shared] before a
      write lock. One caller, [checkpoint_mode], leaves the protocol;
      [skip_shared_loses_reader] shows what that costs.
    - Defects. Some theorems state behaviour that contradicts the
      documentation of the code: [cmp_values_coll_non_utf8],
      [skip_shared_loses_reader], [shrink_loses_page],
      [wal_page_size_divergence], [utf16_catalog_lost], [next_rowid_collides],
      [huge_payload_panics], [integrity_overflow], [like_bytes_agree] (the
      last plane of Unicode), [decimal_double_expansion] (negative zero),
      [compare_leading_zero], [stacked_repetition], [count_overflow],
      [long_varint_misread], [non_utf8_text_refused],
      [huge_column_count_panics], [update_constraint_not_asked],
      [invert_headless], [rebase_header_misplaced], [patchset_rebased] and
      [indirect_flag_lost].

    ** Bounds and fuel

    A loop that is not structural takes fuel and answers [Panic] when it runs
    out, so a theorem with a result [Ok] also says that the fuel was enough:
    tree walks need the height of the tree, scans the height plus the number of
    pages and rows, chain walks the number of chain pages, the balancing loops
    the number of cells. [insert_rec] has the depth limit of the source, twenty
    levels. Parsers and matchers take the length of their input as fuel, which
    every step shortens. A session counts at most [2^28] row operations, two
    changes each, so the number of its buckets stays below 2^32. [insert_pages] bounds the pages an insertion may append to the
    file (three per page asked for, since allocation may skip reserved pages),
    [index_pages] does for an index insertion; the room they ask for keeps page numbers below 2^32, where the source's
    [u32] arithmetic would overflow.

    ** Not modelled

    System calls ([vfs/std_file.rs]); lock transitions and the read cache of [WritePager]; the SQL front end,
    query execution but for the row scan, the next rowid, the storage steps of
    [CREATE TABLE], the integrity check and the application of changesets,
    affinities, casts and function calls in expressions, the other SQL functions
    and utilities, virtual tables, bindings and the shell. The SQL statements
    that apply a changeset are the operations of the class [SessionApply.Store],
    and the reading of a live row for a changeset is a function from tables and
    keys to rows; the merging of several rebase blobs in one rebaser is modelled
    ([merge_into]) without a theorem. IEEE-754 conversions of [Record]
    and host collations are parameters with their documented behaviour. *)

From Stdlib Require Export ZArith Lia.
From stdpp Require Export base numbers list strings pretty fin_maps gmap.

#[global] Set Default Proof Using "Type".
Local Open Scope Z_scope.

(** * Errors and results *)

(** [error.rs]: the error type of the crate, one constructor per variant. *)
Inductive Error : Type :=
  | EError (m : string)
  | EErrorAt (m : string) (off : Z)
  | ECorrupt (m : string)
  | EIo (m : string)
  | EBusy
  | ECantOpen (m : string)
  | EConstraint (m : string)
  | EParse (m : string)
  | EParseAt (m : string) (off : Z)
  | EUnsupported (m : string).

#[global] Instance Error_eq_dec : EqDecision Error.
Proof. solve_decision. Defined.

(** [Error::code]: the SQLite primary result code; the match arms with a guard
    on the message come first, as in the source. *)
Definition error_code (e : Error) : Z :=
  match e with
  | EError m | EErrorAt m _ =>
      if String.eqb m "datatype mismatch" then 20
      else if String.eqb m "string or blob too big" then 18
      else if String.eqb m "file is not a database" then 26
      else 1
  | EParse _ | EParseAt _ _ | EUnsupported _ => 1
  | ECorrupt _ => 11
  | EIo _ => 10
  | EBusy => 5
  | ECantOpen _ => 14
  | EConstraint _ => 19
  end.

(** [Error::parse_offset]. *)
Definition parse_offset (e : Error) : option Z :=
  match e with
  | EParseAt _ off | EErrorAt _ off => Some off
  | _ => None
  end.

(** [impl Display for Error]. *)
Definition error_display (e : Error) : string :=
  match e with
  | EError m | EErrorAt m _ => "error: " +:+ m
  | ECorrupt m => "database disk image is malformed: " +:+ m
  | EIo m => "disk I/O error: " +:+ m
  | EBusy => "database is locked"
  | ECantOpen m => "unable to open database file: " +:+ m
  | EConstraint m => m
  | EParse m | EParseAt m _ => "SQL error: " +:+ m
  | EUnsupported m => "not yet implemented: " +:+ m
  end.

(** Outcome of a Rust call: a value, an [Err], or a panic (an out-of-bounds
    index or slice, or an arithmetic overflow that a debug build traps).
    Keeping panics apart from errors lets a theorem say that a function
    cannot crash, not merely that it returns. *)
Inductive res (A : Type) : Type :=
  | Ok (a : A)
  | Err (e : Error)
  | Panic.
Arguments Ok {A} a.
Arguments Err {A} e.
Arguments Panic {A}.

#[global] Instance res_eq_dec {A} `{EqDecision A} : EqDecision (res A).
Proof. solve_decision. Defined.

Lemma Ok_inj {A} (a b : A) : Ok a = Ok b -> a = b.
Proof. by intros [= ->]. Qed.

Definition res_bind {A B} (m : res A) (f : A -> res B) : res B :=
  match m with
  | Ok a => f a
  | Err e => Err e
  | Panic => Panic
  end.

Declare Scope res_scope.
Delimit Scope res_scope with res.
Notation "'let*' x := m 'in' k" := (res_bind m (fun x => k))
  (at level 10, x pattern, m at level 200, k at level 200) : res_scope.
Open Scope res_scope.

(** [Option::ok_or_else]. *)
Definition ok_or {A} (o : option A) (e : Error) : res A :=
  match o with Some a => Ok a | None => Err e end.

(** An outcome that is not a panic. *)
Definition no_panic {A} (m : res A) : Prop := m <> Panic.

Lemma no_panic_bind {A B} (m : res A) (f : A -> res B) :
  no_panic m -> (forall a, m = Ok a -> no_panic (f a)) -> no_panic (res_bind m f).
Proof. unfold no_panic. destruct m; naive_solver. Qed.

Lemma no_panic_Ok {A} (a : A) : no_panic (Ok a).
Proof. done. Qed.

Lemma no_panic_Err {A} (e : Error) : no_panic (Err e : res A).
Proof. done. Qed.

Lemma no_panic_ok_or {A} (o : option A) e : no_panic (ok_or o e).
Proof. by destruct o. Qed.

Lemma res_bind_Ok {A B} (m : res A) (f : A -> res B) b :
  res_bind m f = Ok b <-> exists a, m = Ok a /\ f a = Ok b.
Proof.
  split.
  - destruct m as [a|e|]; simpl; intros H; [by exists a|discriminate..].
  - by intros (a & -> & H).
Qed.

(** [m] does not panic, and a value it returns satisfies [P]. *)
Definition safe {A} (m : res A) (P : A -> Prop) : Prop :=
  match m with Ok a => P a | Err _ => True | Panic => False end.

Lemma safe_bind {A B} (m : res A) (f : A -> res B) P Q :
  safe m P -> (forall a, P a -> safe (f a) Q) -> safe (res_bind m f) Q.
Proof. destruct m; simpl; auto. Qed.

Lemma safe_mono {A} (m : res A) (P Q : A -> Prop) : safe m P -> (forall a, P a -> Q a) -> safe m Q.
Proof. destruct m; simpl; auto. Qed.

Lemma safe_ok_or {A} (o : option A) e (P : A -> Prop) : (forall a, o = Some a -> P a) -> safe (ok_or o e) P.
Proof. destruct o; simpl; auto. Qed.

Lemma safe_no_panic {A} (m : res A) P : safe m P -> no_panic m.
Proof. by destruct m. Qed.

Lemma safe_Ok {A} (m : res A) P a : safe m P -> m = Ok a -> P a.
Proof. by intros H ->. Qed.

Lemma safe_intro {A} (m : res A) (P : A -> Prop) : no_panic m -> (forall a, m = Ok a -> P a) -> safe m P.
Proof. unfold no_panic. destruct m; simpl; auto. Qed.

(** Running one step forward; rewriting with this equation instead of
    reducing keeps the kernel from comparing whole continuations. *)
Lemma bind_Ok {A B} (a : A) (f : A -> res B) : res_bind (Ok a) f = f a.
Proof. done. Qed.

Ltac bind_step := rewrite bind_Ok; cbv beta.

Create HintDb gsql.
Create Rewrite HintDb gsql.
#[export] Hint Resolve no_panic_bind no_panic_Ok no_panic_Err no_panic_ok_or : gsql.

(** Inversion of a computation that returned [Ok]. *)
Ltac res_inv :=
  repeat match goal with
  | H : res_bind _ _ = Ok _ |- _ => apply res_bind_Ok in H as (? & ? & H)
  | H : Ok _ = Ok _ |- _ => injection H as H
  | H : Err _ = Ok _ |- _ => discriminate H
  | H : Panic = Ok _ |- _ => discriminate H
  | H : ok_or ?o _ = Ok _ |- _ =>
      let E := fresh "E" in destruct o eqn:E; simpl in H
  end.

(** One step of a proof that a computation does not panic: guards are split
    and the leaves that are values or errors closed. *)
Ltac np_step :=
  lazymatch goal with
  | |- no_panic (Ok _) => apply no_panic_Ok
  | |- no_panic (Err _) => apply no_panic_Err
  | |- no_panic (ok_or _ _) => apply no_panic_ok_or
  | |- no_panic (res_bind _ _) => apply no_panic_bind; [|intros ? ?]
  | |- no_panic (if ?b then _ else _) => destruct b eqn:?
  | |- no_panic (match ?x with _ => _ end) => destruct x eqn:?
  end.

(** * Machine integers

    A w-bit unsigned integer is a [Z] in [0, 2^w); the operations that wrap
    write [wrap w]. *)

Definition wrap (w z : Z) : Z := z mod 2 ^ w.

Definition is_uint (w z : Z) : Prop := 0 <= z < 2 ^ w.
Definition is_sint (w z : Z) : Prop := - 2 ^ (w - 1) <= z < 2 ^ (w - 1).

Abbreviation is_u8 := (is_uint 8).
Abbreviation is_u16 := (is_uint 16).
Abbreviation is_u32 := (is_uint 32).
Abbreviation is_u64 := (is_uint 64).
Abbreviation is_i64 := (is_sint 64).

(** [x as iN] for an unsigned N-bit [x]: two's complement reinterpretation. *)
Definition to_signed (w z : Z) : Z :=
  let m := wrap w z in if m <? 2 ^ (w - 1) then m else m - 2 ^ w.

(** [x as uN]: the low N bits. *)
Definition to_unsigned (w z : Z) : Z := wrap w z.

(** Saturating subtraction of unsigned integers ([saturating_sub]). *)
Definition sat_sub (a b : Z) : Z := Z.max 0 (a - b).

(** The value [z >= 0] of a sum or product computed in [usize]: past 64 bits a
    debug build panics. *)
Definition usize (z : Z) : res Z := if z <? 2 ^ 64 then Ok z else Panic.

Lemma usize_Ok z : z < 2 ^ 64 -> usize z = Ok z.
Proof. intros Hz. unfold usize. by apply Z.ltb_lt in Hz as ->. Qed.

Lemma wrap_range w z : 0 <= w -> is_uint w (wrap w z).
Proof. intros. apply Z.mod_pos_bound. by apply Z.pow_pos_nonneg. Qed.

Lemma wrap_small w z : is_uint w z -> wrap w z = z.
Proof. apply Z.mod_small. Qed.

Lemma to_signed_small w z : 0 < w -> 0 <= z < 2 ^ (w - 1) -> to_signed w z = z.
Proof.
  intros Hw Hz. unfold to_signed.
  assert (2 ^ w = 2 * 2 ^ (w - 1)) as E.
  { rewrite <- Z.pow_succ_r by lia. f_equal. lia. }
  rewrite wrap_small by (unfold is_uint; lia).
  destruct (Z.ltb_spec z (2 ^ (w - 1))); lia.
Qed.

Lemma to_signed_unsigned w z : 0 < w -> is_sint w z -> to_signed w (to_unsigned w z) = z.
Proof.
  unfold is_sint, to_signed, to_unsigned, wrap. intros Hw Hz.
  assert (2 ^ w = 2 * 2 ^ (w - 1)) as E.
  { rewrite <- Z.pow_succ_r by lia. f_equal. lia. }
  rewrite Z.mod_mod by lia.
  destruct (Z.ltb_spec z 0).
  - rewrite <- (Z.mod_add z 1), Z.mod_small by lia.
    destruct (Z.ltb_spec (z + 1 * 2 ^ w) (2 ^ (w - 1))); lia.
  - rewrite Z.mod_small by lia. destruct (Z.ltb_spec z (2 ^ (w - 1))); lia.
Qed.

Lemma to_unsigned_signed w z : 0 < w -> is_uint w z -> to_unsigned w (to_signed w z) = z.
Proof.
  unfold is_uint, to_signed, to_unsigned, wrap. intros Hw Hz.
  rewrite (Z.mod_small z) by lia.
  destruct (Z.ltb_spec z (2 ^ (w - 1))).
  - apply Z.mod_small. lia.
  - rewrite <- (Z.mod_add _ 1), Z.mod_small by lia. lia.
Qed.

Lemma to_signed_range w z : 0 < w -> is_sint w (to_signed w z).
Proof.
  unfold is_sint, to_signed. intros Hw.
  pose proof (wrap_range w z ltac:(lia)) as Hr. unfold is_uint in Hr.
  assert (2 ^ w = 2 * 2 ^ (w - 1)) as E.
  { rewrite <- Z.pow_succ_r by lia. f_equal. lia. }
  destruct (Z.ltb_spec (wrap w z) (2 ^ (w - 1))); lia.
Qed.

(** * Bit operations as arithmetic *)

Lemma testbit_above_width n k i : 0 <= n < 2 ^ k -> 0 <= k <= i -> Z.testbit n i = false.
Proof.
  intros Hn Hk. rewrite <- (Z.mod_small n (2 ^ k)) by lia.
  apply Z.mod_pow2_bits_high. lia.
Qed.

Lemma lor_add_disjoint a b : Z.land a b = 0 -> Z.lor a b = a + b.
Proof. intros H. rewrite Z.add_nocarry_lxor by done. symmetry. by apply Z.lxor_lor. Qed.

(** [(a << k) | b] adds when [b] fits in the [k] low bits. *)
Lemma lor_shiftl_add a b k : 0 <= k -> 0 <= b < 2 ^ k ->
  Z.lor (Z.shiftl a k) b = a * 2 ^ k + b.
Proof.
  intros Hk Hb. rewrite <- Z.shiftl_mul_pow2 by done.
  apply lor_add_disjoint.
  apply Z.bits_inj'. intros i Hi. rewrite Z.land_spec, Z.bits_0.
  destruct (Z.ltb_spec i k).
  - by rewrite Z.shiftl_spec_low.
  - by rewrite (testbit_above_width b k), andb_false_r by lia.
Qed.

(** [a | 2^k] adds when [a] fits in the [k] low bits. *)
Lemma lor_pow2_add a k : 0 <= k -> 0 <= a < 2 ^ k -> Z.lor a (2 ^ k) = a + 2 ^ k.
Proof.
  intros Hk Ha. rewrite Z.lor_comm.
  replace (2 ^ k) with (Z.shiftl 1 k) at 1 by (rewrite Z.shiftl_1_l; done).
  rewrite lor_shiftl_add by lia. lia.
Qed.

Lemma land_ones_mod a k : 0 <= k -> Z.land a (2 ^ k - 1) = a mod 2 ^ k.
Proof. intros. rewrite <- Z.land_ones by done. f_equal. rewrite Z.ones_equiv. lia. Qed.

Lemma land_127 a : Z.land a 127 = a mod 128.
Proof. apply (land_ones_mod a 7). lia. Qed.

(** The continuation bit of a byte. *)
Lemma land_128 b : is_u8 b -> Z.land b 128 = if b <? 128 then 0 else 128.
Proof.
  intros Hb. change 128 with (2 ^ 7) at 1. unfold is_uint in Hb.
  apply Z.bits_inj'. intros i Hi.
  rewrite Z.land_spec. destruct (decide (i = 7)) as [->|Hne].
  - rewrite Z.pow2_bits_true, andb_true_r by lia.
    destruct (Z.ltb_spec b 128).
    + rewrite Z.bits_0. apply (testbit_above_width b 7); lia.
    + rewrite Z.testbit_true by lia. change (2 ^ 7) with 128.
      replace (b / 128) with 1; [done|]. apply (Z.div_unique_pos b 128 1 (b - 128)); lia.
  - rewrite Z.pow2_bits_false, andb_false_r by lia. change 128 with (2 ^ 7).
    destruct (b <? 2 ^ 7); [by rewrite Z.bits_0|].
    by rewrite Z.pow2_bits_false by lia.
Qed.

(** * Byte strings *)

Abbreviation bytes := (list Z).

Definition is_bytes (l : bytes) : Prop := Forall is_u8 l.

Definition zlen {A} (l : list A) : Z := Z.of_nat (length l).

(** [l[i]]: panics out of range. *)
Definition idx {A} (l : list A) (i : Z) : res A :=
  if i <? 0 then Panic
  else match l !! Z.to_nat i with Some x => Ok x | None => Panic end.

(** [l.get(i)]. *)
Definition get {A} (l : list A) (i : Z) : option A :=
  if i <? 0 then None else l !! Z.to_nat i.

(** The sublist at offsets [a..b). *)
Definition sub {A} (l : list A) (a b : Z) : list A :=
  take (Z.to_nat (b - a)) (drop (Z.to_nat a) l).

(** [&l[a..b]]: panics unless [a <= b <= l.len()]. *)
Definition slice {A} (l : list A) (a b : Z) : res (list A) :=
  if (0 <=? a) && (a <=? b) && (b <=? zlen l) then Ok (sub l a b) else Panic.

(** [&l[a..]]. *)
Definition slice_from {A} (l : list A) (a : Z) : res (list A) := slice l a (zlen l).

(** [l.get(a..b)]. *)
Definition get_range {A} (l : list A) (a b : Z) : option (list A) :=
  if (0 <=? a) && (a <=? b) && (b <=? zlen l) then Some (sub l a b) else None.

(** [l[i] = x]: panics out of range. *)
Definition set_idx {A} (l : list A) (i : Z) (x : A) : res (list A) :=
  if (0 <=? i) && (i <? zlen l) then Ok (<[Z.to_nat i := x]> l) else Panic.

(** [l[a..a + d.len()].copy_from_slice(d)]. *)
Definition copy_at {A} (l : list A) (a : Z) (d : list A) : res (list A) :=
  if (0 <=? a) && (a + zlen d <=? zlen l)
  then Ok (take (Z.to_nat a) l ++ d ++ drop (Z.to_nat a + length d) l) else Panic.

(** [vec![x; n]]. *)
Definition zrep {A} (n : Z) (x : A) : list A := replicate (Z.to_nat n) x.

(** Induction two elements at a time. *)
Lemma list_ind2 {A} (P : list A -> Prop) :
  P [] -> (forall x, P [x]) -> (forall x y l, P l -> P (y :: l) -> P (x :: y :: l)) -> forall l, P l.
Proof.
  intros H0 H1 H2 l. enough (P l /\ forall x, P (x :: l)) by tauto.
  induction l as [|y l [IH IH']]; [by split|]. split; [done|]. intros x. by apply H2.
Qed.

Lemma zlen_nonneg {A} (l : list A) : 0 <= zlen l.
Proof. unfold zlen. lia. Qed.

Lemma zlen_nil {A} : zlen (@nil A) = 0.
Proof. done. Qed.

Lemma zlen_cons {A} (x : A) l : zlen (x :: l) = zlen l + 1.
Proof. unfold zlen. simpl. lia. Qed.

Lemma zlen_app {A} (l k : list A) : zlen (l ++ k) = zlen l + zlen k.
Proof. unfold zlen. rewrite length_app. lia. Qed.

Lemma zlen_snoc {A} (l : list A) x : zlen (l ++ [x]) = zlen l + 1.
Proof. unfold zlen. rewrite length_app. simpl. lia. Qed.

Lemma zlen_zrep {A} n (x : A) : 0 <= n -> zlen (zrep n x) = n.
Proof. intros. unfold zlen, zrep. rewrite length_replicate. lia. Qed.

Lemma zlen_insert {A} (l : list A) i x : zlen (<[i:=x]> l) = zlen l.
Proof. unfold zlen. by rewrite length_insert. Qed.

Lemma zlen_sub {A} (l : list A) a b :
  0 <= a <= b -> b <= zlen l -> zlen (sub l a b) = b - a.
Proof. unfold zlen, sub. intros. rewrite length_take, length_drop. lia. Qed.

#[export] Hint Rewrite @zlen_nil @zlen_cons @zlen_app @zlen_insert : gsql.

Lemma idx_Ok {A} (l : list A) i x :
  idx l i = Ok x <-> 0 <= i /\ l !! Z.to_nat i = Some x.
Proof.
  unfold idx. destruct (Z.ltb_spec i 0); [split; [done|lia]|].
  destruct (l !! Z.to_nat i) eqn:E; naive_solver.
Qed.

Lemma idx_lookup {A} (l : list A) (i : nat) x :
  l !! i = Some x -> idx l (Z.of_nat i) = Ok x.
Proof. intros. apply idx_Ok. rewrite Nat2Z.id. split; [lia|done]. Qed.

Lemma idx_in_range {A} (l : list A) i :
  0 <= i < zlen l -> exists x, idx l i = Ok x.
Proof.
  unfold zlen. intros Hi.
  destruct (lookup_lt_is_Some_2 l (Z.to_nat i)) as [x Hx]; [lia|].
  exists x. apply idx_Ok. split; [lia|done].
Qed.

Lemma no_panic_idx {A} (l : list A) i : 0 <= i < zlen l -> no_panic (idx l i).
Proof. intros H. destruct (idx_in_range l i H) as [x ->]. done. Qed.

Lemma slice_Ok {A} (l : list A) a b :
  0 <= a <= b -> b <= zlen l -> slice l a b = Ok (sub l a b).
Proof.
  intros. unfold slice.
  destruct (Z.leb_spec 0 a), (Z.leb_spec a b), (Z.leb_spec b (zlen l)); simpl; lia || done.
Qed.

Lemma slice_Ok_inv {A} (l : list A) a b s :
  slice l a b = Ok s -> 0 <= a <= b /\ b <= zlen l /\ s = sub l a b.
Proof.
  unfold slice.
  destruct (Z.leb_spec 0 a), (Z.leb_spec a b), (Z.leb_spec b (zlen l)); simpl; naive_solver.
Qed.

Lemma get_range_Some {A} (l : list A) a b :
  0 <= a <= b -> b <= zlen l -> get_range l a b = Some (sub l a b).
Proof.
  intros. unfold get_range.
  destruct (Z.leb_spec 0 a), (Z.leb_spec a b), (Z.leb_spec b (zlen l)); simpl; lia || done.
Qed.

Lemma get_range_Some_inv {A} (l : list A) a b s :
  get_range l a b = Some s -> 0 <= a <= b /\ b <= zlen l /\ s = sub l a b.
Proof.
  unfold get_range.
  destruct (Z.leb_spec 0 a), (Z.leb_spec a b), (Z.leb_spec b (zlen l)); simpl; naive_solver.
Qed.

Lemma no_panic_slice {A} (l : list A) a b :
  0 <= a <= b -> b <= zlen l -> no_panic (slice l a b).
Proof. intros. by rewrite slice_Ok. Qed.

Lemma set_idx_Ok {A} (l : list A) i x :
  0 <= i < zlen l -> set_idx l i x = Ok (<[Z.to_nat i := x]> l).
Proof.
  intros. unfold set_idx. destruct (Z.leb_spec 0 i), (Z.ltb_spec i (zlen l)); simpl; lia || done.
Qed.

Lemma copy_at_Ok {A} (l : list A) a d :
  0 <= a -> a + zlen d <= zlen l ->
  copy_at l a d = Ok (take (Z.to_nat a) l ++ d ++ drop (Z.to_nat a + length d) l).
Proof.
  intros. unfold copy_at.
  destruct (Z.leb_spec 0 a), (Z.leb_spec (a + zlen d) (zlen l)); simpl; lia || done.
Qed.

Lemma zlen_copy_at {A} (l : list A) a d l' : copy_at l a d = Ok l' -> zlen l' = zlen l.
Proof.
  unfold copy_at, zlen.
  destruct (Z.leb_spec 0 a), (Z.leb_spec (a + Z.of_nat (length d)) (Z.of_nat (length l)));
    simpl; intros; simplify_eq.
  rewrite !length_app, length_take, length_drop. lia.
Qed.

(** The sublist between two landmarks of an append. *)
Lemma sub_app_exact {A} (p m s : list A) a b :
  a = zlen p -> b = a + zlen m -> sub (p ++ m ++ s) a b = m.
Proof.
  unfold sub, zlen. intros -> ->.
  rewrite drop_app_length' by lia. apply take_app_length'. lia.
Qed.

Lemma sub_full {A} (l : list A) a : sub l a (zlen l) = drop (Z.to_nat a) l.
Proof. unfold sub, zlen. apply take_ge. rewrite length_drop. lia. Qed.

Lemma is_bytes_app l k : is_bytes (l ++ k) <-> is_bytes l /\ is_bytes k.
Proof. apply Forall_app. Qed.

Lemma is_bytes_take n l : is_bytes l -> is_bytes (take n l).
Proof. apply Forall_take. Qed.

Lemma is_bytes_drop n l : is_bytes l -> is_bytes (drop n l).
Proof. apply Forall_drop. Qed.

Lemma is_bytes_sub l a b : is_bytes l -> is_bytes (sub l a b).
Proof. intros. by apply is_bytes_take, is_bytes_drop. Qed.

Lemma is_bytes_lookup l i b : is_bytes l -> l !! i = Some b -> is_u8 b.
Proof. intros Hl Hi. by apply (Forall_lookup_1 _ _ _ _ Hl Hi). Qed.

Lemma is_bytes_replicate n b : is_u8 b -> is_bytes (replicate n b).
Proof. apply Forall_replicate. Qed.

#[export] Hint Resolve is_bytes_take is_bytes_drop is_bytes_sub is_bytes_lookup
  is_bytes_replicate zlen_nonneg : gsql.

(** * Big- and little-endian integers *)

(** [x.to_be_bytes()] of an [8 * n]-bit integer (two's complement for a
    negative one). *)
Fixpoint be_bytes (n : nat) (z : Z) : bytes :=
  match n with
  | O => []
  | S n => be_bytes n (z / 256) ++ [z mod 256]
  end.

(** [from_be_bytes]. *)
Definition be_val (l : bytes) : Z := fold_left (fun acc b => acc * 256 + b) l 0.

(** [from_le_bytes]. *)
Definition le_val (l : bytes) : Z := be_val (rev l).

Lemma be_val_snoc l b : be_val (l ++ [b]) = be_val l * 256 + b.
Proof. unfold be_val. by rewrite fold_left_app. Qed.

Lemma length_be_bytes n z : length (be_bytes n z) = n.
Proof. revert z. induction n; intros; simpl; [done|]. rewrite length_app, IHn. simpl. lia. Qed.

Lemma zlen_be_bytes n z : zlen (be_bytes n z) = Z.of_nat n.
Proof. unfold zlen. by rewrite length_be_bytes. Qed.

Lemma is_bytes_be_bytes n z : is_bytes (be_bytes n z).
Proof.
  revert z. induction n; intros; simpl; [constructor|].
  apply is_bytes_app. split; [done|]. repeat constructor; unfold is_uint.
  all: pose proof (Z.mod_pos_bound z 256); lia.
Qed.

Lemma be_val_be_bytes n z : be_val (be_bytes n z) = z mod 2 ^ (8 * Z.of_nat n).
Proof.
  revert z. induction n; intros; simpl be_bytes.
  - by rewrite Z.mod_1_r.
  - rewrite be_val_snoc, IHn.
    replace (8 * Z.of_nat (S n)) with (8 + 8 * Z.of_nat n) by lia.
    rewrite Z.pow_add_r, Z.rem_mul_r by lia. change (2 ^ 8) with 256. lia.
Qed.

Lemma be_val_bound l : is_bytes l -> 0 <= be_val l < 2 ^ (8 * zlen l).
Proof.
  induction l as [|b l IH] using rev_ind; intros H; [done|].
  apply is_bytes_app in H as [Hl Hb]. inversion_clear Hb as [|? ? Hb' _].
  specialize (IH Hl). unfold is_uint in Hb'.
  rewrite be_val_snoc. autorewrite with gsql.
  replace (8 * (zlen l + (0 + 1))) with (8 + 8 * zlen l) by lia.
  pose proof (zlen_nonneg l). rewrite Z.pow_add_r by lia. change (2 ^ 8) with 256. lia.
Qed.

Lemma be_bytes_be_val l : is_bytes l -> be_bytes (length l) (be_val l) = l.
Proof.
  induction l as [|b l IH] using rev_ind; intros H; [done|].
  apply is_bytes_app in H as [Hl Hb]. inversion_clear Hb as [|? ? Hb' _].
  unfold is_uint in Hb'. change (2 ^ 8) with 256 in Hb'.
  rewrite length_app, Nat.add_1_r, be_val_snoc. simpl.
  rewrite Z.div_add_l, (Z.div_small b) by lia. rewrite Z.add_0_r, IH by done.
  by rewrite Z.add_comm, Z.mod_add, Z.mod_small by lia.
Qed.

Lemma be_val_inj l k :
  is_bytes l -> is_bytes k -> length l = length k -> be_val l = be_val k -> l = k.
Proof.
  intros Hl Hk Hlen Hv. rewrite <- (be_bytes_be_val l), <- (be_bytes_be_val k) by done.
  by rewrite Hlen, Hv.
Qed.

(** [u16::from_be_bytes([buf[at], buf[at + 1]])], with its index panics. *)
Definition be_u16 (buf : bytes) (at_ : Z) : res Z :=
  let* b0 := idx buf at_ in
  let* b1 := idx buf (at_ + 1) in
  Ok (be_val [b0; b1]).

(** [u32::from_be_bytes([buf[at], .., buf[at + 3]])]. *)
Definition be_u32 (buf : bytes) (at_ : Z) : res Z :=
  let* b0 := idx buf at_ in
  let* b1 := idx buf (at_ + 1) in
  let* b2 := idx buf (at_ + 2) in
  let* b3 := idx buf (at_ + 3) in
  Ok (be_val [b0; b1; b2; b3]).

Lemma sub_cons {A} (l : list A) a b x :
  0 <= a < b -> idx l a = Ok x -> sub l a b = x :: sub l (a + 1) b.
Proof.
  intros Hab [Ha Hx]%idx_Ok. unfold sub.
  replace (Z.to_nat (b - a)) with (S (Z.to_nat (b - (a + 1)))) by lia.
  replace (Z.to_nat (a + 1)) with (S (Z.to_nat a)) by lia.
  by rewrite (drop_S l x).
Qed.

Lemma sub_sub {A} (l : list A) a b c d : 0 <= a -> 0 <= c <= d -> d <= b - a -> sub (sub l a b) c d = sub l (a + c) (a + d).
Proof.
  intros Ha Hc Hd. unfold sub. rewrite skipn_firstn_comm, drop_drop, take_take. f_equal; [lia|]. f_equal. lia.
Qed.

Lemma sub_nil {A} (l : list A) a : sub l a a = [].
Proof. unfold sub. by rewrite Z.sub_diag. Qed.

Lemma sub_app_split {A} (l : list A) a b c :
  0 <= a <= b -> b <= c -> sub l a b ++ sub l b c = sub l a c.
Proof.
  intros. unfold sub.
  replace (drop (Z.to_nat b) l) with (drop (Z.to_nat (b - a)) (drop (Z.to_nat a) l)).
  2:{ rewrite drop_drop. f_equal. lia. }
  rewrite take_take_drop. f_equal. lia.
Qed.

Lemma be_u16_Ok buf a : 0 <= a -> a + 2 <= zlen buf ->
  be_u16 buf a = Ok (be_val (sub buf a (a + 2))).
Proof.
  intros. unfold be_u16.
  destruct (idx_in_range buf a) as [x0 E0]; [lia|]. rewrite E0.
  destruct (idx_in_range buf (a + 1)) as [x1 E1]; [lia|]. cbn [res_bind]. rewrite E1.
  rewrite (sub_cons buf a (a + 2) x0), (sub_cons buf (a + 1) (a + 2) x1) by (lia || done).
  replace (a + 1 + 1) with (a + 2) by lia. by rewrite sub_nil.
Qed.

Lemma be_u32_Ok buf a : 0 <= a -> a + 4 <= zlen buf ->
  be_u32 buf a = Ok (be_val (sub buf a (a + 4))).
Proof.
  intros. unfold be_u32.
  destruct (idx_in_range buf a) as [x0 E0]; [lia|]. rewrite E0.
  destruct (idx_in_range buf (a + 1)) as [x1 E1]; [lia|]. cbn [res_bind]. rewrite E1.
  destruct (idx_in_range buf (a + 2)) as [x2 E2]; [lia|]. cbn [res_bind]. rewrite E2.
  destruct (idx_in_range buf (a + 3)) as [x3 E3]; [lia|]. cbn [res_bind]. rewrite E3.
  rewrite (sub_cons buf a (a + 4) x0), (sub_cons buf (a + 1) (a + 4) x1) by (lia || done).
  replace (a + 1 + 1) with (a + 2) by lia. rewrite (sub_cons buf (a + 2) (a + 4) x2) by (lia || done).
  replace (a + 2 + 1) with (a + 3) by lia. rewrite (sub_cons buf (a + 3) (a + 4) x3) by (lia || done).
  replace (a + 3 + 1) with (a + 4) by lia. by rewrite sub_nil.
Qed.

Lemma be_u32_range buf a v : is_bytes buf -> be_u32 buf a = Ok v -> is_u32 v.
Proof.
  unfold be_u32. intros Hb H. res_inv. subst v.
  repeat match goal with H : idx _ _ = Ok _ |- _ => apply idx_Ok in H as [_ H]; apply (is_bytes_lookup _ _ _ Hb) in H end.
  apply (be_val_bound [_; _; _; _]). by repeat (apply Forall_cons_2 || apply Forall_nil_2).
Qed.

Lemma be_u16_range buf a v : is_bytes buf -> be_u16 buf a = Ok v -> is_u16 v.
Proof.
  unfold be_u16. intros Hb H. res_inv. subst v.
  repeat match goal with H : idx _ _ = Ok _ |- _ => apply idx_Ok in H as [_ H]; apply (is_bytes_lookup _ _ _ Hb) in H end.
  apply (be_val_bound [_; _]). by repeat (apply Forall_cons_2 || apply Forall_nil_2).
Qed.

Lemma no_panic_be_u16 buf a : 0 <= a -> a + 2 <= zlen buf -> no_panic (be_u16 buf a).
Proof. intros. by rewrite be_u16_Ok. Qed.

Lemma no_panic_be_u32 buf a : 0 <= a -> a + 4 <= zlen buf -> no_panic (be_u32 buf a).
Proof. intros. by rewrite be_u32_Ok. Qed.

Lemma be32_bytes x : is_u32 x -> be_val (be_bytes 4 x) = x.
Proof. intros H. rewrite be_val_be_bytes. by apply Z.mod_small. Qed.

Lemma sub_ext {A} (a b : list A) lo hi : 0 <= lo <= hi -> hi <= zlen a -> hi <= zlen b ->
  (forall i, lo <= i < hi -> a !! Z.to_nat i = b !! Z.to_nat i) -> sub a lo hi = sub b lo hi.
Proof.
  intros Hr Ha Hb H. unfold sub, zlen in *. apply list_eq. intros i.
  destruct (decide (i < Z.to_nat (hi - lo))%nat).
  - rewrite !lookup_take_lt, !lookup_drop by lia.
    specialize (H (lo + Z.of_nat i) ltac:(lia)). by replace (Z.to_nat (lo + Z.of_nat i)) with (Z.to_nat lo + i)%nat in H by lia.
  - rewrite !lookup_take_ge by lia. done.
Qed.

(** Writing fields one after the other: [acc] is what has been written so far
    over the front of [buf]. *)
Lemma copy_at_seq {A} (acc buf d : list A) k :
  k = zlen acc -> k + zlen d <= zlen buf ->
  copy_at (acc ++ drop (length acc) buf) k d = Ok ((acc ++ d) ++ drop (length (acc ++ d)) buf).
Proof.
  unfold zlen. intros -> H. rewrite copy_at_Ok.
  - rewrite Nat2Z.id, take_app_length, app_assoc. do 2 f_equal.
    rewrite drop_app_add, drop_drop, length_app. done.
  - lia.
  - unfold zlen. rewrite length_app, length_drop. lia.
Qed.

Lemma set_idx_seq {A} (acc buf : list A) k x :
  k = zlen acc -> k < zlen buf ->
  set_idx (acc ++ drop (length acc) buf) k x = Ok ((acc ++ [x]) ++ drop (length (acc ++ [x])) buf).
Proof.
  unfold zlen. intros -> H. rewrite set_idx_Ok.
  - rewrite Nat2Z.id, insert_take_drop by (rewrite length_app, length_drop; lia).
    rewrite take_app_length. rewrite <- app_assoc. simpl. do 3 f_equal.
    rewrite length_app. simpl. replace (S (length acc)) with (length acc + 1)%nat by lia.
    by rewrite drop_app_add, drop_drop.
  - unfold zlen. rewrite length_app, length_drop. lia.
Qed.

(** Runs a chain of adjacent writes forward. *)
Ltac zlen_solve :=
  unfold zlen in *; rewrite ?length_app, ?length_be_bytes, ?length_replicate; simpl length; lia.

Ltac write_seq :=
  repeat first
    [ rewrite copy_at_seq by zlen_solve; try bind_step
    | rewrite set_idx_seq by zlen_solve; try bind_step ].

(** A buffer made of consecutive chunks: reading back the [i]-th one. *)
Lemma concat_split {A} (cs : list (list A)) i c :
  cs !! i = Some c -> concat cs = concat (take i cs) ++ c ++ concat (drop (S i) cs).
Proof.
  intros H. rewrite <- (take_drop_middle cs i c H) at 1.
  by rewrite concat_app.
Qed.

Lemma sub_concat {A} (cs : list (list A)) i c rest a b :
  cs !! i = Some c -> a = zlen (concat (take i cs)) -> b = a + zlen c ->
  sub (concat cs ++ rest) a b = c.
Proof.
  intros Hi Ha Hb. rewrite (concat_split cs i c Hi), <- !app_assoc.
  by apply sub_app_exact.
Qed.

Lemma idx_concat {A} (cs : list (list A)) i x rest a :
  cs !! i = Some [x] -> a = zlen (concat (take i cs)) -> idx (concat cs ++ rest) a = Ok x.
Proof.
  intros Hi ->. rewrite (concat_split cs i _ Hi), <- !app_assoc.
  apply idx_lookup. rewrite lookup_app_r by lia. by rewrite Nat.sub_diag.
Qed.

Lemma zlen_concat {A} (cs : list (list A)) : zlen (concat cs) = fold_right Z.add 0 (zlen <$> cs).
Proof. induction cs as [|c cs IH]; [done|]. simpl. by rewrite zlen_app, IH. Qed.

(** [u32::is_power_of_two]. *)
Definition is_power_of_two (p : Z) : bool := (0 <? p) && (Z.land p (p - 1) =? 0).

(** Quotient and remainder of [a] by [b], as hypotheses. *)
Ltac euclid a b := pose proof (Z.div_mod a b ltac:(lia)); pose proof (Z.mod_pos_bound a b ltac:(lia)).

(** A boolean property of every number below a bound, by evaluation. *)
Lemma seq_forall (f : Z -> bool) k : forallb (fun n => f (Z.of_nat n)) (seq 0 k) = true -> forall z, 0 <= z < Z.of_nat k -> f z = true.
Proof.
  intros Hf z Hz. rewrite List.forallb_forall in Hf. specialize (Hf (Z.to_nat z)). rewrite Z2Nat.id in Hf by lia. apply Hf, List.in_seq. lia.
Qed.

Lemma is_power_of_two_pow k : 0 <= k -> is_power_of_two (2 ^ k) = true.
Proof.
  intros Hk. unfold is_power_of_two.
  assert (0 < 2 ^ k) by (by apply Z.pow_pos_nonneg).
  destruct (Z.ltb_spec 0 (2 ^ k)); [|lia]. simpl. apply Z.eqb_eq.
  rewrite land_ones_mod by done. by rewrite Z.mod_same by lia.
Qed.

(** Decimal rendering of an integer in an error message. *)
Definition fmt_Z (z : Z) : string := pretty z.
