(* ===== verification/Varint.v ===== *)
(** SQLite variable-length integers ([src/src/util/varint.rs]).

    [decode] and [encode] are translated loop by loop, on the buffers the
    source uses; the theorems show that they are mutually inverse, that the
    encoding is the unique shortest one and that no proper prefix of an
    encoding decodes, which is what lets a record header be parsed without
    separators. *)

From S2P Require Import Prelude.
Local Open Scope Z_scope.

Module Varint.

Definition MAX_LEN : Z := 9.

(** The [while i < 8] loop of [decode]: [todo = 8 - i] iterations remain. *)
Fixpoint decode_loop (buf : bytes) (todo : nat) (i : nat) (result : Z) : option (Z * Z) :=
  match todo with
  | O =>
      match buf !! 8%nat with
      | None => None
      | Some byte => Some (Z.lor (wrap 64 (Z.shiftl result 8)) byte, 9)
      end
  | S todo =>
      match buf !! i with
      | None => None
      | Some byte =>
          let result := Z.lor (wrap 64 (Z.shiftl result 7)) (Z.land byte 127) in
          if Z.land byte 128 =? 0 then Some (result, Z.of_nat (S i))
          else decode_loop buf todo (S i) result
      end
  end.

Definition decode (buf : bytes) : option (Z * Z) := decode_loop buf 8 0 0.

Definition decode_i64 (buf : bytes) : option (Z * Z) :=
  match decode buf with
  | Some (v, n) => Some (to_signed 64 v, n)
  | None => None
  end.

(** [len]: the range match of the source. *)
Definition len (value : Z) : Z :=
  if value <=? 0x7f then 1
  else if value <=? 0x3fff then 2
  else if value <=? 0x1fffff then 3
  else if value <=? 0x0fffffff then 4
  else if value <=? 0x0007ffffffff then 5
  else if value <=? 0x3ffffffffff then 6
  else if value <=? 0x1ffffffffffff then 7
  else if value <=? 0xffffffffffffff then 8
  else 9.

(** [for slot in (0..8).rev()]: the eight continuation bytes of a 9-byte form. *)
Fixpoint encode_loop9 (slot : nat) (v : Z) (out : bytes) : res bytes :=
  match slot with
  | O => Ok out
  | S slot =>
      let* out := set_idx out (Z.of_nat slot) (Z.lor (Z.land (wrap 8 v) 127) 128) in
      encode_loop9 slot (Z.shiftr v 7) out
  end.

(** [for idx in (0..n).rev()]: the [n] groups of a form of at most 8 bytes. *)
Fixpoint encode_loop (n : Z) (idx : nat) (v : Z) (out : bytes) : res bytes :=
  match idx with
  | O => Ok out
  | S idx =>
      let cont := if Z.of_nat idx =? n - 1 then 0 else 128 in
      let* out := set_idx out (Z.of_nat idx) (Z.lor (Z.land (wrap 8 v) 127) cont) in
      encode_loop n idx (Z.shiftr v 7) out
  end.

Definition encode (value : Z) (out : bytes) : res (bytes * Z) :=
  let n := len value in
  if n =? 9 then
    let* out := set_idx out 8 (wrap 8 value) in
    let* out := encode_loop9 8 (Z.shiftr value 8) out in
    Ok (out, 9)
  else
    let* out := encode_loop n (Z.to_nat n) value out in
    Ok (out, n).

Definition encode_i64 (value : Z) (out : bytes) : res (bytes * Z) :=
  encode (to_unsigned 64 value) out.

(** The pattern every caller uses: encode into a [[0u8; MAX_LEN]] scratch
    buffer and keep [&buf[..n]]. *)
Definition to_vec (value : Z) : bytes :=
  match encode value (zrep MAX_LEN 0) with
  | Ok (buf, n) => take (Z.to_nat n) buf
  | _ => []
  end.

(** ** Reference form

    [groups k v last]: [k] seven-bit groups of [v], most significant first,
    with the continuation bit on all of them, the last one excepted when
    [last] is set. *)
Fixpoint groups (k : nat) (v : Z) : bytes :=
  match k with
  | O => []
  | S k => groups k (v / 128) ++ [v mod 128 + 128]
  end.

Definition spec_bytes (v : Z) : bytes :=
  if len v =? 9 then groups 8 (v / 256) ++ [v mod 256]
  else groups (Z.to_nat (len v) - 1) (v / 128) ++ [v mod 128].

Lemma length_groups k v : length (groups k v) = k.
Proof. revert v. induction k; intros; simpl; [done|]. rewrite length_app, IHk. simpl. lia. Qed.

Lemma len_range v : 1 <= len v <= 9.
Proof. unfold len. repeat case_match; lia. Qed.

Lemma len_9 v : len v = 9 <-> 2 ^ 56 <= v.
Proof. unfold len. repeat case_match; lia. Qed.

(** [len v] is the number of groups [v] needs. *)
Lemma len_bounds v : 0 <= v -> len v < 9 ->
  v < 128 ^ (len v) /\ (1 < len v -> 128 ^ (len v - 1) <= v).
Proof. intros Hv. unfold len. repeat case_match; lia. Qed.

Lemma length_spec_bytes v : length (spec_bytes v) = Z.to_nat (len v).
Proof.
  unfold spec_bytes. pose proof (len_range v). destruct (Z.eqb_spec (len v) 9) as [->|].
  - rewrite length_app, length_groups. simpl. lia.
  - rewrite length_app, length_groups. simpl. lia.
Qed.

Lemma zlen_spec_bytes v : zlen (spec_bytes v) = len v.
Proof. unfold zlen. rewrite length_spec_bytes. pose proof (len_range v). lia. Qed.

(** ** [encode] writes the reference form *)

Lemma group_byte v : Z.lor (Z.land (wrap 8 v) 127) 128 = v mod 128 + 128.
Proof.
  rewrite land_127. unfold wrap. change (2 ^ 8) with (128 * 2).
  rewrite Z.rem_mul_r, (Z.mul_comm 128), Z.mod_add, Z.mod_mod by lia.
  apply (lor_pow2_add _ 7); [lia|]. apply Z.mod_pos_bound. lia.
Qed.

Lemma last_byte v : Z.lor (Z.land (wrap 8 v) 127) 0 = v mod 128.
Proof.
  rewrite Z.lor_0_r, land_127. unfold wrap. change (2 ^ 8) with (128 * 2).
  by rewrite Z.rem_mul_r, (Z.mul_comm 128), Z.mod_add, Z.mod_mod by lia.
Qed.

Lemma shiftr_7 v : Z.shiftr v 7 = v / 128.
Proof. by rewrite Z.shiftr_div_pow2. Qed.

(** Writing slots [k-1, ..., 0] replaces the first [k] bytes by the groups. *)
Lemma encode_loop9_spec k v out : (k <= length out)%nat ->
  encode_loop9 k v out = Ok (groups k v ++ drop k out).
Proof.
  revert v out. induction k as [|k IH]; intros v out Hk; [done|].
  simpl. rewrite set_idx_Ok by (unfold zlen; lia). simpl. rewrite Nat2Z.id, group_byte, shiftr_7.
  rewrite IH by (rewrite length_insert; lia). f_equal.
  rewrite insert_take_drop by lia.
  rewrite drop_app_length' by (rewrite length_take; lia).
  by rewrite <- app_assoc.
Qed.

Lemma encode_loop_spec n k v out : (k <= length out)%nat -> Z.of_nat k < n ->
  encode_loop n k v out = Ok (groups k v ++ drop k out).
Proof.
  revert v out. induction k as [|k IH]; intros v out Hk Hn; [done|].
  cbn [encode_loop]. destruct (Z.eqb_spec (Z.of_nat k) (n - 1)); [lia|].
  rewrite set_idx_Ok by (unfold zlen; lia). simpl. rewrite Nat2Z.id, group_byte, shiftr_7.
  rewrite IH by (rewrite ?length_insert; lia). f_equal.
  rewrite insert_take_drop by lia.
  rewrite drop_app_length' by (rewrite length_take; lia).
  by rewrite <- app_assoc.
Qed.

Lemma encode_spec v out : MAX_LEN <= zlen out ->
  encode v out = Ok (spec_bytes v ++ drop (Z.to_nat (len v)) out, len v).
Proof.
  unfold MAX_LEN, zlen. intros Hout. pose proof (len_range v) as Hl.
  unfold encode, spec_bytes. destruct (Z.eqb_spec (len v) 9) as [E|E].
  - rewrite set_idx_Ok by (unfold zlen; lia). cbn [res_bind].
    rewrite encode_loop9_spec by (rewrite length_insert; lia). cbn [res_bind].
    rewrite E, Z.shiftr_div_pow2 by lia. change (Z.to_nat 9) with 9%nat.
    change (Z.to_nat 8) with 8%nat. rewrite insert_take_drop by lia.
    rewrite drop_app_length' by (rewrite length_take; lia).
    by rewrite <- app_assoc.
  - destruct (Z.to_nat (len v)) as [|k] eqn:Ek; [lia|].
    cbn [encode_loop]. destruct (Z.eqb_spec (Z.of_nat k) (len v - 1)); [|lia].
    rewrite set_idx_Ok by (unfold zlen; lia). simpl. rewrite Nat2Z.id, last_byte, shiftr_7.
    rewrite encode_loop_spec by (rewrite ?length_insert; lia). simpl.
    rewrite insert_take_drop by lia.
    rewrite drop_app_length' by (rewrite length_take; lia).
    rewrite Nat.sub_0_r. by rewrite <- app_assoc.
Qed.

Lemma to_vec_spec v : to_vec v = spec_bytes v.
Proof.
  unfold to_vec. rewrite encode_spec by (rewrite zlen_zrep; unfold MAX_LEN; lia).
  apply take_app_length'. by rewrite length_spec_bytes.
Qed.
(** ** [decode] reads the reference form *)

Lemma decode_acc r b : 0 <= r < 2 ^ 57 ->
  Z.lor (wrap 64 (Z.shiftl r 7)) (Z.land b 127) = r * 128 + b mod 128.
Proof.
  intros Hr. rewrite wrap_small.
  2:{ unfold is_uint. rewrite Z.shiftl_mul_pow2 by lia. lia. }
  rewrite land_127, lor_shiftl_add; [done|lia|]. apply Z.mod_pos_bound. lia.
Qed.

Lemma decode_acc_last r b : 0 <= r < 2 ^ 56 -> is_u8 b ->
  Z.lor (wrap 64 (Z.shiftl r 8)) b = r * 256 + b.
Proof.
  intros Hr Hb. rewrite wrap_small.
  2:{ unfold is_uint. rewrite Z.shiftl_mul_pow2 by lia. lia. }
  by rewrite lor_shiftl_add.
Qed.

Lemma pow128_S (i : nat) : 128 ^ Z.of_nat (S i) = 128 * 128 ^ Z.of_nat i.
Proof. rewrite Nat2Z.inj_succ, Z.pow_succ_r; lia. Qed.

Lemma pow128_pos i : 0 < 128 ^ Z.of_nat i.
Proof. apply Z.pow_pos_nonneg; lia. Qed.

Lemma pow128_le (i : nat) : (i <= 8)%nat -> 128 ^ Z.of_nat i <= 2 ^ 56.
Proof. intros. change (2 ^ 56) with (128 ^ 8). apply Z.pow_le_mono_r; lia. Qed.

(** One continuation byte of the loop. *)
Lemma decode_loop_cont buf todo i r b :
  buf !! i = Some (b + 128) -> 0 <= b < 128 -> 0 <= r < 2 ^ 57 ->
  decode_loop buf (S todo) i r = decode_loop buf todo (S i) (r * 128 + b).
Proof.
  intros Hb Hr Hr'. cbn [decode_loop]. rewrite Hb.
  rewrite land_128 by (unfold is_uint; lia).
  destruct (Z.ltb_spec (b + 128) 128); [lia|]. simpl.
  rewrite decode_acc by done. f_equal.
  replace (b + 128) with (b + 1 * 128) by lia. by rewrite Z.mod_add, Z.mod_small by lia.
Qed.

(** The terminating byte. *)
Lemma decode_loop_stop buf todo i r b :
  buf !! i = Some b -> 0 <= b < 128 -> 0 <= r < 2 ^ 57 ->
  decode_loop buf (S todo) i r = Some (r * 128 + b, Z.of_nat (S i)).
Proof.
  intros Hb Hr Hr'. cbn [decode_loop]. rewrite Hb.
  rewrite land_128 by (unfold is_uint; lia).
  destruct (Z.ltb_spec b 128); [|lia]. simpl.
  by rewrite decode_acc, Z.mod_small by lia.
Qed.

Lemma groups_cons k b w : 0 <= b < 128 -> 0 <= w < 128 ^ Z.of_nat k ->
  groups (S k) (b * 128 ^ Z.of_nat k + w) = (b + 128) :: groups k w.
Proof.
  intros Hb. revert w. induction k as [|k IH]; intros w Hw.
  - change (128 ^ Z.of_nat 0) with 1 in *. replace (b * 1 + w) with b by lia.
    cbn [groups app]. by rewrite Z.mod_small by lia.
  - rewrite pow128_S in *.
    change (groups (S (S k)) ?x) with (groups (S k) (x / 128) ++ [x mod 128 + 128]).
    change (groups (S k) w) with (groups k (w / 128) ++ [w mod 128 + 128]).
    replace (b * (128 * 128 ^ Z.of_nat k) + w) with ((b * 128 ^ Z.of_nat k) * 128 + w) by lia.
    assert (0 <= w / 128 < 128 ^ Z.of_nat k).
    { split; [apply Z.div_pos; lia|apply Z.div_lt_upper_bound; lia]. }
    rewrite Z.div_add_l, IH by lia.
    by rewrite (Z.add_comm _ w), Z.mod_add by lia.
Qed.

(** Reading back [k] groups. *)
Lemma decode_loop_groups buf todo i k r w rest :
  drop i buf = groups k w ++ rest -> 0 <= w < 128 ^ Z.of_nat k ->
  (k <= todo)%nat -> (i + todo)%nat = 8%nat -> 0 <= r < 128 ^ Z.of_nat i ->
  decode_loop buf todo i r =
    decode_loop buf (todo - k) (i + k) (r * 128 ^ Z.of_nat k + w).
Proof.
  revert todo i r w. induction k as [|k IH]; intros todo i r w Hd Hw Hk Hi Hr.
  - change (128 ^ Z.of_nat 0) with 1 in *. replace (r * 1 + w) with r by lia.
    by rewrite Nat.sub_0_r, Nat.add_0_r.
  - destruct todo as [|todo]; [lia|].
    pose proof (pow128_le (S i) ltac:(lia)) as Hi8. rewrite !pow128_S in *.
    set (b := w / 128 ^ Z.of_nat k). set (w' := w mod 128 ^ Z.of_nat k).
    pose proof (pow128_pos k).
    assert (w = b * 128 ^ Z.of_nat k + w') as Ew.
    { unfold b, w'. rewrite Z.mul_comm. apply Z.div_mod. lia. }
    assert (0 <= w' < 128 ^ Z.of_nat k) by (apply Z.mod_pos_bound; lia).
    assert (0 <= b < 128).
    { split; [apply Z.div_pos; lia|]. apply Z.div_lt_upper_bound; lia. }
    rewrite Ew, groups_cons in Hd by done. simpl in Hd.
    assert (buf !! i = Some (b + 128)) as Hb.
    { rewrite <- (Nat.add_0_r i), <- lookup_drop, Hd. done. }
    rewrite (decode_loop_cont buf todo i r b) by lia || done.
    rewrite (IH todo (S i) (r * 128 + b) w').
    + simpl. rewrite Nat.add_succ_r. f_equal. lia.
    + rewrite <- Nat.add_1_r, <- drop_drop, Hd. done.
    + done.
    + lia.
    + lia.
    + rewrite pow128_S. lia.
Qed.

Lemma decode_spec_bytes v rest : is_u64 v ->
  decode (spec_bytes v ++ rest) = Some (v, len v).
Proof.
  unfold is_uint. intros Hv. pose proof (len_range v) as Hl.
  unfold decode, spec_bytes. destruct (Z.eqb_spec (len v) 9) as [E|E].
  - rewrite <- app_assoc. rewrite (decode_loop_groups _ 8 0 8 0 (v / 256) ([v mod 256] ++ rest)); try lia.
    3: change (128 ^ Z.of_nat 8) with (2 ^ 56).
    + simpl Nat.sub. cbn [decode_loop]. rewrite lookup_app_r by (rewrite length_groups; lia).
      rewrite length_groups, Nat.sub_diag. cbn [lookup list_lookup app].
      change (0 * 128 ^ Z.of_nat 8 + v / 256) with (v / 256). rewrite decode_acc_last, E.
      * f_equal. f_equal. rewrite Z.mul_comm. symmetry. apply Z.div_mod. lia.
      * split; [apply Z.div_pos|apply Z.div_lt_upper_bound]; lia.
      * unfold is_uint. apply Z.mod_pos_bound. lia.
    + done.
    + split; [apply Z.div_pos|apply Z.div_lt_upper_bound]; lia.
  - destruct (len_bounds v) as [Hlt _]; [lia..|].
    set (k := (Z.to_nat (len v) - 1)%nat) in *.
    replace (len v) with (Z.of_nat (S k)) in * by lia. rewrite pow128_S in Hlt.
    assert (0 <= v / 128 < 128 ^ Z.of_nat k) as Hw.
    { split; [apply Z.div_pos|apply Z.div_lt_upper_bound]; lia. }
    pose proof (pow128_le k ltac:(lia)).
    rewrite <- app_assoc.
    rewrite (decode_loop_groups _ 8 0 k 0 (v / 128) ([v mod 128] ++ rest)); try (done || lia).
    destruct (8 - k)%nat as [|t] eqn:Et; [lia|].
    change (0 * ?x + v / 128) with (v / 128). rewrite Nat.add_0_l.
    rewrite (decode_loop_stop _ t k (v / 128) (v mod 128)).
    + f_equal. f_equal. rewrite Z.mul_comm. symmetry. apply Z.div_mod. lia.
    + rewrite lookup_app_r by (rewrite length_groups; lia). by rewrite length_groups, Nat.sub_diag.
    + apply Z.mod_pos_bound. lia.
    + lia.
Qed.
(** ** Inversion of [decode] *)

(** Everything the loop can return: either [k] continuation bytes and a
    terminating one, or, with the eight slots used up, a ninth full byte. *)
Lemma decode_loop_inv buf todo i r v n :
  is_bytes buf -> (i + todo)%nat = 8%nat -> 0 <= r < 128 ^ Z.of_nat i ->
  decode_loop buf todo i r = Some (v, n) ->
  exists k w b, 0 <= w < 128 ^ Z.of_nat k /\
    n = Z.of_nat (S (i + k)) /\
    take (S k) (drop i buf) = groups k w ++ [b] /\
    ((k < todo)%nat /\ 0 <= b < 128 /\ v = (r * 128 ^ Z.of_nat k + w) * 128 + b \/
     k = todo /\ is_u8 b /\ v = (r * 128 ^ Z.of_nat k + w) * 256 + b).
Proof.
  intros Hbuf. revert i r. induction todo as [|todo IH]; intros i r Hi Hr H.
  - assert (i = 8%nat) as -> by lia. cbn [decode_loop] in H.
    destruct (buf !! 8%nat) as [b|] eqn:Eb; [|done]. injection H as <- <-.
    assert (is_u8 b) as Hb by eauto with gsql.
    exists O, 0, b. split; [done|]. split; [done|]. split.
    + rewrite (drop_S _ b) by done. done.
    + right. split; [done|]. split; [done|].
      rewrite decode_acc_last; [|done|done].
      change (128 ^ Z.of_nat 0) with 1. lia.
  - destruct (buf !! i) as [b|] eqn:Eb; [|by cbn [decode_loop] in H; rewrite Eb in H].
    assert (is_u8 b) as Hb by eauto with gsql. unfold is_uint in Hb.
    pose proof (pow128_le (S i) ltac:(lia)) as Hi8. rewrite pow128_S in Hi8.
    destruct (decide (b < 128)) as [Hlt|Hge].
    + rewrite (decode_loop_stop _ _ _ _ b) in H by lia || done. injection H as <- <-.
      exists O, 0, b. split; [done|]. split; [by rewrite Nat.add_0_r|]. split.
      { rewrite (drop_S _ b) by done. done. }
      left. change (128 ^ Z.of_nat 0) with 1. lia.
    + replace b with ((b - 128) + 128) in Eb by lia.
      rewrite (decode_loop_cont _ _ _ _ (b - 128)) in H by lia || done.
      apply IH in H as (k & w & c & Hw & -> & Ht & Hc); [|lia|rewrite pow128_S; lia].
      pose proof (pow128_pos k).
      exists (S k), ((b - 128) * 128 ^ Z.of_nat k + w), c.
      rewrite groups_cons, pow128_S by lia. split; [nia|]. split; [lia|]. split.
      * rewrite (drop_S _ (b - 128 + 128)) by done. by rewrite firstn_cons, Ht.
      * destruct Hc as [(Hk & Hc & ->)|(-> & Hc & ->)]; [left|right]; (split; [lia|]);
          (split; [done|]); ring.
Qed.

Lemma groups_inj_div (w b m : Z) : 0 < m -> 0 <= b < m ->
  (w * m + b) / m = w /\ (w * m + b) mod m = b.
Proof.
  intros Hm Hb. rewrite Z.div_add_l, Z.div_small by lia.
  split; [lia|]. by rewrite Z.add_comm, Z.mod_add, Z.mod_small by lia.
Qed.

Lemma len_le v (k : nat) : 0 <= v < 128 ^ Z.of_nat (S k) -> (S k <= 8)%nat -> len v <= Z.of_nat (S k).
Proof.
  intros Hv Hk. pose proof (len_range v).
  destruct (decide (len v = 9)) as [E|E].
  - apply len_9 in E. pose proof (pow128_le (S k) Hk). lia.
  - destruct (len_bounds v) as [_ Hlo]; [lia..|].
    destruct (decide (1 < len v)); [|lia]. specialize (Hlo ltac:(lia)).
    destruct (decide (len v <= Z.of_nat (S k))); [done|exfalso].
    assert (128 ^ Z.of_nat (S k) <= 128 ^ (len v - 1)) by (apply Z.pow_le_mono_r; lia). lia.
Qed.

Lemma decode_inv buf v n : is_bytes buf -> decode buf = Some (v, n) ->
  is_u64 v /\ len v <= n <= 9 /\ n <= zlen buf /\
  (n = len v -> take (Z.to_nat n) buf = spec_bytes v).
Proof.
  intros Hb H. apply decode_loop_inv in H as (k & w & b & Hw & -> & Ht & Hc); [|done..].
  rewrite Nat.add_0_l, drop_0, Nat2Z.id in *.
  assert (Z.of_nat (S k) <= zlen buf) as Hlen.
  { apply (f_equal length) in Ht. rewrite length_take, length_app, length_groups in Ht.
    unfold zlen. change (length [b]) with 1%nat in Ht. lia. }
  destruct Hc as [(Hk & Hbb & ->)|(-> & Hbb & ->)]; unfold is_uint in *.
  - pose proof (pow128_le (S k) ltac:(lia)) as H8. rewrite pow128_S in H8.
    rewrite Z.mul_0_l, Z.add_0_l. split; [lia|]. split; [|split; [done|]].
    + split; [|lia]. apply len_le; [rewrite pow128_S|]; lia.
    + intros E. rewrite Ht. unfold spec_bytes. rewrite <- E.
      destruct (Z.eqb_spec (Z.of_nat (S k)) 9); [lia|]. rewrite Nat2Z.id.
      destruct (groups_inj_div w b 128) as [-> ->]; [lia..|].
      by replace (S k - 1)%nat with k by lia.
  - change (128 ^ Z.of_nat 8) with (2 ^ 56) in *. change (Z.of_nat 9) with 9 in *.
    rewrite Z.mul_0_l, Z.add_0_l. split; [lia|]. pose proof (len_range (w * 256 + b)).
    split; [lia|]. split; [done|]. intros E. rewrite Ht. unfold spec_bytes. rewrite <- E.
    by destruct (groups_inj_div w b 256) as [-> ->]; [lia..|].
Qed.

(** [decode] looks at no byte after the ones it consumes. *)
Lemma decode_loop_app buf rest todo i r v n :
  decode_loop buf todo i r = Some (v, n) -> decode_loop (buf ++ rest) todo i r = Some (v, n).
Proof.
  revert i r. induction todo as [|todo IH]; intros i r; cbn [decode_loop].
  - destruct (buf !! 8%nat) eqn:E; [|done]. by rewrite (lookup_app_l_Some _ _ _ _ E).
  - destruct (buf !! i) eqn:E; [|done]. rewrite (lookup_app_l_Some _ _ _ _ E).
    destruct (Z.land z 128 =? 0); [done|apply IH].
Qed.

Lemma is_bytes_groups k v : is_bytes (groups k v).
Proof.
  revert v. induction k; intros; simpl; [constructor|].
  apply is_bytes_app. split; [done|]. repeat constructor; unfold is_uint;
  pose proof (Z.mod_pos_bound v 128); lia.
Qed.

Lemma is_bytes_spec_bytes v : is_bytes (spec_bytes v).
Proof.
  unfold spec_bytes. case_match; apply is_bytes_app; (split; [apply is_bytes_groups|]);
    repeat constructor; unfold is_uint.
  all: pose proof (Z.mod_pos_bound v 256); pose proof (Z.mod_pos_bound v 128); lia.
Qed.

(** ** Properties *)

(** For every [u64] value and every output buffer of at least [MAX_LEN]
    bytes, [encode] writes exactly [len v] bytes, leaves the rest of the
    buffer as it was, and [decode] applied to the written bytes followed by
    anything returns the value and the number of bytes written. *)
Theorem varint_roundtrip (v : Z) (out rest : bytes) :
  is_u64 v -> MAX_LEN <= zlen out ->
  exists out', encode v out = Ok (out', len v) /\ zlen out' = zlen out /\
    drop (Z.to_nat (len v)) out' = drop (Z.to_nat (len v)) out /\
    decode (take (Z.to_nat (len v)) out' ++ rest) = Some (v, len v).
Proof.
  intros Hv Hout. pose proof (length_spec_bytes v) as Hlen. pose proof (len_range v).
  eexists. split; [by apply encode_spec|]. split; [|split].
  - unfold zlen, MAX_LEN in *. rewrite length_app, length_drop, Hlen. lia.
  - apply drop_app_length'. lia.
  - rewrite take_app_length' by lia. by apply decode_spec_bytes.
Qed.

Lemma varint_roundtrip_witness :
  exists out', encode 0x8000000000000001 (zrep 9 0) = Ok (out', 9) /\
    decode (take 9 out' ++ [7; 7]) = Some (0x8000000000000001, 9).
Proof.
  destruct (varint_roundtrip 0x8000000000000001 (zrep 9 0) [7; 7]) as (o & H & _ & _ & D).
  - unfold is_uint. lia.
  - vm_compute. discriminate.
  - exists o. split; [exact H|exact D].
Defined.

(** A varint that decodes is a [u64] of at most nine bytes, never shorter
    than [len] says, and a decodable string of that length is byte for byte
    what [encode] writes: the encoding is the unique shortest one. *)
Theorem varint_shortest_unique (buf : bytes) (v n : Z) :
  is_bytes buf -> decode buf = Some (v, n) ->
  is_u64 v /\ len v <= n <= MAX_LEN /\ n <= zlen buf /\
  (n = len v -> take (Z.to_nat n) buf = to_vec v).
Proof. rewrite to_vec_spec. apply decode_inv. Qed.

Lemma varint_shortest_unique_witness :
  len 300 <= 2 <= MAX_LEN /\ take 2 [0x82; 0x2c; 5] = to_vec 300.
Proof.
  destruct (varint_shortest_unique [0x82; 0x2c; 5] 300 2) as (_ & H & _ & E).
  - repeat constructor; unfold is_uint; lia.
  - reflexivity.
  - split; [exact H|]. apply E. reflexivity.
Defined.

(** No proper prefix of an encoding decodes, so a truncated varint is
    always reported as such. *)
Theorem varint_truncated (v : Z) (k : nat) :
  is_u64 v -> Z.of_nat k < len v -> decode (take k (to_vec v)) = None.
Proof.
  intros Hv Hk. rewrite to_vec_spec.
  destruct (decode (take k (spec_bytes v))) as [[v' n]|] eqn:E; [exfalso|done].
  pose proof (decode_inv _ _ _ (is_bytes_take k _ (is_bytes_spec_bytes v)) E) as (_ & _ & Hn & _).
  apply decode_loop_app with (rest := drop k (spec_bytes v)) in E.
  rewrite take_drop, <- (app_nil_r (spec_bytes v)) in E.
  change (decode (spec_bytes v ++ []) = Some (v', n)) in E.
  rewrite decode_spec_bytes in E by done. injection E as <- <-.
  unfold zlen in Hn. rewrite length_take in Hn. lia.
Qed.

Lemma varint_truncated_witness : decode (take 8 (to_vec (2 ^ 63))) = None.
Proof.
  apply (varint_truncated (2 ^ 63) 8).
  - unfold is_uint. lia.
  - vm_compute. reflexivity.
Defined.
End Varint.
