(* ===== verification/Header.v ===== *)
(** The 100-byte database header ([src/src/format/header.rs]).

    [parse] and [write_to] are translated statement by statement on byte
    buffers. The theorems: [parse] cannot panic and accepts only well-formed
    headers, [write_to] followed by [parse] is the identity on well-formed
    headers, and re-serialising a parsed header reproduces the file bytes. *)

From S2P Require Import Prelude.
Local Open Scope Z_scope.

Module Header.

Definition HEADER_LEN : Z := 100.

(** [b"SQLite format 3\0"]. *)
Definition MAGIC : bytes :=
  [0x53; 0x51; 0x4c; 0x69; 0x74; 0x65; 0x20; 0x66; 0x6f; 0x72; 0x6d; 0x61; 0x74; 0x20; 0x33; 0x00].

Inductive TextEncoding : Type := Utf8 | Utf16Le | Utf16Be.

#[export] Instance TextEncoding_eq_dec : EqDecision TextEncoding.
Proof. solve_decision. Defined.

Definition from_code (code : Z) : res TextEncoding :=
  if code =? 1 then Ok Utf8
  else if code =? 2 then Ok Utf16Le
  else if code =? 3 then Ok Utf16Be
  else Err (ECorrupt ("invalid text encoding " +:+ fmt_Z code)).

Definition code (e : TextEncoding) : Z :=
  match e with Utf8 => 1 | Utf16Le => 2 | Utf16Be => 3 end.

Record DatabaseHeader : Type := mkHeader {
  page_size : Z;
  write_version : Z;
  read_version : Z;
  reserved_space : Z;
  change_counter : Z;
  size_in_pages : Z;
  freelist_trunk : Z;
  freelist_count : Z;
  schema_cookie : Z;
  schema_format : Z;
  default_cache_size : Z;
  largest_root_page : Z;
  text_encoding : TextEncoding;
  user_version : Z;
  incremental_vacuum : Z;
  application_id : Z;
  version_valid_for : Z;
  sqlite_version_number : Z;
}.

Definition parse (buf : bytes) : res DatabaseHeader :=
  if zlen buf <? HEADER_LEN then
    Err (ECorrupt ("header is " +:+ fmt_Z (zlen buf) +:+ " bytes, need 100"))
  else
  let* magic := slice buf 0 16 in
  if negb (bool_decide (magic = MAGIC)) then Err (ECorrupt "bad magic string") else
  let* raw_page_size := be_u16 buf 16 in
  let page_size := if raw_page_size =? 1 then 65536 else raw_page_size in
  if (page_size <? 512) || negb (is_power_of_two page_size) then
    Err (ECorrupt ("invalid page size " +:+ fmt_Z page_size))
  else
  let* b21 := idx buf 21 in
  let* b22 := idx buf 22 in
  let* b23 := idx buf 23 in
  if negb (b21 =? 64) || negb (b22 =? 32) || negb (b23 =? 32) then
    Err (ECorrupt "invalid payload fractions")
  else
  let* reserved_space := idx buf 20 in
  if reserved_space >=? page_size then Err (ECorrupt "reserved space exceeds page size") else
  let* write_version := idx buf 18 in
  let* read_version := idx buf 19 in
  let* change_counter := be_u32 buf 24 in
  let* size_in_pages := be_u32 buf 28 in
  let* freelist_trunk := be_u32 buf 32 in
  let* freelist_count := be_u32 buf 36 in
  let* schema_cookie := be_u32 buf 40 in
  let* schema_format := be_u32 buf 44 in
  let* default_cache_size := be_u32 buf 48 in
  let* largest_root_page := be_u32 buf 52 in
  let* enc := be_u32 buf 56 in
  let* text_encoding := from_code enc in
  let* user_version := be_u32 buf 60 in
  let* incremental_vacuum := be_u32 buf 64 in
  let* application_id := be_u32 buf 68 in
  let* version_valid_for := be_u32 buf 92 in
  let* sqlite_version_number := be_u32 buf 96 in
  Ok (mkHeader page_size write_version read_version reserved_space change_counter size_in_pages
        freelist_trunk freelist_count schema_cookie schema_format default_cache_size
        largest_root_page text_encoding user_version incremental_vacuum application_id
        version_valid_for sqlite_version_number).

Definition write_to (h : DatabaseHeader) (buf : bytes) : res bytes :=
  if zlen buf <? HEADER_LEN then
    Err (EError ("output buffer is " +:+ fmt_Z (zlen buf) +:+ " bytes, need 100"))
  else
  let* buf := copy_at buf 0 MAGIC in
  let raw_page_size := if page_size h =? 65536 then 1 else wrap 16 (page_size h) in
  let* buf := copy_at buf 16 (be_bytes 2 raw_page_size) in
  let* buf := set_idx buf 18 (write_version h) in
  let* buf := set_idx buf 19 (read_version h) in
  let* buf := set_idx buf 20 (reserved_space h) in
  let* buf := set_idx buf 21 64 in
  let* buf := set_idx buf 22 32 in
  let* buf := set_idx buf 23 32 in
  let* buf := copy_at buf 24 (be_bytes 4 (change_counter h)) in
  let* buf := copy_at buf 28 (be_bytes 4 (size_in_pages h)) in
  let* buf := copy_at buf 32 (be_bytes 4 (freelist_trunk h)) in
  let* buf := copy_at buf 36 (be_bytes 4 (freelist_count h)) in
  let* buf := copy_at buf 40 (be_bytes 4 (schema_cookie h)) in
  let* buf := copy_at buf 44 (be_bytes 4 (schema_format h)) in
  let* buf := copy_at buf 48 (be_bytes 4 (default_cache_size h)) in
  let* buf := copy_at buf 52 (be_bytes 4 (largest_root_page h)) in
  let* buf := copy_at buf 56 (be_bytes 4 (code (text_encoding h))) in
  let* buf := copy_at buf 60 (be_bytes 4 (user_version h)) in
  let* buf := copy_at buf 64 (be_bytes 4 (incremental_vacuum h)) in
  let* buf := copy_at buf 68 (be_bytes 4 (application_id h)) in
  let* buf := copy_at buf 72 (replicate 20 0) in
  let* buf := copy_at buf 92 (be_bytes 4 (version_valid_for h)) in
  copy_at buf 96 (be_bytes 4 (sqlite_version_number h)).

(** [usable_size]: a [u32] subtraction, which cannot underflow on a parsed
    header (see [header_parse_wf]). *)
Definition usable_size (h : DatabaseHeader) : Z := page_size h - reserved_space h.

Definition size_in_pages_valid (h : DatabaseHeader) : bool :=
  negb (size_in_pages h =? 0) && (version_valid_for h =? change_counter h).

(** ** Well-formed headers *)

Record wf (h : DatabaseHeader) : Prop := {
  wf_page_size : 512 <= page_size h <= 65536 /\ is_power_of_two (page_size h) = true;
  wf_bytes : is_u8 (write_version h) /\ is_u8 (read_version h) /\ is_u8 (reserved_space h);
  wf_reserved : reserved_space h < page_size h;
  wf_words : Forall is_u32
    [change_counter h; size_in_pages h; freelist_trunk h; freelist_count h; schema_cookie h;
     schema_format h; default_cache_size h; largest_root_page h; user_version h;
     incremental_vacuum h; application_id h; version_valid_for h; sqlite_version_number h];
}.

(** The stored form of the page size. *)
Definition raw_page_size (h : DatabaseHeader) : Z :=
  if page_size h =? 65536 then 1 else wrap 16 (page_size h).

(** The first hundred bytes of the file for a header, field by field. *)
Definition chunks (h : DatabaseHeader) : list bytes :=
  [ MAGIC; be_bytes 2 (raw_page_size h); [write_version h]; [read_version h];
    [reserved_space h]; [64]; [32]; [32];
    be_bytes 4 (change_counter h); be_bytes 4 (size_in_pages h);
    be_bytes 4 (freelist_trunk h); be_bytes 4 (freelist_count h);
    be_bytes 4 (schema_cookie h); be_bytes 4 (schema_format h);
    be_bytes 4 (default_cache_size h); be_bytes 4 (largest_root_page h);
    be_bytes 4 (code (text_encoding h)); be_bytes 4 (user_version h);
    be_bytes 4 (incremental_vacuum h); be_bytes 4 (application_id h);
    replicate 20 0; be_bytes 4 (version_valid_for h);
    be_bytes 4 (sqlite_version_number h) ].

Definition header_bytes (h : DatabaseHeader) : bytes := concat (chunks h).

Definition chunk_lens : list Z :=
  [16; 2; 1; 1; 1; 1; 1; 1; 4; 4; 4; 4; 4; 4; 4; 4; 4; 4; 4; 4; 20; 4; 4].

Lemma zlen_chunks h : zlen <$> chunks h = chunk_lens.
Proof. unfold chunks. cbn [fmap list_fmap]. by rewrite !zlen_be_bytes. Qed.

Lemma chunk_offset h i :
  zlen (concat (take i (chunks h))) = fold_right Z.add 0 (take i chunk_lens).
Proof. by rewrite zlen_concat, fmap_take, zlen_chunks. Qed.

Lemma zlen_header_bytes h : zlen (header_bytes h) = 100.
Proof. unfold header_bytes. by rewrite zlen_concat, zlen_chunks. Qed.

Lemma write_to_spec h buf : HEADER_LEN <= zlen buf ->
  write_to h buf = Ok (header_bytes h ++ drop 100 buf).
Proof.
  unfold HEADER_LEN. intros Hlen. unfold write_to, HEADER_LEN.
  destruct (Z.ltb_spec (zlen buf) 100); [lia|].
  fold (raw_page_size h).
  change (copy_at buf 0 MAGIC) with (copy_at ([] ++ drop (length (@nil Z)) buf) 0 MAGIC).
  write_seq. rewrite app_nil_l.
  replace 100%nat with (length (header_bytes h)).
  2:{ pose proof (zlen_header_bytes h). unfold zlen in *. lia. }
  unfold header_bytes, chunks. cbn [concat]. rewrite app_nil_r.
  by rewrite <- !app_assoc.
Qed.

(** ** Reading a header back *)

Lemma be_val_bytes_id n z : is_uint (8 * Z.of_nat n) z -> be_val (be_bytes n z) = z.
Proof. intros H. rewrite be_val_be_bytes. by apply Z.mod_small. Qed.

Lemma raw_page_size_range h : wf h ->
  0 <= raw_page_size h < 2 ^ 16 /\
  (if raw_page_size h =? 1 then 65536 else raw_page_size h) = page_size h.
Proof.
  intros [[Hp _] _ _ _]. unfold raw_page_size.
  destruct (Z.eqb_spec (page_size h) 65536) as [->|Hne]; [done|].
  rewrite wrap_small by (unfold is_uint; lia).
  destruct (Z.eqb_spec (page_size h) 1); lia.
Qed.

Lemma from_code_code e : from_code (code e) = Ok e.
Proof. by destruct e. Qed.

(** Reads at a fixed offset of a header followed by anything: the [i]-th
    chunk starts at the sum of the lengths before it. *)
Lemma be_u32_chunk h rest i z a :
  chunks h !! i = Some (be_bytes 4 z) -> a = fold_right Z.add 0 (take i chunk_lens) ->
  be_u32 (header_bytes h ++ rest) a = Ok (be_val (be_bytes 4 z)).
Proof.
  intros Hi Ha. rewrite <- (chunk_offset h) in Ha.
  assert (sub (header_bytes h ++ rest) a (a + 4) = be_bytes 4 z) as <-.
  { apply (sub_concat _ i); [done|done|by rewrite zlen_be_bytes]. }
  apply be_u32_Ok; rewrite Ha; [apply zlen_nonneg|].
  unfold header_bytes. rewrite (concat_split _ _ _ Hi), !zlen_app, zlen_be_bytes.
  pose proof (zlen_nonneg (concat (drop (S i) (chunks h)))). pose proof (zlen_nonneg rest). lia.
Qed.

Lemma idx_chunk h rest i x a :
  chunks h !! i = Some [x] -> a = fold_right Z.add 0 (take i chunk_lens) ->
  idx (header_bytes h ++ rest) a = Ok x.
Proof. intros Hi Ha. rewrite <- (chunk_offset h) in Ha. by apply (idx_concat _ i). Qed.

Lemma sub_chunk h rest i c a b :
  chunks h !! i = Some c -> a = fold_right Z.add 0 (take i chunk_lens) -> b = a + zlen c ->
  sub (header_bytes h ++ rest) a b = c.
Proof. intros Hi Ha Hb. rewrite <- (chunk_offset h) in Ha. by apply (sub_concat _ i). Qed.

Lemma parse_header_bytes h rest : wf h -> parse (header_bytes h ++ rest) = Ok h.
Proof.
  intros Hwf. pose proof (raw_page_size_range h Hwf) as [Hraw Hps].
  destruct Hwf as [[Hp Hpow] (Hw & Hr & Hs) Hres Hwords].
  repeat rewrite Forall_cons in Hwords. destruct_and! Hwords.
  assert (100 <= zlen (header_bytes h ++ rest)) as Hlen.
  { rewrite zlen_app, zlen_header_bytes. pose proof (zlen_nonneg rest). lia. }
  unfold parse, HEADER_LEN.
  destruct (Z.ltb_spec (zlen (header_bytes h ++ rest)) 100); [lia|].
  rewrite slice_Ok, (sub_chunk h rest 0 MAGIC) by (done || lia). bind_step.
  rewrite bool_decide_eq_true_2 by done. cbn [negb].
  rewrite be_u16_Ok, (sub_chunk h rest 1 (be_bytes 2 (raw_page_size h)))
    by (done || rewrite ?zlen_be_bytes; lia).
  bind_step. rewrite be_val_bytes_id, Hps, Hpow by (unfold is_uint; simpl; lia).
  destruct (Z.ltb_spec (page_size h) 512); [lia|]. cbn [orb negb].
  rewrite (idx_chunk h rest 5 64), (idx_chunk h rest 6 32), (idx_chunk h rest 7 32),
    (idx_chunk h rest 4 (reserved_space h)) by done.
  do 4 bind_step. cbn [Z.eqb Pos.eqb negb orb].
  rewrite Z.geb_leb. destruct (Z.leb_spec (page_size h) (reserved_space h)); [lia|].
  rewrite (idx_chunk h rest 2 (write_version h)), (idx_chunk h rest 3 (read_version h)) by done.
  do 2 bind_step.
  rewrite (be_u32_chunk h rest 8 (change_counter h) 24) by done. bind_step.
  rewrite (be_u32_chunk h rest 9 (size_in_pages h) 28) by done. bind_step.
  rewrite (be_u32_chunk h rest 10 (freelist_trunk h) 32) by done. bind_step.
  rewrite (be_u32_chunk h rest 11 (freelist_count h) 36) by done. bind_step.
  rewrite (be_u32_chunk h rest 12 (schema_cookie h) 40) by done. bind_step.
  rewrite (be_u32_chunk h rest 13 (schema_format h) 44) by done. bind_step.
  rewrite (be_u32_chunk h rest 14 (default_cache_size h) 48) by done. bind_step.
  rewrite (be_u32_chunk h rest 15 (largest_root_page h) 52) by done. bind_step.
  rewrite (be_u32_chunk h rest 16 (code (text_encoding h)) 56) by done. bind_step.
  rewrite (be_val_bytes_id 4 (code (text_encoding h))) by (destruct (text_encoding h); unfold is_uint; simpl; lia).
  rewrite from_code_code. bind_step.
  rewrite (be_u32_chunk h rest 17 (user_version h) 60) by done. bind_step.
  rewrite (be_u32_chunk h rest 18 (incremental_vacuum h) 64) by done. bind_step.
  rewrite (be_u32_chunk h rest 19 (application_id h) 68) by done. bind_step.
  rewrite (be_u32_chunk h rest 21 (version_valid_for h) 92) by done. bind_step.
  rewrite (be_u32_chunk h rest 22 (sqlite_version_number h) 96) by done. bind_step.
  rewrite !be_val_bytes_id by done. by destruct h.
Qed.

(** ** What [parse] accepts *)

Lemma from_code_inv c e : from_code c = Ok e -> code e = c.
Proof.
  unfold from_code.
  destruct (Z.eqb_spec c 1), (Z.eqb_spec c 2), (Z.eqb_spec c 3); intros; by simplify_eq.
Qed.

Lemma no_panic_from_code c : no_panic (from_code c).
Proof. unfold from_code. by repeat case_match. Qed.

Lemma idx_u8 buf i b : is_bytes buf -> idx buf i = Ok b -> is_u8 b.
Proof. intros Hb [_ H]%idx_Ok. by apply (is_bytes_lookup _ _ _ Hb H). Qed.

Lemma no_panic_parse buf : no_panic (parse buf).
Proof.
  unfold parse, HEADER_LEN. destruct (Z.ltb_spec (zlen buf) 100) as [|Hlen]; [done|].
  rewrite slice_Ok by lia. bind_step.
  repeat (cbv zeta; first [np_step|apply no_panic_be_u16; lia|apply no_panic_be_u32; lia
    |apply no_panic_idx; lia|apply no_panic_from_code]).
Qed.

Lemma idx_sub1 (buf : bytes) a b x : idx buf a = Ok x -> b = a + 1 -> sub buf a b = [x].
Proof.
  intros H ->. assert (0 <= a) by (by apply idx_Ok in H as [? _]).
  rewrite (sub_cons _ _ _ x) by (done || lia). by rewrite sub_nil.
Qed.

Lemma be_bytes_sub n buf a b : is_bytes buf -> 0 <= a -> b = a + Z.of_nat n -> b <= zlen buf ->
  be_bytes n (be_val (sub buf a b)) = sub buf a b.
Proof.
  intros Hb Ha -> Hle.
  assert (length (sub buf a (a + Z.of_nat n)) = n) as E.
  { pose proof (zlen_sub buf a (a + Z.of_nat n) ltac:(lia) Hle). unfold zlen in *. lia. }
  rewrite <- E at 1. by apply be_bytes_be_val, is_bytes_sub.
Qed.

Lemma be_u32_sub4 buf a b v : is_bytes buf -> 0 <= a -> b = a + 4 -> b <= zlen buf ->
  be_u32 buf a = Ok v -> be_bytes 4 v = sub buf a b /\ is_u32 v.
Proof.
  intros Hb Ha -> Hle H. split; [|by eapply be_u32_range].
  rewrite be_u32_Ok in H by lia. injection H as <-. by apply be_bytes_sub.
Qed.

(** The stored page-size field read back. *)
Lemma raw_page_size_inv r p h : is_u16 r -> p = (if r =? 1 then 65536 else r) ->
  page_size h = p -> 512 <= p -> p <= 65536 /\ raw_page_size h = r.
Proof.
  unfold is_uint, raw_page_size. intros Hr Hp Hh H5. rewrite Hh.
  destruct (Z.eqb_spec r 1); [by subst|].
  destruct (Z.eqb_spec p 65536); [lia|]. split; [lia|].
  rewrite wrap_small by (unfold is_uint; lia). done.
Qed.

(** A parsed header is well formed, and the fields are the bytes of the file
    (the twenty reserved bytes at 72 are not looked at). *)
Lemma parse_inv buf h : is_bytes buf -> parse buf = Ok h ->
  100 <= zlen buf /\ wf h /\
  take 20 (chunks h) ++ [sub buf 72 92] ++ drop 21 (chunks h) =
  [ sub buf 0 16; sub buf 16 18; sub buf 18 19; sub buf 19 20; sub buf 20 21; sub buf 21 22;
    sub buf 22 23; sub buf 23 24; sub buf 24 28; sub buf 28 32; sub buf 32 36; sub buf 36 40;
    sub buf 40 44; sub buf 44 48; sub buf 48 52; sub buf 52 56; sub buf 56 60; sub buf 60 64;
    sub buf 64 68; sub buf 68 72; sub buf 72 92; sub buf 92 96; sub buf 96 100 ].
Proof.
  intros Hb. unfold parse, HEADER_LEN.
  destruct (Z.ltb_spec (zlen buf) 100) as [|Hlen]; [done|].
  rewrite slice_Ok by lia. bind_step.
  destruct (bool_decide_reflect (sub buf 0 16 = MAGIC)) as [Hmagic|]; [|done]. cbn [negb].
  intros (r & Er & H)%res_bind_Ok. set (p := if r =? 1 then 65536 else r) in *.
  destruct (Z.ltb_spec p 512) as [|Hp]; [done|].
  destruct (is_power_of_two p) eqn:Hpow; [|done]. cbn [orb negb] in H.
  apply res_bind_Ok in H as (b21 & E21 & H). apply res_bind_Ok in H as (b22 & E22 & H).
  apply res_bind_Ok in H as (b23 & E23 & H).
  destruct (Z.eqb_spec b21 64) as [->|]; [|done]. destruct (Z.eqb_spec b22 32) as [->|]; [|done].
  destruct (Z.eqb_spec b23 32) as [->|]; [|done]. cbn [orb negb] in H.
  apply res_bind_Ok in H as (rs & E20 & H). rewrite Z.geb_leb in H.
  destruct (Z.leb_spec p rs) as [|Hrs]; [done|].
  apply res_bind_Ok in H as (wv & E18 & H). apply res_bind_Ok in H as (rv & E19 & H).
  repeat (let x := fresh "x" in let E := fresh "E" in apply res_bind_Ok in H as (x & E & H)).
  injection H as <-. split; [done|].
  repeat match goal with E : be_u32 buf ?a = Ok _ |- _ =>
    apply (be_u32_sub4 _ a (a + 4) _ Hb ltac:(lia) eq_refl ltac:(lia)) in E as [? ?]; simpl Z.add in * end.
  match goal with E : from_code _ = Ok _ |- _ => apply from_code_inv in E end.
  pose proof (be_u16_range _ _ _ Hb Er) as Hr.
  rewrite be_u16_Ok in Er by lia. injection Er as Er.
  pose proof (raw_page_size_inv r p) as Hraw.
  split.
  - constructor; simpl.
    + destruct (Hraw (mkHeader p 0 0 0 0 0 0 0 0 0 0 0 Utf8 0 0 0 0 0)) as [? _]; [done..|].
      split; [lia|done].
    + split; [|split]; eapply idx_u8; eauto.
    + done.
    + by repeat (apply Forall_cons_2 || apply Forall_nil_2).
  - unfold chunks. cbn -[be_bytes sub MAGIC replicate raw_page_size code].
    match goal with |- context [raw_page_size ?h] => destruct (Hraw h) as [_ ->]; [done..|] end.
    rewrite <- Er, (be_bytes_sub 2 buf 16 (16 + 2)) by (done || lia).
    rewrite !(idx_sub1 buf _ _ _ E18), !(idx_sub1 buf _ _ _ E19), !(idx_sub1 buf _ _ _ E20),
      !(idx_sub1 buf _ _ _ E21), !(idx_sub1 buf _ _ _ E22), !(idx_sub1 buf _ _ _ E23) by done.
    match goal with E : code _ = _ |- _ => rewrite E end.
    repeat match goal with E : be_bytes 4 _ = _ |- _ => rewrite E; clear E end.
    by rewrite Hmagic.
Qed.
Lemma sub_chain {A} (l : list A) a b c rest :
  0 <= a <= b -> b <= c -> sub l a b ++ sub l b c ++ rest = sub l a c ++ rest.
Proof. intros. by rewrite app_assoc, sub_app_split. Qed.

(** ** Properties *)

(** Writing a well-formed header over any buffer of at least 100 bytes
    and parsing the result gives the header back; bytes past the header are
    left alone. *)
Theorem header_roundtrip (h : DatabaseHeader) (buf : bytes) :
  wf h -> HEADER_LEN <= zlen buf ->
  exists buf', write_to h buf = Ok buf' /\ parse buf' = Ok h /\
    zlen buf' = zlen buf /\ drop 100 buf' = drop 100 buf.
Proof.
  intros Hwf Hlen. exists (header_bytes h ++ drop 100 buf).
  pose proof (zlen_header_bytes h) as Hz. unfold HEADER_LEN, zlen in *.
  split; [by apply write_to_spec|]. split; [by apply parse_header_bytes|]. split.
  - rewrite length_app, length_drop. lia.
  - apply drop_app_length'. lia.
Qed.

(** A header as [sqlite3] writes it for a fresh two-page database. *)
Definition sample : DatabaseHeader :=
  mkHeader 4096 1 1 0 2 2 0 0 1 4 0 0 Utf8 0 0 0 2 3046001.

Lemma wf_sample : wf sample.
Proof.
  constructor; [split; [simpl; lia|done]|by unfold is_uint; simpl; lia|simpl; lia|].
  by repeat (apply Forall_cons_2 || apply Forall_nil_2).
Qed.

Lemma header_roundtrip_witness :
  exists buf', write_to sample (zrep 100 7) = Ok buf' /\ parse buf' = Ok sample.
Proof.
  destruct (header_roundtrip sample (zrep 100 7)) as (b & H1 & H2 & _).
  - exact wf_sample.
  - vm_compute. discriminate.
  - exists b. split; assumption.
Defined.

(** On any byte string at all [parse] returns or reports an error, never
    panics; and whatever it accepts is well formed, so that [usable_size]
    does not underflow and is at least 257 bytes. *)
Theorem header_parse_wf (buf : bytes) :
  is_bytes buf ->
  no_panic (parse buf) /\
  forall h, parse buf = Ok h -> wf h /\ 257 <= usable_size h <= 65536.
Proof.
  intros Hb. split; [apply no_panic_parse|]. intros h (_ & Hwf & _)%parse_inv; [|done].
  split; [done|]. destruct Hwf as [[? _] (_ & _ & Hr) _ _].
  unfold usable_size, is_uint in *. lia.
Qed.

Lemma header_parse_wf_witness :
  no_panic (parse (header_bytes sample)) /\ 257 <= usable_size sample <= 65536.
Proof.
  destruct (header_parse_wf (header_bytes sample)) as [H1 H2].
  - vm_compute. repeat constructor; discriminate.
  - split; [exact H1|]. apply (H2 sample). vm_compute. reflexivity.
Defined.

(** Re-serialising what was parsed over the original bytes gives the
    original bytes back, whenever the twenty reserved bytes at offset 72 are
    zero, as the format requires. *)
Theorem header_reserialize (buf : bytes) (h : DatabaseHeader) :
  is_bytes buf -> parse buf = Ok h -> sub buf 72 92 = replicate 20 0 ->
  write_to h buf = Ok buf.
Proof.
  intros Hb (Hlen & _ & Hch)%parse_inv Hz; [|done]. rewrite Hz in Hch.
  change (take 20 (chunks h) ++ [replicate 20 0] ++ drop 21 (chunks h)) with (chunks h) in Hch.
  rewrite write_to_spec by (unfold HEADER_LEN; lia). f_equal.
  unfold header_bytes. rewrite Hch, <- Hz. cbn [concat].
  rewrite !sub_chain by lia. rewrite app_nil_r.
  change 100%nat with (Z.to_nat 100). unfold sub.
  change (drop (Z.to_nat 0) buf) with buf. apply take_drop.
Qed.

Lemma header_reserialize_witness : write_to sample (header_bytes sample) = Ok (header_bytes sample).
Proof.
  apply (header_reserialize (header_bytes sample) sample).
  - vm_compute. repeat constructor; discriminate.
  - vm_compute. reflexivity.
  - vm_compute. reflexivity.
Defined.
End Header.
