(* ===== verification/Value.v ===== *)
(** The dynamic value model ([src/src/value.rs]): the five storage classes,
    SQLite's total ordering with its collations, the custom-collation registry
    and the record serial types.

    An [f64] is its 64-bit pattern. Comparison, truncation and conversion are
    defined through the exact dyadic value of the pattern, scaled by [2^1074]
    so that every finite double is an integer ([f64_key]); no rounding is
    hidden in the model. *)

From S2P Require Import Prelude.
Local Open Scope Z_scope.

Module Value.

(** ** IEEE-754 doubles *)

Inductive fclass : Type :=
  | FNan
  | FInf (neg : bool)
  | FFin (m e : Z).   (** the value [m * 2^e] *)

Definition f64_class (bits : Z) : fclass :=
  let neg := Z.testbit bits 63 in
  let ex := Z.land (Z.shiftr bits 52) 0x7ff in
  let frac := Z.land bits (2 ^ 52 - 1) in
  let sgn m := if neg then - m else m in
  if ex =? 0x7ff then (if frac =? 0 then FInf neg else FNan)
  else if ex =? 0 then FFin (sgn frac) (-1074)
  else FFin (sgn (2 ^ 52 + frac)) (ex - 1075).

(** The value scaled by [2^1074]; infinities lie beyond every finite one. *)
Definition f64_key (bits : Z) : option Z :=
  match f64_class bits with
  | FNan => None
  | FInf neg => Some (if neg then - 2 ^ 2100 else 2 ^ 2100)
  | FFin m e => Some (m * 2 ^ (e + 1074))
  end.

(** The scaled key of an integer. *)
Definition int_key (i : Z) : Z := i * 2 ^ 1074.

(** [f64::partial_cmp]. *)
Definition f64_partial_cmp (x y : Z) : option comparison :=
  match f64_key x, f64_key y with
  | Some a, Some b => Some (a ?= b)
  | _, _ => None
  end.

(** [r as i64] for a finite [r] in range: truncation toward zero. *)
Definition f64_trunc (bits : Z) : Z :=
  match f64_key bits with
  | Some k => Z.quot k (2 ^ 1074)
  | None => 0
  end.

(** [i as f64]: round to nearest, ties to even, of the magnitude; the result
    as the scaled key of the double. *)
Definition i64_to_f64_key (i : Z) : Z :=
  let a := Z.abs i in
  if a <? 2 ^ 53 then int_key i
  else
    let k := Z.log2 a - 52 in
    let q := a / 2 ^ k in
    let r := a mod 2 ^ k in
    let half := 2 ^ (k - 1) in
    let q := if (half <? r) || ((half =? r) && Z.odd q) then q + 1 else q in
    int_key (Z.sgn i * (q * 2 ^ k)).

(** ** Values *)

Inductive Value : Type :=
  | Null
  | Integer (i : Z)
  | Real (bits : Z)
  | Text (t : bytes)
  | Blob (b : bytes).

#[export] Instance Value_eq_dec : EqDecision Value.
Proof. solve_decision. Defined.

(** A value of the Rust type: integers are [i64], reals bit patterns, and the
    strings bytes. *)
Definition wf_value (v : Value) : Prop :=
  match v with
  | Null => True
  | Integer i => is_i64 i
  | Real r => is_u64 r
  | Text t => is_bytes t
  | Blob b => is_bytes b
  end.

(** [core::str::from_utf8(..).is_ok()]. *)
Definition is_cont (b : Z) : bool := (0x80 <=? b) && (b <=? 0xbf).

Fixpoint utf8_valid (l : bytes) : bool :=
  match l with
  | [] => true
  | b0 :: t =>
      if b0 <? 0x80 then utf8_valid t
      else if (0xc2 <=? b0) && (b0 <=? 0xdf) then
        match t with
        | b1 :: t => is_cont b1 && utf8_valid t
        | _ => false
        end
      else if (0xe0 <=? b0) && (b0 <=? 0xef) then
        match t with
        | b1 :: b2 :: t =>
            (if b0 =? 0xe0 then (0xa0 <=? b1) && (b1 <=? 0xbf)
             else if b0 =? 0xed then (0x80 <=? b1) && (b1 <=? 0x9f)
             else is_cont b1) && is_cont b2 && utf8_valid t
        | _ => false
        end
      else if (0xf0 <=? b0) && (b0 <=? 0xf4) then
        match t with
        | b1 :: b2 :: b3 :: t =>
            (if b0 =? 0xf0 then (0x90 <=? b1) && (b1 <=? 0xbf)
             else if b0 =? 0xf4 then (0x80 <=? b1) && (b1 <=? 0x8f)
             else is_cont b1) && is_cont b2 && is_cont b3 && utf8_valid t
        | _ => false
        end
      else false
  end.

(** [Text::as_str]: the text itself when it is valid UTF-8, else "". *)
Definition as_str (t : bytes) : bytes := if utf8_valid t then t else [].

(** [Ord] for byte slices. *)
Fixpoint bytes_cmp (x y : bytes) : comparison :=
  match x, y with
  | [], [] => Eq
  | [], _ :: _ => Lt
  | _ :: _, [] => Gt
  | a :: x, b :: y => match a ?= b with Eq => bytes_cmp x y | c => c end
  end.

(** [u8::to_ascii_lowercase]. *)
Definition to_ascii_lowercase (b : Z) : Z := if (65 <=? b) && (b <=? 90) then b + 32 else b.

(** [trim_end_matches(' ')]. *)
Fixpoint drop_spaces (l : bytes) : bytes :=
  match l with
  | b :: t => if b =? 32 then drop_spaces t else l
  | [] => []
  end.
Definition trim_end_spaces (l : bytes) : bytes := rev (drop_spaces (rev l)).

(** ** Collations and the custom-collation registry *)

Inductive Collation : Type := Binary | NoCase | RTrim | Custom (id : Z).

#[export] Instance Collation_eq_dec : EqDecision Collation.
Proof. solve_decision. Defined.

(** ASCII names as byte strings. *)
Definition str (s : string) : bytes := (fun a => Z.of_N (Ascii.N_of_ascii a)) <$> String.list_ascii_of_string s.

Definition lowercase (s : bytes) : bytes := to_ascii_lowercase <$> s.

(** [Collation::parse]. *)
Definition collation_parse (name : bytes) : option Collation :=
  let l := lowercase name in
  if bool_decide (l = str "binary") then Some Binary
  else if bool_decide (l = str "nocase") then Some NoCase
  else if bool_decide (l = str "rtrim") then Some RTrim
  else None.

(** [registry::Registry]: names map to an id, ids index [names] and [fns]. *)
Record Registry : Type := mkRegistry {
  by_name : gmap (list Z) Z;
  names : list bytes;
  fns : list (bytes -> bytes -> comparison);
}.

Definition registry_empty : Registry := mkRegistry ∅ [] [].

(** [registry::register]: replaces the function of a known name, else appends
    a new id. *)
Definition register (reg : Registry) (name : bytes) (f : bytes -> bytes -> comparison) : res (Registry * Z) :=
  let key := lowercase name in
  match by_name reg !! key with
  | Some id =>
      let* fns' := set_idx (fns reg) id f in
      let* names' := set_idx (names reg) id name in
      Ok (mkRegistry (by_name reg) names' fns', id)
  | None =>
      let id := wrap 32 (zlen (fns reg)) in
      Ok (mkRegistry (<[key := id]> (by_name reg)) (names reg ++ [name]) (fns reg ++ [f]), id)
  end.

Definition resolve_name (reg : Registry) (name : bytes) : option Z := by_name reg !! lowercase name.

Definition name_of (reg : Registry) (id : Z) : option bytes := get (names reg) id.

Definition registry_compare (reg : Registry) (id : Z) (x y : bytes) : comparison :=
  match get (fns reg) id with
  | Some f => f x y
  | None => bytes_cmp x y
  end.

(** [resolve_collation_name] (the [std] build). *)
Definition resolve_collation_name (reg : Registry) (name : bytes) : option Collation :=
  match collation_parse name with
  | Some c => Some c
  | None => Custom <$> resolve_name reg name
  end.

(** [collation_name]. *)
Definition collation_name (reg : Registry) (coll : Collation) : bytes :=
  match coll with
  | Binary => str "BINARY"
  | NoCase => str "NOCASE"
  | RTrim => str "RTRIM"
  | Custom id => default (str "BINARY") (name_of reg id)
  end.

(** ** Comparison *)

Definition cmp_text (reg : Registry) (x y : bytes) (coll : Collation) : comparison :=
  match coll with
  | Binary => bytes_cmp x y
  | NoCase => bytes_cmp (lowercase x) (lowercase y)
  | RTrim => bytes_cmp (trim_end_spaces x) (trim_end_spaces y)
  | Custom id => registry_compare reg id x y
  end.

Definition opt_eq (o : option comparison) : comparison := default Eq o.

(** [int_float_cmp]: an exact integer/double comparison. *)
Definition int_float_cmp (i r : Z) : comparison :=
  match f64_key r with
  | None => Eq
  | Some k =>
      if k <? int_key (- 2 ^ 63) then Gt
      else if int_key (2 ^ 63) <=? k then Lt
      else
        let y := f64_trunc r in
        match i ?= y with
        | Eq => i64_to_f64_key i ?= k
        | other => other
        end
  end.

Definition class (v : Value) : Z :=
  match v with
  | Null => 0
  | Integer _ | Real _ => 1
  | Text _ => 2
  | Blob _ => 3
  end.

Definition cmp_values (a b : Value) : comparison :=
  match a, b with
  | Null, Null => Eq
  | Integer x, Integer y => x ?= y
  | Real x, Real y => opt_eq (f64_partial_cmp x y)
  | Integer i, Real r => int_float_cmp i r
  | Real r, Integer i => CompOpp (int_float_cmp i r)
  | Text x, Text y => bytes_cmp x y
  | Blob x, Blob y => bytes_cmp x y
  | _, _ => class a ?= class b
  end.

(** [cmp_values_coll]: text operands go through [Deref], i.e. [as_str]. *)
Definition cmp_values_coll (reg : Registry) (a b : Value) (coll : Collation) : comparison :=
  match a, b with
  | Text x, Text y => cmp_text reg (as_str x) (as_str y) coll
  | _, _ => cmp_values a b
  end.

(** ** Serial types *)

Definition content_len (s : Z) : option Z :=
  if (s =? 0) || (s =? 8) || (s =? 9) then Some 0
  else if s =? 1 then Some 1
  else if s =? 2 then Some 2
  else if s =? 3 then Some 3
  else if s =? 4 then Some 4
  else if s =? 5 then Some 6
  else if (s =? 6) || (s =? 7) then Some 8
  else if (s =? 10) || (s =? 11) then None
  else if s mod 2 =? 0 then Some ((s - 12) / 2)
  else Some ((s - 13) / 2).

Definition in_range (lo hi i : Z) : bool := (lo <=? i) && (i <=? hi).

Definition for_value (v : Value) : Z :=
  match v with
  | Null => 0
  | Integer i =>
      if i =? 0 then 8
      else if i =? 1 then 9
      else if in_range (-0x80) 0x7f i then 1
      else if in_range (-0x8000) 0x7fff i then 2
      else if in_range (-0x800000) 0x7fffff i then 3
      else if in_range (-0x80000000) 0x7fffffff i then 4
      else if in_range (-0x800000000000) 0x7fffffffffff i then 5
      else 6
  | Real _ => 7
  | Blob b => wrap 64 (12 + 2 * zlen b)
  | Text s => wrap 64 (13 + 2 * zlen s)
  end.
(** ** Exactness of the integer/double comparison *)

Lemma f64_class_bounds r m e : f64_class r = FFin m e -> Z.abs m < 2 ^ 53 /\ -1074 <= e.
Proof.
  unfold f64_class. change 0x7ff with (2 ^ 11 - 1). rewrite !land_ones_mod by lia.
  set (ex := Z.shiftr r 52 mod 2 ^ 11). set (frac := r mod 2 ^ 52).
  assert (0 <= ex < 2 ^ 11) by (apply Z.mod_pos_bound; lia).
  assert (0 <= frac < 2 ^ 52) by (apply Z.mod_pos_bound; lia).
  clearbody ex frac. cbv zeta.
  destruct (Z.eqb_spec ex (2 ^ 11 - 1)); [destruct (frac =? 0); discriminate|].
  destruct (Z.eqb_spec ex 0), (Z.testbit r 63); intros H1; injection H1 as <- <-; lia.
Qed.

Lemma pow1074_pos : 0 < 2 ^ 1074.
Proof. done. Qed.

(** An integer with at most 53 significant bits converts exactly. *)
Lemma i64_to_f64_key_exact m e : 0 <= e -> Z.abs m < 2 ^ 53 ->
  i64_to_f64_key (m * 2 ^ e) = int_key (m * 2 ^ e).
Proof.
  intros He Hm. unfold i64_to_f64_key. set (i := m * 2 ^ e). set (a := Z.abs i).
  destruct (Z.ltb_spec a (2 ^ 53)) as [|Ha]; [done|].
  assert (0 < 2 ^ e) by (apply Z.pow_pos_nonneg; lia).
  assert (a = Z.abs m * 2 ^ e) as Ea.
  { unfold a, i. rewrite Z.abs_mul, (Z.abs_eq (2 ^ e)); lia. }
  set (k := Z.log2 a - 52).
  assert (53 <= Z.log2 a) by (apply Z.log2_le_pow2; lia).
  assert (k <= e) as Hk.
  { unfold k. enough (Z.log2 a < 53 + e) by lia. apply Z.log2_lt_pow2; [lia|].
    rewrite Z.pow_add_r by lia. nia. }
  assert (a = (Z.abs m * 2 ^ (e - k)) * 2 ^ k) as Ediv.
  { rewrite <- Z.mul_assoc, <- Z.pow_add_r by lia. by replace (e - k + k) with e by lia. }
  assert (0 < 2 ^ k) by (apply Z.pow_pos_nonneg; lia).
  assert (0 < 2 ^ (k - 1)) by (apply Z.pow_pos_nonneg; lia).
  assert (a mod 2 ^ k = 0) as -> by (rewrite Ediv; apply Z.mod_mul; lia).
  destruct (Z.ltb_spec (2 ^ (k - 1)) 0); [lia|].
  destruct (Z.eqb_spec (2 ^ (k - 1)) 0); [lia|]. cbn [orb andb].
  rewrite Ediv, Z.div_mul, <- Ediv by lia. f_equal.
  unfold a. rewrite Z.mul_comm. apply Z.abs_sgn.
Qed.

Lemma quot_rem_bounds k S : 0 < S ->
  k = S * Z.quot k S + Z.rem k S /\
  (0 <= k -> 0 <= Z.rem k S < S /\ 0 <= Z.quot k S) /\
  (k < 0 -> - S < Z.rem k S <= 0 /\ Z.quot k S <= 0).
Proof.
  intros HS. pose proof (Z.quot_rem' k S). split; [done|]. split; intros Hk.
  - split; [apply Z.rem_bound_pos; lia|apply Z.quot_pos; lia].
  - assert (- S < Z.rem k S <= 0).
    { pose proof (Z.rem_bound_pos (- k) S ltac:(lia) HS) as Hr. rewrite Z.rem_opp_l in Hr by lia. lia. }
    split; [done|]. nia.
Qed.

(** Comparing with the truncated value decides the exact comparison. *)
Lemma quot_cmp i k S : 0 < S ->
  (i < Z.quot k S -> i * S < k) /\ (Z.quot k S < i -> k < i * S).
Proof.
  intros HS. destruct (quot_rem_bounds k S HS) as (? & ? & ?).
  destruct (Z.le_gt_cases 0 k); nia.
Qed.

Lemma quot_abs_le k S : 0 < S -> Z.abs (Z.quot k S) * S <= Z.abs k.
Proof.
  intros HS. destruct (quot_rem_bounds k S HS) as (? & ? & ?).
  destruct (Z.le_gt_cases 0 k); nia.
Qed.

Lemma int_float_cmp_key i r k : is_i64 i -> f64_key r = Some k ->
  int_float_cmp i r = (int_key i ?= k).
Proof.
  unfold is_sint. intros Hi Hk. unfold int_float_cmp. rewrite Hk.
  pose proof pow1074_pos as HS. unfold int_key in *.
  destruct (Z.ltb_spec k (- 2 ^ 63 * 2 ^ 1074)).
  { symmetry. apply Z.compare_gt_iff. nia. }
  destruct (Z.leb_spec (2 ^ 63 * 2 ^ 1074) k).
  { symmetry. apply Z.compare_lt_iff. nia. }
  unfold f64_trunc. rewrite Hk. destruct (quot_cmp i k (2 ^ 1074) HS) as [Hlt Hgt].
  destruct (Z.compare_spec i (Z.quot k (2 ^ 1074))) as [Heq| |];
    [|symmetry; by apply Z.compare_lt_iff, Hlt|symmetry; by apply Z.compare_gt_iff, Hgt].
  f_equal. destruct (Z.lt_ge_cases (Z.abs i) (2 ^ 53)) as [Hs|Hb].
  { unfold i64_to_f64_key. by destruct (Z.ltb_spec (Z.abs i) (2 ^ 53)); [|lia]. }
  unfold f64_key in Hk. destruct (f64_class r) as [|neg|m e] eqn:Ec; [done| |].
  { destruct neg; injection Hk as <-; exfalso; [clear Hgt Hlt; lia|].
    change (2 ^ 63 * 2 ^ 1074) with (2 ^ 1137) in *. lia. }
  injection Hk as <-. apply f64_class_bounds in Ec as [Hm He].
  assert (0 < e) as Hep.
  { destruct (Z.lt_ge_cases 0 e); [done|exfalso].
    assert (2 ^ (e + 1074) <= 2 ^ 1074) by (apply Z.pow_le_mono_r; lia).
    assert (0 < 2 ^ (e + 1074)) by (apply Z.pow_pos_nonneg; lia).
    pose proof (Z.quot_rem' (m * 2 ^ (e + 1074)) (2 ^ 1074)) as Hq. rewrite <- Heq in Hq.
    assert (Z.abs (m * 2 ^ (e + 1074)) < 2 ^ 53 * 2 ^ 1074) by (rewrite Z.abs_mul; nia).
    assert (Z.abs i * 2 ^ 1074 <= Z.abs (m * 2 ^ (e + 1074))); [|nia].
    rewrite Heq. by apply quot_abs_le. }
  assert (i = m * 2 ^ e) as ->.
  { rewrite Heq, Z.pow_add_r, Z.mul_assoc by lia. apply Z.quot_mul. lia. }
  apply i64_to_f64_key_exact; lia.
Qed.
(** ** The ordering is a total preorder *)

Lemma bytes_cmp_refl x : bytes_cmp x x = Eq.
Proof. induction x as [|a x IH]; simpl; [done|]. by rewrite Z.compare_refl. Qed.

Lemma bytes_cmp_eq x y : bytes_cmp x y = Eq <-> x = y.
Proof.
  split; [|intros ->; apply bytes_cmp_refl].
  revert y. induction x as [|a x IH]; intros [|b y]; simpl; try done.
  destruct (Z.compare_spec a b); try done. intros. f_equal; [done|by apply IH].
Qed.

Lemma bytes_cmp_antisym x y : bytes_cmp y x = CompOpp (bytes_cmp x y).
Proof.
  revert y. induction x as [|a x IH]; intros [|b y]; simpl; try done.
  rewrite (Z.compare_antisym a b). by destruct (a ?= b); simpl.
Qed.

Lemma bytes_cmp_trans x y z : bytes_cmp x y <> Gt -> bytes_cmp y z <> Gt -> bytes_cmp x z <> Gt.
Proof.
  revert y z. induction x as [|a x IH]; intros [|b y] [|c z]; simpl; try done.
  destruct (Z.compare_spec a b), (Z.compare_spec b c), (Z.compare_spec a c);
    try done; subst; try lia; eauto.
Qed.

Lemma int_key_compare i j : (int_key i ?= int_key j) = (i ?= j).
Proof.
  pose proof pow1074_pos. unfold int_key. generalize dependent (2 ^ 1074). intros S HS.
  destruct (Z.compare_spec i j);
    [subst; apply Z.compare_refl|apply Z.compare_lt_iff|apply Z.compare_gt_iff]; nia.
Qed.

#[local] Opaque int_key f64_key int_float_cmp.

(** The key a value sorts by: storage class, numeric value, bytes. *)
Definition num_key (v : Value) : option Z :=
  match v with
  | Integer i => Some (int_key i)
  | Real r => f64_key r
  | _ => Some 0
  end.

Definition payload_bytes (v : Value) : bytes :=
  match v with Text t => t | Blob b => b | _ => [] end.

Definition key_cmp (a b : Value) : comparison :=
  match class a ?= class b with
  | Eq =>
      match default 0 (num_key a) ?= default 0 (num_key b) with
      | Eq => bytes_cmp (payload_bytes a) (payload_bytes b)
      | c => c
      end
  | c => c
  end.

Definition is_nan (v : Value) : bool :=
  match v with Real r => match f64_key r with None => true | _ => false end | _ => false end.

Lemma cmp_values_key a b : wf_value a -> wf_value b -> is_nan a = false -> is_nan b = false ->
  cmp_values a b = key_cmp a b.
Proof.
  unfold key_cmp.
  destruct a as [|i|r|t|bl], b as [|j|q|u|cl];
    cbn [cmp_values class num_key payload_bytes from_option id is_nan wf_value Z.compare Pos.compare
         Pos.compare_cont bytes_cmp];
    intros Ha Hb Na Nb; try reflexivity.
  - cbn [from_option id]. rewrite int_key_compare. by destruct (i ?= j).
  - destruct (f64_key q) as [k|] eqn:E; [|done]. rewrite (int_float_cmp_key _ _ k) by done. cbn [from_option id].
    by destruct (_ ?= _).
  - destruct (f64_key r) as [k|] eqn:E; [|done]. rewrite (int_float_cmp_key _ _ k) by done. cbn [from_option id].
    rewrite <- Z.compare_antisym. by destruct (_ ?= _).
  - unfold f64_partial_cmp. destruct (f64_key r) as [k|], (f64_key q) as [l|]; try done.
    cbn [opt_eq from_option id]. by destruct (_ ?= _).
Qed.

Lemma key_cmp_refl a : key_cmp a a = Eq.
Proof. unfold key_cmp. rewrite !Z.compare_refl. apply bytes_cmp_refl. Qed.

Lemma key_cmp_antisym a b : key_cmp b a = CompOpp (key_cmp a b).
Proof.
  unfold key_cmp. rewrite (Z.compare_antisym (class a) (class b)).
  destruct (class a ?= class b); try done. simpl.
  rewrite (Z.compare_antisym (default 0 (num_key a))).
  destruct (default 0 (num_key a) ?= _); try done. simpl. apply bytes_cmp_antisym.
Qed.

Lemma key_cmp_trans a b c : key_cmp a b <> Gt -> key_cmp b c <> Gt -> key_cmp a c <> Gt.
Proof.
  unfold key_cmp.
  destruct (Z.compare_spec (class a) (class b)), (Z.compare_spec (class b) (class c)),
    (Z.compare_spec (class a) (class c)); try done; try lia.
  destruct (Z.compare_spec (default 0 (num_key a)) (default 0 (num_key b))),
    (Z.compare_spec (default 0 (num_key b)) (default 0 (num_key c))),
    (Z.compare_spec (default 0 (num_key a)) (default 0 (num_key c))); try done; try lia.
  apply bytes_cmp_trans.
Qed.

(** ** Serial types *)

(** The number of body bytes [encode_record] writes for a value of serial
    type [s]. *)
Definition int_width (s : Z) : Z :=
  if s =? 5 then 6 else if s =? 6 then 8 else s.

Lemma for_value_int_spec i : is_i64 i ->
  exists s, for_value (Integer i) = s /\ 1 <= s <= 9 /\ s <> 7 /\
  (s = 8 <-> i = 0) /\ (s = 9 <-> i = 1) /\
  (s <= 6 -> content_len s = Some (int_width s) /\ is_sint (8 * int_width s) i).
Proof.
  unfold is_sint. intros Hi. eexists. split; [done|].
  unfold for_value, in_range, int_width.
  destruct (Z.eqb_spec i 0) as [->|]; [done|]. destruct (Z.eqb_spec i 1) as [->|]; [done|].
  repeat match goal with
  | |- context [(?a <=? ?b) && (?c <=? ?d)] => destruct (Z.leb_spec a b), (Z.leb_spec c d); cbn [andb]
  end; (split; [lia|]); (split; [lia|]); (split; [lia|]); (split; [lia|]); intros _;
    (split; [reflexivity|cbv [Z.eqb Pos.eqb]; lia]).
Qed.
Lemma for_value_width_le i w : w ∈ [1; 2; 3; 4; 6; 8] -> is_sint (8 * w) i ->
  for_value (Integer i) <= 6 -> int_width (for_value (Integer i)) <= w.
Proof.
  unfold is_sint, for_value, in_range. intros Hw Hfit.
  assert (forall s, s ∈ [1; 2; 3; 4; 5; 6] -> int_width s <= 8) as H8.
  { intros s Hs. unfold int_width.
    repeat (apply elem_of_cons in Hs as [->|Hs]); [done..|by apply elem_of_nil in Hs]. }
  repeat (apply elem_of_cons in Hw as [->|Hw]); [..|by apply elem_of_nil in Hw];
  destruct (Z.eqb_spec i 0); try (intros; lia); destruct (Z.eqb_spec i 1); try (intros; lia); intros _;
  repeat match goal with
  | |- context [(?a <=? ?b) && (?c <=? ?d)] => destruct (Z.leb_spec a b), (Z.leb_spec c d); cbn [andb]
  end; cbv [int_width Z.eqb Pos.eqb]; lia.
Qed.

(** ** The collation registry *)

(** Names and functions grow together, every name's id is in range, and two
    names never share an id. *)
Record wf_registry (reg : Registry) : Prop := {
  reg_len : length (names reg) = length (fns reg);
  reg_small : zlen (fns reg) < 2 ^ 32;
  reg_range : forall k id, by_name reg !! k = Some id -> 0 <= id < zlen (fns reg);
  reg_inj : forall k k' id, by_name reg !! k = Some id -> by_name reg !! k' = Some id -> k = k';
}.

Lemma get_lookup {A} (l : list A) i : 0 <= i -> get l i = l !! Z.to_nat i.
Proof. intros. unfold get. by destruct (Z.ltb_spec i 0); [lia|]. Qed.

Lemma register_Ok reg name f : wf_registry reg -> zlen (fns reg) + 1 < 2 ^ 32 ->
  exists reg' id, register reg name f = Ok (reg', id) /\ wf_registry reg' /\
    0 <= id < zlen (fns reg') /\
    by_name reg' !! lowercase name = Some id /\
    (forall k, k <> lowercase name -> by_name reg' !! k = by_name reg !! k) /\
    get (fns reg') id = Some f /\ get (names reg') id = Some name /\
    (forall k i, k <> lowercase name -> by_name reg !! k = Some i ->
       get (fns reg') i = get (fns reg) i).
Proof.
  intros [Hlen Hsm Hr Hinj] Hroom. unfold register.
  destruct (by_name reg !! lowercase name) as [id|] eqn:E.
  - specialize (Hr _ _ E) as Hid.
    rewrite set_idx_Ok by done. bind_step.
    rewrite set_idx_Ok by (unfold zlen in *; lia). bind_step.
    eexists _, id. split; [reflexivity|]. cbn [fns names by_name].
    rewrite zlen_insert, !get_lookup by lia.
    rewrite !list_lookup_insert_eq by (unfold zlen in *; lia).
    split; [constructor; cbn [fns names by_name]; rewrite ?length_insert, ?zlen_insert; try done; lia|].
    split_and!; try (done || lia).
    intros k i Hk Hi. specialize (Hr _ _ Hi).
    rewrite !get_lookup, list_lookup_insert_ne; [done| |lia..].
    intros Heq. apply Hk, (Hinj _ _ id); [|done]. by replace id with i by lia.
  - rewrite wrap_small by (unfold is_uint; pose proof (zlen_nonneg (fns reg)); lia).
    eexists _, _. split; [reflexivity|]. cbn [fns names by_name].
    pose proof (zlen_nonneg (fns reg)). autorewrite with gsql.
    split.
    { constructor; cbn [fns names by_name].
      - rewrite !length_app. simpl. lia.
      - autorewrite with gsql. lia.
      - intros k i. autorewrite with gsql. rewrite lookup_insert. case_decide.
        + intros [= <-]. lia.
        + intros Hi%Hr. lia.
      - intros k k' i. rewrite !lookup_insert. repeat case_decide; intros Q1 Q2; simplify_eq; try done.
        + apply Hr in Q2. lia.
        + apply Hr in Q1. lia.
        + by eapply Hinj. }
    split; [lia|]. rewrite lookup_insert_eq. split; [done|].
    split; [intros k Hk; by rewrite lookup_insert_ne|].
    unfold get, zlen. rewrite Nat2Z.id.
    destruct (Z.ltb_spec (Z.of_nat (length (fns reg))) 0); [lia|].
    rewrite !lookup_app_r, Hlen, !Nat.sub_diag by lia. split; [done|]. split; [done|].
    intros k i Hk Hi. apply Hr in Hi. destruct (Z.ltb_spec i 0); [lia|].
    apply lookup_app_l. unfold zlen in Hi. lia.
Qed.

(** ** Properties *)

(** C39: [cmp_values] is a total preorder on the values of the Rust type that
    are not NaN (SQLite never stores one): reflexive, antisymmetric up to
    [Ordering::reverse] and transitive; and an integer compares with a double
    by their exact mathematical values, never through a rounded [f64]. *)
Theorem cmp_values_total_order (a b c : Value) :
  wf_value a -> wf_value b -> wf_value c ->
  is_nan a = false -> is_nan b = false -> is_nan c = false ->
  cmp_values a a = Eq /\
  cmp_values b a = CompOpp (cmp_values a b) /\
  (cmp_values a b <> Gt -> cmp_values b c <> Gt -> cmp_values a c <> Gt) /\
  (forall i r k, a = Integer i -> b = Real r -> f64_key r = Some k ->
     cmp_values a b = (int_key i ?= k)).
Proof.
  intros Ha Hb Hc Na Nb Nc. rewrite !cmp_values_key by done. split_and!.
  - apply key_cmp_refl.
  - apply key_cmp_antisym.
  - apply key_cmp_trans.
  - intros i r k -> -> Hk. rewrite <- cmp_values_key by done. simpl. by apply int_float_cmp_key.
Qed.

(** [2^53 + 1] against the double [2^53]: a comparison through [f64] would
    call them equal. *)
Lemma cmp_values_total_order_witness :
  cmp_values (Integer (2 ^ 53 + 1)) (Real 0x4340000000000000) = Gt /\
  cmp_values (Real 0x4340000000000000) (Integer (2 ^ 53 + 1)) = Lt.
Proof.
  destruct (cmp_values_total_order (Integer (2 ^ 53 + 1)) (Real 0x4340000000000000) Null)
    as (_ & H & _ & E).
  - unfold wf_value, is_sint. lia.
  - unfold wf_value, is_uint. lia.
  - exact I.
  - reflexivity.
  - vm_compute. reflexivity.
  - reflexivity.
  - specialize (E (2 ^ 53 + 1) 0x4340000000000000 _ eq_refl eq_refl eq_refl).
    split; [rewrite E; vm_compute; reflexivity|].
    rewrite H, E. vm_compute. reflexivity.
Defined.

(** Registering a custom collation never panics while fewer than [2^32]
    are registered; afterwards the name (in any ASCII case) resolves to an id
    that compares with the given function, every other name still resolves
    to what it did and still compares with the same function, and the
    registry's invariant is kept. *)
Theorem registry_register_spec (reg : Registry) (name : bytes) (f : bytes -> bytes -> comparison) :
  wf_registry reg -> zlen (fns reg) + 1 < 2 ^ 32 ->
  exists reg' id, register reg name f = Ok (reg', id) /\ wf_registry reg' /\
    (forall name', lowercase name' = lowercase name -> resolve_name reg' name' = Some id) /\
    (forall x y, cmp_text reg' x y (Custom id) = f x y) /\
    name_of reg' id = Some name /\
    (forall other, lowercase other <> lowercase name ->
       resolve_name reg' other = resolve_name reg other /\
       forall j x y, resolve_name reg other = Some j ->
         cmp_text reg' x y (Custom j) = cmp_text reg x y (Custom j)).
Proof.
  intros Hwf Hroom. destruct (register_Ok reg name f Hwf Hroom)
    as (reg' & id & HR & Hwf' & _ & Hid & Hoth & Hf & Hn & Hfo).
  exists reg', id. unfold resolve_name, name_of. cbn [cmp_text]. unfold registry_compare.
  split_and!; try done.
  - by intros name' ->.
  - intros. by rewrite Hf.
  - intros other Hne. split; [by apply Hoth|]. intros j x y Hj. by rewrite (Hfo _ _ Hne Hj).
Qed.

Lemma wf_registry_empty : wf_registry registry_empty.
Proof. by constructor. Qed.

Lemma registry_register_spec_witness :
  exists reg' id, register registry_empty (str "MyColl") (fun _ _ => Eq) = Ok (reg', id) /\
    resolve_name reg' (str "MYCOLL") = Some id.
Proof.
  destruct (registry_register_spec registry_empty (str "MyColl") (fun _ _ => Eq))
    as (reg' & id & H & _ & E & _).
  - exact wf_registry_empty.
  - vm_compute. reflexivity.
  - exists reg', id. split; [exact H|]. apply E. vm_compute. reflexivity.
Defined.

(** The serial type chosen for an integer is the narrowest one: the two
    literals 0 and 1 take no body, and otherwise any of the widths 1, 2, 3, 4,
    6, 8 that can hold the value is at least the chosen width. *)
Theorem for_value_narrowest (i w : Z) :
  is_i64 i -> w ∈ [1; 2; 3; 4; 6; 8] -> is_sint (8 * w) i ->
  exists n, content_len (for_value (Integer i)) = Some n /\ n <= w /\
    (n = 0 <-> i = 0 \/ i = 1) /\ (0 < n -> is_sint (8 * n) i).
Proof.
  intros Hi Hw Hfit. destruct (for_value_int_spec i Hi) as (s & Hs & Hr & H7 & H8 & H9 & Hle).
  assert (s = 8 \/ s = 9 \/ s <= 6) as [->|[->|H6]] by lia.
  - exists 0. rewrite Hs. repeat (apply elem_of_cons in Hw as [->|Hw]); try by apply elem_of_nil in Hw.
    all: split; [done|]; lia.
  - exists 0. rewrite Hs. repeat (apply elem_of_cons in Hw as [->|Hw]); try by apply elem_of_nil in Hw.
    all: split; [done|]; lia.
  - destruct (Hle H6) as [Hc Hsint]. exists (int_width s). rewrite Hs. split; [done|].
    assert (1 <= int_width s) by (unfold int_width; repeat case_match; lia).
    split; [|split; [lia|done]]. rewrite <- Hs. clear Hsint Hc Hle H8 H9 H7 Hr. subst s.
    by apply for_value_width_le.
Qed.

Lemma for_value_narrowest_witness :
  exists n, content_len (for_value (Integer (-40000))) = Some n /\ n <= 4.
Proof.
  destruct (for_value_narrowest (-40000) 4) as (n & H & L & _).
  - unfold is_sint. lia.
  - set_solver.
  - unfold is_sint. lia.
  - exists n. split; assumption.
Defined.

(** C35 (a finding): [cmp_values_coll] with the [BINARY] collation is meant to
    be [cmp_values], but it reads its operands through [Deref], which turns
    text that is not valid UTF-8 into the empty string: any two texts that are
    not UTF-8 compare equal, although their bytes differ. *)
Theorem cmp_values_coll_non_utf8 (reg : Registry) (x y : bytes) :
  utf8_valid x = false -> utf8_valid y = false -> x <> y ->
  cmp_values_coll reg (Text x) (Text y) Binary = Eq /\ cmp_values (Text x) (Text y) <> Eq.
Proof.
  intros Hx Hy Hne. simpl. unfold as_str. rewrite Hx, Hy. split; [done|].
  by rewrite bytes_cmp_eq.
Qed.

Lemma cmp_values_coll_non_utf8_witness :
  cmp_values_coll registry_empty (Text [0xff]) (Text [0xfe]) Binary = Eq /\
  cmp_values (Text [0xff]) (Text [0xfe]) <> Eq.
Proof.
  apply (cmp_values_coll_non_utf8 registry_empty [0xff] [0xfe]).
  - reflexivity.
  - reflexivity.
  - discriminate.
Defined.

(** On valid UTF-8 the two comparisons agree. *)
Lemma cmp_values_coll_binary reg a b :
  (forall t, a = Text t -> utf8_valid t = true) -> (forall t, b = Text t -> utf8_valid t = true) ->
  cmp_values_coll reg a b Binary = cmp_values a b.
Proof.
  intros Ha Hb. destruct a, b; try done. simpl. unfold as_str.
  by rewrite Ha, Hb by done.
Qed.
End Value.
