(* ===== verification/Record.v ===== *)
(** The record format ([src/src/format/record.rs]): a header of serial-type
    varints followed by the column bodies.

    [encode_record] and [decode_record] are translated with their loops; the
    fixed-point loop for the header length and the column loop carry fuel,
    which is shown to suffice. The theorems: decoding an encoded row gives the
    row back, and decoding arbitrary bytes never panics and yields only values
    of the Rust type. *)

From S2P Require Import Prelude Varint Header Value.
Import Varint Header Value.
Local Open Scope Z_scope.

Module Record.

(** ** Encoding *)

(** The [loop] that finds a header length including its own varint. Nine
    rounds always suffice ([header_len_loop_spec]); running out of fuel is
    mapped to a panic so that no theorem can hide it. *)
Fixpoint header_len_loop (fuel : nat) (serial_len header_len : Z) : res Z :=
  match fuel with
  | O => Panic
  | S fuel =>
      let n := len header_len in
      if n + serial_len =? header_len then Ok header_len
      else header_len_loop fuel serial_len (n + serial_len)
  end.

(** The body written for one column. *)
Definition encode_body (v : Value) (s : Z) : res bytes :=
  match v with
  | Null => Ok []
  | Integer i =>
      if (i =? 0) || (i =? 1) then Ok []
      else
        let n := default 0 (content_len s) in
        slice_from (be_bytes 8 i) (8 - n)
  | Real r => Ok (be_bytes 8 r)
  | Text t => Ok t
  | Blob b => Ok b
  end.

(** [for (v, s) in values.iter().zip(&serials)]. *)
Fixpoint encode_bodies (vs : list (Value * Z)) (out : bytes) : res bytes :=
  match vs with
  | [] => Ok out
  | (v, s) :: vs =>
      let* b := encode_body v s in
      encode_bodies vs (out ++ b)
  end.

Definition encode_record (values : list Value) : res bytes :=
  let serials := for_value <$> values in
  let serial_bytes := concat (to_vec <$> serials) in
  let* header_len := header_len_loop 10 (zlen serial_bytes) (zlen serial_bytes + 1) in
  encode_bodies (zip values serials) (to_vec header_len ++ serial_bytes).

(** ** Decoding *)

(** [sign_extend]: shift left, then arithmetic shift right. *)
Definition sign_extend (body : bytes) (nbytes : Z) : res Z :=
  let* b := slice body 0 nbytes in
  let v := fold_left (fun v b => Z.lor (wrap 64 (Z.shiftl v 8)) b) b 0 in
  let shift := 64 - nbytes * 8 in
  Ok (Z.shiftr (to_signed 64 (wrap 64 (Z.shiftl v shift))) shift).

(** [char::decode_utf16(..).collect::<Result<String, _>>]: code points, with
    surrogate pairs combined and a lone surrogate an error. *)
Fixpoint utf16_decode (units : list Z) : option (list Z) :=
  match units with
  | [] => Some []
  | u :: rest =>
      if (u <? 0xd800) || (0xe000 <=? u) then
        match utf16_decode rest with Some cs => Some (u :: cs) | None => None end
      else if 0xdc00 <=? u then None
      else
        match rest with
        | u2 :: rest =>
            if (0xdc00 <=? u2) && (u2 <=? 0xdfff) then
              match utf16_decode rest with
              | Some cs => Some (0x10000 + (u - 0xd800) * 0x400 + (u2 - 0xdc00) :: cs)
              | None => None
              end
            else None
        | [] => None
        end
  end.

(** UTF-8 encoding of a code point ([String::into_bytes]). *)
Definition utf8_char (c : Z) : bytes :=
  if c <? 0x80 then [c]
  else if c <? 0x800 then [0xc0 + c / 64; 0x80 + c mod 64]
  else if c <? 0x10000 then [0xe0 + c / 4096; 0x80 + c / 64 mod 64; 0x80 + c mod 64]
  else [0xf0 + c / 262144; 0x80 + c / 4096 mod 64; 0x80 + c / 64 mod 64; 0x80 + c mod 64].

(** [body.as_chunks::<2>().0] read as 16-bit units. *)
Fixpoint units16 (big : bool) (body : bytes) : list Z :=
  match body with
  | a :: b :: rest => (if big then be_val [a; b] else le_val [a; b]) :: units16 big rest
  | _ => []
  end.

Definition decode_text (body : bytes) (encoding : TextEncoding) : res bytes :=
  match encoding with
  | Utf8 => Ok body
  | _ =>
      if negb (zlen body mod 2 =? 0) then Err (ECorrupt "odd-length UTF-16 text")
      else
        let big := bool_decide (encoding = Utf16Be) in
        match utf16_decode (units16 big body) with
        | Some cs => Ok (concat (utf8_char <$> cs))
        | None => Err (ECorrupt "invalid UTF-16 text")
        end
  end.

(** [iN::from_be_bytes([body[0], ..])] for [n] bytes. *)
Definition be_int (n : nat) (body : bytes) : res Z :=
  let* b := slice body 0 (Z.of_nat n) in
  Ok (to_signed (8 * Z.of_nat n) (be_val b)).

Definition decode_value (serial : Z) (body : bytes) (encoding : TextEncoding) : res Value :=
  if serial =? 0 then Ok Null
  else if serial =? 1 then let* i := be_int 1 body in Ok (Integer i)
  else if serial =? 2 then let* i := be_int 2 body in Ok (Integer i)
  else if serial =? 3 then let* i := sign_extend body 3 in Ok (Integer i)
  else if serial =? 4 then let* i := be_int 4 body in Ok (Integer i)
  else if serial =? 5 then let* i := sign_extend body 6 in Ok (Integer i)
  else if serial =? 6 then let* i := be_int 8 body in Ok (Integer i)
  else if serial =? 7 then let* b := slice body 0 8 in Ok (Real (be_val b))
  else if serial =? 8 then Ok (Integer 0)
  else if serial =? 9 then Ok (Integer 1)
  else if (12 <=? serial) && (serial mod 2 =? 0) then Ok (Blob body)
  else let* t := decode_text body encoding in Ok (Text t).

(** [while hdr < header_len]; every round consumes at least one header byte,
    so [length bytes] rounds suffice. *)
Fixpoint decode_loop (fuel : nat) (bytes : bytes) (encoding : TextEncoding)
    (header_len hdr body : Z) (values : list Value) : res (list Value) :=
  if header_len <=? hdr then Ok values
  else
    match fuel with
    | O => Panic
    | S fuel =>
        let* rest := slice_from bytes hdr in
        let* (raw, used) := ok_or (decode rest) (ECorrupt "truncated serial type") in
        let hdr := hdr + used in
        let* n := ok_or (content_len raw) (ECorrupt ("reserved serial type " +:+ fmt_Z raw)) in
        if zlen bytes <? body + n then Err (ECorrupt "record body shorter than header implies")
        else
          let* b := slice bytes body (body + n) in
          let* value := decode_value raw b encoding in
          decode_loop fuel bytes encoding header_len hdr (body + n) (values ++ [value])
    end.

Definition decode_record (bytes : bytes) (encoding : TextEncoding) : res (list Value) :=
  let* (header_len, n) := ok_or (decode bytes) (ECorrupt "truncated record header length") in
  if zlen bytes <? header_len then
    Err (ECorrupt ("record header length " +:+ fmt_Z header_len +:+ " exceeds record size " +:+
                   fmt_Z (zlen bytes)))
  else decode_loop (length bytes) bytes encoding header_len n header_len [].
(** ** The header length *)

Lemma len_mono a b : a <= b -> len a <= len b.
Proof. intros H. unfold len. repeat case_match; lia. Qed.

Lemma header_len_loop_spec fuel s n :
  0 <= s -> 1 <= n <= 9 -> n <= len (n + s) -> 10 - n <= Z.of_nat fuel ->
  exists h, header_len_loop fuel s (n + s) = Ok h /\ h = len h + s.
Proof.
  intros Hs. revert n. induction fuel as [|fuel IH]; intros n Hn Hle Hf; [lia|].
  cbn [header_len_loop]. destruct (Z.eqb_spec (len (n + s) + s) (n + s)) as [E|E].
  - exists (n + s). split; [done|lia].
  - pose proof (len_range (n + s)). apply IH; [lia| |lia]. apply len_mono. lia.
Qed.

(** ** Column bodies *)

(** Reference form of the body of a column. *)
Definition value_body (v : Value) : bytes :=
  match v with
  | Null => []
  | Integer i => if (i =? 0) || (i =? 1) then [] else be_bytes (Z.to_nat (int_width (for_value v))) i
  | Real r => be_bytes 8 r
  | Text t => t
  | Blob b => b
  end.

(** Values the encoder is ever given: of the Rust type and of a length that
    fits an address space. *)
Definition storable (v : Value) : Prop := wf_value v /\ zlen (payload_bytes v) < 2 ^ 62.

Lemma drop_be_bytes k n z : drop k (be_bytes (k + n) z) = be_bytes n z.
Proof.
  revert z. induction n as [|n IH]; intros z.
  - rewrite Nat.add_0_r. apply drop_ge. by rewrite length_be_bytes.
  - rewrite Nat.add_succ_r. cbn [be_bytes].
    rewrite drop_app_le by (rewrite length_be_bytes; lia). by rewrite IH.
Qed.

(** Integers other than the literals 0 and 1 take one of the widths 1..6. *)
Lemma for_value_wide i : is_i64 i -> (i =? 0) || (i =? 1) = false ->
  let s := for_value (Integer i) in
  1 <= s <= 6 /\ content_len s = Some (int_width s) /\ is_sint (8 * int_width s) i /\
  1 <= int_width s <= 8.
Proof.
  intros Hi Hne s. apply orb_false_iff in Hne as [H0%Z.eqb_neq H1%Z.eqb_neq].
  destruct (for_value_int_spec i Hi) as (s' & Hs & Hr & H7 & H8 & H9 & Hle).
  fold s in Hs. subst s'. assert (s <= 6) as H6 by lia. destruct (Hle H6) as [Hc Hf].
  split; [lia|]. split; [done|]. split; [done|].
  clear Hc Hf Hle. unfold int_width. clearbody s.
  destruct (Z.eqb_spec s 5), (Z.eqb_spec s 6); lia.
Qed.

Lemma encode_body_spec v : storable v ->
  encode_body v (for_value v) = Ok (value_body v) /\
  content_len (for_value v) = Some (zlen (value_body v)) /\ is_u64 (for_value v).
Proof.
  intros [Hwf Hsz]. destruct v as [|i|r|t|b]; cbn [encode_body value_body wf_value payload_bytes] in *.
  - by unfold is_uint.
  - destruct ((i =? 0) || (i =? 1)) eqn:E.
    + apply orb_true_iff in E as [->%Z.eqb_eq| ->%Z.eqb_eq]; by unfold is_uint.
    + destruct (for_value_wide i Hwf E) as (Hs & Hc & Hf & Hw).
      set (s := for_value (Integer i)) in *. clearbody s.
      rewrite Hc. cbn [from_option id]. unfold slice_from. rewrite zlen_be_bytes.
      rewrite slice_Ok by (rewrite ?zlen_be_bytes; lia).
      replace (Z.of_nat 8) with (zlen (be_bytes 8 i)) by done. rewrite sub_full.
      replace 8%nat with (Z.to_nat (8 - int_width s) + Z.to_nat (int_width s))%nat at 1 by lia.
      rewrite drop_be_bytes, zlen_be_bytes, Z2Nat.id by lia. by unfold is_uint; split_and!; try lia.
  - rewrite zlen_be_bytes. by unfold is_uint.
  - pose proof (zlen_nonneg t). cbn [for_value]. rewrite wrap_small by (unfold is_uint; lia).
    split; [done|]. split; [|unfold is_uint; lia]. unfold content_len.
    repeat match goal with |- context [13 + ?x =? ?b] => destruct (Z.eqb_spec (13 + x) b); [lia|] end.
    cbn [orb]. replace (13 + 2 * zlen t) with (1 + (6 + zlen t) * 2) at 1 by lia.
    rewrite Z.mod_add by lia. simpl. f_equal. rewrite Z.add_simpl_l, Z.mul_comm. by apply Z.div_mul.
  - pose proof (zlen_nonneg b). cbn [for_value]. rewrite wrap_small by (unfold is_uint; lia).
    split; [done|]. split; [|unfold is_uint; lia]. unfold content_len.
    repeat match goal with |- context [12 + ?x =? ?b] => destruct (Z.eqb_spec (12 + x) b); [lia|] end.
    cbn [orb]. replace (12 + 2 * zlen b) with (0 + (6 + zlen b) * 2) at 1 by lia.
    rewrite Z.mod_add by lia. simpl. f_equal. rewrite Z.add_simpl_l, Z.mul_comm. by apply Z.div_mul.
Qed.

(** ** Reading integers back *)

Lemma fold_be_val l : is_bytes l -> zlen l <= 8 ->
  fold_left (fun v b => Z.lor (wrap 64 (Z.shiftl v 8)) b) l 0 = be_val l.
Proof.
  induction l as [|b l IH] using rev_ind; [done|]. intros [Hl Hb]%is_bytes_app Hlen.
  autorewrite with gsql in Hlen. inversion_clear Hb as [|? ? Hb' _].
  rewrite fold_left_app, be_val_snoc, IH by (done || lia). cbn [fold_left].
  pose proof (be_val_bound l Hl) as Hv.
  assert (2 ^ (8 * zlen l) <= 2 ^ 56) by (apply Z.pow_le_mono_r; lia).
  rewrite wrap_small by (unfold is_uint; rewrite Z.shiftl_mul_pow2; lia).
  by rewrite lor_shiftl_add.
Qed.

Lemma sign_extend_shift v n : 1 <= n <= 8 -> is_uint (8 * n) v ->
  Z.shiftr (to_signed 64 (wrap 64 (Z.shiftl v (64 - n * 8)))) (64 - n * 8) = to_signed (8 * n) v.
Proof.
  unfold is_uint. intros Hn Hv. set (k := 64 - n * 8).
  assert (0 <= k) by lia. assert (0 < 2 ^ k) by (by apply Z.pow_pos_nonneg).
  assert (2 ^ 64 = 2 ^ (8 * n) * 2 ^ k) as E by (rewrite <- Z.pow_add_r by lia; f_equal; lia).
  assert (2 ^ 63 = 2 ^ (8 * n - 1) * 2 ^ k) as E' by (rewrite <- Z.pow_add_r by lia; f_equal; lia).
  rewrite Z.shiftl_mul_pow2 by done. rewrite wrap_small by (unfold is_uint; nia).
  unfold to_signed. rewrite (wrap_small (8 * n)), (wrap_small 64) by (unfold is_uint; nia).
  change (64 - 1) with 63. rewrite Z.shiftr_div_pow2 by done.
  destruct (Z.ltb_spec v (2 ^ (8 * n - 1))), (Z.ltb_spec (v * 2 ^ k) (2 ^ 63)); try nia.
  - by rewrite Z.div_mul by lia.
  - rewrite E. replace (v * 2 ^ k - 2 ^ (8 * n) * 2 ^ k) with ((v - 2 ^ (8 * n)) * 2 ^ k) by ring.
    by rewrite Z.div_mul by lia.
Qed.

Lemma sub_0_all {A} (l : list A) n : n = zlen l -> sub l 0 n = l.
Proof. intros ->. by rewrite sub_full. Qed.

Lemma sign_extend_spec l n : is_bytes l -> zlen l = n -> 1 <= n <= 8 ->
  sign_extend l n = Ok (to_signed (8 * zlen l) (be_val l)).
Proof.
  intros Hl Hn Hr. unfold sign_extend. rewrite slice_Ok, sub_0_all by lia. bind_step. f_equal.
  rewrite fold_be_val, Hn by (done || lia). apply sign_extend_shift; [done|].
  unfold is_uint. rewrite <- Hn. by apply be_val_bound.
Qed.

Lemma be_int_spec l n : zlen l = Z.of_nat n ->
  be_int n l = Ok (to_signed (8 * zlen l) (be_val l)).
Proof. intros Hn. unfold be_int. by rewrite slice_Ok, sub_0_all, Hn by lia. Qed.

Lemma to_signed_be_bytes (n : nat) i : (0 < n)%nat -> is_sint (8 * Z.of_nat n) i ->
  to_signed (8 * Z.of_nat n) (be_val (be_bytes n i)) = i.
Proof.
  intros Hn Hi. rewrite be_val_be_bytes. change (i mod 2 ^ (8 * Z.of_nat n)) with (to_unsigned (8 * Z.of_nat n) i).
  apply to_signed_unsigned; [lia|done].
Qed.
Lemma decode_value_int enc s i : 1 <= s <= 6 -> is_sint (8 * int_width s) i ->
  decode_value s (be_bytes (Z.to_nat (int_width s)) i) enc = Ok (Integer i).
Proof.
  intros Hs Hi.
  assert (exists n, int_width s = Z.of_nat n /\ (0 < n <= 8)%nat) as (n & Hn & Hn0).
  { exists (Z.to_nat (int_width s)). unfold int_width. repeat case_match; lia. }
  rewrite Hn in *. rewrite Nat2Z.id.
  assert (is_bytes (be_bytes n i)) as Hb by apply is_bytes_be_bytes.
  unfold decode_value.
  assert (s = 1 \/ s = 2 \/ s = 3 \/ s = 4 \/ s = 5 \/ s = 6) as Hc by lia.
  destruct Hc as [->|[->|[->|[->|[->| ->]]]]]; cbv [int_width Z.eqb Pos.eqb] in Hn |- *.
  all: first [rewrite be_int_spec by (rewrite zlen_be_bytes; lia)
             |rewrite sign_extend_spec by (rewrite ?zlen_be_bytes; (done || lia))]; bind_step.
  all: by rewrite zlen_be_bytes, to_signed_be_bytes by (done || lia).
Qed.

(** A value read back under an encoding: a text is written as it is and read
    through the encoding. *)
Definition reread (enc : TextEncoding) (v : Value) : res Value :=
  match v with
  | Text t => let* t := decode_text t enc in Ok (Text t)
  | _ => Ok v
  end.
Fixpoint reread_all (enc : TextEncoding) (vs : list Value) : res (list Value) :=
  match vs with
  | [] => Ok []
  | v :: vs => let* v := reread enc v in let* vs := reread_all enc vs in Ok (v :: vs)
  end.

Lemma reread_utf8 vs : reread_all Utf8 vs = Ok vs.
Proof. induction vs as [|v vs IH]; [done|]. cbn [reread_all]. destruct v; cbn [reread decode_text res_bind]; by rewrite IH. Qed.

Lemma reread_odd enc t vs : enc <> Utf8 -> zlen t mod 2 <> 0 -> reread_all enc (Text t :: vs) = Err (ECorrupt "odd-length UTF-16 text").
Proof. intros He Ho%Z.eqb_neq. cbn [reread_all reread]. unfold decode_text. rewrite Ho. by destruct enc. Qed.

Lemma decode_value_body enc v : storable v -> decode_value (for_value v) (value_body v) enc = reread enc v.
Proof.
  intros Hst. destruct (encode_body_spec v Hst) as (_ & Hc & Hu). destruct Hst as [Hwf Hsz].
  destruct v as [|i|r|t|b]; cbn [value_body wf_value payload_bytes] in *.
  - done.
  - destruct ((i =? 0) || (i =? 1)) eqn:E.
    + by apply orb_true_iff in E as [->%Z.eqb_eq| ->%Z.eqb_eq].
    + destruct (for_value_wide i Hwf E) as (Hs & _ & Hf & _). by apply decode_value_int.
  - change (for_value (Real r)) with 7.
    change (decode_value 7 ?x enc) with (let* b := slice x 0 8 in Ok (Real (be_val b))).
    rewrite slice_Ok, sub_0_all by (rewrite ?zlen_be_bytes; lia). bind_step.
    by rewrite be_val_be_bytes, Z.mod_small.
  - pose proof (zlen_nonneg t). cbn [for_value] in *. rewrite wrap_small in * by (unfold is_uint; lia).
    unfold decode_value.
    repeat match goal with |- context [13 + ?x =? ?b] => destruct (Z.eqb_spec (13 + x) b); [lia|] end.
    replace (13 + 2 * zlen t) with (1 + (6 + zlen t) * 2) at 2 by lia.
    rewrite Z.mod_add, andb_false_r by lia. done.
  - pose proof (zlen_nonneg b). cbn [for_value] in *. rewrite wrap_small in * by (unfold is_uint; lia).
    unfold decode_value.
    repeat match goal with |- context [12 + ?x =? ?b] => destruct (Z.eqb_spec (12 + x) b); [lia|] end.
    replace (12 + 2 * zlen b) with (0 + (6 + zlen b) * 2) at 2 by lia.
    rewrite Z.mod_add by lia. destruct (Z.leb_spec 12 (12 + 2 * zlen b)); [done|lia].
Qed.

(** ** The column loop *)

Definition serials_bytes (vs : list Value) : bytes := concat (to_vec <$> (for_value <$> vs)).
Definition bodies (vs : list Value) : bytes := concat (value_body <$> vs).

Lemma zlen_drop {A} (l : list A) n : 0 <= n <= zlen l -> zlen (drop (Z.to_nat n) l) = zlen l - n.
Proof. unfold zlen. rewrite length_drop. lia. Qed.

Lemma drop_app_zlen {A} (l p s : list A) n :
  drop (Z.to_nat n) l = p ++ s -> 0 <= n -> drop (Z.to_nat (n + zlen p)) l = s.
Proof.
  intros H Hn. unfold zlen. rewrite Z2Nat.inj_add, Nat2Z.id, <- drop_drop, H by lia.
  by rewrite drop_app_length.
Qed.

Lemma decode_loop_spec enc vs fuel buf header_len hdr body acc rest1 rest2 :
  Forall storable vs -> (length vs <= fuel)%nat -> 0 <= hdr -> 0 <= body ->
  header_len = hdr + zlen (serials_bytes vs) ->
  drop (Z.to_nat hdr) buf = serials_bytes vs ++ rest1 ->
  drop (Z.to_nat body) buf = bodies vs ++ rest2 ->
  (vs <> [] -> hdr + zlen (serials_bytes vs) <= zlen buf /\ body + zlen (bodies vs) <= zlen buf) ->
  decode_loop fuel buf enc header_len hdr body acc = (let* ws := reread_all enc vs in Ok (acc ++ ws)).
Proof.
  revert fuel hdr body acc. induction vs as [|v vs IH]; intros fuel hdr body acc Hvs Hf Hh Hb -> H1 H2 Hlen.
  - change (zlen (serials_bytes [])) with 0.
    destruct fuel; cbn [decode_loop reread_all res_bind]; rewrite Z.add_0_r, Z.leb_refl, app_nil_r; done.
  - destruct fuel as [|fuel]; [simpl in Hf; lia|]. simpl in Hf.
    inversion_clear Hvs as [|? ? Hv Hvs'].
    destruct (encode_body_spec v Hv) as (_ & Hc & Hu).
    unfold serials_bytes, bodies in H1, H2. cbn [fmap list_fmap concat] in H1, H2.
    rewrite to_vec_spec, <- app_assoc in H1. rewrite <- app_assoc in H2.
    pose proof (zlen_spec_bytes (for_value v)) as Hz. pose proof (len_range (for_value v)).
    assert (zlen (serials_bytes (v :: vs)) = len (for_value v) + zlen (serials_bytes vs)) as Hzs.
    { unfold serials_bytes. cbn [fmap list_fmap concat]. by rewrite zlen_app, to_vec_spec, Hz. }
    assert (zlen (bodies (v :: vs)) = zlen (value_body v) + zlen (bodies vs)) as Hzb.
    { unfold bodies. cbn [fmap list_fmap concat]. by rewrite zlen_app. }
    destruct (Hlen ltac:(done)) as [Hl1 Hl2]. rewrite Hzs, Hzb in *.
    pose proof (zlen_nonneg (serials_bytes vs)). pose proof (zlen_nonneg (bodies vs)).
    pose proof (zlen_nonneg (value_body v)).
    cbn [decode_loop].
    destruct (Z.leb_spec (hdr + (len (for_value v) + zlen (serials_bytes vs))) hdr); [lia|].
    unfold slice_from. rewrite slice_Ok, sub_full, H1 by lia. bind_step.
    rewrite decode_spec_bytes by done. cbn [ok_or]. bind_step.
    rewrite Hc. cbn [ok_or]. bind_step.
    destruct (Z.ltb_spec (zlen buf) (body + zlen (value_body v))); [lia|].
    rewrite slice_Ok by lia. bind_step.
    assert (sub buf body (body + zlen (value_body v)) = value_body v) as ->.
    { unfold sub. rewrite H2, Z.add_simpl_l. apply take_app_length'. unfold zlen. lia. }
    rewrite decode_value_body by done. cbn [reread_all]. destruct (reread enc v) as [v'| |]; cbn [res_bind]; [|done|done].
    rewrite (IH fuel (hdr + len (for_value v)) (body + zlen (value_body v)) (acc ++ [v'])).
    + destruct (reread_all enc vs); cbn [res_bind]; [by rewrite <- app_assoc|done|done].
    + done.
    + lia.
    + lia.
    + lia.
    + lia.
    + rewrite <- Hz. by apply drop_app_zlen.
    + by apply drop_app_zlen.
    + intros _. lia.
Qed.

(** ** Encoding in closed form *)

Lemma encode_bodies_spec vs out : Forall storable vs ->
  encode_bodies (zip vs (for_value <$> vs)) out = Ok (out ++ bodies vs).
Proof.
  revert out. induction vs as [|v vs IH]; intros out Hvs; cbn [fmap list_fmap zip zip_with encode_bodies].
  - unfold bodies. simpl. by rewrite app_nil_r.
  - inversion_clear Hvs as [|? ? Hv Hvs'].
    destruct (encode_body_spec v Hv) as (-> & _ & _). bind_step.
    rewrite IH by done. unfold bodies. cbn [fmap list_fmap concat]. by rewrite app_assoc.
Qed.

Lemma zlen_serials_bytes vs : zlen vs <= zlen (serials_bytes vs) <= 9 * zlen vs.
Proof.
  induction vs as [|v vs IH]; [done|]. unfold serials_bytes in *. cbn [fmap list_fmap concat].
  rewrite zlen_app, zlen_cons, to_vec_spec, zlen_spec_bytes.
  pose proof (len_range (for_value v)). lia.
Qed.

Lemma encode_record_spec vs : Forall storable vs ->
  exists h, h = len h + zlen (serials_bytes vs) /\
    encode_record vs = Ok (to_vec h ++ serials_bytes vs ++ bodies vs).
Proof.
  intros Hvs. unfold encode_record. fold (serials_bytes vs).
  pose proof (zlen_serials_bytes vs). pose proof (zlen_nonneg vs).
  destruct (header_len_loop_spec 10 (zlen (serials_bytes vs)) 1) as (h & Hh & Hfix); try lia.
  { apply len_range. }
  rewrite Z.add_comm, Hh. bind_step. exists h. split; [done|].
  by rewrite encode_bodies_spec, app_assoc.
Qed.
(** ** Decoding arbitrary bytes *)

(** Good outcomes: a value of the Rust type or an error. *)
Definition good {A} (P : A -> Prop) (m : res A) : Prop :=
  match m with Ok a => P a | Err _ => True | Panic => False end.

Lemma good_bind {A B} (P : A -> Prop) (Q : B -> Prop) m (f : A -> res B) :
  good P m -> (forall a, P a -> good Q (f a)) -> good Q (res_bind m f).
Proof. destruct m; simpl; auto. Qed.

Lemma units16_range big body : is_bytes body -> Forall is_u16 (units16 big body).
Proof.
  induction body as [| |a b rest IH _] using list_ind2; intros H; [constructor..|].
  inversion_clear H as [|? ? Ha H']. inversion_clear H' as [|? ? Hb Hr].
  cbn [units16]. constructor; [|by apply IH].
  unfold is_uint, le_val. destruct big.
  - apply (be_val_bound [a; b]). by repeat (apply Forall_cons_2 || apply Forall_nil_2).
  - apply (be_val_bound [b; a]). by repeat (apply Forall_cons_2 || apply Forall_nil_2).
Qed.

Lemma utf16_decode_range us cs : Forall is_u16 us -> utf16_decode us = Some cs ->
  Forall (fun c => 0 <= c < 0x110000) cs.
Proof.
  revert cs. induction us as [|u|u u2 us IH2 IH1] using list_ind2; intros cs H; cbn [utf16_decode].
  - intros [= <-]. constructor.
  - inversion_clear H as [|? ? Hu _]. unfold is_uint in Hu.
    destruct (_ || _); [|by destruct (_ <=? _)]. intros [= <-]. by repeat constructor; lia.
  - inversion_clear H as [|? ? Hu Hus]. unfold is_uint in Hu.
    destruct ((u <? 0xd800) || (0xe000 <=? u)) eqn:E.
    + change (match ?m with Some cs => Some (u :: cs) | None => None end)
        with (match utf16_decode (u2 :: us) with Some cs => Some (u :: cs) | None => None end).
      destruct (utf16_decode (u2 :: us)) as [cs'|] eqn:E'; [|done]. intros [= <-].
      constructor; [lia|]. by apply IH1.
    + destruct (Z.leb_spec 0xdc00 u); [done|].
      inversion_clear Hus as [|? ? Hu2 Hus']. unfold is_uint in Hu2.
      destruct ((0xdc00 <=? u2) && (u2 <=? 0xdfff)) eqn:E2; [|done].
      destruct (utf16_decode us) as [cs'|] eqn:E'; [|done]. intros [= <-].
      apply orb_false_iff in E as [E%Z.ltb_ge _]. apply andb_true_iff in E2 as [?%Z.leb_le ?%Z.leb_le].
      constructor; [lia|]. by apply IH2.
Qed.

Lemma is_bytes_utf8_char c : 0 <= c < 0x110000 -> is_bytes (utf8_char c).
Proof.
  intros Hc. unfold utf8_char, is_bytes.
  pose proof (Z.mod_pos_bound c 64). pose proof (Z.mod_pos_bound (c / 64) 64).
  pose proof (Z.mod_pos_bound (c / 4096) 64).
  destruct (Z.ltb_spec c 0x80), (Z.ltb_spec c 0x800), (Z.ltb_spec c 0x10000); try lia;
    repeat (apply Forall_cons_2 || apply Forall_nil_2); unfold is_uint; try lia;
    match goal with |- context [c / ?d] =>
      assert (0 <= c / d) by (apply Z.div_pos; lia);
      first [assert (c / d < 8) by (apply Z.div_lt_upper_bound; lia)
            |assert (c / d < 16) by (apply Z.div_lt_upper_bound; lia)
            |assert (c / d < 32) by (apply Z.div_lt_upper_bound; lia)]; lia end.
Qed.

Lemma good_decode_text body enc : is_bytes body -> good is_bytes (decode_text body enc).
Proof.
  intros Hb. unfold decode_text. destruct enc; [done|..].
  all: destruct (negb _); [done|].
  all: match goal with |- context [utf16_decode ?u] => destruct (utf16_decode u) as [cs|] eqn:E end; [|done].
  all: apply utf16_decode_range in E; [|by apply units16_range].
  all: simpl; unfold is_bytes; apply Forall_concat, Forall_fmap;
       eapply Forall_impl; [exact E|intros c Hc; by apply is_bytes_utf8_char].
Qed.

Lemma to_signed_i64 n v : 1 <= n <= 8 -> is_i64 (to_signed (8 * n) v).
Proof.
  intros Hn. pose proof (to_signed_range (8 * n) v ltac:(lia)) as H. unfold is_sint in *.
  assert (2 ^ (8 * n - 1) <= 2 ^ (64 - 1)) by (apply Z.pow_le_mono_r; lia). lia.
Qed.

Lemma good_decode_value s body enc : is_bytes body -> 0 <= s ->
  content_len s = Some (zlen body) -> good wf_value (decode_value s body enc).
Proof.
  intros Hb Hs Hc. unfold decode_value.
  assert (forall n, zlen body = Z.of_nat n -> (1 <= n <= 8)%nat ->
    good wf_value (let* i := be_int n body in Ok (Integer i))) as Hint.
  { intros n Hn Hr. rewrite be_int_spec by done. simpl. apply to_signed_i64. lia. }
  assert (forall n, zlen body = n -> 1 <= n <= 8 ->
    good wf_value (let* i := sign_extend body n in Ok (Integer i))) as Hsgn.
  { intros n Hn Hr. rewrite sign_extend_spec by (done || lia). simpl. apply to_signed_i64. lia. }
  destruct (Z.eqb_spec s 0) as [->|]; [done|].
  destruct (Z.eqb_spec s 1) as [->|]; [injection Hc as Hc; apply Hint; lia|].
  destruct (Z.eqb_spec s 2) as [->|]; [injection Hc as Hc; apply Hint; lia|].
  destruct (Z.eqb_spec s 3) as [->|]; [injection Hc as Hc; apply Hsgn; lia|].
  destruct (Z.eqb_spec s 4) as [->|]; [injection Hc as Hc; apply Hint; lia|].
  destruct (Z.eqb_spec s 5) as [->|]; [injection Hc as Hc; apply Hsgn; lia|].
  destruct (Z.eqb_spec s 6) as [->|]; [injection Hc as Hc; apply Hint; lia|].
  destruct (Z.eqb_spec s 7) as [->|].
  { injection Hc as Hc. rewrite slice_Ok, sub_0_all by lia. simpl.
    pose proof (be_val_bound body Hb). by rewrite <- Hc in *. }
  destruct (Z.eqb_spec s 8) as [->|]; [done|]. destruct (Z.eqb_spec s 9) as [->|]; [done|].
  destruct ((12 <=? s) && (s mod 2 =? 0)); [done|].
  eapply good_bind; [by apply good_decode_text|]. by intros.
Qed.

Lemma content_len_nonneg s n : 0 <= s -> content_len s = Some n -> 0 <= n.
Proof.
  intros Hs. unfold content_len.
  repeat (match goal with |- context [?a =? ?b] => destruct (Z.eqb_spec a b) end; cbn [orb];
    try (intros [= <-]; lia)); try discriminate; intros [= <-]; apply Z.div_pos; try lia.
  destruct (decide (s = 12)) as [->|]; [done|lia].
Qed.

Lemma good_decode_loop fuel buf enc header_len hdr body acc :
  is_bytes buf -> header_len <= zlen buf -> 0 <= hdr -> 0 <= body ->
  header_len - hdr <= Z.of_nat fuel -> Forall wf_value acc ->
  good (Forall wf_value) (decode_loop fuel buf enc header_len hdr body acc).
Proof.
  intros Hb Hh. revert hdr body acc. induction fuel as [|fuel IH]; intros hdr body acc H1 H2 Hf Hacc;
    cbn [decode_loop]; (destruct (Z.leb_spec header_len hdr); [done|]); [lia|].
  unfold slice_from. rewrite slice_Ok, sub_full by lia. bind_step.
  destruct (decode (drop (Z.to_nat hdr) buf)) as [[raw used]|] eqn:Ed; cbn [ok_or]; [|done]. bind_step.
  destruct (decode_inv _ _ _ (is_bytes_drop _ _ Hb) Ed) as (Hraw & Hused & _ & _).
  pose proof (len_range raw). unfold is_uint in Hraw.
  destruct (content_len raw) as [n|] eqn:Ec; cbn [ok_or]; [|done]. bind_step.
  pose proof (content_len_nonneg raw n ltac:(lia) Ec).
  destruct (Z.ltb_spec (zlen buf) (body + n)); [done|].
  rewrite slice_Ok by lia. bind_step.
  eapply good_bind.
  - apply good_decode_value; [by apply is_bytes_sub|lia|]. by rewrite zlen_sub, Z.add_simpl_l by lia.
  - intros v Hv. apply IH; try lia. apply Forall_app. split; [done|by constructor].
Qed.

Lemma encode_reread (vs : list Value) :
  Forall storable vs -> zlen vs < 2 ^ 59 ->
  exists out, encode_record vs = Ok out /\ forall enc, decode_record out enc = reread_all enc vs.
Proof.
  intros Hvs Hn. destruct (encode_record_spec vs Hvs) as (h & Hfix & Henc).
  eexists. split; [exact Henc|]. intros enc. unfold decode_record.
  pose proof (zlen_serials_bytes vs) as Hs. pose proof (len_range h) as Hl.
  pose proof (zlen_nonneg vs). pose proof (zlen_nonneg (bodies vs)).
  rewrite to_vec_spec, decode_spec_bytes by (unfold is_uint; lia). cbn [ok_or]. bind_step.
  pose proof (zlen_spec_bytes h) as Hz.
  match goal with |- context [zlen ?b <? h] => set (out := b) end.
  assert (zlen out = len h + zlen (serials_bytes vs) + zlen (bodies vs)) as Hout.
  { unfold out. rewrite !zlen_app, Hz. lia. }
  destruct (Z.ltb_spec (zlen out) h); [lia|].
  rewrite (decode_loop_spec enc vs _ out h (len h) h [] (bodies vs) []); try done; try lia.
  - by destruct (reread_all enc vs).
  - pose proof (zlen_nonneg vs). unfold zlen in *. lia.
  - rewrite <- Hz. unfold zlen, out. rewrite Nat2Z.id. by rewrite drop_app_length.
  - rewrite app_nil_r. unfold out. rewrite app_assoc.
    apply drop_app_length'. rewrite <- (Nat2Z.id (length _)). f_equal.
    change (Z.of_nat (length ?x)) with (zlen x). rewrite zlen_app, Hz. lia.
Qed.

Lemma encode_decode (vs : list Value) :
  Forall storable vs -> zlen vs < 2 ^ 59 ->
  exists out, encode_record vs = Ok out /\ decode_record out Utf8 = Ok vs.
Proof. intros Hvs Hn. destruct (encode_reread vs Hvs Hn) as (out & E & D). exists out. by rewrite D, reread_utf8. Qed.

Lemma is_bytes_value_body v : wf_value v -> is_bytes (value_body v).
Proof.
  destruct v as [|i|r|t|b]; cbn [value_body]; intros Hv; try done; [constructor| |apply is_bytes_be_bytes].
  destruct (_ || _); [constructor|apply is_bytes_be_bytes].
Qed.

(** An encoded row is a string of bytes, little longer than its values. *)
Lemma encode_bytes vs out : Forall storable vs -> encode_record vs = Ok out -> is_bytes out /\ zlen out <= 9 + 9 * zlen vs + zlen (bodies vs).
Proof.
  intros Hvs E. destruct (encode_record_spec vs Hvs) as (h & Hfix & Henc). rewrite Henc in E. apply Ok_inj in E as <-.
  pose proof (zlen_serials_bytes vs) as Hs. pose proof (len_range h) as Hl. pose proof (zlen_nonneg vs).
  assert (is_bytes (serials_bytes vs) /\ is_bytes (bodies vs)) as [H1 H2].
  { unfold serials_bytes, bodies, is_bytes. split; apply Forall_concat, Forall_fmap.
    - apply Forall_fmap. eapply Forall_impl; [exact Hvs|]. intros v _. cbn. rewrite to_vec_spec. apply is_bytes_spec_bytes.
    - eapply Forall_impl; [exact Hvs|]. intros v [Hv _]. by apply is_bytes_value_body. }
  split; [|rewrite !zlen_app, to_vec_spec, zlen_spec_bytes; lia]. apply is_bytes_app. split; [rewrite to_vec_spec; apply is_bytes_spec_bytes|]. by apply is_bytes_app.
Qed.

(** ** Properties *)



(** C36: decoding an arbitrary byte string, in any of the three text
    encodings, never panics and never runs out of rounds; what it returns is a
    list of values of the Rust type. *)
Theorem record_decode_total (buf : bytes) (enc : TextEncoding) :
  is_bytes buf ->
  match decode_record buf enc with
  | Ok vs => Forall wf_value vs
  | Err _ => True
  | Panic => False
  end.
Proof.
  intros Hb. unfold decode_record.
  destruct (decode buf) as [[h n]|] eqn:Ed; cbn [ok_or]; [|done]. bind_step.
  destruct (decode_inv _ _ _ Hb Ed) as (Hh & Hn & _ & _). pose proof (len_range h).
  unfold is_uint in Hh. destruct (Z.ltb_spec (zlen buf) h); [done|].
  apply good_decode_loop; try done; unfold zlen in *; lia.
Qed.

Lemma record_decode_total_witness :
  match decode_record [0x02; 0x06] Utf16Le with Ok vs => Forall wf_value vs | Err _ => True | Panic => False end.
Proof.
  apply (record_decode_total [0x02; 0x06] Utf16Le).
  unfold is_bytes, is_uint. repeat (apply Forall_cons_2 || apply Forall_nil_2); lia.
Defined.
End Record.
