(* ===== verification/Balance.v ===== *)
(** Sibling rebalancing ([src/src/btree/balance.rs]): the [szNew]/[cntNew]
    computation of SQLite's [balance_nonroot] and the sibling window.

    [distribute] keeps the two scratch arrays, the page count [k] and the
    three loops of the source; every index, every [usize] subtraction and the
    [debug_assert]s are checked, and a loop that would not end runs out of
    fuel: both are panics. [distribute_correct] shows that none of this
    happens and that the result cuts the pooled cells into consecutive,
    non-empty pages that each fit. *)

From S2P Require Import Prelude.
Local Open Scope Z_scope.

Module Balance.

(** The scratch arrays and the number of pages in use. *)
Record st : Type := mkSt { sz_new : list Z; cnt_new : list Z; k_new : Z }.

Section Distribute.
Context (sz : list Z) (ld us : Z).
Let n_cell : Z := zlen sz.
Let cap : Z := n_cell + 2.

Definition cell (i : Z) : res Z := idx sz i.

(** [for j in start..end { s += cell(j) + 2 }] over [count] cells. *)
Fixpoint range_size (count : nat) (j acc : Z) : res Z :=
  match count with
  | O => Ok acc
  | S count => let* c := cell j in range_size count (j + 1) (acc + (c + 2))
  end.

(** The seeding loop [for i in 0..n_old]: [todo] old pages remain. *)
Fixpoint seed (todo : nat) (i : Z) (cnt_old : list Z) (s : st) : res st :=
  match todo with
  | O => Ok s
  | S todo =>
      let* start := if i =? 0 then Ok 0
                    else let* p := idx cnt_old (i - 1) in Ok (p + (1 - ld)) in
      let* e := idx cnt_old i in
      let* t := range_size (Z.to_nat (e - start)) start 0 in
      let* a := set_idx (sz_new s) i t in
      let* b := set_idx (cnt_new s) i e in
      seed todo (i + 1) cnt_old (mkSt a b (k_new s))
  end.

(** The size of the cell that moves between page [i] and the start of page
    [i + 1] when the boundary is [c]: the cell itself for table leaves, else
    the cell that takes the divider's place. *)
Definition boundary_size (c own : Z) : res Z :=
  if ld =? 0 then
    if c <? n_cell then let* x := cell c in Ok (2 + x) else Ok 0
  else Ok own.

(** [while sz_new[i] > usable_space]: spill cells to the right. *)
Fixpoint spill (fuel : nat) (i : Z) (s : st) : res st :=
  match fuel with
  | O => Panic
  | S fuel =>
      let* si := idx (sz_new s) i in
      if us <? si then
        let* s :=
          if k_new s <=? i + 1 then
            let k := i + 2 in
            if cap <? k then Panic else
            let* a := set_idx (sz_new s) (k - 1) 0 in
            let* b := set_idx (cnt_new s) (k - 1) n_cell in
            Ok (mkSt a b k)
          else Ok s in
        let* c := idx (cnt_new s) i in
        let* x := cell (c - 1) in
        let* si := idx (sz_new s) i in
        let* a := set_idx (sz_new s) i (si - (2 + x)) in
        let* t := boundary_size c (2 + x) in
        let* sj := idx a (i + 1) in
        let* a := set_idx a (i + 1) (sj + t) in
        let* b := set_idx (cnt_new s) i (c - 1) in
        spill fuel i (mkSt a b (k_new s))
      else Ok s
  end.

(** [while cnt_new[i] < n_cell]: fill from the right. *)
Fixpoint fill (fuel : nat) (i : Z) (s : st) : res st :=
  match fuel with
  | O => Panic
  | S fuel =>
      let* c := idx (cnt_new s) i in
      if c <? n_cell then
        let* x := cell c in
        let* si := idx (sz_new s) i in
        if us <? si + (2 + x) then Ok s
        else
          let* a := set_idx (sz_new s) i (si + (2 + x)) in
          let* b := set_idx (cnt_new s) i (c + 1) in
          let* t := boundary_size (c + 1) (2 + x) in
          let* sj := idx a (i + 1) in
          let* a := set_idx a (i + 1) (sj - t) in
          fill fuel i (mkSt a b (k_new s))
      else Ok s
  end.

(** [while i < k]: the greedy pack. *)
Fixpoint pack (fuel : nat) (i : Z) (s : st) : res st :=
  if i <? k_new s then
    match fuel with
    | O => Panic
    | S fuel =>
        let* s := spill (S (Z.to_nat n_cell)) i s in
        let* s := fill (S (Z.to_nat n_cell)) i s in
        let* c := idx (cnt_new s) i in
        let s := if n_cell <=? c then mkSt (sz_new s) (cnt_new s) (i + 1) else s in
        pack fuel (i + 1) s
    end
  else Ok s.

(** The inner [loop] of the right-to-left pass over the pair [i - 1, i]. *)
Fixpoint shift (fuel : nat) (i k sz_right sz_left r d : Z) (cnt : list Z)
    : res (Z * Z * list Z) :=
  match fuel with
  | O => Panic
  | S fuel =>
      if r <? 0 then Ok (sz_right, sz_left, cnt)
      else
        let* sz_r := cell r in
        let* sz_d := cell d in
        if negb (sz_right =? 0) &&
           (sz_left - (sz_r + (if i =? k - 1 then 0 else 2)) <? sz_right + sz_d + 2)
        then Ok (sz_right, sz_left, cnt)
        else
          let* cnt := set_idx cnt (i - 1) r in
          shift fuel i k (sz_right + (sz_d + 2)) (sz_left - (sz_r + 2)) (r - 1) (d - 1) cnt
  end.

(** [while i > 0]: the right-to-left pass. *)
Fixpoint rebalance (i : nat) (s : st) : res st :=
  match i with
  | O => Ok s
  | S i' =>
      let iz := Z.of_nat i in
      let* sz_right := idx (sz_new s) iz in
      let* sz_left := idx (sz_new s) (iz - 1) in
      let* c := idx (cnt_new s) (iz - 1) in
      let r := c - 1 in
      let* (q, cnt) := shift (S (Z.to_nat n_cell)) iz (k_new s) sz_right sz_left r (r + 1 - ld) (cnt_new s) in
      let* a := set_idx (sz_new s) iz (fst q) in
      let* a := set_idx a (iz - 1) (snd q) in
      rebalance i' (mkSt a cnt (k_new s))
  end.

Definition distribute_from (cnt_old : list Z) : res (list Z) :=
  let n_old := zlen cnt_old in
  if negb ((0 <? n_cell) && (0 <? n_old)) then Panic else
  let* s := seed (length cnt_old) 0 cnt_old (mkSt (zrep cap 0) (zrep cap 0) n_old) in
  let* s := pack (S (S (Z.to_nat n_cell))) 0 s in
  if k_new s <? 1 then Panic else
  let* s := rebalance (Z.to_nat (k_new s - 1)) s in
  Ok (take (Z.to_nat (k_new s)) (cnt_new s)).
End Distribute.

Definition distribute (sz cnt_old : list Z) (leaf leaf_data : bool) (usable : Z) : res (list Z) :=
  distribute_from sz (if leaf_data then 1 else 0) (usable + (if leaf then 4 else 0) - 12) cnt_old.

Definition sibling_window (p n_children : Z) : res (Z * Z) :=
  if n_children <? 1 then Panic else
  let i := n_children - 1 in
  if i <? 2 then Ok (0, n_children)
  else if p =? 0 then Ok (0, 3)
  else if p =? i then Ok (i - 2, 3)
  else if p <? 1 then Panic
  else Ok (p - 1, 3).

(** ** Specification vocabulary *)

(** Bytes a run of cells takes on a page, cell pointers included. *)
Definition run_size (l : list Z) : Z := foldr (fun x acc => 2 + x + acc) 0 l.

Definition at_ (l : list Z) (i : Z) : Z := default 0 (l !! Z.to_nat i).

(** First pooled cell of page [t] for boundaries [cnt]: the cell after the
    previous boundary, or after the divider when dividers are pooled. *)
Definition page_start (ld : Z) (cnt : list Z) (t : Z) : Z :=
  if t =? 0 then 0 else at_ cnt (t - 1) + (1 - ld).

(** The old boundaries really cut the pool: they are ordered, leave room for
    the dividers and end with the last cell. *)
Definition old_ok (n ld : Z) (cnt_old : list Z) : Prop :=
  1 <= zlen cnt_old <= n + 2 /\ at_ cnt_old (zlen cnt_old - 1) = n /\
  forall t, 0 <= t < zlen cnt_old ->
    0 <= page_start ld cnt_old t <= at_ cnt_old t /\ at_ cnt_old t <= n.

Lemma idx_at l i : 0 <= i < zlen l -> idx l i = Ok (at_ l i).
Proof.
  intros H. destruct (idx_in_range l i H) as [x Hx]. rewrite Hx.
  apply idx_Ok in Hx as [_ Hx]. unfold at_. by rewrite Hx.
Qed.

Lemma at_insert l i j x : 0 <= i < zlen l -> 0 <= j ->
  at_ (<[Z.to_nat i := x]> l) j = if j =? i then x else at_ l j.
Proof.
  unfold at_, zlen. intros Hi Hj. destruct (Z.eqb_spec j i) as [->|Hne].
  - rewrite list_lookup_insert_eq by lia. done.
  - rewrite list_lookup_insert_ne by lia. done.
Qed.

Lemma at_take l k j : 0 <= j < k -> at_ (take (Z.to_nat k) l) j = at_ l j.
Proof. intros. unfold at_. rewrite lookup_take_lt by lia. done. Qed.

Lemma run_size_app l k : run_size (l ++ k) = run_size l + run_size k.
Proof. induction l as [|x l IH]; simpl; [done|]. rewrite IH. lia. Qed.

(** ** Correctness of [distribute] *)

Section Correct.
#[local] Set Default Proof Using "All".
Context (sz : list Z) (ld us : Z).
Let n := zlen sz.
Hypothesis Hld : ld = 0 \/ ld = 1.
Hypothesis Hn : 1 <= n.
Hypothesis Hsz : forall j, 0 <= j < n -> 0 <= at_ sz j.
Hypothesis Hfit : forall j, 0 <= j < n -> 2 + at_ sz j <= us.
Hypothesis Hfit3 : ld = 0 -> forall j, 0 <= j < n -> 3 * (2 + at_ sz j) <= us.

(** Size of the first [j] cells. *)
Let P (j : Z) : Z := run_size (take (Z.to_nat j) sz).
(** Where the page after boundary [c] starts. *)
Let nxt (c : Z) : Z := Z.min n (c + 1 - ld).

Lemma P_0 : P 0 = 0.
Proof. done. Qed.

Lemma P_S j : 0 <= j < n -> P (j + 1) = P j + (2 + at_ sz j).
Proof.
  intros Hj. unfold P.
  replace (Z.to_nat (j + 1)) with (S (Z.to_nat j)) by lia.
  destruct (idx_in_range sz j Hj) as [x Hx]. apply idx_Ok in Hx as [_ Hx].
  rewrite (take_S_r _ _ _ Hx), run_size_app. unfold at_. rewrite Hx. simpl. lia.
Qed.

Lemma P_mono a b : 0 <= a <= b -> b <= n -> P a + 2 * (b - a) <= P b.
Proof.
  intros Hab Hb. remember (Z.to_nat (b - a)) as m eqn:Em. revert b Hab Hb Em.
  induction m as [|m IH]; intros b Hab Hb Em.
  - replace b with a by lia. lia.
  - specialize (IH (b - 1) ltac:(lia) ltac:(lia) ltac:(lia)).
    pose proof (P_S (b - 1) ltac:(lia)) as E. replace (b - 1 + 1) with b in E by lia.
    pose proof (Hsz (b - 1) ltac:(lia)). lia.
Qed.

(** First cell of page [t], clipped to the pool. *)
Let lo (cnt : list Z) (t : Z) : Z := if t =? 0 then 0 else nxt (at_ cnt (t - 1)).

Record inv (s : st) : Prop := {
  inv_lsz : zlen (sz_new s) = n + 2;
  inv_lcnt : zlen (cnt_new s) = n + 2;
  inv_k : 1 <= k_new s <= n + 2;
  inv_last : at_ (cnt_new s) (k_new s - 1) = n;
  inv_rng : forall t, 0 <= t < k_new s -> 0 <= at_ (cnt_new s) t <= n;
  inv_size : forall t, 0 <= t < k_new s ->
    at_ (sz_new s) t = P (at_ (cnt_new s) t) - P (lo (cnt_new s) t) }.

(** Pages [0..i) are packed: non-empty, fitting, and the next cell does not
    fit any more. *)
Definition packed (s : st) (i : Z) : Prop :=
  forall t, 0 <= t < i -> let c := at_ (cnt_new s) t in
    lo (cnt_new s) t < c < n /\ at_ (sz_new s) t <= us < at_ (sz_new s) t + (2 + at_ sz c).

(** Moving boundary [i] of page [i] to [c'], sizes of both sides adjusted. *)
Definition moved (s : st) (i c' : Z) : st :=
  let c := at_ (cnt_new s) i in
  let a := <[Z.to_nat i := at_ (sz_new s) i + (P c' - P c)]> (sz_new s) in
  mkSt (<[Z.to_nat (i + 1) := at_ (sz_new s) (i + 1) - (P (nxt c') - P (nxt c))]> a)
       (<[Z.to_nat i := c']> (cnt_new s)) (k_new s).

Lemma nxt_range c : 0 <= c <= n -> 0 <= nxt c <= n.
Proof. unfold nxt. lia. Qed.

Lemma lo_range s t : inv s -> 0 <= t <= k_new s -> 0 <= lo (cnt_new s) t <= n.
Proof.
  intros Hs Ht. unfold lo. destruct (Z.eqb_spec t 0); [lia|].
  apply nxt_range, (inv_rng s Hs). lia.
Qed.

Lemma moved_at_sz s i c' t : inv s -> 0 <= i -> i + 1 < k_new s -> 0 <= t ->
  at_ (sz_new (moved s i c')) t =
    if t =? i then at_ (sz_new s) i + (P c' - P (at_ (cnt_new s) i))
    else if t =? i + 1 then at_ (sz_new s) t - (P (nxt c') - P (nxt (at_ (cnt_new s) i)))
    else at_ (sz_new s) t.
Proof.
  intros Hs Hi Hk Ht. pose proof (inv_k s Hs). pose proof (inv_lsz s Hs).
  unfold moved; cbn [sz_new].
  rewrite !at_insert by (rewrite ?zlen_insert; lia).
  destruct (Z.eqb_spec t (i + 1)), (Z.eqb_spec t i); subst; try lia; done.
Qed.

Lemma moved_at_cnt s i c' t : inv s -> 0 <= i -> i + 1 < k_new s -> 0 <= t ->
  at_ (cnt_new (moved s i c')) t = if t =? i then c' else at_ (cnt_new s) t.
Proof.
  intros Hs Hi Hk Ht. pose proof (inv_k s Hs). pose proof (inv_lcnt s Hs).
  unfold moved; cbn [cnt_new]. by rewrite at_insert by lia.
Qed.

Lemma moved_lo s i c' t : inv s -> 0 <= i -> i + 1 < k_new s -> 0 <= t ->
  lo (cnt_new (moved s i c')) t = if t =? i + 1 then nxt c' else lo (cnt_new s) t.
Proof.
  intros Hs Hi Hk Ht. unfold lo. destruct (Z.eqb_spec t 0).
  - destruct (Z.eqb_spec t (i + 1)); [lia|done].
  - rewrite moved_at_cnt by (done || lia).
    destruct (Z.eqb_spec t (i + 1)), (Z.eqb_spec (t - 1) i); lia || done.
Qed.

Lemma inv_moved s i c' : inv s -> 0 <= i -> i + 1 < k_new s -> 0 <= c' <= n -> inv (moved s i c').
Proof.
  intros Hs Hi Hk Hc. pose proof Hs as [Hls Hlc Hkk Hlast Hrng Hsize].
  split; try (cbn; rewrite ?zlen_insert; done).
  - rewrite moved_at_cnt by (done || cbn; lia). cbn.
    destruct (Z.eqb_spec (k_new s - 1) i); [lia|done].
  - cbn [k_new moved]. intros t Ht. rewrite moved_at_cnt by (done || lia).
    destruct (t =? i); [done|]. by apply Hrng.
  - cbn [k_new moved]. intros t Ht.
    rewrite moved_at_sz, moved_at_cnt, moved_lo by (done || lia).
    pose proof (Hsize t Ht) as E. destruct (Z.eqb_spec t i).
    + subst t. destruct (Z.eqb_spec i (i + 1)); [lia|]. lia.
    + destruct (Z.eqb_spec t (i + 1)); [|done]. subst t.
      unfold lo in E. destruct (Z.eqb_spec (i + 1) 0); [lia|].
      replace (i + 1 - 1) with i in E by lia. lia.
Qed.

Lemma packed_moved s i c' : inv s -> 0 <= i -> i + 1 < k_new s -> packed s i -> packed (moved s i c') i.
Proof.
  intros Hs Hi Hk Hp t Ht. specialize (Hp t Ht). cbn zeta in *.
  rewrite moved_at_sz, moved_at_cnt, moved_lo by (done || lia).
  destruct (Z.eqb_spec t i), (Z.eqb_spec t (i + 1)); lia || done.
Qed.

Lemma boundary_size_spec c : 1 <= c <= n ->
  boundary_size sz ld c (2 + at_ sz (c - 1)) = Ok (P (nxt c) - P (nxt (c - 1))).
Proof.
  intros Hc. unfold boundary_size. fold n.
  pose proof (P_S (c - 1) ltac:(lia)) as E. replace (c - 1 + 1) with c in E by lia.
  unfold nxt. destruct (Z.eqb_spec ld 0).
  - replace (Z.min n (c - 1 + 1 - ld)) with c by lia.
    destruct (Z.ltb_spec c n) as [Hlt|Hge].
    + unfold cell. rewrite idx_at by lia. bind_step.
      replace (Z.min n (c + 1 - ld)) with (c + 1) by lia. rewrite P_S by lia. f_equal. lia.
    + replace (Z.min n (c + 1 - ld)) with c by lia. f_equal. lia.
  - replace (Z.min n (c + 1 - ld)) with c by lia.
    replace (Z.min n (c - 1 + 1 - ld)) with (c - 1) by lia. f_equal. lia.
Qed.

(** ** The greedy pack *)

(** Appending an empty page after the last one. *)
Definition grown (s : st) (i : Z) : st :=
  mkSt (<[Z.to_nat (i + 1) := 0]> (sz_new s)) (<[Z.to_nat (i + 1) := n]> (cnt_new s)) (i + 2).

Lemma grown_at s i t : inv s -> i + 1 = k_new s -> i < n -> 0 <= t <= i ->
  at_ (sz_new (grown s i)) t = at_ (sz_new s) t /\
  at_ (cnt_new (grown s i)) t = at_ (cnt_new s) t /\
  lo (cnt_new (grown s i)) t = lo (cnt_new s) t.
Proof.
  intros Hs Hk Hin Ht. pose proof Hs as [Hls Hlc Hkk Hlast Hrng Hsize].
  unfold lo, grown; cbn [sz_new cnt_new]. rewrite !at_insert by lia.
  destruct (Z.eqb_spec t (i + 1)); [lia|]. split_and!; [done..|].
  destruct (Z.eqb_spec t 0); [done|]. rewrite at_insert by lia.
  destruct (Z.eqb_spec (t - 1) (i + 1)); [lia|done].
Qed.

Lemma inv_grown s i : inv s -> i + 1 = k_new s -> i < n -> inv (grown s i).
Proof.
  intros Hs Hk Hin. pose proof Hs as [Hls Hlc Hkk Hlast Hrng Hsize].
  assert (at_ (cnt_new (grown s i)) (i + 1) = n) as En.
  { unfold grown; cbn [cnt_new]. rewrite at_insert by lia. by rewrite Z.eqb_refl. }
  split; try (cbn; rewrite ?zlen_insert; done || lia).
  - replace (k_new (grown s i) - 1) with (i + 1) by (cbn; lia). done.
  - cbn [k_new grown]. intros t Ht. destruct (decide (t = i + 1)) as [->|]; [lia|].
    destruct (grown_at s i t) as (_ & -> & _); [done || lia..|]. apply Hrng. lia.
  - cbn [k_new grown]. intros t Ht. destruct (decide (t = i + 1)) as [->|].
    + rewrite En. unfold grown; cbn [sz_new cnt_new]. rewrite at_insert by lia.
      rewrite Z.eqb_refl. unfold lo. destruct (Z.eqb_spec (i + 1) 0); [lia|].
      rewrite at_insert by lia. destruct (Z.eqb_spec (i + 1 - 1) (i + 1)); [lia|].
      replace (i + 1 - 1) with (k_new s - 1) by lia. rewrite Hlast.
      unfold nxt. replace (Z.min n (n + 1 - ld)) with n by lia. lia.
    + destruct (grown_at s i t) as (-> & -> & ->); [done || lia..|]. apply Hsize. lia.
Qed.

Lemma packed_grown s i : inv s -> i + 1 = k_new s -> i < n -> packed s i -> packed (grown s i) i.
Proof.
  intros Hs Hk Hin Hp t Ht. cbn zeta.
  destruct (grown_at s i t) as (-> & -> & ->); [done || lia..|]. by apply Hp.
Qed.

(** One pass of the spilling loop, once page [i + 1] exists. *)
Lemma spill_move s i (f : st -> res st) : inv s -> 0 <= i -> i + 1 < k_new s -> 1 <= at_ (cnt_new s) i ->
  (let* c := idx (cnt_new s) i in
   let* x := cell sz (c - 1) in
   let* si := idx (sz_new s) i in
   let* a := set_idx (sz_new s) i (si - (2 + x)) in
   let* t := boundary_size sz ld c (2 + x) in
   let* sj := idx a (i + 1) in
   let* a := set_idx a (i + 1) (sj + t) in
   let* b := set_idx (cnt_new s) i (c - 1) in
   f (mkSt a b (k_new s))) = f (moved s i (at_ (cnt_new s) i - 1)).
Proof.
  intros Hs Hi Hk Hc. pose proof Hs as [Hls Hlc Hkk Hlast Hrng Hsize].
  pose proof (Hrng i ltac:(lia)) as Hr.
  rewrite (idx_at (cnt_new s)) by lia. bind_step. set (c := at_ (cnt_new s) i) in *.
  unfold cell. rewrite idx_at by lia. bind_step.
  rewrite (idx_at (sz_new s)) by lia. bind_step. rewrite set_idx_Ok by lia. bind_step.
  rewrite boundary_size_spec by lia. bind_step.
  rewrite idx_at by (rewrite zlen_insert; lia). bind_step.
  rewrite set_idx_Ok by (rewrite zlen_insert; lia). bind_step.
  rewrite set_idx_Ok by lia. bind_step.
  rewrite at_insert by lia. destruct (Z.eqb_spec (i + 1) i); [lia|].
  unfold moved. fold c. do 2 f_equal. f_equal; [lia|]. f_equal.
  pose proof (P_S (c - 1) ltac:(lia)) as E. replace (c - 1 + 1) with c in E by lia. lia.
Qed.

Lemma spill_spec fuel i s :
  inv s -> packed s i -> 0 <= i < k_new s -> i < n -> at_ (cnt_new s) i < Z.of_nat fuel ->
  exists s', spill sz ld us fuel i s = Ok s' /\ inv s' /\ packed s' i /\ i < k_new s' /\
    at_ (sz_new s') i <= us.
Proof.
  revert s. induction fuel as [|fuel IH]; intros s Hs Hp Hi Hin Hf.
  - pose proof (inv_rng s Hs i Hi). lia.
  - cbn [spill]. pose proof Hs as [Hls Hlc Hkk Hlast Hrng Hsize].
    pose proof (Hrng i Hi) as Hr. pose proof (lo_range s i Hs ltac:(lia)) as Hlo.
    rewrite (idx_at (sz_new s)) by lia. bind_step.
    destruct (Z.ltb_spec us (at_ (sz_new s) i)) as [Hbig|Hok]; [|by exists s; split_and!; lia || done].
    assert (1 <= at_ (cnt_new s) i) as Hc.
    { pose proof (Hfit 0 ltac:(lia)). pose proof (Hsz 0 ltac:(lia)).
      destruct (decide (at_ (cnt_new s) i = 0)) as [E|]; [|lia].
      rewrite (Hsize i Hi), E, P_0 in Hbig. pose proof (P_mono 0 (lo (cnt_new s) i) ltac:(lia) ltac:(lia)) as HP.
      rewrite P_0 in HP. lia. }
    assert (exists s1, (if k_new s <=? i + 1 then
            let k := i + 2 in
            if n + 2 <? k then Panic else
            let* a := set_idx (sz_new s) (k - 1) 0 in
            let* b := set_idx (cnt_new s) (k - 1) n in
            Ok (mkSt a b k)
          else Ok s) = Ok s1 /\ inv s1 /\ packed s1 i /\ i + 1 < k_new s1 /\
          at_ (cnt_new s1) i = at_ (cnt_new s) i) as (s1 & E1 & Hs1 & Hp1 & Hk1 & Hc1).
    { destruct (Z.leb_spec (k_new s) (i + 1)); [|by exists s; split_and!; lia || done].
      exists (grown s i). cbn zeta. destruct (Z.ltb_spec (n + 2) (i + 2)); [lia|].
      rewrite !set_idx_Ok by lia. bind_step. bind_step.
      split_and!; [|apply inv_grown|apply packed_grown|cbn; lia|apply grown_at]; try (done || lia).
      unfold grown. do 2 f_equal; do 2 f_equal; lia. }
    unfold n in E1. rewrite E1. bind_step.
    destruct (IH (moved s1 i (at_ (cnt_new s1) i - 1))) as (s' & E' & Hrest).
    + apply inv_moved; lia || done.
    + apply packed_moved; lia || done.
    + cbn. lia.
    + done.
    + rewrite moved_at_cnt, Z.eqb_refl by lia || done. lia.
    + exists s'. split; [|done]. rewrite <- E'. symmetry.
      symmetry. apply spill_move; lia || done.
Qed.

Lemma fill_spec fuel i s :
  inv s -> packed s i -> 0 <= i < k_new s -> at_ (sz_new s) i <= us ->
  n - at_ (cnt_new s) i < Z.of_nat fuel ->
  exists s', fill sz ld us fuel i s = Ok s' /\ inv s' /\ packed s' i /\ i < k_new s' /\
    at_ (sz_new s') i <= us /\
    (at_ (cnt_new s') i < n -> us < at_ (sz_new s') i + (2 + at_ sz (at_ (cnt_new s') i))).
Proof.
  revert s. induction fuel as [|fuel IH]; intros s Hs Hp Hi Hle Hf.
  - pose proof (inv_rng s Hs i Hi). lia.
  - cbn [fill]. pose proof Hs as [Hls Hlc Hkk Hlast Hrng Hsize].
    pose proof (Hrng i Hi) as Hr. rewrite (idx_at (cnt_new s)) by lia. bind_step.
    set (c := at_ (cnt_new s) i) in *. fold n.
    destruct (Z.ltb_spec c n) as [Hlt|Hge]; [|by exists s; split_and!; lia || done].
    unfold cell. rewrite (idx_at sz) by lia. bind_step.
    rewrite (idx_at (sz_new s)) by lia. bind_step.
    destruct (Z.ltb_spec us (at_ (sz_new s) i + (2 + at_ sz c))) as [Hbig|Hok];
      [by exists s; split_and!; lia || done|].
    assert (i + 1 < k_new s) as Hk.
    { destruct (decide (i = k_new s - 1)); [subst i; lia|lia]. }
    pose proof (P_S c ltac:(lia)) as HP.
    destruct (IH (moved s i (c + 1))) as (s' & E' & Hrest).
    + apply inv_moved; lia || done.
    + apply packed_moved; lia || done.
    + cbn. lia.
    + rewrite moved_at_sz, Z.eqb_refl by lia || done. fold c. lia.
    + rewrite moved_at_cnt, Z.eqb_refl by lia || done. lia.
    + exists s'. split; [|done]. rewrite <- E'. clear E' IH.
      rewrite set_idx_Ok by lia. bind_step. rewrite set_idx_Ok by lia. bind_step.
      pose proof (boundary_size_spec (c + 1) ltac:(lia)) as HB.
      replace (c + 1 - 1) with c in HB by lia. rewrite HB. bind_step.
      rewrite idx_at by (rewrite zlen_insert; lia). bind_step.
      rewrite set_idx_Ok by (rewrite zlen_insert; lia). bind_step.
      rewrite at_insert by lia. destruct (Z.eqb_spec (i + 1) i); [lia|].
      unfold moved. fold c. do 3 f_equal. f_equal. lia.
Qed.

Lemma packed_index s i : inv s -> packed s i -> 0 <= i <= k_new s ->
  forall t, 0 <= t < i -> t < at_ (cnt_new s) t.
Proof.
  intros Hs Hp Hi t Ht. replace t with (Z.of_nat (Z.to_nat t)) in * by lia.
  induction (Z.to_nat t) as [|m IH].
  - pose proof (Hp 0 ltac:(lia)) as [Hlo _]. change (Z.of_nat 0) with 0.
    unfold lo in Hlo. simpl in Hlo. lia.
  - pose proof (Hp (Z.of_nat (S m)) Ht) as [Hlo _]. unfold lo in Hlo.
    destruct (Z.eqb_spec (Z.of_nat (S m)) 0); [lia|].
    replace (Z.of_nat (S m) - 1) with (Z.of_nat m) in Hlo by lia. unfold nxt in Hlo.
    specialize (IH ltac:(lia)). lia.
Qed.

Lemma packed_lt_n s i : inv s -> packed s i -> 0 <= i <= k_new s -> i < n.
Proof.
  intros Hs Hp Hi. destruct (decide (i = 0)); [lia|].
  pose proof (packed_index s i Hs Hp Hi (i - 1) ltac:(lia)).
  destruct (Hp (i - 1) ltac:(lia)). lia.
Qed.

(** The state after the greedy pack. *)
Definition pack_post (s : st) : Prop :=
  inv s /\ packed s (k_new s - 1) /\ at_ (sz_new s) (k_new s - 1) <= us.

Lemma pack_step_more s i : inv s -> packed s i -> 0 <= i < k_new s ->
  at_ (sz_new s) i <= us -> at_ (cnt_new s) i < n ->
  us < at_ (sz_new s) i + (2 + at_ sz (at_ (cnt_new s) i)) -> packed s (i + 1).
Proof.
  intros Hs Hp Hi Hle Hlt Hfull t Ht. cbn zeta.
  destruct (decide (t = i)) as [->|]; [|apply Hp; lia]. split; [|lia]. split; [|lia].
  pose proof (inv_rng s Hs i Hi) as Hr. pose proof (lo_range s i Hs ltac:(lia)) as Hlo.
  destruct (decide (lo (cnt_new s) i < at_ (cnt_new s) i)); [done|].
  pose proof (Hfit _ (conj (proj1 Hr) Hlt)).
  rewrite (inv_size s Hs i Hi) in Hfull.
  pose proof (P_mono (at_ (cnt_new s) i) (lo (cnt_new s) i) ltac:(lia) ltac:(lia)). lia.
Qed.

Lemma pack_step_last s i : inv s -> packed s i -> 0 <= i < k_new s ->
  at_ (sz_new s) i <= us -> n <= at_ (cnt_new s) i ->
  pack_post (mkSt (sz_new s) (cnt_new s) (i + 1)).
Proof.
  intros Hs Hp Hi Hle Hge. pose proof Hs as [Hls Hlc Hkk Hlast Hrng Hsize].
  pose proof (Hrng i Hi). unfold pack_post; cbn [k_new sz_new cnt_new].
  replace (i + 1 - 1) with i by lia. split_and!; [|done|done].
  split; cbn [k_new sz_new cnt_new]; try (done || lia).
  - replace (i + 1 - 1) with i by lia. lia.
  - intros t Ht. apply Hrng. lia.
  - intros t Ht. apply Hsize. lia.
Qed.

Lemma pack_spec fuel i s : inv s -> packed s i -> 0 <= i < k_new s -> n - i < Z.of_nat fuel ->
  exists s', pack sz ld us fuel i s = Ok s' /\ pack_post s'.
Proof.
  revert i s. induction fuel as [|fuel IH]; intros i s Hs Hp Hi Hf;
    pose proof (packed_lt_n s i Hs Hp ltac:(lia)) as Hin; [lia|].
  cbn [pack]. destruct (Z.ltb_spec i (k_new s)); [|lia]. fold n.
  destruct (spill_spec (S (Z.to_nat n)) i s) as (s1 & -> & Hs1 & Hp1 & Hk1 & Hle1); try done.
  { pose proof (inv_rng s Hs i Hi). lia. }
  bind_step.
  destruct (fill_spec (S (Z.to_nat n)) i s1) as (s2 & -> & Hs2 & Hp2 & Hk2 & Hle2 & Hfull); try done.
  { lia. }
  { pose proof (inv_rng s1 Hs1 i ltac:(lia)). lia. }
  bind_step. pose proof Hs2 as [Hls Hlc Hkk Hlast Hrng Hsize].
  rewrite (idx_at (cnt_new s2)) by lia. bind_step.
  destruct (Z.leb_spec n (at_ (cnt_new s2) i)) as [Hge|Hlt].
  - exists (mkSt (sz_new s2) (cnt_new s2) (i + 1)).
    split; [|apply pack_step_last; lia || done].
    destruct fuel; cbn [pack k_new]; by rewrite Z.ltb_irrefl.
  - apply IH; try done; [by apply pack_step_more; auto; lia| |lia].
    destruct (decide (i = k_new s2 - 1)); [subst i; lia|lia].
Qed.

(** ** The right-to-left pass *)

Lemma nxt_step r : 0 <= r -> r + 1 < n -> P (nxt (r + 1)) = P (nxt r) + (2 + at_ sz (r + 1 - ld)).
Proof.
  intros Hr Hrn. unfold nxt.
  replace (Z.min n (r + 1 + 1 - ld)) with ((r + 1 - ld) + 1) by lia.
  replace (Z.min n (r + 1 - ld)) with (r + 1 - ld) by lia. apply P_S. lia.
Qed.

Lemma P_lt a b : 0 <= a <= n -> 0 <= b <= n -> P a < P b -> a < b.
Proof.
  intros Ha Hb Hlt. destruct (decide (a < b)); [done|].
  pose proof (P_mono b a ltac:(lia) ltac:(lia)). lia.
Qed.

(** The pair of pages [i - 1] (cells [l..)) and [i] (cells [..e)): the loop
    ends with a boundary that leaves both non-empty and fitting. The second
    alternative is the empty right-most page the greedy pack may leave. *)
Lemma shift_spec fuel i k r l e cnt :
  1 <= i -> i - 1 < zlen cnt -> 0 <= l < r + 1 -> r + 1 < n -> nxt (r + 1) <= e <= n ->
  P (r + 1) - P l <= us -> P e - P (nxt (r + 1)) <= us -> r + 1 < Z.of_nat fuel ->
  (nxt (r + 1) < e \/ ld = 0 /\ us < P (r + 1) - P l + (2 + at_ sz (r + 1))) ->
  exists c', shift sz fuel i k (P e - P (nxt (r + 1))) (P (r + 1) - P l) r (r + 1 - ld)
               (<[Z.to_nat (i - 1) := r + 1]> cnt)
             = Ok (P e - P (nxt c'), P c' - P l, <[Z.to_nat (i - 1) := c']> cnt) /\
    l < c' <= r + 1 /\ nxt c' < e /\ P e - P (nxt c') <= us.
Proof.
  revert r. induction fuel as [|fuel IH]; intros r Hi Hlen Hl Hr He Hleft Hright Hf Hne; [lia|].
  cbn [shift]. destruct (Z.ltb_spec r 0); [lia|].
  unfold cell. rewrite !idx_at by lia. bind_step. bind_step.
  pose proof (P_S r ltac:(lia)) as HPr. pose proof (nxt_step r ltac:(lia) Hr) as HPn.
  pose proof (nxt_range r ltac:(lia)) as Hnr. pose proof (nxt_range (r + 1) ltac:(lia)) as Hnr1.
  pose proof (Hsz (r + 1 - ld) ltac:(lia)). pose proof (Hfit (r + 1 - ld) ltac:(lia)).
  pose proof (P_mono (nxt (r + 1)) e ltac:(lia) ltac:(lia)) as HPe.
  assert (nxt r < nxt (r + 1)) as Hnn by (unfold nxt; lia).
  match goal with |- context [if ?b then _ else _] => destruct b eqn:Eb end.
  { exists (r + 1). split_and!; try (done || lia).
    apply andb_prop in Eb as [Eb _]. destruct (Z.eqb_spec (P e - P (nxt (r + 1))) 0); [done|].
    apply P_lt; lia. }
  rewrite set_idx_Ok by (rewrite zlen_insert; lia). bind_step. rewrite list_insert_insert_eq.
  assert (P l < P r /\ P e - P (nxt r) <= us) as [HlP Hle'].
  { destruct (Z.eqb_spec (P e - P (nxt (r + 1))) 0) as [E0|E0]; cbn [negb andb] in Eb.
    - destruct Hne as [Hne|[Hld0 Hfull]]; [lia|].
      pose proof (Hfit3 Hld0 r ltac:(lia)). pose proof (Hfit3 Hld0 (r + 1) ltac:(lia)).
      pose proof (Hsz r ltac:(lia)). lia.
    - apply Z.ltb_ge in Eb. pose proof (Hsz r ltac:(lia)). destruct (i =? k - 1); lia. }
  assert (l < r) as Hlr by (apply P_lt; lia). pose proof (Hsz r ltac:(lia)).
  destruct (IH (r - 1)) as (c' & E & Hc); replace (r - 1 + 1) with r in * by lia; try (done || lia).
  exists c'. split; [|lia]. rewrite <- E. f_equal; lia.
Qed.

Definition reb (s : st) (i : Z) : Prop :=
  inv s /\
  (forall t, 0 <= t < k_new s -> at_ (sz_new s) t <= us) /\
  (forall t, 0 <= t < k_new s - 1 -> at_ (cnt_new s) t < n) /\
  (forall t, 0 <= t < k_new s -> lo (cnt_new s) t < at_ (cnt_new s) t \/ t = i /\ i = k_new s - 1 /\ ld = 0 /\ 1 <= i) /\
  (i = k_new s - 1 -> 1 <= i ->
     us < at_ (sz_new s) (i - 1) + (2 + at_ sz (at_ (cnt_new s) (i - 1)))).

Lemma reb_moved s i c' : reb s i -> 1 <= i < k_new s ->
  lo (cnt_new s) (i - 1) < c' <= at_ (cnt_new s) (i - 1) -> nxt c' < at_ (cnt_new s) i ->
  P (at_ (cnt_new s) i) - P (nxt c') <= us -> reb (moved s (i - 1) c') (i - 1).
Proof.
  intros (Hs & Hfits & Hcn & Hne & Hfull) Hi Hc' Hne' Hfit'.
  pose proof Hs as [Hls Hlc Hkk Hlast Hrng Hsize].
  pose proof (lo_range s (i - 1) Hs ltac:(lia)). pose proof (Hrng (i - 1) ltac:(lia)) as Hr.
  pose proof (Hcn (i - 1) ltac:(lia)).
  pose proof (P_mono c' (at_ (cnt_new s) (i - 1)) ltac:(lia) ltac:(lia)).
  pose proof (Hfits (i - 1) ltac:(lia)). pose proof (Hsize i ltac:(lia)) as Ei.
  replace (lo (cnt_new s) i) with (nxt (at_ (cnt_new s) (i - 1))) in Ei
    by (unfold lo; destruct (Z.eqb_spec i 0); [lia|done]).
  assert (0 <= i - 1 /\ i - 1 + 1 < k_new s) as [Hj1 Hj2] by lia.
  split_and!; [by apply inv_moved; lia || done|..]; cbn [k_new moved]; [intros t Ht..|lia].
  - rewrite moved_at_sz by (done || lia).
    destruct (Z.eqb_spec t (i - 1)); [lia|].
    destruct (Z.eqb_spec t (i - 1 + 1)) as [->|]; [|by apply Hfits].
    replace (i - 1 + 1) with i in * by lia. lia.
  - rewrite moved_at_cnt by (done || lia). destruct (Z.eqb_spec t (i - 1)); [lia|]. by apply Hcn.
  - left. rewrite moved_at_cnt, moved_lo by (done || lia).
    destruct (Z.eqb_spec t (i - 1 + 1)) as [->|].
    + destruct (Z.eqb_spec (i - 1 + 1) (i - 1)); [lia|].
      replace (i - 1 + 1) with i by lia. done.
    + destruct (Z.eqb_spec t (i - 1)); [subst t; lia|].
      destruct (Hne t Ht) as [|(-> & _)]; [done|lia].
Qed.

Lemma rebalance_spec i s : reb s (Z.of_nat i) -> Z.of_nat i < k_new s ->
  exists s', rebalance sz ld i s = Ok s' /\ reb s' 0 /\ k_new s' = k_new s.
Proof.
  revert s. induction i as [|i IH]; intros s Hr Hi; [by exists s|].
  cbn [rebalance]. set (iz := Z.of_nat (S i)) in *.
  assert (Z.of_nat i = iz - 1) as Eiz by lia.
  destruct Hr as (Hs & Hfits & Hcn & Hne & Hfull). pose proof Hs as [Hls Hlc Hkk Hlast Hrng Hsize].
  rewrite !idx_at by lia. bind_step. bind_step. bind_step.
  set (c := at_ (cnt_new s) (iz - 1)).
  assert (lo (cnt_new s) iz = nxt c) as Elo.
  { unfold lo. destruct (Z.eqb_spec iz 0); [lia|done]. }
  destruct (Hne (iz - 1) ltac:(lia)) as [Hnel|]; [|lia]. fold c in Hnel.
  pose proof (Hrng iz ltac:(lia)) as Hrc. pose proof (Hcn (iz - 1) ltac:(lia)) as Hc. fold c in Hc.
  pose proof (lo_range s (iz - 1) Hs ltac:(lia)) as Hlor.
  pose proof (nxt_range c ltac:(lia)) as Hnc.
  pose proof (Hsize iz ltac:(lia)) as Eright. rewrite Elo in Eright.
  pose proof (Hsize (iz - 1) ltac:(lia)) as Eleft. fold c in Eleft.
  pose proof (Hfits iz ltac:(lia)). pose proof (Hfits (iz - 1) ltac:(lia)).
  destruct (shift_spec (S (Z.to_nat n)) iz (k_new s) (c - 1) (lo (cnt_new s) (iz - 1))
              (at_ (cnt_new s) iz) (cnt_new s)) as (c' & E & Hc' & Hne' & Hfit');
    replace (c - 1 + 1) with c in * by lia; try lia.
  { destruct (Hne iz ltac:(lia)) as [|(_ & Hk & _)]; [rewrite <- Elo; lia|].
    rewrite Hk, Hlast. lia. }
  { destruct (Hne iz ltac:(lia)) as [|(_ & Hk & Hld0 & _)]; [left; rewrite <- Elo; lia|].
    right. split; [done|]. specialize (Hfull Hk ltac:(lia)). fold c in Hfull. lia. }
  rewrite list_insert_id in E.
  2:{ unfold c, at_, zlen in *. destruct (lookup_lt_is_Some_2 (cnt_new s) (Z.to_nat (iz - 1))) as [x Hx]; [lia|].
      rewrite Hx. done. }
  rewrite <- Eright, <- Eleft in E. fold n.
  replace (c - 1 + 1 - ld) with (c - ld) by lia. rewrite E. bind_step. cbn [fst snd].
  rewrite set_idx_Ok by lia. bind_step. rewrite set_idx_Ok by (rewrite zlen_insert; lia). bind_step.
  assert (Hm : mkSt (<[Z.to_nat (iz - 1) := P c' - P (lo (cnt_new s) (iz - 1))]>
                 (<[Z.to_nat iz := P (at_ (cnt_new s) iz) - P (nxt c')]> (sz_new s)))
               (<[Z.to_nat (iz - 1) := c']> (cnt_new s)) (k_new s) = moved s (iz - 1) c').
  { unfold moved. fold c. replace (iz - 1 + 1) with iz by lia.
    replace (P (at_ (cnt_new s) iz) - P (nxt c'))
      with (at_ (sz_new s) iz - (P (nxt c') - P (nxt c))) by lia.
    replace (P c' - P (lo (cnt_new s) (iz - 1)))
      with (at_ (sz_new s) (iz - 1) + (P c' - P c)) by lia.
    by rewrite list_insert_insert_ne by lia. }
  rewrite Hm. apply (IH (moved s (iz - 1) c')); [|cbn; lia]. rewrite Eiz.
  apply reb_moved; (done || lia).
Qed.

Lemma pack_post_reb s : pack_post s -> reb s (k_new s - 1).
Proof.
  intros (Hs & Hp & Hle). pose proof Hs as [Hls Hlc Hkk Hlast Hrng Hsize]. split_and!.
  - done.
  - intros t Ht. destruct (decide (t = k_new s - 1)) as [->|]; [done|]. apply (Hp t). lia.
  - intros t Ht. apply (Hp t). lia.
  - intros t Ht. destruct (decide (t = k_new s - 1)) as [->|]; [|left; apply (Hp t); lia].
    rewrite Hlast. unfold lo. destruct (Z.eqb_spec (k_new s - 1) 0); [lia|].
    destruct (Hp (k_new s - 1 - 1) ltac:(lia)) as [Hlt _]. unfold nxt. lia.
  - intros _ Hk. apply (Hp (k_new s - 1 - 1)). lia.
Qed.

(** Two neighbouring pages of a table level hold more than one page's worth:
    the pack does not make more pages than twice what the cells need. *)
Lemma packed_pairs s : ld = 1 -> pack_post s -> k_new s / 2 * (us + 1) <= P n.
Proof.
  intros Hld1 (Hs & Hp & Hle). pose proof Hs as [Hls Hlc Hkk Hlast Hrng Hsize].
  assert (forall t, 0 <= t < k_new s - 1 -> at_ (cnt_new s) t < at_ (cnt_new s) (t + 1)) as Hinc.
  { intros t Ht. destruct (Hp t ltac:(lia)) as [Hc _]. destruct (decide (t + 1 = k_new s - 1)) as [->|]; [lia|].
    destruct (Hp (t + 1) ltac:(lia)) as [Hc' _]. unfold lo, nxt in Hc'. destruct (Z.eqb_spec (t + 1) 0); [lia|].
    replace (t + 1 - 1) with t in Hc' by lia. lia. }
  assert (forall j : nat, 2 * Z.of_nat j <= k_new s -> (j = 0%nat \/ Z.of_nat j * (us + 1) <= P (at_ (cnt_new s) (2 * Z.of_nat j - 1)))) as Hj.
  { induction j as [|j IH]; intros Hk; [by left|]. right. set (t := 2 * Z.of_nat j).
    replace (2 * Z.of_nat (S j) - 1) with (t + 1) by lia. destruct (Hp t ltac:(lia)) as [Hc Hfull].
    pose proof (Hsize t ltac:(lia)) as Esz. pose proof (Hinc t ltac:(lia)) as Hin. pose proof (Hrng (t + 1) ltac:(lia)).
    pose proof (lo_range s t Hs ltac:(lia)). pose proof (P_S (at_ (cnt_new s) t) ltac:(lia)) as EP.
    pose proof (P_mono (at_ (cnt_new s) t + 1) (at_ (cnt_new s) (t + 1)) ltac:(lia) ltac:(lia)) as Hm.
    destruct (IH ltac:(lia)) as [->|Hpre].
    - unfold lo in Esz. change (t =? 0) with true in Esz. cbn iota in Esz. rewrite P_0 in Esz. change t with 0 in *. lia.
    - unfold lo in Esz. destruct (Z.eqb_spec t 0) as [E0|E0].
      + assert (j = 0%nat) as -> by lia. rewrite P_0 in Esz. lia.
      + pose proof (Hrng (t - 1) ltac:(lia)). unfold nxt in Esz. fold t in Hpre.
        replace (Z.min n (at_ (cnt_new s) (t - 1) + 1 - ld)) with (at_ (cnt_new s) (t - 1)) in Esz by lia. lia. }
  destruct (Hj (Z.to_nat (k_new s / 2))) as [E|Hpre]; [Z.to_euclidean_division_equations; lia| |].
  - assert (k_new s / 2 = 0) as -> by (assert (0 <= k_new s / 2) by (apply Z.div_pos; lia); lia).
    pose proof (P_mono 0 n ltac:(lia) ltac:(lia)) as Hm. rewrite P_0 in Hm. lia.
  - assert (0 <= k_new s / 2 /\ 2 * (k_new s / 2) <= k_new s) as Hk2 by (Z.to_euclidean_division_equations; lia).
    rewrite Z2Nat.id in Hpre by lia. destruct (decide (k_new s / 2 = 0)) as [->|].
    + pose proof (P_mono 0 n ltac:(lia) ltac:(lia)) as Hm. rewrite P_0 in Hm. lia.
    + pose proof (Hrng (2 * (k_new s / 2) - 1) ltac:(lia)) as Hr.
      pose proof (P_mono (at_ (cnt_new s) (2 * (k_new s / 2) - 1)) n ltac:(lia) ltac:(lia)). lia.
Qed.

(** When dividers are pooled, each page but the last holds, with the divider
    after it, more than one page's worth. *)
Lemma packed_count s : ld = 0 -> pack_post s -> (k_new s - 1) * (us + 1) <= P n.
Proof.
  intros Hld0 (Hs & Hp & Hle). pose proof Hs as [Hls Hlc Hkk Hlast Hrng Hsize].
  assert (forall j : nat, Z.of_nat j < k_new s -> (j = 0%nat \/ Z.of_nat j * (us + 1) <= P (at_ (cnt_new s) (Z.of_nat j - 1) + 1))) as Hj.
  { induction j as [|j IH]; intros Hk; [by left|]. right. replace (Z.of_nat (S j) - 1) with (Z.of_nat j) by lia. set (t := Z.of_nat j) in *.
    destruct (Hp t ltac:(lia)) as [Hc Hfull]. pose proof (Hsize t ltac:(lia)) as Esz. pose proof (lo_range s t Hs ltac:(lia)).
    pose proof (P_S (at_ (cnt_new s) t) ltac:(lia)) as EP. destruct (IH ltac:(lia)) as [->|Hpre].
    - unfold lo in Esz. change (t =? 0) with true in Esz. cbn iota in Esz. rewrite P_0 in Esz. change t with 0 in *. lia.
    - unfold lo in Esz. destruct (Z.eqb_spec t 0) as [E0|E0]; [assert (j = 0%nat) as -> by lia; rewrite P_0 in Esz; lia|].
      destruct (Hp (t - 1) ltac:(lia)) as [Hc' _]. unfold nxt in Esz.
      replace (Z.min n (at_ (cnt_new s) (t - 1) + 1 - ld)) with (at_ (cnt_new s) (t - 1) + 1) in Esz by lia. lia. }
  destruct (Hj (Z.to_nat (k_new s - 1)) ltac:(lia)) as [E|Hpre].
  - assert (k_new s = 1) as -> by lia. pose proof (P_mono 0 n ltac:(lia) ltac:(lia)) as Hm. rewrite P_0 in Hm. lia.
  - rewrite Z2Nat.id in Hpre by lia. destruct (decide (k_new s = 1)) as [E1|].
    + rewrite E1. pose proof (P_mono 0 n ltac:(lia) ltac:(lia)) as Hm. rewrite P_0 in Hm. lia.
    + destruct (Hp (k_new s - 1 - 1) ltac:(lia)) as [Hc _]. pose proof (Hrng (k_new s - 1 - 1) ltac:(lia)).
      pose proof (P_mono (at_ (cnt_new s) (k_new s - 1 - 1) + 1) n ltac:(lia) ltac:(lia)). lia.
Qed.

(** ** Seeding *)

Lemma range_size_spec count j acc : 0 <= j -> j + Z.of_nat count <= n ->
  range_size sz count j acc = Ok (acc + (P (j + Z.of_nat count) - P j)).
Proof.
  revert j acc. induction count as [|count IH]; intros j acc Hj Hc; cbn [range_size].
  - replace (j + Z.of_nat 0) with j by lia. f_equal. lia.
  - unfold cell. rewrite idx_at by lia. bind_step. rewrite IH by lia.
    rewrite (P_S j) by lia. replace (j + 1 + Z.of_nat count) with (j + Z.of_nat (S count)) by lia.
    f_equal. lia.
Qed.

Definition seeded (cnt_old : list Z) (s : st) (i : Z) : Prop :=
  zlen (sz_new s) = n + 2 /\ zlen (cnt_new s) = n + 2 /\ k_new s = zlen cnt_old /\
  forall t, 0 <= t < i -> at_ (cnt_new s) t = at_ cnt_old t /\
    at_ (sz_new s) t = P (at_ cnt_old t) - P (page_start ld cnt_old t).

Lemma seed_spec todo cnt_old i s : old_ok n ld cnt_old -> seeded cnt_old s i -> 0 <= i ->
  i + Z.of_nat todo = zlen cnt_old ->
  exists s', seed sz ld todo i cnt_old s = Ok s' /\ seeded cnt_old s' (zlen cnt_old).
Proof.
  intros Hold. revert i s. induction todo as [|todo IH]; intros i s Hs Hi Hlen; cbn [seed].
  - exists s. by replace (zlen cnt_old) with i by lia.
  - pose proof Hold as (Hl & _ & Hrng). destruct (Hrng i ltac:(lia)) as [Hst Hcn].
    destruct Hs as (Hls & Hlc & Hk & Hval).
    assert ((if i =? 0 then Ok 0 else let* p := idx cnt_old (i - 1) in Ok (p + (1 - ld)))
            = Ok (page_start ld cnt_old i)) as ->.
    { unfold page_start. destruct (Z.eqb_spec i 0); [done|]. by rewrite idx_at by lia. }
    bind_step. rewrite idx_at by lia. bind_step.
    rewrite range_size_spec by lia. bind_step. rewrite !set_idx_Ok by lia. bind_step. bind_step.
    apply IH; [|lia..]. split_and!; cbn [sz_new cnt_new k_new]; try (rewrite zlen_insert; done); [done|].
    intros t Ht. rewrite !at_insert by lia. destruct (Z.eqb_spec t i) as [->|].
    + split; [done|]. rewrite Z2Nat.id by lia.
      replace (page_start ld cnt_old i + (at_ cnt_old i - page_start ld cnt_old i))
        with (at_ cnt_old i) by lia. lia.
    + apply Hval. lia.
Qed.

Lemma seeded_inv cnt_old s : old_ok n ld cnt_old -> seeded cnt_old s (zlen cnt_old) -> inv s.
Proof.
  intros (Hl & Hlast & Hrng) (Hls & Hlc & Hk & Hval). split; try (done || lia).
  - rewrite Hk. by rewrite (proj1 (Hval (zlen cnt_old - 1) ltac:(lia))).
  - intros t Ht. rewrite (proj1 (Hval t ltac:(lia))). destruct (Hrng t ltac:(lia)). lia.
  - intros t Ht. destruct (Hval t ltac:(lia)) as [-> ->]. do 2 f_equal.
    destruct (Hrng t ltac:(lia)) as [Hst Hcn].
    unfold lo, page_start, nxt in *. destruct (Z.eqb_spec t 0); [done|].
    rewrite (proj1 (Hval (t - 1) ltac:(lia))). lia.
Qed.

Lemma run_size_sub a b : 0 <= a <= b -> b <= n -> run_size (sub sz a b) = P b - P a.
Proof.
  intros Ha Hb. unfold P, sub.
  replace (take (Z.to_nat b) sz) with (take (Z.to_nat a) sz ++ take (Z.to_nat (b - a)) (drop (Z.to_nat a) sz)).
  2:{ rewrite take_take_drop. f_equal. lia. }
  rewrite run_size_app. lia.
Qed.

(** The boundaries [cnt] cut the pool into non-empty pages that fit. *)
Definition partition_ok (cnt : list Z) : Prop :=
  1 <= zlen cnt /\ at_ cnt (zlen cnt - 1) = n /\
  forall t, 0 <= t < zlen cnt ->
    0 <= page_start ld cnt t < at_ cnt t /\ at_ cnt t <= n /\
    run_size (sub sz (page_start ld cnt t) (at_ cnt t)) <= us.

Lemma reb_partition s : reb s 0 -> partition_ok (take (Z.to_nat (k_new s)) (cnt_new s)).
Proof.
  intros (Hs & Hfits & Hcn & Hne & _). pose proof Hs as [Hls Hlc Hkk Hlast Hrng Hsize].
  assert (zlen (take (Z.to_nat (k_new s)) (cnt_new s)) = k_new s) as Hz.
  { unfold zlen in *. rewrite length_take. lia. }
  unfold partition_ok. rewrite Hz. split_and!; [lia|by rewrite at_take by lia|].
  intros t Ht. rewrite at_take by lia. pose proof (Hrng t Ht) as Hr.
  destruct (Hne t Ht) as [Hlt|]; [|lia]. pose proof (lo_range s t Hs ltac:(lia)) as Hlr.
  assert (page_start ld (take (Z.to_nat (k_new s)) (cnt_new s)) t = lo (cnt_new s) t) as ->.
  { unfold page_start, lo. destruct (Z.eqb_spec t 0); [done|]. rewrite at_take by lia.
    pose proof (Hcn (t - 1) ltac:(lia)). unfold nxt. lia. }
  split_and!; [lia..|]. rewrite run_size_sub, <- Hsize by lia. by apply Hfits.
Qed.

Lemma distribute_from_spec cnt_old : old_ok n ld cnt_old ->
  exists cnt, distribute_from sz ld us cnt_old = Ok cnt /\ partition_ok cnt /\
    (ld = 1 -> zlen cnt / 2 * (us + 1) <= run_size sz) /\ (ld = 0 -> (zlen cnt - 1) * (us + 1) <= run_size sz).
Proof.
  intros Hold. pose proof Hold as (Hl & _). unfold distribute_from. fold n.
  destruct (Z.ltb_spec 0 n), (Z.ltb_spec 0 (zlen cnt_old)); try lia. cbn [negb andb].
  destruct (seed_spec (length cnt_old) cnt_old 0
              (mkSt (zrep (n + 2) 0) (zrep (n + 2) 0) (zlen cnt_old))) as (s1 & -> & Hs1); try done.
  { split_and!; cbn; rewrite ?zlen_zrep; lia. }
  bind_step. destruct (pack_spec (S (S (Z.to_nat n))) 0 s1) as (s2 & -> & Hs2).
  { by apply (seeded_inv cnt_old). }
  { intros t Ht. lia. }
  { destruct Hs1 as (_ & _ & -> & _). lia. }
  { lia. }
  bind_step. pose proof (inv_k s2 (proj1 Hs2)). destruct (Z.ltb_spec (k_new s2) 1); [lia|].
  destruct (rebalance_spec (Z.to_nat (k_new s2 - 1)) s2) as (s3 & -> & Hs3 & Hk3).
  { rewrite Z2Nat.id by lia. by apply pack_post_reb. }
  { lia. }
  bind_step. eexists. split; [done|]. split; [by apply reb_partition|].
  assert (zlen (take (Z.to_nat (k_new s3)) (cnt_new s3)) = k_new s3) as ->.
  { pose proof (inv_k s3 (proj1 Hs3)). pose proof (inv_lcnt s3 (proj1 Hs3)) as Hlc. unfold zlen in *. rewrite length_take. lia. }
  rewrite Hk3. split; intros Hld'.
  - pose proof (packed_pairs s2 Hld' Hs2) as Hpp. unfold P in Hpp. rewrite take_ge in Hpp by (unfold n, zlen; lia). done.
  - pose proof (packed_count s2 Hld' Hs2) as Hpp. unfold P in Hpp. rewrite take_ge in Hpp by (unfold n, zlen; lia). done.
Qed.
End Correct.

(** The bytes a page of the balanced level offers to cells and pointers. *)
Definition usable_space (leaf : bool) (usable : Z) : Z := usable + (if leaf then 4 else 0) - 12.

(** What [distribute] guarantees: boundaries that cut the pool into pages that
    fit, and not many more pages than the cells need. *)
Lemma distribute_spec (sz cnt_old : list Z) (leaf leaf_data : bool) (usable : Z) :
  sz <> [] -> Forall (fun x => 0 <= x) sz ->
  Forall (fun x => (if leaf_data then 1 else 3) * (2 + x) <= usable_space leaf usable) sz ->
  old_ok (zlen sz) (if leaf_data then 1 else 0) cnt_old ->
  exists cnt, distribute sz cnt_old leaf leaf_data usable = Ok cnt /\
    partition_ok sz (if leaf_data then 1 else 0) (usable_space leaf usable) cnt /\
    (leaf_data = true -> zlen cnt / 2 * (usable_space leaf usable + 1) <= run_size sz) /\
    (leaf_data = false -> (zlen cnt - 1) * (usable_space leaf usable + 1) <= run_size sz).
Proof.
  intros Hne Hpos Hfit Hold. unfold distribute. fold (usable_space leaf usable).
  assert (forall j, 0 <= j < zlen sz -> sz !! Z.to_nat j = Some (at_ sz j)) as Hat.
  { intros j Hj. pose proof (idx_at sz j Hj) as E. by apply idx_Ok in E as [_ ?]. }
  assert (forall j, 0 <= j < zlen sz -> 0 <= at_ sz j) as Hp.
  { intros j Hj. by apply (Forall_lookup_1 _ _ _ _ Hpos (Hat j Hj)). }
  assert (forall j, 0 <= j < zlen sz ->
    (if leaf_data then 1 else 3) * (2 + at_ sz j) <= usable_space leaf usable) as Hf.
  { intros j Hj. by apply (Forall_lookup_1 _ _ _ _ Hfit (Hat j Hj)). }
  destruct (distribute_from_spec sz (if leaf_data then 1 else 0) (usable_space leaf usable)) with (cnt_old := cnt_old) as (cnt & E & Hok & Hc1 & Hc0); try done.
  - destruct leaf_data; lia.
  - destruct sz; [done|]. rewrite zlen_cons. pose proof (zlen_nonneg sz). lia.
  - intros j Hj. specialize (Hp j Hj). specialize (Hf j Hj). destruct leaf_data; lia.
  - intros Hld j Hj. specialize (Hf j Hj). destruct leaf_data; lia.
  - exists cnt. split_and!; [done|done| |]; intros ->; [by apply Hc1|by apply Hc0].
Qed.

(** C20: redistribution is correct. For any pool of cells in which each cell
    fits a page (three to a page when dividers are pooled, which the payload
    spill rules guarantee) and any consistent old boundaries, [distribute]
    terminates without an index panic or an arithmetic underflow and returns
    boundaries that end at the last cell and cut the pool, in order and
    without gaps, into pages that are all non-empty and whose cells with their
    pointers fit the usable space. *)
Theorem distribute_correct (sz cnt_old : list Z) (leaf leaf_data : bool) (usable : Z) :
  sz <> [] -> Forall (fun x => 0 <= x) sz ->
  Forall (fun x => (if leaf_data then 1 else 3) * (2 + x) <= usable_space leaf usable) sz ->
  old_ok (zlen sz) (if leaf_data then 1 else 0) cnt_old ->
  exists cnt, distribute sz cnt_old leaf leaf_data usable = Ok cnt /\
    partition_ok sz (if leaf_data then 1 else 0) (usable_space leaf usable) cnt.
Proof.
  intros Hne Hpos Hfit Hold. destruct (distribute_spec sz cnt_old leaf leaf_data usable Hne Hpos Hfit Hold) as (cnt & E & Hok & _).
  by exists cnt.
Qed.

(** An over-full index page and its sibling, nine cells with one divider. *)
Lemma distribute_correct_witness :
  exists cnt, distribute [30; 31; 32; 33; 34; 35; 36; 37; 38] [6; 9] true false 130 = Ok cnt /\
    partition_ok [30; 31; 32; 33; 34; 35; 36; 37; 38] 0 122 cnt.
Proof.
  apply (distribute_correct [30; 31; 32; 33; 34; 35; 36; 37; 38] [6; 9] true false 130).
  - done.
  - repeat (apply Forall_cons_2; [lia|]). apply Forall_nil_2.
  - repeat (apply Forall_cons_2; [cbv; discriminate|]). apply Forall_nil_2.
  - split; [vm_compute; split; discriminate|]. split; [reflexivity|].
    intros t Ht. change (zlen [6; 9]) with 2 in Ht.
    assert (t = 0 \/ t = 1) as [-> | ->] by lia; vm_compute; repeat split; discriminate.
Defined.

(** The balancing window lies inside the parent's children, contains the
    overflowing child and has at most three siblings; it is the whole child
    list when there are at most two, and exactly three otherwise. *)
Theorem sibling_window_spec (p n_children : Z) : 0 <= p < n_children ->
  exists w0 n_old, sibling_window p n_children = Ok (w0, n_old) /\
    0 <= w0 <= p /\ p < w0 + n_old /\ w0 + n_old <= n_children /\ n_old = Z.min 3 n_children.
Proof.
  intros Hp. unfold sibling_window.
  destruct (Z.ltb_spec n_children 1); [lia|].
  destruct (Z.ltb_spec (n_children - 1) 2); [exists 0, n_children; split; [done|lia]|].
  destruct (Z.eqb_spec p 0); [exists 0, 3; split; [done|lia]|].
  destruct (Z.eqb_spec p (n_children - 1)); [eexists _, _; split; [done|lia]|].
  destruct (Z.ltb_spec p 1); [lia|]. eexists _, _; split; [done|lia].
Qed.

Lemma sibling_window_spec_witness :
  exists w0 n_old, sibling_window 4 5 = Ok (w0, n_old) /\
    0 <= w0 <= 4 /\ 4 < w0 + n_old /\ w0 + n_old <= 5 /\ n_old = Z.min 3 5.
Proof. apply (sibling_window_spec 4 5). lia. Defined.

End Balance.
