(* ===== verification/Ptrmap.v ===== *)
(** Pointer-map pages ([src/src/btree/ptrmap.rs]): the page arithmetic that
    places the map pages of an auto-vacuum database and the 5-byte entry
    format. Subtractions on [u32] are checked, as in a debug build. *)

From S2P Require Import Prelude.
Local Open Scope Z_scope.

Module Ptrmap.

Definition ENTRY_SIZE : Z := 5.

Inductive PtrmapType : Type := RootPage | FreePage | Overflow1 | Overflow2 | Btree.

Definition as_u8 (t : PtrmapType) : Z :=
  match t with
  | RootPage => 1
  | FreePage => 2
  | Overflow1 => 3
  | Overflow2 => 4
  | Btree => 5
  end.

Definition from_u8 (byte : Z) : option PtrmapType :=
  match byte with
  | 1 => Some RootPage
  | 2 => Some FreePage
  | 3 => Some Overflow1
  | 4 => Some Overflow2
  | 5 => Some Btree
  | _ => None
  end.

Definition entries_per_page (usable_size : Z) : Z := usable_size / ENTRY_SIZE.

(** Checked [u32] subtraction. *)
Definition sub_u32 (a b : Z) : res Z := if a <? b then Panic else Ok (a - b).

Definition ptrmap_pageno (usable_size pgno : Z) : res Z :=
  let n := entries_per_page usable_size in
  let cycle := n + 1 in
  let* offset := sub_u32 pgno 2 in
  let cycle_index := offset / cycle in
  Ok (cycle_index * cycle + 2).

Definition is_ptrmap_page (usable_size pgno : Z) : res bool :=
  if pgno <? 2 then Ok false
  else let* p := ptrmap_pageno usable_size pgno in Ok (p =? pgno).

Definition ptrmap_entry_offset (usable_size pgno : Z) : res Z :=
  let* map := ptrmap_pageno usable_size pgno in
  let* slot := sub_u32 pgno (map + 1) in
  Ok (slot * ENTRY_SIZE).

Definition encode_entry (kind : PtrmapType) (parent : Z) : bytes :=
  as_u8 kind :: be_bytes 4 parent.

Definition decode_entry (entry : bytes) : res (option (PtrmapType * Z)) :=
  let* b := idx entry 0 in
  match from_u8 b with
  | None => Ok None
  | Some kind => let* parent := be_u32 entry 1 in Ok (Some (kind, parent))
  end.

(** ** Properties *)

Lemma ptrmap_pageno_spec usable pgno : 0 <= usable -> 2 <= pgno ->
  exists q, 0 <= q /\
    ptrmap_pageno usable pgno = Ok (q * (entries_per_page usable + 1) + 2) /\
    q * (entries_per_page usable + 1) + 2 <= pgno < (q + 1) * (entries_per_page usable + 1) + 2.
Proof.
  intros Hu Hp. unfold ptrmap_pageno, sub_u32.
  assert (0 <= entries_per_page usable) by (apply Z.div_pos; unfold ENTRY_SIZE; lia).
  destruct (Z.ltb_spec pgno 2); [lia|]. bind_step.
  set (c := entries_per_page usable + 1).
  exists ((pgno - 2) / c).
  pose proof (Z.div_mod (pgno - 2) c ltac:(lia)).
  pose proof (Z.mod_pos_bound (pgno - 2) c ltac:(lia)).
  split; [apply Z.div_pos; lia|]. split; [done|]. nia.
Qed.

(** A multiple of the cycle length plus two is a map page. *)
Lemma ptrmap_pageno_idem usable q : 0 <= usable -> 0 <= q ->
  ptrmap_pageno usable (q * (entries_per_page usable + 1) + 2)
  = Ok (q * (entries_per_page usable + 1) + 2).
Proof.
  intros Hu Hq. unfold ptrmap_pageno, sub_u32.
  assert (0 <= entries_per_page usable) by (apply Z.div_pos; unfold ENTRY_SIZE; lia).
  destruct (Z.ltb_spec (q * (entries_per_page usable + 1) + 2) 2); [nia|]. bind_step.
  replace (q * (entries_per_page usable + 1) + 2 - 2) with (q * (entries_per_page usable + 1)) by lia.
  by rewrite Z.div_mul by lia.
Qed.

Lemma from_u8_as_u8 b k : from_u8 b = Some k <-> b = as_u8 k.
Proof.
  split; [|by intros ->; destruct k].
  destruct b as [|p|]; [done| |done]. do 3 (try (destruct p as [p|p|]; try done)); simpl; try done; by intros [= <-].
Qed.

Lemma decode_entry_cons b rest : zlen rest = 4 ->
  decode_entry (b :: rest) = Ok (match from_u8 b with None => None | Some k => Some (k, be_val rest) end).
Proof.
  intros Hr. unfold decode_entry. rewrite (proj2 (idx_Ok (b :: rest) 0 b)) by done. bind_step.
  destruct (from_u8 b); [|done].
  rewrite be_u32_Ok by (rewrite ?zlen_cons; lia). bind_step.
  pose proof (sub_app_exact [b] rest [] 1 (1 + 4)) as E. rewrite app_nil_r in E.
  simpl app in E. rewrite E by (rewrite ?zlen_cons, ?zlen_nil, ?Hr; done). done.
Qed.

(** The map geometry. On a page of at least five usable bytes, every page
    [pgno >= 2] has a map page at or before it, which is itself a map page, and
    a page that is not a map page has its five-byte entry whole inside that
    map page. No two tracked pages share an entry. *)
Theorem ptrmap_geometry (usable pgno : Z) :
  5 <= usable -> 2 <= pgno ->
  is_ptrmap_page usable pgno = Ok false ->
  exists map off,
    ptrmap_pageno usable pgno = Ok map /\ ptrmap_entry_offset usable pgno = Ok off /\
    2 <= map < pgno /\ is_ptrmap_page usable map = Ok true /\
    0 <= off /\ off + ENTRY_SIZE <= usable /\
    forall pgno', 2 <= pgno' -> ptrmap_pageno usable pgno' = Ok map ->
      ptrmap_entry_offset usable pgno' = Ok off -> pgno' = pgno.
Proof.
  intros Hu Hp Hnot.
  destruct (ptrmap_pageno_spec usable pgno ltac:(lia) Hp) as (q & Hq & E & Hr).
  set (n := entries_per_page usable) in *.
  assert (0 <= n /\ n * 5 <= usable) as [Hn Hn5].
  { unfold n, entries_per_page, ENTRY_SIZE. split; [apply Z.div_pos; lia|].
    pose proof (Z.mul_div_le usable 5). lia. }
  unfold is_ptrmap_page in Hnot. destruct (Z.ltb_spec pgno 2); [lia|]. rewrite E, bind_Ok in Hnot.
  injection Hnot as Hnot%Z.eqb_neq.
  exists (q * (n + 1) + 2), ((pgno - (q * (n + 1) + 2 + 1)) * 5).
  assert (ptrmap_entry_offset usable pgno = Ok ((pgno - (q * (n + 1) + 2 + 1)) * 5)) as Eo.
  { unfold ptrmap_entry_offset, sub_u32. rewrite E. bind_step.
    destruct (Z.ltb_spec pgno (q * (n + 1) + 2 + 1)); [lia|]. done. }
  split_and!; try done; try nia.
  - unfold is_ptrmap_page. destruct (Z.ltb_spec (q * (n + 1) + 2) 2); [nia|].
    unfold n. rewrite ptrmap_pageno_idem by lia. bind_step. by rewrite Z.eqb_refl.
  - unfold ENTRY_SIZE. nia.
  - intros pgno' Hp' E' Eo'. unfold ptrmap_entry_offset, sub_u32 in Eo'. rewrite E', bind_Ok in Eo'.
    destruct (pgno' <? q * (n + 1) + 2 + 1); [done|]. rewrite bind_Ok in Eo'.
    injection Eo' as Eo'. unfold ENTRY_SIZE in Eo'. lia.
Qed.

Lemma ptrmap_geometry_witness : exists map off,
    ptrmap_pageno 4096 823 = Ok map /\ ptrmap_entry_offset 4096 823 = Ok off /\
    2 <= map < 823 /\ is_ptrmap_page 4096 map = Ok true /\
    0 <= off /\ off + ENTRY_SIZE <= 4096 /\
    forall pgno', 2 <= pgno' -> ptrmap_pageno 4096 pgno' = Ok map ->
      ptrmap_entry_offset 4096 pgno' = Ok off -> pgno' = 823.
Proof. apply (ptrmap_geometry 4096 823); [lia|lia|reflexivity]. Defined.

(** Entries round-trip, and [decode_entry] accepts exactly the five-byte
    strings [encode_entry] writes: an unknown type byte gives [None]. *)
Theorem ptrmap_entry_roundtrip (kind : PtrmapType) (parent : Z) (entry : bytes) :
  is_u32 parent -> is_bytes entry -> zlen entry = ENTRY_SIZE ->
  decode_entry (encode_entry kind parent) = Ok (Some (kind, parent)) /\
  (decode_entry entry = Ok (Some (kind, parent)) <-> entry = encode_entry kind parent) /\
  (decode_entry entry = Ok None <-> Forall (fun k => entry !! 0%nat <> Some (as_u8 k)) [RootPage; FreePage; Overflow1; Overflow2; Btree]).
Proof.
  intros Hp Hb Hlen. unfold encode_entry.
  assert (be_val (be_bytes 4 parent) = parent) as Ev.
  { rewrite be_val_be_bytes. by apply Z.mod_small. }
  split; [by rewrite decode_entry_cons, (proj2 (from_u8_as_u8 _ kind) eq_refl), Ev by done|].
  destruct entry as [|b rest]; [done|]. rewrite zlen_cons in Hlen. unfold ENTRY_SIZE in Hlen.
  rewrite decode_entry_cons by lia. apply Forall_cons in Hb as [_ Hrest]. split.
  - split.
    + intros [= E]. destruct (from_u8 b) as [k|] eqn:Ek; [|done].
      injection E as -> <-. apply from_u8_as_u8 in Ek as ->.
      replace 4%nat with (length rest) by (unfold zlen in Hlen; lia).
      by rewrite be_bytes_be_val.
    + intros E. pose proof (f_equal (hd 0) E) as Eb. pose proof (f_equal tail E) as Er.
      cbn [hd tail] in Eb, Er. subst b rest. by rewrite (proj2 (from_u8_as_u8 _ kind) eq_refl), Ev.
  - simpl. split.
    + intros [= E]. destruct (from_u8 b) as [k|] eqn:Ek; [done|].
      rewrite Forall_forall. intros k _ [= ->]. by rewrite (proj2 (from_u8_as_u8 _ k) eq_refl) in Ek.
    + rewrite Forall_forall. intros Hall. destruct (from_u8 b) as [k|] eqn:Ek; [|done].
      apply from_u8_as_u8 in Ek as ->. exfalso. apply (Hall k); [|done].
      destruct k; set_solver.
Qed.

Lemma ptrmap_entry_roundtrip_witness :
  decode_entry (encode_entry Overflow1 16909060) = Ok (Some (Overflow1, 16909060)) /\
  (decode_entry [9; 0; 0; 0; 1] = Ok (Some (Overflow1, 16909060)) <-> [9; 0; 0; 0; 1] = encode_entry Overflow1 16909060) /\
  (decode_entry [9; 0; 0; 0; 1] = Ok None <-> Forall (fun k => [9; 0; 0; 0; 1] !! 0%nat <> Some (as_u8 k)) [RootPage; FreePage; Overflow1; Overflow2; Btree]).
Proof.
  apply (ptrmap_entry_roundtrip Overflow1 16909060 [9; 0; 0; 0; 1]).
  - split; lia.
  - repeat (apply Forall_cons_2; [split; lia|]). apply Forall_nil_2.
  - reflexivity.
Defined.

End Ptrmap.
