(* ===== verification/PCache.v ===== *)
(** The bounded page cache ([src/src/pager/pcache.rs]) and its refinement of a
    plain least-recently-used list.

    The resident pages are a finite map from page number to bytes and recency
    tick, the clock wraps at 64 bits as in the source, and eviction looks for
    the smallest tick (the first such key in key order, as [min_by_key] over a
    [BTreeMap] does). The specification [Lru] is a list ordered from the most
    to the least recently used page; [pcache_refines_lru] shows that the two
    answer every sequence of operations alike. *)

From Stdlib Require Import Sorted.
From stdpp Require Import sorting.
From S2P Require Import Prelude.
Local Open Scope Z_scope.

Module PCache.

Definition DEFAULT_CACHE_SIZE : Z := -2000.

Record Entry : Type := mkEntry { data : bytes; last_used : Z }.

Record PageCache : Type := mkCache {
  map : gmap Z Entry;
  capacity : Z;
  clock : Z;
  hits : Z;
  misses : Z
}.

(** [u64::saturating_mul]. *)
Definition saturating_mul (a b : Z) : Z := Z.min (2 ^ 64 - 1) (a * b).

Definition capacity_for (cache_size page_size : Z) : Z :=
  let pages :=
    if 0 <=? cache_size then cache_size
    else
      let kib := wrap 64 (Z.abs cache_size) in
      let bytes := saturating_mul kib 1024 in
      let ps := Z.max page_size 1 in
      bytes / ps in
  Z.max pages 1.

Definition new (cache_size page_size : Z) : PageCache :=
  mkCache ∅ (capacity_for cache_size page_size) 0 0 0.

Definition len (c : PageCache) : Z := Z.of_nat (size (map c)).
Definition is_empty (c : PageCache) : bool := len c =? 0.

Definition with_map (c : PageCache) (m : gmap Z Entry) : PageCache :=
  mkCache m (capacity c) (clock c) (hits c) (misses c).

(** [tick]: the stamp is the new clock. *)
Definition tick (c : PageCache) : PageCache :=
  mkCache (map c) (capacity c) (wrap 64 (clock c + 1)) (hits c) (misses c).

Definition get (c : PageCache) (number : Z) : option bytes * PageCache :=
  let c := tick c in
  match map c !! number with
  | Some entry =>
      (Some (data entry),
       mkCache (<[number := mkEntry (data entry) (clock c)]> (map c))
         (capacity c) (clock c) (wrap 64 (hits c + 1)) (misses c))
  | None => (None, mkCache (map c) (capacity c) (clock c) (hits c) (wrap 64 (misses c + 1)))
  end.

Definition stats (c : PageCache) : Z * Z := (hits c, misses c).

(** [min_by_key] over the map in key order: the entry with the smallest tick,
    and among those the smallest page number. *)
Definition older (a b : Z * Z) : bool :=
  (fst a <? fst b) || ((fst a =? fst b) && (snd a <? snd b)).

Definition victim (m : gmap Z Entry) : option (Z * Z) :=
  map_fold (fun n e acc =>
    match acc with
    | None => Some (last_used e, n)
    | Some b => if older (last_used e, n) b then Some (last_used e, n) else Some b
    end) None m.

Definition evict_one (c : PageCache) : bool * PageCache :=
  match victim (map c) with
  | Some (_, n) => (true, with_map c (delete n (map c)))
  | None => (false, c)
  end.

(** [while self.map.len() >= limit { if !evict_one() { break } }]. *)
Fixpoint evict_while (fuel : nat) (limit : Z) (c : PageCache) : res PageCache :=
  if limit <=? len c then
    match fuel with
    | O => Panic
    | S fuel =>
        match evict_one c with
        | (true, c) => evict_while fuel limit c
        | (false, c) => Ok c
        end
    end
  else Ok c.

Definition insert (c : PageCache) (number : Z) (d : bytes) : res PageCache :=
  let c := tick c in
  let* c := match map c !! number with
            | Some _ => Ok c
            | None => evict_while (size (map c)) (capacity c) c
            end in
  Ok (with_map c (<[number := mkEntry d (clock c)]> (map c))).

Definition invalidate (c : PageCache) (number : Z) : PageCache :=
  with_map c (delete number (map c)).

Definition clear (c : PageCache) : PageCache := with_map c ∅.

(** [while self.map.len() > self.capacity]. *)
Definition evict_to_capacity (c : PageCache) : res PageCache :=
  evict_while (size (map c)) (capacity c + 1) c.

Definition set_cache_size (c : PageCache) (cache_size page_size : Z) : res PageCache :=
  evict_to_capacity
    (mkCache (map c) (capacity_for cache_size page_size) (clock c) (hits c) (misses c)).

(** ** Specification: a recency list *)

Abbreviation lru := (list (Z * bytes)).

Definition lru_remove (n : Z) (l : lru) : lru := filter (fun x => x.1 <> n) l.

Definition lru_get (n : Z) (l : lru) : option bytes * lru :=
  match list_find (fun x => x.1 = n) l with
  | Some (_, (_, d)) => (Some d, (n, d) :: lru_remove n l)
  | None => (None, l)
  end.

Definition lru_insert (cap : Z) (n : Z) (d : bytes) (l : lru) : lru :=
  (n, d) :: take (Z.to_nat (cap - 1)) (lru_remove n l).

Definition lru_resize (cap : Z) (l : lru) : lru := take (Z.to_nat cap) l.

(** The operations a client can issue, and what it observes. *)
Inductive op : Type :=
  | Get (n : Z) | Insert (n : Z) (d : bytes) | Invalidate (n : Z) | Clear | SetSize (cs ps : Z).

Definition run_op (o : op) (c : PageCache) : res (option bytes * PageCache) :=
  match o with
  | Get n => Ok (get c n)
  | Insert n d => let* c := insert c n d in Ok (None, c)
  | Invalidate n => Ok (None, invalidate c n)
  | Clear => Ok (None, clear c)
  | SetSize cs ps => let* c := set_cache_size c cs ps in Ok (None, c)
  end.

Definition lru_op (o : op) (s : Z * lru) : option bytes * (Z * lru) :=
  let '(cap, l) := s in
  match o with
  | Get n => let '(r, l) := lru_get n l in (r, (cap, l))
  | Insert n d => (None, (cap, lru_insert cap n d l))
  | Invalidate n => (None, (cap, lru_remove n l))
  | Clear => (None, (cap, []))
  | SetSize cs ps => (None, (capacity_for cs ps, lru_resize (capacity_for cs ps) l))
  end.

Fixpoint run_ops (os : list op) (c : PageCache) : res (list (option bytes) * PageCache) :=
  match os with
  | [] => Ok ([], c)
  | o :: os =>
      let* (r, c) := run_op o c in
      let* (rs, c) := run_ops os c in
      Ok (r :: rs, c)
  end.

Fixpoint lru_ops (os : list op) (s : Z * lru) : list (option bytes) * (Z * lru) :=
  match os with
  | [] => ([], s)
  | o :: os => let '(r, s) := lru_op o s in let '(rs, s) := lru_ops os s in (r :: rs, s)
  end.

(** ** The abstraction relation *)

(** The resident set in recency order, ticks included. *)
Abbreviation glist := (list (Z * Entry)).

Definition forget (g : glist) : lru := (fun x => (x.1, data x.2)) <$> g.

(** Ticks strictly decrease along the list. *)
Definition recent : relation (Z * Entry) := fun x y => last_used y.2 < last_used x.2.

Record repr (c : PageCache) (g : glist) : Prop := {
  repr_map : map c = list_to_map g;
  repr_nodup : NoDup g.*1;
  repr_sorted : StronglySorted recent g;
  repr_ticks : Forall (fun x => last_used x.2 <= clock c) g;
  repr_clock : 0 <= clock c;
  repr_cap : 1 <= capacity c }.

Lemma repr_lookup c g n e : repr c g -> map c !! n = Some e <-> (n, e) ∈ g.
Proof. intros H. rewrite (repr_map c g H). symmetry. apply elem_of_list_to_map, H. Qed.

Lemma repr_len c g : repr c g -> len c = zlen g.
Proof.
  intros H. unfold len, zlen. rewrite (repr_map c g H).
  rewrite map_size_list_to_map by apply H. done.
Qed.

(** The eviction victim is the last element of the recency list. *)
Lemma victim_spec m :
  match victim m with
  | None => m = ∅
  | Some (t, n) => (exists e, m !! n = Some e /\ last_used e = t) /\
      forall n' e', m !! n' = Some e' -> t <= last_used e'
  end.
Proof.
  unfold victim. apply (map_fold_weak_ind (fun r m => match r with
    | None => m = ∅
    | Some (t, n) => (exists e, m !! n = Some e /\ last_used e = t) /\
        forall n' e', m !! n' = Some e' -> t <= last_used e' end)); [done|].
  intros n e m' r Hn Hr. destruct r as [[t k]|].
  - destruct Hr as [(e0 & Hk & Ht) Hmin].
    destruct (older (last_used e, n) (t, k)) eqn:Eo; unfold older in Eo; cbn [fst snd] in Eo.
    + split; [exists e; by rewrite lookup_insert_eq|]. intros n' e'.
      rewrite lookup_insert_Some. intros [[-> ->]|[_ H']]; [lia|]. specialize (Hmin _ _ H'). lia.
    + split; [exists e0; rewrite lookup_insert_ne by congruence; done|]. intros n' e'.
      rewrite lookup_insert_Some. intros [[-> ->]|[_ H']]; [lia|]. by apply (Hmin n').
  - subst m'. split; [exists e; by rewrite lookup_insert_eq|]. intros n' e'.
    rewrite lookup_insert_Some. intros [[-> ->]|[_ H']]; [lia|done].
Qed.

Lemma sorted_snoc (g : glist) x : StronglySorted recent (g ++ [x]) ->
  StronglySorted recent g /\ Forall (fun y => recent y x) g.
Proof.
  induction g as [|y g IH]; simpl; intros H; [by split; constructor|].
  inversion_clear H as [|? ? H1 H2]. destruct (IH H1) as [H3 H4].
  apply Forall_app in H2 as [H2 H5]. inversion_clear H5. by split; constructor.
Qed.

Lemma repr_snoc_evict c g x : repr c (g ++ [x]) ->
  evict_one c = (true, with_map c (delete x.1 (map c))) /\
  repr (with_map c (delete x.1 (map c))) g.
Proof.
  intros H. pose proof H as [Hm Hnd Hs Ht Hc Hcap].
  rewrite fmap_app in Hnd. apply NoDup_app in Hnd as (Hnd & Hnx & _).
  apply sorted_snoc in Hs as [Hs Hx]. apply Forall_app in Ht as [Ht _].
  assert (x.1 ∉ g.*1) as Hxg. { intros Hin. apply (Hnx _ Hin). simpl. by left. }
  assert (map c !! x.1 = Some x.2) as Ex.
  { apply (repr_lookup c _ _ _ H). apply elem_of_app. right. destruct x. simpl. by left. }
  split.
  - unfold evict_one. pose proof (victim_spec (map c)) as Hv.
    destruct (victim (map c)) as [[t n]|].
    + destruct Hv as [(e & Hn & Ht') Hmin].
      apply (repr_lookup c _ _ _ H), elem_of_app in Hn as [Hn|Hn].
      * rewrite Forall_forall in Hx. specialize (Hx _ Hn). unfold recent in Hx. simpl in Hx.
        specialize (Hmin x.1 x.2 Ex). lia.
      * apply list_elem_of_singleton in Hn. by subst x.
    + by rewrite Hv, lookup_empty in Ex.
  - split; cbn [with_map map capacity clock]; try done.
    rewrite Hm, list_to_map_app. apply map_eq. intros k.
    destruct (decide (k = x.1)) as [->|Hne].
    + rewrite lookup_delete_eq. symmetry. by apply not_elem_of_list_to_map_1.
    + rewrite lookup_delete_ne by done. destruct x as [n e]. simpl in *.
      rewrite lookup_union. rewrite (lookup_insert_ne ∅) by done. rewrite lookup_empty.
      by destruct (list_to_map g !! k).
Qed.

(** The eviction loop keeps the [limit - 1] most recent pages. *)
Lemma evict_while_spec fuel limit c g : repr c g -> 1 <= limit -> (length g <= fuel)%nat ->
  exists c', evict_while fuel limit c = Ok c' /\ repr c' (take (Z.to_nat (limit - 1)) g) /\
    clock c' = clock c /\ capacity c' = capacity c.
Proof.
  revert c g. induction fuel as [|fuel IH]; intros c g Hr Hl Hf; cbn [evict_while];
    rewrite (repr_len c g Hr); destruct (Z.leb_spec limit (zlen g)) as [Hle|Hgt]; unfold zlen in *.
  1: lia.
  1,3: exists c; split_and!; try done; by rewrite take_ge by lia.
  destruct g as [|x g' _] using rev_ind; [simpl in *; lia|].
  destruct (repr_snoc_evict c g' x Hr) as [-> Hr']. rewrite length_app in *. simpl in *.
  destruct (IH _ g' Hr' Hl) as (c' & E & Hc' & Hclk & Hcap); [lia|].
  exists c'. split_and!; [done| |done|done].
  rewrite take_app_le by lia. done.
Qed.

(** ** Simulation *)

Definition gremove (n : Z) (g : glist) : glist := filter (fun x => x.1 <> n) g.

Lemma forget_remove n g : forget (gremove n g) = lru_remove n (forget g).
Proof.
  unfold forget, gremove, lru_remove. induction g as [|x g IH]; [done|].
  rewrite fmap_cons, !filter_cons. cbn [fst].
  destruct (decide (x.1 <> n)); [|apply IH]. rewrite fmap_cons. f_equal. apply IH.
Qed.

Lemma elem_of_gremove n g x : x ∈ gremove n g <-> x.1 <> n /\ x ∈ g.
Proof. unfold gremove. by rewrite list_elem_of_filter. Qed.

Lemma Forall_gremove (Q : Z * Entry -> Prop) n g : Forall Q g -> Forall Q (gremove n g).
Proof. rewrite !Forall_forall. intros H x [_ Hx]%elem_of_gremove. by apply H. Qed.

Lemma sorted_gremove n g : StronglySorted recent g -> StronglySorted recent (gremove n g).
Proof.
  unfold gremove. induction g as [|x g IH]; intros H; [done|]. inversion_clear H as [|? ? H1 H2].
  rewrite filter_cons. destruct (decide (x.1 <> n)); [|by apply IH].
  constructor; [by apply IH|]. by apply Forall_gremove.
Qed.

Lemma nodup_gremove n g : NoDup g.*1 -> NoDup (gremove n g).*1 /\ n ∉ (gremove n g).*1.
Proof.
  intros H. split.
  - unfold gremove. induction g as [|x g IH]; [done|]. rewrite fmap_cons in H. apply NoDup_cons in H as [H1 H2].
    rewrite filter_cons. destruct (decide (x.1 <> n)); [|by apply IH].
    rewrite fmap_cons. apply NoDup_cons. split; [|by apply IH].
    intros (y & Ey & Hy)%list_elem_of_fmap. apply elem_of_gremove in Hy as [_ Hy].
    apply H1. apply list_elem_of_fmap. by exists y.
  - intros (y & Ey & Hy)%list_elem_of_fmap. apply elem_of_gremove in Hy as [Hy _]. congruence.
Qed.

Lemma repr_remove c g n : repr c g -> repr (with_map c (delete n (map c))) (gremove n g).
Proof.
  intros H. pose proof H as [Hm Hnd Hs Ht Hc Hcap]. pose proof (nodup_gremove n g Hnd) as [Hnd' Hn].
  split; cbn [with_map map clock capacity]; try done.
  - apply map_eq. intros k. apply option_eq. intros e.
    rewrite lookup_delete_Some, (repr_lookup c g k e H), <- elem_of_list_to_map by done.
    rewrite elem_of_gremove. simpl. naive_solver.
  - by apply sorted_gremove.
  - by apply Forall_gremove.
Qed.

(** Stamping page [n] with a fresh tick moves it to the front. *)
Lemma repr_touch c g n d t h m : repr c g -> clock c < t ->
  repr (mkCache (<[n := mkEntry d t]> (map c)) (capacity c) t h m) ((n, mkEntry d t) :: gremove n g).
Proof.
  intros H Hlt. pose proof (repr_remove c g n H) as [Hm Hnd Hs Ht Hc Hcap].
  pose proof (nodup_gremove n g (repr_nodup c g H)) as [_ Hn].
  cbn [with_map map clock capacity] in *. split; cbn [map clock capacity].
  - simpl list_to_map. rewrite <- Hm. by rewrite insert_delete_eq.
  - simpl. by apply NoDup_cons.
  - constructor; [done|]. eapply Forall_impl; [exact Ht|]. intros x Hx. unfold recent. simpl in *. lia.
  - constructor; [simpl; lia|]. eapply Forall_impl; [exact Ht|]. simpl. intros; lia.
  - lia.
  - done.
Qed.

Definition sim (c : PageCache) (s : Z * lru) : Prop :=
  exists g, repr c g /\ forget g = s.2 /\ capacity c = s.1 /\ zlen g <= capacity c.

Lemma gremove_length n g : (length (gremove n g) <= length g)%nat.
Proof. apply length_filter. Qed.

Lemma gremove_length_lt n g : n ∈ g.*1 -> (length (gremove n g) < length g)%nat.
Proof.
  intros (x & -> & Hx)%list_elem_of_fmap. apply (length_filter_lt _ _ x); [done|]. by intros H.
Qed.

Lemma gremove_id n g : n ∉ g.*1 -> gremove n g = g.
Proof.
  intros H. unfold gremove. induction g as [|x g IH]; [done|].
  rewrite fmap_cons in H. apply not_elem_of_cons in H as [H1 H2].
  rewrite filter_cons_True by congruence. f_equal. by apply IH.
Qed.

Lemma list_find_forget n g e : NoDup g.*1 -> (n, e) ∈ g ->
  exists i, list_find (fun x => x.1 = n) (forget g) = Some (i, (n, data e)).
Proof.
  intros Hnd Hin. induction g as [|x g IH]; [by apply elem_of_nil in Hin|].
  rewrite fmap_cons in Hnd. apply NoDup_cons in Hnd as [Hx Hnd].
  change (forget (x :: g)) with ((x.1, data x.2) :: forget g). cbn [list_find fst].
  apply elem_of_cons in Hin as [<-|Hin].
  - rewrite decide_True by done. eauto.
  - destruct (IH Hnd Hin) as [i Ei]. destruct (decide (x.1 = n)) as [E|_].
    + exfalso. apply Hx. rewrite E. apply list_elem_of_fmap. by exists (n, e).
    + rewrite Ei. simpl. eauto.
Qed.

Lemma tick_clock c : 0 <= clock c -> clock c + 1 < 2 ^ 64 -> clock (tick c) = clock c + 1.
Proof. intros. cbn. apply wrap_small. unfold is_uint. lia. Qed.

Lemma repr_tick c g : repr c g -> clock c + 1 < 2 ^ 64 -> repr (tick c) g.
Proof.
  intros H Hlt. pose proof H as [Hm Hnd Hs Ht Hc Hcap]. pose proof (tick_clock c Hc Hlt) as E.
  split; try done; rewrite E; [|lia]. eapply Forall_impl; [exact Ht|]. simpl. intros; lia.
Qed.

Lemma get_sim c s n : sim c s -> clock c + 1 < 2 ^ 64 ->
  exists c', get c n = ((lru_get n s.2).1, c') /\ sim c' (s.1, (lru_get n s.2).2) /\
    clock c' <= clock c + 1.
Proof.
  intros (g & Hr & Hf & Hcap & Hlen) Hlt. pose proof (tick_clock c (repr_clock c g Hr) Hlt) as Ec.
  unfold get, lru_get. rewrite <- Hf.
  destruct (map (tick c) !! n) as [e|] eqn:El.
  - assert ((n, e) ∈ g) as Hin by (by apply (repr_lookup c g n e Hr)).
    destruct (list_find_forget n g e (repr_nodup c g Hr) Hin) as [i ->]. simpl fst; simpl snd.
    eexists. split; [done|]. split; [|simpl in *; lia].
    exists ((n, mkEntry (data e) (clock (tick c))) :: gremove n g). split_and!.
    + apply (repr_touch c g); [done|lia].
    + unfold forget. rewrite fmap_cons. simpl. f_equal. apply forget_remove.
    + done.
    + simpl. rewrite zlen_cons. assert (n ∈ g.*1) as Hn by (apply list_elem_of_fmap; by exists (n, e)).
      apply gremove_length_lt in Hn. unfold zlen in *. lia.
  - assert (list_find (fun x => x.1 = n) (forget g) = None) as ->.
    { apply list_find_None, Forall_forall. intros x Hx Hxn. apply list_elem_of_fmap in Hx as (y & -> & Hy).
      simpl in Hxn. destruct y as [n' e']. simpl in *. subst n'.
      apply (repr_lookup c g n e' Hr) in Hy. simpl in El. congruence. }
    simpl fst; simpl snd. eexists. split; [done|]. split; [|simpl in *; lia].
    exists g. split_and!; try done. destruct (repr_tick c g Hr Hlt). by split.
Qed.

Lemma zlen_gremove n g : zlen (gremove n g) <= zlen g.
Proof. pose proof (gremove_length n g). unfold zlen. lia. Qed.

Lemma gremove_take k n g : n ∉ g.*1 -> gremove n (take k g) = take k g.
Proof.
  intros H. apply gremove_id. intros (x & -> & Hx)%list_elem_of_fmap. apply H.
  apply list_elem_of_fmap. exists x. split; [done|].
  rewrite <- (take_drop k g). apply elem_of_app. by left.
Qed.

Lemma insert_sim c s n d : sim c s -> clock c + 1 < 2 ^ 64 ->
  exists c', insert c n d = Ok c' /\ sim c' (s.1, lru_insert s.1 n d s.2) /\ clock c' <= clock c + 1.
Proof.
  intros (g & Hr & Hf & Hcap & Hlen) Hlt. pose proof (tick_clock c (repr_clock c g Hr) Hlt) as Ec.
  pose proof (repr_cap c g Hr) as Hc1.
  assert (exists c1, (match map (tick c) !! n with
            | Some _ => Ok (tick c)
            | None => evict_while (size (map (tick c))) (capacity (tick c)) (tick c)
            end) = Ok c1 /\ capacity c1 = capacity c /\ clock c1 = clock c + 1 /\
            map c1 = list_to_map (if decide (n ∈ g.*1) then g else take (Z.to_nat (capacity c - 1)) g))
    as (c1 & E1 & Ecap & Eclk & Emap).
  { destruct (map (tick c) !! n) as [e|] eqn:El.
    - exists (tick c). split_and!; try done. rewrite decide_True; [apply Hr|].
      apply (repr_lookup c g n e Hr) in El. apply list_elem_of_fmap. by exists (n, e).
    - destruct (evict_while_spec (size (map (tick c))) (capacity c) (tick c) g) as (c1 & E & Hr1 & Hk & Hp);
        [by apply repr_tick|done| |].
      { pose proof (repr_len c g Hr) as E. unfold len, zlen in E. cbn. lia. }
      exists c1. split_and!; [done|done|lia|]. rewrite (repr_map _ _ Hr1). rewrite decide_False; [done|].
      intros ([n' e] & -> & Hin)%list_elem_of_fmap. apply (repr_lookup c g n' e Hr) in Hin.
      simpl in El. congruence. }
  unfold insert. cbv zeta. rewrite E1. bind_step. eexists. split; [done|]. split; [|cbn; lia].
  set (g1 := if decide (n ∈ g.*1) then g else take (Z.to_nat (capacity c - 1)) g) in *.
  assert (gremove n g1 = take (Z.to_nat (capacity c - 1)) (gremove n g)) as Eg.
  { unfold g1. destruct (decide (n ∈ g.*1)) as [Hin|Hout].
    - apply gremove_length_lt in Hin. rewrite take_ge; [done|]. unfold zlen in *. lia.
    - rewrite gremove_take, (gremove_id n g) by done. done. }
  exists ((n, mkEntry d (clock c1)) :: gremove n g1). split_and!.
  - assert (repr (mkCache (map c1) (capacity c) (clock c) 0 0) g1) as Hr1.
    { pose proof Hr as [Hm Hnd Hs Ht Hc Hcp]. unfold g1. split; cbn [map clock capacity]; try done.
      all: destruct (decide (n ∈ g.*1)); try done.
      - rewrite fmap_take. apply (sublist_NoDup _ g.*1); [done|apply sublist_take].
      - rewrite <- (take_drop (Z.to_nat (capacity c - 1)) g) in Hs. by apply StronglySorted_app_1_l in Hs.
      - by apply Forall_take. }
    unfold with_map. rewrite Ecap. 
    apply (repr_touch _ _ n d (clock c1) (hits c1) (misses c1)) in Hr1; [|cbn; lia]. exact Hr1.
  - unfold forget. rewrite fmap_cons. simpl. unfold lru_insert. f_equal.
    rewrite Eg, fmap_take. rewrite <- Hf, <- forget_remove, Hcap. done.
  - cbn. lia.
  - rewrite Eg. cbn [with_map capacity]. rewrite zlen_cons. unfold zlen. rewrite length_take. lia.
Qed.

Lemma resize_sim c s cs ps : sim c s ->
  exists c', set_cache_size c cs ps = Ok c' /\
    sim c' (capacity_for cs ps, lru_resize (capacity_for cs ps) s.2) /\ clock c' = clock c.
Proof.
  intros (g & Hr & Hf & Hcap & Hlen). unfold set_cache_size, evict_to_capacity.
  assert (1 <= capacity_for cs ps) as H1 by (unfold capacity_for; lia).
  set (c0 := mkCache _ _ _ _ _).
  assert (repr c0 g) as Hr0 by (destruct Hr; by split).
  destruct (evict_while_spec (size (map c0)) (capacity c0 + 1) c0 g) as (c' & E & Hr' & Hclk & Hcp);
    [done|cbn; lia| |].
  { pose proof (repr_len c g Hr) as E. unfold len, zlen in E. cbn. lia. }
  exists c'. split_and!; [done| |done].
  cbn [c0 capacity] in Hr', Hcp. replace (capacity_for cs ps + 1 - 1) with (capacity_for cs ps) in Hr' by lia.
  eexists. split_and!; [exact Hr'| |done|].
  - unfold forget. rewrite fmap_take. fold (forget g). by rewrite Hf.
  - rewrite Hcp. unfold zlen. rewrite length_take. lia.
Qed.

Lemma sim_step o c s : sim c s -> clock c + 1 < 2 ^ 64 ->
  exists c', run_op o c = Ok ((lru_op o s).1, c') /\ sim c' (lru_op o s).2 /\ clock c' <= clock c + 1.
Proof.
  intros Hs Hlt. destruct s as [cap l]. destruct o as [n|n d|n| |cs ps]; cbn [run_op lru_op].
  - destruct (get_sim c _ n Hs Hlt) as (c' & E & Hs' & Hc). exists c'. rewrite E.
    cbn [fst snd] in *. by destruct (lru_get n l).
  - destruct (insert_sim c _ n d Hs Hlt) as (c' & E & Hs' & Hc). exists c'. by rewrite E.
  - destruct Hs as (g & Hr & Hf & Hcap & Hlen). exists (invalidate c n). split_and!; [done| |cbn; lia].
    exists (gremove n g). split_and!; [by apply repr_remove| |done|].
    + rewrite forget_remove. simpl in *. by rewrite Hf.
    + pose proof (zlen_gremove n g). cbn in *. lia.
  - destruct Hs as (g & Hr & Hf & Hcap & Hlen). exists (clear c). split_and!; [done| |cbn; lia].
    exists []. split_and!; try done; [|pose proof (repr_cap c g Hr); cbn [clear with_map capacity]; rewrite zlen_nil; lia].
    destruct Hr. split; try done; constructor.
  - destruct (resize_sim c _ cs ps Hs) as (c' & E & Hs' & Hc). exists c'. rewrite E. split_and!; [done..|lia].
Qed.

Lemma sim_run os c s : sim c s -> clock c + zlen os < 2 ^ 64 ->
  exists c', run_ops os c = Ok ((lru_ops os s).1, c') /\ sim c' (lru_ops os s).2.
Proof.
  revert c s. induction os as [|o os IH]; intros c s Hs Hlt; [by exists c|].
  rewrite zlen_cons in Hlt. pose proof (zlen_nonneg os). cbn [run_ops lru_ops].
  destruct (sim_step o c s Hs ltac:(lia)) as (c1 & -> & Hs1 & Hc1). bind_step.
  destruct (IH c1 _ Hs1 ltac:(lia)) as (c2 & E & Hs2).
  rewrite E. bind_step. exists c2.
  destruct (lru_op o s) as [r s1]. cbn [fst snd] in *. by destruct (lru_ops os s1).
Qed.

Lemma capacity_for_pos cs ps : 1 <= capacity_for cs ps.
Proof. apply Z.le_max_r. Qed.

Lemma sim_new cs ps : sim (new cs ps) (capacity_for cs ps, []).
Proof.
  exists []. split_and!; try done.
  - split; try done; [constructor|constructor|]. apply capacity_for_pos.
  - pose proof (capacity_for_pos cs ps). cbn [new capacity]. rewrite zlen_nil. lia.
Qed.

(** C23: the cache is an LRU cache. Over any sequence of gets, inserts,
    invalidations, clears and resizes shorter than the 64-bit clock, starting
    from an empty cache, no operation panics or loops, every answer is the one
    of the recency-list specification, the resident pages are exactly those of
    the specification, and their number never exceeds the capacity. *)
Theorem pcache_refines_lru (cs ps : Z) (os : list op) :
  zlen os < 2 ^ 64 ->
  exists c, run_ops os (new cs ps) = Ok ((lru_ops os (capacity_for cs ps, [])).1, c) /\
    (let '(cap, l) := (lru_ops os (capacity_for cs ps, [])).2 in
     capacity c = cap /\ len c <= cap /\ len c = zlen l /\
     forall n d, (exists t, map c !! n = Some (mkEntry d t)) <-> (n, d) ∈ l).
Proof.
  intros Hlen. destruct (sim_run os (new cs ps) _ (sim_new cs ps)) as (c & E & g & Hr & Hf & Hcap & Hl);
    [cbn; lia|].
  exists c. split; [done|]. destruct (lru_ops os (capacity_for cs ps, [])).2 as [cap l]. cbn [fst snd] in *.
  rewrite (repr_len c g Hr). subst l cap. split_and!; [done|done|unfold forget, zlen; by rewrite length_fmap|].
  intros n d. unfold forget. rewrite list_elem_of_fmap. split.
  - intros [t Ht]. apply (repr_lookup c g _ _ Hr) in Ht. by exists (n, mkEntry d t).
  - intros ([n' [d' t]] & [= -> ->] & Hin). exists t. by apply (repr_lookup c g _ _ Hr).
Qed.

Lemma pcache_refines_lru_witness :
  let os := [Insert 1 [10]; Insert 2 [20]; Get 1; Insert 3 [30]; Get 2; Get 1] in
  exists c, run_ops os (new 2 4096) = Ok ((lru_ops os (capacity_for 2 4096, [])).1, c) /\
    (let '(cap, l) := (lru_ops os (capacity_for 2 4096, [])).2 in
     capacity c = cap /\ len c <= cap /\ len c = zlen l /\
     forall n d, (exists t, map c !! n = Some (mkEntry d t)) <-> (n, d) ∈ l).
Proof.
  apply (pcache_refines_lru 2 4096 [Insert 1 [10]; Insert 2 [20]; Get 1; Insert 3 [30]; Get 2; Get 1]).
  reflexivity.
Defined.

(** The capacity follows the [cache_size] convention: never below one
    page; a non-negative value is a page count; a negative one is KiB of
    memory, so that the resident pages fit that amount unless it is less than
    one page (for any [i64] whose byte count does not saturate). *)
Theorem capacity_for_spec (cache_size page_size : Z) :
  is_i64 cache_size -> 1 <= page_size ->
  1 <= capacity_for cache_size page_size /\
  (1 <= cache_size -> capacity_for cache_size page_size = cache_size) /\
  (cache_size < 0 -> page_size <= - cache_size * 1024 < 2 ^ 64 ->
     capacity_for cache_size page_size * page_size <= - cache_size * 1024
       < (capacity_for cache_size page_size + 1) * page_size).
Proof.
  unfold is_sint. intros Hc Hp. unfold capacity_for. split; [lia|]. split.
  - intros H1. destruct (Z.leb_spec 0 cache_size); lia.
  - intros Hneg Hb. destruct (Z.leb_spec 0 cache_size); [lia|].
    rewrite wrap_small by (unfold is_uint; lia). unfold saturating_mul.
    rewrite (Z.max_l page_size 1) by lia. rewrite Z.abs_neq, Z.min_r by lia.
    pose proof (Z.div_mod (- cache_size * 1024) page_size ltac:(lia)).
    pose proof (Z.mod_pos_bound (- cache_size * 1024) page_size ltac:(lia)).
    rewrite Z.max_l; [nia|].
    apply Z.div_le_lower_bound; lia.
Qed.

Lemma capacity_for_spec_witness :
  1 <= capacity_for (-2000) 4096 /\
  (1 <= -2000 -> capacity_for (-2000) 4096 = -2000) /\
  (-2000 < 0 -> 4096 <= - (-2000) * 1024 < 2 ^ 64 ->
     capacity_for (-2000) 4096 * 4096 <= - (-2000) * 1024 < (capacity_for (-2000) 4096 + 1) * 4096).
Proof. apply (capacity_for_spec (-2000) 4096); [unfold is_sint; lia|lia]. Defined.

End PCache.
