(* ===== verification/Vfs.v ===== *)
(** The VFS layer ([src/src/vfs/mod.rs], [src/src/vfs/memory.rs]): lock levels
    and the shared lock state of a file, the in-memory file system with its
    reference-counted files, and the interface the pager reads through.

    [Rc<RefCell<..>>] sharing is explicit: a path maps to the identity of a
    cell, a handle keeps that identity, and the cells hold the bytes and the
    lock state. *)

From S2P Require Import Prelude.
Local Open Scope Z_scope.

(** * The file interface *)

(** The reads of the [File] trait, on an open handle of type [F]. *)
Class File (F : Type) : Type := {
  file_size : F -> res Z;
  read_exact_at : F -> Z -> Z -> res bytes   (* buffer length, offset *)
}.

(** What the trait's documentation promises of them: a read returns exactly
    the bytes asked for or an I/O error past the end. *)
Class FileLaws (F : Type) `{File F} : Type := {
  contents : F -> bytes;
  file_size_spec f : file_size f = Ok (zlen (contents f));
  read_exact_at_spec f len off : 0 <= len -> 0 <= off -> off + len <= zlen (contents f) ->
    zlen (contents f) < 2 ^ 64 ->
    read_exact_at f len off = Ok (sub (contents f) off (off + len));
  read_exact_at_eof f len off : 0 <= len -> 0 <= off -> zlen (contents f) < off + len ->
    exists m, read_exact_at f len off = Err (EIo m)
}.

Module Vfs.

Record OpenFlags : Type := mkFlags { flag_write : bool; flag_create : bool }.

Definition READ_ONLY := mkFlags false false.
Definition READ_WRITE := mkFlags true false.
Definition READ_WRITE_CREATE := mkFlags true true.

Inductive LockLevel : Type := Unlocked | Shared | Reserved | Pending | Exclusive.

#[global] Instance LockLevel_eq_dec : EqDecision LockLevel.
Proof. solve_decision. Defined.

(** The derived [Ord]: declaration order. *)
Definition rank (l : LockLevel) : Z :=
  match l with
  | Unlocked => 0 | Shared => 1 | Reserved => 2 | Pending => 3 | Exclusive => 4
  end.

Definition lt_level (a b : LockLevel) : bool := rank a <? rank b.
Definition le_level (a b : LockLevel) : bool := rank a <=? rank b.

Record LockState : Type := mkLock {
  shared : Z;
  reserved : bool;
  pending : bool;
  exclusive : bool
}.

Definition lock_default : LockState := mkLock 0 false false false.

Definition acquire (s : LockState) (from to : LockLevel) : res LockState :=
  if le_level to from then Ok s
  else
    match to with
    | Unlocked => Ok s
    | Shared =>
        if pending s || exclusive s then Err EBusy
        else Ok (mkLock (shared s + 1) (reserved s) (pending s) (exclusive s))
    | Reserved =>
        if reserved s || exclusive s then Err EBusy
        else Ok (mkLock (shared s) true (pending s) (exclusive s))
    | Pending =>
        if pending s || exclusive s then Err EBusy
        else Ok (mkLock (shared s) (reserved s) true (exclusive s))
    | Exclusive =>
        if exclusive s then Err EBusy
        else
          let own_shared := if le_level Shared from then 1 else 0 in
          if own_shared <? shared s then Err EBusy
          else Ok (mkLock (shared s) (reserved s) true true)
    end.

Definition has_write_intent (s : LockState) : bool := reserved s || pending s || exclusive s.

Definition reader_count (s : LockState) : Z := shared s.

Definition release (s : LockState) (from to : LockLevel) : LockState :=
  let s := if le_level Exclusive from && lt_level to Exclusive
           then mkLock (shared s) (reserved s) (pending s) false else s in
  let s := if le_level Pending from && lt_level to Pending
           then mkLock (shared s) (reserved s) false (exclusive s) else s in
  let s := if le_level Reserved from && lt_level to Reserved
           then mkLock (shared s) false (pending s) (exclusive s) else s in
  if le_level Shared from && lt_level to Shared
  then mkLock (sat_sub (shared s) 1) (reserved s) (pending s) (exclusive s) else s.

(** ** The in-memory file system *)

(** The shared cells of a [FileEntry]; the wal-index handle lives beside them
    under the same identity. *)
Record FileEntry : Type := mkEntry { f_bytes : bytes; f_locks : LockState }.

(** A [MemoryFile]: the cells it shares and its own lock level. *)
Record MemoryFile : Type := mkFile { cell : Z; level : LockLevel }.

Record MemoryVfs : Type := mkVfs {
  files : gmap string Z;            (* path -> cell *)
  cells : gmap Z FileEntry;
  handles : gmap Z MemoryFile;      (* the open handles *)
  next_cell : Z;
  next_handle : Z
}.

Definition vfs_new : MemoryVfs := mkVfs ∅ ∅ ∅ 0 0.

Definition with_cells (w : MemoryVfs) (c : gmap Z FileEntry) : MemoryVfs :=
  mkVfs (files w) c (handles w) (next_cell w) (next_handle w).

Definition add_handle (w : MemoryVfs) (c : Z) : Z * MemoryVfs :=
  (next_handle w,
   mkVfs (files w) (cells w) (<[next_handle w := mkFile c Unlocked]> (handles w))
     (next_cell w) (next_handle w + 1)).

(** A new, empty [FileEntry] under [path]. *)
Definition new_entry (w : MemoryVfs) (path : string) : MemoryVfs :=
  let c := next_cell w in
  mkVfs (<[path := c]> (files w)) (<[c := mkEntry [] lock_default]> (cells w))
    (handles w) (c + 1) (next_handle w).

Definition open (w : MemoryVfs) (path : string) (flags : OpenFlags) : res (Z * MemoryVfs) :=
  match files w !! path with
  | Some c => Ok (add_handle w c)
  | None =>
      if negb (flag_create flags) then Err (ECantOpen path)
      else Ok (add_handle (new_entry w path) (next_cell w))
  end.

Definition delete_path (w : MemoryVfs) (path : string) : MemoryVfs :=
  mkVfs (delete path (files w)) (cells w) (handles w) (next_cell w) (next_handle w).

Definition exists_path (w : MemoryVfs) (path : string) : bool :=
  match files w !! path with Some _ => true | None => false end.

(** The cells behind a handle; a dangling identity would be a panic. *)
Definition deref (w : MemoryVfs) (h : Z) : res (MemoryFile * FileEntry) :=
  match handles w !! h with
  | None => Panic
  | Some f => match cells w !! cell f with None => Panic | Some e => Ok (f, e) end
  end.

(** [start.checked_add(len)] on a 64-bit [usize]. *)
Definition checked_end (start len : Z) (msg : string) : res Z :=
  if start + len <? 2 ^ 64 then Ok (start + len) else Err (EIo msg).

Definition mem_read (data : bytes) (len offset : Z) : res bytes :=
  let* e := checked_end offset len "read offset overflow" in
  if zlen data <? e then Err (EIo "read past end of file")
  else slice data offset e.

(** [Vec::resize(n, 0)]. *)
Definition resize0 (data : bytes) (n : Z) : bytes :=
  if zlen data <? n then data ++ zrep (n - zlen data) 0 else take (Z.to_nat n) data.

Definition mem_write (data buf : bytes) (offset : Z) : res bytes :=
  let* e := checked_end offset (zlen buf) "write offset overflow" in
  let data := if zlen data <? e then resize0 data e else data in
  copy_at data offset buf.

Definition update_bytes (w : MemoryVfs) (f : MemoryFile) (e : FileEntry) (d : bytes) : MemoryVfs :=
  with_cells w (<[cell f := mkEntry d (f_locks e)]> (cells w)).

Definition file_read (w : MemoryVfs) (h len offset : Z) : res bytes :=
  let* (_, e) := deref w h in mem_read (f_bytes e) len offset.

Definition file_write (w : MemoryVfs) (h : Z) (buf : bytes) (offset : Z) : res MemoryVfs :=
  let* (f, e) := deref w h in
  let* d := mem_write (f_bytes e) buf offset in
  Ok (update_bytes w f e d).

Definition file_truncate (w : MemoryVfs) (h size : Z) : res MemoryVfs :=
  let* (f, e) := deref w h in
  Ok (update_bytes w f e (resize0 (f_bytes e) size)).

Definition file_len (w : MemoryVfs) (h : Z) : res Z :=
  let* (_, e) := deref w h in Ok (zlen (f_bytes e)).

Definition set_level (w : MemoryVfs) (h : Z) (f : MemoryFile) (e : FileEntry) (s : LockState) (l : LockLevel) : MemoryVfs :=
  mkVfs (files w) (<[cell f := mkEntry (f_bytes e) s]> (cells w))
    (<[h := mkFile (cell f) l]> (handles w)) (next_cell w) (next_handle w).

Definition file_lock (w : MemoryVfs) (h : Z) (l : LockLevel) : res MemoryVfs :=
  let* (f, e) := deref w h in
  let* s := acquire (f_locks e) (level f) l in
  Ok (set_level w h f e s (if lt_level (level f) l then l else level f)).

Definition file_unlock (w : MemoryVfs) (h : Z) (l : LockLevel) : res MemoryVfs :=
  let* (f, e) := deref w h in
  Ok (set_level w h f e (release (f_locks e) (level f) l) (if lt_level l (level f) then l else level f)).

Definition check_reserved_lock (w : MemoryVfs) (h : Z) : res bool :=
  let* (_, e) := deref w h in Ok (has_write_intent (f_locks e)).

(** [Drop for MemoryFile]: the handle's locks are released with it. *)
Definition file_drop (w : MemoryVfs) (h : Z) : res MemoryVfs :=
  let* (f, e) := deref w h in
  Ok (mkVfs (files w)
        (<[cell f := mkEntry (f_bytes e) (release (f_locks e) (level f) Unlocked)]> (cells w))
        (delete h (handles w)) (next_cell w) (next_handle w)).

(** ** The locking protocol of one file *)

(** How the pager drives the locks: a handle leaves [Unlocked] through
    [Shared], takes [Pending] only above [Reserved], and releases to [Shared]
    or [Unlocked]. *)
Definition protocol (from to : LockLevel) : Prop :=
  le_level to from = true \/
  ((from = Unlocked -> to = Shared) /\ (to = Pending -> from = Reserved)).

Definition max_level (a b : LockLevel) : LockLevel := if lt_level a b then b else a.
Definition min_level (a b : LockLevel) : LockLevel := if lt_level b a then b else a.

(** Handles at a level in [P]. *)
Definition holders (P : LockLevel -> Prop) `{!forall l, Decision (P l)} (m : gmap Z LockLevel) : Z :=
  Z.of_nat (size (filter (fun x : Z * LockLevel => P x.2) m)).

(** Handles at or above [Shared], and at [Exclusive]. *)
Definition readers : gmap Z LockLevel -> Z := holders (fun l => l <> Unlocked).
Definition exclusives : gmap Z LockLevel -> Z := holders (fun l => l = Exclusive).

(** The flags a writer at level [l] has set. *)
Definition writer_flags (s : LockState) (l : LockLevel) : Prop :=
  match l with
  | Reserved => reserved s = true /\ pending s = false /\ exclusive s = false
  | Pending => reserved s = true /\ pending s = true /\ exclusive s = false
  | Exclusive => pending s = true /\ exclusive s = true
  | Unlocked | Shared => False
  end.

(** Every handle of [m] is at or below [l]. *)
Definition all_below (l : LockLevel) (m : gmap Z LockLevel) : Prop :=
  forall h l', m !! h = Some l' -> le_level l' l = true.

(** The lock state agrees with the levels the handles hold: either nobody
    writes, or one handle does, the others only read, and an exclusive writer
    is alone. *)
Definition lock_inv (s : LockState) (m : gmap Z LockLevel) : Prop :=
  shared s = readers m /\
  ((reserved s = false /\ pending s = false /\ exclusive s = false /\ all_below Shared m) \/
   (exists h l, m !! h = Some l /\ writer_flags s l /\
      all_below (if decide (l = Exclusive) then Unlocked else Shared) (delete h m))).

(** What holds whatever locks are requested: the counter never exceeds the
    handles that hold a lock, and the exclusive flag is set exactly when one
    handle is [Exclusive]. *)
Definition lock_bounds (s : LockState) (m : gmap Z LockLevel) : Prop :=
  0 <= shared s <= readers m /\ exclusives m = if exclusive s then 1 else 0.

Section Holders.
Context (P : LockLevel -> Prop) `{!forall l, Decision (P l)}.

Lemma holders_insert m h l : m !! h = None ->
  holders P (<[h := l]> m) = holders P m + (if decide (P l) then 1 else 0).
Proof.
  intros Hh. unfold holders. destruct (decide (P l)) as [Hl|Hl].
  - rewrite map_filter_insert_True by done. rewrite map_size_insert_None; [lia|].
    apply map_lookup_filter_None. by left.
  - rewrite map_filter_insert_False by done. rewrite delete_id by done. lia.
Qed.

Lemma holders_nonneg m : 0 <= holders P m.
Proof. unfold holders. lia. Qed.

Lemma holders_none m : (forall h l, m !! h = Some l -> ~ P l) <-> holders P m = 0.
Proof.
  unfold holders. split.
  - intros Hu. assert (filter (fun x : Z * LockLevel => P x.2) m = ∅) as ->; [|done].
    apply map_empty. intros k. apply map_lookup_filter_None. right. intros l Hl. by apply (Hu k).
  - intros Hr h l Hh Hl.
    assert (size (filter (fun x : Z * LockLevel => P x.2) m) = 0%nat) as E by lia.
    apply map_size_empty_inv in E.
    assert (filter (fun x : Z * LockLevel => P x.2) m !! h = Some l) as E'
      by (by apply map_lookup_filter_Some).
    by rewrite E, lookup_empty in E'.
Qed.

(** Two handles in [P] count as two. *)
Lemma holders_two m h l h' l' : m !! h = Some l -> P l -> m !! h' = Some l' -> P l' -> h <> h' ->
  2 <= holders P m.
Proof.
  intros Hh Hl Hh' Hl' Hne. rewrite <- (insert_delete_id m h l) by done.
  rewrite holders_insert by apply lookup_delete_eq.
  rewrite <- (insert_delete_id (delete h m) h' l') by (by rewrite lookup_delete_ne).
  rewrite holders_insert by apply lookup_delete_eq.
  pose proof (holders_nonneg (delete h' (delete h m))). rewrite !decide_True by done. lia.
Qed.

End Holders.

Lemma readers_insert m h l : m !! h = None ->
  readers (<[h := l]> m) = readers m + (if decide (l = Unlocked) then 0 else 1).
Proof.
  intros Hh. unfold readers. rewrite holders_insert by done.
  by destruct (decide (l = Unlocked)) as [->|Hl], (decide _).
Qed.

Lemma exclusives_insert m h l : m !! h = None ->
  exclusives (<[h := l]> m) = exclusives m + (if decide (l = Exclusive) then 1 else 0).
Proof. intros Hh. unfold exclusives. by rewrite holders_insert. Qed.

Lemma readers_nonneg m : 0 <= readers m.
Proof. apply holders_nonneg. Qed.

Lemma readers_none m : (forall h l, m !! h = Some l -> l = Unlocked) -> readers m = 0.
Proof. intros Hu. apply holders_none. intros h l Hl Hn. by apply Hn, (Hu h). Qed.

Lemma readers_zero m h l : readers m = 0 -> m !! h = Some l -> l = Unlocked.
Proof. intros Hr Hh. apply dec_stable. by apply (proj2 (holders_none _ m) Hr h). Qed.

Lemma all_below_zero m : readers m = 0 -> all_below Unlocked m.
Proof. intros Hr h l Hl. by rewrite (readers_zero m h l Hr Hl). Qed.

Lemma all_below_readers m h l : m !! h = Some l -> l <> Unlocked -> 1 <= readers m.
Proof.
  intros Hh Hl. pose proof (readers_nonneg m). destruct (decide (readers m = 0)) as [E|]; [|lia].
  by apply (readers_zero m h l) in E.
Qed.

Lemma all_below_insert l m h l' : m !! h = None ->
  all_below l (<[h := l']> m) <-> le_level l' l = true /\ all_below l m.
Proof.
  intros Hh. unfold all_below. split.
  - intros H. split; [apply (H h); by rewrite lookup_insert_eq|].
    intros k v Hk. apply (H k). rewrite lookup_insert_ne by congruence. done.
  - intros [H1 H2] k v. rewrite lookup_insert_Some. naive_solver.
Qed.

(** The invariant seen from a handle [h] at level [l], with [m] the others. *)
Lemma lock_inv_handle s m h l : m !! h = None ->
  lock_inv s (<[h := l]> m) <->
  shared s = readers m + (if decide (l = Unlocked) then 0 else 1) /\
  ((reserved s = false /\ pending s = false /\ exclusive s = false /\ le_level l Shared = true /\ all_below Shared m) \/
   (writer_flags s l /\ all_below (if decide (l = Exclusive) then Unlocked else Shared) m) \/
   (exists k lk, m !! k = Some lk /\ writer_flags s lk /\
      le_level l (if decide (lk = Exclusive) then Unlocked else Shared) = true /\
      all_below (if decide (lk = Exclusive) then Unlocked else Shared) (delete k m))).
Proof.
  intros Hh. unfold lock_inv. rewrite readers_insert by done. rewrite all_below_insert by done.
  split; intros [H1 H2]; (split; [done|]).
  - destruct H2 as [H2|(k & lk & Hk & Hf & Ha)]; [left; tauto|right].
    destruct (decide (k = h)) as [->|Hne].
    + rewrite lookup_insert_eq in Hk. injection Hk as ->. left. split; [done|].
      by rewrite delete_insert_id in Ha.
    + rewrite lookup_insert_ne in Hk by done. right. exists k, lk.
      rewrite delete_insert_ne, all_below_insert in Ha by (done || by rewrite lookup_delete_ne). tauto.
  - destruct H2 as [H2|[[Hf Ha]|(k & lk & Hk & Hf & Hl & Ha)]]; [left; tauto|right..].
    + exists h, l. rewrite lookup_insert_eq, delete_insert_id by done. done.
    + exists k, lk. assert (k <> h) by congruence. rewrite lookup_insert_ne by done.
      rewrite delete_insert_ne, all_below_insert by (done || by rewrite lookup_delete_ne). done.
Qed.

Lemma all_below_mono l l' m : le_level l l' = true -> all_below l m -> all_below l' m.
Proof.
  unfold all_below, le_level. intros Hl H h k Hk. specialize (H h k Hk).
  apply Z.leb_le in Hl, H. apply Z.leb_le. lia.
Qed.

Lemma acquire_inv s m h from to s' : m !! h = None ->
  lock_inv s (<[h := from]> m) -> protocol from to -> acquire s from to = Ok s' ->
  lock_inv s' (<[h := max_level from to]> m).
Proof.
  intros Hh Hi Hp Ha. unfold acquire, max_level, lt_level, protocol in *.
  assert (le_level to from = negb (rank from <? rank to)) as El
    by (unfold le_level; destruct (Z.leb_spec (rank to) (rank from)), (Z.ltb_spec (rank from) (rank to)); lia || done).
  destruct (rank from <? rank to) eqn:Elt; rewrite El in *; cbn [negb] in *;
    [|by injection Ha as <-].
  destruct Hp as [?|[Hp1 Hp2]]; [done|].
  apply (lock_inv_handle _ _ _ _ Hh) in Hi as [Hsh Hc]. apply lock_inv_handle; [done|].
  destruct s as [sh r p e]; simpl in *.
  destruct Hc as [(-> & -> & -> & Hl & Hall)|[[Hf Hall]|(k & lk & Hk & Hf & Hl & Hall)]];
   destruct from, to; try done; try (cbn in Hf; done); try (cbn in Hl; done); cbn in Ha; try done.

  all: try (specialize (Hp1 eq_refl); done); try (specialize (Hp2 eq_refl); done).
  all: repeat match type of Ha with context [if ?b then _ else _] => destruct b eqn:?; try done end;
       injection Ha as <-.
  all: repeat match goal with H : (_ <? _) = false |- _ => apply Z.ltb_ge in H end.
  all: simpl in *.
  all: try (assert (1 <= readers m) by (apply (all_below_readers m k lk Hk); by intros ->)).
  all: (split; [lia|]).
  all: try (assert (readers m = 0) as Hz%all_below_zero by (pose proof (readers_nonneg m); lia)).
  all: try (left; by split_and!).
  all: try (right; left; split; [naive_solver|done]).
  all: try lia.
  all: destruct lk; simpl in Hf, Hl; try done; destruct r, p, e; try (by destruct Hf as (? & ? & ?)); try (by destruct Hf).
  right. right. by exists k, Reserved.
Qed.

Lemma release_inv s m h from to : m !! h = None -> le_level to Shared = true ->
  lock_inv s (<[h := from]> m) -> lock_inv (release s from to) (<[h := min_level from to]> m).
Proof.
  intros Hh Ht Hi. pose proof (readers_nonneg m).
  apply (lock_inv_handle _ _ _ _ Hh) in Hi as [Hsh Hc]. apply lock_inv_handle; [done|].
  destruct s as [sh r p e]; simpl in *. unfold release, min_level, sat_sub.
  destruct Hc as [(-> & -> & -> & Hl & Hall)|[[Hf Hall]|(k & lk & Hk & Hf & Hl & Hall)]];
   destruct from, to; try done; try (cbn in Hf; done); try (destruct lk; done); simpl in *.
  all: (split; [lia|]).
  all: try (left; by split_and!).
  all: try (left; destruct Hf as (? & ? & ?) || destruct Hf as [? ?]; split_and!; try done;
            by apply (all_below_mono Unlocked)).
  all: right; right; exists k, lk; split_and!; try done; by destruct lk.
Qed.


Lemma open_inv s m h : m !! h = None -> lock_inv s m -> lock_inv s (<[h := Unlocked]> m).
Proof.
  intros Hh [Hsh Hc]. apply lock_inv_handle; [done|]. split; [simpl; lia|].
  destruct Hc as [(? & ? & ? & ?)|(k & l & Hk & Hf & Ha)]; [by left|].
  right; right. exists k, l. split_and!; try done. by destruct l.
Qed.

Lemma drop_inv s m h from : m !! h = None -> lock_inv s (<[h := from]> m) ->
  lock_inv (release s from Unlocked) m.
Proof.
  intros Hh Hi. apply (release_inv _ _ _ _ Unlocked Hh) in Hi; [|done].
  replace (min_level from Unlocked) with Unlocked in Hi by (by destruct from).
  apply (lock_inv_handle _ _ _ _ Hh) in Hi as [Hsh Hc]. split; [simpl in Hsh; lia|].
  destruct Hc as [(? & ? & ? & ? & ?)|[[[] _]|(k & l & Hk & Hf & _ & Ha)]]; [by left|].
  right. by exists k, l.
Qed.

Lemma lock_inv_default : lock_inv lock_default ∅.
Proof.
  split; [done|]. by left.
Qed.

(** The bounds, seen from one handle, are arithmetic on the two counts. *)
Lemma lock_bounds_handle s m h l : m !! h = None ->
  lock_bounds s (<[h := l]> m) <->
  0 <= shared s <= readers m + (if decide (l = Unlocked) then 0 else 1) /\
  exclusives m + (if decide (l = Exclusive) then 1 else 0) = if exclusive s then 1 else 0.
Proof.
  intros Hh. unfold lock_bounds. by rewrite readers_insert, exclusives_insert.
Qed.

Lemma acquire_bounds s m h from to s' : m !! h = None ->
  lock_bounds s (<[h := from]> m) -> acquire s from to = Ok s' ->
  lock_bounds s' (<[h := max_level from to]> m).
Proof.
  intros Hh Hb Ha. pose proof (readers_nonneg m).
  apply (lock_bounds_handle _ _ _ _ Hh) in Hb. apply lock_bounds_handle; [done|].
  destruct s as [sh r p e]. unfold acquire in Ha.
  destruct from, to; cbn in Ha, Hb |- *;
    repeat match type of Ha with context [if ?b then _ else _] => destruct b eqn:?; try done end;
    injection Ha as <-; cbn in *; destruct e; try done; repeat case_decide; try done; lia.
Qed.

Lemma release_bounds s m h from to : m !! h = None ->
  lock_bounds s (<[h := from]> m) -> lock_bounds (release s from to) (<[h := min_level from to]> m).
Proof.
  intros Hh Hb. pose proof (readers_nonneg m). pose proof (holders_nonneg (fun l => l = Exclusive) m : 0 <= exclusives m).
  apply (lock_bounds_handle _ _ _ _ Hh) in Hb. apply lock_bounds_handle; [done|].
  destruct s as [sh r p e]. unfold release, min_level, sat_sub in *.
  destruct from, to; cbn in Hb |- *; destruct e; cbn in *; repeat case_decide; try done; lia.
Qed.

Lemma drop_bounds s m h from : m !! h = None -> lock_bounds s (<[h := from]> m) ->
  lock_bounds (release s from Unlocked) m.
Proof.
  intros Hh Hb. apply (release_bounds _ _ _ _ Unlocked Hh) in Hb.
  replace (min_level from Unlocked) with Unlocked in Hb by (by destruct from).
  apply (lock_bounds_handle _ _ _ _ Hh) in Hb as [? ?]. split; simpl in *; lia.
Qed.

(** ** Reachable states of the file system *)

(** The levels the handles of cell [c] hold. *)
Definition levels (hs : gmap Z MemoryFile) (c : Z) : gmap Z LockLevel :=
  omap (fun f => if decide (cell f = c) then Some (level f) else None) hs.

(** A call on the file system or on an open handle, with the lock level the
    handle has and the one it asks for. *)
Inductive call : Type :=
  | COpen | CDelete | CWrite | CTruncate | CDrop
  | CLock (from to : LockLevel)
  | CUnlock (from to : LockLevel).

(** One call that succeeds. The file system accepts every request whose answer
    is not [Busy], at any level and from any level. *)
Inductive step : call -> MemoryVfs -> MemoryVfs -> Prop :=
  | step_open w path flags h w' : open w path flags = Ok (h, w') -> step COpen w w'
  | step_delete w path : step CDelete w (delete_path w path)
  | step_write w h buf off w' : file_write w h buf off = Ok w' -> step CWrite w w'
  | step_truncate w h n w' : file_truncate w h n = Ok w' -> step CTruncate w w'
  | step_lock w h f l w' : handles w !! h = Some f ->
      file_lock w h l = Ok w' -> step (CLock (level f) l) w w'
  | step_unlock w h f l w' : handles w !! h = Some f ->
      file_unlock w h l = Ok w' -> step (CUnlock (level f) l) w w'
  | step_drop w h w' : file_drop w h = Ok w' -> step CDrop w w'.

(** The states reached from an empty file system by calls in [ok]. *)
Definition reached (ok : call -> Prop) : MemoryVfs -> Prop :=
  rtc (fun w w' => exists c, ok c /\ step c w w') vfs_new.

Definition any (c : call) : Prop := True.

(** The calls of connections that keep the pager's protocol. *)
Definition polite (c : call) : Prop :=
  match c with
  | CLock from to => protocol from to
  | CUnlock _ to => le_level to Shared = true
  | _ => True
  end.

(** A relation between the lock state of a file and the levels its handles
    hold that the calls in [ok] keep. *)
Class Discipline (ok : call -> Prop) (I : LockState -> gmap Z LockLevel -> Prop) : Prop := {
  disc_default : I lock_default ∅;
  disc_open s m h : m !! h = None -> I s m -> I s (<[h := Unlocked]> m);
  disc_drop s m h from : m !! h = None -> I s (<[h := from]> m) -> I (release s from Unlocked) m;
  disc_acquire s m h from to s' : ok (CLock from to) -> m !! h = None ->
    I s (<[h := from]> m) -> acquire s from to = Ok s' -> I s' (<[h := max_level from to]> m);
  disc_release s m h from to : ok (CUnlock from to) -> m !! h = None ->
    I s (<[h := from]> m) -> I (release s from to) (<[h := min_level from to]> m) }.

#[export] Instance polite_discipline : Discipline polite lock_inv.
Proof.
  split; [apply lock_inv_default|apply open_inv|apply drop_inv| |].
  - intros * Hp Hh Hi Ha. by apply (acquire_inv s).
  - intros * Hp Hh Hi. by apply release_inv.
Qed.

#[export] Instance any_discipline : Discipline any lock_bounds.
Proof.
  split; [done| |apply drop_bounds| |].
  - intros s m h Hh [? ?]. apply lock_bounds_handle; [done|]. repeat case_decide; try done; lia.
  - intros * _. apply acquire_bounds.
  - intros * _. apply release_bounds.
Qed.

Lemma levels_lookup hs c h : levels hs c !! h =
  match hs !! h with Some f => if decide (cell f = c) then Some (level f) else None | None => None end.
Proof. unfold levels. rewrite lookup_omap. by destruct (hs !! h). Qed.

Lemma levels_insert hs h c0 l c : (forall f, hs !! h = Some f -> cell f = c0) ->
  levels (<[h := mkFile c0 l]> hs) c =
    if decide (c = c0) then <[h := l]> (delete h (levels hs c)) else levels hs c.
Proof.
  intros Hf. apply map_eq. intros k. rewrite levels_lookup. destruct (decide (k = h)) as [->|Hne].
  - rewrite lookup_insert_eq. simpl. destruct (decide (c0 = c)), (decide (c = c0)); try congruence.
    + by rewrite lookup_insert_eq.
    + rewrite levels_lookup. destruct (hs !! h) as [f|] eqn:E; [|done].
      specialize (Hf f eq_refl). destruct (decide (cell f = c)); [congruence|done].
  - rewrite lookup_insert_ne by done. destruct (decide (c = c0)).
    + by rewrite lookup_insert_ne, lookup_delete_ne, levels_lookup by done.
    + by rewrite levels_lookup.
Qed.

Lemma levels_delete hs h c : levels (delete h hs) c = delete h (levels hs c).
Proof. unfold levels. by rewrite omap_delete. Qed.

Lemma levels_split hs h f : hs !! h = Some f ->
  levels hs (cell f) = <[h := level f]> (delete h (levels hs (cell f))).
Proof.
  intros H. rewrite insert_delete_id; [done|]. rewrite levels_lookup, H. by rewrite decide_True.
Qed.

Lemma deref_Ok w h f e : deref w h = Ok (f, e) <-> handles w !! h = Some f /\ cells w !! cell f = Some e.
Proof.
  unfold deref. destruct (handles w !! h) as [f'|] eqn:E1; [|naive_solver].
  destruct (cells w !! cell f') as [e'|] eqn:E2; naive_solver.
Qed.

Lemma cells_insert_Some (cs : gmap Z FileEntry) c e c' :
  is_Some (cs !! c) -> is_Some (<[c := e]> cs !! c') <-> is_Some (cs !! c').
Proof.
  intros Hc. destruct (decide (c' = c)) as [->|Hne].
  - rewrite lookup_insert_eq. naive_solver.
  - by rewrite lookup_insert_ne.
Qed.

Section Reachable.
Context (ok : call -> Prop) (I : LockState -> gmap Z LockLevel -> Prop) `{!Discipline ok I}.

Record vfs_inv (w : MemoryVfs) : Prop := {
  vi_handles : forall h f, handles w !! h = Some f -> is_Some (cells w !! cell f);
  vi_files : forall p c, files w !! p = Some c -> is_Some (cells w !! c);
  vi_locks : forall c e, cells w !! c = Some e -> I (f_locks e) (levels (handles w) c);
  vi_cells : forall c, is_Some (cells w !! c) -> c < next_cell w;
  vi_next : forall h, is_Some (handles w !! h) -> h < next_handle w }.

(** Changing the shared cells of an open handle and the handle's own level. *)
Lemma inv_set_level w h f e b s l : vfs_inv w -> handles w !! h = Some f -> cells w !! cell f = Some e ->
  I s (<[h := l]> (delete h (levels (handles w) (cell f)))) ->
  vfs_inv (mkVfs (files w) (<[cell f := mkEntry b s]> (cells w))
             (<[h := mkFile (cell f) l]> (handles w)) (next_cell w) (next_handle w)).
Proof using Discipline0.
  intros [H1 H2 H3 H4 H5] Hh Hc Hs. assert (is_Some (cells w !! cell f)) as Hcs by (by exists e).
  split; cbn [files cells handles next_cell next_handle].
  - intros k g Hk. apply cells_insert_Some; [done|]. destruct (decide (k = h)) as [->|Hne].
    + rewrite lookup_insert_eq in Hk. by injection Hk as <-.
    + rewrite lookup_insert_ne in Hk by done. by apply (H1 k).
  - intros q c Hq. apply cells_insert_Some; [done|]. by apply (H2 q).
  - intros c e' Hc'. rewrite levels_insert by (intros g Hg; by simplify_eq).
    apply lookup_insert_Some in Hc' as [[<- <-]|[Hne Hc']].
    + by rewrite decide_True.
    + rewrite decide_False by done. by apply H3.
  - intros c Hc'. apply H4. by apply cells_insert_Some in Hc'.
  - intros k Hk. apply H5. destruct (decide (k = h)) as [->|Hne]; [by exists f|].
    by rewrite lookup_insert_ne in Hk.
Qed.

Lemma inv_update_bytes w h f e d : vfs_inv w -> handles w !! h = Some f -> cells w !! cell f = Some e ->
  vfs_inv (update_bytes w f e d).
Proof using Discipline0.
  intros Hw Hh Hc. pose proof (inv_set_level w h f e d (f_locks e) (level f) Hw Hh Hc) as H.
  assert (mkFile (cell f) (level f) = f) as Ef by (by destruct f).
  rewrite Ef, (insert_id (handles w)) in H by done. apply H.
  rewrite <- levels_split by done. by apply Hw.
Qed.

Lemma inv_drop w h f e : vfs_inv w -> handles w !! h = Some f -> cells w !! cell f = Some e ->
  vfs_inv (mkVfs (files w)
        (<[cell f := mkEntry (f_bytes e) (release (f_locks e) (level f) Unlocked)]> (cells w))
        (delete h (handles w)) (next_cell w) (next_handle w)).
Proof using Discipline0.
  intros [H1 H2 H3 H4 H5] Hh Hc. assert (is_Some (cells w !! cell f)) as Hcs by (by exists e).
  split; cbn [files cells handles next_cell next_handle].
  - intros k g [_ Hk]%lookup_delete_Some. apply cells_insert_Some; [done|]. by apply (H1 k).
  - intros q c Hq. apply cells_insert_Some; [done|]. by apply (H2 q).
  - intros c e' Hc'. rewrite levels_delete.
    apply lookup_insert_Some in Hc' as [[<- <-]|[Hne Hc']].
    + apply (disc_drop _ _ h); [apply lookup_delete_eq|].
      rewrite <- levels_split by done. by apply H3.
    + rewrite delete_id; [by apply H3|]. rewrite levels_lookup, Hh. by rewrite decide_False by done.
  - intros c Hc'. apply H4. by apply cells_insert_Some in Hc'.
  - intros k [g [_ Hk]%lookup_delete_Some]. apply H5. by exists g.
Qed.

Lemma inv_add_handle w c : vfs_inv w -> is_Some (cells w !! c) -> vfs_inv (add_handle w c).2.
Proof using Discipline0.
  intros [H1 H2 H3 H4 H5] Hc. assert (handles w !! next_handle w = None) as Hn.
  { apply eq_None_not_Some. intros H%H5. lia. }
  unfold add_handle; cbn [snd]. split; cbn [files cells handles next_cell next_handle]; try done.
  - intros k g Hk. apply lookup_insert_Some in Hk as [[<- <-]|[_ Hk]]; [done|by apply (H1 k)].
  - intros c' e Hc'. rewrite levels_insert by (by rewrite Hn).
    destruct (decide (c' = c)) as [->|]; [|by apply H3].
    rewrite delete_id by (rewrite levels_lookup; by rewrite Hn).
    apply disc_open; [|by apply H3]. rewrite levels_lookup. by rewrite Hn.
  - intros k [g Hk]. apply lookup_insert_Some in Hk as [[<- <-]|[_ Hk]]; [lia|].
    assert (k < next_handle w) by (apply H5; by exists g). lia.
Qed.

Lemma inv_new_cell w path : vfs_inv w -> vfs_inv (new_entry w path).
Proof using Discipline0.
  intros [H1 H2 H3 H4 H5]. unfold new_entry. split; cbn [files cells handles next_cell next_handle]; try done.
  - intros k g Hk. apply lookup_insert_is_Some'. right. by apply (H1 k).
  - intros q c Hq. apply lookup_insert_is_Some'.
    apply lookup_insert_Some in Hq as [[<- <-]|[_ Hq]]; [by left|right; by apply (H2 q)].
  - intros c e Hc. apply lookup_insert_Some in Hc as [[<- <-]|[Hne Hc]]; [|by apply H3].
    assert (levels (handles w) (next_cell w) = ∅) as ->; [|apply disc_default].
    apply map_empty. intros k. rewrite levels_lookup. destruct (handles w !! k) as [g|] eqn:Hk; [|done].
    rewrite decide_False; [done|]. intros E. pose proof (H4 _ (H1 k g Hk)). lia.
  - intros c Hc. apply lookup_insert_is_Some' in Hc as [<-|Hc]; [lia|]. pose proof (H4 c Hc). lia.
Qed.

Lemma step_inv c w w' : ok c -> step c w w' -> vfs_inv w -> vfs_inv w'.
Proof using Discipline0.
  intros Hp Hs Hw. destruct Hs as [w path flags h w' E|w path|w h buf off w' E|w h n w' E|w h f l w' Hh E|w h f l w' Hh E|w h w' E].
  - unfold open in E. destruct (files w !! path) as [c|] eqn:Ep.
    + apply Ok_inj, (f_equal snd) in E. rewrite <- (E : _ = w').
      apply (inv_add_handle w c); [done|]. by apply (vi_files w Hw path).
    + destruct (flag_create flags); [|done]. simpl negb in E.
      apply Ok_inj, (f_equal snd) in E. rewrite <- (E : _ = w').
      apply inv_add_handle; [by apply inv_new_cell|].
      apply lookup_insert_is_Some'. by left.
  - destruct Hw as [H1 H2 H3 H4 H5]. split; try done. intros q c. cbn.
    intros [_ Hq]%lookup_delete_Some. by apply (H2 q).
  - unfold file_write in E. apply res_bind_Ok in E as ((f & e) & [Hh Hc]%deref_Ok & E). res_inv. subst w'.
    by apply (inv_update_bytes w h).
  - unfold file_truncate in E. apply res_bind_Ok in E as ((f & e) & [Hh Hc]%deref_Ok & E). res_inv. subst w'.
    by apply (inv_update_bytes w h).
  - unfold file_lock in E. apply res_bind_Ok in E as ((f' & e) & [Hh' Hc]%deref_Ok & E).
    assert (f' = f) as -> by congruence. apply res_bind_Ok in E as (s & Hs & E). injection E as <-.
    apply (inv_set_level w h f e); try done. fold (max_level (level f) l).
    apply (disc_acquire (f_locks e)); [done|apply lookup_delete_eq| |done].
    rewrite <- levels_split by done. by apply Hw.
  - unfold file_unlock in E. apply res_bind_Ok in E as ((f' & e) & [Hh' Hc]%deref_Ok & E).
    assert (f' = f) as -> by congruence. injection E as <-.
    apply (inv_set_level w h f e); try done. fold (min_level (level f) l).
    apply disc_release; [done|apply lookup_delete_eq|].
    rewrite <- levels_split by done. by apply Hw.
  - unfold file_drop in E. apply res_bind_Ok in E as ((f & e) & [Hh Hc]%deref_Ok & E). injection E as <-.
    by apply inv_drop.
Qed.

Lemma vfs_new_inv : vfs_inv vfs_new.
Proof using Discipline0.
  split; cbn; intros *; rewrite lookup_empty; try done; by intros [].
Qed.

Lemma reached_inv w : reached ok w -> vfs_inv w.
Proof using Discipline0.
  intros H. pose proof vfs_new_inv as H0. unfold reached in H. induction H as [|w0 w1 w2 (c & Hc & Hs) _ IH]; [done|].
  by apply IH, (step_inv c w0).
Qed.

End Reachable.

Lemma reached_mono (ok ok' : call -> Prop) w : (forall c, ok c -> ok' c) -> reached ok w -> reached ok' w.
Proof. intros Hi. apply rtc_subrel. intros w0 w1 (c & Hc & Hs). exists c. auto. Qed.

(** An exclusive lock state refuses every request that raises a level. *)
Lemma acquire_exclusive_busy s from to : exclusive s = true -> lt_level from to = true ->
  acquire s from to = Err EBusy.
Proof.
  destruct s as [sh r p e]. cbn. intros -> Hl. by destruct from, to, r, p.
Qed.

(** ** Bytes *)

Lemma zlen_resize0 d n : 0 <= n -> zlen (resize0 d n) = n.
Proof.
  intros Hn. unfold resize0. pose proof (zlen_nonneg d). destruct (Z.ltb_spec (zlen d) n).
  - rewrite zlen_app, zlen_zrep; lia.
  - unfold zlen in *. rewrite length_take. lia.
Qed.

Lemma lookup_resize0 d n i : 0 <= i < n ->
  resize0 d n !! Z.to_nat i = if i <? zlen d then d !! Z.to_nat i else Some 0.
Proof.
  intros Hi. unfold resize0, zlen, zrep. destruct (Z.ltb_spec (Z.of_nat (length d)) n).
  - destruct (Z.ltb_spec i (Z.of_nat (length d))); [by rewrite lookup_app_l by lia|].
    rewrite lookup_app_r by lia. apply lookup_replicate_2. lia.
  - destruct (Z.ltb_spec i (Z.of_nat (length d))); [|lia]. by rewrite lookup_take_lt by lia.
Qed.

Lemma lookup_copy_at {A} (l : list A) a d l' i : copy_at l a d = Ok l' -> 0 <= i ->
  l' !! Z.to_nat i = if (a <=? i) && (i <? a + zlen d) then d !! Z.to_nat (i - a) else l !! Z.to_nat i.
Proof.
  unfold copy_at, zlen. destruct (Z.leb_spec 0 a), (Z.leb_spec (a + Z.of_nat (length d)) (Z.of_nat (length l)));
    simpl; intros E Hi; simplify_eq.
  destruct (Z.leb_spec a i), (Z.ltb_spec i (a + Z.of_nat (length d))); simpl.
  - rewrite lookup_app_r by (rewrite length_take; lia). rewrite length_take.
    rewrite lookup_app_l by lia. f_equal. lia.
  - rewrite lookup_app_r by (rewrite length_take; lia). rewrite length_take.
    rewrite lookup_app_r by lia. rewrite lookup_drop. f_equal. lia.
  - rewrite lookup_app_l by (rewrite length_take; lia). by rewrite lookup_take_lt by lia.
  - lia.
Qed.

Lemma mem_write_Ok d buf off : 0 <= off -> off + zlen buf < 2 ^ 64 ->
  exists d', mem_write d buf off = Ok d' /\ zlen d' = Z.max (zlen d) (off + zlen buf) /\
    forall i, 0 <= i < zlen d' ->
      d' !! Z.to_nat i = if (off <=? i) && (i <? off + zlen buf) then buf !! Z.to_nat (i - off)
                         else if i <? zlen d then d !! Z.to_nat i else Some 0.
Proof.
  intros Ho He. unfold mem_write, checked_end. pose proof (zlen_nonneg d). pose proof (zlen_nonneg buf).
  destruct (Z.ltb_spec (off + zlen buf) (2 ^ 64)); [|lia]. bind_step.
  set (d1 := if zlen d <? off + zlen buf then resize0 d (off + zlen buf) else d).
  assert (zlen d1 = Z.max (zlen d) (off + zlen buf)) as Hd1.
  { unfold d1. destruct (Z.ltb_spec (zlen d) (off + zlen buf)); [rewrite zlen_resize0|]; lia. }
  destruct (copy_at d1 off buf) as [d'| |] eqn:Ec; [|rewrite copy_at_Ok in Ec by lia; done..].
  exists d'. pose proof (zlen_copy_at _ _ _ _ Ec) as Hl. split_and!; [done|lia|].
  intros i Hi. rewrite (lookup_copy_at _ _ _ _ _ Ec) by lia.
  destruct ((off <=? i) && (i <? off + zlen buf)); [done|]. unfold d1.
  destruct (Z.ltb_spec (zlen d) (off + zlen buf)).
  - apply lookup_resize0. lia.
  - destruct (Z.ltb_spec i (zlen d)); [done|lia].
Qed.

Lemma mem_read_Ok d len off : 0 <= len -> 0 <= off -> off + len <= zlen d -> zlen d < 2 ^ 64 ->
  mem_read d len off = Ok (sub d off (off + len)).
Proof.
  intros. unfold mem_read, checked_end. destruct (Z.ltb_spec (off + len) (2 ^ 64)); [|lia]. bind_step.
  destruct (Z.ltb_spec (zlen d) (off + len)); [lia|]. apply slice_Ok; lia.
Qed.

Lemma mem_read_eof d len off : 0 <= len -> 0 <= off -> zlen d < off + len ->
  exists m, mem_read d len off = Err (EIo m).
Proof.
  intros. unfold mem_read, checked_end. destruct (Z.ltb_spec (off + len) (2 ^ 64)); [|by eexists].
  bind_step. destruct (Z.ltb_spec (zlen d) (off + len)); [by eexists|lia].
Qed.

Lemma copy_at_sub {A} (l : list A) a d l' : copy_at l a d = Ok l' -> sub l' a (a + zlen d) = d.
Proof.
  unfold copy_at. destruct (Z.leb_spec 0 a), (Z.leb_spec (a + zlen d) (zlen l)); simpl; intros; simplify_eq.
  pose proof (zlen_nonneg d).
  apply sub_app_exact; [|done]. unfold zlen in *. rewrite length_take. lia.
Qed.

End Vfs.

(** The in-memory file as the pager sees it. *)
#[export] Instance MemFile : File bytes := {
  file_size d := Ok (zlen d);
  read_exact_at d len off := Vfs.mem_read d len off
}.

#[export] Instance MemFile_laws : FileLaws bytes := {
  contents d := d;
  file_size_spec d := eq_refl;
  read_exact_at_spec := Vfs.mem_read_Ok;
  read_exact_at_eof := Vfs.mem_read_eof
}.

Module VfsProps.
Import Vfs.

Lemma levels_Some w c h l : levels (handles w) c !! h = Some l <->
  exists f, handles w !! h = Some f /\ cell f = c /\ level f = l.
Proof.
  rewrite levels_lookup. destruct (handles w !! h) as [g|]; [|naive_solver].
  destruct (decide (cell g = c)); naive_solver.
Qed.

(** A flag that counts the [Exclusive] handles says whether there is one. *)
Lemma exclusive_iff w c s : exclusives (levels (handles w) c) = (if exclusive s then 1 else 0) ->
  exclusive s = true <-> exists h f, handles w !! h = Some f /\ cell f = c /\ level f = Exclusive.
Proof.
  intros Hx. split.
  - intros E. rewrite E in Hx. apply dec_stable. intros Hn.
    enough (exclusives (levels (handles w) c) = 0) by lia. apply holders_none.
    intros h l (f & Hh & Hc & <-)%levels_Some Hl. apply Hn. by exists h, f.
  - intros (h & f & Hh & Hc & Hl). destruct (exclusive s); [done|].
    exfalso. apply (proj2 (holders_none (fun l => l = Exclusive) _) Hx h Exclusive); [|done].
    apply levels_Some. by exists f.
Qed.

(** What the protocol adds: full exclusion and an exact counter. *)
Lemma polite_exclusion w h f e : reached polite w -> handles w !! h = Some f -> cells w !! cell f = Some e ->
  shared (f_locks e) = readers (levels (handles w) (cell f)) /\
  (forall h' f', handles w !! h' = Some f' -> cell f' = cell f -> h' <> h ->
     (level f = Exclusive -> level f' = Unlocked) /\
     ~ (le_level Reserved (level f) = true /\ le_level Reserved (level f') = true)) /\
  ((forall h' f', handles w !! h' = Some f' -> cell f' = cell f -> level f' = Unlocked) ->
     f_locks e = lock_default).
Proof.
  intros Hr Hh He. pose proof (vi_locks _ w (reached_inv polite lock_inv w Hr) _ _ He) as [Hs Hc].
  split; [done|]. split.
  - intros h' f' Hh' Hcell Hne.
    assert (levels (handles w) (cell f) !! h = Some (level f)) as L by (apply levels_Some; by exists f).
    assert (levels (handles w) (cell f) !! h' = Some (level f')) as L' by (apply levels_Some; by exists f').
    destruct Hc as [(_ & _ & _ & Hb)|(k & l & Hk & Hf & Hb)].
    + pose proof (Hb _ _ L). pose proof (Hb _ _ L'). split; [by intros E; rewrite E in *|].
      intros [H1 H2]. by destruct (level f).
    + destruct (decide (k = h)) as [->|Hkh].
      * assert (l = level f) as -> by congruence.
        specialize (Hb h' (level f')). rewrite lookup_delete_ne in Hb by done. specialize (Hb L').
        split; [intros E; rewrite E in Hb; by destruct (level f')|]. intros [H1 H2].
        destruct (decide _); by destruct (level f').
      * specialize (Hb h (level f)). rewrite lookup_delete_ne in Hb by done. specialize (Hb L).
        split; [intros E; rewrite E in Hb; by destruct (decide (l = Exclusive))|]. intros [H1 H2].
        destruct (decide _); by destruct (level f).
  - intros Hall. assert (forall k l, levels (handles w) (cell f) !! k = Some l -> l = Unlocked) as Hu.
    { intros k l (g & Hk & Hg & <-)%levels_Some. by apply (Hall k). }
    destruct Hc as [(Hr1 & Hp1 & He1 & _)|(k & l & Hk & Hf & _)].
    + destruct (f_locks e) as [sh r p x]. cbn in *. unfold lock_default. subst. f_equal.
      apply readers_none, Hu.
    + by rewrite (Hu k l Hk) in Hf.
Qed.

(** C37: lock safety. In every state reachable by opening, deleting, writing,
    truncating, locking, unlocking and dropping handles, with any lock requests
    at all: no handle dangles; the shared counter is never above the number of
    handles that hold a lock; the exclusive flag of a file is set exactly when
    some handle is [Exclusive], that handle is the only one, and every request
    of another handle that would raise its level is answered [Busy]. When the
    state is reached by requests that keep the pager's lock protocol, moreover:
    an [Exclusive] holder is alone on its file; two handles never both hold a
    write-intent lock; the shared counter is exactly the number of handles that
    hold a lock; and a file nobody holds is back in the default lock state. *)
Theorem vfs_lock_safety (w : MemoryVfs) (h : Z) (f : MemoryFile) :
  reached any w -> handles w !! h = Some f ->
  exists e, deref w h = Ok (f, e) /\
    0 <= shared (f_locks e) <= readers (levels (handles w) (cell f)) /\
    (exclusive (f_locks e) = true <->
       exists h' f', handles w !! h' = Some f' /\ cell f' = cell f /\ level f' = Exclusive) /\
    (level f = Exclusive -> forall h' f', handles w !! h' = Some f' -> cell f' = cell f -> h' <> h ->
       level f' <> Exclusive /\
       forall l, lt_level (level f') l = true -> file_lock w h' l = Err EBusy) /\
    (reached polite w ->
       shared (f_locks e) = readers (levels (handles w) (cell f)) /\
       (forall h' f', handles w !! h' = Some f' -> cell f' = cell f -> h' <> h ->
          (level f = Exclusive -> level f' = Unlocked) /\
          ~ (le_level Reserved (level f) = true /\ le_level Reserved (level f') = true)) /\
       ((forall h' f', handles w !! h' = Some f' -> cell f' = cell f -> level f' = Unlocked) ->
          f_locks e = lock_default)).
Proof.
  intros Hr Hh. pose proof (reached_inv any lock_bounds w Hr) as Hw.
  destruct (vi_handles _ w Hw h f Hh) as [e He]. pose proof (vi_locks _ w Hw _ _ He) as [Hb Hx].
  assert (forall h' f', handles w !! h' = Some f' -> cell f' = cell f ->
    levels (handles w) (cell f) !! h' = Some (level f')) as L.
  { intros h' f' Hh' Hc. by rewrite levels_lookup, Hh', decide_True. }
  exists e. split; [by apply deref_Ok|]. split; [done|].
  assert (exclusive (f_locks e) = true <->
       exists h' f', handles w !! h' = Some f' /\ cell f' = cell f /\ level f' = Exclusive) as Hflag
    by (by apply exclusive_iff).
  split; [done|]. split; [|intros Hp; by apply (polite_exclusion w h f e)].
  intros E h' f' Hh' Hc Hne. split.
  - intros E'. pose proof (holders_two (fun l => l = Exclusive) _ h _ h' _ (L h f Hh eq_refl) E (L h' f' Hh' Hc) E' (not_eq_sym Hne)).
    unfold exclusives in Hx. destruct (exclusive (f_locks e)); lia.
  - intros l Hl. unfold file_lock. rewrite (proj2 (deref_Ok w h' f' e)) by (split; [done|congruence]).
    bind_step. rewrite acquire_exclusive_busy; [done| |done]. apply Hflag. by exists h, f.
Qed.

(** Two handles on one path, the first of which has gone up to [Reserved]. *)
Definition demo_open : MemoryVfs :=
  (add_handle (add_handle (new_entry vfs_new "db") 0).2 0).2.
Definition demo_shared : MemoryVfs :=
  set_level demo_open 0 (mkFile 0 Unlocked) (mkEntry [] lock_default) (mkLock 1 false false false) Shared.
Definition demo_reserved : MemoryVfs :=
  set_level demo_shared 0 (mkFile 0 Shared) (mkEntry [] (mkLock 1 false false false))
    (mkLock 1 true false false) Reserved.

Lemma demo_reached : reached polite demo_reserved.
Proof.
  apply (rtc_l _ _ (add_handle (new_entry vfs_new "db") 0).2).
  { exists COpen. split; [done|]. by apply (step_open _ "db" READ_WRITE_CREATE 0). }
  apply (rtc_l _ _ demo_open). { exists COpen. split; [done|]. by apply (step_open _ "db" READ_ONLY 1). }
  apply (rtc_l _ _ demo_shared).
  { exists (CLock Unlocked Shared). split; [right; by split|].
    by apply (step_lock _ 0 (mkFile 0 Unlocked) Shared). }
  apply (rtc_l _ _ demo_reserved); [|apply rtc_refl].
  exists (CLock Shared Reserved). split; [right; by split|].
  by apply (step_lock _ 0 (mkFile 0 Shared) Reserved).
Qed.

Lemma vfs_lock_safety_witness :
  exists e, deref demo_reserved 0 = Ok (mkFile 0 Reserved, e) /\
    0 <= shared (f_locks e) <= readers (levels (handles demo_reserved) 0) /\
    (exclusive (f_locks e) = true <->
       exists h' f', handles demo_reserved !! h' = Some f' /\ cell f' = 0 /\ level f' = Exclusive) /\
    (Reserved = Exclusive -> forall h' f', handles demo_reserved !! h' = Some f' -> cell f' = 0 -> h' <> 0 ->
       level f' <> Exclusive /\
       forall l, lt_level (level f') l = true -> file_lock demo_reserved h' l = Err EBusy) /\
    (reached polite demo_reserved ->
       shared (f_locks e) = readers (levels (handles demo_reserved) 0) /\
       (forall h' f', handles demo_reserved !! h' = Some f' -> cell f' = 0 -> h' <> 0 ->
          (Reserved = Exclusive -> level f' = Unlocked) /\
          ~ (le_level Reserved Reserved = true /\ le_level Reserved (level f') = true)) /\
       ((forall h' f', handles demo_reserved !! h' = Some f' -> cell f' = 0 -> level f' = Unlocked) ->
          f_locks e = lock_default)).
Proof.
  apply (vfs_lock_safety demo_reserved 0 (mkFile 0 Reserved)); [|reflexivity].
  by apply (reached_mono polite), demo_reached.
Defined.

(** The second half needs that protocol. A handle that takes
    [Reserved] straight from [Unlocked], as a non-passive WAL checkpoint on an
    idle connection does, and then unlocks, takes another connection's reader
    out of the count: the exclusive lock that was refused while the reader was
    there is granted although it still reads. *)
Theorem skip_shared_loses_reader (s : LockState) :
  shared s = 1 -> has_write_intent s = false ->
  (forall s1, acquire s Unlocked Shared = Ok s1 -> acquire s1 Shared Exclusive = Err EBusy) /\
  exists s1, acquire s Unlocked Reserved = Ok s1 /\
    let s2 := release s1 Reserved Unlocked in
    reader_count s2 = 0 /\
    exists s3 s4, acquire s2 Unlocked Shared = Ok s3 /\ acquire s3 Shared Exclusive = Ok s4.
Proof.
  intros Hs Hw. destruct s as [sh r p e]. unfold has_write_intent in Hw. cbn in Hs, Hw. subst sh.
  destruct r, p, e; try done. split.
  - intros s1 E. by injection E as <-.
  - eexists. split; [reflexivity|]. split; [reflexivity|]. by eexists _, _.
Qed.

Lemma skip_shared_loses_reader_witness :
  (forall s1, acquire (mkLock 1 false false false) Unlocked Shared = Ok s1 -> acquire s1 Shared Exclusive = Err EBusy) /\
  exists s1, acquire (mkLock 1 false false false) Unlocked Reserved = Ok s1 /\
    let s2 := release s1 Reserved Unlocked in
    reader_count s2 = 0 /\
    exists s3 s4, acquire s2 Unlocked Shared = Ok s3 /\ acquire s3 Shared Exclusive = Ok s4.
Proof. by apply (skip_shared_loses_reader (mkLock 1 false false false)). Defined.

(** Positioned writes. A write within the address range succeeds on every
    handle; afterwards every handle on the same file reads the written bytes
    back, the other bytes and the bytes of other files are unchanged, and a gap
    past the old end is zero. *)
Theorem file_write_spec (w : MemoryVfs) (h off : Z) (buf : bytes) (f : MemoryFile) (e : FileEntry) :
  deref w h = Ok (f, e) -> 0 <= off -> off + zlen buf < 2 ^ 64 ->
  exists w' d', file_write w h buf off = Ok w' /\
    (forall h' f' e', deref w h' = Ok (f', e') ->
       deref w' h' = Ok (f', if decide (cell f' = cell f) then mkEntry d' (f_locks e') else e')) /\
    file_read w' h (zlen buf) off = Ok buf /\
    zlen d' = Z.max (zlen (f_bytes e)) (off + zlen buf) /\
    forall i, 0 <= i < zlen d' -> ~ (off <= i < off + zlen buf) ->
      d' !! Z.to_nat i = if i <? zlen (f_bytes e) then f_bytes e !! Z.to_nat i else Some 0.
Proof.
  intros [Hh Hc]%deref_Ok Ho He. pose proof (zlen_nonneg buf).
  destruct (mem_write_Ok (f_bytes e) buf off Ho He) as (d' & Ed & Hl & Hb).
  exists (update_bytes w f e d'), d'.
  assert (forall h' f' e', deref w h' = Ok (f', e') ->
       deref (update_bytes w f e d') h' = Ok (f', if decide (cell f' = cell f) then mkEntry d' (f_locks e') else e')) as Hd.
  { intros h' f' e' [Hh' Hc']%deref_Ok. apply deref_Ok. split; [done|]. cbn.
    destruct (decide (cell f' = cell f)) as [E|E].
    - rewrite E in Hc' |- *. rewrite lookup_insert_eq. congruence.
    - by rewrite lookup_insert_ne. }
  split_and!; [|done| |done|].
  - unfold file_write. rewrite (proj2 (deref_Ok w h f e)) by done. bind_step. by rewrite Ed.
  - unfold file_read. rewrite (Hd h f e) by (by apply deref_Ok). bind_step. rewrite decide_True by done.
    cbn [f_bytes]. unfold mem_write in Ed. apply res_bind_Ok in Ed as (en & Een & Ed).
    unfold mem_read, checked_end in *. destruct (off + zlen buf <? 2 ^ 64); [|done]. injection Een as <-. bind_step.
    destruct (Z.ltb_spec (zlen d') (off + zlen buf)); [lia|]. rewrite slice_Ok by lia. f_equal.
    by apply (copy_at_sub _ _ _ _ Ed).
  - intros i Hi Hn. rewrite Hb by done.
    destruct (Z.leb_spec off i), (Z.ltb_spec i (off + zlen buf)); try done; lia.
Qed.

Lemma file_write_spec_witness :
  exists w' d', file_write demo_open 0 [120] 10 = Ok w' /\
    (forall h' f' e', deref demo_open h' = Ok (f', e') ->
       deref w' h' = Ok (f', if decide (cell f' = 0) then mkEntry d' (f_locks e') else e')) /\
    file_read w' 0 1 10 = Ok [120] /\
    zlen d' = 11 /\
    forall i, 0 <= i < zlen d' -> ~ (10 <= i < 11) ->
      d' !! Z.to_nat i = if i <? 0 then [] !! Z.to_nat i else Some 0.
Proof.
  apply (file_write_spec demo_open 0 10 [120] (mkFile 0 Unlocked) (mkEntry [] lock_default)).
  - reflexivity.
  - lia.
  - reflexivity.
Defined.

End VfsProps.
