(* ===== verification/Image.v ===== *)
(** Facts about file contents that the write-ahead log and the rollback journal
    share: reads and writes inside a concatenation, and a file as a sequence of
    pages. *)

From S2P Require Import Prelude Vfs.
Local Open Scope Z_scope.

(** ** Reading and writing inside a concatenation *)

Lemma mem_read_app (pre m post : bytes) len off :
  zlen (pre ++ m ++ post) < 2 ^ 64 -> off = zlen pre -> len = zlen m ->
  Vfs.mem_read (pre ++ m ++ post) len off = Ok m.
Proof.
  intros Hz -> ->. pose proof (zlen_nonneg pre). pose proof (zlen_nonneg m). pose proof (zlen_nonneg post).
  rewrite !zlen_app in Hz.
  rewrite Vfs.mem_read_Ok by (rewrite ?zlen_app; lia). f_equal. by apply sub_app_exact.
Qed.

(** Writing at the end of [pre] replaces what follows. *)
Lemma mem_write_over (pre post buf : bytes) off :
  off = zlen pre -> zlen pre + zlen buf < 2 ^ 64 ->
  Vfs.mem_write (pre ++ post) buf off = Ok (pre ++ buf ++ drop (length buf) post).
Proof.
  intros -> Hz. pose proof (zlen_nonneg pre). pose proof (zlen_nonneg buf).
  unfold Vfs.mem_write, Vfs.checked_end. destruct (Z.ltb_spec (zlen pre + zlen buf) (2 ^ 64)); [|lia].
  bind_step. set (d := if _ <? _ then _ else _).
  assert (exists z, d = pre ++ z /\ zlen buf <= zlen z /\ drop (length buf) z = drop (length buf) post) as (z & -> & Hzl & Hd).
  { unfold d. destruct (Z.ltb_spec (zlen (pre ++ post)) (zlen pre + zlen buf)) as [Hs|Hs]; rewrite zlen_app in Hs.
    - unfold Vfs.resize0. destruct (Z.ltb_spec (zlen (pre ++ post)) (zlen pre + zlen buf)) as [_|]; [|rewrite zlen_app in *; lia].
      exists (post ++ zrep (zlen pre + zlen buf - zlen (pre ++ post)) 0). rewrite app_assoc. split; [done|].
      rewrite zlen_app in *. rewrite zlen_app, zlen_zrep by lia. split; [lia|].
      unfold zlen in *. rewrite !drop_ge; [done|lia|]. unfold zrep. rewrite length_app, length_replicate. lia.
    - exists post. split_and!; [done|lia|done]. }
  rewrite copy_at_Ok by (rewrite ?zlen_app; lia). unfold zlen. rewrite Nat2Z.id.
  rewrite take_app_length. by rewrite drop_app_add, Hd.
Qed.

(** ** A file as a sequence of pages *)

Definition page_at (main : bytes) (ps p : Z) : bytes := sub main ((p - 1) * ps) (p * ps).

Lemma page_write main d ps p : 0 < ps -> zlen d = ps -> 1 <= p -> p * ps < 2 ^ 64 ->
  exists main', Vfs.mem_write main d ((p - 1) * ps) = Ok main' /\
    zlen main' = Z.max (zlen main) (p * ps) /\ page_at main' ps p = d /\
    forall q, 1 <= q -> q <> p -> q * ps <= zlen main -> page_at main' ps q = page_at main ps q.
Proof.
  intros Hps Hd Hp Hz. assert (0 <= (p - 1) * ps) as H0 by nia.
  destruct (Vfs.mem_write_Ok main d ((p - 1) * ps) H0 ltac:(rewrite Hd; lia)) as (m' & E & Hl & Hi).
  rewrite Hd in *. replace ((p - 1) * ps + ps) with (p * ps) in * by lia.
  exists m'. split_and!; [done|done| |].
  - unfold page_at. replace (p * ps) with ((p - 1) * ps + zlen d) by lia.
    unfold Vfs.mem_write in E. apply res_bind_Ok in E as (e & _ & E). by apply (Vfs.copy_at_sub _ _ _ _ E).
  - intros q Hq Hne Hqz. unfold page_at. apply sub_ext; [nia|lia|lia|].
    intros i Hir. rewrite Hi by nia.
    destruct (Z.leb_spec ((p - 1) * ps) i), (Z.ltb_spec i (p * ps)); simpl; try (destruct (Z.ltb_spec i (zlen main)); [done|lia]).
    nia.
Qed.

Lemma page_at_resize main ps q n : 0 < ps -> 1 <= q -> q * ps <= n -> q * ps <= zlen main ->
  page_at (Vfs.resize0 main n) ps q = page_at main ps q.
Proof.
  intros Hps Hq Hn Hz. unfold page_at. pose proof (Vfs.zlen_resize0 main n ltac:(nia)) as Hl.
  apply sub_ext; [nia|lia|lia|]. intros i Hi. rewrite Vfs.lookup_resize0 by nia.
  destruct (Z.ltb_spec i (zlen main)); [done|lia].
Qed.
