(* ===== verification/Pager.v ===== *)
(** The read-only pager ([src/src/pager/mod.rs]): numbered pages of a file
    through the bounded cache, and the [PageSource] interface of the b-tree
    layer.

    [Pager::page] mutates its cache behind a shared reference; here it returns
    the new pager. [pager_cache_transparent] shows that the cache never changes
    an answer, which is what lets the b-tree components treat a page source as
    a pure function. *)

From S2P Require Import Prelude Header PCache Vfs.
Local Open Scope Z_scope.

Module Pager.

Record Page : Type := mkPage { number : Z; data : bytes }.

(** [Page::body_offset]. *)
Definition body_offset (p : Page) : Z := if number p =? 1 then Header.HEADER_LEN else 0.

(** The [PageSource] trait, as the b-tree layer uses it. *)
Record PageSource : Type := mkSource {
  src_page : Z -> res Page;
  src_header : Header.DatabaseHeader;
  src_usable_size : Z;
  src_page_count : Z
}.

(** What a well-behaved source guarantees: it never panics on a page number (an
    unsigned integer), and a page it returns carries its number, exists, and has
    the page size's length. *)
Class SourceOk (s : PageSource) : Prop := {
  src_no_panic n : 0 <= n -> no_panic (src_page s n);
  src_number n p : src_page s n = Ok p -> number p = n /\ 1 <= n <= src_page_count s;
  src_bytes n p : src_page s n = Ok p -> is_bytes (data p);
  src_length n p : src_page s n = Ok p ->
    zlen (data p) = Header.page_size (src_header s);
  src_usable : src_usable_size s = Header.usable_size (src_header s);
  src_header_wf : Header.wf (src_header s)
}.

Section WithFile.
Context {F : Type} `{File F}.

Record Pager : Type := mkPager {
  file : F;
  header : Header.DatabaseHeader;
  page_size : Z;
  page_count : Z;
  cache : PCache.PageCache
}.

Definition open (f : F) : res Pager :=
  let* size := file_size f in
  if size <? Header.HEADER_LEN then
    Err (ECorrupt ("file is " +:+ fmt_Z size +:+ " bytes, too small to be a database"))
  else
  let* head := read_exact_at f Header.HEADER_LEN 0 in
  let* hdr := Header.parse head in
  let ps := Header.page_size hdr in
  if negb (size mod ps =? 0) then
    Err (ECorrupt ("file size " +:+ fmt_Z size +:+ " is not a multiple of page size " +:+ fmt_Z ps))
  else
  let pc := wrap 32 (size / ps) in
  Ok (mkPager f hdr ps pc (PCache.new PCache.DEFAULT_CACHE_SIZE ps)).

Definition with_cache (p : Pager) (c : PCache.PageCache) : Pager :=
  mkPager (file p) (header p) (page_size p) (page_count p) c.

Definition set_cache_size (p : Pager) (cache_size : Z) : res Pager :=
  let* c := PCache.set_cache_size (cache p) cache_size (page_size p) in
  Ok (with_cache p c).

Definition resident_pages (p : Pager) : Z := PCache.len (cache p).

Definition usable_size (p : Pager) : Z := Header.usable_size (header p).

Definition out_of_range {A} (n pc : Z) : res A :=
  Err (ECorrupt ("page " +:+ fmt_Z n +:+ " out of range 1..=" +:+ fmt_Z pc)).

(** The answer and the pager with its updated cache. *)
Definition page (p : Pager) (n : Z) : res Page * Pager :=
  if (n =? 0) || (page_count p <? n) then (out_of_range n (page_count p), p)
  else
    match PCache.get (cache p) n with
    | (Some d, c) => (Ok (mkPage n d), with_cache p c)
    | (None, c) =>
        let offset := (n - 1) * page_size p in
        match read_exact_at (file p) (page_size p) offset with
        | Ok buf =>
            match PCache.insert c n buf with
            | Ok c => (Ok (mkPage n buf), with_cache p c)
            | Err e => (Err e, with_cache p c)
            | Panic => (Panic, with_cache p c)
            end
        | Err e => (Err e, with_cache p c)
        | Panic => (Panic, with_cache p c)
        end
    end.

(** Requests a client can make of an open pager. *)
Inductive request : Type := GetPage (n : Z) | SetCacheSize (cache_size : Z).

Definition answer (r : request) (p : Pager) : res (option (res Page) * Pager) :=
  match r with
  | GetPage n => let '(a, p) := page p n in Ok (Some a, p)
  | SetCacheSize cs => let* p := set_cache_size p cs in Ok (None, p)
  end.

Fixpoint serve (rs : list request) (p : Pager) : res (list (option (res Page)) * Pager) :=
  match rs with
  | [] => Ok ([], p)
  | r :: rs =>
      let* (a, p) := answer r p in
      let* (l, p) := serve rs p in
      Ok (a :: l, p)
  end.
End WithFile.
Arguments Pager F : clear implicits.

(** ** Specification: pages are slices of the file *)

Definition file_page (d : bytes) (ps pc n : Z) : res Page :=
  if (n <? 1) || (pc <? n) then out_of_range n pc
  else Ok (mkPage n (sub d ((n - 1) * ps) (n * ps))).

Definition spec_answer (d : bytes) (ps pc : Z) (r : request) : option (res Page) :=
  match r with
  | GetPage n => Some (file_page d ps pc n)
  | SetCacheSize _ => None
  end.

Section Transparent.
#[local] Set Default Proof Using "All".
Context {F : Type} `{FileLaws F}.
Context (f : F) (ps pc : Z).
Hypothesis Hps : 1 <= ps.
Hypothesis Hpc : 0 <= pc /\ pc * ps <= zlen (contents f).
Hypothesis Hsize : zlen (contents f) < 2 ^ 64.

(** Cached pages are pages of the file. *)
Definition coherent (l : PCache.lru) : Prop :=
  Forall (fun x => 1 <= x.1 <= pc /\ x.2 = sub (contents f) ((x.1 - 1) * ps) (x.1 * ps)) l.

Definition pinv (p : Pager F) : Prop :=
  file p = f /\ page_size p = ps /\ page_count p = pc /\
  exists s, PCache.sim (cache p) s /\ coherent s.2.

Lemma coherent_remove n l : coherent l -> coherent (PCache.lru_remove n l).
Proof.
  unfold coherent, PCache.lru_remove. rewrite !Forall_forall.
  intros Hc x [_ Hx]%list_elem_of_filter. by apply Hc.
Qed.

Lemma coherent_take k l : coherent l -> coherent (take k l).
Proof. apply Forall_take. Qed.

Lemma lru_get_coherent n l : coherent l ->
  coherent (PCache.lru_get n l).2 /\
  forall d, (PCache.lru_get n l).1 = Some d -> d = sub (contents f) ((n - 1) * ps) (n * ps).
Proof.
  intros Hc. unfold PCache.lru_get.
  destruct (list_find (fun x => x.1 = n) l) as [[i [n' d]]|] eqn:E; cbn [fst snd]; [|by split].
  apply list_find_Some in E as (Hi & Hn & _). simpl in Hn. subst n'.
  pose proof (Forall_lookup_1 _ _ _ _ Hc Hi) as [Hr Hd]. cbn [fst snd] in *.
  split; [|by intros d' [= <-]]. constructor; [done|]. by apply coherent_remove.
Qed.

Lemma lru_insert_coherent cap n l : coherent l -> 1 <= n <= pc ->
  coherent (PCache.lru_insert cap n (sub (contents f) ((n - 1) * ps) (n * ps)) l).
Proof. intros Hc Hn. constructor; [done|]. by apply coherent_take, coherent_remove. Qed.

Lemma page_spec p n : pinv p -> 0 <= n -> PCache.clock (cache p) + 2 < 2 ^ 64 ->
  exists p', page p n = (file_page (contents f) ps pc n, p') /\ pinv p' /\
    PCache.clock (cache p') <= PCache.clock (cache p) + 2.
Proof.
  intros (Hf & Ep & Ec & s & Hs & Hc) Hn Hclk. unfold page, file_page. rewrite Ec.
  replace (n <? 1) with (n =? 0) by (destruct (Z.eqb_spec n 0), (Z.ltb_spec n 1); lia || done).
  destruct ((n =? 0) || (pc <? n)) eqn:Er.
  { exists p. split; [done|]. split; [|lia]. split_and!; try done. by exists s. }
  apply orb_false_elim in Er as [Er1%Z.eqb_neq Er2%Z.ltb_ge].
  destruct (PCache.get_sim (cache p) s n Hs ltac:(lia)) as (c1 & -> & Hs1 & Hk1).
  destruct (lru_get_coherent n s.2 Hc) as [Hc1 Hd1].
  destruct (PCache.lru_get n s.2) as [[d|] l] eqn:Eg; cbn [fst snd] in *.
  - rewrite (Hd1 d eq_refl). eexists. split; [done|]. split; [|cbn; lia].
    split_and!; try done. by exists (s.1, l).
  - rewrite Hf, Ep. assert (n * ps <= zlen (contents f)) by nia.
    rewrite read_exact_at_spec by nia. replace ((n - 1) * ps + ps) with (n * ps) by lia.
    destruct (PCache.insert_sim c1 _ n (sub (contents f) ((n - 1) * ps) (n * ps)) Hs1 ltac:(lia))
      as (c2 & -> & Hs2 & Hk2).
    eexists. split; [done|]. split; [|cbn; lia]. split_and!; try done.
    eexists. split; [exact Hs2|]. apply lru_insert_coherent; [done|lia].
Qed.

Lemma set_cache_size_spec p cs : pinv p ->
  exists p', set_cache_size p cs = Ok p' /\ pinv p' /\ PCache.clock (cache p') = PCache.clock (cache p).
Proof.
  intros (Hf & Ep & Ec & s & Hs & Hc). unfold set_cache_size.
  destruct (PCache.resize_sim (cache p) s cs (page_size p) Hs) as (c' & -> & Hs' & Hk). bind_step.
  eexists. split; [done|]. split; [|done]. split_and!; try done.
  eexists. split; [exact Hs'|]. by apply coherent_take.
Qed.

Lemma serve_spec rs p : pinv p -> Forall (fun r => match r with GetPage n => 0 <= n | _ => True end) rs ->
  PCache.clock (cache p) + 2 * zlen rs < 2 ^ 64 ->
  exists p', serve rs p = Ok (spec_answer (contents f) ps pc <$> rs, p') /\ pinv p'.
Proof.
  intros Hp Hrs. revert p Hp. induction Hrs as [|r rs Hr _ IH]; intros p Hp Hclk; [by exists p|].
  rewrite zlen_cons in Hclk. pose proof (zlen_nonneg rs). cbn [serve].
  assert (exists p1, answer r p = Ok (spec_answer (contents f) ps pc r, p1) /\ pinv p1 /\
            PCache.clock (cache p1) <= PCache.clock (cache p) + 2) as (p1 & -> & Hp1 & Hk1).
  { destruct r as [n|cs]; cbn [answer].
    - destruct (page_spec p n Hp Hr ltac:(lia)) as (p1 & -> & Hp1 & Hk). by exists p1.
    - destruct (set_cache_size_spec p cs Hp) as (p1 & -> & Hp1 & Hk). exists p1. split_and!; [done..|lia]. }
  bind_step. destruct (IH p1 Hp1 ltac:(lia)) as (p2 & -> & Hp2). bind_step. by exists p2.
Qed.
End Transparent.

Section Open.
Context {F : Type} `{FileLaws F}.

(** What [open] establishes. *)
Lemma open_spec (f : F) p : zlen (contents f) < 2 ^ 64 -> is_bytes (contents f) -> open f = Ok p ->
  pinv f (page_size p) (page_count p) p /\ Header.wf (header p) /\
  page_size p = Header.page_size (header p) /\ PCache.clock (cache p) = 0 /\
  0 <= page_count p /\ page_count p * page_size p <= zlen (contents f) /\
  (zlen (contents f) < 2 ^ 32 * page_size p -> page_count p * page_size p = zlen (contents f)) /\
  Header.parse (sub (contents f) 0 Header.HEADER_LEN) = Ok (header p).
Proof.
  intros Hsz Hb E. unfold open in E. rewrite file_size_spec, bind_Ok in E.
  destruct (Z.ltb_spec (zlen (contents f)) Header.HEADER_LEN) as [|Hlen]; [done|].
  rewrite read_exact_at_spec, bind_Ok in E by (unfold Header.HEADER_LEN in *; lia).
  rewrite Z.add_0_l in E. apply res_bind_Ok in E as (hdr & Eh & E).
  assert (Header.wf hdr) as Hwf.
  { apply (Header.parse_inv (sub (contents f) 0 Header.HEADER_LEN)); [by apply is_bytes_sub|done]. }
  pose proof (Header.wf_page_size hdr Hwf) as [Hps _].
  destruct (Z.eqb_spec (zlen (contents f) mod Header.page_size hdr) 0) as [Hmod|]; [|done].
  injection E as <-. cbn [page_size page_count header cache file].
  set (ps := Header.page_size hdr) in *.
  pose proof (Z.div_mod (zlen (contents f)) ps ltac:(lia)) as Hdm.
  pose proof (zlen_nonneg (contents f)). clearbody ps.
  assert (0 <= zlen (contents f) / ps) by (apply Z.div_pos; lia).
  pose proof (wrap_range 32 (zlen (contents f) / ps) ltac:(lia)) as Hw. unfold is_uint in Hw.
  assert (wrap 32 (zlen (contents f) / ps) <= zlen (contents f) / ps) by (apply Z.mod_le; lia).
  split_and!; try done; [|lia|nia|].
  - split_and!; try done. exists (PCache.capacity_for PCache.DEFAULT_CACHE_SIZE ps, []).
    split; [apply PCache.sim_new|constructor].
  - intros Hlt. rewrite wrap_small; [lia|]. split; [lia|]. apply Z.div_lt_upper_bound; lia.
Qed.

Lemma no_panic_open (f : F) : zlen (contents f) < 2 ^ 64 -> no_panic (open f).
Proof.
  intros Hsz. unfold open. rewrite file_size_spec. bind_step.
  destruct (Z.ltb_spec (zlen (contents f)) Header.HEADER_LEN); [done|].
  rewrite read_exact_at_spec by (unfold Header.HEADER_LEN in *; lia). bind_step.
  np_step; [apply Header.no_panic_parse|]. cbv zeta. by np_step.
Qed.
End Open.

(** An open pager as a page source: the file's pages. *)
Definition source {F} `{FileLaws F} (p : Pager F) : PageSource :=
  mkSource (file_page (contents (file p)) (page_size p) (page_count p)) (header p)
    (usable_size p) (page_count p).

(** C22: the cache is transparent. Whatever sequence of page requests and
    cache resizings an open pager serves (fewer than the 64-bit clock allows),
    every answer is the page's slice of the file, or the range error for a page
    number outside [1..=page_count]; nothing panics, and the resident pages
    stay within the cache's capacity. *)
Theorem pager_cache_transparent {F : Type} `{FileLaws F} (f : F) (p : Pager F) (rs : list request) :
  is_bytes (contents f) -> zlen (contents f) < 2 ^ 64 -> open f = Ok p ->
  Forall (fun r => match r with GetPage n => is_u32 n | SetCacheSize cs => is_i64 cs end) rs ->
  2 * zlen rs < 2 ^ 64 ->
  exists p', serve rs p = Ok (spec_answer (contents f) (page_size p) (page_count p) <$> rs, p') /\
    resident_pages p' <= PCache.capacity (cache p') /\ file p' = f /\ page_count p' = page_count p.
Proof.
  intros Hb Hsz E Hrs Hlen. destruct (open_spec f p Hsz Hb E) as (Hp & Hwf & Eps & Hclk & Hpc & Hle & _).
  pose proof (Header.wf_page_size _ Hwf) as [Hps _].
  destruct (serve_spec f (page_size p) (page_count p) ltac:(lia) (conj Hpc Hle) Hsz rs p Hp)
    as (p' & Es & Hf & Ep & Ec & s & (g & Hr & _ & _ & Hg) & _); [|lia|].
  - eapply Forall_impl; [exact Hrs|]. intros [n|cs] Hn; [apply Hn|done].
  - exists p'. split_and!; try done. unfold resident_pages. by rewrite (PCache.repr_len _ g Hr).
Qed.

(** Two pages of 512 bytes behind a valid header. *)
Definition sample_header : Header.DatabaseHeader :=
  Header.mkHeader 512 1 1 0 1 2 0 0 0 4 0 0 Header.Utf8 0 0 0 1 3046001.
Definition sample_file : bytes := Header.header_bytes sample_header ++ replicate 924 7.
Definition sample_pager : Pager bytes :=
  mkPager sample_file sample_header 512 2 (PCache.new PCache.DEFAULT_CACHE_SIZE 512).

Lemma pager_cache_transparent_witness :
  let rs := [GetPage 1; GetPage 2; SetCacheSize 1; GetPage 1; GetPage 3; GetPage 0] in
  exists p', serve rs sample_pager
      = Ok (spec_answer (contents sample_file) (page_size sample_pager) (page_count sample_pager) <$> rs, p') /\
    resident_pages p' <= PCache.capacity (cache p') /\ file p' = sample_file /\
    page_count p' = page_count sample_pager.
Proof.
  apply (pager_cache_transparent sample_file sample_pager
           [GetPage 1; GetPage 2; SetCacheSize 1; GetPage 1; GetPage 3; GetPage 0]).
  - apply (bool_decide_unpack _). vm_compute. exact I.
  - vm_compute. reflexivity.
  - vm_compute. reflexivity.
  - repeat (apply Forall_cons_2; [unfold is_uint, is_sint; lia|]). apply Forall_nil_2.
  - vm_compute. reflexivity.
Defined.

(** Opening validates the file. [open] never panics; a pager it returns
    has a well-formed header with a page size of 512..65536, covers the file
    exactly when it has fewer than 2^32 pages, and is a well-behaved page
    source: each page it serves exists and is one page of bytes long. *)
Theorem pager_open_spec {F : Type} `{FileLaws F} (f : F) :
  is_bytes (contents f) -> zlen (contents f) < 2 ^ 64 ->
  no_panic (open f) /\
  forall p, open f = Ok p ->
    SourceOk (source p) /\
    (zlen (contents f) < 2 ^ 32 * page_size p -> page_count p * page_size p = zlen (contents f)).
Proof.
  intros Hb Hsz. split; [by apply no_panic_open|]. intros p E.
  destruct (open_spec f p Hsz Hb E) as (Hp & Hwf & Eps & Hclk & Hpc & Hle & Hex & _).
  split; [|done]. pose proof (Header.wf_page_size _ Hwf) as [Hps _]. destruct Hp as (Hf & _).
  assert (forall n q, src_page (source p) n = Ok q ->
    1 <= n <= page_count p /\
    q = mkPage n (sub (contents (file p)) ((n - 1) * page_size p) (n * page_size p))) as Hpage.
  { intros n q. cbn. unfold file_page. destruct (Z.ltb_spec n 1), (Z.ltb_spec (page_count p) n); simpl; try done.
    intros [= <-]. split; [lia|done]. }
  rewrite <- Hf in *. split.
  - intros n _. cbn. unfold file_page. by np_step.
  - intros n q [Hn ->]%Hpage. done.
  - intros n q [Hn ->]%Hpage. by apply is_bytes_sub.
  - intros n q [Hn ->]%Hpage. cbn. rewrite zlen_sub by nia. lia.
  - done.
  - done.
Qed.

Lemma pager_open_spec_witness :
  no_panic (open sample_file) /\
  SourceOk (source sample_pager) /\ page_count sample_pager * page_size sample_pager = 1024.
Proof.
  assert (Hb : is_bytes sample_file) by (apply (bool_decide_unpack _); vm_compute; exact I).
  assert (Hz : zlen sample_file < 2 ^ 64) by (vm_compute; reflexivity).
  assert (Ho : open sample_file = Ok sample_pager) by (vm_compute; reflexivity).
  destruct (pager_open_spec (H0 := MemFile_laws) sample_file Hb Hz) as [H1 H2].
  destruct (H2 sample_pager Ho) as [H3 H4]. split_and!; [done|done|].
  apply H4. vm_compute. reflexivity.
Defined.

End Pager.
