(* ===== verification/Wal.v ===== *)
(** The write-ahead log ([src/src/pager/wal.rs] and the WAL half of
    [src/src/pager/write.rs]): the running checksum, the frame scanners of
    [WalReader::open] and [WritePager::attach_wal], the frame writer of
    [WritePager::commit_wal], the shared wal-index with its snapshots and
    reader marks, and the checkpointer.

    Files are the byte strings of the in-memory VFS. A loop over frames gets
    the file length as fuel: each turn consumes at least a frame header, and
    running out of fuel would be a panic, which the theorems exclude. *)

From S2P Require Import Prelude Header Vfs Pager.
Local Open Scope Z_scope.

Module Wal.

Definition WAL_HDR_LEN : Z := 32.
Definition FRAME_HDR_LEN : Z := 24.
Definition WAL_MAGIC : Z := 931071618.   (* 0x377f0682 *)

(** [NATIVE_BIG_ENDIAN] on a little-endian target. *)
Definition NATIVE_BIG_ENDIAN : bool := false.

(** ** The running checksum *)

Definition word (big_endian : bool) (l : bytes) : Z :=
  if big_endian then be_val l else le_val l.

(** [while i + 8 <= data.len()]: eight bytes a turn, a shorter rest is left. *)
Fixpoint checksum (big_endian : bool) (s0 s1 : Z) (data : bytes) : Z * Z :=
  match data with
  | b0 :: b1 :: b2 :: b3 :: b4 :: b5 :: b6 :: b7 :: rest =>
      let s0 := wrap 32 (wrap 32 (s0 + word big_endian [b0; b1; b2; b3]) + s1) in
      let s1 := wrap 32 (wrap 32 (s1 + word big_endian [b4; b5; b6; b7]) + s0) in
      checksum big_endian s0 s1 rest
  | _ => (s0, s1)
  end.

(** The checksum of a frame: its first eight header bytes, then the page. *)
Definition frame_checksum (be : bool) (ck : Z * Z) (head page : bytes) : Z * Z :=
  let '(c0, c1) := checksum be (fst ck) (snd ck) head in
  checksum be c0 c1 page.

(** ** The shared wal-index *)

Record IndexFrame : Type := mkIFrame { page_no : Z; commit_db_size : Z; f_data : bytes }.

Record WalIndex : Type := mkIndex {
  log : list IndexFrame;
  mx_frame : Z;
  salt : bytes;
  next_offset : Z;
  cksum : Z * Z;
  ix_page_size : Z;
  n_backfill : Z;
  ckpt_seq : Z;
  big_end_cksum : bool;
  generation : Z;
  readers : list Z
}.

Definition index_new : WalIndex :=
  mkIndex [] 0 (replicate 8 0) 0 (0, 0) 0 0 0 NATIVE_BIG_ENDIAN 0 [].

Definition set_n_backfill (ix : WalIndex) (n : Z) : WalIndex :=
  if n_backfill ix <? n then
    mkIndex (log ix) (mx_frame ix) (salt ix) (next_offset ix) (cksum ix) (ix_page_size ix) n
      (ckpt_seq ix) (big_end_cksum ix) (generation ix) (readers ix)
  else ix.

(** [restart_hdr]: salt-1 plus one, salt-2 remixed by an xorshift step. *)
Definition remix (s2 : Z) : Z :=
  let s2 := Z.lxor s2 (wrap 32 (Z.shiftl s2 13)) in
  let s2 := Z.lxor s2 (Z.shiftr s2 17) in
  let s2 := Z.lxor s2 (wrap 32 (Z.shiftl s2 5)) in
  wrap 32 (s2 + 2654435769).

Definition restart_salt (s : bytes) : bytes :=
  be_bytes 4 (wrap 32 (be_val (sub s 0 4) + 1)) ++ be_bytes 4 (remix (be_val (sub s 4 8))).

Definition restart_hdr (ix : WalIndex) : WalIndex :=
  mkIndex [] 0 (restart_salt (salt ix)) 0 (0, 0) (ix_page_size ix) 0 (wrap 32 (ckpt_seq ix + 1))
    NATIVE_BIG_ENDIAN (wrap 64 (generation ix + 1)) (readers ix).

(** [BTreeMap::insert] on the ascending association list of a [BTreeMap]. *)
Fixpoint bm_insert {A} (k : Z) (v : A) (l : list (Z * A)) : list (Z * A) :=
  match l with
  | [] => [(k, v)]
  | (k', v') :: l' =>
      if k <? k' then (k, v) :: l
      else if k =? k' then (k, v) :: l'
      else (k', v') :: bm_insert k v l'
  end.

(** The newest frame index (0-based) of each page in [log[lo..hi]]. *)
Fixpoint newest (frames : list IndexFrame) (i : Z) (acc : list (Z * Z)) : list (Z * Z) :=
  match frames with
  | [] => acc
  | f :: frames => newest frames (i + 1) (bm_insert (page_no f) i acc)
  end.

(** [.map(|(page_no, i)| (page_no, self.log[i].data.clone()))]. *)
Fixpoint frame_data (l : list IndexFrame) (safe : list (Z * Z)) : res (list (Z * bytes)) :=
  match safe with
  | [] => Ok []
  | (p, i) :: safe =>
      let* f := idx l i in
      let* rest := frame_data l safe in
      Ok ((p, f_data f) :: rest)
  end.

Definition backfill_pages (ix : WalIndex) (mx_safe : Z) : res (list (Z * bytes)) :=
  let lo := n_backfill ix in
  let hi := Z.min (mx_frame ix) (zlen (log ix)) in
  if hi <=? lo then Ok []
  else
    let* frames := slice (log ix) lo hi in
    frame_data (log ix) (filter (fun x : Z * Z => snd x + 1 <= mx_safe) (newest frames lo [])).

Definition writer_state (ix : WalIndex) : option (Z * (Z * Z) * bytes * Z) :=
  if mx_frame ix =? 0 then None
  else Some (next_offset ix, cksum ix, salt ix, ix_page_size ix).

Definition index_is_empty (ix : WalIndex) : bool := mx_frame ix =? 0.

(** [log[..hi].iter().rev().find(..)]. *)
Definition find_rev (P : IndexFrame -> bool) (l : list IndexFrame) : option IndexFrame :=
  snd <$> list_find (fun f => P f = true) (rev l).

Definition find_frame (ix : WalIndex) (p snapshot_mx : Z) : option bytes :=
  let hi := Z.min snapshot_mx (zlen (log ix)) in
  f_data <$> find_rev (fun f => page_no f =? p) (take (Z.to_nat hi) (log ix)).

Definition snapshot_db_size (ix : WalIndex) (snapshot_mx : Z) : option Z :=
  let hi := Z.min snapshot_mx (zlen (log ix)) in
  commit_db_size <$> find_rev (fun f => negb (commit_db_size f =? 0)) (take (Z.to_nat hi) (log ix)).

Definition reset (ix : WalIndex) (s : bytes) : WalIndex :=
  mkIndex [] 0 s 0 (0, 0) 0 0 0 NATIVE_BIG_ENDIAN (wrap 64 (generation ix + 1)) (readers ix).

Definition with_readers (ix : WalIndex) (r : list Z) : WalIndex :=
  mkIndex (log ix) (mx_frame ix) (salt ix) (next_offset ix) (cksum ix) (ix_page_size ix)
    (n_backfill ix) (ckpt_seq ix) (big_end_cksum ix) (generation ix) r.

Definition register_reader (ix : WalIndex) (m : Z) : WalIndex := with_readers ix (readers ix ++ [m]).

(** [Vec::swap_remove]. *)
Definition swap_remove (l : list Z) (pos : nat) : list Z :=
  match last l with
  | None => l
  | Some x => removelast (<[pos := x]> l)
  end.

Definition unregister_reader (ix : WalIndex) (m : Z) : WalIndex :=
  match list_find (fun x => x = m) (readers ix) with
  | Some (pos, _) => with_readers ix (swap_remove (readers ix) pos)
  | None => ix
  end.

Definition min_reader_mark (ix : WalIndex) : option Z :=
  match readers ix with
  | [] => None
  | r :: rs => Some (fold_left Z.min rs r)
  end.

Definition full_db_size (ix : WalIndex) : Z :=
  default 0 (commit_db_size <$> find_rev (fun f => negb (commit_db_size f =? 0)) (log ix)).

Record WalSnapshot : Type := mkSnap { snap_mx : Z; snap_generation : Z }.

Definition snapshot (ix : WalIndex) : WalSnapshot := mkSnap (mx_frame ix) (generation ix).

Definition append (ix : WalIndex) (p db : Z) (s d : bytes) (off : Z) (ck : Z * Z) (ps : Z) : WalIndex :=
  let l := log ix ++ [mkIFrame p db d] in
  mkIndex l (wrap 32 (zlen l)) s off ck ps (n_backfill ix) (ckpt_seq ix) (big_end_cksum ix)
    (generation ix) (readers ix).

Definition seed (ix : WalIndex) (frames : list IndexFrame) (s : bytes) (off : Z) (ck : Z * Z)
    (ps seq : Z) (be : bool) : WalIndex :=
  mkIndex frames (wrap 32 (zlen frames)) s off ck ps 0 seq be (generation ix) (readers ix).

(** ** Scanning the log *)

(** [be32] on a fixed-size header array. *)
Definition be32 (b : bytes) (at_ : Z) : Z := be_val (sub b at_ (at_ + 4)).

(** Is the frame with header [fhdr] and content [page] the valid successor of
    a frame that left the checksum at [ck]? The new checksum if so. *)
Definition frame_valid (be : bool) (s : bytes) (ck : Z * Z) (fhdr page : bytes) : option (Z * Z) :=
  if negb (bool_decide (sub fhdr 8 16 = s)) then None
  else
    let c := frame_checksum be ck (sub fhdr 0 8) page in
    if negb (fst c =? be32 fhdr 16) || negb (snd c =? be32 fhdr 20) then None else Some c.

(** The loop state of [attach_wal]. *)
Record Scan : Type := mkScan {
  s_ck : Z * Z;
  s_off : Z;
  s_log : list IndexFrame;
  s_committed_len : Z;
  s_committed_off : Z;
  s_committed_ck : Z * Z;
  s_db_size : Z
}.

Definition scan_push (st : Scan) (c : Z * Z) (fhdr page : bytes) (frame_len : Z) : Scan :=
  let commit := be32 fhdr 4 in
  let l := s_log st ++ [mkIFrame (be32 fhdr 0) commit page] in
  let off := s_off st + frame_len in
  if negb (commit =? 0) then mkScan c off l (zlen l) off c commit
  else mkScan c off l (s_committed_len st) (s_committed_off st) (s_committed_ck st) (s_db_size st).

Fixpoint scan_loop (fuel : nat) (wal : bytes) (size ps : Z) (be : bool) (s : bytes) (st : Scan) : res Scan :=
  let frame_len := FRAME_HDR_LEN + ps in
  if s_off st + frame_len <=? size then
    match fuel with
    | O => Panic
    | S fuel =>
        let* fhdr := Vfs.mem_read wal FRAME_HDR_LEN (s_off st) in
        let* page := Vfs.mem_read wal ps (s_off st + FRAME_HDR_LEN) in
        match frame_valid be s (s_ck st) fhdr page with
        | None => Ok st
        | Some c => scan_loop fuel wal size ps be s (scan_push st c fhdr page frame_len)
        end
    end
  else Ok st.

(** A connection's WAL state; the index itself is passed along. *)
Record WalRuntime : Type := mkRuntime {
  rt_snapshot : WalSnapshot;
  rt_registered_mark : option Z;
  rt_db_size : Z;
  rt_salt : bytes
}.

Definition attach_from_index_only (ix : WalIndex) : option WalRuntime :=
  let snap := snapshot ix in
  let db := default 0 (snapshot_db_size ix (snap_mx snap)) in
  let s := match writer_state ix with Some (_, _, s, _) => s | None => replicate 8 0 end in
  if db =? 0 then None else Some (mkRuntime snap None db s).

Definition attach_wal (wal : bytes) (ix : WalIndex) (ps : Z) : res (option WalRuntime * WalIndex) :=
  let size := zlen wal in
  if size <? WAL_HDR_LEN then Ok (attach_from_index_only ix, ix)
  else
    let* hdr := Vfs.mem_read wal WAL_HDR_LEN 0 in
    let magic := be32 hdr 0 in
    if negb (Z.land magic 4294967294 =? WAL_MAGIC) then Ok (attach_from_index_only ix, ix)
    else
      let be := Z.land magic 1 =? 1 in
      let wal_ps := be32 hdr 8 in
      if negb (wal_ps =? ps) then Ok (attach_from_index_only ix, ix)
      else
        let seq := be32 hdr 12 in
        let s := sub hdr 16 24 in
        let h := checksum be 0 0 (sub hdr 0 24) in
        if negb (fst h =? be32 hdr 24) || negb (snd h =? be32 hdr 28)
        then Ok (attach_from_index_only ix, ix)
        else
          let* st := scan_loop (length wal) wal size ps be s
                       (mkScan h WAL_HDR_LEN [] 0 WAL_HDR_LEN h 0) in
          if s_committed_len st =? 0 then Ok (None, ix)
          else
            let l := take (Z.to_nat (s_committed_len st)) (s_log st) in
            let matches_disk :=
              match writer_state ix with
              | Some (off, _, s', ps') =>
                  (off =? s_committed_off st) && bool_decide (s' = s) && (ps' =? ps)
              | None => false
              end in
            let ix := if matches_disk then ix
                      else seed ix l s (s_committed_off st) (s_committed_ck st) ps seq be in
            Ok (Some (mkRuntime (snapshot ix) None (s_db_size st) s), ix).

(** ** [WalReader]: the log overlaid on the main file *)

Record WalReader : Type := mkReader {
  r_main : bytes;
  r_header : Header.DatabaseHeader;
  r_page_size : Z;
  r_db_size : Z;
  r_frames : gmap Z bytes
}.

(** The loop state of [WalReader::open]. *)
Record Overlay : Type := mkOverlay {
  o_ck : Z * Z;
  o_off : Z;
  o_pending : list (Z * bytes);
  o_frames : gmap Z bytes;
  o_db_size : Z
}.

(** [for (p, data) in pending.drain(..) { frames.insert(p, data) }]. *)
Definition publish (pending : list (Z * bytes)) (m : gmap Z bytes) : gmap Z bytes :=
  fold_left (fun m x => <[x.1 := x.2]> m) pending m.

Definition overlay_push (o : Overlay) (c : Z * Z) (fhdr page : bytes) (frame_len : Z) : Overlay :=
  let db := be32 fhdr 4 in
  let pending := o_pending o ++ [(be32 fhdr 0, page)] in
  let off := o_off o + frame_len in
  if negb (db =? 0) then mkOverlay c off [] (publish pending (o_frames o)) db
  else mkOverlay c off pending (o_frames o) (o_db_size o).

Fixpoint reader_loop (fuel : nat) (wal : bytes) (size ps : Z) (be : bool) (s : bytes) (o : Overlay) : res Overlay :=
  let frame_len := FRAME_HDR_LEN + ps in
  if o_off o + frame_len <=? size then
    match fuel with
    | O => Panic
    | S fuel =>
        let* fhdr := Vfs.mem_read wal FRAME_HDR_LEN (o_off o) in
        let* page := Vfs.mem_read wal ps (o_off o + FRAME_HDR_LEN) in
        match frame_valid be s (o_ck o) fhdr page with
        | None => Ok o
        | Some c => reader_loop fuel wal size ps be s (overlay_push o c fhdr page frame_len)
        end
    end
  else Ok o.

(** The validated log: its frames, the size of the last commit and the page
    size, both 0 when there is no log. *)
Definition read_log (wal : bytes) : res (gmap Z bytes * Z * Z) :=
  let size := zlen wal in
  if WAL_HDR_LEN <=? size then
    let* hdr := Vfs.mem_read wal WAL_HDR_LEN 0 in
    let magic := be32 hdr 0 in
    if negb (Z.land magic 4294967294 =? WAL_MAGIC) then Err (ECorrupt "bad WAL magic")
    else
      let be := Z.land magic 1 =? 1 in
      let ps := be32 hdr 8 in
      if (ps <? 512) || negb (is_power_of_two ps) then Err (ECorrupt "bad WAL page size")
      else
        let s := sub hdr 16 24 in
        let h := checksum be 0 0 (sub hdr 0 24) in
        if negb (fst h =? be32 hdr 24) || negb (snd h =? be32 hdr 28)
        then Err (ECorrupt "WAL header checksum mismatch")
        else
          let* o := reader_loop (length wal) wal size ps be s (mkOverlay h WAL_HDR_LEN [] ∅ 0) in
          Ok (o_frames o, o_db_size o, ps)
  else Ok (∅, 0, 0).

Definition reader_open (main wal : bytes) : res WalReader :=
  let* (frames_commit, wal_page_size) := read_log wal in
  let '(frames, commit) := frames_commit in
  let* page1 := match frames !! 1 with
                | Some p => Ok p
                | None =>
                    let want := Z.min (zlen main) (Z.max Header.HEADER_LEN 512) in
                    Vfs.mem_read main want 0
                end in
  let* header := Header.parse page1 in
  let ps := if negb (wal_page_size =? 0) then wal_page_size else Header.page_size header in
  let db := if negb (commit =? 0) then commit else wrap 32 (zlen main / ps) in
  Ok (mkReader main header ps db frames).

Definition reader_page (r : WalReader) (n : Z) : res Pager.Page :=
  if (n =? 0) || (r_db_size r <? n) then Pager.out_of_range n (r_db_size r)
  else
    match r_frames r !! n with
    | Some d => Ok (Pager.mkPage n d)
    | None =>
        let* buf := Vfs.mem_read (r_main r) (r_page_size r) ((n - 1) * r_page_size r) in
        Ok (Pager.mkPage n buf)
    end.

(** ** Committing: appending frames *)

Definition wal_header_front (be : bool) (ps seq : Z) (s : bytes) : bytes :=
  be_bytes 4 (Z.lor WAL_MAGIC (if be then 1 else 0)) ++ be_bytes 4 3007000
    ++ be_bytes 4 ps ++ be_bytes 4 seq ++ s.

Definition wal_header (be : bool) (ps seq : Z) (s : bytes) : bytes :=
  let h := checksum be 0 0 (wal_header_front be ps seq s) in
  wal_header_front be ps seq s ++ be_bytes 4 (fst h) ++ be_bytes 4 (snd h).

Definition frame_head (p db : Z) : bytes := be_bytes 4 p ++ be_bytes 4 db.

Definition frame_bytes (p db : Z) (s : bytes) (ck : Z * Z) (d : bytes) : bytes :=
  frame_head p db ++ s ++ be_bytes 4 (fst ck) ++ be_bytes 4 (snd ck) ++ d.

(** One staged frame: page, commit size, bytes, next offset, checksum. *)
Record Appended : Type := mkAppended { a_page : Z; a_db : Z; a_data : bytes; a_next : Z; a_ck : Z * Z }.

(** [for (i, (page_no, data)) in pages.iter().enumerate()]. *)
Fixpoint write_frames (pages : list (Z * bytes)) (i n new_count ps : Z) (be : bool) (s : bytes)
    (file : bytes) (off : Z) (ck : Z * Z) : res (bytes * list Appended) :=
  match pages with
  | [] => Ok (file, [])
  | (p, d) :: pages =>
      let db := if i + 1 =? n then new_count else 0 in
      let c := frame_checksum be ck (frame_head p db) d in
      let* file := Vfs.mem_write file (frame_bytes p db s c d) off in
      let off := off + (FRAME_HDR_LEN + ps) in
      let* (file, rest) := write_frames pages (i + 1) n new_count ps be s file off c in
      Ok (file, mkAppended p db d off c :: rest)
  end.

Definition append_all (ix : WalIndex) (s : bytes) (ps : Z) (l : list Appended) : WalIndex :=
  fold_left (fun ix a => append ix (a_page a) (a_db a) s (a_data a) (a_next a) (a_ck a) ps) l ix.

(** [walRestartLog]. *)
Definition maybe_restart (ix : WalIndex) : WalIndex :=
  if (0 <? mx_frame ix) && (n_backfill ix =? mx_frame ix) &&
     match min_reader_mark ix with None => true | Some _ => false end
  then restart_hdr ix else ix.

(** Where and how to append: offset, running checksum, salts and byte order. *)
Record Cursor : Type := mkCursor { k_off : Z; k_ck : Z * Z; k_salt : bytes; k_be : bool }.

(** Continue the published log, or write a fresh header into an empty one. *)
Definition open_log (file : bytes) (ix : WalIndex) (conn_salt : bytes) (ps : Z) : res (bytes * Cursor) :=
  match writer_state ix with
  | Some (off, ck, s, _) => Ok (file, mkCursor off ck s (big_end_cksum ix))
  | None =>
      let s := if bool_decide (salt ix = replicate 8 0) then conn_salt else salt ix in
      let be := NATIVE_BIG_ENDIAN in
      let* file := Vfs.mem_write file (wal_header be ps (ckpt_seq ix) s) 0 in
      Ok (file, mkCursor WAL_HDR_LEN (checksum be 0 0 (wal_header_front be ps (ckpt_seq ix) s)) s be)
  end.

(** The WAL half of [commit_wal]: restart the log when it is exhausted, write
    a header if the log is empty, append the frames, publish them. Returns the
    log file, the index and the salts in force. *)
Definition commit_frames (file : bytes) (ix : WalIndex) (conn_salt : bytes)
    (pages : list (Z * bytes)) (new_count ps : Z) : res (bytes * WalIndex * bytes) :=
  let ix := maybe_restart ix in
  let* (file, k) := open_log file ix conn_salt ps in
  let* (file, appended) :=
    write_frames pages 0 (zlen pages) new_count ps (k_be k) (k_salt k) file (k_off k) (k_ck k) in
  Ok (file, append_all ix (k_salt k) ps appended, k_salt k).

(** ** Checkpointing *)

Inductive CheckpointMode : Type := Passive | Full | Restart | Truncate.

Definition mode_rank (m : CheckpointMode) : Z :=
  match m with Passive => 0 | Full => 1 | Restart => 2 | Truncate => 3 end.

(** The parts of a [WritePager] a checkpoint changes; the read cache is
    dropped whenever the main file changes. *)
Record Ckpt : Type := mkCkpt {
  c_main : bytes;
  c_wal : option bytes;
  c_index : WalIndex;
  c_rt : WalRuntime;
  c_disk_pages : Z;
  c_cache_clear : bool
}.

(** The copy loop over [backfill_pages]. *)
Fixpoint copy_pages (pages : list (Z * bytes)) (full ps : Z) (main : bytes) : res bytes :=
  match pages with
  | [] => Ok main
  | (p, d) :: pages =>
      if (p =? 0) || (full <? p) then copy_pages pages full ps main
      else let* main := Vfs.mem_write main d ((p - 1) * ps) in copy_pages pages full ps main
  end.

Definition mx_safe_of (mx : Z) (min_mark : option Z) : Z :=
  match min_mark with
  | Some m => if m <? mx then m else mx
  | None => mx
  end.

(** The backfill phase. *)
Definition backfill (ps : Z) (c : Ckpt) : res Ckpt :=
  let ix := c_index c in
  let mx := mx_frame ix in
  let full := full_db_size ix in
  if n_backfill ix <? mx then
    let mx_safe := mx_safe_of mx (min_reader_mark ix) in
    if n_backfill ix <? mx_safe then
      let* pages := backfill_pages ix mx_safe in
      let* main := copy_pages pages full ps (c_main c) in
      let '(main, disk) :=
        if mx_safe =? mx then (Vfs.resize0 main (full * ps), full) else (main, c_disk_pages c) in
      Ok (mkCkpt main (c_wal c) (set_n_backfill ix mx_safe) (c_rt c) disk true)
    else Ok c
  else Ok c.

(** The mode-dependent phase: whether the run was blocked, and the restart. *)
Definition finish (mode : CheckpointMode) (mx : Z) (c : Ckpt) : bool * Ckpt :=
  let ix := c_index c in
  match mode with
  | Passive => (false, c)
  | _ =>
      if n_backfill ix <? mx then (true, c)
      else if mode_rank Restart <=? mode_rank mode then
        match min_reader_mark ix with
        | Some _ => (true, c)
        | None =>
            if mode_rank mode =? mode_rank Truncate then
              (false, mkCkpt (c_main c) ((fun _ => []) <$> c_wal c) (restart_hdr ix) (c_rt c)
                        (c_disk_pages c) (c_cache_clear c))
            else (false, c)
        end
      else (false, c)
  end.

(** The connection's own view afterwards. *)
Definition refresh (full : Z) (c : Ckpt) : Ckpt :=
  let rt := c_rt c in
  let rt := match rt_registered_mark rt with
            | None => mkRuntime (snapshot (c_index c)) None
                        (if negb (full =? 0) then full else rt_db_size rt) (rt_salt rt)
            | Some _ => rt
            end in
  let rt := if bool_decide (salt (c_index c) = replicate 8 0) then rt
            else mkRuntime (rt_snapshot rt) (rt_registered_mark rt) (rt_db_size rt) (salt (c_index c)) in
  mkCkpt (c_main c) (c_wal c) (c_index c) rt (c_disk_pages c) (c_cache_clear c).

Definition checkpoint_locked (mode : CheckpointMode) (ps : Z) (c : Ckpt)
    : res (bool * Z * Z * Ckpt) :=
  let mx := mx_frame (c_index c) in
  let full := full_db_size (c_index c) in
  let* c := backfill ps c in
  let '(busy, c) := finish mode mx c in
  let c := refresh full c in
  Ok (busy, mx_frame (c_index c), n_backfill (c_index c), c).

End Wal.
