(* ===== verification/WalProps.v ===== *)
(** Correctness of the write-ahead log model of [Wal]: scanning reads back
    what was appended, commits are atomic under a crash between writes, the
    read-only overlay agrees with the index, and checkpoints preserve the
    snapshots of pinned readers. *)

From S2P Require Import Prelude Header Vfs Image Pager Wal.
Import Wal.
Local Open Scope Z_scope.

Module WalProps.

(** ** Checksums *)

Definition is_ck (c : Z * Z) : Prop := is_u32 (fst c) /\ is_u32 (snd c).

Lemma checksum_range be : forall d s0 s1, is_u32 s0 -> is_u32 s1 -> is_ck (checksum be s0 s1 d).
Proof.
  fix IH 1. intros d s0 s1 H0 H1.
  destruct d as [|b0 [|b1 [|b2 [|b3 [|b4 [|b5 [|b6 [|b7 d]]]]]]]]; cbn [checksum]; try by split.
  apply IH; apply wrap_range; lia.
Qed.

Lemma frame_checksum_range be ck h d : is_ck ck -> is_ck (frame_checksum be ck h d).
Proof.
  intros [H0 H1]. unfold frame_checksum. pose proof (checksum_range be h _ _ H0 H1) as [H2 H3].
  destruct (checksum be (fst ck) (snd ck) h) as [c0 c1]. by apply checksum_range.
Qed.

(** ** The layout of the log *)

(** Frames one after the other, each sealing the checksum so far. *)
Fixpoint frames_bytes (be : bool) (s : bytes) (ck : Z * Z) (fs : list IndexFrame) : bytes :=
  match fs with
  | [] => []
  | f :: fs =>
      let c := frame_checksum be ck (frame_head (page_no f) (commit_db_size f)) (f_data f) in
      frame_bytes (page_no f) (commit_db_size f) s c (f_data f) ++ frames_bytes be s c fs
  end.

Fixpoint frames_ck (be : bool) (ck : Z * Z) (fs : list IndexFrame) : Z * Z :=
  match fs with
  | [] => ck
  | f :: fs =>
      frames_ck be (frame_checksum be ck (frame_head (page_no f) (commit_db_size f)) (f_data f)) fs
  end.

Definition frame_ok (ps : Z) (f : IndexFrame) : Prop :=
  is_u32 (page_no f) /\ is_u32 (commit_db_size f) /\ zlen (f_data f) = ps.

(** The bytes after the log do not start with a frame of this generation. *)
Definition tail_bad (s : bytes) (ps : Z) (tail : bytes) : Prop :=
  zlen tail < FRAME_HDR_LEN + ps \/ sub tail 8 16 <> s.

Lemma zlen_frame_bytes p db s ck d : zlen s = 8 -> zlen (frame_bytes p db s ck d) = 24 + zlen d.
Proof.
  intros Hs. unfold frame_bytes, frame_head. rewrite !zlen_app, !zlen_be_bytes, Hs. lia.
Qed.

Lemma zlen_frames_bytes be s ps fs ck : zlen s = 8 -> Forall (frame_ok ps) fs ->
  zlen (frames_bytes be s ck fs) = (24 + ps) * zlen fs.
Proof.
  intros Hs Hf. revert ck. induction Hf as [|f fs (_ & _ & Hd) _ IH]; intros ck; cbn [frames_bytes]; [unfold zlen; simpl length; lia|].
  rewrite zlen_app, zlen_frame_bytes, IH, zlen_cons by done. lia.
Qed.

Lemma frames_bytes_app be s fs gs ck :
  frames_bytes be s ck (fs ++ gs) = frames_bytes be s ck fs ++ frames_bytes be s (frames_ck be ck fs) gs.
Proof.
  revert ck. induction fs as [|f fs IH]; intros ck; [done|]. cbn [frames_bytes frames_ck app].
  by rewrite IH, app_assoc.
Qed.

Lemma frames_ck_app be fs gs ck : frames_ck be ck (fs ++ gs) = frames_ck be (frames_ck be ck fs) gs.
Proof. revert ck. induction fs as [|f fs IH]; intros ck; [done|]. cbn [frames_ck app]. by rewrite IH. Qed.

Lemma frames_ck_range be fs ck : is_ck ck -> is_ck (frames_ck be ck fs).
Proof.
  revert ck. induction fs as [|f fs IH]; intros ck Hc; [done|]. cbn [frames_ck].
  by apply IH, frame_checksum_range.
Qed.

(** The header part of a frame and what the scanner extracts from it. *)
Definition frame_hdr (p db : Z) (s : bytes) (ck : Z * Z) : bytes :=
  frame_head p db ++ s ++ be_bytes 4 (fst ck) ++ be_bytes 4 (snd ck).

Lemma frame_hdr_parts p db s ck : zlen s = 8 -> is_u32 p -> is_u32 db -> is_ck ck ->
  zlen (frame_hdr p db s ck) = 24 /\
  sub (frame_hdr p db s ck) 0 8 = frame_head p db /\ sub (frame_hdr p db s ck) 8 16 = s /\
  be32 (frame_hdr p db s ck) 0 = p /\ be32 (frame_hdr p db s ck) 4 = db /\
  be32 (frame_hdr p db s ck) 16 = fst ck /\ be32 (frame_hdr p db s ck) 20 = snd ck.
Proof.
  intros Hs Hp Hdb [H0 H1]. unfold be32.
  set (cs := [be_bytes 4 p; be_bytes 4 db; s; be_bytes 4 (fst ck); be_bytes 4 (snd ck)]).
  assert (frame_hdr p db s ck = concat cs ++ []) as E.
  { unfold frame_hdr, frame_head, cs. cbn [concat]. by rewrite !app_nil_r, <- !app_assoc. }
  rewrite E.
  assert (forall i c a b, cs !! i = Some c -> a = zlen (concat (take i cs)) -> b = a + zlen c ->
    sub (concat cs ++ []) a b = c) as Hc by (intros; by eapply sub_concat).
  assert (zlen (concat cs) = 24) as Hl by (unfold cs; cbn [concat]; rewrite !zlen_app, !zlen_be_bytes, Hs; done).
  rewrite app_nil_r in *. split_and!; [done|..].
  - unfold cs. cbn [concat]. rewrite app_nil_r. rewrite (app_assoc (be_bytes 4 p)).
    apply (sub_app_exact [] (frame_head p db) _ 0 8); [done|]. unfold frame_head. rewrite zlen_app, !zlen_be_bytes. done.
  - apply (Hc 2%nat s); [done| |by rewrite Hs]. unfold cs. cbn [take concat]. rewrite !zlen_app, !zlen_be_bytes. done.
  - rewrite (Hc 0%nat (be_bytes 4 p)); [by apply be32_bytes|done|done|by rewrite zlen_be_bytes].
  - rewrite (Hc 1%nat (be_bytes 4 db)); [by apply be32_bytes|done| |by rewrite zlen_be_bytes].
    unfold cs. cbn [take concat]. rewrite !zlen_app, !zlen_be_bytes. done.
  - rewrite (Hc 3%nat (be_bytes 4 (fst ck))); [by apply be32_bytes|done| |by rewrite zlen_be_bytes].
    unfold cs. cbn [take concat]. rewrite !zlen_app, !zlen_be_bytes, Hs. done.
  - rewrite (Hc 4%nat (be_bytes 4 (snd ck))); [by apply be32_bytes|done| |by rewrite zlen_be_bytes].
    unfold cs. cbn [take concat]. rewrite !zlen_app, !zlen_be_bytes, Hs. done.
Qed.

(** ** Scanning *)

Lemma frame_valid_ok be s ck p db d : zlen s = 8 -> is_u32 p -> is_u32 db -> is_ck ck ->
  let c := frame_checksum be ck (frame_head p db) d in
  frame_valid be s ck (frame_hdr p db s c) d = Some c.
Proof.
  intros Hs Hp Hdb Hck c. pose proof (frame_checksum_range be ck (frame_head p db) d Hck) as Hc. fold c in Hc.
  destruct (frame_hdr_parts p db s c Hs Hp Hdb Hc) as (_ & E8 & E16 & _ & _ & E0 & E1).
  unfold frame_valid. rewrite E8, E16, E0, E1. rewrite bool_decide_true by done. cbn [negb]. fold c.
  by rewrite !Z.eqb_refl.
Qed.

(** The state after a valid frame. *)
Definition push1 (be : bool) (ps : Z) (st : Scan) (f : IndexFrame) : Scan :=
  let c := frame_checksum be (s_ck st) (frame_head (page_no f) (commit_db_size f)) (f_data f) in
  let off := s_off st + (FRAME_HDR_LEN + ps) in
  let l := s_log st ++ [f] in
  if negb (commit_db_size f =? 0) then mkScan c off l (zlen l) off c (commit_db_size f)
  else mkScan c off l (s_committed_len st) (s_committed_off st) (s_committed_ck st) (s_db_size st).

Definition scan_ext (be : bool) (ps : Z) (st : Scan) (fs : list IndexFrame) : Scan :=
  fold_left (push1 be ps) fs st.

Lemma read_frame pre f s ck rest ps : zlen s = 8 -> frame_ok ps f ->
  zlen (pre ++ frame_bytes (page_no f) (commit_db_size f) s ck (f_data f) ++ rest) < 2 ^ 64 ->
  let wal := pre ++ frame_bytes (page_no f) (commit_db_size f) s ck (f_data f) ++ rest in
  zlen pre + (FRAME_HDR_LEN + ps) <= zlen wal /\
  Vfs.mem_read wal FRAME_HDR_LEN (zlen pre) = Ok (frame_hdr (page_no f) (commit_db_size f) s ck) /\
  Vfs.mem_read wal ps (zlen pre + FRAME_HDR_LEN) = Ok (f_data f).
Proof.
  intros Hs (Hp & Hdb & Hd) Hz wal. pose proof (zlen_nonneg rest). pose proof (zlen_nonneg pre).
  assert (frame_bytes (page_no f) (commit_db_size f) s ck (f_data f)
          = frame_hdr (page_no f) (commit_db_size f) s ck ++ f_data f) as E.
  { unfold frame_bytes, frame_hdr. by rewrite <- !app_assoc. }
  assert (zlen (frame_hdr (page_no f) (commit_db_size f) s ck) = 24) as H24.
  { unfold frame_hdr, frame_head. rewrite !zlen_app, !zlen_be_bytes, Hs. done. }
  split_and!.
  - unfold wal. rewrite !zlen_app, zlen_frame_bytes by done. unfold FRAME_HDR_LEN. lia.
  - unfold wal in *. rewrite E in *. rewrite <- app_assoc in *. apply mem_read_app; [done|done|].
    by rewrite H24.
  - unfold wal in *. rewrite E in *. rewrite <- app_assoc in *. rewrite app_assoc in *.
    apply mem_read_app; [done| |done]. rewrite zlen_app, H24. done.
Qed.

Lemma scan_frames be s ps fs : zlen s = 8 -> 0 <= ps -> Forall (frame_ok ps) fs ->
  forall fuel st pre tail, is_ck (s_ck st) -> s_off st = zlen pre ->
  let wal := pre ++ frames_bytes be s (s_ck st) fs ++ tail in
  zlen wal < 2 ^ 64 -> tail_bad s ps tail -> (length wal - length pre < fuel)%nat ->
  scan_loop fuel wal (zlen wal) ps be s st = Ok (scan_ext be ps st fs).
Proof.
  intros Hs Hps Hf. induction Hf as [|f fs Hfo Hf IH]; intros fuel st pre tail Hck Hoff wal Hz Hbad Hfuel.
  - subst wal. cbn [frames_bytes app] in *. destruct fuel as [|fuel]; [lia|]. cbn [scan_loop]. rewrite Hoff.
    rewrite zlen_app in *. pose proof (zlen_nonneg pre).
    destruct (Z.leb_spec (zlen pre + (FRAME_HDR_LEN + ps)) (zlen pre + zlen tail)) as [Hle|]; [|done].
    destruct Hbad as [|Hbad]; [lia|]. unfold FRAME_HDR_LEN in *.
    rewrite Vfs.mem_read_Ok by (rewrite ?zlen_app; lia). bind_step.
    rewrite Vfs.mem_read_Ok by (rewrite ?zlen_app; lia). bind_step.
    unfold frame_valid. rewrite bool_decide_false; [done|]. intros E. apply Hbad. rewrite <- E.
    unfold sub, zlen. rewrite drop_app_length' by lia. replace (Z.to_nat (16 - 8)) with 8%nat by lia.
    replace (Z.to_nat 8) with 8%nat by lia. rewrite skipn_firstn_comm.
    rewrite take_take. f_equal. lia.
  - subst wal. cbn [frames_bytes] in *.
    set (c := frame_checksum be (s_ck st) (frame_head (page_no f) (commit_db_size f)) (f_data f)) in *.
    assert (is_ck c) as Hcc by (by apply frame_checksum_range).
    destruct Hfo as (Hp & Hdb & Hd).
    rewrite <- app_assoc in *. set (rest := frames_bytes be s c fs ++ tail) in *.
    destruct (read_frame pre f s c rest ps Hs (conj Hp (conj Hdb Hd)) Hz) as (Hle & Hh & Hpage).
    destruct fuel as [|fuel]; [lia|]. cbn [scan_loop]. rewrite Hoff.
    destruct (Z.leb_spec (zlen pre + (FRAME_HDR_LEN + ps))
                (zlen (pre ++ frame_bytes (page_no f) (commit_db_size f) s c (f_data f) ++ rest))); [|lia].
    rewrite Hh. bind_step. rewrite Hpage. bind_step.
    unfold c at 1. rewrite frame_valid_ok by done. fold c.
    destruct (frame_hdr_parts _ _ s c Hs Hp Hdb Hcc) as (_ & _ & _ & Ep & Edb & _).
    assert (scan_push st c (frame_hdr (page_no f) (commit_db_size f) s c) (f_data f) (FRAME_HDR_LEN + ps)
            = push1 be ps st f) as ->.
    { unfold scan_push, push1. rewrite Ep, Edb. fold c. by destruct f. }
    unfold scan_ext. cbn [fold_left]. fold (scan_ext be ps (push1 be ps st f) fs).
    assert (s_ck (push1 be ps st f) = c) as Eck by (unfold push1; by destruct (negb _)).
    specialize (IH fuel (push1 be ps st f)
      (pre ++ frame_bytes (page_no f) (commit_db_size f) s c (f_data f)) tail).
    cbv zeta in IH. rewrite Eck, <- app_assoc in IH. fold rest in IH. apply IH; try done.
    + rewrite zlen_app, zlen_frame_bytes, Hd by done. unfold push1. rewrite Hoff. by destruct (negb _).
    + pose proof (zlen_frame_bytes (page_no f) (commit_db_size f) s c (f_data f) Hs) as E.
      unfold zlen in E. rewrite !length_app in *. lia.
Qed.

Lemma scan_ext_app be ps st fs gs : scan_ext be ps st (fs ++ gs) = scan_ext be ps (scan_ext be ps st fs) gs.
Proof. unfold scan_ext. by rewrite fold_left_app. Qed.

Lemma push1_fields be ps st f :
  s_log (push1 be ps st f) = s_log st ++ [f] /\ s_off (push1 be ps st f) = s_off st + (24 + ps) /\
  s_ck (push1 be ps st f) = frames_ck be (s_ck st) [f].
Proof. unfold push1. by destruct (negb _). Qed.

Lemma scan_ext_fields be ps fs : forall st,
  s_log (scan_ext be ps st fs) = s_log st ++ fs /\ s_off (scan_ext be ps st fs) = s_off st + (24 + ps) * zlen fs /\
  s_ck (scan_ext be ps st fs) = frames_ck be (s_ck st) fs.
Proof.
  induction fs as [|f fs IH]; intros st; cbn [scan_ext fold_left].
  - rewrite app_nil_r. split_and!; [done| |done]. unfold zlen. simpl. lia.
  - fold (scan_ext be ps (push1 be ps st f) fs). destruct (IH (push1 be ps st f)) as (-> & -> & ->).
    destruct (push1_fields be ps st f) as (-> & -> & ->). rewrite <- app_assoc, zlen_cons.
    split_and!; [done|lia|done].
Qed.

(** Frames of a transaction that did not commit change nothing. *)
Lemma scan_ext_uncommitted be ps us : Forall (fun f => commit_db_size f = 0) us -> forall st,
  s_committed_len (scan_ext be ps st us) = s_committed_len st /\
  s_committed_off (scan_ext be ps st us) = s_committed_off st /\
  s_committed_ck (scan_ext be ps st us) = s_committed_ck st /\
  s_db_size (scan_ext be ps st us) = s_db_size st.
Proof.
  intros Hu. induction Hu as [|f us Hf _ IH]; intros st; [done|]. cbn [scan_ext fold_left].
  fold (scan_ext be ps (push1 be ps st f) us). destruct (IH (push1 be ps st f)) as (-> & -> & -> & ->).
  unfold push1. by rewrite Hf.
Qed.

(** A log that ends with a commit frame, or is empty. *)
Definition committed (fs : list IndexFrame) : Prop :=
  fs = [] \/ exists gs f, fs = gs ++ [f] /\ commit_db_size f <> 0.

Definition last_db (fs : list IndexFrame) : Z :=
  default 0 (commit_db_size <$> last fs).

Definition scan_start (h : Z * Z) : Scan := mkScan h WAL_HDR_LEN [] 0 WAL_HDR_LEN h 0.

Lemma scan_committed be ps h cs us : committed cs -> Forall (fun f => commit_db_size f = 0) us ->
  let st := scan_ext be ps (scan_start h) (cs ++ us) in
  s_committed_len st = zlen cs /\ s_committed_off st = 32 + (24 + ps) * zlen cs /\
  s_committed_ck st = frames_ck be h cs /\ s_db_size st = last_db cs /\ take (length cs) (s_log st) = cs.
Proof.
  intros Hc Hu st. subst st. rewrite scan_ext_app.
  destruct (scan_ext_uncommitted be ps us Hu (scan_ext be ps (scan_start h) cs)) as (-> & -> & -> & ->).
  destruct (scan_ext_fields be ps us (scan_ext be ps (scan_start h) cs)) as (-> & _).
  destruct (scan_ext_fields be ps cs (scan_start h)) as (El & _). rewrite El. cbn [scan_start s_log app].
  rewrite take_app_length. destruct Hc as [->|(gs & f & -> & Hf)].
  - split_and!; try done. unfold zlen, scan_start, WAL_HDR_LEN; cbn. lia.
  - rewrite scan_ext_app. destruct (scan_ext_fields be ps gs (scan_start h)) as (El' & Eo & Ec).
    unfold last_db. rewrite last_snoc. cbn [scan_ext fold_left]. unfold push1.
    fold (scan_ext be ps (scan_start h) gs). rewrite El', Eo, Ec.
    destruct (Z.eqb_spec (commit_db_size f) 0); [done|]. cbn [negb s_committed_len s_committed_off s_committed_ck s_db_size scan_start s_log s_off s_ck app].
    rewrite frames_ck_app. unfold FRAME_HDR_LEN, WAL_HDR_LEN. rewrite !zlen_app, zlen_cons, zlen_nil.
    split_and!; try done; lia.
Qed.

(** ** The header *)

Lemma wal_header_parts be ps seq s : zlen s = 8 -> is_u32 ps -> is_u32 seq ->
  let hdr := wal_header be ps seq s in
  let h := checksum be 0 0 (wal_header_front be ps seq s) in
  zlen hdr = 32 /\ Z.land (be32 hdr 0) 4294967294 = WAL_MAGIC /\ (Z.land (be32 hdr 0) 1 =? 1) = be /\
  be32 hdr 8 = ps /\ be32 hdr 12 = seq /\ sub hdr 16 24 = s /\
  sub hdr 0 24 = wal_header_front be ps seq s /\ be32 hdr 24 = fst h /\ be32 hdr 28 = snd h.
Proof.
  intros Hs Hps Hseq hdr h.
  assert (is_ck h) as [Hh0 Hh1] by (apply checksum_range; unfold is_uint; lia).
  set (m := Z.lor WAL_MAGIC (if be then 1 else 0)).
  set (cs := [be_bytes 4 m; be_bytes 4 3007000; be_bytes 4 ps; be_bytes 4 seq; s; be_bytes 4 (fst h); be_bytes 4 (snd h)]).
  assert (hdr = concat cs ++ []) as E.
  { unfold hdr, wal_header, wal_header_front, cs, h. cbn [concat]. by rewrite !app_nil_r, <- !app_assoc. }
  assert (forall i c a b, cs !! i = Some c -> a = zlen (concat (take i cs)) -> b = a + zlen c ->
    sub hdr a b = c) as Hc by (intros; rewrite E; by eapply sub_concat).
  assert (be32 hdr 0 = m) as Em.
  { unfold be32. rewrite (Hc 0%nat (be_bytes 4 m)); [|done|done|by rewrite zlen_be_bytes].
    apply be32_bytes. unfold m, is_uint, WAL_MAGIC. by destruct be. }
  assert (zlen (wal_header_front be ps seq s) = 24) as Hfl.
  { unfold wal_header_front. rewrite !zlen_app, !zlen_be_bytes, Hs. done. }
  split_and!.
  - unfold hdr, wal_header. rewrite !zlen_app, Hfl, !zlen_be_bytes. done.
  - rewrite Em. unfold m, WAL_MAGIC. by destruct be.
  - rewrite Em. unfold m, WAL_MAGIC. by destruct be.
  - unfold be32. rewrite (Hc 2%nat (be_bytes 4 ps)); [by apply be32_bytes|done| |by rewrite zlen_be_bytes].
    unfold cs. cbn [take concat]. rewrite !zlen_app, !zlen_be_bytes. done.
  - unfold be32. rewrite (Hc 3%nat (be_bytes 4 seq)); [by apply be32_bytes|done| |by rewrite zlen_be_bytes].
    unfold cs. cbn [take concat]. rewrite !zlen_app, !zlen_be_bytes. done.
  - apply (Hc 4%nat s); [done| |by rewrite Hs]. unfold cs. cbn [take concat]. rewrite !zlen_app, !zlen_be_bytes. done.
  - unfold hdr, wal_header. apply (sub_app_exact [] (wal_header_front be ps seq s) _ 0 24); [done|by rewrite Hfl].
  - unfold be32. rewrite (Hc 5%nat (be_bytes 4 (fst h))); [by apply be32_bytes|done| |by rewrite zlen_be_bytes].
    unfold cs. cbn [take concat]. rewrite !zlen_app, !zlen_be_bytes, Hs. done.
  - unfold be32. rewrite (Hc 6%nat (be_bytes 4 (snd h))); [by apply be32_bytes|done| |by rewrite zlen_be_bytes].
    unfold cs. cbn [take concat]. rewrite !zlen_app, !zlen_be_bytes, Hs. done.
Qed.

(** A log file: header, frames, and bytes that are not a frame of it. *)
Definition laid (be : bool) (ps seq : Z) (s : bytes) (fs : list IndexFrame) (tail file : bytes) : Prop :=
  file = wal_header be ps seq s
           ++ frames_bytes be s (checksum be 0 0 (wal_header_front be ps seq s)) fs ++ tail /\
  zlen file < 2 ^ 64 /\ zlen s = 8 /\ is_u32 ps /\ 0 < ps /\ is_u32 seq /\ Forall (frame_ok ps) fs.

(** What a fresh connection recovers from a log file: the committed frames. *)
Definition recovered (file : bytes) (ps : Z) : res (list IndexFrame) :=
  let* (_, ix) := attach_wal file index_new ps in Ok (log ix).

Lemma attach_laid be ps seq s cs us tail file : laid be ps seq s (cs ++ us) tail file ->
  committed cs -> Forall (fun f => commit_db_size f = 0) us -> tail_bad s ps tail ->
  zlen cs < 2 ^ 32 -> recovered file ps = Ok cs.
Proof.
  intros (E & Hz & Hs & Hps & Hps0 & Hseq & Hfs) Hc Hu Hbad Hlen.
  destruct (wal_header_parts be ps seq s Hs Hps Hseq) as (H32 & Hm & Hbe & Eps & Eseq & Es & Ef & E0 & E1).
  set (hdr := wal_header be ps seq s) in *. set (h := checksum be 0 0 (wal_header_front be ps seq s)) in *.
  assert (is_ck h) as Hh by (apply checksum_range; unfold is_uint; lia).
  unfold recovered, attach_wal. pose proof (zlen_nonneg (frames_bytes be s h (cs ++ us) ++ tail)).
  destruct (Z.ltb_spec (zlen file) WAL_HDR_LEN) as [Hlt|_].
  { rewrite E, zlen_app, H32 in Hlt. unfold WAL_HDR_LEN in Hlt. lia. }
  assert (Vfs.mem_read file WAL_HDR_LEN 0 = Ok hdr) as ->.
  { pose proof (mem_read_app [] hdr (frames_bytes be s h (cs ++ us) ++ tail) WAL_HDR_LEN 0) as G.
    cbn [app] in G. rewrite <- E in G. apply G; [done|done|by rewrite H32]. }
  bind_step. rewrite Hm, Z.eqb_refl. cbn [negb]. rewrite Eps, Z.eqb_refl. cbn [negb].
  rewrite Hbe, Ef. fold h. rewrite E0, E1, !Z.eqb_refl. cbn [negb orb]. rewrite Es.
  assert (scan_loop (length file) file (zlen file) ps be s (scan_start h)
          = Ok (scan_ext be ps (scan_start h) (cs ++ us))) as Hscan.
  { pose proof (scan_frames be s ps (cs ++ us) Hs ltac:(lia) Hfs (length file) (scan_start h) hdr tail) as G.
    cbv zeta in G. change (s_ck (scan_start h)) with h in G. rewrite <- E in G. apply G; try done.
    unfold zlen in H32. rewrite E, !length_app. lia. }
  unfold scan_start in Hscan at 1. rewrite Hscan. bind_step.
  destruct (scan_committed be ps h cs us Hc Hu) as (El & _ & _ & _ & Et). rewrite El.
  destruct (Z.eqb_spec (zlen cs) 0) as [E00|_].
  { destruct cs; [done|]. rewrite zlen_cons in E00. pose proof (zlen_nonneg cs). lia. }
  bind_step. cbn [writer_state index_new mx_frame Z.eqb seed log].
  unfold zlen. rewrite Nat2Z.id. by rewrite Et.
Qed.

(** ** Appending *)

(** The frames a commit of [pages] stages. *)
Fixpoint staged (pages : list (Z * bytes)) (i n new_count : Z) : list IndexFrame :=
  match pages with
  | [] => []
  | (p, d) :: pages =>
      mkIFrame p (if i + 1 =? n then new_count else 0) d :: staged pages (i + 1) n new_count
  end.

(** No frame of this generation starts at any frame boundary of the tail. *)
Definition clean_tail (s : bytes) (ps : Z) (tail : bytes) : Prop :=
  forall j : nat, tail_bad s ps (drop (j * Z.to_nat (24 + ps)) tail).

Lemma clean_tail_drop s ps tail (j : nat) : clean_tail s ps tail ->
  clean_tail s ps (drop (j * Z.to_nat (24 + ps)) tail).
Proof. intros H i. rewrite drop_drop. rewrite <- Nat.mul_add_distr_r. apply H. Qed.

Definition page_ok (ps : Z) (x : Z * bytes) : Prop := is_u32 x.1 /\ zlen x.2 = ps.

Lemma staged_ok ps n nc pages : is_u32 nc -> Forall (page_ok ps) pages -> forall i,
  Forall (frame_ok ps) (staged pages i n nc).
Proof.
  intros Hnc Hp. induction Hp as [|[p d] pages [Hp1 Hp2] _ IH]; intros i; cbn [staged]; [done|].
  constructor; [|apply IH]. unfold frame_ok; cbn. split_and!; try done.
  destruct (i + 1 =? n); [done|]. unfold is_uint. lia.
Qed.

Lemma zlen_staged pages n nc : forall i, zlen (staged pages i n nc) = zlen pages.
Proof. induction pages as [|[p d] pages IH]; intros i; cbn [staged]; [done|]. by rewrite !zlen_cons, IH. Qed.

Lemma staged_app pages pages' n nc : forall i,
  staged (pages ++ pages') i n nc = staged pages i n nc ++ staged pages' (i + zlen pages) n nc.
Proof.
  induction pages as [|[p d] pages IH]; intros i; cbn [staged app]; [by rewrite zlen_nil, Z.add_0_r|].
  rewrite IH, zlen_cons. do 3 f_equal. lia.
Qed.

(** Before the last page nothing is marked as a commit. *)
Lemma staged_uncommitted pages n nc : forall i, i + zlen pages < n ->
  Forall (fun f => commit_db_size f = 0) (staged pages i n nc).
Proof.
  induction pages as [|[p d] pages IH]; intros i Hi; cbn [staged]; [done|].
  rewrite zlen_cons in Hi. pose proof (zlen_nonneg pages). constructor; [|apply IH; lia].
  cbn. destruct (Z.eqb_spec (i + 1) n); [lia|done].
Qed.

Lemma staged_committed pages nc : pages <> [] -> nc <> 0 -> committed (staged pages 0 (zlen pages) nc).
Proof.
  intros Hp Hnc. destruct pages as [|[p d] pages' _] using rev_ind; [done|]. right.
  rewrite staged_app. cbn [staged]. eexists _, _. split; [done|]. cbn [commit_db_size].
  rewrite zlen_snoc.
  destruct (Z.eqb_spec (0 + zlen pages' + 1) (zlen pages' + 1)); [done|lia].
Qed.

Lemma write_frames_spec be s ps n nc pages : zlen s = 8 -> 0 <= ps -> Forall (page_ok ps) pages ->
  forall i pre tail ck off, off = zlen pre -> zlen pre + (24 + ps) * zlen pages < 2 ^ 64 ->
  exists app, write_frames pages i n nc ps be s (pre ++ tail) off ck
      = Ok (pre ++ frames_bytes be s ck (staged pages i n nc) ++ drop (length pages * Z.to_nat (24 + ps)) tail, app) /\
    (fun a => mkIFrame (a_page a) (a_db a) (a_data a)) <$> app = staged pages i n nc /\
    (pages <> [] -> exists a, last app = Some a /\ a_next a = off + (24 + ps) * zlen pages /\
       a_ck a = frames_ck be ck (staged pages i n nc)).
Proof.
  intros Hs Hps Hp. induction Hp as [|[p d] pages [Hp1 Hp2] Hp IH]; intros i pre tail ck off -> Hz; cbn [write_frames staged].
  - exists []. split_and!; try done.
  - cbn [fst snd] in *. rewrite zlen_cons in Hz. pose proof (zlen_nonneg pages). pose proof (zlen_nonneg pre).
    set (db := if i + 1 =? n then nc else 0). set (c := frame_checksum be ck (frame_head p db) d).
    pose proof (zlen_frame_bytes p db s c d Hs) as Hfl. rewrite Hp2 in Hfl.
    rewrite mem_write_over by (done || nia). bind_step.
    rewrite (app_assoc pre).
    destruct (IH (i + 1) (pre ++ frame_bytes p db s c d) (drop (length (frame_bytes p db s c d)) tail) c
                (zlen pre + (FRAME_HDR_LEN + ps))) as (app & -> & Eapp & Hlast).
    { rewrite zlen_app, Hfl. unfold FRAME_HDR_LEN. lia. }
    { rewrite zlen_app, Hfl. lia. }
    bind_step. eexists. split_and!.
    + cbn [frames_bytes page_no commit_db_size f_data]. fold c. rewrite <- !app_assoc. do 5 f_equal.
      rewrite drop_drop. f_equal. unfold zlen in Hfl. cbn [length]. lia.
    + rewrite fmap_cons. by rewrite Eapp.
    + intros _. cbn [frames_ck page_no commit_db_size f_data]. fold c.
      destruct pages as [|x pages].
      * eexists. destruct app; [|done]. split; [done|]. cbn. unfold FRAME_HDR_LEN. split; [|done].
        rewrite zlen_cons, zlen_nil. lia.
      * destruct (Hlast ltac:(done)) as (a & Ea & En & Eck). exists a.
        destruct app as [|a' app]; [done|]. rewrite last_cons_cons. split; [done|]. split; [|done].
        rewrite En. rewrite (zlen_cons (p, d)). unfold FRAME_HDR_LEN. lia.
Qed.

Lemma append_all_spec s ps app : forall ix,
  let ix' := append_all ix s ps app in
  log ix' = log ix ++ ((fun a => mkIFrame (a_page a) (a_db a) (a_data a)) <$> app) /\
  n_backfill ix' = n_backfill ix /\ ckpt_seq ix' = ckpt_seq ix /\ big_end_cksum ix' = big_end_cksum ix /\
  generation ix' = generation ix /\ readers ix' = readers ix /\
  (forall a, last app = Some a -> mx_frame ix' = wrap 32 (zlen (log ix')) /\ next_offset ix' = a_next a /\
     cksum ix' = a_ck a /\ salt ix' = s /\ ix_page_size ix' = ps).
Proof.
  induction app as [|a app IH]; intros ix ix'; subst ix'; cbn [append_all fold_left].
  - rewrite app_nil_r. by split_and!.
  - set (ix1 := append ix (a_page a) (a_db a) s (a_data a) (a_next a) (a_ck a) ps).
    fold (append_all ix1 s ps app). destruct (IH ix1) as (-> & -> & -> & -> & -> & -> & Hl).
    rewrite fmap_cons. split_and!; try done; [cbn; by rewrite <- app_assoc|].
    intros b Hb. destruct app as [|a' app].
    + cbn [last] in Hb. injection Hb as <-. cbn [append_all fold_left fmap list_fmap]. cbn.
      by rewrite app_nil_r.
    + rewrite last_cons_cons in Hb. destruct (Hl b Hb) as (-> & -> & -> & -> & ->).
      destruct (IH ix1) as (-> & _). done.
Qed.

(** The log file and the index agree: the published frames are laid out in the
    file, and nothing after them passes for one. *)
Record synced (file : bytes) (ix : WalIndex) (ps : Z) : Prop := {
  sy_tail : exists tail, laid (big_end_cksum ix) ps (ckpt_seq ix) (salt ix) (log ix) tail file /\
              clean_tail (salt ix) ps tail;
  sy_committed : committed (log ix);
  sy_mx : mx_frame ix = zlen (log ix);
  sy_next : next_offset ix = 32 + (24 + ps) * zlen (log ix);
  sy_ck : cksum ix = frames_ck (big_end_cksum ix)
            (checksum (big_end_cksum ix) 0 0 (wal_header_front (big_end_cksum ix) ps (ckpt_seq ix) (salt ix))) (log ix) }.

(** A state a commit may start from: a log in use, or an empty one whose file
    holds no frame under the salts about to be used. *)
Definition writable (file : bytes) (ix : WalIndex) (conn_salt : bytes) (ps : Z) : Prop :=
  if mx_frame ix =? 0 then
    let s := if bool_decide (salt ix = replicate 8 0) then conn_salt else salt ix in
    log ix = [] /\ zlen s = 8 /\ is_u32 ps /\ 0 < ps /\ is_u32 (ckpt_seq ix) /\
    big_end_cksum ix = NATIVE_BIG_ENDIAN /\ clean_tail s ps (drop 32 file)
  else synced file ix ps.

(** The log file after [k] of the commit's frame writes. *)
Definition crash_file (file : bytes) (ix : WalIndex) (conn_salt : bytes)
    (pages : list (Z * bytes)) (new_count ps : Z) (k : nat) : res bytes :=
  let* (file, c) := open_log file (maybe_restart ix) conn_salt ps in
  let* (file, _) := write_frames (take k pages) 0 (zlen pages) new_count ps
                      (k_be c) (k_salt c) file (k_off c) (k_ck c) in
  Ok file.

(** [open_log] leaves a laid-out log with the cursor at its end. *)
Lemma open_log_spec file ix conn ps : writable file ix conn ps -> zlen file + 64 < 2 ^ 64 ->
  exists pre tail c, open_log file ix conn ps = Ok (pre ++ tail, c) /\
    pre = wal_header (k_be c) ps (ckpt_seq ix) (k_salt c)
          ++ frames_bytes (k_be c) (k_salt c) (checksum (k_be c) 0 0 (wal_header_front (k_be c) ps (ckpt_seq ix) (k_salt c))) (log ix) /\
    k_off c = zlen pre /\ zlen pre = 32 + (24 + ps) * zlen (log ix) /\
    k_ck c = frames_ck (k_be c) (checksum (k_be c) 0 0 (wal_header_front (k_be c) ps (ckpt_seq ix) (k_salt c))) (log ix) /\
    clean_tail (k_salt c) ps tail /\ zlen (k_salt c) = 8 /\ is_u32 ps /\ 0 < ps /\ is_u32 (ckpt_seq ix) /\
    Forall (frame_ok ps) (log ix) /\ committed (log ix) /\ k_be c = big_end_cksum ix /\
    zlen (pre ++ tail) <= Z.max 32 (zlen file).
Proof.
  intros Hw Hz. unfold writable in Hw. unfold open_log, writer_state.
  destruct (mx_frame ix =? 0).
  - set (s := if bool_decide _ then conn else salt ix) in *.
    destruct Hw as (El & Hs & Hps & Hps0 & Hseq & Hbe & Ht).
    destruct (wal_header_parts NATIVE_BIG_ENDIAN ps (ckpt_seq ix) s Hs Hps Hseq) as (H32 & _).
    pose proof (mem_write_over [] file (wal_header NATIVE_BIG_ENDIAN ps (ckpt_seq ix) s) 0 eq_refl) as G.
    cbn [app] in G. rewrite G by (rewrite zlen_nil; lia). bind_step. rewrite El.
    set (hdr := wal_header NATIVE_BIG_ENDIAN ps (ckpt_seq ix) s) in *.
    exists hdr, (drop 32 file). eexists. cbn [k_be k_salt k_off k_ck frames_bytes frames_ck].
    assert (length hdr = 32%nat) as Hl by (unfold zlen in H32; lia).
    rewrite Hl. split; [done|]. cbn [k_be k_salt k_off k_ck frames_bytes frames_ck].
    rewrite H32. split_and!; try done.
    + by rewrite app_nil_r.
    + rewrite zlen_nil. lia.
    + by left.
    + rewrite zlen_app, H32. unfold zlen. rewrite length_drop. lia.
  - destruct Hw as [(tail & (E & Hz' & Hs & Hps & Hps0 & Hseq & Hf) & Ht) Hc Hmx Hn Hck].
    destruct (wal_header_parts (big_end_cksum ix) ps (ckpt_seq ix) (salt ix) Hs Hps Hseq) as (H32 & _).
    eexists _, tail, _. cbn [k_be k_salt k_off k_ck]. split; [by rewrite <- app_assoc, <- E|].
    rewrite zlen_app, H32, (zlen_frames_bytes _ _ ps) by done. split_and!; try done.
    rewrite E, !zlen_app. lia.
Qed.

Lemma committed_app cs ds : committed ds -> ds <> [] -> committed (cs ++ ds).
Proof.
  intros [->|(gs & f & -> & Hf)] Hne; [done|]. right. exists (cs ++ gs), f. by rewrite app_assoc.
Qed.

(** After any number of the commit's frame writes the file is laid out. *)
Lemma write_frames_laid file ix conn pages nc ps k :
  writable file ix conn ps -> Forall (page_ok ps) pages -> is_u32 nc ->
  zlen file + 64 + (24 + ps) * (zlen (log ix) + zlen pages) < 2 ^ 64 ->
  exists c f0 f1 app tail, open_log file ix conn ps = Ok (f0, c) /\
    write_frames (take k pages) 0 (zlen pages) nc ps (k_be c) (k_salt c) f0 (k_off c) (k_ck c) = Ok (f1, app) /\
    laid (k_be c) ps (ckpt_seq ix) (k_salt c) (log ix ++ staged (take k pages) 0 (zlen pages) nc) tail f1 /\
    clean_tail (k_salt c) ps tail /\ committed (log ix) /\ k_be c = big_end_cksum ix /\
    (fun a => mkIFrame (a_page a) (a_db a) (a_data a)) <$> app = staged (take k pages) 0 (zlen pages) nc /\
    (take k pages <> [] -> exists a, last app = Some a /\
       a_next a = 32 + (24 + ps) * zlen (log ix ++ staged (take k pages) 0 (zlen pages) nc) /\
       a_ck a = frames_ck (k_be c) (checksum (k_be c) 0 0 (wal_header_front (k_be c) ps (ckpt_seq ix) (k_salt c)))
                  (log ix ++ staged (take k pages) 0 (zlen pages) nc)).
Proof.
  intros Hw Hp Hnc Hz. pose proof (zlen_nonneg file). pose proof (zlen_nonneg pages). pose proof (zlen_nonneg (log ix)).
  assert (0 <= ps) as Hps'.
  { unfold writable in Hw. destruct (mx_frame ix =? 0); [lia|]. destruct Hw as [(t & (_ & _ & _ & _ & ? & _) & _) _ _ _ _]. lia. }
  destruct (open_log_spec file ix conn ps Hw) as (pre & tail & c & Eo & Epre & Eoff & Hlen & Eck & Ht & Hs & Hps & Hps0 & Hseq & Hf & Hc & Ebe & Hle); [nia|].
  assert (zlen (take k pages) <= zlen pages) by (unfold zlen; rewrite length_take; lia).
  pose proof (zlen_nonneg (take k pages)).
  destruct (write_frames_spec (k_be c) (k_salt c) ps (zlen pages) nc (take k pages) Hs Hps' (Forall_take _ k _ Hp)
              0 pre tail (k_ck c) (k_off c) Eoff) as (app & Ew & Eapp & Hlast); [nia|].
  eexists c, (pre ++ tail), _, app, (drop (length (take k pages) * Z.to_nat (24 + ps)) tail).
  split; [done|]. split; [exact Ew|].
  split; [unfold laid; split_and!; try done|split_and!; try done].
  - rewrite frames_bytes_app, <- Eck. rewrite Epre, <- !app_assoc. reflexivity.
  - rewrite !zlen_app in *. rewrite (zlen_frames_bytes _ _ ps) by (done || by apply staged_ok, Forall_take).
    rewrite zlen_staged. unfold zlen in *. rewrite length_drop. nia.
  - apply Forall_app. split; [done|]. by apply staged_ok, Forall_take.
  - by apply clean_tail_drop.
  - intros Hne. destruct (Hlast Hne) as (a & Ea & En & Ec). exists a. split; [done|]. split.
    + rewrite En, Eoff, Hlen, zlen_app, zlen_staged. lia.
    + rewrite Ec, Eck. by rewrite frames_ck_app.
Qed.

(** C12: commits are atomic. From any state in which the log file and the index
    agree (or the log is empty), a commit of dirty pages appends exactly those
    pages as frames, leaves file and index in agreement, and a connection that
    opens the log afterwards recovers the old frames followed by the new ones;
    if the process stops after any smaller number of frame writes, it recovers
    exactly the old frames. *)
Theorem wal_commit_atomic (file : bytes) (ix : WalIndex) (conn_salt : bytes)
    (pages : list (Z * bytes)) (new_count ps : Z) :
  writable file (maybe_restart ix) conn_salt ps ->
  pages <> [] -> Forall (page_ok ps) pages -> is_u32 new_count -> new_count <> 0 ->
  zlen file + 64 + (24 + ps) * (zlen (log (maybe_restart ix)) + zlen pages) < 2 ^ 64 ->
  zlen (log (maybe_restart ix)) + zlen pages < 2 ^ 32 ->
  let old := log (maybe_restart ix) in
  (exists file' ix' s, commit_frames file ix conn_salt pages new_count ps = Ok (file', ix', s) /\
     log ix' = old ++ staged pages 0 (zlen pages) new_count /\ synced file' ix' ps /\
     recovered file' ps = Ok (log ix')) /\
  (forall k, (k < length pages)%nat ->
     exists fk, crash_file file ix conn_salt pages new_count ps k = Ok fk /\ recovered fk ps = Ok old).
Proof.
  intros Hw Hne Hp Hnc Hnc0 Hz Hcount old. subst old. set (ix1 := maybe_restart ix) in *.
  pose proof (zlen_nonneg (log ix1)). split.
  - destruct (write_frames_laid file ix1 conn_salt pages new_count ps (length pages) Hw Hp Hnc Hz)
      as (c & f0 & f1 & app & tail & Eo & Ew & Hlaid & Ht & Hc & Ebe & Eapp & Hlast).
    rewrite firstn_all in *. destruct (Hlast Hne) as (a & Ea & En & Eck).
    assert (committed (log ix1 ++ staged pages 0 (zlen pages) new_count)) as Hcom.
    { apply committed_app; [by apply staged_committed|]. destruct pages as [|[]]; done. }
    destruct (append_all_spec (k_salt c) ps app ix1) as (El & _ & Es & Eb & _ & _ & Hx).
    destruct (Hx a Ea) as (Emx & Enx & Eckx & Esalt & _). rewrite Eapp in El.
    assert (mx_frame (append_all ix1 (k_salt c) ps app) = zlen (log ix1 ++ staged pages 0 (zlen pages) new_count)) as Emx'.
    { rewrite Emx, El. apply wrap_small. rewrite zlen_app, zlen_staged. unfold is_uint.
      pose proof (zlen_nonneg pages). lia. }
    exists f1, (append_all ix1 (k_salt c) ps app), (k_salt c). split_and!.
    + unfold commit_frames. fold ix1. rewrite Eo. bind_step. by rewrite Ew.
    + by rewrite El.
    + split; rewrite ?Eb, ?Es, ?Esalt, ?El, <- ?Ebe; try done; [by exists tail|by rewrite Enx|by rewrite Eckx].
    + rewrite El. apply (attach_laid (k_be c) ps (ckpt_seq ix1) (k_salt c) _ [] tail); try done.
      * by rewrite app_nil_r.
      * apply (Ht 0%nat).
      * rewrite zlen_app, zlen_staged. lia.
  - intros k Hk. destruct (write_frames_laid file ix1 conn_salt pages new_count ps k Hw Hp Hnc Hz)
      as (c & f0 & f1 & app & tail & Eo & Ew & Hlaid & Ht & Hc & Ebe & Eapp & _).
    exists f1. split; [unfold crash_file; fold ix1; rewrite Eo; bind_step; by rewrite Ew|].
    apply (attach_laid (k_be c) ps (ckpt_seq ix1) (k_salt c) _ (staged (take k pages) 0 (zlen pages) new_count) tail); try done.
    + apply staged_uncommitted. unfold zlen. rewrite length_take. lia.
    + apply (Ht 0%nat).
    + pose proof (zlen_nonneg pages). lia.
Qed.

Lemma wal_commit_atomic_witness :
  let pages := [(1, replicate 512 7); (3, replicate 512 9)] in
  (exists file' ix' s, commit_frames [] index_new [1; 2; 3; 4; 5; 6; 7; 8] pages 3 512 = Ok (file', ix', s) /\
     log ix' = [] ++ staged pages 0 (zlen pages) 3 /\ synced file' ix' 512 /\
     recovered file' 512 = Ok (log ix')) /\
  (forall k, (k < length pages)%nat ->
     exists fk, crash_file [] index_new [1; 2; 3; 4; 5; 6; 7; 8] pages 3 512 k = Ok fk /\ recovered fk 512 = Ok []).
Proof.
  apply (wal_commit_atomic [] index_new [1; 2; 3; 4; 5; 6; 7; 8] [(1, replicate 512 7); (3, replicate 512 9)] 3 512).
  - cbv [writable maybe_restart index_new mx_frame]. cbn [Z.ltb Z.eqb andb log salt ckpt_seq big_end_cksum].
    split_and!; try done. intros j. left. rewrite !drop_nil. reflexivity.
  - done.
  - repeat (apply Forall_cons_2; [split; [split; cbn; lia|reflexivity]|]). apply Forall_nil_2.
  - split; lia.
  - done.
  - reflexivity.
  - reflexivity.
Defined.

End WalProps.
