(* ===== verification/WalIndexProps.v ===== *)
(** The shared wal-index and the checkpointer: the two log scanners agree,
    pinned readers keep their snapshot whatever commits and checkpoints run
    beside them, and a complete checkpoint moves the whole log into the main
    file. *)

From S2P Require Import Prelude Header Vfs Image Pager Wal WalProps.
Import Wal WalProps.
Local Open Scope Z_scope.

Module WalIndexProps.

(** ** Newest frames *)

Lemma find_rev_nil P : find_rev P [] = None.
Proof. done. Qed.

Lemma find_rev_snoc P l f : find_rev P (l ++ [f]) = if P f then Some f else find_rev P l.
Proof.
  unfold find_rev. rewrite rev_app_distr. cbn [rev app list_find].
  destruct (P f) eqn:E.
  - by rewrite decide_True.
  - rewrite decide_False by congruence. by destruct (list_find _ (rev l)) as [[]|].
Qed.

Lemma find_rev_Some P l f : find_rev P l = Some f ->
  exists l1 l2, l = l1 ++ f :: l2 /\ P f = true /\ Forall (fun g => P g = false) l2.
Proof.
  induction l as [|x l IH] using rev_ind; [done|]. rewrite find_rev_snoc. destruct (P x) eqn:E.
  - intros [= <-]. exists l, []. by rewrite E.
  - intros (l1 & l2 & -> & Hf & Hl)%IH. exists l1, (l2 ++ [x]). rewrite <- app_assoc. split_and!; try done.
    apply Forall_app. split; [done|by repeat constructor].
Qed.

Lemma find_rev_split P l1 l2 f : P f = true -> Forall (fun g => P g = false) l2 ->
  find_rev P (l1 ++ f :: l2) = Some f.
Proof.
  intros Hf. induction l2 as [|x l2 IH] using rev_ind; intros Hl.
  - by rewrite find_rev_snoc, Hf.
  - replace (l1 ++ f :: l2 ++ [x]) with ((l1 ++ f :: l2) ++ [x]) by (by rewrite <- app_assoc).
    apply Forall_app in Hl as [Hl Hx]. inversion_clear Hx as [|? ? Hx' _].
    rewrite find_rev_snoc, Hx'. by apply IH.
Qed.

Lemma find_rev_None P l : find_rev P l = None <-> Forall (fun g => P g = false) l.
Proof.
  induction l as [|x l IH] using rev_ind; [done|]. rewrite find_rev_snoc, Forall_app.
  destruct (P x) eqn:E; [|rewrite IH].
  - split; [done|]. intros [_ H]. inversion_clear H. congruence.
  - split; [intros H; split; [done|by repeat constructor]|by intros []].
Qed.

Lemma find_rev_app P l1 l2 :
  find_rev P (l1 ++ l2) = match find_rev P l2 with Some f => Some f | None => find_rev P l1 end.
Proof.
  induction l2 as [|x l2 IH] using rev_ind; [by rewrite app_nil_r|].
  rewrite app_assoc, !find_rev_snoc. by destruct (P x).
Qed.

Definition pairs (l : list IndexFrame) : list (Z * bytes) := (fun f => (page_no f, f_data f)) <$> l.

(** Publishing frames in order keeps the newest per page. *)
Lemma publish_lookup l p :
  publish (pairs l) ∅ !! p = f_data <$> find_rev (fun f => page_no f =? p) l.
Proof.
  induction l as [|x l IH] using rev_ind; [done|]. unfold pairs. rewrite fmap_app. unfold publish.
  rewrite fold_left_app. cbn [fold_left fmap list_fmap fst snd]. fold (publish (pairs l) ∅).
  rewrite find_rev_snoc. destruct (Z.eqb_spec (page_no x) p) as [->|Hne].
  - by rewrite lookup_insert_eq.
  - by rewrite lookup_insert_ne.
Qed.

(** ** The two scanners *)

Record agree (st : Scan) (o : Overlay) : Prop := {
  ag_ck : o_ck o = s_ck st;
  ag_off : o_off o = s_off st;
  ag_db : o_db_size o = s_db_size st;
  ag_len : 0 <= s_committed_len st <= zlen (s_log st);
  ag_db0 : s_db_size st = 0 <-> s_committed_len st = 0;
  ag_pending : o_pending o = pairs (drop (Z.to_nat (s_committed_len st)) (s_log st));
  ag_frames : o_frames o = publish (pairs (take (Z.to_nat (s_committed_len st)) (s_log st))) ∅ }.

Lemma pairs_app l k : pairs (l ++ k) = pairs l ++ pairs k.
Proof. apply fmap_app. Qed.

Lemma agree_push st o c fhdr page fl : agree st o -> agree (scan_push st c fhdr page fl) (overlay_push o c fhdr page fl).
Proof.
  intros [H1 H2 H3 H4 H5 H6 H7]. unfold scan_push, overlay_push.
  set (f := mkIFrame (be32 fhdr 0) (be32 fhdr 4) page). pose proof (zlen_nonneg (s_log st)).
  destruct (Z.eqb_spec (be32 fhdr 4) 0) as [E|E]; cbn [negb].
  - split; cbn [o_ck o_off o_db_size s_ck s_off s_db_size s_log s_committed_len o_pending o_frames]; try done.
    + by rewrite H2.
    + rewrite zlen_snoc. lia.
    + rewrite drop_app_le by (unfold zlen in H4; lia). by rewrite pairs_app, H6.
    + by rewrite take_app_le by (unfold zlen in H4; lia).
  - split; cbn [o_ck o_off o_db_size s_ck s_off s_db_size s_log s_committed_len o_pending o_frames]; try done.
    + by rewrite H2.
    + rewrite zlen_snoc. lia.
    + rewrite zlen_snoc. lia.
    + unfold zlen. rewrite Nat2Z.id, drop_ge by lia. done.
    + unfold zlen. rewrite Nat2Z.id, firstn_all, pairs_app.
      rewrite <- (take_drop (Z.to_nat (s_committed_len st)) (s_log st)) at 1.
      rewrite pairs_app, H7, H6. unfold publish. by rewrite <- !fold_left_app, <- app_assoc.
Qed.

Lemma loops_agree fuel wal size ps be s : forall st o, agree st o ->
  match scan_loop fuel wal size ps be s st with
  | Ok st' => exists o', reader_loop fuel wal size ps be s o = Ok o' /\ agree st' o'
  | Err e => reader_loop fuel wal size ps be s o = Err e
  | Panic => reader_loop fuel wal size ps be s o = Panic
  end.
Proof.
  induction fuel as [|fuel IH]; intros st o H; cbn [scan_loop reader_loop]; rewrite (ag_off st o H);
    destruct (s_off st + (FRAME_HDR_LEN + ps) <=? size); try (by exists o); try done.
  destruct (Vfs.mem_read wal FRAME_HDR_LEN (s_off st)) as [fhdr|e|]; [|done..]. rewrite !bind_Ok.
  destruct (Vfs.mem_read wal ps (s_off st + FRAME_HDR_LEN)) as [page|e|]; [|done..]. rewrite !bind_Ok.
  rewrite (ag_ck st o H). destruct (frame_valid be s (s_ck st) fhdr page) as [c|]; [|by exists o].
  by apply IH, agree_push.
Qed.

(** Each frame of the log takes room in the file. *)
Lemma scan_bound fuel wal size ps be s : 0 <= ps -> forall st st', scan_loop fuel wal size ps be s st = Ok st' ->
  zlen (s_log st) <= s_off st <= size -> zlen (s_log st') <= s_off st' <= size.
Proof.
  intros Hps. induction fuel as [|fuel IH]; intros st st' E Hb; cbn [scan_loop] in E;
    destruct (Z.leb_spec (s_off st + (FRAME_HDR_LEN + ps)) size); try done; try (by injection E as <-).
  apply res_bind_Ok in E as (fhdr & _ & E). apply res_bind_Ok in E as (page & _ & E).
  destruct (frame_valid be s (s_ck st) fhdr page) as [c|]; [|by injection E as <-].
  apply (IH _ _ E). set (f := mkIFrame (be32 fhdr 0) (be32 fhdr 4) page).
  unfold scan_push. fold f. unfold FRAME_HDR_LEN in *.
  destruct (negb (be32 fhdr 4 =? 0)); cbn [s_log s_off]; rewrite zlen_snoc; lia.
Qed.

Lemma agree_start h : agree (scan_start h) (mkOverlay h WAL_HDR_LEN [] ∅ 0).
Proof. by split. Qed.

(** The fuel, the length of the file, is enough, and every read of the scan is
    inside the file. *)
Lemma reader_loop_total wal ps be s : 0 <= ps -> zlen wal < 2 ^ 64 -> forall fuel o,
  0 <= o_off o -> zlen wal - o_off o <= Z.of_nat fuel ->
  exists o', reader_loop fuel wal (zlen wal) ps be s o = Ok o'.
Proof.
  intros Hps Hz. induction fuel as [|fuel IH]; intros o Ho Hf; cbn [reader_loop]; unfold FRAME_HDR_LEN in *;
    destruct (Z.leb_spec (o_off o + (24 + ps)) (zlen wal)); try lia; try (by exists o).
  rewrite Vfs.mem_read_Ok by lia. bind_step. rewrite Vfs.mem_read_Ok by lia. bind_step.
  destruct (frame_valid _ _ _ _ _) as [c|]; [|by exists o].
  apply IH; unfold overlay_push; destruct (negb _); cbn [o_off]; lia.
Qed.

Lemma scan_loop_total wal ps be s h : 0 <= ps -> zlen wal < 2 ^ 64 ->
  exists st o, scan_loop (length wal) wal (zlen wal) ps be s (scan_start h) = Ok st /\
    reader_loop (length wal) wal (zlen wal) ps be s (mkOverlay h WAL_HDR_LEN [] ∅ 0) = Ok o /\ agree st o.
Proof.
  intros Hps Hz. pose proof (loops_agree (length wal) wal (zlen wal) ps be s _ _ (agree_start h)) as G.
  destruct (reader_loop_total wal ps be s Hps Hz (length wal) (mkOverlay h WAL_HDR_LEN [] ∅ 0)) as [o Ho];
    [by cbn|unfold WAL_HDR_LEN, zlen; cbn; lia|].
  rewrite Ho in G. destruct (scan_loop _ _ _ _ _ _ _) as [st|e|]; [|done..].
  destruct G as (o' & [= <-] & Ha). by exists st, o.
Qed.

Lemma be32_nonneg b a : is_bytes b -> 0 <= be32 b a.
Proof. intros Hb. unfold be32. apply be_val_bound. by apply is_bytes_sub. Qed.

(** The index the writer seeds shows what the overlay has published. *)
Lemma seeded_frames st o s off ck ps seq be : agree st o -> zlen (s_log st) < 2 ^ 32 ->
  let ix := seed index_new (take (Z.to_nat (s_committed_len st)) (s_log st)) s off ck ps seq be in
  forall p, o_frames o !! p = find_frame ix p (mx_frame ix).
Proof.
  intros Ha Hz ix p. rewrite (ag_frames st o Ha), publish_lookup. unfold find_frame, ix. cbn [seed log mx_frame].
  set (l := take (Z.to_nat (s_committed_len st)) (s_log st)).
  assert (0 <= zlen l <= zlen (s_log st)) as Hll.
  { split; [apply zlen_nonneg|]. unfold l, zlen. rewrite length_take. lia. }
  rewrite (wrap_small 32 (zlen l)) by (unfold is_uint; lia). rewrite Z.min_id.
  unfold zlen. rewrite Nat2Z.id, firstn_all. done.
Qed.

(** C15: the two log readers agree on every file. Whatever bytes a log file
    holds, the writer that attaches to it from scratch and the read-only
    overlay both get through it. When the writer finds committed frames, the
    overlay accepts the same log, reports the same database size, and shows for
    every page exactly the newest committed frame the writer's index has. When
    the writer finds none, its index stays empty, and the overlay rejects the
    log as corrupt or shows no frame either, with one exception: a log whose
    header names another page size than the database's, which the writer
    ignores and the overlay reads. *)
Theorem wal_readers_agree (wal : bytes) (ps : Z) :
  is_bytes wal -> 512 <= ps -> is_power_of_two ps = true -> zlen wal < 2 ^ 32 ->
  exists rt ix, attach_wal wal index_new ps = Ok (rt, ix) /\
  match rt with
  | Some rt =>
      exists frames, read_log wal = Ok (frames, rt_db_size rt, ps) /\
        snap_mx (rt_snapshot rt) = mx_frame ix /\
        forall p, frames !! p = find_frame ix p (mx_frame ix)
  | None => ix = index_new /\
      ((exists m, read_log wal = Err (ECorrupt m)) \/
       exists frames db ps', read_log wal = Ok (frames, db, ps') /\
         (frames = ∅ /\ db = 0 \/ ps' = be32 wal 8 /\ ps' <> ps))
  end.
Proof.
  intros Hb Hps Hpow Hlen. unfold attach_wal, read_log.
  destruct (Z.ltb_spec (zlen wal) WAL_HDR_LEN) as [Hl|Hl], (Z.leb_spec WAL_HDR_LEN (zlen wal)); try lia.
  { eexists _, _. split; [done|]. split; [done|]. right. eexists _, _, _. split; [done|by left]. }
  unfold WAL_HDR_LEN in Hl. rewrite Vfs.mem_read_Ok by (unfold WAL_HDR_LEN; lia). do 2 bind_step.
  set (hdr := sub wal 0 (0 + WAL_HDR_LEN)).
  assert (is_bytes hdr) as Hhb by (by apply is_bytes_sub).
  assert (be32 hdr 8 = be32 wal 8) as E8.
  { unfold be32, hdr. by rewrite sub_sub by (unfold WAL_HDR_LEN; lia). }
  destruct (Z.land (be32 hdr 0) 4294967294 =? WAL_MAGIC); cbn [negb].
  2:{ eexists _, _. split; [done|]. split; [done|]. left. by eexists. }
  set (be := Z.land (be32 hdr 0) 1 =? 1). set (h := checksum be 0 0 (sub hdr 0 24)). set (s := sub hdr 16 24).
  destruct (scan_loop_total wal (be32 hdr 8) be s h) as (st & o & Est & Eo & Ha); [by apply be32_nonneg|lia|].
  unfold scan_start in Est. rewrite Eo.
  destruct (Z.eqb_spec (be32 hdr 8) ps) as [Eps|Eps]; cbn [negb].
  2:{ eexists _, _. split; [done|]. split; [done|]. destruct ((be32 hdr 8 <? 512) || _); [left; by eexists|].
      destruct (negb (fst h =? be32 hdr 24) || negb (snd h =? be32 hdr 28)); [left; by eexists|]. right. bind_step.
      eexists _, _, _. split; [done|]. right. split; [done|]. congruence. }
  rewrite Eps in *. destruct (Z.ltb_spec ps 512); [lia|]. rewrite Hpow. cbn [negb orb].
  destruct (negb (fst h =? be32 hdr 24) || negb (snd h =? be32 hdr 28)).
  { eexists _, _. split; [done|]. split; [done|]. left. by eexists. }
  rewrite Est. do 2 bind_step. destruct (Z.eqb_spec (s_committed_len st) 0) as [E0|E0].
  - eexists _, _. split; [done|]. split; [done|]. right. eexists _, _, _. split; [done|]. left.
    rewrite (ag_frames st o Ha), E0, (ag_db st o Ha). split; [done|]. by apply (ag_db0 st o Ha).
  - cbn [writer_state index_new mx_frame Z.eqb]. eexists _, _. split; [done|]. exists (o_frames o).
    cbn [rt_db_size rt_snapshot snap_mx snapshot]. rewrite (ag_db st o Ha). split_and!; [done|done|].
    apply seeded_frames; [done|]. assert (0 <= ps) as Hps0 by lia.
    pose proof (scan_bound _ _ _ _ _ _ Hps0 _ _ Est) as Hbd. cbn [s_log s_off] in Hbd.
    rewrite zlen_nil in Hbd. unfold WAL_HDR_LEN in *. specialize (Hbd ltac:(lia)). lia.
Qed.

(** A log file with one committed page. *)
Definition demo_wal : bytes :=
  match commit_frames [] index_new [1; 2; 3; 4; 5; 6; 7; 8] [(1, replicate 512 7)] 1 512 with
  | Ok (f, _, _) => f | _ => []
  end.
Definition demo_index : WalIndex :=
  match attach_wal demo_wal index_new 512 with Ok (_, ix) => ix | _ => index_new end.

Lemma wal_readers_agree_witness :
  exists rt ix, attach_wal demo_wal index_new 512 = Ok (rt, ix) /\
  match rt with
  | Some rt =>
      exists frames, read_log demo_wal = Ok (frames, rt_db_size rt, 512) /\
        snap_mx (rt_snapshot rt) = mx_frame ix /\
        forall p, frames !! p = find_frame ix p (mx_frame ix)
  | None => ix = index_new /\
      ((exists m, read_log demo_wal = Err (ECorrupt m)) \/
       exists frames db ps', read_log demo_wal = Ok (frames, db, ps') /\
         (frames = ∅ /\ db = 0 \/ ps' = be32 demo_wal 8 /\ ps' <> 512))
  end.
Proof.
  apply (wal_readers_agree demo_wal 512).
  - apply (bool_decide_unpack _). vm_compute. reflexivity.
  - lia.
  - reflexivity.
  - vm_compute. reflexivity.
Defined.

(** Both outcomes on that file: a database of 512-byte pages has its page one
    in the log; one of 1024-byte pages is told that there is no log, while the
    overlay shows the frame. *)
Example wal_page_size_divergence :
  attach_wal demo_wal index_new 512 =
    Ok (Some (mkRuntime (mkSnap 1 0) None 1 [1; 2; 3; 4; 5; 6; 7; 8]), demo_index) /\
  attach_wal demo_wal index_new 1024 = Ok (None, index_new) /\
  match read_log demo_wal with
  | Ok (frames, db, ps) => frames !! 1 = Some (replicate 512 7) /\ db = 1 /\ ps = 512
  | _ => False
  end.
Proof. vm_compute. repeat split. Qed.

(** ** Ordered maps as association lists *)

Definition keys_sorted {A} (l : list (Z * A)) : Prop := Sorted.StronglySorted Z.lt l.*1.

Lemma bm_insert_keys {A} k (v : A) l : keys_sorted l ->
  keys_sorted (bm_insert k v l) /\
  forall k' v', (k', v') ∈ bm_insert k v l <-> (k' = k /\ v' = v) \/ (k' <> k /\ (k', v') ∈ l).
Proof.
  unfold keys_sorted. induction l as [|[a b] l IH]; intros Hs; cbn [bm_insert].
  - split; [repeat constructor|]. intros k' v'. rewrite list_elem_of_singleton. set_solver.
  - cbn [fmap list_fmap] in Hs. inversion_clear Hs as [|? ? Hs' Ha].
    assert (forall k' v', (k', v') ∈ l -> a < k') as Hlt.
    { intros k' v' Hin. rewrite Forall_forall in Ha. apply Ha. apply list_elem_of_fmap. by exists (k', v'). }
    destruct (Z.ltb_spec k a); [|destruct (Z.eqb_spec k a)].
    + split.
      * cbn [fmap list_fmap fst]. constructor; [by constructor|]. constructor; [done|].
        eapply Forall_impl; [exact Ha|]. simpl. intros; lia.
      * intros k' v'. rewrite !elem_of_cons. split; [|naive_solver].
        intros [[= -> ->]|[[= -> ->]|Hin]]; [by left|right; split; [lia|by left]|].
        right. split; [specialize (Hlt _ _ Hin); lia|by right].
    + subst a. split; [by constructor|]. intros k' v'. rewrite !elem_of_cons. split.
      * intros [[= -> ->]|Hin]; [by left|]. right. split; [specialize (Hlt _ _ Hin); lia|by right].
      * intros [[-> ->]|[Hne [[= -> ->]|Hin]]]; [by left|done|by right].
    + destruct (IH Hs') as [Hs2 Hel]. split.
      * cbn [fmap list_fmap fst]. constructor; [done|]. apply Forall_forall. intros x (y & -> & Hy)%list_elem_of_fmap.
        destruct y as [k' v']. apply Hel in Hy as [[-> ->]|[_ Hy]]; simpl; [lia|by apply (Hlt _ v')].
      * intros k' v'. rewrite !elem_of_cons, Hel. split.
        -- intros [[= -> ->]|[[-> ->]|[Hne Hin]]]; [right; split; [lia|by left]|by left|right; split; [done|by right]].
        -- intros [[-> ->]|[Hne [[= -> ->]|Hin]]]; [right; by left|by left|right; by right].
Qed.

(** [f] is the last frame for page [p] in [l], at position [i]. *)
Definition newest_at (l : list IndexFrame) (p i : Z) (f : IndexFrame) : Prop :=
  exists l1 l2, l = l1 ++ f :: l2 /\ i = zlen l1 /\ page_no f = p /\ Forall (fun g => page_no g <> p) l2.

Lemma newest_at_cons x l p i f : newest_at (x :: l) p i f <->
  newest_at l p (i - 1) f \/ (x = f /\ i = 0 /\ page_no f = p /\ Forall (fun g => page_no g <> p) l).
Proof.
  split.
  - intros (l1 & l2 & E & -> & Hp & Hl). destruct l1 as [|y l1]; cbn [app] in E; injection E as -> ->.
    + right. done.
    + left. exists l1, l2. split_and!; try done. rewrite zlen_cons. lia.
  - intros [(l1 & l2 & -> & E & Hp & Hl)|(-> & -> & Hp & Hl)].
    + exists (x :: l1), l2. split_and!; try done. rewrite zlen_cons. lia.
    + by exists [], l.
Qed.

Lemma newest_spec l : forall i acc, keys_sorted acc ->
  keys_sorted (newest l i acc) /\
  forall p j, (p, j) ∈ newest l i acc <->
    (exists f, newest_at l p (j - i) f) \/ (Forall (fun g => page_no g <> p) l /\ (p, j) ∈ acc).
Proof.
  induction l as [|x l IH]; intros i acc Hs; cbn [newest].
  - split; [done|]. intros p j. split; [by right|]. intros [(f & l1 & l2 & E & _)|[_ H]]; [|done].
    by destruct l1.
  - destruct (bm_insert_keys (page_no x) i acc Hs) as [Hs1 Hel]. destruct (IH (i + 1) _ Hs1) as [Hs2 Hn].
    split; [done|]. intros p j. rewrite Hn, Hel. setoid_rewrite newest_at_cons.
    replace (j - (i + 1)) with (j - i - 1) by lia. rewrite Forall_cons. split.
    + intros [[f Hf]|[Hl [[-> ->]|[Hne Hin]]]].
      * left. exists f. by left.
      * left. exists x. right. split_and!; try done. lia.
      * right. split; [split; [congruence|done]|done].
    + intros [[f [Hf|(-> & E & <- & Hl)]]|[[Hne Hl] Hin]].
      * left. by exists f.
      * right. split; [done|]. left. split; [done|lia].
      * right. split; [done|]. right. split; [congruence|done].
Qed.

Lemma newest_at_idx l p i f : newest_at l p i f -> idx l i = Ok f /\ 0 <= i < zlen l.
Proof.
  intros (l1 & l2 & -> & -> & _). split.
  - apply idx_lookup. rewrite lookup_app_r by lia. by rewrite Nat.sub_diag.
  - rewrite zlen_app, zlen_cons. pose proof (zlen_nonneg l1). pose proof (zlen_nonneg l2). lia.
Qed.

Lemma newest_at_not_Forall l p i f : newest_at l p i f -> Forall (fun g => page_no g <> p) l -> False.
Proof.
  intros (l1 & l2 & -> & _ & Hp & _) H. apply Forall_app in H as [_ H]. by inversion_clear H.
Qed.

Lemma newest_at_inj l p i j f g : newest_at l p i f -> newest_at l p j g -> i = j.
Proof.
  revert i j. induction l as [|x l IH]; intros i j; [by intros ([] & ? & ? & _)|].
  rewrite !newest_at_cons. intros [Hi|(_ & -> & _ & Hi)] [Hj|(_ & -> & _ & Hj)].
  - specialize (IH _ _ Hi Hj). lia.
  - by destruct (newest_at_not_Forall _ _ _ _ Hi Hj).
  - by destruct (newest_at_not_Forall _ _ _ _ Hj Hi).
  - done.
Qed.

Lemma newest_at_find l p i f : newest_at l p i f -> find_rev (fun g => page_no g =? p) l = Some f.
Proof.
  intros (l1 & l2 & -> & _ & Hp & Hl). apply find_rev_split; [by apply Z.eqb_eq|].
  eapply Forall_impl; [exact Hl|]. intros g Hg. by apply Z.eqb_neq.
Qed.

Lemma find_newest_at l p f : find_rev (fun g => page_no g =? p) l = Some f -> exists i, newest_at l p i f.
Proof.
  intros (l1 & l2 & -> & Hp & Hl)%find_rev_Some. exists (zlen l1), l1, l2. split_and!; try done; [by apply Z.eqb_eq|].
  eapply Forall_impl; [exact Hl|]. intros g Hg. by apply Z.eqb_neq.
Qed.

(** Splitting a log in two: the newest frame is in the second half if any is. *)
Lemma newest_at_app l k p i f : newest_at (l ++ k) p i f <->
  newest_at k p (i - zlen l) f \/ (Forall (fun g => page_no g <> p) k /\ newest_at l p i f).
Proof.
  induction l as [|x l IH] in i |- *.
  - cbn [app]. rewrite zlen_nil, Z.sub_0_r. split; [by left|]. intros [H|[_ (l1 & l2 & E & _)]]; [done|]. by destruct l1.
  - cbn [app]. rewrite !newest_at_cons, IH, zlen_cons. replace (i - 1 - zlen l) with (i - (zlen l + 1)) by lia.
    rewrite Forall_app. naive_solver.
Qed.

Lemma frame_data_spec l safe : Forall (fun x : Z * Z => 0 <= x.2 < zlen l) safe ->
  exists pages, frame_data l safe = Ok pages /\ pages.*1 = safe.*1 /\
    forall p d, (p, d) ∈ pages <-> exists i f, (p, i) ∈ safe /\ idx l i = Ok f /\ f_data f = d.
Proof.
  intros H. induction H as [|[q i] safe Hi _ IH]; cbn [frame_data].
  - exists []. split_and!; try done. intros p d. split; [by intros ?%elem_of_nil|].
    by intros (? & ? & ?%elem_of_nil & _).
  - destruct IH as (pages & -> & Ek & Hel). destruct (idx_in_range l i Hi) as [f Ef]. rewrite Ef. bind_step.
    bind_step. eexists. split; [done|]. split; [by rewrite !fmap_cons, Ek|].
    intros p d. rewrite elem_of_cons, Hel. setoid_rewrite elem_of_cons. split.
    + intros [[= -> ->]|(j & g & Hin & Eg & Hd)]; [exists i, f; by split_and!; [left|..]|].
      exists j, g. split_and!; try done. by right.
    + intros (j & g & [[= -> ->]|Hin] & Eg & <-); [left; congruence|right; by exists j, g].
Qed.

Lemma sorted_nodup {A} (l : list (Z * A)) : keys_sorted l -> NoDup l.*1.
Proof.
  unfold keys_sorted. induction l as [|[k v] l IH]; [intros; constructor|].
  rewrite fmap_cons. intros H. inversion_clear H as [|? ? Hs Hf]. apply NoDup_cons. split; [|by apply IH].
  intros Hin. rewrite Forall_forall in Hf. specialize (Hf _ Hin). simpl in Hf. lia.
Qed.

Lemma nodup_filter_keys {A} (P : Z * A -> Prop) `{forall x, Decision (P x)} (l : list (Z * A)) :
  NoDup l.*1 -> NoDup (filter P l).*1.
Proof.
  induction l as [|x l IH]; [done|]. rewrite fmap_cons, NoDup_cons. intros [Hx Hl].
  rewrite filter_cons. destruct (decide (P x)); [|by apply IH]. rewrite fmap_cons, NoDup_cons.
  split; [|by apply IH]. intros (y & Ey & [_ Hy]%list_elem_of_filter)%list_elem_of_fmap.
  apply Hx, list_elem_of_fmap. by exists y.
Qed.

Lemma backfill_pages_spec ix mx_safe : mx_frame ix = zlen (log ix) -> 0 <= n_backfill ix < mx_frame ix ->
  exists pages, backfill_pages ix mx_safe = Ok pages /\ NoDup pages.*1 /\
    forall p d, (p, d) ∈ pages <->
      exists i f, newest_at (log ix) p i f /\ n_backfill ix <= i < mx_safe /\ f_data f = d.
Proof.
  intros Hmx Hb. unfold backfill_pages. rewrite Hmx, Z.min_id in *. set (lo := n_backfill ix) in *.
  destruct (Z.leb_spec (zlen (log ix)) lo); [lia|]. rewrite slice_Ok by lia. bind_step. rewrite sub_full.
  destruct (newest_spec (drop (Z.to_nat lo) (log ix)) lo [] ltac:(constructor)) as [Hs Hn].
  set (new := newest (drop (Z.to_nat lo) (log ix)) lo []) in *.
  assert (forall p j, (p, j) ∈ new <-> exists f, newest_at (log ix) p j f /\ lo <= j) as Hnew.
  { intros p j. rewrite Hn.
    pose proof (fun f => newest_at_app (take (Z.to_nat lo) (log ix)) (drop (Z.to_nat lo) (log ix)) p j f) as Happ.
    rewrite take_drop in Happ. setoid_rewrite Happ.
    assert (zlen (take (Z.to_nat lo) (log ix)) = lo) as El by (unfold zlen in *; rewrite length_take; lia).
    rewrite El. split.
    - intros [[f Hf]|[_ Hin]]; [|by apply elem_of_nil in Hin]. exists f.
      split; [by left|]. apply newest_at_idx in Hf. lia.
    - intros (f & [Hf|[_ Hf]] & Hle); left; exists f; [done|].
      apply newest_at_idx in Hf as [_ Hr]. rewrite El in Hr. lia. }
  destruct (frame_data_spec (log ix) (filter (fun x : Z * Z => snd x + 1 <= mx_safe) new)) as (pages & -> & Ek & Hel).
  { apply Forall_forall. intros [p j] [_ Hin]%list_elem_of_filter. apply Hnew in Hin as (f & Hf & _).
    by apply newest_at_idx in Hf as [_ Hr]. }
  exists pages. split; [done|]. split.
  - rewrite Ek. by apply nodup_filter_keys, sorted_nodup.
  - intros p d. rewrite Hel. setoid_rewrite list_elem_of_filter. setoid_rewrite Hnew. cbn [snd]. split.
    + intros (i & f & [Hle (g & Hg & Hlo)] & Ef & Hd). exists i, f.
      pose proof (newest_at_idx _ _ _ _ Hg) as [Eg _]. assert (g = f) as -> by congruence. split_and!; lia || done.
    + intros (i & f & Hf & Hr & Hd). exists i, f. pose proof (newest_at_idx _ _ _ _ Hf) as [Ef _].
      split_and!; try done; [lia|]. exists f. split; [done|lia].
Qed.

(** ** Copying pages to the main file *)

Lemma copy_pages_spec full ps pages : 0 < ps -> full * ps < 2 ^ 64 ->
  Forall (fun x : Z * bytes => 0 <= x.1 /\ zlen x.2 = ps) pages -> NoDup pages.*1 -> forall main,
  exists main', copy_pages pages full ps main = Ok main' /\ zlen main <= zlen main' /\
    (forall p d, (p, d) ∈ pages -> 1 <= p <= full -> page_at main' ps p = d /\ p * ps <= zlen main') /\
    (forall q, 1 <= q -> q * ps <= zlen main -> q ∉ pages.*1 \/ full < q -> page_at main' ps q = page_at main ps q).
Proof.
  intros Hps Hz Hf. induction Hf as [|[p d] pages [Hp Hd] Hf IH]; intros Hnd main; cbn [copy_pages].
  - exists main. split_and!; try done. intros p d Hin. by apply elem_of_nil in Hin.
  - rewrite fmap_cons, NoDup_cons in Hnd. destruct Hnd as [Hnp Hnd]. cbn [fst snd] in *.
    assert (exists m1, (if (p =? 0) || (full <? p) then Ok main else Vfs.mem_write main d ((p - 1) * ps)) = Ok m1 /\
      zlen main <= zlen m1 /\ (1 <= p <= full -> page_at m1 ps p = d /\ p * ps <= zlen m1) /\
      forall q, 1 <= q -> q * ps <= zlen main -> q <> p \/ full < q -> page_at m1 ps q = page_at main ps q) as (m1 & E1 & Hl1 & Hp1 & Hq1).
    { destruct (Z.eqb_spec p 0); [|destruct (Z.ltb_spec full p)]; cbn [orb].
      - exists main. split_and!; try done; lia.
      - exists main. split_and!; try done; lia.
      - destruct (page_write main d ps p Hps Hd ltac:(lia) ltac:(nia)) as (m1 & -> & Hl & Hpp & Hqq).
        exists m1. split_and!; [done|lia| |].
        + intros _. split; [done|lia].
        + intros q Hq Hqz [Hne|Hgt]; apply Hqq; lia. }
    destruct (IH Hnd m1) as (m2 & E2 & Hl2 & Hp2 & Hq2). exists m2. split_and!.
    + destruct ((p =? 0) || (full <? p)); [injection E1 as ->; done|]. by rewrite E1.
    + lia.
    + intros p' d' [[= -> ->]|Hin]%elem_of_cons Hr; [|by apply (Hp2 p')].
      destruct (Hp1 Hr) as [E Hpz]. rewrite (Hq2 p) by (lia || tauto). split; [done|lia].
    + intros q Hq Hqz Hor. rewrite fmap_cons, not_elem_of_cons in Hor. cbn [fst] in Hor.
      rewrite Hq2 by (lia || tauto). apply Hq1; [done|done|]. tauto.
Qed.

(** ** The index invariant *)

Record idx_ok (ix : WalIndex) (ps : Z) : Prop := {
  io_ps : 0 < ps <= 65536;
  io_mx : mx_frame ix = zlen (log ix);
  io_committed : committed (log ix);
  io_frames : Forall (frame_ok ps) (log ix);
  io_backfill : 0 <= n_backfill ix <= mx_frame ix;
  io_readers : Forall (fun m => 0 <= m <= mx_frame ix) (readers ix) }.

Lemma min_fold rs : forall r, let m := fold_left Z.min rs r in (m = r \/ m ∈ rs) /\ m <= r /\ Forall (fun x => m <= x) rs.
Proof.
  induction rs as [|x rs IH]; intros r; cbn [fold_left].
  - split_and!; [by left|lia|constructor].
  - destruct (IH (Z.min r x)) as (Hin & Hle & Hf). cbv zeta. split_and!.
    + destruct Hin as [E|Hin]; [|right; by right]. destruct (Z.min_spec r x) as [[_ E']|[_ E']].
      * left. congruence.
      * right. rewrite E, E'. by left.
    + lia.
    + constructor; [lia|done].
Qed.

Lemma min_reader_mark_spec ix :
  match min_reader_mark ix with
  | None => readers ix = []
  | Some m => m ∈ readers ix /\ Forall (fun x => m <= x) (readers ix)
  end.
Proof.
  unfold min_reader_mark. destruct (readers ix) as [|r rs]; [done|].
  destruct (min_fold rs r) as (Hin & Hle & Hf). split; [|by constructor].
  destruct Hin as [->|Hin]; [by left|by right].
Qed.

Lemma full_db_size_range ix ps : idx_ok ix ps -> is_u32 (full_db_size ix).
Proof.
  intros H. unfold full_db_size. destruct (find_rev _ (log ix)) as [f|] eqn:E; simpl; [|unfold is_uint; lia].
  apply find_rev_Some in E as (l1 & l2 & E & _). pose proof (io_frames ix ps H) as Hf. rewrite E in Hf.
  apply Forall_app in Hf as [_ Hf]. inversion_clear Hf as [|? ? (_ & ? & _) _]. done.
Qed.

Definition mx_safe (ix : WalIndex) : Z := mx_safe_of (mx_frame ix) (min_reader_mark ix).

Lemma mx_safe_range ix ps : idx_ok ix ps -> 0 <= mx_safe ix <= mx_frame ix /\ Forall (fun m => mx_safe ix <= m) (readers ix).
Proof.
  intros H. pose proof (min_reader_mark_spec ix) as Hm. unfold mx_safe, mx_safe_of. pose proof (io_backfill ix ps H).
  pose proof (io_readers ix ps H) as Hr. destruct (min_reader_mark ix) as [m|].
  - destruct Hm as [Hin Hall]. rewrite Forall_forall in Hr. pose proof (Hr m Hin).
    destruct (Z.ltb_spec m (mx_frame ix)); (split; [lia|]); [done|].
    eapply Forall_impl; [exact Hall|]. simpl. intros; lia.
  - rewrite Hm. split; [lia|constructor].
Qed.

(** What the backfill phase does. *)
Lemma backfill_spec ps c : idx_ok (c_index c) ps ->
  exists c', backfill ps c = Ok c' /\
    c_index c' = set_n_backfill (c_index c) (mx_safe (c_index c)) /\
    c_wal c' = c_wal c /\ c_rt c' = c_rt c /\
    let ix := c_index c in let full := full_db_size ix in
    (n_backfill ix < mx_safe ix \/ c_main c' = c_main c) /\
    (forall p i f, newest_at (log ix) p i f -> n_backfill ix <= i < mx_safe ix -> 1 <= p <= full ->
       page_at (c_main c') ps p = f_data f /\ p * ps <= zlen (c_main c')) /\
    (forall q, 1 <= q -> q * ps <= zlen (c_main c) ->
       (forall i f, newest_at (log ix) q i f -> n_backfill ix <= i < mx_safe ix -> False) ->
       (n_backfill ix < mx_safe ix -> mx_safe ix = mx_frame ix -> q <= full) ->
       page_at (c_main c') ps q = page_at (c_main c) ps q /\ q * ps <= zlen (c_main c')) /\
    (n_backfill ix < mx_safe ix -> mx_safe ix = mx_frame ix -> zlen (c_main c') = full * ps).
Proof.
  intros H. set (ix := c_index c) in *. pose proof (io_ps ix ps H). pose proof (io_backfill ix ps H) as Hb.
  pose proof (full_db_size_range ix ps H) as Hfull. unfold is_uint in Hfull.
  pose proof (mx_safe_range ix ps H) as [Hsafe _].
  unfold backfill. fold ix. fold (mx_safe ix).
  assert (set_n_backfill ix (n_backfill ix) = ix) as Eid by (unfold set_n_backfill; by rewrite Z.ltb_irrefl).
  assert (mx_safe ix <= n_backfill ix -> set_n_backfill ix (mx_safe ix) = ix) as Eno.
  { intros Hle. unfold set_n_backfill. destruct (Z.ltb_spec (n_backfill ix) (mx_safe ix)); [lia|done]. }
  destruct (Z.ltb_spec (n_backfill ix) (mx_safe ix)) as [Hlt|Hge].
  2:{ exists c. assert ((if n_backfill ix <? mx_frame ix then Ok c else Ok c) = Ok c) as -> by (by destruct (_ <? _)).
      rewrite Eno by done. cbv zeta. split_and!; try done; [by right|lia|lia]. }
  destruct (Z.ltb_spec (n_backfill ix) (mx_frame ix)); [|lia].
  destruct (backfill_pages_spec ix (mx_safe ix) (io_mx ix ps H) ltac:(lia)) as (pages & -> & Hnd & Hel). bind_step.
  destruct (copy_pages_spec (full_db_size ix) ps pages ltac:(lia) ltac:(nia)) with (main := c_main c)
    as (m1 & -> & Hl & Hw & Hk); [|done|].
  { apply Forall_forall. intros [p d] (i & f & Hf & _ & <-)%Hel. cbn [fst snd].
    destruct Hf as (l1 & l2 & E & _ & Hp & _). pose proof (io_frames ix ps H) as Hfr. rewrite E in Hfr.
    apply Forall_app in Hfr as [_ Hfr]. inversion_clear Hfr as [|? ? (Hu & _ & Hd) _].
    subst p. unfold is_uint in Hu. split; [lia|done]. }
  bind_step.
  set (r := if mx_safe ix =? mx_frame ix then _ else _).
  assert (exists m2 dk, r = (m2, dk) /\ (mx_safe ix = mx_frame ix -> zlen m2 = full_db_size ix * ps) /\
    (forall q, 1 <= q -> q * ps <= zlen m1 -> (mx_safe ix = mx_frame ix -> q <= full_db_size ix) ->
       page_at m2 ps q = page_at m1 ps q /\ q * ps <= zlen m2)) as (m2 & dk & -> & Hz2 & Hp2).
  { unfold r. destruct (Z.eqb_spec (mx_safe ix) (mx_frame ix)) as [E|E]; eexists _, _; (split; [done|]).
    - assert (zlen (Vfs.resize0 m1 (full_db_size ix * ps)) = full_db_size ix * ps) as Ez by (apply Vfs.zlen_resize0; nia).
      split; [done|]. intros q Hq Hqz Hqf. specialize (Hqf E). rewrite Ez. split; [|nia]. apply page_at_resize; nia.
    - split; [done|]. done. }
  eexists. split; [done|]. cbn [c_index c_wal c_rt c_main]. split_and!; try done; [by left|..].
  - intros p i f Hf Hi Hp. destruct (Hw p (f_data f)) as [E Hpz]; [|done|].
    { apply Hel. by exists i, f. }
    destruct (Hp2 p) as [E2 Hz]; [lia|lia|lia|]. by rewrite E2.
  - intros q Hq Hqz Hno Hqf. assert (q ∉ pages.*1) as Hnin.
    { intros ([q' d] & -> & (i & f & Hf & Hi & _)%Hel)%list_elem_of_fmap. by apply (Hno i f). }
    destruct (Hp2 q) as [E2 Hz]; [lia|lia|by apply Hqf|]. rewrite E2. split; [|done]. apply Hk; [done|done|by left].
Qed.

(** ** Readers beside writers and checkpoints *)

(** One step of the connections that share a database: a commit, a checkpoint,
    the start or the end of a read transaction. *)
Inductive sys_step (ps : Z) : bytes * WalIndex -> bytes * WalIndex -> Prop :=
  | sys_commit main ix file conn pages new_count file' ix' s :
      pages <> [] -> Forall (page_ok ps) pages -> is_u32 new_count -> new_count <> 0 ->
      zlen (log (maybe_restart ix)) + zlen pages < 2 ^ 32 ->
      commit_frames file ix conn pages new_count ps = Ok (file', ix', s) ->
      sys_step ps (main, ix) (main, ix')
  | sys_checkpoint mode c busy lg ck c' :
      checkpoint_locked mode ps c = Ok (busy, lg, ck, c') ->
      sys_step ps (c_main c, c_index c) (c_main c', c_index c')
  | sys_begin_read main ix : sys_step ps (main, ix) (main, register_reader ix (snap_mx (snapshot ix)))
  | sys_end_read main ix m : sys_step ps (main, ix) (main, unregister_reader ix m).

(** What a reader with mark [m] sees of page [p]. *)
Definition view (main : bytes) (ix : WalIndex) (ps m p : Z) : bytes :=
  match find_frame ix p m with Some d => d | None => page_at main ps p end.

(** Page [p] belongs to the snapshot. *)
Definition in_snapshot (main : bytes) (ix : WalIndex) (ps m p : Z) : Prop :=
  1 <= p /\ (forall D, snapshot_db_size ix m = Some D -> p <= D) /\
  (find_frame ix p m = None -> p * ps <= zlen main).

Lemma write_frames_app ps n nc be s pages : forall i file off ck f app,
  write_frames pages i n nc ps be s file off ck = Ok (f, app) ->
  (fun a => mkIFrame (a_page a) (a_db a) (a_data a)) <$> app = staged pages i n nc.
Proof.
  induction pages as [|[p d] pages IH]; intros i file off ck f app E; cbn [write_frames staged] in *.
  - by injection E as <- <-.
  - apply res_bind_Ok in E as (file1 & _ & E). apply res_bind_Ok in E as ([f2 rest] & E & E').
    injection E' as <- <-. rewrite fmap_cons. by rewrite (IH _ _ _ _ _ _ E).
Qed.

Lemma commit_frames_index file ix conn pages nc ps file' ix' s : pages <> [] ->
  zlen (log (maybe_restart ix)) + zlen pages < 2 ^ 32 ->
  commit_frames file ix conn pages nc ps = Ok (file', ix', s) ->
  log ix' = log (maybe_restart ix) ++ staged pages 0 (zlen pages) nc /\
  mx_frame ix' = zlen (log ix') /\ n_backfill ix' = n_backfill (maybe_restart ix) /\
  readers ix' = readers (maybe_restart ix).
Proof.
  intros Hne Hlen E. unfold commit_frames in E. set (ix1 := maybe_restart ix) in *.
  apply res_bind_Ok in E as ([f0 c] & _ & E). apply res_bind_Ok in E as ([f1 app] & Ew & E). injection E as <- <- <-.
  apply write_frames_app in Ew. destruct (append_all_spec (k_salt c) ps app ix1) as (El & Eb & _ & _ & _ & Er & Hl).
  rewrite Ew in El. assert (exists a, last app = Some a) as [a Ha].
  { destruct app as [|a app _] using rev_ind; [|exists a; by rewrite last_snoc].
    destruct pages as [|[] pages]; [done|]. cbn in Ew. done. }
  destruct (Hl a Ha) as (Emx & _). split_and!; try done. rewrite Emx. apply wrap_small.
  rewrite El, zlen_app, zlen_staged. unfold is_uint. pose proof (zlen_nonneg (log ix1)). pose proof (zlen_nonneg pages). lia.
Qed.

Lemma maybe_restart_pinned ix m : m ∈ readers ix -> maybe_restart ix = ix.
Proof.
  intros Hm. unfold maybe_restart. pose proof (min_reader_mark_spec ix) as Hs.
  destruct (min_reader_mark ix); [by rewrite andb_false_r|]. rewrite Hs in Hm. by apply elem_of_nil in Hm.
Qed.

Lemma idx_ok_commit ix ps pages nc ix' : idx_ok ix ps ->
  pages <> [] -> Forall (page_ok ps) pages -> is_u32 nc -> nc <> 0 ->
  log ix' = log ix ++ staged pages 0 (zlen pages) nc -> mx_frame ix' = zlen (log ix') ->
  n_backfill ix' = n_backfill ix -> readers ix' = readers ix -> idx_ok ix' ps.
Proof.
  intros [H1 H2 H3 H4 H5 H6] Hne Hp Hnc Hnc0 El Emx Eb Er. pose proof (zlen_nonneg (staged pages 0 (zlen pages) nc)).
  assert (mx_frame ix <= mx_frame ix') by (rewrite Emx, El, zlen_app; lia). split; try done.
  - rewrite El. apply committed_app; [by apply staged_committed|]. by destruct pages as [|[]].
  - rewrite El. apply Forall_app. split; [done|]. by apply staged_ok.
  - rewrite Eb. lia.
  - rewrite Er. eapply Forall_impl; [exact H6|]. simpl. intros; lia.
Qed.

Lemma take_visible (l k : list IndexFrame) m : 0 <= m <= zlen l ->
  take (Z.to_nat (Z.min m (zlen (l ++ k)))) (l ++ k) = take (Z.to_nat (Z.min m (zlen l))) l.
Proof.
  intros Hm. rewrite zlen_app. pose proof (zlen_nonneg k). rewrite !Z.min_l by lia.
  apply take_app_le. unfold zlen in *. lia.
Qed.

(** The index seen through mark [m] only depends on the first [m] frames. *)
Lemma snapshot_append ix ix' k m : log ix' = log ix ++ k -> 0 <= m <= zlen (log ix) ->
  (forall p, find_frame ix' p m = find_frame ix p m) /\ snapshot_db_size ix' m = snapshot_db_size ix m.
Proof.
  intros E Hm. unfold find_frame, snapshot_db_size. rewrite E, take_visible by done. done.
Qed.

(** A frame the reader does not see lies at or after its mark. *)
Lemma invisible_late ix p m i f : 0 <= m -> find_frame ix p m = None -> newest_at (log ix) p i f -> m <= i.
Proof.
  intros Hm Hnone Hn. destruct (decide (m <= i)); [done|]. exfalso.
  pose proof (newest_at_idx _ _ _ _ Hn) as [Hi Hr]. unfold find_frame in Hnone.
  destruct (find_rev _ _) eqn:E in Hnone; [done|]. apply find_rev_None in E.
  apply idx_Ok in Hi as [_ Hi].
  assert (take (Z.to_nat (Z.min m (zlen (log ix)))) (log ix) !! Z.to_nat i = Some f) as Ht
    by (rewrite lookup_take_lt by lia; done).
  pose proof (Forall_lookup_1 _ _ _ _ E Ht) as Hp. destruct Hn as (_ & _ & _ & _ & <- & _).
  simpl in Hp. by rewrite Z.eqb_refl in Hp.
Qed.

Lemma full_snapshot ix ps : idx_ok ix ps -> 0 < mx_frame ix ->
  snapshot_db_size ix (mx_frame ix) = Some (full_db_size ix).
Proof.
  intros [_ H2 H3 _ _ _] Hpos. unfold snapshot_db_size, full_db_size. rewrite H2, Z.min_id.
  unfold zlen in *. rewrite Nat2Z.id, firstn_all.
  destruct H3 as [E|(gs & f & -> & Hf)]; [rewrite E in H2; simpl in H2; lia|].
  rewrite find_rev_snoc. apply Z.eqb_neq in Hf. by rewrite Hf.
Qed.

Lemma set_n_backfill_fields ix n :
  log (set_n_backfill ix n) = log ix /\ mx_frame (set_n_backfill ix n) = mx_frame ix /\
  readers (set_n_backfill ix n) = readers ix /\ n_backfill (set_n_backfill ix n) = Z.max (n_backfill ix) n /\
  salt (set_n_backfill ix n) = salt ix.
Proof. unfold set_n_backfill. destruct (Z.ltb_spec (n_backfill ix) n); cbn; split_and!; try done; lia. Qed.

Lemma idx_ok_backfill ix ps n : idx_ok ix ps -> 0 <= n <= mx_frame ix -> idx_ok (set_n_backfill ix n) ps.
Proof.
  intros [H1 H2 H3 H4 H5 H6] Hn. destruct (set_n_backfill_fields ix n) as (E1 & E2 & E3 & E4 & _).
  split; rewrite ?E1, ?E2, ?E3, ?E4; try done. lia.
Qed.

(** A pinned reader keeps the log in place through a checkpoint. *)
Lemma finish_pinned mode mx c m : m ∈ readers (c_index c) ->
  exists b, finish mode mx c = (b, c).
Proof.
  intros Hm. pose proof (min_reader_mark_spec (c_index c)) as Hs. unfold finish.
  destruct (min_reader_mark (c_index c)) eqn:E; [|rewrite Hs in Hm; by apply elem_of_nil in Hm].
  destruct mode; [by eexists|..]; destruct (n_backfill (c_index c) <? mx); try (by eexists); by cbn; eexists.
Qed.

Lemma checkpoint_index mode ps c busy lg ck c' m : idx_ok (c_index c) ps -> m ∈ readers (c_index c) ->
  checkpoint_locked mode ps c = Ok (busy, lg, ck, c') ->
  exists c1, backfill ps c = Ok c1 /\ c_main c' = c_main c1 /\
    c_index c' = set_n_backfill (c_index c) (mx_safe (c_index c)).
Proof.
  intros Hok Hm E. unfold checkpoint_locked in E.
  destruct (backfill_spec ps c Hok) as (c1 & E1 & Ei & _). rewrite E1, bind_Ok in E.
  destruct (set_n_backfill_fields (c_index c) (mx_safe (c_index c))) as (_ & _ & Er & _).
  destruct (finish_pinned mode (mx_frame (c_index c)) c1 m) as [b Ef]; [by rewrite Ei, Er|].
  rewrite Ef in E. injection E as _ _ _ <-. exists c1. cbn. by rewrite Ei.
Qed.

Lemma snapshot_step ps main ix main' ix' m p : idx_ok ix ps -> m ∈ readers ix -> in_snapshot main ix ps m p ->
  sys_step ps (main, ix) (main', ix') ->
  idx_ok ix' ps /\ in_snapshot main' ix' ps m p /\ view main' ix' ps m p = view main ix ps m p.
Proof.
  intros Hok Hm Hin Hstep. pose proof (io_readers ix ps Hok) as Hrd. rewrite Forall_forall in Hrd.
  pose proof (Hrd m Hm) as Hmr. pose proof (io_mx ix ps Hok) as Emx.
  inversion Hstep as [main0 ix0 file conn pages nc file' ix0' s Hne Hp Hnc Hnc0 Hlen E|mode c busy lg ck c' E|main0 ix0|main0 ix0 m']; subst.
  - rewrite (maybe_restart_pinned ix m Hm) in Hlen.
    apply commit_frames_index in E as (El & Em & Eb & Er); [|done|by rewrite (maybe_restart_pinned ix m Hm)].
    rewrite (maybe_restart_pinned ix m Hm) in *.
    destruct (snapshot_append ix ix' _ m El ltac:(lia)) as [Ef Ed].
    split; [by eapply idx_ok_commit|]. unfold in_snapshot, view. by rewrite Ef, Ed.
  - destruct (checkpoint_index mode ps c busy lg ck c' m Hok Hm E) as (c1 & E1 & Emain & Eix).
    destruct (backfill_spec ps c Hok) as (c2 & E2 & _ & _ & _ & _ & _ & Hkeep & _).
    assert (c2 = c1) as -> by congruence. cbv zeta in Hkeep. rewrite <- Emain in Hkeep.
    pose proof (mx_safe_range (c_index c) ps Hok) as [Hsafe Hall]. rewrite Forall_forall in Hall.
    pose proof (Hall m Hm) as Hsm.
    destruct (set_n_backfill_fields (c_index c) (mx_safe (c_index c))) as (El & _).
    assert ((forall q, find_frame (c_index c') q m = find_frame (c_index c) q m) /\
            snapshot_db_size (c_index c') m = snapshot_db_size (c_index c) m) as [Ef Ed].
    { unfold find_frame, snapshot_db_size. by rewrite Eix, El. }
    split; [rewrite Eix; apply idx_ok_backfill; [done|lia]|].
    destruct Hin as (Hp1 & Hd & Hz). unfold in_snapshot, view. rewrite Ef, Ed.
    destruct (find_frame (c_index c) p m) as [d|] eqn:Enone; [done|]. specialize (Hz eq_refl).
    destruct (Hkeep p Hp1 Hz) as [Ep Hz']; [| |by split_and!].
    + intros i f Hf Hi. apply (invisible_late _ _ m) in Hf; [lia|lia|done].
    + intros Hlt Hmx. assert (m = mx_frame (c_index c)) as -> by lia.
      apply Hd. apply (full_snapshot _ ps Hok). pose proof (io_backfill _ ps Hok). lia.
  - split; [|done]. destruct Hok as [H1 H2 H3 H4 H5 H6]. split; try done. cbn [register_reader with_readers readers mx_frame].
    apply Forall_app. split; [done|]. constructor; [|constructor]. cbn [snapshot snap_mx]. lia.
  - assert (log (unregister_reader ix m') = log ix /\ mx_frame (unregister_reader ix m') = mx_frame ix /\
            n_backfill (unregister_reader ix m') = n_backfill ix /\
            Forall (fun m => 0 <= m <= mx_frame ix) (readers (unregister_reader ix m'))) as (El & Em & Eb & Hr).
    { unfold unregister_reader. destruct (list_find _ (readers ix)) as [[pos x]|]; [|by split_and!; try apply Hok].
      split_and!; try done. cbn. unfold swap_remove. destruct (last (readers ix)) as [y|] eqn:Ey; [|apply Hok].
      rewrite removelast_firstn_len. apply Forall_take, Forall_insert; [apply Hok|].
      apply Hrd. by apply last_Some_elem_of. }
    split; [destruct Hok as [H1 H2 H3 H4 H5 H6]; split; rewrite ?El, ?Em, ?Eb; done|].
    unfold in_snapshot, view, find_frame, snapshot_db_size. by rewrite El.
Qed.

(** C10: snapshot isolation. While a reader stays pinned at its mark, no
    sequence of commits, checkpoints in any mode and other readers coming and
    going changes any page of its snapshot, whether it reads the page from the
    log or from the main file the checkpointer writes to. *)
Theorem wal_snapshot_isolation (ps m p : Z) (main main' : bytes) (ix ix' : WalIndex) :
  idx_ok ix ps -> m ∈ readers ix -> in_snapshot main ix ps m p ->
  rtc (fun a b => sys_step ps a b /\ m ∈ readers b.2) (main, ix) (main', ix') ->
  view main' ix' ps m p = view main ix ps m p.
Proof.
  intros Hok Hm Hin Hr.
  assert (forall a b, rtc (fun a b => sys_step ps a b /\ m ∈ readers b.2) a b ->
    idx_ok a.2 ps -> m ∈ readers a.2 -> in_snapshot a.1 a.2 ps m p ->
    view b.1 b.2 ps m p = view a.1 a.2 ps m p) as G; [|by apply (G _ _ Hr)].
  clear. intros a b H. induction H as [a|a b c [Hs Hm'] _ IH]; [done|]. intros Hok Hm Hin.
  destruct a as [ma ia], b as [mb ib]. destruct (snapshot_step ps ma ia mb ib m p Hok Hm Hin Hs) as (Hok' & Hin' & Ev).
  cbn [fst snd] in *. by rewrite IH.
Qed.

(** A reader on an empty log, then a commit of page 1, then a checkpoint. *)
Definition demo_main : bytes := replicate 512 5.
Definition demo_ix0 : WalIndex := register_reader index_new 0.
Definition demo_ix1 : WalIndex :=
  match commit_frames [] demo_ix0 [1; 2; 3; 4; 5; 6; 7; 8] [(1, replicate 512 7)] 1 512 with
  | Ok (_, ix, _) => ix | _ => demo_ix0
  end.
Definition demo_ckpt : Ckpt :=
  mkCkpt demo_main (Some demo_wal) demo_ix1 (mkRuntime (mkSnap 1 0) None 1 [1; 2; 3; 4; 5; 6; 7; 8]) 1 false.

Lemma wal_snapshot_isolation_witness : view demo_main demo_ix1 512 0 1 = view demo_main demo_ix0 512 0 1.
Proof.
  apply (wal_snapshot_isolation 512 0 1 demo_main demo_main demo_ix0 demo_ix1).
  - split; cbn; try done; [left; done|]. constructor; [lia|constructor].
  - cbn. by left.
  - split; [lia|]. split; [by intros D|]. intros _. vm_compute. discriminate.
  - apply (rtc_l _ _ (demo_main, demo_ix1)).
    + split; [|vm_compute; left].
      apply (sys_commit 512 demo_main demo_ix0 [] [1; 2; 3; 4; 5; 6; 7; 8] [(1, replicate 512 7)] 1 demo_wal demo_ix1 [1; 2; 3; 4; 5; 6; 7; 8]);
        [done|repeat constructor; cbn; lia|unfold is_uint; lia|done|reflexivity|vm_compute; reflexivity].
    + apply (rtc_l _ _ (demo_main, demo_ix1)); [|apply rtc_refl]. split; [|vm_compute; left].
      apply (sys_checkpoint 512 Full demo_ckpt true 1 0 (refresh 1 demo_ckpt)). vm_compute. reflexivity.
Defined.

(** Frames below the backfill mark are in the main file already. *)
Definition backfilled (main : bytes) (ix : WalIndex) (ps : Z) : Prop :=
  forall p i f, newest_at (log ix) p i f -> i < n_backfill ix -> 1 <= p <= full_db_size ix ->
    page_at main ps p = f_data f /\ p * ps <= zlen main.

Lemma find_frame_full ix ps p : idx_ok ix ps ->
  find_frame ix p (mx_frame ix) = f_data <$> find_rev (fun f => page_no f =? p) (log ix).
Proof.
  intros H. unfold find_frame. rewrite (io_mx ix ps H), Z.min_id. unfold zlen. by rewrite Nat2Z.id, firstn_all.
Qed.

(** C33: a complete checkpoint. With no reader pinned, a TRUNCATE checkpoint
    succeeds, reports (0, 0, 0), empties the log and its file, and leaves in
    the main file every page of the database as the log and the old main file
    together showed it. *)
Theorem checkpoint_complete (ps : Z) (c : Ckpt) :
  idx_ok (c_index c) ps -> readers (c_index c) = [] -> backfilled (c_main c) (c_index c) ps ->
  exists c', checkpoint_locked Truncate ps c = Ok (false, 0, 0, c') /\
    log (c_index c') = [] /\ c_wal c' = (fun _ => []) <$> c_wal c /\
    forall p, 1 <= p <= full_db_size (c_index c) ->
      (find_frame (c_index c) p (mx_frame (c_index c)) = None -> p * ps <= zlen (c_main c)) ->
      page_at (c_main c') ps p = view (c_main c) (c_index c) ps (mx_frame (c_index c)) p.
Proof.
  intros Hok Hrd Hbf. destruct (backfill_spec ps c Hok) as (c1 & E1 & Ei & Ew & Ert & _ & Hnew & Hkeep & _).
  assert (min_reader_mark (c_index c) = None) as Emin by (unfold min_reader_mark; by rewrite Hrd).
  assert (mx_safe (c_index c) = mx_frame (c_index c)) as Esafe by (unfold mx_safe; by rewrite Emin).
  pose proof (io_backfill _ ps Hok) as Hb.
  destruct (set_n_backfill_fields (c_index c) (mx_safe (c_index c))) as (_ & _ & Er & En & _).
  unfold checkpoint_locked. rewrite E1. bind_step. unfold finish. rewrite Ei.
  rewrite En, Esafe, Z.max_r, Z.ltb_irrefl by lia. cbn [mode_rank Z.leb Z.eqb Z.compare].
  assert (min_reader_mark (set_n_backfill (c_index c) (mx_frame (c_index c))) = None) as ->.
  { unfold min_reader_mark. by rewrite <- Esafe, Er, Hrd. }
  eexists. split; [done|]. cbn [refresh c_index restart_hdr log c_wal c_main]. split; [done|].
  split; [by rewrite Ew|]. intros p Hp Hz. cbv zeta in Hnew, Hkeep. rewrite Esafe in Hnew, Hkeep.
  unfold view in *. rewrite (find_frame_full _ ps) in * by done.
  destruct (find_rev (fun f => page_no f =? p) (log (c_index c))) as [f|] eqn:Ef; cbn [fmap option_fmap option_map] in *.
  - apply find_newest_at in Ef as [i Hi]. pose proof (newest_at_idx _ _ _ _ Hi) as [_ Hir].
    rewrite (io_mx _ ps Hok) in *.
    destruct (decide (n_backfill (c_index c) <= i)); [by apply (Hnew p i f); [|lia|]|].
    destruct (Hbf p i f Hi ltac:(lia) Hp) as [Epage Hpz].
    destruct (Hkeep p ltac:(lia) Hpz) as [-> _]; [|lia|done].
    intros j g Hg Hj. pose proof (newest_at_inj _ _ _ _ _ _ Hg Hi). lia.
  - apply find_rev_None in Ef. specialize (Hz eq_refl). apply (Hkeep p); [lia|done| |lia].
    intros i f Hf _. apply (newest_at_not_Forall _ _ _ _ Hf).
    eapply Forall_impl; [exact Ef|]. intros g Hg. by apply Z.eqb_neq.
Qed.

(** The same log with no reader left. *)
Definition demo_ckpt_free : Ckpt :=
  mkCkpt demo_main (Some demo_wal) (with_readers demo_ix1 []) (mkRuntime (mkSnap 1 0) None 1 [1; 2; 3; 4; 5; 6; 7; 8]) 1 false.

Lemma checkpoint_complete_witness :
  exists c', checkpoint_locked Truncate 512 demo_ckpt_free = Ok (false, 0, 0, c') /\
    log (c_index c') = [] /\ c_wal c' = Some [] /\
    forall p, 1 <= p <= full_db_size (c_index demo_ckpt_free) ->
      (find_frame (c_index demo_ckpt_free) p (mx_frame (c_index demo_ckpt_free)) = None -> p * 512 <= zlen (c_main demo_ckpt_free)) ->
      page_at (c_main c') 512 p = view (c_main demo_ckpt_free) (c_index demo_ckpt_free) 512 (mx_frame (c_index demo_ckpt_free)) p.
Proof.
  apply (checkpoint_complete 512 demo_ckpt_free).
  - split; [lia|vm_compute; reflexivity| | |vm_compute; split; discriminate|constructor].
    + right. exists [], (mkIFrame 1 1 (replicate 512 7)). split; [vm_compute; reflexivity|done].
    + change (log (c_index demo_ckpt_free)) with (log demo_ix1).
      replace (log demo_ix1) with [mkIFrame 1 1 (replicate 512 7)] by (vm_compute; reflexivity).
      repeat constructor; cbn; lia.
  - reflexivity.
  - intros p i f Hn Hi. exfalso. change (n_backfill (c_index demo_ckpt_free)) with (n_backfill demo_ix1) in Hi.
    replace (n_backfill demo_ix1) with 0 in Hi by (vm_compute; reflexivity).
    destruct (newest_at_idx _ _ _ _ Hn). lia.
Defined.

End WalIndexProps.
