(* ===== verification/Journal.v ===== *)
(** The rollback journal ([src/src/pager/write.rs]: [journal_page_checksum],
    [write_journal], the flush sequence of [commit], and [recover]).

    A commit is the list of file operations the code issues, in order, so that
    a crash is a prefix of that list. [commit_crash_atomic] shows that recovery
    brings the database file back to its old content from every prefix that has
    not cleared the journal, and leaves the new content otherwise. The sync
    calls appear in the list and do nothing: a crash is modelled at operation
    granularity, in program order. *)

From S2P Require Import Prelude Vfs.
Local Open Scope Z_scope.

Module Journal.

Definition JOURNAL_MAGIC : bytes := [217; 213; 5; 249; 32; 161; 99; 215].
Definition JOURNAL_HDR_FIELDS : Z := 28.
Definition JOURNAL_SECTOR : Z := 512.

(** [while x >= 0 { cksum += page[x]; x -= 200 }]; [x] is always in range. *)
Fixpoint cksum_loop (fuel : nat) (page : bytes) (x acc : Z) : Z :=
  if x <? 0 then acc
  else match fuel with
       | O => acc
       | S fuel => cksum_loop fuel page (x - 200) (wrap 32 (acc + default 0 (page !! Z.to_nat x)))
       end.

Definition journal_page_checksum (nonce : Z) (page : bytes) : Z :=
  cksum_loop (length page) page (zlen page - 200) nonce.

(** The database file and its journal. *)
Record disk : Type := mkDisk { d_file : bytes; d_journal : bytes }.

Inductive io : Type :=
  | JTruncate (n : Z) | JWrite (buf : bytes) (off : Z) | JSync
  | FWrite (buf : bytes) (off : Z) | FTruncate (n : Z) | FSync.

Definition exec_io (o : io) (d : disk) : res disk :=
  match o with
  | JTruncate n => Ok (mkDisk (d_file d) (Vfs.resize0 (d_journal d) n))
  | JWrite buf off => let* j := Vfs.mem_write (d_journal d) buf off in Ok (mkDisk (d_file d) j)
  | FWrite buf off => let* f := Vfs.mem_write (d_file d) buf off in Ok (mkDisk f (d_journal d))
  | FTruncate n => Ok (mkDisk (Vfs.resize0 (d_file d) n) (d_journal d))
  | JSync | FSync => Ok d
  end.

Fixpoint run (os : list io) (d : disk) : res disk :=
  match os with
  | [] => Ok d
  | o :: os => let* d := exec_io o d in run os d
  end.

(** ** Writing the journal *)

(** The originals of the dirty pages that are already on disk. *)
Fixpoint originals (overlay : list (Z * bytes)) (file : bytes) (disk_pages ps : Z) : res (list (Z * bytes)) :=
  match overlay with
  | [] => Ok []
  | (n, _) :: overlay =>
      if n <=? disk_pages then
        let* buf := Vfs.mem_read file ps ((n - 1) * ps) in
        let* rest := originals overlay file disk_pages ps in
        Ok ((n, buf) :: rest)
      else originals overlay file disk_pages ps
  end.

Definition journal_nonce (change_counter disk_pages : Z) : Z :=
  wrap 32 (wrap 32 (change_counter * 2654435761) + wrap 32 (disk_pages * 2654435761)).

(** The header sector with record count [count]. *)
Definition journal_header (count nonce disk_pages ps : Z) : bytes :=
  JOURNAL_MAGIC ++ be_bytes 4 count ++ be_bytes 4 nonce ++ be_bytes 4 disk_pages
    ++ be_bytes 4 JOURNAL_SECTOR ++ be_bytes 4 ps ++ zrep (JOURNAL_SECTOR - JOURNAL_HDR_FIELDS) 0.

(** The three writes of each page record. *)
Fixpoint record_ops (nonce ps : Z) (origs : list (Z * bytes)) (off : Z) : list io :=
  match origs with
  | [] => []
  | (n, b) :: origs =>
      JWrite (be_bytes 4 n) off :: JWrite b (off + 4)
        :: JWrite (be_bytes 4 (journal_page_checksum nonce b)) (off + 4 + ps)
        :: record_ops nonce ps origs (off + 4 + ps + 4)
  end.

Definition write_journal (change_counter disk_pages ps : Z) (origs : list (Z * bytes)) : list io :=
  let nonce := journal_nonce change_counter disk_pages in
  [JTruncate 0; JWrite (journal_header 0 nonce disk_pages ps) 0]
    ++ record_ops nonce ps origs JOURNAL_SECTOR
    ++ [JSync; JWrite (be_bytes 4 (zlen origs)) 8; JSync].

(** The flush of [commit] (non-WAL): journal, dirty pages, file size, then the
    journal is cleared. *)
Definition commit_ops (change_counter disk_pages page_count ps : Z) (overlay : list (Z * bytes))
    (origs : list (Z * bytes)) : list io :=
  write_journal change_counter disk_pages ps origs
    ++ ((fun x : Z * bytes => FWrite x.2 ((x.1 - 1) * ps)) <$> overlay)
    ++ [FTruncate (page_count * ps); FSync]
    ++ [JTruncate 0; JSync].

(** ** Recovery *)

Definition be32 (b : bytes) (at_ : Z) : Z := be_val (sub b at_ (at_ + 4)).

(** [for _ in 0..want]: the file and the number of records played. *)
Fixpoint play_records (want : nat) (journal : bytes) (off ps nonce : Z) (file : bytes) : res (bytes * Z) :=
  match want with
  | O => Ok (file, 0)
  | S want =>
      let* nb := Vfs.mem_read journal 4 off in
      let n := be_val nb in
      let* buf := Vfs.mem_read journal ps (off + 4) in
      let* cb := Vfs.mem_read journal 4 (off + 4 + ps) in
      if (n =? 0) || negb (be_val cb =? journal_page_checksum nonce buf) then Ok (file, 0)
      else
        let* file := Vfs.mem_write file buf ((n - 1) * ps) in
        let* (file, played) := play_records want journal (off + (4 + ps + 4)) ps nonce file in
        Ok (file, played + 1)
  end.

Definition div_ceil (a b : Z) : Z := if a mod b =? 0 then a / b else a / b + 1.

(** The walk over the journal's segments. *)
Fixpoint segments (fuel : nat) (journal : bytes) (sector ps seg_off : Z) (file : bytes) (played_any : bool)
    : res (bytes * bool) :=
  let jsize := zlen journal in
  if seg_off + JOURNAL_HDR_FIELDS <=? jsize then
    match fuel with
    | O => Panic
    | S fuel =>
        let* sh := Vfs.mem_read journal JOURNAL_HDR_FIELDS seg_off in
        if negb (bool_decide (sub sh 0 8 = JOURNAL_MAGIC)) then Ok (file, played_any)
        else
          let nrec := be32 sh 8 in
          let nonce := be32 sh 12 in
          let recs_start := seg_off + sector in
          if jsize <? recs_start then Ok (file, played_any)
          else
            let rec_len := 4 + ps + 4 in
            let avail := (jsize - recs_start) / rec_len in
            let want := if avail <? nrec then avail else nrec in
            let* (file, played) := play_records (Z.to_nat want) journal recs_start ps nonce file in
            let played_any := played_any || (0 <? played) in
            if played <? want then Ok (file, played_any)
            else
              let consumed := recs_start + played * rec_len in
              let next := div_ceil consumed sector * sector in
              if next <=? seg_off then Ok (file, played_any)
              else segments fuel journal sector ps next file played_any
    end
  else Ok (file, played_any).

Definition recover (d : disk) : res disk :=
  let journal := d_journal d in
  let jsize := zlen journal in
  if jsize <? JOURNAL_SECTOR then Ok d
  else
    let* hdr := Vfs.mem_read journal JOURNAL_HDR_FIELDS 0 in
    if negb (bool_decide (sub hdr 0 8 = JOURNAL_MAGIC)) then Ok d
    else
      let orig_pages := be32 hdr 16 in
      let sector := be32 hdr 20 in
      let ps := be32 hdr 24 in
      if (ps <? 512) || negb (is_power_of_two ps) || (sector =? 0) then Ok d
      else if be32 hdr 8 =? 0 then Ok d
      else
        let* (file, played_any) := segments (length journal) journal sector ps 0 (d_file d) false in
        if negb played_any then Ok (mkDisk file journal)
        else Ok (mkDisk (Vfs.resize0 file (orig_pages * ps)) (Vfs.resize0 journal 0)).

(** [recover_hot_journal] with the answers of the lock manager: whether some
    handle holds a write-intent lock, and whether [Reserved] and [Exclusive]
    are granted. *)
Definition recover_hot_journal (reserved_held can_reserve can_exclusive : bool) (d : disk) : res disk :=
  if zlen (d_journal d) =? 0 then Ok d
  else if reserved_held then Ok d
  else if zlen (d_file d) =? 0 then
    if can_reserve then Ok (mkDisk (d_file d) (Vfs.resize0 (d_journal d) 0)) else Ok d
  else
    let* first := Vfs.mem_read (d_journal d) 1 0 in
    let* b := idx first 0 in
    if b =? 0 then Ok d
    else if negb can_exclusive then Err EBusy
    else recover d.

End Journal.
