(* ===== verification/JournalProps.v ===== *)
(** Correctness of the rollback journal model of [Journal]: recovery undoes a
    partly written commit from every crash point, and is total on arbitrary
    journal bytes. *)

From S2P Require Import Prelude Vfs Image Journal.
Import Journal.
Local Open Scope Z_scope.

Module JournalProps.

(** ** Checksums and the header sector *)

Lemma cksum_loop_range fuel page x acc : is_u32 acc -> is_u32 (cksum_loop fuel page x acc).
Proof.
  revert x acc. induction fuel as [|fuel IH]; intros x acc H; cbn [cksum_loop]; destruct (x <? 0); try done.
  by apply IH, wrap_range.
Qed.

Lemma journal_page_checksum_range nonce page : is_u32 nonce -> is_u32 (journal_page_checksum nonce page).
Proof. apply cksum_loop_range. Qed.

Lemma journal_nonce_range cc dp : is_u32 (journal_nonce cc dp).
Proof. by apply wrap_range. Qed.

(** The meaningful bytes of the header sector, as chunks. *)
Definition hdr_chunks (count nonce dp ps : Z) : list bytes :=
  [JOURNAL_MAGIC; be_bytes 4 count; be_bytes 4 nonce; be_bytes 4 dp; be_bytes 4 JOURNAL_SECTOR; be_bytes 4 ps].

Lemma journal_header_chunks count nonce dp ps :
  journal_header count nonce dp ps = concat (hdr_chunks count nonce dp ps) ++ zrep 484 0.
Proof. unfold journal_header, hdr_chunks. cbn [concat]. by rewrite app_nil_r, <- !app_assoc. Qed.

Lemma zlen_hdr_chunks count nonce dp ps : zlen (concat (hdr_chunks count nonce dp ps)) = 28.
Proof. rewrite zlen_concat. unfold hdr_chunks. cbn [fmap list_fmap]. by rewrite !zlen_be_bytes. Qed.

Lemma zlen_journal_header count nonce dp ps : zlen (journal_header count nonce dp ps) = 512.
Proof. rewrite journal_header_chunks, zlen_app, zlen_hdr_chunks, zlen_zrep by lia. done. Qed.

Lemma hdr_fields count nonce dp ps : is_u32 count -> is_u32 nonce -> is_u32 dp -> is_u32 ps ->
  let h := concat (hdr_chunks count nonce dp ps) in
  sub h 0 8 = JOURNAL_MAGIC /\ be32 h 8 = count /\ be32 h 12 = nonce /\ be32 h 16 = dp /\
  be32 h 20 = JOURNAL_SECTOR /\ be32 h 24 = ps.
Proof.
  intros Hc Hn Hd Hp h.
  assert (forall i c a b, hdr_chunks count nonce dp ps !! i = Some c ->
    a = zlen (concat (take i (hdr_chunks count nonce dp ps))) -> b = a + zlen c -> sub h a b = c) as Hs.
  { intros i c a b Hi Ha Hb. rewrite <- (app_nil_r h). by eapply sub_concat. }
  unfold be32. split_and!.
  - by apply (Hs 0%nat JOURNAL_MAGIC).
  - by rewrite (Hs 1%nat (be_bytes 4 count)), be32_bytes.
  - by rewrite (Hs 2%nat (be_bytes 4 nonce)), be32_bytes.
  - by rewrite (Hs 3%nat (be_bytes 4 dp)), be32_bytes.
  - by rewrite (Hs 4%nat (be_bytes 4 JOURNAL_SECTOR)), be32_bytes.
  - by rewrite (Hs 5%nat (be_bytes 4 ps)), be32_bytes.
Qed.

(** Reading the header fields back. *)
Lemma read_header count nonce dp ps rest :
  zlen (journal_header count nonce dp ps ++ rest) < 2 ^ 64 ->
  Vfs.mem_read (journal_header count nonce dp ps ++ rest) 28 0 = Ok (concat (hdr_chunks count nonce dp ps)).
Proof.
  rewrite journal_header_chunks, <- app_assoc. intros H.
  apply (mem_read_app [] (concat (hdr_chunks count nonce dp ps)) (zrep 484 0 ++ rest)); [done|done|].
  by rewrite zlen_hdr_chunks.
Qed.

(** ** The layout of the records *)

Definition record (nonce : Z) (x : Z * bytes) : bytes :=
  be_bytes 4 x.1 ++ x.2 ++ be_bytes 4 (journal_page_checksum nonce x.2).

Definition records (nonce : Z) (origs : list (Z * bytes)) : bytes := concat (record nonce <$> origs).

(** The journal once its record count is written. *)
Definition image (nonce dp ps : Z) (origs : list (Z * bytes)) : bytes :=
  journal_header (zlen origs) nonce dp ps ++ records nonce origs.

(** The saved originals: distinct pages of the old file [D], with their content. *)
Definition saved (D : bytes) (ps dp : Z) (origs : list (Z * bytes)) : Prop :=
  Forall (fun x : Z * bytes => 1 <= x.1 <= dp /\ x.2 = page_at D ps x.1) origs.

(** The byte of a file at [i], zero past its end: what a later extension of the
    file shows there. *)
Definition byte (f : bytes) (i : Z) : Z := default 0 (f !! Z.to_nat i).

Lemma byte_end f i : zlen f <= i -> byte f i = 0.
Proof. intros Hi. unfold byte. rewrite lookup_ge_None_2; [done|]. unfold zlen in Hi. lia. Qed.

Lemma byte_resize f n i : 0 <= i -> byte (Vfs.resize0 f n) i = if i <? n then byte f i else 0.
Proof.
  intros Hi. destruct (Z.ltb_spec i n).
  - unfold byte. rewrite Vfs.lookup_resize0 by lia. destruct (Z.ltb_spec i (zlen f)); [done|].
    symmetry. apply (byte_end f). lia.
  - apply byte_end. destruct (Z.le_gt_cases 0 n); [by rewrite Vfs.zlen_resize0|]. unfold Vfs.resize0.
    pose proof (zlen_nonneg f). destruct (Z.ltb_spec (zlen f) n); [lia|].
    replace (Z.to_nat n) with 0%nat by lia. done.
Qed.

Lemma bytes_ext f g : zlen f = zlen g -> (forall i, 0 <= i < zlen f -> byte f i = byte g i) -> f = g.
Proof.
  unfold zlen, byte. intros Hz Hb. apply list_eq. intros i.
  destruct (decide (i < length f)%nat) as [Hi|Hi].
  - destruct (lookup_lt_is_Some_2 f i Hi) as [x Ex], (lookup_lt_is_Some_2 g i) as [y Ey]; [lia|].
    specialize (Hb (Z.of_nat i) ltac:(lia)). rewrite Nat2Z.id, Ex, Ey in Hb. cbn in Hb. congruence.
  - rewrite !lookup_ge_None_2 by lia. done.
Qed.

Lemma byte_write f b off : 0 <= off -> off + zlen b < 2 ^ 64 ->
  exists f', Vfs.mem_write f b off = Ok f' /\ zlen f' = Z.max (zlen f) (off + zlen b) /\
    forall i, 0 <= i -> byte f' i = if (off <=? i) && (i <? off + zlen b) then byte b (i - off) else byte f i.
Proof.
  intros Ho Hz. destruct (Vfs.mem_write_Ok f b off Ho Hz) as (f' & E & Hl & Hi). exists f'. split_and!; [done|done|].
  intros i H0. destruct (Z.lt_ge_cases i (zlen f')) as [Hlt|Hge].
  - unfold byte. rewrite (Hi i) by lia. destruct (_ && _); [done|].
    destruct (Z.ltb_spec i (zlen f)); [done|]. symmetry. apply (byte_end f). lia.
  - rewrite !byte_end by lia. destruct (Z.leb_spec off i), (Z.ltb_spec i (off + zlen b)); done || lia.
Qed.

(** [f] shows [D]'s bytes everywhere but on the pages [S]. *)
Definition agree (ps : Z) (f D : bytes) (S : list Z) : Prop :=
  forall i, 0 <= i < zlen D -> i / ps + 1 ∉ S -> byte f i = byte D i.

Lemma agree_refl ps D S : agree ps D D S.
Proof. done. Qed.

Lemma zlen_page_at D ps p : 0 < ps -> 1 <= p -> p * ps <= zlen D -> zlen (page_at D ps p) = ps.
Proof. intros. unfold page_at. rewrite zlen_sub; nia. Qed.

(** Positions of page [n]. *)
Lemma page_of ps n i : 0 < ps -> (n - 1) * ps <= i < n * ps <-> i / ps + 1 = n.
Proof.
  intros Hps. split.
  - intros Hi. enough (i / ps = n - 1) by lia. symmetry. apply (Z.div_unique_pos i ps (n - 1) (i - (n - 1) * ps)); nia.
  - intros <-. pose proof (Z.div_mod i ps ltac:(lia)). pose proof (Z.mod_pos_bound i ps Hps). nia.
Qed.

Lemma lookup_page_at D ps p i : 0 < ps -> 1 <= p -> p * ps <= zlen D -> (p - 1) * ps <= i < p * ps ->
  page_at D ps p !! Z.to_nat (i - (p - 1) * ps) = D !! Z.to_nat i.
Proof.
  intros Hps Hp HD Hi. unfold page_at, sub. rewrite lookup_take_lt by nia. rewrite lookup_drop. f_equal. nia.
Qed.

(** Writing any page-sized buffer over page [n] keeps agreement off [n]. *)
Lemma agree_write ps f D S n b : 0 < ps -> zlen b = ps -> 1 <= n -> n * ps < 2 ^ 64 ->
  agree ps f D S -> (n * ps <= zlen D -> n ∈ S) -> zlen D mod ps = 0 ->
  exists f', Vfs.mem_write f b ((n - 1) * ps) = Ok f' /\ agree ps f' D S.
Proof.
  intros Hps Hb Hn Hz Ha HS Hm.
  destruct (byte_write f b ((n - 1) * ps)) as (f' & E & _ & Hi); [nia|rewrite Hb; nia|].
  exists f'. split; [done|]. intros i Hir Hni. rewrite Hi, Hb by lia.
  replace ((n - 1) * ps + ps) with (n * ps) by lia.
  destruct (Z.leb_spec ((n - 1) * ps) i), (Z.ltb_spec i (n * ps)); cbn [andb]; try by apply Ha.
  assert (i / ps + 1 = n) as En by (by apply page_of). subst n. destruct Hni. apply HS.
  pose proof (Z.div_mod (zlen D) ps ltac:(lia)). assert (i / ps < zlen D / ps); [|nia].
  apply Z.div_lt_upper_bound; nia.
Qed.

(** Writing the original of page [n] back extends agreement to it. *)
Lemma agree_restore ps f D S n : 0 < ps -> 1 <= n -> n * ps <= zlen D -> zlen D < 2 ^ 64 ->
  agree ps f D (n :: S) ->
  exists f', Vfs.mem_write f (page_at D ps n) ((n - 1) * ps) = Ok f' /\ agree ps f' D S.
Proof.
  intros Hps Hn HD Hz Ha. pose proof (zlen_page_at D ps n Hps Hn HD) as Hb.
  destruct (byte_write f (page_at D ps n) ((n - 1) * ps)) as (f' & E & _ & Hi); [nia|rewrite Hb; nia|].
  exists f'. split; [done|]. intros i Hir Hni. rewrite Hi, Hb by lia.
  replace ((n - 1) * ps + ps) with (n * ps) by lia.
  destruct (Z.leb_spec ((n - 1) * ps) i), (Z.ltb_spec i (n * ps)); cbn [andb].
  - unfold byte. by rewrite lookup_page_at by lia.
  - apply Ha; [done|]. intros [Ep|]%elem_of_cons; [|done]. apply (page_of ps n i Hps) in Ep. lia.
  - apply Ha; [done|]. intros [Ep|]%elem_of_cons; [|done]. apply (page_of ps n i Hps) in Ep. lia.
  - lia.
Qed.

(** Agreement everywhere, cut to the old size, is the old file. *)
Lemma agree_nil ps f D : agree ps f D [] -> Vfs.resize0 f (zlen D) = D.
Proof.
  intros Ha. pose proof (zlen_nonneg D). apply bytes_ext; rewrite Vfs.zlen_resize0 by lia; [done|].
  intros i Hi. rewrite byte_resize by lia. destruct (Z.ltb_spec i (zlen D)); [|lia]. apply Ha; [done|]. set_solver.
Qed.

(** ** Playing the records back *)

Section Play.
Context (D : bytes) (ps dp nonce : Z).
Hypotheses (Hps : 0 < ps) (HD : zlen D = dp * ps) (HDz : zlen D < 2 ^ 64).
Hypotheses (Hnonce : is_u32 nonce) (Hdp : is_u32 dp).
#[local] Set Default Proof Using "All".

Lemma zlen_record x : 1 <= x.1 <= dp -> x.2 = page_at D ps x.1 -> zlen (record nonce x) = 4 + ps + 4.
Proof.
  intros Hx E. unfold record. rewrite !zlen_app, !zlen_be_bytes, E, zlen_page_at by nia. lia.
Qed.

Lemma zlen_records origs : saved D ps dp origs -> zlen (records nonce origs) = zlen origs * (4 + ps + 4).
Proof.
  unfold records. induction 1 as [|x origs [Hx E] _ IH]; [done|]. cbn [fmap list_fmap concat] in *.
  rewrite zlen_app, zlen_record, zlen_cons by done. rewrite IH. lia.
Qed.

Lemma play_records_spec origs : saved D ps dp origs -> forall f pre post off,
  off = zlen pre -> zlen (pre ++ records nonce origs ++ post) < 2 ^ 64 -> agree ps f D origs.*1 ->
  exists f', play_records (length origs) (pre ++ records nonce origs ++ post) off ps nonce f = Ok (f', zlen origs) /\
    agree ps f' D [].
Proof.
  induction 1 as [|[n b] origs [Hn Eb] Hs IH]; intros f pre post off -> Hz Ha; cbn [length play_records]; [by exists f|].
  cbn [fst snd] in *. pose proof (journal_page_checksum_range nonce b Hnonce) as Hck.
  assert (zlen b = ps) as Hb by (rewrite Eb; apply zlen_page_at; nia).
  assert (is_u32 n) as Hn32 by (unfold is_uint in *; lia).
  change (records nonce ((n, b) :: origs)) with (record nonce (n, b) ++ records nonce origs) in *.
  set (R := records nonce origs) in *. unfold record in *. cbn [fst snd] in *.
  set (J := pre ++ _) in *.
  assert (J = pre ++ be_bytes 4 n ++ (b ++ be_bytes 4 (journal_page_checksum nonce b) ++ R ++ post)) as E1
    by (unfold J; by rewrite <- !app_assoc).
  assert (J = (pre ++ be_bytes 4 n) ++ b ++ (be_bytes 4 (journal_page_checksum nonce b) ++ R ++ post)) as E2
    by (unfold J; by rewrite <- !app_assoc).
  assert (J = (pre ++ be_bytes 4 n ++ b) ++ be_bytes 4 (journal_page_checksum nonce b) ++ (R ++ post)) as E3
    by (unfold J; by rewrite <- !app_assoc).
  assert (Vfs.mem_read J 4 (zlen pre) = Ok (be_bytes 4 n)) as ->
    by (rewrite E1 in *; by apply mem_read_app; rewrite ?zlen_be_bytes).
  bind_step.
  assert (Vfs.mem_read J ps (zlen pre + 4) = Ok b) as ->
    by (rewrite E2 in *; apply mem_read_app; [done|rewrite ?zlen_app, ?zlen_be_bytes; lia..]).
  bind_step.
  assert (Vfs.mem_read J 4 (zlen pre + 4 + ps) = Ok (be_bytes 4 (journal_page_checksum nonce b))) as ->
    by (rewrite E3 in *; apply mem_read_app; [done|rewrite ?zlen_app, ?zlen_be_bytes; lia..]).
  bind_step. rewrite !be32_bytes, Z.eqb_refl by done.
  destruct (Z.eqb_spec n 0); [lia|]. cbn [orb negb].
  destruct (agree_restore ps f D origs.*1 n) as (f1 & Ew & Ha1); [lia|lia|nia|lia|done|].
  rewrite Eb, Ew. bind_step. rewrite <- Eb.
  assert (J = (pre ++ be_bytes 4 n ++ b ++ be_bytes 4 (journal_page_checksum nonce b)) ++ R ++ post) as E4
    by (unfold J; by rewrite <- !app_assoc).
  destruct (IH f1 (pre ++ be_bytes 4 n ++ b ++ be_bytes 4 (journal_page_checksum nonce b)) post
    (zlen pre + (4 + ps + 4))) as (f2 & E5 & Ha2).
  { rewrite !zlen_app, !zlen_be_bytes. lia. }
  { by rewrite <- E4. }
  { done. }
  exists f2. rewrite E4, E5. bind_step. by rewrite zlen_cons.
Qed.

End Play.

(** ** Recovery from a complete journal *)

(** The page sizes of the format. *)
Definition page_size_ok (ps : Z) : Prop := 512 <= ps <= 65536 /\ is_power_of_two ps = true.

Lemma div_ceil_ge a b : 0 < b -> a <= div_ceil a b * b.
Proof.
  intros Hb. unfold div_ceil. pose proof (Z.div_mod a b ltac:(lia)). pose proof (Z.mod_pos_bound a b Hb).
  destruct (Z.eqb_spec (a mod b) 0); nia.
Qed.

Lemma segments_stop fuel J sector ps off f any : zlen J < off + 28 -> segments fuel J sector ps off f any = Ok (f, any).
Proof.
  intros H. unfold JOURNAL_HDR_FIELDS.
  destruct fuel; cbn [segments]; unfold JOURNAL_HDR_FIELDS; destruct (Z.leb_spec (off + 28) (zlen J)); lia || done.
Qed.

Section Recover.
Context (D : bytes) (ps dp nonce : Z) (origs : list (Z * bytes)).
Hypotheses (Hps : page_size_ok ps) (HD : zlen D = dp * ps) (Hdp : is_u32 dp) (Hnonce : is_u32 nonce).
Hypotheses (Hs : saved D ps dp origs) (Hlen : is_u32 (zlen origs)).
#[local] Set Default Proof Using "All".

Let Hbound : zlen D < 2 ^ 64.
Proof. destruct Hps as [? _]. unfold is_uint in *. rewrite HD. nia. Qed.

Lemma zlen_image : zlen (image nonce dp ps origs) = 512 + zlen origs * (4 + ps + 4).
Proof.
  unfold image. destruct Hps as [? _]. rewrite zlen_app, zlen_journal_header.
  rewrite (zlen_records D ps dp); (done || lia).
Qed.

Lemma zlen_image_bound : zlen (image nonce dp ps origs) < 2 ^ 64.
Proof. rewrite zlen_image. destruct Hps as [? _]. unfold is_uint in *. nia. Qed.

Lemma segments_image f : agree ps f D origs.*1 ->
  exists f', segments (length (image nonce dp ps origs)) (image nonce dp ps origs) JOURNAL_SECTOR ps 0 f false
      = Ok (f', 0 <? zlen origs) /\ agree ps f' D [].
Proof.
  intros Ha. pose proof zlen_image as Hz. pose proof zlen_image_bound as Hb. destruct Hps as [Hr _].
  pose proof (zlen_nonneg origs) as H0.
  assert (length (image nonce dp ps origs) = S (pred (length (image nonce dp ps origs)))) as ->.
  { unfold zlen in Hz, H0. nia. }
  set (fuel := pred _). cbn [segments]. unfold JOURNAL_HDR_FIELDS, JOURNAL_SECTOR.
  destruct (Z.leb_spec (0 + 28) (zlen (image nonce dp ps origs))); [|nia].
  rewrite Z.add_0_l. unfold image in Hb |- * at 1. rewrite read_header by done. bind_step.
  destruct (hdr_fields (zlen origs) nonce dp ps) as (-> & -> & -> & _ & _ & _); [done..|unfold is_uint in *; lia|].
  rewrite bool_decide_true by done. cbn [negb].
  destruct (Z.ltb_spec (zlen (image nonce dp ps origs)) 512) as [|_]; [nia|].
  assert ((zlen (image nonce dp ps origs) - 512) / (4 + ps + 4) = zlen origs) as ->.
  { rewrite Hz. replace (512 + zlen origs * (4 + ps + 4) - 512) with (zlen origs * (4 + ps + 4)) by lia.
    apply Z.div_mul. lia. }
  rewrite Z.ltb_irrefl.
  destruct (play_records_spec D ps dp nonce ltac:(lia) HD Hbound Hnonce Hdp origs Hs f
    (journal_header (zlen origs) nonce dp ps) [] 512) as (f' & E & Ha').
  { by rewrite zlen_journal_header. } { by rewrite app_nil_r. } { done. }
  rewrite app_nil_r in E. exists f'. split; [|done].
  replace (Z.to_nat (zlen origs)) with (length origs) by (unfold zlen; lia).
  fold (image nonce dp ps origs) in E. rewrite E. bind_step. rewrite Z.ltb_irrefl. cbn [orb].
  pose proof (div_ceil_ge (512 + zlen origs * (4 + ps + 4)) 512 ltac:(lia)) as Hc.
  destruct (Z.leb_spec (div_ceil (512 + zlen origs * (4 + ps + 4)) 512 * 512) 0) as [|_]; [nia|].
  apply segments_stop. lia.
Qed.

Lemma recover_image f : agree ps f D origs.*1 -> origs <> [] ->
  recover (mkDisk f (image nonce dp ps origs)) = Ok (mkDisk D []).
Proof.
  intros Ha Hne. pose proof zlen_image as Hz. pose proof zlen_image_bound as Hb. destruct Hps as [Hr Hpow].
  assert (0 < zlen origs) as H0 by (unfold zlen; destruct origs; simpl length in *; done || lia).
  unfold recover. cbn [d_journal d_file]. unfold JOURNAL_SECTOR at 1, JOURNAL_HDR_FIELDS.
  destruct (Z.ltb_spec (zlen (image nonce dp ps origs)) 512) as [|_]; [nia|].
  assert (Vfs.mem_read (image nonce dp ps origs) 28 0 = Ok (concat (hdr_chunks (zlen origs) nonce dp ps))) as ->
    by (by apply read_header). bind_step.
  destruct (hdr_fields (zlen origs) nonce dp ps) as (-> & -> & _ & -> & -> & ->); [done..|unfold is_uint in *; lia|].
  rewrite bool_decide_true, Hpow by done. destruct (Z.ltb_spec ps 512); [lia|]. cbn [negb orb].
  change (JOURNAL_SECTOR =? 0) with false. cbv iota.
  destruct (Z.eqb_spec (zlen origs) 0); [lia|].
  destruct (segments_image f Ha) as (f' & E & Ha'). rewrite E. bind_step.
  destruct (Z.ltb_spec 0 (zlen origs)); [|lia]. cbn [negb].
  rewrite <- HD, (agree_nil ps) by done. unfold Vfs.resize0.
  destruct (Z.ltb_spec (zlen (image nonce dp ps origs)) 0); [lia|done].
Qed.

End Recover.

(** ** Running a prefix of the operations *)

Lemma run_app a b d : run (a ++ b) d = (let* d := run a d in run b d).
Proof. revert d. induction a as [|o a IH]; intros d; [done|]. cbn [run app]. destruct (exec_io o d); [apply IH|done..]. Qed.

(** [o] succeeds on every state of [P] and stays in [P]. *)
Definition keeps (P : disk -> Prop) (o : io) : Prop := forall d, P d -> exists d', exec_io o d = Ok d' /\ P d'.

Lemma run_keeps P ops : Forall (keeps P) ops -> forall d, P d -> exists d', run ops d = Ok d' /\ P d'.
Proof.
  induction 1 as [|o ops Ho _ IH]; intros d Hd; [by exists d|]. cbn [run].
  destruct (Ho d Hd) as (d1 & -> & H1). bind_step. by apply IH.
Qed.

Lemma run_take_keeps P ops k : Forall (keeps P) ops -> forall d, P d -> exists d', run (take k ops) d = Ok d' /\ P d'.
Proof. intros H. by apply run_keeps, Forall_take. Qed.

(** A write behind [h] keeps [h]. *)
Lemma mem_write_behind h x buf off : zlen h <= off -> off + zlen buf < 2 ^ 64 ->
  exists y, Vfs.mem_write (h ++ x) buf off = Ok (h ++ y) /\ zlen (h ++ y) = Z.max (zlen (h ++ x)) (off + zlen buf).
Proof.
  intros Ho Hz. pose proof (zlen_nonneg h).
  destruct (Vfs.mem_write_Ok (h ++ x) buf off) as (d' & E & Hl & Hi); [lia|lia|].
  enough (h ++ drop (length h) d' = d') as Ed by (exists (drop (length h) d'); by rewrite Ed).
  rewrite <- (take_drop (length h) d') at 2. f_equal. symmetry.
  apply list_eq. intros i. rewrite zlen_app in Hl. pose proof (zlen_nonneg x). pose proof (zlen_nonneg buf).
  destruct (decide (i < length h)%nat).
  - rewrite lookup_take_lt by done. specialize (Hi (Z.of_nat i)). rewrite Nat2Z.id in Hi. unfold zlen in *.
    rewrite Hi by lia. destruct (Z.leb_spec off (Z.of_nat i)); [lia|]. cbn [andb].
    destruct (Z.ltb_spec (Z.of_nat i) (Z.of_nat (length (h ++ x)))).
    + by rewrite lookup_app_l.
    + rewrite length_app in *. lia.
  - rewrite lookup_take_ge, lookup_ge_None_2 by lia. done.
Qed.

(** A journal that has no count yet: recovery leaves everything alone. *)
Definition cold (D hdr0 : bytes) (d : disk) : Prop := d_file d = D /\ exists x, d_journal d = hdr0 ++ x /\ zlen (hdr0 ++ x) < 2 ^ 63.

Lemma originals_spec overlay D dp ps : 0 < ps -> zlen D = dp * ps -> zlen D < 2 ^ 64 ->
  Forall (fun x : Z * bytes => 1 <= x.1) overlay ->
  exists origs, originals overlay D dp ps = Ok origs /\ saved D ps dp origs /\ zlen origs <= zlen overlay /\
    (forall n, n ∈ origs.*1 <-> n ∈ overlay.*1 /\ n <= dp).
Proof.
  intros Hps HD Hz. induction 1 as [|[n b] overlay Hn _ (origs & E & Hs & Hl & Hi)]; cbn [originals].
  - exists []. split_and!; [done|constructor|done|]. intros n. cbn [fmap list_fmap]. set_solver.
  - cbn [fst] in Hn. destruct (Z.leb_spec n dp).
    + rewrite Vfs.mem_read_Ok by nia. bind_step. rewrite E. bind_step. eexists. split; [done|]. split_and!.
      * constructor; [|done]. cbn [fst snd]. split; [lia|]. unfold page_at. f_equal. lia.
      * rewrite !zlen_cons. lia.
      * intros m. cbn [fmap list_fmap fst]. rewrite !elem_of_cons, Hi. split; [intros [->|[]]; tauto|tauto].
    + exists origs. split_and!; [done|done|rewrite zlen_cons; lia|].
      intros m. cbn [fmap list_fmap fst]. rewrite elem_of_cons, Hi. split; [tauto|]. intros [[->|] ?]; [lia|tauto].
Qed.

Lemma recover_cold D nonce dp ps d : is_u32 nonce -> is_u32 dp -> is_u32 ps ->
  cold D (journal_header 0 nonce dp ps) d -> recover d = Ok d.
Proof.
  intros Hn Hd Hp (_ & x & Ej & Hz). unfold recover. rewrite Ej. pose proof (zlen_nonneg x).
  destruct (Z.ltb_spec (zlen (journal_header 0 nonce dp ps ++ x)) JOURNAL_SECTOR); [done|].
  unfold JOURNAL_HDR_FIELDS. rewrite read_header by lia. bind_step.
  destruct (hdr_fields 0 nonce dp ps) as (-> & -> & _ & _ & _ & ->); [done..|].
  rewrite bool_decide_true by done. cbn [negb]. by destruct (_ || _).
Qed.

(** Recovery through the lock protocol, with nobody else holding a lock. *)
Lemma recover_hot_magic d c nonce dp ps x : 0 < zlen (d_file d) ->
  d_journal d = journal_header c nonce dp ps ++ x -> zlen (d_journal d) < 2 ^ 64 ->
  recover_hot_journal false true true d = recover d.
Proof.
  intros Hf Ej Hz. unfold recover_hot_journal. pose proof (zlen_nonneg x).
  assert (zlen (d_journal d) = 512 + zlen x) as Hl by (by rewrite Ej, zlen_app, zlen_journal_header).
  destruct (Z.eqb_spec (zlen (d_journal d)) 0); [lia|]. destruct (Z.eqb_spec (zlen (d_file d)) 0); [lia|].
  rewrite Vfs.mem_read_Ok by lia. bind_step. by rewrite Ej.
Qed.

Lemma recover_hot_empty f : recover_hot_journal false true true (mkDisk f []) = Ok (mkDisk f []).
Proof. done. Qed.

(** ** The journal while it is written *)

Section Write.
Context (D : bytes) (ps dp nonce : Z).
Hypotheses (Hps : page_size_ok ps) (HD : zlen D = dp * ps) (Hdp : is_u32 dp) (Hnonce : is_u32 nonce).
#[local] Set Default Proof Using "All".

Let hdr0 := journal_header 0 nonce dp ps.

Lemma keeps_cold_write buf off : 512 <= off -> off + zlen buf < 2 ^ 63 -> keeps (cold D hdr0) (JWrite buf off).
Proof.
  intros Ho Hz d [Ef (x & Ej & Hx)]. cbn [exec_io]. rewrite Ej.
  destruct (mem_write_behind hdr0 x buf off) as (y & Ey & Hy); [unfold hdr0; rewrite zlen_journal_header; lia|lia|].
  rewrite Ey. bind_step. eexists. split; [done|]. split; [done|]. exists y. split; [done|]. lia.
Qed.

Lemma record_ops_spec origs : saved D ps dp origs -> forall f pre off,
  off = zlen pre -> 512 <= off -> off + zlen origs * (4 + ps + 4) < 2 ^ 63 ->
  Forall (keeps (cold D hdr0)) (record_ops nonce ps origs off) /\
  run (record_ops nonce ps origs off) (mkDisk f pre) = Ok (mkDisk f (pre ++ records nonce origs)).
Proof.
  destruct Hps as [Hr _].
  induction 1 as [|[n b] origs [Hn Eb] _ IH]; intros f pre off Ho H512 Hz; cbn [record_ops run].
  { split; [constructor|]. by rewrite app_nil_r. }
  cbn [fst snd] in *. assert (zlen b = ps) as Hb by (rewrite Eb; apply zlen_page_at; nia).
  rewrite zlen_cons in Hz. pose proof (zlen_nonneg origs).
  destruct (IH f (pre ++ record nonce (n, b)) (off + 4 + ps + 4)) as [IHk IHr].
  { unfold record. cbn [fst snd]. rewrite !zlen_app, !zlen_be_bytes. lia. } { lia. } { nia. }
  split.
  - repeat apply Forall_cons_2; [apply keeps_cold_write; rewrite ?zlen_be_bytes, ?Hb; nia..|done].
  - cbn [exec_io d_file d_journal].
    assert (forall p buf o, o = zlen p -> o + zlen buf < 2 ^ 64 -> Vfs.mem_write p buf o = Ok (p ++ buf)) as Hw.
    { intros p buf o -> Hlt. rewrite <- (app_nil_r p) at 1. rewrite mem_write_over by done. by rewrite drop_nil, app_nil_r. }
    rewrite Hw by (rewrite ?zlen_be_bytes; nia). do 2 bind_step. cbn [d_file d_journal].
    rewrite Hw by (rewrite ?zlen_app, ?zlen_be_bytes, ?Hb; nia). do 2 bind_step. cbn [d_file d_journal].
    rewrite Hw by (rewrite ?zlen_app, ?zlen_be_bytes, ?Hb; nia). do 2 bind_step.
    unfold record in IHr. cbn [fst snd] in IHr. rewrite <- !app_assoc in *. rewrite IHr.
    change (records nonce ((n, b) :: origs)) with (record nonce (n, b) ++ records nonce origs). unfold record. cbn [fst snd].
    by rewrite <- !app_assoc.
Qed.

Lemma count_write origs : zlen (records nonce origs) < 2 ^ 63 ->
  Vfs.mem_write (hdr0 ++ records nonce origs) (be_bytes 4 (zlen origs)) 8 = Ok (image nonce dp ps origs).
Proof.
  intros Hz. unfold hdr0, image, journal_header. rewrite <- !app_assoc.
  rewrite mem_write_over by (rewrite ?zlen_be_bytes; done). do 3 f_equal.
Qed.

End Write.

(** ** The database file while it is written *)

(** The dirty pages: distinct, each a page of its own size. *)
Definition overlay_ok (ps : Z) (overlay : list (Z * bytes)) : Prop :=
  Forall (fun x : Z * bytes => 1 <= x.1 /\ is_u32 x.1 /\ zlen x.2 = ps) overlay /\ NoDup overlay.*1 /\ is_u32 (zlen overlay).

(** The journal is complete and the file differs from [D] on saved pages only. *)
Definition hot (ps : Z) (D : bytes) (S : list Z) (J : bytes) (d : disk) : Prop :=
  agree ps (d_file d) D S /\ 0 < zlen (d_file d) /\ d_journal d = J.

Abbreviation page_writes ps overlay := ((fun x : Z * bytes => FWrite x.2 ((x.1 - 1) * ps)) <$> overlay).

Lemma page_writes_hot ps D dp S J overlay : page_size_ok ps -> zlen D = dp * ps ->
  Forall (fun x : Z * bytes => 1 <= x.1 /\ is_u32 x.1 /\ zlen x.2 = ps) overlay ->
  (forall n, n ∈ overlay.*1 -> n <= dp -> n ∈ S) -> Forall (keeps (hot ps D S J)) (page_writes ps overlay).
Proof.
  intros [Hr _] HD Hov HS. apply Forall_fmap, Forall_forall. intros [n b] Hin.
  apply (proj1 (Forall_forall _ _) Hov) in Hin as Hx. destruct Hx as (Hn & H32 & Hb). cbn [compose fst snd] in *.
  intros d (Ha & Hf & Hj). unfold is_uint in H32.
  destruct (agree_write ps (d_file d) D S n b) as (f' & E & Ha'); [lia|done|done|nia|done| |rewrite HD; apply Z.mod_mul; lia|].
  - intros Hle. apply HS; [|nia]. apply list_elem_of_fmap. by exists (n, b).
  - exists (mkDisk f' (d_journal d)). cbn [exec_io]. rewrite E. split; [done|]. split_and!; [done| |done].
    destruct (Vfs.mem_write_Ok (d_file d) b ((n - 1) * ps)) as (f2 & E2 & Hl & _); [nia|nia|].
    rewrite E in E2. apply Ok_inj in E2 as ->. cbn [d_file]. lia.
Qed.

Lemma truncate_hot ps D S J n : zlen D <= n -> 0 < n -> keeps (hot ps D S J) (FTruncate n).
Proof.
  intros Hn H0 d (Ha & Hf & Hj). eexists. split; [done|]. unfold hot. cbn [d_file d_journal]. split_and!; [|rewrite Vfs.zlen_resize0; lia|done].
  intros i Hi Hni. rewrite byte_resize by lia. destruct (Z.ltb_spec i n); [by apply Ha|lia].
Qed.

Lemma keeps_sync P : keeps P JSync /\ keeps P FSync.
Proof. split; intros d Hd; by exists d. Qed.

(** What the page writes leave in the file. *)
Lemma page_writes_spec ps overlay : page_size_ok ps ->
  Forall (fun x : Z * bytes => 1 <= x.1 /\ is_u32 x.1 /\ zlen x.2 = ps) overlay -> NoDup overlay.*1 -> forall f j,
  exists f', run (page_writes ps overlay) (mkDisk f j) = Ok (mkDisk f' j) /\ zlen f <= zlen f' /\
    (forall p b, (p, b) ∈ overlay -> page_at f' ps p = b /\ p * ps <= zlen f') /\
    (forall q, 1 <= q -> q ∉ overlay.*1 -> q * ps <= zlen f -> page_at f' ps q = page_at f ps q).
Proof.
  intros [Hr _]. induction 1 as [|[n b] overlay (Hn & H32 & Hb) _ IH]; intros Hnd f j; cbn [fmap list_fmap run].
  { exists f. split_and!; [done|done|set_solver|done]. }
  cbn [fst snd] in *. apply NoDup_cons in Hnd as [Hni Hnd]. fold (overlay.*1) in *. unfold is_uint in H32.
  destruct (page_write f b ps n) as (f1 & E1 & Hl1 & Hp1 & Hq1); [lia|done|done|nia|].
  cbn [exec_io d_file d_journal]. rewrite E1. do 2 bind_step.
  destruct (IH Hnd f1 j) as (f' & E & Hl & Hin & Hout). exists f'. split_and!; [done|lia| |].
  - intros p c [[= -> ->]|Hc]%elem_of_cons; [|by apply Hin].
    rewrite Hout by (lia || done). split; [done|lia].
  - intros q Hq Hnq Hz. apply not_elem_of_cons in Hnq as [Hne Hnq].
    rewrite Hout by (lia || done). by apply Hq1.
Qed.

(** ** Crash points *)

(** Every prefix of [ops] run from [s] succeeds and ends in [P]. *)
Definition crash (ops : list io) (s : disk) (P : disk -> Prop) : Prop :=
  forall k, exists d, run (take k ops) s = Ok d /\ P d.

Lemma crash_app a b s s' P : crash a s P -> run a s = Ok s' -> crash b s' P -> crash (a ++ b) s P.
Proof.
  intros Ha Es Hb k. rewrite take_app, run_app. destruct (decide (k <= length a)%nat) as [Hk|Hk].
  - replace (k - length a)%nat with 0%nat by lia. destruct (Ha k) as (d & -> & Hd). by exists d.
  - rewrite take_ge, Es by lia. bind_step. apply Hb.
Qed.

Lemma crash_keeps P Q ops s : Forall (keeps P) ops -> P s -> (forall d, P d -> Q d) -> crash ops s Q.
Proof. intros Hk Hs HQ k. destruct (run_take_keeps P ops k Hk s Hs) as (d & E & Hd). exists d. by split; [|apply HQ]. Qed.

Lemma crash_nil s (P : disk -> Prop) : P s -> crash [] s P.
Proof. intros H k. exists s. by rewrite take_nil. Qed.

Lemma crash_one o s s' (P : disk -> Prop) : P s -> exec_io o s = Ok s' -> P s' -> crash [o] s P.
Proof.
  intros Hs E Hs' [|k]; [by exists s|]. exists s'. cbn [take run]. rewrite E, take_nil. done.
Qed.

(** Recovery at the next open, with no other handle on the file. *)
Definition recovers_to (D : bytes) (d : disk) : Prop :=
  exists d', recover_hot_journal false true true d = Ok d' /\ d_file d' = D.

Section Commit.
Context (D : bytes) (ps dp cc : Z) (overlay origs : list (Z * bytes)).
Hypotheses (Hps : page_size_ok ps) (HD : zlen D = dp * ps) (Hdp : 1 <= dp) (Hdp32 : is_u32 dp).
Hypotheses (Hov : overlay_ok ps overlay) (H1 : 1 ∈ overlay.*1).
Hypotheses (Hs : saved D ps dp origs) (Hlen : zlen origs <= zlen overlay).
Hypotheses (Hkeys : forall n, n ∈ origs.*1 <-> n ∈ overlay.*1 /\ n <= dp).
#[local] Set Default Proof Using "All".

Let nonce := journal_nonce cc dp.
Let hdr0 := journal_header 0 nonce dp ps.
Let J := image nonce dp ps origs.

Let Hb : is_u32 dp /\ is_u32 ps /\ is_u32 nonce /\ is_u32 (zlen origs) /\ origs <> [] /\ 0 < zlen D.
Proof.
  destruct Hps as [Hr _], Hov as (_ & _ & Hz). pose proof (zlen_nonneg origs). unfold is_uint in *.
  split_and!; try (lia || nia); try apply journal_nonce_range.
  intros ->. assert (1 ∈ ([] : list (Z * bytes)).*1) as Hn by (apply Hkeys; split; [done|lia]). cbn in Hn. set_solver.
Qed.

Let Hrecs : zlen (records nonce origs) = zlen origs * (4 + ps + 4) /\ 512 + zlen origs * (4 + ps + 4) < 2 ^ 63.
Proof.
  destruct Hb as (H2 & H3 & H4 & H5 & H6 & H7), Hps as [Hr _]. unfold is_uint in *. split; [|nia].
  apply (zlen_records D ps dp); nia || done.
Qed.

Lemma cold_recovers d : cold D hdr0 d -> recovers_to D d.
Proof.
  destruct Hb as (H2 & H3 & H4 & H5 & H6 & H7). intros Hc. exists d. split; [|apply Hc].
  rewrite <- (recover_cold D nonce dp ps d) by done. destruct Hc as (Ef & x & Ej & Hz).
  eapply recover_hot_magic; [by rewrite Ef|done|rewrite Ej; lia].
Qed.

Lemma hot_recovers d : hot ps D origs.*1 J d -> recovers_to D d.
Proof.
  destruct Hb as (H2 & H3 & H4 & H5 & H6 & H7). intros (Ha & Hf & Ej). exists (mkDisk D []). split; [|done].
  erewrite recover_hot_magic; [|done|done|rewrite Ej; by apply (zlen_image_bound D)].
  destruct d as [f j]. cbn [d_file d_journal] in *. subst j. by apply recover_image.
Qed.

(** Up to the record count the journal is cold, and then it is complete. *)
Lemma journal_phase : crash (write_journal cc dp ps origs) (mkDisk D []) (recovers_to D) /\
  run (write_journal cc dp ps origs) (mkDisk D []) = Ok (mkDisk D J).
Proof.
  destruct Hb as (H2 & H3 & H4 & H5 & H6 & H7), Hrecs as [Hr1 Hr2].
  unfold write_journal. fold nonce. fold hdr0.
  destruct (record_ops_spec D ps dp nonce Hps HD H2 H4 origs Hs D hdr0 JOURNAL_SECTOR) as [Hk Hr].
  { unfold hdr0. by rewrite zlen_journal_header. } { done. } { done. }
  assert (exec_io (JWrite hdr0 0) (mkDisk D []) = Ok (mkDisk D hdr0)) as E0.
  { pose proof (mem_write_over [] [] hdr0 0 eq_refl) as E. rewrite drop_nil, app_nil_r, !app_nil_l in E.
    cbn [exec_io d_journal]. rewrite E; [done|]. unfold hdr0. by rewrite zlen_journal_header. }
  assert (exec_io (JWrite (be_bytes 4 (zlen origs)) 8) (mkDisk D (hdr0 ++ records nonce origs)) = Ok (mkDisk D J)) as E1.
  { cbn [exec_io d_journal]. unfold hdr0. rewrite (count_write D ps dp nonce Hps HD H2 H4) by lia. done. }
  assert (cold D hdr0 (mkDisk D hdr0)) as Hc0.
  { split; [done|]. exists []. rewrite app_nil_r. split; [done|]. unfold hdr0. by rewrite zlen_journal_header. }
  assert (recovers_to D (mkDisk D [])) as Hr0 by (exists (mkDisk D []); by rewrite recover_hot_empty).
  assert (recovers_to D (mkDisk D (hdr0 ++ records nonce origs))) as Hr3.
  { apply cold_recovers. split; [done|]. eexists. split; [done|]. unfold hdr0. rewrite zlen_app, zlen_journal_header. lia. }
  assert (recovers_to D (mkDisk D J)) as Hr4 by (apply hot_recovers; split_and!; [apply agree_refl|done|done]).
  split.
  - apply (crash_app _ _ _ (mkDisk D hdr0)).
    + apply (crash_app [_] [_] _ (mkDisk D [])); [by eapply crash_one|done|]. eapply crash_one; [done|exact E0|]. by apply cold_recovers.
    + cbn [run]. change (exec_io (JTruncate 0) (mkDisk D [])) with (Ok (mkDisk D [])). bind_step. by rewrite E0.
    + apply (crash_app _ _ _ (mkDisk D (hdr0 ++ records nonce origs))); [|done|].
      * eapply crash_keeps; [done|done|apply cold_recovers].
      * apply (crash_app [_] [_; _] _ (mkDisk D (hdr0 ++ records nonce origs))); [by eapply crash_one|done|].
        apply (crash_app [_] [_] _ (mkDisk D J)); [by eapply crash_one| |by eapply crash_one]. cbn [run]. by rewrite E1.
  - rewrite run_app. cbn [run]. change (exec_io (JTruncate 0) (mkDisk D [])) with (Ok (mkDisk D [])). bind_step.
    rewrite E0. do 2 bind_step. rewrite run_app, Hr. bind_step. cbn [run]. change (exec_io JSync ?d) with (Ok d). bind_step.
    by rewrite E1.
Qed.

Lemma page_phase : crash (page_writes ps overlay) (mkDisk D J) (hot ps D origs.*1 J).
Proof.
  destruct Hb as (H2 & H3 & H4 & H5 & H6 & H7), Hov as (Ho & _).
  apply (crash_keeps (hot ps D origs.*1 J)); [|split_and!; [apply agree_refl|done|done]|done].
  apply (page_writes_hot ps D dp); [done..|]. intros n Hn Hle. by apply Hkeys.
Qed.

(** The journal and the page writes: from every crash point the old file comes
    back, and at their end the journal is complete and the dirty pages are in
    the file. *)
Lemma journal_and_pages : exists f, let X := write_journal cc dp ps origs ++ page_writes ps overlay in
  crash X (mkDisk D []) (recovers_to D) /\ run X (mkDisk D []) = Ok (mkDisk f J) /\ hot ps D origs.*1 J (mkDisk f J) /\
  zlen D <= zlen f /\
  (forall p b, (p, b) ∈ overlay -> page_at f ps p = b /\ p * ps <= zlen f) /\
  (forall q, 1 <= q <= dp -> q ∉ overlay.*1 -> page_at f ps q = page_at D ps q).
Proof.
  destruct journal_phase as [HcJ ErJ]. pose proof page_phase as Hcp. pose proof Hps as [Hr _].
  destruct Hov as (Ho & Hnd & _). destruct (page_writes_spec ps overlay Hps Ho Hnd D J) as (f & Ef & Hlf & Hin & Hout).
  exists f. cbv zeta. split_and!; [|by rewrite run_app, ErJ| |done|done|].
  - eapply crash_app; [done|done|]. intros k. destruct (Hcp k) as (d & Ed & Hd). exists d. split; [done|]. by apply hot_recovers.
  - destruct (Hcp (length (page_writes ps overlay))) as (d & Ed & Hd). rewrite firstn_all, Ef in Ed. by apply Ok_inj in Ed as ->.
  - intros q Hq Hnq. apply Hout; [lia|done|nia].
Qed.

End Commit.

(** The pages of a file that has been sized to [pc] pages. *)
Lemma sized_pages D f ps pc m overlay : 0 < ps -> 0 <= pc -> m <= pc -> m * ps <= zlen f ->
  Forall (fun x : Z * bytes => 1 <= x.1 /\ is_u32 x.1 /\ zlen x.2 = ps) overlay ->
  (forall p b, (p, b) ∈ overlay -> page_at f ps p = b /\ p * ps <= zlen f) ->
  (forall q, 1 <= q <= m -> q ∉ overlay.*1 -> page_at f ps q = page_at D ps q) ->
  let new := Vfs.resize0 f (pc * ps) in
  zlen new = pc * ps /\ (forall p b, (p, b) ∈ overlay -> p <= pc -> page_at new ps p = b) /\
  (forall q, 1 <= q <= m -> q ∉ overlay.*1 -> page_at new ps q = page_at D ps q).
Proof.
  intros Hps Hpc Hm Hz Ho Hin Hout new. split_and!.
  - apply Vfs.zlen_resize0. nia.
  - intros p b Hpb Hle. destruct (Hin p b Hpb) as [E Hpz]. unfold new.
    apply (proj1 (Forall_forall _ _) Ho) in Hpb as [Hp _]. cbn [fst] in Hp. by rewrite page_at_resize by nia.
  - intros q Hq Hnq. unfold new. rewrite page_at_resize by nia. by apply Hout.
Qed.

(** The end of a commit: the file is sized, then the journal is cleared. *)
Definition finish_ops (n : Z) : list io := [FTruncate n; FSync; JTruncate 0; JSync].

Lemma commit_ops_split cc dp pc ps overlay origs :
  commit_ops cc dp pc ps overlay origs = (write_journal cc dp ps origs ++ page_writes ps overlay) ++ finish_ops (pc * ps).
Proof. unfold commit_ops. by rewrite <- !app_assoc. Qed.

Lemma finish_states f J n k : run (take k (finish_ops n)) (mkDisk f J) = Ok
  (match k with
   | O => mkDisk f J
   | 1%nat | 2%nat => mkDisk (Vfs.resize0 f n) J
   | _ => mkDisk (Vfs.resize0 f n) []
   end).
Proof.
  assert (Vfs.resize0 J 0 = []) as E.
  { unfold Vfs.resize0. pose proof (zlen_nonneg J). destruct (Z.ltb_spec (zlen J) 0); [lia|done]. }
  destruct k as [|[|[|[|k]]]]; cbn; rewrite ?E; try done. by rewrite take_nil.
Qed.

(** The crash points of a list of operations that [finish_ops] ends. *)
Lemma crash_finish X n f J s (P : nat -> disk -> Prop) : run X s = Ok (mkDisk f J) ->
  (forall k, (k <= length X)%nat -> exists d, run (take k X) s = Ok d /\ P k d) ->
  P (S (length X)) (mkDisk (Vfs.resize0 f n) J) -> P (S (S (length X))) (mkDisk (Vfs.resize0 f n) J) ->
  (forall k, (3 + length X <= k)%nat -> P k (mkDisk (Vfs.resize0 f n) [])) ->
  forall k, exists d, run (take k (X ++ finish_ops n)) s = Ok d /\ P k d.
Proof.
  intros Er Hx H1 H2 H3 k. destruct (decide (k <= length X)%nat) as [Hk|Hk]; [rewrite take_app_le by done; by apply Hx|].
  rewrite take_app, take_ge, run_app, Er by lia. bind_step. rewrite finish_states. eexists. split; [done|].
  destruct (k - length X)%nat as [|[|[|m]]] eqn:E; [lia| | |apply H3; lia].
  - by replace k with (S (length X)) by lia.
  - by replace k with (S (S (length X))) by lia.
Qed.

(** C9: rollback-journal commits are crash-atomic. For a commit that does not
    shrink the file, the operations succeed and leave the dirty pages in the
    file, every other page as it was, and an empty journal. If the process
    stops after any number [k] of them, the recovery of the next open restores
    exactly the old file as long as the journal has not been cleared, and
    keeps exactly the new file once it has. *)
Theorem commit_crash_atomic (D : bytes) (ps dp pc cc : Z) (overlay : list (Z * bytes))
    (Hps : page_size_ok ps) (HD : zlen D = dp * ps) (Hdp : 1 <= dp <= pc) (Hpc : is_u32 pc)
    (Hov : overlay_ok ps overlay) (H1 : 1 ∈ overlay.*1) :
  exists origs new,
    originals overlay D dp ps = Ok origs /\
    let ops := commit_ops cc dp pc ps overlay origs in
    run ops (mkDisk D []) = Ok (mkDisk new []) /\ zlen new = pc * ps /\
    (forall p b, (p, b) ∈ overlay -> p <= pc -> page_at new ps p = b) /\
    (forall q, 1 <= q <= dp -> q ∉ overlay.*1 -> page_at new ps q = page_at D ps q) /\
    forall k, exists d d', run (take k ops) (mkDisk D []) = Ok d /\
      recover_hot_journal false true true d = Ok d' /\
      d_file d' = if (k <? length ops - 1)%nat then D else new.
Proof.
  pose proof Hps as [Hr _]. pose proof Hov as (Ho & Hnd & Hz). unfold is_uint in *.
  destruct (originals_spec overlay D dp ps) as (origs & Eo & Hs & Hl & Hk); [lia|done|nia| |].
  { eapply Forall_impl; [exact Ho|]. by intros x [? _]. }
  destruct (journal_and_pages D ps dp cc overlay origs) as (f & HcX & Er & Hhot & Hlf & Hin & Hout); [done|done|lia|unfold is_uint; lia|done..|].
  set (new := Vfs.resize0 f (pc * ps)). exists origs, new. split; [done|]. rewrite commit_ops_split.
  set (X := write_journal _ _ _ _ ++ _) in *. set (J := image _ _ _ _) in *. cbv zeta.
  assert (hot ps D origs.*1 J (mkDisk new J)) as Hhot'.
  { destruct (truncate_hot ps D origs.*1 J (pc * ps)) with (d := mkDisk f J) as (d & Ed & Hd); [nia|nia|done|].
    by apply Ok_inj in Ed as <-. }
  assert (recovers_to D (mkDisk new J)) as Hrec.
  { apply (hot_recovers D ps dp cc overlay origs); try done; [lia|unfold is_uint; lia]. }
  destruct (sized_pages D f ps pc dp overlay) as (Hnz & Hnin & Hnout); [lia|lia|lia|lia|done|done|done|].
  split_and!; [|exact Hnz|exact Hnin|exact Hnout|].
  - rewrite run_app, Er. bind_step. exact (finish_states f J (pc * ps) 4).
  - intros k. enough (exists d, run (take k (X ++ finish_ops (pc * ps))) (mkDisk D []) = Ok d /\
      recovers_to (if (k <? length X + 3)%nat then D else new) d) as (d & Ed & d' & Ed' & Hd').
    { exists d, d'. rewrite length_app. change (length (finish_ops (pc * ps))) with 4%nat.
      replace (length X + 4 - 1)%nat with (length X + 3)%nat by lia. done. }
    apply (crash_finish X (pc * ps) f J (mkDisk D []) (fun k => recovers_to (if (k <? length X + 3)%nat then D else new))); [done|..].
    + intros m Hm. destruct (HcX m) as (d & Ed & Hd). exists d. split; [done|]. by destruct (Nat.ltb_spec m (length X + 3)); [|lia].
    + by destruct (Nat.ltb_spec (S (length X)) (length X + 3)); [|lia].
    + by destruct (Nat.ltb_spec (S (S (length X))) (length X + 3)); [|lia].
    + intros m Hm. destruct (Nat.ltb_spec m (length X + 3)); [lia|]. by exists (mkDisk new []).
Qed.

Lemma commit_crash_atomic_witness :
  let overlay := [(1, zrep 512 5); (3, zrep 512 6)] in
  exists origs new,
    originals overlay (zrep 1024 7) 2 512 = Ok origs /\
    let ops := commit_ops 9 2 3 512 overlay origs in
    run ops (mkDisk (zrep 1024 7) []) = Ok (mkDisk new []) /\ zlen new = 3 * 512 /\
    (forall p b, (p, b) ∈ overlay -> p <= 3 -> page_at new 512 p = b) /\
    (forall q, 1 <= q <= 2 -> q ∉ overlay.*1 -> page_at new 512 q = page_at (zrep 1024 7) 512 q) /\
    forall k, exists d d', run (take k ops) (mkDisk (zrep 1024 7) []) = Ok d /\
      recover_hot_journal false true true d = Ok d' /\
      d_file d' = if (k <? length ops - 1)%nat then zrep 1024 7 else new.
Proof.
  intros overlay. apply (commit_crash_atomic (zrep 1024 7) 512 2 3 9 overlay).
  - split; [lia|reflexivity].
  - reflexivity.
  - lia.
  - unfold is_uint. lia.
  - split; [|split].
    + repeat constructor; cbn; unfold is_uint; lia || done.
    + cbn. repeat constructor; set_solver.
    + by vm_compute.
  - cbn. set_solver.
Defined.

(** ** Recovery from arbitrary bytes *)

Lemma is_u32_be32 l : is_bytes l -> zlen l = 4 -> is_u32 (be_val l).
Proof. intros Hl Hz. pose proof (be_val_bound l Hl) as H. rewrite Hz in H. exact H. Qed.

Lemma play_records_total J ps nonce : is_bytes J -> zlen J < 2 ^ 63 -> 0 < ps < 2 ^ 32 -> forall want off f,
  0 <= off -> off + Z.of_nat want * (4 + ps + 4) <= zlen J ->
  exists f' played, play_records want J off ps nonce f = Ok (f', played) /\ 0 <= played <= Z.of_nat want /\ (played = 0 -> f' = f).
Proof.
  intros HJ Hz Hps. induction want as [|want IH]; intros off f Ho Hw; cbn [play_records].
  { exists f, 0. split_and!; [done|lia|lia|done]. }
  rewrite !Vfs.mem_read_Ok by nia. do 3 bind_step.
  destruct (Z.eqb_spec (be_val (sub J off (off + 4))) 0) as [|Hn]; cbn [orb]; [exists f, 0; split_and!; (done || lia)|].
  destruct (negb _); [exists f, 0; split_and!; (done || lia)|].
  pose proof (is_u32_be32 (sub J off (off + 4)) (is_bytes_sub _ _ _ HJ) ltac:(rewrite zlen_sub; nia)) as H32.
  unfold is_uint in H32. set (n := be_val _) in *.
  destruct (Vfs.mem_write_Ok f (sub J (off + 4) (off + 4 + ps)) ((n - 1) * ps)) as (f1 & E1 & _).
  { nia. } { rewrite zlen_sub by nia. nia. }
  rewrite E1. bind_step. destruct (IH (off + (4 + ps + 4)) f1) as (f' & p & E & Hp & _); [lia|nia|].
  rewrite E. bind_step. exists f', (p + 1). split_and!; [done|lia|lia|lia].
Qed.

Lemma segments_total J sector ps : is_bytes J -> zlen J < 2 ^ 63 -> 0 < ps < 2 ^ 32 -> 0 < sector -> forall fuel off f any,
  0 <= off -> zlen J < off + 28 + Z.of_nat fuel ->
  exists f' any', segments fuel J sector ps off f any = Ok (f', any') /\ (any' = false -> any = false /\ f' = f).
Proof.
  intros HJ Hz Hps Hsec. induction fuel as [|fuel IH]; intros off f any Ho Hf.
  { exists f, any. by rewrite segments_stop by lia. }
  cbn [segments]. unfold JOURNAL_HDR_FIELDS. destruct (Z.leb_spec (off + 28) (zlen J)); [|by exists f, any].
  rewrite Vfs.mem_read_Ok by lia. bind_step. set (sh := sub J off (off + 28)).
  destruct (negb _); [by exists f, any|]. destruct (Z.ltb_spec (zlen J) (off + sector)); [by exists f, any|].
  set (avail := (zlen J - (off + sector)) / (4 + ps + 4)).
  assert (0 <= avail /\ avail * (4 + ps + 4) <= zlen J - (off + sector)) as [Ha0 Ha].
  { split; [apply Z.div_pos; lia|]. rewrite Z.mul_comm. apply Z.mul_div_le. lia. }
  assert (0 <= be32 sh 8) as Hnr by (apply (be_val_bound (sub sh 8 (8 + 4))), is_bytes_sub, is_bytes_sub, HJ).
  set (want := if avail <? be32 sh 8 then avail else be32 sh 8).
  assert (0 <= want <= avail) as Hw by (unfold want; destruct (Z.ltb_spec avail (be32 sh 8)); lia).
  destruct (play_records_total J ps (be32 sh 12) HJ Hz Hps (Z.to_nat want) (off + sector) f) as (f1 & p & E & Hp & Hp0); [lia|nia|].
  rewrite E. bind_step.
  assert (any || (0 <? p) = false -> f1 = f) as H1.
  { intros [_ Hlt]%orb_false_elim. apply Hp0. apply Z.ltb_ge in Hlt. lia. }
  assert (any || (0 <? p) = false -> any = false /\ f1 = f) as H1'.
  { intros Hb. split; [by apply orb_false_elim in Hb as [? _]|by apply H1]. }
  destruct (p <? want); [by exists f1, (any || (0 <? p))|].
  destruct (Z.leb_spec (div_ceil (off + sector + p * (4 + ps + 4)) sector * sector) off) as [|Hnext]; [by exists f1, (any || (0 <? p))|].
  destruct (IH (div_ceil (off + sector + p * (4 + ps + 4)) sector * sector) f1 (any || (0 <? p))) as (f2 & any2 & E2 & H2); [lia|lia|].
  exists f2, any2. split; [done|]. intros [Hb ->]%H2. apply orb_false_elim in Hb as Hb'. split; [tauto|by apply H1].
Qed.

(** C32: recovery is total. Whatever bytes the journal holds, recovery reads no
    byte outside it, never divides by zero or loops, and returns: either it
    leaves the file and the journal untouched, or it has cleared the journal
    and set the file to the size the journal's header records. *)
Theorem recover_total (d : disk) (HJ : is_bytes (d_journal d)) (Hz : zlen (d_journal d) < 2 ^ 63) :
  exists d', recover d = Ok d' /\
    (d' = d \/
     d_journal d' = [] /\ zlen (d_file d') = be32 (d_journal d) 16 * be32 (d_journal d) 24).
Proof.
  unfold recover. destruct d as [f J]. cbn [d_file d_journal] in *.
  destruct (Z.ltb_spec (zlen J) JOURNAL_SECTOR) as [|Hs]; [by eexists; eauto|]. unfold JOURNAL_SECTOR, JOURNAL_HDR_FIELDS in *.
  rewrite Vfs.mem_read_Ok by lia. bind_step. rewrite Z.add_0_l.
  assert (forall a, 0 <= a <= 24 -> be32 (sub J 0 28) a = be32 J a /\ is_u32 (be32 J a)) as Hf.
  { intros a Ha. split; [|apply is_u32_be32; [by apply is_bytes_sub|rewrite zlen_sub; lia]].
    unfold be32. f_equal. unfold sub. rewrite drop_0, skipn_firstn_comm, take_take.
    by rewrite Nat.min_l by lia. }
  destruct (negb _); [by eexists; eauto|].
  destruct (Hf 24 ltac:(lia)) as [-> Hps], (Hf 20 ltac:(lia)) as [-> Hsec], (Hf 16 ltac:(lia)) as [-> Hop], (Hf 8 ltac:(lia)) as [-> _].
  unfold is_uint in *.
  destruct (Z.ltb_spec (be32 J 24) 512), (is_power_of_two (be32 J 24)), (Z.eqb_spec (be32 J 20) 0); cbn [orb negb]; try by eexists; eauto.
  destruct (be32 J 8 =? 0); [by eexists; eauto|].
  destruct (segments_total J (be32 J 20) (be32 J 24) HJ Hz ltac:(lia) ltac:(lia) (length J) 0 f false) as (f' & any & E & Hany);
    [lia|unfold zlen; lia|].
  rewrite E. bind_step. destruct any; cbn [negb]; eexists; (split; [done|]).
  - right. cbn [d_file d_journal]. rewrite Vfs.zlen_resize0 by nia. split; [|done].
    unfold Vfs.resize0. destruct (Z.ltb_spec (zlen J) 0); [lia|done].
  - left. by destruct (Hany eq_refl) as [_ ->].
Qed.

Lemma recover_total_witness :
  let d := mkDisk [1; 2; 3] (journal_header 4294967295 0 2 512 ++ zrep 600 255) in
  exists d', recover d = Ok d' /\
    (d' = d \/
     d_journal d' = [] /\ zlen (d_file d') = be32 (d_journal d) 16 * be32 (d_journal d) 24).
Proof.
  apply recover_total.
  - apply (bool_decide_unpack _). vm_compute. exact I.
  - vm_compute. reflexivity.
Defined.

(** ** Commits that shrink the file *)

(** The file [D] with zeros on every page past [pc] that is not in [S]. *)
Definition lost (D : bytes) (ps pc : Z) (S : list Z) : bytes :=
  imap (fun i b => if decide (Z.of_nat i < pc * ps \/ Z.of_nat i / ps + 1 ∈ S) then b else 0) D.

Lemma zlen_lost D ps pc S : zlen (lost D ps pc S) = zlen D.
Proof. unfold zlen, lost. by rewrite length_imap. Qed.

Lemma byte_lost D ps pc S i : 0 <= i < zlen D ->
  byte (lost D ps pc S) i = if decide (i < pc * ps \/ i / ps + 1 ∈ S) then byte D i else 0.
Proof.
  intros Hi. unfold byte, lost. rewrite list_lookup_imap, Z2Nat.id by lia.
  destruct (lookup_lt_is_Some_2 D (Z.to_nat i)) as [x Hx]; [unfold zlen in Hi; lia|]. rewrite Hx. simpl.
  by destruct (decide _).
Qed.

Lemma byte_sub l lo hi i : 0 <= lo -> 0 <= i < hi - lo -> byte (sub l lo hi) i = byte l (lo + i).
Proof.
  intros Hlo Hi. unfold byte, sub. rewrite lookup_take_lt by lia. rewrite lookup_drop. do 2 f_equal. lia.
Qed.

Lemma page_at_lost D ps pc S q : 0 < ps -> 1 <= q -> q * ps <= zlen D -> q <= pc \/ q ∈ S ->
  page_at (lost D ps pc S) ps q = page_at D ps q.
Proof.
  intros Hps Hq Hz Hk. apply bytes_ext; rewrite !zlen_page_at by (rewrite ?zlen_lost; lia); [done|].
  intros i Hi. unfold page_at. rewrite !byte_sub, byte_lost by nia. rewrite decide_True; [done|].
  destruct Hk as [Hk|Hk]; [left; nia|right]. by rewrite (proj1 (page_of ps q _ Hps)) by nia.
Qed.

Lemma page_at_lost_zero D ps pc S q : 0 < ps -> 1 <= q -> q * ps <= zlen D -> pc < q -> q ∉ S ->
  page_at (lost D ps pc S) ps q = zrep ps 0.
Proof.
  intros Hps Hq Hz Hpc Hk. apply bytes_ext; rewrite zlen_page_at by (rewrite ?zlen_lost; lia); [by rewrite zlen_zrep by lia|].
  intros i Hi. unfold page_at. rewrite byte_sub, byte_lost by nia. rewrite decide_False.
  - unfold byte, zrep. by rewrite lookup_replicate_2 by lia.
  - rewrite (proj1 (page_of ps q _ Hps)) by nia. intros [|]; [nia|done].
Qed.

(** Every crash point of a commit that shrinks a file of [dp] pages to [pc]:
    once the file has been cut, and until the journal is cleared, recovery puts
    zeros on the pages past the cut that were not journaled. *)
Lemma shrink_outcomes (D : bytes) (ps dp pc cc : Z) (overlay : list (Z * bytes)) :
  page_size_ok ps -> zlen D = dp * ps -> is_u32 dp -> 1 <= pc < dp -> overlay_ok ps overlay -> 1 ∈ overlay.*1 ->
  exists origs new, originals overlay D dp ps = Ok origs /\
    let ops := commit_ops cc dp pc ps overlay origs in
    run ops (mkDisk D []) = Ok (mkDisk new []) /\ zlen new = pc * ps /\
    (forall p b, (p, b) ∈ overlay -> p <= pc -> page_at new ps p = b) /\
    (forall q, 1 <= q <= pc -> q ∉ overlay.*1 -> page_at new ps q = page_at D ps q) /\
    forall k, exists d d', run (take k ops) (mkDisk D []) = Ok d /\
      recover_hot_journal false true true d = Ok d' /\
      d_file d' = if (k <? length ops - 3)%nat then D
                  else if (k <? length ops - 1)%nat then lost D ps pc overlay.*1 else new.
Proof.
  intros Hps HD Hdp Hpc Hov H1. pose proof Hps as [Hr _]. pose proof Hov as (Ho & Hnd & Hz).
  destruct (originals_spec overlay D dp ps) as (origs & Eo & Hs & Hl & Hk); [lia|done|unfold is_uint in *; nia| |].
  { eapply Forall_impl; [exact Ho|]. by intros x [? _]. }
  destruct (journal_and_pages D ps dp cc overlay origs) as (f & HcX & Er & (Ha & _ & _) & Hlf & Hin & Hout); [done|done|lia|done..|].
  cbn [d_file] in Ha. set (new := Vfs.resize0 f (pc * ps)). exists origs, new. split; [done|]. rewrite commit_ops_split.
  set (X := write_journal _ _ _ _ ++ _) in *. set (J := image _ _ _ _) in *. cbv zeta. set (L := lost D ps pc overlay.*1).
  assert (recovers_to L (mkDisk new J)) as Hrec.
  { apply (hot_recovers L ps dp cc overlay origs); try done; [unfold L; by rewrite zlen_lost|lia| |].
    - apply Forall_forall. intros x Hx. destruct (proj1 (Forall_forall _ _) Hs x Hx) as [Hr' E].
      split; [done|]. rewrite E. symmetry. apply page_at_lost; [lia|lia|nia|]. right. apply (Hk x.1). by apply list_elem_of_fmap_2.
    - split_and!; [|cbn; unfold new; rewrite Vfs.zlen_resize0; nia|done]. intros i Hi Hn. cbn [d_file]. unfold L in *. rewrite zlen_lost in Hi.
      rewrite byte_lost by done. unfold new. rewrite byte_resize by lia.
      assert (i / ps + 1 <= dp) as Hpg.
      { assert (i / ps < dp); [|lia]. apply Z.div_lt_upper_bound; nia. }
      assert (i / ps + 1 ∉ overlay.*1) as Hno by (intros Hin'; apply Hn, Hk; done).
      destruct (Z.ltb_spec i (pc * ps)); [rewrite decide_True by (by left); by apply Ha|].
      rewrite decide_False; [done|]. intros [|]; [lia|done]. }
  destruct (sized_pages D f ps pc pc overlay) as (Hnz & Hnin & Hnout); [lia|lia|lia|nia|done|done|intros q Hq; apply Hout; lia|].
  split_and!; [|exact Hnz|exact Hnin|exact Hnout|].
  - rewrite run_app, Er. bind_step. exact (finish_states f J (pc * ps) 4).
  - intros k. set (P := fun k => if (k <? length X + 1)%nat then D else if (k <? length X + 3)%nat then L else new).
    enough (exists d, run (take k (X ++ finish_ops (pc * ps))) (mkDisk D []) = Ok d /\ recovers_to (P k) d) as (d & Ed & d' & Ed' & Hd').
    { exists d, d'. rewrite length_app. change (length (finish_ops (pc * ps))) with 4%nat.
      replace (length X + 4 - 1)%nat with (length X + 3)%nat by lia. by replace (length X + 4 - 3)%nat with (length X + 1)%nat by lia. }
    apply (crash_finish X (pc * ps) f J (mkDisk D []) (fun k => recovers_to (P k))); [done|..]; unfold P.
    + intros m Hm. destruct (HcX m) as (d & Ed & Hd). exists d. split; [done|]. by destruct (Nat.ltb_spec m (length X + 1)); [|lia].
    + destruct (Nat.ltb_spec (S (length X)) (length X + 1)); [lia|]. by destruct (Nat.ltb_spec (S (length X)) (length X + 3)); [|lia].
    + destruct (Nat.ltb_spec (S (S (length X))) (length X + 1)); [lia|]. by destruct (Nat.ltb_spec (S (S (length X))) (length X + 3)); [|lia].
    + intros m Hm. destruct (Nat.ltb_spec m (length X + 1)); [lia|]. destruct (Nat.ltb_spec m (length X + 3)); [lia|]. by exists (mkDisk new []).
Qed.

End JournalProps.
