(* ===== verification/BtPage.v ===== *)
(** B-tree pages ([src/src/btree/page.rs]): the page header, the cell pointer
    array, the cells and the rule that splits a payload between its page and
    overflow pages. Every read at an offset the file controls is checked; the
    theorems say that no accessor can index outside the page. *)

From S2P Require Import Prelude Varint Header Pager.
Local Open Scope Z_scope.

Module BtPage.

Inductive PageType : Type := InteriorIndex | InteriorTable | LeafIndex | LeafTable.

#[global] Instance PageType_eq_dec : EqDecision PageType.
Proof. solve_decision. Defined.

Definition from_byte (b : Z) : res PageType :=
  if b =? 2 then Ok InteriorIndex
  else if b =? 5 then Ok InteriorTable
  else if b =? 10 then Ok LeafIndex
  else if b =? 13 then Ok LeafTable
  else Err (ECorrupt ("invalid b-tree page type " +:+ fmt_Z b)).

Definition is_leaf (t : PageType) : bool :=
  match t with LeafIndex | LeafTable => true | _ => false end.

Definition is_table (t : PageType) : bool :=
  match t with InteriorTable | LeafTable => true | _ => false end.

Definition header_len (t : PageType) : Z := if is_leaf t then 8 else 12.

Definition be_u32_checked (buf : bytes) (at_ : Z) : res Z :=
  let* b := ok_or (get_range buf at_ (at_ + 4)) (ECorrupt "4-byte read past end of page") in
  be_u32 b 0.

Record Payload : Type := mkPayload {
  total_len : Z;
  local_offset : Z;
  local_len : Z;
  overflow : Z
}.

Record TableLeafCell : Type := mkLeafCell { rowid : Z; tl_payload : Payload }.

Record IndexCell : Type := mkIndexCell { left_child : Z; ix_payload : Payload }.

Record BtreePage : Type := mkBt {
  page : Pager.Page;
  page_type : PageType;
  bt_body_offset : Z;
  num_cells : Z;
  right_pointer : Z
}.

Definition bt_data (bt : BtreePage) : bytes := Pager.data (page bt).

Definition parse (p : Pager.Page) : res BtreePage :=
  let body := Pager.body_offset p in
  let d := Pager.data p in
  if zlen d <? body + 8 then Err (ECorrupt "page too small for b-tree header")
  else
    let* b := idx d body in
    let* t := from_byte b in
    if zlen d <? body + header_len t then Err (ECorrupt "page too small for interior header")
    else
      let* n := be_u16 d (body + 3) in
      let* r := if is_leaf t then Ok 0 else be_u32 d (body + 8) in
      Ok (mkBt p t body n r).

Definition cell_offset (bt : BtreePage) (i : Z) : res Z :=
  if num_cells bt <=? i then
    Err (ECorrupt ("cell index " +:+ fmt_Z i +:+ " out of range (num_cells=" +:+ fmt_Z (num_cells bt) +:+ ")"))
  else
    let ptr := bt_body_offset bt + header_len (page_type bt) + 2 * i in
    let d := bt_data bt in
    if zlen d <? ptr + 2 then Err (ECorrupt "cell pointer past end of page")
    else
      let* off := be_u16 d ptr in
      if zlen d <=? off then Err (ECorrupt "cell offset past end of page") else Ok off.

Definition child_pointer (bt : BtreePage) (i : Z) : res Z :=
  if is_leaf (page_type bt) then Err (ECorrupt "child pointer requested on a leaf page")
  else if num_cells bt <=? i then Ok (right_pointer bt)
  else
    let* off := cell_offset bt i in
    be_u32_checked (bt_data bt) off.

Definition table_interior_key (bt : BtreePage) (i : Z) : res Z :=
  if negb (bool_decide (page_type bt = InteriorTable))
  then Err (ECorrupt "interior-table key on non-interior page")
  else
    let* off := cell_offset bt i in
    let d := bt_data bt in
    let key_off := off + 4 in
    if zlen d <? key_off then Err (ECorrupt "interior cell past end of page")
    else
      let* s := slice_from d key_off in
      let* (k, _) := ok_or (Varint.decode_i64 s) (ECorrupt "truncated interior cell rowid") in
      Ok k.

(** How many payload bytes stay on the page, and whether any spill. *)
Definition payload_split (t : PageType) (usable p : Z) : res (Z * bool) :=
  match t with
  | InteriorTable => Ok (0, false)
  | _ =>
      let* max_local :=
        match t with
        | LeafTable => Ok (sat_sub usable 35)
        | _ => let* m := usize (sat_sub usable 12 * 64) in Ok (sat_sub (m / 255) 23)
        end in
      if p <=? max_local then Ok (p, false)
      else
        let* m := usize (sat_sub usable 12 * 32) in
        let min_local := sat_sub (m / 255) 23 in
        let span := Z.max (sat_sub usable 4) 1 in
        let* k := usize (min_local + sat_sub p min_local mod span) in
        let local := if k <=? max_local then k else min_local in
        Ok (local, true)
  end.

Definition payload_at (bt : BtreePage) (payload_start total usable : Z) : res Payload :=
  let* (local, has_overflow) := payload_split (page_type bt) usable total in
  let d := bt_data bt in
  let* need := usize (payload_start + local + (if has_overflow then 4 else 0)) in
  if zlen d <? need then Err (ECorrupt "cell payload past end of page")
  else
    let* ov := if has_overflow then be_u32 d (payload_start + local) else Ok 0 in
    Ok (mkPayload total payload_start local ov).

Definition table_leaf_cell (bt : BtreePage) (i usable : Z) : res TableLeafCell :=
  if negb (bool_decide (page_type bt = LeafTable))
  then Err (ECorrupt "table-leaf cell on non-table-leaf page")
  else
    let* off := cell_offset bt i in
    let d := bt_data bt in
    let* s := slice_from d off in
    let* (plen, n1) := ok_or (Varint.decode s) (ECorrupt "truncated leaf payload length") in
    let* s := slice_from d (off + n1) in
    let* (rid, n2) := ok_or (Varint.decode_i64 s) (ECorrupt "truncated leaf rowid") in
    let* pl := payload_at bt (off + n1 + n2) plen usable in
    Ok (mkLeafCell rid pl).

Definition raw_table_leaf_cell (bt : BtreePage) (i usable : Z) : res bytes :=
  if negb (bool_decide (page_type bt = LeafTable))
  then Err (ECorrupt "raw table-leaf cell on non-table-leaf page")
  else
    let* off := cell_offset bt i in
    let d := bt_data bt in
    let* s := slice_from d off in
    let* (plen, n1) := ok_or (Varint.decode s) (ECorrupt "truncated leaf payload length") in
    let* s := slice_from d (off + n1) in
    let* (_, n2) := ok_or (Varint.decode_i64 s) (ECorrupt "truncated leaf rowid") in
    let* (local, has_overflow) := payload_split (page_type bt) usable plen in
    let* len := usize (n1 + n2 + local + (if has_overflow then 4 else 0)) in
    let* e := usize (off + len) in
    if zlen d <? e then Err (ECorrupt "leaf cell extends past page")
    else slice d off e.

Definition raw_index_record_cell (bt : BtreePage) (i usable : Z) : res bytes :=
  if is_table (page_type bt) then Err (ECorrupt "index record cell on a table page")
  else
    let* off := cell_offset bt i in
    let d := bt_data bt in
    let key_off := if bool_decide (page_type bt = InteriorIndex) then off + 4 else off in
    let* key_bytes := ok_or (get_range d key_off (zlen d)) (ECorrupt "index cell key past end of page") in
    let* (plen, n1) := ok_or (Varint.decode key_bytes) (ECorrupt "truncated index payload length") in
    let* (local, has_overflow) := payload_split (page_type bt) usable plen in
    let* len := usize (n1 + local + (if has_overflow then 4 else 0)) in
    let* e := usize (key_off + len) in
    if zlen d <? e then Err (ECorrupt "index cell extends past page")
    else slice d key_off e.

Definition index_cell (bt : BtreePage) (i usable : Z) : res IndexCell :=
  if is_table (page_type bt) then Err (ECorrupt "index cell on a table page")
  else
    let* off := cell_offset bt i in
    let d := bt_data bt in
    let* (lc, key_off) :=
      if bool_decide (page_type bt = InteriorIndex)
      then let* l := be_u32_checked d off in Ok (l, off + 4)
      else Ok (0, off) in
    let* key_bytes := ok_or (get_range d key_off (zlen d)) (ECorrupt "index cell key past end of page") in
    let* (plen, n1) := ok_or (Varint.decode key_bytes) (ECorrupt "truncated index payload length") in
    let* pl := payload_at bt (key_off + n1) plen usable in
    Ok (mkIndexCell lc pl).

Definition child_pointer_offset (bt : BtreePage) (i : Z) : res Z :=
  if is_leaf (page_type bt) then Err (ECorrupt "child pointer offset requested on a leaf page")
  else if num_cells bt <=? i then Ok (bt_body_offset bt + 8)
  else cell_offset bt i.

Definition cell_overflow_offset (bt : BtreePage) (i usable : Z) : res (option Z) :=
  let* pl :=
    match page_type bt with
    | LeafTable => let* c := table_leaf_cell bt i usable in Ok (Some (tl_payload c))
    | LeafIndex | InteriorIndex => let* c := index_cell bt i usable in Ok (Some (ix_payload c))
    | InteriorTable => Ok None
    end in
  match pl with
  | None => Ok None
  | Some pl => if overflow pl =? 0 then Ok None else Ok (Some (local_offset pl + local_len pl))
  end.

(** ** Safety *)

Definition wf (bt : BtreePage) : Prop :=
  is_bytes (bt_data bt) /\ 0 <= bt_body_offset bt /\
  bt_body_offset bt + header_len (page_type bt) <= zlen (bt_data bt) /\
  is_u16 (num_cells bt) /\ is_u32 (right_pointer bt).

Lemma safe_be_u16 d a : is_bytes d -> 0 <= a -> a + 2 <= zlen d -> safe (be_u16 d a) is_u16.
Proof. intros. apply safe_intro; [by apply no_panic_be_u16|]. intros v. by apply be_u16_range. Qed.

Lemma safe_be_u32 d a : is_bytes d -> 0 <= a -> a + 4 <= zlen d -> safe (be_u32 d a) is_u32.
Proof. intros. apply safe_intro; [by apply no_panic_be_u32|]. intros v. by apply be_u32_range. Qed.

Lemma safe_slice_from d a : is_bytes d -> 0 <= a <= zlen d ->
  safe (slice_from d a) (fun s => s = drop (Z.to_nat a) d /\ is_bytes s /\ zlen s = zlen d - a).
Proof.
  intros Hd Ha. unfold slice_from. rewrite slice_Ok by lia. simpl. rewrite sub_full. split_and!; [done|by apply is_bytes_drop|].
  unfold zlen in *. rewrite length_drop. lia.
Qed.

(** What a decoded varint says about the bytes it came from. *)
Lemma safe_decode s e : is_bytes s ->
  safe (ok_or (Varint.decode s) e) (fun x : Z * Z => is_u64 x.1 /\ 1 <= x.2 <= Z.min 9 (zlen s)).
Proof.
  intros Hs. apply safe_ok_or. intros [v n] E. apply Varint.decode_inv in E as (Hv & Hn & Hz & _); [|done].
  pose proof (Varint.len_range v). simpl. split; [done|lia].
Qed.

Lemma safe_decode_i64 s e : is_bytes s ->
  safe (ok_or (Varint.decode_i64 s) e) (fun x : Z * Z => is_i64 x.1 /\ 1 <= x.2 <= Z.min 9 (zlen s)).
Proof.
  intros Hs. apply safe_ok_or. unfold Varint.decode_i64. intros [v n].
  destruct (Varint.decode s) as [[w m]|] eqn:E; [|done]. intros [= <- <-].
  apply Varint.decode_inv in E as (Hv & Hn & Hz & _); [|done]. pose proof (Varint.len_range w). simpl.
  split; [by apply to_signed_range|lia].
Qed.

Lemma parse_wf p : is_bytes (Pager.data p) -> safe (parse p) (fun bt => wf bt /\ page bt = p).
Proof.
  intros Hd. unfold parse. assert (0 <= Pager.body_offset p) as Hb.
  { unfold Pager.body_offset. by destruct (Pager.number p =? 1). }
  destruct (Z.ltb_spec (zlen (Pager.data p)) (Pager.body_offset p + 8)); [done|].
  destruct (idx_in_range (Pager.data p) (Pager.body_offset p)) as [b ->]; [lia|]. simpl.
  destruct (from_byte b) as [t|e|] eqn:Et; simpl; [|done|].
  2:{ unfold from_byte in Et. by repeat destruct (_ =? _). }
  destruct (Z.ltb_spec (zlen (Pager.data p)) (Pager.body_offset p + header_len t)) as [|Hh]; [done|].
  assert (8 <= header_len t) by (by destruct t).
  eapply safe_bind; [apply safe_be_u16; lia || done|]. intros n Hn.
  assert (safe (if is_leaf t then Ok 0 else be_u32 (Pager.data p) (Pager.body_offset p + 8)) is_u32) as Hr.
  { unfold header_len in Hh. destruct (is_leaf t); [done|]. apply safe_be_u32; lia || done. }
  eapply safe_bind; [exact Hr|]. intros r Hr32. unfold safe, wf. cbn. by split_and!.
Qed.

Lemma cell_offset_safe bt i : wf bt -> 0 <= i -> safe (cell_offset bt i) (fun off => 0 <= off < Z.min (2 ^ 16) (zlen (bt_data bt))).
Proof.
  intros (Hd & Hb & Hh & Hn & _) Hi. unfold cell_offset. destruct (num_cells bt <=? i); [done|].
  assert (0 <= header_len (page_type bt)) by (by destruct (page_type bt)).
  destruct (Z.ltb_spec (zlen (bt_data bt)) (bt_body_offset bt + header_len (page_type bt) + 2 * i + 2)); [done|].
  eapply safe_bind; [apply safe_be_u16; lia || done|]. intros off Ho. unfold is_uint in Ho.
  destruct (Z.leb_spec (zlen (bt_data bt)) off); simpl; [done|lia].
Qed.

Lemma be_u32_checked_safe d a : is_bytes d -> 0 <= a -> safe (be_u32_checked d a) (fun v => is_u32 v /\ a + 4 <= zlen d).
Proof.
  intros Hd Ha. unfold be_u32_checked. eapply safe_bind.
  { apply (safe_ok_or _ _ (fun s => is_bytes s /\ zlen s = 4 /\ a + 4 <= zlen d)).
    intros s (Hr & Hz & ->)%get_range_Some_inv. split_and!; [by apply is_bytes_sub|rewrite zlen_sub; lia|done]. }
  intros s (Hs & Hl & Hz). eapply safe_mono; [apply safe_be_u32; lia || done|]. done.
Qed.

Lemma child_pointer_safe bt i : wf bt -> 0 <= i -> safe (child_pointer bt i) is_u32.
Proof.
  intros Hw Hi. unfold child_pointer. destruct (is_leaf _); [done|]. destruct (num_cells bt <=? i); [apply Hw|].
  eapply safe_bind; [by apply cell_offset_safe|]. intros off [Ho1 Ho2].
  eapply safe_mono; [apply be_u32_checked_safe; [apply Hw|lia]|]. by intros v [? _].
Qed.

Lemma child_pointer_offset_safe bt i : wf bt -> 0 <= i ->
  safe (child_pointer_offset bt i) (fun off => 0 <= off < zlen (bt_data bt)).
Proof.
  intros Hw Hi. unfold child_pointer_offset. destruct (is_leaf _) eqn:El; [done|].
  destruct (num_cells bt <=? i); [|eapply safe_mono; [by apply cell_offset_safe|]; simpl; lia]. destruct Hw as (_ & Hb & Hh & _).
  unfold header_len in Hh. rewrite El in Hh. simpl. lia.
Qed.

Lemma table_interior_key_safe bt i : wf bt -> 0 <= i -> safe (table_interior_key bt i) is_i64.
Proof.
  intros Hw Hi. unfold table_interior_key. destruct (negb _); [done|].
  eapply safe_bind; [by apply cell_offset_safe|]. intros off [Ho1 Ho2].
  destruct (Z.ltb_spec (zlen (bt_data bt)) (off + 4)); [done|].
  eapply safe_bind; [apply safe_slice_from; [apply Hw|lia]|]. intros s (_ & Hs & _).
  eapply safe_bind; [by apply safe_decode_i64|]. intros [k n] [Hk _]. exact Hk.
Qed.

(** ** The payload split *)

Definition max_local (t : PageType) (usable : Z) : Z :=
  match t with LeafTable => usable - 35 | _ => (usable - 12) * 64 / 255 - 23 end.

Definition min_local (usable : Z) : Z := (usable - 12) * 32 / 255 - 23.

Lemma local_bounds t usable : 257 <= usable -> 0 <= min_local usable <= max_local t usable.
Proof.
  intros Hu. unfold min_local, max_local. set (u := usable - 12) in *.
  pose proof (Z.div_mod (u * 32) 255 ltac:(lia)). pose proof (Z.mod_pos_bound (u * 32) 255 ltac:(lia)).
  pose proof (Z.div_mod (u * 64) 255 ltac:(lia)). pose proof (Z.mod_pos_bound (u * 64) 255 ltac:(lia)).
  destruct t; lia.
Qed.

(** The value of the split, in unbounded integers. *)
Definition split_value (t : PageType) (usable p : Z) : Z * bool :=
  match t with
  | InteriorTable => (0, false)
  | _ =>
      let max_local :=
        match t with
        | LeafTable => sat_sub usable 35
        | _ => sat_sub (sat_sub usable 12 * 64 / 255) 23
        end in
      if p <=? max_local then (p, false)
      else
        let min_local := sat_sub (sat_sub usable 12 * 32 / 255) 23 in
        let span := Z.max (sat_sub usable 4) 1 in
        let k := min_local + sat_sub p min_local mod span in
        (if k <=? max_local then k else min_local, true)
  end.

(** Below this usable size no [usize] operation on a cell overflows; a database
    header allows at most 65536. *)
Abbreviation usable_ok usable := (0 <= usable < 2 ^ 58).

Lemma payload_split_Ok t usable p : usable_ok usable -> payload_split t usable p = Ok (split_value t usable p).
Proof.
  intros [Hu Hu']. unfold payload_split, split_value.
  assert (0 <= sat_sub usable 12 < 2 ^ 58 /\ 0 < Z.max (sat_sub usable 4) 1 <= 2 ^ 58) as [Hs Hp] by (unfold sat_sub; lia).
  set (ml := match t with LeafTable => Ok (sat_sub usable 35)
             | _ => let* m := usize (sat_sub usable 12 * 64) in Ok (sat_sub (m / 255) 23) end).
  assert (ml = Ok (match t with LeafTable => sat_sub usable 35
             | _ => sat_sub (sat_sub usable 12 * 64 / 255) 23 end)) as ->.
  { unfold ml. destruct t; try done; rewrite usize_Ok by lia; done. }
  assert (0 <= sat_sub usable 12 * 32 / 255 <= 2 ^ 58) as Hd by (Z.to_euclidean_division_equations; lia).
  pose proof (Z.mod_pos_bound (sat_sub p (sat_sub (sat_sub usable 12 * 32 / 255) 23)) _ (proj1 Hp)) as Hm.
  assert (sat_sub (sat_sub usable 12 * 32 / 255) 23 <= 2 ^ 58) as Hl by (unfold sat_sub in *; lia).
  destruct t; [|done|..]; bind_step; destruct (p <=? _); try done;
    rewrite usize_Ok by lia; bind_step; rewrite usize_Ok by lia; done.
Qed.

(** The bound is the real one: twelve bytes more, and the product panics. *)
Example payload_split_overflow :
  payload_split LeafIndex (2 ^ 58 + 11) 0 = Ok (0, false) /\ payload_split LeafIndex (2 ^ 58 + 12) 0 = Panic.
Proof. done. Qed.

(** The split for every usable size, corrupt ones included. *)
Lemma split_value_local t usable p : 0 <= p -> 0 <= usable ->
  0 <= (split_value t usable p).1 <= p /\ (split_value t usable p).1 <= usable.
Proof.
  intros Hp Hu. unfold split_value, sat_sub. set (u := Z.max 0 (usable - 12)).
  set (a := u * 32 / 255). set (b := u * 64 / 255).
  assert (0 <= 255 * a <= u * 32 /\ u * 32 < 255 * a + 255 /\ u * 64 < 255 * b + 255 /\ 0 <= 255 * b <= u * 64) as Hab.
  { unfold a, b, u. Z.to_euclidean_division_equations. lia. }
  set (span := Z.max (Z.max 0 (usable - 4)) 1). set (m := Z.max 0 (a - 23)).
  pose proof (Z.mod_le (Z.max 0 (p - m)) span ltac:(lia) ltac:(unfold span; lia)) as Hle.
  pose proof (Z.mod_pos_bound (Z.max 0 (p - m)) span ltac:(unfold span; lia)) as Hmod.
  set (r := Z.max 0 (p - m) mod span) in *.
  assert (m <= Z.max 0 (b - 23) /\ Z.max 0 (b - 23) <= usable /\ m <= Z.max 0 (usable - 35)) as Hm by (unfold m, u in *; lia).
  destruct t; simpl; try lia;
    match goal with |- context [p <=? ?x] => destruct (Z.leb_spec p x) end; simpl; try lia;
    match goal with |- context [m + r <=? ?x] => destruct (Z.leb_spec (m + r) x) end; lia.
Qed.

(** A payload descriptor is computed without overflow. *)
Lemma payload_at_value bt start total usable : 0 <= start < 2 ^ 32 -> 0 <= total -> usable_ok usable ->
  payload_at bt start total usable =
    let '(local, has_overflow) := split_value (page_type bt) usable total in
    if zlen (bt_data bt) <? start + local + (if has_overflow then 4 else 0)
    then Err (ECorrupt "cell payload past end of page")
    else
      let* ov := if has_overflow then be_u32 (bt_data bt) (start + local) else Ok 0 in
      Ok (mkPayload total start local ov).
Proof.
  intros Hs Ht Hu. unfold payload_at. rewrite payload_split_Ok by done. bind_step.
  destruct Hu as [Hu Hu']. pose proof (split_value_local (page_type bt) usable total Ht Hu) as Hl.
  destruct (split_value (page_type bt) usable total) as [local ov]. cbn [fst snd] in *.
  rewrite usize_Ok by (destruct ov; lia). done.
Qed.

Lemma payload_at_safe bt start total usable : wf bt -> 0 <= start < 2 ^ 32 -> 0 <= total -> usable_ok usable ->
  safe (payload_at bt start total usable) (fun pl =>
    total_len pl = total /\ local_offset pl = start /\ is_u32 (overflow pl) /\
    local_len pl = (split_value (page_type bt) usable total).1 /\
    start + local_len pl + (if (split_value (page_type bt) usable total).2 then 4 else 0) <= zlen (bt_data bt)).
Proof.
  intros Hw Hs Ht Hu. rewrite payload_at_value by done. pose proof (split_value_local (page_type bt) usable total Ht (proj1 Hu)) as Hl.
  destruct (split_value (page_type bt) usable total) as [local ov]. cbn [fst snd] in *.
  destruct (Z.ltb_spec (zlen (bt_data bt)) (start + local + (if ov then 4 else 0))); [done|].
  eapply (safe_bind _ _ is_u32).
  - destruct ov; [|done]. apply safe_be_u32; [apply Hw|lia..].
  - intros o Ho. simpl. split_and!; lia || done.
Qed.

(** A payload descriptor inside its page. *)
Definition payload_in (bt : BtreePage) (pl : Payload) : Prop :=
  is_u64 (total_len pl) /\ 0 <= local_offset pl /\ 0 <= local_len pl <= total_len pl /\
  is_u32 (overflow pl) /\
  local_offset pl + local_len pl + (if overflow pl =? 0 then 0 else 4) <= zlen (bt_data bt).

Lemma payload_at_in bt start total usable : wf bt -> 0 <= start < 2 ^ 32 -> is_u64 total -> usable_ok usable ->
  safe (payload_at bt start total usable) (payload_in bt).
Proof.
  intros Hw Hs Ht Hu. unfold is_uint in Ht. pose proof (split_value_local (page_type bt) usable total ltac:(lia) (proj1 Hu)) as Hl.
  assert (forall pl, payload_at bt start total usable = Ok pl ->
    (split_value (page_type bt) usable total).2 = false -> overflow pl = 0) as Hov.
  { rewrite payload_at_value by (done || lia). destruct (split_value (page_type bt) usable total) as [l ov]. simpl. intros pl E ->.
    destruct (_ <? _); [done|]. simpl in E. by injection E as <-. }
  pose proof (payload_at_safe bt start total usable Hw Hs ltac:(lia) Hu) as Hsafe.
  destruct (payload_at bt start total usable) as [pl| |] eqn:E; [|done..].
  destruct Hsafe as (H1 & H2 & H3 & H4 & H5). unfold safe, payload_in. rewrite H1, H2.
  split_and!; unfold is_uint in *; try lia.
  destruct (split_value (page_type bt) usable total).2.
  - destruct (overflow pl =? 0); lia.
  - rewrite (Hov pl eq_refl eq_refl). simpl. lia.
Qed.

Lemma table_leaf_cell_safe bt i usable : wf bt -> 0 <= i -> usable_ok usable ->
  safe (table_leaf_cell bt i usable) (fun c => is_i64 (rowid c) /\ payload_in bt (tl_payload c)).
Proof.
  intros Hw Hi Hu. unfold table_leaf_cell. destruct (negb _); [done|].
  eapply safe_bind; [by apply cell_offset_safe|]. intros off [Ho1 Ho2].
  eapply safe_bind; [apply safe_slice_from; [apply Hw|lia]|]. intros s (_ & Hs & Hsl).
  eapply safe_bind; [by apply safe_decode|]. intros [plen n1] [Hp Hn1]. cbn [fst snd] in *.
  eapply safe_bind; [apply safe_slice_from; [apply Hw|lia]|]. intros s2 (_ & Hs2 & Hsl2).
  eapply safe_bind; [by apply safe_decode_i64|]. intros [rid n2] [Hr Hn2]. cbn [fst snd] in *.
  eapply safe_bind; [apply payload_at_in; lia || done|]. by intros pl Hpl.
Qed.

Lemma index_cell_safe bt i usable : wf bt -> 0 <= i -> usable_ok usable ->
  safe (index_cell bt i usable) (fun c => is_u32 (left_child c) /\ payload_in bt (ix_payload c)).
Proof.
  intros Hw Hi Hu. unfold index_cell. destruct (is_table _); [done|].
  eapply safe_bind; [by apply cell_offset_safe|]. intros off [Ho1 Ho2].
  eapply (safe_bind _ _ (fun x : Z * Z => is_u32 x.1 /\ 0 <= x.2 < 2 ^ 17)).
  { case_bool_decide; [|simpl; split; [done|lia]].
    eapply safe_bind; [apply be_u32_checked_safe; [apply Hw|lia]|]. intros l [Hl _]. simpl. split; [done|lia]. }
  intros [lc key_off] [Hl Hk]. cbn [fst snd] in *.
  eapply safe_bind.
  { apply (safe_ok_or _ _ is_bytes). intros s (_ & _ & ->)%get_range_Some_inv. apply is_bytes_sub, Hw. }
  intros s Hs. eapply safe_bind; [by apply safe_decode|]. intros [plen n1] [Hp Hn1]. cbn [fst snd] in *.
  eapply safe_bind; [apply payload_at_in; lia || done|]. by intros pl Hpl.
Qed.

Lemma raw_table_leaf_cell_safe bt i usable : wf bt -> 0 <= i -> usable_ok usable ->
  safe (raw_table_leaf_cell bt i usable) (fun c => zlen c <= zlen (bt_data bt)).
Proof.
  intros Hw Hi Hu. unfold raw_table_leaf_cell. destruct (negb _); [done|].
  eapply safe_bind; [by apply cell_offset_safe|]. intros off [Ho1 Ho2].
  eapply safe_bind; [apply safe_slice_from; [apply Hw|lia]|]. intros s (_ & Hs & Hsl).
  eapply safe_bind; [by apply safe_decode|]. intros [plen n1] [Hp Hn1]. cbn [fst snd] in *.
  eapply safe_bind; [apply safe_slice_from; [apply Hw|lia]|]. intros s2 (_ & Hs2 & Hsl2).
  eapply safe_bind; [by apply safe_decode_i64|]. intros [rid n2] [Hr Hn2]. cbn [fst snd] in *.
  unfold is_uint in Hp. pose proof (split_value_local (page_type bt) usable plen ltac:(lia) (proj1 Hu)) as Hl.
  rewrite payload_split_Ok by done. bind_step.
  destruct (split_value (page_type bt) usable plen) as [local ov]. cbn [fst snd] in *. destruct Hu as [Hu Hu'].
  do 2 (rewrite usize_Ok by (destruct ov; lia); bind_step).
  destruct (Z.ltb_spec (zlen (bt_data bt)) (off + (n1 + n2 + local + (if ov then 4 else 0)))); [done|].
  destruct ov; (rewrite slice_Ok by lia; simpl; rewrite zlen_sub; lia).
Qed.

Lemma raw_index_record_cell_safe bt i usable : wf bt -> 0 <= i -> usable_ok usable ->
  safe (raw_index_record_cell bt i usable) (fun c => zlen c <= zlen (bt_data bt)).
Proof.
  intros Hw Hi Hu. unfold raw_index_record_cell. destruct (is_table _); [done|].
  eapply safe_bind; [by apply cell_offset_safe|]. intros off [Ho1 Ho2].
  set (ko := if bool_decide (page_type bt = InteriorIndex) then off + 4 else off). assert (0 <= ko < 2 ^ 17) as Hko by (unfold ko; case_bool_decide; lia).
  eapply safe_bind.
  { apply (safe_ok_or _ _ is_bytes). intros s (_ & _ & ->)%get_range_Some_inv. apply is_bytes_sub, Hw. }
  intros s Hs. eapply safe_bind; [by apply safe_decode|]. intros [plen n1] [Hp Hn1]. cbn [fst snd] in *.
  unfold is_uint in Hp. pose proof (split_value_local (page_type bt) usable plen ltac:(lia) (proj1 Hu)) as Hl.
  rewrite payload_split_Ok by done. bind_step.
  destruct (split_value (page_type bt) usable plen) as [local ov]. cbn [fst snd] in *. destruct Hu as [Hu Hu'].
  do 2 (rewrite usize_Ok by (destruct ov; lia); bind_step).
  destruct (Z.ltb_spec (zlen (bt_data bt)) (ko + (n1 + local + (if ov then 4 else 0)))); [done|].
  destruct ov; (rewrite slice_Ok by lia; simpl; rewrite zlen_sub; lia).
Qed.

Lemma cell_overflow_offset_safe bt i usable : wf bt -> 0 <= i -> usable_ok usable ->
  safe (cell_overflow_offset bt i usable) (fun o : option Z => forall off, o = Some off -> 0 <= off /\ off + 4 <= zlen (bt_data bt)).
Proof.
  intros Hw Hi Hu. unfold cell_overflow_offset.
  eapply (safe_bind _ _ (fun o : option Payload => forall pl, o = Some pl -> payload_in bt pl)).
  - destruct (page_type bt); try (by simpl); (eapply safe_bind;
      [by apply index_cell_safe || by apply table_leaf_cell_safe|]; intros c [_ Hc]; simpl; by intros pl [= <-]).
  - intros [pl|] Hpl; [|by simpl]. destruct (Hpl pl eq_refl) as (_ & H1 & H2 & _ & H3).
    destruct (overflow pl =? 0); simpl; [done|]. intros off [= <-]. lia.
Qed.

(** C38: no page bytes can crash the page layer. Whatever a page holds, parsing
    it and asking for any cell, key, child or overflow pointer, with any usable
    size below 2^58, returns a value or an error, never an index, slice or
    overflow panic; a payload descriptor it returns lies inside the page, and an
    overflow pointer offset has its four bytes inside the page. *)
Theorem page_access_safe (p : Pager.Page) (i usable : Z)
    (Hd : is_bytes (Pager.data p)) (Hi : 0 <= i) (Hu : usable_ok usable) :
  safe (parse p) (fun bt =>
    safe (child_pointer bt i) is_u32 /\ safe (table_interior_key bt i) is_i64 /\
    safe (table_leaf_cell bt i usable) (fun c => is_i64 (rowid c) /\ payload_in bt (tl_payload c)) /\
    safe (index_cell bt i usable) (fun c => is_u32 (left_child c) /\ payload_in bt (ix_payload c)) /\
    safe (raw_table_leaf_cell bt i usable) (fun c => zlen c <= zlen (Pager.data p)) /\
    safe (raw_index_record_cell bt i usable) (fun c => zlen c <= zlen (Pager.data p)) /\
    safe (child_pointer_offset bt i) (fun off => 0 <= off < zlen (Pager.data p)) /\
    safe (cell_overflow_offset bt i usable)
      (fun o : option Z => forall off, o = Some off -> 0 <= off /\ off + 4 <= zlen (Pager.data p))).
Proof.
  eapply safe_mono; [by apply parse_wf|]. intros bt [Hw <-].
  split_and!; [by apply child_pointer_safe|by apply table_interior_key_safe|by apply table_leaf_cell_safe
    |by apply index_cell_safe|by apply raw_table_leaf_cell_safe|by apply raw_index_record_cell_safe
    |by apply child_pointer_offset_safe|by apply cell_overflow_offset_safe].
Qed.

Lemma page_access_safe_witness :
  safe (parse (Pager.mkPage 2 (zrep 512 10))) (fun bt =>
    safe (child_pointer bt 7) is_u32 /\ safe (table_interior_key bt 7) is_i64 /\
    safe (table_leaf_cell bt 7 480) (fun c => is_i64 (rowid c) /\ payload_in bt (tl_payload c)) /\
    safe (index_cell bt 7 480) (fun c => is_u32 (left_child c) /\ payload_in bt (ix_payload c)) /\
    safe (raw_table_leaf_cell bt 7 480) (fun c => zlen c <= zlen (zrep 512 10)) /\
    safe (raw_index_record_cell bt 7 480) (fun c => zlen c <= zlen (zrep 512 10)) /\
    safe (child_pointer_offset bt 7) (fun off => 0 <= off < zlen (zrep 512 10)) /\
    safe (cell_overflow_offset bt 7 480)
      (fun o : option Z => forall off, o = Some off -> 0 <= off /\ off + 4 <= zlen (zrep 512 10))).
Proof.
  apply (page_access_safe (Pager.mkPage 2 (zrep 512 10)) 7 480); [|lia|lia].
  apply is_bytes_replicate. unfold is_uint. lia.
Defined.

Lemma split_value_spec (t : PageType) (usable p : Z) : t <> InteriorTable -> 257 <= usable -> 0 <= p ->
  let '(local, spills) := split_value t usable p in
  (spills = false <-> p <= max_local t usable) /\
  (spills = false -> local = p) /\
  (spills = true -> min_local usable <= local <= max_local t usable /\ local < p /\
     (local = min_local usable \/ (p - local) mod (usable - 4) = 0)).
Proof.
  intros Ht Hu Hp. pose proof (local_bounds t usable Hu) as Hb. unfold split_value.
  assert (match t with LeafTable => sat_sub usable 35 | _ => sat_sub (sat_sub usable 12 * 64 / 255) 23 end
    = max_local t usable) as Em.
  { unfold max_local, sat_sub in *. rewrite (Z.max_r 0 (usable - 12)) by lia. destruct t; lia. }
  assert (sat_sub (sat_sub usable 12 * 32 / 255) 23 = min_local usable) as En.
  { unfold min_local, sat_sub in *. rewrite (Z.max_r 0 (usable - 12)) by lia. lia. }
  replace (Z.max (sat_sub usable 4) 1) with (usable - 4) by (unfold sat_sub; lia).
  destruct t; [|done|..]; rewrite Em, ?En;
    (match goal with |- context [p <=? ?x] => destruct (Z.leb_spec p x) end; [by split_and!; try done; lia|]);
    set (m := min_local usable) in *;
    replace (sat_sub p m) with (p - m) by (unfold sat_sub; lia);
    pose proof (Z.mod_pos_bound (p - m) (usable - 4) ltac:(lia));
    pose proof (Z.mod_le (p - m) (usable - 4) ltac:(lia) ltac:(lia));
    match goal with |- context [_ + _ <=? ?x] => destruct (Z.leb_spec (m + (p - m) mod (usable - 4)) x) end;
    (split; [split; [done|lia]|]); (split; [done|]); intros _; (split; [lia|]); (split; [lia|]);
    try (by left); right;
    replace (p - (m + (p - m) mod (usable - 4))) with ((p - m) / (usable - 4) * (usable - 4))
      by (pose proof (Z.div_mod (p - m) (usable - 4) ltac:(lia)); lia);
    apply Z.mod_mul; lia.
Qed.

(** The payload split. On every usable size a valid header allows, the
    split is computed and a payload of [p] bytes stays on the page exactly when it is at most
    [max_local]; otherwise between [min_local] and [max_local] bytes stay, at
    least one spills, and unless exactly [min_local] stay the spilled bytes
    fill whole overflow pages. *)
Theorem payload_split_spec (t : PageType) (usable p : Z)
    (Ht : t <> InteriorTable) (Hu : 257 <= usable < 2 ^ 58) (Hp : 0 <= p) :
  exists local spills, payload_split t usable p = Ok (local, spills) /\
  (spills = false <-> p <= max_local t usable) /\
  (spills = false -> local = p) /\
  (spills = true -> min_local usable <= local <= max_local t usable /\ local < p /\
     (local = min_local usable \/ (p - local) mod (usable - 4) = 0)).
Proof.
  pose proof (split_value_spec t usable p Ht (proj1 Hu) Hp) as H.
  rewrite payload_split_Ok by (lia).
  destruct (split_value t usable p) as [local spills]. by exists local, spills.
Qed.

Lemma payload_split_spec_witness :
  exists local spills, payload_split LeafTable 4096 20000 = Ok (local, spills) /\
  (spills = false <-> 20000 <= max_local LeafTable 4096) /\
  (spills = false -> local = 20000) /\
  (spills = true -> min_local 4096 <= local <= max_local LeafTable 4096 /\ local < 20000 /\
     (local = min_local 4096 \/ (20000 - local) mod (4096 - 4) = 0)).
Proof. apply (payload_split_spec LeafTable 4096 20000); [done|lia|lia]. Defined.

End BtPage.
