(* ===== verification/Cursor.v ===== *)
(** B-tree cursors ([src/src/btree/cursor.rs]): reassembling a payload from its
    overflow chain, the table cursor ([first], [last], [next], [seek]) and the
    index cursor.

    A cursor's stack is a list with its top first. The loops of the source are
    bounded only by the shape of the tree, so each takes a fuel argument;
    running out of fuel is a panic, and the theorems about well-formed trees
    exclude it. *)

From S2P Require Import Prelude Header Pager BtPage.
Import BtPage.
Local Open Scope Z_scope.

Module Cursor.

(** [isize::MAX]: the largest [Vec::with_capacity] of bytes that does not
    panic with a capacity overflow. *)
Definition ISIZE_MAX : Z := 2 ^ 63 - 1.

(** ** Overflow chains *)

(** [while next != 0 && out.len() < payload.total_len]. *)
Fixpoint payload_loop (fuel : nat) (src : Pager.PageSource) (usable total : Z) (out : bytes) (next : Z) : res bytes :=
  if negb (next =? 0) && (zlen out <? total) then
    match fuel with
    | O => Panic
    | S fuel =>
        let* p := Pager.src_page src next in
        let d := Pager.data p in
        let* next_ptr := be_u32 d 0 in
        let remaining := total - zlen out in
        if usable <? 4 then Panic
        else
          let take := Z.min remaining (usable - 4) in
          if zlen d <? 4 + take then Err (ECorrupt "overflow page too small")
          else
            let* s := slice d 4 (4 + take) in
            payload_loop fuel src usable total (out ++ s) next_ptr
    end
  else Ok out.

Definition read_payload (src : Pager.PageSource) (page_bytes : bytes) (pl : Payload) : res bytes :=
  if ISIZE_MAX <? total_len pl then Panic
  else
    let* out := slice page_bytes (local_offset pl) (local_offset pl + local_len pl) in
    let* out := payload_loop (Z.to_nat (total_len pl)) src (Pager.src_usable_size src) (total_len pl) out (overflow pl) in
    if negb (zlen out =? total_len pl) then Err (ECorrupt "overflow chain shorter than payload")
    else Ok out.

(** ** The table cursor *)

Record Frame : Type := mkFrame { f_page : BtreePage; f_idx : Z }.

Record TableCursor : Type := mkCursor { root : Z; stack : list Frame; exhausted : bool }.

Definition table_cursor (r : Z) : TableCursor := mkCursor r [] true.

Definition read_page (src : Pager.PageSource) (n : Z) : res BtreePage :=
  let* p := Pager.src_page src n in parse p.

(** [descend_left]: push frames down to the leftmost leaf. *)
Fixpoint descend_left (fuel : nat) (src : Pager.PageSource) (page_no : Z) (st : list Frame) : res (list Frame) :=
  match fuel with
  | O => Panic
  | S fuel =>
      let* bt := read_page src page_no in
      if is_leaf (page_type bt) then Ok (mkFrame bt 0 :: st)
      else
        let* child := child_pointer bt 0 in
        descend_left fuel src child (mkFrame bt 0 :: st)
  end.

(** The inner [while let] of [settle]: walk up to the next child and descend
    into it; [None] when the stack is used up. *)
Fixpoint ascend (fuel : nat) (src : Pager.PageSource) (st : list Frame) : res (option (list Frame)) :=
  match st with
  | [] => Ok None
  | top :: rest =>
      let i := f_idx top + 1 in
      if i <=? num_cells (f_page top) then
        let* child := child_pointer (f_page top) i in
        let* st := descend_left fuel src child (mkFrame (f_page top) i :: rest) in
        Ok (Some st)
      else ascend fuel src rest
  end.

(** [settle]: whether a cell was found, and the stack; the cursor is exhausted
    when none was. *)
Fixpoint settle (fuel : nat) (src : Pager.PageSource) (st : list Frame) : res (bool * list Frame) :=
  match st with
  | [] => Ok (false, [])
  | top :: rest =>
      if f_idx top <? num_cells (f_page top) then Ok (true, st)
      else
        match fuel with
        | O => Panic
        | S fuel =>
            let* up := ascend fuel src rest in
            match up with
            | None => Ok (false, [])
            | Some st => settle fuel src st
            end
        end
  end.

Definition settled (r : Z) (x : bool * list Frame) : bool * TableCursor :=
  (x.1, mkCursor r x.2 (negb x.1)).

Definition first (fuel : nat) (src : Pager.PageSource) (c : TableCursor) : res (bool * TableCursor) :=
  let* st := descend_left fuel src (root c) [] in
  let* x := settle fuel src st in
  Ok (settled (root c) x).

(** [last]: down the right-most pointers. *)
Fixpoint last_loop (fuel : nat) (src : Pager.PageSource) (page_no : Z) (st : list Frame) : res (bool * list Frame) :=
  match fuel with
  | O => Panic
  | S fuel =>
      let* bt := read_page src page_no in
      let n := num_cells bt in
      if is_leaf (page_type bt) then
        if n =? 0 then Ok (false, mkFrame bt 0 :: st) else Ok (true, mkFrame bt (n - 1) :: st)
      else
        let* child := child_pointer bt n in
        last_loop fuel src child (mkFrame bt n :: st)
  end.

Definition last (fuel : nat) (src : Pager.PageSource) (c : TableCursor) : res (bool * TableCursor) :=
  let* x := last_loop fuel src (root c) [] in
  Ok (settled (root c) x).

Definition is_valid (c : TableCursor) : bool := negb (exhausted c).

Definition leaf_frame (c : TableCursor) : res Frame :=
  if exhausted c then Err (EError "cursor not positioned on a row")
  else ok_or (head (stack c)) (EError "cursor has no current frame").

Definition cursor_rowid (src : Pager.PageSource) (c : TableCursor) : res Z :=
  let* f := leaf_frame c in
  let* cell := table_leaf_cell (f_page f) (f_idx f) (Pager.src_usable_size src) in
  Ok (rowid cell).

Definition payload (src : Pager.PageSource) (c : TableCursor) : res bytes :=
  let* f := leaf_frame c in
  let* cell := table_leaf_cell (f_page f) (f_idx f) (Pager.src_usable_size src) in
  read_payload src (bt_data (f_page f)) (tl_payload cell).

Definition next (fuel : nat) (src : Pager.PageSource) (c : TableCursor) : res (bool * TableCursor) :=
  if exhausted c then Ok (false, c)
  else
    match stack c with
    | [] => Panic
    | top :: rest =>
        let* x := settle fuel src (mkFrame (f_page top) (f_idx top + 1) :: rest) in
        Ok (settled (root c) x)
    end.

(** The first cell whose rowid is at least [target], from cell [i] on. *)
Fixpoint leaf_search (n : nat) (bt : BtreePage) (usable target i : Z) : res (Z * bool) :=
  match n with
  | O => Ok (i, false)
  | S n =>
      let* cell := table_leaf_cell bt i usable in
      if target <=? rowid cell then Ok (i, rowid cell =? target)
      else leaf_search n bt usable target (i + 1)
  end.

(** The first separator that is at least [target], from cell [i] on. *)
Fixpoint interior_search (n : nat) (bt : BtreePage) (target i : Z) : res Z :=
  match n with
  | O => Ok i
  | S n =>
      let* k := table_interior_key bt i in
      if target <=? k then Ok i else interior_search n bt target (i + 1)
  end.

Fixpoint seek_loop (fuel : nat) (src : Pager.PageSource) (target : Z) (r page_no : Z) (st : list Frame)
    : res (bool * TableCursor) :=
  match fuel with
  | O => Panic
  | S fuel =>
      let* bt := read_page src page_no in
      let n := num_cells bt in
      if is_leaf (page_type bt) then
        let* (i, exact) := leaf_search (Z.to_nat n) bt (Pager.src_usable_size src) target 0 in
        let c := mkCursor r (mkFrame bt i :: st) false in
        if n <=? i then
          let* (_, c) := next fuel src c in Ok (false, c)
        else Ok (exact, c)
      else
        let* i := interior_search (Z.to_nat n) bt target 0 in
        let* child := child_pointer bt i in
        seek_loop fuel src target r child (mkFrame bt i :: st)
  end.

Definition seek (fuel : nat) (src : Pager.PageSource) (c : TableCursor) (target : Z) : res (bool * TableCursor) :=
  seek_loop fuel src target (root c) (root c) [].

(** ** Clients of the table cursor *)

(** [while ok { rows.push((cur.rowid()?, cur.payload()?)); ok = cur.next()? }],
    the loop of [compact_table]. *)
Fixpoint collect_rows (n fuel : nat) (src : Pager.PageSource) (ok : bool) (c : TableCursor) : res (list (Z * bytes)) :=
  if ok then
    match n with
    | O => Panic
    | S n =>
        let* r := cursor_rowid src c in
        let* p := payload src c in
        let* (ok, c) := next fuel src c in
        let* rest := collect_rows n fuel src ok c in
        Ok ((r, p) :: rest)
    end
  else Ok [].

Definition scan_rows (fuel : nat) (src : Pager.PageSource) (r : Z) : res (list (Z * bytes)) :=
  let* (ok, c) := first fuel src (table_cursor r) in
  collect_rows fuel fuel src ok c.

(** [i64::saturating_add(1)]. *)
Definition sat_succ (r : Z) : Z := Z.min (2 ^ 63 - 1) (r + 1).

(** [Connection::next_rowid]. *)
Definition next_rowid (fuel : nat) (src : Pager.PageSource) (r : Z) : res Z :=
  let* (ok, c) := last fuel src (table_cursor r) in
  if ok then let* k := cursor_rowid src c in Ok (sat_succ k) else Ok 1.

(** ** The index cursor *)

Record IndexFrame : Type := mkIFrame { if_page : BtreePage; if_step : Z }.

Record IndexCursor : Type := mkICursor { ic_root : Z; ic_stack : list IndexFrame; started : bool }.

Definition index_cursor (r : Z) : IndexCursor := mkICursor r [] false.

(** The [loop] of [IndexCursor::next]. *)
Fixpoint index_loop (fuel : nat) (src : Pager.PageSource) (usable : Z) (st : list IndexFrame)
    : res (option bytes * list IndexFrame) :=
  match fuel with
  | O => Panic
  | S fuel =>
      match st with
      | [] => Ok (None, [])
      | top :: rest =>
          let bt := if_page top in
          let step := if_step top in
          if is_leaf (page_type bt) then
            if step <? num_cells bt then
              let* cell := index_cell bt step usable in
              let* pl := read_payload src (bt_data bt) (ix_payload cell) in
              Ok (Some pl, mkIFrame bt (step + 1) :: rest)
            else index_loop fuel src usable rest
          else if 2 * num_cells bt <? step then index_loop fuel src usable rest
          else
            let k := step / 2 in
            if step mod 2 =? 0 then
              let* child := child_pointer bt k in
              let* cp := read_page src child in
              index_loop fuel src usable (mkIFrame cp 0 :: mkIFrame bt (step + 1) :: rest)
            else
              let* cell := index_cell bt k usable in
              let* pl := read_payload src (bt_data bt) (ix_payload cell) in
              Ok (Some pl, mkIFrame bt (step + 1) :: rest)
      end
  end.

Definition index_next (fuel : nat) (src : Pager.PageSource) (c : IndexCursor) : res (option bytes * IndexCursor) :=
  let* st := if started c then Ok (ic_stack c)
             else let* bt := read_page src (ic_root c) in Ok (mkIFrame bt 0 :: ic_stack c) in
  let* (o, st) := index_loop fuel src (Pager.src_usable_size src) st in
  Ok (o, mkICursor (ic_root c) st true).

(** [while let Some(payload) = cur.next()? { .. }]: every key of the index. *)
Fixpoint collect_keys (n fuel : nat) (src : Pager.PageSource) (c : IndexCursor) : res (list bytes) :=
  match n with
  | O => Panic
  | S n =>
      let* (o, c) := index_next fuel src c in
      match o with
      | None => Ok []
      | Some p => let* rest := collect_keys n fuel src c in Ok (p :: rest)
      end
  end.

Definition scan_keys (fuel : nat) (src : Pager.PageSource) (r : Z) : res (list bytes) :=
  collect_keys fuel fuel src (index_cursor r).

End Cursor.
