(* ===== verification/CursorProps.v ===== *)
(** Correctness of the cursor model of [Cursor] against trees of pages: a scan
    visits exactly the cells of the leaves from left to right, [seek] positions
    at the first row that is not below its target, payload reassembly is safe
    and terminates, and what [last] answers when the right-most leaf is empty. *)

From stdpp Require Import sorting.
From S2P Require Import Prelude Varint Header Pager BtPage Cursor.
Import BtPage Cursor.
Local Open Scope Z_scope.

Module CursorProps.

(** ** Reassembling payloads *)

Section Source.
Context (src : Pager.PageSource) `{Hsrc : !Pager.SourceOk src}.
#[local] Set Default Proof Using "All".

Lemma usable_range : 257 <= Pager.src_usable_size src <= 65536.
Proof.
  rewrite Pager.src_usable. destruct (Pager.src_header_wf (s := src)) as [[? _] (_ & _ & Hr) _ _].
  unfold Header.usable_size, is_uint in *. lia.
Qed.

Lemma page_fits n p : Pager.src_page src n = Ok p -> Pager.src_usable_size src <= zlen (Pager.data p).
Proof.
  intros E. rewrite (Pager.src_length n p E), Pager.src_usable.
  destruct (Pager.src_header_wf (s := src)) as [_ (_ & _ & Hr) _ _]. unfold Header.usable_size, is_uint in *. lia.
Qed.

(** Each turn of the loop adds a byte, so [total] turns are enough. *)
Lemma payload_loop_safe fuel : forall total out next, is_bytes out -> total - zlen out <= Z.of_nat fuel ->
  zlen out <= total -> 0 <= next ->
  safe (payload_loop fuel src (Pager.src_usable_size src) total out next)
    (fun r => is_bytes r /\ zlen r <= total /\ exists rest, r = out ++ rest).
Proof.
  pose proof usable_range as Hu.
  induction fuel as [|fuel IH]; intros total out next Ho Hf Hle Hnx; cbn [payload_loop];
    (destruct (Z.ltb_spec (zlen out) total); [destruct (next =? 0); simpl|rewrite andb_false_r]);
    try (split_and!; [done|done|]; exists []; by rewrite app_nil_r); [lia|].
  destruct (Pager.src_page src next) as [p|e|] eqn:E; simpl; [|done|by destruct (Pager.src_no_panic next Hnx)].
  pose proof (Pager.src_bytes next p E) as Hb. pose proof (page_fits next p E) as Hz.
  eapply safe_bind; [apply safe_be_u32; [done|lia..]|]. intros np Hnp.
  destruct (Z.ltb_spec (Pager.src_usable_size src) 4); [lia|].
  set (take := Z.min _ _). assert (1 <= take <= Pager.src_usable_size src - 4 /\ take <= total - zlen out) as Ht by (unfold take; lia).
  destruct (Z.ltb_spec (zlen (Pager.data p)) (4 + take)); [lia|].
  rewrite slice_Ok by lia. simpl. set (s := sub _ _ _).
  assert (zlen s = take) as Hs by (unfold s; rewrite zlen_sub; lia).
  eapply safe_mono; [apply IH|].
  - apply is_bytes_app. split; [done|]. by apply is_bytes_sub.
  - rewrite zlen_app. lia.
  - rewrite zlen_app. lia.
  - unfold is_uint in Hnp. lia.
  - intros r (Hr & Hl & rest & ->). split_and!; [done|done|]. exists (s ++ rest). by rewrite app_assoc.
Qed.

Lemma read_payload_in bt pl : is_bytes (bt_data bt) -> payload_in bt pl -> total_len pl <= ISIZE_MAX ->
  safe (read_payload src (bt_data bt) pl) (fun r => is_bytes r /\ zlen r = total_len pl /\
    take (Z.to_nat (local_len pl)) r = sub (bt_data bt) (local_offset pl) (local_offset pl + local_len pl)).
Proof.
  intros Hb (Ht & Ho & Hl & Hov & Hz) Hmax. unfold read_payload, is_uint in *.
  destruct (Z.ltb_spec ISIZE_MAX (total_len pl)); [lia|].
  assert (local_offset pl + local_len pl <= zlen (bt_data bt)) by (destruct (overflow pl =? 0); lia).
  rewrite slice_Ok by lia. bind_step. set (loc := sub _ _ _).
  assert (zlen loc = local_len pl) as Hloc by (unfold loc; rewrite zlen_sub; lia).
  eapply safe_bind; [apply (payload_loop_safe (Z.to_nat (total_len pl)) (total_len pl) loc (overflow pl)); [by apply is_bytes_sub|lia|lia|lia]|].
  intros r (Hr & Hrl & rest & ->). destruct (Z.eqb_spec (zlen (loc ++ rest)) (total_len pl)) as [E|E]; simpl; [|done].
  split_and!; [done|done|]. rewrite <- Hloc. unfold zlen. rewrite Nat2Z.id. apply take_app_length.
Qed.

(** ** Trees of pages *)

Inductive tree : Type :=
  | Leaf (bt : BtreePage)
  | Node (bt : BtreePage) (kids : list tree).

Lemma tree_ind' (P : tree -> Prop) :
  (forall bt, P (Leaf bt)) -> (forall bt kids, Forall P kids -> P (Node bt kids)) -> forall t, P t.
Proof.
  intros HL HN. fix IH 1. intros [bt|bt kids]; [apply HL|]. apply HN.
  induction kids as [|k ks IHks]; constructor; [apply IH|exact IHks].
Qed.

(** The leaves from left to right. *)
Fixpoint leaves (t : tree) : list BtreePage :=
  match t with
  | Leaf bt => [bt]
  | Node _ kids => flat_map leaves kids
  end.

Fixpoint height (t : tree) : nat :=
  match t with
  | Leaf _ => 1
  | Node _ kids => S (fold_right (fun k a => Nat.max (height k) a) 0%nat kids)
  end.

Lemma height_kid bt kids k : k ∈ kids -> (S (height k) <= height (Node bt kids))%nat.
Proof.
  intros Hk. simpl. apply le_n_S. induction kids as [|k' ks IH]; simpl; [by apply elem_of_nil in Hk|].
  apply elem_of_cons in Hk as [->|Hk]; [lia|]. specialize (IH Hk). lia.
Qed.

(** Page [n] is the root of the tree [t]: each interior page's child pointers
    lead to the roots of its kids, one more than it has cells. *)
Fixpoint tree_at (n : Z) (t : tree) : Prop :=
  match t with
  | Leaf bt => read_page src n = Ok bt /\ is_leaf (page_type bt) = true
  | Node bt kids =>
      read_page src n = Ok bt /\ is_leaf (page_type bt) = false /\ zlen kids = num_cells bt + 1 /\
      (fix go (i : Z) (ks : list tree) : Prop :=
         match ks with
         | [] => True
         | k :: ks => (exists c, child_pointer bt i = Ok c /\ tree_at c k) /\ go (i + 1) ks
         end) 0 kids
  end.

Definition node_ok (bt : BtreePage) (kids : list tree) : Prop :=
  is_leaf (page_type bt) = false /\ zlen kids = num_cells bt + 1 /\ 0 <= num_cells bt /\
  forall j k, kids !! j = Some k -> exists c, child_pointer bt (Z.of_nat j) = Ok c /\ tree_at c k.

Lemma read_page_wf n bt : read_page src n = Ok bt -> wf bt.
Proof.
  unfold read_page. intros (p & E & Hp)%res_bind_Ok.
  pose proof (parse_wf p (Pager.src_bytes n p E)) as H. rewrite Hp in H. apply H.
Qed.

Lemma tree_at_node n bt kids : tree_at n (Node bt kids) <-> read_page src n = Ok bt /\ node_ok bt kids.
Proof.
  cbn [tree_at].
  assert (forall ks i, (fix go (i : Z) (ks : list tree) : Prop :=
         match ks with
         | [] => True
         | k :: ks => (exists c, child_pointer bt i = Ok c /\ tree_at c k) /\ go (i + 1) ks
         end) i ks <-> forall j k, ks !! j = Some k -> exists c, child_pointer bt (i + Z.of_nat j) = Ok c /\ tree_at c k) as Hgo.
  { induction ks as [|k ks IH]; intros i; [split; [by intros _ j k Hj|done]|]. rewrite IH. split.
    - intros [H0 H1] [|j] k' Hj; [injection Hj as <-; by rewrite Z.add_0_r|].
      destruct (H1 j k' Hj) as (c & Ec & Hc). exists c. split; [|done]. rewrite <- Ec. f_equal. lia.
    - intros H. split; [destruct (H 0%nat k eq_refl) as (c & Ec & Hc); exists c; by rewrite Z.add_0_r in Ec|].
      intros j k' Hj. destruct (H (S j) k' Hj) as (c & Ec & Hc). exists c. split; [|done]. rewrite <- Ec. f_equal. lia. }
  unfold node_ok. split.
  - intros (E & Hl & Hz & Hg). split_and!; [done|done|done|by destruct (read_page_wf n bt E) as (_ & _ & _ & [? _] & _)|].
    by apply (Hgo kids 0).
  - intros (E & Hl & Hz & _ & Hk). split_and!; [done..|]. by apply (Hgo kids 0).
Qed.

Lemma node_ok_kid bt kids i : node_ok bt kids -> 0 <= i <= num_cells bt ->
  exists k c, kids !! Z.to_nat i = Some k /\ child_pointer bt i = Ok c /\ tree_at c k /\
    drop (Z.to_nat i) kids = k :: drop (Z.to_nat i + 1) kids.
Proof.
  intros (_ & Hz & _ & Hk) Hi. destruct (lookup_lt_is_Some_2 kids (Z.to_nat i)) as [k Ek]; [unfold zlen in Hz; lia|].
  destruct (Hk _ _ Ek) as (c & Ec & Hc). rewrite Z2Nat.id in Ec by lia. exists k, c. split_and!; [done..|].
  rewrite Nat.add_1_r. by apply drop_S.
Qed.

(** ** Positions *)

(** The interior frames below a leaf, and the leaves still to come after it.
    Every subtree hanging off the frames has height at most [h]. *)
Inductive ctx (h : nat) : list Frame -> list BtreePage -> Prop :=
  | ctx_nil : ctx h [] []
  | ctx_cons bt i kids st L :
      node_ok bt kids -> 0 <= i -> Forall (fun k => (height k <= h)%nat) kids -> ctx h st L ->
      ctx h (mkFrame bt i :: st) (flat_map leaves (drop (Z.to_nat i + 1) kids) ++ L).

Definition cells_from (bt : BtreePage) (i : Z) : list (BtreePage * Z) :=
  (fun j => (bt, j)) <$> seqZ i (num_cells bt - i).

Definition all_cells (L : list BtreePage) : list (BtreePage * Z) := flat_map (fun bt => cells_from bt 0) L.

(** The stack is on a leaf and the cells [cs] are still to be visited, the
    current one first; [m] bounds the leaves still to come. *)
Definition at_pos (h m : nat) (st : list Frame) (cs : list (BtreePage * Z)) : Prop :=
  exists bt i st' L, st = mkFrame bt i :: st' /\ 0 <= i /\ ctx h st' L /\ (length L <= m)%nat /\
    cs = cells_from bt i ++ all_cells L.

Lemma cells_from_S bt i : i < num_cells bt -> cells_from bt i = (bt, i) :: cells_from bt (i + 1).
Proof.
  intros H. unfold cells_from. rewrite seqZ_cons by lia. simpl. do 2 f_equal.
  replace (Z.succ i) with (i + 1) by lia. f_equal. lia.
Qed.

Lemma cells_from_nil bt i : num_cells bt <= i -> cells_from bt i = [].
Proof. intros H. unfold cells_from. by rewrite seqZ_nil by lia. Qed.

Lemma descend_left_spec h n t : tree_at n t -> forall fuel st L,
  (height t <= fuel)%nat -> (height t <= h)%nat -> ctx h st L ->
  exists bt st' L', descend_left fuel src n st = Ok (mkFrame bt 0 :: st') /\ ctx h st' L' /\ leaves t ++ L = bt :: L'.
Proof.
  revert n. induction t as [bt|bt kids IH] using tree_ind'; intros n Ht [|fuel] st L Hf Hh Hc; try (simpl in Hf; lia).
  - destruct Ht as [E El]. exists bt, st, L. cbn [descend_left]. rewrite E. bind_step. by rewrite El.
  - apply tree_at_node in Ht as [E Hn]. destruct (node_ok_kid bt kids 0 Hn) as (k & c & Ek & Ec & Hk & Ed); [destruct Hn as (_ & _ & ? & _); lia|].
    cbn [descend_left]. rewrite E. bind_step. rewrite (proj1 Hn), Ec. bind_step.
    pose proof (list_elem_of_lookup_2 _ _ _ Ek) as Hin. pose proof (height_kid bt kids k Hin) as Hhk.
    rewrite Forall_forall in IH.
    destruct (IH k Hin c Hk fuel (mkFrame bt 0 :: st) (flat_map leaves (drop (Z.to_nat 0 + 1) kids) ++ L)) as (b & st' & L' & E' & Hc' & EL).
    { lia. } { lia. }
    { constructor; [done|lia| |done]. apply Forall_forall. intros k' Hk'. pose proof (height_kid bt kids k' Hk'). lia. }
    exists b, st', L'. split_and!; [done|done|]. rewrite <- EL, app_assoc. f_equal. change (leaves (Node bt kids)) with (flat_map leaves kids).
    change (drop (Z.to_nat 0) kids) with kids in Ed. by rewrite Ed at 1.
Qed.

Lemma ascend_spec h fuel st L : (h <= fuel)%nat -> ctx h st L ->
  L = [] /\ ascend fuel src st = Ok None \/
  exists bt st' L', ascend fuel src st = Ok (Some (mkFrame bt 0 :: st')) /\ ctx h st' L' /\ L = bt :: L'.
Proof.
  intros Hf. induction 1 as [|bt i kids st L Hn Hi Hh Hc IH]; [by left|]. cbn [ascend f_idx f_page].
  destruct (Z.leb_spec (i + 1) (num_cells bt)) as [Hle|Hgt].
  - right. destruct (node_ok_kid bt kids (i + 1) Hn) as (k & c & Ek & Ec & Hk & Ed); [lia|].
    rewrite Ec. bind_step. rewrite Forall_forall in Hh. pose proof (Hh k (list_elem_of_lookup_2 _ _ _ Ek)) as Hhk.
    destruct (descend_left_spec h c k Hk fuel (mkFrame bt (i + 1) :: st) (flat_map leaves (drop (Z.to_nat (i + 1) + 1) kids) ++ L))
      as (b & st' & L' & E' & Hc' & EL); [lia|lia|constructor; [done|lia|by apply Forall_forall|done]|].
    exists b, st', L'. rewrite E'. split_and!; [done|done|]. rewrite <- EL.
    replace (Z.to_nat i + 1)%nat with (Z.to_nat (i + 1)) by lia. rewrite Ed. cbn [flat_map]. by rewrite app_assoc.
  - destruct Hn as (_ & Hz & _). assert (drop (Z.to_nat i + 1) kids = []) as -> by (apply drop_ge; unfold zlen in Hz; lia).
    exact IH.
Qed.

(** [settle] finds the next cell to visit, if any. *)
Lemma settle_spec h : forall m fuel st cs, (h + m < fuel)%nat -> at_pos h m st cs ->
  match cs with
  | [] => settle fuel src st = Ok (false, [])
  | (bt, i) :: _ => exists st', settle fuel src st = Ok (true, mkFrame bt i :: st') /\ at_pos h m (mkFrame bt i :: st') cs
  end.
Proof.
  induction m as [m IH] using lt_wf_ind. intros fuel st cs Hf (bt & i & st' & L & -> & Hi & Hc & Hm & ->).
  destruct fuel as [|fuel]; [lia|]. cbn [settle f_idx f_page].
  destruct (Z.ltb_spec i (num_cells bt)) as [Hlt|Hge].
  - rewrite cells_from_S by done. cbn [app]. exists st'. split; [done|]. exists bt, i, st', L. split_and!; [done..|].
    rewrite (cells_from_S bt i) by done. done.
  - rewrite (cells_from_nil bt i) by done. cbn [app].
    destruct (ascend_spec h fuel st' L ltac:(lia) Hc) as [[-> ->]|(b & s2 & L' & -> & Hc' & ->)]; [done|]. bind_step.
    cbn [length] in Hm. destruct m as [|m]; [lia|].
    specialize (IH m ltac:(lia) fuel (mkFrame b 0 :: s2) (all_cells (b :: L')) ltac:(lia)).
    assert (at_pos h m (mkFrame b 0 :: s2) (all_cells (b :: L'))) as Hp by (exists b, 0, s2, L'; split_and!; lia || done).
    specialize (IH Hp). destruct (all_cells (b :: L')) as [|[b' i'] cs]; [done|].
    destruct IH as (s3 & E3 & b4 & i4 & s4 & L4 & Hp4). exists s3. split; [done|].
    exists b4, i4, s4, L4. destruct Hp4 as (? & ? & ? & ? & ?). split_and!; (done || lia).
Qed.

Lemma next_spec h m fuel r bt i st cs : (h + m < fuel)%nat -> i < num_cells bt ->
  at_pos h m (mkFrame bt i :: st) ((bt, i) :: cs) ->
  match cs with
  | [] => next fuel src (mkCursor r (mkFrame bt i :: st) false) = Ok (false, mkCursor r [] true)
  | (b, j) :: _ => exists st', next fuel src (mkCursor r (mkFrame bt i :: st) false) = Ok (true, mkCursor r (mkFrame b j :: st') false) /\
      at_pos h m (mkFrame b j :: st') cs
  end.
Proof.
  intros Hf Hi (bt' & i' & st' & L & [= <- <- <-] & H0 & Hc & Hm & E). rewrite cells_from_S in E by done. injection E as ->.
  pose proof (settle_spec h m fuel (mkFrame bt (i + 1) :: st) (cells_from bt (i + 1) ++ all_cells L) Hf) as Hs.
  unfold next. cbn [exhausted stack f_page f_idx root].
  specialize (Hs ltac:(exists bt, (i + 1), st, L; split_and!; lia || done)).
  destruct (cells_from bt (i + 1) ++ all_cells L) as [|[b j] cs]; [by rewrite Hs|].
  destruct Hs as (s2 & -> & Hp). exists s2. by split.
Qed.

(** ** Scans *)

(** The row a cell holds. *)
Definition cell_row (x : BtreePage * Z) : res (Z * bytes) :=
  let* cell := table_leaf_cell x.1 x.2 (Pager.src_usable_size src) in
  let* p := read_payload src (bt_data x.1) (tl_payload cell) in
  Ok (rowid cell, p).

Lemma cell_row_cursor x row r st : cell_row x = Ok row ->
  cursor_rowid src (mkCursor r (mkFrame x.1 x.2 :: st) false) = Ok row.1 /\
  payload src (mkCursor r (mkFrame x.1 x.2 :: st) false) = Ok row.2.
Proof.
  unfold cell_row. intros (cell & Ec & (p & Ep & [= <-])%res_bind_Ok)%res_bind_Ok.
  unfold cursor_rowid, payload, leaf_frame. cbn [exhausted stack head ok_or f_page f_idx res_bind]. by rewrite Ec.
Qed.

(** A cell that could be read has a valid index. *)
Lemma cell_row_idx x row : cell_row x = Ok row -> x.2 < num_cells x.1.
Proof.
  unfold cell_row, table_leaf_cell, cell_offset. intros (cell & Ec & _)%res_bind_Ok.
  destruct (negb _); [done|]. destruct (Z.leb_spec (num_cells x.1) x.2); [done|lia].
Qed.

Lemma collect_rows_spec h m fuel r : (h + m < fuel)%nat -> forall cs rows,
  Forall2 (fun x row => cell_row x = Ok row) cs rows -> forall n, (length cs <= n)%nat -> forall x st,
  head cs = Some x -> at_pos h m (mkFrame x.1 x.2 :: st) cs ->
  collect_rows n fuel src true (mkCursor r (mkFrame x.1 x.2 :: st) false) = Ok rows.
Proof.
  intros Hf. induction 1 as [|x row cs rows Hx Hrest IH]; intros n Hn x' st Hh Hp; [done|].
  injection Hh as <-. destruct n as [|n]; [simpl in Hn; lia|]. cbn [collect_rows].
  destruct (cell_row_cursor x row r st Hx) as [-> ->]. do 2 bind_step.
  pose proof (next_spec h m fuel r x.1 x.2 st cs Hf (cell_row_idx x row Hx)) as Hnext.
  rewrite <- surjective_pairing in Hnext. specialize (Hnext Hp).
  destruct cs as [|[b j] cs].
  - rewrite Hnext. bind_step. apply Forall2_nil_inv_l in Hrest as ->. destruct n; cbn [collect_rows]; bind_step; by destruct row.
  - destruct Hnext as (st' & -> & Hp'). bind_step.
    pose proof (IH n ltac:(simpl in Hn |- *; lia) (b, j) st' eq_refl Hp') as E. cbn [fst snd] in E.
    rewrite E. bind_step. by destruct row.
Qed.

Lemma first_spec fuel r t : tree_at r t -> (height t + length (leaves t) < fuel)%nat ->
  match all_cells (leaves t) with
  | [] => first fuel src (table_cursor r) = Ok (false, mkCursor r [] true)
  | (bt, i) :: _ => exists st, first fuel src (table_cursor r) = Ok (true, mkCursor r (mkFrame bt i :: st) false) /\
      at_pos (height t) (length (leaves t)) (mkFrame bt i :: st) (all_cells (leaves t))
  end.
Proof.
  intros Ht Hf. destruct (descend_left_spec (height t) r t Ht fuel [] []) as (b & st' & L' & E & Hc & EL); [lia|lia|constructor|].
  rewrite app_nil_r in EL.
  pose proof (settle_spec (height t) (length (leaves t)) fuel (mkFrame b 0 :: st') (all_cells (leaves t)) Hf) as Hs.
  assert (at_pos (height t) (length (leaves t)) (mkFrame b 0 :: st') (all_cells (leaves t))) as Hp.
  { exists b, 0, st', L'. rewrite EL. split_and!; [done|lia|done|simpl; lia|done]. }
  specialize (Hs Hp). unfold first. cbn [root table_cursor]. rewrite E. bind_step.
  destruct (all_cells (leaves t)) as [|[b' i'] cs]; [by rewrite Hs|]. destruct Hs as (s2 & -> & Hp2). by exists s2.
Qed.

Lemma scan_rows_spec fuel r t rows : tree_at r t ->
  Forall2 (fun x row => cell_row x = Ok row) (all_cells (leaves t)) rows ->
  (height t + length (leaves t) + length rows < fuel)%nat ->
  scan_rows fuel src r = Ok rows.
Proof.
  intros Ht Hrows Hf. pose proof (first_spec fuel r t Ht ltac:(lia)) as H1. unfold scan_rows.
  pose proof (Forall2_length _ _ _ Hrows) as Hlen.
  destruct (all_cells (leaves t)) as [|[b i] cs] eqn:Ec.
  - rewrite H1. bind_step. apply Forall2_nil_inv_l in Hrows as ->. by destruct fuel.
  - destruct H1 as (st & -> & Hp). bind_step.
    by apply (collect_rows_spec (height t) (length (leaves t)) fuel r ltac:(lia) _ _ Hrows fuel ltac:(lia) (b, i) st eq_refl).
Qed.

(** ** Seeking *)

Definition key_of (x : BtreePage * Z) (k : Z) : Prop :=
  exists cell, table_leaf_cell x.1 x.2 (Pager.src_usable_size src) = Ok cell /\ rowid cell = k.

(** The rowids of the cells [cs] satisfy [P]. *)
Definition keys_in (cs : list (BtreePage * Z)) (P : Z -> Prop) : Prop :=
  forall x k, x ∈ cs -> key_of x k -> P k.

(** Rowids ascend within each leaf, and each separator of an interior page is
    at least the rowids to its left and below the rowids to its right. *)
Fixpoint keyed (t : tree) : Prop :=
  match t with
  | Leaf bt =>
      (forall i, 0 <= i < num_cells bt -> exists k, key_of (bt, i) k) /\
      (forall i j a b, 0 <= i < j -> j < num_cells bt -> key_of (bt, i) a -> key_of (bt, j) b -> a < b)
  | Node bt kids =>
      (forall j, 0 <= j < num_cells bt -> exists key, table_interior_key bt j = Ok key /\
         (forall k, kids !! Z.to_nat j = Some k -> keys_in (all_cells (leaves k)) (fun r => r <= key)) /\
         keys_in (all_cells (flat_map leaves (drop (Z.to_nat j + 1) kids))) (fun r => key < r)) /\
      fold_right (fun k P => keyed k /\ P) True kids
  end.

Lemma keyed_kid bt kids k : keyed (Node bt kids) -> k ∈ kids -> keyed k.
Proof.
  intros [_ H] Hk. induction kids as [|k' ks IH]; [by apply elem_of_nil in Hk|]. destruct H as [H1 H2].
  apply elem_of_cons in Hk as [->|Hk]; [done|by apply IH].
Qed.

Lemma key_of_inj x a b : key_of x a -> key_of x b -> a = b.
Proof. intros (c & E & <-) (c' & E' & <-). congruence. Qed.

Lemma all_cells_app L L' : all_cells (L ++ L') = all_cells L ++ all_cells L'.
Proof. apply flat_map_app. Qed.

Lemma elem_cells_from bt i x : x ∈ cells_from bt i <-> x.1 = bt /\ i <= x.2 < num_cells bt.
Proof.
  unfold cells_from. rewrite list_elem_of_fmap. setoid_rewrite elem_of_seqZ. destruct x as [b j]. simpl. split.
  - intros (y & [= -> ->] & Hy). split; [done|lia].
  - intros [-> Hj]. exists j. split; [done|lia].
Qed.

Lemma cells_from_split bt i j : i <= j <= num_cells bt ->
  cells_from bt i = ((fun k => (bt, k)) <$> seqZ i (j - i)) ++ cells_from bt j.
Proof.
  intros H. unfold cells_from. rewrite <- fmap_app. f_equal.
  replace (num_cells bt - i) with ((j - i) + (num_cells bt - j)) by lia. rewrite seqZ_app by lia.
  do 2 f_equal. lia.
Qed.

Lemma leaf_search_spec bt target : keyed (Leaf bt) -> forall n i, 0 <= i -> num_cells bt = i + Z.of_nat n ->
  exists i' ex, leaf_search n bt (Pager.src_usable_size src) target i = Ok (i', ex) /\ i <= i' <= num_cells bt /\
    (forall j k, i <= j < i' -> key_of (bt, j) k -> k < target) /\
    (i' < num_cells bt -> exists k, key_of (bt, i') k /\ target <= k /\ ex = (k =? target)).
Proof.
  intros [Hall _]. induction n as [|n IH]; intros i Hi Hn; cbn [leaf_search].
  { exists i, false. split_and!; [done|lia|lia|lia|lia]. }
  destruct (Hall i ltac:(lia)) as (k & cell & Ec & Ek). cbn [fst snd] in Ec. rewrite Ec. bind_step. rewrite Ek.
  destruct (Z.leb_spec target k) as [Hle|Hgt].
  - exists i, (k =? target). split_and!; [done|lia|lia|lia|]. intros _. exists k. split_and!; [by exists cell|done|done].
  - destruct (IH (i + 1) ltac:(lia) ltac:(lia)) as (i' & ex & E & Hr & Hlo & Hhi). exists i', ex. split_and!; [done|lia|lia| |done].
    intros j k' Hj Hk'. destruct (decide (j = i)) as [->|]; [|apply (Hlo j); [lia|done]].
    rewrite (key_of_inj _ _ _ Hk' (ex_intro _ cell (conj Ec Ek))). lia.
Qed.

Lemma interior_search_spec bt kids target : keyed (Node bt kids) -> forall n i, 0 <= i -> num_cells bt = i + Z.of_nat n ->
  exists i', interior_search n bt target i = Ok i' /\ i <= i' <= num_cells bt /\
    (forall j key, i <= j < i' -> table_interior_key bt j = Ok key -> key < target) /\
    (i' < num_cells bt -> exists key, table_interior_key bt i' = Ok key /\ target <= key).
Proof.
  intros [Hall _]. induction n as [|n IH]; intros i Hi Hn; cbn [interior_search].
  { exists i. split_and!; [done|lia|lia|lia|lia]. }
  destruct (Hall i ltac:(lia)) as (key & Ek & _). rewrite Ek. bind_step.
  destruct (Z.leb_spec target key) as [Hle|Hgt].
  - exists i. split_and!; [done|lia|lia|lia|]. intros _. by exists key.
  - destruct (IH (i + 1) ltac:(lia) ltac:(lia)) as (i' & E & Hr & Hlo & Hhi). exists i'. split_and!; [done|lia|lia| |done].
    intros j k' Hj Hk'. destruct (decide (j = i)) as [->|]; [|apply (Hlo j); [lia|done]]. congruence.
Qed.

(** What a seek leaves behind: the cells before the cursor are below the
    target, those from the cursor on are not. *)
Definition sought (h m : nat) (r target : Z) (cells : list (BtreePage * Z)) (x : res (bool * TableCursor)) : Prop :=
  exists pre cs, cells = pre ++ cs /\ keys_in pre (fun k => k < target) /\ keys_in cs (fun k => target <= k) /\
    match cs with
    | [] => x = Ok (false, mkCursor r [] true)
    | (b, j) :: _ => exists exact st, x = Ok (exact, mkCursor r (mkFrame b j :: st) false) /\
        at_pos h m (mkFrame b j :: st) cs /\ (exact = true <-> key_of (b, j) target)
    end.

Lemma seek_leaf h m fuel r target bt st L : keyed (Leaf bt) -> 0 <= num_cells bt -> ctx h st L -> (length L <= m)%nat ->
  (h + m < fuel)%nat -> keys_in (all_cells L) (fun k => target < k) ->
  sought h m r target (cells_from bt 0 ++ all_cells L)
    (let* (i, exact) := leaf_search (Z.to_nat (num_cells bt)) bt (Pager.src_usable_size src) target 0 in
     let c := mkCursor r (mkFrame bt i :: st) false in
     if num_cells bt <=? i then let* (_, c) := next fuel src c in Ok (false, c) else Ok (exact, c)).
Proof.
  intros Hk Hn Hc Hm Hf HL.
  destruct (leaf_search_spec bt target Hk (Z.to_nat (num_cells bt)) 0 ltac:(lia) ltac:(lia)) as (i & ex & -> & Hr & Hlo & Hhi).
  bind_step. assert (keys_in ((fun k => (bt, k)) <$> seqZ 0 i) (fun k => k < target)) as Hpre.
  { intros x k (j & -> & Hj)%list_elem_of_fmap Hx. apply elem_of_seqZ in Hj. by apply (Hlo j); [lia|]. }
  destruct (Z.leb_spec (num_cells bt) i) as [Hge|Hlt].
  - exists (cells_from bt 0), (all_cells L). replace i with (num_cells bt) in * by lia. split_and!; [done| | |].
    + unfold cells_from. by rewrite Z.sub_0_r.
    + intros x k Hx Hkx. specialize (HL x k Hx Hkx). simpl in HL. lia.
    + unfold next. cbn [exhausted stack f_page f_idx root].
      pose proof (settle_spec h m fuel (mkFrame bt (num_cells bt + 1) :: st) (all_cells L) Hf) as Hs.
      specialize (Hs ltac:(exists bt, (num_cells bt + 1), st, L; rewrite cells_from_nil by lia; split_and!; lia || done)).
      destruct (all_cells L) as [|[b j] cs] eqn:EL; [by rewrite Hs|]. destruct Hs as (st' & -> & Hp). bind_step.
      exists false, st'. split_and!; [done|done|]. split; [done|]. intros Hkj.
      specialize (HL (b, j) target ltac:(set_solver) Hkj). simpl in HL. lia.
  - destruct (Hhi Hlt) as (k & Hki & Hle & ->). exists ((fun k => (bt, k)) <$> seqZ 0 i), (cells_from bt i ++ all_cells L).
    split_and!; [by rewrite (cells_from_split bt 0 i), Z.sub_0_r, app_assoc by lia|done| |].
    + intros x k' [Hx|Hx]%elem_of_app Hkx; [|specialize (HL x k' Hx Hkx); simpl in HL; lia].
      apply elem_cells_from in Hx as [Hb Hj]. destruct x as [b j]. simpl in *. subst b.
      destruct (decide (j = i)) as [->|Hne]; [by rewrite (key_of_inj _ _ _ Hkx Hki)|].
      pose proof (proj2 Hk i j k k' ltac:(lia) ltac:(lia) Hki Hkx). lia.
    + rewrite cells_from_S by done. cbn [app]. exists (k =? target), st. split_and!; [done| |].
      * exists bt, i, st, L. split_and!; [done|lia|done|done|]. by rewrite (cells_from_S bt i).
      * rewrite Z.eqb_eq. split; [by intros <-|]. intros Ht. by apply (key_of_inj _ _ _ Hki Ht).
Qed.

Lemma seek_loop_spec h m r target n t : tree_at n t -> keyed t -> forall fuel st L,
  (height t + h + m < fuel)%nat -> (height t <= h)%nat -> (length (leaves t) + length L <= m)%nat -> ctx h st L ->
  keys_in (all_cells L) (fun k => target < k) ->
  sought h m r target (all_cells (leaves t) ++ all_cells L) (seek_loop fuel src target r n st).
Proof.
  revert n. induction t as [bt|bt kids IH] using tree_ind'; intros n Ht Hk [|fuel] st L Hf Hh Hm Hc HL; try lia.
  - destruct Ht as [E El]. cbn [seek_loop]. rewrite E. bind_step. rewrite El.
    change (all_cells (leaves (Leaf bt))) with (cells_from bt 0 ++ []). rewrite app_nil_r.
    apply seek_leaf; [done| |done|lia|simpl in Hf; lia|done].
    by destruct (read_page_wf n bt E) as (_ & _ & _ & [? _] & _).
  - apply tree_at_node in Ht as [E Hn]. cbn [seek_loop]. rewrite E. bind_step. rewrite (proj1 Hn).
    pose proof (proj1 (proj2 (proj2 Hn))) as H0.
    destruct (interior_search_spec bt kids target Hk (Z.to_nat (num_cells bt)) 0 ltac:(lia) ltac:(lia)) as (i & -> & Hr & Hlo & Hhi).
    bind_step. destruct (node_ok_kid bt kids i Hn ltac:(lia)) as (k & c & Ek & Ec & Hkt & Ed). rewrite Ec. bind_step.
    pose proof (list_elem_of_lookup_2 _ _ _ Ek) as Hin. pose proof (height_kid bt kids k Hin) as Hhk.
    set (L' := flat_map leaves (drop (Z.to_nat i + 1) kids) ++ L).
    assert (leaves (Node bt kids) = flat_map leaves (take (Z.to_nat i) kids) ++ leaves k ++ flat_map leaves (drop (Z.to_nat i + 1) kids)) as Elv.
    { change (leaves (Node bt kids)) with (flat_map leaves kids). rewrite <- (take_drop (Z.to_nat i) kids) at 1.
      rewrite flat_map_app, Ed. done. }
    assert (keys_in (all_cells (flat_map leaves (take (Z.to_nat i) kids))) (fun k => k < target)) as Hbefore.
    { intros x kx Hx Hkx. unfold all_cells in Hx. apply list_elem_of_In, in_flat_map in Hx as (b & Hb & Hx).
      apply in_flat_map in Hb as (k' & Hk' & Hb). apply list_elem_of_In, list_elem_of_lookup in Hk' as (j & Hj).
      pose proof (lookup_lt_Some _ _ _ Hj) as Hjl. rewrite length_take in Hjl. rewrite lookup_take_lt in Hj by lia.
      destruct (proj1 Hk (Z.of_nat j) ltac:(lia)) as (key & Ekey & Hle & _). rewrite Nat2Z.id in Hle.
      assert (key < target) by (apply (Hlo (Z.of_nat j)); [lia|done]).
      specialize (Hle k' Hj x kx). enough (kx <= key) by lia. apply Hle; [|done].
      apply list_elem_of_In, in_flat_map. by exists b. }
    rewrite Forall_forall in IH.
    destruct (IH k Hin c Hkt (keyed_kid _ _ _ Hk Hin) fuel (mkFrame bt i :: st) L') as (pre & cs & Ecs & Hpre & Hcs & Hres).
    { lia. } { lia. }
    { unfold L'. rewrite Elv in Hm. rewrite !length_app in Hm. rewrite length_app. lia. }
    { constructor; [done|lia| |done]. apply Forall_forall. intros k' Hk'. pose proof (height_kid bt kids k' Hk'). lia. }
    { unfold L'. rewrite all_cells_app. intros x kx [Hx|Hx]%elem_of_app Hkx; [|by apply (HL x)].
      destruct (decide (i < num_cells bt)) as [Hlt|Hge].
      - destruct (Hhi Hlt) as (key & Ekey & Hle). destruct (proj1 Hk i ltac:(lia)) as (key' & Ekey' & _ & Hgt).
        assert (key' = key) as -> by congruence. specialize (Hgt x kx Hx Hkx). simpl in Hgt. lia.
      - rewrite drop_ge in Hx by (destruct Hn as (_ & Hz & _); unfold zlen in Hz; lia). simpl in Hx. by apply elem_of_nil in Hx. }
    exists (all_cells (flat_map leaves (take (Z.to_nat i) kids)) ++ pre), cs. split_and!; [| |done|done].
    + rewrite <- (app_assoc _ pre cs), <- Ecs, Elv. unfold L'. by rewrite !all_cells_app, <- !app_assoc.
    + intros x kx [Hx|Hx]%elem_of_app Hkx; [by apply (Hbefore x)|by apply (Hpre x)].
Qed.

(** ** Rowid order *)

Definition key_lt (x y : BtreePage * Z) : Prop := forall a b, key_of x a -> key_of y b -> a < b.

Lemma elem_all_cells L x : x ∈ all_cells L <-> exists bt, bt ∈ L /\ x ∈ cells_from bt 0.
Proof.
  unfold all_cells. rewrite list_elem_of_In, in_flat_map. split; intros (b & H1 & H2); exists b;
    split; by apply list_elem_of_In.
Qed.

Lemma keyed_leaf_sorted bt i : 0 <= i -> keyed (Leaf bt) -> StronglySorted key_lt (cells_from bt i).
Proof.
  intros Hi [_ Hs]. remember (Z.to_nat (num_cells bt - i)) as n eqn:En. revert i Hi En.
  induction n as [|n IH]; intros i Hi En; [rewrite cells_from_nil by lia; constructor|].
  rewrite cells_from_S by lia. constructor; [apply IH; lia|]. apply Forall_forall. intros [b j] [Hb Hj]%elem_cells_from.
  cbn [fst snd] in *. subst b. intros a b Ha Hb. apply (Hs i j a b); lia || done.
Qed.

Lemma keyed_sorted t : keyed t -> forall n, tree_at n t -> StronglySorted key_lt (all_cells (leaves t)).
Proof.
  induction t as [bt|bt kids IH] using tree_ind'; intros Hk n Ht.
  - cbn [leaves all_cells flat_map]. rewrite app_nil_r. by apply keyed_leaf_sorted.
  - apply tree_at_node in Ht as [_ Hn]. cbn [leaves]. rewrite Forall_forall in IH.
    assert (forall d : nat, StronglySorted key_lt (all_cells (flat_map leaves (drop (length kids - d) kids)))) as H.
    { induction d as [|d IHd]; [rewrite drop_ge by lia; constructor|].
      destruct (decide (length kids <= d)%nat) as [Hd|Hd].
      { replace (length kids - S d)%nat with 0%nat by lia. by replace (length kids - d)%nat with 0%nat in IHd by lia. }
      set (j := (length kids - S d)%nat). replace (length kids - d)%nat with (S j) in IHd by (unfold j; lia).
      destruct (lookup_lt_is_Some_2 kids j) as [k Ek]; [unfold j; lia|].
      rewrite (drop_S kids k j) by done. cbn [flat_map]. rewrite all_cells_app.
      pose proof (list_elem_of_lookup_2 _ _ _ Ek) as Hin. destruct (proj2 (proj2 (proj2 Hn)) j k Ek) as (c & _ & Hc).
      apply StronglySorted_app_2; [|by apply (IH k Hin (keyed_kid _ _ _ Hk Hin) c)|done].
      intros x y Hx Hy a b Ha Hb. destruct (decide (Z.of_nat j < num_cells bt)) as [Hlt|Hge].
      - destruct (proj1 Hk (Z.of_nat j) ltac:(lia)) as (key & _ & Hle & Hgt). rewrite Nat2Z.id in *.
        specialize (Hle k Ek x a Hx Ha). rewrite Nat.add_1_r in Hgt. specialize (Hgt y b Hy Hb). simpl in *. lia.
      - rewrite drop_ge in Hy by (destruct Hn as (_ & Hz & _); unfold zlen in Hz; lia). by apply elem_of_nil in Hy. }
    specialize (H (length kids)). by rewrite Nat.sub_diag in H.
Qed.

Lemma keyed_has_key t : keyed t -> forall x, x ∈ all_cells (leaves t) -> exists k, key_of x k.
Proof.
  induction t as [bt|bt kids IH] using tree_ind'; intros Hk x (b & Hb & Hx)%elem_all_cells.
  - apply list_elem_of_singleton in Hb as ->. apply elem_cells_from in Hx as [Eb Hr]. destruct x as [b j]. cbn [fst snd] in *.
    subst b. apply (proj1 Hk). lia.
  - cbn [leaves] in Hb. apply list_elem_of_In, in_flat_map in Hb as (k & Hin%list_elem_of_In & Hb%list_elem_of_In).
    rewrite Forall_forall in IH. apply (IH k Hin (keyed_kid _ _ _ Hk Hin)). apply elem_all_cells. by exists b.
Qed.

Lemma sorted_head_min x cs y a b : StronglySorted key_lt (x :: cs) -> y ∈ x :: cs -> key_of x a -> key_of y b -> a <= b.
Proof.
  intros [_ Hx]%StronglySorted_inv [->|Hy]%elem_of_cons Ha Hb; [by rewrite (key_of_inj _ _ _ Ha Hb)|].
  rewrite Forall_forall in Hx. specialize (Hx y Hy a b Ha Hb). lia.
Qed.

Lemma sorted_last_max cs x y a b : StronglySorted key_lt (cs ++ [x]) -> y ∈ cs ++ [x] -> key_of x a -> key_of y b -> b <= a.
Proof.
  induction cs as [|z cs IH]; cbn [app].
  - intros _ ->%list_elem_of_singleton Ha Hb. by rewrite (key_of_inj _ _ _ Ha Hb).
  - intros [Hs Hz]%StronglySorted_inv [->|Hy]%elem_of_cons Ha Hb; [|by apply IH].
    rewrite Forall_forall in Hz. specialize (Hz x ltac:(set_solver) b a Hb Ha). lia.
Qed.

(** ** The last row *)

Lemma all_cells_last L bt : 0 <= num_cells bt -> num_cells bt <> 0 -> exists cs, all_cells (L ++ [bt]) = cs ++ [(bt, num_cells bt - 1)].
Proof.
  intros H0 E0. exists (all_cells L ++ ((fun k => (bt, k)) <$> seqZ 0 (num_cells bt - 1 - 0))).
  rewrite all_cells_app, <- app_assoc. f_equal. cbn [all_cells flat_map]. rewrite app_nil_r.
  rewrite (cells_from_split bt 0 (num_cells bt - 1)), (cells_from_S bt) by lia. by rewrite (cells_from_nil bt) by lia.
Qed.

Lemma last_loop_spec n t : tree_at n t -> forall fuel st, (height t <= fuel)%nat ->
  exists L bt st', leaves t = L ++ [bt] /\ 0 <= num_cells bt /\
    last_loop fuel src n st =
      if num_cells bt =? 0 then Ok (false, mkFrame bt 0 :: st') else Ok (true, mkFrame bt (num_cells bt - 1) :: st').
Proof.
  revert n. induction t as [bt|bt kids IH] using tree_ind'; intros n Ht [|fuel] st Hf; try (simpl in Hf; lia).
  - destruct Ht as [E El]. exists [], bt, st. cbn [last_loop]. rewrite E. bind_step. rewrite El.
    by destruct (read_page_wf n bt E) as (_ & _ & _ & [? _] & _).
  - apply tree_at_node in Ht as [E Hn]. pose proof (proj1 (proj2 (proj2 Hn))) as H0.
    destruct (node_ok_kid bt kids (num_cells bt) Hn ltac:(lia)) as (k & c & Ek & Ec & Hk & Ed).
    cbn [last_loop]. rewrite E. bind_step. rewrite (proj1 Hn), Ec. bind_step.
    pose proof (list_elem_of_lookup_2 _ _ _ Ek) as Hin. pose proof (height_kid bt kids k Hin). rewrite Forall_forall in IH.
    destruct (IH k Hin c Hk fuel (mkFrame bt (num_cells bt) :: st) ltac:(lia)) as (L & b & st' & El & Hb & E').
    exists (flat_map leaves (take (Z.to_nat (num_cells bt)) kids) ++ L), b, st'. split; [|by split].
    change (leaves (Node bt kids)) with (flat_map leaves kids).
    rewrite <- (take_drop (Z.to_nat (num_cells bt)) kids) at 1. rewrite flat_map_app, Ed, <- app_assoc. f_equal.
    rewrite drop_ge by (destruct Hn as (_ & Hz & _); unfold zlen in Hz; lia). cbn [flat_map]. by rewrite app_nil_r.
Qed.

(** ** The index cursor *)

(** The entries of an index tree in order: interior cells are entries too and
    stand between the subtrees they separate. *)
Fixpoint entries (t : tree) : list (BtreePage * Z) :=
  match t with
  | Leaf bt => cells_from bt 0
  | Node bt kids =>
      (fix go (k : Z) (ks : list tree) : list (BtreePage * Z) :=
         match ks with
         | [] => []
         | t :: ts => entries t ++ (if k <? num_cells bt then [(bt, k)] else []) ++ go (k + 1) ts
         end) 0 kids
  end.

Definition entries_from (bt : BtreePage) : Z -> list tree -> list (BtreePage * Z) :=
  fix go (k : Z) (ks : list tree) : list (BtreePage * Z) :=
    match ks with
    | [] => []
    | t :: ts => entries t ++ (if k <? num_cells bt then [(bt, k)] else []) ++ go (k + 1) ts
    end.

(** The turns of the loop a subtree costs. *)
Fixpoint weight (t : tree) : nat :=
  match t with
  | Leaf bt => S (S (Z.to_nat (num_cells bt)))
  | Node bt kids => (Z.to_nat (2 * num_cells bt + 3) + fold_right (fun k a => weight k + a) 0 kids)%nat
  end.

Definition kids_weight (ks : list tree) : nat := fold_right (fun k a => weight k + a)%nat 0%nat ks.

(** What an interior frame at step [s] still has to visit. *)
Definition node_rest (bt : BtreePage) (kids : list tree) (s : Z) : list (BtreePage * Z) :=
  let k := s / 2 in
  if 2 * num_cells bt <? s then []
  else if s mod 2 =? 0 then entries_from bt k (drop (Z.to_nat k) kids)
  else (bt, k) :: entries_from bt (k + 1) (drop (Z.to_nat (k + 1)) kids).

Definition node_weight (bt : BtreePage) (kids : list tree) (s : Z) : nat :=
  (Z.to_nat (2 * num_cells bt + 2 - s) + kids_weight (drop (Z.to_nat ((s + 1) / 2)) kids))%nat.

Inductive ictx : list IndexFrame -> list (BtreePage * Z) -> nat -> Prop :=
  | ictx_nil : ictx [] [] 0
  | ictx_leaf bt s st cs w :
      is_leaf (page_type bt) = true -> 0 <= s -> ictx st cs w ->
      ictx (mkIFrame bt s :: st) (cells_from bt s ++ cs) (S (Z.to_nat (num_cells bt - s)) + w)
  | ictx_node bt s kids st cs w :
      node_ok bt kids -> 0 <= s <= 2 * num_cells bt + 1 -> ictx st cs w ->
      ictx (mkIFrame bt s :: st) (node_rest bt kids s ++ cs) (node_weight bt kids s + w).

(** The key a cell holds. *)
Definition cell_key (x : BtreePage * Z) : res bytes :=
  let* cell := index_cell x.1 x.2 (Pager.src_usable_size src) in
  read_payload src (bt_data x.1) (ix_payload cell).

Lemma cell_key_idx x p : cell_key x = Ok p -> x.2 < num_cells x.1.
Proof.
  unfold cell_key, index_cell, cell_offset. intros (cell & Ec & _)%res_bind_Ok.
  destruct (is_table _); [done|]. destruct (Z.leb_spec (num_cells x.1) x.2); [done|lia].
Qed.

(** Pushing a subtree's root. *)
Lemma ictx_push n t st cs w : tree_at n t -> ictx st cs w ->
  exists bt w', read_page src n = Ok bt /\ ictx (mkIFrame bt 0 :: st) (entries t ++ cs) w' /\ (w' + 1 <= weight t + w)%nat.
Proof.
  destruct t as [bt|bt kids]; intros Ht Hc.
  - destruct Ht as [E El]. exists bt. eexists. split; [done|]. split; [by apply (ictx_leaf bt 0)|]. cbn [weight]. rewrite Z.sub_0_r. lia.
  - apply tree_at_node in Ht as [E Hn]. pose proof (proj1 (proj2 (proj2 Hn))) as H0. exists bt. eexists. split; [done|].
    assert (node_rest bt kids 0 = entries (Node bt kids)) as <-.
    { unfold node_rest. destruct (Z.ltb_spec (2 * num_cells bt) 0); [lia|]. done. }
    split; [apply ictx_node; [done|lia|done]|]. unfold node_weight. cbn [weight]. fold (kids_weight kids).
    rewrite Z.sub_0_r. change (drop (Z.to_nat ((0 + 1) / 2)) kids) with kids. lia.
Qed.

Lemma node_rest_even bt kids k : node_ok bt kids -> 0 <= k <= num_cells bt ->
  exists t c, child_pointer bt k = Ok c /\ tree_at c t /\
    node_rest bt kids (2 * k) = entries t ++ node_rest bt kids (2 * k + 1) /\
    (node_weight bt kids (2 * k) = 1 + weight t + node_weight bt kids (2 * k + 1))%nat.
Proof.
  intros Hn Hk. destruct (node_ok_kid bt kids k Hn Hk) as (t & c & Et & Ec & Hc & Ed). exists t, c. split_and!; [done..| |].
  - unfold node_rest. replace (2 * k / 2) with k by (rewrite Z.mul_comm, Z.div_mul; lia).
    replace ((2 * k + 1) / 2) with k by (Z.to_euclidean_division_equations; lia).
    replace (2 * k mod 2) with 0 by (rewrite Z.mul_comm, Z.mod_mul; lia).
    replace ((2 * k + 1) mod 2) with 1 by (Z.to_euclidean_division_equations; lia). cbn [Z.eqb].
    destruct (Z.ltb_spec (2 * num_cells bt) (2 * k)); [lia|]. rewrite Ed.
    cbn [entries_from]. f_equal. destruct (Z.ltb_spec k (num_cells bt)), (Z.ltb_spec (2 * num_cells bt) (2 * k + 1)); try lia; cbn [app].
    + do 2 f_equal. f_equal. lia.
    + rewrite drop_ge; [done|]. destruct Hn as (_ & Hz & _). unfold zlen in Hz. lia.
  - unfold node_weight. replace ((2 * k + 1) / 2) with k by (Z.to_euclidean_division_equations; lia).
    replace ((2 * k + 1 + 1) / 2) with (k + 1) by (Z.to_euclidean_division_equations; lia).
    rewrite Ed. cbn [kids_weight fold_right]. fold (kids_weight (drop (Z.to_nat k + 1) kids)).
    replace (Z.to_nat (k + 1)) with (Z.to_nat k + 1)%nat by lia. lia.
Qed.

Lemma node_rest_odd bt kids k : 0 <= k < num_cells bt ->
  node_rest bt kids (2 * k + 1) = (bt, k) :: node_rest bt kids (2 * k + 1 + 1) /\
  (node_weight bt kids (2 * k + 1 + 1) <= node_weight bt kids (2 * k + 1))%nat.
Proof.
  intros Hk. unfold node_rest, node_weight.
  replace ((2 * k + 1 + 1) / 2) with (k + 1) by (Z.to_euclidean_division_equations; lia).
  replace ((2 * k + 1 + 1 + 1) / 2) with (k + 1) by (Z.to_euclidean_division_equations; lia).
  replace ((2 * k + 1) / 2) with k by (Z.to_euclidean_division_equations; lia).
  replace ((2 * k + 1) mod 2) with 1 by (Z.to_euclidean_division_equations; lia).
  replace ((2 * k + 1 + 1) mod 2) with 0 by (Z.to_euclidean_division_equations; lia). cbn [Z.eqb].
  destruct (Z.ltb_spec (2 * num_cells bt) (2 * k + 1)), (Z.ltb_spec (2 * num_cells bt) (2 * k + 1 + 1)); try lia.
  split; [done|lia].
Qed.

Lemma index_loop_spec : forall fuel st cs w, (w < fuel)%nat -> ictx st cs w ->
  match cs with
  | [] => index_loop fuel src (Pager.src_usable_size src) st = Ok (None, [])
  | x :: cs' => forall p, cell_key x = Ok p ->
      exists st' w', index_loop fuel src (Pager.src_usable_size src) st = Ok (Some p, st') /\ ictx st' cs' w' /\ (w' <= w)%nat
  end.
Proof.
  induction fuel as [|fuel IH]; intros st cs w Hf Hc; [lia|]. cbn [index_loop].
  destruct Hc as [|bt s st cs w El Hs Hc|bt s kids st cs w Hn Hs Hc]; [done| |]; cbn [if_page if_step].
  - rewrite El. destruct (Z.ltb_spec s (num_cells bt)) as [Hlt|Hge].
    + rewrite cells_from_S by done. cbn [app]. intros p (cell & Ec & Ep)%res_bind_Ok. cbn [fst snd] in *.
      rewrite Ec. bind_step. rewrite Ep. bind_step. do 2 eexists. split; [done|]. split; [apply ictx_leaf; [done|lia|done]|lia].
    + rewrite cells_from_nil by done. cbn [app]. specialize (IH st cs w ltac:(lia) Hc).
      destruct cs as [|x cs]; [done|]. intros p Hp. destruct (IH p Hp) as (st' & w' & E & Hc' & Hw). exists st', w'. split_and!; [done..|lia].
  - rewrite (proj1 Hn). destruct (Z.ltb_spec (2 * num_cells bt) s) as [Hgt|Hle].
    + assert (node_rest bt kids s = []) as ->.
      { unfold node_rest. destruct (Z.ltb_spec (2 * num_cells bt) s); [done|lia]. }
      unfold node_weight in Hf. cbn [app]. specialize (IH st cs w ltac:(lia) Hc).
      destruct cs as [|x cs]; [done|]. intros p Hp. destruct (IH p Hp) as (st' & w' & E & Hc' & Hw). exists st', w'. split_and!; [done..|lia].
    + pose proof (Z.div_mod s 2 ltac:(lia)) as Hdm. pose proof (Z.mod_pos_bound s 2 ltac:(lia)) as Hmb.
      set (k := s / 2) in *. destruct (Z.eqb_spec (s mod 2) 0) as [E0|E1].
      * replace s with (2 * k) in * by lia.
        destruct (node_rest_even bt kids k Hn ltac:(lia)) as (t & c & Ec & Ht & Er & Ew).
        rewrite Ec. bind_step.
        destruct (ictx_push c t (mkIFrame bt (2 * k + 1) :: st) (node_rest bt kids (2 * k + 1) ++ cs) (node_weight bt kids (2 * k + 1) + w)
          Ht ltac:(apply ictx_node; [done|lia|done])) as (b & w' & Eb & Hc' & Hw').
        rewrite Eb. bind_step. rewrite Er, <- app_assoc. assert (w' < fuel)%nat as Hlt by lia. specialize (IH _ _ _ Hlt Hc').
        destruct (entries t ++ node_rest bt kids (2 * k + 1) ++ cs) as [|x cs']; [done|]. intros p Hp.
        destruct (IH p Hp) as (st2 & w2 & E2 & Hc2 & Hw2). exists st2, w2. split_and!; [done..|lia].
      * replace s with (2 * k + 1) in * by lia.
        destruct (node_rest_odd bt kids k ltac:(lia)) as [-> Hw]. cbn [app].
        intros p (cell & Ec & Ep)%res_bind_Ok. cbn [fst snd] in *.
        rewrite Ec. bind_step. rewrite Ep. bind_step. do 2 eexists. split; [done|]. split; [apply ictx_node; [done|lia|done]|lia].
Qed.

Lemma collect_keys_spec r fuel : forall cs ps, Forall2 (fun x p => cell_key x = Ok p) cs ps ->
  forall n st w, (length cs < n)%nat -> (w < fuel)%nat -> ictx st cs w ->
  collect_keys n fuel src (mkICursor r st true) = Ok ps.
Proof.
  induction 1 as [|x p cs ps Hx _ IH]; intros [|n] st w Hn Hw Hc; try (simpl in Hn; lia); cbn [collect_keys];
    unfold index_next; cbn [started ic_stack ic_root]; bind_step; pose proof (index_loop_spec fuel st _ w Hw Hc) as Hl.
  - by rewrite Hl.
  - destruct (Hl p Hx) as (st' & w' & -> & Hc' & Hw'). do 2 bind_step.
    rewrite (IH n st' w' ltac:(simpl in Hn; lia) ltac:(lia) Hc'). done.
Qed.

Lemma scan_keys_spec fuel r t ps : tree_at r t -> Forall2 (fun x p => cell_key x = Ok p) (entries t) ps ->
  (weight t + length ps < fuel)%nat -> scan_keys fuel src r = Ok ps.
Proof.
  intros Ht Hps Hf. destruct (ictx_push r t [] [] 0 Ht ictx_nil) as (bt & w & E & Hc & Hw). rewrite app_nil_r in Hc.
  pose proof (Forall2_length _ _ _ Hps) as Hlen.
  pose proof (collect_keys_spec r fuel _ _ Hps fuel (mkIFrame bt 0 :: []) w ltac:(lia) ltac:(lia) Hc) as H.
  unfold scan_keys. destruct fuel as [|fuel]; [lia|]. cbn [collect_keys] in *. unfold index_next in *.
  cbn [started index_cursor ic_root ic_stack] in *. rewrite E. done.
Qed.

End Source.

(** ** A concrete source *)

Definition list_source (hdr : Header.DatabaseHeader) (pages : list bytes) : Pager.PageSource :=
  Pager.mkSource
    (fun n => match (if n <? 1 then None else pages !! Z.to_nat (n - 1)) with
              | Some d => Ok (Pager.mkPage n d)
              | None => Pager.out_of_range n (zlen pages)
              end) hdr (Header.usable_size hdr) (zlen pages).

Lemma list_source_ok hdr pages : Header.wf hdr ->
  Forall (fun d => is_bytes d /\ zlen d = Header.page_size hdr) pages -> Pager.SourceOk (list_source hdr pages).
Proof.
  intros Hw Hp. rewrite Forall_lookup in Hp. unfold list_source. split; cbn.
  - intros n _. destruct (if n <? 1 then _ else _); done.
  - intros n p. destruct (Z.ltb_spec n 1); [done|]. destruct (pages !! _) eqn:E; [|done]. intros [= <-].
    apply lookup_lt_Some in E. unfold zlen. cbn. lia.
  - intros n p. destruct (n <? 1); [done|]. destruct (pages !! _) eqn:E; [|done]. intros [= <-]. by apply (Hp _ _ E).
  - intros n p. destruct (n <? 1); [done|]. destruct (pages !! _) eqn:E; [|done]. intros [= <-]. by apply (Hp _ _ E).
  - done.
  - done.
Qed.

(** Pages of 512 bytes: zeros with some bytes written over them. *)
Definition over (d : bytes) (w : Z * bytes) : bytes :=
  take (Z.to_nat w.1) d ++ w.2 ++ drop (Z.to_nat w.1 + length w.2) d.
Definition demo_page (ws : list (Z * bytes)) : bytes := fold_left over ws (zrep 512 0).

Definition demo_hdr : Header.DatabaseHeader := Header.mkHeader 512 1 1 0 2 4 0 0 1 4 0 0 Header.Utf8 0 0 0 2 3046001.

Lemma demo_hdr_wf : Header.wf demo_hdr.
Proof.
  constructor; [split; [simpl; lia|done]|by unfold is_uint; simpl; lia|simpl; lia|].
  by repeat (apply Forall_cons_2 || apply Forall_nil_2).
Qed.

(** An empty page 1, a root with one separator over a leaf that holds row 1,
    and a right-most leaf holding row 2 or nothing. *)
Definition pg1 : bytes := demo_page [(100, [13])].
Definition pg_root : bytes := demo_page [(0, [5]); (3, [0; 1]); (8, [0; 0; 0; 4]); (12, [1; 244]); (500, [0; 0; 0; 3; 1])].
Definition pg_row1 : bytes := demo_page [(0, [13]); (3, [0; 1]); (8, [1; 244]); (500, [3; 1; 7; 8; 9])].
Definition pg_row2 : bytes := demo_page [(0, [13]); (3, [0; 1]); (8, [1; 244]); (500, [1; 2; 5])].
Definition pg_empty : bytes := demo_page [(0, [13])].

Definition demo : Pager.PageSource := list_source demo_hdr [pg1; pg_root; pg_row1; pg_row2].
Definition demo_deleted : Pager.PageSource := list_source demo_hdr [pg1; pg_root; pg_row1; pg_empty].

Ltac demo_source := apply list_source_ok; [exact demo_hdr_wf|];
  repeat (apply Forall_cons_2 || apply Forall_nil_2);
  (split; [apply (bool_decide_unpack _); vm_compute; exact I|reflexivity]).

#[export] Instance demo_ok : Pager.SourceOk demo.
Proof. demo_source. Qed.

Definition bt_root (right : Z) : BtreePage := mkBt (Pager.mkPage 2 pg_root) InteriorTable 0 1 right.
Definition bt_row1 : BtreePage := mkBt (Pager.mkPage 3 pg_row1) LeafTable 0 1 0.
Definition bt_row2 : BtreePage := mkBt (Pager.mkPage 4 pg_row2) LeafTable 0 1 0.
Definition demo_tree : tree := Node (bt_root 4) [Leaf bt_row1; Leaf bt_row2].

Lemma demo_tree_at : tree_at demo 2 demo_tree.
Proof.
  cbn [tree_at demo_tree]. split_and!; try (vm_compute; reflexivity);
    eexists; (split; [vm_compute; reflexivity|]); split; vm_compute; reflexivity.
Qed.

Lemma demo_key_row1 k : key_of demo (bt_row1, 0) k <-> k = 1.
Proof.
  unfold key_of. split; [intros (c & E & <-)|intros ->]; [|eexists; split; [vm_compute; reflexivity|reflexivity]].
  vm_compute in E. by injection E as <-.
Qed.

Lemma demo_key_row2 k : key_of demo (bt_row2, 0) k <-> k = 2.
Proof.
  unfold key_of. split; [intros (c & E & <-)|intros ->]; [|eexists; split; [vm_compute; reflexivity|reflexivity]].
  vm_compute in E. by injection E as <-.
Qed.

Lemma demo_keyed : keyed demo demo_tree.
Proof.
  cbn [keyed demo_tree fold_right]. split_and!; [| | | | |done].
  - intros j Hj. assert (j = 0) as -> by (cbn in Hj; lia). exists 1. split; [vm_compute; reflexivity|]. split.
    + intros k [= <-] x kx Hx Hk. change (all_cells (leaves (Leaf bt_row1))) with [(bt_row1, 0)] in Hx.
      apply list_elem_of_singleton in Hx as ->. apply demo_key_row1 in Hk. lia.
    + intros x kx Hx Hk. change (x ∈ [(bt_row2, 0)]) in Hx. apply list_elem_of_singleton in Hx as ->.
      apply demo_key_row2 in Hk. lia.
  - intros i Hi. assert (i = 0) as -> by (cbn in Hi; lia). exists 1. by apply demo_key_row1.
  - intros i j a b Hij Hj. cbn in Hj. lia.
  - intros i Hi. assert (i = 0) as -> by (cbn in Hi; lia). exists 2. by apply demo_key_row2.
  - intros i j a b Hij Hj. cbn in Hj. lia.
Qed.

End CursorProps.
