(* ===== verification/CursorSpec.v ===== *)
(** What the b-tree cursors of [Cursor] promise to the layers above, stated on
    trees of pages ([CursorProps.tree_at]). *)

From stdpp Require Import sorting.
From S2P Require Import Prelude Varint Header Pager BtPage Cursor CursorProps.
Import BtPage Cursor CursorProps.
Local Open Scope Z_scope.

Module CursorSpec.

(** Reassembling the payload of any table cell is safe. Whatever the page
    and the overflow pages hold (short chains and cycles included), reading the
    payload of a cell whose declared length is addressable ends without a panic,
    and a payload it returns has the declared length and starts with the bytes
    kept on the cell's own page. *)
Theorem read_payload_safe (src : Pager.PageSource) `{Hsrc : !Pager.SourceOk src} (n i : Z) (bt : BtreePage)
    (Hbt : read_page src n = Ok bt) (Hi : 0 <= i) :
  safe (table_leaf_cell bt i (Pager.src_usable_size src)) (fun c =>
    let pl := tl_payload c in
    total_len pl <= ISIZE_MAX ->
    safe (read_payload src (bt_data bt) pl) (fun r => is_bytes r /\ zlen r = total_len pl /\
      take (Z.to_nat (local_len pl)) r = sub (bt_data bt) (local_offset pl) (local_offset pl + local_len pl))).
Proof.
  pose proof (read_page_wf src n bt Hbt) as Hw. pose proof (usable_range src).
  eapply safe_mono; [apply table_leaf_cell_safe; [done|done|lia]|]. intros c [_ Hc] Hmax.
  apply (read_payload_in src bt (tl_payload c)); [apply Hw|done..].
Qed.

Lemma read_payload_safe_witness :
  safe (table_leaf_cell bt_row1 0 (Pager.src_usable_size demo)) (fun c =>
    let pl := tl_payload c in
    total_len pl <= ISIZE_MAX ->
    safe (read_payload demo (bt_data bt_row1) pl) (fun r => is_bytes r /\ zlen r = total_len pl /\
      take (Z.to_nat (local_len pl)) r = sub (bt_data bt_row1) (local_offset pl) (local_offset pl + local_len pl))).
Proof.
  apply (read_payload_safe demo 3 0 bt_row1); [vm_compute; reflexivity|lia].
Defined.

(** A table scan is complete and in order. On every tree of pages whose
    leaf cells can be read, [first] followed by [next] until it answers [false]
    returns exactly the rows of the leaves from left to right, empty leaves
    included, once the fuel exceeds the size of the tree. *)
Theorem table_scan_complete (src : Pager.PageSource) `{Hsrc : !Pager.SourceOk src} (r : Z) (t : tree)
    (rows : list (Z * bytes)) (fuel : nat)
    (Ht : tree_at src r t)
    (Hrows : Forall2 (fun x row => cell_row src x = Ok row) (all_cells (leaves t)) rows)
    (Hf : (height t + length (leaves t) + length rows < fuel)%nat) :
  scan_rows fuel src r = Ok rows.
Proof. by apply (scan_rows_spec src fuel r t). Qed.

Lemma table_scan_complete_witness : scan_rows 10 demo 2 = Ok [(1, [7; 8; 9]); (2, [5])].
Proof.
  apply (table_scan_complete demo 2 demo_tree); [exact demo_tree_at| |simpl; lia].
  repeat constructor; vm_compute; reflexivity.
Defined.

(** Seeking. On a tree whose rowids and separators are in order, [seek]
    splits the rows at the target: every row before the cursor is below it,
    every row from the cursor on is not, the cursor is exhausted exactly when
    there is no such row, and the answer says whether the target exists. *)
Theorem seek_spec (src : Pager.PageSource) `{Hsrc : !Pager.SourceOk src} (r target : Z) (t : tree) (fuel : nat)
    (Ht : tree_at src r t) (Hk : keyed src t)
    (Hf : (2 * height t + length (leaves t) < fuel)%nat) :
  exists pre cs exact c, all_cells (leaves t) = pre ++ cs /\
    seek fuel src (table_cursor r) target = Ok (exact, c) /\
    keys_in src pre (fun k => k < target) /\ keys_in src cs (fun k => target <= k) /\
    (exact = true <-> exists x, x ∈ all_cells (leaves t) /\ key_of src x target) /\
    match cs with
    | [] => is_valid c = false
    | x :: _ => is_valid c = true /\ leaf_frame c = Ok (mkFrame x.1 x.2)
    end.
Proof.
  destruct (seek_loop_spec src (height t) (length (leaves t)) r target r t Ht Hk fuel [] [])
    as (pre & cs & E & Hpre & Hcs & Hres); [lia|lia|simpl; lia|constructor|by intros x k Hx%elem_of_nil|].
  rewrite app_nil_r in E. exists pre, cs. unfold seek. cbn [root table_cursor].
  assert (forall x, x ∈ all_cells (leaves t) -> key_of src x target -> x ∈ cs) as Hin.
  { intros x Hx Hkx. rewrite E in Hx. apply elem_of_app in Hx as [Hx|Hx]; [|done].
    specialize (Hpre x target Hx Hkx). simpl in Hpre. lia. }
  pose proof (keyed_sorted src t Hk r Ht) as Hs. rewrite E in Hs.
  destruct cs as [|[b j] cs].
  - exists false, (mkCursor r [] true). split_and!; try done. split; [done|]. intros (x & Hx & Hkx).
    by apply (Hin x Hx) in Hkx as ?%elem_of_nil.
  - destruct Hres as (exact & st & Eq & Hp & Hex). exists exact, (mkCursor r (mkFrame b j :: st) false).
    split_and!; try done. rewrite Hex. split; [intros Hb; exists (b, j); split; [rewrite E; set_solver|done]|].
    intros (x & Hx & Hkx). pose proof (Hin x Hx Hkx) as Hxc. apply elem_of_cons in Hxc as [->|Hxc]; [done|].
    destruct (keyed_has_key src t Hk (b, j)) as [k Hbk]; [rewrite E; set_solver|].
    apply StronglySorted_app_1_r, StronglySorted_inv in Hs as [_ Hs]. rewrite Forall_forall in Hs.
    pose proof (Hs x Hxc k target Hbk Hkx). pose proof (Hcs (b, j) k ltac:(set_solver) Hbk). simpl in *. lia.
Qed.

Lemma seek_spec_witness :
  exists pre cs exact c, all_cells (leaves demo_tree) = pre ++ cs /\
    seek 20 demo (table_cursor 2) 2 = Ok (exact, c) /\
    keys_in demo pre (fun k => k < 2) /\ keys_in demo cs (fun k => 2 <= k) /\
    (exact = true <-> exists x, x ∈ all_cells (leaves demo_tree) /\ key_of demo x 2) /\
    match cs with
    | [] => is_valid c = false
    | x :: _ => is_valid c = true /\ leaf_frame c = Ok (mkFrame x.1 x.2)
    end.
Proof. apply (seek_spec demo 2 2 demo_tree 20); [exact demo_tree_at|exact demo_keyed|simpl; lia]. Defined.

(** The next rowid. When the right-most leaf has a row, [next_rowid] is
    one above its last rowid (saturating), which no rowid of the table exceeds;
    when the right-most leaf is empty it answers 1, whatever rows the other
    leaves hold. *)
Theorem next_rowid_spec (src : Pager.PageSource) `{Hsrc : !Pager.SourceOk src} (r : Z) (t : tree) (fuel : nat)
    (Ht : tree_at src r t) (Hk : keyed src t) (Hf : (height t <= fuel)%nat) :
  exists L bt, leaves t = L ++ [bt] /\
    (num_cells bt = 0 -> next_rowid fuel src r = Ok 1) /\
    (num_cells bt <> 0 -> exists k, next_rowid fuel src r = Ok (sat_succ k) /\ keys_in src (all_cells (leaves t)) (fun k' => k' <= k)).
Proof.
  destruct (last_loop_spec src r t Ht fuel [] Hf) as (L & bt & st & EL & Hn & Elast). exists L, bt. split; [done|].
  unfold next_rowid, last. cbn [root table_cursor]. rewrite Elast.
  destruct (Z.eqb_spec (num_cells bt) 0) as [E0|E0]; [by split; intros ?|]. split; [done|]. intros _.
  set (x := (bt, num_cells bt - 1)).
  destruct (all_cells_last src L bt Hn E0) as [cs Ecs]. rewrite <- EL in Ecs. fold x in Ecs.
  destruct (keyed_has_key src t Hk x) as [k Hxk]; [rewrite Ecs; set_solver|]. exists k. split.
  - destruct Hxk as (cell & Ec & <-). unfold cursor_rowid, leaf_frame, settled.
    cbn [exhausted stack head ok_or f_page f_idx res_bind fst snd negb]. unfold x in Ec. cbn [fst snd] in Ec. by rewrite Ec.
  - intros y k' Hy Hky. pose proof (keyed_sorted src t Hk r Ht) as Hs. rewrite Ecs in Hs, Hy.
    by apply (sorted_last_max src cs x y k k').
Qed.

Lemma next_rowid_spec_witness :
  exists L bt, leaves demo_tree = L ++ [bt] /\
    (num_cells bt = 0 -> next_rowid 5 demo 2 = Ok 1) /\
    (num_cells bt <> 0 -> exists k, next_rowid 5 demo 2 = Ok (sat_succ k) /\
      keys_in demo (all_cells (leaves demo_tree)) (fun k' => k' <= k)).
Proof. apply (next_rowid_spec demo 2 demo_tree 5); [exact demo_tree_at|exact demo_keyed|simpl; lia]. Defined.

(** An assigned rowid can collide with a row. After the rows of the
    right-most leaf are deleted ([delete_table] leaves the leaf in place), the
    table still holds row 1 and [next_rowid] answers 1. *)
Theorem next_rowid_collides :
  scan_rows 10 demo_deleted 2 = Ok [(1, [7; 8; 9])] /\ next_rowid 10 demo_deleted 2 = Ok 1.
Proof. split; vm_compute; reflexivity. Qed.

(** A leaf whose only cell declares a payload of 2^64 - 1 bytes. *)
Definition pg_huge : bytes := demo_page [(0, [13]); (3, [0; 1]); (8, [0; 12]); (12, [255; 255; 255; 255; 255; 255; 255; 255; 255; 1])].
Definition bt_huge : BtreePage := mkBt (Pager.mkPage 2 pg_huge) LeafTable 0 1 0.

(** A declared payload length above [isize::MAX] crashes the reader: the
    page parses, the cell is accepted, and the reassembly asks for a buffer of
    that size before it looks at the chain. *)
Theorem huge_payload_panics :
  let src := list_source demo_hdr [pg1; pg_huge] in
  read_page src 2 = Ok bt_huge /\
  exists cell, table_leaf_cell bt_huge 0 (Pager.src_usable_size src) = Ok cell /\
    total_len (tl_payload cell) = 2 ^ 64 - 1 /\ read_payload src (bt_data bt_huge) (tl_payload cell) = Panic.
Proof. split; [vm_compute; reflexivity|]. eexists. split; [vm_compute; reflexivity|]. vm_compute. done. Qed.

(** An index: a root with one entry between two leaves of one entry each. *)
Definition ix_root : bytes := demo_page [(0, [2]); (3, [0; 1]); (8, [0; 0; 0; 4]); (12, [1; 244]); (500, [0; 0; 0; 3; 2; 40; 41])].
Definition ix_left : bytes := demo_page [(0, [10]); (3, [0; 1]); (8, [1; 244]); (500, [1; 30])].
Definition ix_right : bytes := demo_page [(0, [10]); (3, [0; 1]); (8, [1; 244]); (500, [1; 50])].
Definition demo_index : Pager.PageSource := list_source demo_hdr [pg1; ix_root; ix_left; ix_right].

#[export] Instance demo_index_ok : Pager.SourceOk demo_index.
Proof. demo_source. Qed.

Definition demo_index_tree : tree :=
  Node (mkBt (Pager.mkPage 2 ix_root) InteriorIndex 0 1 4)
    [Leaf (mkBt (Pager.mkPage 3 ix_left) LeafIndex 0 1 0); Leaf (mkBt (Pager.mkPage 4 ix_right) LeafIndex 0 1 0)].

Lemma demo_index_tree_at : tree_at demo_index 2 demo_index_tree.
Proof.
  cbn [tree_at demo_index_tree]. split_and!; try (vm_compute; reflexivity);
    eexists; (split; [vm_compute; reflexivity|]); split; vm_compute; reflexivity.
Qed.

(** An index scan is complete and in order: it returns the keys of the
    whole tree, each interior key between the keys of the subtrees it
    separates, and then ends. *)
Theorem index_scan_complete (src : Pager.PageSource) `{Hsrc : !Pager.SourceOk src} (r : Z) (t : tree)
    (keys : list bytes) (fuel : nat)
    (Ht : tree_at src r t) (Hkeys : Forall2 (fun x p => cell_key src x = Ok p) (entries t) keys)
    (Hf : (weight t + length keys < fuel)%nat) :
  scan_keys fuel src r = Ok keys.
Proof. by apply (scan_keys_spec src fuel r t). Qed.

Lemma index_scan_complete_witness : scan_keys 30 demo_index 2 = Ok [[30]; [40; 41]; [50]].
Proof.
  apply (index_scan_complete demo_index 2 demo_index_tree); [exact demo_index_tree_at| |vm_compute; lia].
  repeat constructor; vm_compute; reflexivity.
Defined.

End CursorSpec.
