(* ===== verification/Schema.v ===== *)
(** The schema catalog ([src/src/schema/mod.rs]): the rows of [sqlite_schema],
    the table rooted at page one, and the lookups by name. A [String] is its
    UTF-8 bytes. *)

From S2P Require Import Prelude Header Value Record Pager Cursor.
Local Open Scope Z_scope.

Module Schema.

(** The bytes of a string literal, and a text in a message. *)
Definition str (s : string) : bytes := (fun c => Z.of_N (Ascii.N_of_ascii c)) <$> String.list_ascii_of_string s.
Definition show (b : bytes) : string := String.string_of_list_ascii ((fun c => Ascii.ascii_of_N (Z.to_N c)) <$> b).

Definition SCHEMA_ROOT_PAGE : Z := 1.

Inductive ObjectType : Type := Table | Index | View | Trigger.

#[global] Instance ObjectType_eq_dec : EqDecision ObjectType.
Proof. solve_decision. Defined.

Record SchemaObject : Type := mkObject {
  obj_type : ObjectType;
  obj_name : bytes;
  tbl_name : bytes;
  rootpage : Z;
  obj_sql : option bytes
}.

#[global] Instance SchemaObject_eq_dec : EqDecision SchemaObject.
Proof. solve_decision. Defined.

Record Schema : Type := mkSchema { objects : list SchemaObject }.

Section reading.
(** [{:?}] of a string, which quotes and escapes it. *)
Context (debug_str : bytes -> string).

(** [ObjectType::parse]. *)
Definition parse_type (s : bytes) : res ObjectType :=
  if decide (s = str "table") then Ok Table
  else if decide (s = str "index") then Ok Index
  else if decide (s = str "view") then Ok View
  else if decide (s = str "trigger") then Ok Trigger
  else Err (ECorrupt ("unknown schema object type " +:+ debug_str s)).

(** The closure [text] of [parse_schema_row]. *)
Definition row_text (v : Value.Value) : res bytes :=
  match v with
  | Value.Text s => Ok (Value.as_str s)
  | _ => Err (ECorrupt "expected text in sqlite_schema")
  end.

Definition parse_schema_row (cols : list Value.Value) : res SchemaObject :=
  if zlen cols <? 5 then
    Err (ECorrupt ("sqlite_schema row has " +:+ pretty (zlen cols) +:+ " columns, expected 5"))
  else
    let* c0 := idx cols 0 in
    let* t0 := row_text c0 in
    let* ty := parse_type t0 in
    let* c1 := idx cols 1 in
    let* name := row_text c1 in
    let* c2 := idx cols 2 in
    let* tbl := row_text c2 in
    let* c3 := idx cols 3 in
    let* rp := match c3 with
               | Value.Integer i => Ok (wrap 32 i)
               | Value.Null => Ok 0
               | _ => Err (ECorrupt "sqlite_schema rootpage not an integer")
               end in
    let* c4 := idx cols 4 in
    let* sql := match c4 with
                | Value.Text s => Ok (Some (Value.as_str s))
                | Value.Null => Ok None
                | _ => Err (ECorrupt "sqlite_schema sql not text")
                end in
    Ok (mkObject ty name tbl rp sql).

(** The [while] of [Schema::read]. *)
Fixpoint read_loop (n fuel : nat) (src : Pager.PageSource) (encoding : Header.TextEncoding) (ok : bool) (cur : Cursor.TableCursor)
    (objs : list SchemaObject) : res (list SchemaObject) :=
  if ok then
    match n with
    | O => Panic
    | S n =>
        let* p := Cursor.payload src cur in
        let* cols := Record.decode_record p encoding in
        let* o := parse_schema_row cols in
        let* (ok, cur) := Cursor.next fuel src cur in
        read_loop n fuel src encoding ok cur (objs ++ [o])
    end
  else Ok objs.

Definition read (fuel : nat) (src : Pager.PageSource) : res Schema :=
  let encoding := Header.text_encoding (Pager.src_header src) in
  let* (ok, cur) := Cursor.first fuel src (Cursor.table_cursor SCHEMA_ROOT_PAGE) in
  let* objs := read_loop fuel fuel src encoding ok cur [] in
  Ok (mkSchema objs).

End reading.

(** [Schema::find]. *)
Definition find (s : Schema) (ty : ObjectType) (name : bytes) : option SchemaObject :=
  List.find (fun o => bool_decide (obj_type o = ty) && bool_decide (obj_name o = name)) (objects s).
Definition table (s : Schema) (name : bytes) : option SchemaObject := find s Table name.
Definition index (s : Schema) (name : bytes) : option SchemaObject := find s Index name.
Definition indexes_on (s : Schema) (tbl : bytes) : list SchemaObject :=
  filter (fun o => obj_type o = Index /\ tbl_name o = tbl) (objects s).

End Schema.
