(* ===== verification/Integrity.v ===== *)
(** Page accounting of [PRAGMA integrity_check] ([src/src/exec/integrity.rs]):
    one reference bitmap over the pages of the file, marked by a walk of the
    free list, of every b-tree and of every overflow chain. Messages are kept
    with their text. A loop gives up ([Panic]) when its fuel ends; [Integrity]
    is followed by [IntegrityProps], which shows that it never does. *)

From S2P Require Import Prelude Header Ptrmap Pager BtPage Schema.
Local Open Scope Z_scope.

Module Integrity.
Import BtPage.

Definition PENDING_BYTE : Z := 0x40000000.

(** [be_u32]: zero past the end of the buffer. *)
Definition be_u32 (buf : bytes) (at_ : Z) : Z :=
  match get_range buf at_ (at_ + 4) with Some b => be_val b | None => 0 end.

Record PageAccounting : Type := mkAcct {
  ac_src : Pager.PageSource;
  n_page : Z;
  usable : Z;
  auto_vacuum : bool;
  freelist_trunk : Z;
  freelist_count : Z;
  largest_root_page : Z;
  incremental_vacuum : Z;
  refs : bytes;
  max_err : Z
}.

Definition set_refs (a : PageAccounting) (r : bytes) : PageAccounting :=
  mkAcct (ac_src a) (n_page a) (usable a) (auto_vacuum a) (freelist_trunk a) (freelist_count a) (largest_root_page a)
    (incremental_vacuum a) r (max_err a).

Definition get (a : PageAccounting) (pg : Z) : res bool :=
  let* b := idx (refs a) (pg / 8) in
  Ok (negb (Z.land b (Z.shiftl 1 (Z.land pg 7)) =? 0)).

Definition set (a : PageAccounting) (pg : Z) : res PageAccounting :=
  let* b := idx (refs a) (pg / 8) in
  let* r := set_idx (refs a) (pg / 8) (Z.lor b (Z.shiftl 1 (Z.land pg 7))) in
  Ok (set_refs a r).

(** The free list and vacuum fields, from page one as it is now, or from the
    cached header when page one cannot be read. *)
Definition header_fields (src : Pager.PageSource) : res (Z * Z * Z * Z) :=
  let header := Pager.src_header src in
  match Pager.src_page src 1 with
  | Ok p => let d := Pager.data p in Ok (be_u32 d 32, be_u32 d 36, be_u32 d 52, be_u32 d 64)
  | Err _ => Ok (Header.freelist_trunk header, Header.freelist_count header, Header.largest_root_page header, Header.incremental_vacuum header)
  | Panic => Panic
  end.

(** The accounting with an empty bitmap. *)
Definition blank (src : Pager.PageSource) (max_err : Z) (fields : Z * Z * Z * Z) : PageAccounting :=
  let '(trunk, count, largest, incr) := fields in
  let n_page := Pager.src_page_count src in
  mkAcct src n_page (Pager.src_usable_size src) (negb (largest =? 0)) trunk count largest incr (zrep (n_page / 8 + 1) 0) max_err.

Definition new (src : Pager.PageSource) (max_err : Z) : res PageAccounting :=
  let* fields := header_fields src in
  let acct := blank src max_err fields in
  let pending_page := PENDING_BYTE / Z.max (Header.page_size (Pager.src_header src)) 1 + 1 in
  if pending_page <=? Pager.src_page_count src then set acct (wrap 32 pending_page) else Ok acct.

(** The accounting and the messages so far. *)
Definition State : Type := PageAccounting * list string.

Definition full (a : PageAccounting) (problems : list string) : bool := max_err a <=? zlen problems.

Definition push (a : PageAccounting) (problems : list string) (msg : string) : list string :=
  if full a problems then problems else problems ++ [msg].

(** [check_ref]: true when the caller must not go on to the page. *)
Definition check_ref (pg : Z) (prefix : string) (st : State) : res (bool * State) :=
  let '(a, problems) := st in
  if (pg =? 0) || (n_page a <? pg) then Ok (true, (a, push a problems (prefix +:+ "invalid page number " +:+ pretty pg)))
  else
    let* seen := get a pg in
    if seen then Ok (true, (a, push a problems (prefix +:+ "2nd reference to page " +:+ pretty pg)))
    else let* a := set a pg in Ok (false, (a, problems)).

(** [ptrmap_get]. *)
Definition ptrmap_get (a : PageAccounting) (key : Z) : res (option (Z * Z)) :=
  if (key <? 2) || (n_page a <? key) then Ok None
  else
    let* map := Ptrmap.ptrmap_pageno (wrap 32 (usable a)) key in
    if key <=? map then Ok None
    else
      let off := (key - map - 1) * Ptrmap.ENTRY_SIZE in
      if usable a <? off + Ptrmap.ENTRY_SIZE then Ok None
      else match Pager.src_page (ac_src a) map with
           | Ok page =>
               match get_range (Pager.data page) off (off + Ptrmap.ENTRY_SIZE) with
               | Some entry =>
                   let* e0 := idx entry 0 in
                   if (e0 <? 1) || (5 <? e0) then Ok None else Ok (Some (e0, be_u32 entry 1))
               | None => Ok None
               end
           | Err _ => Ok None
           | Panic => Panic
           end.

Definition check_ptrmap (key : Z) (expected_type : Ptrmap.PtrmapType) (expected_parent : Z) (prefix : string) (st : State) : res State :=
  let '(a, problems) := st in
  let* e := ptrmap_get a key in
  match e with
  | None => Ok (a, push a problems (prefix +:+ "Failed to read ptrmap key=" +:+ pretty key))
  | Some (got_type, got_parent) =>
      if negb (got_type =? Ptrmap.as_u8 expected_type) || negb (got_parent =? expected_parent) then
        Ok (a, push a problems (prefix +:+ "Bad ptr map entry key=" +:+ pretty key +:+ " expected=(" +:+ pretty (Ptrmap.as_u8 expected_type) +:+ ","
          +:+ pretty expected_parent +:+ ") got=(" +:+ pretty got_type +:+ "," +:+ pretty got_parent +:+ ")"))
      else Ok st
  end.

(** [if self.auto_vacuum { self.check_ptrmap(..) }]. *)
Definition av_ptrmap (key : Z) (ty : Ptrmap.PtrmapType) (parent : Z) (prefix : string) (st : State) : res State :=
  if auto_vacuum st.1 then check_ptrmap key ty parent prefix st else Ok st.

(** The leaves of a trunk page, from the [i]th on; [k] are left. *)
Fixpoint leaf_loop (k : nat) (i : Z) (dat : bytes) (prefix : string) (st : State) : res State :=
  match k with
  | O => Ok st
  | S k =>
      let leaf := be_u32 dat (8 + i * 4) in
      let* st := av_ptrmap leaf Ptrmap.FreePage 0 prefix st in
      let* (_, st) := check_ref leaf prefix st in
      leaf_loop k (i + 1) dat prefix st
  end.

(** One page of the list, once it is read: the leaves of a trunk, or the
    pointer-map entry of the next overflow page. *)
Definition list_step (is_freelist : bool) (page_no n : Z) (dat : bytes) (prefix : string) (st : State) : res (Z * State) :=
  if is_freelist then
    let leaves := be_u32 dat 4 in
    let* st := av_ptrmap page_no Ptrmap.FreePage 0 prefix st in
    let* room := Ptrmap.sub_u32 (usable st.1 / 4) 2 in
    if room <? leaves then
      Ok (n - 1, (st.1, push st.1 st.2 (prefix +:+ "freelist leaf count too big on page " +:+ pretty page_no)))
    else
      let* st := leaf_loop (Z.to_nat leaves) 0 dat prefix st in
      Ok (n - leaves, st)
  else
    let* st := if 0 <? n then av_ptrmap (be_u32 dat 0) Ptrmap.Overflow2 page_no prefix st else Ok st in
    Ok (n, st).

(** The [while] of [check_list]; [n] counts down from the expected length. *)
Fixpoint list_loop (fuel : nat) (is_freelist : bool) (page_no n : Z) (prefix : string) (st : State) : res (Z * State) :=
  match fuel with
  | O => Panic
  | S fuel =>
      if (page_no =? 0) || full st.1 st.2 then Ok (n, st)
      else
        let* (stop, st) := check_ref page_no prefix st in
        if stop then Ok (n, st)
        else
          let n := n - 1 in
          match Pager.src_page (ac_src st.1) page_no with
          | Panic => Panic
          | Err _ => Ok (n, (st.1, push st.1 st.2 (prefix +:+ "failed to get page " +:+ pretty page_no)))
          | Ok page =>
              let* (n, st) := list_step is_freelist page_no n (Pager.data page) prefix st in
              list_loop fuel is_freelist (be_u32 (Pager.data page) 0) n prefix st
          end
  end.

Definition check_list (fuel : nat) (is_freelist : bool) (first expected : Z) (prefix : string) (st : State) : res State :=
  let err_start := zlen st.2 in
  let* (n, st) := list_loop fuel is_freelist first expected prefix st in
  if negb (n =? 0) && (zlen st.2 =? err_start) then
    Ok (st.1, push st.1 st.2 (prefix +:+ (if is_freelist then "size" else "overflow list length") +:+ " is " +:+ pretty (expected - n)
      +:+ " but should be " +:+ pretty expected))
  else Ok st.

Definition check_freelist (fuel : nat) (st : State) : res State :=
  check_list fuel true (freelist_trunk st.1) (freelist_count st.1) "Freelist: " st.

Definition check_rootpage_header (max_root : Z) (st : State) : State :=
  let '(a, problems) := st in
  if auto_vacuum a then
    if max_root =? largest_root_page a then st
    else (a, push a problems ("max rootpage (" +:+ pretty max_root +:+ ") disagrees with header (" +:+ pretty (largest_root_page a) +:+ ")"))
  else if incremental_vacuum a =? 0 then st
  else (a, push a problems "incremental_vacuum enabled with a max rootpage of zero").

(** ** The walk of a tree *)

(** The payload of a cell, [None] for a cell that has none. *)
Definition cell_payload (bt : BtreePage) (i us : Z) : option (res Payload) :=
  match page_type bt with
  | LeafTable => Some (let* c := table_leaf_cell bt i us in Ok (tl_payload c))
  | LeafIndex | InteriorIndex => Some (let* c := index_cell bt i us in Ok (ix_payload c))
  | InteriorTable => None
  end.

(** The length an overflow chain should have. *)
Definition expected_len (us : Z) (p : Payload) : res Z :=
  let total := sat_sub (total_len p) (local_len p) + sat_sub us 5 in
  if 2 ^ 64 <=? total then Panic else Ok (wrap 32 (total / Z.max (sat_sub us 4) 1)).

(** One cell: the chain of a payload that spills. *)
Definition cell_step (fuel : nat) (i : Z) (bt : BtreePage) (page_no : Z) (label : string) (st : State) : res State :=
  match cell_payload bt i (usable st.1) with
  | None => Ok st
  | Some Panic => Panic
  | Some (Err _) => Ok (st.1, push st.1 st.2 (label +:+ ": invalid cell " +:+ pretty i +:+ " on page " +:+ pretty page_no))
  | Some (Ok p) =>
      if overflow p =? 0 then Ok st
      else
        let* expected := expected_len (usable st.1) p in
        let* st := av_ptrmap (overflow p) Ptrmap.Overflow1 page_no (label +:+ ": ") st in
        check_list fuel false (overflow p) expected (label +:+ ": ") st
  end.

(** The cells of a page from the [i]th on; [k] are left. False when the list of
    messages is full and the walk returns. *)
Fixpoint cells_loop (k fuel : nat) (i : Z) (bt : BtreePage) (page_no : Z) (label : string) (st : State) : res (bool * State) :=
  match k with
  | O => Ok (true, st)
  | S k =>
      if full st.1 st.2 then Ok (false, st)
      else
        let* st := cell_step fuel i bt page_no label st in
        cells_loop k fuel (i + 1) bt page_no label st
  end.

(** The children of a page from the [i]th on. [None] when the list of messages
    is full and the walk returns. *)
Fixpoint children_loop (walk : Z -> State -> res (Z * State)) (k : nat) (i : Z) (bt : BtreePage) (page_no : Z) (label : string)
    (depth : Z) (first_child : bool) (st : State) : res (option Z * State) :=
  match k with
  | O => Ok (Some depth, st)
  | S k =>
      if full st.1 st.2 then Ok (None, st)
      else
        match child_pointer bt i with
        | Panic => Panic
        | Ok child =>
            let* st := av_ptrmap child Ptrmap.Btree page_no (label +:+ ": ") st in
            let* (d2, st) := walk child st in
            let st := if negb first_child && negb (d2 =? depth) then (st.1, push st.1 st.2 (label +:+ ": Child page depth differs")) else st in
            children_loop walk k (i + 1) bt page_no label d2 false st
        | Err _ =>
            children_loop walk k (i + 1) bt page_no label depth first_child
              (st.1, push st.1 st.2 (label +:+ ": unreadable child pointer on page " +:+ pretty page_no))
        end
  end.

Fixpoint walk (fuel : nat) (is_root : bool) (label : string) (page_no : Z) (st : State) : res (Z * State) :=
  match fuel with
  | O => Panic
  | S fuel' =>
      if full st.1 st.2 then Ok (0, st)
      else
        let* (stop, st) := check_ref page_no (label +:+ ": ") st in
        if stop then Ok (0, st)
        else
          match Pager.src_page (ac_src st.1) page_no with
          | Panic => Panic
          | Err _ => Ok (0, (st.1, push st.1 st.2 (label +:+ ": unable to read page " +:+ pretty page_no)))
          | Ok page =>
              match BtPage.parse page with
              | Panic => Panic
              | Err _ => Ok (0, (st.1, push st.1 st.2 (label +:+ ": page " +:+ pretty page_no +:+ " is not a valid b-tree page")))
              | Ok bt =>
                  let st := if is_leaf (page_type bt) && negb is_root && (num_cells bt =? 0)
                            then (st.1, push st.1 st.2 (label +:+ ": empty non-root leaf page " +:+ pretty page_no)) else st in
                  let* (more, st) := cells_loop (Z.to_nat (num_cells bt)) fuel 0 bt page_no label st in
                  if negb more then Ok (0, st)
                  else if is_leaf (page_type bt) then Ok (0, st)
                  else
                    let* (depth, st) := children_loop (walk fuel' false label) (Z.to_nat (num_cells bt + 1)) 0 bt page_no label (-1) true st in
                    match depth with
                    | None => Ok (0, st)
                    | Some d => Ok (d + 1, st)
                    end
              end
          end
  end.

Definition check_tree (fuel : nat) (root : Z) (label : string) (st : State) : res State :=
  let* st := if auto_vacuum st.1 && (1 <? root) then check_ptrmap root Ptrmap.RootPage 0 (label +:+ ": ") st else Ok st in
  let* (_, st) := walk fuel true label root st in
  Ok st.

(** The loop of [check_never_used] over the pages [pgs]. *)
Fixpoint sweep (pgs : list Z) (st : State) : res State :=
  match pgs with
  | [] => Ok st
  | pg :: pgs =>
      if full st.1 st.2 then Ok st
      else
        let* referenced := get st.1 pg in
        let* is_ptrmap := if auto_vacuum st.1 then Ptrmap.is_ptrmap_page (wrap 32 (usable st.1)) pg else Ok false in
        sweep pgs
          (st.1, if negb referenced && negb is_ptrmap then st.2 ++ ["Page " +:+ pretty pg +:+ ": never used"]
                 else if referenced && is_ptrmap then st.2 ++ ["Page " +:+ pretty pg +:+ ": pointer map referenced"]
                 else st.2)
  end.

Definition check_never_used (st : State) : res State := sweep (seqZ 1 (n_page st.1)) st.

(** ** The accounting pass of [pragma_integrity_check] *)

Fixpoint check_trees (fuel : nat) (roots : list (Z * string)) (st : State) : res State :=
  match roots with
  | [] => Ok st
  | (root, label) :: roots => let* st := check_tree fuel root label st in check_trees fuel roots st
  end.

Definition roots_of (objects : list Schema.SchemaObject) : list (Z * string) :=
  (1, "sqlite_schema") :: ((fun o => (Schema.rootpage o, Schema.show (Schema.obj_name o))) <$> filter (fun o => 0 < Schema.rootpage o) objects).

Definition account_pages (fuel : nat) (roots : list (Z * string)) (acct : PageAccounting) : res (list string) :=
  let* st := check_freelist fuel (acct, []) in
  let st := check_rootpage_header (fold_right Z.max 0 (roots.*1)) st in
  let* st := check_trees fuel roots st in
  let* st := check_never_used st in
  Ok st.2.

(** The part of [pragma_integrity_check] that accounts for the pages: the
    messages it adds to an empty list. *)
Definition accounting (fuel : nat) (src : Pager.PageSource) (max_err : Z) (objects : list Schema.SchemaObject) : res (list string) :=
  if 0 <? Pager.src_page_count src then
    let* acct := new src max_err in
    account_pages fuel (roots_of objects) acct
  else Ok [].

End Integrity.
