(* ===== verification/Forest.v ===== *)
(** The pages of a database as a forest: the free list, the trees of the given
    roots with the overflow chains of their cells, and what the pointer map is
    to say of each page. The integrity check ([IntegrityProps]) and auto-vacuum
    ([AutoVacuumProps]) are stated with these relations. *)

From S2P Require Import Prelude Header Ptrmap Pager BtPage Integrity.
Local Open Scope Z_scope.

Module Forest.
Import BtPage Integrity.

Section forest.
Context (src : Pager.PageSource) (us : Z).
(** What is known of the pointer map's entry for a page: the page's kind and
    parent. *)
Context (ptr : Z -> Ptrmap.PtrmapType -> Z -> Prop).

Definition trunk_leaves (dat : bytes) : list Z := (fun i => be_u32 dat (8 + i * 4)) <$> seqZ 0 (be_u32 dat 4).

(** The free list from trunk [p], of [n] pages: these pages. *)
Inductive free_list : Z -> Z -> list Z -> Prop :=
  | fl_end : free_list 0 0 []
  | fl_trunk p n page ps :
      p <> 0 -> Pager.src_page src p = Ok page -> be_u32 (Pager.data page) 4 <= us / 4 - 2 ->
      ptr p Ptrmap.FreePage 0 -> Forall (fun l => ptr l Ptrmap.FreePage 0) (trunk_leaves (Pager.data page)) ->
      free_list (be_u32 (Pager.data page) 0) (n - 1 - be_u32 (Pager.data page) 4) ps ->
      free_list p n (p :: trunk_leaves (Pager.data page) ++ ps).

(** The overflow chain from page [p], of [n] pages. *)
Inductive over_list : Z -> Z -> list Z -> Prop :=
  | ol_end : over_list 0 0 []
  | ol_page p n page ps :
      p <> 0 -> Pager.src_page src p = Ok page ->
      (0 < n - 1 -> ptr (be_u32 (Pager.data page) 0) Ptrmap.Overflow2 p) ->
      over_list (be_u32 (Pager.data page) 0) (n - 1) ps -> over_list p n (p :: ps).

(** The overflow pages of a cell. *)
Definition chain_of (bt : BtreePage) (p i : Z) (ps : list Z) : Prop :=
  match cell_payload bt i us with
  | None => ps = []
  | Some (Ok c) =>
      if overflow c =? 0 then ps = []
      else exists e, expected_len us c = Ok e /\ ptr (overflow c) Ptrmap.Overflow1 p /\ over_list (overflow c) e ps
  | Some _ => False
  end.

(** The tree of height [h] at page [p]: all its leaves at one depth, none but
    the root without cells, and these pages in all. *)
Fixpoint tree_refs (h : nat) (is_root : bool) (p : Z) (ps : list Z) : Prop :=
  exists page bt cs, Pager.src_page src p = Ok page /\ BtPage.parse page = Ok bt /\
    Forall2 (chain_of bt p) (seqZ 0 (num_cells bt)) cs /\
    match h with
    | O => is_leaf (page_type bt) = true /\ (is_root = false -> num_cells bt <> 0) /\ ps = p :: concat cs
    | S h =>
        is_leaf (page_type bt) = false /\
        exists kids, Forall2 (fun i ks => exists c, child_pointer bt i = Ok c /\ ptr c Ptrmap.Btree p /\ tree_refs h false c ks)
                       (seqZ 0 (num_cells bt + 1)) kids /\
          ps = p :: concat cs ++ concat kids
    end.

Definition root_refs (root : Z) (ps : list Z) : Prop :=
  (1 < root -> ptr root Ptrmap.RootPage 0) /\ exists h, tree_refs h true root ps.

End forest.

(** ** Heads *)

Lemma over_list_head src ptr p n ps : over_list src ptr p n ps -> p <> 0 -> exists qs, ps = p :: qs.
Proof. destruct 1 as [|p n page ps]; [done|]. by exists ps. Qed.

Lemma over_list_zero src ptr n ps : over_list src ptr 0 n ps -> n = 0 /\ ps = [].
Proof. by inversion 1. Qed.

Lemma over_list_zlen src ptr p n ps : over_list src ptr p n ps -> n = zlen ps.
Proof. induction 1; [done|]. rewrite zlen_cons. lia. Qed.

Lemma tree_refs_head src us ptr h r p ps : tree_refs src us ptr h r p ps -> exists qs, ps = p :: qs.
Proof. destruct h; [intros (pg & bt & cs & _ & _ & _ & _ & _ & ->)|intros (pg & bt & cs & _ & _ & _ & _ & kids & _ & ->)]; by eexists. Qed.

(** A cell whose payload is whole on its page. *)
Lemma chain_of_local src us ptr bt p i c : cell_payload bt i us = Some (Ok c) -> overflow c = 0 -> chain_of src us ptr bt p i [].
Proof. intros E E0. unfold chain_of. by rewrite E, E0. Qed.

(** ** Other pages, other pointer maps *)

(** The relations only depend on the pages they list. *)
Section frame.
Context (src src' : Pager.PageSource) (us : Z) (ptr ptr' : Z -> Ptrmap.PtrmapType -> Z -> Prop).

Definition agree (ps : list Z) : Prop :=
  forall q, q ∈ ps -> Pager.src_page src' q = Pager.src_page src q /\ forall t k, ptr q t k -> ptr' q t k.

Lemma agree_sub ps qs : agree ps -> qs ⊆ ps -> agree qs.
Proof. intros H Hs q Hq. apply H. by apply Hs. Qed.

Lemma over_list_frame p n ps : over_list src ptr p n ps -> agree ps -> over_list src' ptr' p n ps.
Proof.
  induction 1 as [|p n page ps Hp Hpg Hptr Hl IH]; intros Ha; [constructor|].
  destruct (Ha p ltac:(by left)) as [E _]. apply (ol_page _ _ p n page ps); [done|by rewrite E| |apply IH; apply (agree_sub _ _ Ha); set_solver].
  intros Hn. destruct (decide (be_u32 (Pager.data page) 0 = 0)) as [E0|Hne]; [rewrite E0 in Hl; apply over_list_zero in Hl; lia|].
  destruct (over_list_head _ _ _ _ _ Hl Hne) as (qs & Eps). apply (Ha (be_u32 (Pager.data page) 0)); [|by apply Hptr]. rewrite Eps. right. by left.
Qed.

Lemma chain_of_frame bt p i ps : chain_of src us ptr bt p i ps -> agree ps -> chain_of src' us ptr' bt p i ps.
Proof.
  unfold chain_of. destruct (cell_payload bt i us) as [[c| |]|]; try done. destruct (Z.eqb_spec (overflow c) 0) as [|Hne]; [done|].
  intros (e & Ee & Hptr & Hl) Ha. exists e. split_and!; [done| |by apply over_list_frame].
  destruct (over_list_head _ _ _ _ _ Hl Hne) as (qs & Eps). apply (Ha (overflow c)); [|done]. rewrite Eps. by left.
Qed.

Lemma chains_frame bt p ix cs : Forall2 (chain_of src us ptr bt p) ix cs -> agree (concat cs) -> Forall2 (chain_of src' us ptr' bt p) ix cs.
Proof.
  induction 1 as [|i c ix cs Hc Hcs IH]; intros Ha; constructor.
  - apply chain_of_frame; [done|]. apply (agree_sub _ _ Ha). cbn [concat]. set_solver.
  - apply IH. apply (agree_sub _ _ Ha). cbn [concat]. set_solver.
Qed.

Lemma tree_refs_frame h : forall r p ps, tree_refs src us ptr h r p ps -> agree ps -> tree_refs src' us ptr' h r p ps.
Proof.
  induction h as [|h IH]; intros r p ps (page & bt & cs & Hpg & Ebt & Hcs & Hh) Ha.
  - destruct Hh as (Hl & Hne & ->). exists page, bt, cs. destruct (Ha p ltac:(by left)) as [E _]. split_and!; try done; [by rewrite E|].
    apply chains_frame; [done|]. apply (agree_sub _ _ Ha). set_solver.
  - destruct Hh as (Hl & kids & Hk & ->). exists page, bt, cs. destruct (Ha p ltac:(by left)) as [E _]. split_and!; try done; [by rewrite E| |].
    { apply chains_frame; [done|]. apply (agree_sub _ _ Ha). set_solver. }
    exists kids. split; [|done]. assert (agree (concat kids)) as Hak by (apply (agree_sub _ _ Ha); set_solver). clear Ha Hcs.
    induction Hk as [|i ks ix kids (c & Ec & Hptr & Ht) Hk IHk]; constructor.
    + destruct (tree_refs_head _ _ _ _ _ _ _ Ht) as (qs & Eks). exists c. split_and!; [done| |].
      * apply (Hak c); [|done]. cbn [concat]. rewrite Eks. by left.
      * apply IH; [done|]. apply (agree_sub _ _ Hak). cbn [concat]. set_solver.
    + apply IHk. apply (agree_sub _ _ Hak). cbn [concat]. set_solver.
Qed.

Lemma root_refs_frame root ps : root_refs src us ptr root ps -> agree ps -> root_refs src' us ptr' root ps.
Proof.
  intros [Hr [h Ht]] Ha. split; [|exists h; by apply tree_refs_frame]. intros H1. destruct (tree_refs_head _ _ _ _ _ _ _ Ht) as (qs & ->).
  apply (Ha root); [by left|by apply Hr].
Qed.

Lemma free_list_frame p n ps : free_list src us ptr p n ps -> agree ps -> free_list src' us ptr' p n ps.
Proof.
  induction 1 as [|p n page ps Hp Hpg Hle Hptr Hall Hl IH]; intros Ha; [constructor|].
  destruct (Ha p ltac:(by left)) as [E HE]. apply (fl_trunk _ _ _ p n page ps); try done; [by rewrite E|by apply HE| |apply IH; apply (agree_sub _ _ Ha); set_solver].
  rewrite Forall_forall in Hall |- *. intros q Hq. apply (Ha q); [set_solver|by apply Hall].
Qed.

End frame.

End Forest.
