(* ===== verification/IntegrityProps.v ===== *)
(** The accounting pass of the integrity check, against what it checks: it ends
    on any file, and it has nothing to report exactly when the free list, the
    trees and their overflow chains reference every page of the file once. *)

From S2P Require Import Prelude Header Ptrmap Pager BtPage Cursor CursorProps Schema Integrity Forest.
Local Open Scope Z_scope.

Module IntegrityProps.
Import BtPage Integrity.

#[local] Existing Instance CursorProps.demo_ok.

(** ** What is checked *)

Section spec.
Context (a0 : PageAccounting).
Local Notation src := (ac_src a0).

(** In an auto-vacuum file, the pointer map says what page [key] is for. *)
Definition ptr_ok (key : Z) (ty : Ptrmap.PtrmapType) (parent : Z) : Prop :=
  auto_vacuum a0 = true -> ptrmap_get a0 key = Ok (Some (Ptrmap.as_u8 ty, parent)).

(** A pointer-map page of an auto-vacuum file. *)
Definition map_page (p : Z) : Prop := auto_vacuum a0 = true /\ Ptrmap.is_ptrmap_page (wrap 32 (usable a0)) p = Ok true.

(** The page of the lock bytes, when the file reaches it. *)
Definition pending : list Z :=
  let p := PENDING_BYTE / Z.max (Header.page_size (Pager.src_header src)) 1 + 1 in
  if p <=? n_page a0 then [p] else [].

(** Every page of the file is referenced once: by the free list, by the tree of
    one of the [roots] or by a chain of its cells. *)
Definition accounted (roots : list Z) : Prop :=
  (if auto_vacuum a0 then fold_right Z.max 0 roots = largest_root_page a0 else incremental_vacuum a0 = 0) /\
  exists fl trees, Forest.free_list src (usable a0) ptr_ok (freelist_trunk a0) (freelist_count a0) fl /\
    Forall2 (Forest.root_refs src (usable a0) ptr_ok) roots trees /\
    NoDup (pending ++ fl ++ concat trees) /\
    forall p, p ∈ pending ++ fl ++ concat trees <-> 1 <= p <= n_page a0 /\ ~ map_page p.

End spec.

(** The relations of [Forest] on the pages an accounting reads. *)
Abbreviation free_list a0 := (Forest.free_list (ac_src a0) (usable a0) (ptr_ok a0)).
Abbreviation over_list a0 := (Forest.over_list (ac_src a0) (ptr_ok a0)).
Abbreviation chain_of a0 := (Forest.chain_of (ac_src a0) (usable a0) (ptr_ok a0)).
Abbreviation tree_refs a0 := (Forest.tree_refs (ac_src a0) (usable a0) (ptr_ok a0)).
Abbreviation root_refs a0 := (Forest.root_refs (ac_src a0) (usable a0) (ptr_ok a0)).

(** ** The bitmap *)

Lemma bit_test b k : 0 <= k -> negb (Z.land b (Z.shiftl 1 k) =? 0) = Z.testbit b k.
Proof.
  intros Hk. rewrite Z.shiftl_1_l. destruct (Z.testbit b k) eqn:E.
  - apply negb_true_iff, Z.eqb_neq. intros E0. assert (Z.testbit (Z.land b (2 ^ k)) k = true) as H by (by rewrite Z.land_spec, E, Z.pow2_bits_true).
    rewrite E0, Z.bits_0 in H. done.
  - apply negb_false_iff, Z.eqb_eq, Z.bits_inj'. intros j Hj. rewrite Z.land_spec, Z.bits_0, Z.pow2_bits_eqb by done.
    destruct (Z.eqb_spec k j) as [<-|]; [by rewrite E|by rewrite andb_false_r].
Qed.

Lemma byte_bit p q : 0 <= p -> 0 <= q -> p / 8 = q / 8 -> Z.land p 7 = Z.land q 7 -> p = q.
Proof.
  intros Hp Hq Hd. change 7 with (Z.ones 3). rewrite !Z.land_ones by lia. change (2 ^ 3) with 8. intros Hm.
  rewrite (Z.div_mod p 8), (Z.div_mod q 8) by lia. congruence.
Qed.

Lemma land7_range p : 0 <= Z.land p 7 < 8.
Proof. change 7 with (Z.ones 3). rewrite Z.land_ones by lia. apply Z.mod_pos_bound. lia. Qed.

Section accounting.
#[local] Set Default Proof Using "Type*".
Context (a0 : PageAccounting).
Local Notation src := (ac_src a0).
Context `{Hsrc : !Pager.SourceOk src}.
Hypothesis Hn : n_page a0 = Pager.src_page_count src.
Hypothesis Hn0 : 0 <= n_page a0.
Hypothesis Hu : 257 <= usable a0 <= 65536.
Hypothesis Hmax : 0 < max_err a0.
(** No cell declares a payload within a page of the top of the address space. *)
Hypothesis Hpay : forall n page bt i c, Pager.src_page src n = Ok page -> BtPage.parse page = Ok bt -> 0 <= i < num_cells bt ->
  cell_payload bt i (usable a0) = Some (Ok c) -> no_panic (expected_len (usable a0) c).

(** The state marks exactly the pages of [M]. *)
Definition marks (a : PageAccounting) (M : list Z) : Prop :=
  exists r, a = set_refs a0 r /\ zlen r = n_page a0 / 8 + 1 /\ NoDup M /\ Forall (fun p => 1 <= p <= n_page a0) M /\
    forall p, 0 <= p <= n_page a0 -> get a p = Ok (bool_decide (p ∈ M)).

Lemma marks_perm a M M' : M ≡ₚ M' -> marks a M -> marks a M'.
Proof using Type.
  intros HM (r & -> & Hz & Hnd & Hr & Hg). exists r. split_and!; try done; [by rewrite <- HM|by rewrite <- HM|].
  intros p Hp. rewrite Hg by done. f_equal. apply bool_decide_ext. by rewrite HM.
Qed.

Lemma marks_room a M : marks a M -> zlen M <= n_page a0.
Proof using Hn0.
  intros (r & _ & Hz & Hnd & Hr & _). assert (length M <= length (seqZ 1 (n_page a0)))%nat as Hl.
  { apply submseteq_length, NoDup_submseteq; [done|]. intros p Hin. rewrite Forall_forall in Hr. apply elem_of_seqZ. specialize (Hr p Hin). lia. }
  rewrite length_seqZ in Hl. unfold zlen. lia.
Qed.

Lemma set_marks a M p : marks a M -> 1 <= p <= n_page a0 -> p ∉ M -> exists a', set a p = Ok a' /\ marks a' (p :: M).
Proof using Type.
  intros (r & -> & Hz & Hnd & Hr & Hg) Hp Hnin.
  assert (forall q, 0 <= q <= n_page a0 -> 0 <= q / 8 < zlen r) as Hb.
  { intros q Hq. rewrite Hz. split; [apply Z.div_pos; lia|]. pose proof (Z.div_le_mono q (n_page a0) 8 ltac:(lia) ltac:(lia)). lia. }
  unfold set. cbn [refs set_refs]. destruct (idx_in_range r (p / 8) (Hb p ltac:(lia))) as [b Eb].
  rewrite Eb. bind_step. rewrite set_idx_Ok by (apply Hb; lia). bind_step. eexists. split; [done|].
  exists (<[Z.to_nat (p / 8) := Z.lor b (Z.shiftl 1 (Z.land p 7))]> r). split_and!; [done|by rewrite zlen_insert|by constructor|by constructor|].
  intros q Hq. unfold get. cbn [refs set_refs]. specialize (Hg q Hq). unfold get in Hg. cbn [refs set_refs] in Hg.
  destruct (idx_in_range r (q / 8) (Hb q Hq)) as [b' Eb']. rewrite Eb' in Hg. rewrite bind_Ok, bit_test in Hg by apply land7_range. apply Ok_inj in Hg.
  pose proof (land7_range p). pose proof (land7_range q).
  destruct (decide (p / 8 = q / 8)) as [Ed|Hd].
  - assert (idx (<[Z.to_nat (p / 8) := Z.lor b (Z.shiftl 1 (Z.land p 7))]> r) (q / 8) = Ok (Z.lor b (Z.shiftl 1 (Z.land p 7)))) as ->.
    { rewrite Ed. specialize (Hb q Hq). replace (q / 8) with (Z.of_nat (Z.to_nat (q / 8))) at 2 by lia. apply idx_lookup, list_lookup_insert_eq. unfold zlen in Hb. lia. }
    bind_step. rewrite bit_test by lia. f_equal. rewrite Z.lor_spec, Z.shiftl_1_l, Z.pow2_bits_eqb by lia.
    assert (b = b') as -> by (rewrite Ed in Eb; congruence). rewrite Hg.
    destruct (Z.eqb_spec (Z.land p 7) (Z.land q 7)) as [El|Hne].
    + assert (p = q) as -> by (apply byte_bit; lia || done). rewrite orb_true_r. symmetry. apply bool_decide_eq_true. by left.
    + rewrite orb_false_r. apply bool_decide_ext. rewrite elem_of_cons. split; [by right|]. intros [->|]; done.
  - assert (idx (<[Z.to_nat (p / 8) := Z.lor b (Z.shiftl 1 (Z.land p 7))]> r) (q / 8) = Ok b') as ->.
    { specialize (Hb q Hq) as Hbq. specialize (Hb p ltac:(lia)). apply idx_Ok in Eb' as (? & Eb'). replace (q / 8) with (Z.of_nat (Z.to_nat (q / 8))) by lia.
      apply idx_lookup. rewrite list_lookup_insert_ne by lia. done. }
    bind_step. rewrite bit_test by lia. f_equal. rewrite Hg. apply bool_decide_ext. rewrite elem_of_cons. split; [by right|]. intros [->|]; done.
Qed.

(** ** Messages *)

Lemma marks_static a M : marks a M -> max_err a = max_err a0 /\ n_page a = n_page a0 /\ usable a = usable a0 /\ ac_src a = src /\
  auto_vacuum a = auto_vacuum a0 /\ forall key, ptrmap_get a key = ptrmap_get a0 key.
Proof using Type. by intros (r & -> & _). Qed.

Lemma push_prefix a l msg : l `prefix_of` push a l msg.
Proof using Type. unfold push. destruct (full a l); [done|by apply prefix_app_r]. Qed.

Lemma push_new a l msg : full a l = false -> push a l msg <> l.
Proof using Type. unfold push. intros ->. intros E%(f_equal length). rewrite length_app in E. simpl in E. lia. Qed.

(** From [st] to [st']: messages are only added, pages only marked, and when no
    message is added the newly marked pages are as [S] says. *)
Definition runs (st st' : State) (M : list Z) (S : list Z -> Prop) : Prop :=
  st.2 `prefix_of` st'.2 /\ exists E, marks st'.1 (E ++ M) /\
    (full st.1 st.2 = false -> st'.2 = st.2 -> exists ps, S ps /\ ps ≡ₚ E).

(** A state in which messages were added, or to which none can be. *)
Lemma runs_fail E st st' M S : marks st'.1 (E ++ M) -> st.2 `prefix_of` st'.2 -> (full st.1 st.2 = false -> st'.2 <> st.2) -> runs st st' M S.
Proof using Type. intros Hm Hp Hf. split; [done|]. exists E. split; [done|]. intros H1 H2. by destruct (Hf H1). Qed.

Lemma runs_push st M S msg : marks st.1 M -> runs st (st.1, push st.1 st.2 msg) M S.
Proof using Type. intros Hm. apply (runs_fail []); [done|apply push_prefix|]. intros Hf. by apply push_new. Qed.

Lemma runs_stay st M (S : list Z -> Prop) : marks st.1 M -> S [] -> runs st st M S.
Proof using Type. intros Hm HS. split; [done|]. exists []. split; [done|]. intros _ _. by exists []. Qed.

Lemma full_same st st' M M' : marks st.1 M -> marks st'.1 M' -> st'.2 = st.2 -> full st'.1 st'.2 = full st.1 st.2.
Proof using Type. intros (r & E & _) (r' & E' & _) Hp. unfold full. by rewrite E, E', Hp. Qed.

Lemma prefix_squeeze (l l1 l2 : list string) : l `prefix_of` l1 -> l1 `prefix_of` l2 -> l2 = l -> l1 = l.
Proof using Type. intros H1 H2 ->. by apply (anti_symm prefix). Qed.

(** One step after another. *)
Lemma runs_seq st st1 st2 M E1 (S1 : list Z -> Prop) S2 (S : list Z -> Prop) : marks st.1 M -> marks st1.1 (E1 ++ M) -> st.2 `prefix_of` st1.2 ->
  (full st.1 st.2 = false -> st1.2 = st.2 -> exists ps, S1 ps /\ ps ≡ₚ E1) -> runs st1 st2 (E1 ++ M) S2 ->
  (forall ps qs, S1 ps -> S2 qs -> S (ps ++ qs)) -> runs st st2 M S.
Proof using Type.
  intros Hm Hm1 Hp1 H1 [Hp2 (E2 & Hm2 & H2)] HS. split; [by etrans|]. exists (E2 ++ E1). rewrite <- app_assoc. split; [done|]. intros Hf Eq.
  pose proof (prefix_squeeze _ _ _ Hp1 Hp2 Eq) as Eq1. destruct (H1 Hf Eq1) as (ps & Hps & Hperm).
  rewrite (full_same st st1 M (E1 ++ M) Hm Hm1 Eq1) in H2. destruct (H2 Hf ltac:(congruence)) as (qs & Hqs & Hperm2).
  exists (ps ++ qs). split; [by apply HS|]. rewrite Hperm, Hperm2. apply Permutation_app_comm.
Qed.

Lemma runs_impl st st' M (S S' : list Z -> Prop) : (forall ps, S ps -> S' ps) -> runs st st' M S -> runs st st' M S'.
Proof using Type. intros HS [Hp (E & Hm & H)]. split; [done|]. exists E. split; [done|]. intros Hf Eq. destruct (H Hf Eq) as (ps & ? & ?). exists ps. auto. Qed.

(** ** Steps *)

Lemma be_u32_nonneg d at_ : is_bytes d -> is_u32 (be_u32 d at_).
Proof using Type.
  intros Hd. unfold be_u32. destruct (get_range d at_ (at_ + 4)) as [b|] eqn:E; [|by split].
  apply get_range_Some_inv in E as (H1 & H2 & ->). pose proof (be_val_bound (sub d at_ (at_ + 4)) (is_bytes_sub d _ _ Hd)) as Hb.
  rewrite zlen_sub in Hb by lia. replace (at_ + 4 - at_) with 4 in Hb by lia. exact Hb.
Qed.

Lemma check_ref_run pg prefix st M : marks st.1 M -> 0 <= pg ->
  exists stop st', check_ref pg prefix st = Ok (stop, st') /\
    (stop = false /\ st'.2 = st.2 /\ marks st'.1 (pg :: M) /\ 1 <= pg <= n_page a0 /\ pg ∉ M \/
     stop = true /\ exists msg, st' = (st.1, push st.1 st.2 msg)).
Proof using Type.
  intros Hm Hp. destruct st as [a l]. cbn [fst snd] in *. unfold check_ref. destruct (marks_static a M Hm) as (_ & -> & _). destruct (Z.eqb_spec pg 0) as [->|Hne]; simpl.
  { eexists _, _. split; [done|]. right. split; [done|]. by eexists. }
  destruct (Z.ltb_spec (n_page a0) pg). { eexists _, _. split; [done|]. right. split; [done|]. by eexists. }
  pose proof Hm as (r & _ & _ & _ & _ & Hg). rewrite (Hg pg) by lia. rewrite bind_Ok. cbv beta. destruct (bool_decide_reflect (pg ∈ M)) as [Hin|Hnin].
  { eexists _, _. split; [done|]. right. split; [done|]. by eexists. }
  destruct (set_marks a M pg Hm ltac:(lia) Hnin) as (a' & -> & Hm'). bind_step. eexists _, _. split; [done|]. left. split_and!; [done|done|done|lia|lia|done].
Qed.

Lemma ptrmap_get_total key : exists o, ptrmap_get a0 key = Ok o.
Proof.
  unfold ptrmap_get. destruct (Z.ltb_spec key 2), (Z.ltb_spec (n_page a0) key); simpl; try by eexists.
  rewrite wrap_small by (unfold is_uint; lia). destruct (Ptrmap.ptrmap_pageno_spec (usable a0) key ltac:(lia) ltac:(lia)) as (q & Hq & -> & Hr). rewrite bind_Ok. cbv beta.
  set (map := q * _ + 2). destruct (Z.leb_spec key map); [by eexists|]. destruct (Z.ltb_spec (usable a0) ((key - map - 1) * Ptrmap.ENTRY_SIZE + Ptrmap.ENTRY_SIZE)); [by eexists|].
  destruct (Pager.src_page src map) as [page| |] eqn:E; [|by eexists|].
  - destruct (get_range _ _ _) as [b|] eqn:Eg; [|by eexists]. apply get_range_Some_inv in Eg as (H3 & H4 & ->).
    destruct (idx_in_range (sub (Pager.data page) ((key - map - 1) * Ptrmap.ENTRY_SIZE) ((key - map - 1) * Ptrmap.ENTRY_SIZE + Ptrmap.ENTRY_SIZE)) 0) as [x ->].
    { rewrite zlen_sub by lia. unfold Ptrmap.ENTRY_SIZE. lia. }
    bind_step. case_match; by eexists.
  - exfalso. apply (Pager.src_no_panic map) in E; [done|]. unfold map, Ptrmap.entries_per_page, Ptrmap.ENTRY_SIZE in *. pose proof (Z.div_pos (usable a0) 5). nia.
Qed.

Lemma ptrmap_run key ty parent prefix st M : marks st.1 M -> 0 <= key ->
  exists st', check_ptrmap key ty parent prefix st = Ok st' /\ st'.1 = st.1 /\ st.2 `prefix_of` st'.2 /\
    (full st.1 st.2 = false -> st'.2 = st.2 -> ptrmap_get a0 key = Ok (Some (Ptrmap.as_u8 ty, parent))).
Proof.
  intros Hm Hk. destruct st as [a l]. cbn [fst snd] in *. unfold check_ptrmap. destruct (marks_static a M Hm) as (_ & _ & _ & _ & _ & ->).
  destruct (ptrmap_get_total key) as [[[t p]|] ->]; bind_step.
  - destruct (Z.eqb_spec t (Ptrmap.as_u8 ty)) as [->|], (Z.eqb_spec p parent) as [->|]; simpl; eexists; (split; [done|]);
      (split; [done|]); cbn [fst snd]; (split; [done || apply push_prefix|]); intros Hf Eq; try done; by destruct (push_new _ _ _ Hf Eq).
  - eexists. split; [done|]. split; [done|]. split; [apply push_prefix|]. intros Hf Eq. by destruct (push_new _ _ _ Hf Eq).
Qed.

Lemma av_run key ty parent prefix st M : marks st.1 M -> 0 <= key ->
  exists st', av_ptrmap key ty parent prefix st = Ok st' /\ marks st'.1 M /\ st.2 `prefix_of` st'.2 /\
    (full st.1 st.2 = false -> st'.2 = st.2 -> ptr_ok a0 key ty parent).
Proof.
  intros Hm Hk. unfold av_ptrmap, ptr_ok. destruct (marks_static _ _ Hm) as (_ & _ & _ & _ & -> & _). destruct (auto_vacuum a0).
  - destruct (ptrmap_run key ty parent prefix st M Hm Hk) as (st' & -> & E1 & Hp & Hc). exists st'. rewrite E1. split_and!; try done. intros Hf Eq _. by apply Hc.
  - by exists st.
Qed.

(** A check that marks nothing, then the rest. *)
Lemma runs_after st st1 st2 M (P : Prop) (S2 S : list Z -> Prop) : marks st.1 M -> marks st1.1 M -> st.2 `prefix_of` st1.2 ->
  (full st.1 st.2 = false -> st1.2 = st.2 -> P) -> runs st1 st2 M S2 -> (forall ps, P -> S2 ps -> S ps) -> runs st st2 M S.
Proof using Type.
  intros Hm Hm1 Hp H1 H2 HS. apply (runs_seq st st1 st2 M [] (fun ps => P /\ ps = []) S2); try done.
  - intros Hf Eq. exists []. split; [|done]. split; [by apply H1|done].
  - intros ps qs [HP ->]. by apply HS.
Qed.

Lemma check_ref_runs pg prefix st M : marks st.1 M -> 0 <= pg ->
  exists stop st', check_ref pg prefix st = Ok (stop, st') /\ runs st st' M (fun ps => ps = [pg] /\ stop = false).
Proof using Type.
  intros Hm Hp. destruct (check_ref_run pg prefix st M Hm Hp) as (stop & st' & -> & [(-> & Eq & Hm' & _)|(-> & msg & ->)]); eexists _, _; (split; [done|]).
  - split; [by rewrite Eq|]. exists [pg]. split; [done|]. intros _ _. by exists [pg].
  - by apply runs_push.
Qed.

Lemma leaf_loop_run dat prefix : is_bytes dat -> forall k i st M, marks st.1 M ->
  exists st', leaf_loop k i dat prefix st = Ok st' /\
    runs st st' M (fun ps => ps = (fun j => be_u32 dat (8 + j * 4)) <$> seqZ i (Z.of_nat k) /\ Forall (fun l => ptr_ok a0 l Ptrmap.FreePage 0) ps).
Proof.
  intros Hd. induction k as [|k IH]; intros i st M Hm; cbn [leaf_loop].
  { exists st. split; [done|]. by apply runs_stay. }
  destruct (av_run (be_u32 dat (8 + i * 4)) Ptrmap.FreePage 0 prefix st M Hm) as (st1 & -> & Hm1 & Hp1 & Hc1); [by apply be_u32_nonneg|]. bind_step.
  destruct (check_ref_runs (be_u32 dat (8 + i * 4)) prefix st1 M Hm1) as (stop & st2 & -> & [Hp2 (E & Hm2 & Hc2)]); [by apply be_u32_nonneg|]. bind_step.
  destruct (IH (i + 1) st2 (E ++ M) Hm2) as (st3 & -> & Hr3). exists st3. split; [done|].
  eapply runs_after; [exact Hm|exact Hm1|exact Hp1|exact Hc1| |].
  - apply (runs_seq st1 st2 st3 M E _ _ (fun ps => exists qs, ps = be_u32 dat (8 + i * 4) :: qs /\ qs = (fun j => be_u32 dat (8 + j * 4)) <$> seqZ (i + 1) (Z.of_nat k) /\
      Forall (fun l => ptr_ok a0 l Ptrmap.FreePage 0) qs) Hm1 Hm2 Hp2 Hc2 Hr3).
    intros ps qs [-> _] [E1 E2]. by exists qs.
  - intros ps Hptr (qs & -> & -> & Hall). rewrite (seqZ_cons i) by lia. replace (Z.pred (Z.of_nat (S k))) with (Z.of_nat k) by lia. split; [done|by constructor].
Qed.

(** What one page of a list says when nothing is wrong with it. *)
Definition step_ok (is_freelist : bool) (p n n' : Z) (dat : bytes) (ps : list Z) : Prop :=
  if is_freelist then
    n' = n - be_u32 dat 4 /\ be_u32 dat 4 <= usable a0 / 4 - 2 /\ ptr_ok a0 p Ptrmap.FreePage 0 /\
    Forall (fun l => ptr_ok a0 l Ptrmap.FreePage 0) (Forest.trunk_leaves dat) /\ ps = Forest.trunk_leaves dat
  else n' = n /\ (0 < n -> ptr_ok a0 (be_u32 dat 0) Ptrmap.Overflow2 p) /\ ps = [].

Lemma list_step_run is_freelist p n dat prefix st M : is_bytes dat -> 0 <= p -> marks st.1 M ->
  exists n' st', list_step is_freelist p n dat prefix st = Ok (n', st') /\ runs st st' M (step_ok is_freelist p n n' dat).
Proof.
  intros Hd Hp Hm. unfold list_step. destruct is_freelist.
  - destruct (av_run p Ptrmap.FreePage 0 prefix st M Hm Hp) as (st1 & -> & Hm1 & Hp1 & Hc1). bind_step.
    destruct (marks_static _ _ Hm1) as (_ & _ & -> & _). unfold Ptrmap.sub_u32. pose proof (Z.div_le_mono 257 (usable a0) 4 ltac:(lia) ltac:(lia)) as Hq.
    change (257 / 4) with 64 in Hq. destruct (Z.ltb_spec (usable a0 / 4) 2); [lia|]. bind_step. destruct (Z.ltb_spec (usable a0 / 4 - 2) (be_u32 dat 4)) as [Hbig|Hle].
    + eexists _, _. split; [done|]. eapply runs_after; [exact Hm|exact Hm1|exact Hp1|exact Hc1|by apply (runs_push st1 M (fun _ => False))|done].
    + destruct (leaf_loop_run dat prefix Hd (Z.to_nat (be_u32 dat 4)) 0 st1 M Hm1) as (st2 & -> & Hr). bind_step. eexists _, _. split; [done|].
      eapply runs_after; [exact Hm|exact Hm1|exact Hp1|exact Hc1|exact Hr|]. intros ps Hptr [Eps Hall]. pose proof (be_u32_nonneg dat 4 Hd) as [Hz _].
      rewrite Z2Nat.id in Eps by lia. fold (Forest.trunk_leaves dat) in Eps. rewrite Eps in Hall. by split_and!.
  - destruct (Z.ltb_spec 0 n).
    + destruct (av_run (be_u32 dat 0) Ptrmap.Overflow2 p prefix st M Hm) as (st1 & -> & Hm1 & Hp1 & Hc1); [by apply be_u32_nonneg|]. bind_step.
      eexists _, _. split; [done|]. eapply runs_after; [exact Hm|exact Hm1|exact Hp1|exact Hc1|by apply (runs_stay st1 M (fun ps => ps = []))|]. by intros ps Hptr ->.
    + bind_step. eexists _, _. split; [done|]. apply runs_stay; [done|]. split_and!; [done|lia|done].
Qed.

Definition list_ok (is_freelist : bool) : Z -> Z -> list Z -> Prop := if is_freelist then free_list a0 else over_list a0.

Lemma list_ok_cons is_freelist p n n' page qs ps : p <> 0 -> Pager.src_page src p = Ok page -> step_ok is_freelist p (n - 1) n' (Pager.data page) qs ->
  list_ok is_freelist (be_u32 (Pager.data page) 0) n' ps -> list_ok is_freelist p n (p :: qs ++ ps).
Proof using Type.
  intros Hp Hpg. destruct is_freelist; cbn [step_ok list_ok].
  - intros (-> & Hle & Hptr & Hall & ->) Hr. by apply Forest.fl_trunk.
  - intros (-> & Hptr & ->) Hr. by apply (Forest.ol_page _ _ p n page ps).
Qed.

Lemma list_loop_run is_freelist prefix fuel : forall p n st M, 0 <= p -> marks st.1 M -> n_page a0 - zlen M < Z.of_nat fuel ->
  exists n' st', list_loop fuel is_freelist p n prefix st = Ok (n', st') /\ runs st st' M (fun ps => n' = 0 -> list_ok is_freelist p n ps).
Proof.
  induction fuel as [|fuel IH]; intros p n st M Hp Hm Hf; [pose proof (marks_room _ _ Hm); lia|]. cbn [list_loop].
  destruct (Z.eqb_spec p 0) as [->|Hp0]; cbn [orb].
  { eexists _, _. split; [done|]. apply runs_stay; [done|]. intros ->. destruct is_freelist; constructor. }
  destruct (full st.1 st.2) eqn:Efull.
  { eexists _, _. split; [done|]. apply (runs_fail []); [done|done|congruence]. }
  destruct (check_ref_run p prefix st M Hm Hp) as (stop & st1 & -> & [(-> & Eq1 & Hm1 & Hr & Hnin)|(-> & msg & ->)]); bind_step.
  2: { eexists _, _. split; [done|]. by apply runs_push. }
  destruct (marks_static _ _ Hm1) as (_ & _ & _ & -> & _). destruct (Pager.src_page src p) as [page|e|] eqn:Epg.
  2: { eexists _, _. split; [done|]. apply (runs_fail [p]); [done|cbn [snd]; rewrite <- Eq1; apply push_prefix|]. cbn [snd]. rewrite <- Eq1. intros _. apply push_new.
       by rewrite (full_same st st1 M (p :: M) Hm Hm1 Eq1). }
  2: { by apply Pager.src_no_panic in Epg. }
  pose proof (Pager.src_bytes _ _ Epg) as Hd.
  destruct (list_step_run is_freelist p (n - 1) (Pager.data page) prefix st1 (p :: M) Hd Hp Hm1) as (n1 & st2 & -> & [Hp2 (E & Hm2 & Hc2)]). bind_step.
  destruct (IH (be_u32 (Pager.data page) 0) n1 st2 (E ++ p :: M)) as (n' & st3 & -> & Hr3); [by apply be_u32_nonneg|done| |].
  { rewrite zlen_app, zlen_cons. pose proof (zlen_nonneg E). lia. }
  exists n', st3. split; [done|]. apply (runs_seq st st1 st3 M [p] (fun ps => ps = [p]) (fun qs => n' = 0 -> list_ok is_freelist p n (p :: qs))); try done.
  - by rewrite Eq1.
  - intros _ _. by exists [p].
  - apply (runs_seq st1 st2 st3 (p :: M) E _ _ _ Hm1 Hm2 Hp2 Hc2 Hr3). intros ps qs Hs Hl En'. by eapply list_ok_cons; [| |exact Hs|apply Hl].
  - intros ps qs -> Hq. exact Hq.
Qed.

Lemma check_list_run fuel is_freelist first expected prefix st M : 0 <= first -> marks st.1 M -> n_page a0 - zlen M < Z.of_nat fuel ->
  exists st', check_list fuel is_freelist first expected prefix st = Ok st' /\ runs st st' M (list_ok is_freelist first expected).
Proof.
  intros Hp Hm Hf. unfold check_list. destruct (list_loop_run is_freelist prefix fuel first expected st M Hp Hm Hf) as (n & st1 & -> & [Hp1 (E & Hm1 & Hc1)]). bind_step.
  destruct (Z.eqb_spec n 0) as [->|Hn0']; cbn [negb andb].
  { exists st1. split; [done|]. split; [done|]. exists E. split; [done|]. intros Hfu Eq. destruct (Hc1 Hfu Eq) as (ps & Hps & Hperm). exists ps. split; [by apply Hps|done]. }
  destruct (Z.eqb_spec (zlen st1.2) (zlen st.2)) as [Ez|Hz]; eexists; (split; [done|]); apply (runs_fail E); try done; cbn [fst snd].
  - etrans; [exact Hp1|apply push_prefix].
  - intros Hfu Eq. destruct Hp1 as [k Ek]. assert (k = []) as ->.
    { rewrite Ek, zlen_app in Ez. destruct k; [done|]. rewrite zlen_cons in Ez. pose proof (zlen_nonneg k). lia. }
    rewrite app_nil_r in Ek. rewrite <- (full_same st st1 M (E ++ M) Hm Hm1 Ek) in Hfu. rewrite <- Ek in Eq. by apply push_new in Eq.
  - intros _ Eq. by rewrite Eq in Hz.
Qed.

(** ** Trees *)

Lemma cell_payload_safe bt i : wf bt -> 0 <= i -> match cell_payload bt i (usable a0) with Some m => safe m (payload_in bt) | None => True end.
Proof using Hu.
  intros Hw Hi. unfold cell_payload. destruct (page_type bt); try done; (eapply safe_bind; [by apply index_cell_safe || apply table_leaf_cell_safe; lia || done|]);
    intros c [_ Hc]; exact Hc.
Qed.

Lemma cell_step_run fuel page bt p i label st M : Pager.src_page src p = Ok page -> BtPage.parse page = Ok bt -> 0 <= i < num_cells bt -> marks st.1 M ->
  n_page a0 - zlen M < Z.of_nat fuel ->
  exists st', cell_step fuel i bt p label st = Ok st' /\ runs st st' M (chain_of a0 bt p i).
Proof.
  intros Hpg Ebt Hi Hm Hf. destruct (safe_Ok _ _ _ (parse_wf page (Pager.src_bytes _ _ Hpg)) Ebt) as [Hw _]. unfold cell_step, Forest.chain_of.
  destruct (marks_static _ _ Hm) as (_ & _ & -> & _). pose proof (cell_payload_safe bt i Hw (proj1 Hi)) as Hsafe.
  destruct (cell_payload bt i (usable a0)) as [[c|e|]|] eqn:Ec; [..|exists st; split; [done|by apply runs_stay]]; cbn [safe] in Hsafe; [|eexists; split; [done|by apply runs_push]|done].
  destruct (Z.eqb_spec (overflow c) 0); [exists st; split; [done|by apply runs_stay]|].
  pose proof (Hpay p page bt i c Hpg Ebt Hi Ec) as Hnp. destruct (expected_len (usable a0) c) as [e| |] eqn:Ee; [|unfold expected_len in Ee; by destruct (_ <=? _)|done]. bind_step.
  assert (0 <= overflow c) as Ho by (unfold payload_in, is_uint in Hsafe; lia).
  destruct (av_run (overflow c) Ptrmap.Overflow1 p (label +:+ ": ") st M Hm Ho) as (st1 & -> & Hm1 & Hp1 & Hc1). bind_step.
  destruct (check_list_run fuel false (overflow c) e (label +:+ ": ") st1 M Ho Hm1 Hf) as (st2 & -> & Hr). exists st2. split; [done|].
  eapply runs_after; [exact Hm|exact Hm1|exact Hp1|exact Hc1|exact Hr|]. intros ps Hptr Hl. by exists e.
Qed.

Lemma cells_loop_run fuel page bt p label : Pager.src_page src p = Ok page -> BtPage.parse page = Ok bt -> forall k i st M, 0 <= i -> i + Z.of_nat k <= num_cells bt -> marks st.1 M ->
  n_page a0 - zlen M < Z.of_nat fuel ->
  exists b st', cells_loop k fuel i bt p label st = Ok (b, st') /\
    runs st st' M (fun ps => b = true /\ exists cs, Forall2 (chain_of a0 bt p) (seqZ i (Z.of_nat k)) cs /\ ps = concat cs).
Proof.
  intros Hpg Ebt. induction k as [|k IH]; intros i st M Hi Hk Hm Hf; cbn [cells_loop].
  { eexists _, _. split; [done|]. apply runs_stay; [done|]. split; [done|]. exists []. by split; [constructor|]. }
  destruct (full st.1 st.2) eqn:Efull. { eexists _, _. split; [done|]. apply (runs_fail []); [done|done|congruence]. }
  destruct (cell_step_run fuel page bt p i label st M Hpg Ebt ltac:(lia) Hm Hf) as (st1 & -> & [Hp1 (E & Hm1 & Hc1)]). bind_step.
  destruct (IH (i + 1) st1 (E ++ M) ltac:(lia) ltac:(lia) Hm1) as (b & st2 & -> & Hr2); [rewrite zlen_app; pose proof (zlen_nonneg E); lia|].
  eexists _, _. split; [done|]. apply (runs_seq st st1 st2 M E _ _ _ Hm Hm1 Hp1 Hc1 Hr2). intros ps qs Hch (-> & cs & Hcs & ->). split; [done|].
  exists (ps :: cs). split; [|done]. rewrite (seqZ_cons i) by lia. replace (Z.pred (Z.of_nat (S k))) with (Z.of_nat k) by lia. by constructor.
Qed.

(** The children from the [i]th on: [k] subtrees of one height, which is the
    depth found so far unless this is the first child. *)
Definition kids_ok (bt : BtreePage) (p : Z) (k : nat) (i depth : Z) (first : bool) (o : option Z) (ps : list Z) : Prop :=
  match k with
  | O => o = Some depth /\ ps = []
  | S _ => exists h kids, o = Some (Z.of_nat h) /\ (first = false -> depth = Z.of_nat h) /\ ps = concat kids /\
      Forall2 (fun i ks => exists c, child_pointer bt i = Ok c /\ ptr_ok a0 c Ptrmap.Btree p /\ tree_refs a0 h false c ks) (seqZ i (Z.of_nat k)) kids
  end.

Lemma kids_ok_cons bt p k i depth first o h c ks ps : 0 <= i -> child_pointer bt i = Ok c -> ptr_ok a0 c Ptrmap.Btree p -> tree_refs a0 h false c ks ->
  (first = false -> depth = Z.of_nat h) -> kids_ok bt p k (i + 1) (Z.of_nat h) false o ps -> kids_ok bt p (S k) i depth first o (ks ++ ps).
Proof using Type.
  intros Hi Hc Hptr Ht Hd Hk. cbn [kids_ok]. rewrite (seqZ_cons i) by lia. replace (Z.pred (Z.of_nat (S k))) with (Z.of_nat k) by lia. rewrite <- Z.add_1_r. destruct k as [|k].
  - destruct Hk as [-> ->]. exists h, [ks]. split_and!; try done. constructor; [by exists c|constructor].
  - destruct Hk as (h' & kids & -> & Hh & -> & Hkids). assert (h' = h) as -> by (specialize (Hh eq_refl); lia). exists h, (ks :: kids). split_and!; try done.
    constructor; [by exists c|done].
Qed.

Lemma children_loop_run wlk fuel page bt p label : Pager.src_page src p = Ok page -> BtPage.parse page = Ok bt ->
  (forall c st M, 0 <= c -> marks st.1 M -> n_page a0 - zlen M < fuel ->
     exists d st', wlk c st = Ok (d, st') /\ runs st st' M (fun ps => exists h, d = Z.of_nat h /\ tree_refs a0 h false c ps)) ->
  forall k i depth first st M, 0 <= i -> marks st.1 M -> n_page a0 - zlen M < fuel ->
  exists o st', children_loop wlk k i bt p label depth first st = Ok (o, st') /\ runs st st' M (kids_ok bt p k i depth first o).
Proof.
  intros Hpg Ebt Hw. destruct (safe_Ok _ _ _ (parse_wf page (Pager.src_bytes _ _ Hpg)) Ebt) as [Hwf _].
  induction k as [|k IH]; intros i depth first st M Hi Hm Hf; cbn [children_loop]; [eexists _, _; split; [done|by apply runs_stay]|].
  destruct (full st.1 st.2) eqn:Efull. { eexists _, _. split; [done|]. apply (runs_fail []); [done|done|congruence]. }
  pose proof (child_pointer_safe bt i Hwf Hi) as Hcs. destruct (child_pointer bt i) as [c|e|] eqn:Ec; cbn [safe] in Hcs; [| |done].
  2: { set (st1 := (st.1, push _ _ _)). assert (marks st1.1 M) as Hm1 by done. destruct (IH (i + 1) depth first st1 M ltac:(lia) Hm1 Hf) as (o & st2 & -> & Hr). eexists _, _. split; [done|].
       eapply (runs_after st st1 st2 M False); [done|done|apply push_prefix| |exact Hr|done]. intros Hfu Eq. by apply push_new in Eq. }
  destruct (av_run c Ptrmap.Btree p (label +:+ ": ") st M Hm ltac:(apply Hcs)) as (st1 & -> & Hm1 & Hp1 & Hc1). bind_step.
  destruct (Hw c st1 M ltac:(apply Hcs) Hm1 Hf) as (d2 & st2 & -> & [Hp2 (E & Hm2 & Hc2)]). bind_step.
  cbv zeta. set (st3 := if negb first && negb (d2 =? depth) then (st2.1, push st2.1 st2.2 (label +:+ ": Child page depth differs")) else st2).
  assert (marks st3.1 (E ++ M) /\ st2.2 `prefix_of` st3.2 /\ (full st2.1 st2.2 = false -> st3.2 = st2.2 -> first = false -> depth = d2)) as (Hm3 & Hp3 & Hc3).
  { unfold st3. destruct first, (Z.eqb_spec d2 depth); cbn [negb andb]; split_and!; try done. cbn [snd]. apply push_prefix. intros Hfu Eq. by apply push_new in Eq. }
  clearbody st3. destruct (IH (i + 1) d2 false st3 (E ++ M) ltac:(lia) Hm3) as (o & st4 & -> & Hr4); [rewrite zlen_app; pose proof (zlen_nonneg E); lia|].
  eexists _, _. split; [done|]. eapply (runs_after st st1 st4 M _ (fun ps => exists h ks qs, ps = ks ++ qs /\ tree_refs a0 h false c ks /\
    (first = false -> depth = Z.of_nat h) /\ kids_ok bt p k (i + 1) (Z.of_nat h) false o qs)); [exact Hm|exact Hm1|exact Hp1|exact Hc1| |].
  - apply (runs_seq st1 st2 st4 M E _ (fun qs => (first = false -> depth = d2) /\ kids_ok bt p k (i + 1) d2 false o qs) _ Hm1 Hm2 Hp2 Hc2).
    + eapply (runs_after st2 st3 st4 (E ++ M)); [exact Hm2|exact Hm3|exact Hp3|exact Hc3|exact Hr4|]. by intros ps H1 H2.
    + intros ps qs (h & -> & Ht) [H1 H2]. by exists h, ps, qs.
  - intros ps Hptr (h & ks & qs & -> & Ht & Hd & Hk). by apply (kids_ok_cons bt p k i depth first o h c).
Qed.

(** The pages below page [p] itself. *)
Definition page_refs (h : nat) (bt : BtreePage) (p : Z) (qs : list Z) : Prop :=
  exists cs, Forall2 (chain_of a0 bt p) (seqZ 0 (num_cells bt)) cs /\
    match h with
    | O => is_leaf (page_type bt) = true /\ qs = concat cs
    | S h => is_leaf (page_type bt) = false /\ exists kids,
        Forall2 (fun i ks => exists c, child_pointer bt i = Ok c /\ ptr_ok a0 c Ptrmap.Btree p /\ tree_refs a0 h false c ks) (seqZ 0 (num_cells bt + 1)) kids /\
        qs = concat cs ++ concat kids
    end.

Lemma tree_refs_page h is_root p page bt qs : Pager.src_page src p = Ok page -> BtPage.parse page = Ok bt ->
  (is_leaf (page_type bt) = true -> is_root = false -> num_cells bt <> 0) -> page_refs h bt p qs -> tree_refs a0 h is_root p (p :: qs).
Proof using Type.
  intros Hpg Ebt Hne (cs & Hcs & Hh). destruct h as [|h].
  - destruct Hh as [Hl ->]. exists page, bt, cs. split_and!; try done. by apply Hne.
  - destruct Hh as [Hl (kids & Hk & ->)]. exists page, bt, cs. split_and!; try done. by exists kids.
Qed.

Lemma page_run wlk fuel page bt p label st M : Pager.src_page src p = Ok page -> BtPage.parse page = Ok bt ->
  (forall c st M, 0 <= c -> marks st.1 M -> n_page a0 - zlen M < Z.of_nat fuel ->
     exists d st', wlk c st = Ok (d, st') /\ runs st st' M (fun ps => exists h, d = Z.of_nat h /\ tree_refs a0 h false c ps)) ->
  marks st.1 M -> n_page a0 - zlen M < Z.of_nat fuel ->
  exists d st', (let* (more, st) := cells_loop (Z.to_nat (num_cells bt)) (S fuel) 0 bt p label st in
    if negb more then Ok (0, st)
    else if is_leaf (page_type bt) then Ok (0, st)
    else
      let* (depth, st) := children_loop wlk (Z.to_nat (num_cells bt + 1)) 0 bt p label (-1) true st in
      match depth with None => Ok (0, st) | Some d => Ok (d + 1, st) end) = Ok (d, st') /\
    runs st st' M (fun qs => exists h, d = Z.of_nat h /\ page_refs h bt p qs).
Proof.
  intros Hpg Ebt Hw Hm Hf. destruct (safe_Ok _ _ _ (parse_wf page (Pager.src_bytes _ _ Hpg)) Ebt) as [(_ & _ & _ & [Hnc _] & _) _].
  destruct (cells_loop_run (S fuel) page bt p label Hpg Ebt (Z.to_nat (num_cells bt)) 0 st M) as (b & st1 & -> & Hr1); [lia|lia|done|lia|].
  bind_step. rewrite Z2Nat.id in Hr1 by lia. destruct b; cbn [negb]; [|eexists _, _; split; [done|]; eapply runs_impl; [|exact Hr1]; by intros ps [? _]].
  destruct (is_leaf (page_type bt)) eqn:El.
  { eexists _, _. split; [done|]. eapply runs_impl; [|exact Hr1]. intros ps (_ & cs & Hcs & ->). exists 0%nat. split; [done|]. by exists cs. }
  destruct Hr1 as [Hp1 (E & Hm1 & Hc1)].
  destruct (children_loop_run wlk (Z.of_nat fuel) page bt p label Hpg Ebt Hw (Z.to_nat (num_cells bt + 1)) 0 (-1) true st1 (E ++ M)) as (o & st2 & -> & Hr2);
    [lia|done|rewrite zlen_app; pose proof (zlen_nonneg E); lia|]. bind_step.
  assert (exists d, match o with None => Ok (0, st2) | Some d => Ok (d + 1, st2) end = Ok (d, st2) /\ forall x, o = Some x -> d = x + 1) as (d & -> & Hd).
  { destruct o; eexists; (split; [done|]); intros x [= <-]; done. }
  eexists _, _. split; [done|]. apply (runs_seq st st1 st2 M E _ _ _ Hm Hm1 Hp1 Hc1 Hr2). intros ps qs (_ & cs & Hcs & ->) Hk.
  destruct (Z.to_nat (num_cells bt + 1)) as [|k] eqn:Ek; [lia|]. destruct Hk as (h & kids & -> & _ & -> & Hkids).
  replace (Z.of_nat (S k)) with (num_cells bt + 1) in Hkids by lia.
  exists (S h). split; [rewrite (Hd _ eq_refl); lia|]. exists cs. split_and!; try done. by exists kids.
Qed.

Lemma walk_run label fuel : forall is_root p st M, 0 <= p -> marks st.1 M -> n_page a0 - zlen M < Z.of_nat fuel ->
  exists d st', walk fuel is_root label p st = Ok (d, st') /\ runs st st' M (fun ps => exists h, d = Z.of_nat h /\ tree_refs a0 h is_root p ps).
Proof.
  induction fuel as [|fuel IH]; intros is_root p st M Hp Hm Hf; [pose proof (marks_room _ _ Hm); lia|]. cbn [walk].
  destruct (full st.1 st.2) eqn:Efull. { eexists _, _. split; [done|]. apply (runs_fail []); [done|done|congruence]. }
  destruct (check_ref_run p (label +:+ ": ") st M Hm Hp) as (stop & st1 & -> & [(-> & Eq1 & Hm1 & Hr & Hnin)|(-> & msg & ->)]); bind_step.
  2: { eexists _, _. split; [done|]. by apply runs_push. }
  destruct (marks_static _ _ Hm1) as (_ & _ & _ & -> & _). pose proof (full_same st st1 M (p :: M) Hm Hm1 Eq1) as Efull1.
  assert (forall S msg, runs st (st1.1, push st1.1 st1.2 msg) M S) as Hfail.
  { intros S msg. apply (runs_fail [p]); [done|cbn [snd]; rewrite <- Eq1; apply push_prefix|]. cbn [snd]. rewrite <- Eq1. intros _. apply push_new. by rewrite Efull1. }
  destruct (Pager.src_page src p) as [page|e|] eqn:Epg; [|by eexists _, _|by apply Pager.src_no_panic in Epg].
  pose proof (parse_wf page (Pager.src_bytes _ _ Epg)) as Hwf. destruct (BtPage.parse page) as [bt|e|] eqn:Ebt; [|by eexists _, _|done]. clear Hwf.
  cbv zeta. set (st2 := if is_leaf (page_type bt) && negb is_root && (num_cells bt =? 0) then (st1.1, push st1.1 st1.2 (label +:+ ": empty non-root leaf page " +:+ pretty p)) else st1).
  assert (marks st2.1 (p :: M) /\ st1.2 `prefix_of` st2.2 /\ (full st1.1 st1.2 = false -> st2.2 = st1.2 -> is_leaf (page_type bt) = true -> is_root = false -> num_cells bt <> 0)) as (Hm2 & Hp2 & Hc2).
  { unfold st2. destruct (is_leaf (page_type bt)), is_root, (Z.eqb_spec (num_cells bt) 0); cbn [negb andb]; split_and!; try done. cbn [snd]. apply push_prefix. intros Hfu Eq. by apply push_new in Eq. }
  clearbody st2. destruct (page_run (walk fuel false label) fuel page bt p label st2 (p :: M) Epg Ebt) as (d & st3 & -> & Hr3); [intros c st' M'; apply IH|done|rewrite zlen_cons; lia|].
  eexists _, _. split; [done|]. apply (runs_seq st st1 st3 M [p] (fun ps => ps = [p]) (fun qs => exists h, d = Z.of_nat h /\ tree_refs a0 h is_root p (p :: qs))); try done.
  - by rewrite Eq1.
  - intros _ _. by exists [p].
  - eapply runs_after; [exact Hm1|exact Hm2|exact Hp2|exact Hc2|exact Hr3|]. intros qs Hne (h & -> & Hpr). exists h. split; [done|]. by apply (tree_refs_page h is_root p page bt).
  - by intros ps qs ->.
Qed.

(** ** No false alarms *)

(** Pages that can be marked: in the file, distinct, and not marked yet. *)
Definition fresh (M ps : list Z) : Prop := NoDup (ps ++ M) /\ Forall (fun p => 1 <= p <= n_page a0) ps.

Lemma fresh_app M ps qs : fresh M (ps ++ qs) -> fresh M ps /\ fresh (ps ++ M) qs.
Proof using Type.
  intros [Hnd [Hp Hq]%Forall_app]. rewrite <- app_assoc, Permutation_app_swap_app in Hnd. split; (split; [|done]); [|done].
  by apply NoDup_app in Hnd as (_ & _ & ?).
Qed.

Lemma check_ref_clean p prefix st M : marks st.1 M -> fresh M [p] -> exists a', check_ref p prefix st = Ok (false, (a', st.2)) /\ marks a' (p :: M).
Proof using Type.
  intros Hm [[Hnin _]%NoDup_cons [Hr _]%Forall_cons]. destruct (check_ref_run p prefix st M Hm ltac:(lia)) as (stop & [a' l] & E & _).
  destruct st as [a l']. cbn [fst snd] in *. unfold check_ref in *. destruct (marks_static a M Hm) as (_ & -> & _).
  destruct (Z.eqb_spec p 0); [lia|]. destruct (Z.ltb_spec (n_page a0) p); [lia|]. cbn [orb]. pose proof Hm as (r & _ & _ & _ & _ & Hg).
  rewrite (Hg p) by lia. bind_step. rewrite bool_decide_false by done. destruct (set_marks a M p Hm Hr Hnin) as (a'' & -> & Hm'). bind_step. by exists a''.
Qed.

Lemma av_clean key ty parent prefix st M : marks st.1 M -> ptr_ok a0 key ty parent -> av_ptrmap key ty parent prefix st = Ok st.
Proof using Type.
  intros Hm Hp. unfold av_ptrmap, ptr_ok in *. destruct (marks_static _ _ Hm) as (_ & _ & _ & _ & E & Eg). rewrite E in *. destruct (auto_vacuum a0); [|done].
  destruct st as [a l]. unfold check_ptrmap. cbn [fst] in Eg. rewrite Eg, Hp by done. bind_step. by rewrite !Z.eqb_refl.
Qed.

Lemma leaf_loop_clean dat prefix : forall k i ls st M, marks st.1 M -> ls = (fun j => be_u32 dat (8 + j * 4)) <$> seqZ i (Z.of_nat k) ->
  fresh M ls -> Forall (fun l => ptr_ok a0 l Ptrmap.FreePage 0) ls ->
  exists a', leaf_loop k i dat prefix st = Ok (a', st.2) /\ marks a' (ls ++ M).
Proof using Type.
  induction k as [|k IH]; intros i ls st M Hm ->; cbn [leaf_loop].
  { intros _ _. exists st.1. by destruct st. }
  rewrite (seqZ_cons i) by lia. replace (Z.pred (Z.of_nat (S k))) with (Z.of_nat k) by lia. rewrite <- Z.add_1_r. intros Hfr [Hptr Hall]%Forall_cons.
  destruct (fresh_app M [be_u32 dat (8 + i * 4)] _ Hfr) as [H1 H2]. rewrite (av_clean _ _ _ _ st M Hm Hptr). bind_step.
  destruct (check_ref_clean _ prefix st M Hm H1) as (a1 & -> & Hm1). bind_step. destruct (IH (i + 1) _ (a1, st.2) _ Hm1 eq_refl H2 Hall) as (a2 & -> & Hm2). exists a2. split; [done|].
  eapply marks_perm; [|exact Hm2]. rewrite fmap_cons. symmetry. apply Permutation_middle.
Qed.

Lemma list_step_clean is_freelist p n n' dat qs prefix st M : is_bytes dat -> marks st.1 M -> step_ok is_freelist p n n' dat qs -> fresh M qs ->
  exists a', list_step is_freelist p n dat prefix st = Ok (n', (a', st.2)) /\ marks a' (qs ++ M).
Proof using Hu.
  intros Hd Hm Hs Hfr. unfold list_step. destruct is_freelist; cbn [step_ok] in Hs.
  - destruct Hs as (-> & Hle & Hptr & Hall & ->). rewrite (av_clean _ _ _ _ st M Hm Hptr). bind_step. destruct (marks_static _ _ Hm) as (_ & _ & -> & _).
    pose proof (be_u32_nonneg dat 4 Hd) as [Hz _]. unfold Ptrmap.sub_u32. destruct (Z.ltb_spec (usable a0 / 4) 2); [lia|]. bind_step. destruct (Z.ltb_spec (usable a0 / 4 - 2) (be_u32 dat 4)); [lia|].
    destruct (leaf_loop_clean dat prefix (Z.to_nat (be_u32 dat 4)) 0 (Forest.trunk_leaves dat) st M Hm) as (a' & -> & Hm'); [by rewrite Z2Nat.id by lia|done|done|]. bind_step. by exists a'.
  - destruct Hs as (-> & Hptr & ->). exists st.1. split; [|done]. destruct (Z.ltb_spec 0 n); [rewrite (av_clean _ _ _ _ st M Hm (Hptr ltac:(lia)))|]; bind_step; by destruct st.
Qed.

Lemma list_ok_inv is_freelist p n ps : list_ok is_freelist p n ps -> p = 0 /\ n = 0 /\ ps = [] \/
  p <> 0 /\ exists page n' qs rest, Pager.src_page src p = Ok page /\ step_ok is_freelist p (n - 1) n' (Pager.data page) qs /\
    list_ok is_freelist (be_u32 (Pager.data page) 0) n' rest /\ ps = p :: qs ++ rest.
Proof using Type.
  destruct is_freelist; cbn [list_ok].
  - intros [|p' n' page qs Hp Hpg Hle Hptr Hall Hl]; [by left|right]. split; [done|]. exists page, (n' - 1 - be_u32 (Pager.data page) 4), (Forest.trunk_leaves (Pager.data page)), qs. by split_and!.
  - intros [|p' n' page qs Hp Hpg Hptr Hl]; [by left|right]. split; [done|]. exists page, (n' - 1), [], qs. by split_and!.
Qed.

Lemma list_loop_clean is_freelist prefix fuel : forall p n ps st M, marks st.1 M -> full st.1 st.2 = false -> list_ok is_freelist p n ps -> fresh M ps ->
  (length ps < fuel)%nat -> exists a', list_loop fuel is_freelist p n prefix st = Ok (0, (a', st.2)) /\ marks a' (ps ++ M).
Proof.
  induction fuel as [|fuel IH]; intros p n ps st M Hm Hfull Hl Hfr Hf; [lia|]. cbn [list_loop]. rewrite Hfull.
  destruct (list_ok_inv is_freelist p n ps Hl) as [(-> & -> & ->)|(Hp0 & page & n' & qs & rest & Hpg & Hs & Hl' & ->)].
  { exists st.1. split; [by destruct st|done]. }
  destruct (Z.eqb_spec p 0); [done|]. cbn [orb]. destruct (fresh_app M [p] _ Hfr) as [H1 H2]. destruct (fresh_app _ _ _ H2) as [H3 H4].
  destruct (check_ref_clean p prefix st M Hm H1) as (a1 & -> & Hm1). bind_step. cbn [fst snd]. destruct (marks_static _ _ Hm1) as (_ & _ & _ & -> & _). rewrite Hpg.
  destruct (list_step_clean is_freelist p (n - 1) n' (Pager.data page) qs prefix (a1, st.2) _ (Pager.src_bytes _ _ Hpg) Hm1 Hs H3) as (a2 & -> & Hm2). bind_step. cbn [snd].
  destruct (IH (be_u32 (Pager.data page) 0) n' rest (a2, st.2) _ Hm2) as (a3 & -> & Hm3); try done.
  { by rewrite (full_same st (a2, st.2) _ _ Hm Hm2). } { simpl in Hf. rewrite length_app in Hf. lia. }
  exists a3. split; [done|]. eapply marks_perm; [|exact Hm3].
  by rewrite Permutation_app_swap_app, (app_assoc qs rest), <- Permutation_middle.
Qed.

Lemma fresh_room a M ps : marks a M -> fresh M ps -> zlen ps <= n_page a0 - zlen M.
Proof using Hn0.
  intros (r & _ & _ & _ & Hr & _) [Hnd Hp]. assert (length (ps ++ M) <= length (seqZ 1 (n_page a0)))%nat as Hl.
  { apply submseteq_length, NoDup_submseteq; [done|]. intros p Hin. assert (1 <= p <= n_page a0) as ?; [|apply elem_of_seqZ; lia].
    revert p Hin. apply Forall_forall. by apply Forall_app_2. }
  rewrite length_app, length_seqZ in Hl. unfold zlen. lia.
Qed.

Lemma check_list_clean fuel is_freelist first expected ps prefix st M : marks st.1 M -> full st.1 st.2 = false -> list_ok is_freelist first expected ps -> fresh M ps ->
  n_page a0 - zlen M < Z.of_nat fuel -> exists a', check_list fuel is_freelist first expected prefix st = Ok (a', st.2) /\ marks a' (ps ++ M).
Proof.
  intros Hm Hfull Hl Hfr Hf. pose proof (fresh_room _ _ _ Hm Hfr) as Hroom. unfold check_list.
  destruct (list_loop_clean is_freelist prefix fuel first expected ps st M Hm Hfull Hl Hfr) as (a' & -> & Hm'); [unfold zlen in *; lia|]. bind_step. by exists a'.
Qed.

Lemma cell_step_clean fuel bt p i ps label st M : marks st.1 M -> full st.1 st.2 = false -> chain_of a0 bt p i ps -> fresh M ps -> n_page a0 - zlen M < Z.of_nat fuel ->
  exists a', cell_step fuel i bt p label st = Ok (a', st.2) /\ marks a' (ps ++ M).
Proof.
  intros Hm Hfull Hc Hfr Hf. unfold cell_step, Forest.chain_of in *. destruct (marks_static _ _ Hm) as (_ & _ & -> & _).
  assert (ps = [] -> exists a', Ok st = Ok (a', st.2) /\ marks a' (ps ++ M)) as Hstay by (intros ->; exists st.1; by destruct st).
  destruct (cell_payload bt i (usable a0)) as [[c|e|]|]; [|done|done|by apply Hstay]. destruct (overflow c =? 0); [by apply Hstay|].
  destruct Hc as (e & -> & Hptr & Hl). bind_step. rewrite (av_clean _ _ _ _ st M Hm Hptr). bind_step. by apply (check_list_clean fuel false).
Qed.

Lemma cells_loop_clean fuel bt p label : forall k i cs st M, marks st.1 M -> full st.1 st.2 = false -> Forall2 (chain_of a0 bt p) (seqZ i (Z.of_nat k)) cs ->
  fresh M (concat cs) -> n_page a0 - zlen M < Z.of_nat fuel ->
  exists a', cells_loop k fuel i bt p label st = Ok (true, (a', st.2)) /\ marks a' (concat cs ++ M).
Proof.
  induction k as [|k IH]; intros i cs st M Hm Hfull Hcs Hfr Hf; cbn [cells_loop].
  { apply Forall2_nil_inv_l in Hcs as ->. exists st.1. by destruct st. }
  rewrite Hfull. rewrite (seqZ_cons i) in Hcs by lia. replace (Z.pred (Z.of_nat (S k))) with (Z.of_nat k) in Hcs by lia. rewrite <- Z.add_1_r in Hcs.
  apply Forall2_cons_inv_l in Hcs as (ps & cs' & Hps & Hcs & ->). cbn [concat] in *. destruct (fresh_app _ _ _ Hfr) as [H1 H2].
  destruct (cell_step_clean fuel bt p i ps label st M Hm Hfull Hps H1 Hf) as (a1 & -> & Hm1). bind_step.
  destruct (IH (i + 1) cs' (a1, st.2) _ Hm1) as (a2 & -> & Hm2); try done; [by rewrite (full_same st (a1, st.2) _ _ Hm Hm1)|rewrite zlen_app; pose proof (zlen_nonneg ps); lia|].
  exists a2. split; [done|]. eapply marks_perm; [|exact Hm2]. by rewrite Permutation_app_swap_app, <- app_assoc.
Qed.

Lemma children_loop_clean wlk fuel bt p label h :
  (forall c ks st M, marks st.1 M -> full st.1 st.2 = false -> tree_refs a0 h false c ks -> fresh M ks -> n_page a0 - zlen M < fuel ->
     exists a', wlk c st = Ok (Z.of_nat h, (a', st.2)) /\ marks a' (ks ++ M)) ->
  forall k i depth first kids st M, marks st.1 M -> full st.1 st.2 = false -> (first = false -> depth = Z.of_nat h) ->
  Forall2 (fun i ks => exists c, child_pointer bt i = Ok c /\ ptr_ok a0 c Ptrmap.Btree p /\ tree_refs a0 h false c ks) (seqZ i (Z.of_nat k)) kids ->
  fresh M (concat kids) -> n_page a0 - zlen M < fuel ->
  exists a', children_loop wlk k i bt p label depth first st = Ok (Some (match k with O => depth | _ => Z.of_nat h end), (a', st.2)) /\ marks a' (concat kids ++ M).
Proof using Type.
  intros Hw. induction k as [|k IH]; intros i depth first kids st M Hm Hfull Hd Hkids Hfr Hf; cbn [children_loop].
  { apply Forall2_nil_inv_l in Hkids as ->. exists st.1. by destruct st. }
  rewrite Hfull. rewrite (seqZ_cons i) in Hkids by lia. replace (Z.pred (Z.of_nat (S k))) with (Z.of_nat k) in Hkids by lia. rewrite <- Z.add_1_r in Hkids.
  apply Forall2_cons_inv_l in Hkids as (ks & kids' & (c & -> & Hptr & Ht) & Hkids & ->). cbn [concat] in *. destruct (fresh_app _ _ _ Hfr) as [H1 H2].
  rewrite (av_clean _ _ _ _ st M Hm Hptr). bind_step. destruct (Hw c ks st M Hm Hfull Ht H1 Hf) as (a1 & -> & Hm1). bind_step. cbv zeta.
  assert (negb first && negb (Z.of_nat h =? depth) = false) as ->.
  { destruct first; [done|]. rewrite Hd by done. by rewrite Z.eqb_refl. }
  destruct (IH (i + 1) (Z.of_nat h) false kids' (a1, st.2) _ Hm1) as (a2 & -> & Hm2); try done; [by rewrite (full_same st (a1, st.2) _ _ Hm Hm1)|rewrite zlen_app; pose proof (zlen_nonneg ks); lia|].
  exists a2. split; [by destruct k|]. eapply marks_perm; [|exact Hm2]. by rewrite Permutation_app_swap_app, <- app_assoc.
Qed.

Lemma tree_refs_inv h is_root p ps : tree_refs a0 h is_root p ps -> exists page bt qs, Pager.src_page src p = Ok page /\ BtPage.parse page = Ok bt /\
  is_leaf (page_type bt) && negb is_root && (num_cells bt =? 0) = false /\ page_refs h bt p qs /\ ps = p :: qs.
Proof using Type.
  destruct h as [|h]; cbn [tree_refs].
  - intros (page & bt & cs & Hpg & Ebt & Hcs & Hl & Hne & ->). exists page, bt, (concat cs). split_and!; try done; [|by exists cs].
    rewrite Hl. destruct is_root; [done|]. cbn. by apply Z.eqb_neq, Hne.
  - intros (page & bt & cs & Hpg & Ebt & Hcs & Hl & kids & Hk & ->). exists page, bt, (concat cs ++ concat kids). split_and!; try done; [by rewrite Hl|].
    exists cs. split_and!; try done. by exists kids.
Qed.

Lemma walk_clean label h : forall fuel is_root p ps st M, marks st.1 M -> full st.1 st.2 = false -> tree_refs a0 h is_root p ps -> fresh M ps ->
  n_page a0 - zlen M < Z.of_nat fuel -> exists a', walk fuel is_root label p st = Ok (Z.of_nat h, (a', st.2)) /\ marks a' (ps ++ M).
Proof.
  induction h as [|h IH]; intros [|fuel] is_root p ps st M Hm Hfull Ht Hfr Hf; try (pose proof (marks_room _ _ Hm); lia); cbn [walk]; rewrite Hfull;
    destruct (tree_refs_inv _ _ _ _ Ht) as (page & bt & qs & Hpg & Ebt & Hne & (cs & Hcs & Hh) & ->).
  all: destruct (safe_Ok _ _ _ (parse_wf page (Pager.src_bytes _ _ Hpg)) Ebt) as [(_ & _ & _ & [Hnc _] & _) _].
  all: destruct (fresh_app M [p] qs Hfr) as [H1 H2]; destruct (check_ref_clean p (label +:+ ": ") st M Hm H1) as (a1 & -> & Hm1); bind_step; cbn [fst snd].
  all: destruct (marks_static _ _ Hm1) as (_ & _ & _ & -> & _); rewrite Hpg, Ebt, Hne; cbv zeta.
  all: assert (n_page a0 - zlen ([p] ++ M) < Z.of_nat fuel) as Hf1 by (rewrite zlen_app; change (zlen [p]) with 1; lia).
  all: pose proof (full_same st (a1, st.2) _ _ Hm Hm1 eq_refl) as Hfull1; rewrite Hfull in Hfull1.
  - destruct Hh as [Hl ->]. destruct (cells_loop_clean (S fuel) bt p label (Z.to_nat (num_cells bt)) 0 cs (a1, st.2) ([p] ++ M)) as (a2 & -> & Hm2); try done; [by rewrite Z2Nat.id by lia|lia|].
    bind_step. cbn [negb snd]. rewrite Hl. exists a2. split; [done|]. eapply marks_perm; [|exact Hm2]. symmetry. apply Permutation_middle.
  - destruct Hh as [Hl (kids & Hk & ->)]. destruct (fresh_app _ _ _ H2) as [H3 H4].
    destruct (cells_loop_clean (S fuel) bt p label (Z.to_nat (num_cells bt)) 0 cs (a1, st.2) ([p] ++ M)) as (a2 & -> & Hm2); try done; [by rewrite Z2Nat.id by lia|lia|].
    bind_step. cbn [negb snd]. rewrite Hl.
    destruct (children_loop_clean (walk fuel false label) (Z.of_nat fuel) bt p label h) with (k := Z.to_nat (num_cells bt + 1)) (i := 0) (depth := -1) (first := true) (kids := kids)
      (st := (a2, st.2)) (M := concat cs ++ [p] ++ M) as (a3 & -> & Hm3); try done.
    { intros c ks st' M' H5 H6 H7 H8 H9. by apply (IH fuel false c ks st' M'). }
    { by rewrite (full_same st (a2, st.2) _ _ Hm Hm2). }
    { by rewrite Z2Nat.id by lia. }
    { rewrite zlen_app. pose proof (zlen_nonneg (concat cs)). lia. }
    bind_step. exists a3. split; [destruct (Z.to_nat (num_cells bt + 1)) eqn:E; [lia|]; do 2 f_equal; lia|]. eapply marks_perm; [|exact Hm3].
    cbn [app]. by rewrite Permutation_app_swap_app, (app_assoc (concat cs)), <- Permutation_middle.
Qed.

(** ** The whole check *)

Lemma check_tree_run fuel root label (st : State) M : 0 <= root -> marks st.1 M -> n_page a0 - zlen M < Z.of_nat fuel ->
  exists st', check_tree fuel root label st = Ok st' /\ runs st st' M (root_refs a0 root).
Proof.
  intros Hr Hm Hf. unfold check_tree, Forest.root_refs.
  assert (exists st1, (if auto_vacuum st.1 && (1 <? root) then check_ptrmap root Ptrmap.RootPage 0 (label +:+ ": ") st else Ok st) = Ok st1 /\ marks st1.1 M /\
    st.2 `prefix_of` st1.2 /\ (full st.1 st.2 = false -> st1.2 = st.2 -> 1 < root -> ptr_ok a0 root Ptrmap.RootPage 0)) as (st1 & -> & Hm1 & Hp1 & Hc1).
  { destruct (av_run root Ptrmap.RootPage 0 (label +:+ ": ") st M Hm Hr) as (st1 & E & Hm1 & Hp1 & Hc1). unfold av_ptrmap in E.
    destruct (Z.ltb_spec 1 root).
    - rewrite andb_true_r. exists st1. split_and!; try done. intros Hfu Eq _. by apply Hc1.
    - rewrite andb_false_r. exists st. split_and!; try done. lia. }
  bind_step. destruct (walk_run label fuel true root st1 M Hr Hm1 Hf) as (d & st2 & -> & Hr2). bind_step. exists st2. split; [done|].
  eapply runs_after; [exact Hm|exact Hm1|exact Hp1|exact Hc1|exact Hr2|]. intros ps Hptr (h & _ & Ht). split; [done|by exists h].
Qed.

Lemma check_trees_run fuel roots : forall st M, Forall (fun r : Z * string => 0 <= r.1) roots -> marks st.1 M -> n_page a0 - zlen M < Z.of_nat fuel ->
  exists st', check_trees fuel roots st = Ok st' /\ runs st st' M (fun ps => exists trees, Forall2 (root_refs a0) roots.*1 trees /\ ps = concat trees).
Proof.
  induction roots as [|[r label] roots IH]; intros st M Hr Hm Hf; cbn [check_trees].
  { exists st. split; [done|]. apply runs_stay; [done|]. exists []. by split; [constructor|]. }
  apply Forall_cons in Hr as [Hr Hrs]. destruct (check_tree_run fuel r label st M Hr Hm Hf) as (st1 & -> & [Hp1 (E & Hm1 & Hc1)]). bind_step.
  destruct (IH st1 (E ++ M) Hrs Hm1) as (st2 & -> & Hr2); [rewrite zlen_app; pose proof (zlen_nonneg E); lia|]. exists st2. split; [done|].
  apply (runs_seq st st1 st2 M E _ _ _ Hm Hm1 Hp1 Hc1 Hr2). intros ps qs Hps (trees & Ht & ->). exists (ps :: trees). split; [by constructor|done].
Qed.

Lemma check_trees_clean fuel roots : forall trees (st : State) M, marks st.1 M -> full st.1 st.2 = false -> Forall2 (root_refs a0) roots.*1 trees -> fresh M (concat trees) ->
  n_page a0 - zlen M < Z.of_nat fuel -> exists a', check_trees fuel roots st = Ok (a', st.2) /\ marks a' (concat trees ++ M).
Proof.
  induction roots as [|[r label] roots IH]; intros trees st M Hm Hfull Ht Hfr Hf; cbn [check_trees].
  { apply Forall2_nil_inv_l in Ht as ->. exists st.1. by destruct st. }
  apply Forall2_cons_inv_l in Ht as (ps & trees' & [Hptr (h & Ht)] & Hts & ->). cbn [concat] in *. destruct (fresh_app _ _ _ Hfr) as [H1 H2]. unfold check_tree.
  assert ((if auto_vacuum st.1 && (1 <? r) then check_ptrmap r Ptrmap.RootPage 0 (label +:+ ": ") st else Ok st) = Ok st) as ->.
  { destruct (Z.ltb_spec 1 r) as [H1r|]; [|by rewrite andb_false_r]. rewrite andb_true_r. exact (av_clean r Ptrmap.RootPage 0 (label +:+ ": ") st M Hm (Hptr H1r)). }
  bind_step. destruct (walk_clean label h fuel true r ps st M Hm Hfull Ht H1 Hf) as (a1 & -> & Hm1). do 2 bind_step.
  destruct (IH trees' (a1, st.2) _ Hm1) as (a2 & -> & Hm2); try done; [by rewrite (full_same st (a1, st.2) _ _ Hm Hm1)|rewrite zlen_app; pose proof (zlen_nonneg ps); lia|].
  exists a2. split; [done|]. eapply marks_perm; [|exact Hm2]. by rewrite Permutation_app_swap_app, <- app_assoc.
Qed.

(** The final sweep agrees with the marks. *)
Lemma sweep_run M : forall pgs (st : State), marks st.1 M -> Forall (fun p => 1 <= p <= n_page a0) pgs ->
  exists l, sweep pgs st = Ok (st.1, l) /\ st.2 `prefix_of` l /\ (full st.1 st.2 = false -> l = st.2 <-> forall p, p ∈ pgs -> p ∈ M <-> ~ map_page a0 p).
Proof.
  induction pgs as [|p pgs IH]; intros st Hm Hr; cbn [sweep].
  { exists st.2. split_and!; [by destruct st|done|]. intros _. split; [|done]. intros _ p Hp. by apply elem_of_nil in Hp. }
  destruct (full st.1 st.2) eqn:Efull. { exists st.2. split_and!; [by destruct st|done|done]. }
  apply Forall_cons in Hr as [Hp Hr]. pose proof Hm as (r & _ & _ & _ & _ & Hg). rewrite (Hg p) by lia. bind_step.
  destruct (marks_static _ _ Hm) as (_ & _ & Eus & _ & Eav & _).
  assert (exists b, (if auto_vacuum st.1 then Ptrmap.is_ptrmap_page (wrap 32 (usable st.1)) p else Ok false) = Ok b /\ (b = true <-> map_page a0 p)) as (b & -> & Hb).
  { unfold map_page. rewrite Eav, Eus. destruct (auto_vacuum a0); [|by exists false; split; [|split; [done|intros [? _]]]].
    assert (exists b, Ptrmap.is_ptrmap_page (wrap 32 (usable a0)) p = Ok b) as [b Eb].
    { unfold Ptrmap.is_ptrmap_page. rewrite wrap_small by (unfold is_uint; lia). destruct (Z.ltb_spec p 2); [by eexists|].
      destruct (Ptrmap.ptrmap_pageno_spec (usable a0) p ltac:(lia) ltac:(lia)) as (q & _ & -> & _). bind_step. by eexists. }
    rewrite Eb. exists b. split; [done|]. split; [by intros ->|]. by intros [_ [= ->]]. }
  bind_step.
  assert (forall l0, st.2 `prefix_of` l0 -> exists l, sweep pgs (st.1, l0) = Ok (st.1, l) /\ l0 `prefix_of` l /\
    (l0 = st.2 -> l = l0 <-> forall p, p ∈ pgs -> p ∈ M <-> ~ map_page a0 p)) as Hnext.
  { intros l0 Hl0. destruct (IH (st.1, l0) Hm Hr) as (l & E & Hpre & Hiff). exists l. split_and!; try done. intros ->. by apply Hiff. }
  assert (forall msg : string, exists l, sweep pgs (st.1, st.2 ++ [msg]) = Ok (st.1, l) /\ st.2 `prefix_of` l /\ l <> st.2) as Hbad.
  { intros msg. destruct (Hnext (st.2 ++ [msg])) as (l & -> & Hpre & _); [by apply prefix_app_r|]. exists l. split_and!; [done|etrans; [|exact Hpre]; by apply prefix_app_r|].
    intros ->. apply prefix_length in Hpre. rewrite length_app in Hpre. simpl in Hpre. lia. }
  destruct (bool_decide_reflect (p ∈ M)) as [Hin|Hnin], b; cbn [negb andb].
  - destruct (Hbad ("Page " +:+ pretty p +:+ ": pointer map referenced")) as (l & -> & Hpre & Hne). exists l. split_and!; try done. intros _. split; [done|].
    intros Hall. destruct (Hall p ltac:(by left)) as [H1 _]. destruct (H1 Hin). by apply Hb.
  - destruct (Hnext st.2 ltac:(done)) as (l & -> & Hpre & Hiff). exists l. split_and!; try done. intros _. rewrite Hiff by done. split.
    + intros Hall q [->|Hq]%elem_of_cons; [|by apply Hall]. split; [|done]. intros _ Hm'. apply Hb in Hm'. done.
    + intros Hall q Hq. apply Hall. by right.
  - destruct (Hnext st.2 ltac:(done)) as (l & -> & Hpre & Hiff). exists l. split_and!; try done. intros _. rewrite Hiff by done. split.
    + intros Hall q [->|Hq]%elem_of_cons; [|by apply Hall]. split; [done|]. intros Hm'. destruct Hm'. by apply Hb.
    + intros Hall q Hq. apply Hall. by right.
  - destruct (Hbad ("Page " +:+ pretty p +:+ ": never used")) as (l & -> & Hpre & Hne). exists l. split_and!; try done. intros _. split; [done|].
    intros Hall. destruct (Hall p ltac:(by left)) as [_ H1]. destruct Hnin. apply H1. intros Hm'. apply Hb in Hm'. done.
Qed.

Lemma header_run max_root (st : State) M : marks st.1 M ->
  let st' := check_rootpage_header max_root st in
  st'.1 = st.1 /\ st.2 `prefix_of` st'.2 /\
  (full st.1 st.2 = false -> st'.2 = st.2 <-> if auto_vacuum a0 then max_root = largest_root_page a0 else incremental_vacuum a0 = 0).
Proof using Type.
  intros Hm. destruct st as [a l]. cbn [fst snd] in *. pose proof Hm as (r & Ea & _). unfold check_rootpage_header.
  assert (auto_vacuum a = auto_vacuum a0 /\ largest_root_page a = largest_root_page a0 /\ incremental_vacuum a = incremental_vacuum a0) as (-> & -> & ->) by (by rewrite Ea).
  destruct (auto_vacuum a0); [destruct (Z.eqb_spec max_root (largest_root_page a0))|destruct (Z.eqb_spec (incremental_vacuum a0) 0)]; cbn [fst snd];
    (split_and!; [done|done || apply push_prefix|]); intros Hf; (split; [|done]); try done; intros E; by apply push_new in E.
Qed.

Lemma empty_not_full a M : marks a M -> full a [] = false.
Proof using Hmax. intros Hm. destruct (marks_static _ _ Hm) as (E & _). unfold full. rewrite E. apply Z.leb_gt. change (zlen []) with 0. lia. Qed.

Lemma prefix_nil (l : list string) : l `prefix_of` [] -> l = [].
Proof using Type. intros [k E]. by destruct l. Qed.

Lemma account_perm (l1 l2 l3 : list Z) : l1 ++ l2 ++ l3 ≡ₚ l3 ++ l2 ++ l1.
Proof using Type. rewrite (app_assoc l3), (Permutation_app_comm l3 l2). apply Permutation_app_comm. Qed.

Lemma account_sound fuel roots a : 0 <= freelist_trunk a0 -> Forall (fun r : Z * string => 0 <= r.1) roots -> marks a (pending a0) -> n_page a0 < Z.of_nat fuel ->
  exists l, account_pages fuel roots a = Ok l /\ (l = [] -> accounted a0 roots.*1).
Proof.
  intros Htr Hr Hm Hf. unfold account_pages, check_freelist. cbn [fst]. pose proof (zlen_nonneg (pending a0)) as Hz.
  assert (freelist_trunk a = freelist_trunk a0 /\ freelist_count a = freelist_count a0) as [-> ->] by (by destruct Hm as (r & -> & _)).
  destruct (check_list_run fuel true (freelist_trunk a0) (freelist_count a0) "Freelist: " (a, []) (pending a0) Htr Hm) as (st1 & -> & [Hp1 (E1 & Hm1 & Hc1)]); [lia|]. bind_step.
  destruct (header_run (fold_right Z.max 0 roots.*1) st1 _ Hm1) as (E2 & Hp2 & Hc2). set (st2 := check_rootpage_header _ _) in *. cbv zeta.
  assert (marks st2.1 (E1 ++ pending a0)) as Hm2 by (by rewrite E2).
  destruct (check_trees_run fuel roots st2 _ Hr Hm2) as (st3 & -> & [Hp3 (E3 & Hm3 & Hc3)]); [rewrite zlen_app; pose proof (zlen_nonneg E1); lia|]. bind_step.
  unfold check_never_used. destruct (marks_static _ _ Hm3) as (_ & -> & _).
  destruct (sweep_run _ (seqZ 1 (n_page a0)) st3 Hm3) as (l & -> & Hp4 & Hc4). { apply Forall_forall. intros p Hp%elem_of_seqZ. lia. }
  bind_step. exists l. split; [done|]. cbn [snd] in *. intros ->. apply prefix_nil in Hp4 as E4. rewrite E4 in *. apply prefix_nil in Hp3 as E5. rewrite E5 in *.
  apply prefix_nil in Hp2 as E6. rewrite E6 in *.
  pose proof (empty_not_full _ _ Hm) as F0. pose proof (empty_not_full _ _ Hm1) as F1. pose proof (empty_not_full _ _ Hm2) as F2. pose proof (empty_not_full _ _ Hm3) as F3.
  destruct (Hc1 F0 eq_refl) as (fl & Hfl & Pfl). destruct (Hc3 F2 eq_refl) as (ts & (trees & Ht & ->) & Pts). pose proof (proj1 (Hc2 F1) eq_refl) as Hhd. pose proof (proj1 (Hc4 F3) eq_refl) as Hsw.
  split; [done|]. exists fl, trees. pose proof (account_perm (pending a0) fl (concat trees)) as Hperm. rewrite Pts, Pfl in Hperm at 2.
  pose proof Hm3 as (r3 & _ & _ & Hnd & Hrg & _). split_and!; try done; [by rewrite Hperm|]. intros p. rewrite Hperm. split.
  - intros Hp. rewrite Forall_forall in Hrg. specialize (Hrg p Hp). split; [done|]. apply Hsw; [apply elem_of_seqZ; lia|done].
  - intros [Hp Hmap]. apply Hsw; [apply elem_of_seqZ; lia|done].
Qed.

Lemma account_complete fuel roots a : marks a (pending a0) -> n_page a0 < Z.of_nat fuel -> accounted a0 roots.*1 -> account_pages fuel roots a = Ok [].
Proof.
  intros Hm Hf (Hhd & fl & trees & Hfl & Ht & Hnd & Hall). unfold account_pages, check_freelist. cbn [fst]. pose proof (zlen_nonneg (pending a0)) as Hz.
  assert (freelist_trunk a = freelist_trunk a0 /\ freelist_count a = freelist_count a0) as [-> ->] by (by destruct Hm as (r & -> & _)).
  assert (fresh (pending a0) (fl ++ concat trees)) as Hfr.
  { split; [by rewrite Permutation_app_comm|]. apply Forall_forall. intros p Hp. apply Hall. apply elem_of_app. by right. }
  destruct (fresh_app _ _ _ Hfr) as [H1 H2].
  destruct (check_list_clean fuel true (freelist_trunk a0) (freelist_count a0) fl "Freelist: " (a, []) (pending a0)) as (a1 & -> & Hm1); try done; [by eapply empty_not_full|lia|]. bind_step.
  destruct (header_run (fold_right Z.max 0 roots.*1) (a1, []) _ Hm1) as (E2 & Hp2 & Hc2). set (st2 := check_rootpage_header _ _) in *. cbv zeta. cbn [fst snd] in *.
  apply Hc2 in Hhd as E3; [|by eapply empty_not_full]. destruct st2 as [a2 l2]. cbn [fst snd] in *. subst a2 l2.
  destruct (check_trees_clean fuel roots trees (a1, []) (fl ++ pending a0)) as (a2 & -> & Hm2); try done; [by eapply empty_not_full|rewrite zlen_app; pose proof (zlen_nonneg fl); lia|]. bind_step.
  unfold check_never_used. destruct (marks_static _ _ Hm2) as (_ & E & _). cbn [fst snd] in *. rewrite E.
  destruct (sweep_run _ (seqZ 1 (n_page a0)) (a2, []) Hm2) as (l & -> & _ & Hc4). { apply Forall_forall. intros p Hp%elem_of_seqZ. lia. }
  bind_step. cbn [fst snd] in *. f_equal. apply Hc4; [by eapply empty_not_full|]. intros p Hp%elem_of_seqZ.
  rewrite <- account_perm, Hall. split; [by intros [_ ?]|]. intros Hmap. split; [lia|done].
Qed.

End accounting.

(** No cell declares a payload that cannot be addressed. *)
Definition addressable (src : Pager.PageSource) : Prop :=
  forall n page bt i c, Pager.src_page src n = Ok page -> BtPage.parse page = Ok bt -> 0 <= i < num_cells bt ->
  cell_payload bt i (Pager.src_usable_size src) = Some (Ok c) -> total_len c <= Cursor.ISIZE_MAX.

Lemma src_usable_range (src : Pager.PageSource) `{Hsrc : !Pager.SourceOk src} : 257 <= Pager.src_usable_size src <= 65536.
Proof.
  rewrite Pager.src_usable. destruct (Pager.src_header_wf (s := src)) as [[Hp _] (_ & _ & Hr) _ _]. unfold Header.usable_size, is_uint in *. lia.
Qed.

Lemma header_fields_ok (src : Pager.PageSource) `{Hsrc : !Pager.SourceOk src} : exists fields, header_fields src = Ok fields /\ 0 <= fields.1.1.1.
Proof.
  unfold header_fields. destruct (Pager.src_page src 1) as [p|e|] eqn:E.
  - eexists. split; [done|]. cbn. apply be_u32_nonneg. by eapply Pager.src_bytes.
  - eexists. split; [done|]. cbn. destruct (Pager.src_header_wf (s := src)) as [_ _ _ Hw]. do 2 apply Forall_cons in Hw as [_ Hw]. by apply Forall_cons in Hw as [[? _] _].
  - by apply Pager.src_no_panic in E.
Qed.

(** A new accounting has the page of the lock bytes marked. *)
Lemma new_marks (src : Pager.PageSource) `{Hsrc : !Pager.SourceOk src} max_err fields : header_fields src = Ok fields -> 0 <= Pager.src_page_count src ->
  exists a, new src max_err = Ok a /\ marks (blank src max_err fields) a (pending (blank src max_err fields)).
Proof.
  intros Ef Hn. unfold new. rewrite Ef. bind_step. set (a0 := blank src max_err fields).
  assert (refs a0 = zrep (Pager.src_page_count src / 8 + 1) 0 /\ n_page a0 = Pager.src_page_count src /\ ac_src a0 = src) as (Er & En & Es) by (unfold a0; by destruct fields as [[[? ?] ?] ?]).
  assert (0 <= Pager.src_page_count src / 8) as Hq by (apply Z.div_pos; lia).
  assert (marks a0 a0 []) as Hm.
  { exists (refs a0). rewrite En. split_and!; [by destruct a0|rewrite Er, zlen_zrep; lia|constructor|constructor|]. intros p Hp. unfold get. rewrite Er.
    assert (idx (zrep (Pager.src_page_count src / 8 + 1) 0) (p / 8) = Ok 0) as ->.
    { apply idx_Ok. split; [apply Z.div_pos; lia|]. unfold zrep. apply lookup_replicate. split; [done|]. pose proof (Z.div_le_mono p (Pager.src_page_count src) 8 ltac:(lia) ltac:(lia)).
      pose proof (Z.div_pos p 8 ltac:(lia) ltac:(lia)). lia. }
    bind_step. rewrite Z.land_0_l. by rewrite bool_decide_false by apply not_elem_of_nil. }
  unfold pending. rewrite Es, En. set (pg := PENDING_BYTE / _ + 1). destruct (Z.leb_spec pg (Pager.src_page_count src)); [|by exists a0].
  assert (1 <= pg < 2 ^ 32) as Hpg.
  { unfold pg, PENDING_BYTE. pose proof (Z.div_pos 0x40000000 (Z.max (Header.page_size (Pager.src_header src)) 1) ltac:(lia) ltac:(lia)).
    pose proof (Z.div_le_upper_bound 0x40000000 (Z.max (Header.page_size (Pager.src_header src)) 1) 0x40000000 ltac:(lia) ltac:(lia)). lia. }
  rewrite wrap_small by (unfold is_uint; lia). destruct (set_marks a0 a0 [] pg Hm) as (a & Ea & Hma); [lia|apply not_elem_of_nil|]. by exists a.
Qed.

Lemma roots_nonneg objects : Forall (fun r : Z * string => 0 <= r.1) (roots_of objects).
Proof.
  unfold roots_of. constructor; [done|]. apply Forall_fmap, Forall_forall. intros o Ho. apply list_elem_of_filter in Ho as [Ho _]. cbn. lia.
Qed.

(** C7: the page accounting of the integrity check is exact. On every file,
    however damaged, whose cells declare addressable payloads, the pass ends
    without a crash, and it has nothing to report if and only if the free list
    has the recorded length, every tree of the catalog is well shaped with all
    its leaves at one depth, every overflow chain has the length its cell
    implies, and every page of the file is referenced by exactly one of them
    (the page of the lock bytes and pointer-map pages apart). *)
Theorem integrity_check_exact (src : Pager.PageSource) `{Hsrc : !Pager.SourceOk src} (fuel : nat) (max_err : Z) (objects : list Schema.SchemaObject)
    (Hn : 1 <= Pager.src_page_count src) (Hpay : addressable src) (Hmax : 0 < max_err) (Hf : Pager.src_page_count src < Z.of_nat fuel) :
  exists fields msgs, header_fields src = Ok fields /\ accounting fuel src max_err objects = Ok msgs /\
    (msgs = [] <-> accounted (blank src max_err fields) (roots_of objects).*1).
Proof.
  destruct (header_fields_ok src) as (fields & Ef & Ht). destruct (new_marks src max_err fields Ef ltac:(lia)) as (a & Ea & Hm).
  set (a0 := blank src max_err fields) in *. unfold accounting. destruct (Z.ltb_spec 0 (Pager.src_page_count src)); [|lia]. rewrite Ea. bind_step.
  assert (ac_src a0 = src /\ n_page a0 = Pager.src_page_count src /\ usable a0 = Pager.src_usable_size src /\ Integrity.max_err a0 = max_err /\ freelist_trunk a0 = fields.1.1.1)
    as (Es & En & Eu & Em & Et) by (unfold a0; by destruct fields as [[[? ?] ?] ?]).
  pose proof (src_usable_range src) as Hu. assert (Pager.SourceOk (ac_src a0)) as Hs0 by (by rewrite Es).
  assert (forall n page bt i c, Pager.src_page (ac_src a0) n = Ok page -> BtPage.parse page = Ok bt -> 0 <= i < num_cells bt ->
    cell_payload bt i (usable a0) = Some (Ok c) -> no_panic (expected_len (usable a0) c)) as Hp0.
  { rewrite Es, Eu. intros n page bt i c Hpg Ebt Hi Hc. pose proof (Hpay n page bt i c Hpg Ebt Hi Hc) as Hlen.
    destruct (safe_Ok _ _ _ (parse_wf page (Pager.src_bytes _ _ Hpg)) Ebt) as [Hw _].
    pose proof (cell_payload_safe a0 ltac:(lia) bt i Hw (proj1 Hi)) as Hsafe. rewrite Eu, Hc in Hsafe. destruct Hsafe as (_ & _ & Hl & _).
    unfold expected_len, sat_sub, Cursor.ISIZE_MAX, no_panic in *. destruct (Z.leb_spec (2 ^ 64) (Z.max 0 (total_len c - local_len c) + Z.max 0 (Pager.src_usable_size src - 5))); [lia|done]. }
  destruct (account_sound a0 ltac:(congruence) ltac:(lia) ltac:(lia) ltac:(lia) Hp0 fuel (roots_of objects) a) as (l & El & Hl); [lia|apply roots_nonneg|done|lia|].
  exists fields, l. split_and!; try done. split; [done|]. intros Hacc.
  pose proof (account_complete a0 ltac:(congruence) ltac:(lia) ltac:(lia) ltac:(lia) Hp0 fuel (roots_of objects) a Hm ltac:(lia) Hacc) as E. congruence.
Qed.

Definition demo_objects : list Schema.SchemaObject := [Schema.mkObject Schema.Table (Schema.str "t") (Schema.str "t") 2 None].

(** The table of the cursor examples: page one, a root and two leaves. *)
Lemma demo_addressable : addressable CursorProps.demo.
Proof.
  intros n page bt i c Hpg Ebt Hi Hc. pose proof (Pager.src_number _ _ Hpg) as [_ Hn]. change (Pager.src_page_count CursorProps.demo) with 4 in Hn.
  assert (forall n page, In n [1; 2; 3; 4] -> Pager.src_page CursorProps.demo n = Ok page -> BtPage.parse page = Ok bt ->
    In i [0] -> cell_payload bt i (Pager.src_usable_size CursorProps.demo) = Some (Ok c) -> total_len c <= Cursor.ISIZE_MAX) as Hall.
  { intros m pg Hm Em Eb Hi0 Ec. destruct Hi0 as [<-|[]]. repeat (destruct Hm as [<-|Hm]; [vm_compute in Em; injection Em as <-; vm_compute in Eb; injection Eb as <-; vm_compute in Ec;
      try discriminate Ec; injection Ec as <-; by vm_compute|]). done. }
  apply (Hall n page); try done; [simpl; lia|]. left.
  assert (num_cells bt <= 1) as Hb; [|lia]. clear Hc Hall.
  assert (forall n page, In n [1; 2; 3; 4] -> Pager.src_page CursorProps.demo n = Ok page -> BtPage.parse page = Ok bt -> num_cells bt <= 1) as Hall.
  { intros m pg Hm Em Eb. repeat (destruct Hm as [<-|Hm]; [vm_compute in Em; injection Em as <-; vm_compute in Eb; injection Eb as <-; by vm_compute|]). done. }
  apply (Hall n page); try done. simpl. lia.
Qed.

Lemma integrity_check_exact_witness : exists fields, header_fields CursorProps.demo = Ok fields /\
  accounting 6 CursorProps.demo 100 demo_objects = Ok [] /\ accounted (blank CursorProps.demo 100 fields) [1; 2].
Proof.
  destruct (integrity_check_exact CursorProps.demo 6 100 demo_objects) as (fields & msgs & Ef & E & Hiff).
  - vm_compute. done.
  - exact demo_addressable.
  - lia.
  - vm_compute. reflexivity.
  - assert (accounting 6 CursorProps.demo 100 demo_objects = Ok []) as E0 by (vm_compute; reflexivity).
    exists fields. split_and!; [exact Ef|exact E0|]. apply Hiff. rewrite E0 in E. by apply Ok_inj in E.
Defined.

(** The leaf claimed by two trees, and the page no tree reaches. *)
Example integrity_double : exists msg1 msg2, accounting 6 CursorProps.demo 100 (demo_objects ++ [Schema.mkObject Schema.Table (Schema.str "u") (Schema.str "u") 4 None]) = Ok [msg1] /\
  msg1 = "u: 2nd reference to page 4" /\ accounting 6 CursorProps.demo 100 [] = Ok ["Page 2: never used"; "Page 3: never used"; msg2] /\ msg2 = "Page 4: never used".
Proof. eexists _, _. split_and!; vm_compute; reflexivity. Qed.

(** A leaf whose only cell declares 2^64 - 1 bytes and has an overflow page. *)
Definition pg_top : bytes :=
  CursorProps.demo_page [(0, [13]); (3, [0; 1]); (8, [0; 12]); (12, [255; 255; 255; 255; 255; 255; 255; 255; 255; 1]); (22, zrep 490 1)].

(** A cell that declares a payload of 2^64 - 1 bytes overflows the
    arithmetic that computes the expected length of its chain: the integrity
    check of such a file does not return. *)
Theorem integrity_overflow : accounting 6 (CursorProps.list_source CursorProps.demo_hdr [CursorProps.pg1; pg_top]) 100 demo_objects = Panic.
Proof. vm_compute. reflexivity. Qed.

End IntegrityProps.
