(* ===== verification/WritePager.v ===== *)
(** The write pager ([src/src/pager/write.rs]) inside an open write transaction:
    the overlay of staged pages over the database file, page allocation and the
    free list, savepoints and rollback.

    The state is that of a [WritePager] that already holds its RESERVED lock in
    rollback-journal mode, so [acquire_write_intent] is a no-op and reads fall
    through to the main file. The clean read cache is left out: it only repeats
    the file's bytes ([pager_cache_transparent] of [Pager]). *)

From S2P Require Import Prelude Header Value Ptrmap Vfs.
Local Open Scope Z_scope.

Module WritePager.

Record Savepoint : Type := mkSavepoint {
  sp_name : bytes;
  sp_overlay : gmap Z bytes;
  sp_header : Header.DatabaseHeader;
  sp_page_count : Z
}.

Record WritePager : Type := mkWp {
  wp_file : bytes;
  wp_header : Header.DatabaseHeader;
  wp_committed_header : Header.DatabaseHeader;
  wp_page_size : Z;
  wp_disk_pages : Z;
  wp_page_count : Z;
  wp_overlay : gmap Z bytes;
  wp_savepoints : list Savepoint;
  wp_secure_delete : bool
}.

(** The staged part of the state, replaced field by field. *)
Definition set_staged (w : WritePager) (h : Header.DatabaseHeader) (pc : Z) (o : gmap Z bytes) : WritePager :=
  mkWp (wp_file w) h (wp_committed_header w) (wp_page_size w) (wp_disk_pages w) pc o
    (wp_savepoints w) (wp_secure_delete w).

Definition set_savepoints (w : WritePager) (s : list Savepoint) : WritePager :=
  mkWp (wp_file w) (wp_header w) (wp_committed_header w) (wp_page_size w) (wp_disk_pages w)
    (wp_page_count w) (wp_overlay w) s (wp_secure_delete w).

Definition set_overlay (w : WritePager) (n : Z) (d : bytes) : WritePager :=
  set_staged w (wp_header w) (wp_page_count w) (<[n := d]> (wp_overlay w)).

(** The two free-list fields of the header. *)
Definition with_freelist (h : Header.DatabaseHeader) (trunk count : Z) : Header.DatabaseHeader :=
  Header.mkHeader (Header.page_size h) (Header.write_version h) (Header.read_version h)
    (Header.reserved_space h) (Header.change_counter h) (Header.size_in_pages h) trunk count
    (Header.schema_cookie h) (Header.schema_format h) (Header.default_cache_size h)
    (Header.largest_root_page h) (Header.text_encoding h) (Header.user_version h)
    (Header.incremental_vacuum h) (Header.application_id h) (Header.version_valid_for h)
    (Header.sqlite_version_number h).

Definition set_freelist (w : WritePager) (trunk count : Z) : WritePager :=
  set_staged w (with_freelist (wp_header w) trunk count) (wp_page_count w) (wp_overlay w).

Definition usable_size (w : WritePager) : Z := Header.usable_size (wp_header w).

(** ** Pages *)

Definition read_page (w : WritePager) (number : Z) : res bytes :=
  match wp_overlay w !! number with
  | Some b => Ok b
  | None =>
      if (number =? 0) || (wp_disk_pages w <? number)
      then Err (ECorrupt ("page " +:+ fmt_Z number +:+ " out of range"))
      else Vfs.mem_read (wp_file w) (wp_page_size w) ((number - 1) * wp_page_size w)
  end.

Definition write_page (w : WritePager) (number : Z) (b : bytes) : res WritePager :=
  if negb (zlen b =? wp_page_size w) then Err (EError "page image has wrong size")
  else Ok (set_overlay w number b).

(** [header_mut]: stage page 1 if it can be read; the caller then changes the
    header. *)
Definition header_mut (w : WritePager) : WritePager :=
  match wp_overlay w !! 1 with
  | Some _ => w
  | None => match read_page w 1 with Ok p => set_overlay w 1 p | _ => w end
  end.

(** ** Allocation and the free list *)

Definition zero_page (w : WritePager) : bytes := zrep (wp_page_size w) 0.

(** [u32] increment, checked. *)
Definition u32_succ (z : Z) : res Z := if z + 1 <? 2 ^ 32 then Ok (z + 1) else Panic.

(** [put32]. *)
Definition put32 (b : bytes) (at_ v : Z) : res bytes := copy_at b at_ (be_bytes 4 v).

Definition PENDING_BYTE : Z := 1073741824.

Definition auto_vacuum_on (w : WritePager) : bool := negb (Header.largest_root_page (wp_header w) =? 0).

Definition is_reserved_layout_page (w : WritePager) (pgno usable : Z) : res bool :=
  let* m := Ptrmap.is_ptrmap_page usable pgno in
  if m then Ok true
  else
    let lock_page := wrap 32 (PENDING_BYTE / wp_page_size w) + 1 in
    Ok ((1 <? lock_page) && (pgno =? lock_page)).

Definition alloc_from_freelist (w : WritePager) : res (Z * WritePager) :=
  let trunk := Header.freelist_trunk (wp_header w) in
  let count := Header.freelist_count (wp_header w) in
  let* tb := read_page w trunk in
  let* leaf_count := be_u32 tb 4 in
  if 0 <? leaf_count then
    let* leaf := be_u32 tb (8 + 4 * (leaf_count - 1)) in
    let* tb := put32 tb 4 (leaf_count - 1) in
    let* w := write_page w trunk tb in
    Ok (leaf, set_overlay (set_freelist w trunk (count - 1)) leaf (zero_page w))
  else
    let* next := be_u32 tb 0 in
    Ok (trunk, set_overlay (set_freelist w next (count - 1)) trunk (zero_page w)).

(** Extending the file; the reserved pages are at most two in a row, so four
    turns are enough. *)
Fixpoint extend (fuel : nat) (w : WritePager) : res (Z * WritePager) :=
  match fuel with
  | O => Panic
  | S fuel =>
      let* n := u32_succ (wp_page_count w) in
      let w := set_staged w (wp_header w) n (<[n := zero_page w]> (wp_overlay w)) in
      if auto_vacuum_on w then
        let* r := is_reserved_layout_page w n (usable_size w) in
        if r then extend fuel w else Ok (n, w)
      else Ok (n, w)
  end.

Definition allocate_page (w : WritePager) : res (Z * WritePager) :=
  if (0 <? Header.freelist_count (wp_header w)) && negb (Header.freelist_trunk (wp_header w) =? 0)
  then alloc_from_freelist w
  else extend 4 w.

Definition free_page (w : WritePager) (page : Z) : res WritePager :=
  let trunk := Header.freelist_trunk (wp_header w) in
  let count := Header.freelist_count (wp_header w) in
  let max_leaves := sat_sub (usable_size w / 4) 8 in
  let* appended :=
    if negb (trunk =? 0) then
      let* tb := read_page w trunk in
      let* leaf_count := be_u32 tb 4 in
      if leaf_count <? max_leaves then
        let* tb := put32 tb (8 + 4 * leaf_count) page in
        let* tb := put32 tb 4 (leaf_count + 1) in
        let* w := write_page w trunk tb in
        let* w := if wp_secure_delete w then write_page w page (zero_page w) else Ok w in
        let* c := u32_succ count in
        Ok (Some (set_freelist w trunk c))
      else Ok None
    else Ok None in
  match appended with
  | Some w => Ok w
  | None =>
      let* nb := put32 (zero_page w) 0 trunk in
      let* nb := put32 nb 4 0 in
      let* w := write_page w page nb in
      let* c := u32_succ count in
      Ok (set_freelist w page c)
  end.

(** ** Savepoints *)

Definition savepoint (w : WritePager) (name : bytes) : WritePager :=
  set_savepoints w (wp_savepoints w ++ [mkSavepoint name (wp_overlay w) (wp_header w) (wp_page_count w)]).

Definition savepoint_depth (w : WritePager) : Z := zlen (wp_savepoints w).

(** [eq_ignore_ascii_case]. *)
Definition same_name (a b : bytes) : bool := bool_decide (Value.lowercase a = Value.lowercase b).

(** [iter().rposition(..)]. *)
Fixpoint rposition (s : list Savepoint) (name : bytes) : option nat :=
  match s with
  | [] => None
  | x :: s =>
      match rposition s name with
      | Some i => Some (S i)
      | None => if same_name (sp_name x) name then Some O else None
      end
  end.

(** Bytes as a message. *)
Fixpoint bytes_str (b : bytes) : string :=
  match b with
  | [] => EmptyString
  | x :: b => String (Ascii.ascii_of_N (Z.to_N x)) (bytes_str b)
  end.

Definition no_such_savepoint {A} (name : bytes) : res A :=
  Err (EError ("no such savepoint: " +:+ bytes_str name)).

Definition release_savepoint (w : WritePager) (name : bytes) : res WritePager :=
  match rposition (wp_savepoints w) name with
  | Some i => Ok (set_savepoints w (take i (wp_savepoints w)))
  | None => no_such_savepoint name
  end.

Definition rollback_to_savepoint (w : WritePager) (name : bytes) : res WritePager :=
  match rposition (wp_savepoints w) name with
  | Some i =>
      match wp_savepoints w !! i with
      | None => Panic
      | Some s => Ok (set_savepoints (set_staged w (sp_header s) (sp_page_count s) (sp_overlay s))
                        (take (S i) (wp_savepoints w)))
      end
  | None => no_such_savepoint name
  end.

Definition rollback (w : WritePager) : WritePager :=
  set_savepoints (set_staged w (wp_committed_header w) (wp_disk_pages w) ∅) [].

End WritePager.
