(* ===== verification/WritePagerProps.v ===== *)
(** Correctness of the write pager model of [WritePager]: the free list never
    hands out a page twice or one in use, and savepoints restore the staged
    state exactly. *)

From S2P Require Import Prelude Header Value Ptrmap Vfs WritePager.
Import WritePager.
Local Open Scope Z_scope.

Module WritePagerProps.

(** ** Reading staged pages *)

Lemma read_set_overlay w n d m : read_page (set_overlay w n d) m = if decide (m = n) then Ok d else read_page w m.
Proof.
  unfold read_page, set_overlay, set_staged. cbn. destruct (decide (m = n)) as [->|Hne].
  - by rewrite lookup_insert_eq.
  - by rewrite lookup_insert_ne.
Qed.

Lemma read_set_freelist w t c m : read_page (set_freelist w t c) m = read_page w m.
Proof. done. Qed.

(** ** The free list on disk *)

(** The pages of the list from a trunk on, each trunk before its leaves. *)
Inductive freelist (w : WritePager) : Z -> list Z -> Prop :=
  | fl_nil : freelist w 0 []
  | fl_cons trunk d next leaves rest :
      trunk <> 0 -> read_page w trunk = Ok d -> be_u32 d 0 = Ok next -> be_u32 d 4 = Ok (zlen leaves) ->
      8 + 4 * zlen leaves <= zlen d ->
      (forall i l, leaves !! i = Some l -> be_u32 d (8 + 4 * Z.of_nat i) = Ok l) ->
      freelist w next rest ->
      freelist w trunk (trunk :: leaves ++ rest).

Lemma freelist_frame w w' t l : freelist w t l -> (forall n, n ∈ l -> read_page w' n = read_page w n) -> freelist w' t l.
Proof.
  induction 1 as [|trunk d next leaves rest Ht Er E0 E4 Hz Hl Hr IH]; intros Hf; [constructor|].
  econstructor; [done| |done|done|done|done|].
  - rewrite Hf; [done|]. by left.
  - apply IH. intros n Hn. apply Hf. right. apply elem_of_app. by right.
Qed.

(** What holds of a write pager between operations; [l] are its free pages. *)
Record inv (w : WritePager) (l : list Z) : Prop := {
  inv_header : Header.wf (wp_header w);
  inv_ps : wp_page_size w = Header.page_size (wp_header w);
  inv_file : zlen (wp_file w) = wp_disk_pages w * wp_page_size w /\ is_bytes (wp_file w) /\ 0 <= wp_disk_pages w <= wp_page_count w;
  inv_overlay : forall n d, wp_overlay w !! n = Some d -> 1 <= n <= wp_page_count w /\ zlen d = wp_page_size w /\ is_bytes d;
  inv_present : forall n, 1 <= n <= wp_page_count w -> n <= wp_disk_pages w \/ is_Some (wp_overlay w !! n);
  inv_pc : 1 <= wp_page_count w < 2 ^ 32;
  inv_list : freelist w (Header.freelist_trunk (wp_header w)) l;
  inv_nodup : NoDup l;
  inv_range : Forall (fun n => 1 <= n <= wp_page_count w) l;
  inv_count : Header.freelist_count (wp_header w) = zlen l
}.

Lemma page_size_range w l : inv w l -> 512 <= wp_page_size w <= 65536.
Proof. intros H. rewrite (inv_ps w l H). apply (Header.wf_page_size _ (inv_header w l H)). Qed.

Lemma usable_bounds w l : inv w l -> 257 <= usable_size w <= wp_page_size w.
Proof.
  intros H. pose proof (page_size_range w l H). rewrite (inv_ps w l H) in *.
  destruct (inv_header w l H) as [_ (_ & _ & Hr) _ _]. unfold usable_size, Header.usable_size, is_uint in *. lia.
Qed.

Lemma read_page_sized w l n d : inv w l -> 0 <= n -> read_page w n = Ok d -> zlen d = wp_page_size w /\ is_bytes d.
Proof.
  intros H Hn. unfold read_page. pose proof (page_size_range w l H). pose proof (inv_pc w l H).
  destruct (inv_file w l H) as (Hf & Hb & Hd).
  destruct (wp_overlay w !! n) as [b|] eqn:E; [intros [= <-]; by apply (inv_overlay w l H n)|].
  destruct (Z.eqb_spec n 0); [done|]. destruct (Z.ltb_spec (wp_disk_pages w) n); [done|]. cbn [orb].
  rewrite Vfs.mem_read_Ok by nia. intros [= <-]. split; [rewrite zlen_sub; nia|by apply is_bytes_sub].
Qed.

Lemma read_page_present w l n : inv w l -> 1 <= n <= wp_page_count w -> exists d, read_page w n = Ok d.
Proof.
  intros H Hn. pose proof (page_size_range w l H) as Hps. pose proof (inv_pc w l H). destruct (inv_file w l H) as (Hf & _ & Hd).
  unfold read_page. destruct (wp_overlay w !! n) as [b|] eqn:E; [by exists b|].
  destruct (inv_present w l H n Hn) as [Hle|[d Hd']]; [|congruence].
  destruct (Z.eqb_spec n 0); [lia|]. destruct (Z.ltb_spec (wp_disk_pages w) n); [lia|]. cbn [orb].
  rewrite Vfs.mem_read_Ok by nia. by eexists.
Qed.

Lemma wf_with_freelist h t c : Header.wf h -> is_u32 t -> is_u32 c -> Header.wf (with_freelist h t c).
Proof.
  intros [H1 H2 H3 H4] Ht Hc. constructor; [done..|]. cbn.
  repeat (apply Forall_cons in H4 as [? H4]). repeat (apply Forall_cons_2; [done|]). done.
Qed.

Lemma zlen_put32 b a v b' : put32 b a v = Ok b' -> zlen b' = zlen b.
Proof. apply zlen_copy_at. Qed.

Lemma put32_Ok b a v : 0 <= a -> a + 4 <= zlen b -> exists b', put32 b a v = Ok b'.
Proof. intros. unfold put32. rewrite copy_at_Ok by (rewrite ?zlen_be_bytes; lia). by eexists. Qed.

(** A word written is read back; words that do not overlap it are kept. *)
Lemma put32_read b a v b' c : put32 b a v = Ok b' -> 0 <= a -> 0 <= c -> c + 4 <= zlen b -> is_u32 v -> is_bytes b ->
  (c = a -> be_u32 b' c = Ok v) /\ (c + 4 <= a \/ a + 4 <= c -> be_u32 b' c = be_u32 b c).
Proof.
  intros E Ha Hc Hz Hv Hb. pose proof (zlen_put32 _ _ _ _ E) as Hl. split.
  - intros ->. rewrite be_u32_Ok by lia. f_equal.
    pose proof (Vfs.copy_at_sub _ _ _ _ E) as Hs. rewrite zlen_be_bytes in Hs. change (a + Z.of_nat 4) with (a + 4) in Hs.
    rewrite Hs. by apply be32_bytes.
  - intros Hd. rewrite !be_u32_Ok by lia. do 2 f_equal. apply sub_ext; [lia..|].
    intros i Hi. rewrite (Vfs.lookup_copy_at _ _ _ _ _ E) by lia. rewrite zlen_be_bytes.
    destruct (Z.leb_spec a i), (Z.ltb_spec i (a + Z.of_nat 4)); simpl; lia || done.
Qed.

Lemma put32_same b a v b' : put32 b a v = Ok b' -> 0 <= a -> a + 4 <= zlen b -> is_u32 v -> is_bytes b -> be_u32 b' a = Ok v.
Proof. intros E Ha Hz Hv Hb. by apply (put32_read b a v b' a E). Qed.

Lemma put32_other b a v b' c : put32 b a v = Ok b' -> 0 <= a -> 0 <= c -> c + 4 <= zlen b -> is_u32 v -> is_bytes b ->
  c + 4 <= a \/ a + 4 <= c -> be_u32 b' c = be_u32 b c.
Proof. intros E Ha Hc Hz Hv Hb Hd. by apply (proj2 (put32_read b a v b' c E Ha Hc Hz Hv Hb)). Qed.

Lemma is_bytes_put32 b a v b' : put32 b a v = Ok b' -> is_bytes b -> is_bytes b'.
Proof.
  unfold put32, copy_at. destruct (_ && _); [|done]. intros <-%Ok_inj Hb.
  apply is_bytes_app. split; [by apply is_bytes_take|]. apply is_bytes_app. split; [apply is_bytes_be_bytes|by apply is_bytes_drop].
Qed.

(** ** Re-establishing the invariant *)

Lemma zero_page_ok w l : inv w l -> zlen (zero_page w) = wp_page_size w /\ is_bytes (zero_page w).
Proof.
  intros H. pose proof (page_size_range w l H). unfold zero_page. split; [apply zlen_zrep; lia|].
  apply is_bytes_replicate. by unfold is_uint.
Qed.

(** Staging pages and moving the free-list head. *)
Lemma inv_restage w l w' t c l' : inv w l ->
  wp_file w' = wp_file w -> wp_page_size w' = wp_page_size w -> wp_disk_pages w' = wp_disk_pages w ->
  wp_page_count w' = wp_page_count w -> wp_header w' = with_freelist (wp_header w) t c ->
  (forall n, is_Some (wp_overlay w !! n) -> is_Some (wp_overlay w' !! n)) ->
  (forall n d, wp_overlay w' !! n = Some d -> 1 <= n <= wp_page_count w /\ zlen d = wp_page_size w /\ is_bytes d) ->
  is_u32 t -> c = zlen l' -> freelist w' t l' -> NoDup l' -> Forall (fun n => 1 <= n <= wp_page_count w) l' ->
  is_u32 c -> inv w' l'.
Proof.
  intros H Ef Ep Ed Epc Eh Hmono Hov Ht Hc Hl Hnd Hr Hc32. destruct H as [H1 H2 H3 H4 H5 H6 H7 H8 H9 H10].
  split; rewrite ?Ef, ?Ep, ?Ed, ?Epc, ?Eh; try done.
  - by apply wf_with_freelist.
  - intros n Hn. destruct (H5 n Hn) as [|Hs]; [by left|right]. by apply Hmono.
Qed.

Lemma set_overlay_sized w l n d : inv w l -> 1 <= n <= wp_page_count w -> zlen d = wp_page_size w -> is_bytes d ->
  forall m e, <[n := d]> (wp_overlay w) !! m = Some e -> 1 <= m <= wp_page_count w /\ zlen e = wp_page_size w /\ is_bytes e.
Proof.
  intros H Hn Hz Hb m e. destruct (decide (m = n)) as [->|Hne].
  - rewrite lookup_insert_eq. by intros [= <-].
  - rewrite lookup_insert_ne by done. apply (inv_overlay w l H).
Qed.

Lemma is_Some_insert {A} (m : gmap Z A) n x k : is_Some (m !! k) -> is_Some (<[n := x]> m !! k).
Proof. intros H. destruct (decide (k = n)) as [->|Hne]; [by rewrite lookup_insert_eq|by rewrite lookup_insert_ne]. Qed.

(** ** Allocating from the free list *)

Lemma count_u32 w l : inv w l -> is_u32 (zlen l).
Proof.
  intros H. rewrite <- (inv_count w l H). destruct (inv_header w l H) as [_ _ _ Hw].
  apply Forall_cons in Hw as [_ Hw]. apply Forall_cons in Hw as [_ Hw]. apply Forall_cons in Hw as [_ Hw].
  by apply Forall_cons in Hw as [? _].
Qed.

Lemma trunk_u32 w l : inv w l -> is_u32 (Header.freelist_trunk (wp_header w)).
Proof.
  intros H. destruct (inv_header w l H) as [_ _ _ Hw].
  apply Forall_cons in Hw as [_ Hw]. apply Forall_cons in Hw as [_ Hw]. by apply Forall_cons in Hw as [? _].
Qed.

Lemma trunk_range w l : inv w l -> Header.freelist_trunk (wp_header w) <> 0 ->
  1 <= Header.freelist_trunk (wp_header w) <= wp_page_count w.
Proof.
  intros H Ht. pose proof (inv_list w l H) as Hl. pose proof (inv_range w l H) as Hr.
  destruct Hl as [|trunk d next leaves rest]; [done|]. by apply Forall_cons in Hr as [? _].
Qed.

(** What a staged operation promises: a new free list, everything else kept. *)
Definition keeps_others (w w' : WritePager) (l : list Z) : Prop :=
  wp_page_size w' = wp_page_size w /\ forall m, m ∉ l -> read_page w' m = read_page w m.

Lemma pop_leaf w l trunk d next ls lf rest : inv w l -> Header.freelist_trunk (wp_header w) = trunk ->
  l = trunk :: (ls ++ [lf]) ++ rest -> trunk <> 0 -> read_page w trunk = Ok d ->
  be_u32 d 0 = Ok next -> be_u32 d 4 = Ok (zlen (ls ++ [lf])) -> 8 + 4 * zlen (ls ++ [lf]) <= zlen d ->
  (forall i x, (ls ++ [lf]) !! i = Some x -> be_u32 d (8 + 4 * Z.of_nat i) = Ok x) -> freelist w next rest ->
  exists w', alloc_from_freelist w = Ok (lf, w') /\ inv w' (trunk :: ls ++ rest) /\
    read_page w' lf = Ok (zero_page w) /\ wp_page_count w' = wp_page_count w /\ keeps_others w w' l.
Proof.
  intros H Et -> Htr Er E0 E4 Hz Hls Hrest.
  assert (0 <= trunk) as Htn by (pose proof (trunk_u32 _ _ H) as Hu; unfold is_uint in Hu; lia).
  destruct (read_page_sized _ _ _ _ H Htn Er) as [Hdz Hdb]. rewrite zlen_snoc in *.
  pose proof (zlen_nonneg ls) as Hln. pose proof (count_u32 _ _ H) as Hcu. pose proof (inv_count _ _ H) as Hcnt.
  assert (be_u32 d (8 + 4 * (zlen ls + 1 - 1)) = Ok lf) as Elf.
  { replace (zlen ls + 1 - 1) with (Z.of_nat (length ls)) by (unfold zlen; lia). apply Hls.
    rewrite lookup_app_r by lia. by rewrite Nat.sub_diag. }
  destruct (put32_Ok d 4 (zlen ls + 1 - 1)) as [tb Etb]; [lia|lia|]. pose proof (zlen_put32 _ _ _ _ Etb) as Htz.
  pose proof (is_bytes_put32 _ _ _ _ Etb Hdb) as Htbb. destruct (zero_page_ok w _ H) as [Hzz Hzb].
  assert (is_u32 (zlen ls + 1 - 1)) as Hlu by (pose proof (page_size_range _ _ H); unfold is_uint; lia).
  set (w1 := set_overlay w trunk tb).
  set (w2 := set_overlay (set_freelist w1 trunk (Header.freelist_count (wp_header w) - 1)) lf (zero_page w1)).
  exists w2.
  pose proof (inv_nodup _ _ H) as Hnd. apply NoDup_cons in Hnd as [Hnt Hnd].
  apply NoDup_app in Hnd as (Hnd1 & Hdis & Hnd2). apply NoDup_app in Hnd1 as (Hnd3 & Hd1 & _).
  assert (forall m, m <> trunk -> m <> lf -> read_page w2 m = read_page w m) as Hframe.
  { intros m H1 H2. unfold w2. rewrite read_set_overlay, decide_False, read_set_freelist by done. unfold w1.
    by rewrite read_set_overlay, decide_False by done. }
  assert (read_page w2 trunk = Ok tb) as Ert.
  { unfold w2. rewrite read_set_overlay, decide_False by set_solver. rewrite read_set_freelist. unfold w1.
    by rewrite read_set_overlay, decide_True by done. }
  split_and!.
  - unfold alloc_from_freelist. rewrite Et, Er. bind_step. rewrite E4. bind_step.
    destruct (Z.ltb_spec 0 (zlen ls + 1)); [|lia]. rewrite Elf. bind_step. rewrite Etb. bind_step.
    unfold write_page. rewrite Htz, Hdz, Z.eqb_refl. cbn [negb]. bind_step. done.
  - apply (inv_restage w _ w2 trunk (Header.freelist_count (wp_header w) - 1) (trunk :: ls ++ rest) H); try done.
    + intros n Hn. cbn. by apply is_Some_insert, is_Some_insert.
    + intros n e. cbn. destruct (decide (n = lf)) as [->|Hne].
      * rewrite lookup_insert_eq. intros [= <-]. split; [|done].
        pose proof (inv_range _ _ H) as Hr. rewrite Forall_forall in Hr. apply Hr. set_solver.
      * rewrite lookup_insert_ne by done. apply (set_overlay_sized w _ trunk tb H); [by rewrite <- Et; apply (trunk_range _ _ H); rewrite Et|lia|done].
    + rewrite <- Et. by apply (trunk_u32 _ _ H).
    + rewrite Hcnt, !zlen_cons, !zlen_app, zlen_cons, zlen_nil. lia.
    + apply (fl_cons w2 trunk tb next ls rest); try done.
      * rewrite <- E0. apply (put32_other d 4 (zlen ls + 1 - 1)); lia || done.
      * rewrite (put32_same d 4 (zlen ls + 1 - 1) tb) by (lia || done). f_equal. lia.
      * lia.
      * intros i x Hi. pose proof (lookup_lt_Some _ _ _ Hi) as Hil. rewrite <- (Hls i x) by (by apply lookup_app_l_Some).
        assert (Z.of_nat i < zlen ls) by (unfold zlen; lia). apply (put32_other d 4 (zlen ls + 1 - 1)); lia || done.
      * apply (freelist_frame w); [done|]. intros n Hn. apply Hframe; [set_solver|].
        intros ->. apply (Hdis lf); [set_solver|done].
    + apply NoDup_cons. split; [set_solver|]. apply NoDup_app. split_and!; [done| |done]. intros x Hx. apply Hdis. set_solver.
    + pose proof (inv_range _ _ H) as Hr. rewrite Forall_forall in Hr |- *. intros x Hx. apply Hr. set_solver.
    + rewrite Hcnt. unfold is_uint in *. rewrite zlen_cons in *. pose proof (zlen_nonneg ((ls ++ [lf]) ++ rest)). lia.
  - unfold w2. rewrite read_set_overlay, decide_True by done. done.
  - done.
  - split; [done|]. intros m Hm. apply Hframe; set_solver.
Qed.

Lemma pop_trunk w l trunk d next rest : inv w l -> Header.freelist_trunk (wp_header w) = trunk ->
  l = trunk :: rest -> trunk <> 0 -> read_page w trunk = Ok d ->
  be_u32 d 0 = Ok next -> be_u32 d 4 = Ok 0 -> freelist w next rest ->
  exists w', alloc_from_freelist w = Ok (trunk, w') /\ inv w' rest /\
    read_page w' trunk = Ok (zero_page w) /\ wp_page_count w' = wp_page_count w /\ keeps_others w w' l.
Proof.
  intros H Et -> Htr Er E0 E4 Hrest.
  assert (0 <= trunk) as Htn by (pose proof (trunk_u32 _ _ H) as Hu; unfold is_uint in Hu; lia).
  destruct (read_page_sized _ _ _ _ H Htn Er) as [Hdz Hdb]. destruct (zero_page_ok w _ H) as [Hzz Hzb].
  pose proof (count_u32 _ _ H) as Hcu. pose proof (inv_count _ _ H) as Hcnt. rewrite zlen_cons in *.
  set (w1 := set_overlay (set_freelist w next (Header.freelist_count (wp_header w) - 1)) trunk (zero_page w)).
  exists w1. pose proof (inv_nodup _ _ H) as Hnd. apply NoDup_cons in Hnd as [Hnt Hnd].
  assert (forall m, m <> trunk -> read_page w1 m = read_page w m) as Hframe.
  { intros m H1. unfold w1. by rewrite read_set_overlay, decide_False, read_set_freelist. }
  split_and!.
  - unfold alloc_from_freelist. rewrite Et, Er. bind_step. rewrite E4. bind_step. rewrite Z.ltb_irrefl, E0. done.
  - apply (inv_restage w _ w1 next (Header.freelist_count (wp_header w) - 1) rest H); try done.
    + intros n Hn. by apply is_Some_insert.
    + apply (set_overlay_sized w _ trunk (zero_page w) H); [by rewrite <- Et; apply (trunk_range _ _ H); rewrite Et|done|done].
    + by apply (be_u32_range d 0).
    + lia.
    + apply (freelist_frame w); [done|]. intros n Hn. apply Hframe. by intros ->.
    + pose proof (inv_range _ _ H) as Hr. by apply Forall_cons in Hr as [_ Hr].
    + pose proof (zlen_nonneg rest). unfold is_uint in *. lia.
  - unfold w1. by rewrite read_set_overlay, decide_True.
  - done.
  - split; [done|]. intros m Hm. apply Hframe. set_solver.
Qed.

Lemma alloc_from_freelist_spec w l : inv w l -> l <> [] ->
  exists n w' l', alloc_from_freelist w = Ok (n, w') /\ inv w' l' /\ l ≡ₚ n :: l' /\
    read_page w' n = Ok (zero_page w) /\ wp_page_count w' = wp_page_count w /\ keeps_others w w' l.
Proof.
  intros H Hne. pose proof (inv_list _ _ H) as Hl. remember (Header.freelist_trunk (wp_header w)) as trunk eqn:Et.
  symmetry in Et. destruct Hl as [|trunk d next leaves rest Htr Er E0 E4 Hz Hls Hrest]; [done|].
  destruct leaves as [|lf ls _] using rev_ind.
  - destruct (pop_trunk w (trunk :: rest) trunk d next rest) as (w' & E & H1 & H2 & H3 & H4); try done.
    exists trunk, w', rest. split_and!; done.
  - destruct (pop_leaf w (trunk :: (ls ++ [lf]) ++ rest) trunk d next ls lf rest) as (w' & E & H1 & H2 & H3 & H4); try done.
    exists lf, w', (trunk :: ls ++ rest). split_and!; try done.
    rewrite <- app_assoc. cbn [app]. rewrite <- Permutation_middle. apply perm_swap.
Qed.

(** ** Extending the file *)

(** The two pages after a map page are not map pages, so a run of reserved
    pages has at most two. *)
Lemma not_both_ptrmap u n k : 10 <= u -> 1 <= k <= 2 -> Ptrmap.is_ptrmap_page u n = Ok true -> Ptrmap.is_ptrmap_page u (n + k) = Ok false.
Proof.
  intros Hu Hk. unfold Ptrmap.is_ptrmap_page. destruct (Z.ltb_spec n 2); [done|]. destruct (Z.ltb_spec (n + k) 2); [lia|].
  destruct (Ptrmap.ptrmap_pageno_spec u n ltac:(lia) ltac:(lia)) as (q & Hq & -> & Hr).
  destruct (Ptrmap.ptrmap_pageno_spec u (n + k) ltac:(lia) ltac:(lia)) as (q' & Hq' & -> & Hr'). do 2 bind_step.
  assert (2 <= Ptrmap.entries_per_page u) by (apply Z.div_le_lower_bound; unfold Ptrmap.ENTRY_SIZE; lia).
  set (c := Ptrmap.entries_per_page u + 1) in *. intros [= E%Z.eqb_eq]. f_equal. apply Z.eqb_neq. intros E'.
  assert (q' = q) by nia. subst. lia.
Qed.

Lemma is_ptrmap_page_Ok u n : 0 <= u -> exists b, Ptrmap.is_ptrmap_page u n = Ok b.
Proof.
  intros Hu. unfold Ptrmap.is_ptrmap_page. destruct (Z.ltb_spec n 2); [by eexists|].
  destruct (Ptrmap.ptrmap_pageno_spec u n Hu ltac:(lia)) as (q & _ & -> & _). bind_step. by eexists.
Qed.

(** The layout constants do not depend on the staged pages. *)
Definition reserved_at (w : WritePager) (n : Z) : res bool :=
  if auto_vacuum_on w then is_reserved_layout_page w n (usable_size w) else Ok false.

Definition grow (w : WritePager) : WritePager :=
  set_staged w (wp_header w) (wp_page_count w + 1) (<[wp_page_count w + 1 := zero_page w]> (wp_overlay w)).

Lemma extend_unfold fuel w : wp_page_count w + 1 < 2 ^ 32 ->
  extend (S fuel) w = (let* r := reserved_at w (wp_page_count w + 1) in
    if r then extend fuel (grow w) else Ok (wp_page_count w + 1, grow w)).
Proof.
  intros H. cbn [extend]. unfold u32_succ. destruct (Z.ltb_spec (wp_page_count w + 1) (2 ^ 32)); [|lia]. bind_step.
  fold (grow w). unfold reserved_at. change (auto_vacuum_on (grow w)) with (auto_vacuum_on w).
  by destruct (auto_vacuum_on w).
Qed.

Lemma inv_grow w : inv w [] -> wp_page_count w + 1 < 2 ^ 32 -> inv (grow w) [].
Proof.
  intros H Hpc. destruct (zero_page_ok w [] H) as [Hz Hzb]. pose proof H as [H1 H2 H3 H4 H5 H6 H7 H8 H9 H10].
  split; cbn; try done.
  - destruct H3 as (? & ? & ?). split_and!; [done|done|lia|lia].
  - intros n d. destruct (decide (n = wp_page_count w + 1)) as [->|Hne].
    + rewrite lookup_insert_eq. intros [= <-]. split; [lia|done].
    + rewrite lookup_insert_ne by done. intros (? & ? & ?)%H4. split; [lia|done].
  - intros n Hn. destruct (decide (n = wp_page_count w + 1)) as [->|Hne]; [right; by rewrite lookup_insert_eq|].
    destruct (H5 n ltac:(lia)) as [|Hs]; [by left|right; by apply is_Some_insert].
  - lia.
  - remember (Header.freelist_trunk (wp_header w)) as t. inversion H7; subst. constructor.
Qed.

Lemma reserved_run w n : inv w [] -> 1 <= n -> (exists b, reserved_at w n = Ok b) /\
  (reserved_at w n = Ok true -> reserved_at w (n + 1) = Ok true -> reserved_at w (n + 2) = Ok false).
Proof.
  intros H Hn. pose proof (usable_bounds _ _ H) as Hu. unfold reserved_at, is_reserved_layout_page.
  destruct (auto_vacuum_on w); [|split; [by eexists|done]].
  destruct (is_ptrmap_page_Ok (usable_size w) n ltac:(lia)) as [b0 E0].
  destruct (is_ptrmap_page_Ok (usable_size w) (n + 1) ltac:(lia)) as [b1 E1].
  destruct (is_ptrmap_page_Ok (usable_size w) (n + 2) ltac:(lia)) as [b2 E2].
  rewrite E0, E1, E2. cbn [res_bind]. split; [destruct b0; by eexists|].
  set (lp := wrap 32 (PENDING_BYTE / wp_page_size w) + 1).
  destruct b0.
  - rewrite (not_both_ptrmap (usable_size w) n 1) in E1 by (lia || done). injection E1 as <-. intros _.
    rewrite (not_both_ptrmap (usable_size w) n 2) in E2 by (lia || done). injection E2 as <-.
    intros [= [_ Hlp%Z.eqb_eq]%andb_prop]. destruct (Z.eqb_spec (n + 2) lp); [lia|by rewrite andb_false_r].
  - intros [= [_ Hlp%Z.eqb_eq]%andb_prop]. destruct b1.
    + intros _. replace (n + 2) with (n + 1 + 1) in * by lia.
      rewrite (not_both_ptrmap (usable_size w) (n + 1) 1) in E2 by (lia || done). injection E2 as <-.
      destruct (Z.eqb_spec (n + 1 + 1) lp); [lia|by rewrite andb_false_r].
    + intros [= [_ Hlp'%Z.eqb_eq]%andb_prop]. lia.
Qed.

Lemma reserved_at_grow w n : reserved_at (grow w) n = reserved_at w n.
Proof. done. Qed.

Lemma extend_spec w : inv w [] -> wp_page_count w + 3 < 2 ^ 32 ->
  exists n w', extend 4 w = Ok (n, w') /\ inv w' [] /\ wp_page_count w < n <= wp_page_count w + 3 /\ wp_page_count w' = n /\
    wp_page_size w' = wp_page_size w /\
    reserved_at w n = Ok false /\ read_page w' n = Ok (zero_page w) /\
    forall m, m <= wp_page_count w -> read_page w' m = read_page w m.
Proof.
  intros H Hpc. pose proof (inv_pc _ _ H) as H1.
  assert (forall v m, wp_page_count w <= wp_page_count v -> m <= wp_page_count w -> read_page (grow v) m = read_page v m) as Hg.
  { intros v m Hv Hm. unfold grow, read_page, set_staged. cbn. by rewrite lookup_insert_ne by lia. }
  assert (forall v, read_page (grow v) (wp_page_count v + 1) = Ok (zero_page v)) as Hz.
  { intros v. unfold grow, read_page, set_staged. cbn. by rewrite lookup_insert_eq. }
  pose proof (inv_grow w H ltac:(lia)) as Hg1. pose proof (inv_grow (grow w) Hg1 ltac:(cbn; lia)) as Hg2.
  pose proof (inv_grow (grow (grow w)) Hg2 ltac:(cbn; lia)) as Hg3.
  destruct (reserved_run w (wp_page_count w + 1) H ltac:(lia)) as [[b1 E1] Hrun].
  rewrite extend_unfold by lia. rewrite E1. bind_step. destruct b1.
  2:{ exists (wp_page_count w + 1), (grow w). split_and!; try done; [lia|lia|]. intros m Hm. by apply Hg. }
  rewrite extend_unfold by (cbn; lia). rewrite reserved_at_grow. cbn [wp_page_count grow set_staged] in *.
  destruct (reserved_run w (wp_page_count w + 1 + 1) H ltac:(lia)) as [[b2 E2] _]. rewrite E2. bind_step. destruct b2.
  2:{ exists (wp_page_count w + 1 + 1), (grow (grow w)). split_and!; try done; [lia|lia|apply (Hz (grow w))|]. intros m Hm.
      rewrite !Hg; cbn; lia || done. }
  specialize (Hrun E1 E2). rewrite extend_unfold by (cbn; lia). rewrite !reserved_at_grow. cbn [wp_page_count grow set_staged] in *.
  replace (wp_page_count w + 1 + 2) with (wp_page_count w + 1 + 1 + 1) in Hrun by lia. rewrite Hrun. bind_step.
  exists (wp_page_count w + 1 + 1 + 1), (grow (grow (grow w))). split_and!; try done; [lia|lia|apply (Hz (grow (grow w)))|]. intros m Hm.
  rewrite !Hg; cbn; lia || done.
Qed.

(** ** Freeing *)

Lemma free_room w l p : inv w l -> p ∉ l -> 1 <= p <= wp_page_count w -> zlen l + 1 < 2 ^ 32.
Proof.
  intros H Hp Hr. assert (p :: l ⊆+ seqZ 1 (wp_page_count w)) as Hs.
  { apply NoDup_submseteq; [apply NoDup_cons; split; [done|apply (inv_nodup _ _ H)]|].
    intros x Hx. apply elem_of_seqZ. pose proof (inv_range _ _ H) as Hrange. rewrite Forall_forall in Hrange.
    apply elem_of_cons in Hx as [->|Hx]; [|specialize (Hrange x Hx)]; lia. }
  apply submseteq_length in Hs. rewrite length_seqZ in Hs. simpl in Hs. pose proof (inv_pc _ _ H). unfold zlen. lia.
Qed.

(** [p] becomes a leaf of the head trunk. *)
Lemma push_leaf w l trunk d next leaves rest p : inv w l -> Header.freelist_trunk (wp_header w) = trunk ->
  l = trunk :: leaves ++ rest -> trunk <> 0 -> read_page w trunk = Ok d ->
  be_u32 d 0 = Ok next -> be_u32 d 4 = Ok (zlen leaves) ->
  (forall i x, leaves !! i = Some x -> be_u32 d (8 + 4 * Z.of_nat i) = Ok x) -> freelist w next rest ->
  zlen leaves < sat_sub (usable_size w / 4) 8 -> p ∉ l -> 1 <= p <= wp_page_count w ->
  exists w', free_page w p = Ok w' /\ inv w' (trunk :: (leaves ++ [p]) ++ rest) /\
    wp_page_count w' = wp_page_count w /\ keeps_others w w' (p :: l).
Proof.
  intros H Et -> Htr Er E0 E4 Hls Hrest Hroom Hp Hr. pose proof (free_room w _ p H Hp Hr) as Hc.
  assert (0 <= trunk) as Htn by (pose proof (trunk_u32 _ _ H) as Hu; unfold is_uint in Hu; lia).
  destruct (read_page_sized _ _ _ _ H Htn Er) as [Hdz Hdb]. destruct (zero_page_ok w _ H) as [Hzz Hzb].
  pose proof (inv_count _ _ H) as Hcnt. pose proof (usable_bounds _ _ H) as Hu. pose proof (zlen_nonneg leaves) as Hln.
  assert (8 + 4 * zlen leaves + 4 <= zlen d) as Hfit.
  { unfold sat_sub in Hroom. pose proof (Z.mul_div_le (usable_size w) 4 ltac:(lia)). lia. }
  assert (is_u32 p) as Hp32 by (pose proof (inv_pc _ _ H); unfold is_uint; lia).
  assert (is_u32 (zlen leaves + 1)) as Hl32 by (pose proof (page_size_range _ _ H); unfold is_uint; lia).
  destruct (put32_Ok d (8 + 4 * zlen leaves) p) as [t1 E1]; [lia|lia|].
  pose proof (zlen_put32 _ _ _ _ E1) as Hz1. pose proof (is_bytes_put32 _ _ _ _ E1 Hdb) as Hb1.
  destruct (put32_Ok t1 4 (zlen leaves + 1)) as [t2 E2]; [lia|lia|].
  pose proof (zlen_put32 _ _ _ _ E2) as Hz2. pose proof (is_bytes_put32 _ _ _ _ E2 Hb1) as Hb2.
  pose proof (inv_nodup _ _ H) as Hnd. apply NoDup_cons in Hnd as [Hnt Hnd]. apply NoDup_app in Hnd as (Hnd1 & Hdis & Hnd2).
  apply not_elem_of_cons in Hp as [Hpt Hp]. apply not_elem_of_app in Hp as [Hp1 Hp2].
  set (w1 := set_overlay w trunk t2). set (w2 := if wp_secure_delete w then set_overlay w1 p (zero_page w) else w1).
  set (w3 := set_freelist w2 trunk (Header.freelist_count (wp_header w) + 1)). exists w3.
  assert (forall m, m <> trunk -> m <> p -> read_page w3 m = read_page w m) as Hframe.
  { intros m Hm1 Hm2. unfold w3. rewrite read_set_freelist. unfold w2. destruct (wp_secure_delete w);
      unfold w1; by rewrite ?read_set_overlay, ?decide_False. }
  assert (read_page w3 trunk = Ok t2) as Ert.
  { unfold w3. rewrite read_set_freelist. unfold w2. destruct (wp_secure_delete w); unfold w1;
      rewrite read_set_overlay; [rewrite decide_False by done; rewrite read_set_overlay|]; by rewrite decide_True. }
  assert (wp_file w3 = wp_file w /\ wp_page_size w3 = wp_page_size w /\ wp_disk_pages w3 = wp_disk_pages w /\
    wp_page_count w3 = wp_page_count w /\ wp_header w3 = with_freelist (wp_header w) trunk (Header.freelist_count (wp_header w) + 1))
    as (F1 & F2 & F3 & F4 & F5) by (unfold w3, w2; by destruct (wp_secure_delete w)).
  split_and!.
  - unfold free_page. rewrite Et. destruct (Z.eqb_spec trunk 0); [done|]. cbn [negb]. rewrite Er. bind_step. rewrite E4. bind_step.
    destruct (Z.ltb_spec (zlen leaves) (sat_sub (usable_size w / 4) 8)); [|lia]. rewrite E1. bind_step. rewrite E2. bind_step.
    unfold write_page. rewrite Hz2, Hz1, Hdz, Z.eqb_refl. cbn [negb]. bind_step. fold w1.
    change (wp_secure_delete w1) with (wp_secure_delete w). change (zero_page w1) with (zero_page w).
    unfold u32_succ. rewrite Hcnt. destruct (Z.ltb_spec (zlen (trunk :: leaves ++ rest) + 1) (2 ^ 32)); [|lia].
    unfold w3, w2. rewrite Hcnt. destruct (wp_secure_delete w); [|done].
    change (wp_page_size w1) with (wp_page_size w). by rewrite Hzz, Z.eqb_refl.
  - apply (inv_restage w _ w3 trunk (Header.freelist_count (wp_header w) + 1) (trunk :: (leaves ++ [p]) ++ rest) H); try done.
    + intros n Hn. unfold w3, w2. cbn. destruct (wp_secure_delete w); cbn; by repeat apply is_Some_insert.
    + intros n e. unfold w3, w2. cbn. pose proof (set_overlay_sized w _ trunk t2 H ltac:(by rewrite <- Et; apply (trunk_range _ _ H); rewrite Et) ltac:(lia) Hb2) as Hs.
      destruct (wp_secure_delete w); cbn; [|by apply Hs]. destruct (decide (n = p)) as [->|Hne].
      * rewrite lookup_insert_eq. by intros [= <-].
      * rewrite lookup_insert_ne by done. apply Hs.
    + rewrite <- Et. apply (trunk_u32 _ _ H).
    + rewrite Hcnt, !zlen_cons, !zlen_app, zlen_cons, zlen_nil. lia.
    + apply (fl_cons w3 trunk t2 next (leaves ++ [p]) rest); try done; rewrite ?zlen_snoc.
      * rewrite <- E0. rewrite (put32_other t1 4 (zlen leaves + 1) t2) by (lia || done).
        apply (put32_other d (8 + 4 * zlen leaves) p); lia || done.
      * apply (put32_same t1 4); lia || done.
      * lia.
      * intros i x Hi. rewrite (put32_other t1 4 (zlen leaves + 1) t2); try (lia || done).
        2:{ apply lookup_lt_Some in Hi. rewrite length_app in Hi. simpl in Hi. unfold zlen in *. lia. }
        apply lookup_snoc_Some in Hi as [[Hil Hi]|[-> ->]].
        -- rewrite <- (Hls i x Hi). assert (Z.of_nat i < zlen leaves) by (unfold zlen; lia).
           apply (put32_other d (8 + 4 * zlen leaves) p); lia || done.
        -- change (Z.of_nat (length leaves)) with (zlen leaves). apply (put32_same d); lia || done.
      * apply (freelist_frame w); [done|]. intros n Hn. apply Hframe; [set_solver|by intros ->].
    + apply NoDup_cons. split; [set_solver|]. apply NoDup_app. split_and!; [|set_solver|done].
      apply NoDup_app. split_and!; [done|set_solver|apply NoDup_singleton].
    + pose proof (inv_range _ _ H) as Hrg. rewrite Forall_forall in Hrg |- *. intros x Hx.
      destruct (decide (x = p)) as [->|]; [done|]. apply Hrg. set_solver.
    + rewrite Hcnt. unfold is_uint. pose proof (zlen_nonneg (trunk :: leaves ++ rest)). lia.
  - done.
  - split; [done|]. intros m Hm. apply Hframe; set_solver.
Qed.

(** [p] becomes the head trunk. *)
Lemma push_trunk w l p : inv w l -> p ∉ l -> 1 <= p <= wp_page_count w ->
  exists nb, (let* nb := put32 (zero_page w) 0 (Header.freelist_trunk (wp_header w)) in put32 nb 4 0) = Ok nb /\
    let w' := set_freelist (set_overlay w p nb) p (Header.freelist_count (wp_header w) + 1) in
    zlen nb = wp_page_size w /\ inv w' (p :: l) /\ keeps_others w w' (p :: l).
Proof.
  intros H Hp Hr. pose proof (free_room w _ p H Hp Hr) as Hc. destruct (zero_page_ok w _ H) as [Hzz Hzb].
  pose proof (page_size_range _ _ H) as Hps. pose proof (trunk_u32 _ _ H) as Ht. pose proof (inv_count _ _ H) as Hcnt.
  destruct (put32_Ok (zero_page w) 0 (Header.freelist_trunk (wp_header w))) as [n1 E1]; [lia|lia|].
  pose proof (zlen_put32 _ _ _ _ E1) as Hz1. pose proof (is_bytes_put32 _ _ _ _ E1 Hzb) as Hb1.
  destruct (put32_Ok n1 4 0) as [nb E2]; [lia|lia|]. pose proof (zlen_put32 _ _ _ _ E2) as Hz2.
  pose proof (is_bytes_put32 _ _ _ _ E2 Hb1) as Hb2. assert (is_u32 0) as H0 by (by unfold is_uint).
  exists nb. rewrite E1. bind_step. split; [done|]. intros w'. split_and!; [lia| |].
  - assert (forall m, m <> p -> read_page w' m = read_page w m) as Hframe.
    { intros m Hm. unfold w'. by rewrite read_set_freelist, read_set_overlay, decide_False. }
    apply (inv_restage w l w' p (Header.freelist_count (wp_header w) + 1) (p :: l) H); try done.
    + intros n Hn. by apply is_Some_insert.
    + apply (set_overlay_sized w l p nb H); [lia|lia|done].
    + pose proof (inv_pc _ _ H). unfold is_uint. lia.
    + rewrite zlen_cons. lia.
    + apply (fl_cons w' p nb (Header.freelist_trunk (wp_header w)) [] l); try done.
      * lia.
      * unfold w'. by rewrite read_set_freelist, read_set_overlay, decide_True.
      * rewrite (put32_other n1 4 0 nb) by (lia || done). apply (put32_same (zero_page w)); lia || done.
      * apply (put32_same n1); lia || done.
      * change (zlen (@nil Z)) with 0. lia.
      * apply (freelist_frame w); [apply (inv_list _ _ H)|]. intros n Hn. apply Hframe. by intros ->.
    + apply NoDup_cons. split; [done|apply (inv_nodup _ _ H)].
    + apply Forall_cons_2; [done|apply (inv_range _ _ H)].
    + rewrite Hcnt. unfold is_uint. pose proof (zlen_nonneg l). lia.
  - split; [done|]. intros m Hm. unfold w'. rewrite read_set_freelist, read_set_overlay, decide_False; [done|set_solver].
Qed.

Lemma free_page_spec w l p : inv w l -> p ∉ l -> 1 <= p <= wp_page_count w ->
  exists w' l', free_page w p = Ok w' /\ inv w' l' /\ l' ≡ₚ p :: l /\ wp_page_count w' = wp_page_count w /\
    keeps_others w w' (p :: l).
Proof.
  intros H Hp Hr. pose proof (free_room w _ p H Hp Hr) as Hc. pose proof (inv_count _ _ H) as Hcnt.
  destruct (push_trunk w l p H Hp Hr) as (nb & Enb & Hz & Hinv & Hk).
  assert (exists w', (let* nb := put32 (zero_page w) 0 (Header.freelist_trunk (wp_header w)) in let* nb := put32 nb 4 0 in
      let* v := write_page w p nb in let* c := u32_succ (Header.freelist_count (wp_header w)) in Ok (set_freelist v p c)) = Ok w' /\
      inv w' (p :: l) /\ wp_page_count w' = wp_page_count w /\ keeps_others w w' (p :: l)) as (wt & Ewt & H1 & H2 & H3).
  { eexists. split; [|by split_and!; [exact Hinv| |exact Hk]]. apply res_bind_Ok in Enb as (n1 & E1 & E2). rewrite E1. bind_step. rewrite E2. bind_step.
    unfold write_page. rewrite Hz, Z.eqb_refl. cbn [negb]. bind_step. cbn [wp_header set_overlay set_staged].
    unfold u32_succ. rewrite Hcnt. destruct (Z.ltb_spec (zlen l + 1) (2 ^ 32)); [done|lia]. }
  pose proof (inv_list _ _ H) as Hl. remember (Header.freelist_trunk (wp_header w)) as trunk eqn:Et. symmetry in Et.
  destruct Hl as [|trunk d next leaves rest Htr Er E0 E4 Hzl Hls Hrest].
  - exists wt, [p]. split_and!; try done. unfold free_page. rewrite Et. cbn [Z.eqb negb]. bind_step. exact Ewt.
  - destruct (decide (zlen leaves < sat_sub (usable_size w / 4) 8)) as [Hroom|Hfull].
    + destruct (push_leaf w (trunk :: leaves ++ rest) trunk d next leaves rest p) as (w' & E & Hi & Hpc & Hk'); try done.
      exists w', (trunk :: (leaves ++ [p]) ++ rest). split_and!; try done.
      rewrite <- app_assoc. cbn [app]. rewrite <- Permutation_middle. apply perm_swap.
    + exists wt, (p :: trunk :: leaves ++ rest). split_and!; try done. unfold free_page. rewrite Et.
      destruct (Z.eqb_spec trunk 0); [done|]. cbn [negb]. rewrite Er. bind_step. rewrite E4. bind_step.
      destruct (Z.ltb_spec (zlen leaves) (sat_sub (usable_size w / 4) 8)); [lia|]. bind_step. exact Ewt.
Qed.

(** ** The page heap: what allocation promises to its clients *)

(** Requests of the layers above, and their answers. *)
Inductive op : Type := Alloc | Free (p : Z) | Write (p : Z) (d : bytes) | Read (p : Z).
Inductive answer : Type := AUnit | APage (n : Z) | ABytes (d : bytes).

Definition step (o : op) (w : WritePager) : res (answer * WritePager) :=
  match o with
  | Alloc => let* (n, w) := allocate_page w in Ok (APage n, w)
  | Free p => let* w := free_page w p in Ok (AUnit, w)
  | Write p d => let* w := write_page w p d in Ok (AUnit, w)
  | Read p => let* d := read_page w p in Ok (ABytes d, w)
  end.

(** A client program: each request may depend on the answers so far. *)
Inductive prog : Type := Ret | Do (o : op) (k : answer -> prog).

Fixpoint exec (p : prog) (w : WritePager) : res (list answer * WritePager) :=
  match p with
  | Ret => Ok ([], w)
  | Do o k =>
      let* (a, w) := step o w in
      let* (l, w) := exec (k a) w in
      Ok (a :: l, w)
  end.

(** The abstract heap maps the pages in use to their contents. Allocation picks
    any page not in use; the other requests are for pages in use. *)
Inductive heap_step (ps : Z) (H : gmap Z bytes) : op -> answer -> gmap Z bytes -> Prop :=
  | heap_alloc n : H !! n = None -> heap_step ps H Alloc (APage n) (<[n := zrep ps 0]> H)
  | heap_free p : is_Some (H !! p) -> heap_step ps H (Free p) AUnit (delete p H)
  | heap_write p d : is_Some (H !! p) -> heap_step ps H (Write p d) AUnit (<[p := d]> H)
  | heap_read p d : H !! p = Some d -> heap_step ps H (Read p) (ABytes d) H.

Inductive heap_run (ps : Z) : gmap Z bytes -> prog -> list answer -> gmap Z bytes -> Prop :=
  | heap_ret H : heap_run ps H Ret [] H
  | heap_do H o k a H1 l H2 :
      heap_step ps H o a H1 -> heap_run ps H1 (k a) l H2 -> heap_run ps H (Do o k) (a :: l) H2.

(** A request the client may make: it owns the page it names. *)
Definition allowed (ps : Z) (H : gmap Z bytes) (o : op) : Prop :=
  match o with
  | Alloc => True
  | Free p | Read p => is_Some (H !! p)
  | Write p d => is_Some (H !! p) /\ zlen d = ps /\ is_bytes d
  end.

(** The pager holds the heap: its pages are in use and read back. *)
Definition holds (w : WritePager) (H : gmap Z bytes) : Prop :=
  exists l, inv w l /\ forall n d, H !! n = Some d -> n ∉ l /\ 1 <= n <= wp_page_count w /\ read_page w n = Ok d.

Lemma with_freelist_id h : with_freelist h (Header.freelist_trunk h) (Header.freelist_count h) = h.
Proof. by destruct h. Qed.

Lemma set_overlay_inv w l p d : inv w l -> p ∉ l -> 1 <= p <= wp_page_count w -> zlen d = wp_page_size w -> is_bytes d -> inv (set_overlay w p d) l.
Proof.
  intros H Hp Hr Hz Hb.
  apply (inv_restage w l _ (Header.freelist_trunk (wp_header w)) (Header.freelist_count (wp_header w)) l H); try done.
  - by rewrite with_freelist_id.
  - intros n Hn. by apply is_Some_insert.
  - by apply (set_overlay_sized w l p d H).
  - apply (trunk_u32 _ _ H).
  - apply (inv_count _ _ H).
  - apply (freelist_frame w); [apply (inv_list _ _ H)|]. intros n Hn. rewrite read_set_overlay, decide_False; [done|].
    by intros ->.
  - apply (inv_nodup _ _ H).
  - apply (inv_range _ _ H).
  - rewrite (inv_count _ _ H). apply (count_u32 _ _ H).
Qed.

Lemma alloc_holds w H : holds w H -> wp_page_count w + 3 < 2 ^ 32 ->
  exists n w', allocate_page w = Ok (n, w') /\ H !! n = None /\ holds w' (<[n := zero_page w]> H) /\
    wp_page_count w' <= wp_page_count w + 3 /\ wp_page_size w' = wp_page_size w.
Proof.
  intros (l & Hi & Hh) Hpc. pose proof (inv_count _ _ Hi) as Hcnt. unfold allocate_page.
  destruct (decide (l = [])) as [->|Hne].
  - rewrite Hcnt. change (0 <? zlen (@nil Z)) with false. cbn [andb].
    destruct (extend_spec w Hi Hpc) as (n & w' & -> & Hi' & Hn & Hpc' & Hps & _ & Hz & Hk).
    assert (H !! n = None) as Hnone.
    { apply eq_None_not_Some. intros [d Hd]. destruct (Hh n d Hd) as (_ & Hr & _). lia. }
    exists n, w'. split_and!; [done|done| |lia|done]. exists []. split; [done|]. pose proof (inv_pc _ _ Hi).
    intros m d. destruct (decide (m = n)) as [->|Hne].
    + rewrite lookup_insert_eq. intros <-%Some_inj. split_and!; [apply not_elem_of_nil|lia|lia|done].
    + rewrite lookup_insert_ne by done. intros (Hm & Hr & E)%Hh. split_and!; [done|lia|lia|]. rewrite Hk; [done|lia].
  - assert (negb (Header.freelist_trunk (wp_header w) =? 0) = true) as ->.
    { destruct (Z.eqb_spec (Header.freelist_trunk (wp_header w)) 0) as [E|]; [|done]. pose proof (inv_list _ _ Hi) as Hl.
      rewrite E in Hl. inversion Hl; by subst. }
    rewrite Hcnt. destruct (Z.ltb_spec 0 (zlen l)); [|destruct l; unfold zlen in *; simpl in *; lia || done]. cbn [andb].
    destruct (alloc_from_freelist_spec w l Hi Hne) as (n & w' & l' & -> & Hi' & Hperm & Hz & Hpc' & Hps & Hk).
    assert (n ∈ l) as Hnl by (rewrite Hperm; by left).
    assert (H !! n = None) as Hnone.
    { apply eq_None_not_Some. intros [d Hd]. by destruct (Hh n d Hd). }
    exists n, w'. split_and!; [done|done| |lia|done]. exists l'. split; [done|].
    pose proof (inv_nodup _ _ Hi) as Hnd. rewrite Hperm in Hnd. apply NoDup_cons in Hnd as [Hnl' _].
    intros m d. destruct (decide (m = n)) as [->|Hne'].
    + rewrite lookup_insert_eq. intros <-%Some_inj. pose proof (inv_range _ _ Hi) as Hrg. rewrite Forall_forall in Hrg.
      specialize (Hrg n Hnl). split_and!; [done|lia|lia|done].
    + rewrite lookup_insert_ne by done. intros (Hm & Hr & E)%Hh. rewrite Hpc', Hk by done. split_and!; [|lia|lia|done].
      intros Hml. apply Hm. rewrite Hperm. by right.
Qed.

Lemma free_holds w H p : holds w H -> is_Some (H !! p) ->
  exists w', free_page w p = Ok w' /\ holds w' (delete p H) /\ wp_page_count w' = wp_page_count w /\ wp_page_size w' = wp_page_size w.
Proof.
  intros (l & Hi & Hh) [dp Hp]. destruct (Hh p dp Hp) as (Hpl & Hr & _).
  destruct (free_page_spec w l p Hi Hpl Hr) as (w' & l' & E & Hi' & Hperm & Hpc & Hps & Hk).
  exists w'. split_and!; [done| |done|done]. exists l'. split; [done|]. intros m d Hm.
  apply lookup_delete_Some in Hm as [Hne (Hm & Hmr & Hrd)%Hh]. rewrite Hpc, Hperm, Hk by set_solver. split_and!; [set_solver|lia|lia|done].
Qed.

Lemma write_holds w H p d : holds w H -> is_Some (H !! p) -> zlen d = wp_page_size w -> is_bytes d ->
  exists w', write_page w p d = Ok w' /\ holds w' (<[p := d]> H) /\ wp_page_count w' = wp_page_count w /\ wp_page_size w' = wp_page_size w.
Proof.
  intros (l & Hi & Hh) [dp Hp] Hz Hb. destruct (Hh p dp Hp) as (Hpl & Hr & _). unfold write_page. rewrite Hz, Z.eqb_refl. cbn [negb].
  eexists. split_and!; [done| |done|done]. exists l. split; [by apply set_overlay_inv|]. intros m e.
  rewrite read_set_overlay. destruct (decide (m = p)) as [->|Hne].
  - rewrite lookup_insert_eq. by intros [= <-].
  - rewrite lookup_insert_ne by done. apply Hh.
Qed.

Lemma step_refines w H o : holds w H -> allowed (wp_page_size w) H o -> wp_page_count w + 3 < 2 ^ 32 ->
  exists a w' H', step o w = Ok (a, w') /\ heap_step (wp_page_size w) H o a H' /\ holds w' H' /\
    wp_page_count w' <= wp_page_count w + 3 /\ wp_page_size w' = wp_page_size w.
Proof.
  intros Hh Ha Hpc. destruct o as [|p|p d|p]; cbn [step allowed] in *.
  - destruct (alloc_holds w H Hh Hpc) as (n & w' & -> & Hn & Hh' & Hpc' & Hps). bind_step.
    exists (APage n), w', (<[n := zero_page w]> H). split_and!; try done. by constructor.
  - destruct (free_holds w H p Hh Ha) as (w' & -> & Hh' & Hpc' & Hps). bind_step.
    exists AUnit, w', (delete p H). split_and!; try done; [by constructor|lia].
  - destruct Ha as (Hs & Hz & Hb). destruct (write_holds w H p d Hh Hs Hz Hb) as (w' & -> & Hh' & Hpc' & Hps). bind_step.
    exists AUnit, w', (<[p := d]> H). split_and!; try done; [by constructor|lia].
  - destruct Ha as [d Hd]. destruct Hh as (l & Hi & Hh). destruct (Hh p d Hd) as (_ & _ & E). rewrite E. bind_step.
    exists (ABytes d), w, H. split_and!; try done; [by constructor|by exists l|lia].
Qed.

(** A program of at most [n] requests that only names pages it owns, whatever
    pages allocation picks. *)
Inductive legal (ps : Z) : nat -> gmap Z bytes -> prog -> Prop :=
  | legal_ret n H : legal ps n H Ret
  | legal_do n H o k : allowed ps H o -> (forall a H', heap_step ps H o a H' -> legal ps n H' (k a)) ->
      legal ps (S n) H (Do o k).

(** C13: allocation refines a heap of pages. A client that only frees, writes
    and reads pages it owns sees a heap: every page it is given is one it does
    not own, its pages keep what it wrote until it frees them, and no request
    fails or panics, whether pages come from the free list (leaves, trunks and
    new trunks) or from extending the file past reserved pages. *)
Theorem page_heap_refinement (w : WritePager) (H : gmap Z bytes) (n : nat) (p : prog)
    (Hh : holds w H) (Hp : legal (wp_page_size w) n H p) (Hpc : wp_page_count w + 3 * Z.of_nat n < 2 ^ 32) :
  exists l w' H', exec p w = Ok (l, w') /\ heap_run (wp_page_size w) H p l H' /\ holds w' H'.
Proof.
  remember (wp_page_size w) as ps eqn:Eps. revert w Eps Hh Hpc.
  induction Hp as [n H|n H o k Ha Hk IH]; intros w Eps Hh Hpc; cbn [exec].
  { exists [], w, H. split_and!; [done|constructor|done]. }
  subst ps. destruct (step_refines w H o Hh Ha ltac:(lia)) as (a & w1 & H1 & -> & Hs & Hh1 & Hpc1 & Hps1). bind_step.
  destruct (IH a H1 Hs w1 (eq_sym Hps1) Hh1 ltac:(lia)) as (l & w2 & H2 & -> & Hr & Hh2). bind_step.
  exists (a :: l), w2, H2. split_and!; [done|by econstructor|done].
Qed.

(** A database of two pages in use, with an empty free list. *)
Definition demo_header : Header.DatabaseHeader :=
  Header.mkHeader 512 1 1 0 2 2 0 0 1 4 0 0 Header.Utf8 0 0 0 2 3046001.
Definition demo_wp : WritePager := mkWp (zrep 1024 0) demo_header demo_header 512 2 2 ∅ [] false.

Lemma demo_wp_holds : holds demo_wp {[2 := zrep 512 0]}.
Proof.
  exists []. split.
  - split; cbn; try done.
    + constructor; [split; [simpl; lia|done]|by unfold is_uint; simpl; lia|simpl; lia|].
      by repeat (apply Forall_cons_2 || apply Forall_nil_2).
    + split_and!; [done|apply is_bytes_replicate; by unfold is_uint|lia|lia].
    + intros n Hn. left. lia.
    + constructor.
    + constructor.
  - intros n d [<- <-]%lookup_singleton_Some. split_and!; [apply not_elem_of_nil|cbn; lia|cbn; lia|by vm_compute].
Qed.

Definition demo_prog : prog :=
  Do (Free 2) (fun _ => Do Alloc (fun a =>
    match a with APage n => Do (Write n (zrep 512 9)) (fun _ => Do (Read n) (fun _ => Ret)) | _ => Ret end)).

Lemma page_heap_refinement_witness :
  exists l w' H', exec demo_prog demo_wp = Ok (l, w') /\ heap_run 512 {[2 := zrep 512 0]} demo_prog l H' /\ holds w' H'.
Proof.
  apply (page_heap_refinement demo_wp {[2 := zrep 512 0]} 4 demo_prog).
  - exact demo_wp_holds.
  - constructor; [cbn; rewrite lookup_singleton_eq; by eexists|]. intros a H' _.
    constructor; [done|]. intros b H2 Hs. inversion Hs; subst.
    constructor; [cbn; rewrite lookup_insert_eq; split_and!; [by eexists|done|apply is_bytes_replicate; by unfold is_uint]|].
    intros c H3 Hs3. inversion Hs3; subst. constructor; [cbn; rewrite lookup_insert_eq; by eexists|].
    intros. constructor.
  - cbn. lia.
Defined.

(** ** Savepoints *)

(** What a transaction does to the pager: page requests and savepoint
    statements. *)
Inductive txn_op : Type := Page (o : op) | Save (name : bytes) | Release (name : bytes) | RollbackTo (name : bytes).

Definition txn_step (o : txn_op) (w : WritePager) : res WritePager :=
  match o with
  | Page o => let* (_, w) := step o w in Ok w
  | Save n => Ok (savepoint w n)
  | Release n => release_savepoint w n
  | RollbackTo n => rollback_to_savepoint w n
  end.

Fixpoint txn_run (os : list txn_op) (w : WritePager) : res WritePager :=
  match os with
  | [] => Ok w
  | o :: os => let* w := txn_step o w in txn_run os w
  end.

(** The savepoint name a statement uses. *)
Definition op_name (o : txn_op) : option bytes :=
  match o with Page _ => None | Save n | Release n | RollbackTo n => Some n end.

(** [w'] differs from [w] in staged state and savepoints only. *)
Definition same_base (w w' : WritePager) : Prop :=
  wp_file w' = wp_file w /\ wp_committed_header w' = wp_committed_header w /\ wp_page_size w' = wp_page_size w /\
  wp_disk_pages w' = wp_disk_pages w /\ wp_secure_delete w' = wp_secure_delete w.

(** Page requests touch neither the base nor the savepoints. *)
Definition stages (w w' : WritePager) : Prop := same_base w w' /\ wp_savepoints w' = wp_savepoints w.

Lemma stages_refl w : stages w w.
Proof. done. Qed.

Lemma stages_trans u v w : stages u v -> stages v w -> stages u w.
Proof. unfold stages, same_base. naive_solver congruence. Qed.

Lemma write_page_stages w n d w' : write_page w n d = Ok w' -> stages w w'.
Proof. unfold write_page. destruct (negb _); [done|]. by intros [= <-]. Qed.

Lemma extend_stages fuel : forall w n w', extend fuel w = Ok (n, w') -> stages w w'.
Proof.
  induction fuel as [|fuel IH]; intros w n w' E; [done|]. cbn [extend] in E. apply res_bind_Ok in E as (m & _ & E).
  destruct (auto_vacuum_on _); [apply res_bind_Ok in E as (r & _ & E); destruct r|].
  - eapply stages_trans; [|by eapply IH]. done.
  - by injection E as _ <-.
  - by injection E as _ <-.
Qed.

Lemma alloc_stages w n w' : allocate_page w = Ok (n, w') -> stages w w'.
Proof.
  unfold allocate_page. destruct (_ && _); [|apply extend_stages]. unfold alloc_from_freelist.
  intros (tb & _ & E)%res_bind_Ok. apply res_bind_Ok in E as (lc & _ & E). destruct (0 <? lc).
  - apply res_bind_Ok in E as (lf & _ & E). apply res_bind_Ok in E as (tb' & _ & E).
    apply res_bind_Ok in E as (w1 & E1 & E). injection E as _ <-. by apply write_page_stages in E1.
  - apply res_bind_Ok in E as (nx & _ & E). by injection E as _ <-.
Qed.

Lemma free_stages w p w' : free_page w p = Ok w' -> stages w w'.
Proof.
  unfold free_page. intros ([v|] & E1 & E)%res_bind_Ok.
  - injection E as <-. destruct (negb _); [|done]. apply res_bind_Ok in E1 as (tb & _ & E1).
    apply res_bind_Ok in E1 as (lc & _ & E1). destruct (_ <? _); [|done].
    apply res_bind_Ok in E1 as (t1 & _ & E1). apply res_bind_Ok in E1 as (t2 & _ & E1).
    apply res_bind_Ok in E1 as (w1 & Ew & E1). apply res_bind_Ok in E1 as (w2 & Ew2 & E1).
    apply res_bind_Ok in E1 as (c & _ & E1). injection E1 as <-. apply write_page_stages in Ew.
    eapply stages_trans; [exact Ew|]. destruct (wp_secure_delete w1); [by apply write_page_stages in Ew2|by injection Ew2 as <-].
  - apply res_bind_Ok in E as (t1 & _ & E). apply res_bind_Ok in E as (t2 & _ & E).
    apply res_bind_Ok in E as (w1 & Ew & E). apply res_bind_Ok in E as (c & _ & E). injection E as <-.
    by apply write_page_stages in Ew.
Qed.

Lemma step_stages o w a w' : step o w = Ok (a, w') -> stages w w'.
Proof.
  destruct o as [|p|p d|p]; cbn [step]; intros E; apply res_bind_Ok in E as (x & E & E').
  - destruct x as [n w1]. injection E' as _ <-. by apply (alloc_stages w n).
  - injection E' as _ <-. by apply (free_stages w p).
  - injection E' as _ <-. by apply (write_page_stages w p d).
  - by injection E' as _ <-.
Qed.

Lemma rposition_app s t name : Forall (fun x => same_name (sp_name x) name = false) t ->
  rposition (s ++ t) name = rposition s name.
Proof.
  intros Ht. induction s as [|x s IH]; cbn [app rposition].
  - induction Ht as [|y t Hy _ IHt]; [done|]. cbn [rposition]. by rewrite IHt, Hy.
  - by rewrite IH.
Qed.

Lemma rposition_last s x name : same_name (sp_name x) name = true -> rposition (s ++ [x]) name = Some (length s).
Proof. intros Hx. induction s as [|y s IH]; cbn [app rposition length]; [by rewrite Hx|by rewrite IH]. Qed.

(** The innermost match lies behind [s] when nothing in [s] matches. *)
Lemma rposition_behind s t name i : Forall (fun x => same_name (sp_name x) name = false) s ->
  rposition (s ++ t) name = Some i -> exists j, i = (length s + j)%nat /\ rposition t name = Some j.
Proof.
  intros Hs. revert i. induction Hs as [|x s Hx _ IH]; intros i; cbn [app rposition length]; [by exists i|].
  destruct (rposition (s ++ t) name) as [k|].
  - intros [= <-]. destruct (IH k eq_refl) as (j & -> & Hj). exists j. split; [lia|done].
  - by rewrite Hx.
Qed.

Lemma rposition_lt s name i : rposition s name = Some i -> (i < length s)%nat.
Proof.
  revert i. induction s as [|x s IH]; intros i; cbn [rposition length]; [done|].
  destruct (rposition s name) as [k|]; [intros [= <-]; specialize (IH k eq_refl); lia|].
  destruct (same_name _ _); [intros [= <-]; lia|done].
Qed.

Section Nested.
Context (w0 : WritePager) (name : bytes).
Let snap : Savepoint := mkSavepoint name (wp_overlay w0) (wp_header w0) (wp_page_count w0).

(** Inside the savepoint: it is still open, with only other names above it. *)
Definition inside (w : WritePager) : Prop :=
  same_base w0 w /\ exists more, wp_savepoints w = (wp_savepoints w0 ++ [snap]) ++ more /\
    Forall (fun x => same_name (sp_name x) name = false) more.

(** A statement that names neither this savepoint nor one around it. *)
Definition nested (o : txn_op) : Prop :=
  forall n, op_name o = Some n -> same_name n name = false /\ same_name name n = false /\
    Forall (fun x => same_name (sp_name x) n = false) (wp_savepoints w0).

Lemma inside_step o w w' : nested o -> inside w -> txn_step o w = Ok w' -> inside w'.
Proof.
  intros Hn (Hb & more & Em & Hmore) E. destruct o as [o|n|n|n]; cbn [txn_step] in E.
  - apply res_bind_Ok in E as ([a v] & E & [= <-]). apply step_stages in E as [Hb' Hs].
    split; [unfold same_base in *; naive_solver congruence|]. exists more. by rewrite Hs.
  - injection E as <-. destruct (Hn n eq_refl) as (H1 & _ & _). split; [done|]. cbn [wp_savepoints savepoint set_savepoints].
    rewrite Em, <- app_assoc. eexists. split; [done|]. apply Forall_app_2; [done|]. by apply Forall_cons_2.
  - destruct (Hn n eq_refl) as (_ & H2 & H3). unfold release_savepoint in E.
    destruct (rposition (wp_savepoints w) n) as [i|] eqn:Ei; [|done]. injection E as <-. rewrite Em in Ei.
    apply rposition_behind in Ei as (j & -> & Hj); [|apply Forall_app_2; [done|by apply Forall_cons_2]].
    split; [done|]. exists (take j more). cbn [wp_savepoints set_savepoints]. rewrite Em, take_app_add. split; [done|]. by apply Forall_take.
  - destruct (Hn n eq_refl) as (_ & H2 & H3). unfold rollback_to_savepoint in E.
    destruct (rposition (wp_savepoints w) n) as [i|] eqn:Ei; [|done]. destruct (wp_savepoints w !! i); [|done]. injection E as <-.
    rewrite Em in Ei. apply rposition_behind in Ei as (j & -> & Hj); [|apply Forall_app_2; [done|by apply Forall_cons_2]].
    split; [done|]. exists (take (S j) more). cbn [wp_savepoints set_savepoints set_staged].
    rewrite Em, <- Nat.add_succ_r, take_app_add. split; [done|]. by apply Forall_take.
Qed.

Lemma inside_run os : Forall nested os -> forall w w', inside w -> txn_run os w = Ok w' -> inside w'.
Proof.
  induction 1 as [|o os Ho _ IH]; intros w w' Hi E; cbn [txn_run] in E; [by injection E as <-|].
  apply res_bind_Ok in E as (v & Ev & E). apply (IH v w'); [|done]. by apply (inside_step o w).
Qed.

Lemma inside_rollback w : inside w -> same_name name name = true -> rollback_to_savepoint w name = Ok (savepoint w0 name).
Proof.
  intros ((F1 & F2 & F3 & F4 & F5) & more & Em & Hmore) Hself. unfold rollback_to_savepoint.
  assert (rposition (wp_savepoints w) name = Some (length (wp_savepoints w0))) as ->.
  { rewrite Em, rposition_app by done. by apply rposition_last. }
  assert (wp_savepoints w !! length (wp_savepoints w0) = Some snap) as ->.
  { rewrite Em, lookup_app_l by (rewrite length_app; simpl; lia). by apply list_lookup_middle. }
  assert (take (S (length (wp_savepoints w0))) (wp_savepoints w) = wp_savepoints w0 ++ [snap]) as ->.
  { rewrite Em. rewrite take_app_le by (rewrite length_app; simpl; lia). apply take_ge. rewrite length_app. simpl. lia. }
  unfold savepoint, set_savepoints, set_staged. cbn. by rewrite F1, F2, F3, F4, F5.
Qed.

Lemma inside_release w : inside w -> same_name name name = true ->
  release_savepoint w name = Ok (set_savepoints w (wp_savepoints w0)).
Proof.
  intros (_ & more & Em & Hmore) Hself. unfold release_savepoint.
  assert (rposition (wp_savepoints w) name = Some (length (wp_savepoints w0))) as ->.
  { rewrite Em, rposition_app by done. by apply rposition_last. }
  do 2 f_equal. rewrite Em, <- app_assoc. by rewrite take_app_length.
Qed.

End Nested.

(** C14: savepoints restore exactly. After any page requests and savepoint
    statements inside a savepoint (allocations, frees, writes, inner savepoints
    released or rolled back), rolling back to it gives the very state in which
    it was opened, releasing it keeps the staged pages and restores the outer
    savepoints, and a full rollback gives what it would have given before. *)
Theorem savepoint_restores (w w' : WritePager) (name : bytes) (os : list txn_op)
    (Hn : Forall (nested w name) os) (Hrun : txn_run os (savepoint w name) = Ok w') :
  rollback_to_savepoint w' name = Ok (savepoint w name) /\
  release_savepoint w' name = Ok (set_savepoints w' (wp_savepoints w)) /\
  rollback w' = rollback w.
Proof.
  assert (same_name name name = true) as Hself by (by apply bool_decide_eq_true).
  assert (inside w name (savepoint w name)) as H0.
  { split; [done|]. exists []. rewrite app_nil_r. by split; [|constructor]. }
  pose proof (inside_run w name os Hn _ _ H0 Hrun) as Hi. split_and!.
  - by apply inside_rollback.
  - by apply inside_release.
  - destruct Hi as ((F1 & F2 & F3 & F4 & F5) & _). unfold rollback, set_savepoints, set_staged. cbn. by rewrite F1, F2, F3, F4, F5.
Qed.

Lemma savepoint_restores_witness :
  exists w', txn_run [Page Alloc; Save [98]; Page (Free 2); RollbackTo [98]; Page (Write 3 (zrep 512 1))] (savepoint demo_wp [97]) = Ok w' /\
  (rollback_to_savepoint w' [97] = Ok (savepoint demo_wp [97]) /\
   release_savepoint w' [97] = Ok (set_savepoints w' (wp_savepoints demo_wp)) /\
   rollback w' = rollback demo_wp).
Proof.
  eexists. split; [vm_compute; reflexivity|].
  apply (savepoint_restores demo_wp _ [97] [Page Alloc; Save [98]; Page (Free 2); RollbackTo [98]; Page (Write 3 (zrep 512 1))]).
  - repeat apply Forall_cons_2; try apply Forall_nil_2; intros n [= <-]; split; (reflexivity || (split; [reflexivity|constructor])).
  - vm_compute. reflexivity.
Defined.

End WritePagerProps.
