(* ===== verification/Writer.v ===== *)
(** The table b-tree writer ([src/src/btree/writer.rs]): cell construction with
    overflow chains, whole-page serialisation, insertion with sibling
    balancing and splits, deletion, and clearing a tree ([free_tree] of
    [src/src/btree/index_writer.rs]).

    The functions thread a [WritePager]. An error drops the state: the source
    leaves a half-changed transaction behind, which the caller rolls back. *)

From S2P Require Import Prelude Varint Header Balance Pager BtPage WritePager.
From stdpp Require Import sorting.
Import BtPage WritePager.
Local Open Scope Z_scope.

Module Writer.

Abbreviation St A := (res (A * WritePager)).

(** A rowid and the raw bytes of its cell; a left child and its separator; the
    cells of an interior page with its right child. *)
Abbreviation LeafCell := (Z * bytes)%type.
Abbreviation InteriorCell := (Z * Z)%type.
Abbreviation InteriorPart := (list (Z * Z) * Z)%type.

Record Split : Type := mkSplit { first_key : Z; siblings : list (Z * Z) }.

(** [PageSource::page] of a write pager. *)
Definition wp_page (w : WritePager) (n : Z) : res Pager.Page :=
  let* d := read_page w n in Ok (Pager.mkPage n d).

Definition read_bt (w : WritePager) (n : Z) : res BtreePage :=
  let* p := wp_page w n in BtPage.parse p.

(** [usable + wp.header().reserved_space]. *)
Definition full_page_size (w : WritePager) : Z :=
  usable_size w + Header.reserved_space (wp_header w).

(** ** Serialising pages *)

Definition write_u16 (buf : bytes) (at_ v : Z) : res bytes :=
  let* buf := set_idx buf at_ (wrap 8 (Z.shiftr v 8)) in
  set_idx buf (at_ + 1) (wrap 8 v).

Definition write_cell_content_start (buf : bytes) (at_ content : Z) : res bytes :=
  write_u16 buf at_ (if 65536 <=? content then 0 else content).

(** The buffer of zeros with the page-1 prefix over it. *)
Definition new_page (page_size : Z) (prefix : option bytes) : res bytes :=
  match prefix with
  | Some h => copy_at (zrep page_size 0) 0 h
  | None => Ok (zrep page_size 0)
  end.

(** The packing loop: cells are laid down from the top of the usable area and
    their offsets stored upwards from [ptr_base]. *)
Fixpoint pack_cells (msg : string) (cells : list bytes) (i ptr_base ptr_end content : Z) (buf : bytes)
    : res (bytes * Z) :=
  match cells with
  | [] => Ok (buf, content)
  | cell :: cells =>
      if (content <? zlen cell) || (content - zlen cell <? ptr_end) then Err (ECorrupt msg)
      else
        let content := content - zlen cell in
        let* buf := copy_at buf content cell in
        let p := ptr_base + 2 * i in
        let* buf := set_idx buf p (wrap 8 (Z.shiftr content 8)) in
        let* buf := set_idx buf (p + 1) (wrap 8 content) in
        pack_cells msg cells (i + 1) ptr_base ptr_end content buf
  end.

Definition serialize_leaf (page_size usable body : Z) (cells : list LeafCell) (prefix : option bytes) : res bytes :=
  let* buf := new_page page_size prefix in
  let ptr_base := body + 8 in
  let ptr_end := ptr_base + 2 * zlen cells in
  let* (buf, content) := pack_cells "leaf page overflow while serializing" (cells.*2) 0 ptr_base ptr_end usable buf in
  let* buf := set_idx buf body 13 in
  let* buf := write_u16 buf (body + 3) (wrap 16 (zlen cells)) in
  write_cell_content_start buf (body + 5) content.

(** [child.to_be_bytes()] followed by the key's varint. *)
Definition interior_cell (c : InteriorCell) : bytes :=
  be_bytes 4 c.1 ++ Varint.to_vec (to_unsigned 64 c.2).

Definition serialize_interior (page_size usable body : Z) (cells : list InteriorCell) (right : Z)
    (prefix : option bytes) : res bytes :=
  let* buf := new_page page_size prefix in
  let ptr_base := body + 12 in
  let ptr_end := ptr_base + 2 * zlen cells in
  let* (buf, content) :=
    pack_cells "interior page overflow while serializing" (interior_cell <$> cells) 0 ptr_base ptr_end usable buf in
  let* buf := set_idx buf body 5 in
  let* buf := write_u16 buf (body + 3) (wrap 16 (zlen cells)) in
  let* buf := write_cell_content_start buf (body + 5) content in
  copy_at buf (body + 8) (be_bytes 4 right).

(** The first hundred bytes of page 1. *)
Definition page_one_prefix (page_no : Z) (bt : BtreePage) : res (option bytes) :=
  if page_no =? 1 then let* p := slice (bt_data bt) 0 Header.HEADER_LEN in Ok (Some p) else Ok None.

Definition sum (l : list Z) : Z := foldr Z.add 0 l.

Definition leaf_fits (cells : list LeafCell) (body usable : Z) : bool :=
  sum ((fun c : LeafCell => zlen c.2 + 2) <$> cells) <=? usable - body - 8.

Definition interior_cell_len (key : Z) : Z := 4 + Varint.len (to_unsigned 64 key).

Definition interior_fits (cells : list InteriorCell) (body usable : Z) : bool :=
  sum ((fun c : InteriorCell => interior_cell_len c.2 + 2) <$> cells) <=? usable - body - 12.

(** ** Reading cells back *)

Fixpoint leaf_cells_from (n : nat) (bt : BtreePage) (usable i : Z) : res (list LeafCell) :=
  match n with
  | O => Ok []
  | S n =>
      let* c := table_leaf_cell bt i usable in
      let* raw := raw_table_leaf_cell bt i usable in
      let* rest := leaf_cells_from n bt usable (i + 1) in
      Ok ((rowid c, raw) :: rest)
  end.

Definition read_leaf_cells (bt : BtreePage) (usable : Z) : res (list LeafCell) :=
  leaf_cells_from (Z.to_nat (num_cells bt)) bt usable 0.

(** The left children and separators of an interior page. *)
Fixpoint interior_cells_from (n : nat) (bt : BtreePage) (i : Z) : res (list InteriorCell) :=
  match n with
  | O => Ok []
  | S n =>
      let* c := child_pointer bt i in
      let* k := table_interior_key bt i in
      let* rest := interior_cells_from n bt (i + 1) in
      Ok ((c, k) :: rest)
  end.

Definition read_interior_cells (bt : BtreePage) : res (list InteriorCell) :=
  interior_cells_from (Z.to_nat (num_cells bt)) bt 0.

(** ** Overflow chains *)

(** [for _ in 0..n_pages { pages.push(wp.allocate_page()?) }]. *)
Fixpoint alloc_pages (n : nat) (w : WritePager) : St (list Z) :=
  match n with
  | O => Ok ([], w)
  | S n =>
      let* (p, w) := allocate_page w in
      let* (ps, w) := alloc_pages n w in
      Ok (p :: ps, w)
  end.

(** The page images of the chain, in order. *)
Fixpoint write_chain (pages : list Z) (i cap page_size : Z) (data : bytes) (w : WritePager) : res WritePager :=
  match pages with
  | [] => Ok w
  | pno :: rest =>
      let next := match rest with [] => 0 | q :: _ => q end in
      let start := i * cap in
      let end_ := Z.min (start + cap) (zlen data) in
      let* buf := copy_at (zrep page_size 0) 0 (be_bytes 4 next) in
      let* chunk := slice data start end_ in
      let* buf := copy_at buf 4 chunk in
      let* w := write_page w pno buf in
      write_chain rest (i + 1) cap page_size data w
  end.

(** [usize::div_ceil]. *)
Definition div_ceil (a b : Z) : Z := if a mod b =? 0 then a / b else a / b + 1.

Definition write_overflow_chain (w : WritePager) (data : bytes) : St Z :=
  if usable_size w <? 5 then Panic
  else
    let cap := usable_size w - 4 in
    let n_pages := div_ceil (zlen data) cap in
    let* (pages, w) := alloc_pages (Z.to_nat n_pages) w in
    let page_size := full_page_size w in
    let* w := write_chain pages 0 cap page_size data w in
    let* first := idx pages 0 in
    Ok (first, w).

Definition build_leaf_cell (w : WritePager) (rid : Z) (payload : bytes) : St bytes :=
  let usable := usable_size w in
  let* (local_len, has_overflow) := payload_split LeafTable usable (zlen payload) in
  let* local := slice payload 0 local_len in
  let cell := Varint.to_vec (zlen payload) ++ Varint.to_vec (to_unsigned 64 rid) ++ local in
  if has_overflow then
    let* rest := slice_from payload local_len in
    let* (first, w) := write_overflow_chain w rest in
    Ok (cell ++ be_bytes 4 first, w)
  else Ok (cell, w).

(** [while first != 0]: free every page of a chain. *)
Fixpoint free_overflow_chain (fuel : nat) (w : WritePager) (first : Z) : res WritePager :=
  if first =? 0 then Ok w
  else
    match fuel with
    | O => Panic
    | S fuel =>
        let* page := read_page w first in
        let* next := be_u32 page 0 in
        let* w := free_page w first in
        free_overflow_chain fuel w next
    end.

(** ** Insertion *)

Inductive Up : Type := Fit | LeafOverfull (cells : list LeafCell) | UpSplit (s : Split).

(** [slice::binary_search_by]: [inl] the position of a match, [inr] the place
    to insert. *)
Fixpoint bsearch_loop (fuel : nat) (cells : list LeafCell) (rid base size : Z) : res Z :=
  match fuel with
  | O => Panic
  | S fuel =>
      if 1 <? size then
        let half := size / 2 in
        let mid := base + half in
        let* c := idx cells mid in
        bsearch_loop fuel cells rid (if rid <? c.1 then base else mid) (size - half)
      else Ok base
  end.

Definition binary_search (cells : list LeafCell) (rid : Z) : res (Z + Z) :=
  if zlen cells =? 0 then Ok (inr 0)
  else
    let* base := bsearch_loop (S (length cells)) cells rid 0 (zlen cells) in
    let* c := idx cells base in
    if c.1 =? rid then Ok (inl base)
    else if c.1 <? rid then Ok (inr (base + 1)) else Ok (inr base).

(** [cells[pos] = cell] or [cells.insert(pos, cell)]. *)
Definition place_cell (cells : list LeafCell) (rid : Z) (cell : bytes) : res (list LeafCell) :=
  let* pos := binary_search cells rid in
  match pos with
  | inl p => set_idx cells p (rid, cell)
  | inr p =>
      if zlen cells <? p then Panic
      else Ok (take (Z.to_nat p) cells ++ (rid, cell) :: drop (Z.to_nat p) cells)
  end.

(** The first divider that is at least [rid], else the right child. *)
Fixpoint find_child (dividers : list Z) (rid : Z) : Z :=
  match dividers with
  | [] => 0
  | d :: ds => if rid <=? d then 0 else 1 + find_child ds rid
  end.

(** [Vec::splice(a..b, xs)]. *)
Definition splice {A} (l : list A) (a b : Z) (xs : list A) : res (list A) :=
  if (0 <=? a) && (a <=? b) && (b <=? zlen l)
  then Ok (take (Z.to_nat a) l ++ xs ++ drop (Z.to_nat b) l) else Panic.

Definition adopt_split (children dividers : list Z) (p : Z) (s : Split) : res (list Z * list Z) :=
  match last (siblings s) with
  | None => Panic
  | Some lst =>
      if p <? zlen dividers then
        let* old_div := idx dividers p in
        let new_divs := first_key s :: (removelast (siblings s)).*1 ++ [old_div] in
        let* children := splice children (p + 1) (p + 1) ((siblings s).*2) in
        let* dividers := splice dividers p (p + 1) new_divs in
        Ok (children, dividers)
      else
        Ok (children ++ (removelast (siblings s)).*2 ++ [lst.2],
            dividers ++ first_key s :: (removelast (siblings s)).*1)
  end.

(** [while b < n]: how far the current group of an interior split reaches. *)
Fixpoint group_end (cells : list InteriorCell) (first : bool) (used cap b : Z) : Z :=
  match cells with
  | [] => b
  | c :: cells =>
      let need := interior_cell_len c.2 + 2 in
      if first || (used + need <=? cap) then group_end cells false (used + need) cap (b + 1) else b
  end.

(** The [loop] of [pack_interior], from child index [i] on. *)
Fixpoint pack_groups (fuel : nat) (cells : list InteriorCell) (right body usable i : Z)
    : res (list InteriorPart * list Z) :=
  match fuel with
  | O => Panic
  | S fuel =>
      let n := zlen cells in
      let cap := sat_sub usable (body + 12) in
      let b := group_end (drop (Z.to_nat i) cells) true 0 cap i in
      if n <=? b then
        let* g := slice cells i n in Ok ([(g, right)], [])
      else
        let bb := if (b =? n - 1) && (i + 1 <? b) then b - 1 else b in
        let* g := slice cells i bb in
        let* c := idx cells bb in
        let* (parts, seps) := pack_groups fuel cells right 0 usable (bb + 1) in
        Ok ((g, c.1) :: parts, c.2 :: seps)
  end.

Definition pack_interior (cells : list InteriorCell) (right body0 usable : Z) : res (list InteriorPart * list Z) :=
  pack_groups (S (length cells)) cells right body0 usable 0.

(** The sibling pages of an interior split. *)
Fixpoint write_parts (parts : list InteriorPart) (seps : list Z) (page_size usable : Z) (w : WritePager)
    : St (list (Z * Z)) :=
  match parts with
  | [] => Ok ([], w)
  | (pc, pr) :: parts =>
      let* (pg, w) := allocate_page w in
      let* buf := serialize_interior page_size usable 0 pc pr None in
      let* w := write_page w pg buf in
      let key := match seps with k :: _ => k | [] => 2 ^ 63 - 1 end in
      let* (rest, w) := write_parts parts (tail seps) page_size usable w in
      Ok ((key, pg) :: rest, w)
  end.

Definition finish_interior (w : WritePager) (page_no body page_size usable : Z) (children dividers : list Z)
    (prefix : option bytes) : St Up :=
  if zlen children <? zlen dividers then Panic
  else
    let cells := zip children dividers in
    match last children with
    | None => Panic
    | Some rgt =>
        if interior_fits cells body usable then
          let* buf := serialize_interior page_size usable body cells rgt prefix in
          let* w := write_page w page_no buf in
          Ok (Fit, w)
        else
          let* (parts, seps) := pack_interior cells rgt body usable in
          match parts, seps with
          | [(pc, pr)], _ =>
              let* buf := serialize_interior page_size usable body pc pr prefix in
              let* w := write_page w page_no buf in
              Ok (Fit, w)
          | (pc, pr) :: parts, k :: seps =>
              let* buf := serialize_interior page_size usable body pc pr prefix in
              let* w := write_page w page_no buf in
              let* (sibs, w) := write_parts parts seps page_size usable w in
              Ok (UpSplit (mkSplit k sibs), w)
          | _, _ => Panic
          end
    end.

(** Freeing the surplus pages of a balance. *)
Fixpoint free_pages (pages : list Z) (w : WritePager) : res WritePager :=
  match pages with
  | [] => Ok w
  | p :: pages => let* w := free_page w p in free_pages pages w
  end.

(** One leaf per slice; the dividers are the last rowids of all but the last. *)
Fixpoint write_slices (cnt kept : list Z) (pooled : list LeafCell) (start page_size usable : Z) (w : WritePager)
    : St (list Z) :=
  match cnt, kept with
  | [], _ => Ok ([], w)
  | end_ :: cnt, pg :: kept =>
      let* s := slice pooled start end_ in
      let* buf := serialize_leaf page_size usable 0 s None in
      let* w := write_page w pg buf in
      match cnt with
      | [] => Ok ([], w)
      | _ =>
          match last s with
          | None => Panic
          | Some c =>
              let* (ds, w) := write_slices cnt kept pooled end_ page_size usable w in
              Ok (c.1 :: ds, w)
          end
      end
  | _, [] => Panic
  end.

Definition balance_leaf_pooled (w : WritePager) (old_pages : list Z) (pooled : list LeafCell) (cnt_old : list Z)
    : St (list Z * list Z) :=
  let usable := usable_size w in
  let page_size := full_page_size w in
  let* cnt_new := Balance.distribute ((fun c : LeafCell => zlen c.2) <$> pooled) cnt_old true true usable in
  let n_new := length cnt_new in
  let n_old := length old_pages in
  let* (fresh, w) := alloc_pages (n_new - n_old) w in
  let* w := free_pages (drop (n_new `min` n_old) old_pages) w in
  let kept := merge_sort Z.le (take n_new old_pages ++ fresh) in
  let* (dividers, w) := write_slices cnt_new kept pooled 0 page_size usable w in
  Ok ((kept, dividers), w).

(** Pooling the window's cells; [cnt_old] are the running totals. *)
Fixpoint pool_window (w : WritePager) (pages : list Z) (at_ p : Z) (child_cells pooled : list LeafCell)
    : res (list LeafCell * list Z) :=
  match pages with
  | [] => Ok (pooled, [])
  | pg :: pages =>
      let* cells := if at_ =? p then Ok child_cells
                    else let* bt := read_bt w pg in read_leaf_cells bt (usable_size w) in
      let pooled := pooled ++ cells in
      let* (all, cnt) := pool_window w pages (at_ + 1) p child_cells pooled in
      Ok (all, zlen pooled :: cnt)
  end.

Definition balance_leaf_into (w : WritePager) (children dividers : list Z) (p : Z) (child_cells : list LeafCell)
    : St (list Z * list Z) :=
  let* (w0, n_old) := Balance.sibling_window p (zlen children) in
  let* old_pages := slice children w0 (w0 + n_old) in
  let* (pooled, cnt_old) := pool_window w old_pages w0 p child_cells [] in
  let* (pd, w) := balance_leaf_pooled w old_pages pooled cnt_old in
  let '(pages, new_dividers) := pd in
  let* children := splice children w0 (w0 + n_old) pages in
  let* dividers := splice dividers w0 (w0 + n_old - 1) new_dividers in
  Ok ((children, dividers), w).

(** [insert_rec]; [depth] turns are left of the limit of twenty. *)
Fixpoint insert_rec (depth : nat) (w : WritePager) (page_no rid : Z) (cell : bytes) : St Up :=
  match depth with
  | O => Err (ECorrupt "b-tree depth limit exceeded")
  | S depth =>
      let* page := wp_page w page_no in
      let body := Pager.body_offset page in
      let* bt := BtPage.parse page in
      let usable := usable_size w in
      let page_size := full_page_size w in
      match page_type bt with
      | LeafTable =>
          let* cells := read_leaf_cells bt usable in
          let* cells := place_cell cells rid cell in
          if leaf_fits cells body usable then
            let* prefix := page_one_prefix page_no bt in
            let* buf := serialize_leaf page_size usable body cells prefix in
            let* w := write_page w page_no buf in
            Ok (Fit, w)
          else Ok (LeafOverfull cells, w)
      | InteriorTable =>
          let* icells := read_interior_cells bt in
          let children := icells.*1 ++ [right_pointer bt] in
          let dividers := icells.*2 in
          let* prefix := page_one_prefix page_no bt in
          let p := find_child dividers rid in
          let* child := idx children p in
          let* (up, w) := insert_rec depth w child rid cell in
          match up with
          | Fit => Ok (Fit, w)
          | LeafOverfull child_cells =>
              let* (cd, w) := balance_leaf_into w children dividers p child_cells in
              finish_interior w page_no body page_size usable cd.1 cd.2 prefix
          | UpSplit s =>
              let* (children, dividers) := adopt_split children dividers p s in
              finish_interior w page_no body page_size usable children dividers prefix
          end
      | _ => Err (ECorrupt "insert into a non-table b-tree")
      end
  end.

Definition root_body (root : Z) : Z := if root =? 1 then Header.HEADER_LEN else 0.

Definition deepen_leaf_root (w : WritePager) (root : Z) (cells : list LeafCell) : res WritePager :=
  let usable := usable_size w in
  let page_size := full_page_size w in
  let* bt := read_bt w root in
  let* prefix := page_one_prefix root bt in
  let* (child0, w) := allocate_page w in
  let* (pd, w) := balance_leaf_pooled w [child0] cells [zlen cells] in
  let '(pages, dividers) := pd in
  if zlen pages <? zlen dividers then Panic
  else
    match last pages with
    | None => Panic
    | Some rgt =>
        let* buf := serialize_interior page_size usable (root_body root) (zip pages dividers) rgt prefix in
        write_page w root buf
    end.

Definition reserialize (bt : BtreePage) (usable page_size : Z) : res bytes :=
  match page_type bt with
  | LeafTable =>
      let* cells := read_leaf_cells bt usable in serialize_leaf page_size usable 0 cells None
  | InteriorTable =>
      let* cells := read_interior_cells bt in
      serialize_interior page_size usable 0 cells (right_pointer bt) None
  | _ => Err (ECorrupt "relocate of non-table page")
  end.

Definition grow_root (w : WritePager) (root : Z) (s : Split) : res WritePager :=
  let usable := usable_size w in
  let page_size := full_page_size w in
  let* old := wp_page w root in
  let body := Pager.body_offset old in
  let* bt := BtPage.parse old in
  let* prefix := page_one_prefix root bt in
  let* (new_left, w) := allocate_page w in
  let* relocated := reserialize bt usable page_size in
  let* w := write_page w new_left relocated in
  match last (siblings s) with
  | None => Panic
  | Some lst =>
      let cells := (new_left, first_key s) :: ((fun x : Z * Z => (x.2, x.1)) <$> removelast (siblings s)) in
      let* buf := serialize_interior page_size usable body cells lst.2 prefix in
      write_page w root buf
  end.

Definition insert_table (w : WritePager) (root rid : Z) (payload : bytes) : res WritePager :=
  let* (cell, w) := build_leaf_cell w rid payload in
  let* (up, w) := insert_rec 20 w root rid cell in
  match up with
  | Fit => Ok w
  | UpSplit s => grow_root w root s
  | LeafOverfull cells => deepen_leaf_root w root cells
  end.

Definition create_table_root (w : WritePager) : St Z :=
  let* (root, w) := allocate_page w in
  let* buf := serialize_leaf (full_page_size w) (usable_size w) 0 [] None in
  let* w := write_page w root buf in
  Ok (root, w).

(** ** Deletion *)

(** [cells.iter().position(|(r, _)| *r == rowid)]. *)
Definition position (cells : list LeafCell) (rid : Z) : option nat :=
  fst <$> list_find (fun c : LeafCell => c.1 = rid) cells.

(** The overflow page of the first cell with the rowid. *)
Fixpoint find_overflow (n : nat) (bt : BtreePage) (usable rid i : Z) : res Z :=
  match n with
  | O => Ok 0
  | S n =>
      let* c := table_leaf_cell bt i usable in
      if rowid c =? rid then Ok (overflow (tl_payload c)) else find_overflow n bt usable rid (i + 1)
  end.

(** [for i in 0..n { if rowid <= key(i) { next = child(i); break } }]. *)
Fixpoint delete_child (n : nat) (bt : BtreePage) (rid i : Z) : res Z :=
  match n with
  | O => Ok (right_pointer bt)
  | S n =>
      let* k := table_interior_key bt i in
      if rid <=? k then child_pointer bt i else delete_child n bt rid (i + 1)
  end.

Fixpoint delete_table (fuel : nat) (w : WritePager) (page_no rid : Z) : St bool :=
  match fuel with
  | O => Panic
  | S fuel =>
      let* page := wp_page w page_no in
      let body := Pager.body_offset page in
      let* bt := BtPage.parse page in
      let usable := usable_size w in
      let page_size := full_page_size w in
      match page_type bt with
      | LeafTable =>
          let* cells := read_leaf_cells bt usable in
          match position cells rid with
          | None => Ok (false, w)
          | Some pos =>
              let* ov := find_overflow (Z.to_nat (num_cells bt)) bt usable rid 0 in
              let cells := take pos cells ++ drop (S pos) cells in
              let* prefix := page_one_prefix page_no bt in
              let* buf := serialize_leaf page_size usable body cells prefix in
              let* w := write_page w page_no buf in
              let* w := free_overflow_chain fuel w ov in
              Ok (true, w)
          end
      | InteriorTable =>
          let* next := delete_child (Z.to_nat (num_cells bt)) bt rid 0 in
          delete_table fuel w next rid
      | _ => Err (ECorrupt "delete from a non-table b-tree")
      end
  end.

(** ** Clearing *)

(** The overflow chains of a table leaf, from cell [i] on. *)
Fixpoint free_leaf_chains (n fuel : nat) (bt : BtreePage) (usable i : Z) (w : WritePager) : res WritePager :=
  match n with
  | O => Ok w
  | S n =>
      let* c := table_leaf_cell bt i usable in
      let* w := free_overflow_chain fuel w (overflow (tl_payload c)) in
      free_leaf_chains n fuel bt usable (i + 1) w
  end.

Fixpoint free_index_chains (n fuel : nat) (bt : BtreePage) (usable i : Z) (w : WritePager) : res WritePager :=
  match n with
  | O => Ok w
  | S n =>
      let* c := index_cell bt i usable in
      let* w := free_overflow_chain fuel w (overflow (ix_payload c)) in
      free_index_chains n fuel bt usable (i + 1) w
  end.

Fixpoint free_tree (fuel : nat) (w : WritePager) (root : Z) : res WritePager :=
  match fuel with
  | O => Panic
  | S fuel =>
      let usable := usable_size w in
      let* bt := read_bt w root in
      let n := Z.to_nat (num_cells bt) in
      let* w :=
        match page_type bt with
        | LeafTable => free_leaf_chains n fuel bt usable 0 w
        | LeafIndex => free_index_chains n fuel bt usable 0 w
        | InteriorTable | InteriorIndex =>
            let* w :=
              (fix kids (n : nat) (i : Z) (w : WritePager) : res WritePager :=
                 match n with
                 | O => Ok w
                 | S n =>
                     let* w := if bool_decide (page_type bt = InteriorIndex)
                               then let* c := index_cell bt i usable in
                                    free_overflow_chain fuel w (overflow (ix_payload c))
                               else Ok w in
                     let* c := child_pointer bt i in
                     let* w := free_tree fuel w c in
                     kids n (i + 1) w
                 end) n 0 w in
            free_tree fuel w (right_pointer bt)
        end in
      free_page w root
  end.

Definition clear_table (fuel : nat) (w : WritePager) (root : Z) : res WritePager :=
  let usable := usable_size w in
  let page_size := full_page_size w in
  let* bt := read_bt w root in
  let* prefix := page_one_prefix root bt in
  let n := Z.to_nat (num_cells bt) in
  let* w :=
    match page_type bt with
    | LeafTable => free_leaf_chains n fuel bt usable 0 w
    | InteriorTable =>
        let* w :=
          (fix kids (n : nat) (i : Z) (w : WritePager) : res WritePager :=
             match n with
             | O => Ok w
             | S n =>
                 let* c := child_pointer bt i in
                 let* w := free_tree fuel w c in
                 kids n (i + 1) w
             end) n 0 w in
        free_tree fuel w (right_pointer bt)
    | _ => Err (ECorrupt "clear of a non-table b-tree")
    end in
  let* empty := serialize_leaf page_size usable (root_body root) [] prefix in
  write_page w root empty.

(** [table_has_empty_leaf] and its inner [walk]. *)
Fixpoint walk_empty (fuel : nat) (src : Pager.PageSource) (page_no : Z) : res bool :=
  match fuel with
  | O => Panic
  | S fuel =>
      let* p := Pager.src_page src page_no in
      let* bt := BtPage.parse p in
      match page_type bt with
      | LeafTable => Ok (num_cells bt =? 0)
      | InteriorTable =>
          let* found :=
            (fix kids (n : nat) (i : Z) : res bool :=
               match n with
               | O => Ok false
               | S n =>
                   let* c := child_pointer bt i in
                   let* e := walk_empty fuel src c in
                   if e then Ok true else kids n (i + 1)
               end) (Z.to_nat (num_cells bt)) 0 in
          if found then Ok true else walk_empty fuel src (right_pointer bt)
      | _ => Ok false
      end
  end.

Definition table_has_empty_leaf (fuel : nat) (src : Pager.PageSource) (root : Z) : res bool :=
  let* p := Pager.src_page src root in
  let* bt := BtPage.parse p in
  if bool_decide (page_type bt = LeafTable) then Ok false else walk_empty fuel src root.

End Writer.
