(* ===== verification/WriterPages.v ===== *)
(** Pages written by the table writer read back ([Writer] against [BtPage]):
    the images [serialize_leaf] and [serialize_interior] produce parse, and
    their cells, separators and children are the ones they were given. *)

From S2P Require Import Prelude Varint Header Vfs Pager BtPage WritePager Writer.
Import BtPage Writer.
Local Open Scope Z_scope.

Module WriterPages.

(** ** Buffer updates *)

Lemma copy_at_other (l l' d : bytes) a lo hi : copy_at l a d = Ok l' -> 0 <= lo <= hi -> hi <= zlen l ->
  hi <= a \/ a + zlen d <= lo -> sub l' lo hi = sub l lo hi.
Proof.
  intros E Hr Hz Hd. pose proof (zlen_copy_at _ _ _ _ E) as Hl. apply sub_ext; [lia..|].
  intros i Hi. rewrite (Vfs.lookup_copy_at _ _ _ _ _ E) by lia.
  destruct (Z.leb_spec a i), (Z.ltb_spec i (a + zlen d)); simpl; lia || done.
Qed.

(** Everything there is to know about a copy in range. *)
Lemma copy_at_facts l a d : 0 <= a -> a + zlen d <= zlen l -> is_bytes l -> is_bytes d ->
  exists l', copy_at l a d = Ok l' /\ zlen l' = zlen l /\ is_bytes l' /\ sub l' a (a + zlen d) = d /\
    forall lo hi, 0 <= lo <= hi -> hi <= zlen l -> hi <= a \/ a + zlen d <= lo -> sub l' lo hi = sub l lo hi.
Proof.
  intros Ha Hz Hl Hd. pose proof (copy_at_Ok l a d Ha Hz) as E. eexists. split; [done|].
  split; [by apply zlen_copy_at in E|]. split.
  - apply is_bytes_app. split; [by apply is_bytes_take|]. apply is_bytes_app. split; [done|by apply is_bytes_drop].
  - split; [by apply Vfs.copy_at_sub in E|]. intros lo hi. by apply (copy_at_other _ _ _ _ _ _ E).
Qed.

Lemma set_idx_copy (l : bytes) i x : 0 <= i < zlen l -> set_idx l i x = copy_at l i [x].
Proof.
  intros Hi. rewrite set_idx_Ok by done. rewrite copy_at_Ok by (rewrite ?zlen_cons, ?zlen_nil; lia). f_equal.
  rewrite insert_take_drop by (unfold zlen in Hi; lia). do 2 f_equal. f_equal. simpl. lia.
Qed.

Lemma be_bytes_2 v : be_bytes 2 v = [wrap 8 (Z.shiftr v 8); wrap 8 v].
Proof. unfold wrap. rewrite Z.shiftr_div_pow2 by lia. done. Qed.

Lemma be16_bytes v : is_u16 v -> be_val (be_bytes 2 v) = v.
Proof. intros H. rewrite be_val_be_bytes. by apply Z.mod_small. Qed.

(** Two single-byte stores are one two-byte copy. *)
Lemma write_u16_copy (b : bytes) p v : 0 <= p -> p + 2 <= zlen b -> write_u16 b p v = copy_at b p (be_bytes 2 v).
Proof.
  intros Hp Hz. unfold write_u16. rewrite set_idx_Ok by lia. bind_step.
  rewrite set_idx_Ok by (rewrite zlen_insert; lia).
  rewrite be_bytes_2, copy_at_Ok by (rewrite ?zlen_cons, ?zlen_nil; lia). f_equal.
  unfold zlen in Hz. rewrite (insert_take_drop _ (Z.to_nat (p + 1))) by (rewrite length_insert; lia).
  replace (Z.to_nat (p + 1)) with (S (Z.to_nat p)) by lia.
  rewrite drop_insert_lt by lia. simpl.
  rewrite (take_S_r _ (Z.to_nat p) (wrap 8 (Z.shiftr v 8))) by (apply list_lookup_insert_eq; lia).
  rewrite take_insert_ge by lia. rewrite <- app_assoc. simpl. do 3 f_equal. f_equal. lia.
Qed.

Lemma write_u16_facts b p v : 0 <= p -> p + 2 <= zlen b -> is_bytes b ->
  exists b', write_u16 b p v = Ok b' /\ zlen b' = zlen b /\ is_bytes b' /\ sub b' p (p + 2) = be_bytes 2 v /\
    forall lo hi, 0 <= lo <= hi -> hi <= zlen b -> hi <= p \/ p + 2 <= lo -> sub b' lo hi = sub b lo hi.
Proof.
  intros Hp Hz Hb. rewrite write_u16_copy by done.
  destruct (copy_at_facts b p (be_bytes 2 v)) as (b' & H1 & H2 & H3 & H4 & H5); try done.
  { apply is_bytes_be_bytes. }
  exists b'. split_and!; try done.
Qed.

Lemma set_idx_facts b i x : 0 <= i < zlen b -> is_u8 x -> is_bytes b ->
  exists b', set_idx b i x = Ok b' /\ zlen b' = zlen b /\ is_bytes b' /\ sub b' i (i + 1) = [x] /\
    forall lo hi, 0 <= lo <= hi -> hi <= zlen b -> hi <= i \/ i + 1 <= lo -> sub b' lo hi = sub b lo hi.
Proof.
  intros Hi Hx Hb. rewrite set_idx_copy by done.
  destruct (copy_at_facts b i [x]) as (b' & H1 & H2 & H3 & H4 & H5); try done; [lia|rewrite zlen_cons, zlen_nil; lia| |].
  { by apply Forall_singleton. }
  exists b'. rewrite zlen_cons, zlen_nil in *. split_and!; try done.
Qed.

(** ** Packing cells *)

Definition total (cs : list bytes) : Z := foldr (fun c a => zlen c + a) 0 cs.

Lemma total_nonneg cs : 0 <= total cs.
Proof. induction cs as [|c cs IH]; simpl; [lia|]. pose proof (zlen_nonneg c). lia. Qed.

Lemma pack_cells_spec msg pb pe : 0 <= pb -> forall cs i c buf,
  0 <= i -> pb + 2 * (i + zlen cs) <= pe -> pe + total cs <= c -> c <= zlen buf -> c <= 65536 ->
  is_bytes buf -> Forall (fun x => is_bytes x /\ 1 <= zlen x) cs ->
  exists buf', pack_cells msg cs i pb pe c buf = Ok (buf', c - total cs) /\ zlen buf' = zlen buf /\ is_bytes buf' /\
    (forall lo hi, 0 <= lo <= hi -> hi <= zlen buf -> hi <= pb + 2 * i \/ pe <= lo /\ hi <= c - total cs \/ c <= lo ->
       sub buf' lo hi = sub buf lo hi) /\
    (forall j x, cs !! j = Some x -> exists off, be_u16 buf' (pb + 2 * (i + Z.of_nat j)) = Ok off /\
       c - total cs <= off /\ off + zlen x <= c /\ sub buf' off (off + zlen x) = x).
Proof.
  intros Hpb. induction cs as [|x cs IH]; intros i c buf Hi Hpe Hc Hz Hc16 Hb Hcs; cbn [pack_cells total foldr] in *.
  { exists buf. rewrite Z.sub_0_r. split_and!; try done. }
  rewrite zlen_cons in Hpe. apply Forall_cons in Hcs as [[Hx Hx1] Hcs]. fold (total cs) in *.
  pose proof (total_nonneg cs) as Ht. pose proof (zlen_nonneg cs) as Hcsn.
  destruct (Z.ltb_spec c (zlen x)); [lia|]. destruct (Z.ltb_spec (c - zlen x) pe); [lia|]. cbn [orb].
  destruct (copy_at_facts buf (c - zlen x) x) as (b1 & E1 & Hz1 & Hb1 & Hs1 & Ho1); [lia..|done|done|]. rewrite E1. bind_step.
  replace (c - zlen x + zlen x) with c in * by lia.
  destruct (write_u16_facts b1 (pb + 2 * i) (c - zlen x)) as (b2 & E2 & Hz2 & Hb2 & Hs2 & Ho2); [lia..|done|].
  unfold write_u16 in E2. apply res_bind_Ok in E2 as (b1' & E2 & E2'). rewrite E2. bind_step. rewrite E2'. bind_step.
  destruct (IH (i + 1) (c - zlen x) b2) as (buf' & E & Hz' & Hb' & Ho & Hget); [lia..|done|done|]. rewrite E.
  exists buf'. split_and!; [do 2 f_equal; lia|lia|done| |].
  - intros lo hi Hr Hh Hd. rewrite Ho by lia. rewrite Ho2 by lia. apply Ho1; lia.
  - intros [|j] y Hy.
    + injection Hy as <-. exists (c - zlen x). rewrite Z.add_0_r. split_and!; [|lia|lia|].
      * rewrite be_u16_Ok by lia. rewrite Ho by lia. rewrite Hs2. f_equal. apply be16_bytes. unfold is_uint. lia.
      * rewrite Ho by lia. rewrite Ho2 by lia. by replace (c - zlen x + zlen x) with c by lia.
    + destruct (Hget j y Hy) as (off & Eo & H1 & H2 & H3). exists off. split_and!; [|lia|lia|done].
      rewrite <- Eo. f_equal. lia.
Qed.

(** ** Raw leaf cells *)

Lemma decode_loop_local buf buf' v n todo : forall i r, (i + todo = 8)%nat ->
  Varint.decode_loop buf todo i r = Some (v, n) ->
  (forall j, Z.of_nat j < n -> buf' !! j = buf !! j) ->
  Z.of_nat i < n /\ Varint.decode_loop buf' todo i r = Some (v, n).
Proof.
  induction todo as [|todo IH]; intros i r Hi E Hj; cbn [Varint.decode_loop] in *.
  - destruct (buf !! 8%nat) eqn:E8; [|done]. injection E as <- <-. split; [lia|]. by rewrite Hj, E8 by lia.
  - destruct (buf !! i) as [b|] eqn:Eb; [|done]. destruct (Z.land b 128 =? 0) eqn:Ec.
    + injection E as <- <-. split; [lia|]. rewrite Hj, Eb by lia. by rewrite Ec.
    + destruct (IH (S i) _ ltac:(lia) E Hj) as [Hn E']. split; [lia|]. rewrite Hj, Eb by lia. by rewrite Ec.
Qed.

(** A varint reads only its own bytes. *)
Lemma decode_local buf buf' v n : Varint.decode buf = Some (v, n) ->
  (forall j, Z.of_nat j < n -> buf' !! j = buf !! j) -> Varint.decode buf' = Some (v, n).
Proof. intros E Hj. by apply (decode_loop_local buf buf' v n 8 0 0). Qed.

Lemma decode_app buf rest v n : Varint.decode buf = Some (v, n) -> Varint.decode (buf ++ rest) = Some (v, n).
Proof. apply Varint.decode_loop_app. Qed.

Lemma decode_i64_app buf rest v n : Varint.decode_i64 buf = Some (v, n) -> Varint.decode_i64 (buf ++ rest) = Some (v, n).
Proof.
  unfold Varint.decode_i64. destruct (Varint.decode buf) as [[x m]|] eqn:E; [|done].
  by rewrite (decode_app _ rest _ _ E).
Qed.

Lemma decode_i64_local buf buf' v n : Varint.decode_i64 buf = Some (v, n) ->
  (forall j, Z.of_nat j < n -> buf' !! j = buf !! j) -> Varint.decode_i64 buf' = Some (v, n).
Proof.
  unfold Varint.decode_i64. destruct (Varint.decode buf) as [[x m]|] eqn:E; [|done]. intros [= <- <-] Hj.
  by rewrite (decode_local buf buf' x m E Hj).
Qed.

Lemma decode_i64_inv buf v n : is_bytes buf -> Varint.decode_i64 buf = Some (v, n) -> is_i64 v /\ 1 <= n <= Z.min 9 (zlen buf).
Proof.
  intros Hb E. pose proof (safe_decode_i64 buf EBusy Hb) as H. rewrite E in H. exact H.
Qed.

Definition local_part (usable plen : Z) : Z := (split_value LeafTable usable plen).1.
Definition spills (usable plen : Z) : bool := (split_value LeafTable usable plen).2.

(** A raw leaf cell: the two varints, the local payload and, when the payload
    spills, the number of its first overflow page. *)
Record cell_parts (usable : Z) (raw : bytes) (plen rid n1 n2 : Z) : Prop := {
  cp_bytes : is_bytes raw;
  cp_plen : Varint.decode raw = Some (plen, n1);
  cp_rid : Varint.decode_i64 (drop (Z.to_nat n1) raw) = Some (rid, n2);
  cp_len : zlen raw = n1 + n2 + local_part usable plen + (if spills usable plen then 4 else 0)
}.

Definition cell_ok (usable : Z) (c : LeafCell) : Prop := exists plen n1 n2, cell_parts usable c.2 plen c.1 n1 n2.

Definition raw_overflow (usable plen : Z) (raw : bytes) : Z :=
  if spills usable plen then be_val (sub raw (zlen raw - 4) (zlen raw)) else 0.

Lemma cell_parts_bounds usable raw plen rid n1 n2 : 0 <= usable -> cell_parts usable raw plen rid n1 n2 ->
  is_u64 plen /\ is_i64 rid /\ 1 <= n1 <= 9 /\ 1 <= n2 <= 9 /\ 0 <= local_part usable plen <= plen /\
  n1 + n2 + local_part usable plen <= zlen raw.
Proof.
  intros Hu [Hb E1 E2 Hl]. pose proof (Varint.decode_inv _ _ _ Hb E1) as (Hp & Hn1 & Hz1 & _).
  pose proof (Varint.len_range plen).
  pose proof (is_bytes_drop (Z.to_nat n1) _ Hb) as Hb2. pose proof (decode_i64_inv _ _ _ Hb2 E2) as [Hr _].
  assert (1 <= n2 <= 9) as Hn2.
  { unfold Varint.decode_i64 in E2. destruct (Varint.decode (drop (Z.to_nat n1) raw)) as [[x m]|] eqn:E; [|done].
    injection E2 as <- <-. pose proof (Varint.decode_inv _ _ _ Hb2 E) as (_ & ? & _). pose proof (Varint.len_range x). lia. }
  unfold is_uint in Hp. pose proof (split_value_local LeafTable usable plen ltac:(lia) Hu) as [? _].
  unfold local_part in *. split_and!; try (done || lia). destruct (spills usable plen); lia.
Qed.

Lemma slice_from_sub (d raw : bytes) off k : 0 <= off -> 0 <= k <= zlen raw -> off + zlen raw <= zlen d ->
  sub d off (off + zlen raw) = raw ->
  exists rest, slice_from d (off + k) = Ok (drop (Z.to_nat k) raw ++ rest).
Proof.
  intros Ho Hk Hz Hs. unfold slice_from. rewrite slice_Ok by lia. eexists. f_equal.
  rewrite <- (sub_app_split d (off + k) (off + zlen raw) (zlen d)) by lia. f_equal.
  unfold sub in Hs |- *. rewrite <- Hs at 2. rewrite skipn_firstn_comm, drop_drop.
  replace (off + zlen raw - (off + k)) with (zlen raw - k) by lia. replace (off + zlen raw - off) with (zlen raw) by lia.
  unfold zlen in *. f_equal; [lia|]. f_equal. lia.
Qed.

(** Reading the cell that sits at its offset. *)
Lemma leaf_cell_at bt i usable off raw plen rid n1 n2 : page_type bt = LeafTable -> cell_offset bt i = Ok off ->
  0 <= off -> off + zlen raw <= zlen (bt_data bt) -> sub (bt_data bt) off (off + zlen raw) = raw -> usable_ok usable -> zlen (bt_data bt) < 2 ^ 32 ->
  cell_parts usable raw plen rid n1 n2 ->
  table_leaf_cell bt i usable =
    Ok (mkLeafCell rid (mkPayload plen (off + n1 + n2) (local_part usable plen) (raw_overflow usable plen raw))) /\
  raw_table_leaf_cell bt i usable = Ok raw.
Proof.
  intros Ht Eo Ho Hz Hs Hu Hd Hc. pose proof (cell_parts_bounds _ _ _ _ _ _ (proj1 Hu) Hc) as (Hp & Hr & H1 & H2 & Hl & Hsum).
  pose proof Hc as [Hb E1 E2 Hlen]. unfold table_leaf_cell, raw_table_leaf_cell. rewrite Ht, bool_decide_true by done.
  cbn [negb]. rewrite Eo. do 2 bind_step.
  destruct (slice_from_sub (bt_data bt) raw off 0) as [r0 Er0]; [lia..|done|]. rewrite Z.add_0_r in Er0. rewrite Er0. do 2 bind_step.
  rewrite drop_0 in *. rewrite (decode_app _ r0 _ _ E1). cbn [ok_or]. do 2 bind_step.
  destruct (slice_from_sub (bt_data bt) raw off n1) as [r1 Er1]; [lia..|done|]. rewrite Er1. do 2 bind_step.
  rewrite (decode_i64_app _ r1 _ _ E2). cbn [ok_or]. do 2 bind_step. rewrite payload_at_value, payload_split_Ok by (unfold is_uint in *; lia). bind_step. rewrite Ht.
  unfold local_part, spills, raw_overflow in *. unfold spills. destruct (split_value LeafTable usable plen) as [local ov]. cbn [fst snd] in *.
  replace (off + n1 + n2 + local + (if ov then 4 else 0)) with (off + zlen raw) by lia.
  replace (n1 + n2 + local + (if ov then 4 else 0)) with (zlen raw) by lia.
  do 2 (rewrite usize_Ok by lia; bind_step).
  destruct (Z.ltb_spec (zlen (bt_data bt)) (off + zlen raw)); [lia|]. split.
  - destruct ov; [rewrite be_u32_Ok by lia|]; do 2 bind_step; [|done].
    assert (sub raw (zlen raw - 4) (zlen raw) = sub (bt_data bt) (off + (zlen raw - 4)) (off + zlen raw)) as ->.
    { rewrite <- (sub_sub _ off (off + zlen raw)) by lia. by rewrite Hs. }
    replace (off + n1 + n2 + local) with (off + (zlen raw - 4)) by lia.
    by replace (off + (zlen raw - 4) + 4) with (off + zlen raw) by lia.
  - rewrite slice_Ok by lia. by rewrite Hs.
Qed.

(** Conversely, a cell that was read is a raw leaf cell at its offset. *)
Lemma leaf_cell_inv bt i usable c raw : wf bt -> 0 <= i -> usable_ok usable ->
  table_leaf_cell bt i usable = Ok c -> raw_table_leaf_cell bt i usable = Ok raw ->
  exists off plen n1 n2, page_type bt = LeafTable /\ cell_offset bt i = Ok off /\ 0 <= off /\ off + zlen raw <= zlen (bt_data bt) /\
    sub (bt_data bt) off (off + zlen raw) = raw /\ cell_parts usable raw plen (rowid c) n1 n2.
Proof.
  intros Hw Hi Hu. pose proof (cell_offset_safe bt i Hw Hi) as Hso. unfold table_leaf_cell, raw_table_leaf_cell.
  destruct (decide (page_type bt = LeafTable)) as [Ht|Ht]; [rewrite bool_decide_true by done|by rewrite bool_decide_false by done].
  cbn [negb]. intros (off & Eo & E)%res_bind_Ok. rewrite Eo. bind_step. rewrite Eo in Hso. cbn in Hso.
  apply res_bind_Ok in E as (s & Es & E). rewrite Es. bind_step. apply slice_Ok_inv in Es as (_ & _ & Es). rewrite sub_full in Es.
  apply res_bind_Ok in E as ([plen n1] & E1 & E). rewrite E1. bind_step.
  apply res_bind_Ok in E as (s2 & Es2 & E). rewrite Es2. bind_step. apply slice_Ok_inv in Es2 as (Hr2 & _ & Es2). rewrite sub_full in Es2.
  apply res_bind_Ok in E as ([rid n2] & E2 & E). rewrite E2. bind_step.
  apply res_bind_Ok in E as (pl & Ep & E). injection E as <-. cbn [rowid].
  destruct (Varint.decode s) as [[x m]|] eqn:D1; [|done]. injection E1 as -> ->.
  destruct (Varint.decode_i64 s2) as [[x m]|] eqn:D2; [|done]. injection E2 as -> ->.
  assert (is_bytes s) as Hs by (rewrite Es; apply is_bytes_drop, Hw).
  assert (is_bytes s2) as Hs2 by (rewrite Es2; apply is_bytes_drop, Hw).
  pose proof (Varint.decode_inv _ _ _ Hs D1) as (Hp & Hn1 & _). pose proof (Varint.len_range plen).
  pose proof (decode_i64_inv _ _ _ Hs2 D2) as (_ & Hn2). unfold is_uint in Hp.
  pose proof (split_value_local LeafTable usable plen ltac:(lia) (proj1 Hu)) as [Hl Hlu]. rewrite Ht, payload_split_Ok by done. bind_step.
  destruct (split_value LeafTable usable plen) as [local ov] eqn:Esp. cbn [fst snd] in *.
  set (len := n1 + n2 + local + (if ov then 4 else 0)) in *.
  assert (n1 + n2 <= len < 2 ^ 59) as Hlen by (unfold len; destruct ov; lia).
  do 2 (rewrite usize_Ok by lia; bind_step).
  destruct (Z.ltb_spec (zlen (bt_data bt)) (off + len)) as [|Hfit]; [done|]. rewrite slice_Ok by lia. intros <-%Ok_inj.
  assert (zlen (sub (bt_data bt) off (off + len)) = len) as Hz by (rewrite zlen_sub; lia).
  exists off, plen, n1, n2. rewrite Hz. split_and!; try (done || lia).
  split; unfold local_part, spills; rewrite ?Esp; cbn [fst snd].
  - apply is_bytes_sub, Hw.
  - apply (decode_local s); [done|]. intros j Hj. rewrite Es. unfold sub. rewrite lookup_take_lt by lia. done.
  - apply (decode_i64_local s2); [done|]. intros j Hj. rewrite Es2. unfold sub.
    rewrite !lookup_drop, lookup_take_lt, lookup_drop by lia. f_equal. lia.
  - lia.
Qed.

(** ** Leaf images *)

Definition leaf_image (u n : Z) (d : bytes) (cells : list LeafCell) : Prop :=
  exists bt, BtPage.parse (Pager.mkPage n d) = Ok bt /\ page_type bt = LeafTable /\ read_leaf_cells bt u = Ok cells.

Definition node_image (n : Z) (d : bytes) (cells : list InteriorCell) (r : Z) : Prop :=
  exists bt, BtPage.parse (Pager.mkPage n d) = Ok bt /\ page_type bt = InteriorTable /\
    read_interior_cells bt = Ok cells /\ right_pointer bt = r.

Lemma leaf_cells_from_spec bt u n : forall i cells, leaf_cells_from n bt u i = Ok cells <->
  length cells = n /\ forall j c, cells !! j = Some c ->
    exists cell, table_leaf_cell bt (i + Z.of_nat j) u = Ok cell /\ rowid cell = c.1 /\
      raw_table_leaf_cell bt (i + Z.of_nat j) u = Ok c.2.
Proof.
  induction n as [|n IH]; intros i cells; cbn [leaf_cells_from].
  { split; [by intros [= <-]|]. intros [H _]. by destruct cells. }
  split.
  - intros (c & Ec & (raw & Er & (rest & E%IH & [= <-])%res_bind_Ok)%res_bind_Ok)%res_bind_Ok. destruct E as [Hl Hj].
    split; [simpl; lia|]. intros [|j] x Hx; [injection Hx as <-; rewrite Z.add_0_r; by exists c|].
    destruct (Hj j x Hx) as (cell & H1 & H2 & H3). exists cell. replace (i + Z.of_nat (S j)) with (i + 1 + Z.of_nat j) by lia. done.
  - intros [Hl Hj]. destruct cells as [|[r raw] cells]; [done|]. destruct (Hj 0%nat _ eq_refl) as (c & H1 & H2 & H3).
    rewrite Z.add_0_r in *. cbn [fst snd] in *. rewrite H1. bind_step. rewrite H3. bind_step.
    assert (leaf_cells_from n bt u (i + 1) = Ok cells) as ->; [|bind_step; by rewrite H2].
    apply IH. split; [simpl in Hl; lia|]. intros j x Hx. destruct (Hj (S j) x Hx) as (cell & F1 & F2 & F3).
    exists cell. by replace (i + 1 + Z.of_nat j) with (i + Z.of_nat (S j)) by lia.
Qed.

Lemma interior_cells_from_spec bt n : forall i cells, interior_cells_from n bt i = Ok cells <->
  length cells = n /\ forall j c, cells !! j = Some c ->
    child_pointer bt (i + Z.of_nat j) = Ok c.1 /\ table_interior_key bt (i + Z.of_nat j) = Ok c.2.
Proof.
  induction n as [|n IH]; intros i cells; cbn [interior_cells_from].
  { split; [by intros [= <-]|]. intros [H _]. by destruct cells. }
  split.
  - intros (c & Ec & (k & Ek & (rest & E%IH & [= <-])%res_bind_Ok)%res_bind_Ok)%res_bind_Ok. destruct E as [Hl Hj].
    split; [simpl; lia|]. intros [|j] x Hx; [injection Hx as <-; by rewrite Z.add_0_r|].
    replace (i + Z.of_nat (S j)) with (i + 1 + Z.of_nat j) by lia. by apply Hj.
  - intros [Hl Hj]. destruct cells as [|[c k] cells]; [done|]. destruct (Hj 0%nat _ eq_refl) as [H1 H2].
    rewrite Z.add_0_r in *. cbn [fst snd] in *. rewrite H1. bind_step. rewrite H2. bind_step.
    assert (interior_cells_from n bt (i + 1) = Ok cells) as ->; [|done].
    apply IH. split; [simpl in Hl; lia|]. intros j x Hx. replace (i + 1 + Z.of_nat j) with (i + Z.of_nat (S j)) by lia. by apply Hj.
Qed.

(** The cells of a page that could be read are well-formed cells. *)
Lemma leaf_image_ok u n d cells : is_bytes d -> usable_ok u -> leaf_image u n d cells -> Forall (cell_ok u) cells /\ zlen cells < 65536.
Proof.
  intros Hd Hu (bt & Ep & Et & Er). pose proof (safe_Ok _ _ _ (parse_wf (Pager.mkPage n d) Hd) Ep) as [Hw _].
  unfold read_leaf_cells in Er. apply leaf_cells_from_spec in Er as [Hl Hj]. split.
  - apply Forall_lookup. intros j [r raw] Hx. destruct (Hj j _ Hx) as (cell & H1 & H2 & H3).
    destruct (leaf_cell_inv bt (0 + Z.of_nat j) u cell raw Hw ltac:(lia) Hu H1 H3) as (off & plen & n1 & n2 & _ & _ & _ & _ & _ & Hc).
    exists plen, n1, n2. cbn [fst snd] in *. by rewrite <- H2.
  - destruct Hw as (_ & _ & _ & Hn & _). unfold is_uint in Hn. unfold zlen. lia.
Qed.

(** The prefix a rewrite of page [n] passes on: the database header on page 1. *)
Definition prefix_ok (n : Z) (prefix : option bytes) : Prop :=
  match prefix with
  | Some h => n = 1 /\ zlen h = Header.HEADER_LEN /\ is_bytes h
  | None => n <> 1
  end.

Definition body_of (n : Z) : Z := if n =? 1 then Header.HEADER_LEN else 0.

Lemma body_of_range n : 0 <= body_of n <= 100.
Proof. unfold body_of, Header.HEADER_LEN. by destruct (n =? 1). Qed.

Lemma new_page_facts n ps prefix : prefix_ok n prefix -> 512 <= ps ->
  exists b, new_page ps prefix = Ok b /\ zlen b = ps /\ is_bytes b /\
    forall h, prefix = Some h -> sub b 0 Header.HEADER_LEN = h.
Proof.
  intros Hp Hps. pose proof (zlen_zrep ps 0 ltac:(lia)) as Hz.
  assert (is_bytes (zrep ps 0)) as Hb by (apply is_bytes_replicate; by unfold is_uint).
  destruct prefix as [h|]; cbn [new_page]; [|by exists (zrep ps 0)]. destruct Hp as (_ & Hh & Hhb).
  unfold Header.HEADER_LEN in Hh.
  destruct (copy_at_facts (zrep ps 0) 0 h) as (b & E & H1 & H2 & H3 & _); [lia|lia|done|done|].
  exists b. split_and!; [done|lia|done|]. intros h' [= <-]. rewrite <- H3. f_equal. by rewrite Hh.
Qed.

(** Writing the page header in front of packed cells: the kind, the cell count
    and the content start. *)
Lemma page_header_facts b body kind count content : 0 <= body -> body + 8 <= zlen b -> is_bytes b -> is_u8 kind -> is_u16 count ->
  exists d, (let* buf := set_idx b body kind in
             let* buf := write_u16 buf (body + 3) (wrap 16 count) in
             write_cell_content_start buf (body + 5) content) = Ok d /\
    zlen d = zlen b /\ is_bytes d /\ idx d body = Ok kind /\ be_u16 d (body + 3) = Ok count /\
    forall lo hi, 0 <= lo <= hi -> hi <= zlen b -> hi <= body \/ body + 8 <= lo -> sub d lo hi = sub b lo hi.
Proof.
  intros Hbody Hz Hb Hk Hc.
  destruct (set_idx_facts b body kind) as (b1 & -> & Hz1 & Hb1 & Hs1 & Ho1); [lia|done|done|]. bind_step.
  rewrite (wrap_small 16) by done.
  destruct (write_u16_facts b1 (body + 3) count) as (b2 & -> & Hz2 & Hb2 & Hs2 & Ho2); [lia..|done|]. bind_step.
  unfold write_cell_content_start.
  destruct (write_u16_facts b2 (body + 5) (if 65536 <=? content then 0 else content)) as (b3 & -> & Hz3 & Hb3 & Hs3 & Ho3); [lia..|done|].
  exists b3. split_and!; try (done || lia).
  - assert (sub b3 body (body + 1) = [kind]) as Hk3 by (rewrite Ho3, Ho2 by lia; exact Hs1).
    destruct (idx_in_range b3 body) as [x Ex]; [lia|]. rewrite Ex. rewrite (sub_cons b3 body (body + 1) x) in Hk3 by (lia || done).
    rewrite sub_nil in Hk3. by injection Hk3 as ->.
  - rewrite be_u16_Ok by lia. rewrite Ho3 by lia. replace (body + 3 + 2) with (body + 5) in * by lia. rewrite Hs2. f_equal.
    by apply be16_bytes.
  - intros lo hi Hr Hh Hd. rewrite Ho3, Ho2, Ho1 by lia. done.
Qed.

Definition raws (cells : list LeafCell) : list bytes := cells.*2.

Lemma leaf_fits_total cells body u : leaf_fits cells body u = true <-> total (raws cells) + 2 * zlen cells <= u - body - 8.
Proof.
  unfold leaf_fits. rewrite Z.leb_le. assert (sum ((fun c : LeafCell => zlen c.2 + 2) <$> cells) = total (raws cells) + 2 * zlen cells) as ->; [|lia].
  induction cells as [|c cells IH]; [done|]. rewrite zlen_cons. cbn. unfold sum in IH. rewrite IH. unfold total, raws. lia.
Qed.

Lemma total_count cs k : Forall (fun x => k <= zlen x) cs -> k * zlen cs <= total cs.
Proof.
  induction 1 as [|x cs Hx _ IH]; [rewrite zlen_nil; simpl; lia|]. rewrite zlen_cons. cbn [total foldr]. fold (total cs). lia.
Qed.

Lemma cell_ok_size u c : 0 <= u -> cell_ok u c -> is_bytes c.2 /\ 2 <= zlen c.2 /\ is_i64 c.1.
Proof.
  intros Hu (plen & n1 & n2 & Hc). pose proof (cell_parts_bounds _ _ _ _ _ _ Hu Hc) as (_ & Hr & H1 & H2 & Hl & Hs).
  split_and!; [apply Hc|lia|done].
Qed.

(** Parsing a page with a valid header. *)
Lemma parse_page n d kind t count r : zlen d >= 512 -> idx d (body_of n) = Ok kind -> from_byte kind = Ok t ->
  be_u16 d (body_of n + 3) = Ok count -> (if is_leaf t then Ok 0 else be_u32 d (body_of n + 8)) = Ok r ->
  BtPage.parse (Pager.mkPage n d) = Ok (mkBt (Pager.mkPage n d) t (body_of n) count r).
Proof.
  intros Hz Ek Et Ec Er. pose proof (body_of_range n). unfold BtPage.parse. change (Pager.body_offset (Pager.mkPage n d)) with (body_of n). cbn [Pager.data].
  destruct (Z.ltb_spec (zlen d) (body_of n + 8)); [lia|]. rewrite Ek. bind_step. rewrite Et. bind_step.
  assert (header_len t <= 12) by (by destruct t).
  destruct (Z.ltb_spec (zlen d) (body_of n + header_len t)); [lia|]. rewrite Ec. bind_step. rewrite Er. by bind_step.
Qed.

Lemma cell_offset_at bt i off : 0 <= i < num_cells bt ->
  be_u16 (bt_data bt) (bt_body_offset bt + header_len (page_type bt) + 2 * i) = Ok off ->
  bt_body_offset bt + header_len (page_type bt) + 2 * i + 2 <= zlen (bt_data bt) -> off < zlen (bt_data bt) ->
  cell_offset bt i = Ok off.
Proof.
  intros Hi Eo Hz Hoff. unfold cell_offset. destruct (Z.leb_spec (num_cells bt) i); [lia|].
  destruct (Z.ltb_spec (zlen (bt_data bt)) (bt_body_offset bt + header_len (page_type bt) + 2 * i + 2)); [lia|].
  rewrite Eo. bind_step. destruct (Z.leb_spec (zlen (bt_data bt)) off); [lia|done].
Qed.

(** A leaf that fits serialises, and its image reads back as the same cells. *)
Lemma serialize_leaf_image u ps n prefix cells : 257 <= u -> u <= ps -> 512 <= ps <= 65536 -> prefix_ok n prefix ->
  Forall (cell_ok u) cells -> leaf_fits cells (body_of n) u = true ->
  exists d, serialize_leaf ps u (body_of n) cells prefix = Ok d /\ zlen d = ps /\ is_bytes d /\ leaf_image u n d cells /\
    forall h, prefix = Some h -> sub d 0 Header.HEADER_LEN = h.
Proof.
  intros Hu Hups Hps Hp Hcells Hfit%leaf_fits_total. pose proof (body_of_range n) as Hbody. unfold serialize_leaf.
  destruct (new_page_facts n ps prefix Hp ltac:(lia)) as (b0 & -> & Hz0 & Hb0 & Hpre). bind_step.
  assert (Forall (fun x => is_bytes x /\ 1 <= zlen x) (raws cells)) as Hraw.
  { apply Forall_fmap. eapply Forall_impl; [exact Hcells|]. intros c Hc%cell_ok_size; [|lia]. split; [apply Hc|simpl; lia]. }
  assert (2 * zlen (raws cells) <= total (raws cells)) as Hcount.
  { apply total_count, Forall_fmap. eapply Forall_impl; [exact Hcells|]. intros c Hc%cell_ok_size; [|lia]. simpl. lia. }
  assert (zlen (raws cells) = zlen cells) as Ez by (unfold zlen, raws; by rewrite length_fmap). pose proof (zlen_nonneg cells).
  destruct (pack_cells_spec "leaf page overflow while serializing" (body_of n + 8) (body_of n + 8 + 2 * zlen cells) ltac:(lia)
    (raws cells) 0 u b0) as (b1 & E1 & Hz1 & Hb1 & Ho1 & Hget1); [lia..|done|done|].
  unfold raws in E1. rewrite E1. bind_step. fold (raws cells) in *.
  destruct (page_header_facts b1 (body_of n) 13 (zlen cells) (u - total (raws cells))) as (d & E2 & Hz2 & Hb2 & Ek & Ec & Ho2);
    [lia|lia|done|by unfold is_uint|unfold is_uint; lia|].
  exists d. split_and!; [done|lia|done| |].
  - exists (mkBt (Pager.mkPage n d) LeafTable (body_of n) (zlen cells) 0).
    split_and!; [by apply (parse_page n d 13 LeafTable); [lia|..]|done|].
    unfold read_leaf_cells. apply leaf_cells_from_spec. cbn [num_cells]. split; [unfold zlen; lia|].
    intros j c Hj. assert (raws cells !! j = Some c.2) as Hj' by (unfold raws; by rewrite list_lookup_fmap, Hj).
    assert (Z.of_nat j < zlen cells) as Hjl by (apply lookup_lt_Some in Hj; unfold zlen; lia).
    destruct (Hget1 j c.2 Hj') as (off & Eo & Hlo & Hhi & Hsub).
    rewrite Forall_lookup in Hcells. destruct (Hcells j c Hj) as (plen & n1 & n2 & Hc).
    pose proof (cell_ok_size u c ltac:(lia) (Hcells j c Hj)) as (_ & Hsz & _).
    destruct (leaf_cell_at (mkBt (Pager.mkPage n d) LeafTable (body_of n) (zlen cells) 0) (0 + Z.of_nat j) u off c.2 plen c.1 n1 n2)
      as [H1 H2]; cbn [bt_data page Pager.data page_type]; try (done || lia).
    + apply cell_offset_at; cbn [bt_data page Pager.data page_type num_cells bt_body_offset header_len is_leaf]; [lia| |lia|lia].
      rewrite <- Eo, !be_u16_Ok by lia. rewrite Ho2 by lia. done.
    + rewrite Ho2 by lia. done.
    + eexists. split_and!; [exact H1|done|exact H2].
  - intros h Eh. rewrite <- (Hpre h Eh). rewrite Eh in Hp. destruct Hp as (-> & _). change (body_of 1) with 100 in *.
    unfold Header.HEADER_LEN. rewrite Ho2 by lia. apply Ho1; lia.
Qed.

(** ** Interior images *)

Definition node_cell_ok (c : InteriorCell) : Prop := is_u32 c.1 /\ is_i64 c.2.

Lemma interior_cell_facts c : is_bytes (interior_cell c) /\ zlen (interior_cell c) = interior_cell_len c.2 /\ 5 <= zlen (interior_cell c) <= 13.
Proof.
  unfold interior_cell, interior_cell_len. rewrite zlen_app, zlen_be_bytes, Varint.to_vec_spec, Varint.zlen_spec_bytes.
  pose proof (Varint.len_range (to_unsigned 64 c.2)). split_and!; [|lia..].
  apply is_bytes_app. split; [apply is_bytes_be_bytes|apply Varint.is_bytes_spec_bytes].
Qed.

Definition icells (cells : list InteriorCell) : list bytes := interior_cell <$> cells.

Lemma interior_fits_total cells body u : interior_fits cells body u = true <-> total (icells cells) + 2 * zlen cells <= u - body - 12.
Proof.
  unfold interior_fits. rewrite Z.leb_le.
  assert (sum ((fun c : InteriorCell => interior_cell_len c.2 + 2) <$> cells) = total (icells cells) + 2 * zlen cells) as ->; [|lia].
  induction cells as [|c cells IH]; [done|].
  change (sum _) with (interior_cell_len c.2 + 2 + sum ((fun c : InteriorCell => interior_cell_len c.2 + 2) <$> cells)).
  change (total _) with (zlen (interior_cell c) + total (icells cells)).
  rewrite zlen_cons, IH, (proj1 (proj2 (interior_cell_facts c))). lia.
Qed.

(** Reading the separator cell that sits at its offset. *)
Lemma node_cell_at bt i off c : page_type bt = InteriorTable -> 0 <= i < num_cells bt -> cell_offset bt i = Ok off -> 0 <= off ->
  off + zlen (interior_cell c) <= zlen (bt_data bt) -> sub (bt_data bt) off (off + zlen (interior_cell c)) = interior_cell c ->
  node_cell_ok c -> child_pointer bt i = Ok c.1 /\ table_interior_key bt i = Ok c.2.
Proof.
  intros Ht Hi Eo Ho Hz Hs [Hc Hk]. pose proof (interior_cell_facts c) as (Hb & Hl & Hl5). split.
  - unfold child_pointer. rewrite Ht. cbn [is_leaf]. destruct (Z.leb_spec (num_cells bt) i); [lia|]. rewrite Eo. bind_step.
    unfold be_u32_checked. rewrite get_range_Some by lia. cbn [ok_or]. bind_step.
    assert (sub (bt_data bt) off (off + 4) = be_bytes 4 c.1) as ->.
    { replace off with (off + 0) at 1 by lia. rewrite <- (sub_sub _ off (off + zlen (interior_cell c))) by lia. rewrite Hs.
      unfold sub, interior_cell. rewrite Z.sub_0_r, drop_0. by rewrite take_app_length' by (by rewrite length_be_bytes). }
    rewrite be_u32_Ok by (rewrite ?zlen_be_bytes; lia). f_equal. rewrite <- (be32_bytes c.1 Hc) at 2. f_equal.
  - unfold table_interior_key. rewrite Ht, bool_decide_true by done. cbn [negb]. rewrite Eo. bind_step.
    destruct (Z.ltb_spec (zlen (bt_data bt)) (off + 4)); [lia|].
    destruct (slice_from_sub (bt_data bt) (interior_cell c) off 4) as [rest ->]; [lia..|done|]. bind_step.
    assert (drop (Z.to_nat 4) (interior_cell c) = Varint.spec_bytes (to_unsigned 64 c.2)) as ->.
    { unfold interior_cell. rewrite drop_app_length' by (by rewrite length_be_bytes). apply Varint.to_vec_spec. }
    unfold Varint.decode_i64. rewrite Varint.decode_spec_bytes by (apply wrap_range; lia). cbn [ok_or]. bind_step.
    by rewrite to_signed_unsigned by (lia || done).
Qed.

(** An interior page that fits serialises, and its image reads back. *)
Lemma serialize_interior_image u ps n prefix cells r : 257 <= u -> u <= ps -> 512 <= ps <= 65536 -> prefix_ok n prefix ->
  Forall node_cell_ok cells -> is_u32 r -> interior_fits cells (body_of n) u = true ->
  exists d, serialize_interior ps u (body_of n) cells r prefix = Ok d /\ zlen d = ps /\ is_bytes d /\ node_image n d cells r /\
    forall h, prefix = Some h -> sub d 0 Header.HEADER_LEN = h.
Proof.
  intros Hu Hups Hps Hp Hcells Hr Hfit%interior_fits_total. pose proof (body_of_range n) as Hbody. unfold serialize_interior.
  destruct (new_page_facts n ps prefix Hp ltac:(lia)) as (b0 & -> & Hz0 & Hb0 & Hpre). bind_step.
  assert (forall k, k <= 5 -> Forall (fun x => is_bytes x /\ k <= zlen x) (icells cells)) as Hraw.
  { intros k Hk. apply Forall_fmap, Forall_true. intros c. pose proof (interior_cell_facts c). simpl. split; [apply H|lia]. }
  assert (5 * zlen (icells cells) <= total (icells cells)) as Hcount.
  { apply total_count. eapply Forall_impl; [by apply (Hraw 5)|]. naive_solver. }
  assert (zlen (icells cells) = zlen cells) as Ez by (unfold zlen, icells; by rewrite length_fmap). pose proof (zlen_nonneg cells).
  destruct (pack_cells_spec "interior page overflow while serializing" (body_of n + 12) (body_of n + 12 + 2 * zlen cells) ltac:(lia)
    (icells cells) 0 u b0) as (b1 & E1 & Hz1 & Hb1 & Ho1 & Hget1); [lia..|done|by apply (Hraw 1)|].
  unfold icells in E1. rewrite E1. bind_step. fold (icells cells) in *.
  destruct (page_header_facts b1 (body_of n) 5 (zlen cells) (u - total (icells cells))) as (d1 & E2 & Hz2 & Hb2 & Ek & Ec & Ho2);
    [lia|lia|done|by unfold is_uint|unfold is_uint; lia|].
  apply res_bind_Ok in E2 as (d0 & E0 & E2). rewrite E0. bind_step. apply res_bind_Ok in E2 as (d0' & E0' & E2). rewrite E0'. bind_step.
  rewrite E2. bind_step.
  destruct (copy_at_facts d1 (body_of n + 8) (be_bytes 4 r)) as (d & E3 & Hz3 & Hb3 & Hs3 & Ho3); [lia|rewrite zlen_be_bytes; lia|done|apply is_bytes_be_bytes|].
  rewrite zlen_be_bytes in *. change (Z.of_nat 4) with 4 in *. exists d. split_and!; [done|lia|done| |].
  - set (bt := mkBt (Pager.mkPage n d) InteriorTable (body_of n) (zlen cells) r). exists bt.
    split_and!; [|done| |done].
    { apply (parse_page n d 5 InteriorTable); [lia| |done| |].
      - rewrite <- Ek. assert (sub d (body_of n) (body_of n + 1) = sub d1 (body_of n) (body_of n + 1)) as E by (apply Ho3; lia).
        destruct (idx_in_range d (body_of n)) as [x Ex]; [lia|]. destruct (idx_in_range d1 (body_of n)) as [y Ey]; [lia|].
        rewrite (sub_cons d _ _ x), (sub_cons d1 _ _ y) in E by (lia || done). injection E as -> _. congruence.
      - rewrite <- Ec, !be_u16_Ok by lia. rewrite Ho3 by lia. done.
      - cbn [is_leaf]. rewrite be_u32_Ok by lia. replace (body_of n + 8 + 4) with (body_of n + 12) in * by lia. rewrite Hs3. f_equal. by apply be32_bytes. }
    unfold read_interior_cells. apply interior_cells_from_spec. cbn [num_cells bt]. split; [unfold zlen; lia|].
    intros j c Hj. assert (icells cells !! j = Some (interior_cell c)) as Hj' by (unfold icells; by rewrite list_lookup_fmap, Hj).
    assert (Z.of_nat j < zlen cells) as Hjl by (apply lookup_lt_Some in Hj; unfold zlen; lia).
    destruct (Hget1 j _ Hj') as (off & Eo & Hlo & Hhi & Hsub). rewrite Forall_lookup in Hcells. pose proof (interior_cell_facts c) as (_ & _ & Hl5).
    apply (node_cell_at bt _ off c); cbn [bt bt_data page Pager.data page_type num_cells]; try (done || lia).
    + apply cell_offset_at; cbn [bt bt_data page Pager.data page_type num_cells bt_body_offset header_len is_leaf]; [lia| |lia|lia].
      rewrite <- Eo, !be_u16_Ok by lia. rewrite Ho3, Ho2 by lia. done.
    + rewrite Ho3, Ho2 by lia. done.
    + by apply (Hcells j).
  - intros h Eh. rewrite <- (Hpre h Eh). rewrite Eh in Hp. destruct Hp as (-> & _). change (body_of 1) with 100 in *.
    unfold Header.HEADER_LEN. rewrite Ho3, Ho2 by lia. apply Ho1; lia.
Qed.

(** The children and separators of an interior page that could be read. *)
Lemma node_image_ok n d cells r : is_bytes d -> node_image n d cells r -> Forall node_cell_ok cells /\ zlen cells < 65536 /\ is_u32 r.
Proof.
  intros Hd (bt & Ep & Et & Er & <-). pose proof (safe_Ok _ _ _ (parse_wf (Pager.mkPage n d) Hd) Ep) as [Hw _].
  unfold read_interior_cells in Er. apply interior_cells_from_spec in Er as [Hl Hj]. split_and!.
  - apply Forall_lookup. intros j c Hx. destruct (Hj j c Hx) as [H1 H2]. split.
    + apply (safe_Ok _ _ _ (child_pointer_safe bt (0 + Z.of_nat j) Hw ltac:(lia)) H1).
    + apply (safe_Ok _ _ _ (table_interior_key_safe bt (0 + Z.of_nat j) Hw ltac:(lia)) H2).
  - destruct Hw as (_ & _ & _ & Hn & _). unfold is_uint in Hn. unfold zlen. lia.
  - apply Hw.
Qed.

(** C21: pages round-trip. The page image the writer builds for a list of leaf
    cells, or of interior cells and a right-most child, that fits the usable
    size parses back as a page of that kind and reads back as the same cells;
    on page one the database header in front of it is kept. *)
Theorem page_image_roundtrip (u ps n r : Z) (prefix : option bytes) (cells : list LeafCell) (icells : list InteriorCell)
    (Hu : 257 <= u <= ps) (Hps : 512 <= ps <= 65536) (Hpre : prefix_ok n prefix)
    (Hcells : Forall (cell_ok u) cells) (Hfit : leaf_fits cells (body_of n) u = true)
    (Hicells : Forall node_cell_ok icells) (Hr : is_u32 r) (Hifit : interior_fits icells (body_of n) u = true) :
  (exists d bt, serialize_leaf ps u (body_of n) cells prefix = Ok d /\ zlen d = ps /\ is_bytes d /\
     BtPage.parse (Pager.mkPage n d) = Ok bt /\ page_type bt = LeafTable /\ read_leaf_cells bt u = Ok cells /\
     forall h, prefix = Some h -> sub d 0 Header.HEADER_LEN = h) /\
  (exists d bt, serialize_interior ps u (body_of n) icells r prefix = Ok d /\ zlen d = ps /\ is_bytes d /\
     BtPage.parse (Pager.mkPage n d) = Ok bt /\ page_type bt = InteriorTable /\ read_interior_cells bt = Ok icells /\ right_pointer bt = r /\
     forall h, prefix = Some h -> sub d 0 Header.HEADER_LEN = h).
Proof.
  split.
  - destruct (serialize_leaf_image u ps n prefix cells) as (d & E & Hz & Hb & (bt & Ep & Et & Er) & Hh); try (done || lia). by exists d, bt.
  - destruct (serialize_interior_image u ps n prefix icells r) as (d & E & Hz & Hb & (bt & Ep & Et & Er & Erp) & Hh); try (done || lia). by exists d, bt.
Qed.

(** A leaf with the row 5 (three bytes), and an interior page with two children. *)
Lemma page_image_roundtrip_witness :
  (exists d bt, serialize_leaf 512 512 100 [(5, [3; 5; 7; 8; 9])] (Some (zrep 100 1)) = Ok d /\ zlen d = 512 /\ is_bytes d /\
     BtPage.parse (Pager.mkPage 1 d) = Ok bt /\ page_type bt = LeafTable /\ read_leaf_cells bt 512 = Ok [(5, [3; 5; 7; 8; 9])] /\
     forall h, Some (zrep 100 1) = Some h -> sub d 0 Header.HEADER_LEN = h) /\
  (exists d bt, serialize_interior 512 512 100 [(7, 300)] 9 (Some (zrep 100 1)) = Ok d /\ zlen d = 512 /\ is_bytes d /\
     BtPage.parse (Pager.mkPage 1 d) = Ok bt /\ page_type bt = InteriorTable /\ read_interior_cells bt = Ok [(7, 300)] /\ right_pointer bt = 9 /\
     forall h, Some (zrep 100 1) = Some h -> sub d 0 Header.HEADER_LEN = h).
Proof.
  apply (page_image_roundtrip 512 512 1 9 (Some (zrep 100 1)) [(5, [3; 5; 7; 8; 9])] [(7, 300)]).
  - lia.
  - lia.
  - split_and!; [done|done|]. apply is_bytes_replicate. by split.
  - apply Forall_singleton. exists 3, 1, 1. split; try done. by repeat constructor.
  - done.
  - apply Forall_singleton. by repeat split.
  - by split.
  - done.
Defined.

End WriterPages.
