(* ===== verification/WriterHeap.v ===== *)
(** The table writer over the page heap: the pager requests of [Writer] in terms
    of [WritePagerProps.holds], the write pager as a page source, and overflow
    chains that are written, read back and freed. *)

From S2P Require Import Prelude Varint Header Vfs Pager BtPage Cursor WritePager WritePagerProps Writer WriterPages.
Import BtPage WritePager WritePagerProps Writer WriterPages.
Local Open Scope Z_scope.

Module WriterHeap.

(** ** Requests *)

(** The text encoding of the database, which no page request changes. *)
Definition text_enc (w : WritePager) : Header.TextEncoding := Header.text_encoding (wp_header w).

(** A later state of the same transaction that may have grown by [k] pages. *)
Definition evolves (k : Z) (w w' : WritePager) : Prop :=
  usable_size w' = usable_size w /\ wp_page_size w' = wp_page_size w /\
  (wp_page_count w' <= wp_page_count w + k /\ text_enc w' = text_enc w).

Lemma evolves_refl w : evolves 0 w w.
Proof. unfold evolves. split_and!; done || lia. Qed.

Lemma evolves_trans j k u v w : evolves j u v -> evolves k v w -> evolves (j + k) u w.
Proof. unfold evolves. intros (H1 & H2 & H3 & H4) (F1 & F2 & F3 & F4). split_and!; try congruence. lia. Qed.

Lemma evolves_mono j k w w' : evolves j w w' -> j <= k -> evolves k w w'.
Proof. unfold evolves. intros (H1 & H2 & H3 & H4) Hk. split_and!; done || lia. Qed.

Lemma write_page_usable w n d w' : write_page w n d = Ok w' -> usable_size w' = usable_size w /\ text_enc w' = text_enc w.
Proof. unfold write_page. destruct (negb _); [done|]. by intros [= <-]. Qed.

Lemma extend_usable fuel : forall w n w', extend fuel w = Ok (n, w') -> usable_size w' = usable_size w /\ text_enc w' = text_enc w.
Proof.
  induction fuel as [|fuel IH]; intros w n w' E; [done|]. cbn [extend] in E. apply res_bind_Ok in E as (m & _ & E).
  destruct (auto_vacuum_on _); [apply res_bind_Ok in E as (r & _ & E); destruct r|].
  - exact (IH _ _ _ E).
  - by injection E as _ <-.
  - by injection E as _ <-.
Qed.

Lemma alloc_usable w n w' : allocate_page w = Ok (n, w') -> usable_size w' = usable_size w /\ text_enc w' = text_enc w.
Proof.
  unfold allocate_page. destruct (_ && _); [|apply extend_usable]. unfold alloc_from_freelist.
  intros (tb & _ & E)%res_bind_Ok. apply res_bind_Ok in E as (lc & _ & E). destruct (0 <? lc).
  - apply res_bind_Ok in E as (lf & _ & E). apply res_bind_Ok in E as (tb' & _ & E).
    apply res_bind_Ok in E as (w1 & E1 & E). injection E as _ <-. by apply write_page_usable in E1.
  - apply res_bind_Ok in E as (nx & _ & E). by injection E as _ <-.
Qed.

Lemma free_usable w p w' : free_page w p = Ok w' -> usable_size w' = usable_size w /\ text_enc w' = text_enc w.
Proof.
  unfold free_page. intros ([v|] & E1 & E)%res_bind_Ok.
  - injection E as <-. destruct (negb _); [|done]. apply res_bind_Ok in E1 as (tb & _ & E1).
    apply res_bind_Ok in E1 as (lc & _ & E1). destruct (_ <? _); [|done].
    apply res_bind_Ok in E1 as (t1 & _ & E1). apply res_bind_Ok in E1 as (t2 & _ & E1).
    apply res_bind_Ok in E1 as (w1 & Ew & E1). apply res_bind_Ok in E1 as (w2 & Ew2 & E1).
    apply res_bind_Ok in E1 as (c & _ & E1). injection E1 as <-. destruct (write_page_usable _ _ _ _ Ew) as [<- <-].
    destruct (wp_secure_delete w1); [by apply write_page_usable in Ew2|by injection Ew2 as <-].
  - apply res_bind_Ok in E as (t1 & _ & E). apply res_bind_Ok in E as (t2 & _ & E).
    apply res_bind_Ok in E as (w1 & Ew & E). apply res_bind_Ok in E as (c & _ & E). injection E as <-.
    by apply write_page_usable in Ew.
Qed.

Lemma holds_inv w H : holds w H -> exists l, inv w l.
Proof. intros (l & Hi & _). by exists l. Qed.

Lemma holds_geom w H : holds w H ->
  257 <= usable_size w /\ usable_size w <= wp_page_size w /\ 512 <= wp_page_size w <= 65536 /\
  full_page_size w = wp_page_size w /\ 1 <= wp_page_count w < 2 ^ 32.
Proof.
  intros (l & Hi & _). pose proof (page_size_range w l Hi). pose proof (usable_bounds w l Hi). pose proof (inv_pc w l Hi).
  split_and!; try lia. unfold full_page_size, usable_size, Header.usable_size. rewrite (inv_ps w l Hi). lia.
Qed.

Lemma holds_page w H n d : holds w H -> H !! n = Some d ->
  1 <= n < 2 ^ 32 /\ zlen d = wp_page_size w /\ is_bytes d /\ read_page w n = Ok d.
Proof.
  intros (l & Hi & Hh) Hn. destruct (Hh n d Hn) as (_ & Hr & E). pose proof (inv_pc w l Hi).
  destruct (read_page_sized w l n d Hi ltac:(lia) E) as [H1 H2]. split_and!; done || lia.
Qed.

Lemma heap_alloc w H : holds w H -> wp_page_count w + 3 < 2 ^ 32 ->
  exists n w' z, allocate_page w = Ok (n, w') /\ H !! n = None /\ holds w' (<[n := z]> H) /\ evolves 3 w w' /\ 1 <= n < 2 ^ 32.
Proof.
  intros Hh Hpc. destruct (alloc_holds w H Hh Hpc) as (n & w' & E & Hn & Hh' & Hc & Hps). exists n, w', (zero_page w).
  split_and!; try done.
  - destruct (alloc_usable w n w' E). by split_and!.
  - apply (holds_page w' _ n (zero_page w) Hh'). by rewrite lookup_insert_eq.
  - apply (holds_page w' _ n (zero_page w) Hh'). by rewrite lookup_insert_eq.
Qed.

Lemma heap_free w H p : holds w H -> is_Some (H !! p) ->
  exists w', free_page w p = Ok w' /\ holds w' (delete p H) /\ evolves 0 w w'.
Proof.
  intros Hh Hp. destruct (free_holds w H p Hh Hp) as (w' & E & Hh' & Hc & Hps). exists w'. split_and!; try done.
  destruct (free_usable w p w' E). split_and!; done || lia.
Qed.

Lemma heap_write w H p d : holds w H -> is_Some (H !! p) -> zlen d = wp_page_size w -> is_bytes d ->
  exists w', write_page w p d = Ok w' /\ holds w' (<[p := d]> H) /\ evolves 0 w w'.
Proof.
  intros Hh Hp Hz Hb. destruct (write_holds w H p d Hh Hp Hz Hb) as (w' & E & Hh' & Hc & Hps). exists w'. split_and!; try done.
  destruct (write_page_usable w p d w' E). split_and!; done || lia.
Qed.

(** Several pages at once; [H'] has them beside what [H] had. *)
Lemma alloc_pages_spec n : forall w H, holds w H -> wp_page_count w + 3 * Z.of_nat n < 2 ^ 32 ->
  exists ps w' H', alloc_pages n w = Ok (ps, w') /\ length ps = n /\ NoDup ps /\ Forall (fun p => H !! p = None) ps /\
    holds w' H' /\ evolves (3 * Z.of_nat n) w w' /\ Forall (fun p => is_Some (H' !! p)) ps /\
    (forall p, p ∉ ps -> H' !! p = H !! p).
Proof.
  induction n as [|n IH]; intros w H Hh Hpc; cbn [alloc_pages].
  { exists [], w, H. split_and!; try done; first [apply evolves_refl|apply NoDup_nil_2|apply Forall_nil_2]. }
  destruct (heap_alloc w H Hh ltac:(lia)) as (p & w1 & z & -> & Hp & Hh1 & Hev & _). bind_step.
  pose proof Hev as (_ & _ & Hc1).
  destruct (IH w1 _ Hh1 ltac:(lia)) as (ps & w2 & H2 & -> & Hl & Hnd & Hnone & Hh2 & Hev2 & Hsome & Hf). bind_step.
  assert (p ∉ ps) as Hps.
  { intros Hin. rewrite Forall_forall in Hnone. specialize (Hnone p Hin). by rewrite lookup_insert_eq in Hnone. }
  exists (p :: ps), w2, H2. split_and!; try done.
  - simpl. lia.
  - by apply NoDup_cons.
  - apply Forall_cons_2; [done|]. eapply Forall_impl; [exact Hnone|]. intros q. cbn. by intros [? _]%lookup_insert_None.
  - eapply evolves_mono; [by eapply evolves_trans|lia].
  - apply Forall_cons_2; [|done]. rewrite Hf by done. by rewrite lookup_insert_eq.
  - intros q [Hq1 Hq2]%not_elem_of_cons. rewrite Hf by done. by rewrite lookup_insert_ne.
Qed.

Lemma free_pages_spec ps : forall w H, holds w H -> NoDup ps -> Forall (fun p => is_Some (H !! p)) ps ->
  exists w' H', free_pages ps w = Ok w' /\ holds w' H' /\ evolves 0 w w' /\
    (forall p, p ∈ ps -> H' !! p = None) /\ (forall p, p ∉ ps -> H' !! p = H !! p).
Proof.
  induction ps as [|p ps IH]; intros w H Hh Hnd Hs; cbn [free_pages].
  { exists w, H. split_and!; try done; [apply evolves_refl|]. by intros p ?%elem_of_nil. }
  apply NoDup_cons in Hnd as [Hp Hnd]. apply Forall_cons in Hs as [Hp' Hs].
  destruct (heap_free w H p Hh Hp') as (w1 & -> & Hh1 & Hev). bind_step.
  destruct (IH w1 _ Hh1 Hnd) as (w2 & H2 & -> & Hh2 & Hev2 & Hnone & Hf).
  { rewrite Forall_forall in Hs |- *. intros q Hq. rewrite lookup_delete_ne; [by apply Hs|]. by intros ->. }
  exists w2, H2. split_and!; try done.
  - eapply evolves_mono; [by eapply evolves_trans|lia].
  - intros q [->|Hq]%elem_of_cons; [|by apply Hnone]. rewrite Hf by done. by rewrite lookup_delete_eq.
  - intros q [Hq1 Hq2]%not_elem_of_cons. rewrite Hf by done. by rewrite lookup_delete_ne.
Qed.

(** ** The write pager as a page source *)

Definition wp_source (w : WritePager) : Pager.PageSource :=
  Pager.mkSource (wp_page w) (wp_header w) (usable_size w) (wp_page_count w).

Lemma wp_page_Ok w H n d : holds w H -> H !! n = Some d -> wp_page w n = Ok (Pager.mkPage n d).
Proof. intros Hh Hn. unfold wp_page. destruct (holds_page w H n d Hh Hn) as (_ & _ & _ & ->). done. Qed.


#[export] Instance wp_source_ok w l : inv w l -> Pager.SourceOk (wp_source w).
Proof.
  intros Hi. pose proof (page_size_range w l Hi) as Hps. pose proof (inv_pc w l Hi) as Hpc.
  destruct (inv_file w l Hi) as (Hf & Hb & Hd).
  assert (forall n d, read_page w n = Ok d -> 1 <= n <= wp_page_count w) as Hr.
  { intros n d. unfold read_page. destruct (wp_overlay w !! n) as [b|] eqn:E; [intros _; by apply (inv_overlay w l Hi n b)|].
    destruct (Z.eqb_spec n 0); [done|]. destruct (Z.ltb_spec (wp_disk_pages w) n); [done|]. cbn [orb].
    unfold Vfs.mem_read. intros (e & _ & E2)%res_bind_Ok. destruct (_ <? e); [done|]. apply slice_Ok_inv in E2 as (? & _). nia. }
  assert (forall n p, wp_page w n = Ok p -> exists d, p = Pager.mkPage n d /\ read_page w n = Ok d) as Hw.
  { unfold wp_page. intros n p (d & E & [= <-])%res_bind_Ok. by exists d. }
  split; cbn [wp_source Pager.src_page Pager.src_header Pager.src_usable_size Pager.src_page_count]; [| | | |done|apply (inv_header w l Hi)].
  - intros n Hn. unfold wp_page. apply no_panic_bind; [|done]. unfold read_page. destruct (wp_overlay w !! n); [done|].
    destruct (Z.eqb_spec n 0); [done|]. destruct (Z.ltb_spec (wp_disk_pages w) n); [done|]. cbn [orb].
    by rewrite Vfs.mem_read_Ok by nia.
  - intros n p (d & -> & E)%Hw. split; [done|]. by apply (Hr n d).
  - intros n p (d & -> & E)%Hw. apply (read_page_sized w l n d Hi); [|done]. specialize (Hr n d E). lia.
  - intros n p (d & -> & E)%Hw. rewrite <- (inv_ps w l Hi). apply (read_page_sized w l n d Hi); [|done]. specialize (Hr n d E). lia.
Qed.

(** ** Overflow chains *)

(** The pages [ps] of a chain that starts at [first] and carries [data], each
    full but the last. *)
Inductive chain (H : gmap Z bytes) (u : Z) : Z -> bytes -> list Z -> Prop :=
  | chain_nil : chain H u 0 [] []
  | chain_cons p d next part rest ps :
      H !! p = Some d -> be_u32 d 0 = Ok next -> sub d 4 (4 + zlen part) = part -> 4 + zlen part <= zlen d ->
      1 <= zlen part -> zlen part = Z.min (u - 4) (zlen part + zlen rest) -> chain H u next rest ps ->
      chain H u p (part ++ rest) (p :: ps).

Lemma chain_frame H H' u first data ps : chain H u first data ps -> (forall p, p ∈ ps -> H' !! p = H !! p) -> chain H' u first data ps.
Proof.
  induction 1 as [|p d next part rest ps Hp En Hs Hz H1 Hm Hc IH]; intros Hf; [constructor|].
  econstructor; try done; [by rewrite Hf by (by left)|]. apply IH. intros q Hq. apply Hf. by right.
Qed.

Lemma chain_pages_owned H u first data ps : chain H u first data ps -> Forall (fun p => is_Some (H !! p)) ps.
Proof. induction 1; constructor; [by eexists|done]. Qed.

Lemma chain_length H u first data ps : chain H u first data ps -> (length ps <= length data)%nat.
Proof. induction 1; [done|]. rewrite length_app. unfold zlen in *. simpl. lia. Qed.

(** Reading a chain appends its data. *)
Lemma chain_read w H u first data ps : holds w H -> u = usable_size w -> chain H u first data ps ->
  forall fuel total out, total = zlen out + zlen data -> (length ps <= fuel)%nat ->
  Cursor.payload_loop fuel (wp_source w) u total out first = Ok (out ++ data).
Proof.
  intros Hh -> Hc. destruct (holds_geom w H Hh) as (Hu & _).
  induction Hc as [|p d next part rest ps Hp En Hs Hz H1 Hm Hc IH]; intros fuel total out -> Hf.
  { rewrite app_nil_r. destruct fuel; cbn [Cursor.payload_loop]; by rewrite Z.eqb_refl. }
  destruct (holds_page w H p d Hh Hp) as (Hpr & Hdz & Hdb & _).
  pose proof (zlen_nonneg rest). destruct fuel as [|fuel]; [simpl in Hf; lia|]. cbn [Cursor.payload_loop]. rewrite zlen_app.
  destruct (Z.eqb_spec p 0); [lia|]. destruct (Z.ltb_spec (zlen out) (zlen out + (zlen part + zlen rest))); [|lia]. cbn [negb andb].
  cbn [wp_source Pager.src_page]. rewrite (wp_page_Ok w H p d Hh Hp). bind_step. cbn [Pager.data]. rewrite En. bind_step.
  destruct (Z.ltb_spec (usable_size w) 4); [lia|].
  assert (Z.min (zlen out + (zlen part + zlen rest) - zlen out) (usable_size w - 4) = zlen part) as -> by lia.
  destruct (Z.ltb_spec (zlen d) (4 + zlen part)); [lia|]. rewrite slice_Ok by lia. bind_step. rewrite Hs.
  rewrite app_assoc. apply IH; [rewrite zlen_app; lia|simpl in Hf; lia].
Qed.

Lemma free_chain_spec H0 u first data ps : chain H0 u first data ps -> forall w H fuel, holds w H -> NoDup ps ->
  (forall p, p ∈ ps -> H !! p = H0 !! p) -> (length ps <= fuel)%nat ->
  exists w' H', free_overflow_chain fuel w first = Ok w' /\ holds w' H' /\ evolves 0 w w' /\
    (forall p, p ∈ ps -> H' !! p = None) /\ (forall p, p ∉ ps -> H' !! p = H !! p).
Proof.
  induction 1 as [|p d next part rest ps Hp En Hs Hz H1 Hm Hc IH]; intros w H fuel Hh Hnd Hag Hf.
  { exists w, H. split_and!; try done; [destruct fuel; cbn [free_overflow_chain]; by rewrite Z.eqb_refl|apply evolves_refl|].
    by intros p ?%elem_of_nil. }
  apply NoDup_cons in Hnd as [Hnp Hnd]. assert (H !! p = Some d) as Hp' by (rewrite Hag; [done|by left]).
  destruct (holds_page w H p d Hh Hp') as (Hpr & Hdz & Hdb & Er). destruct fuel as [|fuel]; [simpl in Hf; lia|].
  cbn [free_overflow_chain]. destruct (Z.eqb_spec p 0); [lia|]. rewrite Er. bind_step. rewrite En. bind_step.
  destruct (heap_free w H p Hh (ex_intro _ d Hp')) as (w1 & -> & Hh1 & Hev). bind_step.
  destruct (IH w1 (delete p H) fuel Hh1 Hnd) as (w2 & H2 & -> & Hh2 & Hev2 & Hnone & Hfr).
  { intros q Hq. rewrite lookup_delete_ne by (by intros ->). apply Hag. by right. }
  { simpl in Hf. lia. }
  exists w2, H2. split_and!; try done.
  - eapply evolves_mono; [by eapply evolves_trans|lia].
  - intros q [->|Hq]%elem_of_cons; [|by apply Hnone]. rewrite Hfr by done. by rewrite lookup_delete_eq.
  - intros q [Hq1 Hq2]%not_elem_of_cons. rewrite Hfr by done. by rewrite lookup_delete_ne.
Qed.

(** The image of one chain page. *)
Lemma chain_page_image ps next chunk : 512 <= ps -> is_u32 next -> is_bytes chunk -> 4 + zlen chunk <= ps ->
  exists b0 b, copy_at (zrep ps 0) 0 (be_bytes 4 next) = Ok b0 /\ copy_at b0 4 chunk = Ok b /\ zlen b = ps /\ is_bytes b /\
    be_u32 b 0 = Ok next /\ sub b 4 (4 + zlen chunk) = chunk.
Proof.
  intros Hps Hn Hc Hz. pose proof (zlen_zrep ps 0 ltac:(lia)) as Hzz. pose proof (zlen_nonneg chunk).
  assert (is_bytes (zrep ps 0)) as Hzb by (apply is_bytes_replicate; by unfold is_uint).
  destruct (copy_at_facts (zrep ps 0) 0 (be_bytes 4 next)) as (b0 & E0 & Hz0 & Hb0 & Hs0 & _); [lia|rewrite zlen_be_bytes; lia|done|apply is_bytes_be_bytes|].
  destruct (copy_at_facts b0 4 chunk) as (b & E & Hz1 & Hb1 & Hs1 & Ho1); [lia|lia|done|done|].
  rewrite zlen_be_bytes in Hs0. exists b0, b. split_and!; try (done || lia).
  rewrite be_u32_Ok by lia. rewrite Ho1 by lia. change (0 + 4) with (0 + Z.of_nat 4). rewrite Hs0. f_equal. by apply be32_bytes.
Qed.

Lemma write_chain_spec u ps data : 257 <= u -> u <= ps -> 512 <= ps -> is_bytes data -> forall pages i w H,
  holds w H -> usable_size w = u -> wp_page_size w = ps -> 0 <= i -> NoDup pages -> Forall (fun p => is_Some (H !! p)) pages ->
  zlen data <= (i + zlen pages) * (u - 4) -> (pages <> [] -> (i + zlen pages - 1) * (u - 4) < zlen data) ->
  exists w' H', write_chain pages i (u - 4) ps data w = Ok w' /\ holds w' H' /\ evolves 0 w w' /\
    chain H' u (default 0 (head pages)) (drop (Z.to_nat (i * (u - 4))) data) pages /\ (forall p, p ∉ pages -> H' !! p = H !! p).
Proof.
  intros Hu Hups Hps Hd. induction pages as [|p pages IH]; intros i w H Hh Eu Eps Hi Hnd Hs Hle Hlt; cbn [write_chain].
  { rewrite zlen_nil in Hle. exists w, H. split_and!; try done; [apply evolves_refl|].
    rewrite drop_ge by (unfold zlen in Hle; nia). constructor. }
  apply NoDup_cons in Hnd as [Hnp Hnd]. apply Forall_cons in Hs as [Hsp Hs]. rewrite zlen_cons in *. specialize (Hlt ltac:(done)).
  pose proof (zlen_nonneg pages) as Hpl. set (start := i * (u - 4)) in *. set (e := Z.min (start + (u - 4)) (zlen data)).
  assert (0 <= start < zlen data) as Hst by (unfold start; nia).
  assert (zlen (sub data start e) = e - start) as Hcz by (rewrite zlen_sub; unfold e; lia).
  set (next := match pages with [] => 0 | q :: _ => q end).
  assert (is_u32 next) as Hnext.
  { unfold next, is_uint. destruct pages as [|q pages]; [lia|]. apply Forall_cons in Hs as [[dq Hq] _].
    destruct (holds_page w H q dq Hh Hq) as (? & _). lia. }
  destruct (chain_page_image ps next (sub data start e)) as (b0 & b & E0 & Eb & Hbz & Hbb & Hbn & Hbs); [lia|done|by apply is_bytes_sub|unfold e in *; lia|].
  rewrite E0. bind_step. rewrite slice_Ok by (unfold e; lia). bind_step. rewrite Eb. bind_step.
  destruct (heap_write w H p b Hh Hsp) as (w1 & -> & Hh1 & Hev1); [lia|done|]. bind_step. pose proof Hev1 as (Eu1 & Eps1 & _).
  destruct (IH (i + 1) w1 (<[p := b]> H) Hh1) as (w2 & H2 & -> & Hh2 & Hev2 & Hch & Hfr); [congruence|congruence|lia|done| |lia|intros; lia|].
  { rewrite Forall_forall in Hs |- *. intros q Hq. rewrite lookup_insert_ne by (by intros ->). by apply Hs. }
  exists w2, H2. split_and!; try done.
  - eapply evolves_mono; [by eapply evolves_trans|lia].
  - cbn [head default]. assert (drop (Z.to_nat start) data = sub data start e ++ drop (Z.to_nat ((i + 1) * (u - 4))) data) as ->.
    { rewrite <- (sub_full data start), <- (sub_app_split data start e) by (unfold e; lia). f_equal.
      unfold e. destruct (Z.leb_spec (start + (u - 4)) (zlen data)).
      - rewrite Z.min_l, sub_full by lia. f_equal. unfold start. lia.
      - rewrite Z.min_r, sub_nil by lia. symmetry. apply drop_ge. unfold zlen in *. unfold start in *. nia. }
    assert (zlen (drop (Z.to_nat ((i + 1) * (u - 4))) data) = zlen data - e) as Hrest.
    { unfold e, start, zlen in *. rewrite length_drop. nia. }
    apply (chain_cons H2 u p b next); try done.
    + rewrite Hfr by done. by rewrite lookup_insert_eq.
    + unfold e in *. lia.
    + unfold e in *. lia.
    + unfold e in *. lia.
    + unfold next. by destruct pages.
  - intros q [Hq1 Hq2]%not_elem_of_cons. rewrite Hfr by done. by rewrite lookup_insert_ne.
Qed.

Lemma div_ceil_spec a b : 1 <= b -> 0 <= a -> a <= Writer.div_ceil a b * b /\ (0 < a -> (Writer.div_ceil a b - 1) * b < a) /\ 0 <= Writer.div_ceil a b <= a.
Proof.
  intros Hb Ha. unfold Writer.div_ceil. pose proof (Z.div_mod a b ltac:(lia)) as E. pose proof (Z.mod_pos_bound a b ltac:(lia)).
  assert (0 <= a / b) by (apply Z.div_pos; lia). destruct (Z.eqb_spec (a mod b) 0); split_and!; try nia.
Qed.

(** The number of pages a chain of [len] bytes takes. *)
Definition chain_pages (u len : Z) : Z := Writer.div_ceil len (u - 4).

(** A chain written is a chain of fresh pages that carries the data. *)
Lemma write_overflow_chain_spec w H data : holds w H -> is_bytes data -> data <> [] ->
  wp_page_count w + 3 * chain_pages (usable_size w) (zlen data) < 2 ^ 32 ->
  exists first w' H' ps, write_overflow_chain w data = Ok (first, w') /\ holds w' H' /\
    evolves (3 * chain_pages (usable_size w) (zlen data)) w w' /\ is_u32 first /\
    chain H' (usable_size w) first data ps /\ NoDup ps /\ Forall (fun p => H !! p = None) ps /\
    (forall p, p ∉ ps -> H' !! p = H !! p).
Proof.
  intros Hh Hd Hne Hpc. destruct (holds_geom w H Hh) as (Hu & Hups & Hps & Hfull & Hcnt). unfold chain_pages in *.
  set (u := usable_size w) in *. assert (0 < zlen data) as Hpos by (destruct data; [done|rewrite zlen_cons; pose proof (zlen_nonneg data); lia]).
  destruct (div_ceil_spec (zlen data) (u - 4) ltac:(lia) ltac:(lia)) as (Hd1 & Hd2 & Hd3). specialize (Hd2 Hpos).
  set (k := Writer.div_ceil (zlen data) (u - 4)) in *. unfold write_overflow_chain. fold u.
  destruct (Z.ltb_spec u 5); [lia|]. fold k.
  destruct (alloc_pages_spec (Z.to_nat k) w H Hh ltac:(lia)) as (pages & w1 & H1 & -> & Hl & Hnd & Hnone & Hh1 & Hev1 & Hsome & Hfr1). bind_step.
  pose proof Hev1 as (Eu1 & Eps1 & _). destruct (holds_geom w1 H1 Hh1) as (_ & _ & _ & Hfull1 & _).
  assert (zlen pages = k) as Hpl by (unfold zlen; lia).
  destruct (write_chain_spec u (wp_page_size w) data) with (pages := pages) (i := 0) (w := w1) (H := H1) as (w2 & H2 & E2 & Hh2 & Hev2 & Hch & Hfr2);
    try (done || lia).
  rewrite Hfull1, Eps1, E2. bind_step. destruct pages as [|p pages]; [rewrite zlen_nil in Hpl; nia|]. cbn [idx].
  exists p, w2, H2, (p :: pages). cbn [head default] in Hch. rewrite drop_0 in Hch. split_and!; try done.
  - eapply evolves_mono; [by eapply evolves_trans|lia].
  - apply Forall_cons in Hsome as [[dp Hp] _]. destruct (holds_page w1 H1 p dp Hh1 Hp) as (? & _). unfold is_uint. lia.
  - intros q Hq. rewrite Hfr2 by done. by apply Hfr1.
Qed.

(** ** Rows *)

Lemma local_part_max u p : 257 <= u -> 0 <= p -> local_part u p <= u - 35.
Proof.
  intros Hu Hp. unfold local_part, split_value. pose proof (local_bounds LeafTable u Hu) as Hb. unfold max_local, min_local in Hb.
  unfold sat_sub in *. destruct (Z.leb_spec p (Z.max 0 (u - 35))); cbn [fst]; [lia|].
  rewrite (Z.max_r 0 (u - 12)) by lia.
  set (m := Z.max 0 ((u - 12) * 32 / 255 - 23)) in *.
  match goal with |- (if ?x <=? ?y then _ else _) <= _ => destruct (Z.leb_spec x y) end; lia.
Qed.

Lemma cell_ok_max u c : 257 <= u -> cell_ok u c -> 2 + zlen c.2 <= u - 8.
Proof.
  intros Hu (plen & n1 & n2 & Hc). pose proof (cell_parts_bounds u _ _ _ _ _ ltac:(lia) Hc) as (Hp & _ & H1 & H2 & _ & _).
  unfold is_uint in Hp. pose proof (local_part_max u plen Hu ltac:(lia)). rewrite (cp_len _ _ _ _ _ _ Hc). destruct (spills u plen); lia.
Qed.

(** The raw cell [c] stores the row [payload], with its overflow pages [ps]. *)
Definition row_at (H : gmap Z bytes) (u : Z) (c : LeafCell) (payload : bytes) (ps : list Z) : Prop :=
  exists n1 n2, cell_parts u c.2 (zlen payload) c.1 n1 n2 /\
    sub c.2 (n1 + n2) (n1 + n2 + local_part u (zlen payload)) = take (Z.to_nat (local_part u (zlen payload))) payload /\
    chain H u (raw_overflow u (zlen payload) c.2) (drop (Z.to_nat (local_part u (zlen payload))) payload) ps.

Lemma row_at_ok H u c payload ps : row_at H u c payload ps -> cell_ok u c.
Proof. intros (n1 & n2 & Hc & _). by exists (zlen payload), n1, n2. Qed.

Lemma row_at_frame H H' u c payload ps : row_at H u c payload ps -> (forall p, p ∈ ps -> H' !! p = H !! p) -> row_at H' u c payload ps.
Proof. intros (n1 & n2 & Hc & Hs & Hch) Hf. exists n1, n2. split_and!; try done. by apply (chain_frame H). Qed.

(** Reading the row back from a page its cell is on. *)
Lemma read_row w H bt i off c payload ps : holds w H -> row_at H (usable_size w) c payload ps -> zlen payload <= Cursor.ISIZE_MAX ->
  page_type bt = LeafTable -> cell_offset bt i = Ok off -> 0 <= off -> off + zlen c.2 <= zlen (bt_data bt) ->
  sub (bt_data bt) off (off + zlen c.2) = c.2 -> zlen (bt_data bt) < 2 ^ 32 ->
  exists cell, table_leaf_cell bt i (usable_size w) = Ok cell /\ rowid cell = c.1 /\
    Cursor.read_payload (wp_source w) (bt_data bt) (tl_payload cell) = Ok payload.
Proof.
  intros Hh (n1 & n2 & Hc & Hs & Hch) Hmax Ht Eo Ho Hz Hsub Hd. destruct (holds_geom w H Hh) as (Hu & Hups & Hps & _).
  destruct (leaf_cell_at bt i (usable_size w) off c.2 (zlen payload) c.1 n1 n2) as [E _]; try (done || lia).
  pose proof (cell_parts_bounds (usable_size w) _ _ _ _ _ ltac:(lia) Hc) as (_ & _ & H1 & H2 & Hl & Hsum).
  eexists. split_and!; [exact E|done|]. cbn [tl_payload]. unfold Cursor.read_payload. cbn [total_len local_offset local_len overflow].
  destruct (Z.ltb_spec Cursor.ISIZE_MAX (zlen payload)); [lia|]. set (local := local_part (usable_size w) (zlen payload)) in *.
  rewrite slice_Ok by lia. bind_step.
  assert (sub (bt_data bt) (off + n1 + n2) (off + n1 + n2 + local) = take (Z.to_nat local) payload) as ->.
  { rewrite <- Hs. transitivity (sub (sub (bt_data bt) off (off + zlen c.2)) (n1 + n2) (n1 + n2 + local)); [|by rewrite Hsub].
    rewrite sub_sub by lia. f_equal; lia. }
  assert (zlen (take (Z.to_nat local) payload) = local) as Hlt by (unfold zlen in *; rewrite length_take; lia).
  assert (zlen (drop (Z.to_nat local) payload) = zlen payload - local) as Hld by (unfold zlen in *; rewrite length_drop; lia).
  change (Pager.src_usable_size (wp_source w)) with (usable_size w). rewrite (chain_read w H (usable_size w) _ _ ps Hh eq_refl Hch); [|lia|].
  - bind_step. by rewrite take_drop, Z.eqb_refl.
  - apply chain_length in Hch. unfold zlen in *. lia.
Qed.

Lemma sub_tail {A} (l k : list A) n : zlen k = n -> sub (l ++ k) (zlen (l ++ k) - n) (zlen (l ++ k)) = k.
Proof.
  intros Hk. rewrite sub_full. apply drop_app_length'. unfold zlen in *. rewrite length_app. lia.
Qed.

(** Pages the overflow chain of a payload takes. *)
Definition row_pages (u len : Z) : Z := chain_pages u (len - local_part u len).

Lemma chain_pages_nonneg u len : 257 <= u -> 0 <= len -> 0 <= chain_pages u len.
Proof. intros Hu Hl. destruct (div_ceil_spec len (u - 4) ltac:(lia) Hl) as (_ & _ & H & _). exact H. Qed.

Lemma build_leaf_cell_spec w H rid payload : holds w H -> is_bytes payload -> is_i64 rid -> zlen payload < 2 ^ 64 ->
  wp_page_count w + 3 * row_pages (usable_size w) (zlen payload) < 2 ^ 32 ->
  exists cell w' H' ps, build_leaf_cell w rid payload = Ok (cell, w') /\ holds w' H' /\
    evolves (3 * row_pages (usable_size w) (zlen payload)) w w' /\ row_at H' (usable_size w) (rid, cell) payload ps /\
    NoDup ps /\ Forall (fun p => H !! p = None) ps /\ (forall p, p ∉ ps -> H' !! p = H !! p).
Proof.
  intros Hh Hb Hr Hlen Hpc. destruct (holds_geom w H Hh) as (Hu & Hups & Hps & _). set (u := usable_size w) in *.
  pose proof (zlen_nonneg payload) as Hnn. pose proof (split_value_local LeafTable u (zlen payload) Hnn ltac:(lia)) as [Hl _].
  assert (spills u (zlen payload) = false -> local_part u (zlen payload) = zlen payload) as Hns.
  { unfold spills, local_part, split_value. destruct (_ <=? _); [done|]. done. }
  assert (spills u (zlen payload) = true -> local_part u (zlen payload) < zlen payload) as Hsp.
  { unfold spills. intros E. pose proof (local_part_max u (zlen payload) Hu Hnn). unfold split_value, sat_sub in E.
    destruct (Z.leb_spec (zlen payload) (Z.max 0 (u - 35))); [done|lia]. }
  change (split_value LeafTable u (zlen payload)).1 with (local_part u (zlen payload)) in Hl.
  set (local := local_part u (zlen payload)) in *. set (v1 := Varint.spec_bytes (zlen payload)).
  set (v2 := Varint.spec_bytes (to_unsigned 64 rid)). set (loc := take (Z.to_nat local) payload).
  assert (zlen loc = local) as Hloc by (unfold loc, zlen in *; rewrite length_take; lia).
  pose proof (Varint.zlen_spec_bytes (zlen payload)) as Hv1. pose proof (Varint.zlen_spec_bytes (to_unsigned 64 rid)) as Hv2. fold v1 in Hv1. fold v2 in Hv2.
  pose proof (Varint.len_range (zlen payload)) as Hl1. pose proof (Varint.len_range (to_unsigned 64 rid)) as Hl2.
  (* whatever follows the local part, the cell has the right parts *)
  assert (forall tl, is_bytes tl -> zlen tl = (if spills u (zlen payload) then 4 else 0) ->
    cell_parts u (v1 ++ v2 ++ loc ++ tl) (zlen payload) rid (zlen v1) (zlen v2) /\
    sub (v1 ++ v2 ++ loc ++ tl) (zlen v1 + zlen v2) (zlen v1 + zlen v2 + local) = loc) as Hparts.
  { intros tl Htl Hz. split; [split|].
    - rewrite !is_bytes_app. split_and!; [apply Varint.is_bytes_spec_bytes..|by apply is_bytes_take|done].
    - rewrite Hv1. apply Varint.decode_spec_bytes. unfold is_uint. lia.
    - rewrite drop_app_length' by (unfold zlen; lia). unfold Varint.decode_i64, v2. rewrite Varint.decode_spec_bytes by (apply wrap_range; lia).
      fold v2. rewrite Hv2. by rewrite to_signed_unsigned by (lia || done).
    - rewrite !zlen_app. fold local. lia.
    - rewrite app_assoc. apply sub_app_exact; rewrite ?zlen_app; lia. }
  unfold build_leaf_cell. fold u. rewrite payload_split_Ok by lia. replace (split_value LeafTable u (zlen payload)) with (local, spills u (zlen payload)) by (symmetry; apply surjective_pairing).
  bind_step. rewrite slice_Ok by lia. bind_step. rewrite !Varint.to_vec_spec. fold v1 v2.
  assert (sub payload 0 local = loc) as -> by (unfold sub, loc; by rewrite Z.sub_0_r, drop_0).
  unfold row_pages. fold local. destruct (spills u (zlen payload)) eqn:Es.
  - specialize (Hsp eq_refl). unfold slice_from. rewrite slice_Ok by lia. bind_step. rewrite sub_full.
    assert (zlen (drop (Z.to_nat local) payload) = zlen payload - local) as Hrest.
    { unfold zlen in *. rewrite length_drop. lia. }
    destruct (write_overflow_chain_spec w H (drop (Z.to_nat local) payload)) as (first & w' & H' & ps & -> & Hh' & Hev & Hf & Hch & Hnd & Hnone & Hfr);
      [done|by apply is_bytes_drop|intros E; rewrite E, zlen_nil in Hrest; lia|rewrite Hrest; fold u; exact Hpc|].
    bind_step. exists ((v1 ++ v2 ++ loc) ++ be_bytes 4 first), w', H', ps. rewrite Hrest in Hev. split_and!; try done.
    destruct (Hparts (be_bytes 4 first)) as [Hp1 Hp2]; [apply is_bytes_be_bytes|by rewrite zlen_be_bytes|].
    rewrite <- !app_assoc. exists (zlen v1), (zlen v2). cbn [fst snd]. fold local loc. split_and!; [exact Hp1|exact Hp2|].
    unfold raw_overflow. rewrite Es, !app_assoc. rewrite (sub_tail _ (be_bytes 4 first)) by (by rewrite zlen_be_bytes).
    by rewrite be32_bytes.
  - specialize (Hns eq_refl). exists (v1 ++ v2 ++ loc), w, H, []. rewrite Hns, Z.sub_diag.
    destruct (Hparts []) as [Hp1 Hp2]; [apply Forall_nil_2|done|]. rewrite !app_nil_r in Hp1, Hp2. split_and!; try done.
    + apply evolves_mono with 0; [apply evolves_refl|]. pose proof (chain_pages_nonneg u 0 Hu ltac:(lia)). lia.
    + exists (zlen v1), (zlen v2). cbn [fst snd]. fold local loc. split_and!; [exact Hp1|exact Hp2|].
      unfold raw_overflow. rewrite Es. rewrite Hns. rewrite drop_ge by (unfold zlen; lia). constructor.
    + apply NoDup_nil_2.
Qed.

End WriterHeap.
