(* ===== verification/WriterTree.v ===== *)
(** Table b-trees on the page heap: the abstract tree a heap represents, its
    ordering invariant, and the list operations of the table writer (cell
    placement, child choice, splicing, interior splits) on that abstraction. *)

From S2P Require Import Prelude Varint Header Balance Pager BtPage WritePager WritePagerProps Writer WriterPages WriterHeap.
From stdpp Require Import sorting.
Import BtPage WritePager WritePagerProps Writer WriterPages WriterHeap.
Local Open Scope Z_scope.

Module WriterTree.

(** ** Trees *)

(** A leaf page with its cells, or an interior page with its children, each
    with the upper bound of its rowids: the separator to its right, and for the
    last child the bound of the whole tree. *)
Inductive btree : Type :=
  | BLeaf (n : Z) (cells : list LeafCell)
  | BNode (n : Z) (kids : list (btree * Z)).

Definition troot (t : btree) : Z := match t with BLeaf n _ | BNode n _ => n end.

Fixpoint pages (t : btree) : list Z :=
  match t with
  | BLeaf n _ => [n]
  | BNode n kids => n :: flat_map (fun k => pages k.1) kids
  end.

Fixpoint tcells (t : btree) : list LeafCell :=
  match t with
  | BLeaf _ cells => cells
  | BNode _ kids => flat_map (fun k => tcells k.1) kids
  end.

Definition fpages (f : list (btree * Z)) : list Z := flat_map (fun k => pages k.1) f.
Definition fcells (f : list (btree * Z)) : list LeafCell := flat_map (fun k => tcells k.1) f.
Definition froots (f : list (btree * Z)) : list Z := (fun k => troot k.1) <$> f.
(** The separators between the trees of a forest. *)
Definition fdivs (f : list (btree * Z)) : list Z := removelast (f.*2).

(** The bound after the trees of a forest. *)
Definition upper (lo : Z) (f : list (btree * Z)) : Z := default lo (snd <$> last f).

(** The trees of a forest lie between their bounds, from [lo] on. *)
Fixpoint seg (P : Z -> Z -> btree -> Prop) (lo : Z) (f : list (btree * Z)) : Prop :=
  match f with
  | [] => True
  | k :: f => lo <= k.2 /\ P lo k.2 k.1 /\ seg P k.2 f
  end.

Definition cell_lt (a b : LeafCell) : Prop := a.1 < b.1.
Definition within (lo hi : Z) (cells : list LeafCell) : Prop := Forall (fun c => lo < c.1 <= hi) cells.

(** The heap stores the tree, of height [h], with rowids in ([lo], [hi]]: every
    page reads back as the node says, the cells ascend, each page's cells fit
    it, and each separator bounds the subtrees beside it. *)
Fixpoint tree_ok (H : gmap Z bytes) (u : Z) (h : nat) (lo hi : Z) (t : btree) : Prop :=
  match h, t with
  | O, BLeaf n cells =>
      (exists d, H !! n = Some d /\ leaf_image u n d cells) /\ leaf_fits cells (body_of n) u = true /\
      StronglySorted cell_lt cells /\ within lo hi cells
  | S h, BNode n kids =>
      (exists d, H !! n = Some d /\ node_image n d (zip (froots kids) (fdivs kids)) (default 0 (last (froots kids)))) /\
      interior_fits (zip (froots kids) (fdivs kids)) (body_of n) u = true /\
      kids <> [] /\ upper lo kids = hi /\ seg (tree_ok H u h) lo kids
  | _, _ => False
  end.

(** ** Segments *)

Lemma upper_app lo f g : upper lo (f ++ g) = upper (upper lo f) g.
Proof. unfold upper. rewrite last_app. by destruct (last g). Qed.

Lemma upper_cons lo k f : upper lo (k :: f) = upper k.2 f.
Proof. exact (upper_app lo [k] f). Qed.

Lemma seg_app P lo f g : seg P lo (f ++ g) <-> seg P lo f /\ seg P (upper lo f) g.
Proof.
  revert lo. induction f as [|k f IH]; intros lo; cbn [app seg]; [change (upper lo []) with lo; tauto|]. rewrite IH, upper_cons. tauto.
Qed.

Lemma seg_upper P lo f : seg P lo f -> lo <= upper lo f.
Proof.
  revert lo. induction f as [|k f IH]; intros lo; [by unfold upper; simpl; lia|]. cbn [seg]. rewrite upper_cons.
  intros (H1 & _ & H2%IH). lia.
Qed.

Lemma seg_impl P Q lo f : seg P lo f -> (forall lo hi k b, (k, b) ∈ f -> P lo hi k -> Q lo hi k) -> seg Q lo f.
Proof.
  revert lo. induction f as [|[k b] f IH]; intros lo; cbn [seg fst snd]; [done|]. intros (H1 & H2 & H3) HQ. split_and!; [done| |].
  - apply (HQ lo b k b); [by left|done].
  - apply IH; [done|]. intros lo' hi' k' b' Hk. apply (HQ lo' hi' k' b'). by right.
Qed.

Lemma flat_map_sub {A B} (f : A -> list B) l x : x ∈ l -> f x ⊆ flat_map f l.
Proof. intros Hx y Hy. apply list_elem_of_In, in_flat_map. exists x. by rewrite <- !list_elem_of_In. Qed.

(** The representation only reads the pages of the tree. *)
Lemma tree_ok_frame H H' u h : forall lo hi t, tree_ok H u h lo hi t -> (forall p d, p ∈ pages t -> H !! p = Some d -> H' !! p = Some d) ->
  tree_ok H' u h lo hi t.
Proof.
  induction h as [|h IH]; intros lo hi [n cells|n kids]; cbn [tree_ok pages]; try done.
  - intros ((d & Hd & Hi) & Hs) Hf. split; [|done]. exists d. split; [|done]. apply Hf; [by left|done].
  - intros ((d & Hd & Hi) & Hfit & Hne & Hup & Hs) Hf. split_and!; try done.
    + exists d. split; [|done]. apply Hf; [by left|done].
    + apply (seg_impl (tree_ok H u h)); [done|]. intros lo' hi' k b Hk Ht. apply (IH _ _ _ Ht). intros p e Hp. apply Hf. right.
      by apply (flat_map_sub (fun k => pages k.1) kids (k, b)).
Qed.

Lemma seg_frame H H' u h lo f : seg (tree_ok H u h) lo f -> (forall p d, p ∈ fpages f -> H !! p = Some d -> H' !! p = Some d) ->
  seg (tree_ok H' u h) lo f.
Proof.
  intros Hs Hf. apply (seg_impl (tree_ok H u h)); [done|]. intros lo' hi' k b Hk Ht. apply (tree_ok_frame H _ _ _ _ _ _ Ht).
  intros p e Hp. apply Hf. by apply (flat_map_sub (fun k => pages k.1) f (k, b)).
Qed.

(** The pages of a tree are in the heap. *)
Lemma tree_ok_owned H u h : forall lo hi t, tree_ok H u h lo hi t -> Forall (fun p => is_Some (H !! p)) (pages t).
Proof.
  induction h as [|h IH]; intros lo hi [n cells|n kids]; cbn [tree_ok pages]; try done.
  - intros ((d & Hd & _) & _). apply Forall_singleton. by eexists.
  - intros ((d & Hd & _) & _ & _ & _ & Hs). apply Forall_cons_2; [by eexists|]. clear Hd. revert lo Hs.
    induction kids as [|k kids IHk]; intros lo; cbn [seg flat_map]; [constructor|]. intros (_ & Ht & Hs).
    apply Forall_app_2; [by apply (IH lo k.2)|by apply (IHk k.2)].
Qed.

Lemma seg_owned H u h lo f : seg (tree_ok H u h) lo f -> Forall (fun p => is_Some (H !! p)) (fpages f).
Proof.
  revert lo. induction f as [|k f IH]; intros lo; cbn [seg fpages flat_map]; [constructor|]. intros (_ & Ht & Hs).
  apply Forall_app_2; [by apply (tree_ok_owned H u h lo k.2)|by apply (IH k.2)].
Qed.

Lemma within_mono lo hi lo' hi' l : within lo hi l -> lo' <= lo -> hi <= hi' -> within lo' hi' l.
Proof. intros H Hlo Hhi. eapply Forall_impl; [exact H|]. cbn. lia. Qed.

(** The cells of a tree ascend and lie between its bounds. *)
Lemma seg_sorted (P : Z -> Z -> btree -> Prop) : (forall lo hi t, P lo hi t -> StronglySorted cell_lt (tcells t) /\ within lo hi (tcells t)) ->
  forall f lo, seg P lo f -> StronglySorted cell_lt (fcells f) /\ within lo (upper lo f) (fcells f).
Proof.
  intros HP. induction f as [|k f IH]; intros lo; cbn [seg fcells flat_map]; [by repeat constructor|].
  intros (Hle & Ht & Hs). destruct (HP _ _ _ Ht) as [Hs1 Hw1]. destruct (IH k.2 Hs) as [Hs2 Hw2]. rewrite upper_cons.
  pose proof (seg_upper _ _ _ Hs) as Hu. fold (fcells f). split.
  - unfold within in *. clear -Hs1 Hw1 Hs2 Hw2. induction Hs1 as [|c l Hl IHl Hc]; [done|]. apply Forall_cons in Hw1 as [Hc1 Hw1].
    cbn [app]. constructor; [by apply IHl|]. apply Forall_app_2; [done|]. eapply Forall_impl; [exact Hw2|]. unfold cell_lt. cbn. lia.
  - apply Forall_app_2; [apply (within_mono lo k.2); lia || done|apply (within_mono k.2 (upper k.2 f)); lia || done].
Qed.

Lemma tree_ok_sorted H u h : forall lo hi t, tree_ok H u h lo hi t -> StronglySorted cell_lt (tcells t) /\ within lo hi (tcells t).
Proof.
  induction h as [|h IH]; intros lo hi [n cells|n kids]; cbn [tree_ok tcells]; try done.
  - by intros (_ & _ & Hs & Hw).
  - intros (_ & _ & _ & <- & Hs). by apply (seg_sorted (tree_ok H u h)).
Qed.

(** ** Inserting into a sorted list of cells *)

(** The specification: a cell replaces the one with its rowid or goes between
    its neighbours. *)
Fixpoint ins (c : LeafCell) (l : list LeafCell) : list LeafCell :=
  match l with
  | [] => [c]
  | x :: l => if c.1 <? x.1 then c :: x :: l else if c.1 =? x.1 then c :: l else x :: ins c l
  end.

Definition below (r : Z) (l : list LeafCell) : Prop := Forall (fun c => c.1 < r) l.
Definition above (r : Z) (l : list LeafCell) : Prop := Forall (fun c => r < c.1) l.

Lemma ins_below c l k : below c.1 l -> ins c (l ++ k) = l ++ ins c k.
Proof.
  induction 1 as [|x l Hx _ IH]; [done|]. cbn [app ins]. destruct (Z.ltb_spec c.1 x.1); [lia|].
  destruct (Z.eqb_spec c.1 x.1); [lia|]. by rewrite IH.
Qed.

Lemma ins_above c l k : above c.1 k -> ins c (l ++ k) = ins c l ++ k.
Proof.
  intros Hk. induction l as [|x l IH]; cbn [app ins].
  - destruct Hk as [|y k Hy _]; [done|]. cbn [ins]. destruct (Z.ltb_spec c.1 y.1); [done|lia].
  - destruct (_ <? _); [done|]. destruct (_ =? _); [done|]. by rewrite IH.
Qed.

Lemma ins_same c x k : c.1 = x.1 -> ins c (x :: k) = c :: k.
Proof. intros E. cbn [ins]. rewrite E, Z.ltb_irrefl, Z.eqb_refl. done. Qed.

(** Where a cell goes: between the cells below it and those above, and in the
    place of one with its rowid. *)
Lemma ins_place c l : StronglySorted cell_lt l -> exists a b, below c.1 a /\ above c.1 b /\ ins c l = a ++ c :: b /\
  (l = a ++ b \/ exists x, x.1 = c.1 /\ l = a ++ x :: b).
Proof.
  induction 1 as [|x l Hl (a & b & Ha & Hb & E & El) Hx]; [exists [], []; split_and!; [by constructor|by constructor|done|by left]|]. cbn [ins].
  destruct (Z.ltb_spec c.1 x.1).
  - exists [], (x :: l). split_and!; [by constructor| |done|by left]. apply Forall_cons_2; [done|]. eapply Forall_impl; [exact Hx|]. unfold cell_lt. lia.
  - destruct (Z.eqb_spec c.1 x.1) as [Ex|Nx].
    + exists [], l. split_and!; [by constructor| |done|by right; exists x]. eapply Forall_impl; [exact Hx|]. unfold cell_lt. lia.
    + exists (x :: a), b. split_and!; [apply Forall_cons_2; [lia|done]|done|by rewrite E|].
      destruct El as [->|(y & Ey & ->)]; [by left|right; by exists y].
Qed.

Lemma within_ins lo hi c l : within lo hi l -> lo < c.1 <= hi -> within lo hi (ins c l).
Proof.
  intros Hl Hc. induction Hl as [|x l Hx Hl IH]; cbn [ins]; [by apply Forall_singleton|].
  destruct (_ <? _); [by repeat apply Forall_cons_2|]. destruct (_ =? _); by apply Forall_cons_2.
Qed.

Lemma Forall_ins (Q : LeafCell -> Prop) c l : Forall Q l -> Q c -> Forall Q (ins c l).
Proof.
  intros Hl Hc. induction Hl as [|x l Hx Hl IH]; cbn [ins]; [by apply Forall_singleton|].
  destruct (_ <? _); [by repeat apply Forall_cons_2|]. destruct (_ =? _); by apply Forall_cons_2.
Qed.

Lemma ins_sorted c l : StronglySorted cell_lt l -> StronglySorted cell_lt (ins c l).
Proof.
  induction 1 as [|x l Hl IH Hx]; cbn [ins]; [by repeat constructor|]. unfold cell_lt in *.
  destruct (Z.ltb_spec c.1 x.1).
  - constructor; [by constructor|]. apply Forall_cons_2; [done|]. eapply Forall_impl; [exact Hx|]. cbn. lia.
  - destruct (Z.eqb_spec c.1 x.1) as [E|E].
    + constructor; [done|]. eapply Forall_impl; [exact Hx|]. cbn. lia.
    + constructor; [done|]. apply Forall_ins; [done|lia].
Qed.

Lemma zlen_ins c l : zlen (ins c l) <= zlen l + 1.
Proof.
  induction l as [|x l IH]; cbn [ins]; [done|]. destruct (_ <? _); [rewrite !zlen_cons; lia|].
  destruct (_ =? _); rewrite !zlen_cons; lia.
Qed.

Lemma sorted_below l i c : StronglySorted cell_lt l -> l !! i = Some c -> below c.1 (take i l) /\ above c.1 (drop (S i) l).
Proof.
  intros Hs. revert i. induction Hs as [|x l Hl IH Hx]; intros [|i] Hi; [done..| |].
  - injection Hi as ->. split; [constructor|]. exact Hx.
  - destruct (IH i Hi) as [H1 H2]. cbn [take drop]. split; [|done]. apply Forall_cons_2; [|done].
    rewrite Forall_lookup in Hx. by apply (Hx i c).
Qed.

(** Cells below, and cells above, a cell that is known to be. *)
Lemma sorted_split l i c r : StronglySorted cell_lt l -> l !! i = Some c ->
  (c.1 <= r -> below r (take i l)) /\ (r <= c.1 -> above r (drop (S i) l)).
Proof.
  intros Hs Hi. destruct (sorted_below l i c Hs Hi) as [H1 H2]. split; intros Hr.
  - eapply Forall_impl; [exact H1|]. cbn. lia.
  - eapply Forall_impl; [exact H2|]. cbn. lia.
Qed.

Lemma bsearch_loop_spec l r : StronglySorted cell_lt l -> forall fuel base size, size <= Z.of_nat fuel -> 1 <= size -> 0 <= base -> base + size <= zlen l ->
  below r (take (Z.to_nat base) l) -> above r (drop (Z.to_nat (base + size)) l) ->
  exists b, bsearch_loop fuel l r base size = Ok b /\ 0 <= b < zlen l /\ below r (take (Z.to_nat b) l) /\ above r (drop (S (Z.to_nat b)) l).
Proof.
  intros Hs. induction fuel as [|fuel IH]; intros base size Hf Hsz Hb Hz Hlo Hhi; [lia|]. cbn [bsearch_loop].
  destruct (Z.ltb_spec 1 size) as [H1|H1].
  - set (half := size / 2). assert (1 <= half /\ 2 * half <= size) as Hh by (unfold half; Z.to_euclidean_division_equations; lia).
    destruct (idx_in_range l (base + half)) as [c Ec]; [lia|]. rewrite Ec. bind_step. apply idx_Ok in Ec as [_ Ec].
    destruct (sorted_split l _ c r Hs Ec) as [Hc1 Hc2]. destruct (Z.ltb_spec r c.1) as [Hr|Hr].
    + apply IH; try (done || lia). specialize (Hc2 ltac:(lia)). destruct (Z.eq_dec (base + (size - half)) (base + half)) as [->|Hne].
      * rewrite (drop_S _ c) by done. by apply Forall_cons_2.
      * replace (Z.to_nat (base + (size - half))) with (S (Z.to_nat (base + half)) + Z.to_nat (size - 2 * half - 1))%nat by lia.
        rewrite <- drop_drop. by apply Forall_drop.
    + apply IH; try (done || lia); [by apply Hc1|]. by replace (base + half + (size - half)) with (base + size) by lia.
  - exists base. split_and!; try (done || lia). replace (S (Z.to_nat base)) with (Z.to_nat (base + size)) by lia. done.
Qed.

(** Binary search and placement insert in order. *)
Lemma place_cell_spec l r raw : StronglySorted cell_lt l -> place_cell l r raw = Ok (ins (r, raw) l).
Proof.
  intros Hs. unfold place_cell, binary_search. pose proof (zlen_nonneg l). destruct (Z.eqb_spec (zlen l) 0) as [E|E].
  { assert (l = []) as -> by (destruct l; [done|unfold zlen in E; simpl in E; lia]). done. }
  destruct (bsearch_loop_spec l r Hs (S (length l)) 0 (zlen l)) as (b & -> & Hb & Hlo & Hhi); try lia; [unfold zlen; lia|constructor| |].
  { rewrite drop_ge by (unfold zlen; lia). constructor. }
  bind_step. destruct (idx_in_range l b Hb) as [c Ec]. rewrite Ec. bind_step. apply idx_Ok in Ec as [_ Ec].
  pose proof (take_drop_middle l _ c Ec) as El. assert (length (take (Z.to_nat b) l) = Z.to_nat b) as Hlt by (rewrite length_take; unfold zlen in Hb; lia).
  destruct (Z.eqb_spec c.1 r) as [Er|Er].
  - bind_step. rewrite set_idx_Ok by lia. f_equal. rewrite insert_take_drop by (unfold zlen in Hb; lia). rewrite <- El at 3.
    rewrite ins_below by done. by rewrite ins_same.
  - destruct (Z.ltb_spec c.1 r) as [Hr|Hr]; bind_step.
    + destruct (Z.ltb_spec (zlen l) (b + 1)); [lia|]. f_equal. replace (Z.to_nat (b + 1)) with (S (Z.to_nat b)) by lia.
      rewrite (take_S_r _ _ c) by done. rewrite <- El at 3. rewrite <- app_assoc, ins_below by done. f_equal. cbn [app ins fst].
      destruct (Z.ltb_spec r c.1); [lia|]. destruct (Z.eqb_spec r c.1); [lia|]. f_equal.
      symmetry. exact (ins_above (r, raw) [] (drop (S (Z.to_nat b)) l) Hhi).
    + destruct (Z.ltb_spec (zlen l) b); [lia|]. f_equal. rewrite <- El at 3. rewrite ins_below by done. f_equal. cbn [ins fst].
      destruct (Z.ltb_spec r c.1); [|lia]. by rewrite (drop_S _ c).
Qed.

End WriterTree.
