(* ===== verification/WriterBalance.v ===== *)
(** Leaf rebalancing of the table writer: pooling a window of leaves and writing
    the redistributed cells ([balance_leaf_pooled], [balance_leaf_into]) turns a
    run of leaves into a run of leaves with the same cells, all of which fit. *)

From S2P Require Import Prelude Varint Header Balance Pager BtPage WritePager WritePagerProps Writer WriterPages WriterHeap WriterTree.
From stdpp Require Import sorting.
Import BtPage WritePager WritePagerProps Writer WriterPages WriterHeap WriterTree.
Local Open Scope Z_scope.

Module WriterBalance.

(** ** Pooling *)

(** Running totals of the lengths of a list of lists. *)
Fixpoint running (acc : Z) (cl : list (list LeafCell)) : list Z :=
  match cl with
  | [] => []
  | c :: cl => (acc + zlen c) :: running (acc + zlen c) cl
  end.

Lemma length_running acc cl : length (running acc cl) = length cl.
Proof. revert acc. induction cl; intros acc; simpl; [done|]. by rewrite IHcl. Qed.

Lemma pool_window_spec w H p child : holds w H -> forall cl roots at_ pooled,
  length roots = length cl ->
  (forall i r cells, roots !! i = Some r -> cl !! i = Some cells ->
     if at_ + Z.of_nat i =? p then cells = child else exists d, H !! r = Some d /\ leaf_image (usable_size w) r d cells) ->
  pool_window w roots at_ p child pooled = Ok (pooled ++ concat cl, running (zlen pooled) cl).
Proof.
  intros Hh. induction cl as [|cells cl IH]; intros [|r roots] at_ pooled Hl Hi; try done; cbn [pool_window concat running].
  { by rewrite app_nil_r. }
  assert ((if at_ =? p then Ok child else let* bt := read_bt w r in read_leaf_cells bt (usable_size w)) = Ok cells) as ->.
  { specialize (Hi 0%nat r cells eq_refl eq_refl). rewrite Z.add_0_r in Hi. destruct (at_ =? p); [by rewrite Hi|].
    destruct Hi as (d & Hd & bt & Ep & _ & Er). unfold read_bt. rewrite (wp_page_Ok w H r d Hh Hd). bind_step. rewrite Ep. bind_step. done. }
  bind_step. rewrite (IH roots (at_ + 1) (pooled ++ cells)).
  - bind_step. by rewrite <- app_assoc, zlen_app.
  - simpl in Hl. lia.
  - intros i r' cells' Hr Hc. replace (at_ + 1 + Z.of_nat i) with (at_ + Z.of_nat (S i)) by lia. by apply (Hi (S i)).
Qed.

Lemma running_at cl : forall acc t, 0 <= t < zlen cl ->
  Balance.at_ (running acc cl) t = acc + zlen (concat (take (Z.to_nat (t + 1)) cl)).
Proof.
  induction cl as [|c cl IH]; intros acc t Ht; [unfold zlen in Ht; simpl in Ht; lia|]. rewrite zlen_cons in Ht.
  destruct (decide (t = 0)) as [->|Hne].
  - change (Z.to_nat (0 + 1)) with 1%nat. cbn [take concat]. by rewrite app_nil_r.
  - replace (Z.to_nat (t + 1)) with (S (Z.to_nat (t - 1 + 1))) by lia. cbn [take concat]. rewrite zlen_app.
    assert (Balance.at_ (running acc (c :: cl)) t = Balance.at_ (running (acc + zlen c) cl) (t - 1)) as ->.
    { unfold Balance.at_. replace (Z.to_nat t) with (S (Z.to_nat (t - 1))) by lia. done. }
    rewrite IH by lia. lia.
Qed.

Lemma zlen_concat_take_le {A} (cl : list (list A)) i j : (i <= j)%nat -> zlen (concat (take i cl)) <= zlen (concat (take j cl)).
Proof.
  intros Hij. replace j with (i + (j - i))%nat by lia. rewrite <- take_take_drop, concat_app, zlen_app.
  pose proof (zlen_nonneg (concat (take (j - i) (drop i cl)))). lia.
Qed.

Lemma running_old_ok cl : 1 <= zlen cl <= zlen (concat cl) + 2 -> Balance.old_ok (zlen (concat cl)) 1 (running 0 cl).
Proof.
  intros Hl. assert (zlen (running 0 cl) = zlen cl) as Ez by (unfold zlen; by rewrite length_running).
  assert (forall t, 0 <= t < zlen cl -> 0 <= Balance.at_ (running 0 cl) t <= zlen (concat cl)) as Hr.
  { intros t Ht. rewrite running_at by done. split; [pose proof (zlen_nonneg (concat (take (Z.to_nat (t + 1)) cl))); lia|].
    rewrite <- (firstn_all cl) at 2. rewrite Z.add_0_l. apply zlen_concat_take_le. unfold zlen in Ht. lia. }
  split; [lia|]. rewrite Ez. split.
  - rewrite running_at by lia. rewrite Z.add_0_l. f_equal. f_equal. apply take_ge. unfold zlen in *. lia.
  - intros t Ht. unfold Balance.page_start. specialize (Hr t Ht) as Hrt. destruct (Z.eqb_spec t 0); [lia|].
    specialize (Hr (t - 1) ltac:(lia)). split; [|lia]. split; [lia|]. rewrite !running_at by lia.
    pose proof (zlen_concat_take_le cl (Z.to_nat (t - 1 + 1)) (Z.to_nat (t + 1)) ltac:(lia)). lia.
Qed.

(** ** Cutting the pool *)

(** The boundaries [cnt] cut the cells from [start] on into non-empty runs that
    fit [us] bytes. *)
Fixpoint cuts (sz : list Z) (us start : Z) (cnt : list Z) : Prop :=
  match cnt with
  | [] => False
  | [e] => start < e /\ e = zlen sz /\ Balance.run_size (sub sz start e) <= us
  | e :: cnt => start < e /\ e <= zlen sz /\ Balance.run_size (sub sz start e) <= us /\ cuts sz us e cnt
  end.

Lemma partition_cuts sz us cnt : Balance.partition_ok sz 1 us cnt -> cuts sz us 0 cnt.
Proof.
  intros (Hl & Hlast & Ht).
  assert (forall k (i : nat), k = (length cnt - i)%nat -> (i < length cnt)%nat -> cuts sz us (Balance.page_start 1 cnt (Z.of_nat i)) (drop i cnt)) as Hgen.
  { induction k as [|k IH]; intros i Ek Hi; [lia|]. destruct (lookup_lt_is_Some_2 cnt i Hi) as [e Ee]. rewrite (drop_S _ e) by done.
    assert (Balance.at_ cnt (Z.of_nat i) = e) as Ea by (unfold Balance.at_; by rewrite Nat2Z.id, Ee).
    destruct (Ht (Z.of_nat i)) as (H1 & H2 & H3); [unfold zlen; lia|]. rewrite Ea in *.
    destruct (drop (S i) cnt) as [|e' rest] eqn:Er.
    - cbn [cuts]. split_and!; [lia| |done]. assert (length (drop (S i) cnt) = 0%nat) as Hz by (by rewrite Er). rewrite length_drop in Hz.
      rewrite <- Ea, <- Hlast. f_equal. unfold zlen. lia.
    - change (cuts sz us (Balance.page_start 1 cnt (Z.of_nat i)) (e :: e' :: rest)) with
        (Balance.page_start 1 cnt (Z.of_nat i) < e /\ e <= zlen sz /\
         Balance.run_size (sub sz (Balance.page_start 1 cnt (Z.of_nat i)) e) <= us /\ cuts sz us e (e' :: rest)).
      split_and!; [lia|lia|done|]. rewrite <- Er. assert (S i < length cnt)%nat as Hi'.
      { apply (f_equal length) in Er. rewrite length_drop in Er. simpl in Er. lia. }
      specialize (IH (S i) ltac:(lia) Hi'). unfold Balance.page_start in IH. destruct (Z.eqb_spec (Z.of_nat (S i)) 0); [lia|].
      replace (Z.of_nat (S i) - 1) with (Z.of_nat i) in IH by lia. rewrite Ea in IH. replace (e + (1 - 1)) with e in IH by lia. exact IH. }
  specialize (Hgen (length cnt - 0)%nat 0%nat eq_refl). rewrite drop_0 in Hgen. apply Hgen. unfold zlen in Hl. lia.
Qed.

Definition sizes (cells : list LeafCell) : list Z := (fun c : LeafCell => zlen c.2) <$> cells.

Lemma run_size_sizes cells : Balance.run_size (sizes cells) = total (raws cells) + 2 * zlen cells.
Proof.
  induction cells as [|c cells IH]; [done|]. rewrite zlen_cons.
  change (Balance.run_size _) with (2 + zlen c.2 + Balance.run_size (sizes cells)).
  change (total _) with (zlen c.2 + total (raws cells)). rewrite IH. lia.
Qed.

Lemma sub_fmap {A B} (f : A -> B) l a b : sub (f <$> l) a b = f <$> sub l a b.
Proof. unfold sub. by rewrite <- fmap_drop, <- fmap_take. Qed.

Lemma zlen_sizes cells : zlen (sizes cells) = zlen cells.
Proof. unfold zlen, sizes. by rewrite length_fmap. Qed.

(** ** Writing the slices *)

Definition fresh_pages (H : gmap Z bytes) (old new : list Z) : Prop :=
  NoDup new /\ forall p, p ∈ new -> p ∈ old \/ H !! p = None.

(** Pages outside [ps] keep their contents. *)
Definition frame (H H' : gmap Z bytes) (ps : list Z) : Prop :=
  forall p d, p ∉ ps -> H !! p = Some d -> H' !! p = Some d.

Lemma body_not_1 n : n <> 1 -> body_of n = 0.
Proof. intros Hn. unfold body_of. by destruct (Z.eqb_spec n 1). Qed.

(** A leaf page written from cells that fit, with the last bound [hi]. *)
Lemma write_leaf w H u n cells lo hi : holds w H -> usable_size w = u -> is_Some (H !! n) -> n <> 1 ->
  Forall (cell_ok u) cells -> leaf_fits cells 0 u = true -> StronglySorted cell_lt cells -> within lo hi cells ->
  exists buf w', serialize_leaf (wp_page_size w) u 0 cells None = Ok buf /\ write_page w n buf = Ok w' /\ evolves 0 w w' /\
    holds w' (<[n := buf]> H) /\ tree_ok (<[n := buf]> H) u 0 lo hi (BLeaf n cells).
Proof.
  intros Hh Eu Hs Hn Hc Hfit Hsort Hw. destruct (holds_geom w H Hh) as (Hu & Hups & Hps & _). rewrite Eu in *.
  pose proof (body_not_1 n Hn) as Hb0.
  destruct (serialize_leaf_image u (wp_page_size w) n None cells) as (d & Es & Hz & Hb & Him & _); try done; [by rewrite Hb0|]. rewrite Hb0 in Es.
  destruct (heap_write w H n d Hh Hs Hz Hb) as (w' & Ew & Hh' & Hev). exists d, w'. split_and!; try done.
  cbn [tree_ok]. rewrite Hb0. split_and!; try done. exists d. by rewrite lookup_insert_eq.
Qed.

Lemma sorted_app_inv (l k : list LeafCell) : StronglySorted cell_lt (l ++ k) -> StronglySorted cell_lt l /\ StronglySorted cell_lt k /\
  forall a b, a ∈ l -> b ∈ k -> a.1 < b.1.
Proof.
  induction l as [|x l IH]; cbn [app]; intros Hs.
  - split_and!; [constructor|done|]. by intros a b ?%elem_of_nil.
  - apply StronglySorted_inv in Hs as [Hs Hx]. destruct (IH Hs) as (H1 & H2 & H3). apply Forall_app in Hx as [Hx1 Hx2].
    split_and!; [by constructor|done|]. intros a b [->|Ha]%elem_of_cons Hb; [|by apply H3]. rewrite Forall_forall in Hx2. by apply Hx2.
Qed.

Lemma last_In {A} (l : list A) x : last l = Some x -> exists l', l = l' ++ [x].
Proof. intros E. apply last_Some in E. done. Qed.

(** The last cell of a sorted run bounds it. *)
Lemma within_last lo hi cells c : StronglySorted cell_lt cells -> within lo hi cells -> last cells = Some c -> within lo c.1 cells /\ lo < c.1 <= hi.
Proof.
  intros Hs Hw (l' & ->)%last_In. apply sorted_app_inv in Hs as (_ & _ & Hlt). unfold within in *. rewrite Forall_forall in *.
  split; [|apply Hw; apply elem_of_app; right; by left]. intros x Hx. specialize (Hw x Hx). split; [lia|].
  apply elem_of_app in Hx as [Hx|Hx]; [|apply list_elem_of_singleton in Hx as ->; lia]. specialize (Hlt x c Hx ltac:(by left)). lia.
Qed.

Lemma fdivs_cons k f : f <> [] -> fdivs (k :: f) = k.2 :: fdivs f.
Proof. by destruct f. Qed.

(** Writing one leaf per cut of the sorted pool gives a forest of leaves that
    holds the pool. *)
Lemma write_slices_spec u pool hi : 257 <= u -> Forall (cell_ok u) pool -> forall cnt start kept w H lo,
  holds w H -> usable_size w = u -> cuts (sizes pool) (u - 8) start cnt -> 0 <= start -> length kept = length cnt ->
  NoDup kept -> Forall (fun p => is_Some (H !! p)) kept -> 1 ∉ kept ->
  StronglySorted cell_lt (drop (Z.to_nat start) pool) -> within lo hi (drop (Z.to_nat start) pool) ->
  exists f w' H', write_slices cnt kept pool start (wp_page_size w) u w = Ok (fdivs f, w') /\ holds w' H' /\ evolves 0 w w' /\
    froots f = kept /\ fpages f = kept /\ f <> [] /\ upper lo f = hi /\ seg (tree_ok H' u 0) lo f /\
    fcells f = drop (Z.to_nat start) pool /\ Forall is_i64 (fdivs f) /\ (forall p, p ∉ kept -> H' !! p = H !! p).
Proof.
  intros Hu Hcells. induction cnt as [|e cnt IH]; intros start kept w H lo Hh Eu Hcut Hst Hlen Hnd Hs H1 Hsort Hw; [done|].
  destruct kept as [|pg kept]; [done|]. apply NoDup_cons in Hnd as [Hnp Hnd]. apply Forall_cons in Hs as [Hsp Hs].
  apply not_elem_of_cons in H1 as [Hp1 H1].
  assert (start < e /\ e <= zlen pool /\ Balance.run_size (sizes (sub pool start e)) <= u - 8 /\
    match cnt with [] => e = zlen pool | _ => cuts (sizes pool) (u - 8) e cnt end) as (Hse & He & Hrun & Hrest).
  { cbn [cuts] in Hcut. rewrite zlen_sizes in Hcut. unfold sizes in Hcut at 1 2. rewrite sub_fmap in Hcut. fold (sizes (sub pool start e)) in Hcut.
    destruct cnt; naive_solver lia. }
  assert (drop (Z.to_nat start) pool = sub pool start e ++ drop (Z.to_nat e) pool) as Esplit.
  { rewrite <- (sub_full pool start), <- (sub_app_split pool start e), sub_full by lia. done. }
  rewrite Esplit in Hsort, Hw. apply sorted_app_inv in Hsort as (Hsort1 & Hsort2 & Hlt). apply Forall_app in Hw as [Hw1 Hw2].
  assert (leaf_fits (sub pool start e) 0 u = true) as Hfit by (apply leaf_fits_total; rewrite run_size_sizes in Hrun; lia).
  assert (Forall (cell_ok u) (sub pool start e)) as Hok by (by apply Forall_take, Forall_drop).
  assert (zlen (sub pool start e) = e - start) as Hz by (rewrite zlen_sub; lia).
  destruct (last (sub pool start e)) as [c|] eqn:El; [|apply last_None in El; rewrite El, zlen_nil in Hz; lia].
  destruct (within_last lo hi _ c Hsort1 Hw1 El) as [Hwc Hc]. cbn [write_slices]. rewrite slice_Ok by lia. bind_step.
  assert (is_i64 c.1) as Hci.
  { apply last_In in El as (l' & El). rewrite El in Hok. apply Forall_app in Hok as [_ Hok]. apply Forall_cons in Hok as [Hok _].
    by apply (cell_ok_size u c ltac:(lia)). }
  destruct cnt as [|e' cnt].
  - destruct (write_leaf w H u pg (sub pool start e) lo hi Hh Eu Hsp ltac:(lia) Hok Hfit Hsort1 Hw1) as (buf & w' & -> & Ew & Hev & Hh' & Ht).
    bind_step. rewrite Ew. bind_step. exists [(BLeaf pg (sub pool start e), hi)], w', (<[pg := buf]> H).
    destruct kept; [|done]. split_and!; try done.
    + by split_and!; [cbn [snd]; lia|cbn [fst snd]|].
    + rewrite Esplit. rewrite (drop_ge pool) by (unfold zlen in *; lia). done.
    + intros p [Hp _]%not_elem_of_cons. by rewrite lookup_insert_ne.
  - destruct (write_leaf w H u pg (sub pool start e) lo c.1 Hh Eu Hsp ltac:(lia) Hok Hfit Hsort1 Hwc) as (buf & w1 & -> & Ew & Hev & Hh1 & Ht).
    bind_step. rewrite Ew. bind_step. rewrite El. pose proof Hev as (Eu1 & Eps1 & _).
    assert (Forall (fun p => is_Some (<[pg := buf]> H !! p)) kept) as Hs'.
    { rewrite Forall_forall in Hs |- *. intros q Hq. rewrite lookup_insert_ne by (by intros ->). by apply Hs. }
    assert (within c.1 hi (drop (Z.to_nat e) pool)) as Hw2'.
    { unfold within in *. rewrite Forall_forall in *. intros x Hx. split; [|by apply Hw2]. apply Hlt; [|done].
      apply last_In in El as (l' & ->). apply elem_of_app. right. by left. }
    destruct (IH e kept w1 (<[pg := buf]> H) c.1 Hh1 ltac:(congruence) Hrest ltac:(lia) ltac:(simpl in *; lia) Hnd Hs' H1 Hsort2 Hw2')
      as (f & w2 & H2 & E2 & Hh2 & Hev2 & Er & Epg & Hne & Hup & Hseg & Ecells & Hdiv & Hfr).
    rewrite Eps1 in E2. change (match cnt with [] => [e'] | _ :: _ => e' :: cnt end) with (e' :: cnt). rewrite E2. bind_step.
    exists ((BLeaf pg (sub pool start e), c.1) :: f), w2, H2. rewrite fdivs_cons by done. split_and!; try done.
    + eapply evolves_mono; [by eapply evolves_trans|lia].
    + unfold froots in *. cbn [fmap list_fmap fst troot]. f_equal. exact Er.
    + unfold fpages in *. cbn [flat_map fst pages app]. f_equal. exact Epg.
    + by rewrite upper_cons.
    + split_and!; [cbn [snd]; lia| |done]. cbn [fst snd]. apply (tree_ok_frame (<[pg := buf]> H)); [done|]. intros p d Hp Hd.
      cbn [pages] in Hp. apply list_elem_of_singleton in Hp as ->. by rewrite Hfr.
    + unfold fcells in *. cbn [flat_map fst tcells]. rewrite Ecells. done.
    + by apply Forall_cons_2.
    + intros p [Hp1' Hp2]%not_elem_of_cons. rewrite Hfr by done. by rewrite lookup_insert_ne.
Qed.

(** What a rebalanced run of leaves is: a forest between the same bounds with
    the pooled cells, on old pages and fresh ones, at most seven of them. *)
Definition rebalanced (H H' : gmap Z bytes) (u lo hi : Z) (old : list Z) (pool : list LeafCell) (f : list (btree * Z)) : Prop :=
  f <> [] /\ upper lo f = hi /\ seg (tree_ok H' u 0) lo f /\ fcells f = pool /\ Forall is_i64 (fdivs f) /\
  fresh_pages H old (fpages f) /\ fpages f = froots f /\ (length f <= 7)%nat.

Lemma pool_sizes u pool : 257 <= u -> Forall (cell_ok u) pool ->
  Forall (fun x => 0 <= x) (sizes pool) /\ Forall (fun x => 1 * (2 + x) <= Balance.usable_space true u) (sizes pool).
Proof.
  intros Hu Hc. split; apply Forall_fmap; eapply Forall_impl; try exact Hc; intros c Hok; cbn.
  - apply zlen_nonneg.
  - pose proof (cell_ok_max u c Hu Hok). unfold Balance.usable_space. lia.
Qed.

Lemma balance_leaf_pooled_spec w H u old pool cnt_old lo hi : holds w H -> usable_size w = u -> is_Some (H !! 1) ->
  NoDup old -> Forall (fun p => is_Some (H !! p)) old -> 1 ∉ old ->
  pool <> [] -> Forall (cell_ok u) pool -> StronglySorted cell_lt pool -> within lo hi pool ->
  Balance.old_ok (zlen pool) 1 cnt_old -> Balance.run_size (sizes pool) < 4 * (u - 7) -> wp_page_count w + 21 < 2 ^ 32 ->
  exists f w' H', balance_leaf_pooled w old pool cnt_old = Ok ((froots f, fdivs f), w') /\ holds w' H' /\ evolves 21 w w' /\
    rebalanced H H' u lo hi old pool f /\ frame H H' old.
Proof.
  intros Hh Eu Hone Hnd Hown H1o Hne Hok Hsort Hw Hold Hrun Hpc. destruct (holds_geom w H Hh) as (Hu & Hups & Hps & Hfull & _). rewrite Eu in *.
  unfold balance_leaf_pooled. rewrite Eu. destruct (pool_sizes u pool Hu Hok) as [Hs0 Hs1].
  destruct (Balance.distribute_spec (sizes pool) cnt_old true true u) as (cnt & Ed & Hpart & Hcount & _); [|done|done|by rewrite zlen_sizes|].
  { intros E. apply Hne. by apply fmap_nil_inv in E. }
  unfold sizes at 1 in Ed. rewrite Ed. bind_step. specialize (Hcount eq_refl). unfold Balance.usable_space in *. replace (u + 4 - 12) with (u - 8) in * by lia.
  assert ((length cnt <= 7)%nat) as Hc7.
  { assert (zlen cnt / 2 < 4) as Hq by nia. unfold zlen in Hq. assert (Z.of_nat (length cnt) < 8); [|lia]. Z.to_euclidean_division_equations. lia. }
  pose proof (partition_cuts _ _ _ Hpart) as Hcuts.
  destruct (alloc_pages_spec (length cnt - length old) w H Hh ltac:(lia)) as (fresh & w1 & H1 & -> & Hfl & Hfnd & Hfnone & Hh1 & Hev1 & Hfown & Hfr1). bind_step.
  assert (take (length cnt) old ++ drop (length cnt `min` length old) old = old) as Eold.
  { transitivity (take (length cnt `min` length old) old ++ drop (length cnt `min` length old) old); [|apply take_drop]. f_equal.
    destruct (Nat.min_spec (length cnt) (length old)) as [[? ->]|[? ->]]; [done|].
    by rewrite !take_ge by lia. }
  set (olds := take (length cnt) old) in *. set (surplus := drop (length cnt `min` length old) old) in *.
  rewrite <- Eold in Hnd, Hown, H1o. apply NoDup_app in Hnd as (Hnd1 & Hdis & Hnd2). apply Forall_app in Hown as [Hown1 Hown2].
  assert (forall p, p ∈ olds ++ surplus -> p ∉ fresh) as Hof.
  { intros p Hp Hpf. rewrite Forall_forall in Hfnone. specialize (Hfnone p Hpf). apply elem_of_app in Hp as [Hp|Hp].
    - rewrite Forall_forall in Hown1. destruct (Hown1 p Hp). congruence.
    - rewrite Forall_forall in Hown2. destruct (Hown2 p Hp). congruence. }
  destruct (free_pages_spec surplus w1 H1 Hh1 Hnd2) as (w2 & H2 & -> & Hh2 & Hev2 & Hgone & Hfr2).
  { rewrite Forall_forall in Hown2 |- *. intros p Hp. rewrite Hfr1 by (apply Hof, elem_of_app; by right). by apply Hown2. }
  bind_step. set (kept := merge_sort Z.le (olds ++ fresh)). assert (kept ≡ₚ olds ++ fresh) as Hperm by apply merge_sort_Permutation.
  pose proof (evolves_trans _ _ _ _ _ Hev1 Hev2) as Hev12. pose proof Hev12 as (Eu2 & Eps2 & _).
  assert (forall p, p ∈ kept -> p ∉ surplus) as Hks.
  { intros p Hp Hps'. rewrite Hperm in Hp. apply elem_of_app in Hp as [Hp|Hp]; [by apply (Hdis p)|].
    apply (Hof p); [apply elem_of_app; by right|done]. }
  destruct (write_slices_spec u pool hi Hu Hok cnt 0 kept w2 H2 lo) as (f & w3 & H3 & E3 & Hh3 & Hev3 & Er & Epg & Hfne & Hup & Hseg & Ecells & Hdiv & Hfr3);
    try done; [congruence| | | | |].
  { rewrite Hperm, length_app, Hfl. unfold olds. rewrite length_take. lia. }
  { rewrite Hperm. apply NoDup_app. split_and!; [done| |done]. intros p Hp. apply Hof, elem_of_app. by left. }
  { rewrite Forall_forall. intros p Hp. rewrite Hfr2 by (by apply Hks). rewrite Hperm in Hp. apply elem_of_app in Hp as [Hp|Hp].
    - rewrite Hfr1 by (apply Hof, elem_of_app; by left). rewrite Forall_forall in Hown1. by apply Hown1.
    - rewrite Forall_forall in Hfown. by apply Hfown. }
  { rewrite Hperm. intros [Hp|Hp]%elem_of_app; [apply H1o, elem_of_app; by left|].
    rewrite Forall_forall in Hfnone. destruct Hone as [d1 Hd1]. rewrite (Hfnone 1 Hp) in Hd1. done. }
  rewrite Hfull. rewrite <- Eps2, E3. bind_step. exists f, w3, H3. rewrite Er. split_and!; try done.
  - eapply evolves_mono; [by eapply evolves_trans|]. lia.
  - split_and!; try done; [split; rewrite Epg| |].
    + rewrite Hperm. apply NoDup_app. split_and!; [done| |done]. intros p Hp. apply Hof, elem_of_app. by left.
    + intros p Hp. rewrite Hperm in Hp. apply elem_of_app in Hp as [Hp|Hp]; [left; rewrite <- Eold; apply elem_of_app; by left|right].
      rewrite Forall_forall in Hfnone. by apply Hfnone.
    + congruence.
    + assert (length f = length kept) as -> by (rewrite <- Er; unfold froots; by rewrite length_fmap).
      rewrite Hperm, length_app, Hfl. unfold olds. rewrite length_take. lia.
  - intros p d Hp Hd. rewrite <- Eold in Hp. apply not_elem_of_app in Hp as [Hp1 Hp2].
    assert (p ∉ fresh) as Hpf. { intros Hpf. rewrite Forall_forall in Hfnone. rewrite (Hfnone p Hpf) in Hd. done. }
    rewrite Hfr3, Hfr2, Hfr1; try done. rewrite Hperm. by intros [?|?]%elem_of_app.
Qed.

End WriterBalance.
