(* ===== verification/WriterNode.v ===== *)
(** Interior pages of the table writer: child choice, splicing a forest into the
    children of a page, and writing the page back whole or split in two
    ([finish_interior], [pack_interior]). *)

From S2P Require Import Prelude Varint Header Balance Pager BtPage WritePager WritePagerProps Writer WriterPages WriterHeap WriterTree WriterBalance.
Import BtPage WritePager WritePagerProps Writer WriterPages WriterHeap WriterTree WriterBalance.
Local Open Scope Z_scope.

Module WriterNode.

(** ** Children and separators *)

Lemma length_removelast {A} (l : list A) : length (removelast l) = pred (length l).
Proof. induction l as [|x [|y l] IH]; [done..|]. cbn [removelast length] in *. by rewrite IH. Qed.

Lemma removelast_snoc {A} (l : list A) x : removelast (l ++ [x]) = l.
Proof. rewrite removelast_app by done. apply app_nil_r. Qed.

Lemma length_fdivs f : length (fdivs f) = pred (length f).
Proof. unfold fdivs. by rewrite length_removelast, length_fmap. Qed.

Lemma length_froots f : length (froots f) = length f.
Proof. unfold froots. by rewrite length_fmap. Qed.

Lemma zip_children {B} (a : list Z) (b : list B) : length a = S (length b) ->
  (zip a b).*1 ++ [default 0 (last a)] = a /\ (zip a b).*2 = b.
Proof.
  revert b. induction a as [|x a IH]; intros b Hl; [done|]. destruct b as [|y b].
  - destruct a; [done|]. simpl in Hl. lia.
  - destruct a as [|x' a]; [simpl in Hl; lia|]. destruct (IH b) as [H1 H2]; [simpl in *; lia|].
    change (zip (x :: x' :: a) (y :: b)) with ((x, y) :: zip (x' :: a) b). cbn [fmap list_fmap fst snd app].
    split; [|by f_equal]. f_equal. exact H1.
Qed.

Lemma forest_children f : f <> [] ->
  (zip (froots f) (fdivs f)).*1 ++ [default 0 (last (froots f))] = froots f /\ (zip (froots f) (fdivs f)).*2 = fdivs f.
Proof.
  intros Hf. apply zip_children. rewrite length_froots, length_fdivs. destruct f; [done|]. simpl. lia.
Qed.

(** The separators of a forest in three parts. *)
Lemma fdivs_split A B C : B <> [] ->
  fdivs (A ++ B ++ C) = A.*2 ++ fdivs B ++ (match C with [] => [] | _ => upper 0 B :: fdivs C end).
Proof.
  intros HB. unfold fdivs. rewrite !fmap_app. destruct B as [|b B _] using rev_ind; [done|]. clear HB.
  unfold upper. rewrite last_snoc. cbn [fmap option_fmap option_map default]. rewrite fmap_app. cbn [fmap list_fmap]. rewrite removelast_snoc.
  destruct C as [|c C]; cbn [fmap list_fmap].
  - rewrite !app_nil_r, app_assoc. by rewrite removelast_snoc.
  - rewrite <- !app_assoc, removelast_app by (by destruct (B.*2)). f_equal. rewrite removelast_app by done. f_equal.
Qed.

Lemma upper_irrel lo lo' f : f <> [] -> upper lo f = upper lo' f.
Proof. intros Hf. unfold upper. destruct (last f) eqn:E; [done|]. by apply last_None in E. Qed.

Lemma froots_app f g : froots (f ++ g) = froots f ++ froots g.
Proof. apply fmap_app. Qed.

Lemma fpages_app f g : fpages (f ++ g) = fpages f ++ fpages g.
Proof. apply flat_map_app. Qed.

Lemma fcells_app f g : fcells (f ++ g) = fcells f ++ fcells g.
Proof. apply flat_map_app. Qed.

Lemma zlen_froots f : zlen (froots f) = zlen f.
Proof. unfold zlen. by rewrite length_froots. Qed.

(** [Vec::splice] of a run in the middle. *)
Lemma splice_mid {A} (a b c x : list A) i j : i = zlen a -> j = zlen a + zlen b -> splice (a ++ b ++ c) i j x = Ok (a ++ x ++ c).
Proof.
  intros -> ->. unfold splice. pose proof (zlen_nonneg a). pose proof (zlen_nonneg b). pose proof (zlen_nonneg c). rewrite !zlen_app.
  destruct (Z.leb_spec 0 (zlen a)), (Z.leb_spec (zlen a) (zlen a + zlen b)), (Z.leb_spec (zlen a + zlen b) (zlen a + (zlen b + zlen c))); try lia.
  cbn [andb]. f_equal. rewrite take_app_length' by (unfold zlen; lia). do 2 f_equal.
  rewrite app_assoc. apply drop_app_length'. rewrite length_app. unfold zlen. lia.
Qed.

(** The child a rowid belongs to. *)
Lemma find_child_spec (P : Z -> Z -> btree -> Prop) rid kids : kids <> [] -> forall lo, seg P lo kids -> lo < rid <= upper lo kids ->
  exists A k b C, kids = A ++ (k, b) :: C /\ find_child (fdivs kids) rid = zlen A /\ upper lo A < rid <= b /\ P (upper lo A) b k.
Proof.
  induction kids as [|[k b] kids IH]; [done|]. intros _ lo. cbn [seg fst snd]. intros (Hle & Hk & Hs) Hr. rewrite upper_cons in Hr.
  destruct kids as [|k' kids'].
  - exists [], k, b, []. split_and!; try done; unfold upper in *; simpl in *; lia.
  - rewrite fdivs_cons by done. cbn [find_child snd]. destruct (Z.leb_spec rid b).
    + exists [], k, b, (k' :: kids'). split_and!; try done; unfold upper in *; simpl in *; lia.
    + destruct (IH ltac:(done) b Hs ltac:(simpl in *; lia)) as (A & t & b' & C & -> & Hf & Hr' & HP).
      exists ((k, b) :: A), t, b', C. rewrite upper_cons, zlen_cons. split_and!; try done; [rewrite Hf; lia|simpl; lia|simpl; lia].
Qed.

(** ** Sizes *)

Definition need (ds : list Z) : Z := sum ((fun k => interior_cell_len k + 2) <$> ds).

Lemma need_app a b : need (a ++ b) = need a + need b.
Proof. unfold need. rewrite fmap_app. induction (_ <$> a) as [|x l IH]; [done|]. cbn [app sum foldr] in *. unfold sum in *. lia. Qed.

Lemma need_cell k : 7 <= interior_cell_len k + 2 <= 15.
Proof. unfold interior_cell_len. pose proof (Varint.len_range (to_unsigned 64 k)). lia. Qed.

Lemma need_bounds ds : 7 * zlen ds <= need ds <= 15 * zlen ds.
Proof.
  induction ds as [|d ds IH]; [done|]. change (need (d :: ds)) with (interior_cell_len d + 2 + need ds). rewrite zlen_cons.
  pose proof (need_cell d). lia.
Qed.

Lemma interior_fits_need cells body u : interior_fits cells body u = true <-> need (cells.*2) <= u - body - 12.
Proof. unfold interior_fits, need. rewrite Z.leb_le, <- list_fmap_compose. done. Qed.

(** ** Splitting an interior page *)

(** The group takes cells while they fit. *)
Lemma group_end_spec cap : forall cells used b, exists j : nat, group_end cells false used cap b = b + Z.of_nat j /\ (j <= length cells)%nat /\
  (used <= cap -> used + need (take j (cells.*2)) <= cap) /\
  (j = length cells \/ cap < used + need (take (S j) (cells.*2))).
Proof.
  induction cells as [|c cells IH]; intros used b; cbn [group_end].
  { exists 0%nat. split_and!; [lia|done|change (need (take 0 _)) with 0; lia|by left]. }
  cbn [orb]. destruct (Z.leb_spec (used + (interior_cell_len c.2 + 2)) cap) as [Hle|Hgt].
  - destruct (IH (used + (interior_cell_len c.2 + 2)) (b + 1)) as (j & -> & Hj & Hfit & Hmax). exists (S j).
    assert (forall k, need (take (S k) ((c :: cells).*2)) = interior_cell_len c.2 + 2 + need (take k (cells.*2))) as E by done.
    split_and!; [lia|simpl; lia| |].
    + intros _. rewrite E. specialize (Hfit Hle). lia.
    + destruct Hmax as [->|Hmax]; [by left|right]. rewrite E. lia.
  - exists 0%nat. split_and!; [lia|simpl; lia|change (need (take 0 _)) with 0; lia|]. right.
    change (need (take 1 ((c :: cells).*2))) with (interior_cell_len c.2 + 2 + 0). lia.
Qed.

(** The first cell of a group always fits a page. *)
Lemma group_end_first cap cells b : 15 <= cap -> group_end cells true 0 cap b = group_end cells false 0 cap b.
Proof.
  intros Hc. destruct cells as [|c cells]; [done|]. cbn [group_end orb]. pose proof (need_cell c.2).
  destruct (Z.leb_spec (0 + (interior_cell_len c.2 + 2)) cap); [done|lia].
Qed.

Lemma need_take_le ds j k : (j <= k)%nat -> need (take j ds) <= need (take k ds).
Proof.
  intros Hj. replace k with (j + (k - j))%nat by lia. rewrite <- take_take_drop, need_app.
  pose proof (need_bounds (take (k - j) (drop j ds))). pose proof (zlen_nonneg (take (k - j) (drop j ds))). lia.
Qed.

(** The last group: everything that is left fits. *)
Lemma pack_groups_last fuel cells r body u i : 15 <= u - body - 12 -> 0 <= i <= zlen cells ->
  need (drop (Z.to_nat i) (cells.*2)) <= u - body - 12 ->
  pack_groups (S fuel) cells r body u i = Ok ([(drop (Z.to_nat i) cells, r)], []).
Proof.
  intros Hc Hi Hn. cbn [pack_groups]. assert (sat_sub u (body + 12) = u - body - 12) as -> by (unfold sat_sub; lia).
  rewrite group_end_first by lia. destruct (group_end_spec (u - body - 12) (drop (Z.to_nat i) cells) 0 i) as (j & -> & Hj & _ & Hmax).
  assert (j = length (drop (Z.to_nat i) cells)) as ->.
  { destruct Hmax as [|Hmax]; [done|]. exfalso. rewrite fmap_drop in Hmax.
    pose proof (need_take_le (drop (Z.to_nat i) (cells.*2)) (S j) (S j + length cells)%nat ltac:(lia)) as Hle.
    rewrite (take_ge _ (S j + length cells)) in Hle by (rewrite length_drop, length_fmap; lia). lia. }
  rewrite length_drop. unfold zlen in *. destruct (Z.leb_spec (Z.of_nat (length cells)) (i + Z.of_nat (length cells - Z.to_nat i))); [|lia].
  rewrite slice_Ok by (unfold zlen; lia). bind_step. change (Z.of_nat (length cells)) with (zlen cells). by rewrite sub_full.
Qed.

(** An interior page that overflows by at most fifteen cells splits in two
    parts that fit, with one separator promoted. *)
Lemma pack_interior_two cells r body u : 0 <= body <= 100 -> 257 <= u ->
  u - body - 12 < need (cells.*2) -> need (cells.*2) <= u - body - 12 + 225 ->
  exists b c, cells !! b = Some c /\ pack_interior cells r body u = Ok ([(take b cells, c.1); (drop (S b) cells, r)], [c.2]) /\
    need (take b (cells.*2)) <= u - body - 12 /\ need (drop (S b) (cells.*2)) <= u - 12.
Proof.
  intros Hbody Hu Hover Hmax. unfold pack_interior. cbn [pack_groups].
  assert (sat_sub u (body + 12) = u - body - 12) as -> by (unfold sat_sub; lia). change (Z.to_nat 0) with 0%nat. rewrite drop_0.
  rewrite group_end_first by lia. destruct (group_end_spec (u - body - 12) cells 0 0) as (j & -> & Hj & Hfit & Hj').
  specialize (Hfit ltac:(lia)). rewrite !Z.add_0_l in *.
  destruct Hj' as [->|Hgt]; [rewrite take_ge in Hfit by (rewrite length_fmap; lia); lia|].
  assert (zlen (cells.*2) = zlen cells) as Ez by (unfold zlen; by rewrite length_fmap).
  assert ((j < length cells)%nat) as Hjl.
  { destruct (decide (j = length cells)) as [->|]; [|lia]. rewrite take_ge in Hfit by (rewrite length_fmap; lia). lia. }
  pose proof (need_bounds (take j (cells.*2))) as Hb1. pose proof (need_bounds (take (S j) (cells.*2))) as Hb2.
  assert (zlen (take (S j) (cells.*2)) = Z.of_nat j + 1) as Hz2 by (unfold zlen in *; rewrite length_take; lia).
  assert (3 <= Z.of_nat j) as Hj3 by lia.
  destruct (Z.leb_spec (zlen cells) (Z.of_nat j)) as [|Hlt]; [unfold zlen in *; lia|].
  set (bb := if (Z.of_nat j =? zlen cells - 1) && (1 <? Z.of_nat j) then Z.of_nat j - 1 else Z.of_nat j).
  assert (0 <= bb <= Z.of_nat j /\ bb < zlen cells) as Hbb by (unfold bb; destruct (_ && _); lia).
  assert (need (drop (S (Z.to_nat bb)) (cells.*2)) <= u - 12) as Hrest.
  { pose proof (need_app (take (S (Z.to_nat bb)) (cells.*2)) (drop (S (Z.to_nat bb)) (cells.*2))) as Ea. rewrite take_drop in Ea.
    unfold bb in *. destruct (Z.eqb_spec (Z.of_nat j) (zlen cells - 1)) as [E|E]; cbn [andb] in *.
    - destruct (Z.ltb_spec 1 (Z.of_nat j)); [|lia]. pose proof (need_bounds (drop (S (Z.to_nat (Z.of_nat j - 1))) (cells.*2))) as [_ Hd].
      assert (zlen (drop (S (Z.to_nat (Z.of_nat j - 1))) (cells.*2)) = 1) as Hd1 by (unfold zlen in *; rewrite length_drop; lia). lia.
    - rewrite Nat2Z.id in *. lia. }
  destruct (lookup_lt_is_Some_2 cells (Z.to_nat bb)) as [c Ec]; [unfold zlen in *; lia|].
  exists (Z.to_nat bb), c. split_and!; [done| |pose proof (need_take_le (cells.*2) (Z.to_nat bb) j ltac:(lia)); lia|done].
  fold bb. rewrite slice_Ok by lia. bind_step.
  assert (idx cells bb = Ok c) as -> by (apply idx_Ok; split; [lia|done]). bind_step.
  destruct (length cells) as [|m] eqn:El; [lia|]. rewrite pack_groups_last; [|lia|lia|].
  - bind_step. unfold sub. rewrite Z.sub_0_r, drop_0. by replace (Z.to_nat (bb + 1)) with (S (Z.to_nat bb)) by lia.
  - replace (Z.to_nat (bb + 1)) with (S (Z.to_nat bb)) by lia. lia.
Qed.

(** ** Writing an interior page *)

Lemma troot_page t : troot t ∈ pages t.
Proof. destruct t; by left. Qed.

Lemma froots_pages f r : r ∈ froots f -> r ∈ fpages f.
Proof.
  unfold froots. intros (k & -> & Hk)%list_elem_of_fmap. apply (flat_map_sub (fun k => pages k.1) f k Hk). apply troot_page.
Qed.

Lemma froots_u32 w H u h lo f : holds w H -> seg (tree_ok H u h) lo f -> Forall is_u32 (froots f).
Proof.
  intros Hh Hs%seg_owned. rewrite Forall_forall in *. intros r Hr%froots_pages. destruct (Hs r Hr) as [d Hd].
  destruct (holds_page w H r d Hh Hd) as (? & _). unfold is_uint. lia.
Qed.

Lemma node_cells_ok a b : Forall is_u32 a -> Forall is_i64 b -> Forall node_cell_ok (zip a b).
Proof.
  intros Ha. revert b. induction Ha as [|x a Hx _ IH]; intros [|y b] Hb; try constructor; apply Forall_cons in Hb as [Hy Hb]; [done|by apply IH].
Qed.

Lemma last_u32 l : Forall is_u32 l -> is_u32 (default 0 (last l)).
Proof. intros Hl. destruct (last l) as [x|] eqn:E; [|by unfold is_uint]. apply last_In in E as (l' & ->). by apply Forall_app in Hl as [_ [??]%Forall_cons]. Qed.

Lemma write_node w H u h n prefix f lo hi : holds w H -> usable_size w = u -> is_Some (H !! n) -> prefix_ok n prefix ->
  f <> [] -> seg (tree_ok H u h) lo f -> upper lo f = hi -> Forall is_i64 (fdivs f) -> n ∉ fpages f ->
  need (fdivs f) <= u - body_of n - 12 ->
  exists buf w', serialize_interior (wp_page_size w) u (body_of n) (zip (froots f) (fdivs f)) (default 0 (last (froots f))) prefix = Ok buf /\
    write_page w n buf = Ok w' /\ evolves 0 w w' /\ holds w' (<[n := buf]> H) /\
    tree_ok (<[n := buf]> H) u (S h) lo hi (BNode n f).
Proof.
  intros Hh Eu Hs Hp Hf Hseg Hup Hdiv Hn Hneed. destruct (holds_geom w H Hh) as (Hu & Hups & Hps & _). rewrite Eu in *.
  destruct (forest_children f Hf) as [_ E2]. pose proof (froots_u32 w H u h lo f Hh Hseg) as Hr.
  assert (interior_fits (zip (froots f) (fdivs f)) (body_of n) u = true) as Hfit by (apply interior_fits_need; by rewrite E2).
  destruct (serialize_interior_image u (wp_page_size w) n prefix (zip (froots f) (fdivs f)) (default 0 (last (froots f)))) as (d & Es & Hz & Hb & Him & _);
    try done; [by apply node_cells_ok|by apply last_u32|].
  destruct (heap_write w H n d Hh Hs Hz Hb) as (w' & Ew & Hh' & Hev). exists d, w'. split_and!; try done.
  cbn [tree_ok]. split_and!; try done.
  - exists d. by rewrite lookup_insert_eq.
  - apply (seg_frame H); [done|]. intros p e Hpf Hpe. rewrite lookup_insert_ne; [done|]. by intros ->.
Qed.

Lemma fdivs_singleton k : fdivs [k] = [].
Proof. done. Qed.

(** Cutting a forest after its [b]-th tree. *)
Lemma forest_cut f b c : zip (froots f) (fdivs f) !! b = Some c ->
  exists f1 t f2, f = f1 ++ (t, c.2) :: f2 /\ f2 <> [] /\ troot t = c.1 /\ length f1 = b /\
    zip (froots (f1 ++ [(t, c.2)])) (fdivs (f1 ++ [(t, c.2)])) = take b (zip (froots f) (fdivs f)) /\
    zip (froots f2) (fdivs f2) = drop (S b) (zip (froots f) (fdivs f)) /\ fdivs f = fdivs (f1 ++ [(t, c.2)]) ++ c.2 :: fdivs f2.
Proof.
  destruct c as [r k]. intros (Hr & Hk)%lookup_zip_Some. cbn [fst snd].
  assert (b < pred (length f))%nat as Hb by (apply lookup_lt_Some in Hk; by rewrite length_fdivs in Hk).
  unfold froots in Hr. rewrite list_lookup_fmap in Hr. destruct (f !! b) as [[t k']|] eqn:Ef; [|done]. injection Hr as <-.
  pose proof (take_drop_middle f b (t, k') Ef) as Esplit. set (f1 := take b f) in *. set (f2 := drop (S b) f) in *.
  assert (length f1 = b) as Hl1 by (unfold f1; rewrite length_take; lia).
  assert (f2 <> []) as Hf2 by (intros E; apply (f_equal length) in E; unfold f2 in E; rewrite length_drop in E; simpl in E; lia).
  assert (fdivs f = f1.*2 ++ k' :: fdivs f2) as Ed.
  { rewrite <- Esplit. change ((t, k') :: f2) with ([(t, k')] ++ f2). rewrite fdivs_split by done. rewrite fdivs_singleton. by destruct f2. }
  assert (k' = k) as ->.
  { rewrite Ed, lookup_app_r in Hk by (rewrite length_fmap; lia). rewrite length_fmap, Hl1, Nat.sub_diag in Hk. by injection Hk. }
  assert (fdivs (f1 ++ [(t, k)]) = f1.*2) as Ed1.
  { pose proof (fdivs_split f1 [(t, k)] [] ltac:(done)) as E. rewrite app_nil_r in E. by rewrite E, fdivs_singleton, !app_nil_r. }
  assert (froots f = froots f1 ++ troot t :: froots f2) as Er by (rewrite <- Esplit; by rewrite froots_app).
  assert (length (froots f1) = length (f1.*2)) as Hlen by (by rewrite length_froots, length_fmap).
  exists f1, t, f2. rewrite Ed1, Ed, Er, froots_app. split_and!; try done.
  - rewrite (zip_with_app pair _ _ (f1.*2) (k :: fdivs f2)) by done. rewrite take_app_length' by (rewrite length_zip_with, length_froots, length_fmap; lia).
    rewrite <- (app_nil_r (f1.*2)) at 1. rewrite (zip_with_app pair) by done. cbn. apply app_nil_r.
  - rewrite (zip_with_app pair _ _ (f1.*2) (k :: fdivs f2)) by done. cbn [zip_with].
    change (drop (S b) (zip_with pair (froots f1) f1.*2 ++ (troot t, k) :: zip_with pair (froots f2) (fdivs f2))) with
      (drop (S b) (zip_with pair (froots f1) f1.*2 ++ [(troot t, k)] ++ zip_with pair (froots f2) (fdivs f2))).
    rewrite app_assoc, drop_app_length'; [done|]. rewrite length_app, length_zip_with, length_froots, length_fmap. simpl. lia.
Qed.

Lemma fpages_NoDup_app f g : NoDup (fpages (f ++ g)) -> forall p, p ∈ fpages f -> p ∉ fpages g.
Proof. rewrite fpages_app. intros (_ & H & _)%NoDup_app. exact H. Qed.

(** Writing back an interior page whose children have changed: it is written
    whole when it fits, and otherwise split with one new sibling. *)
Lemma finish_interior_spec w H u h n prefix f lo hi : holds w H -> usable_size w = u -> is_Some (H !! 1) -> is_Some (H !! n) -> prefix_ok n prefix ->
  f <> [] -> seg (tree_ok H u h) lo f -> upper lo f = hi -> Forall is_i64 (fdivs f) -> n ∉ fpages f ->
  need (fdivs f) <= u - body_of n - 12 + 225 -> wp_page_count w + 3 < 2 ^ 32 ->
  exists up w' H', finish_interior w n (body_of n) (wp_page_size w) u (froots f) (fdivs f) prefix = Ok (up, w') /\ holds w' H' /\ evolves 3 w w' /\
    (up = Fit /\ frame H H' [n] /\ tree_ok H' u (S h) lo hi (BNode n f) \/
     exists k key q f1 f2, up = UpSplit (mkSplit k [(key, q)]) /\ f = f1 ++ f2 /\ H !! q = None /\ frame H H' [n] /\ is_i64 k /\
       lo <= k <= hi /\ tree_ok H' u (S h) lo k (BNode n f1) /\ tree_ok H' u (S h) k hi (BNode q f2)).
Proof.
  intros Hh Eu H1 Hn Hp Hf Hseg Hup Hdiv Hnf Hneed Hpc. destruct (holds_geom w H Hh) as (Hu & _). rewrite Eu in Hu. unfold finish_interior.
  pose proof (body_of_range n) as Hbody. destruct (forest_children f Hf) as [_ E2].
  assert (zlen (fdivs f) <= zlen (froots f)) as Hzl by (unfold zlen; rewrite length_fdivs, length_froots; lia).
  destruct (Z.ltb_spec (zlen (froots f)) (zlen (fdivs f))); [lia|].
  destruct (last (froots f)) as [rgt|] eqn:El.
  2:{ apply last_None in El. destruct f; [done|]. by apply fmap_nil_inv in El. }
  destruct (interior_fits (zip (froots f) (fdivs f)) (body_of n) u) eqn:Efit.
  - apply interior_fits_need in Efit. rewrite E2 in Efit.
    destruct (write_node w H u h n prefix f lo hi) as (buf & w' & Es & Ew & Hev & Hh' & Ht); try done. rewrite El in Es. change (default 0 (Some rgt)) with rgt in Es.
    rewrite Es. bind_step. rewrite Ew. bind_step. exists Fit, w', (<[n := buf]> H). split_and!; try done; [by apply (evolves_mono 0); [|lia]|].
    left. split_and!; try done. intros p d Hpn%not_elem_of_cons Hd. by rewrite lookup_insert_ne by naive_solver.
  - assert (u - body_of n - 12 < need (fdivs f)) as Hover.
    { destruct (Z.ltb_spec (u - body_of n - 12) (need (fdivs f))); [done|]. rewrite <- not_true_iff_false in Efit.
      exfalso. apply Efit, interior_fits_need. rewrite E2. lia. }
    rewrite <- E2 in Hover, Hneed. destruct (pack_interior_two _ rgt (body_of n) u Hbody Hu Hover Hneed) as (b & c & Ec & Epk & Hn1 & Hn2).
    rewrite Epk. bind_step. destruct (forest_cut f b c Ec) as (f1 & t & f2 & Ef & Hf2 & Etr & Hlb & Ez1 & Ez2 & Ed).
    set (g1 := f1 ++ [(t, c.2)]) in *. assert (f = g1 ++ f2) as Ef' by (rewrite Ef; unfold g1; by rewrite <- app_assoc).
    rewrite Ef' in Hseg. pose proof Hseg as Hseg0. apply seg_app in Hseg as [Hseg1 Hseg2].
    assert (upper lo g1 = c.2) as Eup by (unfold g1; by rewrite upper_app). rewrite Eup in Hseg2.
    assert (g1 <> []) as Hg1 by (unfold g1; by destruct f1). rewrite Ed in Hdiv. apply Forall_app in Hdiv as [Hdiv1 [Hk Hdiv2]%Forall_cons].
    rewrite Ef', fpages_app in Hnf. apply not_elem_of_app in Hnf as [Hnf1 Hnf2].
    assert (need (fdivs g1) = need (take b ((zip (froots f) (fdivs f)).*2))) as En1.
    { rewrite <- fmap_take, <- Ez1. by rewrite (proj2 (forest_children g1 Hg1)). }
    assert (need (fdivs f2) = need (drop (S b) ((zip (froots f) (fdivs f)).*2))) as En2.
    { rewrite <- fmap_drop, <- Ez2. by rewrite (proj2 (forest_children f2 Hf2)). }
    assert (last (froots g1) = Some c.1) as El1 by (unfold g1; rewrite froots_app; cbn; rewrite last_snoc; by rewrite Etr).
    assert (last (froots f2) = Some rgt) as El2.
    { rewrite Ef', froots_app, last_app in El. destruct (last (froots f2)) eqn:E; [done|]. apply last_None, fmap_nil_inv in E. done. }
    destruct (write_node w H u h n prefix g1 lo c.2) as (buf & w1 & Es & Ew & Hev & Hh1 & Ht1); try done; [lia|].
    rewrite El1 in Es. change (default 0 (Some c.1)) with c.1 in Es. rewrite <- Ez1, Es. bind_step. rewrite Ew. bind_step. pose proof Hev as (Eu1 & Eps1 & Hc1).
    destruct (heap_alloc w1 _ Hh1 ltac:(lia)) as (q & w2 & z & Ea & Hq & Hh2 & Hev2 & _). cbn [write_parts]. rewrite Ea. bind_step.
    pose proof Hev2 as (Eu2 & Eps2 & _). apply lookup_insert_None in Hq as [Hq Hqn].
    assert (q <> 1) as Hq1 by (intros ->; rewrite Hq in H1; by destruct H1).
    assert (seg (tree_ok (<[q := z]> (<[n := buf]> H)) u h) c.2 f2) as Hseg2'.
    { apply (seg_frame H); [done|]. intros p d Hpf Hd. rewrite !lookup_insert_ne; [done|by intros ->|]. intros ->. congruence. }
    assert (q ∉ fpages f2) as Hqf.
    { intros Hqf. apply seg_owned in Hseg2. rewrite Forall_forall in Hseg2. destruct (Hseg2 q Hqf). congruence. }
    destruct (write_node w2 _ u h q None f2 c.2 hi Hh2) as (buf2 & w3 & Es2 & Ew2 & Hev3 & Hh3 & Ht2); try done; [congruence|by rewrite lookup_insert_eq| | |].
    { rewrite <- Hup, Ef'. rewrite upper_app. by rewrite Eup. }
    { rewrite (body_not_1 q Hq1). lia. }
    rewrite El2, (body_not_1 q Hq1) in Es2. change (default 0 (Some rgt)) with rgt in Es2. rewrite Eps2, Eps1 in Es2. rewrite <- Ez2, Es2. bind_step. rewrite Ew2. bind_step.
    cbn [tail]. bind_step. eexists _, w3, _. split_and!; [done|done|eapply evolves_mono; [by eapply evolves_trans; [eapply evolves_trans|]|lia]|].
    right. eexists c.2, _, q, g1, f2. split_and!; try done.
    + intros p d Hpn%not_elem_of_cons Hd. rewrite !lookup_insert_ne; [done|naive_solver| |]; intros ->; congruence.
    + apply seg_upper in Hseg1. by rewrite Eup in Hseg1.
    + apply seg_upper in Hseg0. apply seg_upper in Hseg2. rewrite <- Hup, Ef', upper_app, Eup. done.
    + apply (tree_ok_frame (<[n := buf]> H)); [done|]. intros p d Hpp Hd.
      assert (p <> q) as Hpq by (intros ->; rewrite lookup_insert_ne in Hd by done; congruence).
      by rewrite (lookup_insert_ne _ q), (lookup_insert_ne _ q) by done.
Qed.

End WriterNode.
