(* ===== verification/WriterInsert.v ===== *)
(** Correctness of table insertion: [insert_rec] on a represented tree reports a
    tree, a run of over-full leaf cells, or two trees, which hold the old cells
    with the new one in its place. *)

From S2P Require Import Prelude Varint Header Balance Pager BtPage WritePager WritePagerProps Writer WriterPages WriterHeap WriterTree WriterBalance WriterNode.
Import BtPage WritePager WritePagerProps Writer WriterPages WriterHeap WriterTree WriterBalance WriterNode.
Local Open Scope Z_scope.

Module WriterInsert.

(** What a level of the recursion reports about the tree [t]. *)
Definition ins_result (H H' : gmap Z bytes) (u : Z) (h : nat) (lo hi : Z) (t : btree) (c : LeafCell) (up : Up) : Prop :=
  match up with
  | Fit => exists t', tree_ok H' u h lo hi t' /\ troot t' = troot t /\ fresh_pages H (pages t) (pages t') /\ tcells t' = ins c (tcells t)
  | LeafOverfull cs => h = 0%nat /\ H' = H /\ cs = ins c (tcells t)
  | UpSplit s => exists k key t0 t1, s = mkSplit k [(key, troot t1)] /\ troot t0 = troot t /\ is_i64 k /\
      seg (tree_ok H' u h) lo [(t0, k); (t1, hi)] /\ fresh_pages H (pages t) (fpages [(t0, k); (t1, hi)]) /\
      fcells [(t0, k); (t1, hi)] = ins c (tcells t)
  end.

Lemma frame_mono H H' ps qs : frame H H' ps -> ps ⊆ qs -> frame H H' qs.
Proof. intros Hf Hs p d Hp. apply Hf. intros Hq. by apply Hp, Hs. Qed.

Lemma frame_trans H1 H2 H3 ps : frame H1 H2 ps -> frame H2 H3 ps -> frame H1 H3 ps.
Proof. intros Hf Hg p d Hp Hd. apply Hg; [done|]. by apply Hf. Qed.

(** Replacing the middle of a forest by one on old and fresh pages. *)
Lemma splice_forest H H1 u h n A B B' C lo : seg (tree_ok H u h) lo (A ++ B ++ C) -> is_Some (H !! n) -> NoDup (n :: fpages (A ++ B ++ C)) ->
  seg (tree_ok H1 u h) (upper lo A) B' -> upper (upper lo A) B' = upper (upper lo A) B ->
  fresh_pages H (fpages B) (fpages B') -> frame H H1 (fpages B) ->
  seg (tree_ok H1 u h) lo (A ++ B' ++ C) /\ upper lo (A ++ B' ++ C) = upper lo (A ++ B ++ C) /\
  NoDup (n :: fpages (A ++ B' ++ C)) /\ is_Some (H1 !! n) /\
  (forall p, p ∈ fpages (A ++ B' ++ C) -> p ∈ fpages (A ++ B ++ C) \/ H !! p = None).
Proof.
  intros Hseg Hn Hnd Hseg' Hup [Hnd' Hfresh] Hfr. pose proof (seg_owned _ _ _ _ _ Hseg) as Hown. rewrite !fpages_app in *.
  apply seg_app in Hseg as [HA Hseg]. apply seg_app in Hseg as [HB HC].
  apply NoDup_cons in Hnd as [Hnn Hnd]. apply NoDup_app in Hnd as (HndA & HdA & Hnd). apply NoDup_app in Hnd as (HndB & HdB & HndC).
  rewrite Forall_forall in Hown.
  assert (forall p, p ∈ fpages B' -> p ∈ fpages B \/ p ∉ n :: fpages A ++ fpages B ++ fpages C) as Hnew.
  { intros p Hp. destruct (Hfresh p Hp) as [|Hnone]; [by left|right]. intros [->|Hin]%elem_of_cons.
    - rewrite Hnone in Hn. by destruct Hn.
    - destruct (Hown p Hin). congruence. }
  split_and!.
  - apply seg_app. split; [|apply seg_app; split; [done|]].
    + apply (seg_frame H); [done|]. intros p d Hp Hd. apply Hfr; [|done]. intros Hb. apply (HdA p Hp), elem_of_app. by left.
    + rewrite Hup. apply (seg_frame H); [done|]. intros p d Hp Hd. apply Hfr; [|done]. intros Hb. by apply (HdB p Hb).
  - rewrite !upper_app. by rewrite Hup.
  - apply NoDup_cons. split.
    { intros [Hp|[Hp|Hp]%elem_of_app]%elem_of_app; [set_solver| |set_solver]. destruct (Hnew n Hp); set_solver. }
    apply NoDup_app. split_and!; [done| |apply NoDup_app; split_and!; [done| |done]].
    + intros p Hp [Hq|Hq]%elem_of_app; [|set_solver]. destruct (Hnew p Hq); set_solver.
    + intros p Hp Hq. destruct (Hnew p Hp); set_solver.
  - destruct Hn as [d Hd]. exists d. apply Hfr; [set_solver|done].
  - intros p [Hp|[Hp|Hp]%elem_of_app]%elem_of_app; [set_solver| |set_solver]. destruct (Hfresh p Hp); [left; set_solver|by right].
Qed.

(** The page above a changed run of children is written back. *)
Lemma finish_spliced w H H1 u h n A B B' C lo hi prefix c : holds w H1 -> usable_size w = u -> is_Some (H !! 1) ->
  1 ∉ fpages (A ++ B ++ C) -> tree_ok H u (S h) lo hi (BNode n (A ++ B ++ C)) -> NoDup (n :: fpages (A ++ B ++ C)) -> B <> [] -> B' <> [] ->
  seg (tree_ok H1 u h) (upper lo A) B' -> upper (upper lo A) B' = upper (upper lo A) B ->
  fresh_pages H (fpages B) (fpages B') -> frame H H1 (fpages B) ->
  Forall is_i64 (fdivs (A ++ B ++ C)) -> Forall is_i64 (fdivs B') -> prefix_ok n prefix ->
  need (fdivs B') <= 225 -> fcells B' = ins c (fcells B) -> below c.1 (fcells A) -> above c.1 (fcells C) ->
  wp_page_count w + 3 < 2 ^ 32 ->
  exists up w' H', finish_interior w n (body_of n) (wp_page_size w) u (froots (A ++ B' ++ C)) (fdivs (A ++ B' ++ C)) prefix = Ok (up, w') /\
    holds w' H' /\ evolves 3 w w' /\ frame H H' (n :: fpages (A ++ B ++ C)) /\
    ins_result H H' u (S h) lo hi (BNode n (A ++ B ++ C)) c up.
Proof.
  intros Hh Eu H1s Hn1 Ht Hnd HB HB' Hseg' Hup' Hfresh Hfr Hi64 Hi64' Hpre Hneed Hcells Hbelow Habove Hpc.
  destruct Ht as ((d & Hd & Him) & Hfit & _ & Hup & Hseg). apply interior_fits_need in Hfit.
  rewrite (proj2 (forest_children (A ++ B ++ C) ltac:(destruct A, B; done))) in Hfit.
  destruct (splice_forest H H1 u h n A B B' C lo Hseg (ex_intro _ d Hd) Hnd Hseg' Hup' Hfresh Hfr) as (Hseg1 & Hup1 & Hnd1 & Hn & Hnew).
  assert (need (fdivs (A ++ B' ++ C)) <= need (fdivs (A ++ B ++ C)) + need (fdivs B')) as Hsize.
  { rewrite !fdivs_split by done. rewrite !need_app. pose proof (need_bounds (fdivs B)). pose proof (zlen_nonneg (fdivs B)).
    rewrite (upper_irrel 0 (upper lo A) B), (upper_irrel 0 (upper lo A) B') by done. rewrite Hup'. lia. }
  assert (Forall is_i64 (fdivs (A ++ B' ++ C))) as Hi.
  { rewrite fdivs_split in Hi64 |- * by done. apply Forall_app in Hi64 as [Ha Hi64]. apply Forall_app in Hi64 as [_ Hc].
    apply Forall_app_2; [done|]. apply Forall_app_2; [done|].
    rewrite (upper_irrel 0 (upper lo A) B) in Hc by done. rewrite (upper_irrel 0 (upper lo A) B') by done. by rewrite Hup'. }
  assert (is_Some (H1 !! 1)) as H11.
  { destruct H1s as [d1 Hd1]. exists d1. apply Hfr; [|done]. rewrite !fpages_app in Hn1. set_solver. }
  assert (n ∉ fpages (A ++ B' ++ C)) as Hnf by (by apply NoDup_cons in Hnd1 as [? _]).
  destruct (finish_interior_spec w H1 u h n prefix (A ++ B' ++ C) lo hi Hh Eu H11 Hn Hpre) as (up & w' & H' & E & Hh' & Hev & Hcase); try done;
    [destruct A, B'; done|congruence|lia|].
  assert (fcells (A ++ B' ++ C) = ins c (tcells (BNode n (A ++ B ++ C)))) as Ecells.
  { change (tcells (BNode n (A ++ B ++ C))) with (fcells (A ++ B ++ C)). rewrite !fcells_app, Hcells.
    rewrite ins_below by done. by rewrite ins_above. }
  exists up, w', H'. split_and!; try done.
  - apply (frame_trans H H1 H'); [apply (frame_mono _ _ (fpages B)); [done|]; rewrite !fpages_app; set_solver|].
    apply (frame_mono _ _ [n]); [destruct Hcase as [(_ & Hf & _)|(k & key & q & f1 & f2 & _ & _ & _ & Hf & _)]; exact Hf|set_solver].
  - destruct Hcase as [(-> & _ & Ht)|(k & key & q & f1 & f2 & -> & Ef & Hq & _ & Hk & Hlk & Ht1 & Ht2)]; cbn [ins_result].
    + exists (BNode n (A ++ B' ++ C)). split_and!; try done. split; [done|]. cbn [pages]. fold (fpages (A ++ B' ++ C)) (fpages (A ++ B ++ C)).
      intros p [->|Hp]%elem_of_cons; [left; by left|]. destruct (Hnew p Hp); [left; by right|by right].
    + exists k, key, (BNode n f1), (BNode q f2). split_and!; try done.
      * cbn [seg fst snd]. split_and!; done || lia.
      * pose proof (seg_owned _ _ _ _ _ Hseg1) as Hown. rewrite Forall_forall in Hown.
        assert (q ∉ n :: fpages (A ++ B' ++ C)) as Hqn.
        { intros [->|Hin]%elem_of_cons; [rewrite Hq in Hn; by destruct Hn|]. destruct (Hown q Hin). congruence. }
        rewrite Ef, fpages_app in Hnd1, Hqn, Hnew. cbn [fpages flat_map fst pages]. fold (fpages f1) (fpages f2). rewrite app_nil_r.
        split.
        -- cbn [app]. apply NoDup_cons in Hnd1 as [Hnn Hnd1]. apply NoDup_app in Hnd1 as (HN1 & HN2 & HN3).
           apply NoDup_cons. split; [set_solver|]. apply NoDup_app. split_and!; [done|set_solver|]. apply NoDup_cons. split; [set_solver|done].
        -- intros p Hp. cbn [app] in Hp. apply elem_of_cons in Hp as [->|[Hp|[->|Hp]%elem_of_cons]%elem_of_app]; [left; by left| | |].
           ++ destruct (Hnew p) as [?|?]; [apply elem_of_app; by left|left; by right|by right].
           ++ destruct (decide (q ∈ pages (BNode n (A ++ B ++ C)))) as [|Hno]; [by left|right]. apply eq_None_not_Some. intros [e He].
              enough (H1 !! q = Some e) by congruence. apply Hfr; [|done]. intros Hb. apply Hno. cbn [pages]. right.
              fold (fpages (A ++ B ++ C)). rewrite !fpages_app. set_solver.
           ++ destruct (Hnew p) as [?|?]; [apply elem_of_app; by right|left; by right|by right].
      * rewrite <- Ecells, Ef, fcells_app. cbn [fcells flat_map fst tcells]. by rewrite app_nil_r.
Qed.

(** ** The window of an over-full leaf *)

(** A forest of leaves: one page each, and what each page holds. *)
Lemma leaf_forest H u lo f : seg (tree_ok H u 0) lo f -> 1 ∉ fpages f ->
  fpages f = froots f /\ Balance.run_size (sizes (fcells f)) <= zlen f * (u - 8) /\
  forall i r, froots f !! i = Some r -> exists cells d, (fun k => tcells k.1) <$> f !! i = Some cells /\ H !! r = Some d /\ leaf_image u r d cells.
Proof.
  revert lo. induction f as [|[t b] f IH]; intros lo; cbn [seg fst snd]; intros Hs H1; [done|]. destruct Hs as (_ & Ht & Hs).
  destruct t as [n cells|]; [|done]. destruct Ht as ((d & Hd & Him) & Hfit & _). unfold fpages in H1. cbn [flat_map fst pages app] in H1.
  apply not_elem_of_cons in H1 as [Hn H1]. destruct (IH b Hs H1) as (E1 & E2 & E3). split_and!.
  - unfold fpages, froots in *. cbn [flat_map fmap list_fmap fst pages troot app]. by rewrite E1.
  - rewrite (body_not_1 n) in Hfit by lia. apply leaf_fits_total in Hfit. rewrite zlen_cons.
    change (fcells ((BLeaf n cells, b) :: f)) with (cells ++ fcells f). unfold sizes. rewrite fmap_app, Balance.run_size_app. fold (sizes cells) (sizes (fcells f)).
    rewrite run_size_sizes. lia.
  - intros [|i] r Hr; cbn in Hr.
    + injection Hr as <-. exists cells, d. done.
    + destruct (E3 i r Hr) as (cells' & d' & F). by exists cells', d'.
Qed.

Lemma run_size_ins c l : Balance.run_size (sizes (ins c l)) <= Balance.run_size (sizes l) + (2 + zlen c.2).
Proof.
  induction l as [|x l IH]; [cbn; lia|]. pose proof (zlen_nonneg x.2). cbn [ins].
  destruct (_ <? _); [cbn; lia|]. destruct (_ =? _); [cbn; lia|].
  change (Balance.run_size (sizes (x :: ?k))) with (2 + zlen x.2 + Balance.run_size (sizes k)). lia.
Qed.

Lemma ins_nonempty c l : ins c l <> [].
Proof. destruct l; cbn; [done|]. destruct (_ <? _); [done|]. by destruct (_ =? _). Qed.

Lemma fcells_concat f : fcells f = concat ((fun k => tcells k.1) <$> f).
Proof. induction f as [|k f IH]; [done|]. unfold fcells in *. cbn. by rewrite IH. Qed.

(** The trees left and right of a child keep clear of its rowid. *)
Lemma seg_clear H u h lo A k b C r : seg (tree_ok H u h) lo (A ++ (k, b) :: C) -> upper lo A < r <= b ->
  below r (fcells A) /\ above r (fcells C).
Proof.
  intros [HA [Hle [Hk HC]]]%seg_app Hr. cbn [fst snd] in *. split.
  - destruct (seg_sorted (tree_ok H u h) (tree_ok_sorted H u h) A lo HA) as [_ Hw]. eapply Forall_impl; [exact Hw|]. cbn. lia.
  - destruct (seg_sorted (tree_ok H u h) (tree_ok_sorted H u h) C b HC) as [_ Hw]. eapply Forall_impl; [exact Hw|]. cbn. lia.
Qed.

(** Every cell of a represented tree is well formed. *)
Lemma tree_cells_ok w H u h : holds w H -> usable_ok u -> forall lo hi t, tree_ok H u h lo hi t -> Forall (cell_ok u) (tcells t).
Proof.
  intros Hh Hu. induction h as [|h IH]; intros lo hi [n cells|n kids]; cbn [tree_ok tcells]; try done.
  - intros ((d & Hd & Him) & _). destruct (holds_page w H n d Hh Hd) as (_ & _ & Hb & _). by apply (leaf_image_ok u n d).
  - intros (_ & _ & _ & _ & Hs). revert lo Hs. induction kids as [|k kids IHk]; intros lo; cbn [seg flat_map]; [constructor|].
    intros (_ & Ht & Hs). apply Forall_app_2; [by apply (IH lo k.2)|by apply (IHk k.2)].
Qed.

Lemma seg_cells_ok w H u h lo f : holds w H -> usable_ok u -> seg (tree_ok H u h) lo f -> Forall (cell_ok u) (fcells f).
Proof.
  intros Hh Hu. revert lo. induction f as [|k f IH]; intros lo; cbn [seg]; [constructor|]. intros (_ & Ht & Hs).
  apply Forall_app_2; [by apply (tree_cells_ok w H u h Hh Hu lo k.2)|by apply (IH k.2)].
Qed.

(** Rebalancing the window around child [k], whose cells with the new one are
    handed up: the window becomes a run of leaves with the same bounds. *)
Lemma balance_window w H u B1 k b B2 lo c : holds w H -> usable_size w = u -> is_Some (H !! 1) ->
  seg (tree_ok H u 0) lo (B1 ++ (k, b) :: B2) -> 1 ∉ fpages (B1 ++ (k, b) :: B2) -> NoDup (fpages (B1 ++ (k, b) :: B2)) ->
  (length (B1 ++ (k, b) :: B2) <= 3)%nat -> upper lo B1 < c.1 <= b -> cell_ok u c -> wp_page_count w + 21 < 2 ^ 32 ->
  forall w0, exists f w' H', 
    (let* (pooled, cnt_old) := pool_window w (froots (B1 ++ (k, b) :: B2)) w0 (w0 + zlen B1) (ins c (tcells k)) [] in
     balance_leaf_pooled w (froots (B1 ++ (k, b) :: B2)) pooled cnt_old) = Ok ((froots f, fdivs f), w') /\
    holds w' H' /\ evolves 21 w w' /\
    rebalanced H H' u lo (upper lo (B1 ++ (k, b) :: B2)) (fpages (B1 ++ (k, b) :: B2)) (ins c (fcells (B1 ++ (k, b) :: B2))) f /\
    frame H H' (fpages (B1 ++ (k, b) :: B2)).
Proof.
  intros Hh Eu H1s Hseg H1 Hnd Hlen Hr Hc Hpc w0. destruct (holds_geom w H Hh) as (Hu & Hups & Hps & _). rewrite Eu in Hu, Hups.
  destruct (leaf_forest H u lo _ Hseg H1) as (Epg & Hsize & Himg). destruct (seg_clear H u 0 lo B1 k b B2 c.1 Hseg Hr) as [Hbelow Habove].
  set (cl := ((fun x => tcells x.1) <$> B1) ++ ins c (tcells k) :: ((fun x => tcells x.1) <$> B2)).
  assert (concat cl = ins c (fcells (B1 ++ (k, b) :: B2))) as Ecl.
  { unfold cl. rewrite concat_app. cbn [concat]. rewrite <- !fcells_concat, fcells_app. change (fcells ((k, b) :: B2)) with (tcells k ++ fcells B2).
    rewrite ins_below by done. by rewrite ins_above. }
  assert (length cl = length (froots (B1 ++ (k, b) :: B2))) as Hcll.
  { unfold cl. rewrite length_froots, !length_app. cbn [length]. by rewrite !length_fmap. }
  rewrite (pool_window_spec w H _ (ins c (tcells k)) Hh cl).
  2:{ done. }
  2:{ intros i r cells Hi Hcell. destruct (Himg i r Hi) as (cells' & d & Ecells' & Hd & Him). rewrite Eu.
      unfold cl in Hcell. destruct (Z.eqb_spec (w0 + Z.of_nat i) (w0 + zlen B1)) as [E|E].
      - assert (i = length B1) as -> by (unfold zlen in E; lia).
        rewrite lookup_app_r in Hcell by (rewrite length_fmap; lia). rewrite length_fmap, Nat.sub_diag in Hcell. by injection Hcell as <-.
      - exists d. split; [done|]. enough (cells = cells') by congruence. destruct (decide (i < length B1)%nat) as [Hlt|Hge].
        + rewrite lookup_app_l in Hcell by (rewrite length_fmap; lia). rewrite lookup_app_l in Ecells' by lia. rewrite list_lookup_fmap in Hcell. congruence.
        + rewrite lookup_app_r in Hcell by (rewrite length_fmap; lia). rewrite lookup_app_r in Ecells' by lia. rewrite length_fmap in Hcell.
          destruct (i - length B1)%nat as [|j] eqn:Ej; [unfold zlen in E; lia|]. change (((fun x => tcells x.1) <$> B2) !! j = Some cells) in Hcell.
          change ((fun k => tcells k.1) <$> B2 !! j = Some cells') in Ecells'. rewrite list_lookup_fmap in Hcell. congruence. }
  bind_step. cbn [app]. rewrite Ecl. rewrite <- Epg.
  pose proof (seg_owned _ _ _ _ _ Hseg) as Hown. pose proof (seg_cells_ok w H u 0 lo _ Hh ltac:(lia) Hseg) as Hcok.
  destruct (seg_sorted (tree_ok H u 0) (tree_ok_sorted H u 0) _ lo Hseg) as [Hsort Hw].
  apply balance_leaf_pooled_spec; try done.
  - apply ins_nonempty.
  - by apply Forall_ins.
  - by apply ins_sorted.
  - apply within_ins; [done|]. pose proof Hseg as [HA [Hle [Hk HC]]]%seg_app. cbn [fst snd] in *.
    rewrite upper_app, upper_cons. cbn [snd]. pose proof (seg_upper _ _ _ HA). pose proof (seg_upper _ _ _ HC). lia.
  - rewrite <- Ecl. apply running_old_ok. rewrite Ecl. assert (zlen cl <= 3 /\ 1 <= zlen cl) as [? ?].
    { unfold zlen. rewrite Hcll, length_froots. rewrite length_app in *. simpl in *. lia. }
    pose proof (ins_nonempty c (fcells (B1 ++ (k, b) :: B2))) as Hne. destruct (ins c (fcells (B1 ++ (k, b) :: B2))) as [|x l]; [done|].
    rewrite zlen_cons. pose proof (zlen_nonneg l). lia.
  - pose proof (run_size_ins c (fcells (B1 ++ (k, b) :: B2))). pose proof (cell_ok_max u c Hu Hc).
    assert (zlen (B1 ++ (k, b) :: B2) <= 3) as Hz3 by (unfold zlen; lia). nia.
Qed.

(** ** The recursion *)

Lemma page_one_prefix_spec n d bt : BtPage.parse (Pager.mkPage n d) = Ok bt -> is_bytes d -> 512 <= zlen d ->
  exists prefix, page_one_prefix n bt = Ok prefix /\ prefix_ok n prefix /\ forall h, prefix = Some h -> h = sub d 0 Header.HEADER_LEN.
Proof.
  intros E Hb Hz. pose proof (safe_Ok _ _ _ (parse_wf (Pager.mkPage n d) Hb) E) as [_ Ep]. unfold page_one_prefix, bt_data. rewrite Ep. cbn [Pager.data].
  destruct (Z.eqb_spec n 1); [|by exists None]. rewrite slice_Ok by (unfold Header.HEADER_LEN; lia). bind_step. eexists. split; [done|]. split.
  - split_and!; [done|apply zlen_sub; unfold Header.HEADER_LEN; lia|by apply is_bytes_sub].
  - by intros h [= <-].
Qed.

(** Adopting the two halves of a split child. *)
Lemma adopt_split_two A t b C t0 t1 k key : troot t0 = troot t ->
  adopt_split (froots (A ++ (t, b) :: C)) (fdivs (A ++ (t, b) :: C)) (zlen A) (mkSplit k [(key, troot t1)]) =
    Ok (froots (A ++ [(t0, k); (t1, b)] ++ C), fdivs (A ++ [(t0, k); (t1, b)] ++ C)).
Proof.
  intros E0. unfold adopt_split. cbn [siblings last removelast fst snd first_key].
  change ((t, b) :: C) with ([(t, b)] ++ C). rewrite (fdivs_split A [(t, b)] C), (fdivs_split A [(t0, k); (t1, b)] C) by done.
  rewrite fdivs_singleton. change (fdivs [(t0, k); (t1, b)]) with [k]. change (upper 0 [(t, b)]) with b. change (upper 0 [(t0, k); (t1, b)]) with b.
  rewrite !froots_app. cbn [app]. change (froots [(t, b)]) with [troot t]. change (froots [(t0, k); (t1, b)]) with [troot t0; troot t1]. rewrite E0.
  assert (zlen (A.*2) = zlen A) as Ez by (unfold zlen; by rewrite length_fmap). pose proof (zlen_froots A) as Ezr.
  destruct C as [|c C].
  - rewrite zlen_app, Ez, zlen_nil. destruct (Z.ltb_spec (zlen A) (zlen A + 0)); [lia|].
    change (froots []) with (@nil Z). cbn [app fmap list_fmap]. rewrite !app_nil_r. by rewrite <- app_assoc.
  - rewrite zlen_app, zlen_cons, Ez. pose proof (zlen_nonneg (fdivs (c :: C))). destruct (Z.ltb_spec (zlen A) (zlen A + (zlen (fdivs (c :: C)) + 1))); [|lia].
    assert (idx (A.*2 ++ b :: fdivs (c :: C)) (zlen A) = Ok b) as ->.
    { rewrite <- Ez. unfold zlen. apply idx_lookup. by apply list_lookup_middle. }
    bind_step.
    change (froots A ++ [troot t] ++ froots (c :: C)) with (froots A ++ [troot t] ++ [] ++ froots (c :: C)). rewrite app_assoc.
    rewrite splice_mid by (rewrite ?zlen_app, ?zlen_cons, ?zlen_nil; lia). bind_step.
    change (A.*2 ++ b :: fdivs (c :: C)) with (A.*2 ++ [b] ++ fdivs (c :: C)).
    rewrite splice_mid by (rewrite ?zlen_app, ?zlen_cons, ?zlen_nil; lia). bind_step. f_equal. f_equal; by rewrite <- app_assoc.
Qed.

Lemma insert_leaf w H u depth n cells lo hi rid cell : holds w H -> usable_size w = u -> tree_ok H u 0 lo hi (BLeaf n cells) ->
  lo < rid <= hi -> cell_ok u (rid, cell) ->
  exists up w' H', insert_rec (S depth) w n rid cell = Ok (up, w') /\ holds w' H' /\ evolves 0 w w' /\ frame H H' [n] /\
    ins_result H H' u 0 lo hi (BLeaf n cells) (rid, cell) up.
Proof.
  intros Hh Eu ((d & Hd & (bt & Ep & Et & Er)) & Hfit & Hs & Hw) Hr Hc. destruct (holds_geom w H Hh) as (Hu & Hups & Hps & Hfull & _). rewrite Eu in *.
  destruct (holds_page w H n d Hh Hd) as (_ & Hz & Hb & _). cbn [insert_rec]. rewrite (wp_page_Ok w H n d Hh Hd). bind_step. rewrite Ep. bind_step.
  rewrite Et, Eu, Er. bind_step. rewrite place_cell_spec by done. bind_step.
  change (Pager.body_offset (Pager.mkPage n d)) with (body_of n).
  assert (Forall (cell_ok u) (ins (rid, cell) cells)) as Hok.
  { apply Forall_ins; [|done]. apply (leaf_image_ok u n d cells Hb ltac:(lia)). by exists bt. }
  destruct (leaf_fits (ins (rid, cell) cells) (body_of n) u) eqn:Ef.
  - destruct (page_one_prefix_spec n d bt Ep Hb ltac:(lia)) as (prefix & -> & Hpre & _). bind_step. rewrite Hfull.
    destruct (serialize_leaf_image u (wp_page_size w) n prefix (ins (rid, cell) cells)) as (d' & -> & Hz' & Hb' & Him & _); try done. bind_step.
    destruct (heap_write w H n d' Hh (ex_intro _ d Hd) Hz' Hb') as (w' & -> & Hh' & Hev). bind_step.
    exists Fit, w', (<[n := d']> H). split_and!; try done.
    + intros p e Hp%not_elem_of_cons He. by rewrite lookup_insert_ne by naive_solver.
    + exists (BLeaf n (ins (rid, cell) cells)). split_and!; try done.
      * cbn [tree_ok]. split_and!; [|done|by apply ins_sorted|by apply within_ins]. exists d'. by rewrite lookup_insert_eq.
      * split; [apply NoDup_singleton|]. intros p Hp. by left.
  - exists (LeafOverfull (ins (rid, cell) cells)), w, H. split; [done|]. split; [done|]. split; [apply evolves_refl|]. split; [by intros p e|]. cbn [ins_result tcells]. done.
Qed.

(** The separators of a represented interior page are rowids. *)
Lemma node_divs_i64 w H n d f : holds w H -> H !! n = Some d -> f <> [] ->
  node_image n d (zip (froots f) (fdivs f)) (default 0 (last (froots f))) -> Forall is_i64 (fdivs f).
Proof.
  intros Hh Hd Hf Him. destruct (holds_page w H n d Hh Hd) as (_ & _ & Hb & _). apply (node_image_ok n d _ _ Hb) in Him as (Hok & _).
  rewrite <- (proj2 (forest_children f Hf)). apply Forall_fmap. eapply Forall_impl; [exact Hok|]. intros c [_ Hk]. exact Hk.
Qed.

Lemma need_small ds : zlen ds <= 6 -> need ds <= 225.
Proof. intros Hz. pose proof (need_bounds ds). lia. Qed.

(** Splitting the children around the window. *)
Lemma window_split {T} (A : list T) k C w0 m : 0 <= w0 <= zlen A -> zlen A < w0 + m -> w0 + m <= zlen (A ++ k :: C) ->
  exists A' B1 B2 C', A = A' ++ B1 /\ C = B2 ++ C' /\ zlen A' = w0 /\ zlen (B1 ++ k :: B2) = m.
Proof.
  intros Hw Hm Hz. rewrite zlen_app, zlen_cons in Hz.
  exists (take (Z.to_nat w0) A), (drop (Z.to_nat w0) A), (take (Z.to_nat (w0 + m - zlen A - 1)) C), (drop (Z.to_nat (w0 + m - zlen A - 1)) C).
  rewrite !take_drop. split_and!; [done|done|unfold zlen in *; rewrite length_take; lia|].
  rewrite zlen_app, zlen_cons. unfold zlen in *. rewrite length_take, length_drop. lia.
Qed.

Lemma balance_leaf_into_spec w H u A k b C lo c : holds w H -> usable_size w = u -> is_Some (H !! 1) ->
  seg (tree_ok H u 0) lo (A ++ (k, b) :: C) -> 1 ∉ fpages (A ++ (k, b) :: C) -> NoDup (fpages (A ++ (k, b) :: C)) ->
  upper lo A < c.1 <= b -> cell_ok u c -> wp_page_count w + 21 < 2 ^ 32 ->
  exists A' B B' C' w' H', A ++ (k, b) :: C = A' ++ B ++ C' /\
    balance_leaf_into w (froots (A ++ (k, b) :: C)) (fdivs (A ++ (k, b) :: C)) (zlen A) (ins c (tcells k)) =
      Ok ((froots (A' ++ B' ++ C'), fdivs (A' ++ B' ++ C')), w') /\
    B <> [] /\ holds w' H' /\ evolves 21 w w' /\
    rebalanced H H' u (upper lo A') (upper (upper lo A') B) (fpages B) (ins c (fcells B)) B' /\ frame H H' (fpages B) /\
    below c.1 (fcells A') /\ above c.1 (fcells C').
Proof.
  intros Hh Eu H1s Hseg H1 Hnd Hr Hc Hpc. pose proof (seg_clear H u 0 lo A k b C c.1 Hseg Hr) as [Hbelow Habove].
  assert (zlen (froots (A ++ (k, b) :: C)) = zlen A + zlen C + 1) as Ezl by (rewrite zlen_froots, zlen_app, zlen_cons; lia).
  pose proof (zlen_nonneg A). pose proof (zlen_nonneg C).
  destruct (Balance.sibling_window_spec (zlen A) (zlen (froots (A ++ (k, b) :: C)))) as (w0 & m & Ew & Hw1 & Hw2 & Hw3 & Hm); [lia|].
  destruct (window_split A (k, b) C w0 m) as (A' & B1 & B2 & C' & -> & -> & Hw0 & HB); [lia|lia|rewrite zlen_app, zlen_cons; lia|].
  set (B := B1 ++ (k, b) :: B2) in *. assert ((A' ++ B1) ++ (k, b) :: B2 ++ C' = A' ++ B ++ C') as Ek.
  { unfold B. by rewrite <- !app_assoc. }
  rewrite Ek in *. assert (B <> []) as HBne by (unfold B; by destruct B1).
  pose proof Hseg as Hseg0. apply seg_app in Hseg as [HA Hseg]. apply seg_app in Hseg as [HB' HC]. rewrite !fpages_app in H1, Hnd.
  apply NoDup_app in Hnd as (_ & _ & Hnd). apply NoDup_app in Hnd as (HndB & _ & _). rewrite upper_app in Hr.
  destruct (balance_window w H u B1 k b B2 (upper lo A') c Hh Eu H1s HB') with (w0 := w0) as (f & w' & H' & Ebal & Hh' & Hev & Hreb & Hfr); try done;
    [intros Hin; apply H1, elem_of_app; right; apply elem_of_app; by left|fold B; unfold zlen in *; lia|]. fold B in Ebal, Hreb, Hfr.
  exists A', B, f, C', w', H'. rewrite fcells_app in Hbelow, Habove. apply Forall_app in Hbelow as [Hbelow _]. apply Forall_app in Habove as [_ Habove].
  split_and!; try done.
  unfold balance_leaf_into. rewrite Ew. bind_step. assert (zlen (froots B) = m) as EB by (by rewrite zlen_froots).
  assert (slice (froots (A' ++ B ++ C')) w0 (w0 + m) = Ok (froots B)) as ->.
  { rewrite !froots_app. pose proof (zlen_froots A'). pose proof (zlen_nonneg (froots C')). rewrite slice_Ok by (rewrite ?zlen_app; lia).
    f_equal. apply sub_app_exact; lia. }
  bind_step. apply res_bind_Ok in Ebal as ([pooled cnt] & E1 & E2).
  rewrite zlen_app, Hw0, E1. bind_step. rewrite E2. bind_step. rewrite !froots_app.
  rewrite splice_mid by (rewrite ?zlen_froots in *; lia). bind_step. rewrite !(fdivs_split A') by (done || apply Hreb).
  assert (zlen (fdivs B) = m - 1) as EdB.
  { unfold zlen in *. rewrite length_fdivs. rewrite length_froots in EB. destruct B; [done|]. simpl in *. lia. }
  rewrite splice_mid by (rewrite ?EdB; unfold zlen in *; rewrite ?length_fmap; lia). bind_step. do 4 f_equal.
  destruct C' as [|x C']; [done|]. rewrite (upper_irrel 0 (upper lo A') B), (upper_irrel 0 (upper lo A') f) by (done || apply Hreb).
  by rewrite (proj1 (proj2 Hreb)).
Qed.

(** The main induction, on the height of the tree. *)
Lemma insert_rec_spec u rid cell h : cell_ok u (rid, cell) -> forall depth w H t lo hi, holds w H -> usable_size w = u -> is_Some (H !! 1) ->
  tree_ok H u h lo hi t -> NoDup (pages t) -> 1 ∉ tail (pages t) -> lo < rid <= hi -> (h < depth)%nat ->
  wp_page_count w + 24 * Z.of_nat h < 2 ^ 32 ->
  exists up w' H', insert_rec depth w (troot t) rid cell = Ok (up, w') /\ holds w' H' /\ evolves (24 * Z.of_nat h) w w' /\
    frame H H' (pages t) /\ ins_result H H' u h lo hi t (rid, cell) up.
Proof.
  intros Hc. induction h as [|h IH]; intros depth w H t lo hi Hh Eu H1s Ht Hnd H1 Hr Hd Hpc; (destruct depth as [|depth]; [lia|]).
  { destruct t as [n cells|]; [|done]. by apply (insert_leaf w H u depth n cells lo hi rid cell). }
  destruct t as [|n kids]; [done|]. pose proof Ht as ((d & Hdn & Him) & Hfit & Hne & Hup & Hseg).
  pose proof (node_divs_i64 w H n d kids Hh Hdn Hne Him) as Hi64. cbn [pages tail] in Hnd, H1. fold (fpages kids) in Hnd, H1.
  destruct Him as (bt & Ep & Et & Er & Erp). destruct (holds_geom w H Hh) as (Hu & Hups & Hps & Hfull & _).
  destruct (holds_page w H n d Hh Hdn) as (_ & Hz & Hb & _). destruct (forest_children kids Hne) as [Ech Edv].
  destruct (page_one_prefix_spec n d bt Ep Hb ltac:(lia)) as (prefix & Epre & Hpre & _).
  destruct (find_child_spec (tree_ok H u h) rid kids Hne lo Hseg ltac:(rewrite Hup; lia)) as (A & k & b & C & Ek & Efc & Hrk & Hk).
  cbn [insert_rec troot]. rewrite (wp_page_Ok w H n d Hh Hdn). bind_step. rewrite Ep. bind_step. rewrite Et, Er. bind_step. rewrite Erp, Ech, Edv, Epre. bind_step.
  change (Pager.body_offset (Pager.mkPage n d)) with (body_of n). rewrite Efc, Eu, Hfull.
  assert (idx (froots kids) (zlen A) = Ok (troot k)) as ->.
  { rewrite Ek, froots_app, <- (zlen_froots A). unfold zlen. apply idx_lookup. by apply list_lookup_middle. }
  bind_step. rewrite Ek, fpages_app in Hnd, H1. change (fpages ((k, b) :: C)) with (pages k ++ fpages C) in Hnd, H1.
  assert (NoDup (pages k) /\ 1 ∉ pages k) as [Hndk H1k].
  { apply NoDup_cons in Hnd as [_ Hnd]. apply NoDup_app in Hnd as (_ & _ & Hnd). apply NoDup_app in Hnd as (? & _ & _). split; [done|set_solver]. }
  assert (1 ∉ tail (pages k)) as H1t by (intros Hin; apply H1k; destruct (pages k); [done|by right]).
  destruct (IH depth w H k (upper lo A) b Hh Eu H1s Hk Hndk H1t Hrk ltac:(lia) ltac:(lia)) as (up & w1 & H1' & -> & Hh1 & Hev1 & Hfr1 & Hres). bind_step.
  pose proof Hev1 as (Eu1 & Eps1 & Hcnt1). subst kids. clear Ech Edv Epre Efc Hne IH.
  assert (NoDup (n :: fpages (A ++ [(k, b)] ++ C)) /\ 1 ∉ fpages (A ++ [(k, b)] ++ C)) as [Hnd' H1''].
  { rewrite !fpages_app. change (fpages [(k, b)]) with (pages k ++ []). by rewrite app_nil_r. }
  assert (fpages [(k, b)] = pages k) as Epk by apply app_nil_r.
  assert (fcells [(k, b)] = tcells k) as Eck by apply app_nil_r.
  pose proof (seg_clear H u h lo A k b C rid Hseg Hrk) as [Hbelow Habove].
  assert (pages k ⊆ pages (BNode n (A ++ (k, b) :: C))) as Hsub.
  { intros p Hp. cbn [pages]. right. fold (fpages (A ++ (k, b) :: C)). rewrite fpages_app. apply elem_of_app. right.
    change (fpages ((k, b) :: C)) with (pages k ++ fpages C). apply elem_of_app. by left. }
  destruct up as [|cs|s]; cbn [ins_result] in Hres.
  - destruct Hres as (k' & Hk' & Etr & Hfresh & Ecells). exists Fit, w1, H1'.
    destruct (splice_forest H H1' u h n A [(k, b)] [(k', b)] C lo Hseg (ex_intro _ d Hdn) Hnd') as (Hseg1 & Hup1 & Hnd1 & _ & Hnew).
    { cbn [seg fst snd]. split_and!; [lia|done|done]. }
    { done. }
    { rewrite Epk. change (fpages [(k', b)]) with (pages k' ++ []). by rewrite app_nil_r. }
    { by rewrite Epk. }
    split_and!; [done|done|by apply (evolves_mono (24 * Z.of_nat h)); [|lia]|by apply (frame_mono _ _ (pages k))|].
    exists (BNode n (A ++ [(k', b)] ++ C)).
    assert (froots (A ++ [(k', b)] ++ C) = froots (A ++ (k, b) :: C)) as Efr by (rewrite !froots_app; cbn; by rewrite Etr).
    assert (fdivs (A ++ [(k', b)] ++ C) = fdivs (A ++ (k, b) :: C)) as Efd by (unfold fdivs; by rewrite !fmap_app).
    split_and!; [|done| |].
    + cbn [tree_ok]. rewrite Efr, Efd. split_and!; [|done|destruct A; done|exact (eq_trans Hup1 Hup)|done]. exists d. split; [|by exists bt].
      apply Hfr1; [|done]. apply NoDup_cons in Hnd as [Hnn _]. set_solver.
    + split; [done|]. cbn [pages]. fold (fpages (A ++ [(k', b)] ++ C)) (fpages (A ++ (k, b) :: C)).
      intros p [->|Hp]%elem_of_cons; [left; by left|]. destruct (Hnew p Hp); [left; by right|by right].
    + change (fcells (A ++ [(k', b)] ++ C) = ins (rid, cell) (fcells (A ++ [(k, b)] ++ C))). rewrite !fcells_app, Eck.
      change (fcells [(k', b)]) with (tcells k' ++ []). rewrite app_nil_r, Ecells, ins_below by done. by rewrite ins_above.
  - destruct Hres as (-> & -> & ->).
    destruct (balance_leaf_into_spec w1 H u A k b C lo (rid, cell) Hh1 ltac:(congruence) H1s Hseg) as
      (A' & B & B' & C' & w2 & H2 & Ekids & Ebal & HB & Hh2 & Hev2 & Hreb & Hfr2 & Hbl & Hab); try done; [by apply NoDup_cons in Hnd' as [_ ?]|lia|].
    rewrite Ebal. bind_step. cbn [fst snd]. pose proof Hev2 as (Eu2 & Eps2 & Hcnt2).
    destruct Hreb as (HB' & Hup2 & Hseg2 & Ecells & Hdi & Hfresh & _ & Hlen).
    assert (need (fdivs B') <= 225) as Hneed by (apply need_small; unfold zlen; rewrite length_fdivs; lia).
    rewrite Ekids in Ht, Hi64. change ([(k, b)] ++ C) with ((k, b) :: C) in Hnd', H1''. rewrite Ekids in Hnd', H1'' |- *. rewrite <- Eps1, <- Eps2.
    destruct (finish_spliced w2 H H2 u 0 n A' B B' C' lo hi prefix (rid, cell)) as (up & w3 & H3 & -> & Hh3 & Hev3 & Hfr3 & Hres3); try done; [congruence|lia|].
    exists up, w3, H3. split_and!; try done. eapply evolves_mono; [by eapply evolves_trans; [eapply evolves_trans|]|lia].
  - destruct Hres as (key & key' & t0 & t1 & -> & Etr & Hki & Hseg1 & Hfresh & Ecells). rewrite (adopt_split_two A k b C t0 t1 key key' Etr). bind_step.
    rewrite <- Eps1. change ((k, b) :: C) with ([(k, b)] ++ C) in Ht, Hi64 |- *.
    destruct (finish_spliced w1 H H1' u h n A [(k, b)] [(t0, key); (t1, b)] C lo hi prefix (rid, cell)) as (up & w3 & H3 & -> & Hh3 & Hev3 & Hfr3 & Hres3);
      try done; [congruence|by rewrite Epk|by rewrite Epk|by apply Forall_singleton|apply need_small; done|by rewrite Eck|lia|].
    exists up, w3, H3. split_and!; try done. eapply evolves_mono; [by eapply evolves_trans|lia].
Qed.

End WriterInsert.
