(* ===== verification/WriterTable.v ===== *)
(** Tables over the page heap: growing the root, and [insert_table] as an
    insertion into the sorted rows of the table. *)

From S2P Require Import Prelude Varint Header Balance Pager BtPage WritePager WritePagerProps Writer WriterPages WriterHeap WriterTree WriterBalance WriterNode WriterInsert.
Import BtPage WritePager WritePagerProps Writer WriterPages WriterHeap WriterTree WriterBalance WriterNode WriterInsert.
Local Open Scope Z_scope.

Module WriterTable.

(** ** Growing the root *)

(** The same tree on another root page. *)
Definition reroot (q : Z) (t : btree) : btree :=
  match t with BLeaf _ cells => BLeaf q cells | BNode _ kids => BNode q kids end.

Lemma tcells_reroot q t : tcells (reroot q t) = tcells t.
Proof. by destruct t. Qed.

Lemma troot_reroot q t : troot (reroot q t) = q.
Proof. by destruct t. Qed.

Lemma pages_reroot q t : pages (reroot q t) = q :: tail (pages t).
Proof. by destruct t. Qed.

Lemma pages_cons t : pages t = troot t :: tail (pages t).
Proof. by destruct t. Qed.

(** Moving the content of a root to a fresh page. *)
Lemma relocate w H u h t lo hi q : holds w H -> usable_size w = u -> tree_ok H u h lo hi t -> is_Some (H !! q) -> q <> 1 -> q ∉ pages t ->
  exists d bt buf w', H !! troot t = Some d /\ BtPage.parse (Pager.mkPage (troot t) d) = Ok bt /\
    reserialize bt u (wp_page_size w) = Ok buf /\ write_page w q buf = Ok w' /\ evolves 0 w w' /\ holds w' (<[q := buf]> H) /\
    tree_ok (<[q := buf]> H) u h lo hi (reroot q t).
Proof.
  intros Hh Eu Ht Hq Hq1 Hqt. destruct h as [|h], t as [n cells|n kids]; try done; cbn [reroot troot].
  - destruct Ht as ((d & Hd & Him) & Hfit & Hs & Hw). destruct (holds_page w H n d Hh Hd) as (_ & _ & Hb & _).
    destruct (holds_geom w H Hh) as (Hu & Hups & Hps & _). rewrite Eu in Hu, Hups.
    destruct (leaf_image_ok u n d cells Hb ltac:(lia) Him) as [Hok _]. destruct Him as (bt & Ep & Et & Er).
    assert (leaf_fits cells 0 u = true) as Hfit0.
    { apply leaf_fits_total in Hfit. apply leaf_fits_total. pose proof (body_of_range n). lia. }
    destruct (write_leaf w H u q cells lo hi Hh Eu Hq Hq1 Hok Hfit0 Hs Hw) as (buf & w' & Es & Ew & Hev & Hh' & Ht').
    exists d, bt, buf, w'. split_and!; try done. unfold reserialize. rewrite Et, Er. by bind_step.
  - pose proof Ht as ((d & Hd & Him) & Hfit & Hne & Hup & Hseg). pose proof (node_divs_i64 w H n d kids Hh Hd Hne Him) as Hi64.
    destruct Him as (bt & Ep & Et & Er & Erp). apply interior_fits_need in Hfit. rewrite (proj2 (forest_children kids Hne)) in Hfit.
    pose proof (body_of_range n).
    destruct (write_node w H u h q None kids lo hi Hh Eu Hq Hq1 Hne Hseg Hup Hi64) as (buf & w' & Es & Ew & Hev & Hh' & Ht').
    { intros Hin. apply Hqt. cbn [pages]. right. exact Hin. }
    { rewrite (body_not_1 q Hq1). lia. }
    exists d, bt, buf, w'. split_and!; try done. unfold reserialize. rewrite Et, Er. bind_step. rewrite (body_not_1 q Hq1) in Es. by rewrite Erp.
Qed.

Lemma grow_root_spec w H u h t0 t1 lo k hi key : holds w H -> usable_size w = u -> is_Some (H !! 1) ->
  seg (tree_ok H u h) lo [(t0, k); (t1, hi)] -> NoDup (fpages [(t0, k); (t1, hi)]) -> is_i64 k -> wp_page_count w + 3 < 2 ^ 32 ->
  exists q w' H', grow_root w (troot t0) (mkSplit k [(key, troot t1)]) = Ok w' /\ holds w' H' /\ evolves 3 w w' /\
    H !! q = None /\ frame H H' [troot t0] /\ tree_ok H' u (S h) lo hi (BNode (troot t0) [(reroot q t0, k); (t1, hi)]).
Proof.
  intros Hh Eu H1s Hseg Hnd Hk Hpc. destruct (holds_geom w H Hh) as (Hu & Hups & Hps & Hfull & _).
  pose proof Hseg as (Hlk & Ht0 & Hkh & Ht1 & _). cbn [fst snd] in *.
  cbn [fpages flat_map fst] in Hnd. rewrite app_nil_r in Hnd. apply NoDup_app in Hnd as (Hnd0 & Hdis & Hnd1).
  pose proof (tree_ok_owned H u h lo k t0 Ht0) as Hown0. pose proof (tree_ok_owned H u h k hi t1 Ht1) as Hown1. rewrite Forall_forall in Hown0, Hown1.
  destruct (heap_alloc w H Hh Hpc) as (q & w1 & z & Ea & Hq & Hh1 & Hev1 & _). pose proof Hev1 as (Eu1 & Eps1 & _).
  assert (q <> 1) as Hq1 by (intros ->; rewrite Hq in H1s; by destruct H1s).
  assert (q ∉ pages t0 /\ q ∉ pages t1) as [Hqt0 Hqt1].
  { split; intros Hin; [destruct (Hown0 q Hin)|destruct (Hown1 q Hin)]; congruence. }
  assert (forall p d, H !! p = Some d -> <[q := z]> H !! p = Some d) as Hgrow.
  { intros p d Hd. rewrite lookup_insert_ne; [done|]. intros ->. congruence. }
  destruct (relocate w1 (<[q := z]> H) u h t0 lo k q Hh1 ltac:(congruence)) as (d & bt & buf & w2 & Hd & Ep & Ers & Ew & Hev2 & Hh2 & Ht0'); try done.
  { apply (tree_ok_frame H); [done|]. intros p e _. apply Hgrow. }
  { by rewrite lookup_insert_eq. }
  rewrite lookup_insert_ne in Hd by (intros E; apply Hqt0; rewrite E; apply troot_page).
  destruct (holds_page w H (troot t0) d Hh Hd) as (_ & Hz & Hb & _). pose proof Hev2 as (Eu2 & Eps2 & _).
  destruct (page_one_prefix_spec (troot t0) d bt Ep Hb ltac:(lia)) as (prefix & Epre & Hpre & _).
  set (H2 := <[q := buf]> (<[q := z]> H)) in *.
  assert (forall p e, H !! p = Some e -> H2 !! p = Some e) as Hgrow2.
  { intros p e He. unfold H2. rewrite lookup_insert_ne; [by apply Hgrow|]. intros ->. congruence. }
  destruct (write_node w2 H2 u h (troot t0) prefix [(reroot q t0, k); (t1, hi)] lo hi Hh2) as (rbuf & w3 & Es & Ew3 & Hev3 & Hh3 & Ht); try done.
  { congruence. }
  { exists d. by apply Hgrow2. }
  { cbn [seg fst snd]. split_and!; try done. apply (tree_ok_frame H); [done|]. intros p e _. apply Hgrow2. }
  { by apply Forall_singleton. }
  { cbn [fpages flat_map fst]. rewrite app_nil_r, pages_reroot. pose proof (troot_page t0) as Hin. rewrite pages_cons in Hnd0.
    apply NoDup_cons in Hnd0 as [Hn0 _]. cbn [app]. rewrite not_elem_of_cons, not_elem_of_app. split_and!; [|done|by apply Hdis].
    intros E. apply Hqt0. by rewrite <- E. }
  { pose proof (need_small [k] ltac:(done)) as Hn. change (fdivs [(reroot q t0, k); (t1, hi)]) with [k]. pose proof (body_of_range (troot t0)).
    pose proof (need_bounds [k]) as Hnb. change (zlen [k]) with 1 in Hnb. lia. }
  exists q, w3, (<[troot t0 := rbuf]> H2). split_and!; try done.
  - unfold grow_root. rewrite (wp_page_Ok w H (troot t0) d Hh Hd). bind_step. rewrite Ep. bind_step. rewrite Epre. bind_step. rewrite Ea. bind_step.
    rewrite Eu, Hfull, <- Eps1, Ers. bind_step. rewrite Ew. bind_step. cbn [siblings last removelast fmap list_fmap snd first_key].
    change (Pager.body_offset (Pager.mkPage (troot t0) d)) with (body_of (troot t0)).
    change (froots [(reroot q t0, k); (t1, hi)]) with [troot (reroot q t0); troot t1] in Es. rewrite troot_reroot, Eps2 in Es.
    change (zip [q; troot t1] (fdivs [(reroot q t0, k); (t1, hi)])) with [(q, k)] in Es.
    change (default 0 (last [q; troot t1])) with (troot t1) in Es. rewrite Es. bind_step. done.
  - eapply evolves_mono; [by eapply evolves_trans; [eapply evolves_trans|]|lia].
  - intros p e Hp%not_elem_of_cons He. rewrite lookup_insert_ne by naive_solver. by apply Hgrow2.
Qed.

Lemma deepen_leaf_root_spec w H u n cells lo hi c : holds w H -> usable_size w = u -> is_Some (H !! 1) ->
  tree_ok H u 0 lo hi (BLeaf n cells) -> lo < c.1 <= hi -> cell_ok u c -> wp_page_count w + 24 < 2 ^ 32 ->
  exists f w' H', deepen_leaf_root w n (ins c cells) = Ok w' /\ holds w' H' /\ evolves 24 w w' /\
    tree_ok H' u 1 lo hi (BNode n f) /\ fcells f = ins c cells /\ NoDup (n :: fpages f) /\
    (forall p, p ∈ fpages f -> H !! p = None) /\ frame H H' [n].
Proof.
  intros Hh Eu H1s Ht Hr Hc Hpc. pose proof Ht as ((d & Hd & Him) & Hfit & Hs & Hw). destruct (holds_geom w H Hh) as (Hu & Hups & Hps & Hfull & _). rewrite Eu in *.
  destruct (holds_page w H n d Hh Hd) as (_ & Hz & Hb & _). pose proof (proj1 (leaf_image_ok u n d cells Hb ltac:(lia) Him)) as Hok.
  destruct Him as (bt & Ep & Et & Er). destruct (page_one_prefix_spec n d bt Ep Hb ltac:(lia)) as (prefix & Epre & Hpre & _).
  destruct (heap_alloc w H Hh ltac:(lia)) as (q & w1 & z & Ea & Hq & Hh1 & Hev1 & _). pose proof Hev1 as (Eu1 & Eps1 & Hc1).
  assert (q <> 1 /\ q <> n) as [Hq1 Hqn] by (split; intros ->; [rewrite Hq in H1s; by destruct H1s|congruence]).
  assert (forall p e, H !! p = Some e -> <[q := z]> H !! p = Some e) as Hgrow.
  { intros p e He. rewrite lookup_insert_ne; [done|]. intros ->. congruence. }
  pose proof (ins_nonempty c cells) as Hne.
  destruct (balance_leaf_pooled_spec w1 (<[q := z]> H) u [q] (ins c cells) [zlen (ins c cells)] lo hi Hh1) as (f & w2 & H2 & Ebal & Hh2 & Hev2 & Hreb & Hfr2).
  { congruence. }
  { destruct H1s as [d1 Hd1]. exists d1. by apply Hgrow. }
  { apply NoDup_singleton. }
  { apply Forall_singleton. by rewrite lookup_insert_eq. }
  { intros Hin%list_elem_of_singleton. congruence. }
  { done. }
  { by apply Forall_ins. }
  { by apply ins_sorted. }
  { by apply within_ins. }
  { pose proof (running_old_ok [ins c cells]) as Hro. cbn [concat running] in Hro. rewrite app_nil_r in Hro. apply Hro.
    change (zlen [ins c cells]) with 1. pose proof (zlen_nonneg (ins c cells)). lia. }
  { pose proof (run_size_ins c cells). pose proof (cell_ok_max u c Hu Hc). apply leaf_fits_total in Hfit. rewrite !run_size_sizes in *.
    pose proof (body_of_range n). lia. }
  { lia. }
  destruct Hreb as (Hf & Hup & Hseg & Ecells & Hi64 & [Hndf Hfresh] & Epg & Hlen). pose proof Hev2 as (Eu2 & Eps2 & _).
  assert (forall p, p ∈ fpages f -> H !! p = None) as Hnew.
  { intros p Hp. destruct (Hfresh p Hp) as [->%list_elem_of_singleton|Hno]; [done|]. by apply lookup_insert_None in Hno as [? _]. }
  assert (n ∉ fpages f) as Hnf by (intros Hin; specialize (Hnew n Hin); congruence).
  assert (is_Some (H2 !! n)) as Hn2.
  { exists d. apply Hfr2; [intros Hin%list_elem_of_singleton; lia|]. by apply Hgrow. }
  destruct (write_node w2 H2 u 0 n prefix f lo hi Hh2) as (rbuf & w3 & Es & Ew3 & Hev3 & Hh3 & Ht3); try done.
  { congruence. }
  { pose proof (need_bounds (fdivs f)) as Hnb. assert (zlen (fdivs f) <= 6) by (unfold zlen; rewrite length_fdivs; lia). pose proof (body_of_range n). lia. }
  exists f, w3, (<[n := rbuf]> H2). split_and!; try done.
  - unfold deepen_leaf_root, read_bt. rewrite (wp_page_Ok w H n d Hh Hd). bind_step. rewrite Ep. bind_step. rewrite Epre. bind_step. rewrite Ea. bind_step.
    rewrite Ebal. bind_step. assert (zlen (fdivs f) <= zlen (froots f)) as Hzl by (unfold zlen; rewrite length_fdivs, length_froots; lia).
    destruct (Z.ltb_spec (zlen (froots f)) (zlen (fdivs f))); [lia|].
    destruct (last (froots f)) as [rgt|] eqn:El; [|apply last_None in El; destruct f; [done|by apply fmap_nil_inv in El]].
    change (default 0 (Some rgt)) with rgt in Es. rewrite Eu, Hfull. change (root_body n) with (body_of n). rewrite <- Eps1, <- Eps2, Es. bind_step. done.
  - eapply evolves_mono; [by eapply evolves_trans; [eapply evolves_trans|]|lia].
  - by apply NoDup_cons.
  - intros p e Hp%not_elem_of_cons He. rewrite lookup_insert_ne by naive_solver. apply Hfr2; [|by apply Hgrow].
    intros ->%list_elem_of_singleton. congruence.
Qed.

(** ** The tree an insertion leaves *)

(** The pages an insertion may add. *)
Definition insert_pages (u len : Z) (h : nat) : Z := 3 * row_pages u len + 24 * Z.of_nat h + 24.

(** Page one is never below the root. *)
Lemma fresh_not_one H t t' : is_Some (H !! 1) -> troot t' = troot t -> 1 ∉ tail (pages t) -> fresh_pages H (pages t) (pages t') -> 1 ∉ tail (pages t').
Proof.
  intros H1s Er Ht [Hnd Hf] Hin. rewrite (pages_cons t') in Hnd. apply NoDup_cons in Hnd as [Hn _].
  destruct (Hf 1) as [Hp|Hno]; [rewrite pages_cons; by right| |rewrite Hno in H1s; by destruct H1s].
  rewrite pages_cons in Hp. apply elem_of_cons in Hp as [E|?]; [|done]. apply Hn. by rewrite Er, <- E.
Qed.

Lemma ins_result_root H0 H u h lo hi t c up : tree_ok H0 u h lo hi t -> ins_result H0 H u h lo hi t c up -> is_Some (H !! troot t).
Proof.
  intros Ht. assert (forall H lo hi t', tree_ok H u h lo hi t' -> is_Some (H !! troot t')) as Hroot.
  { intros H' lo' hi' t' Ht'. pose proof (tree_ok_owned _ _ _ _ _ _ Ht') as Ho. rewrite Forall_forall in Ho. apply Ho, troot_page. }
  destruct up as [|cs|s]; cbn [ins_result]; [|intros (_ & -> & _); by eapply Hroot|].
  - intros (t' & Ht' & <- & _). by eapply Hroot.
  - intros (k & key & t0 & t1 & _ & <- & _ & (_ & Ht0 & _) & _). by eapply Hroot.
Qed.

(** The root page takes what [insert_rec] reports. *)
Lemma root_update w H H0 u h t lo hi c up : holds w H -> usable_size w = u -> is_Some (H0 !! 1) -> 1 ∉ tail (pages t) ->
  frame H0 H (pages t) -> tree_ok H0 u h lo hi t -> lo < c.1 <= hi -> cell_ok u c -> NoDup (pages t) ->
  ins_result H0 H u h lo hi t c up -> wp_page_count w + 24 < 2 ^ 32 ->
  exists w' H' h' t', match up with
      | Fit => Ok w
      | UpSplit s => grow_root w (troot t) s
      | LeafOverfull cells => deepen_leaf_root w (troot t) cells
      end = Ok w' /\ holds w' H' /\ evolves 24 w w' /\ (h' <= S h)%nat /\ tree_ok H' u h' lo hi t' /\ troot t' = troot t /\
    fresh_pages H0 (pages t) (pages t') /\ tcells t' = ins c (tcells t) /\ frame H H' [troot t].
Proof.
  intros Hh Eu H1s0 H1t Hfr0 Hold Hr Hc Hnd Hres Hpc.
  assert (is_Some (H !! 1)) as H1s.
  { destruct (decide (1 ∈ pages t)) as [Hin|Hnin]; [|destruct H1s0 as [d Hd]; exists d; by apply Hfr0].
    rewrite pages_cons in Hin. apply elem_of_cons in Hin as [->|?]; [|done]. by eapply ins_result_root. }
  destruct up as [|cs|s]; cbn [ins_result] in Hres; cycle 1.
  - destruct Hres as (-> & -> & ->). destruct t as [n cells|]; [|done]. cbn [troot tcells pages] in *.
    destruct (deepen_leaf_root_spec w H0 u n cells lo hi c) as (f & w' & H' & Ed & Hh' & Hev & Ht' & Ec & Hndf & Hno & Hfr); try done.
    exists w', H', 1%nat, (BNode n f). split_and!; try done. split; [done|]. intros p Hp. cbn [pages] in Hp.
    apply elem_of_cons in Hp as [->|Hp]; [left; by left|right; by apply Hno].
  - destruct Hres as (k & key & t0 & t1 & -> & Er & Hk & Hseg & [Hndf Hf] & Ec). rewrite <- Er.
    destruct (grow_root_spec w H u h t0 t1 lo k hi key) as (q & w' & H' & Eg & Hh' & Hev & Hq & Hfr & Ht'); try done; [lia|].
    exists w', H', (S h), (BNode (troot t0) [(reroot q t0, k); (t1, hi)]). split_and!; try done.
    + eapply evolves_mono; [done|lia].
    + assert (q ∉ fpages [(t0, k); (t1, hi)]) as Hqf.
      { destruct Hseg as (_ & Ht0 & _ & Ht1 & _). cbn [fpages flat_map fst]. rewrite app_nil_r, not_elem_of_app.
        pose proof (tree_ok_owned H u h lo k t0 Ht0) as Ho0. pose proof (tree_ok_owned H u h k hi t1 Ht1) as Ho1. rewrite Forall_forall in Ho0, Ho1.
        split; intros Hin; [destruct (Ho0 q Hin)|destruct (Ho1 q Hin)]; congruence. }
      assert (pages (BNode (troot t0) [(reroot q t0, k); (t1, hi)]) ≡ₚ q :: fpages [(t0, k); (t1, hi)]) as Hperm.
      { cbn [pages fpages flat_map fst]. rewrite pages_reroot. cbn [app]. rewrite Permutation_swap. constructor.
        by rewrite (pages_cons t0). }
      split; [rewrite Hperm; by apply NoDup_cons|]. intros p Hp. rewrite Hperm in Hp.
      apply elem_of_cons in Hp as [->|Hp]; [|by apply Hf].
      destruct (decide (q ∈ pages t)) as [|Hn]; [by left|right]. destruct (H0 !! q) as [d|] eqn:E; [|done]. rewrite (Hfr0 q d Hn E) in Hq. done.
    + cbn [tcells flat_map fst]. rewrite tcells_reroot. exact Ec.
  - destruct Hres as (t' & Ht & Er & Hf & Ec). exists w, H, h, t'. split_and!; try (done || lia); [|by intros p d _]. eapply evolves_mono; [apply evolves_refl|lia].
Qed.

Lemma insert_table_tree w H u h t lo hi rid payload : holds w H -> usable_size w = u -> is_Some (H !! 1) ->
  tree_ok H u h lo hi t -> NoDup (pages t) -> 1 ∉ tail (pages t) -> lo < rid <= hi -> is_i64 rid -> is_bytes payload -> zlen payload < 2 ^ 64 ->
  (h < 20)%nat -> wp_page_count w + insert_pages u (zlen payload) h < 2 ^ 32 ->
  exists w' H' h' t' cell qs, insert_table w (troot t) rid payload = Ok w' /\ holds w' H' /\ evolves (insert_pages u (zlen payload) h) w w' /\
    (h' <= S h)%nat /\ tree_ok H' u h' lo hi t' /\ troot t' = troot t /\ fresh_pages H (pages t) (pages t') /\
    tcells t' = ins (rid, cell) (tcells t) /\ row_at H' u (rid, cell) payload qs /\ NoDup qs /\
    (forall p, p ∈ qs -> H !! p = None /\ p ∉ pages t') /\ frame H H' (pages t).
Proof.
  intros Hh Eu H1s Ht Hnd H1t Hr Hi64 Hb Hlen Hh20 Hpc. unfold insert_pages in Hpc. destruct (holds_geom w H Hh) as (Hu & _). rewrite Eu in *.
  destruct (build_leaf_cell_spec w H rid payload Hh Hb Hi64 Hlen) as (cell & w1 & H1 & qs & Eb & Hh1 & Hev1 & Hrow & Hndq & Hq & Hag); [rewrite Eu; lia|].
  rewrite Eu in *. pose proof Hev1 as (Eu1 & _ & Hc1). rewrite Forall_forall in Hq.
  assert (forall p d, H !! p = Some d -> H1 !! p = Some d) as Hgrow.
  { intros p d Hd. rewrite Hag; [done|]. intros Hin. rewrite Hq in Hd; done. }
  assert (forall p, p ∈ qs -> is_Some (H1 !! p)) as Hown by (apply Forall_forall; destruct Hrow as (? & ? & _ & _ & Hch); by eapply chain_pages_owned).
  assert (forall p, H1 !! p = None -> H !! p = None) as Hback.
  { intros p Hp. destruct (H !! p) as [d|] eqn:E; [|done]. apply Hgrow in E. congruence. }
  assert (is_Some (H1 !! 1)) as H1s1 by (destruct H1s as [d Hd]; exists d; by apply Hgrow).
  assert (tree_ok H1 u h lo hi t) as Ht1 by (apply (tree_ok_frame H); [done|]; intros p d _; apply Hgrow).
  pose proof (row_at_ok _ _ _ _ _ Hrow) as Hcok. pose proof (tree_ok_owned H u h lo hi t Ht) as Hot. rewrite Forall_forall in Hot.
  destruct (insert_rec_spec u rid cell h Hcok 20 w1 H1 t lo hi) as (up & w2 & H2 & Er & Hh2 & Hev2 & Hfr2 & Hres); try done; [congruence|lia|].
  pose proof Hev2 as (Eu2 & _ & Hc2).
  destruct (root_update w2 H2 H1 u h t lo hi (rid, cell) up) as (w3 & H3 & h' & t' & E3 & Hh3 & Hev3 & Hle & Ht3 & Ert & [Hnd3 Hf3] & Ec3 & Hfr3); try done; [congruence|lia|].
  assert (frame H1 H3 (pages t)) as Hfr.
  { apply (frame_trans H1 H2 H3); [done|]. apply (frame_mono _ _ _ _ Hfr3). intros p ->%list_elem_of_singleton. apply troot_page. }
  assert (forall p, p ∈ qs -> p ∉ pages t) as Hqt.
  { intros p Hp Hin. destruct (Hot p Hin). rewrite Hq in *; done. }
  exists w3, H3, h', t', cell, qs. split_and!; try done.
  - unfold insert_table. rewrite Eb. bind_step. rewrite Er. bind_step. exact E3.
  - eapply evolves_mono; [by eapply evolves_trans; [eapply evolves_trans|]|unfold insert_pages; lia].
  - split; [done|]. intros p Hp. destruct (Hf3 p Hp) as [|Hno]; [by left|right; by apply Hback].
  - apply (row_at_frame H1); [done|]. intros p Hp. destruct (Hown p Hp) as [d Hd]. rewrite Hd. apply Hfr; [by apply Hqt|done].
  - intros p Hp. split; [by apply Hq|]. intros Hin. destruct (Hf3 p Hin) as [Hin'|Hno]; [by apply (Hqt p)|].
    destruct (Hown p Hp). congruence.
  - intros p d Hp Hd. apply Hfr; [done|by apply Hgrow].
Qed.

End WriterTable.
