(* ===== verification/WriterSpec.v ===== *)
(** What the table writer promises. Module [WriterScan]: a tree on the page
    heap is a tree of pages in the sense of the cursors, and scanning it returns
    its rows. Module [WriterSpec]: a table is a sorted list of rows, an insertion
    is [ins] on it, a deletion is [del], and the cursors read it back. *)

From stdpp Require Import sorting.
From S2P Require Import Prelude Varint Header Balance Pager BtPage Cursor CursorProps WritePager WritePagerProps Writer WriterPages WriterHeap WriterTree.
From S2P Require Import WriterBalance WriterNode WriterInsert WriterTable.
Import BtPage WritePager WritePagerProps Writer WriterPages WriterHeap WriterTree WriterBalance WriterNode WriterInsert WriterTable.
Local Open Scope Z_scope.

Module WriterScan.

(** The cell [x.2] of the page [x.1] is [c]. *)
Definition raw_at (x : BtreePage * Z) (c : LeafCell) : Prop :=
  page_type x.1 = LeafTable /\ zlen (bt_data x.1) <= 65536 /\
    exists off, cell_offset x.1 x.2 = Ok off /\ 0 <= off /\ off + zlen c.2 <= zlen (bt_data x.1) /\
    sub (bt_data x.1) off (off + zlen c.2) = c.2.

Definition holds_cells (w : WritePager) (t : btree) (ct : CursorProps.tree) : Prop :=
  CursorProps.tree_at (wp_source w) (troot t) ct /\
  Forall2 raw_at (CursorProps.all_cells (CursorProps.leaves ct)) (tcells t).

Section reading.
Context (w : WritePager) (H : gmap Z bytes) (u : Z).
Hypothesis Hh : holds w H.
Hypothesis Eu : usable_size w = u.

Lemma read_leaf n d cells : H !! n = Some d -> leaf_image u n d cells ->
  exists bt, Cursor.read_page (wp_source w) n = Ok bt /\ page_type bt = LeafTable /\ Forall2 raw_at (CursorProps.cells_from bt 0) cells.
Proof using Hh Eu.
  intros Hd (bt & Ep & Et & Er). destruct (holds_page w H n d Hh Hd) as (_ & Hdl & Hb & _). destruct (holds_geom w H Hh) as (Hu & Hups & Hps & _).
  pose proof (safe_Ok _ _ _ (parse_wf (Pager.mkPage n d) Hb) Ep) as [Hw Epg].
  exists bt. split_and!; [|done|].
  - unfold Cursor.read_page, wp_source. cbn [Pager.src_page]. rewrite (wp_page_Ok w H n d Hh Hd). by bind_step.
  - unfold read_leaf_cells in Er. apply leaf_cells_from_spec in Er as [Hl Hj]. unfold CursorProps.cells_from. rewrite Z.sub_0_r.
    apply Forall2_fmap_l, Forall2_same_length_lookup_2; [by rewrite length_seqZ|].
    intros j x c Hx Hc. apply lookup_seqZ in Hx as [-> _]. destruct (Hj j c Hc) as (cell & H1 & H2 & H3).
    destruct (leaf_cell_inv bt (0 + Z.of_nat j) u cell c.2 Hw ltac:(lia) ltac:(lia) H1 H3) as (off & _ & _ & _ & _ & Eo & Ho & Hz & Hs & _).
    split; [done|]. split; [cbn [fst]; unfold bt_data; rewrite Epg; cbn [Pager.data]; lia|]. by exists off.
Qed.

Lemma all_cells_concat (L : list CursorProps.tree) : CursorProps.all_cells (flat_map CursorProps.leaves L) =
  flat_map (fun t => CursorProps.all_cells (CursorProps.leaves t)) L.
Proof. induction L as [|t L IH]; [done|]. cbn [flat_map]. unfold CursorProps.all_cells in *. by rewrite flat_map_app, IH. Qed.

Lemma node_children n d kids cts : H !! n = Some d -> kids <> [] ->
  node_image n d (zip (froots kids) (fdivs kids)) (default 0 (last (froots kids))) ->
  Forall2 (fun k ct => CursorProps.tree_at (wp_source w) (troot k.1) ct) kids cts ->
  exists bt, CursorProps.tree_at (wp_source w) n (CursorProps.Node bt cts).
Proof using Hh.
  intros Hd Hne (bt & Ep & Et & Er & Erp) Hk. pose proof Hh as (l & Hi & _). pose proof (wp_source_ok w l Hi) as Hsrc.
  destruct (holds_page w H n d Hh Hd) as (_ & _ & Hb & _). pose proof (safe_Ok _ _ _ (parse_wf (Pager.mkPage n d) Hb) Ep) as [Hw _].
  unfold read_interior_cells in Er. apply interior_cells_from_spec in Er as [Hl Hj].
  assert (length kids = S (Z.to_nat (num_cells bt))) as Hlk.
  { assert (length kids <> 0%nat) by (by destruct kids). rewrite length_zip, length_froots, length_fdivs in Hl. lia. }
  assert (0 <= num_cells bt) as Hnn by (destruct Hw as (_ & _ & _ & [? _] & _); done).
  pose proof (Forall2_length _ _ _ Hk) as Hlc. exists bt. apply (CursorProps.tree_at_node (wp_source w)). split.
  { unfold Cursor.read_page, wp_source. cbn [Pager.src_page]. rewrite (wp_page_Ok w H n d Hh Hd). by bind_step. }
  unfold CursorProps.node_ok. rewrite Et. split_and!; [done|unfold zlen; lia|done|]. intros j ct Hct.
  destruct (Forall2_lookup_r _ _ _ _ _ Hk Hct) as (k & Hkj & Htk). exists (troot k.1). split; [|done].
  assert (froots kids !! j = Some (troot k.1)) as Hr by (unfold froots; rewrite list_lookup_fmap, Hkj; done).
  apply lookup_lt_Some in Hkj. destruct (decide (j < Z.to_nat (num_cells bt))%nat) as [Hlt|Hge].
  - destruct (lookup_lt_is_Some_2 (fdivs kids) j) as [k' Hk']; [rewrite length_fdivs; lia|].
    destruct (Hj j (troot k.1, k')) as [Hc _]; [|by rewrite Z.add_0_l in Hc].
    apply lookup_zip_Some. done.
  - unfold child_pointer. rewrite Et. cbn [is_leaf]. destruct (Z.leb_spec (num_cells bt) (Z.of_nat j)); [|lia].
    rewrite Erp. rewrite last_lookup, length_froots. replace (Nat.pred (length kids)) with j by lia. by rewrite Hr.
Qed.

Lemma cursor_tree h : forall lo hi t, tree_ok H u h lo hi t -> exists ct, holds_cells w t ct /\
  (CursorProps.height ct <= S h)%nat /\ (length (CursorProps.leaves ct) <= length (pages t))%nat.
Proof using Hh Eu.
  induction h as [|h IH]; intros lo hi [n cells|n kids]; cbn [tree_ok]; try done.
  - intros ((d & Hd & Him) & _). destruct (read_leaf n d cells Hd Him) as (bt & Er & Et & Hc). exists (CursorProps.Leaf bt).
    split_and!; [|done|done]. split; [by split; [|rewrite Et]|]. unfold CursorProps.all_cells. cbn. by rewrite app_nil_r.
  - intros ((d & Hd & Him) & _ & Hne & _ & Hs).
    assert (exists cts, Forall2 (fun k ct => holds_cells w k.1 ct) kids cts /\ Forall (fun ct => (CursorProps.height ct <= S h)%nat) cts /\
      (length (flat_map CursorProps.leaves cts) <= length (fpages kids))%nat) as (cts & Hc & Hhc & Hl).
    { clear -IH Hs. revert lo Hs. induction kids as [|k kids IHk]; intros lo; cbn [seg]; [intros _; by exists []|]. intros (_ & Ht & Hs).
      destruct (IH _ _ _ Ht) as (ct & H1 & H2 & H3). destruct (IHk _ Hs) as (cts & H4 & H5 & H6). exists (ct :: cts).
      split_and!; [by constructor..|]. cbn [flat_map fpages]. rewrite !length_app. unfold fpages in H6. lia. }
    destruct (node_children n d kids cts Hd Hne Him) as (bt & Hbt).
    { eapply Forall2_impl; [exact Hc|]. by intros k ct [? _]. }
    exists (CursorProps.Node bt cts). split_and!.
    + split; [done|]. cbn [CursorProps.leaves tcells]. rewrite all_cells_concat. clear -Hc.
      induction Hc as [|k ct kids cts [_ Hkc] _ IHc]; [constructor|]. cbn [flat_map]. by apply Forall2_app.
    + cbn [CursorProps.height]. apply le_n_S. clear -Hhc. induction Hhc; simpl; lia.
    + cbn [CursorProps.leaves pages]. unfold fpages in Hl. simpl. lia.
Qed.

End reading.

(** ** Rows *)

(** Each cell carries its row; [qs] are the overflow pages of each. *)
Definition rows_at (H : gmap Z bytes) (u : Z) (cells rows : list LeafCell) (qs : list (list Z)) : Prop :=
  Forall3 (fun c r ps => c.1 = r.1 /\ row_at H u c r.2 ps /\ zlen r.2 <= Cursor.ISIZE_MAX) cells rows qs.

(** The cursors read the rows off the cells. *)
Lemma cells_rows w H u cells rows qs xs : holds w H -> usable_size w = u -> rows_at H u cells rows qs -> Forall2 raw_at xs cells ->
  Forall2 (fun x r => CursorProps.cell_row (wp_source w) x = Ok r) xs rows.
Proof.
  intros Hh Eu Hrows. subst u. revert xs. induction Hrows as [|c r ps cells rows qs (Ec & Hr & Hm) _ IH]; intros xs Hc; [apply Forall2_nil_inv_r in Hc as ->; constructor|].
  apply Forall2_cons_inv_r in Hc as (x & xs' & (Ht & Hdl & off & Eo & Ho & Hz & Hs) & Hc & ->). constructor; [|by apply IH].
  destruct (read_row w H x.1 x.2 off c r.2 ps Hh Hr Hm Ht Eo Ho Hz Hs ltac:(lia)) as (cell & E1 & E2 & E3).
  unfold CursorProps.cell_row. change (Pager.src_usable_size (wp_source w)) with (usable_size w). rewrite E1. bind_step. rewrite E3. bind_step.
  destruct r. cbn in *. congruence.
Qed.

Lemma scan_tree w H u h lo hi t rows qs fuel : holds w H -> usable_size w = u -> tree_ok H u h lo hi t -> rows_at H u (tcells t) rows qs ->
  (S h + length (pages t) + length rows < fuel)%nat -> Cursor.scan_rows fuel (wp_source w) (troot t) = Ok rows.
Proof.
  intros Hh Eu Ht Hrows Hf. pose proof Hh as (l & Hi & _). pose proof (wp_source_ok w l Hi) as Hsrc.
  destruct (cursor_tree w H u Hh Eu h lo hi t Ht) as (ct & [Hat Hc] & Hhc & Hl).
  apply (CursorProps.scan_rows_spec (wp_source w) fuel (troot t) ct rows); [done|by eapply cells_rows|lia].
Qed.

End WriterScan.

Import WriterScan.

Module WriterSpec.

(** ** Tables *)

Definition ROW_LO : Z := - 2 ^ 63 - 1.
Definition ROW_HI : Z := 2 ^ 63 - 1.

(** The heap holds the table [rows] under the page [root]: a tree of height
    [h] whose cells carry the rows. [ps] are its pages, the tree's first and
    then the overflow pages, each used once and page one only as the root. *)
Definition table (H : gmap Z bytes) (u : Z) (h : nat) (root : Z) (rows : list (Z * bytes)) (ps : list Z) : Prop :=
  exists t qs, tree_ok H u h ROW_LO ROW_HI t /\ troot t = root /\ rows_at H u (tcells t) rows qs /\
    ps = pages t ++ concat qs /\ NoDup ps /\ 1 ∉ tail ps.

Lemma NoDup_submseteq_2 {A} (l k : list A) : l ⊆+ k -> NoDup k -> NoDup l.
Proof. intros (m & ->)%submseteq_Permutation Hnd. by apply NoDup_app in Hnd as [? _]. Qed.

Lemma rows_at_frame H H' u cells rows qs : rows_at H u cells rows qs -> (forall p, p ∈ concat qs -> H' !! p = H !! p) -> rows_at H' u cells rows qs.
Proof.
  induction 1 as [|c r ps cells rows qs (E & Hr & Hm) _ IH]; intros Hf; [constructor|]. cbn [concat] in Hf. constructor.
  - split_and!; [done| |done]. apply (row_at_frame H); [done|]. intros p Hp. apply Hf, elem_of_app. by left.
  - apply IH. intros p Hp. apply Hf, elem_of_app. by right.
Qed.

Lemma rows_at_owned H u cells rows qs : rows_at H u cells rows qs -> forall p, p ∈ concat qs -> is_Some (H !! p).
Proof.
  induction 1 as [|c r ps cells rows qs (E & (n1 & n2 & _ & _ & Hch) & Hm) _ IH]; cbn [concat]; intros p Hp; [by apply elem_of_nil in Hp|].
  apply elem_of_app in Hp as [Hp|Hp]; [|by apply IH]. apply chain_pages_owned in Hch. rewrite Forall_forall in Hch. by apply Hch.
Qed.

Lemma rows_at_keys H u cells rows qs : rows_at H u cells rows qs -> cells.*1 = rows.*1.
Proof. induction 1 as [|c r ps cells rows qs (E & _) _ IH]; [done|]. cbn. by rewrite E, IH. Qed.

Lemma table_owned H u h root rows ps : table H u h root rows ps -> Forall (fun p => is_Some (H !! p)) ps.
Proof.
  intros (t & qs & Ht & _ & Hr & -> & _). apply Forall_app_2; [by eapply tree_ok_owned|]. apply Forall_forall. by eapply rows_at_owned.
Qed.

(** A table only depends on its own pages. *)
Lemma table_frame H H' u h root rows ps : table H u h root rows ps -> (forall p, p ∈ ps -> H' !! p = H !! p) -> table H' u h root rows ps.
Proof.
  intros (t & qs & Ht & Er & Hr & -> & Hnd & H1) Hf. exists t, qs. split_and!; try done.
  - apply (tree_ok_frame H); [done|]. intros p d Hp Hd. rewrite Hf; [done|]. apply elem_of_app. by left.
  - apply (rows_at_frame H); [done|]. intros p Hp. apply Hf, elem_of_app. by right.
Qed.

Lemma tail_pages_app t (l : list Z) : tail (pages t ++ l) = tail (pages t) ++ l.
Proof. by rewrite pages_cons. Qed.

(** ** Insertion *)

Lemma rows_at_ins H u cells rows qs rid cell payload ps : rows_at H u cells rows qs ->
  row_at H u (rid, cell) payload ps -> zlen payload <= Cursor.ISIZE_MAX ->
  exists qs', rows_at H u (ins (rid, cell) cells) (ins (rid, payload) rows) qs' /\ concat qs' ⊆+ ps ++ concat qs.
Proof.
  intros Hrows Hrow Hm. induction Hrows as [|c r rs cells rows qs (E & Hr & Hrm) Hrest IH]; cbn [ins fst].
  - exists [ps]. split; [by repeat constructor|done].
  - rewrite E. destruct (rid <? r.1); [|destruct (rid =? r.1)].
    + exists (ps :: rs :: qs). split; [by repeat constructor|done].
    + exists (ps :: qs). split; [by repeat constructor|]. cbn [concat]. apply submseteq_app; [done|]. by apply submseteq_inserts_l.
    + destruct IH as (qs' & IH & Hsub). exists (rs :: qs'). split; [by constructor|]. cbn [concat].
      rewrite (Permutation_app_comm ps (rs ++ concat qs)), <- app_assoc. apply submseteq_app; [done|].
      by rewrite (Permutation_app_comm (concat qs) ps).
Qed.

Lemma insert_table_holds w H u h root rows ps rid payload : holds w H -> usable_size w = u -> is_Some (H !! 1) -> table H u h root rows ps ->
  is_i64 rid -> is_bytes payload -> zlen payload <= Cursor.ISIZE_MAX -> (h < 20)%nat -> wp_page_count w + insert_pages u (zlen payload) h < 2 ^ 32 ->
  exists w' H' h' ps', insert_table w root rid payload = Ok w' /\ holds w' H' /\ evolves (insert_pages u (zlen payload) h) w w' /\
    (h' <= S h)%nat /\ table H' u h' root (ins (rid, payload) rows) ps' /\
    (forall p, p ∈ ps' -> p ∈ ps \/ H !! p = None) /\ (forall p d, p ∉ ps -> H !! p = Some d -> H' !! p = Some d).
Proof.
  intros Hh Eu H1s (t & qs & Ht & <- & Hrows & -> & Hnd & H1) Hi64 Hb Hm Hh20 Hpc. apply NoDup_app in Hnd as (Hndt & Hdis & Hndq).
  rewrite tail_pages_app, not_elem_of_app in H1. destruct H1 as [H1t H1q].
  destruct (insert_table_tree w H u h t ROW_LO ROW_HI rid payload) as (w' & H' & h' & t' & cell & rs & Ei & Hh' & Hev & Hle & Ht' & Er & Hfresh & Ec & Hrow & Hndr & Hrs & Hfr);
    try done.
  { unfold is_i64, is_sint, ROW_LO, ROW_HI in *. lia. }
  { unfold Cursor.ISIZE_MAX in Hm. lia. }
  pose proof (rows_at_owned _ _ _ _ _ Hrows) as Hown. destruct Hfresh as [Hndt' Hfp].
  assert (rows_at H' u (tcells t) rows qs) as Hrows'.
  { apply (rows_at_frame H); [done|]. intros p Hp. destruct (Hown p Hp) as [d Hd]. rewrite Hd. apply Hfr; [|done]. intros Hin. by apply (Hdis p). }
  destruct (rows_at_ins H' u _ _ _ rid cell payload rs Hrows' Hrow Hm) as (qs' & Hins & Hsub).
  exists w', H', h', (pages t' ++ concat qs'). split_and!; try done.
  - exists t', qs'. split_and!; try done; [by rewrite Ec| |].
    2:{ rewrite tail_pages_app, not_elem_of_app. split; [by eapply fresh_not_one|]. intros Hq. apply (elem_of_submseteq _ _ _ Hq) in Hsub.
        apply elem_of_app in Hsub as [Hin|Hin]; [|done]. destruct (Hrs 1 Hin) as [Hno _]. rewrite Hno in H1s. by destruct H1s. }
    apply NoDup_app. split_and!; [done| |].
    + intros p Hp Hq. apply (elem_of_submseteq _ _ _ Hq) in Hsub. apply elem_of_app in Hsub as [Hin|Hin]; [by apply (Hrs p Hin)|].
      destruct (Hown p Hin). destruct (Hfp p Hp) as [Hpt|Hno]; [by apply (Hdis p)|congruence].
    + apply (NoDup_submseteq_2 _ (rs ++ concat qs)); [done|]. apply NoDup_app. split_and!; [done| |done]. intros p Hp Hq.
      destruct (Hown p Hq). destruct (Hrs p Hp). congruence.
  - intros p Hp. apply elem_of_app in Hp as [Hp|Hp].
    + destruct (Hfp p Hp); [left; apply elem_of_app; by left|by right].
    + apply (elem_of_submseteq _ _ _ Hp) in Hsub. apply elem_of_app in Hsub as [Hin|Hin]; [right; by apply Hrs|left; apply elem_of_app; by right].
  - intros p d Hp Hd. apply Hfr; [|done]. intros Hin. apply Hp, elem_of_app. by left.
Qed.

Lemma table_scan w H u h root rows ps fuel : holds w H -> usable_size w = u -> table H u h root rows ps ->
  (S h + length ps + length rows < fuel)%nat -> Cursor.scan_rows fuel (wp_source w) root = Ok rows.
Proof.
  intros Hh Eu (t & qs & Ht & <- & Hrows & -> & _) Hf. rewrite length_app in Hf. eapply (scan_tree w H u h _ _ t rows qs); try done. lia.
Qed.

End WriterSpec.
