(* ===== verification/WriterDelete.v ===== *)
(** [delete_table]: the row's cell leaves its leaf and its overflow chain goes
    to the free list; the tree keeps its pages and separators. *)

From stdpp Require Import sorting.
From S2P Require Import Prelude Varint Header Balance Pager BtPage Cursor CursorProps WritePager WritePagerProps Writer WriterPages WriterHeap WriterTree WriterBalance WriterNode WriterInsert WriterTable WriterSpec.
Import BtPage WritePager WritePagerProps Writer WriterPages WriterHeap WriterTree WriterBalance WriterNode WriterInsert WriterTable WriterScan WriterSpec.
Local Open Scope Z_scope.

Module WriterDelete.

(** The specification: the rows but the one with the rowid. *)
Definition del (rid : Z) (rows : list (Z * bytes)) : list (Z * bytes) := filter (fun r => r.1 <> rid) rows.

Lemma del_app rid a b : del rid (a ++ b) = del rid a ++ del rid b.
Proof. apply filter_app. Qed.

Lemma del_none rid l : rid ∉ l.*1 -> del rid l = l.
Proof.
  induction l as [|x l IH]; [done|]. cbn [fmap list_fmap]. intros [Hn Hl]%not_elem_of_cons. unfold del in *. rewrite filter_cons_True by done. by rewrite IH.
Qed.

Lemma del_mid rid a x b : x.1 = rid -> rid ∉ a.*1 -> rid ∉ b.*1 -> del rid (a ++ x :: b) = a ++ b.
Proof.
  intros E Ha Hb. rewrite del_app, (del_none rid a Ha). f_equal. unfold del. rewrite filter_cons_False by (intros Hn; by apply Hn). by apply del_none.
Qed.

Lemma below_notin r l : below r l -> r ∉ l.*1.
Proof. intros Hb (c & -> & Hc)%list_elem_of_fmap. unfold below in Hb. rewrite Forall_forall in Hb. specialize (Hb c Hc). simpl in Hb. lia. Qed.

Lemma above_notin r l : above r l -> r ∉ l.*1.
Proof. intros Hb (c & -> & Hc)%list_elem_of_fmap. unfold above in Hb. rewrite Forall_forall in Hb. specialize (Hb c Hc). simpl in Hb. lia. Qed.

Lemma find_overflow_spec bt u rid : forall n i pos cell, (pos < n)%nat -> table_leaf_cell bt (i + Z.of_nat pos) u = Ok cell -> rowid cell = rid ->
  (forall j, (j < pos)%nat -> exists c, table_leaf_cell bt (i + Z.of_nat j) u = Ok c /\ rowid c <> rid) ->
  find_overflow n bt u rid i = Ok (overflow (tl_payload cell)).
Proof.
  induction n as [|n IH]; intros i pos cell Hp Ec Er Hj; [lia|]. cbn [find_overflow]. destruct pos as [|pos].
  - rewrite Z.add_0_r in Ec. rewrite Ec. bind_step. by rewrite Er, Z.eqb_refl.
  - destruct (Hj 0%nat ltac:(lia)) as (c & E0 & Hne). rewrite Z.add_0_r in E0. rewrite E0. bind_step.
    destruct (Z.eqb_spec (rowid c) rid); [done|]. apply (IH (i + 1) pos); [lia| |done|].
    + rewrite <- Ec. f_equal. lia.
    + intros j Hlt. destruct (Hj (S j) ltac:(lia)) as (c' & E' & Hc'). exists c'. split; [|done]. rewrite <- E'. f_equal. lia.
Qed.

(** The chain a deletion frees is the row's. *)
Lemma leaf_overflow H u n d bt cells pos c payload ps : is_bytes d -> BtPage.parse (Pager.mkPage n d) = Ok bt -> page_type bt = LeafTable ->
  read_leaf_cells bt u = Ok cells -> usable_ok u -> zlen d < 2 ^ 32 -> cells !! pos = Some c -> (forall j y, cells !! j = Some y -> (j < pos)%nat -> y.1 <> c.1) ->
  row_at H u c payload ps -> find_overflow (Z.to_nat (num_cells bt)) bt u c.1 0 = Ok (raw_overflow u (zlen payload) c.2).
Proof.
  intros Hb Ep Et Er Hu Hz Hpos Hfirst (n1 & n2 & Hparts & _). pose proof (safe_Ok _ _ _ (parse_wf (Pager.mkPage n d) Hb) Ep) as [Hwf Epg].
  assert (zlen (bt_data bt) < 2 ^ 32) as Hdl by (unfold bt_data; by rewrite Epg).
  unfold read_leaf_cells in Er. apply leaf_cells_from_spec in Er as [Hlc Hcj]. destruct (Hcj pos c Hpos) as (cell & E1 & E2 & E3).
  destruct (leaf_cell_inv bt (0 + Z.of_nat pos) u cell c.2 Hwf ltac:(lia) Hu E1 E3) as (off & _ & _ & _ & _ & Eo & Ho & Hoz & Hos & _).
  destruct (leaf_cell_at bt (0 + Z.of_nat pos) u off c.2 _ _ _ _ Et Eo Ho Hoz Hos Hu Hdl Hparts) as [Ecell _].
  apply lookup_lt_Some in Hpos. apply (find_overflow_spec bt u c.1 (Z.to_nat (num_cells bt)) 0 pos) in Ecell; [exact Ecell|lia|done|].
  intros j Hj. destruct (lookup_lt_is_Some_2 cells j) as [c' Hc']; [lia|].
  destruct (Hcj j c' Hc') as (cell' & F1 & F2 & _). exists cell'. split; [done|]. rewrite F2. by apply (Hfirst j c').
Qed.

(** Rewriting a leaf page, the database header kept when it is page one. *)
Lemma rewrite_leaf w H u n d bt cells lo hi : holds w H -> usable_size w = u -> H !! n = Some d -> BtPage.parse (Pager.mkPage n d) = Ok bt ->
  Forall (cell_ok u) cells -> leaf_fits cells (body_of n) u = true -> StronglySorted cell_lt cells -> within lo hi cells ->
  exists prefix buf w', page_one_prefix n bt = Ok prefix /\ serialize_leaf (full_page_size w) u (body_of n) cells prefix = Ok buf /\
    write_page w n buf = Ok w' /\ evolves 0 w w' /\ holds w' (<[n := buf]> H) /\ tree_ok (<[n := buf]> H) u 0 lo hi (BLeaf n cells).
Proof.
  intros Hh Eu Hd Ep Hok Hfit Hs Hw. destruct (holds_geom w H Hh) as (Hu & Hups & Hps & Hfull & _). rewrite Eu in *.
  destruct (holds_page w H n d Hh Hd) as (_ & Hz & Hb & _).
  destruct (page_one_prefix_spec n d bt Ep Hb ltac:(lia)) as (prefix & Epre & Hpre & _).
  destruct (serialize_leaf_image u (wp_page_size w) n prefix cells) as (d' & Es & Hz' & Hb' & Him & _); try done.
  destruct (heap_write w H n d' Hh (ex_intro _ d Hd) Hz' Hb') as (w' & Ew & Hh' & Hev).
  exists prefix, d', w'. rewrite Hfull. split_and!; try done. cbn [tree_ok]. split_and!; try done. exists d'. by rewrite lookup_insert_eq.
Qed.

(** What a deletion from the tree [t] of rows [rows] leaves. *)
Definition deleted (H : gmap Z bytes) (u : Z) (h : nat) (lo hi : Z) (t : btree) (rows : list (Z * bytes)) (qs : list (list Z)) (rid : Z)
    (w : WritePager) (r : res (bool * WritePager)) : Prop :=
  exists w' H' t' qs', r = Ok (bool_decide (rid ∈ rows.*1), w') /\ holds w' H' /\ evolves 0 w w' /\
    tree_ok H' u h lo hi t' /\ pages t' = pages t /\ troot t' = troot t /\ rows_at H' u (tcells t') (del rid rows) qs' /\
    concat qs' ⊆+ concat qs /\ (forall p, p ∉ pages t ++ concat qs -> H' !! p = H !! p).

Lemma total_app l k : total (l ++ k) = total l + total k.
Proof. induction l as [|x l IH]; [done|]. change (total ((x :: l) ++ k)) with (zlen x + total (l ++ k)). change (total (x :: l)) with (zlen x + total l). lia. Qed.

Lemma sublist_sorted (l a b : list LeafCell) c : l = a ++ c :: b -> StronglySorted cell_lt l -> StronglySorted cell_lt (a ++ b).
Proof.
  intros -> Hs. induction a as [|x a IH]; cbn [app] in *; [by apply StronglySorted_inv in Hs as [? _]|]. apply StronglySorted_inv in Hs as [Hs Hx].
  constructor; [by apply IH|]. apply Forall_app in Hx as [Ha Hb]. apply Forall_cons in Hb as [_ Hb]. by apply Forall_app_2.
Qed.

Lemma delete_leaf w H u fuel n cells lo hi rows qs rid : holds w H -> usable_size w = u -> tree_ok H u 0 lo hi (BLeaf n cells) ->
  NoDup (n :: concat qs) -> rows_at H u cells rows qs -> (length (concat qs) <= fuel)%nat ->
  deleted H u 0 lo hi (BLeaf n cells) rows qs rid w (delete_table (S fuel) w n rid).
Proof.
  intros Hh Eu Ht Hnd Hrows Hf. pose proof Ht as ((d & Hd & Him) & Hfit & Hs & Hw). destruct (holds_geom w H Hh) as (Hu & Hups & Hps & _). rewrite Eu in Hu, Hups.
  destruct (holds_page w H n d Hh Hd) as (_ & Hz & Hb & _). pose proof (proj1 (leaf_image_ok u n d cells Hb ltac:(lia) Him)) as Hok.
  destruct Him as (bt & Ep & Et & Er). cbn [delete_table]. rewrite (wp_page_Ok w H n d Hh Hd). bind_step. rewrite Ep. bind_step.
  rewrite Et, Eu, Er. bind_step. change (Pager.body_offset (Pager.mkPage n d)) with (body_of n). pose proof (rows_at_keys _ _ _ _ _ Hrows) as Ekeys.
  unfold position. destruct (list_find (fun c : LeafCell => c.1 = rid) cells) as [[pos c]|] eqn:Ef; cbn [fmap option_fmap option_map fst].
  2:{ apply list_find_None in Ef. assert (rid ∉ rows.*1) as Hno.
      { rewrite <- Ekeys. intros (c & -> & Hc)%list_elem_of_fmap. rewrite Forall_forall in Ef. by apply (Ef c Hc). }
      exists w, H, (BLeaf n cells), qs. rewrite bool_decide_false, del_none by done. split_and!; try done. apply evolves_refl. }
  apply list_find_Some in Ef as (Hpos & <- & Hfirst). destruct (sorted_below cells pos c Hs Hpos) as [Hbel Habv].
  pose proof (take_drop_middle cells pos c Hpos) as Ecells. set (L := take pos cells) in *. set (R := drop (S pos) cells) in *.
  assert (length L = pos) as HlL by (apply lookup_lt_Some in Hpos; unfold L; rewrite length_take; lia).
  rewrite <- Ecells in Hrows. apply Forall3_app_inv_l in Hrows as (ra & rb' & qa & qb' & -> & -> & Ha & Hb').
  apply Forall3_cons_inv_l in Hb' as (r & rb & q & qb & -> & -> & (Ecr & Hrow & Hm) & Hbr).
  apply rows_at_keys in Ha as Eka. apply rows_at_keys in Hbr as Ekb.
  rewrite concat_app in Hnd, Hf. cbn [concat] in Hnd, Hf. rewrite !length_app in Hf. apply NoDup_cons in Hnd as [Hn Hnd].
  rewrite !not_elem_of_app in Hn. destruct Hn as (Hna & Hnq & Hnb). apply NoDup_app in Hnd as (_ & Hdis & Hnd). apply NoDup_app in Hnd as (Hndq & Hdisq & _).
  rewrite (leaf_overflow H u n d bt cells pos c r.2 q Hb Ep Et Er) by (done || lia). pose proof Hrow as (n1 & n2 & _ & _ & Hch).
  bind_step.
  rewrite <- Ecells in Hok, Hfit, Hw. apply Forall_app in Hok as [Hok1 Hok2]. apply Forall_cons in Hok2 as [_ Hok2].
  apply Forall_app in Hw as [Hw1 Hw2]. apply Forall_cons in Hw2 as [_ Hw2].
  destruct (rewrite_leaf w H u n d bt (L ++ R) lo hi) as (prefix & buf & w1 & Epre & Es & Ew & Hev & Hh1 & Ht1); try done.
  { by apply Forall_app_2. }
  { apply leaf_fits_total in Hfit. apply leaf_fits_total. unfold raws in *. rewrite !fmap_app in *. cbn [fmap list_fmap] in Hfit.
    rewrite !total_app, !zlen_app in *. rewrite zlen_cons in Hfit. change (total (c.2 :: R.*2)) with (zlen c.2 + total R.*2) in Hfit. pose proof (zlen_nonneg c.2). lia. }
  { by apply (sublist_sorted cells L R c). }
  { by apply Forall_app_2. }
  rewrite Epre. bind_step. rewrite Es. bind_step. rewrite Ew. bind_step.
  destruct (free_chain_spec H u _ _ q Hch w1 (<[n := buf]> H) fuel Hh1 Hndq) as (w2 & H2 & Efc & Hh2 & Hev2 & Hgone & Hsame).
  { intros p Hp. rewrite lookup_insert_ne; [done|]. intros ->. done. } { lia. }
  rewrite Efc. bind_step. exists w2, H2, (BLeaf n (L ++ R)), (qa ++ qb).
  assert (forall p, p ∈ concat qa \/ p ∈ concat qb -> H2 !! p = H !! p) as Hkeep.
  { intros p Hp. rewrite Hsame, lookup_insert_ne; [done| |].
    - intros ->. by destruct Hp.
    - intros Hq. destruct Hp as [Hp|Hp]; [apply (Hdis p Hp), elem_of_app; by left|by apply (Hdisq p Hq)]. }
  split_and!; try done.
  - do 2 f_equal. symmetry. apply bool_decide_true. rewrite <- Ekeys, <- Ecells, fmap_app. apply elem_of_app. right. by left.
  - eapply evolves_mono; [by eapply evolves_trans|lia].
  - apply (tree_ok_frame (<[n := buf]> H)); [done|]. intros p e Hp He. cbn [pages] in Hp. apply list_elem_of_singleton in Hp as ->.
    by rewrite Hsame.
  - cbn [tcells]. rewrite del_mid; [|done|rewrite <- Eka; by apply below_notin|rewrite <- Ekb; by apply above_notin].
    apply Forall3_app; [apply (rows_at_frame H); [done|]; intros p Hp; apply Hkeep; by left|].
    apply (rows_at_frame H); [done|]. intros p Hp. apply Hkeep. by right.
  - rewrite !concat_app. cbn [concat]. apply submseteq_app; [done|]. by apply submseteq_inserts_l.
  - intros p Hp. cbn [pages app] in Hp. apply not_elem_of_cons in Hp as [Hpn Hp]. rewrite concat_app in Hp. cbn [concat] in Hp.
    rewrite !not_elem_of_app in Hp. rewrite Hsame by tauto. rewrite lookup_insert_ne; done.
Qed.

(** The child a deletion descends into is the one an insertion would. *)
Lemma delete_child_spec bt rid : forall n i cells, interior_cells_from n bt i = Ok cells ->
  delete_child n bt rid i = Ok (default 0 ((cells.*1 ++ [right_pointer bt]) !! Z.to_nat (find_child cells.*2 rid))) /\ 0 <= find_child cells.*2 rid.
Proof.
  induction n as [|n IH]; intros i cells; cbn [interior_cells_from delete_child]; [by intros [= <-]|].
  intros (c & Ec & (k & Ek & (rest & Er & [= <-])%res_bind_Ok)%res_bind_Ok)%res_bind_Ok. rewrite Ek. bind_step.
  cbn [fmap list_fmap fst snd find_child app]. destruct (rid <=? k); [by rewrite Ec|].
  destruct (IH (i + 1) rest Er) as [-> Hn]. split; [|lia]. by replace (Z.to_nat (1 + find_child rest.*2 rid)) with (S (Z.to_nat (find_child rest.*2 rid))) by lia.
Qed.

Lemma rows_at_mid H u a c b rows qs : rows_at H u (a ++ c ++ b) rows qs -> exists ra rc rb qa qc qb, rows = ra ++ rc ++ rb /\ qs = qa ++ qc ++ qb /\
  rows_at H u a ra qa /\ rows_at H u c rc qc /\ rows_at H u b rb qb.
Proof.
  intros (ra & r & qa & q & -> & -> & Ha & Hr)%Forall3_app_inv_l. apply Forall3_app_inv_l in Hr as (rc & rb & qc & qb & -> & -> & Hc & Hb).
  by exists ra, rc, rb, qa, qc, qb.
Qed.

Lemma delete_node w H u h n kids A k b C lo hi rows qs rid fuel : kids = A ++ (k, b) :: C -> tree_ok H u (S h) lo hi (BNode n kids) ->
  NoDup (pages (BNode n kids) ++ concat qs) -> rows_at H u (fcells A ++ tcells k ++ fcells C) rows qs -> upper lo A < rid <= b ->
  (forall rows qs, rows_at H u (tcells k) rows qs -> NoDup (pages k ++ concat qs) -> (h + length (concat qs) < fuel)%nat ->
    deleted H u h (upper lo A) b k rows qs rid w (delete_table fuel w (troot k) rid)) ->
  (h + length (concat qs) < fuel)%nat ->
  deleted H u (S h) lo hi (BNode n kids) rows qs rid w (delete_table fuel w (troot k) rid).
Proof.
  intros -> ((d & Hd & Him) & Hfit & Hne & Hup & Hseg) Hnd (ra & rk & rc & qa & qk & qc & -> & -> & Ha & Hk & Hc)%rows_at_mid Hr Hdel Hf.
  pose proof (seg_clear H u h lo A k b C rid Hseg Hr) as [Hbelow Habove]. apply below_notin in Hbelow. apply above_notin in Habove.
  rewrite (rows_at_keys _ _ _ _ _ Ha) in Hbelow. rewrite (rows_at_keys _ _ _ _ _ Hc) in Habove.
  assert (pages (BNode n (A ++ (k, b) :: C)) ++ concat (qa ++ qk ++ qc) ≡ₚ
    (pages k ++ concat qk) ++ (n :: fpages A ++ fpages C ++ concat qa ++ concat qc)) as Hperm.
  { cbn [pages]. change (flat_map _ _) with (fpages (A ++ (k, b) :: C)). rewrite !concat_app, fpages_app. cbn [fpages flat_map fst]. solve_Permutation. }
  rewrite Hperm in Hnd. apply NoDup_app in Hnd as (Hndk & Hdis & _).
  destruct (Hdel rk qk Hk Hndk) as (w' & H' & k' & qk' & Er & Hh' & Hev & Hk' & Epg & Ert & Hrows & Hsub & Hsame).
  { rewrite !concat_app, !length_app in Hf. lia. }
  assert (forall p, p ∈ n :: fpages A ++ fpages C ++ concat qa ++ concat qc -> H' !! p = H !! p) as Hkeep.
  { intros p Hp. apply Hsame. intros Hin. by apply (Hdis p). }
  exists w', H', (BNode n (A ++ (k', b) :: C)), (qa ++ qk' ++ qc).
  assert (froots (A ++ (k', b) :: C) = froots (A ++ (k, b) :: C)) as Efr by (unfold froots; rewrite !fmap_app; cbn; by rewrite Ert).
  assert (fdivs (A ++ (k', b) :: C) = fdivs (A ++ (k, b) :: C)) as Efd by (unfold fdivs; by rewrite !fmap_app).
  apply seg_app in Hseg as [HsA [Hle [_ HsC]]]. cbn [fst snd] in *. split_and!; try done.
  - rewrite Er. do 2 f_equal. apply bool_decide_ext. rewrite !fmap_app, !elem_of_app. tauto.
  - cbn [tree_ok]. rewrite Efr, Efd. split_and!; try done.
    + exists d. split; [|done]. rewrite Hkeep by (by left). done.
    + by destruct A.
    + rewrite upper_app, upper_cons in *. exact Hup.
    + apply seg_app. split; [apply (seg_frame H); [done|]; intros p e Hp <-; apply Hkeep; set_solver|]. cbn [seg fst snd].
      split_and!; [done|done|]. apply (seg_frame H); [done|]. intros p e Hp <-. apply Hkeep. set_solver.
  - cbn [pages]. f_equal. rewrite !flat_map_app. cbn [flat_map fst]. by rewrite Epg.
  - cbn [tcells]. rewrite flat_map_app. cbn [flat_map fst]. rewrite !del_app, (del_none rid ra), (del_none rid rc) by done.
    apply Forall3_app; [apply (rows_at_frame H); [done|]; intros p Hp; apply Hkeep; set_solver|]. apply Forall3_app; [done|].
    apply (rows_at_frame H); [done|]. intros p Hp. apply Hkeep. set_solver.
  - rewrite !concat_app. apply submseteq_app; [done|]. by apply submseteq_app.
  - intros p Hp. rewrite Hperm in Hp. apply Hsame. intros Hin. apply Hp, elem_of_app. by left.
Qed.

Lemma delete_tree u rid h : forall fuel w H t lo hi rows qs, holds w H -> usable_size w = u -> tree_ok H u h lo hi t ->
  NoDup (pages t ++ concat qs) -> rows_at H u (tcells t) rows qs -> lo < rid <= hi -> (h + length (concat qs) < fuel)%nat ->
  deleted H u h lo hi t rows qs rid w (delete_table fuel w (troot t) rid).
Proof.
  induction h as [|h IH]; intros fuel w H t lo hi rows qs Hh Eu Ht Hnd Hrows Hr Hf; (destruct fuel as [|fuel]; [lia|]).
  { destruct t as [n cells|]; [|done]. apply delete_leaf; try done. lia. }
  destruct t as [|n kids]; [done|]. pose proof Ht as ((d & Hd & (bt & Ep & Et & Er & Erp)) & _ & Hne & Hup & Hseg).
  cbn [troot delete_table]. rewrite (wp_page_Ok w H n d Hh Hd). bind_step. rewrite Ep. bind_step. rewrite Et.
  destruct (find_child_spec (tree_ok H u h) rid kids Hne lo Hseg ltac:(by rewrite Hup)) as (A & k & b & C & Ekids & Efc & Hrk & Hk).
  destruct (delete_child_spec bt rid _ _ _ Er) as [-> _]. bind_step. destruct (forest_children kids Hne) as [Ech Edv]. rewrite Edv, Erp, Ech, Efc.
  assert (froots kids !! Z.to_nat (zlen A) = Some (troot k)) as ->.
  { rewrite Ekids, froots_app. rewrite lookup_app_r by (unfold zlen; rewrite length_froots; lia).
    rewrite length_froots. unfold zlen. replace (Z.to_nat (Z.of_nat (length A)) - length A)%nat with 0%nat by lia. done. }
  change (default 0 (Some (troot k))) with (troot k).
  apply (delete_node w H u h n kids A k b C); try done.
  - rewrite Ekids in Hrows. cbn [tcells] in Hrows. rewrite flat_map_app in Hrows. exact Hrows.
  - intros rows' qs' Hrows' Hnd' Hf'. by apply IH.
  - lia.
Qed.

End WriterDelete.
