(* ===== verification/TableSpec.v ===== *)
(** The contract of the table writer, end to end: creating, inserting into and
    deleting from a table on the page heap, and reading it back with the
    cursors. *)

From stdpp Require Import sorting.
From S2P Require Import Prelude Varint Header Balance Pager BtPage Cursor CursorProps WritePager WritePagerProps Writer WriterPages WriterHeap WriterTree WriterBalance WriterNode WriterInsert WriterTable WriterSpec WriterDelete.
Import BtPage WritePager WritePagerProps Writer WriterPages WriterHeap WriterTree WriterBalance WriterNode WriterInsert WriterTable WriterScan WriterSpec WriterDelete.
Local Open Scope Z_scope.

Module TableSpec.

(** A heap, with page one in it, and a table on it. *)
Definition stored (w : WritePager) (H : gmap Z bytes) (h : nat) (root : Z) (rows : list (Z * bytes)) (ps : list Z) : Prop :=
  holds w H /\ is_Some (H !! 1) /\ table H (usable_size w) h root rows ps.

(** The pages of a table change, and no other page of the heap. *)
Definition touches (H H' : gmap Z bytes) (ps ps' : list Z) : Prop :=
  (forall p, p ∈ ps' -> p ∈ ps \/ H !! p = None) /\ (forall p d, p ∉ ps -> H !! p = Some d -> H' !! p = Some d).

Lemma stored_one H H' u h root rows ps h' rows' ps' : is_Some (H !! 1) -> touches H H' ps ps' -> table H u h root rows ps ->
  table H' u h' root rows' ps' -> is_Some (H' !! 1).
Proof.
  intros [d Hd] [_ Hfr] (t & qs & _ & Er & _ & -> & _ & H1) Ht'.
  destruct (decide (1 ∈ pages t ++ concat qs)) as [Hin|Hnin]; [|exists d; by apply Hfr].
  rewrite pages_cons, <- app_comm_cons in Hin. rewrite tail_pages_app in H1. apply elem_of_cons in Hin as [E|?]; [|done].
  pose proof (table_owned _ _ _ _ _ _ Ht') as Ho. destruct Ht' as (t' & qs' & _ & Er' & _ & -> & _).
  rewrite Forall_forall in Ho. apply Ho. rewrite E, Er, <- Er'. apply elem_of_app. left. apply troot_page.
Qed.

(** ** Operations *)

Lemma insert_stored w H h root rows ps rid payload : stored w H h root rows ps -> is_i64 rid -> is_bytes payload ->
  zlen payload <= Cursor.ISIZE_MAX -> (h < 20)%nat -> wp_page_count w + insert_pages (usable_size w) (zlen payload) h < 2 ^ 32 ->
  exists w' H' h' ps', insert_table w root rid payload = Ok w' /\ stored w' H' h' root (ins (rid, payload) rows) ps' /\
    touches H H' ps ps' /\ (h' <= S h)%nat /\ evolves (insert_pages (usable_size w) (zlen payload) h) w w'.
Proof.
  intros (Hh & H1 & Ht) Hr Hb Hm Hh20 Hpc.
  destruct (insert_table_holds w H (usable_size w) h root rows ps rid payload) as (w' & H' & h' & ps' & E & Hh' & Hev & Hle & Ht' & Hnew & Hfr); try done.
  pose proof Hev as (Eu & _). exists w', H', h', ps'. split_and!; try done. split_and!; [done|by eapply stored_one|by rewrite Eu].
Qed.

(** Too deep a tree is refused before any page of it changes. *)
Lemma insert_rec_deep w H u rid cell : holds w H -> usable_size w = u -> forall h depth t lo hi, tree_ok H u h lo hi t -> lo < rid <= hi -> (depth <= h)%nat ->
  insert_rec depth w (troot t) rid cell = Err (ECorrupt "b-tree depth limit exceeded").
Proof.
  intros Hh Eu h. induction h as [|h IH]; intros [|depth] t lo hi Ht Hr Hd; [done|lia|done|].
  destruct t as [|n kids]; [done|]. destruct Ht as ((d & Hdn & (bt & Ep & Et & Er & Erp)) & _ & Hne & Hup & Hseg).
  destruct (holds_page w H n d Hh Hdn) as (_ & Hz & Hb & _). destruct (holds_geom w H Hh) as (_ & _ & Hps & _).
  destruct (page_one_prefix_spec n d bt Ep Hb ltac:(lia)) as (prefix & Epre & _).
  destruct (find_child_spec (tree_ok H u h) rid kids Hne lo Hseg ltac:(by rewrite Hup)) as (A & k & b & C & Ek & Efc & Hrk & Hk).
  destruct (forest_children kids Hne) as [Ech Edv]. cbn [insert_rec troot]. rewrite (wp_page_Ok w H n d Hh Hdn). bind_step. rewrite Ep. bind_step.
  rewrite Et, Er. bind_step. rewrite Erp, Ech, Edv, Epre. bind_step. rewrite Efc.
  assert (idx (froots kids) (zlen A) = Ok (troot k)) as ->.
  { rewrite Ek, froots_app, <- (zlen_froots A). unfold zlen. apply idx_lookup. by apply list_lookup_middle. }
  bind_step. rewrite (IH depth k (upper lo A) b) by (done || lia). done.
Qed.

Lemma insert_deep w H h root rows ps rid payload : stored w H h root rows ps -> is_i64 rid -> is_bytes payload -> zlen payload <= Cursor.ISIZE_MAX ->
  (20 <= h)%nat -> wp_page_count w + 3 * row_pages (usable_size w) (zlen payload) < 2 ^ 32 ->
  insert_table w root rid payload = Err (ECorrupt "b-tree depth limit exceeded").
Proof.
  intros (Hh & _ & (t & qs & Ht & <- & _)) Hr Hb Hm H20 Hpc.
  destruct (build_leaf_cell_spec w H rid payload Hh Hb Hr) as (cell & w1 & H1 & rs & Eb & Hh1 & (Eu & _) & _ & _ & Hq & Hag);
    [unfold Cursor.ISIZE_MAX in Hm; lia|done|].
  unfold insert_table. rewrite Eb. bind_step.
  rewrite (insert_rec_deep w1 H1 (usable_size w) rid cell Hh1 Eu h 20 t ROW_LO ROW_HI); [done| |unfold is_i64, is_sint, ROW_LO, ROW_HI in *; lia|done].
  apply (tree_ok_frame H); [done|]. intros p d _ Hd. rewrite Hag; [done|]. rewrite Forall_forall in Hq. intros Hin. rewrite (Hq p Hin) in Hd. done.
Qed.

Lemma delete_stored w H h root rows ps rid fuel : stored w H h root rows ps -> is_i64 rid -> (h + length ps < fuel)%nat ->
  exists w' H' ps', delete_table fuel w root rid = Ok (bool_decide (rid ∈ rows.*1), w') /\ stored w' H' h root (del rid rows) ps' /\
    touches H H' ps ps' /\ evolves 0 w w'.
Proof.
  intros (Hh & H1 & Ht) Hr Hf. pose proof Ht as (t & qs & Ht0 & <- & Hrows & Eps & Hnd & H1t). subst ps. rewrite length_app in Hf.
  destruct (delete_tree (usable_size w) rid h fuel w H t ROW_LO ROW_HI rows qs Hh eq_refl Ht0 Hnd Hrows) as
    (w' & H' & t' & qs' & E & Hh' & Hev & Ht' & Epg & Ert & Hrows' & Hsub & Hsame); [unfold is_i64, is_sint, ROW_LO, ROW_HI in *; lia|lia|].
  assert (touches H H' (pages t ++ concat qs) (pages t' ++ concat qs')) as Htch.
  { split; [|intros p d Hp <-; by apply Hsame]. intros p Hp. left. rewrite Epg in Hp. apply elem_of_app. apply elem_of_app in Hp as [Hp|Hp]; [by left|right].
    by apply (elem_of_submseteq _ _ _ Hp) in Hsub. }
  pose proof Hev as (Eu & _). assert (table H' (usable_size w) h (troot t) (del rid rows) (pages t' ++ concat qs')) as Htab.
  { exists t', qs'. split_and!; try done.
    - rewrite Epg. apply (NoDup_submseteq_2 _ (pages t ++ concat qs)); [|done]. by apply submseteq_app.
    - rewrite tail_pages_app, Epg in *. rewrite not_elem_of_app in *. split; [tauto|]. intros Hq. by apply (elem_of_submseteq _ _ _ Hq) in Hsub as ?%H1t. }
  exists w', H', (pages t' ++ concat qs'). split_and!; try done. split_and!; [done|by eapply stored_one|by rewrite Eu].
Qed.

Lemma create_stored w H : holds w H -> is_Some (H !! 1) -> wp_page_count w + 3 < 2 ^ 32 ->
  exists root w' H', create_table_root w = Ok (root, w') /\ stored w' H' 0 root [] [root] /\ H !! root = None /\
    evolves 3 w w' /\ (forall p d, H !! p = Some d -> H' !! p = Some d).
Proof.
  intros Hh H1s Hpc. destruct (heap_alloc w H Hh Hpc) as (q & w1 & z & Ea & Hq & Hh1 & Hev1 & _). pose proof Hev1 as (Eu & Eps & _).
  assert (q <> 1) as Hq1 by (intros ->; rewrite Hq in H1s; by destruct H1s). destruct (holds_geom w1 _ Hh1) as (Hu & _ & _ & Hfull & _).
  destruct (write_leaf w1 (<[q := z]> H) (usable_size w) q [] ROW_LO ROW_HI) as (buf & w2 & Es & Ew & Hev2 & Hh2 & Ht); try done.
  { by rewrite lookup_insert_eq. } { unfold leaf_fits. cbn. apply Z.leb_le. lia. } { constructor. } { constructor. }
  assert (forall p d, H !! p = Some d -> <[q := buf]> (<[q := z]> H) !! p = Some d) as Hkeep.
  { intros p d Hd. rewrite !lookup_insert_ne; [done|..]; intros ->; congruence. }
  exists q, w2, (<[q := buf]> (<[q := z]> H)). pose proof Hev2 as (Eu2 & _). split_and!; try done.
  - unfold create_table_root. rewrite Ea. bind_step. rewrite Hfull, Eu, Es. bind_step. rewrite Ew. by bind_step.
  - split_and!; [done|destruct H1s as [d Hd]; exists d; by apply Hkeep|]. rewrite Eu2, Eu. exists (BLeaf q []), [].
    split_and!; try done; [constructor|apply NoDup_singleton|apply not_elem_of_nil].
  - eapply evolves_mono; [by eapply evolves_trans|lia].
Qed.

Lemma length_ins r (l : list (Z * bytes)) : (length (ins r l) <= S (length l))%nat.
Proof. pose proof (zlen_ins r l). unfold zlen in *. lia. Qed.

(** Reading a stored table. *)
Lemma scan_stored w H h root rows ps fuel : stored w H h root rows ps -> (S h + length ps + length rows < fuel)%nat ->
  Cursor.scan_rows fuel (wp_source w) root = Ok rows.
Proof. intros (Hh & _ & Ht). by apply (table_scan w H (usable_size w) h root rows ps). Qed.

(** A table has at most as many pages as the file. *)
Lemma stored_pages w H h root rows ps : stored w H h root rows ps -> Z.of_nat (length ps) <= wp_page_count w.
Proof.
  intros (Hh & _ & Ht). pose proof (table_owned _ _ _ _ _ _ Ht) as Ho. destruct Ht as (_ & _ & _ & _ & _ & _ & Hnd & _).
  destruct (holds_geom w H Hh) as (_ & _ & _ & _ & Hpc). assert (length ps <= length (seqZ 1 (wp_page_count w)))%nat as Hl.
  { apply submseteq_length, NoDup_submseteq; [done|]. intros p Hp. rewrite Forall_forall in Ho. destruct (Ho p Hp) as [d Hd].
    destruct Hh as (l & _ & Hin). destruct (Hin p d Hd) as (_ & Hr & _). apply elem_of_seqZ. lia. }
  rewrite length_seqZ in Hl. lia.
Qed.

Lemma touches_other H H' u h root rows ps ps' qs : touches H H' ps ps' -> table H u h root rows qs -> (forall p, p ∈ qs -> p ∉ ps) ->
  table H' u h root rows qs /\ forall p, p ∈ qs -> p ∉ ps'.
Proof.
  intros [Hnew Hfr] Ht Hdis. pose proof (table_owned _ _ _ _ _ _ Ht) as Ho. rewrite Forall_forall in Ho. split.
  - apply (table_frame H); [done|]. intros p Hp. destruct (Ho p Hp) as [d Hd]. rewrite Hd. apply Hfr; [by apply Hdis|done].
  - intros p Hp Hp'. destruct (Ho p Hp) as [d Hd]. destruct (Hnew p Hp') as [Hin|Hno]; [by apply (Hdis p)|congruence].
Qed.

(** ** Sessions *)

(** The states a table goes through: it is created in a database whose page
    one is in use, and rows are inserted and deleted in any order. *)
Inductive session : WritePager -> Z -> list (Z * bytes) -> Prop :=
  | session_create w H root w' :
      holds w H -> is_Some (H !! 1) -> wp_page_count w + 3 < 2 ^ 32 ->
      create_table_root w = Ok (root, w') -> session w' root []
  | session_insert w root rows rid payload w' :
      session w root rows -> is_i64 rid -> is_bytes payload -> zlen payload <= Cursor.ISIZE_MAX ->
      wp_page_count w + insert_pages (usable_size w) (zlen payload) 20 < 2 ^ 32 ->
      insert_table w root rid payload = Ok w' -> session w' root (ins (rid, payload) rows)
  | session_delete w root rows rid fuel b w' :
      session w root rows -> is_i64 rid -> 20 + wp_page_count w < Z.of_nat fuel ->
      delete_table fuel w root rid = Ok (b, w') -> session w' root (del rid rows).

Lemma session_stored w root rows : session w root rows -> exists H h ps, stored w H h root rows ps /\ (h <= 20)%nat.
Proof.
  induction 1 as [w H root w' Hh H1 Hpc Ec|w root rows rid payload w' _ (H & h & ps & Hs & Hle) Hr Hb Hm Hpc Ei|
    w root rows rid fuel b w' _ (H & h & ps & Hs & Hle) Hr Hf Ed].
  - destruct (create_stored w H Hh H1 Hpc) as (root' & w'' & H' & Ec' & Hs & _). rewrite Ec in Ec'. apply Ok_inj in Ec' as [= <- <-].
    exists H', 0%nat, [root]. split; [done|lia].
  - pose proof Hs as (Hh & _). destruct (holds_geom w H Hh) as (Hu & _). unfold insert_pages in Hpc.
    destruct (decide (h < 20)%nat) as [Hlt|Hge].
    + destruct (insert_stored w H h root rows ps rid payload) as (w'' & H' & h' & ps' & Ei' & Hs' & _ & Hle' & _); try done.
      { unfold insert_pages. lia. }
      rewrite Ei in Ei'. apply Ok_inj in Ei' as <-. exists H', h', ps'. split; [done|lia].
    + rewrite (insert_deep w H h root rows ps rid payload) in Ei by (done || lia). done.
  - pose proof (stored_pages _ _ _ _ _ _ Hs) as Hp.
    destruct (delete_stored w H h root rows ps rid fuel Hs Hr) as (w'' & H' & ps' & Ed' & Hs' & _); [lia|].
    rewrite Ed in Ed'. apply Ok_inj in Ed' as [= _ <-]. exists H', h, ps'. done.
Qed.

(** A database of two pages, both in use. *)
Definition demo_heap : gmap Z bytes := {[1 := zrep 512 0; 2 := zrep 512 0]}.

Lemma demo_heap_holds : holds demo_wp demo_heap /\ is_Some (demo_heap !! 1).
Proof.
  destruct demo_wp_holds as (l & Hi & Hp). split; [|by eexists]. exists l. split; [done|].
  destruct (Hp 2 (zrep 512 0) ltac:(done)) as (H2 & _ & E2). unfold demo_heap. intros n d [[<- <-]|[Hn Hd]]%lookup_insert_Some.
  - assert (l = []) as ->.
    { pose proof (inv_count demo_wp l Hi) as Hc. cbn in Hc. destruct l; [done|]. unfold zlen in Hc. simpl in Hc. lia. }
    split_and!; [apply not_elem_of_nil|cbn; lia|cbn; lia|by vm_compute].
  - apply lookup_singleton_Some in Hd as [<- <-]. split_and!; [done|cbn; lia|cbn; lia|done].
Qed.

Lemma demo_created : exists root w H, create_table_root demo_wp = Ok (root, w) /\ stored w H 0 root [] [root] /\ usable_size w = 512 /\ wp_page_count w <= 5.
Proof.
  destruct demo_heap_holds as [Hh H1]. destruct (create_stored demo_wp demo_heap Hh H1 ltac:(cbn; lia)) as (root & w & H & E & Hs & _ & (Eu & _ & Hc & _) & _).
  exists root, w, H. split_and!; try done.
Qed.

Lemma demo_payload : is_bytes (zrep 1000 5).
Proof. apply is_bytes_replicate. by split. Qed.

(** ** The contract *)

(** C2: inserting into a table. On any table the heap stores, of any shape,
    [insert_table] ends without error when the tree is below the depth limit
    and the page numbers suffice. The table then holds the old rows with the
    new one in its place (replacing a row of the same rowid), its tree is at
    most one level deeper, a scan with the cursors returns exactly those rows,
    and no page of the heap outside the table has changed. *)
Theorem insert_table_refines (w : WritePager) (H : gmap Z bytes) (h : nat) (root : Z) (rows : list (Z * bytes)) (ps : list Z) (rid : Z) (payload : bytes)
    (Hs : stored w H h root rows ps) (Hrid : is_i64 rid) (Hb : is_bytes payload) (Hlen : zlen payload <= Cursor.ISIZE_MAX)
    (Hdepth : (h < 20)%nat) (Hroom : wp_page_count w + insert_pages (usable_size w) (zlen payload) h < 2 ^ 32) :
  exists w' H' h' ps', insert_table w root rid payload = Ok w' /\ stored w' H' h' root (ins (rid, payload) rows) ps' /\
    (h' <= S h)%nat /\ touches H H' ps ps' /\
    forall fuel, (S (S h) + length ps' + S (length rows) < fuel)%nat -> Cursor.scan_rows fuel (wp_source w') root = Ok (ins (rid, payload) rows).
Proof.
  destruct (insert_stored w H h root rows ps rid payload Hs Hrid Hb Hlen Hdepth Hroom) as (w' & H' & h' & ps' & E & Hs' & Ht & Hle & _).
  exists w', H', h', ps'. split_and!; try done. intros fuel Hf. eapply scan_stored; [exact Hs'|]. pose proof (length_ins (rid, payload) rows). lia.
Qed.

Lemma insert_table_refines_witness : exists w root w' H' h' ps', create_table_root demo_wp = Ok (root, w) /\
  insert_table w root 7 (zrep 1000 5) = Ok w' /\ stored w' H' h' root [(7, zrep 1000 5)] ps'.
Proof.
  destruct demo_created as (root & w & H & E & Hs & Eu & Hc).
  destruct (insert_table_refines w H 0 root [] [root] 7 (zrep 1000 5) Hs) as (w' & H' & h' & ps' & E' & Hs' & _).
  - split; done.
  - exact demo_payload.
  - by vm_compute.
  - lia.
  - rewrite Eu. change (insert_pages _ _ _) with 30. lia.
  - by exists w, root, w', H', h', ps'.
Defined.

(** C11: deleting from a table. [delete_table] answers whether the row exists;
    the table then holds the other rows, in a tree of the same height, a scan
    returns them, and no page outside the table has changed. *)
Theorem delete_table_refines (w : WritePager) (H : gmap Z bytes) (h : nat) (root : Z) (rows : list (Z * bytes)) (ps : list Z) (rid : Z) (fuel : nat)
    (Hs : stored w H h root rows ps) (Hrid : is_i64 rid) (Hf : (h + length ps < fuel)%nat) :
  exists w' H' ps', delete_table fuel w root rid = Ok (bool_decide (rid ∈ rows.*1), w') /\ stored w' H' h root (del rid rows) ps' /\
    touches H H' ps ps' /\ wp_page_count w' <= wp_page_count w /\
    forall fuel', (S h + length ps' + length rows < fuel')%nat -> Cursor.scan_rows fuel' (wp_source w') root = Ok (del rid rows).
Proof.
  destruct (delete_stored w H h root rows ps rid fuel Hs Hrid Hf) as (w' & H' & ps' & E & Hs' & Ht & (_ & _ & Hc)).
  exists w', H', ps'. split_and!; try done; [lia|]. intros fuel' Hf'. eapply scan_stored; [exact Hs'|]. pose proof (length_filter (fun r : Z * bytes => r.1 <> rid) rows) as Hl.
  unfold del. lia.
Qed.

Lemma delete_table_refines_witness : exists w root w' w'' H'' h'' ps'' fuel, create_table_root demo_wp = Ok (root, w) /\
  insert_table w root 7 (zrep 1000 5) = Ok w' /\ delete_table fuel w' root 7 = Ok (true, w'') /\ stored w'' H'' h'' root [] ps''.
Proof.
  destruct demo_created as (root & w & H & E & Hs & Eu & Hc).
  destruct (insert_stored w H 0 root [] [root] 7 (zrep 1000 5) Hs) as (w' & H' & h' & ps' & E' & Hs' & _);
    [by split|exact demo_payload|by vm_compute|lia|rewrite Eu; change (insert_pages _ _ _) with 30; lia|].
  destruct (delete_table_refines w' H' h' root [(7, zrep 1000 5)] ps' 7 (S (h' + length ps')) Hs') as (w'' & H'' & ps'' & Ed & Hs'' & _).
  - by split.
  - lia.
  - exists w, root, w', w'', H'', h', ps'', (S (h' + length ps')). done.
Defined.

(** Tables do not interfere. An insertion into one table leaves every
    table on other pages as it was, and still on pages of its own. *)
Theorem insert_isolated (w : WritePager) (H : gmap Z bytes) (h : nat) (root : Z) (rows : list (Z * bytes)) (ps : list Z) (rid : Z) (payload : bytes)
    (h2 : nat) (root2 : Z) (rows2 : list (Z * bytes)) (ps2 : list Z)
    (Hs : stored w H h root rows ps) (Hrid : is_i64 rid) (Hb : is_bytes payload) (Hlen : zlen payload <= Cursor.ISIZE_MAX)
    (Hdepth : (h < 20)%nat) (Hroom : wp_page_count w + insert_pages (usable_size w) (zlen payload) h < 2 ^ 32)
    (Hs2 : stored w H h2 root2 rows2 ps2) (Hdis : forall p, p ∈ ps2 -> p ∉ ps) :
  exists w' H' h' ps', insert_table w root rid payload = Ok w' /\ stored w' H' h' root (ins (rid, payload) rows) ps' /\
    stored w' H' h2 root2 rows2 ps2 /\ forall p, p ∈ ps2 -> p ∉ ps'.
Proof.
  destruct (insert_stored w H h root rows ps rid payload Hs Hrid Hb Hlen Hdepth Hroom) as (w' & H' & h' & ps' & E & Hs' & Ht & _ & (Eu & _)).
  destruct Hs2 as (_ & _ & Ht2). destruct (touches_other _ _ _ _ _ _ _ _ _ Ht Ht2 Hdis) as [Ht2' Hdis'].
  exists w', H', h', ps'. split_and!; try done. pose proof Hs' as (Hh' & H1' & _). split_and!; [done|done|by rewrite Eu].
Qed.

Lemma insert_isolated_witness : exists w root root2 w' H' h' ps', root <> root2 /\ insert_table w root 7 (zrep 1000 5) = Ok w' /\
  stored w' H' h' root [(7, zrep 1000 5)] ps' /\ stored w' H' 0 root2 [] [root2] /\ root2 ∉ ps'.
Proof.
  destruct demo_created as (root2 & w & H & _ & Hs2 & Eu & Hc). pose proof Hs2 as (Hh & H1 & Ht2).
  destruct (create_stored w H Hh H1 ltac:(lia)) as (root & w1 & H' & _ & Hs & Hno & (Eu1 & _ & Hc1) & Hkeep).
  pose proof (table_owned _ _ _ _ _ _ Ht2) as Ho. apply Forall_cons in Ho as [[d Hd] _].
  assert (stored w1 H' 0 root2 [] [root2]) as Hs2'.
  { pose proof Hs as (Hh1 & H11 & _). split_and!; [done|done|]. rewrite Eu1. apply (table_frame H); [done|].
    intros p ->%list_elem_of_singleton. rewrite Hd. by apply Hkeep. }
  destruct (insert_isolated w1 H' 0 root [] [root] 7 (zrep 1000 5) 0 root2 [] [root2] Hs) as (w' & H2 & h' & ps' & E & Hs' & Hs2'' & Hdis).
  - by split.
  - exact demo_payload.
  - by vm_compute.
  - lia.
  - rewrite Eu1, Eu. change (insert_pages _ _ _) with 30. lia.
  - exact Hs2'.
  - intros p ->%list_elem_of_singleton ->%list_elem_of_singleton. congruence.
  - exists w1, root, root2, w', H2, h', ps'. split_and!; try done; [congruence|]. apply Hdis. by left.
Defined.

(** The depth limit. A table whose tree is twenty levels deep refuses
    every insertion with the depth error. *)
Theorem insert_depth_limit (w : WritePager) (H : gmap Z bytes) (h : nat) (root : Z) (rows : list (Z * bytes)) (ps : list Z) (rid : Z) (payload : bytes)
    (Hs : stored w H h root rows ps) (Hrid : is_i64 rid) (Hb : is_bytes payload) (Hlen : zlen payload <= Cursor.ISIZE_MAX)
    (Hdepth : (20 <= h)%nat) (Hroom : wp_page_count w + 3 * row_pages (usable_size w) (zlen payload) < 2 ^ 32) :
  insert_table w root rid payload = Err (ECorrupt "b-tree depth limit exceeded").
Proof. by apply (insert_deep w H h root rows ps). Qed.

(** A table twenty levels deep: a spine of interior pages without cells, from
    page 2 to page 21, above an empty leaf. *)
Definition deep_page (n : Z) : bytes :=
  if n =? 1 then zrep 512 0
  else if n <? 22 then [5; 0; 0; 0; 0; 0; 0; 0; 0; 0; 0; n + 1] ++ zrep 500 0
  else [13] ++ zrep 511 0.
Definition deep_header : Header.DatabaseHeader :=
  Header.mkHeader 512 1 1 0 2 22 0 0 1 4 0 0 Header.Utf8 0 0 0 22 3046001.
Definition deep_wp : WritePager := mkWp (concat (deep_page <$> seqZ 1 22)) deep_header deep_header 512 22 22 ∅ [] false.
Definition deep_heap : gmap Z bytes := list_to_map ((fun n => (n, deep_page n)) <$> seqZ 1 22).
Fixpoint deep_tree (h : nat) (n : Z) : btree :=
  match h with O => BLeaf n [] | S h => BNode n [(deep_tree h (n + 1), ROW_HI)] end.

Lemma is_bytes_check d : forallb (fun x => (0 <=? x) && (x <? 256)) d = true -> is_bytes d.
Proof.
  rewrite forallb_forall. intros Hd. apply Forall_forall. intros x Hx%list_elem_of_In%Hd. apply andb_true_iff in Hx as [H1 H2].
  split; [by apply Z.leb_le|by apply Z.ltb_lt].
Qed.

Lemma deep_holds : holds deep_wp deep_heap.
Proof.
  exists []. split.
  - split; try done.
    + constructor; [split; [simpl; lia|done]|by unfold is_uint; simpl; lia|simpl; lia|].
      by repeat (apply Forall_cons_2 || apply Forall_nil_2).
    + split_and!; [by vm_compute|apply is_bytes_check; by vm_compute|cbn; lia|cbn; lia].
    + intros n Hn. left. cbn in *. lia.
    + constructor.
    + constructor.
  - assert (Forall (fun n => read_page deep_wp n = Ok (deep_page n)) (seqZ 1 22)) as Hr by (repeat (constructor; [vm_compute; reflexivity|]); constructor).
    intros n d (m & [= -> ->] & Hm)%elem_of_list_to_map_2%list_elem_of_fmap. rewrite Forall_forall in Hr.
    split_and!; [apply not_elem_of_nil|apply elem_of_seqZ in Hm; cbn; lia..|by apply Hr].
Qed.

Lemma deep_lookup n : 1 <= n <= 22 -> deep_heap !! n = Some (deep_page n).
Proof.
  intros Hn. apply elem_of_list_to_map_1.
  - rewrite <- list_fmap_compose. replace (fst ∘ (fun n => (n, deep_page n))) with (@id Z) by done. rewrite list_fmap_id. apply NoDup_seqZ.
  - apply list_elem_of_fmap. exists n. split; [done|]. apply elem_of_seqZ. lia.
Qed.

Lemma deep_stored : stored deep_wp deep_heap 20 2 [] (seqZ 2 21).
Proof.
  split_and!; [exact deep_holds|by eexists|]. exists (deep_tree 20 2), [].
  split_and!; [|done|constructor|by vm_compute|apply NoDup_seqZ|by apply (bool_decide_unpack _)].
  assert (forall h n, n + Z.of_nat h = 22 -> 2 <= n -> tree_ok deep_heap 512 h ROW_LO ROW_HI (deep_tree h n)) as Ht; [|by apply Ht].
  assert (Forall (fun n => node_image n (deep_page n) [] (n + 1)) (seqZ 2 20)) as Hnode.
  { assert (Forall (fun n => BtPage.parse (Pager.mkPage n (deep_page n)) = Ok (mkBt (Pager.mkPage n (deep_page n)) InteriorTable 0 0 (n + 1))) (seqZ 2 20)) as Hp.
    { change (seqZ 2 20) with [2; 3; 4; 5; 6; 7; 8; 9; 10; 11; 12; 13; 14; 15; 16; 17; 18; 19; 20; 21]. repeat (apply Forall_cons_2; [vm_compute; reflexivity|]). apply Forall_nil_2. }
    eapply Forall_impl; [exact Hp|]. intros n E. eexists. split; [exact E|done]. }
  rewrite Forall_forall in Hnode. induction h as [|h IH]; intros n Hn Hlo; cbn [deep_tree tree_ok].
  - replace n with 22 by lia. split_and!; [|done|constructor|constructor]. exists (deep_page 22). split; [by apply deep_lookup|].
    exists (mkBt (Pager.mkPage 22 (deep_page 22)) LeafTable 0 0 0). split; [vm_compute; reflexivity|]. by split.
  - split_and!; [| |done|done|cbn [seg fst snd]; split_and!; [done|apply IH; lia|done]].
    + exists (deep_page n). split; [apply deep_lookup; lia|]. assert (troot (deep_tree h (n + 1)) = n + 1) as Er by (by destruct h).
      cbn [froots fdivs fmap list_fmap fst removelast zip_with last default]. change (default 0 (Some ?x)) with x. rewrite Er. apply Hnode, elem_of_seqZ. lia.
    + unfold interior_fits. cbn. apply Z.leb_le. pose proof (body_of_range n). lia.
Qed.

Lemma insert_depth_limit_witness : insert_table deep_wp 2 5 [1; 2; 3] = Err (ECorrupt "b-tree depth limit exceeded").
Proof.
  apply (insert_depth_limit deep_wp deep_heap 20 2 [] (seqZ 2 21) 5 [1; 2; 3]).
  - exact deep_stored.
  - by split.
  - by apply is_bytes_check.
  - by vm_compute.
  - lia.
  - vm_compute. reflexivity.
Defined.

(** C1: whatever a session did. After any sequence of insertions and deletions
    on a table the writer created, scanning it returns exactly the rows that
    the sequence leaves in a sorted list. *)
Theorem session_scan (w : WritePager) (root : Z) (rows : list (Z * bytes)) (fuel : nat)
    (Hs : session w root rows) (Hf : 21 + wp_page_count w + zlen rows < Z.of_nat fuel) :
  Cursor.scan_rows fuel (wp_source w) root = Ok rows.
Proof.
  destruct (session_stored w root rows Hs) as (H & h & ps & Hst & Hle). pose proof (stored_pages _ _ _ _ _ _ Hst).
  apply (scan_stored w H h root rows ps fuel Hst). unfold zlen in Hf. lia.
Qed.

(** A session on the demo database: three rows, one of them deleted. *)
Definition ok_wp (r : res WritePager) : WritePager := match r with Ok w => w | _ => demo_wp end.
Definition demo_w0 : WritePager := ok_wp (let* (_, w) := create_table_root demo_wp in Ok w).
Definition demo_w1 : WritePager := ok_wp (insert_table demo_w0 3 9 (zrep 900 3)).
Definition demo_w2 : WritePager := ok_wp (insert_table demo_w1 3 8 [2]).
Definition demo_w3 : WritePager := ok_wp (insert_table demo_w2 3 (-4) [1]).
Definition demo_w4 : WritePager := ok_wp (let* (_, w) := delete_table 40 demo_w3 3 8 in Ok w).

Lemma demo_session : session demo_w4 3 [(-4, [1]); (9, zrep 900 3)].
Proof.
  destruct demo_heap_holds as [Hh H1].
  change [(-4, [1]); (9, zrep 900 3)] with (del 8 (ins (-4, [1]) (ins (8, [2]) (ins (9, zrep 900 3) [])))).
  eapply (session_delete demo_w3 _ _ 8 40); [|by split|vm_compute; reflexivity|vm_compute; reflexivity].
  apply (session_insert demo_w2); [|by split|by apply Forall_singleton|by vm_compute|vm_compute; reflexivity|vm_compute; reflexivity].
  apply (session_insert demo_w1); [|by split|by apply Forall_singleton|by vm_compute|vm_compute; reflexivity|vm_compute; reflexivity].
  apply (session_insert demo_w0); [|by split|apply is_bytes_replicate; by split|by vm_compute|vm_compute; reflexivity|vm_compute; reflexivity].
  apply (session_create demo_wp demo_heap); [exact Hh|exact H1|vm_compute; reflexivity|vm_compute; reflexivity].
Qed.

Lemma session_scan_witness : Cursor.scan_rows 40 (wp_source demo_w4) 3 = Ok [(-4, [1]); (9, zrep 900 3)].
Proof. apply (session_scan demo_w4 3); [exact demo_session|vm_compute; reflexivity]. Defined.

End TableSpec.
