(* ===== verification/IndexSeek.v ===== *)
(** Lookups in index b-trees ([src/src/btree/index_writer.rs], the first half):
    the order of index records, the equality-prefix seeks and the range scans.

    [index_seek_rowids] and [index_seek_records] differ only in what they push,
    as do the two range scans; the recursion takes that as a parameter. The
    recursion on pages takes fuel, one unit per level of the tree. *)

From stdpp Require Import sorting.
From S2P Require Import Prelude Header Value Record Pager BtPage Cursor.
Import BtPage Value.
Local Open Scope Z_scope.

Module IndexSeek.

(** ** The order of records *)

Section order.
Context (reg : Registry) (colls : list Collation) (descs : list bool).

(** [cmp_values_coll(k, r, colls[i])], reversed when column [i] descends;
    columns beyond the lists are ascending and BINARY. *)
Definition column_cmp (i : nat) (k r : Value) : comparison :=
  let c := default Binary (colls !! i) in
  let o := cmp_values_coll reg k r c in
  if default false (descs !! i) then CompOpp o else o.

(** [for (i, (k, r)) in key.iter().zip(rec.iter()).enumerate()]. *)
Fixpoint prefix_cmp_at (i : nat) (key rec : list Value) : comparison :=
  match key, rec with
  | k :: key, r :: rec =>
      match column_cmp i k r with
      | Eq => prefix_cmp_at (S i) key rec
      | o => o
      end
  | _, _ => Eq
  end.

Definition prefix_cmp (key rec : list Value) : comparison := prefix_cmp_at 0 key rec.

(** The comparison of two whole rows: by columns, then by length. *)
Definition cmp_rows (va vb : list Value) : comparison :=
  match prefix_cmp va vb with
  | Eq => Nat.compare (length va) (length vb)
  | o => o
  end.

Definition cmp_records (a b : bytes) (enc : Header.TextEncoding) : res comparison :=
  let* va := Record.decode_record a enc in
  let* vb := Record.decode_record b enc in
  Ok (cmp_rows va vb).

(** The trailing rowid of an index record. *)
Definition rowid_of (rec : list Value) : Z :=
  match last rec with Some (Integer i) => i | _ => 0 end.

Definition passes_lower (lower : option (list Value * bool)) (rec : list Value) : bool :=
  match lower with
  | None => true
  | Some (lk, inc) => match prefix_cmp lk rec with Gt => false | Eq => inc | Lt => true end
  end.

Definition beyond_upper (upper : option (list Value * bool)) (rec : list Value) : bool :=
  match upper with
  | None => false
  | Some (uk, inc) => match prefix_cmp uk rec with Lt => true | Eq => negb inc | Gt => false end
  end.

(** ** Scans *)

Context (src : Pager.PageSource).

(** The [record] closure: the decoded payload of cell [i]. *)
Definition record (bt : BtreePage) (i : Z) : res (list Value) :=
  let* cell := index_cell bt i (Pager.src_usable_size src) in
  let* full := Cursor.read_payload src (bt_data bt) (ix_payload cell) in
  Record.decode_record full (Header.text_encoding (Pager.src_header src)).

Section collecting.
Context {A : Type} (collect : A -> list Value -> A).
Context (lower upper : option (list Value * bool)).

(** [for i in 0..bt.num_cells()] on a leaf, from cell [i] on. *)
Fixpoint range_leaf (n : nat) (bt : BtreePage) (i : Z) (out : A) : res (bool * A) :=
  match n with
  | O => Ok (true, out)
  | S n =>
      let* rec := record bt i in
      if beyond_upper upper rec then Ok (false, out)
      else range_leaf n bt (i + 1) (if passes_lower lower rec then collect out rec else out)
  end.

Fixpoint range_scan (fuel : nat) (page_no : Z) (out : A) : res (bool * A) :=
  match fuel with
  | O => Panic
  | S fuel =>
      let* page := Pager.src_page src page_no in
      let* bt := BtPage.parse page in
      match page_type bt with
      | LeafIndex => range_leaf (Z.to_nat (num_cells bt)) bt 0 out
      | InteriorIndex =>
          (fix kids (n : nat) (k : Z) (out : A) : res (bool * A) :=
             match n with
             | O => let* c := child_pointer bt (num_cells bt) in range_scan fuel c out
             | S n =>
                 let* c := child_pointer bt k in
                 let* (more, out) := range_scan fuel c out in
                 if negb more then Ok (false, out)
                 else
                   let* rec := record bt k in
                   if beyond_upper upper rec then Ok (false, out)
                   else kids n (k + 1) (if passes_lower lower rec then collect out rec else out)
             end) (Z.to_nat (num_cells bt)) 0 out
      | _ => Err (ECorrupt "index range scan on a non-index b-tree")
      end
  end.

End collecting.

Definition index_range_records (fuel : nat) (r : Z) (lower upper : option (list Value * bool)) : res (list (list Value)) :=
  let* (_, out) := range_scan (fun out rec => out ++ [rec]) lower upper fuel r [] in
  Ok out.

Definition index_range_rowids (fuel : nat) (r : Z) (lower upper : option (list Value * bool)) : res (list Z) :=
  let* (_, out) := range_scan (fun out rec => out ++ [rowid_of rec]) lower upper fuel r [] in
  Ok out.

(** ** Equality seeks *)

Section seeking.
Context {A : Type} (push : list Value -> A) (key : list Value).

Fixpoint seek_leaf (n : nat) (bt : BtreePage) (i : Z) (out : list A) : res (list A) :=
  match n with
  | O => Ok out
  | S n =>
      let* rec := record bt i in
      match prefix_cmp key rec with
      | Gt => seek_leaf n bt (i + 1) out
      | Eq => seek_leaf n bt (i + 1) (out ++ [push rec])
      | Lt => Ok out
      end
  end.

(** [while i < n && prefix_cmp(..) == Greater]; [n] cells are left. *)
Fixpoint skip_less (n : nat) (bt : BtreePage) (i : Z) : res Z :=
  match n with
  | O => Ok i
  | S n =>
      let* rec := record bt i in
      match prefix_cmp key rec with Gt => skip_less n bt (i + 1) | _ => Ok i end
  end.

Fixpoint seek_prefix (fuel : nat) (page_no : Z) (out : list A) : res (list A) :=
  match fuel with
  | O => Panic
  | S fuel =>
      let* page := Pager.src_page src page_no in
      let* bt := BtPage.parse page in
      match page_type bt with
      | LeafIndex => seek_leaf (Z.to_nat (num_cells bt)) bt 0 out
      | InteriorIndex =>
          let* i := skip_less (Z.to_nat (num_cells bt)) bt 0 in
          let* c := child_pointer bt i in
          let* out := seek_prefix fuel c out in
          (fix equal (n : nat) (i : Z) (out : list A) : res (list A) :=
             match n with
             | O => Ok out
             | S n =>
                 let* rec := record bt i in
                 match prefix_cmp key rec with
                 | Eq =>
                     let* rec := record bt i in
                     let* c := child_pointer bt (i + 1) in
                     let* out := seek_prefix fuel c (out ++ [push rec]) in
                     equal n (i + 1) out
                 | _ => Ok out
                 end
             end) (Z.to_nat (num_cells bt - i)) i out
      | _ => Err (ECorrupt "index seek on a non-index b-tree")
      end
  end.

End seeking.

Definition index_seek_rowids (fuel : nat) (r : Z) (key : list Value) : res (list Z) :=
  seek_prefix rowid_of key fuel r [].

(** [seek_prefix_records] repeats [seek_prefix] with the whole record pushed. *)
Definition seek_prefix_records (fuel : nat) (page_no : Z) (key : list Value) (out : list (list Value)) : res (list (list Value)) :=
  seek_prefix id key fuel page_no out.

Definition index_seek_records (fuel : nat) (r : Z) (key : list Value) : res (list (list Value)) :=
  seek_prefix_records fuel r key [].

End order.

End IndexSeek.
