(* ===== verification/IndexSeekProps.v ===== *)
(** Correctness of the index lookups of [IndexSeek]: on a tree of index pages
    whose records are in order, a range scan returns exactly the records within
    its bounds and a seek exactly the records that match its key, in order. *)

From stdpp Require Import sorting.
From S2P Require Import Prelude Varint Header Value Record Pager BtPage Cursor CursorProps IndexSeek.
Import BtPage Value CursorProps IndexSeek.
Local Open Scope Z_scope.

Module IndexSeekProps.

(** ** The order of values *)

(** What the lookups need of the value comparison under the collations of an
    index, on the values [P] it stores: a total preorder in every column. *)
Class ColumnOrder (reg : Registry) (colls : list Collation) (descs : list bool) (P : Value -> Prop) : Prop := {
  co_antisym i a b : P a -> P b -> column_cmp reg colls descs i b a = CompOpp (column_cmp reg colls descs i a b);
  co_trans i a b c : P a -> P b -> P c -> column_cmp reg colls descs i a b <> Gt -> column_cmp reg colls descs i b c <> Gt ->
    column_cmp reg colls descs i a c <> Gt
}.

(** The values a record can hold and that compare by value. *)
Definition comparable (v : Value) : Prop := wf_value v /\ is_nan v = false.

Definition builtin (c : Collation) : Prop := match c with Custom _ => False | _ => True end.

(** The text a collation compares. *)
Definition fold_text (c : Collation) (t : bytes) : bytes :=
  match c with NoCase => lowercase (as_str t) | RTrim => trim_end_spaces (as_str t) | _ => as_str t end.

Definition fold_value (c : Collation) (v : Value) : Value :=
  match v with Text t => Text (fold_text c t) | _ => v end.

(** Comparing under a built-in collation is comparing the folded values. *)
Lemma cmp_values_coll_fold reg c a b : builtin c -> comparable a -> comparable b ->
  cmp_values_coll reg a b c = key_cmp (fold_value c a) (fold_value c b).
Proof.
  intros Hc [Ha Na] [Hb Nb]. destruct a as [|i|x|x|x], b as [|j|y|y|y]; cbn [cmp_values_coll]; try (rewrite cmp_values_key by done; reflexivity).
  by destruct c.
Qed.

Lemma CompOpp_not_Gt o : CompOpp o <> Gt <-> o <> Lt.
Proof. by destruct o. Qed.

#[export] Instance builtin_order reg colls descs : Forall builtin colls -> ColumnOrder reg colls descs comparable.
Proof.
  intros Hb. assert (forall i, builtin (default Binary (colls !! i))) as Hc.
  { intros i. destruct (colls !! i) eqn:E; [|done]. rewrite Forall_lookup in Hb. by apply (Hb i). }
  split.
  - intros i a b Ha Hb'. unfold column_cmp. rewrite !cmp_values_coll_fold, key_cmp_antisym by (done || apply Hc). by destruct (default false _).
  - intros i a b c Ha Hb' Hc'. unfold column_cmp. rewrite !cmp_values_coll_fold by (done || apply Hc). destruct (default false _); [|apply key_cmp_trans].
    rewrite <- !key_cmp_antisym. intros H1 H2. by eapply key_cmp_trans.
Qed.

Section order.
#[local] Set Default Proof Using "Type*".
Context {reg : Registry} {colls : list Collation} {descs : list bool} {P : Value -> Prop} `{Ho : !ColumnOrder reg colls descs P}.
Local Notation column_cmp := (column_cmp reg colls descs).
Local Notation prefix_cmp_at := (prefix_cmp_at reg colls descs).
Local Notation prefix_cmp := (prefix_cmp reg colls descs).

Lemma column_lt_le i a b c : P a -> P b -> P c -> column_cmp i a b = Lt -> column_cmp i b c <> Gt -> column_cmp i a c = Lt.
Proof.
  intros Ha Hb Hc H1 H2. destruct (column_cmp i a c) eqn:E; [|done|].
  - assert (column_cmp i b a <> Gt) as H3; [|rewrite (co_antisym i a b Ha Hb), H1 in H3; done].
    apply (co_trans i b c a); try done. by rewrite (co_antisym i a c Ha Hc), E.
  - exfalso. apply (co_trans i a b c Ha Hb Hc) in H2; [done|by rewrite H1].
Qed.

Lemma column_eq_le i a b c : P a -> P b -> P c -> column_cmp i a b = Eq -> column_cmp i a c = column_cmp i b c.
Proof.
  intros Ha Hb Hc H1. assert (column_cmp i b a = Eq) as H2 by (rewrite (co_antisym i a b Ha Hb), H1; done).
  assert (column_cmp i a c <> Gt <-> column_cmp i b c <> Gt) as Hg.
  { split; intros Hle; [apply (co_trans i b a c)|apply (co_trans i a b c)]; try done; congruence. }
  assert (column_cmp i c a <> Gt <-> column_cmp i c b <> Gt) as Hl.
  { split; intros Hle; [apply (co_trans i c a b)|apply (co_trans i c b a)]; try done; congruence. }
  rewrite (co_antisym i a c Ha Hc), (co_antisym i b c Hb Hc), !CompOpp_not_Gt in Hl.
  destruct (column_cmp i a c), (column_cmp i b c); tauto || (exfalso; intuition congruence).
Qed.

(** How a key compares with two records in order: [Gt] before [Eq] before [Lt]. *)
Definition falls (o o' : comparison) : Prop := match o with Gt => True | Eq => o' <> Gt | Lt => o' = Lt end.

Lemma prefix_cmp_falls_at i key : forall a b, Forall P key -> Forall P a -> Forall P b -> (length key <= length a)%nat -> (length key <= length b)%nat ->
  prefix_cmp_at i a b <> Gt -> falls (prefix_cmp_at i key a) (prefix_cmp_at i key b).
Proof.
  revert i. induction key as [|k key IH]; intros i a b Hk Ha Hb Hla Hlb Hab; [done|].
  destruct a as [|x a], b as [|y b]; try (simpl in *; lia). cbn [IndexSeek.prefix_cmp_at] in *.
  apply Forall_cons in Hk as [Hk0 Hk], Ha as [Ha0 Ha], Hb as [Hb0 Hb]. destruct (column_cmp i k x) eqn:E1.
  - rewrite (column_eq_le i k x y Hk0 Ha0 Hb0 E1). destruct (column_cmp i x y) eqn:E2; [|by destruct (prefix_cmp_at (S i) key a)|done].
    apply IH; try done; simpl in *; lia.
  - cbn [falls]. assert (column_cmp i x y <> Gt) as E2 by (destruct (column_cmp i x y); done).
    by rewrite (column_lt_le i k x y Hk0 Ha0 Hb0 E1 E2).
  - done.
Qed.

Definition row_le (a b : list Value) : Prop := cmp_rows reg colls descs a b <> Gt.

(** In an ordered index every key meets its records in order. *)
Lemma rows_falls key rows : Forall P key -> Forall (Forall P) rows -> Forall (fun r => (length key <= length r)%nat) rows ->
  StronglySorted row_le rows -> StronglySorted (fun a b => falls (prefix_cmp key a) (prefix_cmp key b)) rows.
Proof.
  intros Hk Hp Hl. induction 1 as [|a rows Hs IH Ha]; [constructor|]. apply Forall_cons in Hp as [Hpa Hp], Hl as [Hla Hl].
  constructor; [by apply IH|]. rewrite Forall_forall in Ha, Hp, Hl |- *. intros b Hb. apply prefix_cmp_falls_at; [done|done|by apply Hp|done|by apply Hl|].
  specialize (Ha b Hb). unfold row_le, cmp_rows in Ha. unfold IndexSeek.prefix_cmp in Ha. by destruct (prefix_cmp_at 0 a b).
Qed.

End order.

#[global] Arguments row_le : clear implicits.

Lemma filter_none {A} (P : A -> Prop) `{forall x, Decision (P x)} (l : list A) : Forall (fun x => ~ P x) l -> filter P l = [].
Proof. induction 1 as [|x l Hx _ IH]; [done|]. by rewrite filter_cons_False. Qed.

(** ** Scans over trees of pages *)

(** Every page of the tree is an index page. *)
Fixpoint index_tree (t : tree) : Prop :=
  match t with
  | Leaf bt => page_type bt = LeafIndex
  | Node bt kids => page_type bt = InteriorIndex /\ fold_right (fun k Q => index_tree k /\ Q) True kids
  end.

Lemma index_tree_kid bt kids k : index_tree (Node bt kids) -> k ∈ kids -> index_tree k.
Proof.
  intros [_ H] Hk. induction kids as [|k' ks IH]; [by apply elem_of_nil in Hk|]. destruct H as [H1 H2].
  apply elem_of_cons in Hk as [->|Hk]; [done|by apply IH].
Qed.

Section tree.
#[local] Set Default Proof Using "All".
Context (reg : Registry) (colls : list Collation) (descs : list bool) (src : Pager.PageSource) `{Hsrc : !Pager.SourceOk src}.
Local Notation record_at := (fun x rec => record src x.1 x.2 = Ok rec).

Lemma entries_from_S bt kids k t : num_cells bt = Z.of_nat (length kids) - 1 -> kids !! k = Some t -> Z.of_nat k < num_cells bt ->
  entries_from bt (Z.of_nat k) (drop k kids) = entries t ++ (bt, Z.of_nat k) :: entries_from bt (Z.of_nat (S k)) (drop (S k) kids).
Proof.
  intros Hn Ht Hk. rewrite (drop_S _ t) by done. cbn [entries_from]. destruct (Z.ltb_spec (Z.of_nat k) (num_cells bt)); [|lia].
  cbn [app]. do 3 f_equal. lia.
Qed.

Lemma entries_from_last bt kids t : num_cells bt = Z.of_nat (length kids) - 1 -> kids !! Z.to_nat (num_cells bt) = Some t ->
  entries_from bt (num_cells bt) (drop (Z.to_nat (num_cells bt)) kids) = entries t.
Proof.
  intros Hn Ht. pose proof (lookup_lt_Some _ _ _ Ht) as Hlt. rewrite (drop_S _ t) by done. cbn [entries_from]. rewrite Z.ltb_irrefl. cbn [app].
  rewrite drop_ge by lia. apply app_nil_r.
Qed.

Section range.
Context {A : Type} (collect : A -> list Value -> A) (lower upper : option (list Value * bool)).
Local Notation passes := (passes_lower reg colls descs lower).
Local Notation beyond := (beyond_upper reg colls descs upper).

(** The specification of a scan, on the list of records. *)
Fixpoint scan_list (rs : list (list Value)) (out : A) : bool * A :=
  match rs with
  | [] => (true, out)
  | r :: rs => if beyond r then (false, out) else scan_list rs (if passes r then collect out r else out)
  end.

Lemma scan_list_app a b out : scan_list (a ++ b) out = let '(more, out) := scan_list a out in if more then scan_list b out else (false, out).
Proof. revert out. induction a as [|r a IH]; intros out; [done|]. cbn [app scan_list]. destruct (beyond r); [done|]. apply IH. Qed.

Lemma range_leaf_spec bt n : forall i out rs, Forall2 record_at ((fun j => (bt, j)) <$> seqZ i (Z.of_nat n)) rs ->
  range_leaf reg colls descs src collect lower upper n bt i out = Ok (scan_list rs out).
Proof.
  induction n as [|n IH]; intros i out rs; [intros ->%Forall2_nil_inv_l; done|].
  rewrite seqZ_cons by lia. intros (r & rs' & Hr & Hrs & ->)%Forall2_cons_inv_l. cbn [range_leaf fst snd] in *. rewrite Hr. bind_step.
  cbn [scan_list]. destruct (beyond r); [done|]. apply IH. by replace (Z.of_nat n) with (Z.pred (Z.of_nat (S n))) by lia.
Qed.

Lemma range_scan_spec t : forall n fuel out rs, tree_at src n t -> index_tree t -> (height t <= fuel)%nat ->
  Forall2 record_at (entries t) rs -> range_scan reg colls descs src collect lower upper fuel n out = Ok (scan_list rs out).
Proof.
  induction t as [bt|bt kids IH] using (tree_ind' src); intros n [|fuel] out rs Ht Hi Hf Hrs; try (simpl in Hf; lia).
  - destruct Ht as [E _]. destruct (read_page_wf src n bt E) as (_ & _ & _ & [H0 _] & _). apply res_bind_Ok in E as (p & E & Ep).
    cbn [range_scan]. rewrite E. bind_step. rewrite Ep. bind_step. cbn in Hi. rewrite Hi.
    cbn [entries] in Hrs. unfold cells_from in Hrs. rewrite Z.sub_0_r in Hrs. apply range_leaf_spec. by rewrite Z2Nat.id.
  - pose proof (proj1 (tree_at_node src n bt kids) Ht) as [E Hn]. pose proof Hn as (_ & Hz & H0 & Hk). apply res_bind_Ok in E as (p & E & Ep).
    assert (num_cells bt = Z.of_nat (length kids) - 1) as Hnk by (unfold zlen in Hz; lia). rewrite Forall_forall in IH.
    cbn [range_scan]. rewrite E. bind_step. rewrite Ep. bind_step. rewrite (proj1 Hi).
    change (entries (Node bt kids)) with (entries_from bt (Z.of_nat 0) (drop 0 kids)) in Hrs.
    assert (exists k, (Z.to_nat (num_cells bt) + k = Z.to_nat (num_cells bt))%nat /\ k = 0%nat) as (k & Hm & Ek) by (exists 0%nat; lia).
    replace 0%nat with k in Hrs by done. replace 0 with (Z.of_nat k) by lia. clear Ek. revert Hm Hrs. generalize (Z.to_nat (num_cells bt)) at 1 3 as m.
    intros m. revert k out rs. induction m as [|m IHm]; intros k out rs Hm Hrs.
    + destruct (lookup_lt_is_Some_2 kids (Z.to_nat (num_cells bt))) as [t Et]; [lia|]. destruct (Hk _ _ Et) as (c & Ec & Hc). rewrite Z2Nat.id in Ec by lia.
      rewrite Ec. bind_step. pose proof (list_elem_of_lookup_2 _ _ _ Et) as Hin. pose proof (height_kid src bt kids t Hin).
      apply (IH t Hin); [done|by eapply index_tree_kid|lia|]. replace k with (Z.to_nat (num_cells bt)) in Hrs by lia. rewrite Z2Nat.id in Hrs by lia.
      by rewrite (entries_from_last bt kids t) in Hrs.
    + destruct (lookup_lt_is_Some_2 kids k) as [t Et]; [lia|]. destruct (Hk _ _ Et) as (c & Ec & Hc). rewrite Ec. bind_step.
      pose proof (list_elem_of_lookup_2 _ _ _ Et) as Hin. pose proof (height_kid src bt kids t Hin). rewrite (entries_from_S bt kids k t) in Hrs by (done || lia).
      apply Forall2_app_inv_l in Hrs as (r1 & r2 & Hr1 & Hr2 & ->). apply Forall2_cons_inv_l in Hr2 as (r & r3 & Hr & Hr3 & ->).
      rewrite (IH t Hin c fuel out r1 Hc) by (done || lia || by eapply index_tree_kid). bind_step. rewrite scan_list_app. destruct (scan_list r1 out) as [[] out']; [|done].
      cbn [negb fst snd] in *. rewrite Hr. bind_step. cbn [scan_list]. destruct (beyond r); [done|].
      replace (Z.of_nat k + 1) with (Z.of_nat (S k)) by lia. apply IHm; [lia|done].
Qed.

End range.

(** A scan that appends, over records the upper bound cuts once. *)
Lemma scan_list_filter {B} (push : list Value -> B) lower upper rs : forall out,
  StronglySorted (fun a b => beyond_upper reg colls descs upper a = true -> beyond_upper reg colls descs upper b = true) rs ->
  (scan_list (fun out r => out ++ [push r]) lower upper rs out).2 =
    out ++ (push <$> filter (fun r => passes_lower reg colls descs lower r = true /\ beyond_upper reg colls descs upper r = false) rs).
Proof.
  induction rs as [|r rs IH]; intros out Hs; [by rewrite app_nil_r|]. apply StronglySorted_inv in Hs as [Hs Hr]. cbn [scan_list].
  destruct (beyond_upper reg colls descs upper r) eqn:Eb.
  - rewrite filter_cons_False by (intros [??]; congruence). replace (filter _ rs) with (@nil (list Value)); [by rewrite app_nil_r|].
    symmetry. apply filter_none. eapply Forall_impl; [exact Hr|]. intros x Hx [_ Hno]. rewrite Hx in Hno; done.
  - rewrite IH by done. destruct (passes_lower reg colls descs lower r) eqn:Ep.
    + rewrite filter_cons_True by done. cbn [fmap list_fmap]. by rewrite <- app_assoc.
    + by rewrite filter_cons_False by (intros [??]; congruence).
Qed.

Section seek.
Context {A : Type} (push : list Value -> A) (key : list Value).
Local Notation cmp := (prefix_cmp reg colls descs key).
Local Notation matching := (filter (fun r => cmp r = Eq)).
Local Notation ordered := (StronglySorted (fun a b => falls (cmp a) (cmp b))).

Lemma matching_nil rs : Forall (fun r => cmp r <> Eq) rs -> matching rs = [].
Proof. apply filter_none. Qed.

(** After a record above the key come only such records. *)
Lemma ordered_lt r rs : ordered (r :: rs) -> cmp r = Lt -> matching (r :: rs) = [].
Proof.
  intros [_ Hr]%StronglySorted_inv E. apply matching_nil. constructor; [by rewrite E|]. eapply Forall_impl; [exact Hr|].
  intros x Hx. rewrite E in Hx. cbn in Hx. by rewrite Hx.
Qed.

(** Before a record below the key come only such records. *)
Lemma ordered_gt a r : ordered (a ++ [r]) -> cmp r = Gt -> matching (a ++ [r]) = [].
Proof.
  intros Hs E. apply matching_nil. apply Forall_app_2; [|by constructor; [rewrite E|]]. induction a as [|x a IH]; [constructor|].
  apply StronglySorted_inv in Hs as [Hs Hx]. constructor; [|by apply IH]. rewrite Forall_forall in Hx. specialize (Hx r). rewrite E in Hx.
  intros Ex. rewrite Ex in Hx. apply Hx; [|done]. apply elem_of_app. right. by left.
Qed.

Lemma seek_leaf_spec bt n : forall i out rs, Forall2 record_at ((fun j => (bt, j)) <$> seqZ i (Z.of_nat n)) rs -> ordered rs ->
  seek_leaf reg colls descs src push key n bt i out = Ok (out ++ (push <$> matching rs)).
Proof.
  induction n as [|n IH]; intros i out rs; [intros ->%Forall2_nil_inv_l _; by rewrite app_nil_r|].
  rewrite seqZ_cons by lia. intros (r & rs' & Hr & Hrs & ->)%Forall2_cons_inv_l Hs. cbn [seek_leaf fst snd] in *. rewrite Hr. bind_step.
  pose proof Hs as [Hs' _]%StronglySorted_inv. replace (Z.pred (Z.of_nat (S n))) with (Z.of_nat n) in Hrs by lia.
  destruct (cmp r) eqn:E.
  - rewrite (IH _ _ rs') by done. rewrite filter_cons_True by done. cbn [fmap list_fmap]. by rewrite <- app_assoc.
  - rewrite ordered_lt by done. by rewrite app_nil_r.
  - rewrite (IH _ _ rs') by done. by rewrite filter_cons_False by (by rewrite E).
Qed.

(** The cells of an interior page from cell [k] on, with the subtrees after
    them. *)
Definition rest_from (bt : BtreePage) (kids : list tree) (k : nat) : list (BtreePage * Z) :=
  if Z.of_nat k <? num_cells bt then (bt, Z.of_nat k) :: entries_from bt (Z.of_nat (S k)) (drop (S k) kids) else [].

Lemma entries_rest bt kids k t : num_cells bt = Z.of_nat (length kids) - 1 -> kids !! k = Some t ->
  entries_from bt (Z.of_nat k) (drop k kids) = entries t ++ rest_from bt kids k.
Proof.
  intros Hn Ht. unfold rest_from. destruct (Z.ltb_spec (Z.of_nat k) (num_cells bt)); [by apply entries_from_S|].
  pose proof (lookup_lt_Some _ _ _ Ht). replace k with (Z.to_nat (num_cells bt)) in * by lia. rewrite Z2Nat.id by lia.
  rewrite (entries_from_last bt kids t) by done. by rewrite app_nil_r.
Qed.

(** Skipping the cells below the key loses no match. *)
Lemma skip_less_spec bt kids : num_cells bt = Z.of_nat (length kids) - 1 -> forall m k rs, Z.of_nat (k + m) = num_cells bt ->
  Forall2 record_at (entries_from bt (Z.of_nat k) (drop k kids)) rs -> ordered rs ->
  exists i t r1 r2, skip_less reg colls descs src key m bt (Z.of_nat k) = Ok (Z.of_nat i) /\ Z.of_nat i <= num_cells bt /\ kids !! i = Some t /\
    Forall2 record_at (entries t) r1 /\ Forall2 record_at (rest_from bt kids i) r2 /\ ordered (r1 ++ r2) /\
    matching rs = matching (r1 ++ r2) /\ (forall r r2', r2 = r :: r2' -> cmp r <> Gt).
Proof.
  intros Hn. induction m as [|m IH]; intros k rs Hk Hrs Hs; (destruct (lookup_lt_is_Some_2 kids k) as [t Et]; [lia|]);
    rewrite (entries_rest bt kids k t Hn Et) in Hrs; apply Forall2_app_inv_l in Hrs as (r1 & r2 & Hr1 & Hr2 & ->); cbn [skip_less].
  - exists k, t, r1, r2. split_and!; try done; [lia|]. intros r r2' ->. unfold rest_from in Hr2. destruct (Z.ltb_spec (Z.of_nat k) (num_cells bt)); [lia|].
    by apply Forall2_nil_inv_l in Hr2.
  - unfold rest_from in Hr2. destruct (Z.ltb_spec (Z.of_nat k) (num_cells bt)) as [Hlt|]; [|lia].
    pose proof Hr2 as (r & r3 & Hr & Hr3 & ->)%Forall2_cons_inv_l. cbn [fst snd] in Hr. rewrite Hr. bind_step.
    destruct (decide (cmp r = Gt)) as [E|E].
    + rewrite E. replace (Z.of_nat k + 1) with (Z.of_nat (S k)) by lia.
      replace (r1 ++ r :: r3) with ((r1 ++ [r]) ++ r3) in * by (by rewrite <- app_assoc).
      destruct (IH (S k) r3 ltac:(lia) Hr3) as (i & t' & q1 & q2 & Ei & Hi & Et' & H1 & H2 & H3 & H4 & H5); [by eapply StronglySorted_app_1_r|].
      exists i, t', q1, q2. split_and!; try done. rewrite filter_app, <- H4. rewrite ordered_gt; [done| |done]. by eapply StronglySorted_app_1_l.
    + exists k, t, r1, (r :: r3). split_and!; try done; [by destruct (cmp r)|lia| |by intros ? ? [= <- _]].
      unfold rest_from. destruct (Z.ltb_spec (Z.of_nat k) (num_cells bt)); [done|lia].
Qed.

Definition equal_loop (fuel : nat) (bt : BtreePage) : nat -> Z -> list A -> res (list A) :=
  fix equal (n : nat) (i : Z) (out : list A) : res (list A) :=
    match n with
    | O => Ok out
    | S n =>
        let* rec := record src bt i in
        match cmp rec with
        | Eq =>
            let* rec := record src bt i in
            let* c := child_pointer bt (i + 1) in
            let* out := seek_prefix reg colls descs src push key fuel c (out ++ [push rec]) in
            equal n (i + 1) out
        | _ => Ok out
        end
    end.

Lemma equal_loop_spec fuel bt kids : num_cells bt = Z.of_nat (length kids) - 1 ->
  (forall j k, kids !! j = Some k -> exists c, child_pointer bt (Z.of_nat j) = Ok c /\
    forall out rs, Forall2 record_at (entries k) rs -> ordered rs ->
      seek_prefix reg colls descs src push key fuel c out = Ok (out ++ (push <$> matching rs))) ->
  forall m i out rs, Z.of_nat (i + m) = num_cells bt -> Forall2 record_at (rest_from bt kids i) rs -> ordered rs ->
    (forall r rs', rs = r :: rs' -> cmp r <> Gt) -> equal_loop fuel bt m (Z.of_nat i) out = Ok (out ++ (push <$> matching rs)).
Proof.
  intros Hn Hk. induction m as [|m IH]; intros i out rs Hm Hrs Hs Hne; unfold rest_from in Hrs; cbn [equal_loop].
  { destruct (Z.ltb_spec (Z.of_nat i) (num_cells bt)); [lia|]. apply Forall2_nil_inv_l in Hrs as ->. by rewrite app_nil_r. }
  destruct (Z.ltb_spec (Z.of_nat i) (num_cells bt)); [|lia]. apply Forall2_cons_inv_l in Hrs as (r & r3 & Hr & Hr3 & ->). cbn [fst snd] in Hr.
  rewrite Hr. bind_step. specialize (Hne r r3 eq_refl). destruct (cmp r) eqn:E; [| |done].
  - bind_step. destruct (lookup_lt_is_Some_2 kids (S i)) as [t Et]; [lia|]. rewrite (entries_rest bt kids (S i) t Hn Et) in Hr3.
    apply Forall2_app_inv_l in Hr3 as (q1 & q2 & Hq1 & Hq2 & ->). destruct (Hk _ _ Et) as (c & Ec & Hc).
    replace (Z.of_nat i + 1) with (Z.of_nat (S i)) by lia. rewrite Ec. bind_step. pose proof Hs as [Hs' Hf]%StronglySorted_inv.
    rewrite (Hc _ q1) by (done || by eapply StronglySorted_app_1_l). bind_step. fold (equal_loop fuel bt).
    rewrite (IH (S i) _ q2); [|lia|done|by eapply StronglySorted_app_1_r|].
    + rewrite filter_cons_True, filter_app by done. cbn [fmap list_fmap]. rewrite fmap_app, <- !app_assoc. done.
    + intros r' q' ->. apply Forall_app in Hf as [_ Hf]. apply Forall_cons in Hf as [Hf _]. rewrite E in Hf. done.
  - rewrite ordered_lt by done. by rewrite app_nil_r.
Qed.

Lemma seek_prefix_spec t : forall n fuel out rs, tree_at src n t -> index_tree t -> (height t <= fuel)%nat ->
  Forall2 record_at (entries t) rs -> ordered rs -> seek_prefix reg colls descs src push key fuel n out = Ok (out ++ (push <$> matching rs)).
Proof.
  induction t as [bt|bt kids IH] using (tree_ind' src); intros n [|fuel] out rs Ht Hi Hf Hrs Hs; try (simpl in Hf; lia).
  - destruct Ht as [E _]. destruct (read_page_wf src n bt E) as (_ & _ & _ & [H0 _] & _). apply res_bind_Ok in E as (p & E & Ep).
    cbn [seek_prefix]. rewrite E. bind_step. rewrite Ep. bind_step. cbn in Hi. rewrite Hi.
    cbn [entries] in Hrs. unfold cells_from in Hrs. rewrite Z.sub_0_r in Hrs. apply seek_leaf_spec; [|done]. by rewrite Z2Nat.id.
  - pose proof (proj1 (tree_at_node src n bt kids) Ht) as [E Hn]. pose proof Hn as (_ & Hz & H0 & Hk). apply res_bind_Ok in E as (p & E & Ep).
    assert (num_cells bt = Z.of_nat (length kids) - 1) as Hnk by (unfold zlen in Hz; lia). rewrite Forall_forall in IH.
    assert (forall j k, kids !! j = Some k -> exists c, child_pointer bt (Z.of_nat j) = Ok c /\ forall out rs, Forall2 record_at (entries k) rs ->
      ordered rs -> seek_prefix reg colls descs src push key fuel c out = Ok (out ++ (push <$> matching rs))) as Hkid.
    { intros j k Hj. destruct (Hk j k Hj) as (c & Ec & Hc). exists c. split; [done|]. pose proof (list_elem_of_lookup_2 _ _ _ Hj) as Hin.
      pose proof (height_kid src bt kids k Hin). intros out' rs' Hr' Hs'. apply (IH k Hin); [done|by eapply index_tree_kid|lia|done|done]. }
    cbn [seek_prefix]. rewrite E. bind_step. rewrite Ep. bind_step. rewrite (proj1 Hi).
    change (entries (Node bt kids)) with (entries_from bt (Z.of_nat 0) (drop 0 kids)) in Hrs.
    destruct (skip_less_spec bt kids Hnk (Z.to_nat (num_cells bt)) 0 rs ltac:(lia) Hrs Hs) as (i & t & r1 & r2 & Ei & Hi' & Et & H1 & H2 & H3 & H4 & H5).
    change 0 with (Z.of_nat 0) at 1. rewrite Ei. bind_step. destruct (Hkid i t Et) as (c & -> & Hc). bind_step.
    rewrite (Hc out r1) by (done || by eapply StronglySorted_app_1_l). bind_step. fold (equal_loop fuel bt).
    rewrite (equal_loop_spec fuel bt kids Hnk Hkid (Z.to_nat (num_cells bt - Z.of_nat i)) i _ r2); [|lia|done|by eapply StronglySorted_app_1_r|done].
    rewrite H4, filter_app, fmap_app. by rewrite app_assoc.
Qed.

End seek.

End tree.

(** Once a record is beyond the upper bound, so are those after it. *)
Lemma beyond_falls reg colls descs uk inc a b : falls (prefix_cmp reg colls descs uk a) (prefix_cmp reg colls descs uk b) ->
  beyond_upper reg colls descs (Some (uk, inc)) a = true -> beyond_upper reg colls descs (Some (uk, inc)) b = true.
Proof.
  cbn [beyond_upper]. unfold falls. destruct (prefix_cmp reg colls descs uk a); [|by intros ->|done].
  destruct (prefix_cmp reg colls descs uk b); done.
Qed.

(** ** Lookups *)

Lemma index_seek_rows (src : Pager.PageSource) `{Hsrc : !Pager.SourceOk src} (reg : Registry) (colls : list Collation) (descs : list bool)
    (r : Z) (t : tree) (rs : list (list Value)) (key : list Value) (fuel : nat)
    (Ht : tree_at src r t) (Hi : index_tree t) (Hrs : Forall2 (fun x rec => record src x.1 x.2 = Ok rec) (entries t) rs)
    (Hcolls : Forall builtin colls) (Hvals : Forall (Forall comparable) rs) (Hkey : Forall comparable key)
    (Hlen : Forall (fun rec => (length key <= length rec)%nat) rs) (Hord : StronglySorted (row_le reg colls descs) rs)
    (Hf : (height t <= fuel)%nat) :
  index_seek_records reg colls descs src fuel r key = Ok (filter (fun rec => prefix_cmp reg colls descs key rec = Eq) rs) /\
  index_seek_rowids reg colls descs src fuel r key = Ok (rowid_of <$> filter (fun rec => prefix_cmp reg colls descs key rec = Eq) rs).
Proof.
  pose proof (builtin_order reg colls descs Hcolls) as Ho.
  pose proof (rows_falls key rs Hkey Hvals Hlen Hord) as Hfalls. unfold index_seek_records, seek_prefix_records, index_seek_rowids. split.
  - rewrite (seek_prefix_spec reg colls descs src id key t r fuel [] rs) by done. by rewrite list_fmap_id.
  - by rewrite (seek_prefix_spec reg colls descs src rowid_of key t r fuel [] rs).
Qed.

Lemma index_range_rows (src : Pager.PageSource) `{Hsrc : !Pager.SourceOk src} (reg : Registry) (colls : list Collation) (descs : list bool)
    (r : Z) (t : tree) (rs : list (list Value)) (lower upper : option (list Value * bool)) (fuel : nat)
    (Ht : tree_at src r t) (Hi : index_tree t) (Hrs : Forall2 (fun x rec => record src x.1 x.2 = Ok rec) (entries t) rs)
    (Hcolls : Forall builtin colls) (Hvals : Forall (Forall comparable) rs)
    (Hupper : forall key inc, upper = Some (key, inc) -> Forall comparable key /\ Forall (fun rec => (length key <= length rec)%nat) rs)
    (Hord : StronglySorted (row_le reg colls descs) rs) (Hf : (height t <= fuel)%nat) :
  let within := filter (fun rec => passes_lower reg colls descs lower rec = true /\ beyond_upper reg colls descs upper rec = false) rs in
  index_range_records reg colls descs src fuel r lower upper = Ok within /\
  index_range_rowids reg colls descs src fuel r lower upper = Ok (rowid_of <$> within).
Proof.
  pose proof (builtin_order reg colls descs Hcolls) as Ho. intros within.
  assert (StronglySorted (fun a b => beyond_upper reg colls descs upper a = true -> beyond_upper reg colls descs upper b = true) rs) as Hb.
  { destruct upper as [[key inc]|]; [|cbn; clear; induction rs; constructor; [done|]; by apply Forall_true]. destruct (Hupper key inc eq_refl) as [Hk Hl].
    pose proof (rows_falls key rs Hk Hvals Hl Hord) as Hfalls. clear -Hfalls. induction Hfalls as [|a rs Hs IH Ha]; constructor; [done|].
    eapply Forall_impl; [exact Ha|]. intros b. apply beyond_falls. }
  unfold index_range_records, index_range_rowids. rewrite 2!(range_scan_spec reg colls descs src _ lower upper t r fuel [] rs) by done.
  pose proof (scan_list_filter reg colls descs src id lower upper rs [] Hb) as H1. pose proof (scan_list_filter reg colls descs src rowid_of lower upper rs [] Hb) as H2.
  rewrite list_fmap_id in H1. unfold id in H1. split; bind_step.
  - clear H2. destruct (scan_list _ _ _ _ lower upper rs []). f_equal. exact H1.
  - clear H1. destruct (scan_list _ _ _ _ lower upper rs []). f_equal. exact H2.
Qed.

(** An index: the rows (2, rowid 7), (5, rowid 1) and (5, rowid 8), the second
    on the root between two leaves. *)
Definition ix_row (a b : Z) : bytes := [3; 1; 1; a; b].
Definition ix_pages : list bytes :=
  [pg1; demo_page [(0, [2]); (3, [0; 1]); (8, [0; 0; 0; 4]); (12, [1; 244]); (500, [0; 0; 0; 3; 5] ++ ix_row 5 1)];
   demo_page [(0, [10]); (3, [0; 1]); (8, [1; 244]); (500, [5] ++ ix_row 2 7)];
   demo_page [(0, [10]); (3, [0; 1]); (8, [1; 244]); (500, [5] ++ ix_row 5 8)]].
Definition ix_demo : Pager.PageSource := list_source demo_hdr ix_pages.
Definition ix_page (n : Z) : bytes := default [] (ix_pages !! Z.to_nat (n - 1)).
Definition ix_tree : tree :=
  Node (mkBt (Pager.mkPage 2 (ix_page 2)) InteriorIndex 0 1 4)
    [Leaf (mkBt (Pager.mkPage 3 (ix_page 3)) LeafIndex 0 1 0); Leaf (mkBt (Pager.mkPage 4 (ix_page 4)) LeafIndex 0 1 0)].
Definition ix_rows : list (list Value) := [[Integer 2; Integer 7]; [Integer 5; Integer 1]; [Integer 5; Integer 8]].

#[export] Instance ix_demo_ok : Pager.SourceOk ix_demo.
Proof. demo_source. Qed.

Lemma ix_tree_at : tree_at ix_demo 2 ix_tree.
Proof.
  cbn [tree_at ix_tree]. split_and!; try (vm_compute; reflexivity);
    eexists; (split; [vm_compute; reflexivity|]); split; vm_compute; reflexivity.
Qed.

Lemma ix_records : Forall2 (fun x rec => record ix_demo x.1 x.2 = Ok rec) (entries ix_tree) ix_rows.
Proof. repeat constructor; vm_compute; reflexivity. Qed.

Lemma ix_comparable : Forall (Forall comparable) ix_rows.
Proof. by repeat constructor. Qed.

Lemma ix_sorted : StronglySorted (row_le registry_empty [] []) ix_rows.
Proof. repeat constructor; by vm_compute. Qed.

(** C34: index seeks. On a tree of index pages whose records are in the order
    of the index, under any built-in collations and ascending or descending
    columns, an equality seek returns exactly the records whose leading columns
    equal the key, in index order; the rowid variant returns their rowids. *)
Theorem index_seek_correct (src : Pager.PageSource) `{Hsrc : !Pager.SourceOk src} (reg : Registry) (colls : list Collation) (descs : list bool)
    (r : Z) (t : tree) (rs : list (list Value)) (key : list Value) (fuel : nat)
    (Ht : tree_at src r t) (Hi : index_tree t) (Hrs : Forall2 (fun x rec => record src x.1 x.2 = Ok rec) (entries t) rs)
    (Hcolls : Forall builtin colls) (Hvals : Forall (Forall comparable) rs) (Hkey : Forall comparable key)
    (Hlen : Forall (fun rec => (length key <= length rec)%nat) rs) (Hord : StronglySorted (row_le reg colls descs) rs)
    (Hf : (height t <= fuel)%nat) :
  index_seek_records reg colls descs src fuel r key = Ok (filter (fun rec => prefix_cmp reg colls descs key rec = Eq) rs) /\
  index_seek_rowids reg colls descs src fuel r key = Ok (rowid_of <$> filter (fun rec => prefix_cmp reg colls descs key rec = Eq) rs).
Proof. by apply index_seek_rows with t. Qed.

Lemma index_seek_correct_witness :
  index_seek_records registry_empty [] [] ix_demo 2 2 [Integer 5] = Ok [[Integer 5; Integer 1]; [Integer 5; Integer 8]] /\
  index_seek_rowids registry_empty [] [] ix_demo 2 2 [Integer 5] = Ok [1; 8].
Proof.
  apply (index_seek_correct ix_demo registry_empty [] [] 2 ix_tree ix_rows [Integer 5] 2).
  - exact ix_tree_at.
  - by repeat split.
  - exact ix_records.
  - constructor.
  - exact ix_comparable.
  - by repeat constructor.
  - repeat constructor; simpl; lia.
  - exact ix_sorted.
  - simpl. lia.
Defined.

(** Index range scans. Under the same conditions a range scan returns
    exactly the records within the bounds, in index order, although it stops
    at the first record past the upper bound. *)
Theorem index_range_correct (src : Pager.PageSource) `{Hsrc : !Pager.SourceOk src} (reg : Registry) (colls : list Collation) (descs : list bool)
    (r : Z) (t : tree) (rs : list (list Value)) (lower upper : option (list Value * bool)) (fuel : nat)
    (Ht : tree_at src r t) (Hi : index_tree t) (Hrs : Forall2 (fun x rec => record src x.1 x.2 = Ok rec) (entries t) rs)
    (Hcolls : Forall builtin colls) (Hvals : Forall (Forall comparable) rs)
    (Hupper : forall key inc, upper = Some (key, inc) -> Forall comparable key /\ Forall (fun rec => (length key <= length rec)%nat) rs)
    (Hord : StronglySorted (row_le reg colls descs) rs) (Hf : (height t <= fuel)%nat) :
  let within := filter (fun rec => passes_lower reg colls descs lower rec = true /\ beyond_upper reg colls descs upper rec = false) rs in
  index_range_records reg colls descs src fuel r lower upper = Ok within /\
  index_range_rowids reg colls descs src fuel r lower upper = Ok (rowid_of <$> within).
Proof. by apply index_range_rows with t. Qed.

Lemma index_range_correct_witness :
  index_range_records registry_empty [] [] ix_demo 2 2 (Some ([Integer 3], true)) (Some ([Integer 5], true)) = Ok [[Integer 5; Integer 1]; [Integer 5; Integer 8]] /\
  index_range_rowids registry_empty [] [] ix_demo 2 2 (Some ([Integer 3], true)) (Some ([Integer 5], true)) = Ok [1; 8].
Proof.
  apply (index_range_correct ix_demo registry_empty [] [] 2 ix_tree ix_rows (Some ([Integer 3], true)) (Some ([Integer 5], true)) 2).
  - exact ix_tree_at.
  - by repeat split.
  - exact ix_records.
  - constructor.
  - exact ix_comparable.
  - intros key inc [= <- <-]. split; [by repeat constructor|repeat constructor; simpl; lia].
  - exact ix_sorted.
  - simpl. lia.
Defined.

End IndexSeekProps.
