(* ===== verification/IndexWriter.v ===== *)
(** The index b-tree writer ([src/src/btree/index_writer.rs], the second half):
    record cells with overflow chains, insertion with sibling balancing and
    splits that promote entries, clearing, and page serialisation.

    The split and root mechanics mirror [Writer]; the recursion on pages, the
    chains and the packing loop are shared with it. An entry is its full record
    with the bytes of its cell. *)

From stdpp Require Import sorting.
From S2P Require Import Prelude Varint Header Value Balance Pager BtPage Cursor WritePager Writer WriterHeap IndexSeek.
Import BtPage Value WritePager.
Local Open Scope Z_scope.

Module IndexWriter.

Abbreviation St A := (res (A * WritePager)).

(** A record and its cell; a left child with its entry; the cells of an
    interior page with its right child. *)
Abbreviation IdxKey := (bytes * bytes)%type.
Abbreviation InteriorEntry := (Z * IdxKey)%type.
Abbreviation IdxInteriorPart := (list (Z * (bytes * bytes)) * Z)%type.

Record IdxSplit : Type := mkSplit { first : IdxKey; siblings : list (IdxKey * Z) }.

Inductive IdxUp : Type := Fit | LeafOverfull (entries : list IdxKey) | UpSplit (s : IdxSplit).

(** ** Serialising pages *)

(** [put16] and [put_ccs] are [write_u16] and [write_cell_content_start] of the
    table writer under other names. *)
Definition put16 (buf : bytes) (at_ v : Z) : res bytes :=
  let* buf := set_idx buf at_ (wrap 8 (Z.shiftr v 8)) in
  set_idx buf (at_ + 1) (wrap 8 v).

Definition put_ccs (buf : bytes) (at_ content : Z) : res bytes :=
  put16 buf at_ (if 65536 <=? content then 0 else content).

Definition rcells (entries : list IdxKey) : list bytes := entries.*2.

Definition serialize_index_leaf (page_size usable body : Z) (cells : list bytes) (prefix : option bytes) : res bytes :=
  let* buf := Writer.new_page page_size prefix in
  let ptr_base := body + 8 in
  let ptr_end := ptr_base + 2 * zlen cells in
  let* (buf, content) := Writer.pack_cells "index leaf page overflow while serializing" cells 0 ptr_base ptr_end usable buf in
  let* buf := set_idx buf body 10 in
  let* buf := put16 buf (body + 3) (wrap 16 (zlen cells)) in
  put_ccs buf (body + 5) content.

(** [child.to_be_bytes()] followed by the record cell. *)
Definition index_interior_cell (c : InteriorEntry) : bytes := be_bytes 4 c.1 ++ c.2.2.

Definition serialize_index_interior (page_size usable body : Z) (cells : list InteriorEntry) (right : Z)
    (prefix : option bytes) : res bytes :=
  let* buf := Writer.new_page page_size prefix in
  let ptr_base := body + 12 in
  let ptr_end := ptr_base + 2 * zlen cells in
  let* (buf, content) :=
    Writer.pack_cells "index interior page overflow while serializing" (index_interior_cell <$> cells) 0 ptr_base ptr_end usable buf in
  let* buf := set_idx buf body 2 in
  let* buf := put16 buf (body + 3) (wrap 16 (zlen cells)) in
  let* buf := put_ccs buf (body + 5) content in
  copy_at buf (body + 8) (be_bytes 4 right).

Definition leaf_fits (entries : list IdxKey) (body usable : Z) : bool :=
  Writer.sum ((fun c : IdxKey => zlen c.2 + 2) <$> entries) <=? usable - body - 8.

Definition interior_fits (cells : list InteriorEntry) (body usable : Z) : bool :=
  Writer.sum ((fun c : InteriorEntry => 4 + zlen c.2.2 + 2) <$> cells) <=? usable - body - 12.

(** ** Reading entries back *)

(** One entry: the full record, its overflow chain followed, and its cell. *)
Definition read_entry (w : WritePager) (bt : BtreePage) (usable i : Z) : res (Z * IdxKey) :=
  let* cell := index_cell bt i usable in
  let* full := Cursor.read_payload (WriterHeap.wp_source w) (bt_data bt) (ix_payload cell) in
  let* rcell := raw_index_record_cell bt i usable in
  Ok (left_child cell, (full, rcell)).

Fixpoint read_entries (n : nat) (w : WritePager) (bt : BtreePage) (usable i : Z) : res (list InteriorEntry) :=
  match n with
  | O => Ok []
  | S n =>
      let* e := read_entry w bt usable i in
      let* rest := read_entries n w bt usable (i + 1) in
      Ok (e :: rest)
  end.

Definition read_leaf (w : WritePager) (bt : BtreePage) (usable : Z) : res (list IdxKey) :=
  let* es := read_entries (Z.to_nat (num_cells bt)) w bt usable 0 in Ok (es.*2).

Definition read_interior (w : WritePager) (bt : BtreePage) (usable : Z) : res (list InteriorEntry * Z) :=
  let* es := read_entries (Z.to_nat (num_cells bt)) w bt usable 0 in Ok (es, right_pointer bt).

(** ** Insertion *)

Definition build_index_rcell (w : WritePager) (record : bytes) : St bytes :=
  let usable := usable_size w in
  let* (local, has_overflow) := payload_split LeafIndex usable (zlen record) in
  let* l := slice record 0 local in
  let cell := Varint.to_vec (zlen record) ++ l in
  if has_overflow then
    let* rest := slice_from record local in
    let* (first, w) := Writer.write_overflow_chain w rest in
    Ok (cell ++ be_bytes 4 first, w)
  else Ok (cell, w).

Definition adopt_split (children : list Z) (dividers : list IdxKey) (p : Z) (s : IdxSplit) : res (list Z * list IdxKey) :=
  match last (siblings s) with
  | None => Panic
  | Some lst =>
      if p <? zlen dividers then
        let* old_div := idx dividers p in
        let new_divs := first s :: (removelast (siblings s)).*1 ++ [old_div] in
        let* children := Writer.splice children (p + 1) (p + 1) ((siblings s).*2) in
        let* dividers := Writer.splice dividers p (p + 1) new_divs in
        Ok (children, dividers)
      else
        Ok (children ++ (removelast (siblings s)).*2 ++ [lst.2],
            dividers ++ first s :: (removelast (siblings s)).*1)
  end.

(** [while b < n]: how far the current group of an interior split reaches. *)
Fixpoint group_end (cells : list InteriorEntry) (start : bool) (used cap b : Z) : Z :=
  match cells with
  | [] => b
  | c :: cells =>
      let need := 4 + zlen c.2.2 + 2 in
      if start || (used + need <=? cap) then group_end cells false (used + need) cap (b + 1) else b
  end.

Fixpoint pack_groups (fuel : nat) (cells : list InteriorEntry) (right body usable i : Z)
    : res (list IdxInteriorPart * list IdxKey) :=
  match fuel with
  | O => Panic
  | S fuel =>
      let n := zlen cells in
      let cap := sat_sub usable (body + 12) in
      let b := group_end (drop (Z.to_nat i) cells) true 0 cap i in
      if n <=? b then
        let* g := slice cells i n in Ok ([(g, right)], [])
      else
        let bb := if (b =? n - 1) && (i + 1 <? b) then b - 1 else b in
        let* g := slice cells i bb in
        let* c := idx cells bb in
        let* (parts, seps) := pack_groups fuel cells right 0 usable (bb + 1) in
        Ok ((g, c.1) :: parts, c.2 :: seps)
  end.

Definition pack_index_interior (cells : list InteriorEntry) (right body0 usable : Z) : res (list IdxInteriorPart * list IdxKey) :=
  pack_groups (S (length cells)) cells right body0 usable 0.

(** The sibling pages of an interior split; the last one's key is empty. *)
Fixpoint write_parts (parts : list IdxInteriorPart) (seps : list IdxKey) (page_size usable : Z) (w : WritePager)
    : St (list (IdxKey * Z)) :=
  match parts with
  | [] => Ok ([], w)
  | (pc, pr) :: parts =>
      let* (pg, w) := allocate_page w in
      let* buf := serialize_index_interior page_size usable 0 pc pr None in
      let* w := write_page w pg buf in
      let key := match seps with k :: _ => k | [] => ([], []) end in
      let* (rest, w) := write_parts parts (tail seps) page_size usable w in
      Ok ((key, pg) :: rest, w)
  end.

Definition finish_interior (w : WritePager) (page_no body page_size usable : Z) (children : list Z) (dividers : list IdxKey)
    (prefix : option bytes) : St IdxUp :=
  if zlen children <? zlen dividers then Panic
  else
    let cells := zip children dividers in
    match last children with
    | None => Panic
    | Some rgt =>
        if interior_fits cells body usable then
          let* buf := serialize_index_interior page_size usable body cells rgt prefix in
          let* w := write_page w page_no buf in
          Ok (Fit, w)
        else
          let* (parts, seps) := pack_index_interior cells rgt body usable in
          match parts, seps with
          | [(pc, pr)], _ =>
              let* buf := serialize_index_interior page_size usable body pc pr prefix in
              let* w := write_page w page_no buf in
              Ok (Fit, w)
          | (pc, pr) :: parts, k :: seps =>
              let* buf := serialize_index_interior page_size usable body pc pr prefix in
              let* w := write_page w page_no buf in
              let* (sibs, w) := write_parts parts seps page_size usable w in
              Ok (UpSplit (mkSplit k sibs), w)
          | _, _ => Panic
          end
    end.

(** One leaf per slice; the entry at each boundary is promoted. *)
Fixpoint write_slices (cnt kept : list Z) (pooled : list IdxKey) (start page_size usable : Z) (w : WritePager)
    : St (list IdxKey) :=
  match cnt, kept with
  | [], _ => Ok ([], w)
  | end_ :: cnt, pg :: kept =>
      let* s := slice pooled start end_ in
      let* buf := serialize_index_leaf page_size usable 0 (rcells s) None in
      let* w := write_page w pg buf in
      match cnt with
      | [] => Ok ([], w)
      | _ =>
          let* d := idx pooled end_ in
          let* (ds, w) := write_slices cnt kept pooled (end_ + 1) page_size usable w in
          Ok (d :: ds, w)
      end
  | _, [] => Panic
  end.

Definition balance_leaf_pooled (w : WritePager) (old_pages : list Z) (pooled : list IdxKey) (cnt_old : list Z)
    : St (list Z * list IdxKey) :=
  let usable := usable_size w in
  let page_size := Writer.full_page_size w in
  let* cnt_new := Balance.distribute ((fun c : IdxKey => zlen c.2) <$> pooled) cnt_old true false usable in
  let n_new := length cnt_new in
  let n_old := length old_pages in
  let* (fresh, w) := Writer.alloc_pages (n_new - n_old) w in
  let* w := Writer.free_pages (drop (n_new `min` n_old) old_pages) w in
  let kept := merge_sort Z.le (take n_new old_pages ++ fresh) in
  let* (dividers, w) := write_slices cnt_new kept pooled 0 page_size usable w in
  Ok ((kept, dividers), w).

(** Pooling the window's entries with the dividers between them; [cnt_old] are
    the running totals before each divider. *)
Fixpoint pool_window (w : WritePager) (pages : list Z) (dividers : list IdxKey) (at_ p : Z) (child_entries pooled : list IdxKey)
    : res (list IdxKey * list Z) :=
  match pages with
  | [] => Ok (pooled, [])
  | pg :: pages =>
      let* es := if at_ =? p then Ok child_entries
                 else let* bt := Writer.read_bt w pg in read_leaf w bt (usable_size w) in
      let pooled := pooled ++ es in
      let cnt := zlen pooled in
      let* pooled :=
        match pages with
        | [] => Ok pooled
        | _ => let* d := idx dividers at_ in Ok (pooled ++ [d])
        end in
      let* (all, cnts) := pool_window w pages dividers (at_ + 1) p child_entries pooled in
      Ok (all, cnt :: cnts)
  end.

Definition balance_leaf_into (w : WritePager) (children : list Z) (dividers : list IdxKey) (p : Z) (child_entries : list IdxKey)
    : St (list Z * list IdxKey) :=
  let* (w0, n_old) := Balance.sibling_window p (zlen children) in
  let* old_pages := slice children w0 (w0 + n_old) in
  let* (pooled, cnt_old) := pool_window w old_pages dividers w0 p child_entries [] in
  let* (pd, w) := balance_leaf_pooled w old_pages pooled cnt_old in
  let '(pages, new_dividers) := pd in
  let* children := Writer.splice children w0 (w0 + n_old) pages in
  let* dividers := Writer.splice dividers w0 (w0 + n_old - 1) new_dividers in
  Ok ((children, dividers), w).

Definition deepen_leaf_root (w : WritePager) (root : Z) (entries : list IdxKey) : res WritePager :=
  let usable := usable_size w in
  let page_size := Writer.full_page_size w in
  let* (child0, w) := allocate_page w in
  let* (pd, w) := balance_leaf_pooled w [child0] entries [zlen entries] in
  let '(pages, dividers) := pd in
  if zlen pages <? zlen dividers then Panic
  else
    match last pages with
    | None => Panic
    | Some rgt =>
        let* buf := serialize_index_interior page_size usable 0 (zip pages dividers) rgt None in
        write_page w root buf
    end.

Definition grow_root (w : WritePager) (root : Z) (s : IdxSplit) : res WritePager :=
  let usable := usable_size w in
  let page_size := Writer.full_page_size w in
  let* left_bytes := read_page w root in
  let* (new_left, w) := allocate_page w in
  let* w := write_page w new_left left_bytes in
  match last (siblings s) with
  | None => Panic
  | Some lst =>
      let cells := (new_left, first s) :: ((fun x : IdxKey * Z => (x.2, x.1)) <$> removelast (siblings s)) in
      let* buf := serialize_index_interior page_size usable 0 cells lst.2 None in
      write_page w root buf
  end.

Definition create_index_root (w : WritePager) : St Z :=
  let* (root, w) := allocate_page w in
  let* buf := serialize_index_leaf (Writer.full_page_size w) (usable_size w) 0 [] None in
  let* w := write_page w root buf in
  Ok (root, w).

Section descent.
Context (reg : Registry) (colls : list Collation) (descs : list bool).

(** The search of [insert_rec]: the place of the first entry above the target,
    or the end; [None] when an entry equals it. *)
Fixpoint find_place (enc : Header.TextEncoding) (target : bytes) (entries : list IdxKey) (i : Z) : res (option Z) :=
  match entries with
  | [] => Ok (Some i)
  | e :: entries =>
      let* o := IndexSeek.cmp_records reg colls descs target e.1 enc in
      match o with
      | Lt => Ok (Some i)
      | Eq => Ok None
      | Gt => find_place enc target entries (i + 1)
      end
  end.

(** [insert_rec]; [depth] turns are left of the limit of twenty. *)
Fixpoint insert_rec (depth : nat) (w : WritePager) (page_no : Z) (target rcell : bytes) : St IdxUp :=
  match depth with
  | O => Err (ECorrupt "b-tree depth limit exceeded")
  | S depth =>
      let enc := Header.text_encoding (wp_header w) in
      let* page := Writer.wp_page w page_no in
      let body := Pager.body_offset page in
      let* bt := BtPage.parse page in
      let usable := usable_size w in
      let page_size := Writer.full_page_size w in
      match page_type bt with
      | LeafIndex =>
          let* entries := read_leaf w bt usable in
          let* place := find_place enc target entries 0 in
          match place with
          | None => Ok (Fit, w)
          | Some pos =>
              let entries := take (Z.to_nat pos) entries ++ (target, rcell) :: drop (Z.to_nat pos) entries in
              if leaf_fits entries body usable then
                let* prefix := Writer.page_one_prefix page_no bt in
                let* buf := serialize_index_leaf page_size usable body (rcells entries) prefix in
                let* w := write_page w page_no buf in
                Ok (Fit, w)
              else Ok (LeafOverfull entries, w)
          end
      | InteriorIndex =>
          let* (cells, rgt) := read_interior w bt usable in
          let children := cells.*1 ++ [rgt] in
          let dividers := cells.*2 in
          let* prefix := Writer.page_one_prefix page_no bt in
          let* place := find_place enc target dividers 0 in
          match place with
          | None => Ok (Fit, w)
          | Some p =>
              let* child := idx children p in
              let* (up, w) := insert_rec depth w child target rcell in
              match up with
              | Fit => Ok (Fit, w)
              | LeafOverfull child_entries =>
                  let* (cd, w) := balance_leaf_into w children dividers p child_entries in
                  finish_interior w page_no body page_size usable cd.1 cd.2 prefix
              | UpSplit s =>
                  let* (children, dividers) := adopt_split children dividers p s in
                  finish_interior w page_no body page_size usable children dividers prefix
              end
          end
      | _ => Err (ECorrupt "insert into a non-index b-tree")
      end
  end.

Definition insert_index (w : WritePager) (root : Z) (record : bytes) : res WritePager :=
  let* (rcell, w) := build_index_rcell w record in
  let* (up, w) := insert_rec 20 w root record rcell in
  match up with
  | Fit => Ok w
  | UpSplit s => grow_root w root s
  | LeafOverfull entries => deepen_leaf_root w root entries
  end.

End descent.

(** ** Clearing *)

Definition clear_index (fuel : nat) (w : WritePager) (root : Z) : res WritePager :=
  let usable := usable_size w in
  let page_size := Writer.full_page_size w in
  let* bt := Writer.read_bt w root in
  let n := Z.to_nat (num_cells bt) in
  let* w :=
    match page_type bt with
    | LeafIndex => Writer.free_index_chains n fuel bt usable 0 w
    | InteriorIndex =>
        let* w :=
          (fix kids (n : nat) (i : Z) (w : WritePager) : res WritePager :=
             match n with
             | O => Ok w
             | S n =>
                 let* c := index_cell bt i usable in
                 let* w := Writer.free_overflow_chain fuel w (overflow (ix_payload c)) in
                 let* c := child_pointer bt i in
                 let* w := Writer.free_tree fuel w c in
                 kids n (i + 1) w
             end) n 0 w in
        Writer.free_tree fuel w (right_pointer bt)
    | _ => Err (ECorrupt "clear of a non-index b-tree")
    end in
  let* empty := serialize_index_leaf page_size usable 0 [] None in
  write_page w root empty.

End IndexWriter.
