(* ===== verification/IndexPages.v ===== *)
(** Index pages and index cells: the pages [IndexWriter] serialises read back,
    and a record written by [build_index_rcell] is recovered, through its
    overflow chain, from any index page its cell is on. *)

From S2P Require Import Prelude Varint Header Vfs Pager BtPage Cursor WritePager WritePagerProps Writer WriterPages WriterHeap IndexWriter.
Import BtPage WritePager WritePagerProps WriterPages WriterHeap IndexWriter.
Local Open Scope Z_scope.

Module IndexPages.

(** ** Record cells *)

Definition ilocal (u plen : Z) : Z := (split_value LeafIndex u plen).1.
Definition ispills (u plen : Z) : bool := (split_value LeafIndex u plen).2.

(** Leaf and interior index pages split payloads alike. *)
Lemma index_split t u plen : is_table t = false -> split_value t u plen = (ilocal u plen, ispills u plen).
Proof. unfold ilocal, ispills. destruct t; try done; intros _; apply surjective_pairing. Qed.

(** A record cell: the length varint, the local part and, when the record
    spills, its first overflow page. *)
Record icell_parts (u : Z) (raw : bytes) (plen n1 : Z) : Prop := {
  ic_bytes : is_bytes raw;
  ic_plen : Varint.decode raw = Some (plen, n1);
  ic_len : zlen raw = n1 + ilocal u plen + (if ispills u plen then 4 else 0)
}.

Definition ioverflow (u plen : Z) (raw : bytes) : Z :=
  if ispills u plen then be_val (sub raw (zlen raw - 4) (zlen raw)) else 0.

Lemma ilocal_max u plen : 257 <= u -> 0 <= plen -> ilocal u plen <= (u - 12) * 64 / 255 - 23.
Proof.
  intros Hu Hp. unfold ilocal, split_value. pose proof (local_bounds LeafIndex u Hu) as Hb. unfold max_local, min_local in Hb.
  unfold sat_sub in *. rewrite (Z.max_r 0 (u - 12)) by lia. rewrite (Z.max_r 0 ((u - 12) * 64 / 255 - 23)) by lia.
  destruct (Z.leb_spec plen ((u - 12) * 64 / 255 - 23)); cbn [fst]; [lia|].
  rewrite (Z.max_r 0 ((u - 12) * 32 / 255 - 23)) by lia.
  match goal with |- (if ?x <=? ?y then _ else _) <= _ => destruct (Z.leb_spec x y) end; lia.
Qed.

(** A cell with its child and its pointer takes at most a quarter of a page. *)
Lemma icell_bounds u raw plen n1 : 257 <= u -> icell_parts u raw plen n1 ->
  is_u64 plen /\ 1 <= n1 <= 9 /\ 0 <= ilocal u plen <= plen /\ n1 + ilocal u plen <= zlen raw /\
  255 * (zlen raw + 10) <= 64 * (u - 12).
Proof.
  intros Hu [Hb E Hl]. pose proof (Varint.decode_inv _ _ _ Hb E) as (Hp & Hn & _). pose proof (Varint.len_range plen). unfold is_uint in Hp.
  pose proof (split_value_local LeafIndex u plen ltac:(lia) ltac:(lia)) as [Hloc _]. fold (ilocal u plen) in Hloc.
  pose proof (ilocal_max u plen Hu ltac:(lia)) as Hm.
  assert (255 * ((u - 12) * 64 / 255) <= (u - 12) * 64) by (Z.to_euclidean_division_equations; lia).
  split_and!; try (done || lia); destruct (ispills u plen); lia.
Qed.

(** ** Page images *)

(** The bytes of a cell with its child on a page of type [t]. *)
Definition icell_bytes (t : PageType) (c : Z * bytes) : bytes := (if is_leaf t then [] else be_bytes 4 c.1) ++ c.2.

Definition key_shift (t : PageType) : Z := if is_leaf t then 0 else 4.

Definition cell_on (bt : BtreePage) (j : nat) (c : Z * bytes) : Prop :=
  exists off, cell_offset bt (Z.of_nat j) = Ok off /\ 0 <= off /\ zlen (bt_data bt) <= 65536 /\
    off + zlen (icell_bytes (page_type bt) c) <= zlen (bt_data bt) /\
    sub (bt_data bt) off (off + zlen (icell_bytes (page_type bt) c)) = icell_bytes (page_type bt) c.

(** Page [n] with the bytes [d] is an index page of type [t] with these cells
    and right-most child. *)
Definition ipage_image (n : Z) (d : bytes) (t : PageType) (cells : list (Z * bytes)) (r : Z) : Prop :=
  exists bt, BtPage.parse (Pager.mkPage n d) = Ok bt /\ page_type bt = t /\ num_cells bt = zlen cells /\ right_pointer bt = r /\
    bt_data bt = d /\ forall j c, cells !! j = Some c -> cell_on bt j c.

Lemma zlen_icell_bytes t c : zlen (icell_bytes t c) = key_shift t + zlen c.2.
Proof. unfold icell_bytes, key_shift. rewrite zlen_app. destruct (is_leaf t); [done|]. by rewrite zlen_be_bytes. Qed.

(** The child in front of a cell of an interior page. *)
Lemma child_bytes bt j c off : is_leaf (page_type bt) = false -> cell_on bt j c -> is_u32 c.1 -> cell_offset bt (Z.of_nat j) = Ok off ->
  be_u32_checked (bt_data bt) off = Ok c.1.
Proof.
  intros Hl (off' & Eo & Ho & _ & Hz & Hs) Hc Eoff. rewrite Eo in Eoff. apply Ok_inj in Eoff as ->. rewrite zlen_icell_bytes in Hz, Hs.
  unfold key_shift in *. rewrite Hl in *. pose proof (zlen_nonneg c.2). set (d := bt_data bt) in *.
  unfold be_u32_checked. rewrite get_range_Some by lia. cbn [ok_or]. bind_step.
  assert (sub d off (off + 4) = be_bytes 4 c.1) as ->.
  { replace off with (off + 0) at 1 by lia. rewrite <- (sub_sub d off (off + (4 + zlen c.2))) by lia. rewrite Hs.
    unfold sub, icell_bytes. rewrite Hl, Z.sub_0_r, drop_0. by rewrite take_app_length' by (by rewrite length_be_bytes). }
  rewrite be_u32_Ok by (rewrite ?zlen_be_bytes; lia). f_equal. rewrite <- (be32_bytes c.1 Hc) at 2. done.
Qed.

(** Reading a cell of an index page. *)
Lemma index_cell_at bt j u c plen n1 : is_table (page_type bt) = false -> 257 <= u < 2 ^ 58 -> cell_on bt j c -> is_u32 c.1 ->
  icell_parts u c.2 plen n1 ->
  exists ko, 0 <= ko /\ ko + zlen c.2 <= zlen (bt_data bt) /\ sub (bt_data bt) ko (ko + zlen c.2) = c.2 /\
    index_cell bt (Z.of_nat j) u = Ok (mkIndexCell (if is_leaf (page_type bt) then 0 else c.1) (mkPayload plen (ko + n1) (ilocal u plen) (ioverflow u plen c.2))) /\
    raw_index_record_cell bt (Z.of_nat j) u = Ok c.2.
Proof.
  intros Ht Hu Hon Hc Hp. pose proof Hon as (off & Eo & Ho & Hdl & Hz & Hs). pose proof (fun Hl => child_bytes bt j c off Hl Hon Hc Eo) as Hch.
  pose proof (icell_bounds u _ _ _ (proj1 Hu) Hp) as (Hpu & Hn1 & Hl & Hsum & _).
  pose proof Hp as [Hb Ed Hlen]. set (t := page_type bt) in *. rewrite zlen_icell_bytes in Hz, Hs. set (d := bt_data bt) in *.
  set (ko := off + key_shift t). assert (0 <= key_shift t <= 4) as Hsh by (unfold key_shift; destruct (is_leaf t); lia).
  assert (sub d ko (ko + zlen c.2) = c.2) as Hk.
  { unfold ko. rewrite <- Z.add_assoc. rewrite <- (sub_sub d off (off + (key_shift t + zlen c.2))) by lia. rewrite Hs.
    unfold icell_bytes, key_shift, sub. destruct (is_leaf t); [apply take_ge; unfold zlen; simpl; lia|].
    rewrite drop_app_length' by (by rewrite length_be_bytes). apply take_ge. unfold zlen. lia. }
  exists ko. split_and!; [lia|lia|done| |].
  - unfold index_cell. fold t d. rewrite Ht, Eo. bind_step.
    assert ((if bool_decide (t = InteriorIndex) then let* l := be_u32_checked d off in Ok (l, off + 4) else Ok (0, off)) =
            Ok (if is_leaf t then 0 else c.1, ko)) as ->.
    { unfold ko, key_shift. case_bool_decide as Et.
      - rewrite Et. cbn [is_leaf]. fold d in Hch. rewrite (Hch ltac:(by rewrite Et)). by bind_step.
      - destruct t; try done. cbn [is_leaf]. by rewrite Z.add_0_r. }
    bind_step. rewrite get_range_Some by lia. cbn [ok_or]. bind_step.
    destruct (slice_from_sub d c.2 ko 0) as [rest Er]; [lia..|done|]. rewrite Z.add_0_r in Er. unfold slice_from in Er. rewrite slice_Ok in Er by lia.
    injection Er as ->. rewrite drop_0, (decode_app _ rest _ _ Ed). cbn [ok_or]. bind_step. rewrite payload_at_value by (unfold is_uint in *; lia). fold t d.
    rewrite (index_split t u plen Ht). destruct (Z.ltb_spec (zlen d) (ko + n1 + ilocal u plen + (if ispills u plen then 4 else 0))); [lia|].
    unfold ioverflow. destruct (ispills u plen); [|done]. rewrite be_u32_Ok by lia. do 2 bind_step. do 4 f_equal.
    transitivity (sub (sub d ko (ko + zlen c.2)) (zlen c.2 - 4) (zlen c.2)); [|by rewrite Hk]. rewrite sub_sub by lia. f_equal; lia.
  - unfold raw_index_record_cell. fold t d. rewrite Ht, Eo. bind_step.
    assert ((if bool_decide (t = InteriorIndex) then off + 4 else off) = ko) as ->.
    { unfold ko, key_shift. case_bool_decide as Et; [by rewrite Et|]. destruct t; try done; cbn [is_leaf]; lia. }
    rewrite get_range_Some by lia. cbn [ok_or]. bind_step.
    destruct (slice_from_sub d c.2 ko 0) as [rest Er]; [lia..|done|]. rewrite Z.add_0_r in Er. unfold slice_from in Er. rewrite slice_Ok in Er by lia.
    injection Er as ->. rewrite drop_0, (decode_app _ rest _ _ Ed). cbn [ok_or]. bind_step. rewrite payload_split_Ok, (index_split t u plen Ht) by lia. bind_step.
    rewrite <- Hlen. do 2 (rewrite usize_Ok by lia; bind_step). destruct (Z.ltb_spec (zlen d) (ko + zlen c.2)); [lia|]. rewrite slice_Ok by lia. by rewrite Hk.
Qed.

(** The two serialisers on a page other than page one, as one. *)
Definition index_page (t : PageType) (msg : String.string) (kind ps u : Z) (cells : list (Z * bytes)) (r : Z) : res bytes :=
  let* buf := Writer.new_page ps None in
  let* (buf, content) := Writer.pack_cells msg (icell_bytes t <$> cells) 0 (header_len t) (header_len t + 2 * zlen cells) u buf in
  let* buf := set_idx buf 0 kind in
  let* buf := Writer.write_u16 buf 3 (wrap 16 (zlen cells)) in
  let* buf := Writer.write_cell_content_start buf 5 content in
  if is_leaf t then Ok buf else copy_at buf 8 (be_bytes 4 r).

Lemma serialize_index_leaf_page ps u rs : serialize_index_leaf ps u 0 rs None =
  index_page LeafIndex "index leaf page overflow while serializing" 10 ps u (pair 0 <$> rs) 0.
Proof.
  unfold serialize_index_leaf, index_page. cbn [is_leaf header_len]. rewrite <- list_fmap_compose.
  assert (icell_bytes LeafIndex ∘ pair 0 <$> rs = rs) as -> by (induction rs as [|x rs IH]; [done|]; cbn; f_equal; exact IH).
  assert (zlen (pair 0 <$> rs) = zlen rs) as -> by (unfold zlen; by rewrite length_fmap).
  destruct (Writer.new_page ps None) as [b| |]; [|done..]. do 2 bind_step. change (0 + 8) with 8.
  destruct (Writer.pack_cells _ rs 0 8 (8 + 2 * zlen rs) u b) as [[b' c]| |]; [|done..]. do 2 bind_step.
  destruct (set_idx b' 0 10) as [b2| |]; [|done..]. do 2 bind_step. change (put16 b2 (0 + 3)) with (Writer.write_u16 b2 3).
  destruct (Writer.write_u16 b2 3 _) as [b3| |]; [|done..]. do 2 bind_step. change (put_ccs b3 (0 + 5) c) with (Writer.write_cell_content_start b3 5 c).
  by destruct (Writer.write_cell_content_start b3 5 c).
Qed.

Definition raw_cell (c : Z * (bytes * bytes)) : Z * bytes := (c.1, c.2.2).

Lemma serialize_index_interior_page ps u cells r : serialize_index_interior ps u 0 cells r None =
  index_page InteriorIndex "index interior page overflow while serializing" 2 ps u (raw_cell <$> cells) r.
Proof.
  unfold serialize_index_interior, index_page. cbn [is_leaf header_len]. rewrite <- list_fmap_compose.
  change (icell_bytes InteriorIndex ∘ raw_cell) with index_interior_cell.
  by assert (zlen (raw_cell <$> cells) = zlen cells) as -> by (unfold zlen; by rewrite length_fmap).
Qed.

Lemma index_page_image t msg kind u ps n cells r : is_table t = false -> from_byte kind = Ok t -> is_u8 kind -> 257 <= u -> u <= ps -> 512 <= ps <= 65536 ->
  n <> 1 -> Forall (fun c => is_u32 c.1 /\ is_bytes c.2 /\ 1 <= zlen c.2) cells -> is_u32 r -> (is_leaf t = true -> r = 0) ->
  total (icell_bytes t <$> cells) + 2 * zlen cells <= u - header_len t ->
  exists d, index_page t msg kind ps u cells r = Ok d /\ zlen d = ps /\ is_bytes d /\ ipage_image n d t cells r.
Proof.
  intros Ht Hkind Hk8 Hu Hups Hps Hn Hcells Hr Hleaf Hfit. unfold index_page. set (raws := icell_bytes t <$> cells) in *.
  assert (8 <= header_len t <= 12 /\ (is_leaf t = false -> header_len t = 12)) as [Hhl Hh12] by (destruct t; cbn; lia).
  destruct (new_page_facts n ps None Hn ltac:(lia)) as (b0 & -> & Hz0 & Hb0 & _). bind_step.
  assert (Forall (fun x => is_bytes x /\ 1 <= zlen x) raws) as Hraw.
  { apply Forall_fmap. eapply Forall_impl; [exact Hcells|]. intros c (_ & Hb & Hz). cbn. rewrite zlen_icell_bytes. split.
    - unfold icell_bytes. apply is_bytes_app. split; [|done]. destruct (is_leaf t); [apply Forall_nil_2|apply is_bytes_be_bytes].
    - unfold key_shift. destruct (is_leaf t); lia. }
  assert (zlen raws = zlen cells) as Ez by (unfold zlen, raws; by rewrite length_fmap). pose proof (zlen_nonneg cells).
  assert (1 * zlen raws <= total raws) as Hcount by (apply total_count; eapply Forall_impl; [exact Hraw|]; naive_solver).
  destruct (pack_cells_spec msg (header_len t) (header_len t + 2 * zlen cells) ltac:(lia) raws 0 u b0) as (b1 & E1 & Hz1 & Hb1 & _ & Hget1); [lia..|done|done|].
  rewrite E1. bind_step.
  destruct (page_header_facts b1 0 kind (zlen cells) (u - total raws)) as (d1 & E2 & Hz2 & Hb2 & Ek & Ec & Ho2); [lia|lia|done|done|unfold is_uint; lia|].
  change (0 + 3) with 3 in *. change (0 + 5) with 5 in *.
  apply res_bind_Ok in E2 as (d0 & E0 & E2). rewrite E0. bind_step. apply res_bind_Ok in E2 as (d0' & E0' & E2). rewrite E0'. bind_step. rewrite E2. bind_step.
  assert (exists d, (if is_leaf t then Ok d1 else copy_at d1 8 (be_bytes 4 r)) = Ok d /\ zlen d = ps /\ is_bytes d /\
    (is_leaf t = false -> sub d 8 12 = be_bytes 4 r) /\
    forall lo hi, 0 <= lo <= hi -> hi <= ps -> hi <= 8 \/ header_len t <= lo -> sub d lo hi = sub d1 lo hi) as (d & -> & Hz & Hb & Hrp & Ho3).
  { destruct (is_leaf t) eqn:El; [exists d1; split_and!; try done; lia|].
    destruct (copy_at_facts d1 8 (be_bytes 4 r)) as (d & E3 & Hz3 & Hb3 & Hs3 & Ho3); [lia|rewrite zlen_be_bytes; lia|done|apply is_bytes_be_bytes|].
    rewrite zlen_be_bytes in *. change (8 + Z.of_nat 4) with 12 in *. exists d. split_and!; try (done || lia).
    intros lo hi Hlh Hps' Hd. apply Ho3; lia. }
  exists d. split_and!; try done. assert (body_of n = 0) as Hb00 by (unfold body_of; destruct (Z.eqb_spec n 1); [lia|done]).
  set (bt := mkBt (Pager.mkPage n d) t 0 (zlen cells) r). exists bt. split_and!; try done.
  - unfold bt. rewrite <- Hb00. apply (parse_page n d kind t); rewrite ?Hb00; [lia| |done| |].
    + rewrite <- Ek. assert (sub d 0 1 = sub d1 0 1) as E by (apply Ho3; lia).
      destruct (idx_in_range d 0) as [x Ex]; [lia|]. destruct (idx_in_range d1 0) as [y Ey]; [lia|].
      rewrite (sub_cons d _ _ x), (sub_cons d1 _ _ y) in E by (lia || done). injection E as ->. congruence.
    + change (0 + 3) with 3. rewrite <- Ec, !be_u16_Ok by lia. rewrite Ho3 by lia. done.
    + destruct (is_leaf t) eqn:El; [by rewrite Hleaf|]. change (0 + 8) with 8. rewrite be_u32_Ok by lia. change (8 + 4) with 12.
      rewrite Hrp by done. f_equal. by apply be32_bytes.
  - intros j c Hj. assert (raws !! j = Some (icell_bytes t c)) as Hj' by (unfold raws; by rewrite list_lookup_fmap, Hj).
    assert (Z.of_nat j < zlen cells) as Hjl by (apply lookup_lt_Some in Hj; unfold zlen; lia).
    destruct (Hget1 j _ Hj') as (off & Eo & Hlo & Hhi & Hsub). rewrite Forall_lookup in Hraw. destruct (Hraw j _ Hj') as [_ Hz1'].
    exists off. cbn [bt page_type bt_data page Pager.data]. split_and!; [|lia|lia|lia|rewrite Ho3, Ho2 by lia; done].
    apply cell_offset_at; cbn [bt bt_data page Pager.data page_type num_cells bt_body_offset]; [lia| |lia|lia].
    change (0 + header_len t) with (header_len t) in *. rewrite Z.add_0_l in *. rewrite <- Eo, !be_u16_Ok by lia. rewrite Ho3, Ho2 by lia. done.
Qed.

(** The same bytes under another page number, neither of them page one. *)
Lemma ipage_image_move n q d t cells r : n <> 1 -> q <> 1 -> ipage_image n d t cells r -> ipage_image q d t cells r.
Proof.
  intros Hn Hq (bt & Ep & Et & Ec & Er & Ed & Hon). unfold ipage_image, BtPage.parse in *.
  assert (forall m, m <> 1 -> Pager.body_offset (Pager.mkPage m d) = 0) as Hbo.
  { intros m Hm. unfold Pager.body_offset. cbn [Pager.number]. by destruct (Z.eqb_spec m 1). }
  rewrite (Hbo n Hn) in Ep. rewrite (Hbo q Hq). cbn [Pager.data] in *. destruct (_ <? _); [done|].
  apply res_bind_Ok in Ep as (k & -> & Ep). bind_step. apply res_bind_Ok in Ep as (t' & -> & Ep). bind_step. destruct (_ <? _); [done|].
  apply res_bind_Ok in Ep as (cnt & -> & Ep). bind_step. apply res_bind_Ok in Ep as (r' & -> & Ep). bind_step. apply Ok_inj in Ep as <-.
  eexists. split; [done|]. cbn [page_type num_cells right_pointer bt_data page Pager.data] in *. split_and!; try done.
Qed.

(** ** Records on the heap *)

(** The cell of entry [e] stores its record, with overflow pages [ps]. *)
Definition entry_at (H : gmap Z bytes) (u : Z) (e : IdxKey) (ps : list Z) : Prop :=
  exists n1, icell_parts u e.2 (zlen e.1) n1 /\ zlen e.1 <= Cursor.ISIZE_MAX /\
    sub e.2 n1 (n1 + ilocal u (zlen e.1)) = take (Z.to_nat (ilocal u (zlen e.1))) e.1 /\
    chain H u (ioverflow u (zlen e.1) e.2) (drop (Z.to_nat (ilocal u (zlen e.1))) e.1) ps.

Lemma entry_at_frame H H' u e ps : entry_at H u e ps -> (forall p, p ∈ ps -> H' !! p = H !! p) -> entry_at H' u e ps.
Proof. intros (n1 & Hc & Hm & Hs & Hch) Hf. exists n1. split_and!; try done. by apply (chain_frame H). Qed.

Lemma entry_at_size H u e ps : 257 <= u -> entry_at H u e ps -> is_bytes e.2 /\ 1 <= zlen e.2 /\ 255 * (zlen e.2 + 10) <= 64 * (u - 12).
Proof. intros Hu (n1 & Hc & _). pose proof (icell_bounds u _ _ _ Hu Hc) as (_ & H1 & Hl & Hz & Hb). split_and!; [apply Hc|lia|done]. Qed.

(** Reading a stored payload from the page its cell is on. *)
Lemma read_entry_payload w H bt ko n1 e ps : holds w H -> 0 <= ko -> ko + zlen e.2 <= zlen (bt_data bt) ->
  sub (bt_data bt) ko (ko + zlen e.2) = e.2 -> icell_parts (usable_size w) e.2 (zlen e.1) n1 -> zlen e.1 <= Cursor.ISIZE_MAX ->
  sub e.2 n1 (n1 + ilocal (usable_size w) (zlen e.1)) = take (Z.to_nat (ilocal (usable_size w) (zlen e.1))) e.1 ->
  chain H (usable_size w) (ioverflow (usable_size w) (zlen e.1) e.2) (drop (Z.to_nat (ilocal (usable_size w) (zlen e.1))) e.1) ps ->
  Cursor.read_payload (wp_source w) (bt_data bt)
    (mkPayload (zlen e.1) (ko + n1) (ilocal (usable_size w) (zlen e.1)) (ioverflow (usable_size w) (zlen e.1) e.2)) = Ok e.1.
Proof.
  intros Hh Hko Hz Hsub Hc Hmax Hs Hch. destruct (holds_geom w H Hh) as (Hu & _).
  pose proof (icell_bounds _ _ _ _ Hu Hc) as (_ & Hn1 & Hl & Hsum & _).
  unfold Cursor.read_payload. cbn [total_len local_offset local_len overflow].
  destruct (Z.ltb_spec Cursor.ISIZE_MAX (zlen e.1)); [lia|]. set (local := ilocal (usable_size w) (zlen e.1)) in *.
  rewrite slice_Ok by lia. bind_step.
  assert (sub (bt_data bt) (ko + n1) (ko + n1 + local) = take (Z.to_nat local) e.1) as ->.
  { rewrite <- Hs. transitivity (sub (sub (bt_data bt) ko (ko + zlen e.2)) n1 (n1 + local)); [|by rewrite Hsub].
    rewrite sub_sub by lia. f_equal; lia. }
  assert (zlen (take (Z.to_nat local) e.1) = local) as Hlt by (unfold zlen in *; rewrite length_take; lia).
  assert (zlen (drop (Z.to_nat local) e.1) = zlen e.1 - local) as Hld by (unfold zlen in *; rewrite length_drop; lia).
  change (Pager.src_usable_size (wp_source w)) with (usable_size w). rewrite (chain_read w H (usable_size w) _ _ ps Hh eq_refl Hch); [|lia|].
  - bind_step. by rewrite take_drop, Z.eqb_refl.
  - apply chain_length in Hch. unfold zlen in *. lia.
Qed.

(** An entry is read back from any index page its cell is on. *)
Lemma read_entry_spec w H bt j c e ps : holds w H -> is_table (page_type bt) = false -> cell_on bt j (c, e.2) -> is_u32 c ->
  entry_at H (usable_size w) e ps ->
  read_entry w bt (usable_size w) (Z.of_nat j) = Ok (if is_leaf (page_type bt) then 0 else c, e).
Proof.
  intros Hh Ht Hon Hc (n1 & Hp & Hmax & Hs & Hch). destruct (holds_geom w H Hh) as (Hu & Hups & Hps & _).
  destruct (index_cell_at bt j (usable_size w) (c, e.2) (zlen e.1) n1) as (ko & Hko & Hz & Hsub & E1 & E2); try (done || lia). cbn [fst snd] in *.
  unfold read_entry. rewrite E1. bind_step. cbn [ix_payload left_child]. rewrite (read_entry_payload w H bt ko n1 e ps) by done. bind_step.
  rewrite E2. bind_step. by destruct e.
Qed.

Lemma read_entries_spec w H bt : holds w H -> is_table (page_type bt) = false -> forall cells i,
  (forall j c, cells !! j = Some c -> cell_on bt (i + j) (raw_cell c) /\ is_u32 c.1 /\ (is_leaf (page_type bt) = true -> c.1 = 0) /\
     exists ps, entry_at H (usable_size w) c.2 ps) ->
  read_entries (length cells) w bt (usable_size w) (Z.of_nat i) = Ok cells.
Proof.
  intros Hh Ht. induction cells as [|[c e] cells IH]; intros i Hj; [done|]. cbn [length read_entries].
  destruct (Hj 0%nat (c, e) eq_refl) as (Hon & Hc & Hl & ps & He). rewrite Nat.add_0_r in Hon. cbn [fst snd raw_cell] in *.
  rewrite (read_entry_spec w H bt i c e ps) by done. bind_step.
  replace (Z.of_nat i + 1) with (Z.of_nat (S i)) by lia. rewrite IH.
  - bind_step. do 3 f_equal. destruct (is_leaf (page_type bt)); [by rewrite Hl|done].
  - intros j x Hx. destruct (Hj (S j) x Hx) as (H1 & H2). by replace (S i + j)%nat with (i + S j)%nat by lia.
Qed.

(** Pages the overflow chain of a record takes. *)
Definition record_pages (u len : Z) : Z := chain_pages u (len - ilocal u len).

Lemma build_index_rcell_spec w H rec : holds w H -> is_bytes rec -> zlen rec <= Cursor.ISIZE_MAX ->
  wp_page_count w + 3 * record_pages (usable_size w) (zlen rec) < 2 ^ 32 ->
  exists cell w' H' ps, build_index_rcell w rec = Ok (cell, w') /\ holds w' H' /\
    evolves (3 * record_pages (usable_size w) (zlen rec)) w w' /\ entry_at H' (usable_size w) (rec, cell) ps /\
    NoDup ps /\ Forall (fun p => H !! p = None) ps /\ (forall p, p ∉ ps -> H' !! p = H !! p).
Proof.
  intros Hh Hb Hlen Hpc. destruct (holds_geom w H Hh) as (Hu & Hups & Hps & _). set (u := usable_size w) in *.
  pose proof (zlen_nonneg rec) as Hnn. pose proof (split_value_local LeafIndex u (zlen rec) Hnn ltac:(lia)) as [Hl _].
  assert (ispills u (zlen rec) = false -> ilocal u (zlen rec) = zlen rec) as Hns.
  { unfold ispills, ilocal, split_value. destruct (_ <=? _); [done|]. done. }
  assert (ispills u (zlen rec) = true -> ilocal u (zlen rec) < zlen rec) as Hsp.
  { unfold ispills. intros E. pose proof (ilocal_max u (zlen rec) Hu Hnn). pose proof (local_bounds LeafIndex u Hu) as Hbd. unfold max_local, min_local in Hbd.
    unfold split_value, sat_sub in E. rewrite (Z.max_r 0 (u - 12)) in E by lia. rewrite (Z.max_r 0 ((u - 12) * 64 / 255 - 23)) in E by lia.
    destruct (Z.leb_spec (zlen rec) ((u - 12) * 64 / 255 - 23)); [done|lia]. }
  fold (ilocal u (zlen rec)) in Hl. set (local := ilocal u (zlen rec)) in *. set (v1 := Varint.spec_bytes (zlen rec)). set (loc := take (Z.to_nat local) rec).
  assert (zlen loc = local) as Hloc by (unfold loc, zlen in *; rewrite length_take; lia).
  pose proof (Varint.zlen_spec_bytes (zlen rec)) as Hv1. fold v1 in Hv1. pose proof (Varint.len_range (zlen rec)) as Hl1.
  assert (zlen rec < 2 ^ 64) as H64 by (unfold Cursor.ISIZE_MAX in Hlen; lia).
  assert (forall tl, is_bytes tl -> zlen tl = (if ispills u (zlen rec) then 4 else 0) ->
    icell_parts u (v1 ++ loc ++ tl) (zlen rec) (zlen v1) /\ sub (v1 ++ loc ++ tl) (zlen v1) (zlen v1 + local) = loc) as Hparts.
  { intros tl Htl Hz. split; [split|].
    - rewrite !is_bytes_app. split_and!; [apply Varint.is_bytes_spec_bytes|by apply is_bytes_take|done].
    - rewrite Hv1. apply Varint.decode_spec_bytes. unfold is_uint. lia.
    - rewrite !zlen_app. fold local. lia.
    - apply sub_app_exact; lia. }
  unfold build_index_rcell. fold u. rewrite payload_split_Ok, (index_split LeafIndex u (zlen rec) eq_refl) by lia. bind_step. fold local.
  rewrite slice_Ok by lia. bind_step. rewrite !Varint.to_vec_spec. fold v1.
  assert (sub rec 0 local = loc) as -> by (unfold sub, loc; by rewrite Z.sub_0_r, drop_0).
  unfold record_pages. fold local. destruct (ispills u (zlen rec)) eqn:Es.
  - specialize (Hsp eq_refl). unfold slice_from. rewrite slice_Ok by lia. bind_step. rewrite sub_full.
    assert (zlen (drop (Z.to_nat local) rec) = zlen rec - local) as Hrest.
    { unfold zlen in *. rewrite length_drop. lia. }
    destruct (write_overflow_chain_spec w H (drop (Z.to_nat local) rec)) as (first & w' & H' & ps & -> & Hh' & Hev & Hf & Hch & Hnd & Hnone & Hfr);
      [done|by apply is_bytes_drop|intros E; rewrite E, zlen_nil in Hrest; lia|rewrite Hrest; fold u; exact Hpc|].
    bind_step. exists ((v1 ++ loc) ++ be_bytes 4 first), w', H', ps. rewrite Hrest in Hev. split_and!; try done.
    destruct (Hparts (be_bytes 4 first)) as [Hp1 Hp2]; [apply is_bytes_be_bytes|by rewrite zlen_be_bytes|].
    rewrite <- !app_assoc. exists (zlen v1). cbn [fst snd]. fold local loc. split_and!; [exact Hp1|done|exact Hp2|].
    unfold ioverflow. rewrite Es, !app_assoc. rewrite (sub_tail _ (be_bytes 4 first)) by (by rewrite zlen_be_bytes).
    by rewrite be32_bytes.
  - specialize (Hns eq_refl). exists (v1 ++ loc), w, H, []. rewrite Hns, Z.sub_diag.
    destruct (Hparts []) as [Hp1 Hp2]; [apply Forall_nil_2|done|]. rewrite !app_nil_r in Hp1, Hp2. split_and!; try done.
    + apply evolves_mono with 0; [apply evolves_refl|]. pose proof (chain_pages_nonneg u 0 Hu ltac:(lia)). lia.
    + exists (zlen v1). cbn [fst snd]. fold local loc. split_and!; [exact Hp1|done|exact Hp2|].
      unfold ioverflow. rewrite Es. rewrite Hns. rewrite drop_ge by (unfold zlen; lia). constructor.
    + apply NoDup_nil_2.
Qed.

End IndexPages.
