(* ===== verification/IndexTree.v ===== *)
(** Index b-trees on the page heap: the abstract tree a heap represents, its
    entries in order, the order of entries the writer descends by, and the
    insertion into an ordered list that a tree insertion has to match. *)

From stdpp Require Import sorting.
From S2P Require Import Prelude Varint Header Value Record Balance Pager BtPage Cursor WritePager WritePagerProps Writer WriterPages WriterHeap WriterTree WriterBalance IndexSeek IndexWriter IndexPages.
Import BtPage WritePager WritePagerProps WriterPages WriterHeap IndexWriter IndexPages.
Local Open Scope Z_scope.

Module IndexTree.

(** ** Trees *)

(** A leaf with its entries, or an interior page with its children and the
    entries between them. *)
Inductive itree : Type :=
  | ILeaf (n : Z) (es : list IdxKey)
  | INode (n : Z) (kids : list itree) (divs : list IdxKey).

Definition iroot (t : itree) : Z := match t with ILeaf n _ | INode n _ _ => n end.

(** Lists interleaved with the entries between them. *)
Fixpoint inter {A} (ls : list (list A)) (ds : list A) : list A :=
  match ls, ds with
  | [], _ => []
  | l :: ls, [] => l ++ inter ls []
  | l :: ls, d :: ds => l ++ d :: inter ls ds
  end.

Fixpoint ikeys (t : itree) : list IdxKey :=
  match t with
  | ILeaf _ es => es
  | INode _ kids divs => inter (map ikeys kids) divs
  end.

Fixpoint ipages (t : itree) : list Z :=
  match t with
  | ILeaf n _ => [n]
  | INode n kids _ => n :: flat_map ipages kids
  end.

Definition fipages (kids : list itree) : list Z := flat_map ipages kids.
Definition iroots (kids : list itree) : list Z := iroot <$> kids.

Definition rsizes (es : list IdxKey) : list Z := (fun e : IdxKey => zlen e.2) <$> es.
(** Bytes the entries take on an interior page, with children and pointers. *)
Definition ineed (ds : list IdxKey) : Z := foldr (fun d a => 6 + zlen d.2 + a) 0 ds.

(** The heap stores the tree, of height [h]. *)
Fixpoint itree_ok (H : gmap Z bytes) (u : Z) (h : nat) (t : itree) : Prop :=
  match h, t with
  | O, ILeaf n es =>
      (exists d, H !! n = Some d /\ ipage_image n d LeafIndex (pair 0 <$> rcells es) 0) /\ Balance.run_size (rsizes es) <= u - 8
  | S h, INode n kids divs =>
      (exists d, H !! n = Some d /\ ipage_image n d InteriorIndex (raw_cell <$> zip (iroots kids) divs) (default 0 (last (iroots kids)))) /\
      ineed divs <= u - 12 /\ length kids = S (length divs) /\ Forall (itree_ok H u h) kids
  | _, _ => False
  end.

(** An entry whose record is on the heap, its chain within [Q]. *)
Definition stored (H : gmap Z bytes) (u : Z) (Q : list Z) (e : IdxKey) : Prop := exists ps, ps ⊆ Q /\ entry_at H u e ps.

Lemma stored_frame H H' u Q e : stored H u Q e -> (forall p, p ∈ Q -> H' !! p = H !! p) -> stored H' u Q e.
Proof. intros (ps & Hs & He) Hf. exists ps. split; [done|]. apply (entry_at_frame H); [done|]. intros p Hp. by apply Hf, Hs. Qed.

Lemma stored_size H u Q e : 257 <= u -> stored H u Q e -> is_bytes e.2 /\ 1 <= zlen e.2 /\ 255 * (zlen e.2 + 10) <= 64 * (u - 12).
Proof. intros Hu (ps & _ & He). by apply (entry_at_size H u e ps). Qed.

(** ** Interleaving *)

Definition pre {A} (ls : list (list A)) (ds : list A) : list A := concat (zip_with (fun l d => l ++ [d]) ls ds).
Definition post {A} (ls : list (list A)) (ds : list A) : list A := concat (zip_with (fun l d => d :: l) ls ds).

Lemma inter_pre {A} (ls ls' : list (list A)) ds ds' : length ls = length ds -> inter (ls ++ ls') (ds ++ ds') = pre ls ds ++ inter ls' ds'.
Proof.
  revert ds. induction ls as [|l ls IH]; intros [|d ds] Hl; try done. cbn. rewrite IH by (simpl in Hl; lia).
  unfold pre. cbn. by rewrite <- !app_assoc.
Qed.

Lemma inter_cons {A} (l : list A) ls ds : length ls = length ds -> inter (l :: ls) ds = l ++ post ls ds.
Proof.
  revert l ds. induction ls as [|l' ls IH]; intros l [|d ds] Hl; try done.
  change (l ++ d :: inter (l' :: ls) ds = l ++ post (l' :: ls) (d :: ds)). rewrite IH by (simpl in Hl; lia). done.
Qed.

Lemma inter_post {A} (ls ls' : list (list A)) ds ds' : length ls = S (length ds) -> length ls' = length ds' ->
  inter (ls ++ ls') (ds ++ ds') = inter ls ds ++ post ls' ds'.
Proof.
  intros Hl Hl'. revert ds Hl. induction ls as [|l ls IH]; intros [|d ds] Hl; try done.
  - destruct ls; [|done]. cbn [app]. rewrite inter_cons by done. cbn. by rewrite app_nil_r.
  - cbn. rewrite IH by (simpl in Hl; lia). by rewrite <- app_assoc.
Qed.

Lemma inter_mid {A} (ls ls' : list (list A)) ds d ds' : length ls = S (length ds) ->
  inter (ls ++ ls') (ds ++ d :: ds') = inter ls ds ++ d :: inter ls' ds'.
Proof.
  revert ds. induction ls as [|l ls IH]; intros [|x ds] Hl; try done.
  - destruct ls; [|done]. cbn. by rewrite app_nil_r.
  - cbn. rewrite IH by (simpl in Hl; lia). by rewrite <- app_assoc.
Qed.

Lemma inter_split {A} (la lb lc : list (list A)) da db dc : length la = length da -> length lb = S (length db) -> length lc = length dc ->
  inter (la ++ lb ++ lc) (da ++ db ++ dc) = pre la da ++ inter lb db ++ post lc dc.
Proof. intros Ha Hb Hc. rewrite inter_pre by done. by rewrite inter_post. Qed.

Lemma divs_split {A B} (a b c : list A) (ds : list B) : length (a ++ b ++ c) = S (length ds) -> b <> [] ->
  exists da db dc, ds = da ++ db ++ dc /\ length a = length da /\ length b = S (length db) /\ length c = length dc.
Proof.
  rewrite !length_app. intros Hl Hb. assert (1 <= length b)%nat by (destruct b; simpl; [done|lia]).
  exists (take (length a) ds), (take (length b - 1) (drop (length a) ds)), (drop (length b - 1) (drop (length a) ds)).
  rewrite !take_drop, !length_take, !length_drop. split_and!; lia || done.
Qed.

Lemma pre_app {A} (ls ls' : list (list A)) ds ds' : length ls = length ds -> pre (ls ++ ls') (ds ++ ds') = pre ls ds ++ pre ls' ds'.
Proof. intros Hl. unfold pre. by rewrite zip_with_app, concat_app. Qed.

Lemma post_app {A} (ls ls' : list (list A)) ds ds' : length ls = length ds -> post (ls ++ ls') (ds ++ ds') = post ls ds ++ post ls' ds'.
Proof. intros Hl. unfold post. by rewrite zip_with_app, concat_app. Qed.

(** The entries between the lists are among the interleaved ones, in order. *)
Lemma inter_divs {A} (P : A -> Prop) (ls : list (list A)) ds : length ls = S (length ds) -> Forall P (inter ls ds) -> Forall P ds.
Proof.
  revert ls. induction ds as [|d ds IH]; intros [|l ls] Hl; try done. cbn [inter]. intros [_ [Hd H]%Forall_cons]%Forall_app.
  apply Forall_cons_2; [done|]. apply (IH ls); [simpl in Hl; lia|done].
Qed.

Lemma inter_lists {A} (P : A -> Prop) (ls : list (list A)) ds l : Forall P (inter ls ds) -> l ∈ ls -> Forall P l.
Proof.
  revert ds. induction ls as [|x ls IH]; intros ds H Hin; [by apply elem_of_nil in Hin|].
  assert (Forall P x /\ exists ds', Forall P (inter ls ds')) as (Hx & ds' & H').
  { destruct ds as [|d ds]; cbn [inter] in H; apply Forall_app in H as [Hx H]; (split; [done|]); [by exists []|exists ds; by apply Forall_cons in H as [_ ?]]. }
  apply elem_of_cons in Hin as [->|Hin]; [done|by apply (IH ds')].
Qed.

Lemma inter_divs_sorted {A} (R : A -> A -> Prop) (ls : list (list A)) ds : length ls = S (length ds) -> StronglySorted R (inter ls ds) -> StronglySorted R ds.
Proof.
  revert ls. induction ds as [|d ds IH]; intros [|l ls] Hl Hs; try done; [constructor|]. cbn [inter] in Hs.
  assert (StronglySorted R (d :: inter ls ds)) as [Hs' Hd]%StronglySorted_inv.
  { by apply StronglySorted_app_1_r in Hs. }
  constructor; [apply (IH ls); [simpl in Hl; lia|done]|]. apply (inter_divs _ ls); [simpl in Hl; lia|done].
Qed.

Lemma last_pre {A} (ls : list (list A)) ds : length ls = length ds -> last (pre ls ds) = last ds.
Proof.
  revert ds. induction ls as [|l ls IH]; intros [|d ds] Hl; try done. unfold pre. cbn. fold (pre ls ds). rewrite <- app_assoc. cbn.
  rewrite last_app_cons, !last_cons. by rewrite IH by (simpl in Hl; lia).
Qed.

(** ** Size accounting *)

Lemma leaf_fits_run es u : IndexWriter.leaf_fits es 0 u = true <-> Balance.run_size (rsizes es) <= u - 8.
Proof.
  unfold leaf_fits. rewrite Z.leb_le. assert (Writer.sum ((fun c : IdxKey => zlen c.2 + 2) <$> es) = Balance.run_size (rsizes es)) as ->; [|lia].
  induction es as [|e es IH]; [done|]. cbn. unfold Writer.sum, rsizes, Balance.run_size in IH. cbn in IH. lia.
Qed.

Lemma interior_fits_ineed (rs : list Z) divs u : (length divs <= length rs)%nat ->
  IndexWriter.interior_fits (zip rs divs) 0 u = true <-> ineed divs <= u - 12.
Proof.
  intros Hl. unfold interior_fits. rewrite Z.leb_le.
  assert (Writer.sum ((fun c : InteriorEntry => 4 + zlen c.2.2 + 2) <$> zip rs divs) = ineed divs) as ->; [|lia].
  revert divs Hl. induction rs as [|r rs IH]; intros [|d divs] Hl; try done; [simpl in Hl; lia|].
  change (4 + zlen d.2 + 2 + Writer.sum ((fun c : InteriorEntry => 4 + zlen c.2.2 + 2) <$> zip rs divs) = 6 + zlen d.2 + ineed divs).
  rewrite IH by (simpl in Hl; lia). lia.
Qed.

Lemma ineed_app a b : ineed (a ++ b) = ineed a + ineed b.
Proof. induction a as [|x a IH]; [done|]. change (6 + zlen x.2 + ineed (a ++ b) = 6 + zlen x.2 + ineed a + ineed b). lia. Qed.

Lemma ineed_nonneg ds : 0 <= ineed ds.
Proof. induction ds as [|d ds IH]; [done|]. change (ineed (d :: ds)) with (6 + zlen d.2 + ineed ds). pose proof (zlen_nonneg d.2). lia. Qed.

(** ** Frames *)

Lemma fipages_app a b : fipages (a ++ b) = fipages a ++ fipages b.
Proof. apply flat_map_app. Qed.

Lemma iroots_app a b : iroots (a ++ b) = iroots a ++ iroots b.
Proof. apply fmap_app. Qed.

Lemma length_iroots kids : length (iroots kids) = length kids.
Proof. apply length_fmap. Qed.

Lemma iroot_page t : iroot t ∈ ipages t.
Proof. destruct t; by left. Qed.

Lemma fipages_elem kids k p : k ∈ kids -> p ∈ ipages k -> p ∈ fipages kids.
Proof. intros Hk Hp. by apply (WriterTree.flat_map_sub ipages kids k). Qed.

Lemma itree_ok_frame H H' u h : forall t, itree_ok H u h t -> (forall p d, p ∈ ipages t -> H !! p = Some d -> H' !! p = Some d) -> itree_ok H' u h t.
Proof.
  induction h as [|h IH]; intros [n es|n kids divs]; cbn [itree_ok ipages]; try done.
  - intros ((d & Hd & Hi) & Hs) Hf. split; [|done]. exists d. split; [|done]. apply Hf; [by left|done].
  - intros ((d & Hd & Hi) & Hfit & Hl & Hk) Hf. split_and!; try done.
    + exists d. split; [|done]. apply Hf; [by left|done].
    + rewrite Forall_forall in Hk |- *. intros k Hin. apply IH; [by apply Hk|]. intros p e Hp. apply Hf. right. by apply (fipages_elem kids k).
Qed.

Lemma kids_frame H H' u h kids : Forall (itree_ok H u h) kids -> (forall p d, p ∈ fipages kids -> H !! p = Some d -> H' !! p = Some d) ->
  Forall (itree_ok H' u h) kids.
Proof.
  rewrite !Forall_forall. intros Hk Hf k Hin. apply (itree_ok_frame H); [by apply Hk|]. intros p d Hp. apply Hf. by apply (fipages_elem kids k).
Qed.

Lemma itree_ok_owned H u h : forall t, itree_ok H u h t -> Forall (fun p => is_Some (H !! p)) (ipages t).
Proof.
  induction h as [|h IH]; intros [n es|n kids divs]; cbn [itree_ok ipages]; try done.
  - intros ((d & Hd & _) & _). apply Forall_singleton. by eexists.
  - intros ((d & Hd & _) & _ & _ & Hk). apply Forall_cons_2; [by eexists|]. clear Hd. induction Hk as [|k kids Hk _ IHk]; cbn [flat_map]; [constructor|].
    apply Forall_app_2; [by apply IH|done].
Qed.

Lemma kids_owned H u h kids : Forall (itree_ok H u h) kids -> Forall (fun p => is_Some (H !! p)) (fipages kids).
Proof.
  induction 1 as [|k kids Hk _ IHk]; cbn [fipages flat_map]; [constructor|]. apply Forall_app_2; [by apply (itree_ok_owned H u h)|done].
Qed.

Lemma iroots_pages kids r : r ∈ iroots kids -> r ∈ fipages kids.
Proof. unfold iroots. intros (k & -> & Hk)%list_elem_of_fmap. apply (fipages_elem kids k); [done|apply iroot_page]. Qed.

Lemma iroots_u32 w H u h kids : holds w H -> Forall (itree_ok H u h) kids -> Forall is_u32 (iroots kids).
Proof.
  intros Hh Hk%kids_owned. rewrite Forall_forall in *. intros r Hr%iroots_pages. destruct (Hk r Hr) as [d Hd].
  destruct (holds_page w H r d Hh Hd) as (? & _). unfold is_uint. lia.
Qed.

(** ** The order of entries *)

(** What the descent needs of the comparison of records: on the records an
    index may hold it answers, and it is a total preorder. *)
Class KeyOrder (cmp : bytes -> bytes -> res comparison) (kcmp : bytes -> bytes -> comparison) (good : bytes -> Prop) : Prop := {
  ko_cmp a b : good a -> good b -> cmp a b = Ok (kcmp a b);
  ko_opp a b : good a -> good b -> kcmp b a = CompOpp (kcmp a b);
  ko_trans a b c : good a -> good b -> good c -> kcmp a b <> Gt -> kcmp b c <> Gt -> kcmp a c <> Gt
}.

Section order.
#[local] Set Default Proof Using "Type*".
Context (reg : Value.Registry) (colls : list Value.Collation) (descs : list bool) (enc : Header.TextEncoding).
Context (kcmp : bytes -> bytes -> comparison) (good : bytes -> Prop).
Context `{!KeyOrder (fun a b => IndexSeek.cmp_records reg colls descs a b enc) kcmp good}.

Lemma ko_lt_le a b c : good a -> good b -> good c -> kcmp a b = Lt -> kcmp b c <> Gt -> kcmp a c = Lt.
Proof.
  intros Ga Gb Gc Hab Nbc. assert (kcmp a b <> Gt) as Nab by (by rewrite Hab).
  pose proof (ko_trans a b c Ga Gb Gc Nab Nbc) as Nac. destruct (kcmp a c) eqn:E; [|done..]. exfalso.
  assert (kcmp c a <> Gt) as Nca by (by rewrite (ko_opp a c Ga Gc), E).
  apply (ko_trans b c a Gb Gc Ga Nbc Nca). by rewrite (ko_opp a b Ga Gb), Hab.
Qed.

Definition klt (a b : IdxKey) : Prop := kcmp a.1 b.1 = Lt.
Definition kgood (e : IdxKey) : Prop := good e.1.
(** The entries of [l] are below, or above, the record [t]. *)
Definition kbelow (t : bytes) (l : list IdxKey) : Prop := Forall (fun x => kcmp t x.1 = Gt) l.
Definition kabove (t : bytes) (l : list IdxKey) : Prop := Forall (fun x => kcmp t x.1 = Lt) l.

(** The specification: an entry goes between its neighbours unless its record
    is there already. *)
Fixpoint kins (e : IdxKey) (l : list IdxKey) : list IdxKey :=
  match l with
  | [] => [e]
  | x :: l => match kcmp e.1 x.1 with Lt => e :: x :: l | Eq => x :: l | Gt => x :: kins e l end
  end.

Lemma kins_below e l k : kbelow e.1 l -> kins e (l ++ k) = l ++ kins e k.
Proof using Type. induction 1 as [|x l Hx _ IH]; [done|]. cbn [app kins]. rewrite Hx. by rewrite IH. Qed.

Lemma kins_above e l k : kabove e.1 k -> kins e (l ++ k) = kins e l ++ k.
Proof using Type.
  intros Hk. induction l as [|x l IH]; cbn [app kins].
  - destruct Hk as [|y k Hy _]; [done|]. cbn [kins]. by rewrite Hy.
  - destruct (kcmp e.1 x.1); [done|done|]. by rewrite IH.
Qed.

Lemma kins_between e a b c : kbelow e.1 a -> kabove e.1 c -> kins e (a ++ b ++ c) = a ++ kins e b ++ c.
Proof using Type. intros Ha Hc. rewrite kins_below by done. by rewrite kins_above. Qed.

Lemma kins_place e a c : kbelow e.1 a -> kabove e.1 c -> kins e (a ++ c) = a ++ e :: c.
Proof using Type. intros Ha Hc. exact (kins_between e a [] c Ha Hc). Qed.

Lemma kins_present e a x c : kbelow e.1 a -> kcmp e.1 x.1 = Eq -> kins e (a ++ x :: c) = a ++ x :: c.
Proof using Type. intros Ha Hx. rewrite kins_below by done. cbn. by rewrite Hx. Qed.

Lemma Forall_kins (P : IdxKey -> Prop) e l : P e -> Forall P l -> Forall P (kins e l).
Proof using Type.
  intros He. induction 1 as [|x l Hx Hl IH]; cbn [kins]; [by apply Forall_singleton|]. destruct (kcmp e.1 x.1); by repeat apply Forall_cons_2.
Qed.

Lemma zlen_kins e l : zlen (kins e l) <= zlen l + 1.
Proof using Type. induction l as [|x l IH]; cbn [kins]; [done|]. destruct (kcmp e.1 x.1); rewrite !zlen_cons; lia. Qed.

Lemma run_size_kins e l : Balance.run_size (rsizes (kins e l)) <= Balance.run_size (rsizes l) + (2 + zlen e.2).
Proof using Type.
  induction l as [|x l IH]; [cbn; lia|]. pose proof (zlen_nonneg e.2). cbn [kins]. destruct (kcmp e.1 x.1); [lia|cbn; lia|].
  change (Balance.run_size (rsizes (x :: ?k))) with (2 + zlen x.2 + Balance.run_size (rsizes k)). lia.
Qed.

(** Everything before an entry below the record is below it, everything after
    one above it is above it. *)
Lemma sorted_before t l d : good t -> Forall kgood (l ++ [d]) -> StronglySorted klt (l ++ [d]) -> kcmp t d.1 <> Lt -> kbelow t l.
Proof.
  intros Ht [Hg [Hgd _]%Forall_cons]%Forall_app Hs Hd.
  rewrite Forall_forall in Hg. apply Forall_forall. intros x Hx. assert (kcmp x.1 d.1 = Lt) as Hxd.
  { clear Hd Hg Hgd. induction l as [|y l IH]; [by apply elem_of_nil in Hx|]. cbn in Hs. apply StronglySorted_inv in Hs as [Hs Hy].
    apply elem_of_cons in Hx as [->|Hx]; [|by apply IH]. rewrite Forall_forall in Hy. apply Hy, elem_of_app. right. by left. }
  rewrite (ko_opp x.1 t) by (done || by apply Hg). pose proof (ko_opp t d.1 Ht Hgd) as Eo.
  rewrite (ko_lt_le x.1 d.1 t); [done|by apply Hg|done|done|done|]. rewrite Eo. by destruct (kcmp t d.1).
Qed.

Lemma isorted_below t l d : good t -> Forall kgood l -> StronglySorted klt l -> last l = Some d -> kcmp t d.1 = Gt -> kbelow t l.
Proof.
  intros Ht Hg Hs (l' & ->)%last_Some Hd. apply Forall_app_2; [|by apply Forall_singleton]. apply (sorted_before t l' d); try done. by rewrite Hd.
Qed.

Lemma sorted_above t d l : good t -> Forall kgood (d :: l) -> StronglySorted klt (d :: l) -> kcmp t d.1 = Lt -> kabove t (d :: l).
Proof.
  intros Ht [Hgd Hg]%Forall_cons [Hs Hd]%StronglySorted_inv Htd. apply Forall_cons_2; [done|]. rewrite Forall_forall in Hd, Hg |- *.
  intros x Hx. apply (ko_lt_le t d.1 x.1); try done; [by apply Hg|]. by rewrite (Hd x Hx).
Qed.

Lemma kins_sorted e l : kgood e -> Forall kgood l -> StronglySorted klt l -> StronglySorted klt (kins e l).
Proof.
  intros He Hg Hs. induction Hs as [|x l Hl IH Hx]; cbn [kins]; [by repeat constructor|]. apply Forall_cons in Hg as [Hgx Hg].
  destruct (kcmp e.1 x.1) eqn:E.
  - by constructor.
  - constructor; [by constructor|]. apply (sorted_above e.1 x l); try done; [by apply Forall_cons_2|by constructor].
  - constructor; [by apply IH|]. apply Forall_kins; [|done]. unfold klt. rewrite (ko_opp e.1 x.1) by done. by rewrite E.
Qed.

(** The search of [insert_rec]. *)
Lemma find_place_spec t es : good t -> Forall kgood es -> StronglySorted klt es -> forall i,
  (exists a x c, es = a ++ x :: c /\ find_place reg colls descs enc t es i = Ok None /\ kbelow t a /\ kcmp t x.1 = Eq) \/
  (exists a c, es = a ++ c /\ find_place reg colls descs enc t es i = Ok (Some (i + zlen a)) /\ kbelow t a /\ kabove t c).
Proof.
  intros Ht Hg Hs. induction Hs as [|x es Hl IH Hx]; intros i.
  { right. exists [], []. rewrite zlen_nil, Z.add_0_r. repeat split; constructor. }
  pose proof Hg as [Hgx Hg']%Forall_cons. cbn [find_place]. pose proof (ko_cmp t x.1 Ht Hgx) as Ec. cbn beta in Ec. rewrite Ec. bind_step. destruct (kcmp t x.1) eqn:E.
  - left. exists [], x, es. repeat split; [constructor|done].
  - right. exists [], (x :: es). rewrite zlen_nil, Z.add_0_r. split_and!; [done|done|constructor|].
    apply (sorted_above t x es); try done. by constructor.
  - destruct (IH Hg' (i + 1)) as [(a & y & c & -> & -> & Ha & Hy)|(a & c & -> & -> & Ha & Hc)].
    + left. exists (x :: a), y, c. split_and!; try done. by apply Forall_cons_2.
    + right. exists (x :: a), c. rewrite zlen_cons. split_and!; try done; [do 2 f_equal; lia|by apply Forall_cons_2].
Qed.

End order.

End IndexTree.
