(* ===== verification/IndexBalance.v ===== *)
(** Index pages written back: leaves and interior pages stored on the heap,
    pooled windows of leaves redistributed with promoted entries
    ([balance_leaf_pooled]), and interior pages split in two
    ([finish_interior]). *)

From stdpp Require Import sorting.
From S2P Require Import Prelude Varint Header Balance Pager BtPage Cursor WritePager WritePagerProps Writer WriterPages WriterHeap WriterTree WriterBalance WriterNode IndexWriter IndexPages IndexTree.
Import BtPage WritePager WritePagerProps WriterPages WriterHeap IndexWriter IndexPages IndexTree.
Local Open Scope Z_scope.

Module IndexBalance.

(** ** Entries that can be written *)

Definition ecell_ok (u : Z) (e : IdxKey) : Prop := is_bytes e.2 /\ 1 <= zlen e.2 /\ 255 * (zlen e.2 + 10) <= 64 * (u - 12).

Lemma stored_ecell H u Q l : 257 <= u -> Forall (stored H u Q) l -> Forall (ecell_ok u) l.
Proof. intros Hu Hl. eapply Forall_impl; [exact Hl|]. intros e. by apply stored_size. Qed.

Lemma leaf_total es : total (icell_bytes LeafIndex <$> (pair 0 <$> rcells es)) + 2 * zlen (pair 0 <$> rcells es) = Balance.run_size (rsizes es).
Proof.
  unfold rcells. induction es as [|e es IH]; [done|]. cbn [fmap list_fmap]. rewrite zlen_cons.
  change (zlen (icell_bytes LeafIndex (0, e.2)) + total (icell_bytes LeafIndex <$> (pair 0 <$> es.*2)) + 2 * (zlen (pair 0 <$> es.*2) + 1) =
    2 + zlen e.2 + Balance.run_size (rsizes es)). rewrite zlen_icell_bytes. cbn [key_shift is_leaf snd]. lia.
Qed.

Lemma node_total (rs : list Z) divs : (length divs <= length rs)%nat ->
  total (icell_bytes InteriorIndex <$> (raw_cell <$> zip rs divs)) + 2 * zlen (raw_cell <$> zip rs divs) = ineed divs.
Proof.
  revert divs. induction rs as [|r rs IH]; intros [|d divs] Hl; [done|simpl in Hl; lia|done|].
  cbn [zip_with fmap list_fmap]. rewrite zlen_cons.
  change (zlen (icell_bytes InteriorIndex (r, d.2)) + total (icell_bytes InteriorIndex <$> (raw_cell <$> zip rs divs)) + 2 * (zlen (raw_cell <$> zip rs divs) + 1) =
    6 + zlen d.2 + ineed divs). rewrite zlen_icell_bytes. cbn [key_shift is_leaf snd]. rewrite <- (IH divs) by (simpl in Hl; lia). lia.
Qed.

Lemma write_ileaf w H u n es : holds w H -> usable_size w = u -> is_Some (H !! n) -> n <> 1 ->
  Forall (ecell_ok u) es -> Balance.run_size (rsizes es) <= u - 8 ->
  exists buf w', serialize_index_leaf (wp_page_size w) u 0 (rcells es) None = Ok buf /\ write_page w n buf = Ok w' /\ evolves 0 w w' /\
    holds w' (<[n := buf]> H) /\ itree_ok (<[n := buf]> H) u 0 (ILeaf n es).
Proof.
  intros Hh Eu Hs Hn Hc Hfit. destruct (holds_geom w H Hh) as (Hu & Hups & Hps & _). rewrite Eu in *. rewrite serialize_index_leaf_page.
  destruct (index_page_image LeafIndex "index leaf page overflow while serializing" 10 u (wp_page_size w) n (pair 0 <$> rcells es) 0) as (d & Es & Hz & Hb & Him); try done.
  { apply Forall_fmap, Forall_fmap. eapply Forall_impl; [exact Hc|]. intros e (H1 & H2 & _). cbn. by split_and!. }
  { rewrite leaf_total. cbn. lia. }
  destruct (heap_write w H n d Hh Hs Hz Hb) as (w' & Ew & Hh' & Hev). exists d, w'. split_and!; try done.
  split; [|done]. exists d. by rewrite lookup_insert_eq.
Qed.

Lemma write_inode w H u h n kids divs : holds w H -> usable_size w = u -> is_Some (H !! n) -> n <> 1 ->
  length kids = S (length divs) -> Forall (itree_ok H u h) kids -> Forall (ecell_ok u) divs -> n ∉ fipages kids -> ineed divs <= u - 12 ->
  exists buf w', serialize_index_interior (wp_page_size w) u 0 (zip (iroots kids) divs) (default 0 (last (iroots kids))) None = Ok buf /\
    write_page w n buf = Ok w' /\ evolves 0 w w' /\ holds w' (<[n := buf]> H) /\ itree_ok (<[n := buf]> H) u (S h) (INode n kids divs).
Proof.
  intros Hh Eu Hs Hn Hl Hk Hd Hnk Hneed. destruct (holds_geom w H Hh) as (Hu & Hups & Hps & _). rewrite Eu in *. rewrite serialize_index_interior_page.
  pose proof (iroots_u32 w H u h kids Hh Hk) as Hr. pose proof (length_iroots kids) as Hlr.
  destruct (index_page_image InteriorIndex "index interior page overflow while serializing" 2 u (wp_page_size w) n (raw_cell <$> zip (iroots kids) divs)
    (default 0 (last (iroots kids)))) as (d & Es & Hz & Hb & Him); try done.
  { rewrite Forall_forall in Hr. rewrite Forall_forall in Hd. apply Forall_forall. intros x ([r e] & -> & Hin)%list_elem_of_fmap. destruct (Hd e) as (H1 & H2 & _); [by eapply elem_of_zip_r|].
    split_and!; [apply Hr; by eapply elem_of_zip_l|done|done]. }
  { by apply WriterNode.last_u32. }
  { rewrite node_total by lia. cbn. lia. }
  destruct (heap_write w H n d Hh Hs Hz Hb) as (w' & Ew & Hh' & Hev). exists d, w'. split_and!; try done.
  cbn [itree_ok]. split_and!; try done.
  - exists d. by rewrite lookup_insert_eq.
  - apply (kids_frame H); [done|]. intros p e Hp He. rewrite lookup_insert_ne; [done|]. by intros ->.
Qed.

(** ** Reading pages back *)

Lemma read_leaf_spec w H Q n d es : holds w H -> ipage_image n d LeafIndex (pair 0 <$> rcells es) 0 -> Forall (stored H (usable_size w) Q) es ->
  exists bt, BtPage.parse (Pager.mkPage n d) = Ok bt /\ page_type bt = LeafIndex /\ read_leaf w bt (usable_size w) = Ok es.
Proof.
  intros Hh (bt & Ep & Et & En & _ & _ & Hon) Hst. exists bt. split_and!; try done. unfold read_leaf.
  assert (num_cells bt = zlen (pair (B := IdxKey) 0 <$> es)) as -> by (rewrite En; unfold zlen, rcells; by rewrite !length_fmap).
  unfold zlen. rewrite Nat2Z.id. pose proof (read_entries_spec w H bt Hh ltac:(by rewrite Et) (pair 0 <$> es) 0) as E.
  change (Z.of_nat 0) with 0 in E. rewrite E.
  - bind_step. f_equal. rewrite <- list_fmap_compose. apply list_fmap_id.
  - intros j c Hj. rewrite list_lookup_fmap in Hj. destruct (es !! j) as [e|] eqn:Ej; [|done]. injection Hj as <-. split_and!; [|done|done|].
    + apply (Hon j). unfold rcells. by rewrite !list_lookup_fmap, Ej.
    + rewrite Forall_lookup in Hst. destruct (Hst j e Ej) as (ps & _ & He). by exists ps.
Qed.

Lemma read_interior_spec w H Q n d rs divs r : holds w H -> ipage_image n d InteriorIndex (raw_cell <$> zip rs divs) r ->
  Forall is_u32 rs -> Forall (stored H (usable_size w) Q) divs ->
  exists bt, BtPage.parse (Pager.mkPage n d) = Ok bt /\ page_type bt = InteriorIndex /\ read_interior w bt (usable_size w) = Ok (zip rs divs, r).
Proof.
  intros Hh (bt & Ep & Et & En & Er & _ & Hon) Hr Hst. exists bt. split_and!; try done. unfold read_interior.
  assert (num_cells bt = zlen (zip rs divs)) as -> by (rewrite En; unfold zlen; by rewrite length_fmap).
  unfold zlen. rewrite Nat2Z.id. pose proof (read_entries_spec w H bt Hh ltac:(by rewrite Et) (zip rs divs) 0) as E.
  change (Z.of_nat 0) with 0 in E. rewrite E.
  - bind_step. by rewrite Er.
  - intros j [c e] Hj. pose proof Hj as (Hc & He)%lookup_zip_Some. rewrite Forall_lookup in Hr. rewrite Forall_lookup in Hst. split_and!.
    + apply (Hon j). by rewrite list_lookup_fmap, Hj.
    + by apply (Hr j).
    + by rewrite Et.
    + destruct (Hst j e He) as (ps & _ & Hps). by exists ps.
Qed.

(** ** Pooling a window of leaves *)

(** Running totals with a divider after each list. *)
Fixpoint running (acc : Z) (cl : list (list IdxKey)) : list Z :=
  match cl with
  | [] => []
  | c :: cl => (acc + zlen c) :: running (acc + zlen c + 1) cl
  end.

Lemma ipool_window_spec w H Q p child dividers : holds w H -> forall cl roots wd at_ pooled,
  length roots = length cl -> length cl = S (length wd) ->
  (forall i d, wd !! i = Some d -> idx dividers (at_ + Z.of_nat i) = Ok d) ->
  (forall i r es, roots !! i = Some r -> cl !! i = Some es ->
     if at_ + Z.of_nat i =? p then es = child
     else exists d, H !! r = Some d /\ ipage_image r d LeafIndex (pair 0 <$> rcells es) 0 /\ Forall (stored H (usable_size w) Q) es) ->
  pool_window w roots dividers at_ p child pooled = Ok (pooled ++ inter cl wd, running (zlen pooled) cl).
Proof.
  intros Hh. induction cl as [|es cl IH]; intros [|r roots] wd at_ pooled Hl Hlw Hd Hi; try done. cbn [pool_window running].
  assert ((if at_ =? p then Ok child else let* bt := Writer.read_bt w r in read_leaf w bt (usable_size w)) = Ok es) as ->.
  { specialize (Hi 0%nat r es eq_refl eq_refl). rewrite Z.add_0_r in Hi. destruct (at_ =? p); [by rewrite Hi|].
    destruct Hi as (d & Hd' & Him & Hst). destruct (read_leaf_spec w H Q r d es Hh Him Hst) as (bt & Ep & _ & Er).
    unfold Writer.read_bt. rewrite (wp_page_Ok w H r d Hh Hd'). bind_step. rewrite Ep. bind_step. done. }
  bind_step. destruct roots as [|r' roots], cl as [|es' cl]; try done.
  - destruct wd; [|done]. bind_step. cbn [pool_window]. bind_step. cbn [inter running]. by rewrite app_nil_r, zlen_app.
  - destruct wd as [|d wd]; [done|]. specialize (Hd 0%nat d eq_refl) as E0. rewrite Z.add_0_r in E0. rewrite E0. do 2 bind_step.
    rewrite (IH (r' :: roots) wd (at_ + 1) ((pooled ++ es) ++ [d])).
    + bind_step. rewrite <- !app_assoc. cbn [app]. rewrite !zlen_app. change (zlen [d]) with 1. by rewrite Z.add_assoc.
    + simpl in *. lia.
    + simpl in *. lia.
    + intros i x Hx. replace (at_ + 1 + Z.of_nat i) with (at_ + Z.of_nat (S i)) by lia. by apply Hd.
    + intros i x y Hx Hy. replace (at_ + 1 + Z.of_nat i) with (at_ + Z.of_nat (S i)) by lia. by apply (Hi (S i)).
Qed.

Lemma zlen_inter (cl : list (list IdxKey)) wd : length cl = S (length wd) -> zlen (inter cl wd) = zlen (concat cl) + zlen wd.
Proof.
  revert wd. induction cl as [|c cl IH]; intros [|d wd] Hl; try done.
  - destruct cl; [|done]. cbn. rewrite app_nil_r, zlen_nil. lia.
  - change (inter (c :: cl) (d :: wd)) with (c ++ d :: inter cl wd). cbn [concat]. rewrite !zlen_app, !zlen_cons, IH by (simpl in Hl; lia). lia.
Qed.

Lemma ilength_running acc cl : length (running acc cl) = length cl.
Proof. revert acc. induction cl; intros acc; simpl; [done|]. by rewrite IHcl. Qed.

Lemma irunning_at cl : forall acc t, 0 <= t < zlen cl ->
  Balance.at_ (running acc cl) t = acc + t + zlen (concat (take (Z.to_nat (t + 1)) cl)).
Proof.
  induction cl as [|c cl IH]; intros acc t Ht; [unfold zlen in Ht; simpl in Ht; lia|]. rewrite zlen_cons in Ht.
  destruct (decide (t = 0)) as [->|Hne].
  - change (Z.to_nat (0 + 1)) with 1%nat. cbn [take concat]. rewrite app_nil_r, Z.add_0_r. done.
  - replace (Z.to_nat (t + 1)) with (S (Z.to_nat (t - 1 + 1))) by lia. cbn [take concat]. rewrite zlen_app.
    assert (Balance.at_ (running acc (c :: cl)) t = Balance.at_ (running (acc + zlen c + 1) cl) (t - 1)) as ->.
    { unfold Balance.at_. replace (Z.to_nat t) with (S (Z.to_nat (t - 1))) by lia. done. }
    rewrite IH by lia. lia.
Qed.

Lemma irunning_old_ok cl wd : length cl = S (length wd) -> Balance.old_ok (zlen (inter cl wd)) 0 (running 0 cl).
Proof.
  intros Hl. rewrite zlen_inter by done. assert (zlen (running 0 cl) = zlen cl) as Ez by (unfold zlen; by rewrite ilength_running).
  assert (zlen cl = zlen wd + 1) as Hz by (unfold zlen; lia). pose proof (zlen_nonneg wd). pose proof (zlen_nonneg (concat cl)).
  assert (forall t, 0 <= t < zlen cl -> 0 <= zlen (concat (take (Z.to_nat (t + 1)) cl)) <= zlen (concat cl)) as Hr.
  { intros t Ht. split; [apply zlen_nonneg|]. rewrite <- (firstn_all cl) at 2. apply WriterBalance.zlen_concat_take_le. unfold zlen in Ht. lia. }
  split; [lia|]. rewrite Ez. split.
  - rewrite irunning_at by lia. replace (zlen cl - 1 + 1) with (zlen cl) by lia. rewrite take_ge by (unfold zlen; lia). lia.
  - intros t Ht. unfold Balance.page_start. specialize (Hr t Ht) as Hrt. rewrite (irunning_at cl 0 t) by lia. destruct (Z.eqb_spec t 0); [lia|].
    specialize (Hr (t - 1) ltac:(lia)). rewrite irunning_at by lia.
    pose proof (WriterBalance.zlen_concat_take_le cl (Z.to_nat (t - 1 + 1)) (Z.to_nat (t + 1)) ltac:(lia)). lia.
Qed.

(** ** Cutting the pool *)

(** The boundaries cut the entries from [start] on into non-empty runs that fit
    [us] bytes, with one entry left out after each but the last. *)
Fixpoint icuts (sz : list Z) (us start : Z) (cnt : list Z) : Prop :=
  match cnt with
  | [] => False
  | [e] => start < e /\ e = zlen sz /\ Balance.run_size (sub sz start e) <= us
  | e :: cnt => start < e /\ e < zlen sz /\ Balance.run_size (sub sz start e) <= us /\ icuts sz us (e + 1) cnt
  end.

Lemma partition_icuts sz us cnt : Balance.partition_ok sz 0 us cnt -> icuts sz us 0 cnt.
Proof.
  intros (Hl & Hlast & Ht).
  assert (forall k (i : nat), k = (length cnt - i)%nat -> (i < length cnt)%nat -> icuts sz us (Balance.page_start 0 cnt (Z.of_nat i)) (drop i cnt)) as Hgen.
  { induction k as [|k IH]; intros i Ek Hi; [lia|]. destruct (lookup_lt_is_Some_2 cnt i Hi) as [e Ee]. rewrite (drop_S _ e) by done.
    assert (Balance.at_ cnt (Z.of_nat i) = e) as Ea by (unfold Balance.at_; by rewrite Nat2Z.id, Ee).
    destruct (Ht (Z.of_nat i)) as (H1 & H2 & H3); [unfold zlen; lia|]. rewrite Ea in *.
    destruct (drop (S i) cnt) as [|e' rest] eqn:Er.
    - cbn [icuts]. split_and!; [lia| |done]. assert (length (drop (S i) cnt) = 0%nat) as Hz by (by rewrite Er). rewrite length_drop in Hz.
      rewrite <- Ea, <- Hlast. f_equal. unfold zlen. lia.
    - assert (S i < length cnt)%nat as Hi'.
      { apply (f_equal length) in Er. rewrite length_drop in Er. simpl in Er. lia. }
      specialize (IH (S i) ltac:(lia) Hi'). destruct (Ht (Z.of_nat (S i))) as (F1 & F2 & _); [unfold zlen; lia|].
      unfold Balance.page_start in IH, F1. destruct (Z.eqb_spec (Z.of_nat (S i)) 0); [lia|].
      replace (Z.of_nat (S i) - 1) with (Z.of_nat i) in IH, F1 by lia. rewrite Ea in IH, F1. replace (e + (1 - 0)) with (e + 1) in IH, F1 by lia.
      change (icuts sz us (Balance.page_start 0 cnt (Z.of_nat i)) (e :: e' :: rest)) with
        (Balance.page_start 0 cnt (Z.of_nat i) < e /\ e < zlen sz /\
         Balance.run_size (sub sz (Balance.page_start 0 cnt (Z.of_nat i)) e) <= us /\ icuts sz us (e + 1) (e' :: rest)).
      split_and!; [lia|lia|done|]. rewrite <- Er. exact IH. }
  specialize (Hgen (length cnt - 0)%nat 0%nat eq_refl). rewrite drop_0 in Hgen. apply Hgen. unfold zlen in Hl. lia.
Qed.

Lemma zlen_rsizes es : zlen (rsizes es) = zlen es.
Proof. unfold zlen, rsizes. by rewrite length_fmap. Qed.

(** Writing one leaf per cut of the pool; the entries at the cuts are promoted. *)
Lemma iwrite_slices_spec u pool : 257 <= u -> Forall (ecell_ok u) pool -> forall cnt start kept w H,
  holds w H -> usable_size w = u -> icuts (rsizes pool) (u - 8) start cnt -> 0 <= start -> length kept = length cnt ->
  NoDup kept -> Forall (fun p => is_Some (H !! p)) kept -> 1 ∉ kept ->
  exists kids divs w' H', IndexWriter.write_slices cnt kept pool start (wp_page_size w) u w = Ok (divs, w') /\ holds w' H' /\ evolves 0 w w' /\
    iroots kids = kept /\ fipages kids = kept /\ length kids = S (length divs) /\ Forall (itree_ok H' u 0) kids /\
    inter (map ikeys kids) divs = drop (Z.to_nat start) pool /\ Forall (ecell_ok u) divs /\ (forall p, p ∉ kept -> H' !! p = H !! p).
Proof.
  intros Hu Hcells. induction cnt as [|e cnt IH]; intros start kept w H Hh Eu Hcut Hst Hlen Hnd Hs H1; [done|].
  destruct kept as [|pg kept]; [done|]. apply NoDup_cons in Hnd as [Hnp Hnd]. apply Forall_cons in Hs as [Hsp Hs].
  apply not_elem_of_cons in H1 as [Hp1 H1].
  assert (start < e /\ e <= zlen pool /\ Balance.run_size (rsizes (sub pool start e)) <= u - 8 /\
    match cnt with [] => e = zlen pool | _ => e < zlen pool /\ icuts (rsizes pool) (u - 8) (e + 1) cnt end) as (Hse & He & Hrun & Hrest).
  { cbn [icuts] in Hcut. rewrite zlen_rsizes in Hcut. unfold rsizes in Hcut at 1 2. rewrite WriterBalance.sub_fmap in Hcut. fold (rsizes (sub pool start e)) in Hcut.
    destruct cnt; naive_solver lia. }
  assert (drop (Z.to_nat start) pool = sub pool start e ++ drop (Z.to_nat e) pool) as Esplit.
  { rewrite <- (sub_full pool start), <- (sub_app_split pool start e), sub_full by lia. done. }
  assert (Forall (ecell_ok u) (sub pool start e)) as Hok by (by apply Forall_take, Forall_drop).
  cbn [IndexWriter.write_slices]. rewrite slice_Ok by lia. bind_step.
  destruct (write_ileaf w H u pg (sub pool start e) Hh Eu Hsp ltac:(lia) Hok Hrun) as (buf & w1 & -> & Ew & Hev & Hh1 & Ht). bind_step. rewrite Ew. bind_step.
  destruct cnt as [|e' cnt].
  - exists [ILeaf pg (sub pool start e)], [], w1, (<[pg := buf]> H). destruct kept; [|done]. split_and!; try done.
    + by apply Forall_singleton.
    + cbn. rewrite Esplit. rewrite (drop_ge pool) by (unfold zlen in *; lia). done.
    + intros p [Hp _]%not_elem_of_cons. by rewrite lookup_insert_ne.
  - destruct Hrest as [Hez Hrest]. destruct (idx_in_range pool e) as [d Ed]; [lia|]. rewrite Ed. bind_step. apply idx_Ok in Ed as [_ Ed].
    pose proof Hev as (Eu1 & Eps1 & _).
    assert (Forall (fun p => is_Some (<[pg := buf]> H !! p)) kept) as Hs'.
    { rewrite Forall_forall in Hs |- *. intros q Hq. rewrite lookup_insert_ne by (by intros ->). by apply Hs. }
    destruct (IH (e + 1) kept w1 (<[pg := buf]> H) Hh1 ltac:(congruence) Hrest ltac:(lia) ltac:(simpl in *; lia) Hnd Hs' H1)
      as (kids & divs & w2 & H2 & E2 & Hh2 & Hev2 & Er & Epg & Hl & Hk & Ecells & Hdiv & Hfr).
    rewrite Eps1 in E2. rewrite E2. bind_step.
    exists (ILeaf pg (sub pool start e) :: kids), (d :: divs), w2, H2. split_and!; try done.
    + eapply evolves_mono; [by eapply evolves_trans|lia].
    + unfold iroots in *. cbn [fmap list_fmap iroot]. f_equal. exact Er.
    + unfold fipages in *. cbn [flat_map ipages app]. f_equal. exact Epg.
    + simpl. lia.
    + apply Forall_cons_2; [|done]. apply (itree_ok_frame (<[pg := buf]> H)); [done|]. intros p b Hp Hb.
      cbn [ipages] in Hp. apply list_elem_of_singleton in Hp as ->. by rewrite Hfr.
    + cbn [map ikeys]. change (inter (sub pool start e :: map ikeys kids) (d :: divs)) with (sub pool start e ++ d :: inter (map ikeys kids) divs).
      rewrite Ecells, Esplit. f_equal. rewrite (drop_S pool d (Z.to_nat e)) by done. do 2 f_equal. lia.
    + apply Forall_cons_2; [|done]. rewrite Forall_lookup in Hcells. by apply (Hcells _ d Ed).
    + intros p [Hp1' Hp2]%not_elem_of_cons. rewrite Hfr by done. by rewrite lookup_insert_ne.
Qed.

(** What a rebalanced run of leaves is: at most four leaves with the pooled
    entries, on old pages and fresh ones. *)
Definition rebalanced (H H' : gmap Z bytes) (u : Z) (old : list Z) (pool : list IdxKey) (kids : list itree) (divs : list IdxKey) : Prop :=
  length kids = S (length divs) /\ Forall (itree_ok H' u 0) kids /\ inter (map ikeys kids) divs = pool /\ Forall (ecell_ok u) divs /\
  WriterBalance.fresh_pages H old (fipages kids) /\ fipages kids = iroots kids /\ (length kids <= 4)%nat.

Lemma ipool_sizes u pool : 257 <= u -> Forall (ecell_ok u) pool ->
  Forall (fun x => 0 <= x) (rsizes pool) /\ Forall (fun x => 3 * (2 + x) <= Balance.usable_space true u) (rsizes pool).
Proof.
  intros Hu Hc. split; apply Forall_fmap; eapply Forall_impl; try exact Hc; intros e (_ & H1 & H2); cbn.
  - apply zlen_nonneg.
  - unfold Balance.usable_space. lia.
Qed.

Lemma ibalance_leaf_pooled_spec w H u old pool cnt_old : holds w H -> usable_size w = u -> is_Some (H !! 1) ->
  NoDup old -> Forall (fun p => is_Some (H !! p)) old -> 1 ∉ old ->
  pool <> [] -> Forall (ecell_ok u) pool -> Balance.old_ok (zlen pool) 0 cnt_old -> Balance.run_size (rsizes pool) < 4 * (u - 7) ->
  wp_page_count w + 12 < 2 ^ 32 ->
  exists kids divs w' H', IndexWriter.balance_leaf_pooled w old pool cnt_old = Ok ((iroots kids, divs), w') /\ holds w' H' /\ evolves 12 w w' /\
    rebalanced H H' u old pool kids divs /\ WriterBalance.frame H H' old.
Proof.
  intros Hh Eu Hone Hnd Hown H1o Hne Hok Hold Hrun Hpc. destruct (holds_geom w H Hh) as (Hu & Hups & Hps & Hfull & _). rewrite Eu in *.
  unfold IndexWriter.balance_leaf_pooled. rewrite Eu. destruct (ipool_sizes u pool Hu Hok) as [Hs0 Hs1].
  destruct (Balance.distribute_spec (rsizes pool) cnt_old true false u) as (cnt & Ed & Hpart & _ & Hcount); [|done|done|by rewrite zlen_rsizes|].
  { intros E. apply Hne. by apply fmap_nil_inv in E. }
  unfold rsizes at 1 in Ed. rewrite Ed. bind_step. specialize (Hcount eq_refl). unfold Balance.usable_space in *. replace (u + 4 - 12) with (u - 8) in * by lia.
  assert ((length cnt <= 4)%nat) as Hc4 by (assert (zlen cnt - 1 < 4) as Hq by nia; unfold zlen in Hq; lia).
  pose proof (partition_icuts _ _ _ Hpart) as Hcuts.
  destruct (alloc_pages_spec (length cnt - length old) w H Hh ltac:(lia)) as (fresh & w1 & H1 & -> & Hfl & Hfnd & Hfnone & Hh1 & Hev1 & Hfown & Hfr1). bind_step.
  assert (take (length cnt) old ++ drop (length cnt `min` length old) old = old) as Eold.
  { transitivity (take (length cnt `min` length old) old ++ drop (length cnt `min` length old) old); [|apply take_drop]. f_equal.
    destruct (Nat.min_spec (length cnt) (length old)) as [[? ->]|[? ->]]; [done|].
    by rewrite !take_ge by lia. }
  set (olds := take (length cnt) old) in *. set (surplus := drop (length cnt `min` length old) old) in *.
  rewrite <- Eold in Hnd, Hown, H1o. apply NoDup_app in Hnd as (Hnd1 & Hdis & Hnd2). apply Forall_app in Hown as [Hown1 Hown2].
  rewrite Forall_forall in Hown1. rewrite Forall_forall in Hown2. rewrite Forall_forall in Hfnone.
  assert (forall p, p ∈ olds ++ surplus -> p ∉ fresh) as Hof.
  { intros p Hp Hpf. specialize (Hfnone p Hpf). apply elem_of_app in Hp as [Hp|Hp]; [destruct (Hown1 p Hp)|destruct (Hown2 p Hp)]; congruence. }
  destruct (free_pages_spec surplus w1 H1 Hh1 Hnd2) as (w2 & H2 & -> & Hh2 & Hev2 & Hgone & Hfr2).
  { apply Forall_forall. intros p Hp. rewrite Hfr1 by (apply Hof, elem_of_app; by right). by apply Hown2. }
  bind_step. set (kept := merge_sort Z.le (olds ++ fresh)). assert (kept ≡ₚ olds ++ fresh) as Hperm by apply merge_sort_Permutation.
  pose proof (evolves_trans _ _ _ _ _ Hev1 Hev2) as Hev12. pose proof Hev12 as (Eu2 & Eps2 & _).
  assert (NoDup kept) as Hndk.
  { rewrite Hperm. apply NoDup_app. split_and!; [done| |done]. intros p Hp. apply Hof, elem_of_app. by left. }
  assert (length kept = length cnt) as Hlk by (rewrite Hperm, length_app, Hfl; unfold olds; rewrite length_take; lia).
  assert (forall p, p ∈ kept -> p ∉ surplus) as Hks.
  { intros p Hp Hps'. rewrite Hperm in Hp. apply elem_of_app in Hp as [Hp|Hp]; [by apply (Hdis p)|].
    apply (Hof p); [apply elem_of_app; by right|done]. }
  destruct (iwrite_slices_spec u pool Hu Hok cnt 0 kept w2 H2) as (kids & divs & w3 & H3 & E3 & Hh3 & Hev3 & Er & Epg & Hl & Hk & Ecells & Hdiv & Hfr3);
    try done; [congruence| | |].
  { apply Forall_forall. intros p Hp. rewrite Hfr2 by (by apply Hks). rewrite Hperm in Hp. apply elem_of_app in Hp as [Hp|Hp].
    - rewrite Hfr1 by (apply Hof, elem_of_app; by left). by apply Hown1.
    - rewrite Forall_forall in Hfown. by apply Hfown. }
  { rewrite Hperm. intros [Hp|Hp]%elem_of_app; [apply H1o, elem_of_app; by left|]. destruct Hone as [d1 Hd1]. rewrite (Hfnone 1 Hp) in Hd1. done. }
  rewrite Hfull. rewrite <- Eps2, E3. bind_step. exists kids, divs, w3, H3. rewrite Er. split_and!; try done.
  - eapply evolves_mono; [by eapply evolves_trans|]. lia.
  - split_and!; try done; [split; rewrite Epg; [done|]| |].
    + intros p Hp. rewrite Hperm in Hp. apply elem_of_app in Hp as [Hp|Hp]; [left; rewrite <- Eold; apply elem_of_app; by left|right]. by apply Hfnone.
    + congruence.
    + rewrite <- (length_iroots kids), Er, Hlk. done.
  - intros p d Hp Hd. rewrite <- Eold in Hp. apply not_elem_of_app in Hp as [Hp1 Hp2].
    assert (p ∉ fresh) as Hpf by (intros Hpf; rewrite (Hfnone p Hpf) in Hd; done).
    rewrite Hfr3, Hfr2, Hfr1; try done. rewrite Hperm. by intros [?|?]%elem_of_app.
Qed.

(** ** Splitting an interior page *)

Lemma igroup_end_spec cap : forall cells used b, exists j : nat, IndexWriter.group_end cells false used cap b = b + Z.of_nat j /\ (j <= length cells)%nat /\
  (used <= cap -> used + ineed (take j (cells.*2)) <= cap) /\ (j = length cells \/ cap < used + ineed (take (S j) (cells.*2))).
Proof.
  induction cells as [|c cells IH]; intros used b; cbn [IndexWriter.group_end].
  { exists 0%nat. split_and!; [lia|done|change (ineed (take 0 _)) with 0; lia|by left]. }
  cbn [orb]. destruct (Z.leb_spec (used + (4 + zlen c.2.2 + 2)) cap) as [Hle|Hgt].
  - destruct (IH (used + (4 + zlen c.2.2 + 2)) (b + 1)) as (j & -> & Hj & Hfit & Hmax). exists (S j).
    assert (forall k, ineed (take (S k) ((c :: cells).*2)) = 6 + zlen c.2.2 + ineed (take k (cells.*2))) as E by done.
    split_and!; [lia|simpl; lia| |].
    + intros _. rewrite E. specialize (Hfit Hle). lia.
    + destruct Hmax as [->|Hmax]; [by left|right]. rewrite E. lia.
  - exists 0%nat. split_and!; [lia|simpl; lia|change (ineed (take 0 _)) with 0; lia|]. right.
    change (ineed (take 1 ((c :: cells).*2))) with (6 + zlen c.2.2 + 0). lia.
Qed.

Lemma ineed_max u ds : Forall (ecell_ok u) ds -> 255 * ineed ds <= zlen ds * (64 * (u - 12) - 1020).
Proof.
  induction 1 as [|d ds (_ & _ & Hd) _ IH]; [done|]. change (ineed (d :: ds)) with (6 + zlen d.2 + ineed ds). rewrite zlen_cons. lia.
Qed.

Lemma ineed_take_le ds j k : (j <= k)%nat -> ineed (take j ds) <= ineed (take k ds).
Proof.
  intros Hj. replace k with (j + (k - j))%nat by lia. rewrite <- take_take_drop, ineed_app. pose proof (ineed_nonneg (take (k - j) (drop j ds))). lia.
Qed.

Lemma igroup_end_first u cells b : 257 <= u -> Forall (ecell_ok u) (cells.*2) ->
  IndexWriter.group_end cells true 0 (u - 12) b = IndexWriter.group_end cells false 0 (u - 12) b.
Proof.
  intros Hu Hc. destruct cells as [|c cells]; [done|]. cbn [IndexWriter.group_end orb]. cbn in Hc. apply Forall_cons in Hc as [(_ & _ & Hc) _].
  destruct (Z.leb_spec (0 + (4 + zlen c.2.2 + 2)) (u - 12)); [done|lia].
Qed.

Lemma ipack_groups_last fuel cells r u i : 257 <= u -> Forall (ecell_ok u) (cells.*2) -> 0 <= i <= zlen cells ->
  ineed (drop (Z.to_nat i) (cells.*2)) <= u - 12 ->
  IndexWriter.pack_groups (S fuel) cells r 0 u i = Ok ([(drop (Z.to_nat i) cells, r)], []).
Proof.
  intros Hu Hc Hi Hn. cbn [IndexWriter.pack_groups]. assert (sat_sub u (0 + 12) = u - 12) as -> by (unfold sat_sub; lia).
  rewrite igroup_end_first; [|done|rewrite fmap_drop; by apply Forall_drop].
  destruct (igroup_end_spec (u - 12) (drop (Z.to_nat i) cells) 0 i) as (j & -> & Hj & _ & Hmax).
  assert (j = length (drop (Z.to_nat i) cells)) as ->.
  { destruct Hmax as [|Hmax]; [done|]. exfalso. rewrite fmap_drop in Hmax.
    pose proof (ineed_take_le (drop (Z.to_nat i) (cells.*2)) (S j) (S j + length cells)%nat ltac:(lia)) as Hle.
    rewrite (take_ge _ (S j + length cells)) in Hle by (rewrite length_drop, length_fmap; lia). lia. }
  rewrite length_drop. unfold zlen in *. destruct (Z.leb_spec (Z.of_nat (length cells)) (i + Z.of_nat (length cells - Z.to_nat i))); [|lia].
  rewrite slice_Ok by (unfold zlen; lia). bind_step. change (Z.of_nat (length cells)) with (zlen cells). by rewrite sub_full.
Qed.

(** An interior page that overflows by at most three entries splits in two
    parts that fit, with one entry promoted. *)
Lemma ipack_interior_two cells r u : 257 <= u -> Forall (ecell_ok u) (cells.*2) ->
  u - 12 < ineed (cells.*2) -> 255 * ineed (cells.*2) <= 447 * (u - 12) ->
  exists b c, cells !! b = Some c /\ pack_index_interior cells r 0 u = Ok ([(take b cells, c.1); (drop (S b) cells, r)], [c.2]) /\
    ineed (take b (cells.*2)) <= u - 12 /\ ineed (drop (S b) (cells.*2)) <= u - 12.
Proof.
  intros Hu Hc Hover Hmax. unfold pack_index_interior. cbn [IndexWriter.pack_groups].
  assert (sat_sub u (0 + 12) = u - 12) as -> by (unfold sat_sub; lia). change (Z.to_nat 0) with 0%nat. rewrite drop_0.
  rewrite igroup_end_first by done. destruct (igroup_end_spec (u - 12) cells 0 0) as (j & -> & Hj & Hfit & Hj').
  specialize (Hfit ltac:(lia)). rewrite !Z.add_0_l in *.
  destruct Hj' as [->|Hgt]; [rewrite take_ge in Hfit by (rewrite length_fmap; lia); lia|].
  assert (zlen (cells.*2) = zlen cells) as Ez by (unfold zlen; by rewrite length_fmap).
  assert ((j < length cells)%nat) as Hjl.
  { destruct (decide (j = length cells)) as [->|]; [|lia]. rewrite take_ge in Hfit by (rewrite length_fmap; lia). lia. }
  pose proof (ineed_max u (take (S j) (cells.*2)) ltac:(by apply Forall_take)) as Hb2.
  assert (zlen (take (S j) (cells.*2)) = Z.of_nat j + 1) as Hz2 by (unfold zlen in *; rewrite length_take; lia). rewrite Hz2 in Hb2.
  assert (3 <= Z.of_nat j) as Hj3 by nia.
  destruct (Z.leb_spec (zlen cells) (Z.of_nat j)) as [|Hlt]; [unfold zlen in *; lia|].
  set (bb := if (Z.of_nat j =? zlen cells - 1) && (1 <? Z.of_nat j) then Z.of_nat j - 1 else Z.of_nat j).
  assert (0 <= bb <= Z.of_nat j /\ bb < zlen cells) as Hbb by (unfold bb; destruct (_ && _); lia).
  assert (ineed (drop (S (Z.to_nat bb)) (cells.*2)) <= u - 12) as Hrest.
  { pose proof (ineed_app (take (S (Z.to_nat bb)) (cells.*2)) (drop (S (Z.to_nat bb)) (cells.*2))) as Ea. rewrite take_drop in Ea.
    unfold bb in *. destruct (Z.eqb_spec (Z.of_nat j) (zlen cells - 1)) as [E|E]; cbn [andb] in *.
    - destruct (Z.ltb_spec 1 (Z.of_nat j)); [|lia]. pose proof (ineed_max u (drop (S (Z.to_nat (Z.of_nat j - 1))) (cells.*2)) ltac:(by apply Forall_drop)) as Hd.
      assert (zlen (drop (S (Z.to_nat (Z.of_nat j - 1))) (cells.*2)) = 1) as Hd1 by (unfold zlen in *; rewrite length_drop; lia). rewrite Hd1 in Hd. lia.
    - rewrite Nat2Z.id in *. lia. }
  destruct (lookup_lt_is_Some_2 cells (Z.to_nat bb)) as [c Ec]; [unfold zlen in *; lia|].
  exists (Z.to_nat bb), c. split_and!; [done| |pose proof (ineed_take_le (cells.*2) (Z.to_nat bb) j ltac:(lia)); lia|done].
  fold bb. rewrite slice_Ok by lia. bind_step.
  assert (idx cells bb = Ok c) as -> by (apply idx_Ok; split; [lia|done]). bind_step.
  destruct (length cells) as [|m] eqn:El; [lia|]. rewrite ipack_groups_last; [|done|done|lia|].
  - bind_step. unfold sub. rewrite Z.sub_0_r, drop_0. by replace (Z.to_nat (bb + 1)) with (S (Z.to_nat bb)) by lia.
  - replace (Z.to_nat (bb + 1)) with (S (Z.to_nat bb)) by lia. lia.
Qed.

(** Cutting the children of a page around the entry at [b]. *)
Lemma cut_at (kids : list itree) (divs : list IdxKey) b c : length kids = S (length divs) -> zip (iroots kids) divs !! b = Some c ->
  let k1 := take (S b) kids in let k2 := drop (S b) kids in let d1 := take b divs in let d2 := drop (S b) divs in
  kids = k1 ++ k2 /\ divs = d1 ++ c.2 :: d2 /\ length k1 = S (length d1) /\ length k2 = S (length d2) /\
  zip (iroots k1) d1 = take b (zip (iroots kids) divs) /\ zip (iroots k2) d2 = drop (S b) (zip (iroots kids) divs) /\
  last (iroots k1) = Some c.1 /\ last (iroots k2) = last (iroots kids).
Proof.
  intros Hl Hc. destruct c as [r k]. apply lookup_zip_Some in Hc as [Hr Hk]. cbn [fst snd]. pose proof (lookup_lt_Some _ _ _ Hk) as Hb. unfold iroots in *.
  rewrite !fmap_take, !fmap_drop. split_and!.
  - by rewrite take_drop.
  - by rewrite take_drop_middle.
  - rewrite !length_take. lia.
  - rewrite !length_drop. lia.
  - rewrite zip_with_take. rewrite (take_S_r _ b r) by done. rewrite <- (app_nil_r (take b divs)) at 1.
    rewrite zip_with_app by (rewrite !length_take, length_fmap; lia). by rewrite zip_with_nil_r, app_nil_r.
  - by rewrite zip_with_drop.
  - rewrite (take_S_r _ b r) by done. by rewrite last_snoc.
  - rewrite <- (take_drop (S b) (iroot <$> kids)) at 2. rewrite last_app. destruct (last (drop (S b) (iroot <$> kids))) eqn:E; [done|].
    apply last_None in E. apply (f_equal length) in E. rewrite length_drop, length_fmap in E. simpl in E. lia.
Qed.

(** Writing back an interior page whose children have changed: it is written
    whole when it fits, and otherwise split with one new sibling. *)
Lemma ifinish_interior_spec w H u h n kids divs : holds w H -> usable_size w = u -> is_Some (H !! 1) -> is_Some (H !! n) -> n <> 1 ->
  length kids = S (length divs) -> Forall (itree_ok H u h) kids -> Forall (ecell_ok u) divs -> n ∉ fipages kids ->
  255 * ineed divs <= 447 * (u - 12) -> wp_page_count w + 3 < 2 ^ 32 ->
  exists up w' H', IndexWriter.finish_interior w n 0 (wp_page_size w) u (iroots kids) divs None = Ok (up, w') /\ holds w' H' /\ evolves 3 w w' /\
    WriterBalance.frame H H' [n] /\
    (up = Fit /\ itree_ok H' u (S h) (INode n kids divs) \/
     exists k key q k1 k2 d1 d2, up = UpSplit (mkSplit k [(key, q)]) /\ kids = k1 ++ k2 /\ divs = d1 ++ k :: d2 /\
       length k1 = S (length d1) /\ length k2 = S (length d2) /\ H !! q = None /\
       itree_ok H' u (S h) (INode n k1 d1) /\ itree_ok H' u (S h) (INode q k2 d2)).
Proof.
  intros Hh Eu H1 Hn Hn1 Hl Hk Hd Hnk Hneed Hpc. destruct (holds_geom w H Hh) as (Hu & _). rewrite Eu in Hu. unfold IndexWriter.finish_interior.
  pose proof (length_iroots kids) as Hlr. destruct (WriterNode.zip_children (iroots kids) divs ltac:(lia)) as [_ E2].
  destruct (Z.ltb_spec (zlen (iroots kids)) (zlen divs)); [unfold zlen in *; lia|].
  destruct (last (iroots kids)) as [rgt|] eqn:El.
  2:{ apply last_None in El. rewrite El in Hlr. simpl in Hlr. lia. }
  destruct (IndexWriter.interior_fits (zip (iroots kids) divs) 0 u) eqn:Efit.
  - apply interior_fits_ineed in Efit; [|lia].
    destruct (write_inode w H u h n kids divs) as (buf & w' & Es & Ew & Hev & Hh' & Ht); try done. rewrite El in Es. change (default 0 (Some rgt)) with rgt in Es.
    rewrite Es. bind_step. rewrite Ew. bind_step. exists Fit, w', (<[n := buf]> H). split_and!; try done; [by apply (evolves_mono 0); [|lia]| |by left].
    intros p d Hpn%not_elem_of_cons Hpd. by rewrite lookup_insert_ne by naive_solver.
  - assert (u - 12 < ineed divs) as Hover.
    { destruct (Z.ltb_spec (u - 12) (ineed divs)); [done|]. rewrite <- not_true_iff_false in Efit. exfalso. apply Efit, interior_fits_ineed; lia. }
    destruct (ipack_interior_two (zip (iroots kids) divs) rgt u) as (b & c & Ec & Epk & Hn1' & Hn2'); rewrite ?E2; try done.
    rewrite E2 in *. rewrite Epk. bind_step.
    destruct (cut_at kids divs b c Hl Ec) as (Ek & Ed & Hl1 & Hl2 & Ez1 & Ez2 & El1 & El2).
    set (k1 := take (S b) kids) in *. set (k2 := drop (S b) kids) in *. set (d1 := take b divs) in *. set (d2 := drop (S b) divs) in *.
    rewrite El in El2. rewrite Ek in Hk, Hnk. apply Forall_app in Hk as [Hk1 Hk2]. rewrite Ed in Hd. apply Forall_app in Hd as [Hd1 [Hdk Hd2]%Forall_cons].
    rewrite fipages_app in Hnk. apply not_elem_of_app in Hnk as [Hnk1 Hnk2].
    destruct (write_inode w H u h n k1 d1) as (buf & w1 & Es & Ew & Hev & Hh1 & Ht1); try done.
    rewrite El1 in Es. change (default 0 (Some c.1)) with c.1 in Es. rewrite <- Ez1, Es. bind_step. rewrite Ew. bind_step. pose proof Hev as (Eu1 & Eps1 & Hc1).
    destruct (heap_alloc w1 _ Hh1 ltac:(lia)) as (q & w2 & z & Ea & Hq & Hh2 & Hev2 & _). cbn [IndexWriter.write_parts]. rewrite Ea. bind_step.
    pose proof Hev2 as (Eu2 & Eps2 & _). apply lookup_insert_None in Hq as [Hq Hqn].
    assert (q <> 1) as Hq1 by (intros ->; rewrite Hq in H1; by destruct H1).
    assert (q ∉ fipages k2) as Hqf.
    { intros Hqf. apply kids_owned in Hk2. rewrite Forall_forall in Hk2. destruct (Hk2 q Hqf). congruence. }
    destruct (write_inode w2 (<[q := z]> (<[n := buf]> H)) u h q k2 d2) as (buf2 & w3 & Es2 & Ew2 & Hev3 & Hh3 & Ht2); try done.
    { congruence. }
    { by rewrite lookup_insert_eq. }
    { apply (kids_frame H); [done|]. intros p d Hpf Hpd. rewrite !lookup_insert_ne; [done|by intros ->|]. intros ->. congruence. }
    rewrite El2 in Es2. change (default 0 (Some rgt)) with rgt in Es2. rewrite Eps2, Eps1 in Es2. rewrite <- Ez2, Es2. bind_step. rewrite Ew2. bind_step.
    cbn [tail]. bind_step. eexists _, w3, _. split_and!; [done|done|eapply evolves_mono; [by eapply evolves_trans; [eapply evolves_trans|]|lia]| |].
    { intros p d Hpn%not_elem_of_cons Hpd. rewrite !lookup_insert_ne; [done|naive_solver| |]; intros ->; congruence. }
    right. eexists c.2, _, q, k1, k2, d1, d2. split_and!; try done.
    apply (itree_ok_frame (<[n := buf]> H)); [done|]. intros p d Hpp Hpd.
    assert (p <> q) as Hpq by (intros ->; rewrite lookup_insert_ne in Hpd by done; congruence).
    by rewrite (lookup_insert_ne _ q), (lookup_insert_ne _ q) by done.
Qed.

End IndexBalance.
