(* ===== verification/IndexInsert.v ===== *)
(** Correctness of index insertion: [insert_rec] on a stored tree reports a
    tree, the entries of an over-full leaf, or two trees with the entry between
    them, which hold the old entries with the new one in its place; the root
    takes what it reports ([insert_index_tree]). *)

From stdpp Require Import sorting.
From S2P Require Import Prelude Varint Header Value Balance Pager BtPage Cursor WritePager WritePagerProps Writer WriterPages WriterHeap WriterTree WriterBalance WriterNode WriterInsert IndexSeek IndexWriter IndexPages IndexTree IndexBalance.
Import BtPage WritePager WritePagerProps WriterPages WriterHeap IndexWriter IndexPages IndexTree IndexBalance.
Local Open Scope Z_scope.

Module IndexInsert.

Abbreviation frame := WriterBalance.frame.
Abbreviation fresh_pages := WriterBalance.fresh_pages.

(** ** Replacing a run of children *)

Lemma splice_kids H H1 u h n A B B' C : Forall (itree_ok H u h) (A ++ B ++ C) -> is_Some (H !! n) -> NoDup (n :: fipages (A ++ B ++ C)) ->
  Forall (itree_ok H1 u h) B' -> fresh_pages H (fipages B) (fipages B') -> frame H H1 (fipages B) ->
  Forall (itree_ok H1 u h) (A ++ B' ++ C) /\ NoDup (n :: fipages (A ++ B' ++ C)) /\ is_Some (H1 !! n) /\
  (forall p, p ∈ fipages (A ++ B' ++ C) -> p ∈ fipages (A ++ B ++ C) \/ H !! p = None).
Proof.
  intros Hk Hn Hnd Hk' [Hnd' Hfresh] Hfr. pose proof (kids_owned _ _ _ _ Hk) as Hown. rewrite !fipages_app in *.
  apply Forall_app in Hk as [HA Hk]. apply Forall_app in Hk as [HB HC].
  apply NoDup_cons in Hnd as [Hnn Hnd]. apply NoDup_app in Hnd as (HndA & HdA & Hnd). apply NoDup_app in Hnd as (HndB & HdB & HndC).
  rewrite Forall_forall in Hown.
  assert (forall p, p ∈ fipages B' -> p ∈ fipages B \/ p ∉ n :: fipages A ++ fipages B ++ fipages C) as Hnew.
  { intros p Hp. destruct (Hfresh p Hp) as [|Hnone]; [by left|right]. intros [->|Hin]%elem_of_cons.
    - rewrite Hnone in Hn. by destruct Hn.
    - destruct (Hown p Hin). congruence. }
  split_and!.
  - apply Forall_app_2; [|apply Forall_app_2; [done|]].
    + apply (kids_frame H); [done|]. intros p d Hp Hd. apply Hfr; [|done]. intros Hb. apply (HdA p Hp), elem_of_app. by left.
    + apply (kids_frame H); [done|]. intros p d Hp Hd. apply Hfr; [|done]. intros Hb. by apply (HdB p Hb).
  - apply NoDup_cons. split.
    { intros [Hp|[Hp|Hp]%elem_of_app]%elem_of_app; [set_solver| |set_solver]. destruct (Hnew n Hp); set_solver. }
    apply NoDup_app. split_and!; [done| |apply NoDup_app; split_and!; [done| |done]].
    + intros p Hp [Hq|Hq]%elem_of_app; [|set_solver]. destruct (Hnew p Hq); set_solver.
    + intros p Hp Hq. destruct (Hnew p Hp); set_solver.
  - destruct Hn as [d Hd]. exists d. apply Hfr; [set_solver|done].
  - intros p [Hp|[Hp|Hp]%elem_of_app]%elem_of_app; [set_solver| |set_solver]. destruct (Hfresh p Hp); [left; set_solver|by right].
Qed.

Section insertion.
#[local] Set Default Proof Using "Type*".
Context (reg : Value.Registry) (colls : list Value.Collation) (descs : list bool) (enc : Header.TextEncoding).
Context (kcmp : bytes -> bytes -> comparison) (good : bytes -> Prop).
Context `{!KeyOrder (fun a b => IndexSeek.cmp_records reg colls descs a b enc) kcmp good}.

Notation kins := (IndexTree.kins kcmp).
Notation klt := (IndexTree.klt kcmp).
Notation kgood := (IndexTree.kgood good).
Notation kbelow := (IndexTree.kbelow kcmp).
Notation kabove := (IndexTree.kabove kcmp).
Notation insert_rec := (IndexWriter.insert_rec reg colls descs).

(** What a level of the recursion reports about the tree [t]. *)
Definition ins_result (H H' : gmap Z bytes) (u : Z) (h : nat) (t : itree) (e : IdxKey) (up : IdxUp) : Prop :=
  match up with
  | Fit => exists t', itree_ok H' u h t' /\ iroot t' = iroot t /\ fresh_pages H (ipages t) (ipages t') /\ ikeys t' = kins e (ikeys t)
  | LeafOverfull es => h = 0%nat /\ H' = H /\ es = kins e (ikeys t)
  | UpSplit s => exists k key t0 t1, s = mkSplit k [(key, iroot t1)] /\ iroot t0 = iroot t /\ Forall (itree_ok H' u h) [t0; t1] /\
      fresh_pages H (ipages t) (fipages [t0; t1]) /\ inter (map ikeys [t0; t1]) [k] = kins e (ikeys t)
  end.

(** The page above a changed run of children is written back. *)
Lemma ifinish_spliced w H H1 u h n A B B' C dA dB dB' dC e : holds w H1 -> usable_size w = u -> is_Some (H !! 1) -> n <> 1 ->
  1 ∉ fipages (A ++ B ++ C) -> itree_ok H u (S h) (INode n (A ++ B ++ C) (dA ++ dB ++ dC)) -> NoDup (n :: fipages (A ++ B ++ C)) ->
  length A = length dA -> length B = S (length dB) -> length C = length dC -> length B' = S (length dB') ->
  Forall (itree_ok H1 u h) B' -> fresh_pages H (fipages B) (fipages B') -> frame H H1 (fipages B) ->
  Forall (ecell_ok u) (dA ++ dB ++ dC) -> Forall (ecell_ok u) dB' -> zlen dB' <= 3 ->
  inter (map ikeys B') dB' = kins e (inter (map ikeys B) dB) -> kbelow e.1 (pre (map ikeys A) dA) -> kabove e.1 (post (map ikeys C) dC) ->
  wp_page_count w + 3 < 2 ^ 32 ->
  exists up w' H', IndexWriter.finish_interior w n 0 (wp_page_size w) u (iroots (A ++ B' ++ C)) (dA ++ dB' ++ dC) None = Ok (up, w') /\
    holds w' H' /\ evolves 3 w w' /\ frame H H' (n :: fipages (A ++ B ++ C)) /\
    ins_result H H' u (S h) (INode n (A ++ B ++ C) (dA ++ dB ++ dC)) e up.
Proof.
  intros Hh Eu H1s Hn1 H1k Ht Hnd HlA HlB HlC HlB' Hk' Hfresh Hfr Hok Hok' Hz3 Ekeys Hbelow Habove Hpc. destruct (holds_geom w H1 Hh) as (Hu & _). rewrite Eu in Hu.
  destruct Ht as ((d & Hd & Him) & Hfit & _ & Hk).
  destruct (splice_kids H H1 u h n A B B' C Hk (ex_intro _ d Hd) Hnd Hk' Hfresh Hfr) as (Hk1 & Hnd1 & Hn & Hnew).
  assert (255 * ineed (dA ++ dB' ++ dC) <= 447 * (u - 12)) as Hsize.
  { rewrite !ineed_app in *. pose proof (ineed_nonneg dB). pose proof (ineed_max u dB' Hok'). nia. }
  assert (Forall (ecell_ok u) (dA ++ dB' ++ dC)) as Hokn.
  { rewrite !Forall_app in *. naive_solver. }
  assert (is_Some (H1 !! 1)) as H11.
  { destruct H1s as [d1 Hd1]. exists d1. apply Hfr; [|done]. rewrite !fipages_app in H1k. set_solver. }
  assert (n ∉ fipages (A ++ B' ++ C)) as Hnf by (by apply NoDup_cons in Hnd1 as [? _]).
  destruct (ifinish_interior_spec w H1 u h n (A ++ B' ++ C) (dA ++ dB' ++ dC) Hh Eu H11 Hn Hn1) as (up & w' & H' & E & Hh' & Hev & Hfr' & Hcase); try done.
  { rewrite !length_app in *. lia. }
  assert (inter (map ikeys (A ++ B' ++ C)) (dA ++ dB' ++ dC) = kins e (inter (map ikeys (A ++ B ++ C)) (dA ++ dB ++ dC))) as Ecells.
  { rewrite !map_app, !inter_split by (by rewrite length_map). rewrite Ekeys. by rewrite (kins_between kcmp). }
  exists up, w', H'. split_and!; try done.
  - apply (WriterInsert.frame_trans H H1 H'); [apply (WriterInsert.frame_mono _ _ (fipages B)); [done|]; rewrite !fipages_app; set_solver|].
    apply (WriterInsert.frame_mono _ _ [n]); [done|set_solver].
  - destruct Hcase as [(-> & Ht)|(k & key & q & k1 & k2 & d1 & d2 & -> & Ek & Ed & Hl1 & Hl2 & Hq & Ht1 & Ht2)]; cbn [ins_result].
    + exists (INode n (A ++ B' ++ C) (dA ++ dB' ++ dC)). split_and!; try done. split; [done|]. cbn [ipages]. fold (fipages (A ++ B' ++ C)) (fipages (A ++ B ++ C)).
      intros p [->|Hp]%elem_of_cons; [left; by left|]. destruct (Hnew p Hp); [left; by right|by right].
    + exists k, key, (INode n k1 d1), (INode q k2 d2). split_and!; try done.
      * by repeat apply Forall_cons_2.
      * pose proof (kids_owned _ _ _ _ Hk1) as Hown. rewrite Forall_forall in Hown.
        assert (q ∉ n :: fipages (A ++ B' ++ C)) as Hqn.
        { intros [->|Hin]%elem_of_cons; [rewrite Hq in Hn; by destruct Hn|]. destruct (Hown q Hin). congruence. }
        assert (fipages [INode n k1 d1; INode q k2 d2] ≡ₚ q :: n :: fipages (A ++ B' ++ C)) as Hperm.
        { rewrite Ek, fipages_app. cbn [fipages flat_map ipages]. fold (fipages k1) (fipages k2). rewrite app_nil_r. cbn [app].
          rewrite <- Permutation_middle. apply Permutation_swap. }
        split; [rewrite Hperm; by apply NoDup_cons|]. intros p Hp. rewrite Hperm in Hp. cbn [ipages]. fold (fipages (A ++ B ++ C)).
        apply elem_of_cons in Hp as [->|[->|Hp]%elem_of_cons]; [|left; by left|].
        -- destruct (decide (q ∈ n :: fipages (A ++ B ++ C))) as [|Hno]; [by left|right]. apply eq_None_not_Some. intros [b Hb].
           enough (H1 !! q = Some b) by congruence. apply Hfr; [|done]. intros Hin. apply Hno. right. rewrite !fipages_app. set_solver.
        -- destruct (Hnew p Hp); [left; by right|by right].
      * cbn [ikeys] in *. rewrite <- Ecells, Ek, Ed, map_app.
        rewrite inter_mid by (by rewrite length_map). cbn. by rewrite app_nil_r.
Qed.

(** ** The window of an over-full leaf *)

Lemma run_size_inter (ls : list (list IdxKey)) ds : length ls = S (length ds) ->
  Balance.run_size (rsizes (inter ls ds)) = Balance.run_size (rsizes (concat ls)) + Balance.run_size (rsizes ds).
Proof using Type.
  assert (forall a b, Balance.run_size (rsizes (a ++ b)) = Balance.run_size (rsizes a) + Balance.run_size (rsizes b)) as Happ.
  { intros a b. unfold rsizes. by rewrite fmap_app, Balance.run_size_app. }
  revert ds. induction ls as [|l ls IH]; intros [|d ds] Hl; try done.
  - destruct ls; [|done]. cbn [inter concat]. rewrite !app_nil_r. change (Balance.run_size (rsizes [])) with 0. lia.
  - change (inter (l :: ls) (d :: ds)) with (l ++ d :: inter ls ds). cbn [concat]. rewrite !Happ.
    change (Balance.run_size (rsizes (d :: ?k))) with (2 + zlen d.2 + Balance.run_size (rsizes k)). rewrite IH by (simpl in Hl; lia). lia.
Qed.

Lemma run_size_max u ds : Forall (ecell_ok u) ds -> 255 * Balance.run_size (rsizes ds) <= zlen ds * (64 * (u - 12) - 2040).
Proof using Type.
  induction 1 as [|d ds (_ & _ & Hd) _ IH]; [done|]. change (Balance.run_size (rsizes (d :: ds))) with (2 + zlen d.2 + Balance.run_size (rsizes ds)).
  rewrite zlen_cons. lia.
Qed.

Lemma leaf_kids H u kids : Forall (itree_ok H u 0) kids -> fipages kids = iroots kids /\
  Balance.run_size (rsizes (concat (map ikeys kids))) <= zlen kids * (u - 8) /\
  forall i r, iroots kids !! i = Some r -> exists es d, map ikeys kids !! i = Some es /\ H !! r = Some d /\ ipage_image r d LeafIndex (pair 0 <$> rcells es) 0.
Proof using Type.
  induction 1 as [|k kids Hk _ (E1 & E2 & E3)]; [done|]. destruct k as [n es|]; [|done]. destruct Hk as ((d & Hd & Him) & Hfit). split_and!.
  - unfold fipages, iroots in *. cbn [flat_map fmap list_fmap ipages iroot app]. by rewrite E1.
  - cbn [map ikeys concat]. unfold rsizes in *. rewrite fmap_app, Balance.run_size_app, zlen_cons. lia.
  - intros [|i] r Hr; cbn in Hr.
    + injection Hr as <-. exists es, d. done.
    + destruct (E3 i r Hr) as (es' & d' & F). by exists es', d'.
Qed.

(** Rebalancing the window around the leaf [k], whose entries with the new one
    are handed up. *)
Lemma ibalance_window w H u Q B1 k B2 d1 d2 dividers e w0 : holds w H -> usable_size w = u -> is_Some (H !! 1) ->
  Forall (itree_ok H u 0) (B1 ++ k :: B2) -> 1 ∉ fipages (B1 ++ k :: B2) -> NoDup (fipages (B1 ++ k :: B2)) ->
  length B1 = length d1 -> length B2 = length d2 -> (length (B1 ++ k :: B2) <= 3)%nat ->
  Forall (stored H u Q) (inter (map ikeys (B1 ++ k :: B2)) (d1 ++ d2)) -> ecell_ok u e ->
  kbelow e.1 (pre (map ikeys B1) d1) -> kabove e.1 (post (map ikeys B2) d2) ->
  (forall i d, (d1 ++ d2) !! i = Some d -> idx dividers (w0 + Z.of_nat i) = Ok d) -> wp_page_count w + 12 < 2 ^ 32 ->
  exists kids divs w' H',
    (let* (pooled, cnt_old) := IndexWriter.pool_window w (iroots (B1 ++ k :: B2)) dividers w0 (w0 + zlen B1) (kins e (ikeys k)) [] in
     IndexWriter.balance_leaf_pooled w (iroots (B1 ++ k :: B2)) pooled cnt_old) = Ok ((iroots kids, divs), w') /\
    holds w' H' /\ evolves 12 w w' /\
    rebalanced H H' u (fipages (B1 ++ k :: B2)) (kins e (inter (map ikeys (B1 ++ k :: B2)) (d1 ++ d2))) kids divs /\
    frame H H' (fipages (B1 ++ k :: B2)).
Proof.
  intros Hh Eu H1s Hk H1 Hnd Hl1 Hl2 Hlen Hst He Hbelow Habove Hdiv Hpc. destruct (holds_geom w H Hh) as (Hu & _). rewrite Eu in Hu.
  destruct (leaf_kids H u _ Hk) as (Epg & Hsize & Himg).
  set (cl := map ikeys B1 ++ [kins e (ikeys k)] ++ map ikeys B2).
  assert (length cl = length (B1 ++ k :: B2)) as Hcll by (unfold cl; rewrite !length_app, !length_map; done).
  assert (length cl = S (length (d1 ++ d2))) as Hcld by (unfold cl; rewrite !length_app, !length_map; simpl; lia).
  assert (inter cl (d1 ++ d2) = kins e (inter (map ikeys (B1 ++ k :: B2)) (d1 ++ d2))) as Ecl.
  { rewrite map_app. change (map ikeys (k :: B2)) with ([ikeys k] ++ map ikeys B2). change (d1 ++ d2) with (d1 ++ [] ++ d2). unfold cl.
    rewrite !inter_split by (rewrite ?length_map; done). cbn [inter]. rewrite !app_nil_r. by rewrite (kins_between kcmp). }
  rewrite (ipool_window_spec w H Q _ (kins e (ikeys k)) dividers Hh cl (iroots (B1 ++ k :: B2)) (d1 ++ d2)).
  2:{ by rewrite length_iroots. }
  2:{ done. }
  2:{ done. }
  2:{ intros i r es Hi Hes. destruct (Himg i r Hi) as (es' & d & Ees' & Hd & Him). rewrite Eu. unfold cl in Hes. cbn [app] in Hes. rewrite map_app in Ees'.
      destruct (Z.eqb_spec (w0 + Z.of_nat i) (w0 + zlen B1)) as [E|E].
      - assert (i = length (map ikeys B1)) as -> by (rewrite length_map; unfold zlen in E; lia). rewrite list_lookup_middle in Hes by done. by injection Hes.
      - exists d. split; [done|]. assert (es = es') as ->.
        { destruct (decide (i < length (map ikeys B1))%nat) as [Hlt|Hge].
          - rewrite lookup_app_l in Hes by done. rewrite lookup_app_l in Ees' by done. congruence.
          - rewrite lookup_app_r in Hes by lia. rewrite lookup_app_r in Ees' by lia.
            destruct (i - length (map ikeys B1))%nat as [|j] eqn:Ej; [rewrite length_map in Ej, Hge; unfold zlen in E; lia|]. cbn in Hes, Ees'. congruence. }
        split; [done|]. rewrite <- map_app in Ees'. by apply (inter_lists _ _ (d1 ++ d2) es' Hst), (list_elem_of_lookup_2 _ i). }
  bind_step. cbn [app]. rewrite Ecl. rewrite <- Epg. apply ibalance_leaf_pooled_spec; try done.
  - by apply (kids_owned H u 0).
  - intros E. rewrite <- Ecl in E. apply (f_equal length) in E. unfold cl in E.
    change (d1 ++ d2) with (d1 ++ [] ++ d2) in E. rewrite inter_split in E by (rewrite ?length_map; done). cbn [inter] in E. rewrite !length_app in E.
    destruct (ikeys k) as [|x l]; simpl in E; [lia|]. destruct (kcmp e.1 x.1); simpl in E; lia.
  - apply (Forall_kins kcmp); [done|]. by apply (stored_ecell H u Q).
  - rewrite <- Ecl. by apply irunning_old_ok.
  - pose proof (run_size_kins kcmp e (inter (map ikeys (B1 ++ k :: B2)) (d1 ++ d2))) as Hrs. rewrite run_size_inter in Hrs by (rewrite length_map; lia).
    pose proof (inter_divs _ (map ikeys (B1 ++ k :: B2)) (d1 ++ d2) ltac:(rewrite length_map; lia) Hst) as Hsd.
    pose proof (run_size_max u (d1 ++ d2) (stored_ecell H u Q _ Hu Hsd)) as Hmx. destruct He as (_ & _ & He).
    assert (zlen (B1 ++ k :: B2) <= 3 /\ zlen (d1 ++ d2) <= 2 /\ 0 <= zlen (d1 ++ d2)) as (Hz3 & Hz2 & Hz0).
    { unfold zlen. rewrite <- Hcll, Hcld in *. lia. }
    nia.
Qed.

Lemma ibalance_leaf_into_spec w H u Q k1 k k2 a c e : holds w H -> usable_size w = u -> is_Some (H !! 1) ->
  Forall (itree_ok H u 0) (k1 ++ k :: k2) -> 1 ∉ fipages (k1 ++ k :: k2) -> NoDup (fipages (k1 ++ k :: k2)) ->
  length k1 = length a -> length k2 = length c -> Forall (stored H u Q) (inter (map ikeys (k1 ++ k :: k2)) (a ++ c)) -> ecell_ok u e ->
  kbelow e.1 (pre (map ikeys k1) a) -> kabove e.1 (post (map ikeys k2) c) -> wp_page_count w + 12 < 2 ^ 32 ->
  exists A B B' C dA dB dB' dC w' H', k1 ++ k :: k2 = A ++ B ++ C /\ a ++ c = dA ++ dB ++ dC /\
    length A = length dA /\ length B = S (length dB) /\ length C = length dC /\
    IndexWriter.balance_leaf_into w (iroots (k1 ++ k :: k2)) (a ++ c) (zlen k1) (kins e (ikeys k)) =
      Ok ((iroots (A ++ B' ++ C), dA ++ dB' ++ dC), w') /\ holds w' H' /\ evolves 12 w w' /\
    rebalanced H H' u (fipages B) (kins e (inter (map ikeys B) dB)) B' dB' /\ frame H H' (fipages B) /\
    kbelow e.1 (pre (map ikeys A) dA) /\ kabove e.1 (post (map ikeys C) dC).
Proof.
  intros Hh Eu H1s Hk H1 Hnd Hla Hlc Hst He Hbelow Habove Hpc.
  assert (zlen (iroots (k1 ++ k :: k2)) = zlen k1 + zlen k2 + 1) as Ezl by (unfold zlen; rewrite length_iroots, length_app; simpl; lia).
  pose proof (zlen_nonneg k1). pose proof (zlen_nonneg k2).
  destruct (Balance.sibling_window_spec (zlen k1) (zlen (iroots (k1 ++ k :: k2)))) as (w0 & m & Ew & Hw1 & Hw2 & Hw3 & Hm); [lia|].
  destruct (WriterInsert.window_split k1 k k2 w0 m) as (A & B1 & B2 & C & -> & -> & Hw0 & HB); [lia|lia|rewrite zlen_app, zlen_cons; lia|].
  rewrite length_app in Hla, Hlc. pose proof (take_drop (length A) a) as Ea. pose proof (take_drop (length B2) c) as Ec.
  set (dA := take (length A) a) in *. set (d1 := drop (length A) a) in *. set (d2 := take (length B2) c) in *. set (dC := drop (length B2) c) in *.
  assert (length A = length dA /\ length B1 = length d1 /\ length B2 = length d2 /\ length C = length dC) as (HlA & Hl1 & Hl2 & HlC).
  { unfold dA, d1, d2, dC. rewrite !length_take, !length_drop. lia. }
  rewrite <- Ea in Hbelow. rewrite <- Ec in Habove. rewrite map_app in Hbelow, Habove. rewrite pre_app in Hbelow by (by rewrite length_map).
  rewrite post_app in Habove by (by rewrite length_map). apply Forall_app in Hbelow as [HbA Hb1]. apply Forall_app in Habove as [Ha2 HaC].
  set (B := B1 ++ k :: B2) in *. assert ((A ++ B1) ++ k :: B2 ++ C = A ++ B ++ C) as Ek.
  { unfold B. by rewrite <- !app_assoc. }
  assert (a ++ c = dA ++ (d1 ++ d2) ++ dC) as Ediv by (rewrite <- Ea, <- Ec; by rewrite <- !app_assoc).
  assert (length B = S (length (d1 ++ d2))) as HlB by (unfold B; rewrite !length_app; simpl; lia).
  rewrite Ek, Ediv in *. clear Ea Ec Ediv. pose proof Hk as (_ & (HkB & _)%Forall_app)%Forall_app. rewrite !fipages_app in H1, Hnd.
  apply NoDup_app in Hnd as (_ & _ & Hnd). apply NoDup_app in Hnd as (HndB & _ & _).
  assert (Forall (stored H u Q) (inter (map ikeys B) (d1 ++ d2))) as HstB.
  { rewrite !map_app, inter_split in Hst by (by rewrite length_map). apply Forall_app in Hst as [_ Hst]. by apply Forall_app in Hst as [Hst _]. }
  assert (zlen dA = w0) as Hz0 by (unfold zlen in *; lia).
  destruct (ibalance_window w H u Q B1 k B2 d1 d2 (dA ++ (d1 ++ d2) ++ dC) e w0) as (kids & divs & w' & H' & Ebal & Hh' & Hev & Hreb & Hfr); try done.
  { intros Hin. apply H1, elem_of_app. right. apply elem_of_app. by left. }
  { fold B. unfold zlen in *. lia. }
  { intros i d Hi. rewrite <- Hz0. unfold zlen. rewrite <- Nat2Z.inj_add. apply idx_lookup. rewrite lookup_app_r by lia.
    replace (length dA + i - length dA)%nat with i by lia. by apply lookup_app_l_Some. }
  fold B in Ebal, Hreb, Hfr. exists A, B, kids, C, dA, (d1 ++ d2), divs, dC, w', H'. split_and!; try done.
  unfold IndexWriter.balance_leaf_into. rewrite Ew. bind_step.
  assert (slice (iroots (A ++ B ++ C)) w0 (w0 + m) = Ok (iroots B)) as ->.
  { rewrite !iroots_app. assert (zlen (iroots A) = w0 /\ zlen (iroots B) = m) as [E1 E2] by (unfold zlen in *; rewrite !length_iroots; lia).
    pose proof (zlen_nonneg (iroots C)). rewrite slice_Ok by (rewrite ?zlen_app; lia). f_equal. apply sub_app_exact; lia. }
  bind_step. apply res_bind_Ok in Ebal as ([pooled cnt] & E1 & E2). rewrite zlen_app, Hw0, E1. bind_step. rewrite E2. bind_step. rewrite !iroots_app.
  rewrite WriterNode.splice_mid by (unfold zlen in *; rewrite !length_iroots; lia). bind_step.
  rewrite WriterNode.splice_mid by (unfold zlen in *; lia). by bind_step.
Qed.

(** Adopting the two halves of a split child. *)
Lemma iadopt_split_two k1 k k2 a c t0 t1 d key : length k1 = length a -> length k2 = length c -> iroot t0 = iroot k ->
  IndexWriter.adopt_split (iroots (k1 ++ k :: k2)) (a ++ c) (zlen k1) (mkSplit d [(key, iroot t1)]) =
    Ok (iroots (k1 ++ [t0; t1] ++ k2), a ++ [d] ++ c).
Proof using Type.
  intros Hla Hlc E0. unfold IndexWriter.adopt_split. cbn [siblings last removelast fst snd first].
  assert (zlen k1 = zlen a) as Ez by (unfold zlen; lia). rewrite Ez, zlen_app. rewrite !iroots_app.
  change (iroots (k :: k2)) with (iroot k :: iroots k2). change (iroots [t0; t1]) with [iroot t0; iroot t1]. rewrite E0.
  destruct c as [|x c].
  - destruct k2; [|done]. rewrite zlen_nil. destruct (Z.ltb_spec (zlen a) (zlen a + 0)); [lia|]. cbn [fmap list_fmap app iroots].
    rewrite !app_nil_r. by rewrite <- app_assoc.
  - rewrite zlen_cons. pose proof (zlen_nonneg c). destruct (Z.ltb_spec (zlen a) (zlen a + (zlen c + 1))); [|lia].
    assert (idx (a ++ x :: c) (zlen a) = Ok x) as -> by (unfold zlen; apply idx_lookup; by apply list_lookup_middle). bind_step.
    change (iroots k1 ++ iroot k :: iroots k2) with (iroots k1 ++ [iroot k] ++ [] ++ iroots k2). rewrite app_assoc.
    rewrite WriterNode.splice_mid by (rewrite ?zlen_app, ?zlen_cons, ?zlen_nil; unfold zlen in *; rewrite ?length_iroots; lia). bind_step.
    change (a ++ x :: c) with (a ++ [x] ++ c). rewrite WriterNode.splice_mid by (rewrite ?zlen_cons, ?zlen_nil; lia). bind_step.
    f_equal. f_equal. by rewrite <- app_assoc.
Qed.

(** ** The recursion *)

Lemma page_one_prefix_None n bt : n <> 1 -> Writer.page_one_prefix n bt = Ok None.
Proof using Type. intros Hn. unfold Writer.page_one_prefix. by destruct (Z.eqb_spec n 1). Qed.

Lemma body_offset_0 n d : n <> 1 -> Pager.body_offset (Pager.mkPage n d) = 0.
Proof using Type. intros Hn. unfold Pager.body_offset. cbn [Pager.number]. by destruct (Z.eqb_spec n 1). Qed.

(** The entries a search passes over are below the target, the rest above. *)
Lemma place_keys e (l a c : list IdxKey) : l = a ++ c -> take (Z.to_nat (0 + zlen a)) l ++ e :: drop (Z.to_nat (0 + zlen a)) l = a ++ e :: c.
Proof using Type.
  intros ->. rewrite take_app_length' by (unfold zlen; lia). by rewrite drop_app_length' by (unfold zlen; lia).
Qed.

Lemma insert_ileaf w H u Q depth n es target rcell : holds w H -> usable_size w = u -> text_enc w = enc -> n <> 1 -> itree_ok H u 0 (ILeaf n es) ->
  Forall (stored H u Q) es -> ecell_ok u (target, rcell) -> good target -> Forall kgood es -> StronglySorted klt es ->
  exists up w' H', insert_rec (S depth) w n target rcell = Ok (up, w') /\ holds w' H' /\ evolves 0 w w' /\ frame H H' [n] /\
    ins_result H H' u 0 (ILeaf n es) (target, rcell) up.
Proof.
  intros Hh Eu Een Hn1 Ht Hst He Hgt Hg Hs. pose proof Ht as ((d & Hd & Him) & Hfit). destruct (holds_geom w H Hh) as (Hu & Hups & Hps & Hfull & _).
  rewrite <- Eu in Hst. destruct (read_leaf_spec w H Q n d es Hh Him Hst) as (bt & Ep & Et & Er). rewrite Eu in *.
  cbn [IndexWriter.insert_rec]. unfold text_enc in Een. rewrite (wp_page_Ok w H n d Hh Hd), Een. bind_step. rewrite Ep. bind_step.
  rewrite Et, Eu, Er, (body_offset_0 n d Hn1). bind_step.
  destruct (find_place_spec reg colls descs enc kcmp good target es Hgt Hg Hs 0) as [(a & x & c & Ees & -> & Ha & Hx)|(a & c & Ees & -> & Ha & Hc)]; bind_step.
  - exists Fit, w, H. split_and!; try done; [apply evolves_refl|by intros p b|]. exists (ILeaf n es). split_and!; try done.
    + split; [apply NoDup_singleton|]. intros p Hp. by left.
    + cbn [ikeys]. rewrite Ees. by rewrite (kins_present kcmp).
  - rewrite (place_keys (target, rcell) es a c Ees).
    assert (a ++ (target, rcell) :: c = kins (target, rcell) es) as -> by (rewrite Ees; by rewrite (kins_place kcmp)).
    destruct (IndexWriter.leaf_fits (kins (target, rcell) es) 0 u) eqn:Ef.
    + apply leaf_fits_run in Ef. rewrite page_one_prefix_None by done. bind_step. rewrite Hfull.
      destruct (write_ileaf w H u n (kins (target, rcell) es) Hh Eu (ex_intro _ d Hd) Hn1) as (buf & w' & -> & Ew & Hev & Hh' & Ht'); [|done|].
      { apply (Forall_kins kcmp); [done|]. by apply (stored_ecell H u Q). }
      bind_step. rewrite Ew. bind_step. exists Fit, w', (<[n := buf]> H). split_and!; try done.
      * intros p b Hp%not_elem_of_cons Hb. by rewrite lookup_insert_ne by naive_solver.
      * exists (ILeaf n (kins (target, rcell) es)). split_and!; try done. split; [apply NoDup_singleton|]. intros p Hp. by left.
    + exists (LeafOverfull (kins (target, rcell) es)), w, H. split_and!; try done; [apply evolves_refl|by intros p b].
Qed.

(** Splitting the in-order entries of a page around one child. *)
Lemma node_around n kids divs a c : length kids = S (length divs) -> divs = a ++ c ->
  exists k1 k k2, kids = k1 ++ k :: k2 /\ length k1 = length a /\ length k2 = length c /\
    ikeys (INode n kids divs) = pre (map ikeys k1) a ++ ikeys k ++ post (map ikeys k2) c.
Proof using Type.
  intros Hl ->. rewrite length_app in Hl. destruct (lookup_lt_is_Some_2 kids (length a)) as [k Hk]; [lia|].
  exists (take (length a) kids), k, (drop (S (length a)) kids). rewrite length_take, length_drop. split_and!; [by rewrite take_drop_middle|lia|lia|].
  rewrite <- (take_drop_middle kids (length a) k Hk) at 1. cbn [ikeys]. rewrite map_app. change (map ikeys (k :: ?l)) with ([ikeys k] ++ map ikeys l).
  change (a ++ c) with (a ++ [] ++ c). rewrite inter_split by (rewrite ?length_map, ?length_take, ?length_drop; simpl; lia). cbn [inter]. by rewrite app_nil_r.
Qed.

(** What lies beside the child the target descends to. *)
Lemma node_clear t k1 k k2 a c (l : list IdxKey) : good t -> length k1 = length a -> length k2 = length c -> kbelow t a -> kabove t c ->
  l = pre (map ikeys k1) a ++ ikeys k ++ post (map ikeys k2) c -> Forall kgood l -> StronglySorted klt l ->
  kbelow t (pre (map ikeys k1) a) /\ kabove t (post (map ikeys k2) c) /\ Forall kgood (ikeys k) /\ StronglySorted klt (ikeys k).
Proof.
  intros Ht Hl1 Hl2 Ha Hc -> [Hg1 [Hg2 Hg3]%Forall_app]%Forall_app Hs. pose proof (StronglySorted_app_1_l _ _ _ Hs) as Hs1. apply StronglySorted_app_1_r in Hs.
  pose proof (StronglySorted_app_1_l _ _ _ Hs) as Hs2. apply StronglySorted_app_1_r in Hs. split_and!; try done.
  - destruct (last a) as [d|] eqn:El.
    + apply (isorted_below reg colls descs enc kcmp good t _ d); try done; [rewrite last_pre by (by rewrite length_map); done|].
      apply last_Some in El as (a' & ->). by apply Forall_app in Ha as [_ [Hd _]%Forall_cons].
    + apply last_None in El as ->. destruct k1; [constructor|done].
  - destruct c as [|d c]; [destruct k2; [constructor|done]|]. destruct k2 as [|x k2]; [done|]. cbn [map post zip_with concat app] in *. unfold post in *. cbn in *.
    apply (sorted_above reg colls descs enc kcmp good t d); try done. by apply Forall_cons in Hc as [? _].
Qed.

Lemma stored_parts H u Q n kids divs k1 k k2 a c : ikeys (INode n kids divs) = pre (map ikeys k1) a ++ ikeys k ++ post (map ikeys k2) c ->
  Forall (stored H u Q) (ikeys (INode n kids divs)) -> Forall (stored H u Q) (ikeys k).
Proof using Type. intros ->. rewrite !Forall_app. naive_solver. Qed.

(** An entry whose key is a divider of the page is there already. *)
Lemma divider_present n kids divs a x c target rcell : length kids = S (length divs) -> divs = a ++ x :: c -> good target ->
  Forall kgood (ikeys (INode n kids divs)) -> StronglySorted klt (ikeys (INode n kids divs)) -> kcmp target x.1 = Eq ->
  kins (target, rcell) (ikeys (INode n kids divs)) = ikeys (INode n kids divs).
Proof.
  intros Hlk Ediv Hgt Hg Hs Hx.
  assert (ikeys (INode n kids divs) = inter (map ikeys (take (S (length a)) kids)) a ++ x :: inter (map ikeys (drop (S (length a)) kids)) c) as Ekeys.
  { rewrite <- (take_drop (S (length a)) kids) at 1. rewrite Ediv. cbn [ikeys]. rewrite map_app, inter_mid; [done|].
    rewrite length_map, length_take. rewrite Ediv, length_app in Hlk. simpl in Hlk. lia. }
  rewrite Ekeys in *. rewrite (kins_present kcmp); [done| |done].
  assert (forall (l m : list IdxKey), l ++ x :: m = (l ++ [x]) ++ m) as Eassoc by (intros l m; by rewrite <- app_assoc). rewrite Eassoc in Hg, Hs.
  apply (sorted_before reg colls descs enc kcmp good target _ x); [done|by apply Forall_app in Hg as [? _]|by apply StronglySorted_app_1_l in Hs|by rewrite Hx].
Qed.

(** The main induction, on the height of the tree. *)
Lemma iinsert_rec_spec u Q target rcell h : ecell_ok u (target, rcell) -> good target -> forall depth w H t, holds w H -> usable_size w = u ->
  text_enc w = enc -> is_Some (H !! 1) -> itree_ok H u h t -> NoDup (ipages t) -> 1 ∉ ipages t -> Forall (stored H u Q) (ikeys t) ->
  Forall kgood (ikeys t) -> StronglySorted klt (ikeys t) -> (h < depth)%nat -> wp_page_count w + 15 * Z.of_nat h < 2 ^ 32 ->
  exists up w' H', insert_rec depth w (iroot t) target rcell = Ok (up, w') /\ holds w' H' /\ evolves (15 * Z.of_nat h) w w' /\
    frame H H' (ipages t) /\ ins_result H H' u h t (target, rcell) up.
Proof.
  intros He Hgt. induction h as [|h IH]; intros depth w H t Hh Eu Een H1s Ht Hnd H1 Hst Hg Hs Hd Hpc; (destruct depth as [|depth]; [lia|]).
  { destruct t as [n es|]; [|done]. apply (insert_ileaf w H u Q depth n es target rcell); try done. intros ->. apply H1. by left. }
  destruct t as [|n kids divs]; [done|]. pose proof Ht as ((d & Hdn & Him) & Hfit & Hlk & Hk). destruct (holds_geom w H Hh) as (Hu & Hups & Hps & Hfull & _).
  pose proof (inter_divs _ (map ikeys kids) divs ltac:(by rewrite length_map) Hst) as Hstd.
  pose proof (inter_divs _ (map ikeys kids) divs ltac:(by rewrite length_map) Hg) as Hgd.
  pose proof (inter_divs_sorted _ (map ikeys kids) divs ltac:(by rewrite length_map) Hs) as Hsd.
  cbn [ipages] in Hnd, H1. fold (fipages kids) in Hnd, H1. apply not_elem_of_cons in H1 as [Hn1 H1]. pose proof (stored_ecell H u Q divs ltac:(lia) Hstd) as Hok.
  destruct (read_interior_spec w H Q n d (iroots kids) divs _ Hh Him (iroots_u32 w H u h kids Hh Hk)) as (bt & Ep & Et & Er); [by rewrite Eu|].
  destruct (WriterNode.zip_children (iroots kids) divs) as [Ech Edv]; [by rewrite length_iroots|]. pose proof Een as Een'. unfold text_enc in Een'.
  cbn [IndexWriter.insert_rec iroot]. rewrite (wp_page_Ok w H n d Hh Hdn), Een'. bind_step. rewrite Ep. bind_step. rewrite Et, Er. bind_step.
  rewrite Ech, Edv, page_one_prefix_None, (body_offset_0 n d) by lia. bind_step. rewrite Eu, Hfull.
  destruct (find_place_spec reg colls descs enc kcmp good target divs Hgt Hgd Hsd 0) as [(a & x & c & Ediv & -> & Ha & Hx)|(a & c & Ediv & -> & Ha & Hc)]; bind_step.
  { exists Fit, w, H. split_and!; try done; [eapply evolves_mono; [apply evolves_refl|lia]|by intros p b|].
    exists (INode n kids divs). split_and!; try done; [split; [done|intros p Hp; by left]|].
    by rewrite (divider_present n kids divs a x c). }
  destruct (node_around n kids divs a c Hlk Ediv) as (k1 & k & k2 & Ek & Hl1 & Hl2 & Ekeys).
  destruct (node_clear target k1 k k2 a c _ Hgt Hl1 Hl2 Ha Hc Ekeys Hg Hs) as (Hbelow & Habove & Hgk & Hsk).
  pose proof (stored_parts H u Q n kids divs k1 k k2 a c Ekeys Hst) as Hstk.
  assert (idx (iroots kids) (0 + zlen a) = Ok (iroot k)) as ->.
  { rewrite Ek, iroots_app. rewrite Z.add_0_l. unfold zlen. apply idx_lookup. apply list_lookup_middle. by rewrite length_iroots. }
  bind_step. subst kids divs. pose proof Hk as (HkA & [Hkk HkC]%Forall_cons)%Forall_app.
  assert (fipages (k1 ++ k :: k2) = fipages k1 ++ ipages k ++ fipages k2) as Efp by (rewrite fipages_app; done).
  assert (NoDup (ipages k) /\ 1 ∉ ipages k) as [Hndk H1k].
  { rewrite Efp in Hnd, H1. apply NoDup_cons in Hnd as [_ Hnd]. apply NoDup_app in Hnd as (_ & _ & Hnd). apply NoDup_app in Hnd as (? & _ & _).
    split; [done|]. rewrite !not_elem_of_app in H1. naive_solver. }
  destruct (IH depth w H k Hh Eu Een H1s Hkk Hndk H1k Hstk Hgk Hsk ltac:(lia) ltac:(lia)) as (up & w1 & H1' & -> & Hh1 & Hev1 & Hfr1 & Hres). bind_step.
  pose proof Hev1 as (Eu1 & Eps1 & Hcnt1 & _). clear IH Ech Edv Er Ep.
  assert (ipages k ⊆ n :: fipages (k1 ++ k :: k2)) as Hsub by (rewrite Efp; set_solver).
  assert (fipages [k] = ipages k) as Epk by apply app_nil_r.
  destruct up as [|es|s]; cbn [ins_result] in Hres.
  - destruct Hres as (k' & Hk' & Etr & Hfresh & Ecells). exists Fit, w1, H1'.
    destruct (splice_kids H H1' u h n k1 [k] [k'] k2 Hk (ex_intro _ d Hdn) Hnd) as (Hkn & Hnd1 & _ & Hnew).
    { by apply Forall_singleton. }
    { rewrite Epk. change (fipages [k']) with (ipages k' ++ []). by rewrite app_nil_r. }
    { by rewrite Epk. }
    split_and!; [done|done|by apply (evolves_mono (15 * Z.of_nat h)); [|lia]|by apply (WriterInsert.frame_mono _ _ (ipages k))|].
    exists (INode n (k1 ++ [k'] ++ k2) (a ++ c)).
    assert (iroots (k1 ++ [k'] ++ k2) = iroots (k1 ++ k :: k2)) as Efr by (rewrite !iroots_app; cbn; by rewrite Etr).
    split_and!; [|done| |].
    + cbn [itree_ok]. rewrite Efr. split_and!; [|done|rewrite !length_app in *; simpl in *; lia|done]. exists d. split; [|done].
      apply Hfr1; [|done]. apply NoDup_cons in Hnd as [Hnn _]. rewrite Efp in Hnn. set_solver.
    + split; [done|]. cbn [ipages]. fold (fipages (k1 ++ [k'] ++ k2)) (fipages (k1 ++ k :: k2)).
      intros p [->|Hp]%elem_of_cons; [left; by left|]. destruct (Hnew p Hp); [left; by right|by right].
    + rewrite Ekeys. cbn [ikeys]. rewrite !map_app. change (a ++ c) with (a ++ [] ++ c).
      rewrite inter_split by (rewrite ?length_map; done). cbn [map inter]. rewrite app_nil_r, Ecells. by rewrite (kins_between kcmp).
  - destruct Hres as (-> & -> & ->). rewrite Z.add_0_l. assert (zlen a = zlen k1) as -> by (unfold zlen; lia).
    destruct (ibalance_leaf_into_spec w1 H u Q k1 k k2 a c (target, rcell) Hh1 ltac:(congruence) H1s Hk) as
      (A & B & B' & C & dA & dB & dB' & dC & w2 & H2 & Ekids & Ediv & HlA & HlB & HlC & Ebal & Hh2 & Hev2 & Hreb & Hfr2 & Hbl & Hab); try done;
      [by apply NoDup_cons in Hnd as [_ ?]|lia|].
    rewrite Ebal. bind_step. cbn [fst snd]. pose proof Hev2 as (Eu2 & Eps2 & Hcnt2 & _). destruct Hreb as (HlB' & HkB' & EcB & HokB & Hfresh & _ & Hlen).
    rewrite Ekids in Ht, Hnd, H1 |- *. rewrite Ediv in Ht, Hok |- *. rewrite <- Eps1, <- Eps2.
    destruct (ifinish_spliced w2 H H2 u 0 n A B B' C dA dB dB' dC (target, rcell)) as (up & w3 & H3 & -> & Hh3 & Hev3 & Hfr3 & Hres3); try done;
      [congruence|unfold zlen; lia|lia|].
    exists up, w3, H3. split_and!; try done. eapply evolves_mono; [by eapply evolves_trans; [eapply evolves_trans|]|lia].
  - destruct Hres as (key & key' & t0 & t1 & -> & Etr & Hk01 & Hfresh & Ecells). rewrite Z.add_0_l. assert (zlen a = zlen k1) as -> by (unfold zlen; lia).
    rewrite (iadopt_split_two k1 k k2 a c t0 t1 key key' Hl1 Hl2 Etr). bind_step. rewrite <- Eps1.
    change (k :: k2) with ([k] ++ k2) in *. change (a ++ c) with (a ++ [] ++ c) in *.
    assert (ecell_ok u key) as Hkey.
    { assert (Forall (ecell_ok u) (kins (target, rcell) (ikeys k))) as Hall by (apply (Forall_kins kcmp); [done|by apply (stored_ecell H u Q); [lia|]]).
      rewrite <- Ecells in Hall. apply (inter_divs _ (map ikeys [t0; t1])) in Hall; [|done]. by apply Forall_cons in Hall as [? _]. }
    destruct (ifinish_spliced w1 H H1' u h n k1 [k] [t0; t1] k2 a [] [key] c (target, rcell)) as (up & w3 & H3 & -> & Hh3 & Hev3 & Hfr3 & Hres3);
      try done; [congruence|by rewrite Epk|by rewrite Epk|by apply Forall_singleton|change (inter (map ikeys [k]) []) with (ikeys k ++ []); by rewrite app_nil_r|lia|].
    exists up, w3, H3. split_and!; try done. eapply evolves_mono; [by eapply evolves_trans|lia].
Qed.

(** ** The root *)

Definition ireroot (q : Z) (t : itree) : itree := match t with ILeaf _ es => ILeaf q es | INode _ kids divs => INode q kids divs end.

Lemma ipages_cons t : ipages t = iroot t :: tail (ipages t).
Proof using Type. by destruct t. Qed.

Lemma ireroot_facts q t : iroot (ireroot q t) = q /\ ipages (ireroot q t) = q :: tail (ipages t) /\ ikeys (ireroot q t) = ikeys t.
Proof using Type. by destruct t. Qed.

(** A copy of the root page on a fresh page is the same tree there. *)
Lemma itree_ok_move H u h t q d : itree_ok H u h t -> H !! iroot t = Some d -> H !! q = Some d -> iroot t <> 1 -> q <> 1 -> itree_ok H u h (ireroot q t).
Proof using Type.
  destruct h as [|h], t as [n es|n kids divs]; cbn [itree_ok ireroot iroot]; try done.
  - intros ((d' & Hd' & Him) & Hfit) Hd Hq Hn Hq1. split; [|done]. exists d. split; [done|]. rewrite Hd in Hd'. injection Hd' as <-. by apply (ipage_image_move n).
  - intros ((d' & Hd' & Him) & Hfit & Hl & Hk) Hd Hq Hn Hq1. split_and!; try done. exists d. split; [done|]. rewrite Hd in Hd'. injection Hd' as <-. by apply (ipage_image_move n).
Qed.

Lemma igrow_root_spec w H u h t0 t1 k key : holds w H -> usable_size w = u -> is_Some (H !! 1) -> Forall (itree_ok H u h) [t0; t1] ->
  NoDup (fipages [t0; t1]) -> 1 ∉ fipages [t0; t1] -> ecell_ok u k -> wp_page_count w + 3 < 2 ^ 32 ->
  exists q w' H', IndexWriter.grow_root w (iroot t0) (mkSplit k [(key, iroot t1)]) = Ok w' /\ holds w' H' /\ evolves 3 w w' /\ H !! q = None /\
    frame H H' [iroot t0] /\ itree_ok H' u (S h) (INode (iroot t0) [ireroot q t0; t1] [k]).
Proof using Type.
  intros Hh Eu H1s [Ht0 [Ht1 _]%Forall_cons]%Forall_cons Hnd H1 Hk Hpc. destruct (holds_geom w H Hh) as (Hu & _ & _ & Hfull & _). rewrite Eu in Hu.
  cbn [fipages flat_map] in Hnd, H1. rewrite app_nil_r in Hnd, H1. apply NoDup_app in Hnd as (Hnd0 & Hdis & Hnd1). apply not_elem_of_app in H1 as [H10 H11].
  pose proof (itree_ok_owned H u h t0 Ht0) as Hown0. pose proof (itree_ok_owned H u h t1 Ht1) as Hown1. rewrite Forall_forall in Hown0. rewrite Forall_forall in Hown1.
  destruct (Hown0 (iroot t0) (iroot_page t0)) as [d Hd]. destruct (holds_page w H (iroot t0) d Hh Hd) as (_ & Hz & Hb & Erd).
  destruct (heap_alloc w H Hh Hpc) as (q & w1 & z & Ea & Hq & Hh1 & Hev1 & _). pose proof Hev1 as (Eu1 & Eps1 & _).
  assert (q <> 1) as Hq1 by (intros ->; rewrite Hq in H1s; by destruct H1s).
  assert (iroot t0 <> 1) as Hr1 by (intros E; apply H10; rewrite <- E; apply iroot_page).
  assert (q ∉ ipages t0 /\ q ∉ ipages t1) as [Hqt0 Hqt1].
  { split; intros Hin; [destruct (Hown0 q Hin)|destruct (Hown1 q Hin)]; congruence. }
  destruct (heap_write w1 (<[q := z]> H) q d Hh1) as (w2 & Ew & Hh2 & Hev2); [by rewrite lookup_insert_eq|lia|done|]. pose proof Hev2 as (Eu2 & Eps2 & _).
  rewrite insert_insert_eq in Hh2. set (H2 := <[q := d]> H) in *.
  assert (forall p e, H !! p = Some e -> H2 !! p = Some e) as Hgrow.
  { intros p e Hpe. unfold H2. rewrite lookup_insert_ne; [done|]. intros ->. congruence. }
  assert (itree_ok H2 u h (ireroot q t0)) as Htq.
  { apply (itree_ok_move H2 u h t0 q d); [|by apply Hgrow|by apply lookup_insert_eq|done|done]. apply (itree_ok_frame H); [done|]. intros p e _. apply Hgrow. }
  destruct (ireroot_facts q t0) as (Er & Epg & _).
  destruct (write_inode w2 H2 u h (iroot t0) [ireroot q t0; t1] [k] Hh2) as (rbuf & w3 & Es & Ew3 & Hev3 & Hh3 & Ht); try done.
  { congruence. }
  { exists d. by apply Hgrow. }
  { repeat apply Forall_cons_2; [done| |constructor]. apply (itree_ok_frame H); [done|]. intros p e _. apply Hgrow. }
  { by apply Forall_singleton. }
  { cbn [fipages flat_map]. rewrite app_nil_r, Epg. pose proof (iroot_page t0) as Hin. rewrite ipages_cons in Hnd0. apply NoDup_cons in Hnd0 as [Hn0 _].
    cbn [app]. rewrite not_elem_of_cons, not_elem_of_app. split_and!; [|done|by apply Hdis]. intros E. apply Hqt0. by rewrite <- E. }
  { change (ineed [k]) with (6 + zlen k.2 + 0). destruct Hk as (_ & _ & Hk). lia. }
  exists q, w3, (<[iroot t0 := rbuf]> H2). split_and!; try done.
  - unfold IndexWriter.grow_root. rewrite Erd. bind_step. rewrite Ea. bind_step. rewrite Ew. bind_step. cbn [siblings last removelast fmap list_fmap snd first].
    rewrite Eu, Hfull. change (iroots [ireroot q t0; t1]) with [iroot (ireroot q t0); iroot t1] in Es. rewrite Er, Eps2, Eps1 in Es.
    change (zip [q; iroot t1] [k]) with [(q, k)] in Es. change (default 0 (last [q; iroot t1])) with (iroot t1) in Es. rewrite Es. bind_step. done.
  - eapply evolves_mono; [by eapply evolves_trans; [eapply evolves_trans|]|lia].
  - intros p e Hp%not_elem_of_cons He. rewrite lookup_insert_ne by naive_solver. by apply Hgrow.
Qed.

Lemma ideepen_leaf_root_spec w H u n es e : holds w H -> usable_size w = u -> is_Some (H !! 1) -> n <> 1 -> itree_ok H u 0 (ILeaf n es) ->
  Forall (ecell_ok u) es -> ecell_ok u e -> wp_page_count w + 15 < 2 ^ 32 ->
  exists kids divs w' H', IndexWriter.deepen_leaf_root w n (kins e es) = Ok w' /\ holds w' H' /\ evolves 15 w w' /\
    itree_ok H' u 1 (INode n kids divs) /\ inter (map ikeys kids) divs = kins e es /\ NoDup (n :: fipages kids) /\
    (forall p, p ∈ fipages kids -> H !! p = None) /\ frame H H' [n].
Proof using Type.
  intros Hh Eu H1s Hn1 ((d & Hd & Him) & Hfit) Hok He Hpc. destruct (holds_geom w H Hh) as (Hu & Hups & Hps & Hfull & _). rewrite Eu in *.
  destruct (heap_alloc w H Hh ltac:(lia)) as (q & w1 & z & Ea & Hq & Hh1 & Hev1 & _). pose proof Hev1 as (Eu1 & Eps1 & Hc1).
  assert (q <> 1 /\ q <> n) as [Hq1 Hqn] by (split; intros ->; [rewrite Hq in H1s; by destruct H1s|congruence]).
  assert (forall p b, H !! p = Some b -> <[q := z]> H !! p = Some b) as Hgrow.
  { intros p b Hb. rewrite lookup_insert_ne; [done|]. intros ->. congruence. }
  assert (kins e es <> []) as Hne by (destruct es as [|x es]; [done|]; cbn; by destruct (kcmp e.1 x.1)).
  destruct (ibalance_leaf_pooled_spec w1 (<[q := z]> H) u [q] (kins e es) [zlen (kins e es)] Hh1) as (kids & divs & w2 & H2 & Ebal & Hh2 & Hev2 & Hreb & Hfr2).
  { congruence. }
  { destruct H1s as [d1 Hd1]. exists d1. by apply Hgrow. }
  { apply NoDup_singleton. }
  { apply Forall_singleton. by rewrite lookup_insert_eq. }
  { intros Hin%list_elem_of_singleton. congruence. }
  { done. }
  { by apply (Forall_kins kcmp). }
  { pose proof (irunning_old_ok [kins e es] [] eq_refl) as Hro. cbn [inter running] in Hro. by rewrite app_nil_r in Hro. }
  { pose proof (run_size_kins kcmp e es). destruct He as (_ & _ & He). lia. }
  { lia. }
  destruct Hreb as (Hl & Hk & Ecells & Hokd & [Hndf Hfresh] & Epg & Hlen). pose proof Hev2 as (Eu2 & Eps2 & _).
  assert (forall p, p ∈ fipages kids -> H !! p = None) as Hnew.
  { intros p Hp. destruct (Hfresh p Hp) as [->%list_elem_of_singleton|Hno]; [done|]. by apply lookup_insert_None in Hno as [? _]. }
  assert (n ∉ fipages kids) as Hnf by (intros Hin; specialize (Hnew n Hin); congruence).
  assert (is_Some (H2 !! n)) as Hn2.
  { exists d. apply Hfr2; [intros Hin%list_elem_of_singleton; lia|]. by apply Hgrow. }
  assert (zlen divs <= 3) as Hz3 by (unfold zlen; lia).
  destruct (write_inode w2 H2 u 0 n kids divs Hh2) as (rbuf & w3 & Es & Ew3 & Hev3 & Hh3 & Ht3); try done.
  { congruence. }
  { pose proof (ineed_max u divs Hokd). pose proof (zlen_nonneg divs). nia. }
  exists kids, divs, w3, (<[n := rbuf]> H2). split_and!; try done.
  - unfold IndexWriter.deepen_leaf_root. rewrite Ea. bind_step. rewrite Ebal. bind_step.
    assert (zlen divs <= zlen (iroots kids)) as Hzl by (unfold zlen; rewrite length_iroots; lia).
    destruct (Z.ltb_spec (zlen (iroots kids)) (zlen divs)); [lia|].
    destruct (last (iroots kids)) as [rgt|] eqn:El; [|apply last_None, (f_equal length) in El; rewrite length_iroots in El; simpl in El; lia].
    change (default 0 (Some rgt)) with rgt in Es. rewrite Eu, Hfull, <- Eps1, <- Eps2, Es. bind_step. done.
  - eapply evolves_mono; [by eapply evolves_trans; [eapply evolves_trans|]|lia].
  - by apply NoDup_cons.
  - intros p b Hp%not_elem_of_cons Hb. rewrite lookup_insert_ne by naive_solver. apply Hfr2; [|by apply Hgrow].
    intros ->%list_elem_of_singleton. congruence.
Qed.

(** The pages an insertion may add. *)
Definition index_pages (u len : Z) (h : nat) : Z := 3 * record_pages u len + 15 * Z.of_nat h + 15.

(** The root page takes what [insert_rec] reports. *)
Lemma iroot_update w H H0 u Q h t e up : holds w H -> usable_size w = u -> is_Some (H0 !! 1) -> 1 ∉ ipages t -> frame H0 H (ipages t) ->
  itree_ok H0 u h t -> Forall (stored H0 u Q) (ikeys t) -> ecell_ok u e -> ins_result H0 H u h t e up -> wp_page_count w + 15 < 2 ^ 32 ->
  exists w' H' h' t', match up with
      | Fit => Ok w
      | UpSplit s => IndexWriter.grow_root w (iroot t) s
      | LeafOverfull es => IndexWriter.deepen_leaf_root w (iroot t) es
      end = Ok w' /\ holds w' H' /\ evolves 15 w w' /\ (h' <= S h)%nat /\ itree_ok H' u h' t' /\ iroot t' = iroot t /\
    fresh_pages H0 (ipages t) (ipages t') /\ ikeys t' = kins e (ikeys t) /\ frame H H' [iroot t].
Proof using Type.
  intros Hh Eu H1s0 H1t Hfr0 Hold Hst He Hres Hpc. destruct (holds_geom w H Hh) as (Hu & _). rewrite Eu in Hu.
  assert (is_Some (H !! 1)) as H1s by (destruct H1s0 as [d Hd]; exists d; by apply Hfr0).
  pose proof (stored_ecell H0 u Q _ Hu Hst) as Hok. destruct up as [|es|s]; cbn [ins_result] in Hres; cycle 1.
  - destruct Hres as (-> & -> & ->). destruct t as [n es|]; [|done]. cbn [iroot ikeys ipages] in *.
    destruct (ideepen_leaf_root_spec w H0 u n es e) as (kids & divs & w' & H' & Ed & Hh' & Hev & Ht' & Ec & Hndf & Hno & Hfr); try done.
    { intros ->. apply H1t. by left. }
    exists w', H', 1%nat, (INode n kids divs). split_and!; try done. split; [done|]. intros p Hp. cbn [ipages] in Hp.
    apply elem_of_cons in Hp as [->|Hp]; [left; by left|right; by apply Hno].
  - destruct Hres as (k & key & t0 & t1 & -> & Er & Hk & [Hndf Hf] & Ec). rewrite <- Er.
    assert (ecell_ok u k) as Hkey.
    { assert (Forall (ecell_ok u) (kins e (ikeys t))) as Hall by (by apply (Forall_kins kcmp)).
      rewrite <- Ec in Hall. apply (inter_divs _ (map ikeys [t0; t1])) in Hall; [|done]. by apply Forall_cons in Hall as [? _]. }
    assert (1 ∉ fipages [t0; t1]) as H1f.
    { intros Hin. destruct (Hf 1 Hin) as [?|Hno]; [done|]. rewrite Hno in H1s0. by destruct H1s0. }
    destruct (igrow_root_spec w H u h t0 t1 k key) as (q & w' & H' & Eg & Hh' & Hev & Hq & Hfr & Ht'); try done; [lia|].
    destruct (ireroot_facts q t0) as (Erq & Epg & Ekq).
    exists w', H', (S h), (INode (iroot t0) [ireroot q t0; t1] [k]). split_and!; try done.
    + eapply evolves_mono; [done|lia].
    + assert (q ∉ fipages [t0; t1]) as Hqf.
      { pose proof (kids_owned _ _ _ _ Hk) as Ho. rewrite Forall_forall in Ho. intros Hin. destruct (Ho q Hin). congruence. }
      assert (ipages (INode (iroot t0) [ireroot q t0; t1] [k]) ≡ₚ q :: fipages [t0; t1]) as Hperm.
      { cbn [ipages fipages flat_map]. rewrite Epg. cbn [app]. rewrite Permutation_swap. constructor. by rewrite (ipages_cons t0). }
      split; [rewrite Hperm; by apply NoDup_cons|]. intros p Hp. rewrite Hperm in Hp.
      apply elem_of_cons in Hp as [->|Hp]; [|by apply Hf].
      destruct (decide (q ∈ ipages t)) as [|Hn]; [by left|right]. destruct (H0 !! q) as [d|] eqn:E; [|done]. rewrite (Hfr0 q d Hn E) in Hq. done.
    + cbn [ikeys map]. rewrite Ekq. exact Ec.
  - destruct Hres as (t' & Ht & Er & Hf & Ec). exists w, H, h, t'. split_and!; try (done || lia); [|by intros p d _]. eapply evolves_mono; [apply evolves_refl|lia].
Qed.

(** Entries stay stored on a heap that grows. *)
Lemma stored_grow H H1 u Q es : (forall p d, H !! p = Some d -> H1 !! p = Some d) -> Forall (stored H u Q) es -> Forall (stored H1 u Q) es.
Proof using Type.
  intros Hgrow Hst. eapply Forall_impl; [exact Hst|]. intros e (ps & Hps & He). exists ps. split; [done|]. apply (entry_at_frame H); [done|]. intros p Hp.
  destruct He as (? & _ & _ & _ & Hch). pose proof (chain_pages_owned _ _ _ _ _ Hch) as Ho. rewrite Forall_forall in Ho. destruct (Ho p Hp) as [d Hd].
  rewrite Hd. by apply Hgrow.
Qed.

Lemma insert_index_tree w H u Q h t rec : holds w H -> usable_size w = u -> text_enc w = enc -> is_Some (H !! 1) ->
  itree_ok H u h t -> NoDup (ipages t) -> 1 ∉ ipages t -> Forall (stored H u Q) (ikeys t) -> Forall kgood (ikeys t) -> StronglySorted klt (ikeys t) ->
  good rec -> is_bytes rec -> zlen rec <= Cursor.ISIZE_MAX -> (h < 20)%nat -> wp_page_count w + index_pages u (zlen rec) h < 2 ^ 32 ->
  exists w' H' h' t' cell qs, IndexWriter.insert_index reg colls descs w (iroot t) rec = Ok w' /\ holds w' H' /\
    evolves (index_pages u (zlen rec) h) w w' /\ (h' <= S h)%nat /\ itree_ok H' u h' t' /\ iroot t' = iroot t /\
    fresh_pages H (ipages t) (ipages t') /\ ikeys t' = kins (rec, cell) (ikeys t) /\ entry_at H' u (rec, cell) qs /\ NoDup qs /\
    (forall p, p ∈ qs -> H !! p = None /\ p ∉ ipages t') /\ frame H H' (ipages t).
Proof.
  intros Hh Eu Een H1s Ht Hnd H1t Hst Hg Hs Hgr Hb Hlen Hh20 Hpc. unfold index_pages in Hpc. destruct (holds_geom w H Hh) as (Hu & _). rewrite Eu in *.
  destruct (build_index_rcell_spec w H rec Hh Hb Hlen) as (cell & w1 & H1 & qs & Eb & Hh1 & Hev1 & Hent & Hndq & Hq & Hag); [rewrite Eu; lia|].
  rewrite Eu in *. pose proof Hev1 as (Eu1 & _ & Hc1 & Een1). rewrite Forall_forall in Hq.
  assert (forall p d, H !! p = Some d -> H1 !! p = Some d) as Hgrow.
  { intros p d Hd. rewrite Hag; [done|]. intros Hin. rewrite Hq in Hd; done. }
  assert (forall p, p ∈ qs -> is_Some (H1 !! p)) as Hown by (apply Forall_forall; destruct Hent as (? & _ & _ & _ & Hch); by eapply chain_pages_owned).
  assert (forall p, H1 !! p = None -> H !! p = None) as Hback.
  { intros p Hp. destruct (H !! p) as [d|] eqn:E; [|done]. apply Hgrow in E. congruence. }
  assert (is_Some (H1 !! 1)) as H1s1 by (destruct H1s as [d Hd]; exists d; by apply Hgrow).
  assert (itree_ok H1 u h t) as Ht1 by (apply (itree_ok_frame H); [done|]; intros p d _; apply Hgrow).
  assert (Forall (stored H1 u Q) (ikeys t)) as Hst1 by (by apply (stored_grow H)).
  assert (ecell_ok u (rec, cell)) as Hcok by (by apply (entry_at_size H1 u (rec, cell) qs)). pose proof (itree_ok_owned H u h t Ht) as Hot. rewrite Forall_forall in Hot.
  destruct (iinsert_rec_spec u Q rec cell h Hcok Hgr 20 w1 H1 t) as (up & w2 & H2 & Er & Hh2 & Hev2 & Hfr2 & Hres); try done; [congruence|congruence|lia|].
  pose proof Hev2 as (Eu2 & _ & Hc2 & _).
  destruct (iroot_update w2 H2 H1 u Q h t (rec, cell) up) as (w3 & H3 & h' & t' & E3 & Hh3 & Hev3 & Hle & Ht3 & Ert & [Hnd3 Hf3] & Ec3 & Hfr3); try done; [congruence|lia|].
  assert (frame H1 H3 (ipages t)) as Hfr.
  { apply (WriterInsert.frame_trans H1 H2 H3); [done|]. apply (WriterInsert.frame_mono _ _ _ _ Hfr3). intros p ->%list_elem_of_singleton. apply iroot_page. }
  assert (forall p, p ∈ qs -> p ∉ ipages t) as Hqt.
  { intros p Hp Hin. destruct (Hot p Hin). rewrite Hq in *; done. }
  exists w3, H3, h', t', cell, qs. split_and!; try done.
  - unfold IndexWriter.insert_index. rewrite Eb. bind_step. rewrite Er. bind_step. exact E3.
  - eapply evolves_mono; [by eapply evolves_trans; [eapply evolves_trans|]|unfold index_pages; lia].
  - split; [done|]. intros p Hp. destruct (Hf3 p Hp) as [|Hno]; [by left|right; by apply Hback].
  - apply (entry_at_frame H1); [done|]. intros p Hp. destruct (Hown p Hp) as [d Hd]. rewrite Hd. apply Hfr; [by apply Hqt|done].
  - intros p Hp. split; [by apply Hq|]. intros Hin. destruct (Hf3 p Hin) as [Hin'|Hno]; [by apply (Hqt p)|].
    destruct (Hown p Hp). congruence.
  - intros p d Hp Hd. apply Hfr; [done|by apply Hgrow].
Qed.

(** Below the depth limit the search gives up, unless the key is a divider on
    the way down. *)
Lemma iinsert_rec_deep u Q target rcell h : good target -> forall depth w H t, holds w H -> usable_size w = u -> text_enc w = enc ->
  itree_ok H u h t -> 1 ∉ ipages t -> Forall (stored H u Q) (ikeys t) -> Forall kgood (ikeys t) -> StronglySorted klt (ikeys t) -> (depth <= h)%nat ->
  insert_rec depth w (iroot t) target rcell = Err (ECorrupt "b-tree depth limit exceeded") \/
  insert_rec depth w (iroot t) target rcell = Ok (Fit, w) /\ kins (target, rcell) (ikeys t) = ikeys t.
Proof.
  intros Hgt. induction h as [|h IH]; intros [|depth] w H t Hh Eu Een Ht H1 Hst Hg Hs Hd; [by left|lia|by left|].
  destruct t as [|n kids divs]; [done|]. pose proof Ht as ((d & Hdn & Him) & _ & Hlk & Hk).
  pose proof (inter_divs _ (map ikeys kids) divs ltac:(by rewrite length_map) Hst) as Hstd.
  pose proof (inter_divs _ (map ikeys kids) divs ltac:(by rewrite length_map) Hg) as Hgd.
  pose proof (inter_divs_sorted _ (map ikeys kids) divs ltac:(by rewrite length_map) Hs) as Hsd.
  cbn [ipages] in H1. fold (fipages kids) in H1. apply not_elem_of_cons in H1 as [Hn1 H1].
  destruct (read_interior_spec w H Q n d (iroots kids) divs _ Hh Him (iroots_u32 w H u h kids Hh Hk)) as (bt & Ep & Et & Er); [by rewrite Eu|].
  destruct (WriterNode.zip_children (iroots kids) divs) as [Ech Edv]; [by rewrite length_iroots|]. pose proof Een as Een'. unfold text_enc in Een'.
  cbn [IndexWriter.insert_rec iroot]. rewrite (wp_page_Ok w H n d Hh Hdn), Een'. bind_step. rewrite Ep. bind_step. rewrite Et, Er. bind_step.
  rewrite Ech, Edv, page_one_prefix_None by lia. bind_step.
  destruct (find_place_spec reg colls descs enc kcmp good target divs Hgt Hgd Hsd 0) as [(a & x & c & Ediv & -> & Ha & Hx)|(a & c & Ediv & -> & Ha & Hc)]; bind_step.
  { right. split; [done|]. by rewrite (divider_present n kids divs a x c). }
  destruct (node_around n kids divs a c Hlk Ediv) as (k1 & k & k2 & Ek & Hl1 & Hl2 & Ekeys).
  destruct (node_clear target k1 k k2 a c _ Hgt Hl1 Hl2 Ha Hc Ekeys Hg Hs) as (Hbelow & Habove & Hgk & Hsk).
  pose proof (stored_parts H u Q n kids divs k1 k k2 a c Ekeys Hst) as Hstk.
  assert (idx (iroots kids) (0 + zlen a) = Ok (iroot k)) as ->.
  { rewrite Ek, iroots_app. rewrite Z.add_0_l. unfold zlen. apply idx_lookup. apply list_lookup_middle. by rewrite length_iroots. }
  bind_step. subst kids. apply Forall_app in Hk as [_ [Hkk _]%Forall_cons]. rewrite fipages_app, not_elem_of_app in H1. destruct H1 as [_ H1].
  change (fipages (k :: k2)) with (ipages k ++ fipages k2) in H1. rewrite not_elem_of_app in H1.
  destruct (IH depth w H k) as [->|[-> Ekk]]; try done; try lia; [by destruct H1|by left|]. bind_step. right. split; [done|].
  rewrite Ekeys. by rewrite (kins_between kcmp), Ekk.
Qed.

Lemma insert_index_deep w H u Q h t rec : holds w H -> usable_size w = u -> text_enc w = enc -> itree_ok H u h t -> 1 ∉ ipages t ->
  Forall (stored H u Q) (ikeys t) -> Forall kgood (ikeys t) -> StronglySorted klt (ikeys t) -> good rec -> is_bytes rec -> zlen rec <= Cursor.ISIZE_MAX ->
  (20 <= h)%nat -> wp_page_count w + index_pages u (zlen rec) h < 2 ^ 32 ->
  IndexWriter.insert_index reg colls descs w (iroot t) rec = Err (ECorrupt "b-tree depth limit exceeded") \/
  exists w' H' (cell : bytes), IndexWriter.insert_index reg colls descs w (iroot t) rec = Ok w' /\ holds w' H' /\ evolves (index_pages u (zlen rec) h) w w' /\
    kins (rec, cell) (ikeys t) = ikeys t /\ forall p d, H !! p = Some d -> H' !! p = Some d.
Proof.
  intros Hh Eu Een Ht H1t Hst Hg Hs Hgr Hb Hlen Hd Hpc. unfold index_pages in *.
  destruct (build_index_rcell_spec w H rec Hh Hb Hlen) as (cell & w1 & H1 & qs & Eb & Hh1 & Hev1 & _ & _ & Hq & Hag); [rewrite Eu; lia|].
  rewrite Eu in *. pose proof Hev1 as (Eu1 & _ & Hc1 & Een1). rewrite Forall_forall in Hq.
  assert (forall p d, H !! p = Some d -> H1 !! p = Some d) as Hgrow.
  { intros p d Hp. rewrite Hag; [done|]. intros Hin. rewrite Hq in Hp; done. }
  unfold IndexWriter.insert_index. rewrite Eb. bind_step.
  assert (itree_ok H1 u h t) as Ht1 by (apply (itree_ok_frame H); [done|]; intros p d _; apply Hgrow).
  destruct (iinsert_rec_deep u Q rec cell h Hgr 20 w1 H1 t) as [->|[-> Ek]]; try done; [congruence|congruence|by apply (stored_grow H)|by left|].
  bind_step. right. exists w1, H1, cell. split_and!; try done. eapply evolves_mono; [exact Hev1|lia].
Qed.

End insertion.

End IndexInsert.
