(* ===== verification/IndexSpec.v ===== *)
(** The contract of the index writer, end to end: an index on the page heap is
    a strictly ordered list of rows, insertion adds a row in its place, and the
    seeks and range scans of [IndexSeek] read the list back. *)

From stdpp Require Import sorting.
From S2P Require Import Prelude Varint Header Value Record Balance Pager BtPage Cursor CursorProps WritePager WritePagerProps Writer WriterPages WriterHeap WriterTree WriterBalance WriterInsert WriterTable WriterSpec TableSpec IndexSeek IndexSeekProps IndexWriter IndexPages IndexTree IndexBalance IndexInsert.
Import BtPage WritePager WritePagerProps WriterPages WriterHeap IndexWriter IndexPages IndexTree IndexBalance IndexInsert.
Local Open Scope Z_scope.

Module IndexSpec.

(** ** The order of rows *)

Section rows.
#[local] Set Default Proof Using "Type*".
Context {reg : Value.Registry} {colls : list Value.Collation} {descs : list bool} {P : Value.Value -> Prop}.
Context `{Ho : !IndexSeekProps.ColumnOrder reg colls descs P}.
Local Notation column_cmp := (IndexSeek.column_cmp reg colls descs).
Local Notation prefix_cmp_at := (IndexSeek.prefix_cmp_at reg colls descs).
Local Notation cmp_rows := (IndexSeek.cmp_rows reg colls descs).

(** [cmp_rows] from column [i] on. *)
Definition rows_at (i : nat) (a b : list Value.Value) : comparison :=
  match prefix_cmp_at i a b with Eq => Nat.compare (length a) (length b) | o => o end.

Lemma rows_at_opp i a b : Forall P a -> Forall P b -> rows_at i b a = CompOpp (rows_at i a b).
Proof.
  revert i b. induction a as [|x a IH]; intros i [|y b] Ha Hb; try done. apply Forall_cons in Ha as [Hx Ha]. apply Forall_cons in Hb as [Hy Hb].
  unfold rows_at in *. cbn [IndexSeek.prefix_cmp_at length Nat.compare]. rewrite (IndexSeekProps.co_antisym i x y Hx Hy).
  destruct (column_cmp i x y); cbn [CompOpp]; [by apply IH|done..].
Qed.

Lemma rows_at_trans i a b c : Forall P a -> Forall P b -> Forall P c -> rows_at i a b <> Gt -> rows_at i b c <> Gt -> rows_at i a c <> Gt.
Proof.
  revert i b c. induction a as [|x a IH]; intros i [|y b] [|z c] Ha Hb Hc; try done.
  apply Forall_cons in Ha as [Hx Ha]. apply Forall_cons in Hb as [Hy Hb]. apply Forall_cons in Hc as [Hz Hc].
  unfold rows_at in *. cbn [IndexSeek.prefix_cmp_at length Nat.compare]. intros H1 H2. destruct (column_cmp i x y) eqn:E1; [| |done].
  - rewrite (IndexSeekProps.column_eq_le i x y z Hx Hy Hz E1). destruct (column_cmp i y z); [|done..]. by apply (IH (S i) b c).
  - rewrite (IndexSeekProps.column_lt_le i x y z Hx Hy Hz E1); [done|]. by destruct (column_cmp i y z).
Qed.

End rows.

(** ** The order of records *)

Section records.
Context (reg : Value.Registry) (colls : list Value.Collation) (descs : list bool) (enc : Header.TextEncoding).
Local Notation cmp_rows := (IndexSeek.cmp_rows reg colls descs).

Definition row_of (r : bytes) : list Value.Value := match Record.decode_record r enc with Ok v => v | _ => [] end.
Definition kcmp (a b : bytes) : comparison := cmp_rows (row_of a) (row_of b).
(** A record of values the index orders. *)
Definition good (r : bytes) : Prop := exists v, Record.decode_record r enc = Ok v /\ Forall IndexSeekProps.comparable v.

#[export] Instance record_order : Forall IndexSeekProps.builtin colls -> KeyOrder (fun a b => IndexSeek.cmp_records reg colls descs a b enc) kcmp good.
Proof.
  intros Hc. pose proof (IndexSeekProps.builtin_order reg colls descs Hc) as Ho. unfold kcmp, row_of. split.
  - intros a b (va & Ea & _) (vb & Eb & _). unfold IndexSeek.cmp_records. rewrite Ea, Eb. by bind_step.
  - intros a b (va & -> & Ha) (vb & -> & Hb). by apply (rows_at_opp 0).
  - intros a b c (va & -> & Ha) (vb & -> & Hb) (vc & -> & Hc'). by apply (rows_at_trans 0).
Qed.

(** Insertion into an ordered list of rows. *)
Fixpoint row_ins (v : list Value.Value) (l : list (list Value.Value)) : list (list Value.Value) :=
  match l with
  | [] => [v]
  | x :: l => match cmp_rows v x with Lt => v :: x :: l | Eq => x :: l | Gt => x :: row_ins v l end
  end.

Definition row_lt (a b : list Value.Value) : Prop := cmp_rows a b = Lt.

(** The entry carries the row. *)
Definition carries (e : IdxKey) (v : list Value.Value) : Prop := Record.decode_record e.1 enc = Ok v.

Lemma carries_kins e v es rows : carries e v -> Forall2 carries es rows -> Forall2 carries (kins kcmp e es) (row_ins v rows).
Proof.
  intros He. induction 1 as [|x r es rows Hx Hr IH]; cbn [kins row_ins]; [by repeat constructor|].
  unfold kcmp, row_of. rewrite He, Hx. destruct (cmp_rows v r); by repeat constructor.
Qed.

Lemma carries_good es rows : Forall2 carries es rows -> Forall (Forall IndexSeekProps.comparable) rows -> Forall (kgood good) es.
Proof.
  induction 1 as [|e v es rows He _ IH]; [constructor|]. intros [Hv Hr]%Forall_cons. apply Forall_cons_2; [by exists v|by apply IH].
Qed.

Lemma carries_sorted es rows : Forall2 carries es rows -> StronglySorted row_lt rows -> StronglySorted (klt kcmp) es.
Proof.
  induction 1 as [|e v es rows He Hr IH]; [constructor|]. intros [Hs Hv]%StronglySorted_inv. constructor; [by apply IH|].
  clear Hs IH. induction Hr as [|x r es rows Hx Hr IH]; [constructor|]. apply Forall_cons in Hv as [Hvr Hv]. apply Forall_cons_2; [|by apply IH].
  unfold klt, kcmp, row_of. by rewrite He, Hx.
Qed.

Lemma sorted_carries es rows : Forall2 carries es rows -> StronglySorted (klt kcmp) es -> StronglySorted row_lt rows.
Proof.
  induction 1 as [|e v es rows He Hr IH]; [constructor|]. intros [Hs Hv]%StronglySorted_inv. constructor; [by apply IH|].
  clear Hs IH. induction Hr as [|x r es rows Hx Hr IH]; [constructor|]. apply Forall_cons in Hv as [Hvr Hv]. apply Forall_cons_2; [|by apply IH].
  unfold klt, kcmp, row_of in Hvr. by rewrite He, Hx in Hvr.
Qed.

Lemma Forall_row_ins (P : list Value.Value -> Prop) v l : P v -> Forall P l -> Forall P (row_ins v l).
Proof. intros Hv. induction 1 as [|x l Hx Hl IH]; cbn [row_ins]; [by apply Forall_singleton|]. destruct (cmp_rows v x); by repeat apply Forall_cons_2. Qed.

(** The chains of the entries after an insertion: the old ones, and the new
    entry's unless its row was there already. *)
Lemma chains_kins (R : IdxKey -> list Z -> Prop) e q es qs : R e q -> Forall2 R es qs ->
  exists qs', Forall2 R (kins kcmp e es) qs' /\ (concat qs' = concat qs \/ concat qs' ≡ₚ q ++ concat qs).
Proof.
  intros He. induction 1 as [|x p es qs Hx Hr (qs' & Hqs & Hc)]; cbn [kins].
  { exists [q]. split; [by repeat constructor|]. by right. }
  destruct (kcmp e.1 x.1).
  - exists (p :: qs). split; [by constructor|by left].
  - exists (q :: p :: qs). split; [by repeat constructor|by right].
  - exists (p :: qs'). split; [by constructor|]. cbn [concat]. destruct Hc as [->|Hc]; [by left|right].
    rewrite Hc, !app_assoc. by rewrite (Permutation_app_comm p q).
Qed.

End records.

(** ** Reading an index *)

(** The cell [x.2] of the page [x.1] is the cell of [e]. *)
Definition entry_on (x : BtreePage * Z) (e : IdxKey) : Prop :=
  is_table (page_type x.1) = false /\ exists j c, x.2 = Z.of_nat j /\ is_u32 c /\ cell_on x.1 j (c, e.2).

Lemma record_on w H enc x e ps v : holds w H -> text_enc w = enc -> entry_on x e -> entry_at H (usable_size w) e ps -> carries enc e v ->
  IndexSeek.record (wp_source w) x.1 x.2 = Ok v.
Proof.
  intros Hh <- (Ht & j & c & -> & Hc & Hon) (n1 & Hp & Hmax & Hs & Hch) Hv. destruct (holds_geom w H Hh) as (Hu & Hups & Hps & _).
  destruct (index_cell_at x.1 j (usable_size w) (c, e.2) (zlen e.1) n1) as (ko & Hko & Hz & Hsub & E1 & _); try (done || lia). cbn [fst snd] in *.
  unfold IndexSeek.record. cbn [wp_source Pager.src_usable_size Pager.src_header]. rewrite E1. bind_step. cbn [ix_payload].
  rewrite (read_entry_payload w H x.1 ko n1 e ps) by done. bind_step. exact Hv.
Qed.

Lemma entries_from_inter bt : forall kids cts divs i, Forall2 (fun k ct => Forall2 entry_on (CursorProps.entries ct) (ikeys k)) kids cts ->
  length kids = S (length divs) -> num_cells bt = i + Z.of_nat (length divs) ->
  (forall j d, divs !! j = Some d -> entry_on (bt, i + Z.of_nat j) d) ->
  Forall2 entry_on (CursorProps.entries_from bt i cts) (inter (map ikeys kids) divs).
Proof.
  intros kids cts divs i Hk. revert divs i. induction Hk as [|k ct kids cts Hk Hks IH]; intros divs i Hl Hn Hd; [done|].
  destruct divs as [|d divs]; cbn [CursorProps.entries_from map].
  - destruct kids; [|done]. apply Forall2_nil_inv_l in Hks as ->. cbn in Hn. rewrite Hn, Z.add_0_r, Z.ltb_irrefl. cbn [inter CursorProps.entries_from app]. by rewrite !app_nil_r.
  - change (inter (ikeys k :: map ikeys kids) (d :: divs)) with (ikeys k ++ d :: inter (map ikeys kids) divs). simpl in Hn, Hl.
    destruct (Z.ltb_spec i (num_cells bt)); [|lia]. apply Forall2_app; [done|]. cbn [app]. constructor.
    + specialize (Hd 0%nat d eq_refl). by rewrite Z.add_0_r in Hd.
    + apply IH; [lia|lia|]. intros j x Hj. replace (i + 1 + Z.of_nat j) with (i + Z.of_nat (S j)) by lia. by apply Hd.
Qed.

Section reading.
Context (w : WritePager) (H : gmap Z bytes) (u : Z).
Hypothesis Hh : holds w H.

Lemma read_index_page n d : H !! n = Some d -> Cursor.read_page (wp_source w) n = BtPage.parse (Pager.mkPage n d).
Proof using Hh. intros Hd. unfold Cursor.read_page, wp_source. cbn [Pager.src_page]. rewrite (wp_page_Ok w H n d Hh Hd). by bind_step. Qed.

(** A stored index is a tree of index pages in the sense of the lookups. *)
Lemma cursor_itree h : forall t, itree_ok H u h t -> exists ct, CursorProps.tree_at (wp_source w) (iroot t) ct /\ IndexSeekProps.index_tree ct /\
  (CursorProps.height ct <= S h)%nat /\ Forall2 entry_on (CursorProps.entries ct) (ikeys t).
Proof using Hh.
  pose proof Hh as (l & Hi & _). pose proof (wp_source_ok w l Hi) as Hsrc.
  induction h as [|h IH]; intros [n es|n kids divs]; cbn [itree_ok]; try done.
  - intros ((d & Hd & (bt & Ep & Et & En & _ & _ & Hon)) & _). exists (CursorProps.Leaf bt). split_and!; try done.
    + split; [cbn [iroot]; by rewrite (read_index_page n d Hd)|by rewrite Et].
    + cbn [CursorProps.entries ikeys]. unfold CursorProps.cells_from. rewrite Z.sub_0_r, En.
      assert (zlen (pair (A := Z) 0 <$> rcells es) = zlen es) as -> by (unfold zlen, rcells; by rewrite !length_fmap).
      apply Forall2_fmap_l, Forall2_same_length_lookup_2; [unfold zlen; rewrite length_seqZ; lia|].
      intros j x e Hx He. apply lookup_seqZ in Hx as [-> _]. split; [by cbn; rewrite Et|]. exists j, 0. split_and!; [cbn; lia|by unfold is_uint|].
      apply Hon. unfold rcells. by rewrite !list_lookup_fmap, He.
  - intros ((d & Hd & (bt & Ep & Et & En & Erp & _ & Hon)) & _ & Hl & Hk). pose proof (iroots_u32 w H u h kids Hh Hk) as Hr.
    assert (exists cts, Forall2 (fun k ct => CursorProps.tree_at (wp_source w) (iroot k) ct) kids cts /\
      Forall (fun ct => IndexSeekProps.index_tree ct /\ (CursorProps.height ct <= S h)%nat) cts /\
      Forall2 (fun k ct => Forall2 entry_on (CursorProps.entries ct) (ikeys k)) kids cts) as (cts & Hc & Hix & He).
    { clear -IH Hk. induction Hk as [|k kids Hk _ (cts & H1 & H2 & H3)]; [by exists []|]. destruct (IH k Hk) as (ct & F1 & F2 & F3 & F4).
      exists (ct :: cts). split_and!; by constructor. }
    assert (num_cells bt = Z.of_nat (length divs)) as Hn.
    { rewrite En. unfold zlen. rewrite length_fmap, length_zip, length_iroots. lia. }
    pose proof (Forall2_length _ _ _ Hc) as Hlc.
    assert (forall j r x, iroots kids !! j = Some r -> divs !! j = Some x -> cell_on bt j (r, x.2) /\ is_u32 r) as Hcell.
    { intros j r x Hj Hx. split; [|rewrite Forall_lookup in Hr; by apply (Hr j)]. apply (Hon j (r, x.2)). rewrite list_lookup_fmap.
      assert (zip (iroots kids) divs !! j = Some (r, x)) as -> by (by apply lookup_zip_Some). done. }
    exists (CursorProps.Node bt cts). split_and!.
    + apply (CursorProps.tree_at_node (wp_source w)). split; [cbn [iroot]; by rewrite (read_index_page n d Hd)|]. unfold CursorProps.node_ok. rewrite Et.
      split_and!; [done|unfold zlen; lia|lia|]. intros j ct Hct. destruct (Forall2_lookup_r _ _ _ _ _ Hc Hct) as (k & Hkj & Htk). exists (iroot k). split; [|done].
      assert (iroots kids !! j = Some (iroot k)) as Hj by (unfold iroots; by rewrite list_lookup_fmap, Hkj). unfold child_pointer. rewrite Et. cbn [is_leaf].
      apply lookup_lt_Some in Hkj. destruct (Z.leb_spec (num_cells bt) (Z.of_nat j)).
      * rewrite Erp, last_lookup, length_iroots. replace (Nat.pred (length kids)) with j by lia. by rewrite Hj.
      * destruct (lookup_lt_is_Some_2 divs j) as [x Hx]; [lia|]. destruct (Hcell j (iroot k) x Hj Hx) as [Hcx Hu]. pose proof Hcx as (off & Eo & _).
        rewrite Eo. bind_step. by apply (child_bytes bt j (iroot k, x.2)); [rewrite Et|..].
    + cbn [IndexSeekProps.index_tree]. split; [done|]. clear -Hix. induction Hix as [|ct cts [Hct _] _ IHc]; [done|by split].
    + cbn [CursorProps.height]. apply le_n_S. clear -Hix. induction Hix as [|ct cts [_ Hct] _ IHc]; simpl; lia.
    + change (CursorProps.entries (CursorProps.Node bt cts)) with (CursorProps.entries_from bt 0 cts). cbn [ikeys].
      apply entries_from_inter; [done|done|lia|]. intros j x Hx. destruct (lookup_lt_is_Some_2 (iroots kids) j) as [r Hj].
      { apply lookup_lt_Some in Hx. rewrite length_iroots. lia. }
      destruct (Hcell j r x Hj Hx) as [Hcx Hu]. split; [by cbn; rewrite Et|]. exists j, r. by split_and!.
Qed.

End reading.

(** ** The contract *)

(** The heap holds an index with these rows, in order, on the pages [ps]. *)
Definition index (H : gmap Z bytes) (u : Z) (enc : Header.TextEncoding) (h : nat) (root : Z) (rows : list (list Value.Value)) (ps : list Z) : Prop :=
  exists t qs, itree_ok H u h t /\ iroot t = root /\ Forall2 (entry_at H u) (ikeys t) qs /\ Forall2 (carries enc) (ikeys t) rows /\
    ps = ipages t ++ concat qs /\ NoDup ps /\ 1 ∉ ipages t.

Lemma index_owned H u enc h root rows ps : index H u enc h root rows ps -> Forall (fun p => is_Some (H !! p)) ps.
Proof.
  intros (t & qs & Ht & _ & He & _ & -> & _). apply Forall_app_2; [by apply (itree_ok_owned H u h)|]. clear Ht.
  induction He as [|e q es qs (? & _ & _ & _ & Hch) _ IH]; cbn [concat]; [constructor|]. apply Forall_app_2; [by eapply chain_pages_owned|done].
Qed.

Lemma index_frame H H' u enc h root rows ps : index H u enc h root rows ps -> (forall p d, p ∈ ps -> H !! p = Some d -> H' !! p = Some d) ->
  index H' u enc h root rows ps.
Proof.
  intros Hi Hf. pose proof (index_owned _ _ _ _ _ _ _ Hi) as Ho. destruct Hi as (t & qs & Ht & Er & He & Hc & -> & Hnd & H1).
  exists t, qs. split_and!; try done; [apply (itree_ok_frame H); [done|]; intros p d Hp; apply Hf, elem_of_app; by left|].
  apply Forall2_same_length_lookup_2; [by eapply Forall2_length|]. intros j e q Hj Hq. apply (entry_at_frame H); [by apply (Forall2_lookup_lr _ _ _ _ _ _ He Hj Hq)|].
  intros p Hp. assert (p ∈ ipages t ++ concat qs) as Hin.
  { apply elem_of_app. right. apply list_elem_of_In, in_concat. exists q. rewrite <- !list_elem_of_In. split; [by eapply list_elem_of_lookup_2|done]. }
  rewrite Forall_forall in Ho. destruct (Ho p Hin) as [d Hd]. rewrite Hd. by apply Hf.
Qed.

Lemma entries_stored H u es qs : Forall2 (entry_at H u) es qs -> Forall (stored H u (concat qs)) es.
Proof.
  induction 1 as [|e q es qs He _ IH]; [constructor|]. cbn [concat]. apply Forall_cons_2.
  - exists q. split; [|done]. intros p Hp. apply elem_of_app. by left.
  - eapply Forall_impl; [exact IH|]. intros x (ps & Hs & Hx). exists ps. split; [|done]. intros p Hp. apply elem_of_app. right. by apply Hs.
Qed.

Section contract.
#[local] Set Default Proof Using "Type*".
Context (reg : Value.Registry) (colls : list Value.Collation) (descs : list bool).
Hypothesis Hcolls : Forall IndexSeekProps.builtin colls.

(** A heap, with page one in it, and an ordered index on it. *)
Definition istored (w : WritePager) (H : gmap Z bytes) (h : nat) (root : Z) (rows : list (list Value.Value)) (ps : list Z) : Prop :=
  holds w H /\ is_Some (H !! 1) /\ index H (usable_size w) (text_enc w) h root rows ps /\
  Forall (Forall IndexSeekProps.comparable) rows /\ StronglySorted (row_lt reg colls descs) rows.

(** Growing the tree of an index by the entry [e]. *)
Lemma index_grown H H' u enc h h' t t' qs q e v rows : itree_ok H' u h' t' -> iroot t' = iroot t -> WriterBalance.fresh_pages H (ipages t) (ipages t') ->
  ikeys t' = kins (kcmp reg colls descs enc) e (ikeys t) -> entry_at H' u e q -> NoDup q -> (forall p, p ∈ q -> H !! p = None /\ p ∉ ipages t') ->
  WriterBalance.frame H H' (ipages t) -> Forall2 (entry_at H u) (ikeys t) qs -> Forall2 (carries enc) (ikeys t) rows -> carries enc e v ->
  NoDup (ipages t ++ concat qs) -> Forall (fun p => is_Some (H !! p)) (ipages t ++ concat qs) -> 1 ∉ ipages t -> is_Some (H !! 1) -> itree_ok H u h t ->
  exists ps', index H' u enc h' (iroot t) (row_ins reg colls descs v rows) ps' /\ TableSpec.touches H H' (ipages t ++ concat qs) ps'.
Proof using Type.
  intros Ht' Er [Hnd' Hfresh] Ek He Hndq Hq Hfr Hes Hc Hv Hnd Hown H1 H1s Ht. apply NoDup_app in Hnd as (Hndt & Hdis & Hndqs). rewrite Forall_forall in Hown.
  assert (forall p, p ∈ concat qs -> H' !! p = H !! p) as Hkeep.
  { intros p Hp. destruct (Hown p) as [d Hd]; [apply elem_of_app; by right|]. rewrite Hd. apply Hfr; [|done]. intros Hin. by apply (Hdis p Hin). }
  assert (Forall2 (entry_at H' u) (ikeys t) qs) as Hes'.
  { apply Forall2_same_length_lookup_2; [by eapply Forall2_length|]. intros j x y Hj Hy. apply (entry_at_frame H); [by apply (Forall2_lookup_lr _ _ _ _ _ _ Hes Hj Hy)|].
    intros p Hp. apply Hkeep. apply list_elem_of_In, in_concat. exists y. rewrite <- !list_elem_of_In. split; [by eapply list_elem_of_lookup_2|done]. }
  destruct (chains_kins reg colls descs enc (entry_at H' u) e q (ikeys t) qs He Hes') as (qs' & Hqs' & Hcat).
  assert (forall p, p ∈ concat qs' -> p ∈ concat qs \/ p ∈ q) as Hin'.
  { intros p Hp. destruct Hcat as [E|Hcat]; [left; by rewrite <- E|]. rewrite Hcat in Hp. apply elem_of_app in Hp as [?|?]; [by right|by left]. }
  exists (ipages t' ++ concat qs'). split.
  - exists t', qs'. rewrite Ek. split_and!; try done.
    + by apply carries_kins.
    + apply NoDup_app. split_and!; [done| |].
      * intros p Hp Hpq. destruct (Hin' p Hpq) as [Hpq'|Hpq']; [|by destruct (Hq p Hpq')].
        destruct (Hfresh p Hp) as [Hpt|Hno]; [by apply (Hdis p)|]. destruct (Hown p) as [d Hd]; [apply elem_of_app; by right|congruence].
      * destruct Hcat as [->|Hcat]; [done|]. rewrite Hcat. apply NoDup_app. split_and!; [done| |done].
        intros p Hp Hpq. destruct (Hq p Hp) as [Hno _]. destruct (Hown p) as [d Hd]; [apply elem_of_app; by right|congruence].
    + intros Hin. destruct (Hfresh 1 Hin) as [?|Hno]; [done|]. rewrite Hno in H1s. by destruct H1s.
  - split.
    + intros p [Hp|Hp]%elem_of_app; [destruct (Hfresh p Hp); [left; apply elem_of_app; by left|by right]|].
      destruct (Hin' p Hp) as [?|Hpq]; [left; apply elem_of_app; by right|right; by apply (Hq p)].
    + intros p d Hp Hd. apply Hfr; [|done]. intros Hin. apply Hp, elem_of_app. by left.
Qed.

Lemma insert_istored w H h root rows ps rec v : istored w H h root rows ps -> is_bytes rec -> zlen rec <= Cursor.ISIZE_MAX ->
  Record.decode_record rec (text_enc w) = Ok v -> Forall IndexSeekProps.comparable v -> (h < 20)%nat ->
  wp_page_count w + index_pages (usable_size w) (zlen rec) h < 2 ^ 32 ->
  exists w' H' h' ps', insert_index reg colls descs w root rec = Ok w' /\ istored w' H' h' root (row_ins reg colls descs v rows) ps' /\
    TableSpec.touches H H' ps ps' /\ (h' <= S h)%nat /\ evolves (index_pages (usable_size w) (zlen rec) h) w w'.
Proof.
  intros (Hh & H1s & Hi & Hcmp & Hsort) Hb Hm Hv Hcv Hh20 Hpc. pose proof (index_owned _ _ _ _ _ _ _ Hi) as Hown.
  destruct Hi as (t & qs & Ht & <- & He & Hc & -> & Hnd & H1). pose proof (record_order reg colls descs (text_enc w) Hcolls) as Ho.
  pose proof (carries_good (text_enc w) _ _ Hc Hcmp) as Hg. pose proof (carries_sorted reg colls descs (text_enc w) _ _ Hc Hsort) as Hs.
  destruct (insert_index_tree reg colls descs (text_enc w) (kcmp reg colls descs (text_enc w)) (good (text_enc w)) w H (usable_size w) (concat qs) h t rec)
    as (w' & H' & h' & t' & cell & q & E & Hh' & Hev & Hle & Ht' & Er & Hfresh & Ek & Hent & Hndq & Hq & Hfr); try done.
  { by apply NoDup_app in Hnd as (? & _ & _). }
  { by apply entries_stored. }
  { by exists v. }
  destruct (index_grown H H' (usable_size w) (text_enc w) h h' t t' qs q (rec, cell) v rows) as (ps' & Hi' & Htch); try done.
  pose proof Hev as (Eu & _ & _ & Een). exists w', H', h', ps'. split_and!; try done. rewrite <- Eu, <- Een in Hi'. split_and!; try done.
  - destruct H1s as [d Hd]. exists d. by apply Hfr.
  - by apply Forall_row_ins.
  - apply (sorted_carries reg colls descs (text_enc w) (kins (kcmp reg colls descs (text_enc w)) (rec, cell) (ikeys t))); [by apply carries_kins|].
    apply (kins_sorted reg colls descs (text_enc w) _ (good (text_enc w))); try done. by exists v.
Qed.

(** The lookups on a stored index. *)
Lemma lookup_istored w H h root rows ps : istored w H h root rows ps -> exists ct l, CursorProps.tree_at (wp_source w) root ct /\
  IndexSeekProps.index_tree ct /\ (CursorProps.height ct <= S h)%nat /\ inv w l /\
  Forall2 (fun x rec => IndexSeek.record (wp_source w) x.1 x.2 = Ok rec) (CursorProps.entries ct) rows /\
  StronglySorted (IndexSeekProps.row_le reg colls descs) rows.
Proof using Type.
  intros (Hh & _ & (t & qs & Ht & <- & He & Hc & _) & _ & Hsort). pose proof Hh as (l & Hi & _).
  destruct (cursor_itree w H (usable_size w) Hh h t Ht) as (ct & Hat & Hix & Hhc & Hon). exists ct, l. split_and!; try done.
  - revert Hon He Hc. generalize (CursorProps.entries ct) (ikeys t). intros xs es Hon He Hc. clear -Hh Hon He Hc. revert xs Hon qs He.
    induction Hc as [|e v es rows Hv _ IH]; intros xs Hon qs He; [apply Forall2_nil_inv_r in Hon as ->; constructor|].
    apply Forall2_cons_inv_r in Hon as (x & xs' & Hx & Hon & ->). apply Forall2_cons_inv_l in He as (q & qs' & Hq & He & ->).
    constructor; [by apply (record_on w H (text_enc w) x e q v)|by apply (IH xs' Hon qs')].
  - clear -Hsort. induction Hsort as [|v rows _ IH Hv]; constructor; [done|]. eapply Forall_impl; [exact Hv|]. intros x Hx. unfold IndexSeekProps.row_le. by rewrite Hx.
Qed.

Lemma create_istored w H : holds w H -> is_Some (H !! 1) -> wp_page_count w + 3 < 2 ^ 32 ->
  exists root w' H', create_index_root w = Ok (root, w') /\ istored w' H' 0 root [] [root] /\ H !! root = None /\
    evolves 3 w w' /\ (forall p d, H !! p = Some d -> H' !! p = Some d).
Proof using Type.
  intros Hh H1s Hpc. destruct (heap_alloc w H Hh Hpc) as (q & w1 & z & Ea & Hq & Hh1 & Hev1 & _). pose proof Hev1 as (Eu & Eps & _).
  assert (q <> 1) as Hq1 by (intros ->; rewrite Hq in H1s; by destruct H1s). destruct (holds_geom w1 _ Hh1) as (Hu & _ & _ & Hfull & _).
  destruct (write_ileaf w1 (<[q := z]> H) (usable_size w1) q []) as (buf & w2 & Es & Ew & Hev2 & Hh2 & Ht); try done.
  { by rewrite lookup_insert_eq. } { cbn. lia. }
  assert (forall p d, H !! p = Some d -> <[q := buf]> (<[q := z]> H) !! p = Some d) as Hkeep.
  { intros p d Hd. rewrite !lookup_insert_ne; [done|..]; intros ->; congruence. }
  exists q, w2, (<[q := buf]> (<[q := z]> H)). pose proof Hev2 as (Eu2 & _ & _ & Een). split_and!; try done.
  - unfold create_index_root. rewrite Ea. bind_step. change (rcells []) with (@nil bytes) in Es. rewrite Hfull, Es. bind_step. rewrite Ew. by bind_step.
  - split_and!; [done|destruct H1s as [d Hd]; exists d; by apply Hkeep| |constructor|constructor]. rewrite Eu2. exists (ILeaf q []), [].
    split_and!; try done; [apply NoDup_singleton|]. intros E%list_elem_of_singleton. congruence.
  - eapply evolves_mono; [by eapply evolves_trans|lia].
Qed.

(** At the depth limit: refused, unless the row is there already. *)
Lemma insert_istored_deep w H h root rows ps rec v : istored w H h root rows ps -> is_bytes rec -> zlen rec <= Cursor.ISIZE_MAX ->
  Record.decode_record rec (text_enc w) = Ok v -> Forall IndexSeekProps.comparable v -> (20 <= h)%nat ->
  wp_page_count w + index_pages (usable_size w) (zlen rec) h < 2 ^ 32 ->
  insert_index reg colls descs w root rec = Err (ECorrupt "b-tree depth limit exceeded") \/
  exists w' H', insert_index reg colls descs w root rec = Ok w' /\ istored w' H' h root (row_ins reg colls descs v rows) ps.
Proof.
  intros (Hh & H1s & Hi & Hcmp & Hsort) Hb Hm Hv Hcv Hh20 Hpc. pose proof Hi as (t & qs & Ht & <- & He & Hc & -> & Hnd & H1).
  pose proof (record_order reg colls descs (text_enc w) Hcolls) as Ho.
  pose proof (carries_good (text_enc w) _ _ Hc Hcmp) as Hg. pose proof (carries_sorted reg colls descs (text_enc w) _ _ Hc Hsort) as Hs.
  destruct (insert_index_deep reg colls descs (text_enc w) (kcmp reg colls descs (text_enc w)) (good (text_enc w)) w H (usable_size w) (concat qs) h t rec)
    as [->|(w' & H' & cell & -> & Hh' & (Eu & _ & _ & Een) & Ek & Hgrow)]; try done; [by apply entries_stored|by exists v|by left|].
  right. exists w', H'. split; [done|].
  assert (row_ins reg colls descs v rows = rows) as ->.
  { pose proof (carries_kins reg colls descs (text_enc w) (rec, cell) v _ _ Hv Hc) as Hc'. rewrite Ek in Hc'. clear -Hc Hc'. revert Hc'.
    generalize (row_ins reg colls descs v rows) as l. induction Hc as [|e r es rows He _ IH]; intros l Hl; [by apply Forall2_nil_inv_l in Hl|].
    apply Forall2_cons_inv_l in Hl as (r' & l' & He' & Hl & ->). unfold carries in *. f_equal; [congruence|by apply IH]. }
  split_and!; try done; [destruct H1s as [d Hd]; exists d; by apply Hgrow|]. rewrite Eu, Een. apply (index_frame H); [done|]. intros p d _. apply Hgrow.
Qed.

End contract.

(** The lookups on a stored index return the rows that match. *)
Lemma seek_istored reg colls descs w H h root rows ps key fuel : Forall IndexSeekProps.builtin colls -> istored reg colls descs w H h root rows ps ->
  Forall IndexSeekProps.comparable key -> Forall (fun r => (length key <= length r)%nat) rows -> (S h <= fuel)%nat ->
  IndexSeek.index_seek_records reg colls descs (wp_source w) fuel root key = Ok (filter (fun r => IndexSeek.prefix_cmp reg colls descs key r = Eq) rows).
Proof.
  intros Hcolls Hs Hk Hl Hf. destruct (lookup_istored reg colls descs w H h root rows ps Hs) as (ct & l & Ht & Hix & Hh & Hi & Hrec & Hord).
  pose proof (wp_source_ok w l Hi) as Hsrc. destruct Hs as (_ & _ & _ & Hcmp & _).
  by apply (IndexSeekProps.index_seek_rows (wp_source w) reg colls descs root ct rows key fuel); try done; lia.
Qed.

Lemma range_istored reg colls descs w H h root rows ps lower upper fuel : Forall IndexSeekProps.builtin colls -> istored reg colls descs w H h root rows ps ->
  (forall key inc, upper = Some (key, inc) -> Forall IndexSeekProps.comparable key /\ Forall (fun r => (length key <= length r)%nat) rows) -> (S h <= fuel)%nat ->
  IndexSeek.index_range_records reg colls descs (wp_source w) fuel root lower upper =
    Ok (filter (fun r => IndexSeek.passes_lower reg colls descs lower r = true /\ IndexSeek.beyond_upper reg colls descs upper r = false) rows).
Proof.
  intros Hcolls Hs Hu Hf. destruct (lookup_istored reg colls descs w H h root rows ps Hs) as (ct & l & Ht & Hix & Hh & Hi & Hrec & Hord).
  pose proof (wp_source_ok w l Hi) as Hsrc. destruct Hs as (_ & _ & _ & Hcmp & _).
  by apply (IndexSeekProps.index_range_rows (wp_source w) reg colls descs root ct rows lower upper fuel); try done; lia.
Qed.

(** Another structure on the heap, apart from the index, is not affected. *)
Lemma touches_index H H' u enc h root rows ps ps' qs : TableSpec.touches H H' ps ps' -> index H u enc h root rows qs -> (forall p, p ∈ qs -> p ∉ ps) ->
  index H' u enc h root rows qs /\ forall p, p ∈ qs -> p ∉ ps'.
Proof.
  intros [Hnew Hfr] Ht Hdis. pose proof (index_owned _ _ _ _ _ _ _ Ht) as Ho. rewrite Forall_forall in Ho. split.
  - apply (index_frame H); [done|]. intros p d Hp Hd. apply Hfr; [by apply Hdis|done].
  - intros p Hp Hp'. destruct (Ho p Hp) as [d Hd]. destruct (Hnew p Hp') as [Hin|Hno]; [by apply (Hdis p)|congruence].
Qed.

(** ** Sessions *)

(** The states an index goes through: it is created in a database whose page
    one is in use, and records are inserted in any order. *)
Inductive index_session (reg : Value.Registry) (colls : list Value.Collation) (descs : list bool) : WritePager -> Z -> list (list Value.Value) -> Prop :=
  | isession_create w H root w' :
      holds w H -> is_Some (H !! 1) -> wp_page_count w + 3 < 2 ^ 32 ->
      create_index_root w = Ok (root, w') -> index_session reg colls descs w' root []
  | isession_insert w root rows rec v w' :
      index_session reg colls descs w root rows -> is_bytes rec -> zlen rec <= Cursor.ISIZE_MAX ->
      Record.decode_record rec (text_enc w) = Ok v -> Forall IndexSeekProps.comparable v ->
      wp_page_count w + index_pages (usable_size w) (zlen rec) 20 < 2 ^ 32 ->
      insert_index reg colls descs w root rec = Ok w' -> index_session reg colls descs w' root (row_ins reg colls descs v rows).

Lemma session_istored reg colls descs w root rows : Forall IndexSeekProps.builtin colls -> index_session reg colls descs w root rows ->
  exists H h ps, istored reg colls descs w H h root rows ps /\ (h <= 20)%nat.
Proof.
  intros Hcolls. induction 1 as [w H root w' Hh H1 Hpc Ec|w root rows rec v w' _ (H & h & ps & Hs & Hle) Hb Hm Hv Hcv Hpc Ei].
  - destruct (create_istored reg colls descs w H Hh H1 Hpc) as (root' & w'' & H' & Ec' & Hs & _). rewrite Ec in Ec'. apply Ok_inj in Ec' as [= <- <-].
    exists H', 0%nat, [root]. split; [done|lia].
  - destruct (decide (h < 20)%nat) as [Hlt|Hge].
    + destruct (insert_istored reg colls descs Hcolls w H h root rows ps rec v) as (w'' & H' & h' & ps' & Ei' & Hs' & _ & Hle' & _); try done.
      { unfold index_pages in *. lia. }
      rewrite Ei in Ei'. apply Ok_inj in Ei' as <-. exists H', h', ps'. split; [done|lia].
    + assert (h = 20%nat) as -> by lia.
      destruct (insert_istored_deep reg colls descs Hcolls w H 20 root rows ps rec v) as [E|(w'' & H' & E & Hs')]; try done; [congruence|].
      rewrite Ei in E. apply Ok_inj in E as <-. by exists H', 20%nat, ps.
Qed.

Lemma index_pages_nonneg u (rec : bytes) h : 257 <= u -> 0 <= index_pages u (zlen rec) h.
Proof.
  intros Hu. pose proof (zlen_nonneg rec). destruct (split_value_local LeafIndex u (zlen rec) ltac:(lia) ltac:(lia)) as [Hl _].
  pose proof (chain_pages_nonneg u (zlen rec - ilocal u (zlen rec)) Hu ltac:(unfold ilocal; lia)). unfold index_pages, record_pages. lia.
Qed.

(** A new index on the demo database. *)
Lemma demo_index : exists root w H, create_index_root demo_wp = Ok (root, w) /\
  istored Value.registry_empty [] [] w H 0 root [] [root] /\ usable_size w = 512 /\ text_enc w = Header.Utf8 /\ wp_page_count w <= 5.
Proof.
  destruct TableSpec.demo_heap_holds as [Hh H1].
  destruct (create_istored Value.registry_empty [] [] demo_wp TableSpec.demo_heap Hh H1 ltac:(cbn; lia)) as (root & w & H & E & Hs & _ & (Eu & _ & Hc & Een) & _).
  exists root, w, H. split_and!; try done.
Qed.

Lemma demo_record : is_bytes (IndexSeekProps.ix_row 5 8).
Proof. by repeat constructor. Qed.

(** ** The contract *)

(** C5: inserting into an index. On any index the heap stores, of any shape,
    under any built-in collations and column directions, [insert_index] ends
    without error when the tree is below the depth limit and the page numbers
    suffice. The index then holds the old rows with the new one in its place
    (once, when it was there already), equality and range lookups return the
    rows of that list that match, and no page outside the index has changed. *)
Theorem insert_index_refines (reg : Value.Registry) (colls : list Value.Collation) (descs : list bool) (w : WritePager) (H : gmap Z bytes) (h : nat)
    (root : Z) (rows : list (list Value.Value)) (ps : list Z) (rec : bytes) (v : list Value.Value)
    (Hcolls : Forall IndexSeekProps.builtin colls) (Hs : istored reg colls descs w H h root rows ps) (Hb : is_bytes rec)
    (Hlen : zlen rec <= Cursor.ISIZE_MAX) (Hv : Record.decode_record rec (text_enc w) = Ok v) (Hcmp : Forall IndexSeekProps.comparable v)
    (Hdepth : (h < 20)%nat) (Hroom : wp_page_count w + index_pages (usable_size w) (zlen rec) h < 2 ^ 32) :
  exists w' H' h' ps', insert_index reg colls descs w root rec = Ok w' /\ (h' <= S h)%nat /\ TableSpec.touches H H' ps ps' /\
    let rows' := row_ins reg colls descs v rows in
    istored reg colls descs w' H' h' root rows' ps' /\
    (forall key fuel, Forall IndexSeekProps.comparable key -> Forall (fun r => (length key <= length r)%nat) rows' -> (S (S h) <= fuel)%nat ->
      IndexSeek.index_seek_records reg colls descs (wp_source w') fuel root key = Ok (filter (fun r => IndexSeek.prefix_cmp reg colls descs key r = Eq) rows')) /\
    (forall lower upper fuel, (forall key inc, upper = Some (key, inc) -> Forall IndexSeekProps.comparable key /\ Forall (fun r => (length key <= length r)%nat) rows') ->
      (S (S h) <= fuel)%nat ->
      IndexSeek.index_range_records reg colls descs (wp_source w') fuel root lower upper =
        Ok (filter (fun r => IndexSeek.passes_lower reg colls descs lower r = true /\ IndexSeek.beyond_upper reg colls descs upper r = false) rows')).
Proof.
  destruct (insert_istored reg colls descs Hcolls w H h root rows ps rec v Hs Hb Hlen Hv Hcmp Hdepth Hroom) as (w' & H' & h' & ps' & E & Hs' & Ht & Hle & _).
  exists w', H', h', ps'. cbv zeta. split_and!; try done.
  - intros key fuel Hk Hl Hf. apply (seek_istored reg colls descs w' H' h' root _ ps'); try done. lia.
  - intros lower upper fuel Hu Hf. apply (range_istored reg colls descs w' H' h' root _ ps'); try done. lia.
Qed.

Lemma insert_index_refines_witness : exists w root w' H' h' ps', create_index_root demo_wp = Ok (root, w) /\
  insert_index Value.registry_empty [] [] w root (IndexSeekProps.ix_row 5 8) = Ok w' /\
  istored Value.registry_empty [] [] w' H' h' root [[Value.Integer 5; Value.Integer 8]] ps'.
Proof.
  destruct demo_index as (root & w & H & E & Hs & Eu & Een & Hc).
  destruct (insert_index_refines Value.registry_empty [] [] w H 0 root [] [root] (IndexSeekProps.ix_row 5 8) [Value.Integer 5; Value.Integer 8])
    as (w' & H' & h' & ps' & E' & _ & _ & Hs' & _).
  - constructor.
  - exact Hs.
  - exact demo_record.
  - by vm_compute.
  - rewrite Een. vm_compute. reflexivity.
  - by repeat constructor.
  - lia.
  - rewrite Eu. change (index_pages _ _ _) with 15. lia.
  - by exists w, root, w', H', h', ps'.
Defined.

(** C4: whatever a session did to an index. After any sequence of insertions
    into an index the writer created, the rows are those of an ordered list
    into which the records were inserted one by one, an equality seek returns
    exactly the rows that start with the key and a range scan exactly the rows
    within the bounds, both in index order. *)
Theorem index_session_lookup (reg : Value.Registry) (colls : list Value.Collation) (descs : list bool) (w : WritePager) (root : Z)
    (rows : list (list Value.Value)) (key : list Value.Value) (lower upper : option (list Value.Value * bool)) (fuel : nat)
    (Hcolls : Forall IndexSeekProps.builtin colls) (Hs : index_session reg colls descs w root rows)
    (Hkey : Forall IndexSeekProps.comparable key) (Hlen : Forall (fun r => (length key <= length r)%nat) rows)
    (Hupper : forall k inc, upper = Some (k, inc) -> Forall IndexSeekProps.comparable k /\ Forall (fun r => (length k <= length r)%nat) rows)
    (Hf : (21 <= fuel)%nat) :
  StronglySorted (row_lt reg colls descs) rows /\
  IndexSeek.index_seek_records reg colls descs (wp_source w) fuel root key = Ok (filter (fun r => IndexSeek.prefix_cmp reg colls descs key r = Eq) rows) /\
  IndexSeek.index_range_records reg colls descs (wp_source w) fuel root lower upper =
    Ok (filter (fun r => IndexSeek.passes_lower reg colls descs lower r = true /\ IndexSeek.beyond_upper reg colls descs upper r = false) rows).
Proof.
  destruct (session_istored reg colls descs w root rows Hcolls Hs) as (H & h & ps & Hst & Hle). split_and!; [by destruct Hst as (_ & _ & _ & _ & ?)|..].
  - apply (seek_istored reg colls descs w H h root rows ps); try done. lia.
  - apply (range_istored reg colls descs w H h root rows ps); try done. lia.
Qed.

(** An index on two columns, the first descending: three rows, one given twice. *)
Definition ix_w0 : WritePager := TableSpec.ok_wp (let* (_, w) := create_index_root demo_wp in Ok w).
Definition ix_insert (w : WritePager) (a b : Z) : WritePager := TableSpec.ok_wp (insert_index Value.registry_empty [] [true] w 3 (IndexSeekProps.ix_row a b)).
Definition ix_w1 : WritePager := ix_insert ix_w0 5 8.
Definition ix_w2 : WritePager := ix_insert ix_w1 2 7.
Definition ix_w3 : WritePager := ix_insert ix_w2 5 8.
Definition ix_w4 : WritePager := ix_insert ix_w3 5 1.
Definition ix_vals (a b : Z) : list Value.Value := [Value.Integer a; Value.Integer b].

Lemma ix_session : index_session Value.registry_empty [] [true] ix_w4 3 [ix_vals 5 1; ix_vals 5 8; ix_vals 2 7].
Proof.
  destruct TableSpec.demo_heap_holds as [Hh H1]. set (ri := row_ins Value.registry_empty [] [true]).
  assert ([ix_vals 5 1; ix_vals 5 8; ix_vals 2 7] = ri (ix_vals 5 1) (ri (ix_vals 5 8) (ri (ix_vals 2 7) (ri (ix_vals 5 8) [])))) as -> by (by vm_compute).
  apply (isession_insert _ _ _ ix_w3 _ _ (IndexSeekProps.ix_row 5 1)); [|by repeat constructor|by vm_compute|by vm_compute|by repeat constructor|vm_compute; reflexivity..].
  apply (isession_insert _ _ _ ix_w2 _ _ (IndexSeekProps.ix_row 5 8)); [|by repeat constructor|by vm_compute|by vm_compute|by repeat constructor|vm_compute; reflexivity..].
  apply (isession_insert _ _ _ ix_w1 _ _ (IndexSeekProps.ix_row 2 7)); [|by repeat constructor|by vm_compute|by vm_compute|by repeat constructor|vm_compute; reflexivity..].
  apply (isession_insert _ _ _ ix_w0 _ _ (IndexSeekProps.ix_row 5 8)); [|by repeat constructor|by vm_compute|by vm_compute|by repeat constructor|vm_compute; reflexivity..].
  apply (isession_create _ _ _ demo_wp TableSpec.demo_heap); [exact Hh|exact H1|vm_compute; reflexivity|vm_compute; reflexivity].
Qed.

Lemma index_session_lookup_witness :
  IndexSeek.index_seek_records Value.registry_empty [] [true] (wp_source ix_w4) 21 3 [Value.Integer 5] = Ok [ix_vals 5 1; ix_vals 5 8].
Proof.
  apply (index_session_lookup Value.registry_empty [] [true] ix_w4 3 [ix_vals 5 1; ix_vals 5 8; ix_vals 2 7] [Value.Integer 5] None None 21).
  - constructor.
  - exact ix_session.
  - by repeat constructor.
  - repeat constructor; simpl; lia.
  - done.
  - lia.
Defined.

(** C3: a row goes into a table and its index. When a table and an index lie on
    disjoint pages of the heap, [insert_table] followed by [insert_index]
    succeeds, the table then holds the new row, the index the new record, each
    is otherwise as it was, and they still share no page. *)
Theorem insert_table_and_index (reg : Value.Registry) (colls : list Value.Collation) (descs : list bool) (w : WritePager) (H : gmap Z bytes) (h hi : nat)
    (root iroot : Z) (trows : list (Z * bytes)) (irows : list (list Value.Value)) (ps qs : list Z) (rid : Z) (payload rec : bytes) (v : list Value.Value)
    (Hcolls : Forall IndexSeekProps.builtin colls) (Ht : TableSpec.stored w H h root trows ps) (Hi : istored reg colls descs w H hi iroot irows qs)
    (Hdis : forall p, p ∈ qs -> p ∉ ps) (Hrid : is_i64 rid) (Hb : is_bytes payload) (Hlen : zlen payload <= Cursor.ISIZE_MAX)
    (Hbr : is_bytes rec) (Hlr : zlen rec <= Cursor.ISIZE_MAX) (Hv : Record.decode_record rec (text_enc w) = Ok v) (Hcmp : Forall IndexSeekProps.comparable v)
    (Hdepth : (h < 20)%nat) (Hidepth : (hi < 20)%nat)
    (Hroom : wp_page_count w + WriterTable.insert_pages (usable_size w) (zlen payload) h + index_pages (usable_size w) (zlen rec) hi < 2 ^ 32) :
  exists w1 w' H' h' hi' ps' qs', Writer.insert_table w root rid payload = Ok w1 /\ insert_index reg colls descs w1 iroot rec = Ok w' /\
    TableSpec.stored w' H' h' root (WriterTree.ins (rid, payload) trows) ps' /\
    istored reg colls descs w' H' hi' iroot (row_ins reg colls descs v irows) qs' /\ (forall p, p ∈ qs' -> p ∉ ps').
Proof.
  pose proof Ht as (Hh & _). destruct (holds_geom w H Hh) as (Hu & _).
  destruct (TableSpec.insert_stored w H h root trows ps rid payload Ht Hrid Hb Hlen Hdepth) as (w1 & H1 & h' & ps' & E1 & Hs1 & Htch & _ & (Eu & _ & Hc1 & Een)).
  { pose proof (index_pages_nonneg (usable_size w) rec hi ltac:(lia)). lia. }
  destruct Hi as (_ & _ & Hix & Hgood & Hsort). destruct (touches_index _ _ _ _ _ _ _ _ _ _ Htch Hix Hdis) as [Hix1 Hdis1].
  assert (istored reg colls descs w1 H1 hi iroot irows qs) as Hi1 by (pose proof Hs1 as (Hh1 & H11 & _); split_and!; [done|done|by rewrite Eu, Een|done|done]).
  destruct (insert_istored reg colls descs Hcolls w1 H1 hi iroot irows qs rec v Hi1) as (w2 & H2 & hi' & qs' & E2 & Hs2 & Htch2 & _ & (Eu2 & _)); try done.
  { by rewrite Een. } { rewrite Eu. lia. }
  pose proof Hs1 as (_ & _ & Htab). pose proof Hs2 as (Hh2 & H12 & _).
  destruct (TableSpec.touches_other H1 H2 _ _ _ _ _ _ _ Htch2 Htab) as [Htab2 Hdis2]; [intros p Hp Hq; by apply (Hdis1 p)|].
  exists w1, w2, H2, h', hi', ps', qs'. split_and!; try done; [split_and!; [done|done|by rewrite Eu2]|]. intros p Hp Hq. by apply (Hdis2 p).
Qed.

Lemma insert_table_and_index_witness : exists w root iroot w1 w' H' h' hi' ps' qs', root <> iroot /\
  Writer.insert_table w root 8 (IndexSeekProps.ix_row 5 5) = Ok w1 /\
  insert_index Value.registry_empty [] [] w1 iroot (IndexSeekProps.ix_row 5 8) = Ok w' /\
  TableSpec.stored w' H' h' root [(8, IndexSeekProps.ix_row 5 5)] ps' /\ istored Value.registry_empty [] [] w' H' hi' iroot [ix_vals 5 8] qs'.
Proof.
  destruct demo_index as (iroot & w & H & _ & Hi & Eu & Een & Hc). pose proof Hi as (Hh & H1 & Hix & Hg & Ho).
  destruct (TableSpec.create_stored w H Hh H1 ltac:(lia)) as (root & w0 & H0 & _ & Ht & Hno & (Eu0 & _ & Hc0 & Een0) & Hkeep).
  pose proof (index_owned _ _ _ _ _ _ _ Hix) as [[d Hd] _]%Forall_cons.
  assert (istored Value.registry_empty [] [] w0 H0 0 iroot [] [iroot]) as Hi0.
  { pose proof Ht as (Hh0 & H10 & _). split_and!; try done. rewrite Eu0, Een0. apply (index_frame H); [done|]. intros p b _. apply Hkeep. }
  destruct (insert_table_and_index Value.registry_empty [] [] w0 H0 0 0 root iroot [] [] [root] [iroot] 8 (IndexSeekProps.ix_row 5 5) (IndexSeekProps.ix_row 5 8) (ix_vals 5 8))
    as (w1 & w' & H' & h' & hi' & ps' & qs' & E1 & E2 & Ht' & Hi' & _).
  - constructor.
  - exact Ht.
  - exact Hi0.
  - intros p ->%list_elem_of_singleton ->%list_elem_of_singleton. congruence.
  - by split.
  - by repeat constructor.
  - by vm_compute.
  - exact demo_record.
  - by vm_compute.
  - rewrite Een0, Een. vm_compute. reflexivity.
  - by repeat constructor.
  - lia.
  - lia.
  - rewrite Eu0, Eu. change (WriterTable.insert_pages _ _ _) with 24. change (index_pages _ _ _) with 15. lia.
  - exists w0, root, iroot, w1, w', H', h', hi', ps', qs'. split_and!; try done. congruence.
Defined.

End IndexSpec.
