(* ===== verification/Catalog.v ===== *)
(** Tables and the catalog together: the storage steps of [CREATE TABLE]
    ([exec_create_table] in [src/src/exec/mod.rs]) on the write pager, and what
    [Schema::read] then returns. *)

From stdpp Require Import sorting.
From S2P Require Import Prelude Varint Header Value Record Pager BtPage Cursor CursorProps Schema WritePager WritePagerProps Writer WriterPages WriterHeap WriterTree WriterNode WriterTable WriterSpec TableSpec IndexWriter.
Import BtPage WritePager WritePagerProps Writer WriterHeap WriterTree.
Local Open Scope Z_scope.

Module Catalog.

#[local] Existing Instance Header.TextEncoding_eq_dec.

(** A new object's root page and its row in the schema table: the root is
    allocated, the row takes the next rowid, and is inserted at page one. The
    text [sql] is the canonical form of the statement. *)
Definition create_table_object (fuel : nat) (w : WritePager) (without_rowid : bool) (name sql : bytes) : res (Z * WritePager) :=
  let* (root, w) := if without_rowid then IndexWriter.create_index_root w else create_table_root w in
  let* next := Cursor.next_rowid fuel (wp_source w) Schema.SCHEMA_ROOT_PAGE in
  let* row := Record.encode_record [Value.Text (Schema.str "table"); Value.Text name; Value.Text name; Value.Integer root; Value.Text sql] in
  let* w := insert_table w Schema.SCHEMA_ROOT_PAGE next row in
  Ok (root, w).

(** ** Reading the catalog *)

Section reading.
Context (debug_str : bytes -> string).

(** The objects of the rows of a table. *)
Fixpoint parse_rows (enc : Header.TextEncoding) (rows : list (Z * bytes)) : res (list Schema.SchemaObject) :=
  match rows with
  | [] => Ok []
  | r :: rows =>
      let* cols := Record.decode_record r.2 enc in
      let* o := Schema.parse_schema_row debug_str cols in
      let* os := parse_rows enc rows in
      Ok (o :: os)
  end.

Lemma parse_rows_app enc rows rows' : parse_rows enc (rows ++ rows') =
  (let* a := parse_rows enc rows in let* b := parse_rows enc rows' in Ok (a ++ b)).
Proof.
  induction rows as [|r rows IH]; cbn [parse_rows app res_bind]; [by destruct (parse_rows enc rows')|].
  destruct (Record.decode_record r.2 enc) as [cols| |]; cbn [res_bind]; [|done..].
  destruct (Schema.parse_schema_row debug_str cols) as [o| |]; cbn [res_bind]; [|done..]. rewrite IH.
  destruct (parse_rows enc rows) as [a| |]; cbn [res_bind]; [|done..]. by destruct (parse_rows enc rows').
Qed.

Lemma parse_rows_length enc rows objs : parse_rows enc rows = Ok objs -> length objs = length rows.
Proof.
  revert objs. induction rows as [|r rows IH]; cbn [parse_rows]; [by intros a [= <-]|].
  intros a (cols & _ & (o & _ & (os & Eos & [= <-])%res_bind_Ok)%res_bind_Ok)%res_bind_Ok. cbn [length]. by rewrite (IH os Eos).
Qed.

Lemma parse_rows_app_inv enc rows rows' objs : parse_rows enc (rows ++ rows') = Ok objs ->
  exists a b, parse_rows enc rows = Ok a /\ parse_rows enc rows' = Ok b /\ objs = a ++ b /\ length a = length rows.
Proof.
  rewrite parse_rows_app. intros (a & Ea & (b & Eb & [= <-])%res_bind_Ok)%res_bind_Ok. exists a, b. split_and!; try done. by eapply parse_rows_length.
Qed.

Lemma read_loop_rows n fuel src enc : forall ok cur objs rows, Cursor.collect_rows n fuel src ok cur = Ok rows ->
  Schema.read_loop debug_str n fuel src enc ok cur objs = (let* os := parse_rows enc rows in Ok (objs ++ os)).
Proof.
  induction n as [|n IH]; intros [|] cur objs rows; cbn [Cursor.collect_rows Schema.read_loop]; try done;
    try (intros [= <-]; cbn [parse_rows res_bind]; by rewrite app_nil_r).
  intros (r & _ & (p & -> & ([ok' cur'] & En & (rest & Er & [= <-])%res_bind_Ok)%res_bind_Ok)%res_bind_Ok)%res_bind_Ok.
  bind_step. cbn [parse_rows snd]. destruct (Record.decode_record p enc) as [cols| |]; cbn [res_bind]; [|done..].
  destruct (Schema.parse_schema_row debug_str cols) as [o| |]; cbn [res_bind]; [|done..].
  rewrite En. bind_step. rewrite (IH ok' cur' (objs ++ [o]) rest Er). destruct (parse_rows enc rest); cbn [res_bind]; [by rewrite <- app_assoc|done..].
Qed.

(** The catalog is the rows of page one's table, parsed. *)
Lemma read_scan fuel src rows : Cursor.scan_rows fuel src Schema.SCHEMA_ROOT_PAGE = Ok rows ->
  Schema.read debug_str fuel src = (let* os := parse_rows (Header.text_encoding (Pager.src_header src)) rows in Ok (Schema.mkSchema os)).
Proof.
  intros Es. unfold Cursor.scan_rows in Es. apply res_bind_Ok in Es as ([ok cur] & Ef & Ec). unfold Schema.read. rewrite Ef. bind_step.
  rewrite (read_loop_rows _ _ _ _ ok cur [] rows Ec). by destruct (parse_rows _ rows).
Qed.

End reading.

(** ** The next rowid *)

(** The right-most path of a tree on unchanged pages is unchanged. *)
Lemma last_loop_frame w w1 H H1 u : holds w H -> holds w1 H1 -> forall h fuel t lo hi st, tree_ok H u h lo hi t -> (forall p, p ∈ pages t -> H1 !! p = H !! p) ->
  Cursor.last_loop fuel (wp_source w1) (troot t) st = Cursor.last_loop fuel (wp_source w) (troot t) st.
Proof.
  intros Hh Hh1 h. induction h as [|h IH]; intros [|fuel] t lo hi st Ht Hp; try done; destruct t as [n cells|n kids]; try done.
  - destruct Ht as ((d & Hd & (bt & Ep & Et & _)) & _). cbn [Cursor.last_loop troot].
    assert (H1 !! n = Some d) as Hd1 by (rewrite Hp; [done|apply (WriterNode.troot_page (BLeaf n cells))]). unfold Cursor.read_page, wp_source. cbn [Pager.src_page].
    rewrite (wp_page_Ok w H n d Hh Hd), (wp_page_Ok w1 H1 n d Hh1 Hd1). bind_step. rewrite Ep. do 2 bind_step. by rewrite Et.
  - destruct Ht as ((d & Hd & (bt & Ep & Et & Er & Erp)) & _ & Hne & _ & Hs). cbn [Cursor.last_loop troot].
    assert (H1 !! n = Some d) as Hd1 by (rewrite Hp; [done|apply (WriterNode.troot_page (BNode n kids))]). unfold Cursor.read_page. cbn [wp_source Pager.src_page].
    rewrite (wp_page_Ok w H n d Hh Hd), (wp_page_Ok w1 H1 n d Hh1 Hd1). bind_step. rewrite Ep. do 2 bind_step. rewrite Et. cbn [is_leaf].
    unfold child_pointer. rewrite Et. cbn [is_leaf]. rewrite Z.leb_refl, Erp. do 2 bind_step.
    destruct (exists_last Hne) as (ks & k & Ek). rewrite Ek in *. assert (default 0 (last (froots (ks ++ [k]))) = troot k.1) as -> by (unfold froots; by rewrite fmap_app, last_app).
    assert (exists lo' hi', tree_ok H u h lo' hi' k.1) as (lo' & hi' & Hk).
    { clear -Hs. revert lo Hs. induction ks as [|k0 ks IHk]; intros lo; cbn [app seg]; [intros (_ & Ht & _); by eexists _, _|]. intros (_ & _ & Hs). by apply IHk in Hs. }
    apply (IH fuel k.1 lo' hi'); [done|]. intros p Hin. apply Hp. cbn [pages]. apply elem_of_cons. right.
    apply (WriterTree.flat_map_sub (fun k => pages k.1) (ks ++ [k]) k); [apply elem_of_app; right; by left|done].
Qed.

Lemma next_rowid_frame w w1 H H1 h root rows ps fuel : TableSpec.stored w H h root rows ps -> holds w1 H1 -> usable_size w1 = usable_size w ->
  (forall p d, p ∈ ps -> H !! p = Some d -> H1 !! p = Some d) -> Cursor.next_rowid fuel (wp_source w1) root = Cursor.next_rowid fuel (wp_source w) root.
Proof.
  intros (Hh & _ & Ht) Hh1 Eu Hkeep. pose proof (WriterSpec.table_owned _ _ _ _ _ _ Ht) as Ho. rewrite Forall_forall in Ho. destruct Ht as (t & qs & Ht & <- & _ & -> & _).
  unfold Cursor.next_rowid, Cursor.last. cbn [Cursor.root Cursor.table_cursor].
  rewrite (last_loop_frame w w1 H H1 (usable_size w) Hh Hh1 h fuel t _ _ [] Ht).
  - unfold Cursor.cursor_rowid, wp_source. cbn [Pager.src_usable_size]. by rewrite Eu.
  - intros p Hp. assert (p ∈ pages t ++ concat qs) as Hin by (apply elem_of_app; by left). destruct (Ho p Hin) as [d Hd]. rewrite Hd. by apply Hkeep.
Qed.

(** The rows of a table are in order and their rowids are 64-bit integers. *)
Lemma keys_within (cells rows : list (Z * bytes)) lo hi : cells.*1 = rows.*1 -> StronglySorted cell_lt cells /\ within lo hi cells -> StronglySorted cell_lt rows /\ within lo hi rows.
Proof.
  intros Ek [Hs Hw]. revert rows Ek. induction Hs as [|x l Hl IH Hx]; intros [|r rows]; cbn; intros [=]; [by split; constructor|].
  apply Forall_cons in Hw as [Hwx Hw]. destruct (IH Hw rows) as [H1 H2]; [done|]. split; [constructor; [done|]|apply Forall_cons_2; [lia|done]].
  apply (Forall_fmap fst (fun k => r.1 < k)). replace (rows.*1) with (l.*1). apply Forall_fmap. eapply Forall_impl; [exact Hx|]. unfold cell_lt. cbn. lia.
Qed.

Lemma stored_sorted w H h root rows ps : TableSpec.stored w H h root rows ps -> StronglySorted cell_lt rows /\ within (- 2 ^ 63 - 1) (2 ^ 63 - 1) rows.
Proof.
  intros (_ & _ & t & qs & Ht & _ & Hrows & _). apply (keys_within (tcells t)); [by eapply WriterSpec.rows_at_keys|by eapply tree_ok_sorted].
Qed.

(** The rowid of a new row is past the rows, unless the right-most leaf is empty
    or its last row has the largest rowid. *)
Lemma next_rowid_stored w H h root rows ps fuel : TableSpec.stored w H h root rows ps -> (S h <= fuel)%nat ->
  exists next, Cursor.next_rowid fuel (wp_source w) root = Ok next /\ is_i64 next /\ (rows = [] -> next = 1) /\
    (next = 1 \/ next = 2 ^ 63 - 1 \/ below next rows).
Proof.
  intros Hs Hf. destruct (stored_sorted _ _ _ _ _ _ Hs) as [Hsort Hw]. destruct Hs as (Hh & _ & t & qs & Ht & <- & Hrows & _). pose proof Hh as (l & Hi & _). pose proof (wp_source_ok w l Hi) as Hsrc.
  destruct (WriterScan.cursor_tree w H _ Hh eq_refl h _ _ t Ht) as (ct & [Hat Hc] & Hhc & _).
  pose proof (WriterScan.cells_rows w H _ _ rows qs _ Hh eq_refl Hrows Hc) as Hrd.
  destruct (CursorProps.last_loop_spec (wp_source w) (troot t) ct Hat fuel [] ltac:(lia)) as (L & bt & st & EL & H0 & El).
  unfold Cursor.next_rowid, Cursor.last. cbn [Cursor.root Cursor.table_cursor]. rewrite El. rewrite EL in *.
  destruct (Z.eqb_spec (num_cells bt) 0) as [E0|E0]; [exists 1; split_and!; [done|by split|done|by left]|]. bind_step.
  destruct (CursorProps.all_cells_last (wp_source w) L bt H0 E0) as [cs Ecs]. rewrite Ecs in Hrd.
  apply Forall2_app_inv_l in Hrd as (rows1 & lst & _ & Hlst & ->). apply Forall2_cons_inv_l in Hlst as (r & nil & Hr & Hnil%Forall2_nil_inv_l & ->). subst nil.
  destruct (CursorProps.cell_row_cursor (wp_source w) _ _ (troot t) st Hr) as [Erow _]. unfold Cursor.settled. cbn [fst snd negb] in *. cbn [res_bind]. rewrite Erow. bind_step.
  assert (- 2 ^ 63 - 1 < r.1 <= 2 ^ 63 - 1) as Hr64 by (unfold within in Hw; rewrite Forall_forall in Hw; apply Hw; set_solver).
  eexists. split; [done|]. unfold Cursor.sat_succ. split_and!; [unfold is_i64, is_sint; lia|by destruct rows1|].
  destruct (decide (r.1 = 2 ^ 63 - 1)) as [E|N]; [right; left; lia|]. right; right. apply Forall_forall. intros y Hy.
  assert (y.1 <= r.1); [|lia]. apply elem_of_app in Hy as [Hy| ->%list_elem_of_singleton]; [|lia].
  pose proof (StronglySorted_app_1_elem_of cell_lt rows1 [r] y r Hsort Hy ltac:(by left)) as Hlt. unfold cell_lt in Hlt. lia.
Qed.

(** ** Where the new object goes *)

(** The objects of a catalog after the row of [obj] is put at the rowid [next]:
    after the objects of the rows below it, and in the place of the object
    whose row has that rowid, if there is one. *)
Definition placed (rows : list (Z * bytes)) (next : Z) (obj : Schema.SchemaObject) (objects : list Schema.SchemaObject) : list Schema.SchemaObject :=
  let n := length (filter (fun r => r.1 < next) rows) in
  take n objects ++ obj :: drop (if decide (next ∈ rows.*1) then S n else n) objects.

Lemma filter_below n (a b : list (Z * bytes)) : below n a -> Forall (fun c => n <= c.1) b -> filter (fun r => r.1 < n) (a ++ b) = a.
Proof.
  intros Ha Hb. rewrite filter_app. induction Ha as [|x a Hx _ IH]; cbn [app].
  - induction Hb as [|x b Hx _ IH]; [done|]. rewrite filter_cons_False; [done|lia].
  - rewrite filter_cons_True by done. cbn [app]. by rewrite IH.
Qed.

Lemma placed_last rows next obj objects : below next rows -> length objects = length rows -> placed rows next obj objects = objects ++ [obj].
Proof.
  intros Hb Hl. unfold placed. assert (filter (fun r => r.1 < next) rows = rows) as -> by (rewrite <- (app_nil_r rows) at 1; by apply filter_below).
  rewrite decide_False; [by rewrite take_ge, drop_ge by lia|]. intros (r & -> & Hin)%list_elem_of_fmap. unfold below in Hb. rewrite Forall_forall in Hb. specialize (Hb r Hin). lia.
Qed.

(** Reading the rows with the new one among them. *)
Lemma parse_rows_ins dbg enc rows next row objects : StronglySorted cell_lt rows -> parse_rows dbg enc rows = Ok objects ->
  parse_rows dbg enc (ins (next, row) rows) =
    (let* os := parse_rows dbg enc [(next, row)] in match os with [obj] => Ok (placed rows next obj objects) | _ => Panic end).
Proof.
  intros Hs Hp. destruct (ins_place (next, row) rows Hs) as (a & b & Ha & Hb & -> & Hr). cbn [fst] in *.
  assert (exists oa ob, parse_rows dbg enc a = Ok oa /\ parse_rows dbg enc b = Ok ob /\ forall obj, placed rows next obj objects = oa ++ obj :: ob) as (oa & ob & Ea & Eb & Er).
  { assert (forall x : Z, x ∈ a.*1 \/ x ∈ b.*1 -> x <> next) as Hne.
    { unfold below, above in *. rewrite Forall_forall in Ha, Hb. intros x [(r & -> & Hin)%list_elem_of_fmap|(r & -> & Hin)%list_elem_of_fmap]; [specialize (Ha r Hin)|specialize (Hb r Hin)]; lia. }
    unfold placed. destruct Hr as [->|(x & Ex & ->)].
    - destruct (parse_rows_app_inv _ _ _ _ _ Hp) as (oa & ob & Ea & Eb & -> & Hl). exists oa, ob. split_and!; try done. intros obj.
      rewrite filter_below; [|done|eapply Forall_impl; [exact Hb|]; cbn; lia]. rewrite decide_False by (rewrite fmap_app, elem_of_app; naive_solver).
      by rewrite <- Hl, take_app_length, drop_app_length.
    - destruct (parse_rows_app_inv _ _ _ _ _ Hp) as (oa & ob & Ea & Eb & -> & Hl). change (x :: b) with ([x] ++ b) in Eb.
      destruct (parse_rows_app_inv _ _ _ _ _ Eb) as (ox & ob' & Ex' & Eb' & -> & Hlx). exists oa, ob'. split_and!; try done. intros obj.
      rewrite filter_below; [|done|apply Forall_cons_2; [lia|]; eapply Forall_impl; [exact Hb|]; cbn; lia].
      rewrite decide_True by (rewrite fmap_app, elem_of_app; right; cbn; rewrite Ex; left).
      rewrite <- Hl, take_app_length. f_equal. f_equal. replace (S (length oa)) with (length (oa ++ ox)) by (rewrite length_app; cbn in *; lia).
      by rewrite app_assoc, drop_app_length. }
  change ((next, row) :: b) with ([(next, row)] ++ b). rewrite !parse_rows_app, Ea, Eb. bind_step. destruct (parse_rows dbg enc [(next, row)]) as [os| |] eqn:Eo; cbn [res_bind]; [|done..].
  cbn [parse_rows] in Eo. apply res_bind_Ok in Eo as (cols & _ & Eo). apply res_bind_Ok in Eo as (o & _ & [= <-]). by rewrite Er.
Qed.

(** The row of a new table, stored and read back. A row is written as UTF-8
    whatever the encoding of the database, and the type [table] has five bytes:
    read as UTF-16 the row is not a record. *)
Lemma table_row dbg name root sql : is_bytes name -> is_bytes sql -> Value.utf8_valid name = true -> Value.utf8_valid sql = true -> is_u32 root ->
  zlen name + zlen sql < 2 ^ 60 ->
  exists row, Record.encode_record [Value.Text (Schema.str "table"); Value.Text name; Value.Text name; Value.Integer root; Value.Text sql] = Ok row /\
    is_bytes row /\ zlen row <= 100 + 2 * zlen name + zlen sql /\
    forall enc k, parse_rows dbg enc [(k, row)] =
      if decide (enc = Header.Utf8) then Ok [Schema.mkObject Schema.Table name name root (Some sql)] else Err (ECorrupt "odd-length UTF-16 text").
Proof.
  intros Hn Hs Un Us Hr Hl. pose proof (zlen_nonneg name). pose proof (zlen_nonneg sql).
  set (vs := [_; _; _; _; _]). assert (Forall Record.storable vs) as Hst.
  { unfold vs. repeat apply Forall_cons_2; [..|apply Forall_nil_2]; split; cbn; try done; try lia; [by repeat constructor|unfold is_i64, is_sint, is_uint in *; lia]. }
  destruct (Record.encode_reread vs Hst ltac:(done)) as (row & E & D). exists row. destruct (Record.encode_bytes vs row Hst E) as [Hb Hz]. split_and!; try done.
  - assert (zlen (Record.bodies vs) <= 13 + 2 * zlen name + zlen sql) as Hbod.
    { assert (zlen (Record.value_body (Value.Integer root)) <= 8) as H8.
      { cbn [Record.value_body]. destruct (_ || _) eqn:E0; [done|]. unfold zlen. rewrite length_be_bytes.
        assert (is_i64 root) as Hi by (unfold is_i64, is_sint, is_uint in *; lia). destruct (Record.for_value_wide root Hi E0) as (_ & _ & _ & Hw). lia. }
      unfold Record.bodies, vs. cbn [fmap list_fmap concat]. rewrite !zlen_app. change (zlen (Record.value_body (Value.Text (Schema.str "table")))) with 5.
      change (zlen []) with 0. cbn [Record.value_body] in *. lia. }
    change (zlen vs) with 5 in Hz. lia.
  - intros enc k. cbn [parse_rows snd]. rewrite D. destruct (decide (enc = Header.Utf8)) as [->|He]; [|unfold vs; by rewrite Record.reread_odd].
    rewrite Record.reread_utf8. bind_step. unfold Schema.parse_schema_row. change (zlen vs <? 5) with false. cbv iota.
    change (idx vs 0) with (Ok (Value.Text (Schema.str "table"))). change (idx vs 1) with (Ok (Value.Text name)). change (idx vs 2) with (Ok (Value.Text name)).
    change (idx vs 3) with (Ok (Value.Integer root)). change (idx vs 4) with (Ok (Value.Text sql)). cbn [res_bind Schema.row_text]. unfold Value.as_str. rewrite Un, Us.
    change (Value.utf8_valid (Schema.str "table")) with true. cbv iota. change (Schema.parse_type dbg (Schema.str "table")) with (Ok Schema.Table). cbn [res_bind].
    by rewrite wrap_small.
Qed.

Lemma insert_pages_nonneg u len h : 257 <= u -> 0 <= len -> 0 <= WriterTable.insert_pages u len h.
Proof.
  intros Hu Hl. destruct (split_value_local LeafTable u len ltac:(lia) ltac:(lia)) as [Hloc _]. unfold WriterTable.insert_pages, row_pages, WriterPages.local_part.
  pose proof (chain_pages_nonneg u (len - (split_value LeafTable u len).1) Hu ltac:(lia)). lia.
Qed.

Lemma stored_root_u32 w H h root ps : TableSpec.stored w H h root [] ps -> is_u32 root.
Proof.
  intros (Hh & _ & Ht). pose proof (WriterSpec.table_owned _ _ _ _ _ _ Ht) as Ho. destruct Ht as (t & qs & _ & <- & _ & -> & _).
  rewrite Forall_forall in Ho. destruct (Ho (troot t)) as [d Hd]; [apply elem_of_app; left; apply WriterNode.troot_page|].
  destruct Hh as (l & Hi & Hin). destruct (Hin _ d Hd) as (_ & Hrg & _). pose proof (inv_pc _ _ Hi). unfold is_uint. lia.
Qed.

(** ** The contract *)

(** C6: creating a table. On any database whose catalog is the table at page
    one, the storage steps of [CREATE TABLE] succeed: a page that was not in use
    becomes the root of an empty table, [next_rowid] answers a rowid, the
    catalog's row is put there, the two tables share no page, and every other
    page in use is as it was. The rowid is past the rows unless the right-most
    leaf is empty, when it is 1, or the last row has the largest one. On a UTF-8
    database reading the catalog then gives the old objects and the new one
    with that root: after the others when the rowid is past their rows, and
    otherwise in its place among them, where it replaces the object whose row
    had that rowid. On a UTF-16 database the catalog can no longer be read. *)
Theorem create_table_registers (dbg : bytes -> string) (fuel : nat) (w : WritePager) (H : gmap Z bytes) (h : nat) (rows : list (Z * bytes)) (ps : list Z)
    (objects : list Schema.SchemaObject) (name sql : bytes)
    (Hs : TableSpec.stored w H h Schema.SCHEMA_ROOT_PAGE rows ps) (Hobj : parse_rows dbg (text_enc w) rows = Ok objects)
    (Hname : is_bytes name) (Hsql : is_bytes sql) (Un : Value.utf8_valid name = true) (Us : Value.utf8_valid sql = true)
    (Hlen : zlen name + zlen sql < 2 ^ 60) (Hdepth : (h < 20)%nat) (Hfuel : (S h <= fuel)%nat)
    (Hroom : forall len, 0 <= len <= 100 + 2 * zlen name + zlen sql -> wp_page_count w + 3 + WriterTable.insert_pages (usable_size w) len h < 2 ^ 32) :
  exists next root row w' H' h' ps', Cursor.next_rowid fuel (wp_source w) Schema.SCHEMA_ROOT_PAGE = Ok next /\
    (rows = [] -> next = 1) /\ (next = 1 \/ next = 2 ^ 63 - 1 \/ below next rows) /\
    create_table_object fuel w false name sql = Ok (root, w') /\ H !! root = None /\
    TableSpec.stored w' H' h' Schema.SCHEMA_ROOT_PAGE (ins (next, row) rows) ps' /\ TableSpec.stored w' H' 0 root [] [root] /\ root ∉ ps' /\
    (forall p d, p ∉ ps -> H !! p = Some d -> H' !! p = Some d) /\
    let obj := Schema.mkObject Schema.Table name name root (Some sql) in
    (below next rows -> placed rows next obj objects = objects ++ [obj]) /\
    forall fuel', (S h' + length ps' + S (length rows) < fuel')%nat ->
      Schema.read dbg fuel' (wp_source w') =
        if decide (text_enc w = Header.Utf8) then Ok (Schema.mkSchema (placed rows next obj objects)) else Err (ECorrupt "odd-length UTF-16 text").
Proof.
  pose proof Hs as (Hh & H1s & Htab). pose proof (zlen_nonneg name) as Hzn. pose proof (zlen_nonneg sql) as Hzs.
  destruct (next_rowid_stored w H h _ rows ps fuel Hs Hfuel) as (next & Hnext & H64 & Hemp & Hpos).
  assert (wp_page_count w + 3 < 2 ^ 32) as Hr0.
  { specialize (Hroom 0 ltac:(lia)). destruct (holds_geom w H Hh) as (Hu & _). pose proof (insert_pages_nonneg (usable_size w) 0 h ltac:(lia) ltac:(lia)). lia. }
  destruct (TableSpec.create_stored w H Hh H1s Hr0) as (root & w1 & H1 & Ec & Hs1 & Hno & Hev1 & Hkeep). pose proof Hev1 as (Eu1 & _ & Hc1 & Een1).
  destruct (table_row dbg name root sql Hname Hsql Un Us (stored_root_u32 _ _ _ _ _ Hs1) Hlen) as (row & Er & Hrb & Hrl & Hrp).
  pose proof (WriterSpec.table_owned _ _ _ _ _ _ Htab) as Ho. rewrite Forall_forall in Ho.
  assert (TableSpec.stored w1 H1 h Schema.SCHEMA_ROOT_PAGE rows ps) as Hs0.
  { pose proof Hs1 as (Hh1 & H11 & _). split_and!; [done|done|]. rewrite Eu1. apply (WriterSpec.table_frame H); [done|]. intros p Hp. destruct (Ho p Hp) as [d Hd]. rewrite Hd. by apply Hkeep. }
  destruct (TableSpec.insert_stored w1 H1 h Schema.SCHEMA_ROOT_PAGE rows ps next row Hs0 H64 Hrb) as (w2 & H2 & h' & ps' & Ei & Hs2 & Htch & _ & (Eu2 & _ & _ & Een2)); try done.
  { unfold Cursor.ISIZE_MAX. lia. } { rewrite Eu1. specialize (Hroom (zlen row) ltac:(pose proof (zlen_nonneg row); lia)). lia. }
  pose proof Hs1 as (Hh1 & _ & Ht1). pose proof Hs2 as (Hh2 & H12 & _).
  assert (root ∉ ps) as Hnin by (intros Hin; destruct (Ho root Hin); congruence).
  destruct (TableSpec.touches_other _ _ _ _ _ _ _ _ _ Htch Ht1) as [Ht2 Hdis]; [by intros p ->%list_elem_of_singleton|].
  exists next, root, row, w2, H2, h', ps'. cbv zeta. split_and!; try done.
  - unfold create_table_object. rewrite Ec. bind_step. rewrite (next_rowid_frame w w1 H H1 h _ rows ps fuel Hs Hh1 Eu1), Hnext; [|by intros p d _; apply Hkeep]. bind_step.
    rewrite Er. bind_step. rewrite Ei. by bind_step.
  - split_and!; [done|done|]. by rewrite Eu2.
  - apply Hdis. by left.
  - intros p d Hp Hd. destruct Htch as [_ Hfr]. apply Hfr; [done|by apply Hkeep].
  - intros Hb. apply placed_last; [done|]. by eapply parse_rows_length.
  - intros fuel' Hf. rewrite (read_scan dbg fuel' _ (ins (next, row) rows)).
    + cbn [wp_source Pager.src_header]. change (Header.text_encoding (wp_header w2)) with (text_enc w2). rewrite Een2, Een1.
      rewrite (parse_rows_ins dbg _ rows next row objects (proj1 (stored_sorted _ _ _ _ _ _ Hs)) Hobj), Hrp. by case_decide.
    + eapply TableSpec.scan_stored; [exact Hs2|]. pose proof (TableSpec.length_ins (next, row) rows). lia.
Qed.

(** A database of one page: an empty catalog. *)
Definition cat_wp : WritePager := mkWp CursorProps.pg1 demo_header demo_header 512 1 1 ∅ [] false.
Definition cat_heap : gmap Z bytes := {[1 := CursorProps.pg1]}.

Lemma cat_stored : TableSpec.stored cat_wp cat_heap 0 1 [] [1].
Proof.
  split_and!; [|by eexists|].
  - exists []. split.
    + split; try done.
      * constructor; [split; [simpl; lia|done]|by unfold is_uint; simpl; lia|simpl; lia|]. by repeat (apply Forall_cons_2 || apply Forall_nil_2).
      * split_and!; [by vm_compute|apply TableSpec.is_bytes_check; by vm_compute|cbn; lia|cbn; lia].
      * intros n Hn. left. cbn in *. lia.
      * constructor.
      * constructor.
    + unfold cat_heap. intros n d [<- <-]%lookup_singleton_Some. split_and!; [apply not_elem_of_nil|cbn; lia|cbn; lia|by vm_compute].
  - exists (BLeaf 1 []), []. split_and!; try done; [|constructor|apply NoDup_singleton|apply not_elem_of_nil]. cbn [tree_ok].
    split_and!; [|done|constructor|constructor]. exists CursorProps.pg1. split; [done|]. exists (mkBt (Pager.mkPage 1 CursorProps.pg1) LeafTable 100 0 0).
    split; [vm_compute; reflexivity|]. by split.
Qed.

Lemma small_row len : 0 <= len <= 477 -> WriterTable.insert_pages 512 len 0 = 24.
Proof.
  intros Hl. unfold WriterTable.insert_pages, row_pages, WriterPages.local_part, split_value, sat_sub.
  destruct (Z.leb_spec len (Z.max 0 (512 - 35))); [|lia]. cbn [fst]. rewrite Z.sub_diag. done.
Qed.

Lemma create_table_registers_witness : exists root row w' H' h' ps', create_table_object 5 cat_wp false (Schema.str "t") (Schema.str "CREATE TABLE t(a)") = Ok (root, w') /\
  TableSpec.stored w' H' h' 1 [(1, row)] ps' /\ TableSpec.stored w' H' 0 root [] [root] /\
  Schema.read Schema.show (S (S (S h') + length ps')) (wp_source w') = Ok (Schema.mkSchema [Schema.mkObject Schema.Table (Schema.str "t") (Schema.str "t") root (Some (Schema.str "CREATE TABLE t(a)"))]).
Proof.
  destruct (create_table_registers Schema.show 5 cat_wp cat_heap 0 [] [1] [] (Schema.str "t") (Schema.str "CREATE TABLE t(a)"))
    as (next & root & row & w' & H' & h' & ps' & _ & En & _ & E & _ & Hs1 & Hs2 & _ & _ & _ & Hr).
  - exact cat_stored.
  - reflexivity.
  - by repeat constructor.
  - by repeat constructor.
  - reflexivity.
  - reflexivity.
  - reflexivity.
  - lia.
  - lia.
  - intros len Hl. change (usable_size cat_wp) with 512. change (zlen (Schema.str "t")) with 1 in Hl. change (zlen (Schema.str "CREATE TABLE t(a)")) with 17 in Hl.
    rewrite small_row by lia. change (wp_page_count cat_wp) with 1. lia.
  - rewrite (En eq_refl) in *. exists root, row, w', H', h', ps'. split_and!; [exact E|exact Hs1|exact Hs2|]. rewrite Hr; [reflexivity|simpl; lia].
Defined.

(** The same database in UTF-16: the statement succeeds and the catalog is
    corrupt afterwards. *)
Definition utf16_header : Header.DatabaseHeader :=
  Header.mkHeader 512 1 1 0 2 2 0 0 1 4 0 0 Header.Utf16Le 0 0 0 2 3046001.
Definition utf16_wp : WritePager := mkWp CursorProps.pg1 utf16_header utf16_header 512 1 1 ∅ [] false.

Theorem utf16_catalog_lost :
  Schema.read Schema.show 9 (wp_source utf16_wp) = Ok (Schema.mkSchema []) /\
  exists w', create_table_object 5 utf16_wp false (Schema.str "t") (Schema.str "CREATE TABLE t(a)") = Ok (2, w') /\
    Schema.read Schema.show 9 (wp_source w') = Err (ECorrupt "odd-length UTF-16 text").
Proof.
  split; [vm_compute; reflexivity|]. destruct (create_table_object 5 utf16_wp false _ _) as [[r w']| |] eqn:E; [|vm_compute in E; discriminate..].
  exists w'. vm_compute in E. injection E as <- <-. split; [reflexivity|vm_compute; reflexivity].
Qed.

End Catalog.
