(* ===== verification/AutoVacuum.v ===== *)
(** Auto-vacuum in the write pager ([src/src/pager/write.rs]): the pointer map
    derived from the b-tree forest and the free list and rebuilt at commit, and
    the relocation of trailing pages into free slots that shortens the file;
    and the whole of a commit in rollback-journal mode, which starts with them.

    The walks over trees and chains carry a fuel and end in [Panic] when it is
    used up; [AutoVacuumProps] bounds the fuel by the number of pages. A
    [BTreeMap] is a [gmap] whose entries are visited in key order. *)

From S2P Require Import Prelude Header Value Record Ptrmap Journal Pager BtPage Cursor WritePager Writer WriterHeap.
From stdpp Require Import sorting.
Import BtPage WritePager Writer WriterHeap.
Local Open Scope Z_scope.

Module AutoVacuum.

Inductive AutoVacuum : Type := NoVacuum | Full | Incremental.

#[global] Instance AutoVacuum_eq_dec : EqDecision AutoVacuum.
Proof. solve_decision. Defined.

Abbreviation PtrmapEntry := (Ptrmap.PtrmapType * Z)%type.
Abbreviation Want := (gmap Z PtrmapEntry).

#[global] Instance PtrmapType_eq_dec : EqDecision Ptrmap.PtrmapType.
Proof. solve_decision. Defined.

Definition auto_vacuum (w : WritePager) : AutoVacuum :=
  if Header.largest_root_page (wp_header w) =? 0 then NoVacuum
  else if negb (Header.incremental_vacuum (wp_header w) =? 0) then Incremental
  else Full.

(** The two auto-vacuum fields of the header. *)
Definition with_vacuum (h : Header.DatabaseHeader) (largest incr : Z) : Header.DatabaseHeader :=
  Header.mkHeader (Header.page_size h) (Header.write_version h) (Header.read_version h)
    (Header.reserved_space h) (Header.change_counter h) (Header.size_in_pages h) (Header.freelist_trunk h)
    (Header.freelist_count h) (Header.schema_cookie h) (Header.schema_format h) (Header.default_cache_size h)
    largest (Header.text_encoding h) (Header.user_version h) incr (Header.application_id h)
    (Header.version_valid_for h) (Header.sqlite_version_number h).

Definition set_vacuum (w : WritePager) (largest incr : Z) : WritePager :=
  set_staged w (with_vacuum (wp_header w) largest incr) (wp_page_count w) (wp_overlay w).

Definition set_auto_vacuum_if_empty (w : WritePager) (mode : AutoVacuum) : res (bool * WritePager) :=
  if negb (wp_page_count w =? 1) then Ok (false, w)
  else
    let* p1 := read_page w 1 in
    let* bt := BtPage.parse (Pager.mkPage 1 p1) in
    let non_empty := match page_type bt with LeafTable => negb (num_cells bt =? 0) | _ => true end in
    if non_empty then Ok (false, w)
    else
      let '(largest, incr) := match mode with NoVacuum => (0, 0) | Full => (1, 0) | Incremental => (1, 1) end in
      Ok (true, set_vacuum (header_mut w) largest incr).

(** The order of keys. *)
Definition key_le {A} (x y : Z * A) : Prop := x.1 <= y.1.

#[global] Instance key_le_dec A : RelDecision (@key_le A).
Proof. intros x y. unfold key_le. apply _. Defined.

(** The entries of a [BTreeMap] in order. *)
Definition entries {A} (m : gmap Z A) : list (Z * A) := merge_sort key_le (map_to_list m).

(** ** What the pointer map should say *)

(** The [while cur != 0] of [record_overflow_chain]. *)
Fixpoint chain_loop (fuel : nat) (w : WritePager) (prev cur : Z) (want : Want) : res Want :=
  if cur =? 0 then Ok want
  else
    match fuel with
    | O => Panic
    | S fuel =>
        let want := <[cur := (Ptrmap.Overflow2, prev)]> want in
        let* pg := read_page w cur in
        let* next := be_u32 pg 0 in
        chain_loop fuel w cur next want
    end.

Definition record_overflow_chain (fuel : nat) (w : WritePager) (first holder : Z) (want : Want) : res Want :=
  if first =? 0 then Ok want
  else
    let want := <[first := (Ptrmap.Overflow1, holder)]> want in
    let* pg := read_page w first in
    let* cur := be_u32 pg 0 in
    chain_loop fuel w first cur want.

(** The leaves a trunk lists, from the [i]th on; [k] are left. *)
Fixpoint leaf_loop (k : nat) (i : Z) (tb : bytes) (want : Want) : res Want :=
  match k with
  | O => Ok want
  | S k =>
      let* leaf := be_u32 tb (8 + 4 * i) in
      leaf_loop k (i + 1) tb (<[leaf := (Ptrmap.FreePage, 0)]> want)
  end.

(** The trunks; [turns] is how far the guard is from its cap. *)
Fixpoint trunk_loop (turns : nat) (w : WritePager) (trunk : Z) (want : Want) : res Want :=
  if trunk =? 0 then Ok want
  else
    match turns with
    | O => Err (ECorrupt "freelist trunk cycle")
    | S turns =>
        let want := <[trunk := (Ptrmap.FreePage, 0)]> want in
        let* tb := read_page w trunk in
        let* next := be_u32 tb 0 in
        let* leaf_count := be_u32 tb 4 in
        let* want := leaf_loop (Z.to_nat leaf_count) 0 tb want in
        trunk_loop turns w next want
    end.

Definition walk_freelist_ptrmap (w : WritePager) (want : Want) : res Want :=
  let cap := Header.freelist_count (wp_header w) + 8 in
  if 2 ^ 32 <=? cap then Panic
  else trunk_loop (Z.to_nat cap) w (Header.freelist_trunk (wp_header w)) want.

(** The root pages in the catalog rows of a leaf, from cell [i] on. *)
Fixpoint roots_of_leaf (k : nat) (i : Z) (w : WritePager) (bt : BtreePage) (out : list Z) : res (list Z) :=
  match k with
  | O => Ok out
  | S k =>
      let* cell := table_leaf_cell bt i (usable_size w) in
      let* full := Cursor.read_payload (wp_source w) (bt_data bt) (tl_payload cell) in
      let* cols := Record.decode_record full (Header.text_encoding (wp_header w)) in
      let out :=
        match cols !! 3%nat with
        | Some (Value.Integer r) => if 0 <? r then out ++ [wrap 32 r] else out
        | _ => out
        end in
      roots_of_leaf k (i + 1) w bt out
  end.

(** Pushing the children of an interior page. *)
Fixpoint push_children (k : nat) (i : Z) (bt : BtreePage) (stack : list Z) : res (list Z) :=
  match k with
  | O => Ok stack
  | S k =>
      let* c := child_pointer bt i in
      push_children k (i + 1) bt (c :: stack)
  end.

(** The [while let Some(pg) = stack.pop()] of [schema_roots]. *)
Fixpoint schema_loop (fuel : nat) (w : WritePager) (stack : list Z) (out : list Z) : res (list Z) :=
  match stack with
  | [] => Ok out
  | pg :: stack =>
      match fuel with
      | O => Panic
      | S fuel =>
          let* d := read_page w pg in
          let* bt := BtPage.parse (Pager.mkPage pg d) in
          match page_type bt with
          | LeafTable =>
              let* out := roots_of_leaf (Z.to_nat (num_cells bt)) 0 w bt out in
              schema_loop fuel w stack out
          | InteriorTable =>
              let* stack := push_children (Z.to_nat (num_cells bt)) 0 bt stack in
              schema_loop fuel w (right_pointer bt :: stack) out
          | _ => Err (ECorrupt "sqlite_schema is not a table b-tree")
          end
      end
  end.

Definition schema_roots (fuel : nat) (w : WritePager) : res (list Z) := schema_loop fuel w [1] [].

(** The overflow chains of a leaf's cells. *)
Fixpoint leaf_chains (fuel k : nat) (i : Z) (w : WritePager) (bt : BtreePage) (pg : Z) (want : Want) : res Want :=
  match k with
  | O => Ok want
  | S k =>
      let* ov :=
        match page_type bt with
        | LeafTable => let* c := table_leaf_cell bt i (usable_size w) in Ok (overflow (tl_payload c))
        | _ => let* c := index_cell bt i (usable_size w) in Ok (overflow (ix_payload c))
        end in
      let* want := record_overflow_chain fuel w ov pg want in
      leaf_chains fuel k (i + 1) w bt pg want
  end.

(** The cells of an interior page: the chain of an index cell, and the child. *)
Fixpoint interior_cells (fuel k : nat) (i : Z) (w : WritePager) (bt : BtreePage) (pg : Z) (stack : list Z) (want : Want)
    : res (list Z * Want) :=
  match k with
  | O => Ok (stack, want)
  | S k =>
      let* want :=
        match page_type bt with
        | InteriorIndex =>
            let* c := index_cell bt i (usable_size w) in
            record_overflow_chain fuel w (overflow (ix_payload c)) pg want
        | _ => Ok want
        end in
      let* child := child_pointer bt i in
      interior_cells fuel k (i + 1) w bt pg (child :: stack) (<[child := (Ptrmap.Btree, pg)]> want)
  end.

(** The [while let Some(pg) = stack.pop()] of [walk_btree_ptrmap]. *)
Fixpoint walk_loop (fuel : nat) (w : WritePager) (stack : list Z) (want : Want) : res Want :=
  match stack with
  | [] => Ok want
  | pg :: stack =>
      match fuel with
      | O => Panic
      | S fuel =>
          let* d := read_page w pg in
          let* bt := BtPage.parse (Pager.mkPage pg d) in
          if is_leaf (page_type bt) then
            let* want := leaf_chains fuel (Z.to_nat (num_cells bt)) 0 w bt pg want in
            walk_loop fuel w stack want
          else
            let* (stack, want) := interior_cells fuel (Z.to_nat (num_cells bt)) 0 w bt pg stack want in
            let r := right_pointer bt in
            walk_loop fuel w (r :: stack) (<[r := (Ptrmap.Btree, pg)]> want)
      end
  end.

Definition walk_btree_ptrmap (fuel : nat) (w : WritePager) (root : Z) (want : Want) : res Want :=
  walk_loop fuel w [root] want.

Fixpoint walk_roots (fuel : nat) (w : WritePager) (roots : list Z) (want : Want) : res Want :=
  match roots with
  | [] => Ok want
  | r :: roots =>
      let* want := walk_btree_ptrmap fuel w r want in
      walk_roots fuel w roots want
  end.

(** The entries of the roots and the largest root page. *)
Definition root_entries (roots : list Z) : Want * Z :=
  fold_left (fun '(want, max_root) root =>
    (if 2 <=? root then <[root := (Ptrmap.RootPage, 0)]> want else want, if max_root <? root then root else max_root))
    roots (∅, 1).

Definition compute_want (fuel : nat) (w : WritePager) : res (Want * Z) :=
  let* roots := schema_roots fuel w in
  let '(want, max_root) := root_entries roots in
  let* want := walk_roots fuel w (1 :: roots) want in
  let* want := walk_freelist_ptrmap w want in
  Ok (want, max_root).

(** ** Rebuilding the pointer map *)

Definition has_page (w : WritePager) (n : Z) : bool :=
  bool_decide (is_Some (wp_overlay w !! n)) || ((1 <=? n) && (n <=? wp_disk_pages w)).

(** The entries by the map page they are on. *)
Fixpoint group_by_map (usable : Z) (es : list (Z * PtrmapEntry)) (by_map : gmap Z (list (Z * PtrmapEntry)))
    : res (gmap Z (list (Z * PtrmapEntry))) :=
  match es with
  | [] => Ok by_map
  | e :: es =>
      let* map := Ptrmap.ptrmap_pageno usable e.1 in
      group_by_map usable es (<[map := default [] (by_map !! map) ++ [e]]> by_map)
  end.

Fixpoint put_entries (usable : Z) (es : list (Z * PtrmapEntry)) (page : bytes) : res bytes :=
  match es with
  | [] => Ok page
  | (pgno, (kind, parent)) :: es =>
      let* off := Ptrmap.ptrmap_entry_offset usable pgno in
      let* page := copy_at page off (Ptrmap.encode_entry kind parent) in
      put_entries usable es page
  end.

Fixpoint put_maps (usable : Z) (ms : list (Z * list (Z * PtrmapEntry))) (w : WritePager) : res WritePager :=
  match ms with
  | [] => Ok w
  | (map_pg, es) :: ms =>
      let* page := if has_page w map_pg then read_page w map_pg else Ok (zero_page w) in
      let* page := put_entries usable es page in
      put_maps usable ms (set_overlay w map_pg page)
  end.

Definition rebuild_ptrmap (fuel : nat) (w : WritePager) : res WritePager :=
  let usable := usable_size w in
  let* (want, max_root) := compute_want fuel w in
  let w := set_vacuum w max_root (Header.incremental_vacuum (wp_header w)) in
  let* by_map := group_by_map usable (entries want) ∅ in
  put_maps usable (entries by_map) w.

(** ** Relocation *)

Fixpoint fix_child (k : nat) (i : Z) (bt : BtreePage) (old new : Z) (bs : bytes) : res (option bytes) :=
  match k with
  | O => Ok None
  | S k =>
      let* c := child_pointer bt i in
      if c =? old then
        let* off := child_pointer_offset bt i in
        let* bs := put32 bs off new in
        Ok (Some bs)
      else fix_child k (i + 1) bt old new bs
  end.

Fixpoint fix_overflow (k : nat) (i : Z) (bt : BtreePage) (usable old new : Z) (bs : bytes) : res (option bytes) :=
  match k with
  | O => Ok None
  | S k =>
      let* o := cell_overflow_offset bt i usable in
      match o with
      | Some off =>
          let* v := be_u32 bs off in
          if v =? old then
            let* bs := put32 bs off new in
            Ok (Some bs)
          else fix_overflow k (i + 1) bt usable old new bs
      | None => fix_overflow k (i + 1) bt usable old new bs
      end
  end.

Definition fix_reference (w : WritePager) (kind : Ptrmap.PtrmapType) (holder old new usable : Z) : res WritePager :=
  match kind with
  | Ptrmap.Btree =>
      let* bs := read_page w holder in
      let* bt := BtPage.parse (Pager.mkPage holder bs) in
      let* fixed := fix_child (Z.to_nat (num_cells bt + 1)) 0 bt old new bs in
      match fixed with
      | None => Err (ECorrupt "relocate: child pointer not found")
      | Some bs => Ok (set_overlay w holder bs)
      end
  | Ptrmap.Overflow1 =>
      let* bs := read_page w holder in
      let* bt := BtPage.parse (Pager.mkPage holder bs) in
      let* fixed := fix_overflow (Z.to_nat (num_cells bt)) 0 bt usable old new bs in
      match fixed with
      | None => Err (ECorrupt "relocate: overflow holder not found")
      | Some bs => Ok (set_overlay w holder bs)
      end
  | Ptrmap.Overflow2 =>
      let* bs := read_page w holder in
      let* v := be_u32 bs 0 in
      if negb (v =? old) then Err (ECorrupt "relocate: overflow link mismatch")
      else
        let* bs := put32 bs 0 new in
        Ok (set_overlay w holder bs)
  | _ => Err (ECorrupt "relocate: unexpected page kind")
  end.

Definition drop_overlay (w : WritePager) (n : Z) : WritePager :=
  set_staged w (wp_header w) (wp_page_count w) (delete n (wp_overlay w)).

(** The first page of [free] (in order) below [last] that can hold data. *)
Fixpoint find_slot (usable lock_page last : Z) (free : list Z) : res (option Z) :=
  match free with
  | [] => Ok None
  | f :: free =>
      if f <? last then
        let* m := Ptrmap.is_ptrmap_page usable f in
        if negb m && negb ((1 <? lock_page) && (f =? lock_page)) then Ok (Some f)
        else find_slot usable lock_page last free
      else find_slot usable lock_page last free
  end.

Definition remove (n : Z) (free : list Z) : list Z := filter (fun f => f <> n) free.

(** [resolve]. *)
Definition resolve (moved : gmap Z Z) (p : Z) : Z := default p (moved !! p).

(** The [while last > 1]; the page number [last] falls by one each turn, so
    [last] turns are enough. *)
Fixpoint relocate (k : nat) (want : Want) (limit lock_page usable start last : Z) (free : list Z) (moved : gmap Z Z) (w : WritePager)
    : res (Z * list Z * WritePager) :=
  match k with
  | O => Ok (last, free, w)
  | S k =>
      if last <=? 1 then Ok (last, free, w)
      else if negb (limit =? 0) && (limit <=? start - last) then Ok (last, free, w)
      else
        let* m := Ptrmap.is_ptrmap_page usable last in
        if m then relocate k want limit lock_page usable start (last - 1) free moved (drop_overlay w last)
        else if (1 <? lock_page) && (last =? lock_page) then Ok (last, free, w)
        else if bool_decide (last ∈ free) then
          relocate k want limit lock_page usable start (last - 1) (remove last free) moved (drop_overlay w last)
        else
          let* dest := find_slot usable lock_page last free in
          match dest with
          | None => Ok (last, free, w)
          | Some dest =>
              match want !! last with
              | None => Err (ECorrupt "relocate: page not in ptrmap")
              | Some (kind, parent) =>
                  if bool_decide (kind = Ptrmap.RootPage) then Ok (last, free, w)
                  else
                    let* contents := read_page w last in
                    let w := drop_overlay (set_overlay w dest contents) last in
                    let moved := <[last := dest]> moved in
                    let* w := fix_reference w kind (resolve moved parent) last dest usable in
                    relocate k want limit lock_page usable start (last - 1) (remove dest free) moved w
              end
          end
  end.

Fixpoint free_all (ps : list Z) (w : WritePager) : res WritePager :=
  match ps with
  | [] => Ok w
  | p :: ps => let* w := free_page w p in free_all ps w
  end.

Definition autovacuum_truncate (fuel : nat) (w : WritePager) (limit : Z) : res WritePager :=
  let usable := usable_size w in
  let* (want, _) := compute_want fuel w in
  let* probe := walk_freelist_ptrmap w ∅ in
  let free := (filter (fun e : Z * PtrmapEntry => e.2.1 = Ptrmap.FreePage) (entries probe)).*1 in
  match free with
  | [] => Ok w
  | _ =>
      let w := set_freelist w 0 0 in
      let lock_page := wrap 32 (PENDING_BYTE / wp_page_size w) + 1 in
      let start := wp_page_count w in
      let* (st, w) := relocate (Z.to_nat start) want limit lock_page usable start start free ∅ w in
      let '(last, free) := st in
      let* w := free_all (filter (fun pg => pg <= last) free) w in
      Ok (set_staged w (wp_header w) last (filter (fun e : Z * bytes => e.1 <= last) (wp_overlay w)))
  end.

(** The changes of a failed attempt are undone: the staged state is the one it
    began with. *)
Definition maybe_autovacuum_truncate (fuel : nat) (w : WritePager) : res WritePager :=
  if negb (bool_decide (auto_vacuum w = Full)) then Ok w
  else
    match autovacuum_truncate fuel w 0 with
    | Ok w' => Ok w'
    | Err _ => Ok w
    | Panic => Panic
    end.

Definition incremental_vacuum (fuel : nat) (w : WritePager) (n : Z) : res (Z * WritePager) :=
  if negb (bool_decide (auto_vacuum w = Incremental)) then Ok (0, w)
  else
    let limit := if n <=? 0 then 0 else Z.min n (2 ^ 32 - 1) in
    match autovacuum_truncate fuel w limit with
    | Ok w' => Ok (wp_page_count w - wp_page_count w', w')
    | Err _ => Ok (0, w)
    | Panic => Panic
    end.

(** What [commit] and [commit_wal] do first. *)
Definition commit_vacuum (fuel : nat) (w : WritePager) : res WritePager :=
  if auto_vacuum_on w then
    let* w := maybe_autovacuum_truncate fuel w in
    rebuild_ptrmap fuel w
  else Ok w.

(** ** Commit in rollback-journal mode *)

(** The header bookkeeping of a commit. *)
Definition with_commit (h : Header.DatabaseHeader) (pages : Z) : Header.DatabaseHeader :=
  let cc := wrap 32 (Header.change_counter h + 1) in
  Header.mkHeader (Header.page_size h) (Header.write_version h) (Header.read_version h)
    (Header.reserved_space h) cc pages (Header.freelist_trunk h) (Header.freelist_count h)
    (Header.schema_cookie h) (Header.schema_format h) (Header.default_cache_size h)
    (Header.largest_root_page h) (Header.text_encoding h) (Header.user_version h)
    (Header.incremental_vacuum h) (Header.application_id h) cc (Header.sqlite_version_number h).

(** Refresh the header and stamp it on page one; [unwrap_or] reads page one in
    either case. *)
Definition stamp (w : WritePager) : res WritePager :=
  let h := with_commit (wp_header w) (wp_page_count w) in
  let w := set_staged w h (wp_page_count w) (wp_overlay w) in
  let* read := read_page w 1 in
  let* page1 := Header.write_to h (default read (wp_overlay w !! 1)) in
  Ok (set_overlay w 1 page1).

(** The file operations of the flush. *)
Definition flush (w : WritePager) : res (list Journal.io) :=
  let overlay := entries (wp_overlay w) in
  let* origs := Journal.originals overlay (wp_file w) (wp_disk_pages w) (wp_page_size w) in
  Ok (Journal.commit_ops (Header.change_counter (wp_header w)) (wp_disk_pages w) (wp_page_count w)
        (wp_page_size w) overlay origs).

(** The pager once the flush is done and has left [file]. *)
Definition flushed (w : WritePager) (file : bytes) : WritePager :=
  mkWp file (wp_header w) (wp_header w) (wp_page_size w) (wp_page_count w) (wp_page_count w) ∅ []
    (wp_secure_delete w).

(** [commit] with an open journal, which the last commit left empty, and no
    write-ahead log: the operations it issues and the state they lead to. *)
Definition commit (fuel : nat) (w : WritePager) : res (list Journal.io * WritePager) :=
  if decide (wp_overlay w = ∅) then Ok ([], w)
  else
    let* w := commit_vacuum fuel w in
    let* w := stamp w in
    let* ops := flush w in
    let* d := Journal.run ops (Journal.mkDisk (wp_file w) []) in
    Ok (ops, flushed w (Journal.d_file d)).

End AutoVacuum.
