(* ===== verification/AutoVacuumProps.v ===== *)
(** Auto-vacuum, first part: the walk of the forest derives the pointer map, and
    the map it writes is the one the integrity check demands. *)

From S2P Require Import Prelude Header Ptrmap Vfs Pager BtPage Integrity Forest WritePager WritePagerProps Writer WriterHeap AutoVacuum.
From stdpp Require Import sorting.
Import BtPage WritePager WritePagerProps Writer WriterHeap AutoVacuum.
Local Open Scope Z_scope.

Module AutoVacuumProps.

(** No demand on the pointer map, and the entries of a map (with parents that
    fit an entry) as a demand. *)
Definition any_ptr (_ : Z) (_ : Ptrmap.PtrmapType) (_ : Z) : Prop := True.
Definition says (want : Want) (k : Z) (t : Ptrmap.PtrmapType) (q : Z) : Prop := want !! k = Some (t, q) /\ is_u32 q.

(** Only these entries may differ. *)
Definition upd (want want' : Want) (ps : list Z) : Prop := forall q, q ∉ ps -> want' !! q = want !! q.

Lemma upd_refl want ps : upd want want ps.
Proof. by intros q _. Qed.

Lemma upd_trans want1 want2 want3 ps qs : upd want1 want2 ps -> upd want2 want3 qs -> upd want1 want3 (ps ++ qs).
Proof. intros H1 H2 q [Hp Hq]%not_elem_of_app. by rewrite H2, H1. Qed.

Lemma upd_sub want want' ps qs : upd want want' ps -> ps ⊆ qs -> upd want want' qs.
Proof. intros H Hs q Hq. apply H. intros Hin. by apply Hq, Hs. Qed.

Lemma upd_insert want k e : upd want (<[k := e]> want) [k].
Proof. intros q [Hq _]%not_elem_of_cons. by apply lookup_insert_ne. Qed.

Lemma upd_agree src want want' ps qs : upd want want' qs -> (forall q, q ∈ ps -> q ∉ qs) -> Forest.agree src src (says want) (says want') ps.
Proof. intros H Hd q Hq. split; [done|]. intros t k. unfold says. by rewrite H by (by apply Hd). Qed.

Lemma be_u32_total d at_ : 0 <= at_ -> at_ + 4 <= zlen d -> be_u32 d at_ = Ok (Integrity.be_u32 d at_).
Proof.
  intros H1 H2. rewrite be_u32_Ok by lia. unfold Integrity.be_u32. by rewrite get_range_Some by lia.
Qed.

Lemma tails_sub (trees : list (list Z)) : concat (tail <$> trees) ⊆ concat trees.
Proof. induction trees as [|[|x t] trees IH]; [done|..]; cbn in *; set_solver. Qed.

Lemma concat_perm (l k : list (list Z)) : l ≡ₚ k -> concat l ≡ₚ concat k.
Proof. induction 1 as [|x l k _ IH|x y l|l k m _ IH1 _ IH2]; cbn [concat]; [done|by rewrite IH|by rewrite Permutation_app_swap_app|by rewrite IH1]. Qed.

Lemma concat_reverse (l : list (list Z)) : concat (reverse l) ≡ₚ concat l.
Proof. apply concat_perm, reverse_Permutation. Qed.

Lemma Forall2_reverse_inv {A B} (P : A -> B -> Prop) l k : Forall2 P (reverse l) (reverse k) -> Forall2 P l k.
Proof. intros H%Forall2_reverse. by rewrite !reverse_involutive in H. Qed.

(** ** Sound pages *)

(** The part of the pager's invariant the walks need: every page that can be
    read has the page size. It holds of the pager between operations, and while
    the vacuum takes pages off the end. *)
Record sound (w : WritePager) : Prop := {
  snd_header : Header.wf (wp_header w);
  snd_ps : wp_page_size w = Header.page_size (wp_header w);
  snd_file : zlen (wp_file w) = wp_disk_pages w * wp_page_size w /\ is_bytes (wp_file w) /\ 0 <= wp_disk_pages w < 2 ^ 32;
  snd_overlay : forall n d, wp_overlay w !! n = Some d -> 1 <= n < 2 ^ 32 /\ zlen d = wp_page_size w /\ is_bytes d
}.

Lemma inv_sound w l : inv w l -> sound w.
Proof.
  intros Hi. pose proof (inv_pc w l Hi). destruct (inv_file w l Hi) as (Hf & Hb & Hd). split; [apply (inv_header w l Hi)|apply (inv_ps w l Hi)|split_and!; try done; lia|].
  intros n d Hn. destruct (inv_overlay w l Hi n d Hn) as (? & ? & ?). split_and!; try done; lia.
Qed.

Lemma sound_ps w : sound w -> 512 <= wp_page_size w <= 65536.
Proof. intros H. rewrite (snd_ps w H). apply (Header.wf_page_size _ (snd_header w H)). Qed.

Lemma sound_us w : sound w -> 257 <= usable_size w <= wp_page_size w.
Proof.
  intros H. pose proof (sound_ps w H). rewrite (snd_ps w H) in *. destruct (snd_header w H) as [_ (_ & _ & Hr) _ _]. unfold usable_size, Header.usable_size, is_uint in *. lia.
Qed.

Lemma sound_read w n d : sound w -> read_page w n = Ok d -> zlen d = wp_page_size w /\ is_bytes d /\ 1 <= n < 2 ^ 32.
Proof.
  intros H. pose proof (sound_ps w H). destruct (snd_file w H) as (Hf & Hb & Hd). unfold read_page.
  destruct (wp_overlay w !! n) as [x|] eqn:E; [intros [= <-]; by destruct (snd_overlay w H n x E) as (? & ? & ?)|].
  destruct (Z.eqb_spec n 0); [done|]. destruct (Z.ltb_spec (wp_disk_pages w) n); [done|]. cbn [orb]. intros Er. pose proof Er as Er'. unfold Vfs.mem_read in Er'.
  apply res_bind_Ok in Er' as (e & _ & E2). destruct (_ <? e); [done|]. apply slice_Ok_inv in E2 as (? & _).
  rewrite Vfs.mem_read_Ok in Er by nia. injection Er as <-. split_and!; [rewrite zlen_sub; nia|by apply is_bytes_sub|nia|lia].
Qed.

Section walk.
#[local] Set Default Proof Using "Type*".
Context (w : WritePager) (Hi : sound w).
Local Notation src := (wp_source w).
Local Notation us := (usable_size w).

Lemma src_read p page : Pager.src_page src p = Ok page -> read_page w p = Ok (Pager.data page) /\ page = Pager.mkPage p (Pager.data page) /\
  be_u32 (Pager.data page) 0 = Ok (Integrity.be_u32 (Pager.data page) 0) /\ be_u32 (Pager.data page) 4 = Ok (Integrity.be_u32 (Pager.data page) 4) /\ zlen (Pager.data page) = wp_page_size w.
Proof.
  cbn [wp_source Pager.src_page]. unfold wp_page. intros (d & E & [= <-])%res_bind_Ok. cbn [Pager.data]. destruct (sound_read w p d Hi E) as (Hz & _). pose proof (sound_ps w Hi).
  split_and!; [done|done|apply be_u32_total; lia..|done].
Qed.

Lemma src_bytes p page : Pager.src_page src p = Ok page -> is_bytes (Pager.data page).
Proof. intros Hp. destruct (src_read p page Hp) as (E & _). by apply (sound_read w p). Qed.

Lemma src_u32 p page : Pager.src_page src p = Ok page -> is_u32 p.
Proof. intros Hp. destruct (src_read p page Hp) as (E & _). destruct (sound_read w p _ Hi E) as (_ & _ & ?). unfold is_uint. lia. Qed.

(** ** Overflow chains *)

Lemma chain_loop_spec cur n ps : Forest.over_list src any_ptr cur n ps -> NoDup ps -> forall fuel prev want, (length ps <= fuel)%nat -> is_u32 prev ->
  exists want', chain_loop fuel w prev cur want = Ok want' /\ upd want want' ps /\ (cur <> 0 -> says want' cur Ptrmap.Overflow2 prev) /\
    Forest.over_list src (says want') cur n ps.
Proof.
  induction 1 as [|p n page ps Hp Hpg _ Hl IH]; intros Hnd fuel prev want Hf Hpr.
  { exists want. destruct fuel; (split_and!; [done|apply upd_refl|done|constructor]). }
  apply NoDup_cons in Hnd as [Hnin Hnd]. destruct fuel as [|fuel]; [simpl in Hf; lia|]. cbn [chain_loop]. destruct (Z.eqb_spec p 0); [done|].
  destruct (src_read p page Hpg) as (Er & _ & E0 & _). rewrite Er. bind_step. rewrite E0. bind_step.
  destruct (IH Hnd fuel p (<[p := (Ptrmap.Overflow2, prev)]> want)) as (want' & -> & Hu & Hs & Ho); [simpl in Hf; lia|by apply (src_u32 p page)|].
  assert (says want' p Ptrmap.Overflow2 prev) as Hsp by (unfold says; rewrite Hu by done; split; [apply lookup_insert_eq|done]).
  exists want'. split_and!; [done| |done|].
  - eapply upd_sub; [eapply upd_trans; [apply upd_insert|exact Hu]|]. set_solver.
  - apply (Forest.ol_page _ _ p n page ps); try done. intros Hn. apply Hs. intros E. rewrite E in Hl. apply Forest.over_list_zero in Hl. lia.
Qed.

Lemma record_chain_spec first holder n ps fuel want : is_u32 holder -> first <> 0 -> Forest.over_list src any_ptr first n ps -> NoDup ps -> (length ps <= fuel)%nat ->
  exists want', record_overflow_chain fuel w first holder want = Ok want' /\ upd want want' ps /\ says want' first Ptrmap.Overflow1 holder /\
    Forest.over_list src (says want') first n ps.
Proof.
  intros Hh H0 Hl. inversion Hl as [|p m page qs Hp Hpg _ Hl' E1 E2 E3]; subst; [done|]. intros [Hnin Hnd]%NoDup_cons Hf. unfold record_overflow_chain.
  destruct (Z.eqb_spec first 0); [done|]. destruct (src_read first page Hpg) as (Er & _ & E0 & _). rewrite Er. bind_step. rewrite E0. bind_step.
  destruct (chain_loop_spec _ _ _ Hl' Hnd fuel first (<[first := (Ptrmap.Overflow1, holder)]> want)) as (want' & -> & Hu & Hs & Ho); [simpl in Hf; lia|by apply (src_u32 first page)|].
  exists want'. split_and!; [done| | |].
  - eapply upd_sub; [eapply upd_trans; [apply upd_insert|exact Hu]|]. set_solver.
  - unfold says. rewrite Hu by done. split; [apply lookup_insert_eq|done].
  - apply (Forest.ol_page _ _ first n page qs); try done. intros Hn. apply Hs. intros E. rewrite E in Hl'. apply Forest.over_list_zero in Hl'. lia.
Qed.

(** The chain of a cell, as both kinds of page record it. *)
Lemma cell_chain_spec bt p i ps c fuel want : is_u32 p -> Integrity.cell_payload bt i us = Some (Ok c) -> Forest.chain_of src us any_ptr bt p i ps -> NoDup ps -> (length ps <= fuel)%nat ->
  exists want', record_overflow_chain fuel w (overflow c) p want = Ok want' /\ upd want want' ps /\ Forest.chain_of src us (says want') bt p i ps.
Proof.
  intros Hp Ec Hc Hnd Hf. unfold Forest.chain_of in *. rewrite Ec in *. destruct (Z.eqb_spec (overflow c) 0) as [E|Hne].
  - exists want. subst ps. unfold record_overflow_chain. rewrite E. split_and!; [done|apply upd_refl|done].
  - destruct Hc as (e & Ee & _ & Hl). destruct (record_chain_spec (overflow c) p e ps fuel want Hp Hne Hl Hnd Hf) as (want' & -> & Hu & Hs & Ho).
    exists want'. split_and!; [done|done|]. by exists e.
Qed.

Lemma leaf_chains_spec fuel bt p k : is_u32 p -> is_leaf (page_type bt) = true -> forall i cs want, Forall2 (Forest.chain_of src us any_ptr bt p) (seqZ i (Z.of_nat k)) cs ->
  NoDup (concat cs) -> (length (concat cs) <= fuel)%nat ->
  exists want', leaf_chains fuel k i w bt p want = Ok want' /\ upd want want' (concat cs) /\ Forall2 (Forest.chain_of src us (says want') bt p) (seqZ i (Z.of_nat k)) cs.
Proof.
  intros Hp Hl. induction k as [|k IH]; intros i cs want; cbn [leaf_chains].
  { change (seqZ i (Z.of_nat 0)) with (@nil Z). intros ->%Forall2_nil_inv_l _ _. exists want. split_and!; [done|apply upd_refl|constructor]. }
  rewrite (seqZ_cons i) by lia. replace (Z.pred (Z.of_nat (S k))) with (Z.of_nat k) by lia. rewrite <- Z.add_1_r.
  intros (c & cs' & Hc & Hcs & ->)%Forall2_cons_inv_l. cbn [concat]. intros (Hnd1 & Hdis & Hnd2)%NoDup_app Hf. rewrite length_app in Hf.
  assert (exists pl, Integrity.cell_payload bt i us = Some (Ok pl) /\ match page_type bt with
    | LeafTable => let* c := table_leaf_cell bt i us in Ok (overflow (tl_payload c))
    | _ => let* c := index_cell bt i us in Ok (overflow (ix_payload c)) end = Ok (overflow pl)) as (pl & Epl & ->).
  { unfold Forest.chain_of in Hc. unfold Integrity.cell_payload in *. destruct (page_type bt); try done;
      [destruct (index_cell bt i us) as [x| |]|destruct (table_leaf_cell bt i us) as [x| |]]; try done; by eexists. }
  bind_step. destruct (cell_chain_spec bt p i c pl fuel want Hp Epl Hc Hnd1 ltac:(lia)) as (want1 & -> & Hu1 & Hc1). bind_step.
  destruct (IH (i + 1) cs' want1 Hcs Hnd2 ltac:(lia)) as (want2 & -> & Hu2 & Hc2). exists want2. split_and!; [done|by eapply upd_trans|].
  constructor; [|done]. apply (Forest.chain_of_frame src src us (says want1)); [done|]. by apply (upd_agree _ _ _ _ (concat cs')).
Qed.

(** The children of an interior page, with the trees below them. *)
Definition child_tree (ptr : Z -> Ptrmap.PtrmapType -> Z -> Prop) (bt : BtreePage) (h : nat) (i : Z) (x : Z * list Z) : Prop :=
  child_pointer bt i = Ok x.1 /\ Forest.tree_refs src us ptr h false x.1 x.2.

Lemma interior_cells_spec fuel bt p h k : is_u32 p -> is_leaf (page_type bt) = false -> forall i cs kids stack want,
  Forall2 (Forest.chain_of src us any_ptr bt p) (seqZ i (Z.of_nat k)) cs -> Forall2 (child_tree any_ptr bt h) (seqZ i (Z.of_nat k)) kids ->
  NoDup (concat cs ++ kids.*1) -> (length (concat cs) <= fuel)%nat ->
  exists want', interior_cells fuel k i w bt p stack want = Ok (reverse kids.*1 ++ stack, want') /\ upd want want' (concat cs ++ kids.*1) /\
    Forall2 (Forest.chain_of src us (says want') bt p) (seqZ i (Z.of_nat k)) cs /\ Forall (fun c => says want' c Ptrmap.Btree p) kids.*1.
Proof.
  intros Hp Hl. induction k as [|k IH]; intros i cs kids stack want; cbn [interior_cells].
  { change (seqZ i (Z.of_nat 0)) with (@nil Z). intros ->%Forall2_nil_inv_l ->%Forall2_nil_inv_l _ _. exists want. split_and!; [done|apply upd_refl|constructor|constructor]. }
  rewrite (seqZ_cons i) by lia. replace (Z.pred (Z.of_nat (S k))) with (Z.of_nat k) by lia. rewrite <- Z.add_1_r.
  intros (c & cs' & Hc & Hcs & ->)%Forall2_cons_inv_l ([c0 t0] & kids' & [Ec0 Ht0] & Hkids & ->)%Forall2_cons_inv_l. cbn [concat fmap list_fmap fst snd] in *. intros Hnd Hf. rewrite length_app in Hf.
  assert (NoDup c /\ (forall q, q ∈ c -> q ∉ c0 :: concat cs' ++ kids'.*1) /\ c0 ∉ concat cs' ++ kids'.*1 /\ NoDup (concat cs' ++ kids'.*1)) as (Hn1 & Hd1 & Hn2 & Hn3).
  { rewrite <- app_assoc, <- Permutation_middle in Hnd. apply NoDup_app in Hnd as (? & ? & [? ?]%NoDup_cons). by split_and!. }
  set (want1 := match page_type bt with InteriorIndex => _ | _ => Ok want end).
  assert (exists want', want1 = Ok want' /\ upd want want' c /\ Forest.chain_of src us (says want') bt p i c) as (want1' & E1 & Hu1 & Hc1).
  { unfold want1. destruct (page_type bt) eqn:Et; try done.
    - unfold Forest.chain_of, Integrity.cell_payload in Hc. rewrite Et in Hc. destruct (index_cell bt i us) as [x| |] eqn:Ex; try done. bind_step.
      apply (cell_chain_spec bt p i c (ix_payload x)); [done| |unfold Forest.chain_of, Integrity.cell_payload; by rewrite Et, Ex|done|lia].
      unfold Integrity.cell_payload. by rewrite Et, Ex.
    - unfold Forest.chain_of, Integrity.cell_payload in Hc. rewrite Et in Hc. subst c. exists want. split_and!; [done|apply upd_refl|]. unfold Forest.chain_of, Integrity.cell_payload. by rewrite Et. }
  rewrite E1. bind_step. rewrite Ec0. bind_step.
  destruct (IH (i + 1) cs' kids' (c0 :: stack) (<[c0 := (Ptrmap.Btree, p)]> want1') Hcs Hkids Hn3 ltac:(lia)) as (want2 & -> & Hu2 & Hc2 & Hk2).
  assert (upd want1' want2 (c0 :: concat cs' ++ kids'.*1)) as Hu12 by (apply (upd_trans _ _ _ [c0] _ (upd_insert _ _ _) Hu2)).
  exists want2. split_and!.
  - by rewrite reverse_cons, <- app_assoc.
  - eapply upd_sub; [eapply upd_trans; [exact Hu1|exact Hu12]|]. set_solver.
  - constructor; [|done]. apply (Forest.chain_of_frame src src us (says want1')); [done|]. by apply (upd_agree _ _ _ _ (c0 :: concat cs' ++ kids'.*1)).
  - constructor; [|done]. unfold says. rewrite Hu2 by done. split; [apply lookup_insert_eq|done].
Qed.

(** ** Trees *)

(** A page on the stack: its number, its height and whether it is a root; and
    the pages of its tree. *)
Abbreviation node := (Z * nat * bool)%type.

Definition node_tree (ptr : Z -> Ptrmap.PtrmapType -> Z -> Prop) (x : node) (ps : list Z) : Prop :=
  Forest.tree_refs src us ptr x.1.2 x.2 x.1.1 ps.

Lemma kids_pairs ptr bt p h ix kids : Forall2 (fun i ks => exists c, child_pointer bt i = Ok c /\ ptr c Ptrmap.Btree p /\ Forest.tree_refs src us ptr h false c ks) ix kids ->
  exists kc : list (Z * list Z), kids = kc.*2 /\ Forall2 (child_tree ptr bt h) ix kc /\ Forall (fun c => ptr c Ptrmap.Btree p) kc.*1.
Proof using Type.
  induction 1 as [|i ks ix kids (c & Ec & Hp & Ht) _ (kc & -> & Hk & Hc)]; [by exists []|]. exists ((c, ks) :: kc). split_and!; [done| |]; by constructor.
Qed.

Lemma pairs_kids ptr bt p h ix kc : Forall2 (child_tree ptr bt h) ix kc -> Forall (fun c => ptr c Ptrmap.Btree p) kc.*1 ->
  Forall2 (fun i ks => exists c, child_pointer bt i = Ok c /\ ptr c Ptrmap.Btree p /\ Forest.tree_refs src us ptr h false c ks) ix kc.*2.
Proof using Type.
  induction 1 as [|i [c ks] ix kc [Ec Ht] _ IH]; [constructor|]. intros [Hp Hc]%Forall_cons. constructor; [|by apply IH]. by exists c.
Qed.

(** The pages of some trees are their tops and the pages below. *)
Lemma heads_tails (kc : list (Z * list Z)) : Forall (fun x => exists qs, x.2 = x.1 :: qs) kc -> concat kc.*2 ≡ₚ kc.*1 ++ concat (tail <$> kc.*2).
Proof using Type.
  induction 1 as [|[c ks] kc (qs & E) _ IH]; [done|]. cbn in E |- *. subst ks. cbn [tail app]. f_equiv. rewrite IH. rewrite !app_assoc. f_equiv. apply Permutation_app_comm.
Qed.

Lemma child_heads ptr bt h ix kc : Forall2 (child_tree ptr bt h) ix kc -> Forall (fun x => exists qs, x.2 = x.1 :: qs) kc.
Proof using Type. induction 1 as [|i x ix kc [_ Ht] _ IH]; constructor; [|done]. by apply Forest.tree_refs_head in Ht. Qed.

Definition kid_nodes (h : nat) (kc : list (Z * list Z)) : list node := (fun x : Z * list Z => (x.1, h, false)) <$> kc.

Lemma kid_nodes_trees ptr bt h ix kc : Forall2 (child_tree ptr bt h) ix kc -> Forall2 (node_tree ptr) (kid_nodes h kc) kc.*2.
Proof using Type. induction 1 as [|i [c ks] ix kc [_ Ht] _ IH]; [constructor|]. by constructor. Qed.

Lemma kid_trees ptr bt h ix kc : Forall2 (fun i (x : Z * list Z) => child_pointer bt i = Ok x.1) ix kc -> Forall2 (node_tree ptr) (kid_nodes h kc) kc.*2 -> Forall2 (child_tree ptr bt h) ix kc.
Proof using Type. induction 1 as [|i [c ks] ix kc E _ IH]; [constructor|]. intros [Ht Hk]%Forall2_cons. constructor; [by split|by apply IH]. Qed.

Lemma right_child bt : is_leaf (page_type bt) = false -> child_pointer bt (num_cells bt) = Ok (right_pointer bt).
Proof using Type. intros El. unfold child_pointer. rewrite El, Z.leb_refl. done. Qed.

(** The walk of an interior page before its children are walked. *)
Lemma interior_page_spec fuel bt p h cs kc stack want : is_u32 p -> wf bt -> is_leaf (page_type bt) = false ->
  Forall2 (Forest.chain_of src us any_ptr bt p) (seqZ 0 (num_cells bt)) cs -> Forall2 (child_tree any_ptr bt h) (seqZ 0 (num_cells bt + 1)) kc ->
  NoDup (concat cs ++ kc.*1) -> (length (concat cs) <= fuel)%nat ->
  exists want', (let* (stack, want) := interior_cells fuel (Z.to_nat (num_cells bt)) 0 w bt p stack want in
      Ok (right_pointer bt :: stack, <[right_pointer bt := (Ptrmap.Btree, p)]> want)) = Ok (reverse kc.*1 ++ stack, want') /\ upd want want' (concat cs ++ kc.*1) /\
    Forall2 (Forest.chain_of src us (says want') bt p) (seqZ 0 (num_cells bt)) cs /\ Forall (fun c => says want' c Ptrmap.Btree p) kc.*1.
Proof.
  intros Hp (_ & _ & _ & [Hn _] & _) El Hcs Hkc Hnd Hf. rewrite seqZ_app in Hkc by lia. apply Forall2_app_inv_l in Hkc as (kc1 & kc2 & Hk1 & Hk2 & ->).
  rewrite seqZ_cons in Hk2 by lia. rewrite Z.add_0_l in Hk2.
  apply Forall2_cons_inv_l in Hk2 as ([r tr] & kc' & [Er _] & Hk2 & ->). change (seqZ _ _) with (@nil Z) in Hk2. apply Forall2_nil_inv_l in Hk2 as ->. rewrite right_child in Er by done. cbn [fst] in Er. apply Ok_inj in Er as <-.
  rewrite fmap_app in *. cbn [fmap list_fmap fst] in *. rewrite app_assoc in Hnd. apply NoDup_app in Hnd as (Hnd & Hdis & _).
  assert (right_pointer bt ∉ concat cs ++ kc1.*1) as Hr by (intros H; apply (Hdis _ H); by left).
  replace (num_cells bt) with (Z.of_nat (Z.to_nat (num_cells bt))) in Hcs, Hk1 by lia.
  destruct (interior_cells_spec fuel bt p h (Z.to_nat (num_cells bt)) Hp El 0 cs kc1 stack want Hcs Hk1 Hnd Hf) as (want1 & -> & Hu & Hc & Hk). bind_step.
  eexists. split_and!; [by rewrite reverse_snoc| | |].
  - rewrite app_assoc. eapply upd_trans; [exact Hu|apply upd_insert].
  - rewrite Z2Nat.id in Hc by lia. apply (Forest.chains_frame src src us (says want1)); [done|]. apply (upd_agree _ _ _ _ [right_pointer bt]); [apply upd_insert|]. set_solver.
  - apply Forall_app. split; [|constructor; [by split; [apply lookup_insert_eq|]|done]]. rewrite Forall_forall in Hk |- *. intros c Hc'. unfold says. rewrite lookup_insert_ne; [by apply Hk|]. set_solver.
Qed.

(** What the walk of [nodes] with the trees [trees] adds to the map: entries
    for the pages below the nodes, those the trees call for. *)
Definition walked (nodes : list node) (trees : list (list Z)) (want want' : Want) : Prop :=
  upd want want' (concat (tail <$> trees)) /\ Forall2 (node_tree (says want')) nodes trees.

(** A leaf, then the rest of the stack. *)
Lemma leaf_walked bt page p r cs nodes trees want want1 want2 : Pager.src_page src p = Ok page -> BtPage.parse page = Ok bt -> is_leaf (page_type bt) = true ->
  (r = false -> num_cells bt <> 0) -> NoDup (concat ((p :: concat cs) :: trees)) ->
  upd want want1 (concat cs) -> Forall2 (Forest.chain_of src us (says want1) bt p) (seqZ 0 (num_cells bt)) cs -> walked nodes trees want1 want2 ->
  walked ((p, 0%nat, r) :: nodes) ((p :: concat cs) :: trees) want want2.
Proof using Type.
  intros Hpg Ebt El Hne Hnd Hu Hcs [Hu2 Ht]. split; cbn [fmap list_fmap concat tail]; [by eapply upd_trans|]. constructor; [|done].
  exists page, bt, cs. split_and!; try done. apply (Forest.chains_frame src src us (says want1)); [done|]. apply (upd_agree _ _ _ _ _ Hu2). intros q Hq Hin.
  cbn [concat app] in Hnd. apply NoDup_cons in Hnd as [_ (_ & Hdis & _)%NoDup_app]. apply (Hdis q Hq). by apply tails_sub.
Qed.

(** An interior page, once its children and the rest of the stack are walked. *)
Lemma interior_walked bt page p r h cs kc nodes trees want want1 want2 : Pager.src_page src p = Ok page -> BtPage.parse page = Ok bt -> is_leaf (page_type bt) = false ->
  Forall2 (child_tree any_ptr bt h) (seqZ 0 (num_cells bt + 1)) kc -> NoDup (concat ((p :: concat cs ++ concat kc.*2) :: trees)) ->
  upd want want1 (concat cs ++ kc.*1) -> Forall2 (Forest.chain_of src us (says want1) bt p) (seqZ 0 (num_cells bt)) cs -> Forall (fun c => says want1 c Ptrmap.Btree p) kc.*1 ->
  walked (reverse (kid_nodes h kc) ++ nodes) (reverse kc.*2 ++ trees) want1 want2 ->
  walked ((p, S h, r) :: nodes) ((p :: concat cs ++ concat kc.*2) :: trees) want want2.
Proof.
  intros Hpg Ebt El Hkc Hnd Hu Hcs Hc [Hu2 Ht]. pose proof (heads_tails kc (child_heads _ _ _ _ _ Hkc)) as Hht.
  rewrite fmap_app, fmap_reverse, concat_app in Hu2. assert (upd want1 want2 (concat (tail <$> kc.*2) ++ concat (tail <$> trees))) as Hu2'.
  { eapply upd_sub; [exact Hu2|]. intros q [Hq|Hq]%elem_of_app; apply elem_of_app; [left|by right]. by rewrite concat_reverse in Hq. }
  cbn [concat app] in Hnd. rewrite Hht in Hnd. pose proof (tails_sub trees) as Hsub. apply NoDup_cons in Hnd as [_ Hnd]. rewrite <- !app_assoc in Hnd.
  apply NoDup_app in Hnd as (Hnd1 & Hd1 & (Hnd2 & Hd2 & Hnd3)%NoDup_app).
  apply Forall2_app_inv in Ht as [Hk Ht]; [|by unfold kid_nodes; rewrite !length_reverse, !length_fmap].
  split.
  - cbn [fmap list_fmap concat tail]. eapply upd_sub; [eapply upd_trans; [exact Hu|exact Hu2']|]. rewrite Hht. set_solver.
  - constructor; [|done]. exists page, bt, cs. split_and!; try done.
    + apply (Forest.chains_frame src src us (says want1)); [done|]. apply (upd_agree _ _ _ _ _ Hu2'). intros q Hq Hin. apply (Hd1 q Hq). set_solver.
    + exists kc.*2. split; [|done]. apply pairs_kids.
      * apply kid_trees; [|by apply Forall2_reverse_inv]. eapply Forall2_impl; [exact Hkc|]. by intros i x [? _].
      * rewrite Forall_forall in Hc |- *. intros c Hin. unfold says. rewrite Hu2'; [by apply Hc|]. intros Hin'. apply (Hd2 c Hin). set_solver.
Qed.

Lemma walk_loop_spec fuel : forall (nodes : list node) trees want, Forall2 (node_tree any_ptr) nodes trees -> NoDup (concat trees) -> (length (concat trees) <= fuel)%nat ->
  exists want', walk_loop fuel w nodes.*1.*1 want = Ok want' /\ walked nodes trees want want'.
Proof.
  induction fuel as [|fuel IH]; intros nodes trees want Hn Hnd Hf.
  { destruct Hn as [|[[p h] r] ps nodes trees Ht Hn]; [exists want; split; [done|]; split; [apply upd_refl|constructor]|].
    destruct (Forest.tree_refs_head _ _ _ _ _ _ _ Ht) as (qs & ->). simpl in Hf. lia. }
  destruct Hn as [|[[p h] r] ps nodes trees Ht Hn]; [exists want; split; [done|]; split; [apply upd_refl|constructor]|].
  cbn [fmap list_fmap fst walk_loop]. destruct h as [|h]; destruct Ht as (page & bt & cs & Hpg & Ebt & Hcs & Ht); cbn [fst snd] in *;
    destruct (src_read p page Hpg) as (-> & Ep & _); bind_step; rewrite <- Ep, Ebt; bind_step.
  - destruct Ht as (El & Hne & ->). rewrite El. cbn [concat app length] in Hf. rewrite length_app in Hf. pose proof Hnd as Hnd'.
    cbn [concat app] in Hnd'. apply NoDup_cons in Hnd' as [_ (Hnd1 & _ & Hnd2)%NoDup_app].
    destruct (safe_Ok _ _ _ (parse_wf page (src_bytes p page Hpg)) Ebt) as [(_ & _ & _ & [Hnc _] & _) _].
    pose proof Hcs as Hcs'. replace (num_cells bt) with (Z.of_nat (Z.to_nat (num_cells bt))) in Hcs' by lia.
    destruct (leaf_chains_spec fuel bt p _ (src_u32 p page Hpg) El 0 cs want Hcs' Hnd1 ltac:(lia)) as (want1 & -> & Hu & Hc1). bind_step. rewrite Z2Nat.id in Hc1 by lia.
    destruct (IH nodes trees want1 Hn Hnd2 ltac:(lia)) as (want2 & -> & Hw). exists want2. split; [done|]. by apply (leaf_walked bt page p r cs nodes trees want want1).
  - destruct Ht as (El & kids & Hk & ->). rewrite El. destruct (kids_pairs _ _ _ _ _ _ Hk) as (kc & -> & Hkc & _). pose proof (child_heads _ _ _ _ _ Hkc) as Hhd. pose proof (heads_tails kc Hhd) as Hht.
    destruct (safe_Ok _ _ _ (parse_wf page (src_bytes p page Hpg)) Ebt) as [Hwf _].
    cbn [concat app length] in Hf. rewrite !length_app in Hf. pose proof Hnd as Hnd'. cbn [concat app] in Hnd'. apply NoDup_cons in Hnd' as [_ (Hnd1 & Hdis & Hnd2)%NoDup_app].
    pose proof Hnd1 as Hnd3. rewrite Hht, app_assoc in Hnd3. apply NoDup_app in Hnd3 as (Hnd3 & _).
    destruct (interior_page_spec fuel bt p h cs kc nodes.*1.*1 want (src_u32 p page Hpg) Hwf El Hcs Hkc Hnd3 ltac:(lia)) as (want1 & E & Hu & Hc1 & Hk1).
    apply res_bind_Ok in E as ([st wt] & -> & E). apply Ok_inj in E. injection E as Est Ewt. bind_step. rewrite Est, Ewt.
    replace (reverse kc.*1 ++ nodes.*1.*1) with (reverse (kid_nodes h kc) ++ nodes).*1.*1.
    2: { rewrite !fmap_app, !fmap_reverse. unfold kid_nodes. rewrite <- !list_fmap_compose. done. }
    destruct (IH (reverse (kid_nodes h kc) ++ nodes) (reverse kc.*2 ++ trees) want1) as (want2 & -> & Hw).
    + apply Forall2_app; [|done]. apply Forall2_reverse. by eapply kid_nodes_trees.
    + rewrite concat_app. rewrite concat_reverse. apply NoDup_app in Hnd1 as (_ & _ & Hnd1). apply NoDup_app. split_and!; [done| |done]. set_solver.
    + rewrite concat_app, length_app. rewrite concat_reverse. lia.
    + exists want2. split; [done|]. by apply (interior_walked bt page p r h cs kc nodes trees want want1).
Qed.

(** ** All roots *)

Definition root_tree (ptr : Z -> Ptrmap.PtrmapType -> Z -> Prop) (r : Z) (ps : list Z) : Prop := exists h, Forest.tree_refs src us ptr h true r ps.

Lemma walk_roots_spec fuel roots : forall trees want, Forall2 (root_tree any_ptr) roots trees -> NoDup (concat trees) -> (length (concat trees) <= fuel)%nat ->
  exists want', walk_roots fuel w roots want = Ok want' /\ upd want want' (concat (tail <$> trees)) /\ Forall2 (root_tree (says want')) roots trees.
Proof.
  induction roots as [|r roots IH]; intros trees want.
  { intros ->%Forall2_nil_inv_l _ _. exists want. split_and!; [done|apply upd_refl|constructor]. }
  intros (ps & trees' & [h Ht] & Htr & ->)%Forall2_cons_inv_l. cbn [concat fmap list_fmap walk_roots]. intros (Hn1 & Hdis & Hn2)%NoDup_app Hf. rewrite length_app in Hf. unfold walk_btree_ptrmap.
  destruct (walk_loop_spec fuel [(r, h, true)] [ps] want) as (want1 & E1 & Hu1 & Ht1).
  { by repeat constructor. } { by rewrite concat_cons, app_nil_r. } { rewrite concat_cons, app_nil_r. lia. }
  cbn [fmap list_fmap fst] in E1. rewrite E1. bind_step. apply Forall2_cons in Ht1 as [Ht1 _].
  destruct (IH trees' want1 Htr Hn2 ltac:(lia)) as (want2 & -> & Hu2 & Ht2). exists want2. split_and!; [done| |].
  - cbn [concat fmap list_fmap] in Hu1. rewrite app_nil_r in Hu1. by eapply upd_trans.
  - constructor; [|done]. exists h. apply (Forest.tree_refs_frame src src us (says want1)); [done|]. apply (upd_agree _ _ _ _ _ Hu2). intros q Hq Hin. by apply (Hdis q Hq), tails_sub.
Qed.

(** ** The free list *)

Definition frees (want : Want) (ps : list Z) : Prop := Forall (fun q => says want q Ptrmap.FreePage 0) ps.

Lemma frees_insert want k ps : frees want ps -> frees (<[k := (Ptrmap.FreePage, 0)]> want) ps.
Proof using Type.
  unfold frees. rewrite !Forall_forall. intros H q Hq. unfold says. destruct (decide (k = q)) as [->|Hne]; [by rewrite lookup_insert_eq|rewrite lookup_insert_ne by done; by apply H].
Qed.

Lemma leaf_loop_spec tb k : forall i want done_, 0 <= i -> 8 + 4 * (i + Z.of_nat k) <= zlen tb -> frees want done_ ->
  exists want', leaf_loop k i tb want = Ok want' /\ upd want want' ((fun j => Integrity.be_u32 tb (8 + j * 4)) <$> seqZ i (Z.of_nat k)) /\
    frees want' (done_ ++ ((fun j => Integrity.be_u32 tb (8 + j * 4)) <$> seqZ i (Z.of_nat k))).
Proof using Type.
  induction k as [|k IH]; intros i want done_ Hi0 Hz Hd; cbn [leaf_loop].
  { exists want. split_and!; [done|apply upd_refl|]. change (seqZ i (Z.of_nat 0)) with (@nil Z). by rewrite app_nil_r. }
  rewrite (seqZ_cons i) by lia. replace (Z.pred (Z.of_nat (S k))) with (Z.of_nat k) by lia. rewrite <- Z.add_1_r.
  rewrite be_u32_total by lia. bind_step. replace (8 + 4 * i) with (8 + i * 4) by lia. set (lf := Integrity.be_u32 tb (8 + i * 4)).
  destruct (IH (i + 1) (<[lf := (Ptrmap.FreePage, 0)]> want) (done_ ++ [lf])) as (want' & -> & Hu & Hf); [lia|lia| |].
  { apply Forall_app. split; [by apply frees_insert|]. by repeat constructor; rewrite ?lookup_insert_eq. }
  exists want'. split_and!; [done| |].
  - rewrite fmap_cons. apply (upd_trans _ _ _ [lf] _ (upd_insert _ _ _) Hu).
  - rewrite fmap_cons. by rewrite <- app_assoc in Hf.
Qed.

Lemma trunk_loop_spec p n ps : Forest.free_list src us any_ptr p n ps -> forall turns want done_, (length ps <= turns)%nat -> frees want done_ ->
  exists want', trunk_loop turns w p want = Ok want' /\ upd want want' ps /\ frees want' (done_ ++ ps).
Proof.
  induction 1 as [|p n page ps Hp Hpg Hle _ _ Hl IH]; intros turns want done_ Ht Hd.
  { exists want. split_and!; [by destruct turns|apply upd_refl|]. by rewrite app_nil_r. }
  destruct turns as [|turns]; [simpl in Ht; lia|]. cbn [trunk_loop]. destruct (Z.eqb_spec p 0); [done|].
  destruct (src_read p page Hpg) as (-> & _ & E0 & E4 & Hz). bind_step. rewrite E0. bind_step. rewrite E4. bind_step.
  pose proof (sound_us w Hi) as Hub. pose proof (src_bytes p page Hpg) as Hby.
  assert (0 <= Integrity.be_u32 (Pager.data page) 4) as Hnn.
  { by destruct (be_u32_range _ _ _ Hby E4). }
  destruct (leaf_loop_spec (Pager.data page) (Z.to_nat (Integrity.be_u32 (Pager.data page) 4)) 0 (<[p := (Ptrmap.FreePage, 0)]> want) (done_ ++ [p])) as (want1 & -> & Hu1 & Hf1); [lia| | |].
  { rewrite Z2Nat.id by lia. rewrite Hz. pose proof (Z.mul_div_le us 4 ltac:(lia)). lia. }
  { apply Forall_app. split; [by apply frees_insert|]. by repeat constructor; rewrite ?lookup_insert_eq. }
  bind_step. rewrite Z2Nat.id in Hu1, Hf1 by lia. fold (Forest.trunk_leaves (Pager.data page)) in Hu1, Hf1.
  destruct (IH turns want1 _ ltac:(simpl in Ht; rewrite length_app in Ht; lia) Hf1) as (want2 & -> & Hu2 & Hf2). exists want2. split_and!; [done| |].
  - eapply (upd_trans _ _ _ [p]); [apply upd_insert|]. by eapply upd_trans.
  - by rewrite <- !app_assoc in Hf2.
Qed.

Lemma free_list_says want p n ps : Forest.free_list src us any_ptr p n ps -> frees want ps -> Forest.free_list src us (says want) p n ps.
Proof using Type.
  intros Hl Hf. unfold frees in Hf. rewrite Forall_forall in Hf. induction Hl as [|p n page ps Hp Hpg Hle _ _ Hl IH]; [constructor|].
  apply (Forest.fl_trunk _ _ _ p n page ps); try done; [apply Hf; by left| |].
  - apply Forall_forall. intros q Hq. apply Hf. right. apply elem_of_app. by left.
  - apply IH. intros q Hq. apply Hf. right. apply elem_of_app. by right.
Qed.

Lemma free_list_zlen ptr p n ps : Forest.free_list src us ptr p n ps -> n = zlen ps.
Proof.
  induction 1 as [|p n page ps Hp Hpg Hle _ _ Hl IH]; [done|]. rewrite zlen_cons, zlen_app. unfold Forest.trunk_leaves at 1.
  unfold zlen at 1. rewrite length_fmap, length_seqZ. destruct (src_read p page Hpg) as (_ & _ & _ & E4 & _).
  destruct (be_u32_range _ _ _ (src_bytes p page Hpg) E4). lia.
Qed.

(** ** The roots *)

Lemma root_entries_spec roots : forall want mx want' mx', fold_left (fun '(want, max_root) root =>
    (if 2 <=? root then <[root := (Ptrmap.RootPage, 0)]> want else want, if max_root <? root then root else max_root)) roots (want, mx) = (want', mx') ->
  upd want want' roots /\ mx' = fold_left Z.max roots mx /\ (forall r, r ∈ roots -> 1 < r -> says want' r Ptrmap.RootPage 0) /\
  (forall r, says want r Ptrmap.RootPage 0 -> says want' r Ptrmap.RootPage 0) /\ (forall r, r <= 1 -> want' !! r = want !! r).
Proof using Type.
  induction roots as [|r roots IH]; intros want mx want' mx'; cbn [fold_left].
  { intros [= <- <-]. split_and!; [apply upd_refl|done| |done|done]. by intros r ?%elem_of_nil. }
  intros (Hu & -> & Hs & Hk & H1)%IH. assert (upd want (if 2 <=? r then <[r := (Ptrmap.RootPage, 0)]> want else want) [r]) as Hr.
  { destruct (2 <=? r); [apply upd_insert|apply upd_refl]. }
  split_and!.
  - apply (upd_trans _ _ _ [r] _ Hr Hu).
  - f_equal. destruct (Z.ltb_spec mx r); lia.
  - intros q [->|Hq]%elem_of_cons Hq1; [|by apply Hs]. apply Hk. destruct (Z.leb_spec 2 r); [|lia]. by split; [apply lookup_insert_eq|].
  - intros q Hq. apply Hk. unfold says in *. destruct (2 <=? r); [|done]. destruct (decide (r = q)) as [->|]; [by rewrite lookup_insert_eq|by rewrite lookup_insert_ne].
  - intros q Hq. rewrite H1 by done. destruct (Z.leb_spec 2 r); [|done]. rewrite lookup_insert_ne by lia. done.
Qed.

Lemma fold_max rs : forall mx, 0 <= mx -> fold_left Z.max rs mx = Z.max mx (fold_right Z.max 0 rs).
Proof using Type. induction rs as [|x rs IH]; intros mx Hm; cbn [fold_left fold_right]; [lia|]. rewrite IH by lia. lia. Qed.

Lemma roots_heads ptr roots trees : Forall2 (Forest.root_refs src us ptr) roots trees -> concat trees ≡ₚ roots ++ concat (tail <$> trees).
Proof using Type.
  induction 1 as [|r ps roots trees [_ [h Ht]] _ IH]; [done|]. destruct (Forest.tree_refs_head _ _ _ _ _ _ _ Ht) as (qs & ->). cbn [concat fmap list_fmap tail app]. f_equiv. rewrite IH, !app_assoc. f_equiv. apply Permutation_app_comm.
Qed.

(** What the trees and the free list of the whole file look like, but for the
    pointer map. *)
Record forest (roots fl : list Z) (trees : list (list Z)) : Prop := {
  forest_free : Forest.free_list src us any_ptr (Header.freelist_trunk (wp_header w)) (Header.freelist_count (wp_header w)) fl;
  forest_trees : Forall2 (Forest.root_refs src us any_ptr) roots trees;
  forest_nodup : NoDup (fl ++ concat trees)
}.

Lemma compute_want_spec fuel roots fl trees : schema_roots fuel w = Ok roots -> forest (1 :: roots) fl trees -> (length (concat trees) <= fuel)%nat ->
  zlen fl + 8 < 2 ^ 32 ->
  exists want, compute_want fuel w = Ok (want, fold_right Z.max 0 (1 :: roots)) /\
    Forest.free_list src us (says want) (Header.freelist_trunk (wp_header w)) (Header.freelist_count (wp_header w)) fl /\
    Forall2 (Forest.root_refs src us (says want)) (1 :: roots) trees /\ upd ∅ want (fl ++ concat trees) /\ want !! 1 = None.
Proof.
  intros Er [Hfl Htr Hnd] Hf Hpc. unfold compute_want. rewrite Er. bind_step. destruct (root_entries roots) as [want0 mx] eqn:E0.
  destruct (root_entries_spec roots ∅ 1 want0 mx E0) as (Hu0 & Emx & Hs0 & _ & H01). rewrite fold_max in Emx by lia. cbn [fold_right]. rewrite <- Emx.
  apply NoDup_app in Hnd as (_ & Hdis & Hnd). pose proof (roots_heads _ _ _ Htr) as Hht. pose proof (tails_sub trees) as Hts.
  assert (forall r, r ∈ 1 :: roots -> r ∈ concat trees) as Hheads by (intros r Hr; rewrite Hht; apply elem_of_app; by left).
  assert (forall r, r ∈ 1 :: roots -> r ∉ concat (tail <$> trees)) as Hdt.
  { intros r Hr Hin. rewrite Hht in Hnd. apply NoDup_app in Hnd as (_ & Hd & _). by apply (Hd r Hr). }
  destruct (walk_roots_spec fuel (1 :: roots) trees want0) as (want1 & -> & Hu1 & Ht1); [|done|done|].
  { eapply Forall2_impl; [exact Htr|]. by intros r ps [_ Ht]. }
  bind_step. unfold walk_freelist_ptrmap. pose proof (free_list_zlen _ _ _ _ Hfl) as Hcl. destruct (Z.leb_spec (2 ^ 32) (Header.freelist_count (wp_header w) + 8)); [lia|].
  destruct (trunk_loop_spec _ _ _ Hfl (Z.to_nat (Header.freelist_count (wp_header w) + 8)) want1 []) as (want2 & -> & Hu2 & Hf2).
  { rewrite Hcl. unfold zlen. lia. } { constructor. }
  bind_step. exists want2. split_and!.
  - done.
  - by apply free_list_says.
  - clear Hfl Hf2. assert (forall r, r ∈ 1 :: roots -> 1 < r -> says want2 r Ptrmap.RootPage 0) as Hroot.
    { intros r Hr H1. unfold says. rewrite Hu2, Hu1 by (try (intros Hin; apply (Hdis r Hin)); auto). apply Hs0; [|done]. by apply elem_of_cons in Hr as [->|]. }
    assert (Forest.agree src src (says want1) (says want2) (concat trees)) as Hag.
    { apply (upd_agree _ _ _ _ fl); [done|]. intros q Hq Hin. by apply (Hdis q Hin). }
    clear -Ht1 Hroot Hag. induction Ht1 as [|r ps rs trees [h Ht] _ IH]; constructor.
    + split; [apply Hroot; by left|]. exists h. apply (Forest.tree_refs_frame src src us (says want1)); [done|]. eapply Forest.agree_sub; [exact Hag|]. cbn [concat]. set_solver.
    + apply IH; [intros q Hq; apply Hroot; by right|]. eapply Forest.agree_sub; [exact Hag|]. cbn [concat]. set_solver.
  - eapply upd_sub; [eapply upd_trans; [eapply upd_trans; [exact Hu0|exact Hu1]|exact Hu2]|]. intros q Hq. rewrite !elem_of_app in *. destruct Hq as [[Hq|Hq]|Hq]; [right|right|by left].
    + apply Hheads. by right.
    + by apply Hts.
  - rewrite Hu2, Hu1, H01 by (lia || (try (intros Hin; apply (Hdis 1 Hin), Hheads; by left)) || (apply Hdt; by left)). apply lookup_empty.
Qed.

End walk.

End AutoVacuumProps.
