(* ===== verification/AutoVacuumMap.v ===== *)
(** Auto-vacuum, second part: the pointer-map pages written from the derived
    entries, what the integrity check reads back from them, and what a crash
    leaves of a commit that has shortened the file. *)

From S2P Require Import Prelude Header Ptrmap Vfs Image Journal JournalProps Pager BtPage Cursor CursorProps Integrity Forest IntegrityProps WritePager WritePagerProps Writer WriterPages WriterHeap TableSpec AutoVacuum AutoVacuumProps.
From stdpp Require Import sorting.
Import BtPage WritePager WritePagerProps Writer WriterHeap AutoVacuum AutoVacuumProps.
Local Open Scope Z_scope.

Module AutoVacuumMap.

(** ** Entries on a map page *)

Section maps.
Context (us : Z) (Hus : 5 <= us).

(** Pages with an entry: not page one, not map pages. *)
Definition tracked (k : Z) : Prop := 2 <= k /\ Ptrmap.is_ptrmap_page us k = Ok false.

Definition map_of (k : Z) : Z := match Ptrmap.ptrmap_pageno us k with Ok m => m | _ => 0 end.
Definition slot_of (k : Z) : Z := (k - map_of k - 1) * 5.

Lemma tracked_geom k : tracked k -> Ptrmap.ptrmap_pageno us k = Ok (map_of k) /\ Ptrmap.ptrmap_entry_offset us k = Ok (slot_of k) /\ 2 <= map_of k < k /\
  Ptrmap.is_ptrmap_page us (map_of k) = Ok true /\ 0 <= slot_of k /\ slot_of k + 5 <= us.
Proof using Hus.
  intros [H2 Hn]. destruct (Ptrmap.ptrmap_geometry us k Hus H2 Hn) as (m & off & Em & Eo & Hr & Hm & H0 & H5 & _). unfold Ptrmap.ENTRY_SIZE in *.
  assert (map_of k = m) as Emk by (unfold map_of; by rewrite Em). unfold slot_of. rewrite Emk. assert (off = (k - m - 1) * 5) as ->.
  { unfold Ptrmap.ptrmap_entry_offset, Ptrmap.sub_u32 in Eo. rewrite Em, bind_Ok in Eo. destruct (Z.ltb_spec k (m + 1)); [lia|]. rewrite bind_Ok in Eo. apply Ok_inj in Eo. unfold Ptrmap.ENTRY_SIZE in Eo. lia. }
  split_and!; done || lia.
Qed.

Definition entry_at (page : bytes) (e : Z * PtrmapEntry) : Prop := sub page (slot_of e.1) (slot_of e.1 + 5) = Ptrmap.encode_entry e.2.1 e.2.2.

Lemma put_entries_spec m es : forall page, us <= zlen page -> is_bytes page -> Forall (fun e : Z * PtrmapEntry => tracked e.1 /\ map_of e.1 = m) es -> NoDup es.*1 ->
  exists page', put_entries us es page = Ok page' /\ zlen page' = zlen page /\ is_bytes page' /\ Forall (entry_at page') es /\
    (forall e, tracked e.1 -> map_of e.1 = m -> e.1 ∉ es.*1 -> entry_at page e -> entry_at page' e).
Proof using Hus.
  induction es as [|[k [t q]] es IH]; intros page Hz Hb; cbn [put_entries].
  { intros _ _. exists page. split_and!; try done. }
  intros [[Hk Hm] Hes]%Forall_cons [Hnin Hnd]%NoDup_cons. cbn [fst] in *. destruct (tracked_geom k Hk) as (Em & Eo & Hr & _ & H0 & H5). rewrite Eo. bind_step.
  assert (zlen (Ptrmap.encode_entry t q) = 5) as H5' by done.
  destruct (WriterPages.copy_at_facts page (slot_of k) (Ptrmap.encode_entry t q)) as (p1 & -> & Hz1 & Hb1 & Hs1 & Ho1); [lia|lia|done| |].
  { constructor; [by destruct t|apply is_bytes_be_bytes]. }
  bind_step. destruct (IH p1 ltac:(lia) Hb1 Hes Hnd) as (p2 & -> & Hz2 & Hb2 & Hat & Hkeep). exists p2. split_and!; [done|lia|done| |].
  - constructor; [|done]. apply Hkeep; [done|done|done|]. unfold entry_at. cbn [fst snd]. by rewrite H5' in Hs1.
  - intros e He Hme [Hne Hin]%not_elem_of_cons Hat'. apply Hkeep; try done. unfold entry_at in *. destruct (tracked_geom e.1 He) as (_ & _ & Hr' & _ & H0' & H5'').
    rewrite Ho1; [done|lia|lia|]. rewrite H5'. unfold slot_of in *. cbn [fst] in Hne. rewrite Hme, Hm in *. lia.
Qed.

(** ** Grouping *)

Definition on_map (m : Z) (es : list (Z * PtrmapEntry)) : list (Z * PtrmapEntry) := filter (fun e => map_of e.1 = m) es.

Lemma group_spec es : forall bm, Forall (fun e : Z * PtrmapEntry => tracked e.1) es ->
  exists bm', group_by_map us es bm = Ok bm' /\ (forall m, default [] (bm' !! m) = default [] (bm !! m) ++ on_map m es) /\
    (forall m, is_Some (bm' !! m) -> is_Some (bm !! m) \/ exists e, e ∈ es /\ map_of e.1 = m).
Proof using Hus.
  induction es as [|e es IH]; intros bm; cbn [group_by_map].
  { intros _. exists bm. split_and!; [done| |by left]. intros m. by rewrite app_nil_r. }
  intros [He Hes]%Forall_cons. destruct (tracked_geom e.1 He) as (-> & _). bind_step.
  destruct (IH (<[map_of e.1 := default [] (bm !! map_of e.1) ++ [e]]> bm) Hes) as (bm' & -> & Hd & Hs). exists bm'. split_and!; [done| |].
  - intros m. rewrite Hd. unfold on_map. rewrite filter_cons. destruct (decide (map_of e.1 = m)) as [<-|Hne].
    + rewrite lookup_insert_eq. cbn [default]. unfold id. by rewrite <- app_assoc.
    + by rewrite lookup_insert_ne.
  - intros m Hm. destruct (Hs m Hm) as [H|(e' & He' & <-)]; [|right; exists e'; split; [by right|done]].
    destruct (decide (map_of e.1 = m)) as [<-|Hne]; [right; exists e; split; [by left|done]|left]. by rewrite lookup_insert_ne in H.
Qed.

End maps.

(** ** Writing the map pages *)

Lemma entries_perm {A} (m : gmap Z A) : entries m ≡ₚ map_to_list m.
Proof. apply merge_sort_Permutation. Qed.

Lemma elem_of_entries {A} (m : gmap Z A) k x : (k, x) ∈ entries m <-> m !! k = Some x.
Proof. by rewrite entries_perm, elem_of_map_to_list. Qed.

Lemma nodup_entries {A} (m : gmap Z A) : NoDup (entries m).*1.
Proof. rewrite entries_perm. apply NoDup_fst_map_to_list. Qed.

(** A map page and the entries to put on it. *)
Definition job_ok (w : WritePager) (j : Z * list (Z * PtrmapEntry)) : Prop :=
  1 <= j.1 < 2 ^ 32 /\ NoDup j.2.*1 /\ Forall (fun e : Z * PtrmapEntry => tracked (usable_size w) e.1 /\ map_of (usable_size w) e.1 = j.1) j.2.

Lemma sound_set_overlay w n d : sound w -> 1 <= n < 2 ^ 32 -> zlen d = wp_page_size w -> is_bytes d -> sound (set_overlay w n d).
Proof.
  intros [H1 H2 H3 H4] Hn Hz Hb. split; try done. cbn. intros m x. destruct (decide (n = m)) as [<-|Hne]; [rewrite lookup_insert_eq; intros [= <-]; by split_and!; try lia|].
  rewrite lookup_insert_ne by done. apply H4.
Qed.

Lemma has_page_read w n : sound w -> has_page w n = true -> exists d, read_page w n = Ok d.
Proof.
  intros H. pose proof (sound_ps w H). destruct (snd_file w H) as (Hf & Hb & Hd). unfold has_page, read_page. destruct (wp_overlay w !! n) as [x|]; [by exists x|].
  rewrite bool_decide_false by (by intros [? ?]). destruct (Z.leb_spec 1 n); [|done]. destruct (Z.leb_spec n (wp_disk_pages w)); [|done]. intros _.
  destruct (Z.eqb_spec n 0); [lia|]. destruct (Z.ltb_spec (wp_disk_pages w) n); [lia|]. cbn [orb]. rewrite Vfs.mem_read_Ok by nia. by eexists.
Qed.

Lemma put_maps_spec ms : forall w, sound w -> NoDup ms.*1 -> Forall (job_ok w) ms ->
  exists w', put_maps (usable_size w) ms w = Ok w' /\ sound w' /\ wp_header w' = wp_header w /\ wp_page_count w' = wp_page_count w /\
    (forall n, n ∉ ms.*1 -> read_page w' n = read_page w n) /\
    (forall m es e, (m, es) ∈ ms -> e ∈ es -> exists d, read_page w' m = Ok d /\ entry_at (usable_size w) d e).
Proof.
  induction ms as [|[m es] ms IH]; intros w Hi; cbn [put_maps].
  { intros _ _. exists w. split_and!; try done. by intros m es e ?%elem_of_nil. }
  intros [Hnin Hnd]%NoDup_cons [(Hr & Hnd' & Hes) Hms]%Forall_cons. cbn [fst snd] in *. pose proof (sound_us w Hi) as Hu. pose proof (sound_ps w Hi) as Hps.
  assert (exists p, (if has_page w m then read_page w m else Ok (zero_page w)) = Ok p /\ zlen p = wp_page_size w /\ is_bytes p) as (p & -> & Hzp & Hbp).
  { destruct (has_page w m) eqn:Ehp; [destruct (has_page_read w m Hi Ehp) as (d & E); exists d; split; [done|]; by destruct (sound_read w m d Hi E) as (? & ? & _)|].
    exists (zero_page w). unfold zero_page. split_and!; [done|unfold zlen, zrep; rewrite length_replicate; lia|apply is_bytes_replicate; by unfold is_uint]. }
  bind_step. destruct (put_entries_spec (usable_size w) ltac:(lia) m es p ltac:(lia) Hbp Hes Hnd') as (p' & -> & Hz' & Hb' & Hat & _). bind_step.
  assert (sound (set_overlay w m p')) as Hi' by (apply sound_set_overlay; done || lia).
  destruct (IH (set_overlay w m p') Hi' Hnd Hms) as (w' & E & Hiw & Eh & Ec & Hrd & Hent). exists w'. split_and!; try done.
  - intros n [Hne Hn]%not_elem_of_cons. rewrite Hrd by done. by rewrite read_set_overlay, decide_False.
  - intros m' es' e [[= -> ->]|Hin]%elem_of_cons He; [|by apply (Hent m' es' e)]. exists p'. rewrite Hrd by done. rewrite read_set_overlay, decide_True by done. split; [done|].
    rewrite Forall_forall in Hat. by apply Hat.
Qed.

(** ** The rebuilt map *)

Lemma sound_set_vacuum w a b : sound w -> is_u32 a -> is_u32 b -> sound (set_vacuum w a b).
Proof.
  intros [H1 H2 H3 H4] Ha Hb. split; try done. destruct H1 as [W1 W2 W3 W4]. constructor; [done..|]. cbn. repeat (apply Forall_cons in W4 as [? W4]). repeat (apply Forall_cons_2; [done|]). done.
Qed.

(** The accounting of the staged pages under the header's fields. *)
Definition acct (w : WritePager) (max_err : Z) : Integrity.PageAccounting :=
  let h := wp_header w in
  Integrity.blank (wp_source w) max_err (Header.freelist_trunk h, Header.freelist_count h, Header.largest_root_page h, Header.incremental_vacuum h).

(** A file whose free list, trees and chains reference each page but the lock
    page and the map pages, once. *)
Record whole (w : WritePager) (roots fl : list Z) (trees : list (list Z)) : Prop := {
  whole_sound : sound w;
  whole_pc : wp_page_count w + 8 < 2 ^ 32;
  whole_forest : forest w roots fl trees;
  whole_nodup : NoDup (IntegrityProps.pending (acct w 1) ++ fl ++ concat trees);
  whole_pages p : p ∈ IntegrityProps.pending (acct w 1) ++ fl ++ concat trees <-> 1 <= p <= wp_page_count w /\ Ptrmap.is_ptrmap_page (usable_size w) p <> Ok true
}.

Section rebuild.
#[local] Set Default Proof Using "Type*".
Context (w : WritePager) (roots fl : list Z) (trees : list (list Z)) (Hw : whole w (1 :: roots) fl trees) (want : Want).
Hypothesis Hkeys : upd ∅ want (fl ++ concat trees).
Hypothesis H1 : want !! 1 = None.
Local Notation us := (usable_size w).

Lemma us_small : 5 <= us /\ us < 2 ^ 32.
Proof using Hw. pose proof (sound_us w (whole_sound _ _ _ _ Hw)). pose proof (sound_ps w (whole_sound _ _ _ _ Hw)). lia. Qed.

Lemma tracked_keys k e : want !! k = Some e -> tracked us k /\ k <= wp_page_count w.
Proof.
  intros Hk. destruct (decide (k ∈ fl ++ concat trees)) as [Hin|Hnin]; [|by rewrite Hkeys, lookup_empty in Hk].
  destruct (proj1 (whole_pages _ _ _ _ Hw k)) as [Hr Hm]; [apply elem_of_app; by right|]. destruct us_small as [Hu _].
  destruct (is_ptrmap_page_Ok us k ltac:(lia)) as ([|] & E); [done|]. split; [|lia]. split; [|done]. destruct (decide (k = 1)) as [->|]; [congruence|lia].
Qed.

Lemma tracked_entries : Forall (fun e : Z * PtrmapEntry => tracked us e.1) (entries want).
Proof. apply Forall_forall. intros [k e] Hin. apply elem_of_entries in Hin. by apply (tracked_keys k e). Qed.

Lemma jobs_ok bm : (forall m, default [] (bm !! m) = on_map us m (entries want)) -> (forall m, is_Some (bm !! m) -> exists e, e ∈ entries want /\ map_of us e.1 = m) ->
  Forall (job_ok w) (entries bm).
Proof.
  intros Hd Hs. destruct us_small as [Hu _]. apply Forall_forall. intros [m es] Hin. apply elem_of_entries in Hin. specialize (Hd m). rewrite Hin in Hd. change (default [] (Some es)) with es in Hd.
  destruct (Hs m ltac:(by eexists)) as ([k e] & Hk & Em). apply elem_of_entries in Hk. cbn [fst] in Em. destruct (tracked_keys k e Hk) as [Ht Hr].
  destruct (tracked_geom us Hu k Ht) as (_ & _ & Hlt & Hmap & _). rewrite Em in *. pose proof (whole_pc _ _ _ _ Hw). split_and!; cbn [fst snd]; [lia|lia| |].
  - subst es. unfold on_map. apply (sublist_NoDup _ (entries want).*1); [apply nodup_entries|]. by apply fmap_sublist, sublist_filter.
  - subst es. apply Forall_forall. intros x Hx. apply list_elem_of_filter in Hx as [Hx1 Hx2]. split; [|done]. pose proof tracked_entries as Hall. rewrite Forall_forall in Hall. by apply Hall.
Qed.

(** The integrity check reads back what was put. *)
Lemma get_put w' d m k t q max_err : read_page w' m = Ok d -> usable_size w' = us -> wp_page_count w' = wp_page_count w -> zlen d = wp_page_size w ->
  want !! k = Some (t, q) -> is_u32 q -> m = map_of us k -> entry_at us d (k, (t, q)) -> Integrity.ptrmap_get (acct w' max_err) k = Ok (Some (Ptrmap.as_u8 t, q)).
Proof.
  intros Er Eu Ec Hz Hk Hq -> Hat. destruct us_small as [Hu Hu32]. destruct (tracked_keys k _ Hk) as [Ht Hkc]. destruct (tracked_geom us Hu k Ht) as (Em & _ & Hr & _ & H0 & H5).
  unfold Integrity.ptrmap_get, acct, Integrity.blank. cbn [Integrity.n_page Integrity.usable Integrity.ac_src wp_source Pager.src_page_count Pager.src_usable_size Pager.src_page].
  rewrite Eu, Ec. destruct Ht as [H2 _]. destruct (Z.ltb_spec k 2); [lia|]. destruct (Z.ltb_spec (wp_page_count w) k); [lia|]. cbn [orb]. rewrite wrap_small by (unfold is_uint; lia). rewrite Em. bind_step.
  destruct (Z.leb_spec k (map_of us k)); [lia|]. unfold Ptrmap.ENTRY_SIZE. fold (slot_of us k). destruct (Z.ltb_spec us (slot_of us k + 5)); [lia|].
  unfold wp_page. rewrite Er. bind_step. cbn [Pager.data]. pose proof (sound_us w (whole_sound _ _ _ _ Hw)). rewrite get_range_Some by lia. unfold entry_at in Hat. cbn [fst snd] in Hat. rewrite Hat.
  unfold Ptrmap.encode_entry. rewrite (proj2 (idx_Ok (Ptrmap.as_u8 t :: be_bytes 4 q) 0 (Ptrmap.as_u8 t))) by done. bind_step.
  assert (Integrity.be_u32 (Ptrmap.as_u8 t :: be_bytes 4 q) 1 = q) as ->; [|by destruct t].
  unfold Integrity.be_u32. rewrite get_range_Some by (rewrite ?zlen_cons, ?zlen_be_bytes; lia).
  pose proof (sub_app_exact [Ptrmap.as_u8 t] (be_bytes 4 q) [] 1 (1 + 4)) as E. rewrite app_nil_r in E. cbn [app] in E. rewrite E by (rewrite ?zlen_be_bytes; done).
  rewrite be_val_be_bytes. by apply Z.mod_small.
Qed.

(** The pages after the map pages are put. *)
Lemma put_run mx : is_u32 mx -> exists w', (let w := set_vacuum w mx (Header.incremental_vacuum (wp_header w)) in
    let* by_map := group_by_map us (entries want) ∅ in put_maps us (entries by_map) w) = Ok w' /\ sound w' /\
  wp_header w' = with_vacuum (wp_header w) mx (Header.incremental_vacuum (wp_header w)) /\ wp_page_count w' = wp_page_count w /\
  (forall n, Ptrmap.is_ptrmap_page us n <> Ok true -> read_page w' n = read_page w n) /\
  (forall k t q max_err, want !! k = Some (t, q) -> is_u32 q -> Integrity.ptrmap_get (acct w' max_err) k = Ok (Some (Ptrmap.as_u8 t, q))).
Proof.
  intros Hmx. destruct us_small as [Hu _]. pose proof (whole_sound _ _ _ _ Hw) as Hi.
  destruct (group_spec us Hu (entries want) ∅ tracked_entries) as (bm & -> & Hd & Hs). bind_step.
  assert (forall m, default [] (bm !! m) = on_map us m (entries want)) as Hd' by (intros m; by rewrite Hd, lookup_empty).
  assert (forall m, is_Some (bm !! m) -> exists e, e ∈ entries want /\ map_of us e.1 = m) as Hs'.
  { intros m Hm. destruct (Hs m Hm) as [[x Hx]|]; [by rewrite lookup_empty in Hx|done]. }
  set (w1 := set_vacuum w mx (Header.incremental_vacuum (wp_header w))). assert (sound w1) as Hi1.
  { apply sound_set_vacuum; [done|done|]. destruct (snd_header _ Hi) as [_ _ _ W4]. repeat (apply Forall_cons in W4 as [? W4]). done. }
  destruct (put_maps_spec (entries bm) w1 Hi1 (nodup_entries bm) (jobs_ok bm Hd' Hs')) as (w' & E & Hi' & Eh & Ec & Hrd & Hent). change (usable_size w1) with us in E, Hent.
  exists w'. split_and!; try done.
  - intros n Hn. rewrite Hrd; [done|]. intros ([m es] & -> & Hin)%list_elem_of_fmap. apply elem_of_entries in Hin. destruct (Hs' m ltac:(by eexists)) as ([k e] & Hk & Em).
    apply elem_of_entries in Hk. cbn [fst] in *. destruct (tracked_keys k e Hk) as [Ht _]. destruct (tracked_geom us Hu k Ht) as (_ & _ & _ & Hm & _). rewrite Em in Hm. done.
  - intros k t q max_err Hk Hq. assert ((k, (t, q)) ∈ default [] (bm !! map_of us k)) as Hin.
    { rewrite Hd'. apply list_elem_of_filter. split; [done|]. by apply elem_of_entries. }
    destruct (bm !! map_of us k) as [es|] eqn:Ebm; [|by apply elem_of_nil in Hin]. apply elem_of_entries in Ebm.
    destruct (Hent _ _ _ Ebm Hin) as (d & Er & Hat).
    apply (get_put w' d (map_of us k)); try done; [unfold usable_size; by rewrite Eh|].
    destruct (sound_read w' (map_of us k) d Hi' Er) as [Hz _]. rewrite (snd_ps _ Hi'), Eh in Hz. by rewrite (snd_ps _ Hi).
Qed.

End rebuild.

Lemma pages_fit (ps : list Z) n : NoDup ps -> (forall p, p ∈ ps -> 1 <= p <= n) -> zlen ps <= Z.max 0 n.
Proof.
  intros Hnd Hr. assert (ps ⊆+ seqZ 1 n) as Hs.
  { apply NoDup_submseteq; [done|]. intros q Hq. specialize (Hr q Hq). apply elem_of_seqZ. lia. }
  apply submseteq_length in Hs. rewrite length_seqZ in Hs. unfold zlen. lia.
Qed.

Lemma max_root_range roots n : (forall r, r ∈ 1 :: roots -> 1 <= r <= n) -> 1 <= fold_right Z.max 0 (1 :: roots) <= n.
Proof.
  intros Hr. pose proof (Hr 1 ltac:(by left)). cbn [fold_right]. assert (fold_right Z.max 0 roots <= n); [|lia].
  assert (forall r, r ∈ roots -> r <= n) as Hr' by (intros r Hin; apply Hr; by right). clear Hr. induction roots as [|r roots IH]; cbn [fold_right]; [lia|].
  pose proof (Hr' r ltac:(by left)). assert (fold_right Z.max 0 roots <= n); [|lia]. apply IH. intros q Hq. apply Hr'. by right.
Qed.

Lemma roots_frame src src' us ptr ptr' roots trees : Forall2 (Forest.root_refs src us ptr) roots trees -> Forest.agree src src' ptr ptr' (concat trees) ->
  Forall2 (Forest.root_refs src' us ptr') roots trees.
Proof.
  induction 1 as [|r ps roots trees Hr _ IH]; intros Ha; constructor.
  - apply (Forest.root_refs_frame src src' us ptr); [done|]. eapply Forest.agree_sub; [exact Ha|]. cbn [concat]. set_solver.
  - apply IH. eapply Forest.agree_sub; [exact Ha|]. cbn [concat]. set_solver.
Qed.

Lemma page_one w roots fl trees : Forall2 (Forest.root_refs (wp_source w) (usable_size w) any_ptr) (1 :: roots) trees -> 1 ∈ fl ++ concat trees.
Proof. intros H. apply elem_of_app. right. rewrite (roots_heads w _ _ _ H). by left. Qed.

(** C8: the pointer map rebuilt at commit is the one the integrity check
    demands. On any staged file whose free list, trees and overflow chains
    reference every page once (the lock page and the map pages apart), the
    rebuild terminates without an error, leaves every page but the map pages as
    it was, records the largest root in the header, and the file it leaves
    passes the page accounting of the integrity check in full: the map gives
    every page its kind and parent. *)
Theorem rebuild_ptrmap_accounted (w : WritePager) (fuel : nat) (roots fl : list Z) (trees : list (list Z)) (max_err : Z)
    (Hw : whole w (1 :: roots) fl trees) (Hr : schema_roots fuel w = Ok roots) (Hf : wp_page_count w <= Z.of_nat fuel) :
  exists w', rebuild_ptrmap fuel w = Ok w' /\ whole w' (1 :: roots) fl trees /\
    (forall n, Ptrmap.is_ptrmap_page (usable_size w) n <> Ok true -> read_page w' n = read_page w n) /\
    IntegrityProps.accounted (acct w' max_err) (1 :: roots).
Proof.
  pose proof (whole_sound _ _ _ _ Hw) as Hi. pose proof (whole_pc _ _ _ _ Hw) as Hpc. pose proof (whole_forest _ _ _ _ Hw) as Hfo. pose proof Hfo as [Hfl Htr Hnd].
  assert (forall p, p ∈ fl ++ concat trees -> 1 <= p <= wp_page_count w /\ Ptrmap.is_ptrmap_page (usable_size w) p <> Ok true) as Hpg.
  { intros p Hp. apply (whole_pages _ _ _ _ Hw). apply elem_of_app. by right. }
  assert (forall ps, NoDup ps -> ps ⊆ fl ++ concat trees -> zlen ps <= Z.max 0 (wp_page_count w)) as Hfit.
  { intros ps Hps Hsub. apply pages_fit; [done|]. intros p Hp. by apply Hpg, Hsub. }
  pose proof Hnd as (Hnd1 & _ & Hnd2)%NoDup_app. pose proof (Hfit fl Hnd1 ltac:(set_solver)) as Hfl0. pose proof (Hfit _ Hnd2 ltac:(set_solver)) as Htr0. pose proof (Hpg 1 (page_one w roots fl trees Htr)) as [Hone _].
  destruct (compute_want_spec w Hi fuel roots fl trees Hr Hfo) as (want & Ew & Hfl' & Htr' & Hk & H1); [unfold zlen in *; lia|lia|].
  set (mx := fold_right Z.max 0 (1 :: roots)) in *. assert (1 <= mx <= wp_page_count w) as Hmx.
  { apply max_root_range. intros r Hr'. apply Hpg, elem_of_app. right. rewrite (roots_heads w _ _ _ Htr). apply elem_of_app. by left. }
  destruct (put_run w roots fl trees Hw want Hk H1 mx) as (w' & E & Hi' & Eh & Ec & Hrd & Hget).
  { unfold is_uint. lia. }
  exists w'. assert (usable_size w' = usable_size w) as Eu by (unfold usable_size; by rewrite Eh).
  assert (forall ptr ptr', (forall k t q, ptr k t q -> ptr' k t q) -> Forest.agree (wp_source w) (wp_source w') ptr ptr' (fl ++ concat trees)) as Hag.
  { intros ptr ptr' Hptr p Hp. split; [|by intros t k; apply Hptr]. cbn [wp_source Pager.src_page]. unfold wp_page. by rewrite Hrd by (by apply Hpg). }
  assert (forall ptr ptr', (forall k t q, ptr k t q -> ptr' k t q) -> Forest.free_list (wp_source w) (usable_size w) ptr (Header.freelist_trunk (wp_header w)) (Header.freelist_count (wp_header w)) fl ->
    Forall2 (Forest.root_refs (wp_source w) (usable_size w) ptr) (1 :: roots) trees ->
    Forest.free_list (wp_source w') (usable_size w) ptr' (Header.freelist_trunk (wp_header w)) (Header.freelist_count (wp_header w)) fl /\
    Forall2 (Forest.root_refs (wp_source w') (usable_size w) ptr') (1 :: roots) trees) as Htrans.
  { intros ptr ptr' Hptr F1 F2. specialize (Hag ptr ptr' Hptr). split; [apply (Forest.free_list_frame (wp_source w) _ _ ptr); [done|eapply Forest.agree_sub; [exact Hag|set_solver]]|].
    apply (roots_frame (wp_source w) (wp_source w') (usable_size w) ptr ptr'); [done|]. eapply Forest.agree_sub; [exact Hag|set_solver]. }
  assert (forall e, IntegrityProps.pending (acct w' e) = IntegrityProps.pending (acct w 1)) as Hpend.
  { intros e. unfold IntegrityProps.pending, acct, Integrity.blank. cbn [Integrity.ac_src Integrity.n_page wp_source Pager.src_header Pager.src_page_count]. by rewrite Eh, Ec. }
  split_and!; [unfold rebuild_ptrmap; rewrite Ew; bind_step; exact E| |done|].
  - split; [done|lia| | |].
    + destruct (Htrans any_ptr any_ptr ltac:(done) Hfl Htr) as [F1 F2]. split; [by rewrite Eu, Eh|by rewrite Eu|done].
    + rewrite Hpend. apply (whole_nodup _ _ _ _ Hw).
    + intros p. rewrite Hpend, Ec, Eu. apply (whole_pages _ _ _ _ Hw).
  - destruct (Htrans (says want) (IntegrityProps.ptr_ok (acct w' max_err)) ltac:(intros k t q [Hkk Hq] _; by apply Hget) Hfl' Htr') as [F1 F2].
    assert (Integrity.auto_vacuum (acct w' max_err) = true) as Eav by (unfold acct, Integrity.blank; cbn [Integrity.auto_vacuum]; rewrite Eh; cbn [with_vacuum Header.largest_root_page]; apply negb_true_iff, Z.eqb_neq; lia).
    split; [rewrite Eav; unfold acct, Integrity.blank; cbn [Integrity.largest_root_page]; by rewrite Eh|]. exists fl, trees. rewrite Hpend.
    split_and!; [| |apply (whole_nodup _ _ _ _ Hw)|].
    + change (Forest.free_list (wp_source w') (usable_size w') (IntegrityProps.ptr_ok (acct w' max_err)) (Header.freelist_trunk (wp_header w')) (Header.freelist_count (wp_header w')) fl). rewrite Eu, Eh. exact F1.
    + change (Forall2 (Forest.root_refs (wp_source w') (usable_size w') (IntegrityProps.ptr_ok (acct w' max_err))) (1 :: roots) trees). rewrite Eu. exact F2.
    + intros p. rewrite (whole_pages _ _ _ _ Hw p). unfold IntegrityProps.map_page. rewrite Eav. destruct (us_small w roots fl trees Hw) as [_ Hu32]. pose proof (sound_us w Hi).
      unfold acct, Integrity.blank. cbn [Integrity.n_page Integrity.usable wp_source Pager.src_page_count Pager.src_usable_size]. rewrite Ec, Eu, wrap_small by (unfold is_uint; lia). intuition.
Qed.

(** ** An example *)

(** An auto-vacuum file of six pages: the catalog with one table, a map page, the
    table's root with one separator, a free page, and two leaves. *)
Definition av_row : bytes := [15; 1; 6; 23; 15; 15; 1; 15; 116; 97; 98; 108; 101; 116; 116; 3; 99].
Definition av_pg1 : bytes := CursorProps.demo_page [(100, [13]); (103, [0; 1]); (108, [1; 234]); (490, av_row)].
Definition av_root : bytes := CursorProps.demo_page [(0, [5]); (3, [0; 1]); (8, [0; 0; 0; 6]); (12, [1; 244]); (500, [0; 0; 0; 5; 1])].
Definition av_blank : bytes := CursorProps.demo_page [].
Definition av_header : Header.DatabaseHeader := Header.mkHeader 512 1 1 0 2 6 4 1 1 4 0 3 Header.Utf8 0 1 0 2 3046001.
Definition av_wp : WritePager := mkWp (av_pg1 ++ av_blank ++ av_root ++ av_blank ++ CursorProps.pg_row1 ++ CursorProps.pg_row2) av_header av_header 512 6 6 ∅ [] false.

Lemma av_inv : inv av_wp [4].
Proof.
  split; try done.
  - constructor; [split; [simpl; lia|done]|by unfold is_uint; simpl; lia|simpl; lia|]. by repeat (apply Forall_cons_2 || apply Forall_nil_2).
  - split_and!; [by vm_compute|apply TableSpec.is_bytes_check; by vm_compute|cbn; lia|cbn; lia].
  - intros n Hn. left. cbn in *. lia.
  - apply (fl_cons _ 4 av_blank 0 [] []); try (by vm_compute). constructor.
  - apply NoDup_singleton.
  - repeat constructor; cbn; lia.
Qed.

(** A leaf with one cell that does not spill. *)
Lemma av_leaf p d body n r c : read_page av_wp p = Ok d -> BtPage.parse (Pager.mkPage p d) = Ok (mkBt (Pager.mkPage p d) LeafTable body n 0) -> n = 1 ->
  Integrity.cell_payload (mkBt (Pager.mkPage p d) LeafTable body n 0) 0 512 = Some (Ok c) -> overflow c = 0 ->
  Forest.tree_refs (wp_source av_wp) 512 any_ptr 0 r p [p].
Proof.
  intros Er Eb -> Ec E0. exists (Pager.mkPage p d), (mkBt (Pager.mkPage p d) LeafTable body 1 0), [[]]. split_and!; try done.
  - cbn [wp_source Pager.src_page]. unfold wp_page. by rewrite Er.
  - change (seqZ 0 (num_cells _)) with [0]. constructor; [|constructor]. by apply (Forest.chain_of_local _ _ _ _ _ _ c).
Qed.

Lemma av_whole : whole av_wp [1; 3] [4] [[1]; [3; 5; 6]].
Proof.
  split.
  - exact (inv_sound _ _ av_inv).
  - vm_compute. reflexivity.
  - split.
    + assert (Forest.trunk_leaves av_blank = []) as El by (vm_compute; reflexivity). assert (Integrity.be_u32 av_blank 0 = 0 /\ Integrity.be_u32 av_blank 4 = 0) as [E0 E4] by (vm_compute; by split).
      change (Forest.free_list (wp_source av_wp) 512 any_ptr 4 1 [4]). replace [4] with (4 :: Forest.trunk_leaves (Pager.data (Pager.mkPage 4 av_blank)) ++ []) by (cbn [Pager.data]; by rewrite El).
      apply Forest.fl_trunk; cbn [Pager.data]; rewrite ?El, ?E0, ?E4.
      * lia.
      * vm_compute. reflexivity.
      * vm_compute. discriminate.
      * exact I.
      * constructor.
      * constructor.
    + repeat apply Forall2_cons_2; [| |constructor].
      * split; [lia|]. exists 0%nat. apply (av_leaf 1 av_pg1 100 1 _ (mkPayload 15 492 15 0)); vm_compute; reflexivity || discriminate.
      * split; [exact (fun _ => I)|]. exists 1%nat, (Pager.mkPage 3 av_root), (mkBt (Pager.mkPage 3 av_root) InteriorTable 0 1 6), [[]].
        split_and!; [vm_compute; reflexivity|vm_compute; reflexivity|repeat constructor|reflexivity|]. exists [[5]; [6]]. split; [|reflexivity].
        change (seqZ 0 (num_cells _ + 1)) with [0; 1]. repeat apply Forall2_cons_2; [| |constructor].
        -- exists 5. split_and!; [vm_compute; reflexivity|exact I|]. apply (av_leaf 5 CursorProps.pg_row1 0 1 _ (mkPayload 3 502 3 0)); vm_compute; reflexivity || discriminate.
        -- exists 6. split_and!; [vm_compute; reflexivity|exact I|]. apply (av_leaf 6 CursorProps.pg_row2 0 1 _ (mkPayload 1 502 1 0)); vm_compute; reflexivity || discriminate.
    + apply (bool_decide_unpack _). by vm_compute.
  - apply (bool_decide_unpack _). by vm_compute.
  - intros p. change (IntegrityProps.pending (acct av_wp 1) ++ [4] ++ concat [[1]; [3; 5; 6]]) with [4; 1; 3; 5; 6]. split.
    + intros Hp. assert (Forall (fun p => 1 <= p <= wp_page_count av_wp /\ Ptrmap.is_ptrmap_page (usable_size av_wp) p <> Ok true) [4; 1; 3; 5; 6]) as Hall; [|rewrite Forall_forall in Hall; by apply Hall].
      repeat constructor; by vm_compute.
    + intros [Hr Hm]. change (wp_page_count av_wp) with 6 in Hr. assert (p <> 2) as H2 by (intros ->; by apply Hm). assert (p = 1 \/ p = 3 \/ p = 4 \/ p = 5 \/ p = 6) as Hc by lia. set_solver.
Qed.

Lemma rebuild_ptrmap_accounted_witness : exists w', rebuild_ptrmap 10 av_wp = Ok w' /\ whole w' [1; 3] [4] [[1]; [3; 5; 6]] /\ IntegrityProps.accounted (acct w' 100) [1; 3].
Proof.
  destruct (rebuild_ptrmap_accounted av_wp 10 [3] [4] [[1]; [3; 5; 6]] 100) as (w' & E & Hw & _ & Ha).
  - exact av_whole.
  - vm_compute. reflexivity.
  - vm_compute. discriminate.
  - exists w'. split_and!; [exact E|exact Hw|exact Ha].
Defined.

(** ** A commit that shortens the file *)

(** What the truncation leaves staged: nothing past the new end of the file, so
    the originals of the pages it cuts off are not journaled. *)
Lemma truncate_cuts_overlay fuel w limit w' : autovacuum_truncate fuel w limit = Ok w' ->
  w' = w \/ forall n d, wp_overlay w' !! n = Some d -> n <= wp_page_count w'.
Proof.
  unfold autovacuum_truncate. intros ([want mx] & _ & (probe & _ & E)%res_bind_Ok)%res_bind_Ok.
  destruct (filter _ _).*1 as [|f free]; [left; by apply Ok_inj in E|]. right.
  apply res_bind_Ok in E as ([[last free'] w1] & _ & E). apply res_bind_Ok in E as (w2 & _ & E). apply Ok_inj in E as <-.
  cbn. intros n d Hn. by apply map_lookup_filter_Some in Hn as [_ ?].
Qed.

Lemma entries_ok ps (m : gmap Z bytes) : (forall n d, m !! n = Some d -> 1 <= n < 2 ^ 32 /\ zlen d = ps) ->
  JournalProps.overlay_ok ps (entries m).
Proof.
  intros Hm. pose proof (nodup_entries m) as Hnd. split_and!; [|done|].
  - apply Forall_forall. intros [n d] Hx%elem_of_entries. destruct (Hm n d Hx) as [Hr Hz]. cbn. unfold is_uint. split_and!; lia || done.
  - assert (zlen (entries m).*1 <= Z.max 0 (2 ^ 32 - 1)) as Hf.
    { apply pages_fit; [done|]. intros p ([n d] & -> & Hx%elem_of_entries)%list_elem_of_fmap. destruct (Hm n d Hx) as [? _]. simpl. lia. }
    unfold is_uint, zlen in *. rewrite length_fmap in Hf. lia.
Qed.

(** Page one can be stamped; the other staged pages stay. *)
Lemma stamp_Ok w : sound w -> 1 <= wp_disk_pages w -> exists d, zlen d = wp_page_size w /\
  stamp w = Ok (set_staged w (with_commit (wp_header w) (wp_page_count w)) (wp_page_count w) (<[1 := d]> (wp_overlay w))).
Proof.
  intros Hw Hd. pose proof (sound_ps w Hw) as Hps. destruct (snd_file w Hw) as (Hf & _ & Hd'). unfold stamp.
  set (w1 := set_staged w _ _ _).
  assert (exists x, read_page w1 1 = Ok x /\ zlen (default x (wp_overlay w1 !! 1)) = wp_page_size w) as (x & -> & Hx).
  { unfold read_page. cbn [w1 set_staged wp_overlay wp_disk_pages wp_file wp_page_size]. destruct (wp_overlay w !! 1) as [b|] eqn:E.
    - exists b. split; [done|]. by destruct (snd_overlay w Hw 1 b E) as (_ & ? & _).
    - destruct (Z.ltb_spec (wp_disk_pages w) 1); [lia|]. cbn [Z.eqb orb]. rewrite Vfs.mem_read_Ok by nia.
      eexists. split; [done|]. simpl. rewrite zlen_sub; nia. }
  bind_step. rewrite Header.write_to_spec by (unfold Header.HEADER_LEN; lia). bind_step. eexists. split; [|done].
  rewrite zlen_app, Header.zlen_header_bytes. unfold zlen in *. rewrite length_drop. lia.
Qed.

(** C40: a commit that shortens the file is not crash-atomic. Take any commit in
    rollback-journal mode whose auto-vacuum step, or an incremental vacuum
    before it, leaves fewer pages than the file has on disk. It succeeds and
    leaves the new, shorter file. If the process stops before the file is cut,
    recovery restores the old file; once the journal is cleared it keeps the
    new one. In between, after the cut and before the clear, the file comes
    back at its old size, but every page past the cut that is not staged any
    more is zero, whatever it held; the other pages are the old ones. *)
Theorem shrink_loses_page (fuel : nat) (w0 w : WritePager) :
  wp_overlay w0 <> ∅ -> commit_vacuum fuel w0 = Ok w -> sound w ->
  1 <= wp_page_count w < wp_disk_pages w ->
  exists ops w', commit fuel w0 = Ok (ops, w') /\
    wp_page_count w' = wp_page_count w /\ zlen (wp_file w') = wp_page_count w * wp_page_size w /\
    forall k, exists d d', Journal.run (take k ops) (Journal.mkDisk (wp_file w) []) = Ok d /\
      Journal.recover_hot_journal false true true d = Ok d' /\
      if (k <? length ops - 3)%nat then Journal.d_file d' = wp_file w
      else if (k <? length ops - 1)%nat then
        zlen (Journal.d_file d') = zlen (wp_file w) /\
        forall q, 1 <= q <= wp_disk_pages w ->
          page_at (Journal.d_file d') (wp_page_size w) q =
            if decide (wp_page_count w < q /\ wp_overlay w !! q = None) then zrep (wp_page_size w) 0
            else page_at (wp_file w) (wp_page_size w) q
      else Journal.d_file d' = wp_file w'.
Proof.
  intros H0 Ev Hw Hpc. destruct (stamp_Ok w Hw ltac:(lia)) as (p1 & Hp1 & Es). pose proof (sound_ps w Hw) as Hps.
  destruct (snd_file w Hw) as (Hf & _ & Hd). set (ov := <[1 := p1]> (wp_overlay w)) in *.
  assert (JournalProps.overlay_ok (wp_page_size w) (entries ov)) as Hov.
  { apply entries_ok. intros n d. unfold ov. intros [[<- <-]|[_ Hn]]%lookup_insert_Some; [done|]. by destruct (snd_overlay w Hw n d Hn) as (? & ? & _). }
  assert (forall q, q ∈ (entries ov).*1 <-> is_Some (ov !! q)) as Hkey.
  { intros q. split; [intros ([n d] & -> & Hx%elem_of_entries)%list_elem_of_fmap; by exists d|].
    intros [d Hx]. apply list_elem_of_fmap. exists (q, d). split; [done|]. by apply elem_of_entries. }
  destruct (JournalProps.shrink_outcomes (wp_file w) (wp_page_size w) (wp_disk_pages w) (wp_page_count w)
    (wrap 32 (Header.change_counter (wp_header w) + 1)) (entries ov)) as (origs & new & Eo & Er & Hz & _ & _ & Hk).
  { split; [done|]. rewrite (snd_ps w Hw). apply (Header.wf_page_size _ (snd_header w Hw)). }
  { done. } { done. } { done. } { done. }
  { apply Hkey. unfold ov. rewrite lookup_insert_eq. by eexists. }
  eexists _, _. split; [|split; [|split; [|]]].
  - unfold commit. rewrite decide_False by done. rewrite Ev. bind_step. rewrite Es. bind_step. unfold flush.
    cbn [set_staged wp_overlay wp_file wp_disk_pages wp_page_size wp_page_count wp_header]. rewrite Eo. do 2 bind_step.
    cbn [with_commit Header.change_counter]. rewrite Er. bind_step. reflexivity.
  - done.
  - exact Hz.
  - intros k. destruct (Hk k) as (d & d' & Ed & Ed' & Hd'). exists d, d'. split; [done|]. split; [done|].
    cbn [flushed wp_file Journal.d_file]. destruct (k <? _)%nat; [done|]. destruct (k <? _)%nat; [|done]. rewrite Hd'. split; [apply JournalProps.zlen_lost|].
    intros q Hq. assert (q * wp_page_size w <= zlen (wp_file w)) by nia. case_decide as Hlost.
    + destruct Hlost as [Hlt Hn]. apply JournalProps.page_at_lost_zero; try (lia || done).
      rewrite Hkey. unfold ov. rewrite lookup_insert_ne by lia. rewrite Hn. by intros [].
    + apply JournalProps.page_at_lost; try lia. rewrite Hkey. destruct (decide (q <= wp_page_count w)) as [|Hgt]; [by left|right].
      unfold ov. rewrite lookup_insert_ne by lia. destruct (wp_overlay w !! q) as [x|] eqn:E; [by eexists|]. destruct Hlost. split; [lia|done].
Qed.

(** The same file in full auto-vacuum mode, with page one staged. *)
Definition av_full : WritePager :=
  let h := Header.mkHeader 512 1 1 0 2 6 4 1 1 4 0 3 Header.Utf8 0 0 0 2 3046001 in
  header_mut (mkWp (wp_file av_wp) h h 512 6 6 ∅ [] false).

(** After the vacuum of its commit: the last leaf has moved to the free slot, and
    the file is to end one page earlier. *)
Definition av_cut : WritePager := match commit_vacuum 10 av_full with Ok w => w | _ => av_full end.

Lemma av_cut_sound : sound av_cut.
Proof.
  assert (Header.wf (wp_header av_cut)) as Hh.
  { constructor; [split; [vm_compute; split; discriminate|done]|by unfold is_uint; vm_compute|by vm_compute|].
    repeat (apply Forall_cons_2 || apply Forall_nil_2); unfold is_uint; vm_compute; split; discriminate || reflexivity. }
  split; [exact Hh|by vm_compute| |].
  - split_and!; [by vm_compute|apply TableSpec.is_bytes_check; by vm_compute|by vm_compute|by vm_compute].
  - assert (map_Forall (fun n d => 1 <= n < 2 ^ 32 /\ zlen d = 512 /\ is_bytes d) (wp_overlay av_cut)) as Hall.
    { apply (bool_decide_unpack _). by vm_compute. }
    intros n d Hn. exact (Hall n d Hn).
Qed.

Lemma shrink_loses_page_witness :
  exists ops w', commit 10 av_full = Ok (ops, w') /\ wp_page_count w' = 5 /\ zlen (wp_file w') = 5 * 512 /\
    exists d d', Journal.run (take (length ops - 2) ops) (Journal.mkDisk (wp_file av_cut) []) = Ok d /\
      Journal.recover_hot_journal false true true d = Ok d' /\
      page_at (wp_file av_cut) 512 6 = CursorProps.pg_row2 /\ page_at (Journal.d_file d') 512 6 = zrep 512 0.
Proof.
  destruct (shrink_loses_page 10 av_full av_cut) as (ops & w' & E & Hc & Hz & Hk).
  - vm_compute. discriminate.
  - vm_compute. reflexivity.
  - exact av_cut_sound.
  - vm_compute. split; [discriminate|reflexivity].
  - assert (wp_page_count av_cut = 5) as E1 by (vm_compute; reflexivity). assert (wp_page_size av_cut = 512) as E2 by (vm_compute; reflexivity).
    assert (wp_disk_pages av_cut = 6) as E3 by (vm_compute; reflexivity). assert (wp_overlay av_cut !! 6 = None) as E4 by (vm_compute; reflexivity).
    assert ((match commit 10 av_full with Ok (o, _) => 4 <=? length o | _ => false end)%nat = true) as Hl by (vm_compute; reflexivity).
    rewrite E in Hl. apply Nat.leb_le in Hl. rewrite E1, E2 in Hz. rewrite E1 in Hc. exists ops, w'. split; [exact E|]. split; [exact Hc|]. split; [exact Hz|].
    destruct (Hk (length ops - 2)%nat) as (d & d' & Ed & Ed' & Hd). exists d, d'. split; [exact Ed|]. split; [exact Ed'|]. split; [vm_compute; reflexivity|].
    destruct (Nat.ltb_spec (length ops - 2) (length ops - 3)); [lia|]. destruct (Nat.ltb_spec (length ops - 2) (length ops - 1)); [|lia].
    destruct Hd as [_ Hq]. specialize (Hq 6). rewrite E1, E2, E3, E4 in Hq. rewrite Hq by lia. reflexivity.
Defined.

End AutoVacuumMap.
