(* ===== verification/Decimal.v ===== *)
(** Arbitrary-precision decimals ([src/src/util/decimal.rs]): a sign, base-ten
    digits and the number of them behind the point, with parsing, exact
    arithmetic, comparison, the two renderings, and the exact expansion of
    powers of two and of doubles. An [f64] is its 64-bit pattern, as in
    [Value]; text is a list of bytes; lengths and exponents are [i64] values
    that stay far below the limit, so their arithmetic is that of [Z]. *)

From Stdlib Require Import QArith Qpower.
From S2P Require Import Prelude Value.
Local Open Scope Z_scope.

Module Decimal.

Record Decimal : Type := mkDec { sign : bool; digits : bytes; n_frac : Z }.

#[global] Instance Decimal_eq_dec : EqDecision Decimal.
Proof. solve_decision. Defined.

(** ** Parsing *)

Definition is_space (b : Z) : bool := bool_decide (b ∈ [32; 9; 10; 11; 12; 13]).
Definition is_ascii_digit (c : Z) : bool := (48 <=? c) && (c <=? 57).

(** [while i < n && p(bytes[i]) { i += 1; }], on the text that is left. *)
Fixpoint skip_while (p : Z -> bool) (s : bytes) : bytes :=
  match s with
  | c :: t => if p c then skip_while p t else s
  | [] => []
  end.

(** The optional sign at the front of the text, and whether it is a minus. *)
Definition take_sign (s : bytes) : bool * bytes :=
  match s with
  | 45 :: t => (true, t)
  | 43 :: t => (false, t)
  | _ => (false, s)
  end.

(** The digits of the exponent: characters that are no digits are passed over,
    and the scan ends once the exponent reaches a million. *)
Fixpoint exp_loop (s : bytes) (i_exp : Z) : Z :=
  match s with
  | c :: t =>
      if i_exp <? 1000000 then exp_loop t (if is_ascii_digit c then i_exp * 10 + (c - 48) else i_exp)
      else i_exp
  | [] => i_exp
  end.

Definition exponent (s : bytes) : Z :=
  match s with
  | [] => 0
  | _ => let '(neg, s) := take_sign s in let e := exp_loop s 0 in if neg then - e else e
  end.

(** The main loop: the digits, the marker of the point (its position plus one,
    or zero) and the exponent. *)
Fixpoint scan (s : bytes) (digits : bytes) (n_frac : Z) : bytes * Z * Z :=
  match s with
  | [] => (digits, n_frac, 0)
  | c :: t =>
      if is_ascii_digit c then scan t (digits ++ [c - 48]) n_frac
      else if c =? 46 then scan t digits (zlen digits + 1)
      else if (c =? 101) || (c =? 69) then (digits, n_frac, exponent t)
      else scan t digits n_frac
  end.

(** The exponent moves the point, and pads with zeros on either side. *)
Definition apply_exp (digits : bytes) (n_frac i_exp : Z) : bytes * Z :=
  if 0 <? i_exp then
    let '(n_frac, i_exp) :=
      if 0 <? n_frac then if i_exp <=? n_frac then (n_frac - i_exp, 0) else (0, i_exp - n_frac) else (n_frac, i_exp) in
    (if 0 <? i_exp then digits ++ zrep i_exp 0 else digits, n_frac)
  else if i_exp <? 0 then
    let i_exp := - i_exp in
    let n_extra := zlen digits - n_frac - 1 in
    let '(n_frac, i_exp) :=
      if negb (n_extra =? 0) then
        if i_exp <=? n_extra then (n_frac + i_exp, 0) else (zlen digits - 1, i_exp - n_extra)
      else (n_frac, i_exp) in
    if 0 <? i_exp then (zrep i_exp 0 ++ digits, n_frac + i_exp) else (digits, n_frac)
  else (digits, n_frac).

Definition from_bytes (text : bytes) : Decimal :=
  let '(sign, s) := take_sign (skip_while is_space text) in
  let s := skip_while (Z.eqb 48) s in
  let '(digits, n_frac, i_exp) := scan s [] 0 in
  let n_frac := if n_frac =? 0 then 0 else zlen digits - (n_frac - 1) in
  let '(digits, n_frac) := apply_exp digits n_frac i_exp in
  mkDec sign digits n_frac.

(** ** Arithmetic *)

Definition expand (d : Decimal) (n_digit new_frac : Z) : Decimal :=
  let n_add_frac := new_frac - n_frac d in
  let n_add_sig := (n_digit - zlen (digits d)) - n_add_frac in
  if (n_add_frac =? 0) && (n_add_sig =? 0) then d
  else
    let ds := if 0 <? n_add_sig then zrep n_add_sig 0 ++ digits d else digits d in
    if 0 <? n_add_frac then mkDec (sign d) (ds ++ zrep n_add_frac 0) (n_frac d + n_add_frac)
    else mkDec (sign d) ds (n_frac d).

(** C [memcmp] over the shared prefix. *)
Fixpoint cmp_digits (a b : bytes) : Z :=
  match a, b with
  | x :: a, y :: b => if x =? y then cmp_digits a b else x - y
  | _, _ => 0
  end.

(** The addition loop over the indices below [i], from the right. *)
Fixpoint add_loop (i : nat) (a b : bytes) (carry : Z) : res bytes :=
  match i with
  | O => Ok a
  | S i =>
      let* da := idx a (Z.of_nat i) in
      let* db := idx b (Z.of_nat i) in
      let x := da + db + carry in
      let* a := set_idx a (Z.of_nat i) (wrap 8 (if 10 <=? x then x - 10 else x)) in
      add_loop i a b (if 10 <=? x then 1 else 0)
  end.

(** The subtraction loop: the larger magnitude is [b] when [flip] is set. *)
Fixpoint sub_loop (i : nat) (flip : bool) (a b : bytes) (borrow : Z) : res bytes :=
  match i with
  | O => Ok a
  | S i =>
      let* da := idx a (Z.of_nat i) in
      let* db := idx b (Z.of_nat i) in
      let x := (if flip then db - da else da - db) - borrow in
      let* a := set_idx a (Z.of_nat i) (wrap 8 (if x <? 0 then x + 10 else x)) in
      sub_loop i flip a b (if x <? 0 then 1 else 0)
  end.

(** The digits and the fraction digits the sum is expanded to. *)
Definition sum_shape (a b : Decimal) : res (Z * Z) :=
  let n_sig := zlen (digits a) - n_frac a in
  let* n_sig := if 0 <? n_sig then let* d := idx (digits a) 0 in Ok (if d =? 0 then n_sig - 1 else n_sig) else Ok n_sig in
  let b_sig := zlen (digits b) - n_frac b in
  let n_sig := if n_sig <? b_sig then b_sig else n_sig in
  let frac := if n_frac a <? n_frac b then n_frac b else n_frac a in
  Ok (n_sig + frac + 1, frac).

Definition add (a b : Decimal) : res Decimal :=
  let* (n_digit, frac) := sum_shape a b in
  let a := expand a n_digit frac in
  let b := expand b n_digit frac in
  if bool_decide (sign a = sign b) then
    let* ds := add_loop (length (digits a)) (digits a) (digits b) 0 in
    Ok (mkDec (sign a) ds (n_frac a))
  else
    let flip := cmp_digits (digits a) (digits b) <? 0 in
    let* ds := sub_loop (length (digits a)) flip (digits a) (digits b) 0 in
    Ok (mkDec (if flip then negb (sign a) else sign a) ds (n_frac a)).

Definition sub (a b : Decimal) : res Decimal := add a (mkDec (negb (sign b)) (digits b) (n_frac b)).

(** The inner loop of [mul]: digit [f] times the digits of [b] below index
    [j], accumulated at [k] and to its left. *)
Fixpoint mul_row (j : nat) (f : Z) (b : bytes) (k carry : Z) (acc : bytes) : res (Z * Z * bytes) :=
  match j with
  | O => Ok (k, carry, acc)
  | S j =>
      let* d := idx acc k in
      let* db := idx b (Z.of_nat j) in
      let x := d + f * db + carry in
      let* acc := set_idx acc k (wrap 8 (x mod 10)) in
      mul_row j f b (k - 1) (x / 10) acc
  end.

Fixpoint mul_loop (i : nat) (a b : bytes) (acc : bytes) : res bytes :=
  match i with
  | O => Ok acc
  | S i =>
      let* f := idx a (Z.of_nat i) in
      let* (k, carry, acc) := mul_row (length b) f b (Z.of_nat i + zlen b - 1 + 3) 0 acc in
      let* d := idx acc k in
      let x := d + carry in
      let* acc := set_idx acc k (wrap 8 (x mod 10)) in
      let* d := idx acc (k - 1) in
      let* acc := set_idx acc (k - 1) (wrap 8 (d + x / 10)) in
      mul_loop i a b acc
  end.

(** The last loop of [mul]: trailing zeros behind the point, down to [min_frac]
    digits. [fuel] is the number of digits; [Panic] is the [unwrap] of an
    empty list. *)
Fixpoint trim (fuel : nat) (min_frac : Z) (ds : bytes) (frac : Z) : res (bytes * Z) :=
  if min_frac <? frac then
    match last ds, fuel with
    | Some d, S fuel => if d =? 0 then trim fuel min_frac (take (length ds - 1) ds) (frac - 1) else Ok (ds, frac)
    | _, _ => Panic
    end
  else Ok (ds, frac).

Definition mul (a b : Decimal) : res Decimal :=
  let min_frac := Z.min (n_frac a) (n_frac b) in
  let* acc := mul_loop (length (digits a)) (digits a) (digits b) (zrep (zlen (digits a) + zlen (digits b) + 2) 0) in
  let* (ds, frac) := trim (length acc) min_frac acc (n_frac a + n_frac b) in
  Ok (mkDec (xorb (sign a) (sign b)) ds frac).

(** ** Comparison *)

(** The comparison of the magnitudes. *)
Definition compare_mag (a b : Decimal) : Z :=
  let n_a_sig := zlen (digits a) - n_frac a in
  let n_b_sig := zlen (digits b) - n_frac b in
  if negb (n_a_sig =? n_b_sig) then Z.sgn (n_a_sig - n_b_sig)
  else
    let n := Nat.min (length (digits a)) (length (digits b)) in
    let rc := cmp_digits (take n (digits a)) (take n (digits b)) in
    if negb (rc =? 0) then Z.sgn rc else Z.sgn (zlen (digits a) - zlen (digits b)).

Definition compare (self other : Decimal) : Z :=
  if negb (bool_decide (sign self = sign other)) then (if sign self then -1 else 1)
  else if sign self then compare_mag other self else compare_mag self other.

(** ** Rendering *)

(** [while n > 1 && digits[j] == 0 { j += 1; n -= 1; }]; [fuel] counts [n]. *)
Fixpoint skip_zeros (fuel : nat) (ds : bytes) (j n : Z) : res (Z * Z) :=
  if 1 <? n then
    let* d := idx ds j in
    match fuel with
    | S fuel => if d =? 0 then skip_zeros fuel ds (j + 1) (n - 1) else Ok (j, n)
    | O => Panic
    end
  else Ok (j, n).

(** [k] digits from index [j] on, as text. *)
Fixpoint emit (k : nat) (ds : bytes) (j : Z) : res bytes :=
  match k with
  | O => Ok []
  | S k =>
      let* d := idx ds j in
      let* rest := emit k ds (j + 1) in
      Ok (d + 48 :: rest)
  end.

Definition to_decimal_string (d : Decimal) : res bytes :=
  let n_digit := zlen (digits d) in
  let* zero := if n_digit =? 0 then Ok true else if n_digit =? 1 then let* d0 := idx (digits d) 0 in Ok (d0 =? 0) else Ok false in
  let sgn := if zero then false else sign d in
  let n := n_digit - n_frac d in
  let* (j, n') := skip_zeros (length (digits d)) (digits d) 0 n in
  let* int_part := emit (Z.to_nat n') (digits d) j in
  let j := if 0 <? n' then j + n' else j in
  let* frac_part := if 0 <? n_frac d then let* f := emit (Z.to_nat (Z.max 1 (n_digit - j))) (digits d) j in Ok (46 :: f) else Ok [] in
  Ok ((if sgn then [45] else []) ++ (if n <=? 0 then [48] else []) ++ int_part ++ frac_part).

(** The digits of [mag] in front of [acc], one per step of the loop over the
    buffer of [fuel] bytes; a full buffer is an index underflow. *)
Fixpoint dec_digits (fuel : nat) (mag : Z) (acc : bytes) : res bytes :=
  match fuel with
  | O => Panic
  | S fuel =>
      let acc := mag mod 10 + 48 :: acc in
      if mag / 10 =? 0 then Ok acc else dec_digits fuel (mag / 10) acc
  end.

(** The number of zeros at the front of a list. *)
Fixpoint lead_zeros (ds : bytes) : nat :=
  match ds with
  | d :: ds => if d =? 0 then S (lead_zeros ds) else O
  | [] => O
  end.

Definition to_sci_string (d : Decimal) : res bytes :=
  let orig := zlen (digits d) in
  let n_digit := orig - Z.of_nat (lead_zeros (rev (digits d))) in
  let n_zero := Z.of_nat (lead_zeros (take (Z.to_nat n_digit) (digits d))) in
  let frac := n_frac d + (n_digit - orig) in
  let n_digit := n_digit - n_zero in
  let zero_case := n_digit =? 0 in
  let n_digit := if zero_case then 1 else n_digit in
  let frac := if zero_case then 0 else frac in
  let* sig := if zero_case then Ok [48] else emit (Z.to_nat n_digit) (digits d) n_zero in
  let* lead := idx sig 0 in
  let exp := n_digit - frac - 1 in
  let* mag := dec_digits 20 (Z.abs exp) [] in
  Ok ((if sign d then 45 else 43) :: lead :: 46 :: (if n_digit =? 1 then [48] else drop 1 sig)
      ++ 101 :: (if exp <? 0 then 45 else 43) :: zrep (2 - zlen mag) 48 ++ mag).

Definition int_to_string (m : Z) : res bytes :=
  let* mag := dec_digits 20 (Z.abs m) [] in
  Ok ((if m <? 0 then [45] else []) ++ mag).

(** ** Powers of two and doubles *)

Definition zero : Decimal := mkDec false [0] 0.

(** The square-and-multiply loop; [fuel] covers the bits of [n]. *)
Fixpoint pow_loop (fuel : nat) (a x : Decimal) (n : Z) : res Decimal :=
  match fuel with
  | O => Panic
  | S fuel =>
      let* a := if negb (Z.land n 1 =? 0) then mul a x else Ok a in
      let n := Z.shiftr n 1 in
      if n =? 0 then Ok a
      else let* x := mul x x in pow_loop fuel a x n
  end.

Definition one_text : bytes := [49; 46; 48].
Definition two_text : bytes := [50; 46; 48].
Definition half_text : bytes := [48; 46; 53].

Definition from_pow2 (n : Z) : res (option Decimal) :=
  if negb ((-20000 <=? n) && (n <=? 20000)) then Ok None
  else
    let a := from_bytes one_text in
    if n =? 0 then Ok (Some a)
    else
      let '(x, n) := if 0 <? n then (from_bytes two_text, n) else (from_bytes half_text, - n) in
      let* a := pow_loop 15 a x n in
      Ok (Some a).

Definition pow2 (n : Z) : res (option Decimal) :=
  if negb ((-20000 <=? n) && (n <=? 20000)) then Ok None else from_pow2 n.

(** [while ee < 1075 && mm > 0 && (mm & 1) == 0 { mm >>= 1; ee += 1; }]; the
    significand has at most 54 bits. *)
Fixpoint strip_twos (fuel : nat) (mm ee : Z) : res (Z * Z) :=
  if (ee <? 1075) && (0 <? mm) && (Z.land mm 1 =? 0) then
    match fuel with O => Panic | S fuel => strip_twos fuel (Z.shiftr mm 1) (ee + 1) end
  else Ok (mm, ee).

(** The significand and the exponent of a pattern; [None] for a NaN or an
    infinity. [is_neg] is [r < 0.0]; negating a double flips its top bit, and
    the pattern is then read as an [i64]. *)
Definition double_parts (r : Z) : res (option (Z * Z)) :=
  let is_neg := bool_decide (Value.f64_partial_cmp r 0 = Some Lt) in
  let a := to_signed 64 (if is_neg then Z.lxor r (2 ^ 63) else r) in
  if a =? 0 then Ok (Some (0, 0))
  else
    let ee := Z.shiftr a 52 in
    let mm := Z.land a (2 ^ 52 - 1) in
    let mm := if ee =? 0 then Z.shiftl mm 1 else Z.lor mm (2 ^ 52) in
    let* (mm, ee) := strip_twos 53 mm ee in
    let ee := ee - 1075 in
    if 971 <? ee then Ok None else Ok (Some (if is_neg then - mm else mm, ee)).

Definition from_double (r : Z) : res (option Decimal) :=
  let* parts := double_parts r in
  match parts with
  | None => Ok None
  | Some (m, e) =>
      let* text := int_to_string m in
      let result := from_bytes text in
      let* px := from_pow2 e in
      match px with
      | Some px => let* result := mul result px in Ok (Some result)
      | None => Ok (Some result)
      end
  end.

(** ** What a decimal means *)

Definition digits_ok (l : bytes) : Prop := Forall (fun d => 0 <= d <= 9) l.

(** The number a list of digits spells. *)
Definition dval (l : bytes) : Z := fold_left (fun acc d => acc * 10 + d) l 0.

Definition wf (d : Decimal) : Prop := digits_ok (digits d) /\ 0 <= n_frac d <= zlen (digits d).

Definition signed (d : Decimal) : Z := if sign d then - dval (digits d) else dval (digits d).

(** [s] with [f] digits behind the point. *)
Definition scale (s f : Z) : Q := (inject_Z s * 10 ^ (- f))%Q.

Definition value (d : Decimal) : Q := scale (signed d) (n_frac d).

(** The text of digits, and of a number: a sign, digits, an optional point with
    more digits, an optional exponent. *)
Definition ascii (ds : bytes) : bytes := (fun d => d + 48) <$> ds.

Definition sign_text (s : option bool) : bytes :=
  match s with Some true => [45] | Some false => [43] | None => [] end.

Definition numeral (s : option bool) (ip : bytes) (fp : option bytes) (ex : option (option bool * bytes)) : bytes :=
  sign_text s ++ ascii ip ++ match fp with Some f => 46 :: ascii f | None => [] end
  ++ match ex with Some (es, ed) => 101 :: sign_text es ++ ascii ed | None => [] end.

(** The number such a text denotes. *)
Definition numeral_value (s : option bool) (ip : bytes) (fp : option bytes) (ex : option (option bool * bytes)) : Q :=
  let m := dval (ip ++ default [] fp) in
  let e := match ex with Some (Some true, ed) => - dval ed | Some (_, ed) => dval ed | None => 0 end in
  scale (if s is Some true then - m else m) (zlen (default [] fp) - e).

(** ** Digit lists *)

Lemma dval_acc l : forall acc, fold_left (fun acc d => acc * 10 + d) l acc = acc * 10 ^ zlen l + dval l.
Proof.
  unfold dval. induction l as [|d l IH]; intros acc; cbn [fold_left]; [rewrite zlen_nil; lia|].
  rewrite IH, (IH (0 * 10 + d)), zlen_cons, Z.pow_add_r by (try lia; apply zlen_nonneg). lia.
Qed.

Lemma dval_app l k : dval (l ++ k) = dval l * 10 ^ zlen k + dval k.
Proof. unfold dval at 1. by rewrite fold_left_app, dval_acc. Qed.

Lemma dval_cons d l : dval (d :: l) = d * 10 ^ zlen l + dval l.
Proof. rewrite (dval_app [d] l : dval (d :: l) = _). done. Qed.

Lemma dval_snoc l d : dval (l ++ [d]) = dval l * 10 + d.
Proof. rewrite dval_app. change (dval [d]) with d. change (10 ^ zlen [d]) with 10. done. Qed.

Lemma dval_zrep n : dval (zrep n 0) = 0.
Proof. unfold zrep. induction (Z.to_nat n) as [|k IH]; [done|]. cbn [replicate]. by rewrite dval_cons, IH. Qed.

Lemma dval_bound l : digits_ok l -> 0 <= dval l < 10 ^ zlen l.
Proof.
  induction 1 as [|d l Hd Hl IH]; [done|]. rewrite dval_cons, zlen_cons, Z.pow_add_r by (try lia; apply zlen_nonneg). nia.
Qed.

Lemma digits_ok_app l k : digits_ok (l ++ k) <-> digits_ok l /\ digits_ok k.
Proof. apply Forall_app. Qed.

Lemma digits_ok_snoc l d : digits_ok (l ++ [d]) <-> digits_ok l /\ 0 <= d <= 9.
Proof. rewrite digits_ok_app. unfold digits_ok. rewrite Forall_singleton. done. Qed.

Lemma digits_ok_zrep n : digits_ok (zrep n 0).
Proof. apply Forall_replicate. lia. Qed.

#[export] Hint Resolve digits_ok_zrep : core.

(** A position inside a list that is split there. *)
Lemma idx_mid {A} (p s : list A) x i : i = zlen p -> idx (p ++ x :: s) i = Ok x.
Proof. intros ->. apply idx_Ok. split; [apply zlen_nonneg|]. unfold zlen. rewrite Nat2Z.id. by apply list_lookup_middle. Qed.

Lemma set_idx_mid {A} (p s : list A) x y i : i = zlen p -> set_idx (p ++ x :: s) i y = Ok (p ++ y :: s).
Proof.
  intros ->. pose proof (zlen_nonneg p). pose proof (zlen_nonneg s). rewrite set_idx_Ok by (rewrite zlen_app, zlen_cons; lia). f_equal. unfold zlen. rewrite Nat2Z.id.
  by rewrite insert_app_r_alt, Nat.sub_diag by lia.
Qed.

Lemma snoc_inv {A} (l : list A) n : length l = S n -> exists l' x, l = l' ++ [x] /\ length l' = n.
Proof. destruct l as [|x l] using rev_ind; [done|]. rewrite length_app. cbn. intros. exists l, x. split; [done|lia]. Qed.

Lemma app_eq_split {A} (l : list A) n : (n <= length l)%nat -> exists m s, l = m ++ s /\ length m = n.
Proof. intros. exists (take n l), (drop n l). split; [by rewrite take_drop|rewrite length_take; lia]. Qed.

Lemma digit_wrap x : 0 <= x <= 9 -> wrap 8 x = x.
Proof. intros. apply wrap_small. unfold is_uint. lia. Qed.

(** ** The digit loops *)

Lemma add_loop_spec i : forall p q s t carry, length p = i -> length q = i -> digits_ok p -> digits_ok q -> 0 <= carry <= 1 ->
  exists r c, add_loop i (p ++ s) (q ++ t) carry = Ok (r ++ s) /\ length r = i /\ digits_ok r /\ 0 <= c <= 1 /\
    dval r + c * 10 ^ Z.of_nat i = dval p + dval q + carry.
Proof.
  induction i as [|i IH]; intros p q s t carry Hp Hq Dp Dq Hc.
  { destruct p, q; try done. exists [], carry. split_and!; [done|done|constructor|lia..|cbn; lia]. }
  apply snoc_inv in Hp as (p' & x & -> & Hp), Hq as (q' & y & -> & Hq).
  apply digits_ok_snoc in Dp as [Dp Hx], Dq as [Dq Hy].
  cbn [add_loop]. rewrite <- !app_assoc. cbn [app]. rewrite !idx_mid by (unfold zlen; lia). do 2 bind_step. cbv zeta.
  rewrite set_idx_mid by (unfold zlen; lia). bind_step.
  set (z := x + y + carry). set (d := if 10 <=? z then z - 10 else z). set (c1 := if 10 <=? z then 1 else 0).
  assert (0 <= d <= 9 /\ 0 <= c1 <= 1 /\ d + 10 * c1 = z) as (Hd & Hc1 & E) by (subst d c1; destruct (Z.leb_spec 10 z); lia).
  rewrite digit_wrap by done.
  destruct (IH p' q' (d :: s) (y :: t) c1 Hp Hq Dp Dq Hc1) as (r & c & -> & Hr & Dr & Hcc & Er).
  exists (r ++ [d]), c. rewrite <- app_assoc, length_app. split_and!; [done|cbn; lia|by apply digits_ok_snoc|lia..|].
  rewrite !dval_snoc, Nat2Z.inj_succ, Z.pow_succ_r by lia. lia.
Qed.

Lemma sub_loop_spec i flip : forall p q s t borrow, length p = i -> length q = i -> digits_ok p -> digits_ok q -> 0 <= borrow <= 1 ->
  exists r c, sub_loop i flip (p ++ s) (q ++ t) borrow = Ok (r ++ s) /\ length r = i /\ digits_ok r /\ 0 <= c <= 1 /\
    dval r - c * 10 ^ Z.of_nat i = (if flip then dval q - dval p else dval p - dval q) - borrow.
Proof.
  induction i as [|i IH]; intros p q s t borrow Hp Hq Dp Dq Hc.
  { destruct p, q; try done. exists [], borrow. split_and!; [done|done|constructor|lia..|destruct flip; cbn; lia]. }
  apply snoc_inv in Hp as (p' & x & -> & Hp), Hq as (q' & y & -> & Hq).
  apply digits_ok_snoc in Dp as [Dp Hx], Dq as [Dq Hy].
  cbn [sub_loop]. rewrite <- !app_assoc. cbn [app]. rewrite !idx_mid by (unfold zlen; lia). do 2 bind_step. cbv zeta.
  rewrite set_idx_mid by (unfold zlen; lia). bind_step.
  set (z := (if flip then y - x else x - y) - borrow). set (d := if z <? 0 then z + 10 else z). set (c1 := if z <? 0 then 1 else 0).
  assert (0 <= d <= 9 /\ 0 <= c1 <= 1 /\ d - 10 * c1 = z) as (Hd & Hc1 & E) by (subst d c1; destruct (Z.ltb_spec z 0); destruct flip; lia).
  rewrite digit_wrap by done.
  destruct (IH p' q' (d :: s) (y :: t) c1 Hp Hq Dp Dq Hc1) as (r & c & -> & Hr & Dr & Hcc & Er).
  exists (r ++ [d]), c. rewrite <- app_assoc, length_app. split_and!; [done|cbn; lia|by apply digits_ok_snoc|lia..|].
  rewrite !dval_snoc, Nat2Z.inj_succ, Z.pow_succ_r by lia. subst z. destruct flip; lia.
Qed.

Lemma cmp_digits_spec a : forall b, length a = length b -> digits_ok a -> digits_ok b -> (cmp_digits a b ?= 0) = (dval a ?= dval b).
Proof.
  induction a as [|x a IH]; intros [|y b]; try done. cbn [length cmp_digits]. intros [= Hl] Ha Hb. apply Forall_cons in Ha as [Hx Ha], Hb as [Hy Hb].
  rewrite !dval_cons. pose proof (dval_bound a Ha) as Ba. pose proof (dval_bound b Hb) as Bb. unfold zlen in *. rewrite Hl in *.
  destruct (Z.eqb_spec x y) as [->|Hn].
  - rewrite IH by done. symmetry. apply Z.add_compare_mono_l.
  - destruct (Z.lt_trichotomy x y) as [Hlt|[->|Hlt]]; [|done|].
    + transitivity Lt; [apply Z.compare_lt_iff; lia|symmetry; apply Z.compare_lt_iff; nia].
    + transitivity Gt; [apply Z.compare_gt_iff; lia|symmetry; apply Z.compare_gt_iff; nia].
Qed.

(** ** Scaled integers *)

Lemma ten_pow_neq k : ~ (10 ^ k == 0)%Q.
Proof. apply Qpower_not_0. discriminate. Qed.

Lemma scale_shift s f k : 0 <= k -> (scale (s * 10 ^ k) (f + k) == scale s f)%Q.
Proof.
  intros Hk. unfold scale. rewrite Z.opp_add_distr, inject_Z_mult, Zpower_Qpower by lia. rewrite Qpower_plus by discriminate.
  rewrite (Qmult_comm (10 ^ (- f))), Qmult_assoc, <- (Qmult_assoc (inject_Z s)), <- Qpower_plus, Z.add_opp_diag_r by discriminate. cbn [Qpower]. by rewrite Qmult_1_r.
Qed.

Lemma scale_add s t f : (scale s f + scale t f == scale (s + t) f)%Q.
Proof. unfold scale. by rewrite inject_Z_plus, Qmult_plus_distr_l. Qed.

Lemma scale_mul s t f g : (scale s f * scale t g == scale (s * t) (f + g))%Q.
Proof. unfold scale. rewrite inject_Z_mult, Z.opp_add_distr, Qpower_plus by discriminate. ring. Qed.

(** ** Addition *)

Lemma expand_spec d n f : wf d -> 0 <= f - n_frac d -> 0 <= n - zlen (digits d) - (f - n_frac d) ->
  wf (expand d n f) /\ sign (expand d n f) = sign d /\ zlen (digits (expand d n f)) = n /\ n_frac (expand d n f) = f /\
  dval (digits (expand d n f)) = dval (digits d) * 10 ^ (f - n_frac d) /\
  take (Z.to_nat (n - zlen (digits d) - (f - n_frac d))) (digits (expand d n f)) = zrep (n - zlen (digits d) - (f - n_frac d)) 0.
Proof.
  intros [Hd Hf] Ha Hs. unfold expand. set (na := f - n_frac d) in *. set (ns := n - zlen (digits d) - na) in *.
  destruct (Z.eqb_spec na 0) as [Ea|Ea], (Z.eqb_spec ns 0) as [Es|Es]; cbn [andb].
  - rewrite Ea, Es. cbn. split_and!; try done; lia.
  - destruct (Z.ltb_spec 0 ns); [|lia]. destruct (Z.ltb_spec 0 na); [lia|]. unfold wf. cbn [sign digits n_frac].
    rewrite digits_ok_app, zlen_app, zlen_zrep, dval_app, dval_zrep, Ea by lia. split_and!; try done; try lia.
    unfold zrep. by rewrite take_app_length' by (rewrite length_replicate; done).
  - destruct (Z.ltb_spec 0 ns); [lia|]. destruct (Z.ltb_spec 0 na); [|lia]. unfold wf. cbn [sign digits n_frac].
    rewrite digits_ok_app, zlen_app, zlen_zrep, dval_app, dval_zrep, zlen_zrep, Es by lia. split_and!; try done; try lia.
  - destruct (Z.ltb_spec 0 ns); [|lia]. destruct (Z.ltb_spec 0 na); [|lia]. unfold wf. cbn [sign digits n_frac].
    rewrite <- app_assoc, !digits_ok_app, !zlen_app, !zlen_zrep, !dval_app, !dval_zrep, zlen_zrep by lia. split_and!; try done; try lia.
    unfold zrep. by rewrite take_app_length' by (rewrite length_replicate; done).
Qed.

(** The expanded operands have the same shape, and a zero in front. *)
Lemma sum_shape_spec a b : wf a -> wf b -> exists n f, sum_shape a b = Ok (n, f) /\ f = Z.max (n_frac a) (n_frac b) /\
  (forall d, d = a \/ d = b -> 0 <= f - n_frac d /\ 0 <= n - zlen (digits d) - (f - n_frac d) /\
    exists t, digits (expand d n f) = 0 :: t).
Proof.
  intros Ha Hb. destruct (Ha) as [Da Fa], (Hb) as [Db Fb]. unfold sum_shape.
  set (f := if n_frac a <? n_frac b then n_frac b else n_frac a). assert (f = Z.max (n_frac a) (n_frac b)) as Ef by (subst f; destruct (Z.ltb_spec (n_frac a) (n_frac b)); lia).
  assert (forall d n, wf d -> 0 <= f - n_frac d -> 0 < n - zlen (digits d) - (f - n_frac d) -> exists t, digits (expand d n f) = 0 :: t) as Hz.
  { intros d n Hd H1 H2. destruct (expand_spec d n f Hd H1 ltac:(lia)) as (_ & _ & _ & _ & _ & Ht). unfold zrep in Ht.
    destruct (Z.to_nat (n - zlen (digits d) - (f - n_frac d))) eqn:E; [lia|]. destruct (digits (expand d n f)); [done|]. injection Ht as -> _. eauto. }
  set (sa := zlen (digits a) - n_frac a). set (sb := zlen (digits b) - n_frac b).
  assert (exists s0, (if 0 <? sa then let* d := idx (digits a) 0 in Ok (if d =? 0 then sa - 1 else sa) else Ok sa) = Ok s0 /\
    (s0 = sa \/ s0 = sa - 1 /\ exists t, digits a = 0 :: t)) as (s0 & -> & Hs0).
  { destruct (Z.ltb_spec 0 sa); [|eauto]. destruct (digits a) as [|d0 t] eqn:Ed; [subst sa; change (zlen (@nil Z)) with 0 in *; lia|].
    rewrite (idx_mid [] t d0 0 eq_refl : idx (d0 :: t) 0 = Ok d0). bind_step. destruct (Z.eqb_spec d0 0) as [->|]; eauto 10. }
  bind_step. set (n := (if s0 <? sb then sb else s0) + f + 1). exists n, f. split; [done|]. split; [done|].
  assert (n = Z.max s0 sb + f + 1) as En by (subst n; destruct (Z.ltb_spec s0 sb); lia).
  intros d Hd. assert (0 <= f - n_frac d) as H1 by (destruct Hd as [-> | ->]; lia). split; [done|].
  assert (0 <= n - zlen (digits d) - (f - n_frac d)) as H2 by (destruct Hd as [-> | ->]; subst sa sb; lia). split; [done|].
  destruct (Z.eq_dec (n - zlen (digits d) - (f - n_frac d)) 0) as [E0|]; [|apply Hz; [destruct Hd as [-> | ->]; done|lia..]].
  destruct Hd as [-> | ->]; [|subst sb; lia]. destruct Hs0 as [->|[-> [t Et]]]; [subst sa; lia|].
  unfold expand. rewrite E0, andb_true_r. destruct (Z.eqb_spec (f - n_frac a) 0); [eauto|]. cbn [Z.ltb Z.compare].
  destruct (Z.ltb_spec 0 (f - n_frac a)); cbn [digits]; rewrite Et; eauto.
Qed.

Lemma signed_expand d n f : wf d -> 0 <= f - n_frac d -> 0 <= n - zlen (digits d) - (f - n_frac d) ->
  (scale (signed (expand d n f)) f == value d)%Q.
Proof.
  intros Hd H1 H2. destruct (expand_spec d n f Hd H1 H2) as (_ & Es & _ & _ & Ev & _). unfold signed, value. rewrite Es, Ev.
  rewrite <- (scale_shift (signed d) (n_frac d) (f - n_frac d)) by done. replace (n_frac d + (f - n_frac d)) with f by lia.
  unfold signed. destruct (sign d); [|done]. by rewrite Z.mul_opp_l.
Qed.

(** The digits of the sum of two numbers of the same length with a zero in
    front: nothing is carried out. *)
Lemma add_digits a b ta tb : a = 0 :: ta -> b = 0 :: tb -> length a = length b -> digits_ok a -> digits_ok b ->
  exists r, add_loop (length a) a b 0 = Ok r /\ length r = length a /\ digits_ok r /\ dval r = dval a + dval b.
Proof.
  intros Ea Eb Hl Ha Hb. destruct (add_loop_spec (length a) a b [] [] 0 eq_refl (eq_sym Hl) Ha Hb ltac:(lia)) as (r & c & E & Hr & Dr & Hc & Ev).
  rewrite !app_nil_r in E. exists r. split_and!; try done. pose proof (dval_bound r Dr) as Br.
  assert (dval a < 10 ^ zlen ta /\ dval b < 10 ^ zlen tb) as [Ba Bb].
  { subst a b. apply Forall_cons in Ha as [_ Ha], Hb as [_ Hb]. rewrite !dval_cons. split; [apply dval_bound in Ha|apply dval_bound in Hb]; lia. }
  subst a b. cbn [length] in *. unfold zlen in *. rewrite Nat2Z.inj_succ, Z.pow_succ_r in Ev by lia. injection Hl as Hl. rewrite <- Hl in Bb.
  assert (c = 0 \/ c = 1) as [-> | ->] by lia; lia.
Qed.

Lemma sub_digits a b : length a = length b -> digits_ok a -> digits_ok b ->
  exists r, sub_loop (length a) (cmp_digits a b <? 0) a b 0 = Ok r /\ length r = length a /\ digits_ok r /\ dval r = Z.abs (dval a - dval b) /\
    (cmp_digits a b <? 0) = (dval a <? dval b).
Proof.
  intros Hl Ha Hb. assert ((cmp_digits a b <? 0) = (dval a <? dval b)) as Ec.
  { unfold Z.ltb. by rewrite cmp_digits_spec. }
  destruct (sub_loop_spec (length a) (cmp_digits a b <? 0) a b [] [] 0 eq_refl (eq_sym Hl) Ha Hb ltac:(lia)) as (r & c & E & Hr & Dr & Hc & Ev).
  rewrite !app_nil_r in E. exists r. split_and!; try done. pose proof (dval_bound r Dr) as Br. pose proof (dval_bound a Ha) as Ba. pose proof (dval_bound b Hb) as Bb.
  rewrite Ec in Ev. unfold zlen in *. rewrite Hr, <- Hl in *. assert (c = 0 \/ c = 1) as [-> | ->] by lia; destruct (Z.ltb_spec (dval a) (dval b)); lia.
Qed.

Lemma add_exact a b : wf a -> wf b -> exists c, add a b = Ok c /\ wf c /\ (value c == value a + value b)%Q.
Proof.
  intros Ha Hb. destruct (sum_shape_spec a b Ha Hb) as (n & f & E & _ & Hs). unfold add. rewrite E. bind_step.
  destruct (Hs a (or_introl eq_refl)) as (A1 & A2 & ta & Eta), (Hs b (or_intror eq_refl)) as (B1 & B2 & tb & Etb). cbv zeta.
  assert (value a + value b == scale (signed (expand a n f) + signed (expand b n f)) f)%Q as Hsum
    by (by rewrite <- (signed_expand a n f Ha A1 A2), <- (signed_expand b n f Hb B1 B2), scale_add).
  destruct (expand_spec a n f Ha A1 A2) as ([Da Fa] & _ & La & Fa' & _ & _), (expand_spec b n f Hb B1 B2) as ([Db Fb] & _ & Lb & Fb' & _ & _).
  assert (length (digits (expand a n f)) = length (digits (expand b n f))) as Hl by (unfold zlen in *; lia).
  case_bool_decide as Hsgn.
  - destruct (add_digits _ _ ta tb Eta Etb Hl Da Db) as (r & -> & Hr & Dr & Ev). bind_step. eexists. split; [done|]. unfold wf. rewrite Hsum. unfold value, signed.
    cbn [sign digits n_frac]. unfold zlen in *. rewrite Hr, Fa', Ev, <- Hsgn. split; [split; [done|lia]|]. f_equiv. destruct (sign (expand a n f)); lia.
  - destruct (sub_digits _ _ Hl Da Db) as (r & -> & Hr & Dr & Ev & ->). bind_step. eexists. split; [done|]. unfold wf. rewrite Hsum. unfold value, signed.
    cbn [sign digits n_frac]. unfold zlen in *. rewrite Hr, Fa', Ev. split; [split; [done|lia]|]. f_equiv.
    destruct (sign (expand a n f)), (sign (expand b n f)), (Z.ltb_spec (dval (digits (expand a n f))) (dval (digits (expand b n f)))); try done; cbn [negb]; lia.
Qed.

Lemma sub_exact a b : wf a -> wf b -> exists c, sub a b = Ok c /\ wf c /\ (value c == value a - value b)%Q.
Proof.
  intros Ha Hb. unfold sub. destruct (add_exact a (mkDec (negb (sign b)) (digits b) (n_frac b)) Ha Hb) as (c & E & Hc & Ev). exists c. split_and!; try done; [apply Hc..|].
  rewrite Ev. unfold Qminus. f_equiv. unfold value, scale, signed. cbn [sign digits n_frac]. rewrite <- Qopp_involutive at 1.
  destruct (sign b); cbn [negb]; rewrite ?inject_Z_opp; ring.
Qed.

(** ** Multiplication *)

Lemma mul_row_spec f j : forall p m s q t carry, length m = j -> length q = j -> digits_ok m -> digits_ok q -> 0 <= f <= 9 -> 0 <= carry <= 9 ->
  exists m' c, mul_row j f (q ++ t) (zlen p + Z.of_nat j - 1) carry (p ++ m ++ s) = Ok (zlen p - 1, c, p ++ m' ++ s) /\
    length m' = j /\ digits_ok m' /\ 0 <= c <= 9 /\ dval m' + c * 10 ^ Z.of_nat j = dval m + f * dval q + carry.
Proof.
  induction j as [|j IH]; intros p m s q t carry Hm Hq Dm Dq Hf Hc.
  { destruct m, q; try done. exists [], carry. split_and!; [|done|constructor|lia..|cbn; lia]. cbn [mul_row]. by replace (zlen p + Z.of_nat 0 - 1) with (zlen p - 1) by lia. }
  apply snoc_inv in Hm as (m' & x & -> & Hm), Hq as (q' & y & -> & Hq). apply digits_ok_snoc in Dm as [Dm Hx], Dq as [Dq Hy].
  cbn [mul_row]. replace (p ++ (m' ++ [x]) ++ s) with ((p ++ m') ++ x :: s) by (by rewrite <- !app_assoc). rewrite <- (app_assoc q').
  cbn [app]. rewrite !idx_mid by (rewrite ?zlen_app; unfold zlen; lia). do 2 bind_step. cbv zeta.
  rewrite set_idx_mid by (rewrite zlen_app; unfold zlen; lia). bind_step.
  set (z := x + f * y + carry). assert (0 <= z <= 99) as Hz by nia. assert (0 <= z mod 10 <= 9) as Hd by (pose proof (Z.mod_pos_bound z 10); lia).
  rewrite digit_wrap by done. replace (zlen p + Z.of_nat (S j) - 1 - 1) with (zlen p + Z.of_nat j - 1) by lia. rewrite <- app_assoc.
  destruct (IH p m' (z mod 10 :: s) q' (y :: t) (z / 10) Hm Hq Dm Dq Hf ltac:(split; [apply Z.div_pos; lia|apply Z.lt_succ_r, Z.div_lt_upper_bound; lia]))
    as (r & c & -> & Hr & Dr & Hcc & Er).
  exists (r ++ [z mod 10]), c. rewrite <- (app_assoc r), length_app. split_and!; [done|cbn; lia|by apply digits_ok_snoc|lia..|].
  rewrite !dval_snoc, Nat2Z.inj_succ, Z.pow_succ_r by lia. pose proof (Z.div_mod z 10). lia.
Qed.

(** One step of the outer loop: the digits below the zeros in front gain the
    row of the next digit. *)
Lemma mul_loop_spec i : forall a1 a2 b r, length a1 = i -> digits_ok a1 -> digits_ok b -> zlen r = zlen b + zlen a2 + 1 -> digits_ok r ->
  dval r = dval a2 * dval b ->
  exists acc, mul_loop i (a1 ++ a2) b (zrep (Z.of_nat i + 1) 0 ++ r) = Ok acc /\ zlen acc = zlen a1 + zlen a2 + zlen b + 2 /\ digits_ok acc /\
    dval acc = dval (a1 ++ a2) * dval b.
Proof.
  induction i as [|i IH]; intros a1 a2 b r Hl Da Db Lr Dr Ev.
  { destruct a1; [|done]. eexists. split; [done|]. rewrite zlen_app, zlen_zrep, digits_ok_app, dval_app, dval_zrep by lia. change (zlen (@nil Z)) with 0. split_and!; [lia|done..]. }
  apply snoc_inv in Hl as (a1' & f & -> & Hl). apply digits_ok_snoc in Da as [Da Hf]. pose proof (zlen_nonneg a2). pose proof (zlen_nonneg b).
  destruct r as [|x r']; [rewrite zlen_nil in Lr; lia|]. apply Forall_cons in Dr as [Hx Dr]. rewrite zlen_cons in Lr.
  destruct (app_eq_split r' (length b)) as (m & s & -> & Hm); [unfold zlen in *; lia|]. apply digits_ok_app in Dr as [Dm Ds]. rewrite zlen_app in Lr.
  cbn [mul_loop]. rewrite <- (app_assoc a1'). cbn [app]. rewrite idx_mid by (unfold zlen; lia). bind_step.
  set (z := zrep (Z.of_nat i + 1) 0). assert (zrep (Z.of_nat (S i) + 1) 0 = z ++ [0]) as ->.
  { subst z. unfold zrep. replace (Z.to_nat (Z.of_nat (S i) + 1)) with (Z.to_nat (Z.of_nat i + 1) + 1)%nat by lia. by rewrite replicate_add. }
  assert (zlen z = Z.of_nat i + 1) as Lz by (subst z; apply zlen_zrep; lia).
  replace ((z ++ [0]) ++ x :: m ++ s) with ((z ++ [0; x]) ++ m ++ s) by (by rewrite <- !app_assoc).
  replace (Z.of_nat i + zlen b - 1 + 3) with (zlen (z ++ [0; x]) + Z.of_nat (length b) - 1) by (rewrite zlen_app, Lz; change (zlen [0; x]) with 2; unfold zlen; lia).
  destruct (mul_row_spec f (length b) (z ++ [0; x]) m s b [] 0 Hm eq_refl Dm Db Hf ltac:(lia)) as (m' & c & E & Hm' & Dm' & Hc & Ec).
  rewrite app_nil_r in E. rewrite E. bind_step. clear E. rewrite zlen_app, Lz. change (zlen [0; x]) with 2.
  replace ((z ++ [0; x]) ++ m' ++ s) with ((z ++ [0]) ++ x :: m' ++ s) by (by rewrite <- !app_assoc).
  rewrite idx_mid by (rewrite zlen_app, Lz; change (zlen [0]) with 1; lia). bind_step. cbv zeta. rewrite set_idx_mid by (rewrite zlen_app, Lz; change (zlen [0]) with 1; lia). bind_step.
  rewrite <- app_assoc. cbn [app]. rewrite idx_mid by lia. bind_step. rewrite set_idx_mid by lia. bind_step.
  assert (0 <= (x + c) mod 10 <= 9 /\ 0 <= (x + c) / 10 <= 1) as [Hd Hq].
  { pose proof (Z.mod_pos_bound (x + c) 10). split; [lia|]. split; [apply Z.div_pos; lia|]. apply Z.lt_succ_r, Z.div_lt_upper_bound; lia. }
  rewrite !digit_wrap by lia. rewrite Z.add_0_l.
  destruct (IH a1' (f :: a2) b ((x + c) / 10 :: (x + c) mod 10 :: m' ++ s) Hl Da Db) as (acc & E & La & Dacc & Eacc).
  - rewrite !zlen_cons, zlen_app. unfold zlen in *. lia.
  - constructor; [lia|]. constructor; [lia|]. apply Forall_app. done.
  - rewrite dval_cons in Ev. rewrite !dval_cons, dval_app in *. rewrite zlen_cons, zlen_app in *.
    assert (zlen m' = zlen b /\ zlen m = zlen b /\ zlen s = zlen a2) as (-> & Em & Es) by (unfold zlen in *; lia). rewrite Em, Es in *.
    rewrite !Z.pow_add_r in * by lia. fold (zlen b) in Ec. pose proof (Z.div_mod (x + c) 10 ltac:(lia)) as Hdm.
    set (u := 10 ^ zlen b) in *. set (v := 10 ^ zlen a2) in *. change (10 ^ 1) with 10.
    transitivity ((x + c) * (u * v) + (dval m' * v + dval s)); [rewrite Hdm at 3; ring|]. replace (dval m') with (dval m + f * dval b - c * u) by lia. lia.
  - exists acc. split; [exact E|]. rewrite zlen_cons in La. rewrite zlen_app. change (zlen [f]) with 1. split_and!; [lia|done..].
Qed.

Lemma trim_spec min fuel : forall ds frac, digits_ok ds -> 0 <= min -> min <= frac <= zlen ds -> (length ds <= fuel)%nat ->
  exists ds' frac', trim fuel min ds frac = Ok (ds', frac') /\ digits_ok ds' /\ min <= frac' <= zlen ds' /\ frac' <= frac /\
    dval ds = dval ds' * 10 ^ (frac - frac').
Proof.
  induction fuel as [|fuel IH]; intros ds frac Dd Hm Hf Hl; cbn [trim]; destruct (Z.ltb_spec min frac).
  - destruct ds; cbn in Hl; [|lia]. rewrite zlen_nil in Hf. lia.
  - exists ds, frac. rewrite Z.sub_diag. split_and!; try done; lia.
  - destruct ds as [|d ds _] using rev_ind; [change (zlen (@nil Z)) with 0 in Hf; lia|]. rewrite last_snoc. apply digits_ok_snoc in Dd as [Dd Hd].
    destruct (Z.eqb_spec d 0) as [->|]; [|exists (ds ++ [d]), frac; rewrite Z.sub_diag; split_and!; try done; [by apply digits_ok_snoc|lia..]].
    rewrite length_app in Hl. cbn in Hl. rewrite (take_app_length' ds [0]) by (rewrite length_app; cbn; lia). rewrite zlen_snoc in Hf.
    destruct (IH ds (frac - 1) Dd Hm ltac:(lia) ltac:(lia)) as (ds' & frac' & -> & D' & F' & Hle & Ev). exists ds', frac'. split_and!; try done; try lia.
    rewrite dval_snoc, Ev. replace (frac - frac') with (frac - 1 - frac' + 1) by lia. rewrite Z.pow_add_r by lia. lia.
  - exists ds, frac. rewrite Z.sub_diag. split_and!; try done; lia.
Qed.

Lemma mul_exact a b : wf a -> wf b -> exists c, mul a b = Ok c /\ wf c /\ (value c == value a * value b)%Q.
Proof.
  intros [Da Fa] [Db Fb]. unfold mul. pose proof (zlen_nonneg (digits b)).
  destruct (mul_loop_spec (length (digits a)) (digits a) [] (digits b) (zrep (zlen (digits b) + 1) 0) eq_refl Da Db) as (acc & E & La & Dacc & Ev); [|auto|by rewrite dval_zrep|].
  { rewrite zlen_zrep by lia. change (zlen (@nil Z)) with 0. lia. }
  rewrite app_nil_r in E, Ev. change (zlen (@nil Z)) with 0 in La.
  assert (zrep (Z.of_nat (length (digits a)) + 1) 0 ++ zrep (zlen (digits b) + 1) 0 = zrep (zlen (digits a) + zlen (digits b) + 2) 0) as Ez.
  { unfold zrep. rewrite <- replicate_add. f_equal. unfold zlen. lia. }
  rewrite Ez in E. cbv zeta. rewrite E. bind_step.
  destruct (trim_spec (Z.min (n_frac a) (n_frac b)) (length acc) acc (n_frac a + n_frac b) Dacc) as (ds & frac & -> & Dd & Hf & Hle & Et); [lia..|]. bind_step.
  eexists. split; [done|]. split; [split; [done|cbn; lia]|]. unfold value. rewrite scale_mul. cbn [n_frac]. 
  rewrite <- (scale_shift _ frac (n_frac a + n_frac b - frac)) by lia. replace (frac + (n_frac a + n_frac b - frac)) with (n_frac a + n_frac b) by lia.
  f_equiv. unfold signed. cbn [sign digits]. rewrite Ev in Et. destruct (sign a), (sign b); cbn [xorb]; rewrite <- ?Z.mul_opp_l in *; lia.
Qed.

End Decimal.
