(* ===== verification/DecimalProps.v ===== *)
(** Decimals, continued: parsing and rendering are exact, as are the expansions
    of powers of two and of doubles; what comparison decides. *)

From Stdlib Require Import QArith Qpower.
From S2P Require Import Prelude Value Decimal.
Local Open Scope Z_scope.

Module DecimalProps.
Import Decimal.

(** ** Parsing *)

Lemma is_digit_range c : is_ascii_digit c = true <-> 0 <= c - 48 <= 9.
Proof. unfold is_ascii_digit. rewrite andb_true_iff, !Z.leb_le. lia. Qed.

Lemma is_digit_ascii d : 0 <= d <= 9 -> is_ascii_digit (d + 48) = true.
Proof. intros. apply is_digit_range. lia. Qed.

Lemma scan_wf s : forall ds nf ds' nf' e, scan s ds nf = (ds', nf', e) -> digits_ok ds -> 0 <= nf <= zlen ds + 1 ->
  digits_ok ds' /\ 0 <= nf' <= zlen ds' + 1.
Proof.
  induction s as [|c s IH]; intros ds nf ds' nf' e; cbn [scan]; [intros [= <- <- <-]; done|]. intros E Hd Hn.
  destruct (is_ascii_digit c) eqn:Ec; [apply is_digit_range in Ec; apply IH in E; [done|by apply digits_ok_snoc|rewrite zlen_snoc; lia]|].
  destruct (c =? 46); [apply IH in E; try done; pose proof (zlen_nonneg ds); lia|]. destruct ((c =? 101) || (c =? 69)); [injection E as <- <- <-; done|]. by apply IH in E.
Qed.

Lemma apply_exp_spec ds f e : digits_ok ds -> 0 <= f <= zlen ds -> exists ds' f', apply_exp ds f e = (ds', f') /\ digits_ok ds' /\ 0 <= f' <= zlen ds' /\
  (forall s : bool, (scale (if s then - dval ds' else dval ds') f' == scale (if s then - dval ds else dval ds) (f - e))%Q).
Proof.
  intros Hd Hf. unfold apply_exp. destruct (Z.ltb_spec 0 e) as [He|He]; [|destruct (Z.ltb_spec e 0) as [He'|He']].
  - assert (forall g k, (if 0 <? f then if e <=? f then (f - e, 0) else (0, e - f) else (f, e)) = (g, k) -> 0 <= k /\ 0 <= g <= f /\ f + k = g + e) as Hc.
    { intros g k. destruct (Z.ltb_spec 0 f); [destruct (Z.leb_spec e f)|]; intros [= <- <-]; lia. }
    destruct (if 0 <? f then if e <=? f then (f - e, 0) else (0, e - f) else (f, e)) as [g k]. destruct (Hc g k eq_refl) as (Hk & Hg & Hs).
    eexists _, _. split; [done|]. destruct (Z.ltb_spec 0 k).
    + rewrite digits_ok_app, zlen_app, zlen_zrep, dval_app, dval_zrep, zlen_zrep by lia. split_and!; try done; try lia. intros s.
      rewrite <- (scale_shift _ (f - e) k) by done. replace (f - e + k) with g by lia. f_equiv. destruct s; rewrite <- ?Z.mul_opp_l; lia.
    + split_and!; try done; try lia. intros s. by replace g with (f - e) by lia.
  - cbv zeta. set (x := zlen ds - f - 1).
    assert (forall g k, (if negb (x =? 0) then if - e <=? x then (f + - e, 0) else (zlen ds - 1, - e - x) else (f, - e)) = (g, k) -> 0 <= k /\ g + k = f - e /\ (k = 0 -> g <= zlen ds)) as Hc.
    { intros g k. destruct (Z.eqb_spec x 0); cbn [negb]; [|destruct (Z.leb_spec (- e) x)]; intros [= <- <-]; lia. }
    destruct (if negb (x =? 0) then if - e <=? x then (f + - e, 0) else (zlen ds - 1, - e - x) else (f, - e)) as [g k] eqn:Eg. destruct (Hc g k eq_refl) as (Hk & Hg & Hs).
    destruct (Z.ltb_spec 0 k).
    + eexists _, _. split; [done|]. rewrite digits_ok_app, zlen_app, zlen_zrep, dval_app, dval_zrep, Hg by lia. split_and!; try done; try lia.
      destruct (Z.eqb_spec x 0); cbn [negb] in Eg; [|destruct (Z.leb_spec (- e) x)]; injection Eg as <- <-; lia.
    + eexists _, _. split; [done|]. split_and!; try done; try lia. intros s. by replace g with (f - e) by lia.
  - eexists _, _. split; [done|]. split_and!; try done; try lia. intros s. by replace (f - e) with f by lia.
Qed.

Lemma from_bytes_scan text : exists ds f e, scan (skip_while (Z.eqb 48) (take_sign (skip_while is_space text)).2) [] 0 = (ds, f, e) /\
  digits_ok ds /\ 0 <= f <= zlen ds + 1 /\ wf (from_bytes text) /\ sign (from_bytes text) = (take_sign (skip_while is_space text)).1 /\
  (value (from_bytes text) == scale (if (take_sign (skip_while is_space text)).1 then - dval ds else dval ds) ((if (f =? 0)%Z then 0 else zlen ds - (f - 1)) - e))%Q.
Proof.
  unfold from_bytes. destruct (take_sign (skip_while is_space text)) as [sg s]. cbn [fst snd]. destruct (scan (skip_while (Z.eqb 48) s) [] 0) as [[ds f] e] eqn:E.
  exists ds, f, e. destruct (scan_wf _ [] 0 ds f e E (List.Forall_nil _) ltac:(change (zlen (@nil Z)) with 0; lia)) as [Hd Hf]. split_and!; try done; try lia; destruct (apply_exp_spec ds (if f =? 0 then 0 else zlen ds - (f - 1)) e Hd) as (ds' & f' & -> & Hd' & Hf' & Hv);
    try (pose proof (zlen_nonneg ds); destruct (Z.eqb_spec f 0); lia); try done; cbn [digits n_frac sign].
  unfold value, signed. cbn [digits n_frac sign]. apply Hv.
Qed.

Lemma from_bytes_wf text : wf (from_bytes text).
Proof. by destruct (from_bytes_scan text) as (ds & f & e & _ & _ & _ & Hw & _). Qed.

Lemma scan_ascii ds : forall s acc f, digits_ok ds -> scan (ascii ds ++ s) acc f = scan s (acc ++ ds) f.
Proof.
  induction ds as [|d ds IH]; intros s acc f; [by rewrite app_nil_r|]. intros [Hd Hds]%Forall_cons. cbn [ascii fmap list_fmap app scan].
  rewrite is_digit_ascii, Z.add_simpl_r by done. fold (ascii ds). rewrite IH by done. by rewrite <- app_assoc.
Qed.

Lemma exp_loop_ascii ds : forall v, digits_ok ds -> 0 <= v -> v * 10 ^ zlen ds + dval ds < 10000000 -> exp_loop (ascii ds) v = v * 10 ^ zlen ds + dval ds.
Proof.
  induction ds as [|d ds IH]; intros v; [intros _ _ _; change (v = v * 1 + 0); lia|]. intros [Hd Hds]%Forall_cons Hv. pose proof (dval_bound ds Hds). pose proof (zlen_nonneg ds).
  rewrite zlen_cons, dval_cons, Z.pow_add_r, Z.pow_1_r by lia. intros Hb. cbn [ascii fmap list_fmap exp_loop]. fold (ascii ds).
  assert (v < 1000000) as Hlt by nia. destruct (Z.ltb_spec v 1000000); [|lia]. rewrite is_digit_ascii, Z.add_simpl_r by done. rewrite IH; [lia|done|lia|lia].
Qed.

Lemma take_sign_text s t : (forall c r, t = c :: r -> c <> 45 /\ c <> 43) -> take_sign (sign_text s ++ t) = (if s is Some true then true else false, t).
Proof.
  intros Ht. destruct s as [[|]|]; [done..|]. destruct t as [|c t]; [done|]. destruct (Ht c t eq_refl) as [H1 H2]. cbn. unfold take_sign.
  repeat (case_match; try done).
Qed.

Lemma ascii_head ds : digits_ok ds -> forall c r, ascii ds = c :: r -> 48 <= c <= 57.
Proof. intros Hd c r. destruct Hd; [done|]. cbn. intros [= <- _]. lia. Qed.

Lemma exponent_text s ds : digits_ok ds -> dval ds < 10000000 -> exponent (sign_text s ++ ascii ds) = if s is Some true then - dval ds else dval ds.
Proof.
  intros Hd Hb. assert (exp_loop (ascii ds) 0 = dval ds) as E by (rewrite exp_loop_ascii; [lia|done|lia|lia]). unfold exponent.
  rewrite take_sign_text by (intros c r Hc; apply ascii_head in Hc; [lia|done]). rewrite E.
  destruct s as [[|]|]; [done..|]. destruct ds as [|d ds]; [done|]. done.
Qed.

(** The digits after the zeros in front, which the parser drops. *)
Lemma skip_zero_digits ds s : digits_ok ds -> (forall c r, s = c :: r -> c <> 48) -> exists k, ds = zrep k 0 ++ drop (Z.to_nat k) ds /\
  skip_while (Z.eqb 48) (ascii ds ++ s) = ascii (drop (Z.to_nat k) ds) ++ s.
Proof.
  intros Hd Hs. induction Hd as [|d ds Hd Hds (k & E & Es)].
  - exists 0. split; [done|]. cbn. destruct s as [|c r]; [done|]. cbn [skip_while]. destruct (Z.eqb_spec 48 c) as [<-|]; [|done]. by destruct (Hs 48 r eq_refl).
  - cbn [ascii fmap list_fmap app skip_while]. destruct (Z.eqb_spec 48 (d + 48)).
    + exists (Z.max 0 k + 1). assert (d = 0) as -> by lia. replace (Z.to_nat (Z.max 0 k + 1)) with (S (Z.to_nat k)) by lia. cbn [drop].
      split; [|done]. unfold zrep. replace (Z.to_nat (Z.max 0 k + 1)) with (S (Z.to_nat k)) by lia. cbn [replicate app]. by rewrite E at 1.
    + exists 0. done.
Qed.

Lemma skip_spaces sp s : Forall (fun c => is_space c = true) sp -> (forall c r, s = c :: r -> is_space c = false) -> skip_while is_space (sp ++ s) = s.
Proof.
  intros Hsp Hs. induction Hsp as [|c sp Hc Hsp IH]; cbn [app skip_while]; [|by rewrite Hc].
  destruct s as [|c r]; [done|]. cbn [skip_while]. by rewrite (Hs c r eq_refl).
Qed.

Lemma scan_exponent ds f ex : (forall es ed, ex = Some (es, ed) -> digits_ok ed /\ dval ed < 10000000) ->
  scan (match ex with Some (es, ed) => 101 :: sign_text es ++ ascii ed | None => [] end) ds f
  = (ds, f, match ex with Some (Some true, ed) => - dval ed | Some (_, ed) => dval ed | None => 0 end).
Proof.
  intros He. destruct ex as [[es ed]|]; [|done]. destruct (He es ed eq_refl) as [Hd Hb]. cbn [scan]. change (is_ascii_digit 101) with false.
  change (101 =? 46) with false. change ((101 =? 101) || (101 =? 69)) with true. cbv iota. rewrite exponent_text by done. by destruct es as [[|]|].
Qed.

Lemma numeral_head s ip fp ex : digits_ok ip -> forall c r, numeral s ip fp ex = c :: r -> is_space c = false.
Proof.
  intros Hi c r. unfold numeral, is_space. intros E. apply bool_decide_eq_false_2.
  assert (43 <= c) by (destruct s as [[|]|]; destruct ip as [|i ip]; [..|apply Forall_cons in Hi as [Hi _]]; try (destruct fp, ex as [[??]|]); cbn in E; (discriminate E || (injection E as <- _; lia))).
  rewrite !elem_of_cons, elem_of_nil. lia.
Qed.

(** Parsing is exact. *)
Lemma from_bytes_numeral sp s ip fp ex : Forall (fun c => is_space c = true) sp -> digits_ok ip -> digits_ok (default [] fp) ->
  (forall es ed, ex = Some (es, ed) -> digits_ok ed /\ dval ed < 10000000) ->
  (value (from_bytes (sp ++ numeral s ip fp ex)) == numeral_value s ip fp ex)%Q.
Proof.
  intros Hsp Hi Hf He. destruct (from_bytes_scan (sp ++ numeral s ip fp ex)) as (ds & f & e & E & _ & _ & _ & _ & ->).
  rewrite skip_spaces in * by (try done; by apply numeral_head). set (tail := match ex with Some (es, ed) => 101 :: sign_text es ++ ascii ed | None => [] end).
  assert (forall c r, match fp with Some f => 46 :: ascii f | None => [] end ++ tail = c :: r -> c = 46 \/ c = 101) as Ht.
  { intros c r. subst tail. destruct fp, ex as [[??]|]; cbn; intros [= <- _]; auto. }
  assert (take_sign (numeral s ip fp ex) = (if s is Some true then true else false, ascii ip ++ match fp with Some f => 46 :: ascii f | None => [] end ++ tail)) as Es.
  { unfold numeral. apply take_sign_text. intros c r Hc. destruct ip as [|i ip]; [cbn in Hc; fold tail in Hc; apply Ht in Hc; lia|].
    apply Forall_cons in Hi as [Hi _]. cbn in Hc. injection Hc as <- _. lia. }
  rewrite Es in *. cbn [fst snd] in *. destruct (skip_zero_digits ip (match fp with Some f => 46 :: ascii f | None => [] end ++ tail) Hi) as (k & Ek & Esk); [intros c r Hc; apply Ht in Hc; lia|].
  rewrite Esk in E. set (ip' := drop (Z.to_nat k) ip) in *. assert (digits_ok ip') as Hi' by (by apply Forall_drop). rewrite scan_ascii in E by done. cbn [app] in E.
  assert (dval (ip ++ default [] fp) = dval (ip' ++ default [] fp)) as Ev by (rewrite Ek; rewrite <- app_assoc, (dval_app (zrep k 0)), dval_zrep; lia).
  unfold numeral_value. rewrite Ev. destruct fp as [fp|]; cbn [default] in *.
  - cbn [app scan] in E. change (is_ascii_digit 46) with false in E. change (46 =? 46) with true in E. cbv iota in E. rewrite scan_ascii in E by done.
    subst tail. rewrite scan_exponent in E by done. injection E as <- <- <-. pose proof (zlen_nonneg ip'). destruct (Z.eqb_spec (zlen ip' + 1) 0); [lia|].
    rewrite zlen_app. replace (zlen ip' + zlen fp - (zlen ip' + 1 - 1)) with (zlen fp) by lia. by destruct s as [[|]|].
  - cbn [app] in E. subst tail. rewrite scan_exponent in E by done. injection E as <- <- <-. rewrite app_nil_r. by destruct s as [[|]|].
Qed.

(** ** Powers of two and doubles *)

Lemma dec_digits_spec fuel : forall mag acc, 0 <= mag < 10 ^ Z.of_nat fuel -> (0 < fuel)%nat ->
  exists ds, dec_digits fuel mag acc = Ok (ascii ds ++ acc) /\ digits_ok ds /\ dval ds = mag /\ ds <> [].
Proof.
  induction fuel as [|fuel IH]; intros mag acc Hm Hf; [lia|]. cbn [dec_digits]. cbv zeta. pose proof (Z.mod_pos_bound mag 10 ltac:(lia)). pose proof (Z.div_mod mag 10 ltac:(lia)).
  destruct (Z.eqb_spec (mag / 10) 0) as [E|E].
  - exists [mag mod 10]. split_and!; [done|constructor; [lia|constructor]|cbn; lia|done].
  - assert (0 <= mag / 10 < 10 ^ Z.of_nat fuel) as Hd.
    { rewrite Nat2Z.inj_succ, Z.pow_succ_r in Hm by lia. split; [apply Z.div_pos; lia|apply Z.div_lt_upper_bound; lia]. }
    assert (0 < fuel)%nat as Hf' by (destruct fuel; [change (10 ^ Z.of_nat 0) with 1 in Hd; lia|lia]).
    destruct (IH (mag / 10) (mag mod 10 + 48 :: acc) Hd Hf') as (ds & -> & Hds & Ev & Hn). exists (ds ++ [mag mod 10]).
    split_and!; [unfold ascii; by rewrite fmap_app, <- app_assoc|apply digits_ok_snoc; split; [done|lia]|rewrite dval_snoc; lia|by destruct ds].
Qed.

Lemma int_to_string_value m : Z.abs m < 2 ^ 64 -> exists t, int_to_string m = Ok t /\ (value (from_bytes t) == inject_Z m)%Q.
Proof.
  intros Hm. unfold int_to_string. destruct (dec_digits_spec 20 (Z.abs m) []) as (ds & -> & Hd & Ev & _); [change (10 ^ Z.of_nat 20) with 100000000000000000000; lia|lia|].
  bind_step. eexists. split; [done|]. rewrite app_nil_r.
  transitivity (numeral_value (if m <? 0 then Some true else None) ds None None).
  - assert ((if m <? 0 then [45] else []) ++ ascii ds = [] ++ numeral (if m <? 0 then Some true else None) ds None None) as ->
      by (unfold numeral; rewrite !app_nil_r; by destruct (m <? 0)).
    apply from_bytes_numeral; [constructor|done|constructor|done].
  - unfold numeral_value, scale. cbn [default]. rewrite app_nil_r, Ev. change (zlen (@nil Z)) with 0. cbn [Z.sub Z.add Z.opp Qpower]. rewrite Qmult_1_r. f_equiv. destruct (Z.ltb_spec m 0); lia.
Qed.

Lemma land_one a : Z.land a 1 = a mod 2.
Proof. exact (land_ones_mod a 1 ltac:(lia)). Qed.

Lemma pow_loop_spec fuel : forall a x n, wf a -> wf x -> 0 < n < 2 ^ Z.of_nat fuel ->
  exists d, pow_loop fuel a x n = Ok d /\ wf d /\ (value d == value a * value x ^ n)%Q.
Proof.
  induction fuel as [|fuel IH]; intros a x n Ha Hx Hn; [change (2 ^ Z.of_nat 0) with 1 in Hn; lia|]. cbn [pow_loop]. cbv zeta.
  rewrite Nat2Z.inj_succ, Z.pow_succ_r in Hn by lia. rewrite land_one, Z.shiftr_div_pow2 by lia. change (2 ^ 1) with 2.
  pose proof (Z.mod_pos_bound n 2 ltac:(lia)) as Hr. pose proof (Z.div_mod n 2 ltac:(lia)) as Hdm. set (q := n / 2) in *. set (r := n mod 2) in *.
  assert (exists a', (if negb (r =? 0) then mul a x else Ok a) = Ok a' /\ wf a' /\ (value a' == value a * value x ^ r)%Q) as (a' & -> & Ha' & Ea').
  { destruct (Z.eqb_spec r 0) as [->|]; cbn [negb].
    - exists a. split_and!; [done|apply Ha..|]. change (value x ^ 0)%Q with 1%Q. ring.
    - assert (r = 1) as -> by lia. destruct (mul_exact a x Ha Hx) as (c & E & Hc & Ev). exists c. split_and!; [done|apply Hc..|]. rewrite Ev. change (value x ^ 1)%Q with (value x). reflexivity. }
  bind_step. destruct (Z.eqb_spec q 0) as [Eq|Eq].
  - exists a'. split_and!; [done|apply Ha'..|]. replace n with r by lia. done.
  - destruct (mul_exact x x Hx Hx) as (x2 & -> & Hx2 & Ex2). bind_step. destruct (IH a' x2 q Ha' Hx2 ltac:(lia)) as (d & -> & Hd & Ed).
    exists d. split_and!; [done|apply Hd..|]. rewrite Ed, Ea', Ex2, Hdm.
    assert (value x ^ (2 * q + r) == (value x * value x) ^ q * value x ^ r)%Q as ->; [|ring].
    destruct (Qeq_dec (value x) 0) as [Ez|Ez].
    + rewrite !Ez. change (0 * 0)%Q with 0%Q. rewrite !Qpower_0 by lia. ring.
    + rewrite Qpower_plus by done. f_equiv. rewrite Qpower_mult. f_equiv.
Qed.

Lemma from_pow2_spec n : -20000 <= n <= 20000 -> exists d, from_pow2 n = Ok (Some d) /\ wf d /\ (value d == 2 ^ n)%Q.
Proof.
  intros Hn. unfold from_pow2. destruct (Z.leb_spec (-20000) n); [|lia]. destruct (Z.leb_spec n 20000); [|lia]. cbn [andb negb].
  assert (value (from_bytes one_text) == 1)%Q as E1 by (vm_compute; reflexivity).
  destruct (Z.eqb_spec n 0) as [->|Hz]; [eexists; split_and!; [done|apply from_bytes_wf..|exact E1]|].
  assert (forall x k, 0 < k <= 20000 -> exists d, pow_loop 15 (from_bytes one_text) (from_bytes x) k = Ok d /\ wf d /\ (value d == value (from_bytes x) ^ k)%Q) as Hp.
  { intros x k Hk. destruct (pow_loop_spec 15 (from_bytes one_text) (from_bytes x) k) as (d & E & Hd & Ev); [apply from_bytes_wf..|change (2 ^ Z.of_nat 15) with 32768; lia|].
    exists d. split_and!; [done|apply Hd..|]. rewrite Ev, E1. ring. }
  destruct (Z.ltb_spec 0 n).
  - destruct (Hp two_text n ltac:(lia)) as (d & -> & Hd & Ev). exists d. split_and!; [done|apply Hd..|]. rewrite Ev. f_equiv. vm_compute. reflexivity.
  - destruct (Hp half_text (- n) ltac:(lia)) as (d & -> & Hd & Ev). exists d. split_and!; [done|apply Hd..|]. rewrite Ev.
    assert (value (from_bytes half_text) == / 2)%Q as -> by (vm_compute; reflexivity). rewrite Qinv_power, <- Qpower_opp. by rewrite Z.opp_involutive.
Qed.

Lemma strip_twos_spec fuel : forall mm ee, 0 <= mm < 2 ^ (Z.of_nat fuel + 1) -> exists mm' k, strip_twos fuel mm ee = Ok (mm', ee + k) /\
  0 <= k /\ mm = mm' * 2 ^ k /\ ee + k <= Z.max ee 1075.
Proof.
  induction fuel as [|fuel IH]; intros mm ee Hm; cbn [strip_twos]; rewrite land_one;
    pose proof (Z.div_mod mm 2 ltac:(lia)) as Hd; pose proof (Z.mod_pos_bound mm 2 ltac:(lia)) as Hr;
    destruct ((ee <? 1075) && (0 <? mm) && (mm mod 2 =? 0)) eqn:E; try (exists mm, 0; rewrite Z.add_0_r; change (2 ^ 0) with 1; split_and!; [done|lia..]);
    rewrite !andb_true_iff, !Z.ltb_lt, Z.eqb_eq in E.
  - change (2 ^ (Z.of_nat 0 + 1)) with 2 in Hm. lia.
  - rewrite Z.shiftr_div_pow2 by lia. change (2 ^ 1) with 2. destruct (IH (mm / 2) (ee + 1)) as (mm' & k & -> & Hk & Ev & Hle).
    { replace (Z.of_nat (S fuel) + 1) with (Z.of_nat fuel + 1 + 1) in Hm by lia. rewrite Z.pow_add_r, Z.pow_1_r in Hm by lia. lia. }
    exists mm', (k + 1). split_and!; [f_equal; f_equal; lia|lia| |lia]. rewrite Z.pow_add_r, Z.pow_1_r by lia. lia.
Qed.

Lemma lxor_top r : 2 ^ 63 <= r < 2 ^ 64 -> Z.lxor r (2 ^ 63) = r - 2 ^ 63.
Proof.
  intros Hr. assert (Z.land (r - 2 ^ 63) (2 ^ 63) = 0) as Hl.
  { apply Z.bits_inj'. intros n Hn. rewrite Z.land_spec, Z.bits_0, Z.pow2_bits_eqb by lia. destruct (Z.eqb_spec 63 n) as [<-|]; [|by rewrite andb_false_r].
    by rewrite (testbit_above_width (r - 2 ^ 63) 63) by lia. }
  replace r with (Z.lxor (r - 2 ^ 63) (2 ^ 63)) at 1 by (rewrite <- Z.add_nocarry_lxor by done; lia).
  by rewrite Z.lxor_assoc, Z.lxor_nilpotent, Z.lxor_0_r.
Qed.

(** The fields of a pattern. *)
Lemma f64_fields r : is_u64 r -> exists (neg : bool) ex frac, r = (if neg then 2 ^ 63 else 0) + ex * 2 ^ 52 + frac /\ 0 <= ex < 2 ^ 11 /\ 0 <= frac < 2 ^ 52 /\
  Z.testbit r 63 = neg /\ Z.land (Z.shiftr r 52) 0x7ff = ex /\ Z.land r (2 ^ 52 - 1) = frac.
Proof.
  unfold is_u64, is_uint. intros Hr. exists (Z.testbit r 63), (Z.land (Z.shiftr r 52) 0x7ff), (Z.land r (2 ^ 52 - 1)).
  change 0x7ff with (2 ^ 11 - 1). rewrite !land_ones_mod, Z.shiftr_div_pow2, Z.testbit_eqb by lia.
  pose proof (Z.div_mod r (2 ^ 52) ltac:(lia)). pose proof (Z.mod_pos_bound r (2 ^ 52) ltac:(lia)). set (h := r / 2 ^ 52) in *.
  pose proof (Z.div_mod h (2 ^ 11) ltac:(lia)). pose proof (Z.mod_pos_bound h (2 ^ 11) ltac:(lia)).
  assert (r / 2 ^ 63 = h / 2 ^ 11) as -> by (subst h; rewrite Z.div_div by lia; done).
  assert (0 <= h / 2 ^ 11 < 2) as Hb by lia. split_and!; try done; try lia.
  assert (h / 2 ^ 11 = 0 \/ h / 2 ^ 11 = 1) as [E|E] by lia; rewrite E in *; cbn [Z.modulo]; [change (0 mod 2 =? 1) with false|change (1 mod 2 =? 1) with true]; lia.
Qed.

Lemma double_parts_spec r m e : is_u64 r -> r <> 2 ^ 63 -> Value.f64_class r = Value.FFin m e ->
  exists m' e', double_parts r = Ok (Some (m', e')) /\ Z.abs m' < 2 ^ 54 /\ -1075 <= e' <= 971 /\ (inject_Z m' * 2 ^ e' == inject_Z m * 2 ^ e)%Q.
Proof.
  intros Hr Hz Hc. destruct (f64_fields r Hr) as (neg & ex & frac & Er & Hx & Hf & Et & Ex & Ef).
  assert (Value.f64_key r = Some (m * 2 ^ (e + 1074))) as Hk by (unfold Value.f64_key; by rewrite Hc).
  unfold Value.f64_class in Hc. rewrite Et, Ex, Ef in Hc. cbv zeta in Hc. destruct (Z.eqb_spec ex 0x7ff); [by destruct (frac =? 0)|].
  assert (m = (if neg then -1 else 1) * ((if ex =? 0 then 0 else 2 ^ 52) + frac) /\ e = (if ex =? 0 then -1074 else ex - 1075)) as [Em Ee].
  { destruct (Z.eqb_spec ex 0); injection Hc as <- <-; split; try done; destruct neg; lia. }
  clear Hc. assert (-1074 <= e) as He by (rewrite Ee; destruct (Z.eqb_spec ex 0); lia).
  assert (bool_decide (Value.f64_partial_cmp r 0 = Some Lt) = neg) as Hneg.
  { unfold Value.f64_partial_cmp. rewrite Hk. change (Value.f64_key 0) with (Some 0). assert (0 < 2 ^ (e + 1074)) by (apply Z.pow_pos_nonneg; lia). destruct neg.
    - apply bool_decide_eq_true_2. f_equal. apply Z.compare_lt_iff. assert (m < 0) by (rewrite Em; destruct (Z.eqb_spec ex 0); lia). nia.
    - apply bool_decide_eq_false_2. intros [= Hlt]. change (m * 2 ^ (e + 1074) < 0) in Hlt. assert (0 <= m) by (rewrite Em; destruct (Z.eqb_spec ex 0); lia). nia. }
  unfold double_parts. rewrite Hneg. cbv zeta. set (a := to_signed 64 (if neg then Z.lxor r (2 ^ 63) else r)).
  assert (a = ex * 2 ^ 52 + frac) as Ea.
  { subst a. rewrite to_signed_small; [|lia|]; (destruct neg; [rewrite lxor_top by lia|]); lia. }
  assert (Z.shiftr a 52 = ex /\ Z.land a (2 ^ 52 - 1) = frac) as [-> ->].
  { rewrite Z.shiftr_div_pow2, land_ones_mod by lia. split; [symmetry; apply (Z.div_unique a (2 ^ 52) ex frac)|symmetry; apply (Z.mod_unique a (2 ^ 52) ex frac)]; lia. }
  destruct (Z.eqb_spec a 0) as [E0|E0].
  { exists 0, 0. split_and!; [done|lia..|]. assert (ex = 0 /\ frac = 0) as [-> ->] by lia. cbn in Em. replace m with 0 by (destruct neg; lia). ring. }
  rewrite (lor_pow2_add frac 52), Z.shiftl_mul_pow2 by lia. set (mm := if ex =? 0 then frac * 2 ^ 1 else frac + 2 ^ 52).
  destruct (strip_twos_spec 53 mm ex) as (mm' & k & -> & Hkk & Emm & Hle); [subst mm; change (Z.of_nat 53 + 1) with 54; destruct (ex =? 0); lia|].
  bind_step. cbv zeta. destruct (Z.ltb_spec 971 (ex + k - 1075)); [lia|].
  assert (0 < 2 ^ k) by (apply Z.pow_pos_nonneg; lia). assert (0 <= mm' <= mm) as Hmm by (assert (0 <= mm) by (subst mm; destruct (ex =? 0); lia); nia).
  eexists _, _. split; [done|]. split; [subst mm; destruct (ex =? 0), neg; lia|]. split; [lia|].
  assert (inject_Z mm' * 2 ^ (ex + k - 1075) == inject_Z mm * 2 ^ (ex - 1075))%Q as Hq.
  { rewrite Emm, inject_Z_mult, Zpower_Qpower, <- Qmult_assoc, <- Qpower_plus by (try discriminate; lia). by replace (k + (ex - 1075)) with (ex + k - 1075) by lia. }
  assert (inject_Z mm * 2 ^ (ex - 1075) == inject_Z ((if ex =? 0 then 0 else 2 ^ 52) + frac) * 2 ^ e)%Q as Hq2.
  { rewrite Ee. subst mm. destruct (Z.eqb_spec ex 0) as [->|]; [|by rewrite Z.add_comm]. rewrite inject_Z_mult, <- Qmult_assoc, Z.add_0_l. f_equiv. change (inject_Z (2 ^ 1)) with (2 ^ 1)%Q. by rewrite <- Qpower_plus by discriminate. }
  rewrite Em, inject_Z_mult, <- Qmult_assoc, <- Hq2, <- Hq. destruct neg; rewrite ?inject_Z_opp; change (inject_Z (-1)) with (- (1))%Q; change (inject_Z 1) with 1%Q; ring.
Qed.

Lemma from_parts r m e : double_parts r = Ok (Some (m, e)) -> Z.abs m < 2 ^ 64 -> -20000 <= e <= 20000 ->
  exists d, from_double r = Ok (Some d) /\ wf d /\ (value d == inject_Z m * 2 ^ e)%Q.
Proof.
  intros E Hm He. unfold from_double. rewrite E. bind_step. destruct (int_to_string_value m Hm) as (t & -> & Ht). bind_step. cbv zeta.
  destruct (from_pow2_spec e He) as (p & -> & Hp & Ep). bind_step. destruct (mul_exact (from_bytes t) p (from_bytes_wf t) Hp) as (d & -> & Hd & Ed). bind_step.
  exists d. split_and!; [done|apply Hd..|]. by rewrite Ed, Ht, Ep.
Qed.

(** ** Rendering *)

Lemma emit_spec k : forall ds j, 0 <= j -> j + Z.of_nat k <= zlen ds -> emit k ds j = Ok (ascii (Prelude.sub ds j (j + Z.of_nat k))).
Proof.
  induction k as [|k IH]; intros ds j Hj Hk; cbn [emit]; [by rewrite Z.add_0_r, sub_nil|].
  destruct (idx_in_range ds j ltac:(lia)) as [d Hd]. rewrite Hd. bind_step. rewrite IH by lia. bind_step.
  rewrite (sub_cons ds j (j + Z.of_nat (S k)) d) by (try done; lia). cbn. by replace (j + 1 + Z.of_nat k) with (j + Z.of_nat (S k)) by lia.
Qed.

Lemma skip_zeros_spec fuel ds : forall j n, 0 <= j -> 0 <= n -> j + n <= zlen ds -> n <= Z.of_nat fuel -> exists k, 0 <= k /\ skip_zeros fuel ds j n = Ok (j + k, n - k) /\
  (0 < n -> 1 <= n - k) /\ (n = 0 -> k = 0) /\ dval (Prelude.sub ds j (j + k)) = 0.
Proof.
  induction fuel as [|fuel IH]; intros j n Hj Hn Hle Hf; cbn [skip_zeros]; (destruct (Z.ltb_spec 1 n); [|exists 0; rewrite Z.add_0_r, Z.sub_0_r, sub_nil; split_and!; [done..|lia|done|done]]); [lia|].
  destruct (idx_in_range ds j ltac:(lia)) as [d Hd]. rewrite Hd. bind_step. destruct (Z.eqb_spec d 0) as [->|]; [|exists 0; rewrite Z.add_0_r, Z.sub_0_r, sub_nil; split_and!; [done..|lia|done|done]].
  destruct (IH (j + 1) (n - 1)) as (k & Hk & -> & H1 & H2 & Hv); [lia..|]. exists (k + 1). split_and!; [lia|f_equal; f_equal; lia|lia..|].
  rewrite (sub_cons ds j (j + (k + 1)) 0) by (try done; lia). rewrite dval_cons. by replace (j + (k + 1)) with (j + 1 + k) by lia.
Qed.

Lemma digits_ok_sub ds a b : digits_ok ds -> digits_ok (Prelude.sub ds a b).
Proof. intros. by apply Forall_take, Forall_drop. Qed.

(** The text of a decimal, as a numeral. *)
Lemma to_decimal_string_spec d : wf d -> exists s ip fp, to_decimal_string d = Ok (numeral s ip fp None) /\ digits_ok ip /\ digits_ok (default [] fp) /\
  (numeral_value s ip fp None == value d)%Q.
Proof.
  intros [Hd Hf]. unfold to_decimal_string. set (len := zlen (digits d)) in *. set (n := len - n_frac d).
  assert (exists z, (if len =? 0 then Ok true else if len =? 1 then let* d0 := idx (digits d) 0 in Ok (d0 =? 0) else Ok false) = Ok z /\ (z = true -> dval (digits d) = 0)) as (z & -> & Hz).
  { destruct (Z.eqb_spec len 0) as [E|]; [exists true; split; [done|]; intros _; subst len; by destruct (digits d); [|rewrite zlen_cons in E; pose proof (zlen_nonneg l); lia]|].
    destruct (Z.eqb_spec len 1) as [E|]; [|by exists false]. destruct (digits d) as [|x [|y l]]; subst len; cbn in E; [done| |unfold zlen in E; cbn in E; lia].
    change (idx [x] 0) with (Ok x : res Z). bind_step. eexists. split; [done|]. intros ->%Z.eqb_eq. done. }
  bind_step. destruct (skip_zeros_spec (length (digits d)) (digits d) 0 n) as (k & Hk & -> & Hk1 & Hk0 & Hv); [lia|lia|fold len; lia|unfold zlen in *; lia|]. bind_step.
  rewrite Z.add_0_l. rewrite emit_spec by (fold len; lia). bind_step. cbv zeta. rewrite Z2Nat.id by lia.
  assert ((if 0 <? n - k then k + (n - k) else k) = n) as -> by (destruct (Z.ltb_spec 0 (n - k)); lia).
  set (s := if z then None else if sign d then Some true else None).
  set (ip := if n <=? 0 then [0] else Prelude.sub (digits d) k n). set (fp := if 0 <? n_frac d then Some (Prelude.sub (digits d) n len) else None).
  exists s, ip, fp.
  assert (digits_ok ip /\ digits_ok (default [] fp)) as [Hi Hfp].
  { subst ip fp. split; [destruct (n <=? 0); [by constructor; [lia|constructor]|by apply digits_ok_sub]|destruct (0 <? n_frac d); [by apply digits_ok_sub|constructor]]. }
  assert (dval (ip ++ default [] fp) = dval (digits d) /\ zlen (default [] fp) = n_frac d) as [Edv Ezl].
  { assert (default [] fp = Prelude.sub (digits d) n len) as -> by (subst fp; destruct (Z.ltb_spec 0 (n_frac d)); [done|]; cbn; replace n with len by lia; by rewrite sub_nil).
    split; [|rewrite zlen_sub; fold len; lia]. assert (dval ip = dval (Prelude.sub (digits d) 0 n)) as Ei.
    { subst ip. destruct (Z.leb_spec n 0); [replace n with 0 by lia; by rewrite sub_nil|]. rewrite <- (sub_app_split (digits d) 0 k n), dval_app by lia. rewrite Z.add_0_l in Hv. rewrite Hv. lia. }
    rewrite dval_app, Ei, <- dval_app, sub_app_split by lia. unfold len. by rewrite sub_full, drop_0. }
  split_and!; [|done..|].
  - unfold numeral. rewrite app_nil_r. destruct (Z.ltb_spec 0 (n_frac d)).
    + rewrite emit_spec by (fold len; lia). do 2 bind_step. replace (n + Z.of_nat (Z.to_nat (1 `max` (len - n)))) with len by lia. f_equal. f_equal; [subst s; by destruct z, (sign d)|].
      rewrite app_assoc. f_equal. subst ip. destruct (Z.leb_spec n 0); [|by replace (k + (n - k)) with n by lia]. replace (n - k) with 0 by lia. by rewrite Z.add_0_r, sub_nil.
    + bind_step. rewrite !app_nil_r. f_equal. f_equal; [subst s; by destruct z, (sign d)|]. subst ip. destruct (Z.leb_spec n 0); [|by replace (k + (n - k)) with n by lia].
      replace (n - k) with 0 by lia. by rewrite Z.add_0_r, sub_nil.
  - unfold numeral_value, value. rewrite Edv, Ezl, Z.sub_0_r. f_equiv. unfold signed. subst s. destruct z; [rewrite Hz by done; by destruct (sign d)|]. by destruct (sign d).
Qed.

Lemma lead_zeros_spec ds : exists rest, ds = zrep (Z.of_nat (lead_zeros ds)) 0 ++ rest /\ (forall d r, rest = d :: r -> d <> 0).
Proof.
  induction ds as [|d ds (rest & E & Hr)]; [by exists []|]. cbn [lead_zeros]. destruct (Z.eqb_spec d 0) as [->|]; [|exists (d :: ds); split; [done|]; by intros ?? [= <- _]].
  exists rest. split; [|done]. unfold zrep in *. rewrite Nat2Z.id in *. cbn [replicate app]. by rewrite E at 1.
Qed.

(** The digits of a decimal between the zeros on both sides. *)
Lemma significant ds : let n := zlen ds - Z.of_nat (lead_zeros (rev ds)) in let z := Z.of_nat (lead_zeros (take (Z.to_nat n) ds)) in
  0 <= z <= n /\ n <= zlen ds /\ dval ds = dval (Prelude.sub ds z n) * 10 ^ (zlen ds - n).
Proof.
  cbv zeta. destruct (lead_zeros_spec (rev ds)) as (r & E & _). set (t := Z.of_nat (lead_zeros (rev ds))) in *. assert (0 <= t) as Ht by lia.
  apply (f_equal (@rev Z)) in E. rewrite rev_involutive, rev_app_distr in E. assert (rev (zrep t 0) = zrep t 0) as Er by (unfold zrep; induction (Z.to_nat t) as [|k IH]; [done|]; cbn [replicate rev]; by rewrite IH, <- replicate_cons_app). rewrite Er in E. set (f := rev r) in *.
  assert (zlen ds = zlen f + t) as El by (rewrite E, zlen_app, zlen_zrep by lia; done). pose proof (zlen_nonneg f).
  replace (zlen ds - t) with (zlen f) by lia. assert (take (Z.to_nat (zlen f)) ds = f) as -> by (rewrite E; apply take_app_length'; unfold zlen; lia).
  destruct (lead_zeros_spec f) as (s & Ef & _). set (z := Z.of_nat (lead_zeros f)) in *.
  assert (zlen f = z + zlen s) as Lf by (rewrite Ef at 1; rewrite zlen_app, zlen_zrep by lia; done). pose proof (zlen_nonneg s). split; [lia|]. split; [lia|].
  assert (Prelude.sub ds z (zlen f) = s) as ->.
  { assert (ds = zrep z 0 ++ s ++ zrep t 0) as Ed by (rewrite app_assoc, <- Ef; exact E). rewrite Ed. apply sub_app_exact; rewrite ?zlen_zrep; lia. }
  replace (zlen ds - zlen f) with t by lia. rewrite E at 1. rewrite dval_app, dval_zrep, zlen_zrep, Ef, dval_app, dval_zrep by lia. lia.
Qed.

Lemma numeral_sci sg lead rest es ed : numeral (Some sg) [lead] (Some rest) (Some (Some es, ed))
  = (if sg then 45 else 43) :: lead + 48 :: 46 :: ascii rest ++ 101 :: (if es then 45 else 43) :: ascii ed.
Proof. unfold numeral. by destruct sg, es. Qed.

Lemma ascii_app a b : ascii (a ++ b) = ascii a ++ ascii b.
Proof. apply fmap_app. Qed.

(** The scientific text of a decimal, as a numeral. *)
Lemma to_sci_string_spec d : wf d -> zlen (digits d) < 10000000 -> exists s ip fp ex, to_sci_string d = Ok (numeral s ip fp ex) /\ digits_ok ip /\
  digits_ok (default [] fp) /\ (forall es ed, ex = Some (es, ed) -> digits_ok ed /\ dval ed < 10000000) /\ (numeral_value s ip fp ex == value d)%Q.
Proof.
  intros [Hd Hf] Hlen. unfold to_sci_string. destruct (significant (digits d)) as (Hz & Hn & Ev). set (len := zlen (digits d)) in *.
  set (n := len - Z.of_nat (lead_zeros (rev (digits d)))) in *. set (z := Z.of_nat (lead_zeros (take (Z.to_nat n) (digits d)))) in *.
  set (nd := if n - z =? 0 then 1 else n - z). set (fr := if n - z =? 0 then 0 else n_frac d + (n - len)).
  assert (exists lead rest, (if n - z =? 0 then Ok [48] else emit (Z.to_nat nd) (digits d) z) = Ok (ascii (lead :: rest)) /\ digits_ok (lead :: rest) /\
    zlen rest = nd - 1 /\ (scale (if sign d then - dval (lead :: rest) else dval (lead :: rest)) fr == value d)%Q) as (lead & rest & -> & Hok & Hlr & Hval).
  { unfold value, signed. rewrite Ev. subst nd fr. destruct (Z.eqb_spec (n - z) 0).
    - exists 0, []. split_and!; [done|by constructor; [lia|constructor]|done|]. replace n with z by lia. rewrite sub_nil. change (dval []) with 0. rewrite Z.mul_0_l. change (dval [0]) with 0.
      unfold scale. destruct (sign d); change (- 0) with 0; ring.
    - rewrite emit_spec by (fold len; lia). replace (z + Z.of_nat (Z.to_nat (n - z))) with n by lia. destruct (Prelude.sub (digits d) z n) as [|lead rest] eqn:Es.
      { pose proof (zlen_sub (digits d) z n ltac:(fold len; lia) ltac:(fold len; lia)) as Hl. rewrite Es in Hl. change (zlen (@nil Z)) with 0 in Hl. lia. }
      exists lead, rest. split_and!; [done|rewrite <- Es; by apply digits_ok_sub| |].
      { pose proof (zlen_sub (digits d) z n ltac:(fold len; lia) ltac:(fold len; lia)) as Hl. rewrite Es, zlen_cons in Hl. lia. }
      rewrite <- (scale_shift _ _ (len - n)) by lia. replace (n_frac d + (n - len) + (len - n)) with (n_frac d) by lia. f_equiv. destruct (sign d); lia. }
  bind_step. change (idx (ascii (lead :: rest)) 0) with (Ok (lead + 48) : res Z). bind_step. cbv zeta. set (x := nd - fr - 1).
  assert (Z.abs x < 10000000) as Hx by (subst x nd fr; destruct (Z.eqb_spec (n - z) 0); lia).
  destruct (dec_digits_spec 20 (Z.abs x) []) as (ed & -> & Hed & Eed & _); [change (10 ^ Z.of_nat 20) with 100000000000000000000; lia|lia|]. bind_step. rewrite app_nil_r.
  set (fp := if nd =? 1 then [0] else rest). set (ed' := zrep (2 - zlen (ascii ed)) 0 ++ ed). apply Forall_cons in Hok as [Hlead Hrest].
  assert (dval ed' = Z.abs x /\ digits_ok ed') as [Ed' Hed'] by (subst ed'; rewrite dval_app, dval_zrep, digits_ok_app; split; [lia|done]).
  exists (Some (sign d)), [lead], (Some fp), (Some (Some (x <? 0), ed')). split_and!.
  - rewrite numeral_sci. f_equal. f_equal. f_equal. f_equal. f_equal; [subst fp; by destruct (nd =? 1)|]. subst ed'. rewrite ascii_app. f_equal. f_equal. f_equal. unfold ascii, zrep. by rewrite fmap_replicate.
  - by constructor; [|constructor].
  - cbn. subst fp. destruct (nd =? 1); [by constructor; [lia|constructor]|done].
  - intros es e [= <- <-]. split; [done|lia].
  - rewrite <- Hval. unfold numeral_value. cbn [default]. change (id fp) with fp. assert ((if x <? 0 then - dval ed' else dval ed') = x) as Ex by (rewrite Ed'; destruct (Z.ltb_spec x 0); lia).
    rewrite Ex.
    assert (exists k, 0 <= k /\ dval ([lead] ++ fp) = dval (lead :: rest) * 10 ^ k /\ zlen fp - x = fr + k) as (k & Hk & Edv & Ek).
    { subst fp x. destruct (Z.eqb_spec nd 1) as [E1|]; [|exists 0; cbn [app]; split_and!; [lia..|]; lia].
      exists 1. destruct rest; [|pose proof (zlen_nonneg rest); rewrite zlen_cons in Hlr; lia]. change (zlen [0]) with 1. split_and!; [lia| |lia]. by rewrite (dval_app [lead] [0]), Z.add_0_r. }
    rewrite Ek, Edv, <- (scale_shift _ fr k) by done. f_equiv. destruct (sign d); lia.
Qed.

(** ** Comparison *)

(** No zero in front of the integer part. *)
Definition tidy (d : Decimal) : Prop :=
  match digits d with x :: _ => n_frac d < zlen (digits d) -> x <> 0 | [] => True end.

Lemma scale_lt s f t g : 0 <= f -> 0 <= g -> (scale s f < scale t g)%Q <-> s * 10 ^ g < t * 10 ^ f.
Proof.
  intros Hf Hg. rewrite <- (scale_shift s f g), <- (scale_shift t g f), (Z.add_comm g f) by done. unfold scale.
  rewrite Qmult_lt_r by (apply Qpower_0_lt; reflexivity). by rewrite <- Zlt_Qlt.
Qed.

Lemma cmp_digits_anti a : forall b, cmp_digits b a = - cmp_digits a b.
Proof. induction a as [|x a IH]; intros [|y b]; try done. cbn. rewrite (Z.eqb_sym y x). destruct (x =? y); [apply IH|lia]. Qed.

Lemma compare_mag_anti a b : compare_mag b a = - compare_mag a b.
Proof.
  unfold compare_mag. rewrite (Z.eqb_sym (zlen (digits b) - n_frac b)), (Nat.min_comm (length (digits b))), (cmp_digits_anti (take _ (digits a))).
  set (rc := cmp_digits _ _). destruct (negb _); [rewrite <- Z.sgn_opp; f_equal; lia|]. replace (- rc =? 0) with (rc =? 0) by (destruct (Z.eqb_spec rc 0), (Z.eqb_spec (- rc) 0); lia).
  destruct (negb _); rewrite <- Z.sgn_opp; f_equal; lia.
Qed.

Lemma tidy_bound d : wf d -> tidy d -> n_frac d < zlen (digits d) -> 10 ^ (zlen (digits d) - 1) <= dval (digits d).
Proof.
  unfold wf, tidy. intros [Hd Hf] Ht Hn. destruct (digits d) as [|x l]; [change (zlen (@nil Z)) with 0 in *; lia|].
  apply Forall_cons in Hd as [Hx Hl]. specialize (Ht Hn). rewrite zlen_cons, dval_cons, Z.add_simpl_r. pose proof (dval_bound l Hl).
  assert (1 * 10 ^ zlen l <= x * 10 ^ zlen l) by (apply Z.mul_le_mono_nonneg_r; lia). lia.
Qed.

(** A digit list cut at [n], scaled to [k] digits after the cut. *)
Lemma dval_cut l n f k : digits_ok l -> (n <= length l)%nat -> 0 <= f -> k = zlen l - Z.of_nat n + f ->
  dval l * 10 ^ f = dval (take n l) * 10 ^ k + dval (drop n l) * 10 ^ f /\ 0 <= dval (drop n l) * 10 ^ f < 10 ^ k.
Proof.
  intros Hl Hn Hf ->. assert (zlen (drop n l) = zlen l - Z.of_nat n) as Ez by (unfold zlen; rewrite length_drop; lia). rewrite <- Ez. pose proof (zlen_nonneg (drop n l)).
  assert (digits_ok (drop n l)) as Hd by (by apply Forall_drop). apply dval_bound in Hd. rewrite Z.pow_add_r by lia.
  split; [rewrite <- (take_drop n l) at 1; rewrite dval_app; lia|]. assert (0 < 10 ^ f) by (apply Z.pow_pos_nonneg; lia). nia.
Qed.

Lemma compare_mag_lt a b : wf a -> wf b -> tidy a -> tidy b -> dval (digits a) * 10 ^ n_frac b < dval (digits b) * 10 ^ n_frac a -> compare_mag a b = -1.
Proof.
  intros Ha Hb Ta Tb Hlt. destruct (Ha) as [Da Fa], (Hb) as [Db Fb]. unfold compare_mag. cbv zeta. destruct (Z.eqb_spec (zlen (digits a) - n_frac a) (zlen (digits b) - n_frac b)) as [E|E]; cbn [negb].
  - set (n := Nat.min (length (digits a)) (length (digits b))). set (k := zlen (digits a) - Z.of_nat n + n_frac b).
    destruct (dval_cut (digits a) n (n_frac b) k Da ltac:(lia) ltac:(lia) eq_refl) as [Ea Ba], (dval_cut (digits b) n (n_frac a) k Db ltac:(lia) ltac:(lia) ltac:(lia)) as [Eb Bb].
    rewrite Ea, Eb in Hlt. pose proof (cmp_digits_spec (take n (digits a)) (take n (digits b))) as Hc. set (rc := cmp_digits _ _) in *.
    specialize (Hc ltac:(rewrite !length_take; lia) ltac:(by apply Forall_take) ltac:(by apply Forall_take)). set (pa := dval (take n (digits a))) in *. set (pb := dval (take n (digits b))) in *.
    destruct (Z.lt_trichotomy pa pb) as [Hp|[Hp|Hp]].
    + rewrite (proj2 (Z.compare_lt_iff pa pb) Hp) in Hc. change (rc < 0) in Hc. destruct (Z.eqb_spec rc 0); [lia|]. cbn [negb]. by apply Z.sgn_neg.
    + rewrite (proj2 (Z.compare_eq_iff pa pb) Hp) in Hc. apply Z.compare_eq_iff in Hc. rewrite Hc. cbn [Z.eqb negb]. apply Z.sgn_neg.
      destruct (Z.lt_ge_cases (zlen (digits a)) (zlen (digits b))) as [|Hge]; [lia|]. rewrite (drop_ge (digits b)) in * by (subst n; unfold zlen in *; lia). change (dval []) with 0 in *. lia.
    + assert ((pb + 1) * 10 ^ k <= pa * 10 ^ k) by (apply Z.mul_le_mono_nonneg_r; lia). lia.
  - apply Z.sgn_neg. destruct (Z.lt_ge_cases (zlen (digits b) - n_frac b) (zlen (digits a) - n_frac a)) as [Hgt|]; [exfalso|lia].
    pose proof (tidy_bound a Ha Ta ltac:(lia)) as H1. apply dval_bound in Db as H2.
    assert (10 ^ (zlen (digits a) - 1 + n_frac b) <= dval (digits a) * 10 ^ n_frac b) by (rewrite Z.pow_add_r by lia; apply Z.mul_le_mono_nonneg_r; lia).
    assert (dval (digits b) * 10 ^ n_frac a <= 10 ^ (zlen (digits b) + n_frac a)) by (rewrite Z.pow_add_r by lia; apply Z.mul_le_mono_nonneg_r; lia).
    pose proof (Z.pow_le_mono_r 10 (zlen (digits b) + n_frac a) (zlen (digits a) - 1 + n_frac b)). lia.
Qed.

Lemma compare_lt a b : wf a -> wf b -> tidy a -> tidy b -> (value a < value b)%Q -> compare a b = -1 /\ compare b a = 1.
Proof.
  intros Ha Hb Ta Tb. destruct (Ha) as [Da Fa], (Hb) as [Db Fb]. unfold value. rewrite scale_lt by lia. unfold signed, compare. apply dval_bound in Da, Db.
  assert (0 < 10 ^ n_frac a /\ 0 < 10 ^ n_frac b) as [P1 P2] by (split; apply Z.pow_pos_nonneg; lia).
  destruct (sign a), (sign b); cbn [bool_decide decide decide_rel bool_eq_dec negb]; intros Hlt.
  - assert (compare_mag b a = -1) as E by (apply compare_mag_lt; try done; lia). rewrite (compare_mag_anti b a), E. done.
  - done.
  - nia.
  - assert (compare_mag a b = -1) as E by (apply compare_mag_lt; try done; lia). rewrite (compare_mag_anti a b), E. done.
Qed.

(** ** The contract *)

(** C28: arithmetic is exact. On any two decimals, addition, subtraction and
    multiplication succeed, give well-formed decimals, and these denote the sum,
    the difference and the product of the two numbers, without rounding;
    comparison puts the smaller of two different numbers first, when neither
    has a zero in front of its integer part. *)
Theorem decimal_arith_exact (a b : Decimal) (Ha : wf a) (Hb : wf b) : exists s d p,
  add a b = Ok s /\ wf s /\ (value s == value a + value b)%Q /\
  sub a b = Ok d /\ wf d /\ (value d == value a - value b)%Q /\
  mul a b = Ok p /\ wf p /\ (value p == value a * value b)%Q /\
  (tidy a -> tidy b -> (value a < value b)%Q -> compare a b = -1 /\ compare b a = 1).
Proof.
  destruct (add_exact a b Ha Hb) as (s & Es & Hs & Vs), (sub_exact a b Ha Hb) as (d & Ed & Hd & Vd), (mul_exact a b Ha Hb) as (p & Ep & Hp & Vp).
  exists s, d, p. do 9 (split; [assumption|]). by apply compare_lt.
Qed.

(** [0.1] and [0.2]: the sum is [0.3] and the first is the smaller one. *)
Lemma decimal_arith_exact_witness : exists s d p, add (from_bytes [48; 46; 49]) (from_bytes [48; 46; 50]) = Ok s /\ (value s == 3 # 10)%Q /\
  sub (from_bytes [48; 46; 49]) (from_bytes [48; 46; 50]) = Ok d /\ mul (from_bytes [48; 46; 49]) (from_bytes [48; 46; 50]) = Ok p /\
  compare (from_bytes [48; 46; 49]) (from_bytes [48; 46; 50]) = -1.
Proof.
  destruct (decimal_arith_exact (from_bytes [48; 46; 49]) (from_bytes [48; 46; 50]) (from_bytes_wf _) (from_bytes_wf _))
    as (s & d & p & Es & _ & Vs & Ed & _ & _ & Ep & _ & _ & Hc).
  exists s, d, p. split; [exact Es|]. split; [rewrite Vs; vm_compute; reflexivity|]. split; [exact Ed|]. split; [exact Ep|].
  apply Hc; [vm_compute; intros; discriminate..|vm_compute; reflexivity].
Defined.

(** C29: text is exact. Whatever bytes are parsed, the result is a well-formed
    decimal; a numeral, with spaces in front, a sign, a point and an exponent,
    parses to the number it denotes; and the plain and the scientific text of
    any decimal exist and parse back to the same number. *)
Theorem decimal_text_roundtrip (d : Decimal) (Hd : wf d) (Hlen : zlen (digits d) < 10000000) :
  (forall t, wf (from_bytes t)) /\
  (forall sp s ip fp ex, Forall (fun c => is_space c = true) sp -> digits_ok ip -> digits_ok (default [] fp) ->
    (forall es ed, ex = Some (es, ed) -> digits_ok ed /\ dval ed < 10000000) ->
    (value (from_bytes (sp ++ numeral s ip fp ex)) == numeral_value s ip fp ex)%Q) /\
  exists t u, to_decimal_string d = Ok t /\ (value (from_bytes t) == value d)%Q /\ to_sci_string d = Ok u /\ (value (from_bytes u) == value d)%Q.
Proof.
  split; [apply from_bytes_wf|]. split; [apply from_bytes_numeral|].
  destruct (to_decimal_string_spec d Hd) as (s & ip & fp & E & Hi & Hf & Ev), (to_sci_string_spec d Hd Hlen) as (s' & ip' & fp' & ex & E' & Hi' & Hf' & Hx & Ev').
  eexists _, _. split; [exact E|]. split; [|split; [exact E'|]].
  - rewrite <- Ev. apply (from_bytes_numeral [] s ip fp None); [constructor|done|done|done].
  - rewrite <- Ev'. apply (from_bytes_numeral [] s' ip' fp' ex); [constructor|done|done|done].
Qed.

(** [-12.50]: both texts denote it. *)
Lemma decimal_text_roundtrip_witness : exists t u, to_decimal_string (mkDec true [1; 2; 5; 0] 2) = Ok t /\ to_sci_string (mkDec true [1; 2; 5; 0] 2) = Ok u /\
  (value (from_bytes t) == value (from_bytes u))%Q /\ (value (from_bytes t) == -25 # 2)%Q.
Proof.
  destruct (decimal_text_roundtrip (mkDec true [1; 2; 5; 0] 2)) as (_ & _ & t & u & Et & Vt & Eu & Vu).
  - split; [repeat constructor; vm_compute; discriminate|vm_compute; split; discriminate].
  - vm_compute. reflexivity.
  - exists t, u. split; [exact Et|]. split; [exact Eu|]. split; [by rewrite Vt, Vu|]. rewrite Vt. vm_compute. reflexivity.
Defined.

(** The expansion of a finite double other than negative zero is exact. *)
Lemma from_double_exact r m e : is_u64 r -> r <> 2 ^ 63 -> Value.f64_class r = Value.FFin m e ->
  exists d, from_double r = Ok (Some d) /\ wf d /\ (value d == inject_Z m * 2 ^ e)%Q.
Proof.
  intros Hr Hz Hc. destruct (double_parts_spec r m e Hr Hz Hc) as (m' & e' & E & Hm & He & Ev).
  destruct (from_parts r m' e' E ltac:(lia) ltac:(lia)) as (d & Ed & Hd & Vd). exists d. split; [done|]. split; [done|]. by rewrite Vd.
Qed.

(** Every finite double is expanded to exactly its value, but for negative
    zero: its pattern is read as a number, and the expansion is [2^-3071]; and
    the NaN with the top bit set is expanded to [3 * 2^-1025] instead of being
    refused. *)
Theorem decimal_double_expansion :
  (forall r m e, is_u64 r -> r <> 2 ^ 63 -> Value.f64_class r = Value.FFin m e ->
    exists d, from_double r = Ok (Some d) /\ wf d /\ (value d == inject_Z m * 2 ^ e)%Q) /\
  (Value.f64_class (2 ^ 63) = Value.FFin 0 (-1074) /\ exists d, from_double (2 ^ 63) = Ok (Some d) /\ (value d == 2 ^ (-3071))%Q) /\
  (Value.f64_class 0xfff8000000000000 = Value.FNan /\ exists d, from_double 0xfff8000000000000 = Ok (Some d) /\ (value d == 3 * 2 ^ (-1025))%Q).
Proof.
  split; [exact from_double_exact|]. split; (split; [vm_compute; reflexivity|]).
  - destruct (from_parts (2 ^ 63) 1 (-3071)) as (d & E & _ & V); [vm_compute; reflexivity|lia..|]. exists d. split; [exact E|]. rewrite V. ring.
  - destruct (from_parts 0xfff8000000000000 3 (-1025)) as (d & E & _ & V); [vm_compute; reflexivity|lia..|]. exists d. split; [exact E|]. exact V.
Qed.

(** Comparison with a zero in front of the integer part: [0.05e2] is taken to be
    greater than [6]. *)
Example compare_leading_zero : (value (from_bytes [48; 46; 48; 53; 101; 50]%Z) == 5)%Q /\ (value (from_bytes [54]%Z) == 6)%Q /\
  compare (from_bytes [48; 46; 48; 53; 101; 50]) (from_bytes [54]) = 1.
Proof. vm_compute. done. Qed.

End DecimalProps.
