(* ===== verification/Pattern.v ===== *)
(** [LIKE] and [GLOB] ([src/src/exec/eval.rs], the pattern matchers and the
    lenient UTF-8 reader under them). A [char] is its code point; a [&str] is
    the list of its characters.

    Matching is specified by tokens: a pattern is a list of tokens, each of
    which matches some segments of text, and a text matches when it is the
    concatenation of segments that the tokens match one by one. *)

From S2P Require Import Prelude.
Local Open Scope Z_scope.

Module Pattern.

Notation chars := (list Z) (only parsing).

(** ** Reading bytes *)

(** The low bits a lead byte contributes: [TRANS1[first - 0xc0]]. *)
Definition TRANS1 : list Z :=
  [0x00; 0x01; 0x02; 0x03; 0x04; 0x05; 0x06; 0x07; 0x08; 0x09; 0x0a; 0x0b; 0x0c; 0x0d; 0x0e;
   0x0f; 0x10; 0x11; 0x12; 0x13; 0x14; 0x15; 0x16; 0x17; 0x18; 0x19; 0x1a; 0x1b; 0x1c; 0x1d;
   0x1e; 0x1f; 0x00; 0x01; 0x02; 0x03; 0x04; 0x05; 0x06; 0x07; 0x08; 0x09; 0x0a; 0x0b; 0x0c;
   0x0d; 0x0e; 0x0f; 0x00; 0x01; 0x02; 0x03; 0x00; 0x01; 0x02; 0x03; 0x00; 0x01; 0x02; 0x03;
   0x00; 0x01; 0x02; 0x03].

(** [char::from_u32]. *)
Definition from_u32 (c : Z) : option Z :=
  if (0x10ffff <? c) || ((0xd800 <=? c) && (c <=? 0xdfff)) then None else Some c.

(** The continuation bytes at the front of the rest, folded into [c]. *)
Fixpoint continuation (c : Z) (s : bytes) : Z * bytes :=
  match s with
  | b :: t =>
      if Z.land b 0xc0 =? 0x80 then continuation (wrap 32 (wrap 32 (Z.shiftl c 6) + Z.land b 0x3f)) t
      else (c, s)
  | [] => (c, [])
  end.

(** One character: the code point and the bytes after it. *)
Definition read_char (first : Z) (s : bytes) : res (Z * bytes) :=
  let* (cp, s) :=
    if first <? 0xc0 then Ok (first, s)
    else
      let* t := idx TRANS1 (first - 0xc0) in
      let '(c, s) := continuation t s in
      Ok (if (c <? 0x80) || (Z.land c 0xfffff800 =? 0xd800) || (Z.land c 0xfffffffe =? 0xfffe) then 0xfffd else c, s) in
  Ok (default 0xfffd (from_u32 cp), s).

(** The loop over the bytes; [fuel] is their number. *)
Fixpoint chars_loop (fuel : nat) (s : bytes) : res chars :=
  match s with
  | [] => Ok []
  | first :: s =>
      match fuel with
      | O => Panic
      | S fuel =>
          let* (c, s) := read_char first s in
          let* cs := chars_loop fuel s in
          Ok (c :: cs)
      end
  end.

Definition bytes_to_chars (s : bytes) : res chars := chars_loop (length s) s.

(** ** LIKE *)

(** [char::to_ascii_lowercase], through which [eq_ignore_ascii_case] goes. *)
Definition to_ascii_lowercase (c : Z) : Z := if (65 <=? c) && (c <=? 90) then c + 32 else c.

Definition like_char_eq (pc tc : Z) (case_sensitive : bool) : bool :=
  if case_sensitive then pc =? tc else to_ascii_lowercase pc =? to_ascii_lowercase tc.

Definition is_esc (esc : option Z) (c : Z) : bool := match esc with Some e => c =? e | None => false end.

(** [for i in 0..t.len() { if m(&t[i + 1..]) { return true; } } false]. *)
Fixpoint any_suffix (m : chars -> bool) (t : chars) : bool :=
  match t with
  | [] => false
  | _ :: t => if m t then true else any_suffix m t
  end.

Fixpoint like_rec (p t : chars) (esc : option Z) (cs : bool) : bool :=
  match p with
  | [] => match t with [] => true | _ => false end
  | p0 :: rest =>
      if is_esc esc p0 then
        match rest with
        | lit :: p2 => match t with [] => false | t0 :: t1 => like_char_eq lit t0 cs && like_rec p2 t1 esc cs end
        | [] => match t with [] => true | _ => false end
        end
      else if p0 =? 37 then
        if like_rec rest t esc cs then true else any_suffix (fun t => like_rec rest t esc cs) t
      else if p0 =? 95 then match t with [] => false | _ :: t1 => like_rec rest t1 esc cs end
      else match t with [] => false | t0 :: t1 => like_char_eq p0 t0 cs && like_rec rest t1 esc cs end
  end.

Definition like_match_escape (pattern text : chars) (escape : option Z) (case_sensitive : bool) : bool :=
  like_rec pattern text escape case_sensitive.

Definition like_match_escape_bytes (pattern text : bytes) (escape : option Z) (case_sensitive : bool) : res bool :=
  let* p := bytes_to_chars pattern in
  let* t := bytes_to_chars text in
  Ok (like_rec p t escape case_sensitive).

(** ** GLOB *)

(** The members of a class up to its [']'], on the pattern that is left: whether
    [t0] is one of them or was [matched] before, and the pattern after the
    [']']; [None] when the class does not end. *)
Fixpoint class_loop (t0 : Z) (matched : bool) (p : chars) : option (bool * chars) :=
  match p with
  | [] => None
  | c :: p1 =>
      if c =? 93 then Some (matched, p1)
      else
        match p1 with
        | 45 :: d :: p3 =>
            if negb (d =? 93) then class_loop t0 (if (c <=? t0) && (t0 <=? d) then true else matched) p3
            else class_loop t0 (if t0 =? c then true else matched) p1
        | _ => class_loop t0 (if t0 =? c then true else matched) p1
        end
  end.

(** A class after its ['[']: the [^] and a [']'] that comes first. *)
Definition class (t0 : Z) (p : chars) : option (bool * chars) :=
  let '(negate, p) := match p with 94 :: p => (true, p) | _ => (false, p) end in
  let '(matched, p) := match p with 93 :: p => (t0 =? 93, p) | _ => (false, p) end in
  match class_loop t0 matched p with
  | Some (matched, p) => Some (negb (Bool.eqb matched negate), p)
  | None => None
  end.

(** [fuel] is the length of the pattern. *)
Fixpoint glob_fuel (fuel : nat) (p t : chars) : bool :=
  match p, fuel with
  | [], _ => match t with [] => true | _ => false end
  | _, O => false
  | p0 :: rest, S fuel =>
      if p0 =? 42 then
        if glob_fuel fuel rest t then true else any_suffix (glob_fuel fuel rest) t
      else if p0 =? 63 then match t with [] => false | _ :: t1 => glob_fuel fuel rest t1 end
      else if p0 =? 91 then
        match t with
        | [] => false
        | t0 :: t1 => match class t0 rest with Some (hit, p) => hit && glob_fuel fuel p t1 | None => false end
        end
      else match t with [] => false | t0 :: t1 => (p0 =? t0) && glob_fuel fuel rest t1 end
  end.

Definition glob_rec (p t : chars) : bool := glob_fuel (length p) p t.

Definition glob_match (pattern text : chars) : bool := glob_rec pattern text.

Definition glob_match_bytes (pattern text : bytes) : res bool :=
  let* p := bytes_to_chars pattern in
  let* t := bytes_to_chars text in
  Ok (glob_rec p t).

(** ** What a pattern means *)

(** A token: any run of characters, or one character with a property. *)
Inductive token : Type := TRun | TOne (ok : Z -> bool).

Definition tok_match (k : token) (s : chars) : Prop :=
  match k with TRun => True | TOne ok => exists c, s = [c] /\ ok c = true end.

(** The text is a concatenation of segments that the tokens match in order. *)
Definition matches (ks : list token) (t : chars) : Prop :=
  exists segs, t = concat segs /\ Forall2 tok_match ks segs.

(** The tokens of a [LIKE] pattern; a trailing escape character stands for
    nothing. *)
Fixpoint like_tokens (esc : option Z) (cs : bool) (p : chars) : list token :=
  match p with
  | [] => []
  | p0 :: rest =>
      if is_esc esc p0 then
        match rest with
        | lit :: p2 => TOne (fun c => like_char_eq lit c cs) :: like_tokens esc cs p2
        | [] => []
        end
      else if p0 =? 37 then TRun :: like_tokens esc cs rest
      else if p0 =? 95 then TOne (fun _ => true) :: like_tokens esc cs rest
      else TOne (fun c => like_char_eq p0 c cs) :: like_tokens esc cs rest
  end.

(** The ranges of a class up to its [']'], and the pattern after it. *)
Fixpoint class_ranges (p : chars) : option (list (Z * Z) * chars) :=
  match p with
  | [] => None
  | c :: p1 =>
      if c =? 93 then Some ([], p1)
      else
        match p1 with
        | 45 :: d :: p3 =>
            if negb (d =? 93) then '(rs, p) ← class_ranges p3; Some ((c, d) :: rs, p)
            else '(rs, p) ← class_ranges p1; Some ((c, c) :: rs, p)
        | _ => '(rs, p) ← class_ranges p1; Some ((c, c) :: rs, p)
        end
  end.

(** A class: whether it is negated, its ranges, and the pattern after it. *)
Definition class_of (p : chars) : option (bool * list (Z * Z) * chars) :=
  let '(negate, p) := match p with 94 :: p => (true, p) | _ => (false, p) end in
  let '(first, p) := match p with 93 :: p => ([(93, 93)], p) | _ => ([], p) end in
  '(rs, p) ← class_ranges p; Some (negate, first ++ rs, p).

Definition in_ranges (rs : list (Z * Z)) (c : Z) : bool := existsb (fun r => (r.1 <=? c) && (c <=? r.2)) rs.

(** The tokens of a [GLOB] pattern; an unterminated class is a token that no
    character matches. [fuel] is the length of the pattern. *)
Fixpoint glob_tokens_fuel (fuel : nat) (p : chars) : list token :=
  match p, fuel with
  | [], _ => []
  | _, O => []
  | p0 :: rest, S fuel =>
      if p0 =? 42 then TRun :: glob_tokens_fuel fuel rest
      else if p0 =? 63 then TOne (fun _ => true) :: glob_tokens_fuel fuel rest
      else if p0 =? 91 then
        match class_of rest with
        | Some (negate, rs, p) => TOne (fun c => xorb negate (in_ranges rs c)) :: glob_tokens_fuel fuel p
        | None => [TOne (fun _ => false)]
        end
      else TOne (fun c => p0 =? c) :: glob_tokens_fuel fuel rest
  end.

Definition glob_tokens (p : chars) : list token := glob_tokens_fuel (length p) p.

(** Unicode scalar values, the values of a [char], and their UTF-8 encoding
    ([char::encode_utf8]). *)
Definition is_scalar (c : Z) : Prop := 0 <= c <= 0x10ffff /\ ~ 0xd800 <= c <= 0xdfff.

Definition encode_utf8 (c : Z) : bytes :=
  if c <? 0x80 then [c]
  else if c <? 0x800 then [0xc0 + c / 64; 0x80 + c mod 64]
  else if c <? 0x10000 then [0xe0 + c / 4096; 0x80 + c / 64 mod 64; 0x80 + c mod 64]
  else [0xf0 + c / 262144; 0x80 + c / 4096 mod 64; 0x80 + c / 64 mod 64; 0x80 + c mod 64].

(** What the lenient reader makes of a character: the last plane loses its top
    bit, and what is then too small, a surrogate or one of the noncharacters
    U+FFFE and U+FFFF becomes U+FFFD. *)
Definition checked (c : Z) : Z :=
  if (c <? 0x80) || ((0xd800 <=? c) && (c <=? 0xdfff)) || (c =? 0xfffe) || (c =? 0xffff) then 0xfffd else c.

Definition seen (c : Z) : Z := if c <? 0x80 then c else checked (c mod 0x100000).

(** ** Matching *)

Lemma matches_nil t : matches [] t <-> t = [].
Proof.
  split; [intros (segs & -> & H); by inversion H|]. intros ->. by exists [].
Qed.

Lemma matches_one ok ks t : matches (TOne ok :: ks) t <-> exists c t', t = c :: t' /\ ok c = true /\ matches ks t'.
Proof.
  split.
  - intros (segs & -> & H). inversion H as [|? s ? segs' Hk Hs]; subst. cbn in Hk. destruct Hk as (c & -> & Hc). exists c, (concat segs'). split; [done|]. split; [done|]. by exists segs'.
  - intros (c & t' & -> & Hc & segs & -> & Hs). exists ([c] :: segs). split; [done|]. constructor; [by exists c|done].
Qed.

Lemma matches_run ks t : matches (TRun :: ks) t <-> exists t1 t2, t = t1 ++ t2 /\ matches ks t2.
Proof.
  split.
  - intros (segs & -> & H). inversion H as [|? s ? segs' _ Hs]; subst. exists s, (concat segs'). split; [done|]. by exists segs'.
  - intros (t1 & t2 & -> & segs & -> & Hs). exists (t1 :: segs). split; [done|]. by constructor.
Qed.

Lemma any_suffix_spec (m : chars -> bool) (t : chars) : (if m t then true else any_suffix m t) = true <-> exists t1 t2, t = t1 ++ t2 /\ m t2 = true.
Proof.
  induction t as [|c t IH]; cbn [any_suffix].
  - split; [destruct (m []) eqn:E; [|done]; intros _; by exists [], []|]. intros (t1 & t2 & Et & Hm). symmetry in Et. apply app_eq_nil in Et as [-> ->]. by rewrite Hm.
  - destruct (m (c :: t)) eqn:E; [split; [intros _; by exists [], (c :: t)|done]|]. rewrite IH. split.
    + intros (t1 & t2 & -> & Hm). by exists (c :: t1), t2.
    + intros ([|x t1] & t2 & Et & Hm); cbn in Et; [by subst t2; rewrite E in Hm|]. injection Et as -> ->. by exists t1, t2.
Qed.

(** A single-character step of a matcher against a single-character token. *)
Lemma one_step (f : Z -> bool) (m : chars -> bool) ks t : (forall t', m t' = true <-> matches ks t') ->
  match t with [] => false | t0 :: t1 => f t0 && m t1 end = true <-> matches (TOne f :: ks) t.
Proof.
  intros Hm. rewrite matches_one. destruct t as [|c t]; [split; [done|by intros (? & ? & [=] & _)]|]. rewrite andb_true_iff, Hm. split.
  - intros [Hf Ht]. by exists c, t.
  - by intros (? & ? & [= <- <-] & Hf & Ht).
Qed.

Lemma run_step (m : chars -> bool) ks t : (forall t', m t' = true <-> matches ks t') ->
  (if m t then true else any_suffix m t) = true <-> matches (TRun :: ks) t.
Proof. intros Hm. rewrite any_suffix_spec, matches_run. by setoid_rewrite Hm. Qed.

Lemma nil_step t : match t with [] => true | _ => false end = true <-> matches [] t.
Proof. rewrite matches_nil. by destruct t. Qed.

Lemma like_rec_spec esc cs p : forall t, like_rec p t esc cs = true <-> matches (like_tokens esc cs p) t.
Proof.
  induction p as [|x|c d p IH IH'] using list_ind2; intros t; cbn [like_rec like_tokens].
  - apply nil_step.
  - destruct (is_esc esc x); [apply nil_step|]. destruct (x =? 37); [apply (run_step (fun t => like_rec [] t esc cs)), nil_step|].
    destruct (x =? 95); [exact (one_step (fun _ => true) (fun t => like_rec [] t esc cs) [] t nil_step)|]. exact (one_step _ (fun t => like_rec [] t esc cs) [] t nil_step).
  - destruct (is_esc esc c); [exact (one_step _ (fun t => like_rec p t esc cs) _ t IH)|]. destruct (c =? 37); [by apply (run_step (fun t => like_rec (d :: p) t esc cs))|].
    destruct (c =? 95); [exact (one_step (fun _ => true) (fun t => like_rec (d :: p) t esc cs) _ t IH')|]. exact (one_step _ (fun t => like_rec (d :: p) t esc cs) _ t IH').
Qed.

(** ** Classes *)

(** The continuations of a class member: a range, or one character. *)
Lemma member_cases (p1 : chars) : (exists d p3, p1 = 45 :: d :: p3 /\ d <> 93) \/
  forall A (f : Z -> chars -> A) (g : A), match p1 with 45 :: d :: p3 => if negb (d =? 93) then f d p3 else g | _ => g end = g.
Proof.
  destruct p1 as [|x p1]; [by right|]. destruct (Z.eq_dec x 45) as [->|Hx]; [|right; intros; repeat (case_match; try done)].
  destruct p1 as [|d p3]; [by right|]. destruct (Z.eq_dec d 93) as [->|]; [by right|]. left. by exists d, p3.
Qed.

Lemma in_ranges_cons c d rs t0 : in_ranges ((c, d) :: rs) t0 = ((c <=? t0) && (t0 <=? d)) || in_ranges rs t0.
Proof. done. Qed.

Lemma point_range c t0 : (c <=? t0) && (t0 <=? c) = (t0 =? c).
Proof. destruct (Z.leb_spec c t0), (Z.leb_spec t0 c), (Z.eqb_spec t0 c); cbn; try done; lia. Qed.

(** The loop decides membership in the ranges, and stops where they end. *)
Lemma class_loop_spec t0 n : forall p matched, (length p <= n)%nat ->
  class_loop t0 matched p = ('(rs, q) ← class_ranges p; Some (matched || in_ranges rs t0, q)) /\
  (forall rs q, class_ranges p = Some (rs, q) -> (length q < length p)%nat).
Proof.
  induction n as [|n IH]; intros [|c p1] matched Hn; cbn [length] in Hn; try lia; try done. cbn [class_loop class_ranges]. destruct (Z.eqb_spec c 93).
  { cbn. rewrite orb_false_r. split; [done|]. intros rs q [= <- <-]. lia. }
  destruct (member_cases p1) as [(d & p3 & -> & Hd)|Hg].
  - cbn [length] in Hn. destruct (Z.eqb_spec d 93); [done|]. cbn [negb]. destruct (IH p3 (if (c <=? t0) && (t0 <=? d) then true else matched) ltac:(lia)) as [-> Hl]. split.
    + destruct (class_ranges p3) as [[rs q]|]; [|done]. cbn -[in_ranges]. rewrite in_ranges_cons. by destruct ((c <=? t0) && (t0 <=? d)), matched.
    + intros rs q. destruct (class_ranges p3) as [[rs' q']|]; [|done]. cbn. intros [= <- <-]. specialize (Hl _ _ eq_refl). lia.
  - rewrite !Hg. destruct (IH p1 (if t0 =? c then true else matched) ltac:(lia)) as [-> Hl]. split.
    + destruct (class_ranges p1) as [[rs q]|]; [|done]. cbn -[in_ranges]. rewrite in_ranges_cons, point_range. by destruct (t0 =? c), matched.
    + intros rs q. destruct (class_ranges p1) as [[rs' q']|]; [|done]. cbn. intros [= <- <-]. specialize (Hl _ _ eq_refl). lia.
Qed.

Lemma class_spec t0 p : class t0 p = ('(neg, rs, q) ← class_of p; Some (xorb neg (in_ranges rs t0), q)) /\
  (forall neg rs q, class_of p = Some (neg, rs, q) -> (length q < length p)%nat).
Proof.
  unfold class, class_of.
  assert (exists k, (match p with 94 :: p => (true, p) | _ => (false, p) end) = (k, if k : bool then drop 1 p else p)) as (k & ->)
    by (repeat (case_match; try (by eexists false)); by exists true).
  set (p1 := if k : bool then drop 1 p else p). assert (length p1 <= length p)%nat as Hl1 by (subst p1; destruct k; [rewrite length_drop; lia|done]).
  assert (exists f, (match p1 with 93 :: p => (t0 =? 93, p) | _ => (false, p1) end) = (f && (t0 =? 93), if f : bool then drop 1 p1 else p1) /\
    (match p1 with 93 :: p => ([(93, 93)], p) | _ => ([], p1) end) = (if f then [(93, 93)] else [], if f then drop 1 p1 else p1)) as (f & -> & ->)
    by (repeat (case_match; try (by exists false)); by exists true).
  set (p2 := if f : bool then drop 1 p1 else p1). assert (length p2 <= length p1)%nat as Hl2 by (subst p2; destruct f; [rewrite length_drop; lia|done]).
  destruct (class_loop_spec t0 (length p2) p2 (f && (t0 =? 93)) ltac:(lia)) as [-> Hl]. split.
  - destruct (class_ranges p2) as [[rs q]|]; [|done]. cbn -[in_ranges]. f_equal. f_equal. destruct f; cbn [app andb orb]; [rewrite in_ranges_cons, point_range|]; destruct k; cbn -[in_ranges]; by destruct (in_ranges rs t0), (t0 =? 93).
  - intros neg rs q. destruct (class_ranges p2) as [[rs' q']|]; [|done]. cbn. intros [= <- <- <-]. specialize (Hl _ _ eq_refl). lia.
Qed.

Lemma glob_fuel_spec fuel : forall p t, (length p <= fuel)%nat -> glob_fuel fuel p t = true <-> matches (glob_tokens_fuel fuel p) t.
Proof.
  induction fuel as [|fuel IH]; intros [|p0 rest] t Hl; cbn [length] in Hl; try lia; cbn [glob_fuel glob_tokens_fuel]; [apply nil_step..|].
  assert (forall t', glob_fuel fuel rest t' = true <-> matches (glob_tokens_fuel fuel rest) t') as IH' by (intros; apply IH; lia).
  destruct (p0 =? 42); [by apply run_step|]. destruct (p0 =? 63); [exact (one_step (fun _ => true) _ _ t IH')|]. destruct (p0 =? 91); [|exact (one_step _ _ _ t IH')].
  destruct (class_of rest) as [[[neg rs] q]|] eqn:Ec.
  - rewrite <- (one_step _ (glob_fuel fuel q)); [|intros; apply IH; destruct (class_spec 0 rest) as [_ Hq]; specialize (Hq _ _ _ Ec); lia].
    destruct t as [|t0 t1]; [done|]. destruct (class_spec t0 rest) as [-> _]. by rewrite Ec.
  - rewrite <- (one_step _ (fun t => match t with [] => true | _ => false end)) by exact nil_step.
    destruct t as [|t0 t1]; [done|]. destruct (class_spec t0 rest) as [-> _]. by rewrite Ec.
Qed.

(** ** Reading bytes *)

Lemma trans1 i : 0 <= i < 64 -> idx TRANS1 i = Ok (if i <? 32 then i else if i <? 48 then i - 32 else i mod 4).
Proof.
  intros Hi. apply idx_Ok. split; [lia|]. refine (bool_decide_eq_true_1 _ _). revert i Hi.
  apply (seq_forall (fun i => bool_decide (TRANS1 !! Z.to_nat i = Some (if i <? 32 then i else if i <? 48 then i - 32 else i mod 4))) 64). vm_compute. done.
Qed.

Lemma cont_bits x : 0 <= x < 64 -> Z.land (0x80 + x) 0xc0 = 0x80 /\ Z.land (0x80 + x) 0x3f = x.
Proof.
  intros Hx. refine (bool_decide_eq_true_1 _ _). revert x Hx. apply (seq_forall (fun x => bool_decide (Z.land (0x80 + x) 0xc0 = 0x80 /\ Z.land (0x80 + x) 0x3f = x)) 64). vm_compute. done.
Qed.

Lemma lead_bits b : 0 <= b < 256 -> Z.land b 0xc0 = 0x80 -> 0x80 <= b < 0xc0.
Proof.
  intros Hb. refine (bool_decide_eq_true_1 _ _). revert b Hb. apply (seq_forall (fun b => bool_decide (Z.land b 0xc0 = 0x80 -> 0x80 <= b < 0xc0)) 256). vm_compute. done.
Qed.

Lemma land_high c k : 0 <= c < 2 ^ 32 -> 0 <= k <= 32 -> Z.land c (2 ^ 32 - 2 ^ k) = c / 2 ^ k * 2 ^ k.
Proof.
  intros Hc Hk. rewrite <- Z.shiftl_mul_pow2, <- Z.shiftr_div_pow2 by lia.
  assert (2 ^ 32 - 2 ^ k = Z.shiftl (Z.ones (32 - k)) k) as ->.
  { rewrite Z.shiftl_mul_pow2, Z.ones_equiv, <- Z.sub_1_r, Z.mul_sub_distr_r, <- Z.pow_add_r by lia. f_equal; [f_equal; lia|lia]. }
  apply Z.bits_inj'. intros n Hn. rewrite Z.land_spec. destruct (Z.ltb_spec n k).
  - by rewrite !Z.shiftl_spec_low, andb_false_r by lia.
  - rewrite !Z.shiftl_spec, Z.shiftr_spec by lia. replace (n - k + k) with n by lia. destruct (Z.ltb_spec n 32).
    + by rewrite Z.ones_spec_low, andb_true_r by lia.
    + by rewrite (testbit_above_width c 32) by lia.
Qed.

(** The character of a code point that was read from several bytes. *)
Lemma finish_char c : 0 <= c <= 0x10ffff ->
  default 0xfffd (from_u32 (if (c <? 0x80) || (Z.land c 0xfffff800 =? 0xd800) || (Z.land c 0xfffffffe =? 0xfffe) then 0xfffd else c)) = checked c.
Proof.
  intros Hr. change 0xfffff800 with (2 ^ 32 - 2 ^ 11). change 0xfffffffe with (2 ^ 32 - 2 ^ 1). rewrite !land_high by lia. change (2 ^ 11) with 2048. change (2 ^ 1) with 2.
  pose proof (Z.div_mod c 2048 ltac:(lia)). pose proof (Z.mod_pos_bound c 2048 ltac:(lia)). pose proof (Z.div_mod c 2 ltac:(lia)). pose proof (Z.mod_pos_bound c 2 ltac:(lia)).
  unfold checked. destruct (Z.ltb_spec c 0x80); [done|]. cbn [orb].
  destruct (Z.eqb_spec (c / 2048 * 2048) 0xd800), (Z.leb_spec 0xd800 c), (Z.leb_spec c 0xdfff); cbn [andb orb]; try lia; try done;
    destruct (Z.eqb_spec (c / 2 * 2) 0xfffe), (Z.eqb_spec c 0xfffe), (Z.eqb_spec c 0xffff); cbn [orb]; try lia; try done; unfold from_u32;
    destruct (Z.ltb_spec 0x10ffff c), (Z.leb_spec 0xd800 c), (Z.leb_spec c 0xdfff); try done; lia.
Qed.

(** The bytes after a character do not start with a continuation byte. *)
Definition starts (s : bytes) : Prop := match s with [] => True | b :: _ => Z.land b 0xc0 <> 0x80 end.

Lemma continuation_stop c s : starts s -> continuation c s = (c, s).
Proof. destruct s as [|b s]; [done|]. cbn. intros Hb. by destruct (Z.eqb_spec (Z.land b 0xc0) 0x80). Qed.

Lemma continuation_step c x s : 0 <= x < 64 -> 0 <= c < 2 ^ 26 -> continuation c (0x80 + x :: s) = continuation (c * 64 + x) s.
Proof.
  intros Hx Hc. cbn [continuation]. destruct (cont_bits x Hx) as [-> ->]. cbn [Z.eqb Pos.eqb]. rewrite Z.shiftl_mul_pow2 by lia. change (2 ^ 6) with 64.
  by rewrite !wrap_small by (unfold is_uint; try rewrite wrap_small by (unfold is_uint; lia); lia).
Qed.

Lemma read_encoded c s : is_scalar c -> starts s -> exists b bs, encode_utf8 c = b :: bs /\ read_char b (bs ++ s) = Ok (seen c, s) /\ Z.land b 0xc0 <> 0x80.
Proof.
  intros Hc Hs. destruct (Hc) as [Hr _]. unfold encode_utf8, read_char, seen.
  assert (forall b, 0xc0 <= b < 256 -> Z.land b 0xc0 <> 0x80) as Hlead by (intros b Hb Hl; apply lead_bits in Hl; lia).
  assert (c / 64 / 64 = c / 4096 /\ c / 4096 / 64 = c / 262144) as [E2 E3] by (split; rewrite Z.div_div by lia; done).
  assert (forall x, 0 <= x -> x = x / 64 * 64 + x mod 64 /\ 0 <= x mod 64 < 64) as Hd by (intros x Hx; pose proof (Z.div_mod x 64); pose proof (Z.mod_pos_bound x 64); lia).
  destruct (Hd c ltac:(lia)) as [D1 M1], (Hd (c / 64) ltac:(lia)) as [D2 M2], (Hd (c / 4096) ltac:(lia)) as [D3 M3]. rewrite E2 in D2. rewrite E3 in D3.
  destruct (Z.ltb_spec c 0x80); [|destruct (Z.ltb_spec c 0x800); [|destruct (Z.ltb_spec c 0x10000)]].
  - exists c, []. split; [done|]. split; [|intros Hl; apply lead_bits in Hl; lia]. destruct (Z.ltb_spec c 0xc0); [|lia]. bind_step. cbn [app]. unfold from_u32.
    destruct (Z.ltb_spec 0x10ffff c); [lia|]. by destruct (Z.leb_spec 0xd800 c); [lia|].
  - eexists _, _. split; [done|]. split; [|apply Hlead; lia]. destruct (Z.ltb_spec (0xc0 + c / 64) 0xc0); [lia|]. rewrite trans1 by lia. bind_step.
    destruct (Z.ltb_spec (0xc0 + c / 64 - 0xc0) 32); [|lia]. cbn [app]. rewrite continuation_step, continuation_stop by (try done; lia). bind_step.
    replace ((0xc0 + c / 64 - 0xc0) * 64 + c mod 64) with (c mod 0x100000) by (rewrite Z.mod_small; lia). rewrite finish_char; [done|]. rewrite Z.mod_small; lia.
  - eexists _, _. split; [done|]. split; [|apply Hlead; lia]. destruct (Z.ltb_spec (0xe0 + c / 4096) 0xc0); [lia|]. rewrite trans1 by lia. bind_step.
    destruct (Z.ltb_spec (0xe0 + c / 4096 - 0xc0) 32); [lia|]. destruct (Z.ltb_spec (0xe0 + c / 4096 - 0xc0) 48); [|lia]. cbn [app].
    rewrite !continuation_step, continuation_stop by (try done; lia). bind_step.
    replace (((0xe0 + c / 4096 - 0xc0 - 32) * 64 + (c / 64) mod 64) * 64 + c mod 64) with (c mod 0x100000) by (rewrite Z.mod_small; lia). rewrite finish_char; [done|]. rewrite Z.mod_small; lia.
  - pose proof (Z.mod_pos_bound c 0x100000 ltac:(lia)) as B. eexists _, _. split; [done|]. split; [|apply Hlead; lia]. destruct (Z.ltb_spec (0xf0 + c / 262144) 0xc0); [lia|]. rewrite trans1 by lia. bind_step.
    destruct (Z.ltb_spec (0xf0 + c / 262144 - 0xc0) 32); [lia|]. destruct (Z.ltb_spec (0xf0 + c / 262144 - 0xc0) 48); [lia|]. cbn [app].
    destruct (Z.ltb_spec c 0x100000).
    + replace ((0xf0 + c / 262144 - 0xc0) mod 4) with (c / 262144) by (apply (Z.mod_unique_pos _ 4 12); lia). rewrite !continuation_step, continuation_stop by (try done; lia). bind_step.
      replace (((c / 262144 * 64 + (c / 4096) mod 64) * 64 + (c / 64) mod 64) * 64 + c mod 64) with (c mod 0x100000) by (rewrite Z.mod_small; lia). rewrite finish_char; [done|lia].
    + replace ((0xf0 + c / 262144 - 0xc0) mod 4) with 0 by (apply (Z.mod_unique_pos _ 4 13); lia). rewrite !continuation_step, continuation_stop by (try done; lia). bind_step.
      replace (((0 * 64 + (c / 4096) mod 64) * 64 + (c / 64) mod 64) * 64 + c mod 64) with (c mod 0x100000) by (symmetry; apply (Z.mod_unique_pos _ _ 1); lia). rewrite finish_char; [done|lia].
Qed.

Definition utf8 (cs : chars) : bytes := concat (encode_utf8 <$> cs).

Lemma utf8_starts cs : Forall is_scalar cs -> starts (utf8 cs).
Proof.
  intros H. destruct H as [|c cs Hc Hcs]; [done|]. destruct (read_encoded c [] Hc I) as (b & bs & E & _ & Hb). unfold utf8. cbn [fmap list_fmap concat]. by rewrite E.
Qed.

Lemma chars_loop_utf8 cs : forall fuel, Forall is_scalar cs -> (length (utf8 cs) <= fuel)%nat -> chars_loop fuel (utf8 cs) = Ok (seen <$> cs).
Proof.
  induction cs as [|c cs IH]; intros fuel Hc Hf; [by destruct fuel|]. apply Forall_cons in Hc as [Hc Hcs].
  destruct (read_encoded c (utf8 cs) Hc (utf8_starts cs Hcs)) as (b & bs & E & Hr & _). unfold utf8 in *. cbn [fmap list_fmap concat] in *. rewrite E in *. cbn [app length] in *.
  destruct fuel as [|fuel]; [lia|]. cbn [chars_loop]. rewrite Hr. bind_step. rewrite IH; [done|done|]. rewrite length_app in Hf. lia.
Qed.

Lemma bytes_to_chars_utf8 cs : Forall is_scalar cs -> bytes_to_chars (utf8 cs) = Ok (seen <$> cs).
Proof. intros. by apply chars_loop_utf8. Qed.

Lemma length_continuation s : forall c, (length (continuation c s).2 <= length s)%nat.
Proof. induction s as [|b s IH]; intros c; cbn [continuation]; [done|]. destruct (_ =? _); [|done]. specialize (IH (wrap 32 (wrap 32 (Z.shiftl c 6) + Z.land b 63))). cbn. lia. Qed.

Lemma is_bytes_continuation s : forall c, is_bytes s -> is_bytes (continuation c s).2.
Proof. induction s as [|b s IH]; intros c H; cbn [continuation]; [done|]. destruct (_ =? _); [|done]. apply IH. by apply Forall_cons in H as [_ H]. Qed.

(** The reader never fails. *)
Lemma bytes_to_chars_total s : is_bytes s -> exists cs, bytes_to_chars s = Ok cs.
Proof.
  unfold bytes_to_chars. enough (forall fuel s, is_bytes s -> (length s <= fuel)%nat -> exists cs, chars_loop fuel s = Ok cs) as He by (intros; by apply He).
  induction fuel as [|fuel IH]; intros [|b s'] Hb Hf; cbn [length] in Hf; try lia; [by eexists..|]. apply Forall_cons in Hb as [Hb Hs]. cbn [chars_loop].
  assert (exists c s1, read_char b s' = Ok (c, s1) /\ is_bytes s1 /\ (length s1 <= length s')%nat) as (c & s1 & -> & H1 & Hl).
  { unfold read_char. destruct (Z.ltb_spec b 0xc0); [by eexists _, _|]. rewrite trans1 by (unfold is_u8, is_uint in Hb; lia). bind_step.
    pose proof (length_continuation s') as L. pose proof (is_bytes_continuation s') as B. set (t := if _ <? 32 then _ else _). specialize (L t). specialize (B t Hs).
    destruct (continuation t s') as [c s1]. bind_step. by eexists _, _. }
  bind_step. destruct (IH s1 H1 ltac:(lia)) as [cs ->]. by eexists.
Qed.

Lemma seen_id c : is_scalar c -> c < 0x100000 -> c <> 0xfffe -> c <> 0xffff -> seen c = c.
Proof.
  intros [Hr Hs] Hc H1 H2. unfold seen, checked. destruct (Z.ltb_spec c 0x80); [done|]. rewrite Z.mod_small by lia. destruct (Z.ltb_spec c 0x80); [lia|].
  destruct (Z.leb_spec 0xd800 c), (Z.leb_spec c 0xdfff), (Z.eqb_spec c 0xfffe), (Z.eqb_spec c 0xffff); try done; lia.
Qed.

Lemma seen_ids cs : Forall is_scalar cs -> Forall (fun c => c < 0x100000 /\ c <> 0xfffe /\ c <> 0xffff) cs -> seen <$> cs = cs.
Proof.
  intros H1 H2. induction H1 as [|c cs Hc Hcs IH]; [done|]. apply Forall_cons in H2 as [(A & B & C) H2]. cbn. by rewrite seen_id, IH.
Qed.

(** ** The contract *)

(** C25: [LIKE] and [GLOB] decide pattern matching. For every pattern, text,
    escape character and case mode, the recursive matchers say yes exactly when
    the text is a concatenation of segments matched by the pattern's tokens in
    order: runs, single characters, escaped characters, and classes with their
    ranges and negation. *)
Theorem like_glob_correct (p t : list Z) (esc : option Z) (cs : bool) :
  (like_match_escape p t esc cs = true <-> matches (like_tokens esc cs p) t) /\
  (glob_match p t = true <-> matches (glob_tokens p) t).
Proof. split; [apply like_rec_spec|by apply glob_fuel_spec]. Qed.

(** Matching on bytes. The lenient reader succeeds on any bytes; on the UTF-8
    of characters below U+100000 other than U+FFFE and U+FFFF it reads exactly
    those characters, so that [LIKE] and [GLOB] on bytes agree with [LIKE] and
    [GLOB] on characters; but on valid UTF-8 in general it does not: U+100100 is
    read as U+0100, and matches it. *)
Theorem like_bytes_agree (p t : list Z) (esc : option Z) (cs : bool) (Hp : Forall is_scalar p) (Ht : Forall is_scalar t)
    (Hpl : Forall (fun c => c < 0x100000 /\ c <> 0xfffe /\ c <> 0xffff) p) (Htl : Forall (fun c => c < 0x100000 /\ c <> 0xfffe /\ c <> 0xffff) t) :
  like_match_escape_bytes (utf8 p) (utf8 t) esc cs = Ok (like_match_escape p t esc cs) /\
  glob_match_bytes (utf8 p) (utf8 t) = Ok (glob_match p t) /\
  (forall a b, is_bytes a -> is_bytes b -> exists l g, like_match_escape_bytes a b esc cs = Ok l /\ glob_match_bytes a b = Ok g) /\
  glob_match [0x100] [0x100100] = false /\ glob_match_bytes (utf8 [0x100]) (utf8 [0x100100]) = Ok true.
Proof.
  assert (bytes_to_chars (utf8 p) = Ok p) as Ep by (by rewrite bytes_to_chars_utf8, seen_ids). assert (bytes_to_chars (utf8 t) = Ok t) as Et by (by rewrite bytes_to_chars_utf8, seen_ids).
  unfold like_match_escape_bytes, glob_match_bytes. rewrite Ep, Et. split; [done|]. split; [done|]. split; [|split; vm_compute; reflexivity].
  intros a b Ha Hb. destruct (bytes_to_chars_total a Ha) as [ca ->], (bytes_to_chars_total b Hb) as [cb ->]. bind_step. by eexists _, _.
Qed.

(** The pattern [%é_] against a text in two scripts. *)
Lemma like_bytes_agree_witness : like_match_escape_bytes (utf8 [37; 0xe9; 95]) (utf8 [0x4e2d; 0xe9; 0x1f600]) None false = Ok true /\
  glob_match_bytes (utf8 [42; 91; 0xe0; 45; 0xef; 93; 63]) (utf8 [0x4e2d; 0xe9; 0x1f600]) = Ok true.
Proof.
  assert (Forall is_scalar [37; 0xe9; 95] /\ Forall is_scalar [0x4e2d; 0xe9; 0x1f600] /\ Forall is_scalar [42; 91; 0xe0; 45; 0xef; 93; 63]) as (S1 & S2 & S3)
    by (unfold is_scalar; split_and!; repeat constructor; lia).
  assert (forall l, forallb (fun c => (c <? 0x100000) && negb (c =? 0xfffe) && negb (c =? 0xffff)) l = true -> Forall (fun c => c < 0x100000 /\ c <> 0xfffe /\ c <> 0xffff) l) as L.
  { intros l Hl. apply Forall_forall. intros c Hc%list_elem_of_In. rewrite List.forallb_forall in Hl. specialize (Hl c Hc). lia. }
  pose proof (L [37; 0xe9; 95] eq_refl) as L1. pose proof (L [0x4e2d; 0xe9; 0x1f600] eq_refl) as L2. pose proof (L [42; 91; 0xe0; 45; 0xef; 93; 63] eq_refl) as L3.
  split; [rewrite (proj1 (like_bytes_agree _ _ None false S1 S2 L1 L2))|rewrite (proj1 (proj2 (like_bytes_agree _ _ None false S3 S2 L3 L2)))]; reflexivity.
Defined.

(** A pattern with a class, a run and an escape, evaluated. *)
Example like_glob_values : like_match_escape [97; 95] [97; 98] (Some 95) false = false /\ like_match_escape [97; 95] [97] (Some 95) false = true /\
  glob_match [97; 91; 93; 93; 99] [97; 93; 99] = true /\ glob_match [91; 94; 93; 93] [120] = true /\ glob_match [91; 97] [97] = false.
Proof. vm_compute. done. Qed.

End Pattern.
