(* ===== verification/Eval.v ===== *)
(** Scalar expression semantics ([src/src/exec/eval.rs]): three-valued logic,
    comparison of values and of row values, integer arithmetic with its
    promotion to doubles, shifts, text to number conversion, and [sum], [total]
    and [avg].

    A double is its bit pattern, as in [Value]. Comparison, truncation and
    classification of doubles are computed; rounding arithmetic, [str::parse],
    [str::trim] and [String::from_utf8_lossy] of the standard library are the
    operations of the class [Std]. *)

From S2P Require Import Prelude Value.
Local Open Scope Z_scope.

Module Eval.
Import Value.

(** Operations of the standard library. *)
Class Std : Type := {
  f_add : Z -> Z -> Z;
  f_sub : Z -> Z -> Z;
  f_mul : Z -> Z -> Z;
  f_div : Z -> Z -> Z;
  f_of_i64 : Z -> Z;              (** [i as f64] *)
  f_parse : bytes -> option Z;    (** [str::parse::<f64>] *)
  str_trim : bytes -> bytes;      (** [str::trim] *)
  utf8_lossy : bytes -> bytes     (** [String::from_utf8_lossy] *)
}.

(** The binary operators of [sql/ast.rs]. *)
Inductive BinaryOp : Type :=
  | Or | And | OpEq | NotEq | OpLt | LtEq | OpGt | GtEq | Is | IsNot | Like | Glob
  | Add | Sub | Mul | Div | Mod | Concat | BitAnd | BitOr | LShift | RShift
  | JsonExtract | JsonExtractText.

Inductive UnaryOp : Type := Negate | Identity | Not | BitNot.

#[global] Instance BinaryOp_eq_dec : EqDecision BinaryOp.
Proof. solve_decision. Defined.

(** ** Doubles *)

Definition f_zero : Z := 0.
Definition f_neg (r : Z) : Z := Z.lxor r (2 ^ 63).
(** [util::float::abs]. *)
Definition f_abs (r : Z) : Z := if bool_decide (f64_partial_cmp r f_zero = Some Lt) then f_neg r else r.
Definition f_is_nan (r : Z) : bool := match f64_class r with FNan => true | _ => false end.
Definition f_is_finite (r : Z) : bool := match f64_class r with FFin _ _ => true | _ => false end.
(** [x != y] on doubles. *)
Definition f_ne (x y : Z) : bool := negb (bool_decide (f64_partial_cmp x y = Some Eq)).
Definition f_gt (x y : Z) : bool := bool_decide (f64_partial_cmp x y = Some Gt).
(** [r as i64]: truncation that saturates, zero for a NaN. *)
Definition f_as_i64 (r : Z) : Z :=
  match f64_key r with
  | Some _ => Z.max (- 2 ^ 63) (Z.min (2 ^ 63 - 1) (f64_trunc r))
  | None => 0
  end.

(** ** Values as numbers *)

Definition bool_value (b : bool) : Value := Integer (if b then 1 else 0).

Definition is_digit (c : Z) : bool := (48 <=? c) && (c <=? 57).
Definition is_ascii_whitespace (c : Z) : bool := bool_decide (c ∈ [9; 10; 12; 13; 32]).

(** [checked_mul] and the like: the result when it fits an [i64]. *)
Definition checked (x : Z) : option Z := if (- 2 ^ 63 <=? x) && (x <=? 2 ^ 63 - 1) then Some x else None.

(** [str::parse::<i64>]: an optional sign and at least one digit, nothing else,
    and the number fits. *)
Definition parse_i64 (s : bytes) : option Z :=
  let '(neg, ds) := match s with 45 :: t => (true, t) | 43 :: t => (false, t) | _ => (false, s) end in
  match ds with
  | [] => None
  | _ => if forallb is_digit ds then
           let v := fold_left (fun acc c => acc * 10 + (c - 48)) ds 0 in checked (if neg then - v else v)
         else None
  end.

(** The digits of [parse_int_prefix], accumulated as a negative magnitude:
    [None] on overflow. *)
Fixpoint prefix_loop (s : bytes) (acc : Z) : option Z :=
  match s with
  | c :: t =>
      if is_digit c then
        match checked (acc * 10) ≫= (fun x => checked (x - (c - 48))) with
        | Some v => prefix_loop t v
        | None => None
        end
      else Some acc
  | [] => Some acc
  end.

Fixpoint skip_ws (s : bytes) : bytes :=
  match s with c :: t => if is_ascii_whitespace c then skip_ws t else s | [] => [] end.

Definition parse_int_prefix (s : bytes) : Z :=
  let s := skip_ws s in
  let '(neg, s) := match s with 45 :: t => (true, t) | 43 :: t => (false, t) | _ => (false, s) end in
  match s with
  | c :: _ =>
      if is_digit c then
        match prefix_loop s 0 with
        | None => if neg then - 2 ^ 63 else 2 ^ 63 - 1
        | Some acc => if neg then acc else default (2 ^ 63 - 1) (checked (- acc))
        end
      else 0
  | [] => 0
  end.

(** The longest numeric prefix: the number of its bytes and whether it has a
    digit. [start] says that no byte was read yet. *)
Fixpoint digits_run (s : bytes) : Z :=
  match s with c :: t => if is_digit c then 1 + digits_run t else 0 | [] => 0 end.

Definition exp_len (s : bytes) : Z :=
  let '(k, s) := match s with c :: t => if (c =? 43) || (c =? 45) then (1, t) else (0, s) | [] => (0, []) end in
  match s with c :: _ => if is_digit c then 1 + k + digits_run s else 0 | [] => 0 end.

Fixpoint prefix_end (s : bytes) (start seen_dot seen_digit : bool) : Z * bool :=
  match s with
  | [] => (0, seen_digit)
  | c :: t =>
      if is_digit c then let '(n, d) := prefix_end t false seen_dot true in (1 + n, d)
      else if (c =? 46) && negb seen_dot then let '(n, d) := prefix_end t false true seen_digit in (1 + n, d)
      else if ((c =? 45) || (c =? 43)) && start then let '(n, d) := prefix_end t false seen_dot seen_digit in (1 + n, d)
      else if ((c =? 101) || (c =? 69)) && seen_digit then (exp_len t, seen_digit)
      else (0, seen_digit)
  end.

Section values.
Context `{Std}.

(** [parse_decimal_f64]: [f64::from_str] without its words. *)
Definition parse_decimal_f64 (t : bytes) : option Z :=
  let body := match t with c :: r => if (c =? 43) || (c =? 45) then r else t | [] => [] end in
  match body with
  | c :: _ => if is_digit c || (c =? 46) then f_parse t else None
  | [] => None
  end.

Definition parse_number (s : bytes) : Value :=
  let t := str_trim s in
  match parse_i64 t with
  | Some i => Integer i
  | None =>
      match parse_decimal_f64 t with
      | Some f => Real f
      | None =>
          let '(n, seen_digit) := prefix_end t true false false in
          if negb seen_digit then Integer 0
          else
            let prefix := take (Z.to_nat n) t in
            match parse_i64 prefix with
            | Some i => Integer i
            | None => match f_parse prefix with Some f => Real f | None => Integer 0 end
            end
      end
  end.

(** [to_number_strict]: only text that is a number from end to end. *)
Definition to_number_strict (v : Value) : option Value :=
  match v with
  | Integer _ | Real _ => Some v
  | Text s => let t := str_trim (as_str s) in
              match parse_i64 t with Some i => Some (Integer i) | None => Real <$> parse_decimal_f64 t end
  | _ => None
  end.

Definition to_number (v : Value) : Value :=
  match v with
  | Integer _ | Real _ => v
  | Null => Null
  | Text s => parse_number (as_str s)
  | Blob b => parse_number (utf8_lossy b)
  end.

Definition number_as_f64 (v : Value) : Z :=
  match v with Integer i => f_of_i64 i | Real r => r | _ => f_zero end.

Definition to_i64 (v : Value) : Z :=
  match to_number v with Integer i => i | Real r => f_as_i64 r | _ => 0 end.

Definition to_f64 (v : Value) : Z := number_as_f64 (to_number v).

Definition to_int_value (v : Value) : Z :=
  match v with
  | Integer i => i
  | Real r => f_as_i64 r
  | Text s => parse_int_prefix (as_str s)
  | Blob b => parse_int_prefix (utf8_lossy b)
  | Null => 0
  end.

(** [truth]: [None] is NULL. *)
Definition truth (v : Value) : option bool :=
  match v with
  | Null => None
  | Integer i => Some (negb (i =? 0))
  | Real r => Some (f_ne r f_zero)
  | Text _ | Blob _ => Some (f_ne (number_as_f64 (to_number v)) f_zero)
  end.

(** ** Comparison *)

Definition compare (a b : Value) : comparison := cmp_values a b.

Definition is_null (v : Value) : bool := match v with Null => true | _ => false end.

(** The six comparison operators on an ordering; [None] for another operator. *)
Definition decide_op (op : BinaryOp) (ord : comparison) : option bool :=
  match op with
  | OpEq => Some (match ord with Eq => true | _ => false end)
  | NotEq => Some (match ord with Eq => false | _ => true end)
  | OpLt => Some (match ord with Lt => true | _ => false end)
  | LtEq => Some (match ord with Gt => false | _ => true end)
  | OpGt => Some (match ord with Gt => true | _ => false end)
  | GtEq => Some (match ord with Lt => false | _ => true end)
  | _ => None
  end.

(** [compare_op]; another operator is [unreachable!]. *)
Definition compare_op (reg : Registry) (op : BinaryOp) (l r : Value) (coll : Collation) : res Value :=
  if is_null l || is_null r then Ok Null
  else match decide_op op (cmp_values_coll reg l r coll) with
       | Some b => Ok (bool_value b)
       | None => Panic
       end.

Definition is_values (is_ : bool) (l r : Value) : Value :=
  let eq := match l, r with
            | Null, Null => true
            | Null, _ | _, Null => false
            | _, _ => bool_decide (compare l r = Eq)
            end in
  bool_value (Bool.eqb eq is_).

(** ** Three-valued logic *)

Definition and3 (a b : Value) : Value :=
  if bool_decide (a = Integer 0) || bool_decide (b = Integer 0) then bool_value false
  else if is_null a || is_null b then Null
  else bool_value true.

Definition not3 (a : Value) : Value :=
  match a with Null => Null | Integer 0 => bool_value true | _ => bool_value false end.

(** The equality loop of [fold_row_comparison]. *)
Fixpoint fold_eq (want_ne : bool) (unknown : bool) (cmps : list (option comparison)) : Value :=
  match cmps with
  | [] => if unknown then Null else bool_value (negb want_ne)
  | None :: cs => fold_eq want_ne true cs
  | Some Eq :: cs => fold_eq want_ne unknown cs
  | Some _ :: _ => bool_value want_ne
  end.

(** Its ordering loop: the answers for a smaller, a greater and an equal row. *)
Fixpoint fold_ord (lt gt eq : bool) (cmps : list (option comparison)) : Value :=
  match cmps with
  | [] => bool_value eq
  | None :: _ => Null
  | Some Eq :: cs => fold_ord lt gt eq cs
  | Some Lt :: _ => bool_value lt
  | Some Gt :: _ => bool_value gt
  end.

Definition fold_row_comparison (op : BinaryOp) (cmps : list (option comparison)) : Value :=
  match op with
  | OpEq => fold_eq false false cmps
  | NotEq => fold_eq true false cmps
  | OpLt => fold_ord true false false cmps
  | LtEq => fold_ord true false true cmps
  | OpGt => fold_ord false true false cmps
  | GtEq => fold_ord false true true cmps
  | _ => Null
  end.

Section connectives.
Context {Expr : Type} (eval : Expr -> res Value).

Definition eval_and (left right : Expr) : res Value :=
  let* lv := eval left in
  let l := truth lv in
  if bool_decide (l = Some false) then Ok (bool_value false)
  else
    let* rv := eval right in
    Ok (match l, truth rv with
        | Some true, Some true => bool_value true
        | _, Some false => bool_value false
        | _, _ => Null
        end).

Definition eval_or (left right : Expr) : res Value :=
  let* lv := eval left in
  let l := truth lv in
  if bool_decide (l = Some true) then Ok (bool_value true)
  else
    let* rv := eval right in
    Ok (match l, truth rv with
        | Some false, Some false => bool_value false
        | _, Some true => bool_value true
        | _, _ => Null
        end).

End connectives.

(** ** Arithmetic *)

(** [shift_left] and [shift_right] call each other at most once: the right shift
    of a non-negative amount, then the two functions. *)
Definition shr_pos (a b : Z) : Z := if 64 <=? b then (if a <? 0 then -1 else 0) else Z.shiftr a b.
Definition shl_pos (a b : Z) : Z := if 64 <=? b then 0 else to_signed 64 (wrap 64 (Z.shiftl (to_unsigned 64 a) b)).

Definition saturating_neg (b : Z) : Z := if b =? - 2 ^ 63 then 2 ^ 63 - 1 else - b.

Definition shift_left (a b : Z) : Z := if b <? 0 then shr_pos a (saturating_neg b) else shl_pos a b.
Definition shift_right (a b : Z) : Z := if b <=? -64 then 0 else if b <? 0 then shl_pos a (- b) else shr_pos a b.

Definition bitwise_values (op : BinaryOp) (l r : Value) : Value :=
  if is_null l || is_null r then Null
  else
    let a := to_i64 l in
    let b := to_i64 r in
    match op with
    | BitAnd => Integer (Z.land a b)
    | BitOr => Integer (Z.lor a b)
    | LShift => Integer (shift_left a b)
    | RShift => Integer (shift_right a b)
    | _ => Null
    end.

(** An integer result when it fits, else the double. *)
Definition promote (x : Z) (real : Z) : Value := match checked x with Some i => Integer i | None => Real real end.

Definition int_arith (op : BinaryOp) (a b : Z) : res Value :=
  match op with
  | Add => Ok (promote (a + b) (f_add (f_of_i64 a) (f_of_i64 b)))
  | Sub => Ok (promote (a - b) (f_sub (f_of_i64 a) (f_of_i64 b)))
  | Mul => Ok (promote (a * b) (f_mul (f_of_i64 a) (f_of_i64 b)))
  | Div => Ok (if b =? 0 then Null else promote (Z.quot a b) (f_div (f_of_i64 a) (f_of_i64 b)))
  | Mod => Ok (if b =? 0 then Null else Integer (Z.rem a b))
  | _ => Panic
  end.

Definition real_or_null (r : Z) : Value := if f_is_nan r then Null else Real r.

Definition real_arith (op : BinaryOp) (a b : Z) : res Value :=
  match op with
  | Add => Ok (real_or_null (f_add a b))
  | Sub => Ok (real_or_null (f_sub a b))
  | Mul => Ok (real_or_null (f_mul a b))
  | Div => Ok (if negb (f_ne b f_zero) then Null else real_or_null (f_div a b))
  | Mod =>
      let bi := f_as_i64 b in
      Ok (if bi =? 0 then Null else Real (f_of_i64 (Z.rem (f_as_i64 a) bi)))
  | _ => Panic
  end.

Definition arithmetic (op : BinaryOp) (l r : Value) : res Value :=
  if is_null l || is_null r then Ok Null
  else
    let ln := to_number l in
    let rn := to_number r in
    match ln, rn with
    | Integer a, Integer b => int_arith op a b
    | _, _ => real_arith op (number_as_f64 ln) (number_as_f64 rn)
    end.

Definition eval_unary (op : UnaryOp) (v : Value) : Value :=
  match op with
  | Identity => v
  | Negate =>
      match to_number v with
      | Integer i => promote (- i) (f_neg (f_of_i64 i))
      | Real r => Real (f_neg r)
      | _ => Null
      end
  | Not => match truth v with None => Null | Some b => bool_value (negb b) end
  | BitNot => match v with Null => Null | _ => Integer (Z.lnot (to_i64 v)) end
  end.

(** ** Sums *)

Record SumAccum : Type := mkSum { i_sum : Z; ovrfl : bool; approx : bool; r_sum : Z; r_err : Z }.

Definition kbn_step (a : SumAccum) (r : Z) : SumAccum :=
  let s := r_sum a in
  let t := f_add s r in
  let err := if f_gt (f_abs s) (f_abs r) then f_add (r_err a) (f_add (f_sub s t) r)
             else f_add (r_err a) (f_add (f_sub r t) s) in
  mkSum (i_sum a) (ovrfl a) (approx a) t err.

Definition big_int (v : Z) : bool := (v <=? -4503599627370496) || (4503599627370496 <=? v).

Definition kbn_step_i64 (a : SumAccum) (v : Z) : SumAccum :=
  if big_int v then let sm := Z.rem v 16384 in kbn_step (kbn_step a (f_of_i64 (v - sm))) (f_of_i64 sm)
  else kbn_step a (f_of_i64 v).

Definition kbn_init (a : SumAccum) (v : Z) : SumAccum :=
  if big_int v then let sm := Z.rem v 16384 in mkSum (i_sum a) (ovrfl a) (approx a) (f_of_i64 (v - sm)) (f_of_i64 sm)
  else mkSum (i_sum a) (ovrfl a) (approx a) (f_of_i64 v) f_zero.

Definition set_flags (a : SumAccum) (o p : bool) : SumAccum := mkSum (i_sum a) o p (r_sum a) (r_err a).

(** One value of [accumulate]. *)
Definition sum_step (a : SumAccum) (v : Value) : SumAccum :=
  match to_number_strict v with
  | Some (Integer iv) =>
      if approx a then kbn_step_i64 a iv
      else match checked (i_sum a + iv) with
           | Some x => mkSum x (ovrfl a) (approx a) (r_sum a) (r_err a)
           | None => kbn_step_i64 (set_flags (kbn_init (set_flags a true (approx a)) (i_sum a)) true true) iv
           end
  | _ =>
      if approx a then kbn_step (set_flags a false (approx a)) (to_f64 v)
      else kbn_step (set_flags (kbn_init a (i_sum a)) (ovrfl a) true) (to_f64 v)
  end.

Definition accumulate (vals : list Value) : SumAccum := fold_left sum_step vals (mkSum 0 false false f_zero f_zero).

Definition kbn_result (a : SumAccum) : Z := if f_is_finite (r_err a) then f_add (r_sum a) (r_err a) else r_sum a.

Definition sum_values (vals : list Value) : res Value :=
  match vals with
  | [] => Ok Null
  | _ =>
      let a := accumulate vals in
      if negb (approx a) then Ok (Integer (i_sum a))
      else if ovrfl a then Err (EError "integer overflow")
      else Ok (Real (kbn_result a))
  end.

Definition total_value (vals : list Value) : Z :=
  let a := accumulate vals in if approx a then kbn_result a else f_of_i64 (i_sum a).

Definition avg_value (vals : list Value) : option Z :=
  match vals with
  | [] => None
  | _ => let a := accumulate vals in
         let r := if approx a then kbn_result a else f_of_i64 (i_sum a) in
         Some (f_div r (f_of_i64 (zlen vals)))
  end.

End values.

End Eval.
