(* ===== verification/EvalProps.v ===== *)
(** Expression semantics, continued: the connectives and the comparison of row
    values are Kleene's three-valued logic, integer arithmetic and shifts are
    those of the integers up to the range of an [i64], text is read as the
    number it starts with, and integer sums are exact or refused. *)

From S2P Require Import Prelude Value Decimal Eval.
Local Open Scope Z_scope.

Module EvalProps.
Import Value Eval.

(** ** Three-valued logic *)

Definition k_not (a : option bool) : option bool := negb <$> a.

Definition k_and (a b : option bool) : option bool :=
  match a, b with
  | Some false, _ | _, Some false => Some false
  | Some true, Some true => Some true
  | _, _ => None
  end.

Definition k_or (a b : option bool) : option bool :=
  match a, b with
  | Some true, _ | _, Some true => Some true
  | Some false, Some false => Some false
  | _, _ => None
  end.

(** The SQL value of a truth value. *)
Definition of_truth (a : option bool) : Value := match a with Some b => bool_value b | None => Null end.

(** The comparison of one pair of elements, unknown when one is NULL. *)
Definition elem (op : BinaryOp) (c : option comparison) : option bool := c ≫= decide_op op.

(** Row comparison as the SQL standard spells it out: [a < b] for rows is
    [a1 < b1 OR (a1 = b1 AND a' < b')], and so on. *)
Fixpoint row_order (strict : BinaryOp) (last : bool) (cs : list (option comparison)) : option bool :=
  match cs with
  | [] => Some last
  | c :: cs => k_or (elem strict c) (k_and (elem OpEq c) (row_order strict last cs))
  end.

Definition row_spec (op : BinaryOp) (cs : list (option comparison)) : option bool :=
  match op with
  | OpEq => fold_right (fun c acc => k_and (elem OpEq c) acc) (Some true) cs
  | NotEq => fold_right (fun c acc => k_or (elem NotEq c) acc) (Some false) cs
  | OpLt => row_order OpLt false cs
  | LtEq => row_order OpLt true cs
  | OpGt => row_order OpGt false cs
  | GtEq => row_order OpGt true cs
  | _ => None
  end.

Lemma fold_eq_spec unknown cs : fold_eq false unknown cs =
  of_truth (k_and (if unknown then None else Some true) (row_spec OpEq cs)).
Proof.
  revert unknown. induction cs as [|c cs IH]; intros unknown; [by destruct unknown|].
  destruct c as [[]|]; cbn [fold_eq row_spec fold_right elem mbind option_bind decide_op]; rewrite ?IH; cbn [row_spec];
    by destruct unknown, (fold_right _ _ cs) as [[]|].
Qed.

Lemma fold_ne_spec unknown cs : fold_eq true unknown cs =
  of_truth (k_or (if unknown then None else Some false) (row_spec NotEq cs)).
Proof.
  revert unknown. induction cs as [|c cs IH]; intros unknown; [by destruct unknown|].
  destruct c as [[]|]; cbn [fold_eq row_spec fold_right elem mbind option_bind decide_op]; rewrite ?IH; cbn [row_spec];
    by destruct unknown, (fold_right _ _ cs) as [[]|].
Qed.

Lemma fold_lt_spec last cs : fold_ord true false last cs = of_truth (row_order OpLt last cs).
Proof.
  induction cs as [|c cs IH]; [done|]. destruct c as [[]|]; cbn [fold_ord row_order elem mbind option_bind decide_op]; rewrite ?IH; by destruct (row_order _ _ cs) as [[]|].
Qed.

Lemma fold_gt_spec last cs : fold_ord false true last cs = of_truth (row_order OpGt last cs).
Proof.
  induction cs as [|c cs IH]; [done|]. destruct c as [[]|]; cbn [fold_ord row_order elem mbind option_bind decide_op]; rewrite ?IH; by destruct (row_order _ _ cs) as [[]|].
Qed.

Lemma fold_row_spec op cs : fold_row_comparison op cs = of_truth (row_spec op cs).
Proof.
  destruct op; try done; cbn [fold_row_comparison].
  - rewrite fold_eq_spec. by destruct (row_spec OpEq cs) as [[]|].
  - rewrite fold_ne_spec. by destruct (row_spec NotEq cs) as [[]|].
  - apply fold_lt_spec.
  - apply fold_lt_spec.
  - apply fold_gt_spec.
  - apply fold_gt_spec.
Qed.

Section logic.
Context `{!Std} {Expr : Type} (eval : Expr -> res Value).

Lemma eval_and_kleene left right lv rv : eval left = Ok lv -> eval right = Ok rv ->
  eval_and eval left right = Ok (of_truth (k_and (truth lv) (truth rv))).
Proof.
  intros El Er. unfold eval_and. rewrite El. bind_step. cbv zeta. destruct (truth lv) as [[]|] eqn:Et; cbn; try done; rewrite Er; bind_step; by destruct (truth rv) as [[]|].
Qed.

Lemma eval_or_kleene left right lv rv : eval left = Ok lv -> eval right = Ok rv ->
  eval_or eval left right = Ok (of_truth (k_or (truth lv) (truth rv))).
Proof.
  intros El Er. unfold eval_or. rewrite El. bind_step. cbv zeta. destruct (truth lv) as [[]|] eqn:Et; cbn; try done; rewrite Er; bind_step; by destruct (truth rv) as [[]|].
Qed.

Lemma truth_of a : truth (of_truth a) = a.
Proof. by destruct a as [[]|]. Qed.

End logic.

(** C26: SQL's logic is Kleene's. [AND], [OR] and [NOT] compute the three-valued
    connectives on the truth of their operands; [AND] after a false and [OR]
    after a true operand answer without evaluating the other one; the helpers
    for comparison results agree; and the comparison of row values is what the
    SQL standard expands it to, element by element, for every operator and any
    pattern of NULLs. *)
Theorem sql_logic_kleene `{!Std} (Expr : Type) (eval : Expr -> res Value) :
  (forall left right lv rv, eval left = Ok lv -> eval right = Ok rv ->
    eval_and eval left right = Ok (of_truth (k_and (truth lv) (truth rv))) /\
    eval_or eval left right = Ok (of_truth (k_or (truth lv) (truth rv)))) /\
  (forall left right lv, eval left = Ok lv ->
    (truth lv = Some false -> eval_and eval left right = Ok (bool_value false)) /\
    (truth lv = Some true -> eval_or eval left right = Ok (bool_value true))) /\
  (forall v, eval_unary Not v = of_truth (k_not (truth v)) /\ not3 (of_truth (truth v)) = eval_unary Not v) /\
  (forall a b, and3 (of_truth a) (of_truth b) = of_truth (k_and a b)) /\
  (forall op cs, fold_row_comparison op cs = of_truth (row_spec op cs)).
Proof.
  split; [|split; [|split; [|split; [|exact fold_row_spec]]]].
  - intros left right lv rv El Er. split; [by apply eval_and_kleene|by apply eval_or_kleene].
  - intros left right lv El. unfold eval_and, eval_or. rewrite El. do 2 bind_step. split; intros Et; rewrite Et; done.
  - intros v. cbn [eval_unary]. by destruct (truth v) as [[]|].
  - by intros [[]|] [[]|].
Qed.

(** ** Integers *)

Lemma checked_Some x : is_i64 x -> checked x = Some x.
Proof. unfold is_i64, is_sint, checked. intros. destruct (Z.leb_spec (- 2 ^ 63) x); [|lia]. by destruct (Z.leb_spec x (2 ^ 63 - 1)); [|lia]. Qed.

Lemma checked_None x : ~ is_i64 x -> checked x = None.
Proof. unfold is_i64, is_sint, checked. intros. destruct (Z.leb_spec (- 2 ^ 63) x), (Z.leb_spec x (2 ^ 63 - 1)); try done. lia. Qed.

Lemma is_i64_dec x : is_i64 x \/ ~ is_i64 x.
Proof. unfold is_i64, is_sint. lia. Qed.

Lemma div_big a b : is_i64 a -> 64 <= b -> a / 2 ^ b = if a <? 0 then -1 else 0.
Proof.
  unfold is_i64, is_sint. intros Ha Hb. assert (2 ^ 64 <= 2 ^ b) by (apply Z.pow_le_mono_r; lia). destruct (Z.ltb_spec a 0).
  - symmetry. apply Z.div_unique with (a + 2 ^ b); [left|]; lia.
  - apply Z.div_small. lia.
Qed.

(** The right shift of any amount is the division that rounds down. *)
Lemma shr_pos_div a b : is_i64 a -> 0 <= b -> shr_pos a b = a / 2 ^ b.
Proof. intros Ha Hb. unfold shr_pos. destruct (Z.leb_spec 64 b); [by rewrite div_big|by rewrite Z.shiftr_div_pow2]. Qed.

(** The left shift of any amount is multiplication modulo [2^64]. *)
Lemma shl_pos_mul a b : 0 <= b -> shl_pos a b = to_signed 64 (wrap 64 (a * 2 ^ b)).
Proof.
  intros Hb. unfold shl_pos. destruct (Z.leb_spec 64 b).
  - assert (wrap 64 (a * 2 ^ b) = 0) as ->; [|done]. unfold wrap. replace b with (b - 64 + 64) by lia. rewrite Z.pow_add_r, Z.mul_assoc by lia. by rewrite Z.mod_mul.
  - f_equal. unfold wrap, to_unsigned. rewrite Z.shiftl_mul_pow2 by lia. unfold wrap. by rewrite Z.mul_mod_idemp_l.
Qed.

Lemma shift_left_spec a b : is_i64 a -> is_i64 b ->
  shift_left a b = if 0 <=? b then to_signed 64 (wrap 64 (a * 2 ^ b)) else a / 2 ^ (- b).
Proof.
  intros Ha Hb. unfold shift_left. destruct (Z.ltb_spec b 0), (Z.leb_spec 0 b); try lia; [|by apply shl_pos_mul]. unfold saturating_neg.
  destruct (Z.eqb_spec b (- 2 ^ 63)) as [->|]; [|apply shr_pos_div; [done|lia]]. rewrite shr_pos_div by (try done; lia). by rewrite !div_big by (try done; lia).
Qed.

Lemma shift_right_spec a b : is_i64 a ->
  shift_right a b = if 0 <=? b then a / 2 ^ b else to_signed 64 (wrap 64 (a * 2 ^ (- b))).
Proof.
  intros Ha. unfold shift_right. destruct (Z.leb_spec b (-64)), (Z.ltb_spec b 0), (Z.leb_spec 0 b); try lia.
  - rewrite <- shl_pos_mul by lia. unfold shl_pos. by destruct (Z.leb_spec 64 (- b)); [|lia].
  - apply shl_pos_mul. lia.
  - apply shr_pos_div; [done|lia].
Qed.

(** C27: integer operators. On [i64] operands, addition, subtraction and
    multiplication give the exact integer when it fits and a double otherwise;
    division and remainder by zero give NULL, and otherwise the truncated
    quotient and the remainder that go with each other, the only exception
    being the quotient [2^63], which becomes a double; a shift by any amount,
    negative ones included, multiplies modulo [2^64] or divides rounding
    down. *)
Theorem integer_operators `{!Std} (a b : Z) (Ha : is_i64 a) (Hb : is_i64 b) :
  (forall op x, In (op, x) [(Add, a + b); (Sub, a - b); (Mul, a * b)] ->
    (is_i64 x -> arithmetic op (Integer a) (Integer b) = Ok (Integer x)) /\
    (~ is_i64 x -> exists r, arithmetic op (Integer a) (Integer b) = Ok (Real r))) /\
  (b = 0 -> arithmetic Div (Integer a) (Integer b) = Ok Null /\ arithmetic Mod (Integer a) (Integer b) = Ok Null) /\
  (b <> 0 -> exists q r, a = q * b + r /\ Z.abs r < Z.abs b /\ 0 <= r * a /\ arithmetic Mod (Integer a) (Integer b) = Ok (Integer r) /\ is_i64 r /\
    (q <> 2 ^ 63 -> arithmetic Div (Integer a) (Integer b) = Ok (Integer q) /\ is_i64 q) /\
    (q = 2 ^ 63 -> exists d, arithmetic Div (Integer a) (Integer b) = Ok (Real d))) /\
  bitwise_values LShift (Integer a) (Integer b) = Integer (if 0 <=? b then to_signed 64 (wrap 64 (a * 2 ^ b)) else a / 2 ^ (- b)) /\
  bitwise_values RShift (Integer a) (Integer b) = Integer (if 0 <=? b then a / 2 ^ b else to_signed 64 (wrap 64 (a * 2 ^ (- b)))).
Proof.
  split; [|split; [|split; [|split]]].
  - intros op x [[= <- <-]|[[= <- <-]|[[= <- <-]|[]]]]; cbn [arithmetic int_arith to_number is_null orb]; unfold promote;
      (split; intros Hx; [by rewrite checked_Some|rewrite checked_None by done; by eexists]).
  - intros ->. done.
  - intros Hn. exists (Z.quot a b), (Z.rem a b). pose proof (Z.quot_rem' a b) as Eq. pose proof (Z.rem_bound_abs a b Hn) as Hr. pose proof (Z.rem_sign_mul a b Hn) as Hs.
    unfold is_i64, is_sint in Ha, Hb.
    assert (Z.abs (Z.quot a b) <= Z.abs a) as Hq by (rewrite <- Z.quot_abs by done; apply Z.quot_le_upper_bound; nia).
    split; [lia|]. split; [done|]. split; [nia|]. cbn [arithmetic int_arith to_number is_null orb]. destruct (Z.eqb_spec b 0); [done|].
    split; [done|]. split; [unfold is_i64, is_sint; lia|]. unfold promote. split.
    + intros H63. assert (is_i64 (Z.quot a b)) as Hi by (unfold is_i64, is_sint; lia). by rewrite checked_Some.
    + intros ->. rewrite checked_None by (unfold is_i64, is_sint; lia). by eexists.
  - cbn [bitwise_values is_null orb]. unfold to_i64. cbn [to_number]. by rewrite shift_left_spec.
  - cbn [bitwise_values is_null orb]. unfold to_i64. cbn [to_number]. by rewrite shift_right_spec.
Qed.

(** An instance of the standard operations, to evaluate examples with. *)
Definition std_demo : Std :=
  {| f_add := Z.add; f_sub := Z.sub; f_mul := Z.mul; f_div := Z.div; f_of_i64 := fun i => i; f_parse := fun _ => None; str_trim := fun s => s; utf8_lossy := fun s => s |}.

(** The smallest [i64] divided by minus one, and shifted by a huge negative
    amount. *)
Lemma integer_operators_witness : let _ := std_demo in
  arithmetic Mod (Integer (- 2 ^ 63)) (Integer (-1)) = Ok (Integer 0) /\ (exists d, arithmetic Div (Integer (- 2 ^ 63)) (Integer (-1)) = Ok (Real d)) /\
  bitwise_values LShift (Integer (- 2 ^ 63)) (Integer (-1)) = Integer (- 2 ^ 62).
Proof.
  intros S. destruct (@integer_operators S (- 2 ^ 63) (-1)) as (_ & _ & Hd & Hl & _); [unfold is_i64, is_sint; lia..|].
  destruct (Hd ltac:(lia)) as (q & r & E & Hr & _ & Em & _ & _ & Hq). assert (r = 0) as -> by lia. split; [exact Em|]. split; [apply Hq; lia|]. rewrite Hl. reflexivity.
Defined.

(** ** Text as an integer *)

Definition clamp (x : Z) : Z := Z.max (- 2 ^ 63) (Z.min (2 ^ 63 - 1) x).

Lemma is_digit_text d : 0 <= d <= 9 -> is_digit (d + 48) = true.
Proof. unfold is_digit. intros. destruct (Z.leb_spec 48 (d + 48)); [|lia]. by destruct (Z.leb_spec (d + 48) 57); [|lia]. Qed.

Definition no_digit (s : bytes) : Prop := match s with c :: _ => is_digit c = false | [] => True end.

Lemma prefix_loop_spec ds rest : forall acc, Decimal.digits_ok ds -> no_digit rest -> - 2 ^ 63 <= acc <= 0 ->
  prefix_loop (Decimal.ascii ds ++ rest) acc = checked (acc * 10 ^ zlen ds - Decimal.dval ds).
Proof.
  induction ds as [|d ds IH]; intros acc Hd Hr Ha.
  { change (zlen (@nil Z)) with 0. change (Decimal.dval []) with 0. rewrite Z.mul_1_r, Z.sub_0_r, checked_Some by (unfold is_i64, is_sint; lia).
    destruct rest as [|c rest]; [done|]. cbn in *. by rewrite Hr. }
  apply Forall_cons in Hd as [Hd Hds]. pose proof (Decimal.dval_bound ds Hds) as Hb. pose proof (zlen_nonneg ds).
  cbn [Decimal.ascii fmap list_fmap app prefix_loop]. rewrite is_digit_text, Z.add_simpl_r by done. rewrite Decimal.dval_cons, zlen_cons, Z.pow_add_r, Z.pow_1_r by lia.
  set (p := 10 ^ zlen ds) in *. assert (acc * (p * 10) - (d * p + Decimal.dval ds) = (acc * 10 - d) * p - Decimal.dval ds) as -> by lia.
  assert (forall x, x < - 2 ^ 63 -> x * p - Decimal.dval ds < - 2 ^ 63) as Hlow by (intros x Hx; nia).
  destruct (is_i64_dec (acc * 10)) as [H1|H1]; [rewrite (checked_Some _ H1); cbn [mbind option_bind]|].
  - destruct (is_i64_dec (acc * 10 - d)) as [H2|H2]; [rewrite (checked_Some _ H2); apply IH; unfold is_i64, is_sint in *; (done || lia)|].
    rewrite (checked_None _ H2). symmetry. apply checked_None. unfold is_i64, is_sint in *. specialize (Hlow (acc * 10 - d)). lia.
  - rewrite (checked_None _ H1). symmetry. apply checked_None. unfold is_i64, is_sint in *. specialize (Hlow (acc * 10 - d)). lia.
Qed.

(** [CAST(text AS INTEGER)] reads the number the text starts with, and
    saturates. *)
Lemma int_prefix_saturates ws sg ds rest : Forall (fun c => is_ascii_whitespace c = true) ws -> Decimal.digits_ok ds -> ds <> [] -> no_digit rest ->
  parse_int_prefix (ws ++ Decimal.sign_text sg ++ Decimal.ascii ds ++ rest) = clamp (if sg is Some true then - Decimal.dval ds else Decimal.dval ds).
Proof.
  intros Hw Hd Hn Hr. unfold parse_int_prefix. destruct ds as [|d ds]; [done|]. pose proof (Decimal.dval_bound _ Hd) as Hb. apply Forall_cons in Hd as Hd'. destruct Hd' as [Hd0 _].
  assert (skip_ws (ws ++ Decimal.sign_text sg ++ Decimal.ascii (d :: ds) ++ rest) = Decimal.sign_text sg ++ Decimal.ascii (d :: ds) ++ rest) as ->.
  { induction Hw as [|c ws Hc Hw IH]; cbn [app skip_ws]; [|by rewrite Hc]. destruct sg as [[|]|]; [done..|]. cbn [Decimal.sign_text app Decimal.ascii fmap list_fmap skip_ws].
    assert (is_ascii_whitespace (d + 48) = false) as ->; [|done]. apply bool_decide_eq_false_2. rewrite !elem_of_cons, elem_of_nil. lia. }
  assert (match Decimal.sign_text sg ++ Decimal.ascii (d :: ds) ++ rest with 45 :: t => (true, t) | 43 :: t => (false, t) | _ => (false, Decimal.sign_text sg ++ Decimal.ascii (d :: ds) ++ rest) end
    = (if sg is Some true then true else false, Decimal.ascii (d :: ds) ++ rest)) as ->.
  { destruct sg as [[|]|]; [done..|]. cbn. repeat (case_match; try done); lia. }
  pose proof (prefix_loop_spec (d :: ds) rest 0 Hd Hr ltac:(lia)) as E. rewrite Z.mul_0_l, Z.sub_0_l in E. set (v := Decimal.dval (d :: ds)) in *.
  change (Decimal.ascii (d :: ds) ++ rest) with (d + 48 :: Decimal.ascii ds ++ rest) in *. cbv beta iota zeta. rewrite is_digit_text by done. rewrite E. unfold clamp.
  destruct (is_i64_dec (- v)) as [H1|H1]; [rewrite (checked_Some _ H1)|rewrite (checked_None _ H1)]; unfold is_i64, is_sint in H1.
  - destruct sg as [[|]|]; [lia|..]; rewrite Z.opp_involutive; (destruct (is_i64_dec v) as [H2|H2]; [rewrite (checked_Some _ H2); change (default (2 ^ 63 - 1) (Some v)) with v|rewrite (checked_None _ H2); change (default (2 ^ 63 - 1) None) with (2 ^ 63 - 1)]);
      unfold is_i64, is_sint in H2; lia.
  - destruct sg as [[|]|]; lia.
Qed.

(** ** Sums *)

(** Every partial sum fits an [i64]. *)
Fixpoint sums_fit (s : Z) (zs : list Z) : bool :=
  match zs with
  | [] => true
  | z :: zs => match checked (s + z) with Some x => sums_fit x zs | None => false end
  end.

Section sums.
Context `{!Std}.

Lemma kbn_step_flags a r : approx (kbn_step a r) = approx a /\ ovrfl (kbn_step a r) = ovrfl a.
Proof. done. Qed.

Lemma kbn_step_i64_flags a v : approx (kbn_step_i64 a v) = approx a /\ ovrfl (kbn_step_i64 a v) = ovrfl a.
Proof. unfold kbn_step_i64. by destruct (big_int v). Qed.

Lemma sum_overflowed zs : forall a, approx a = true -> ovrfl a = true -> approx (fold_left sum_step (Integer <$> zs) a) = true /\ ovrfl (fold_left sum_step (Integer <$> zs) a) = true.
Proof.
  induction zs as [|z zs IH]; intros a Ha Ho; [done|]. cbn [fmap list_fmap fold_left]. apply IH; unfold sum_step; cbn [to_number_strict]; rewrite Ha; by rewrite (proj1 (kbn_step_i64_flags _ _)) || rewrite (proj2 (kbn_step_i64_flags _ _)).
Qed.

Lemma sum_fold zs : forall a, approx a = false ->
  if sums_fit (i_sum a) zs then approx (fold_left sum_step (Integer <$> zs) a) = false /\ i_sum (fold_left sum_step (Integer <$> zs) a) = fold_left Z.add zs (i_sum a)
  else approx (fold_left sum_step (Integer <$> zs) a) = true /\ ovrfl (fold_left sum_step (Integer <$> zs) a) = true.
Proof.
  induction zs as [|z zs IH]; intros a Ha; [done|]. cbn [fmap list_fmap fold_left sums_fit]. unfold sum_step at 2 4 6 8. cbn [to_number_strict]. rewrite Ha.
  destruct (is_i64_dec (i_sum a + z)) as [H1|H1]; [rewrite (checked_Some _ H1)|rewrite (checked_None _ H1)].
  - exact (IH (mkSum (i_sum a + z) (ovrfl a) false (r_sum a) (r_err a)) eq_refl).
  - apply sum_overflowed; [by rewrite (proj1 (kbn_step_i64_flags _ _))|by rewrite (proj2 (kbn_step_i64_flags _ _))].
Qed.

(** The sum of integers is exact while the partial sums fit, else an error. *)
Lemma sum_integers z zs : sum_values (Integer <$> (z :: zs)) =
  if sums_fit 0 (z :: zs) then Ok (Integer (fold_left Z.add (z :: zs) 0)) else Err (EError "integer overflow").
Proof.
  unfold sum_values. pose proof (sum_fold (z :: zs) (mkSum 0 false false f_zero f_zero) eq_refl) as Hs. cbn [i_sum] in Hs. change (Integer <$> z :: zs) with (Integer z :: (Integer <$> zs)) in *.
  cbv zeta. change (accumulate (Integer z :: (Integer <$> zs))) with (fold_left sum_step (Integer z :: (Integer <$> zs)) (mkSum 0 false false f_zero f_zero)).
  destruct (sums_fit 0 (z :: zs)); destruct Hs as [-> ->]; done.
Qed.

End sums.

End EvalProps.
