(* ===== verification/Base64.v ===== *)
(** The text codec [base64] ([src/src/util/base64.rs]): the wrapped encoder and
    the lenient decoder. Encoded text is ASCII, a list of bytes. The cursor
    [pos] of the decoder is the text that is left; [nc_in] counts the characters
    that may still be read. *)

From S2P Require Import Prelude.
Local Open Scope Z_scope.

Module Base64.

Definition B64_NUMERALS : bytes :=
  seqZ 65 26 ++ seqZ 97 26 ++ seqZ 48 10 ++ [43; 47].

Definition B64_DARK_MAX : Z := 72.

Definition PC : Z := 0x80.
Definition WS : Z := 0x81.
Definition ND : Z := 0x82.

Definition B64_DIGIT_VALUES : bytes :=
  [ND; ND; ND; ND; ND; ND; ND; ND; ND; WS; WS; WS; WS; WS; ND; ND;
   ND; ND; ND; ND; ND; ND; ND; ND; ND; ND; ND; ND; ND; ND; ND; ND;
   WS; ND; ND; ND; ND; ND; ND; ND; ND; ND; ND; 62; ND; ND; ND; 63;
   52; 53; 54; 55; 56; 57; 58; 59; 60; 61; ND; ND; ND; PC; ND; ND;
   ND; 0; 1; 2; 3; 4; 5; 6; 7; 8; 9; 10; 11; 12; 13; 14;
   15; 16; 17; 18; 19; 20; 21; 22; 23; 24; 25; ND; ND; ND; ND; ND;
   ND; 26; 27; 28; 29; 30; 31; 32; 33; 34; 35; 36; 37; 38; 39; 40;
   41; 42; 43; 44; 45; 46; 47; 48; 49; 50; 51; ND; ND; ND; ND; ND].

Definition digit_value (c : Z) : res Z := if c <? 0x80 then idx B64_DIGIT_VALUES c else Ok PC.

Definition is_digit (bdp : Z) : bool := bdp <? 0x80.

(** One or two bytes left: the padded quad. *)
Definition encode_tail (p_in : bytes) : res bytes :=
  let nb_in := zlen p_in in
  let nco := nb_in + 1 in
  let* b0 := idx p_in 0 in
  let* b1 := if 1 <? nb_in then idx p_in 1 else Ok 0 in
  let qv := Z.shiftl (Z.lor (Z.shiftl b0 8) b1) 8 in
  let numeral nbe v := if nbe <? nco then idx B64_NUMERALS (Z.land v 0x3f) else Ok 61 in
  let* c3 := numeral 3 qv in
  let* c2 := numeral 2 (Z.shiftr qv 6) in
  let* c1 := numeral 1 (Z.shiftr qv 12) in
  let* c0 := numeral 0 (Z.shiftr qv 18) in
  Ok [c0; c1; c2; c3; 10].

Fixpoint encode_loop (p_in : bytes) (n_col : Z) : res bytes :=
  match p_in with
  | a :: b :: c :: rest =>
      let* c0 := idx B64_NUMERALS (Z.shiftr a 2) in
      let* c1 := idx B64_NUMERALS (Z.land (Z.lor (wrap 8 (Z.shiftl a 4)) (Z.shiftr b 4)) 0x3f) in
      let* c2 := idx B64_NUMERALS (Z.lor (wrap 8 (Z.shiftl (Z.land b 0xf) 2)) (Z.shiftr c 6)) in
      let* c3 := idx B64_NUMERALS (Z.land c 0x3f) in
      let n_col := n_col + 4 in
      let brk := (B64_DARK_MAX <=? n_col) || bool_decide (rest = []) in
      let* out := encode_loop rest (if brk then 0 else n_col) in
      Ok ([c0; c1; c2; c3] ++ (if brk then [10] else []) ++ out)
  | [] => Ok []
  | _ => encode_tail p_in
  end.

Definition encode (input : bytes) : res bytes := encode_loop input 0.

(** The number of characters [skip_non_b64] passes over. *)
Fixpoint skip_non_b64 (s : bytes) (nc : nat) : res Z :=
  match nc, s with
  | O, _ => Ok 0
  | S nc, c :: s =>
      if c =? 0 then Ok 0
      else
        let* v := digit_value c in
        if is_digit v then Ok 0 else let* n := skip_non_b64 s nc in Ok (1 + n)
  | S _, [] => Panic
  end.

Record Group : Type := mkGroup { g_rest : bytes; g_nc : Z; g_nti : Z; g_nbo : Z; g_qv : Z }.

(** The four steps of one group, from step [nac] on. *)
Fixpoint group_loop (k : nat) (nac : Z) (g : Group) : res Group :=
  match k with
  | O => Ok g
  | S k =>
      let* (c, rest) := if nac <? g_nti g then match g_rest g with c :: t => Ok (c, t) | [] => Panic end
                        else let* c := idx B64_NUMERALS 0 in Ok (c, g_rest g) in
      let* bdp := digit_value c in
      let '(nc, nti, bdp, nbo) :=
        if bdp =? ND then (0, nac, 0, g_nbo g - 1)
        else if bdp =? WS then (g_nc g, nac, 0, g_nbo g - 1)
        else if bdp =? PC then (g_nc g, g_nti g, 0, g_nbo g - 1)
        else (g_nc g, g_nti g, bdp, g_nbo g) in
      group_loop k (nac + 1) (mkGroup rest nc nti nbo (wrap 32 (Z.lor (Z.shiftl (g_qv g) 6) bdp)))
  end.

(** The bytes a finished group gives. *)
Definition group_bytes (nbo qv : Z) : bytes :=
  let b2 := wrap 8 (Z.shiftr qv 16) in
  let b1 := wrap 8 (Z.shiftr qv 8) in
  let b0 := wrap 8 qv in
  if nbo =? 3 then [b2; b1; b0] else if nbo =? 2 then [b2; b1] else if nbo =? 1 then [b2] else [].

(** [NBOI[nti]]. *)
Definition nboi (nti : Z) : Z := if nti <=? 1 then 0 else nti - 1.

Fixpoint decode_loop (fuel : nat) (s : bytes) (nc_in : Z) : res bytes :=
  if 0 <? nc_in then
    let* c := idx s 0 in
    if c =? 61 then Ok []
    else
      match fuel with
      | O => Panic
      | S fuel =>
          let* skipped := skip_non_b64 s (Z.to_nat nc_in) in
          let nc := nc_in - skipped in
          let s := drop (Z.to_nat skipped) s in
          let nti := if 4 <? nc then 4 else nc in
          let nc := nc - nti in
          let nbo := nboi nti in
          if nbo =? 0 then Ok []
          else
            let* g := group_loop 4 0 (mkGroup s nc nti nbo 0) in
            let* out := decode_loop fuel (g_rest g) (g_nc g) in
            Ok (group_bytes (g_nbo g) (g_qv g) ++ out)
      end
  else Ok [].

Definition decode (input : bytes) : res bytes :=
  let nc_in := zlen input - (if bool_decide (last input = Some 10) then 1 else 0) in
  decode_loop (length input) input nc_in.

(** ** Digits *)

Definition nm (v : Z) : Z := default 0 (B64_NUMERALS !! Z.to_nat v).

Lemma nm_spec v : 0 <= v < 64 -> idx B64_NUMERALS v = Ok (nm v) /\ digit_value (nm v) = Ok v /\ nm v <> 61 /\ nm v <> 10 /\ nm v <> 0.
Proof.
  intros Hv. refine (bool_decide_eq_true_1 _ _). revert v Hv.
  apply (seq_forall (fun v => bool_decide (idx B64_NUMERALS v = Ok (nm v) /\ digit_value (nm v) = Ok v /\ nm v <> 61 /\ nm v <> 10 /\ nm v <> 0)) 64).
  vm_compute. reflexivity.
Qed.

(** The four digits of three bytes. *)
Definition q0 (a : Z) : Z := a / 4.
Definition q1 (a b : Z) : Z := a mod 4 * 16 + b / 16.
Definition q2 (b c : Z) : Z := b mod 16 * 4 + c / 64.
Definition q3 (c : Z) : Z := c mod 64.

Lemma digits_range a b c : is_u8 a -> is_u8 b -> is_u8 c -> 0 <= q0 a < 64 /\ 0 <= q1 a b < 64 /\ 0 <= q2 b c < 64 /\ 0 <= q3 c < 64.
Proof.
  unfold is_u8, is_uint, q0, q1, q2, q3. intros Ha Hb Hc. euclid a 4. euclid b 16. euclid c 64. lia.
Qed.

Lemma digits_join a b c : is_u8 a -> is_u8 b -> is_u8 c -> ((q0 a * 64 + q1 a b) * 64 + q2 b c) * 64 + q3 c = (a * 256 + b) * 256 + c.
Proof.
  unfold q0, q1, q2, q3. intros Ha Hb Hc. euclid a 4. euclid b 16. euclid c 64. lia.
Qed.

Lemma bits_q0 a : Z.shiftr a 2 = q0 a.
Proof. by rewrite Z.shiftr_div_pow2. Qed.

Lemma bits_q1 a b : is_u8 a -> is_u8 b -> Z.land (Z.lor (wrap 8 (Z.shiftl a 4)) (Z.shiftr b 4)) 0x3f = q1 a b.
Proof.
  intros Ha Hb. assert (0 <= b / 16 < 16) as Hq by (unfold is_u8, is_uint in Hb; euclid b 16; lia).
  assert (wrap 8 (Z.shiftl a 4) = Z.shiftl (a mod 16) 4) as ->.
  { unfold wrap. rewrite !Z.shiftl_mul_pow2 by lia. change (2 ^ 8) with (16 * 2 ^ 4). by rewrite Z.mul_mod_distr_r. }
  rewrite Z.shiftr_div_pow2 by lia. change (2 ^ 4) with 16. rewrite lor_shiftl_add by lia. change (2 ^ 4) with 16. change 0x3f with (2 ^ 6 - 1). rewrite land_ones_mod by lia. change (2 ^ 6) with 64. unfold q1.
  symmetry. apply (Z.mod_unique _ _ (a mod 16 / 4)); [left|]; euclid a 16; euclid a 4; euclid (a mod 16) 4; lia.
Qed.

Lemma bits_q2 b c : is_u8 b -> is_u8 c -> Z.lor (wrap 8 (Z.shiftl (Z.land b 0xf) 2)) (Z.shiftr c 6) = q2 b c.
Proof.
  intros Hb Hc. change 0xf with (2 ^ 4 - 1). rewrite land_ones_mod by lia. change (2 ^ 4) with 16. euclid b 16.
  rewrite wrap_small by (unfold is_uint; rewrite Z.shiftl_mul_pow2 by lia; lia). unfold is_u8, is_uint in Hc. euclid c 64.
  rewrite Z.shiftr_div_pow2 by lia. change (2 ^ 6) with 64. by rewrite lor_shiftl_add by lia.
Qed.

Lemma bits_q3 c : Z.land c 0x3f = q3 c.
Proof. change 0x3f with (2 ^ 6 - 1). by rewrite land_ones_mod by lia. Qed.

(** The quads the encoder writes. *)
Definition quad3 (a b c : Z) : bytes := [nm (q0 a); nm (q1 a b); nm (q2 b c); nm (q3 c)].
Definition quad2 (a b : Z) : bytes := [nm (q0 a); nm (q1 a b); nm (q2 b 0); 61].
Definition quad1 (a : Z) : bytes := [nm (q0 a); nm (q1 a 0); 61; 61].

Lemma encode_loop_cons a b c rest n_col : is_u8 a -> is_u8 b -> is_u8 c ->
  encode_loop (a :: b :: c :: rest) n_col =
  let brk := (B64_DARK_MAX <=? n_col + 4) || bool_decide (rest = []) in
  let* out := encode_loop rest (if brk then 0 else n_col + 4) in Ok (quad3 a b c ++ (if brk then [10] else []) ++ out).
Proof.
  intros Ha Hb Hc. destruct (digits_range a b c Ha Hb Hc) as (R0 & R1 & R2 & R3). cbn [encode_loop].
  rewrite bits_q0, bits_q1, bits_q2, bits_q3 by done. destruct (nm_spec _ R0) as [-> _], (nm_spec _ R1) as [-> _], (nm_spec _ R2) as [-> _], (nm_spec _ R3) as [-> _]. by do 4 bind_step.
Qed.

Lemma u8_zero : is_u8 0.
Proof. unfold is_u8, is_uint. lia. Qed.

(** The digits of a 24-bit number. *)
Lemma digits_of a b c : is_u8 a -> is_u8 b -> is_u8 c -> let qv := (a * 256 + b) * 256 + c in
  Z.land qv 0x3f = q3 c /\ Z.land (Z.shiftr qv 6) 0x3f = q2 b c /\ Z.land (Z.shiftr qv 12) 0x3f = q1 a b /\ Z.land (Z.shiftr qv 18) 0x3f = q0 a.
Proof.
  intros Ha Hb Hc qv. destruct (digits_range a b c Ha Hb Hc) as (R0 & R1 & R2 & R3). pose proof (digits_join a b c Ha Hb Hc) as J. fold qv in J.
  change 0x3f with (2 ^ 6 - 1). rewrite !land_ones_mod, !Z.shiftr_div_pow2 by lia. change (2 ^ 6) with 64. change (2 ^ 12) with (64 * 64). change (2 ^ 18) with (64 * 64 * 64).
  rewrite <- !Z.div_div by lia. assert (qv / 64 = (q0 a * 64 + q1 a b) * 64 + q2 b c) as E1 by (symmetry; apply (Z.div_unique _ _ _ (q3 c)); lia).
  assert (qv / 64 / 64 = q0 a * 64 + q1 a b) as E2 by (rewrite E1; symmetry; apply (Z.div_unique _ _ _ (q2 b c)); lia).
  assert (qv / 64 / 64 / 64 = q0 a) as E3 by (rewrite E2; symmetry; apply (Z.div_unique _ _ _ (q1 a b)); lia).
  rewrite E3, E2, E1. split_and!; symmetry; [apply (Z.mod_unique _ _ ((q0 a * 64 + q1 a b) * 64 + q2 b c))|apply (Z.mod_unique _ _ (q0 a * 64 + q1 a b))|apply (Z.mod_unique _ _ (q0 a))|apply (Z.mod_unique _ _ 0)]; lia.
Qed.

Lemma encode_tail_2 a b : is_u8 a -> is_u8 b -> encode_tail [a; b] = Ok (quad2 a b ++ [10]).
Proof.
  intros Ha Hb. unfold encode_tail. change (zlen [a; b]) with 2. cbn -[Z.shiftl Z.lor Z.land Z.shiftr idx nm]. change (idx [a; b] 0) with (Ok a : res Z). change (idx [a; b] 1) with (Ok b : res Z). repeat bind_step.
  rewrite lor_shiftl_add by (unfold is_u8, is_uint in *; lia). rewrite (Z.shiftl_mul_pow2 _ 8) by lia. change (2 ^ 8) with 256.
  destruct (digits_of a b 0 Ha Hb u8_zero) as (E3 & E2 & E1 & E0). rewrite Z.add_0_r in *. rewrite E2, E1, E0. destruct (digits_range a b 0 Ha Hb u8_zero) as (R0 & R1 & R2 & _).
  destruct (nm_spec _ R0) as [-> _], (nm_spec _ R1) as [-> _], (nm_spec _ R2) as [-> _]. by repeat bind_step.
Qed.

Lemma encode_tail_1 a : is_u8 a -> encode_tail [a] = Ok (quad1 a ++ [10]).
Proof.
  intros Ha. unfold encode_tail. change (zlen [a]) with 1. cbn -[Z.shiftl Z.lor Z.land Z.shiftr idx nm]. change (idx [a] 0) with (Ok a : res Z). repeat bind_step.
  rewrite lor_shiftl_add by (unfold is_u8, is_uint in *; lia). rewrite (Z.shiftl_mul_pow2 _ 8) by lia. change (2 ^ 8) with 256.
  destruct (digits_of a 0 0 Ha u8_zero u8_zero) as (E3 & E2 & E1 & E0). rewrite !Z.add_0_r in *. rewrite E1, E0. destruct (digits_range a 0 0 Ha u8_zero u8_zero) as (R0 & R1 & _).
  destruct (nm_spec _ R0) as [-> _], (nm_spec _ R1) as [-> _]. by repeat bind_step.
Qed.

(** ** Decoding a group *)

Lemma group_digit k nac v rest nc nti nbo qv : 0 <= v < 64 -> nac < nti -> 0 <= qv < 2 ^ 26 ->
  group_loop (S k) nac (mkGroup (nm v :: rest) nc nti nbo qv) = group_loop k (nac + 1) (mkGroup rest nc nti nbo (qv * 64 + v)).
Proof.
  intros Hv Hn Hq. cbn [group_loop g_rest g_nti]. destruct (Z.ltb_spec nac nti); [|lia]. bind_step. destruct (nm_spec v Hv) as (_ & -> & _). bind_step.
  unfold ND, WS, PC. destruct (Z.eqb_spec v 0x82); [lia|]. destruct (Z.eqb_spec v 0x81); [lia|]. destruct (Z.eqb_spec v 0x80); [lia|]. cbn [g_nc g_nti g_nbo g_qv].
  rewrite lor_shiftl_add by lia. change (2 ^ 6) with 64. rewrite wrap_small by (unfold is_uint; lia). done.
Qed.

Lemma group_pad k nac rest nc nti nbo qv : nac < nti -> 0 <= qv < 2 ^ 26 ->
  group_loop (S k) nac (mkGroup (61 :: rest) nc nti nbo qv) = group_loop k (nac + 1) (mkGroup rest nc nti (nbo - 1) (qv * 64)).
Proof.
  intros Hn Hq. cbn [group_loop g_rest g_nti]. destruct (Z.ltb_spec nac nti); [|lia]. bind_step. change (digit_value 61) with (Ok PC : res Z). bind_step.
  change (PC =? ND) with false. change (PC =? WS) with false. change (PC =? PC) with true. cbn [g_nc g_nti g_nbo g_qv].
  rewrite lor_shiftl_add by lia. change (2 ^ 6) with 64. rewrite wrap_small by (unfold is_uint; lia). by rewrite Z.add_0_r.
Qed.

Lemma bytes_of a b c : is_u8 a -> is_u8 b -> is_u8 c -> let qv := (a * 256 + b) * 256 + c in
  wrap 8 (Z.shiftr qv 16) = a /\ wrap 8 (Z.shiftr qv 8) = b /\ wrap 8 qv = c.
Proof.
  intros Ha Hb Hc qv. unfold is_u8, is_uint, wrap in *. rewrite !Z.shiftr_div_pow2 by lia. change (2 ^ 16) with (256 * 256). change (2 ^ 8) with 256 in *. rewrite <- Z.div_div by lia.
  assert (qv / 256 = a * 256 + b) as -> by (symmetry; apply (Z.div_unique _ _ _ c); subst qv; lia).
  assert ((a * 256 + b) / 256 = a) as -> by (symmetry; apply (Z.div_unique _ _ _ b); lia).
  split_and!; symmetry; [apply (Z.mod_unique _ _ 0)|apply (Z.mod_unique _ _ a)|apply (Z.mod_unique _ _ (a * 256 + b))]; subst qv; lia.
Qed.

(** A quad the encoder wrote, and what it stands for. *)
Inductive is_quad : bytes -> bytes -> Prop :=
  | Quad3 a b c : is_u8 a -> is_u8 b -> is_u8 c -> is_quad (quad3 a b c) [a; b; c]
  | Quad2 a b : is_u8 a -> is_u8 b -> is_quad (quad2 a b) [a; b]
  | Quad1 a : is_u8 a -> is_quad (quad1 a) [a].

Lemma quad_group q bs rest nc : is_quad q bs -> exists nbo qv,
  group_loop 4 0 (mkGroup (q ++ rest) nc 4 3 0) = Ok (mkGroup rest nc 4 nbo qv) /\ group_bytes nbo qv = bs.
Proof.
  intros [a b c Ha Hb Hc|a b Ha Hb|a Ha]; cbn [quad3 quad2 quad1 app].
  - destruct (digits_range a b c Ha Hb Hc) as (R0 & R1 & R2 & R3). rewrite !group_digit by lia. eexists _, _. split; [done|].
    change (0 * 64 + q0 a) with (q0 a). rewrite digits_join by done. destruct (bytes_of a b c Ha Hb Hc) as (E1 & E2 & E3). unfold group_bytes. cbn [Z.eqb Pos.eqb]. by rewrite E1, E2, E3.
  - destruct (digits_range a b 0 Ha Hb u8_zero) as (R0 & R1 & R2 & _). rewrite !group_digit, group_pad by lia. eexists _, _. split; [done|].
    pose proof (digits_join a b 0 Ha Hb u8_zero) as J. change (q3 0) with 0 in J. rewrite Z.add_0_r in J. change (0 * 64 + q0 a) with (q0 a). rewrite J.
    destruct (bytes_of a b 0 Ha Hb u8_zero) as (E1 & E2 & _). unfold group_bytes. change (3 - 1 =? 3) with false. change (3 - 1 =? 2) with true. cbv iota. by rewrite E1, E2.
  - destruct (digits_range a 0 0 Ha u8_zero u8_zero) as (R0 & R1 & _). rewrite !group_digit, !group_pad by lia. eexists _, _. split; [done|].
    pose proof (digits_join a 0 0 Ha u8_zero u8_zero) as J. change (q3 0) with 0 in J. change (q2 0 0) with 0 in J. rewrite !Z.add_0_r in J. change (0 * 64 + q0 a) with (q0 a). rewrite J, <- (Z.add_0_r (_ * 256 * 256)), <- (Z.add_0_r (a * 256)).
    destruct (bytes_of a 0 0 Ha u8_zero u8_zero) as (E1 & _). unfold group_bytes. change (3 - 1 - 1 =? 3) with false. change (3 - 1 - 1 =? 2) with false. change (3 - 1 - 1 =? 1) with true. cbv iota. by rewrite E1.
Qed.

Lemma quad_head q bs : is_quad q bs -> exists v t, q = nm v :: t /\ 0 <= v < 64 /\ zlen q = 4.
Proof.
  intros [a b c Ha Hb Hc|a b Ha Hb|a Ha]; eexists _, _; (split; [reflexivity|]); (split; [|reflexivity]); by apply (digits_range a 0 0).
Qed.

(** A quad, after a line break or not, gives its bytes. *)
Lemma decode_quad fuel (brk : bool) q bs rest m : is_quad q bs -> 0 <= m ->
  decode_loop (S fuel) ((if brk then [10] else []) ++ q ++ rest) ((if brk then 1 else 0) + 4 + m) =
  let* out := decode_loop fuel rest m in Ok (bs ++ out).
Proof.
  intros Hq Hm. destruct (quad_head q bs Hq) as (v & t & E & Hv & Hl). destruct (nm_spec v Hv) as (_ & Ev & N1 & N2 & N3).
  assert (forall nc, (0 < nc)%nat -> skip_non_b64 (q ++ rest) nc = Ok 0) as Hskip.
  { intros [|nc] Hnc; [lia|]. rewrite E. cbn [app skip_non_b64]. destruct (Z.eqb_spec (nm v) 0); [done|]. rewrite Ev. bind_step. unfold is_digit. by destruct (Z.ltb_spec v 0x80); [|lia]. }
  cbn [decode_loop]. destruct (Z.ltb_spec 0 ((if brk then 1 else 0) + 4 + m)); [|destruct brk; lia].
  assert (idx ((if brk then [10] else []) ++ q ++ rest) 0 = Ok (if brk then 10 else nm v)) as -> by (destruct brk; [done|]; by rewrite E). bind_step.
  assert (((if brk then 10 else nm v) =? 61) = false) as -> by (destruct brk; [done|]; by apply Z.eqb_neq).
  assert (skip_non_b64 ((if brk then [10] else []) ++ q ++ rest) (Z.to_nat ((if brk then 1 else 0) + 4 + m)) = Ok (if brk then 1 else 0)) as ->.
  { destruct brk; [|apply Hskip; lia]. destruct (Z.to_nat (1 + 4 + m)) as [|n] eqn:En; [lia|]. cbn [app skip_non_b64]. change (10 =? 0) with false. change (digit_value 10) with (Ok WS : res Z). bind_step.
    change (is_digit WS) with false. cbv iota. rewrite Hskip by lia. by bind_step. }
  bind_step. cbv zeta. replace ((if brk then 1 else 0) + 4 + m - (if brk then 1 else 0)) with (4 + m) by lia.
  assert ((if 4 <? 4 + m then 4 else 4 + m) = 4) as -> by (destruct (Z.ltb_spec 4 (4 + m)); lia). change (nboi 4) with 3. cbn [Z.eqb Pos.eqb].
  assert (drop (Z.to_nat (if brk then 1 else 0)) ((if brk then [10] else []) ++ q ++ rest) = q ++ rest) as -> by (by destruct brk).
  destruct (quad_group q bs rest (4 + m - 4) Hq) as (nbo & qv & -> & Hg). bind_step. cbn [g_rest g_nc g_nbo g_qv]. rewrite Hg. by replace (4 + m - 4) with m by lia.
Qed.

Lemma b64_roundtrip n : forall p n_col, (length p <= n)%nat -> is_bytes p -> p <> [] -> exists e, encode_loop p n_col = Ok (e ++ [10]) /\
  forall fuel brk, (length e <= fuel)%nat -> decode_loop fuel ((if brk : bool then [10] else []) ++ e ++ [10]) ((if brk then 1 else 0) + zlen e) = Ok p.
Proof.
  induction n as [|n IH]; intros p n_col Hn Hp Hne; [by destruct p; cbn in Hn; [|lia]|].
  assert (forall q bs, is_quad q bs -> p = bs -> encode_loop p n_col = Ok (q ++ [10]) -> exists e, encode_loop p n_col = Ok (e ++ [10]) /\
    forall fuel brk, (length e <= fuel)%nat -> decode_loop fuel ((if brk : bool then [10] else []) ++ e ++ [10]) ((if brk then 1 else 0) + zlen e) = Ok p) as Hlast.
  { intros q bs Hq -> E. exists q. split; [done|]. intros fuel brk Hf. destruct (quad_head q bs Hq) as (v & t & _ & _ & Hl).
    destruct fuel as [|fuel]; [unfold zlen in Hl; lia|]. rewrite Hl. pose proof (decode_quad fuel brk q bs [10] 0 Hq ltac:(lia)) as D. rewrite Z.add_0_r in D. rewrite D.
    destruct fuel; cbn [decode_loop Z.ltb Z.compare]; bind_step; by rewrite app_nil_r. }
  destruct p as [|a [|b [|c rest]]]; [done|..].
  - apply Forall_cons in Hp as [Ha _]. apply (Hlast (quad1 a) [a]); [by constructor|done|]. exact (encode_tail_1 a Ha).
  - apply Forall_cons in Hp as [Ha [Hb _]%Forall_cons]. apply (Hlast (quad2 a b) [a; b]); [by constructor|done|]. exact (encode_tail_2 a b Ha Hb).
  - apply Forall_cons in Hp as [Ha [Hb [Hc Hr]%Forall_cons]%Forall_cons]. destruct (decide (rest = [])) as [->|Hrest].
    { apply (Hlast (quad3 a b c) [a; b; c]); [by constructor|done|]. rewrite encode_loop_cons by done. cbv zeta. rewrite bool_decide_eq_true_2, orb_true_r by done. done. }
    rewrite encode_loop_cons by done. cbv zeta. rewrite bool_decide_eq_false_2, orb_false_r by done. set (brk := B64_DARK_MAX <=? n_col + 4).
    destruct (IH rest (if brk then 0 else n_col + 4)) as (e & -> & Hd); [cbn in Hn; lia|done|done|]. bind_step.
    exists (quad3 a b c ++ (if brk then [10] else []) ++ e). split; [by rewrite <- !app_assoc|]. intros fuel brk' Hf. rewrite <- !app_assoc.
    assert (is_quad (quad3 a b c) [a; b; c]) as Hq by (by constructor). destruct (quad_head _ _ Hq) as (_ & _ & _ & _ & Hl).
    destruct fuel as [|fuel]; [rewrite length_app in Hf; unfold zlen in Hl; lia|]. pose proof (zlen_nonneg e).
    replace ((if brk' then 1 else 0) + zlen (quad3 a b c ++ (if brk then [10] else []) ++ e)) with ((if brk' then 1 else 0) + 4 + ((if brk then 1 else 0) + zlen e))
      by (rewrite !zlen_app, Hl; destruct brk; change (zlen [10]) with 1; change (zlen (@nil Z)) with 0; lia).
    rewrite (decode_quad fuel brk' _ [a; b; c] _ _ Hq) by (destruct brk; lia). rewrite Hd; [by bind_step|].
    rewrite !length_app in Hf. unfold zlen in Hl. lia.
Qed.

(** Encoding succeeds, ends with a line break, and decodes back. *)
Lemma b64_encode_decode p : is_bytes p -> exists e, encode p = Ok e /\ decode e = Ok p.
Proof.
  intros Hp. destruct (decide (p = [])) as [->|Hne]; [by exists []|]. destruct (b64_roundtrip (length p) p 0 ltac:(lia) Hp Hne) as (e & E & Hd).
  exists (e ++ [10]). split; [done|]. unfold decode. rewrite last_snoc, bool_decide_eq_true_2 by done. specialize (Hd (length (e ++ [10])) false). cbn [app] in Hd.
  rewrite zlen_snoc. replace (zlen e + 1 - 1) with (0 + zlen e) by lia. apply Hd. rewrite length_app. lia.
Qed.

(** ** Arbitrary text *)

Lemma digit_value_total c : is_u8 c -> exists v, digit_value c = Ok v.
Proof.
  unfold is_u8, is_uint, digit_value. intros Hc. destruct (Z.ltb_spec c 0x80); [|by eexists]. destruct (idx_in_range B64_DIGIT_VALUES c) as [v Hv]; [|by exists v].
  change (zlen B64_DIGIT_VALUES) with 128. lia.
Qed.

Lemma skip_total s : forall nc, is_bytes s -> (nc <= length s)%nat -> exists n, skip_non_b64 s nc = Ok n /\ 0 <= n <= Z.of_nat nc.
Proof.
  induction s as [|c s IH]; intros nc Hs Hn; [destruct nc; [|cbn in Hn; lia]; exists 0; split; [done|lia]|]. destruct nc as [|nc]; [exists 0; split; [done|lia]|].
  apply Forall_cons in Hs as [Hc Hs]. cbn [skip_non_b64 length] in *. destruct (c =? 0); [exists 0; split; [done|lia]|]. destruct (digit_value_total c Hc) as [v ->]. bind_step.
  destruct (is_digit v); [exists 0; split; [done|lia]|]. destruct (IH nc Hs ltac:(lia)) as (n & -> & Hb). bind_step. exists (1 + n). split; [done|lia].
Qed.

Lemma group_total k : forall nac g, is_bytes (g_rest g) -> 0 <= g_nc g -> g_nc g + Z.max 0 (g_nti g - nac) <= zlen (g_rest g) ->
  exists g', group_loop k nac g = Ok g' /\ is_bytes (g_rest g') /\ 0 <= g_nc g' <= zlen (g_rest g') /\ g_nc g' <= g_nc g.
Proof.
  induction k as [|k IH]; intros nac g Hb Hn Hl; cbn [group_loop]; [exists g; split; [done|]; split; [done|lia]|].
  assert (exists c rest, (if nac <? g_nti g then match g_rest g with c :: t => Ok (c, t) | [] => Panic end else let* c := idx B64_NUMERALS 0 in Ok (c, g_rest g)) = Ok (c, rest) /\
    is_u8 c /\ is_bytes rest /\ g_nc g + Z.max 0 (g_nti g - (nac + 1)) <= zlen rest) as (c & rest & -> & Hc & Hr & Hlr).
  { destruct (Z.ltb_spec nac (g_nti g)).
    - destruct (g_rest g) as [|c t]; [change (zlen (@nil Z)) with 0 in Hl; lia|]. apply Forall_cons in Hb as [Hc Ht]. exists c, t. rewrite zlen_cons in Hl. split_and!; try done; lia.
    - exists 65, (g_rest g). split_and!; try done; lia. }
  bind_step. destruct (digit_value_total c Hc) as [v ->]. bind_step.
  assert (forall nc nti bdp nbo, 0 <= nc <= g_nc g -> nc + Z.max 0 (nti - (nac + 1)) <= zlen rest ->
    exists g', group_loop k (nac + 1) (mkGroup rest nc nti nbo bdp) = Ok g' /\ is_bytes (g_rest g') /\ 0 <= g_nc g' <= zlen (g_rest g') /\ g_nc g' <= g_nc g) as Hstep.
  { intros nc nti bdp nbo Hnc Hle. destruct (IH (nac + 1) (mkGroup rest nc nti nbo bdp) Hr ltac:(cbn; lia) ltac:(cbn; lia)) as (g' & E & B & N & M). exists g'. cbn in M. split_and!; try done; lia. }
  destruct (v =? ND); [apply Hstep; lia|]. destruct (v =? WS); [apply Hstep; lia|]. destruct (v =? PC); apply Hstep; lia.
Qed.

Lemma b64_decode_loop_total fuel : forall s nc, is_bytes s -> nc <= zlen s -> nc <= Z.of_nat fuel -> exists out, decode_loop fuel s nc = Ok out.
Proof.
  induction fuel as [|fuel IH]; intros s nc Hs Hl Hf; cbn [decode_loop]; (destruct (Z.ltb_spec 0 nc); [|by eexists]); [lia|].
  destruct (idx_in_range s 0 ltac:(lia)) as [c ->]. bind_step. destruct (c =? 61); [by eexists|].
  destruct (skip_total s (Z.to_nat nc) Hs ltac:(unfold zlen in Hl; lia)) as (n & -> & Hn). bind_step. cbv zeta.
  set (nti := if 4 <? nc - n then 4 else nc - n). assert (nti <= nc - n /\ 0 <= nti) as [Ht1 Ht2] by (subst nti; destruct (Z.ltb_spec 4 (nc - n)); lia).
  unfold nboi. destruct (Z.leb_spec nti 1); [by eexists|]. destruct (Z.eqb_spec (nti - 1) 0); [lia|].
  destruct (group_total 4 0 (mkGroup (drop (Z.to_nat n) s) (nc - n - nti) nti (nti - 1) 0)) as (g & -> & Hb & Hg & Hm).
  { by apply is_bytes_drop. }
  { cbn. lia. }
  { cbn [g_rest g_nc g_nti]. unfold zlen in *. rewrite length_drop. lia. }
  bind_step. cbn [g_nc] in Hm. destruct (IH (g_rest g) (g_nc g) Hb ltac:(lia) ltac:(lia)) as [out ->]. bind_step. by eexists.
Qed.

Lemma b64_decode_total s : is_bytes s -> exists out, decode s = Ok out.
Proof. intros Hs. apply b64_decode_loop_total; [done|case_bool_decide; lia|unfold zlen; case_bool_decide; lia]. Qed.

End Base64.
