(* ===== verification/Base85.v ===== *)
(** The text codec [base85] ([src/src/util/base85.rs]), modelled like
    [Base64]. *)

From S2P Require Import Prelude.
Local Open Scope Z_scope.

Module Base85.

Definition B85_DARK_MAX : Z := 80.

Definition numeral (dn : Z) : Z := if dn <? 4 then dn + 35 else dn - 4 + 42.

Definition b85_class (c : Z) : Z :=
  (if 35 <=? c then 1 else 0) + (if 38 <? c then 1 else 0) + (if 42 <=? c then 1 else 0) + (if 122 <? c then 1 else 0).

Definition is_b85 (c : Z) : bool := negb (Z.land (b85_class c) 1 =? 0).

Definition b85_dnos (c : Z) : Z := default 0 ([0; 35; 0; 42 - 4; 0] !! Z.to_nat (b85_class c)).

(** The [k] numerals of [qv], most significant first, in front of [acc]. *)
Fixpoint numerals (k : nat) (qv : Z) (acc : bytes) : bytes :=
  match k with
  | O => acc
  | S k => numerals k (qv / 85) (numeral (wrap 8 (qv mod 85)) :: acc)
  end.

Fixpoint encode_loop (p_in : bytes) (n_col : Z) : bytes :=
  match p_in with
  | a :: b :: c :: d :: rest =>
      let qbv := Z.lor (Z.lor (Z.lor (Z.shiftl a 24) (Z.shiftl b 16)) (Z.shiftl c 8)) d in
      let n_col := n_col + 5 in
      let brk := B85_DARK_MAX <=? n_col in
      numerals 5 qbv [] ++ (if brk then [10] else []) ++ encode_loop rest (if brk then 0 else n_col)
  | [] => if 0 <? n_col then [10] else []
  | p0 :: more =>
      let qv := fold_left (fun qv b => Z.lor (Z.shiftl qv 8) b) more p0 in
      let nco0 := zlen p_in + 1 in
      numerals (Z.to_nat nco0) qv [] ++ (if 0 <? n_col + nco0 then [10] else [])
  end.

Definition encode (input : bytes) : bytes := encode_loop input 0.

(** [skipNonB85]: the text and the count after the characters passed over. *)
Fixpoint skip_non_b85 (s : bytes) (nc_in : Z) : res (bytes * Z) :=
  if 0 <? nc_in then
    match s with
    | c :: t => if negb (c =? 0) && negb (is_b85 c) then skip_non_b85 t (nc_in - 1) else Ok (s, nc_in)
    | [] => Panic
    end
  else Ok (s, nc_in).

(** [while nti > 0]; [k] counts [nti]. *)
Fixpoint group_loop (k : nat) (s : bytes) (nc_in qv : Z) : res (bytes * Z * Z * Z) :=
  match k with
  | O => Ok (s, nc_in, qv, 0)
  | S k' =>
      match s with
      | [] => Panic
      | c :: t =>
          let cdo := b85_dnos c in
          if cdo =? 0 then Ok (t, nc_in - 1, qv, Z.of_nat k)
          else group_loop k' t (nc_in - 1) (85 * qv + (c - cdo))
      end
  end.

Definition group_bytes (nbo qv : Z) : bytes :=
  (if 4 <=? nbo then [wrap 8 (Z.shiftr qv 24)] else []) ++ (if 3 <=? nbo then [wrap 8 (Z.shiftr qv 16)] else [])
  ++ (if 2 <=? nbo then [wrap 8 (Z.shiftr qv 8)] else []) ++ (if 1 <=? nbo then [wrap 8 qv] else []).

Fixpoint decode_loop (fuel : nat) (s : bytes) (nc_in : Z) : res bytes :=
  if 0 <? nc_in then
    match fuel with
    | O => Panic
    | S fuel =>
        let* (s, nc_in) := skip_non_b85 s nc_in in
        if nc_in =? 0 then Ok []
        else
          let nti := if 5 <? nc_in then 5 else nc_in in
          let nbo := if nti <=? 1 then 0 else nti - 1 in
          if nbo =? 0 then Ok []
          else
            let* (s, nc_in, qv, left_) := group_loop (Z.to_nat nti) s nc_in 0 in
            let* out := decode_loop fuel s nc_in in
            Ok (group_bytes (nbo - left_) qv ++ out)
    end
  else Ok [].

Definition decode (input : bytes) : res bytes :=
  let nc_in := zlen input - (if bool_decide (last input = Some 10) then 1 else 0) in
  decode_loop (length input) input nc_in.

(** ** Numerals *)

Lemma numeral_spec d : 0 <= d < 85 -> is_b85 (numeral d) = true /\ (numeral d =? 0) = false /\ (b85_dnos (numeral d) =? 0) = false /\ numeral d - b85_dnos (numeral d) = d.
Proof.
  intros Hd. refine (bool_decide_eq_true_1 _ _). revert d Hd.
  apply (seq_forall (fun d => bool_decide (is_b85 (numeral d) = true /\ (numeral d =? 0) = false /\ (b85_dnos (numeral d) =? 0) = false /\ numeral d - b85_dnos (numeral d) = d)) 85).
  vm_compute. reflexivity.
Qed.

(** The [k] digits of a number in base 85, and the number of a list of them. *)
Fixpoint digs (k : nat) (v : Z) : list Z := match k with O => [] | S k => digs k (v / 85) ++ [v mod 85] end.
Definition val85 (ds : list Z) : Z := fold_left (fun acc d => 85 * acc + d) ds 0.

Lemma numerals_digs k : forall v acc, numerals k v acc = (numeral <$> digs k v) ++ acc.
Proof.
  induction k as [|k IH]; intros v acc; [done|]. cbn [numerals digs]. rewrite wrap_small by (unfold is_uint; euclid v 85; lia). rewrite IH, fmap_app, <- app_assoc. done.
Qed.

Lemma digs_ok k : forall v, length (digs k v) = k /\ Forall (fun d => 0 <= d < 85) (digs k v).
Proof.
  induction k as [|k IH]; intros v; [done|]. cbn [digs]. destruct (IH (v / 85)) as [Hl Hf]. rewrite length_app, Hl. split; [cbn; lia|].
  apply Forall_app. split; [done|]. apply Forall_singleton. apply Z.mod_pos_bound. lia.
Qed.

Lemma val85_digs k : forall v, 0 <= v < 85 ^ Z.of_nat k -> val85 (digs k v) = v.
Proof.
  induction k as [|k IH]; intros v Hv; [change (85 ^ Z.of_nat 0) with 1 in Hv; cbn; lia|]. cbn [digs]. unfold val85 in *. rewrite fold_left_app. cbn [fold_left].
  rewrite Nat2Z.inj_succ, Z.pow_succ_r in Hv by lia. euclid v 85. rewrite IH; [lia|]. split; [apply Z.div_pos; lia|apply Z.div_lt_upper_bound; lia].
Qed.

(** ** Bytes *)

Lemma be_snoc v x : 0 <= x < 256 -> (v * 256 + x) / 256 = v /\ (v * 256 + x) mod 256 = x.
Proof. intros Hx. split; symmetry; [apply (Z.div_unique _ _ _ x)|apply (Z.mod_unique _ _ v)]; lia. Qed.

(** The bytes of a group are those its number was made of. *)
Lemma group_bytes_be bs : is_bytes bs -> (1 <= length bs <= 4)%nat -> group_bytes (zlen bs) (be_val bs) = bs.
Proof.
  intros Hb Hl. assert (forall a, is_u8 a -> 0 <= a < 256) as H8 by (unfold is_u8, is_uint; intros; lia).
  unfold group_bytes, wrap. rewrite !Z.shiftr_div_pow2 by lia. change (2 ^ 24) with (256 * 256 * 256). change (2 ^ 16) with (256 * 256). change (2 ^ 8) with 256. rewrite <- !Z.div_div by lia.
  destruct bs as [|a [|b [|c [|d [|]]]]]; cbn [length] in Hl; try lia; repeat (apply Forall_cons in Hb as [?%H8 Hb]); unfold zlen; cbn -[Z.div Z.modulo Z.mul Z.add];
    rewrite ?Z.mul_0_l, ?Z.add_0_l, ?(proj1 (be_snoc _ _ _)), ?(proj2 (be_snoc _ _ _)), ?(Z.mod_small a) by lia.
  all: repeat match goal with |- context [(?v * 256 + ?x) / 256] => rewrite (proj1 (be_snoc v x ltac:(lia))) | |- context [(?v * 256 + ?x) mod 256] => rewrite (proj2 (be_snoc v x ltac:(lia))) end; rewrite ?(Z.mod_small a) by lia; reflexivity.
Qed.

Lemma be_bound bs k : is_bytes bs -> length bs = k -> (k <= 4)%nat -> 0 <= be_val bs < 85 ^ (Z.of_nat k + 1).
Proof.
  intros Hb Hl Hk. pose proof (be_val_bound bs Hb) as B. unfold zlen in B. rewrite Hl in B.
  assert (2 ^ (8 * Z.of_nat k) <= 85 ^ (Z.of_nat k + 1)); [|lia]. destruct k as [|[|[|[|[|]]]]]; try lia; vm_compute; discriminate.
Qed.

(** The numerals of a group of bytes. *)
Definition nums (bs : bytes) : bytes := numeral <$> digs (S (length bs)) (be_val bs).

Lemma fold_lor more : forall v, is_bytes more -> 0 <= v -> fold_left (fun qv b => Z.lor (Z.shiftl qv 8) b) more v = fold_left (fun acc b => acc * 256 + b) more v.
Proof.
  induction more as [|b more IH]; intros v Hm Hv; [done|]. apply Forall_cons in Hm as [Hb Hm]. cbn [fold_left]. rewrite lor_shiftl_add by (unfold is_u8, is_uint in Hb; lia).
  apply IH; [done|]. unfold is_u8, is_uint in Hb. lia.
Qed.

Lemma encode_quad a b c d rest n_col : is_bytes [a; b; c; d] -> encode_loop (a :: b :: c :: d :: rest) n_col =
  let brk := B85_DARK_MAX <=? n_col + 5 in nums [a; b; c; d] ++ (if brk then [10] else []) ++ encode_loop rest (if brk then 0 else n_col + 5).
Proof.
  intros H. cbn [encode_loop]. cbv zeta. rewrite numerals_digs, app_nil_r. unfold nums. cbn [length]. do 3 f_equal.
  repeat (apply Forall_cons in H as [? H]). unfold is_u8, is_uint in *. change (be_val [a; b; c; d]) with ((((0 * 256 + a) * 256 + b) * 256 + c) * 256 + d). rewrite Z.mul_0_l, Z.add_0_l.
  rewrite (Z.shiftl_mul_pow2 b), (Z.shiftl_mul_pow2 c) by lia. rewrite (lor_shiftl_add a (b * 2 ^ 16) 24) by lia.
  replace (a * 2 ^ 24 + b * 2 ^ 16) with (Z.shiftl (a * 256 + b) 16) by (rewrite Z.shiftl_mul_pow2; lia). rewrite (lor_shiftl_add _ (c * 2 ^ 8) 16) by lia.
  replace ((a * 256 + b) * 2 ^ 16 + c * 2 ^ 8) with (Z.shiftl ((a * 256 + b) * 256 + c) 8) by (rewrite Z.shiftl_mul_pow2; lia). by rewrite lor_shiftl_add by lia.
Qed.

Lemma encode_last bs n_col : is_bytes bs -> (1 <= length bs <= 3)%nat -> 0 <= n_col -> encode_loop bs n_col = nums bs ++ [10].
Proof.
  intros Hb Hl Hn. assert (forall p0 more, bs = p0 :: more -> numerals (Z.to_nat (zlen bs + 1)) (fold_left (fun qv b => Z.lor (Z.shiftl qv 8) b) more p0) [] ++ (if 0 <? n_col + (zlen bs + 1) then [10] else []) = nums bs ++ [10]) as He.
  { intros p0 more ->. apply Forall_cons in Hb as [H0 Hm]. rewrite fold_lor by (try done; unfold is_u8, is_uint in H0; lia). rewrite numerals_digs, app_nil_r. unfold nums.
    pose proof (zlen_nonneg (p0 :: more)). destruct (Z.ltb_spec 0 (n_col + (zlen (p0 :: more) + 1))); [|lia]. do 3 f_equal. unfold zlen. lia. }
  destruct bs as [|a [|b [|c [|]]]]; cbn [length] in Hl; try lia; exact (He _ _ eq_refl).
Qed.

(** ** Decoding *)

Lemma group_numerals ds : forall rest nc qv, Forall (fun d => 0 <= d < 85) ds ->
  group_loop (length ds) ((numeral <$> ds) ++ rest) nc qv = Ok (rest, nc - zlen ds, fold_left (fun acc d => 85 * acc + d) ds qv, 0).
Proof.
  induction ds as [|d ds IH]; intros rest nc qv Hd; cbn [length group_loop fmap list_fmap app]; [by rewrite Z.sub_0_r|].
  apply Forall_cons in Hd as [Hd Hds]. destruct (numeral_spec d Hd) as (_ & _ & -> & ->). rewrite IH by done. rewrite zlen_cons. cbn [fold_left]. do 3 f_equal. f_equal. lia.
Qed.

Lemma decode_nums fuel (brk : bool) bs rest m : is_bytes bs -> (1 <= length bs <= 4)%nat -> 0 <= m -> ((length bs < 4)%nat -> m = 0) ->
  decode_loop (S fuel) ((if brk then [10] else []) ++ nums bs ++ rest) ((if brk then 1 else 0) + (zlen bs + 1) + m) =
  let* out := decode_loop fuel rest m in Ok (bs ++ out).
Proof.
  intros Hb Hl Hm Hm0. destruct (digs_ok (S (length bs)) (be_val bs)) as [Ld Fd]. set (ds := digs (S (length bs)) (be_val bs)) in *.
  assert (nums bs = numeral <$> ds) as En by done. assert (exists d t, ds = d :: t /\ 0 <= d < 85) as (d & t & Ed & Hd).
  { destruct ds as [|d t]; [done|]. apply Forall_cons in Fd as [Hd _]. by exists d, t. }
  destruct (numeral_spec d Hd) as (Hb85 & Hz & _ & _). cbn [decode_loop]. destruct (Z.ltb_spec 0 ((if brk then 1 else 0) + (zlen bs + 1) + m)); [|unfold zlen in *; destruct brk; lia].
  assert (skip_non_b85 ((if brk then [10] else []) ++ nums bs ++ rest) ((if brk then 1 else 0) + (zlen bs + 1) + m) = Ok (nums bs ++ rest, zlen bs + 1 + m)) as ->.
  { assert (skip_non_b85 (nums bs ++ rest) (zlen bs + 1 + m) = Ok (nums bs ++ rest, zlen bs + 1 + m)) as Hs.
    { rewrite En, Ed. cbn [fmap list_fmap app skip_non_b85]. destruct (Z.ltb_spec 0 (zlen bs + 1 + m)); [|done]. by rewrite Hz, Hb85. }
    destruct brk; [|by rewrite Z.add_0_l]. cbn [app skip_non_b85]. destruct (Z.ltb_spec 0 (1 + (zlen bs + 1) + m)); [|lia]. change (negb (10 =? 0) && negb (is_b85 10)) with true. cbv iota.
    by replace (1 + (zlen bs + 1) + m - 1) with (zlen bs + 1 + m) by lia. }
  bind_step. destruct (Z.eqb_spec (zlen bs + 1 + m) 0); [unfold zlen in *; lia|]. cbv zeta.
  assert ((if 5 <? zlen bs + 1 + m then 5 else zlen bs + 1 + m) = zlen bs + 1) as -> by (unfold zlen in *; destruct (Z.ltb_spec 5 (Z.of_nat (length bs) + 1 + m)); lia).
  destruct (Z.leb_spec (zlen bs + 1) 1); [unfold zlen in *; lia|]. destruct (Z.eqb_spec (zlen bs + 1 - 1) 0); [unfold zlen in *; lia|].
  rewrite En. replace (Z.to_nat (zlen bs + 1)) with (length ds) by (unfold zlen; lia). rewrite group_numerals by done. bind_step.
  replace (zlen bs + 1 + m - zlen ds) with m by (unfold zlen; lia). fold (val85 ds). subst ds. rewrite val85_digs by (rewrite Nat2Z.inj_succ, <- Z.add_1_r; apply be_bound; [done|done|lia]).
  replace (zlen bs + 1 - 1 - 0) with (zlen bs) by lia. by rewrite group_bytes_be.
Qed.

Lemma roundtrip85 n : forall p n_col, (length p <= n)%nat -> is_bytes p -> p <> [] -> 0 <= n_col -> exists e, encode_loop p n_col = e ++ [10] /\
  forall fuel brk, (length e <= fuel)%nat -> decode_loop fuel ((if brk : bool then [10] else []) ++ e ++ [10]) ((if brk then 1 else 0) + zlen e) = Ok p.
Proof.
  induction n as [|n IH]; intros p n_col Hn Hp Hne Hc; [by destruct p; cbn in Hn; [|lia]|].
  assert (forall bs, zlen (nums bs) = zlen bs + 1) as Ln by (intros; unfold nums, zlen; rewrite length_fmap, (proj1 (digs_ok _ _)); lia).
  assert ((1 <= length p <= 4)%nat -> encode_loop p n_col = nums p ++ [10] -> exists e, encode_loop p n_col = e ++ [10] /\
    forall fuel brk, (length e <= fuel)%nat -> decode_loop fuel ((if brk : bool then [10] else []) ++ e ++ [10]) ((if brk then 1 else 0) + zlen e) = Ok p) as Hlast.
  { intros Hl E. exists (nums p). split; [done|]. intros fuel brk Hf. pose proof (Ln p) as L. destruct fuel as [|fuel]; [unfold zlen in L; lia|]. rewrite L.
    pose proof (decode_nums fuel brk p [10] 0 Hp Hl ltac:(lia) ltac:(lia)) as D. rewrite Z.add_0_r in D. rewrite D. destruct fuel; cbn [decode_loop Z.ltb Z.compare]; bind_step; by rewrite app_nil_r. }
  destruct (decide (length p <= 3)%nat) as [H3|H3]; [apply Hlast; [destruct p; [done|cbn in *; lia]|]; apply encode_last; [done|destruct p; [done|cbn in *; lia]|done]|].
  destruct p as [|a [|b [|c [|d rest]]]]; cbn [length] in *; try lia. assert (is_bytes [a; b; c; d] /\ is_bytes rest) as [H4 Hr] by (by apply (is_bytes_app [a; b; c; d] rest)).
  rewrite encode_quad in * by done. cbv zeta in *. set (brk := B85_DARK_MAX <=? n_col + 5) in *. destruct (decide (rest = [])) as [->|Hrest].
  { apply Hlast; [cbn; lia|]. f_equal. subst brk. destruct (B85_DARK_MAX <=? n_col + 5); [done|]. cbn [encode_loop app]. by destruct (Z.ltb_spec 0 (n_col + 5)); [|lia]. }
  destruct (IH rest (if brk then 0 else n_col + 5)) as (e & -> & Hd); [lia|done|done|destruct brk; lia|].
  exists (nums [a; b; c; d] ++ (if brk then [10] else []) ++ e). split; [by rewrite <- !app_assoc|]. intros fuel brk' Hf. rewrite <- !app_assoc. pose proof (Ln [a; b; c; d]) as L.
  destruct fuel as [|fuel]; [rewrite length_app in Hf; unfold zlen in L; cbn [length] in L; lia|]. pose proof (zlen_nonneg e).
  replace ((if brk' then 1 else 0) + zlen (nums [a; b; c; d] ++ (if brk then [10] else []) ++ e)) with ((if brk' then 1 else 0) + (zlen [a; b; c; d] + 1) + ((if brk then 1 else 0) + zlen e))
    by (rewrite !zlen_app, L; destruct brk; change (zlen [10]) with 1; change (zlen (@nil Z)) with 0; lia).
  rewrite decode_nums by (try done; cbn; try lia; destruct brk; lia). rewrite Hd; [by bind_step|]. rewrite !length_app in Hf. unfold zlen in L. cbn [length] in L. lia.
Qed.

Lemma encode_decode85 p : is_bytes p -> decode (encode p) = Ok p.
Proof.
  intros Hp. destruct (decide (p = [])) as [->|Hne]; [done|]. unfold encode. destruct (roundtrip85 (length p) p 0 ltac:(lia) Hp Hne ltac:(lia)) as (e & -> & Hd).
  unfold decode. rewrite last_snoc, bool_decide_eq_true_2 by done. specialize (Hd (length (e ++ [10])) false). cbn [app] in Hd.
  rewrite zlen_snoc. replace (zlen e + 1 - 1) with (0 + zlen e) by lia. apply Hd. rewrite length_app. lia.
Qed.

(** ** Arbitrary text *)

Lemma skip85_total s : forall nc, 0 <= nc <= zlen s -> exists s' nc', skip_non_b85 s nc = Ok (s', nc') /\ 0 <= nc' <= nc /\ nc' <= zlen s'.
Proof.
  induction s as [|c s IH]; intros nc Hn; cbn [skip_non_b85]; (destruct (Z.ltb_spec 0 nc); [|eexists _, _; split; [done|lia]]); [change (zlen (@nil Z)) with 0 in Hn; lia|].
  rewrite zlen_cons in Hn. destruct (negb (c =? 0) && negb (is_b85 c)).
  - destruct (IH (nc - 1) ltac:(lia)) as (s' & nc' & E & H1 & H2). exists s', nc'. split; [done|lia].
  - eexists _, _. split; [done|]. rewrite zlen_cons. lia.
Qed.

Lemma group85_total k : forall s nc qv, Z.of_nat k <= nc <= zlen s -> exists s' nc' qv' l, group_loop k s nc qv = Ok (s', nc', qv', l) /\ 0 <= nc' <= zlen s' /\ nc' <= nc - (if k is O then 0 else 1).
Proof.
  induction k as [|k IH]; intros s nc qv Hn; cbn [group_loop]; [eexists _, _, _, _; split; [done|lia]|].
  destruct s as [|c t]; [change (zlen (@nil Z)) with 0 in Hn; lia|]. rewrite zlen_cons in Hn. cbv zeta. destruct (_ =? 0); [eexists _, _, _, _; split; [done|lia]|].
  destruct (IH t (nc - 1) (85 * qv + (c - b85_dnos c)) ltac:(lia)) as (s' & nc' & qv' & l & E & H1 & H2). exists s', nc', qv', l. split; [done|]. destruct k; lia.
Qed.

Lemma decode85_loop_total fuel : forall s nc, nc <= zlen s -> nc <= Z.of_nat fuel -> exists out, decode_loop fuel s nc = Ok out.
Proof.
  induction fuel as [|fuel IH]; intros s nc Hl Hf; cbn [decode_loop]; (destruct (Z.ltb_spec 0 nc); [|by eexists]); [lia|].
  destruct (skip85_total s nc ltac:(lia)) as (s' & nc' & -> & H1 & H2). bind_step. destruct (nc' =? 0); [by eexists|]. cbv zeta.
  set (nti := if 5 <? nc' then 5 else nc'). assert (nti <= nc') as Ht by (subst nti; destruct (Z.ltb_spec 5 nc'); lia).
  destruct (Z.leb_spec nti 1); [by eexists|]. destruct (Z.eqb_spec (nti - 1) 0); [lia|].
  destruct (group85_total (Z.to_nat nti) s' nc' 0 ltac:(lia)) as (s2 & nc2 & qv & l & -> & H3 & H4). bind_step. destruct (Z.to_nat nti) eqn:E; [lia|].
  destruct (IH s2 nc2 ltac:(lia) ltac:(lia)) as [out ->]. bind_step. by eexists.
Qed.

Lemma decode85_total s : exists out, decode s = Ok out.
Proof. apply decode85_loop_total; [case_bool_decide; lia|unfold zlen; case_bool_decide; lia]. Qed.

End Base85.
