(* ===== verification/Codecs.v ===== *)
(** What the two text codecs promise. *)

From S2P Require Import Prelude Base64 Base85.
Local Open Scope Z_scope.

Module Codecs.

(** C30: the codecs round-trip. Encoding any bytes as base64 succeeds and decodes
    back to them, line breaks and padding included, and so does base85; and both
    decoders terminate without a panic on arbitrary text. *)
Theorem codecs_roundtrip (p : bytes) (Hp : is_bytes p) :
  (exists e, Base64.encode p = Ok e /\ Base64.decode e = Ok p) /\ Base85.decode (Base85.encode p) = Ok p /\
  (exists b, Base64.decode p = Ok b) /\ (exists b, Base85.decode p = Ok b).
Proof.
  split; [by apply Base64.b64_encode_decode|]. split; [by apply Base85.encode_decode85|]. split; [by apply Base64.b64_decode_total|apply Base85.decode85_total].
Qed.

(** Two bytes: [SGk=] and a line break. *)
Lemma codecs_roundtrip_witness : Base64.encode [72; 105] = Ok [83; 71; 107; 61; 10] /\ Base64.decode [83; 71; 107; 61; 10] = Ok [72; 105] /\
  Base85.decode (Base85.encode [72; 105]) = Ok [72; 105].
Proof.
  destruct (codecs_roundtrip [72; 105]) as ((e & E & D) & R & _); [repeat constructor; unfold is_u8, is_uint; lia|].
  assert (Base64.encode [72; 105] = Ok [83; 71; 107; 61; 10]) as E2 by reflexivity. rewrite E2 in E. injection E as <-. split; [exact E2|]. split; [exact D|exact R].
Defined.

End Codecs.
