(* ===== verification/Regex.v ===== *)
(** The regular-expression engine ([src/src/util/regex.rs]): the compiler of
    patterns into opcodes and the simulation of all states at once.

    The two vectors [a_op] and [a_arg] grow, shrink and are indexed together;
    they are one list of pairs here. A [RegexError] is the message it becomes
    in [Error::Error]. A vector index out of range and the debug-build overflow
    of the counts in braces are [Panic]. *)

From S2P Require Import Prelude.
Local Open Scope Z_scope.

Module Regex.

Definition RE_EOF : Z := 0.
Definition RE_START : Z := 0xfffffff.

Inductive Op : Type :=
  | RE_OP_MATCH | RE_OP_ANY | RE_OP_ANYSTAR | RE_OP_FORK | RE_OP_GOTO | RE_OP_ACCEPT
  | RE_OP_CC_INC | RE_OP_CC_EXC | RE_OP_CC_VALUE | RE_OP_CC_RANGE
  | RE_OP_WORD | RE_OP_NOTWORD | RE_OP_DIGIT | RE_OP_NOTDIGIT | RE_OP_SPACE | RE_OP_NOTSPACE
  | RE_OP_BOUNDARY | RE_OP_ATSTART.

#[global] Instance Op_eq_dec : EqDecision Op.
Proof. solve_decision. Defined.

Abbreviation Prog := (list (Op * Z)).

Record Regex : Type := mkRegex { re_prog : Prog; z_init : bytes; n_init : Z }.

(** ** Characters *)

(** A continuation byte at [i], when there is one. *)
Definition cont_at (z : bytes) (i : Z) : res bool :=
  if i <? zlen z then let* b := idx z i in Ok (Z.land b 0xc0 =? 0x80) else Ok false.

Definition low6 (z : bytes) (i : Z) : res Z := let* b := idx z i in Ok (Z.land b 0x3f).

(** The character at [i] and the position after it. *)
Definition re_next_char (z : bytes) (i : Z) : res (Z * Z) :=
  if zlen z <=? i then Ok (0, i)
  else
    let* c := idx z i in
    let i := i + 1 in
    if c <? 0x80 then Ok (c, i)
    else
      let* k0 := cont_at z i in
      let* k1 := cont_at z (i + 1) in
      let* k2 := cont_at z (i + 2) in
      if (Z.land c 0xe0 =? 0xc0) && k0 then
        let* b0 := low6 z i in
        let c := Z.lor (Z.shiftl (Z.land c 0x1f) 6) b0 in
        Ok (if c <? 0x80 then 0xfffd else c, i + 1)
      else if (Z.land c 0xf0 =? 0xe0) && (k0 && k1) then
        let* b0 := low6 z i in
        let* b1 := low6 z (i + 1) in
        let c := Z.lor (Z.lor (Z.shiftl (Z.land c 0x0f) 12) (Z.shiftl b0 6)) b1 in
        Ok (if (c <=? 0x7ff) || ((0xd800 <=? c) && (c <=? 0xdfff)) then 0xfffd else c, i + 2)
      else if (Z.land c 0xf8 =? 0xf0) && (k0 && k1 && k2) then
        let* b0 := low6 z i in
        let* b1 := low6 z (i + 1) in
        let* b2 := low6 z (i + 2) in
        let c := Z.lor (Z.lor (Z.lor (Z.shiftl (Z.land c 0x07) 18) (Z.shiftl b0 12)) (Z.shiftl b1 6)) b2 in
        Ok (if (c <=? 0xffff) || (0x10ffff <? c) then 0xfffd else c, i + 3)
      else Ok (0xfffd, i).

Definition re_digit_char (c : Z) : bool := (48 <=? c) && (c <=? 57).

Definition re_word_char (c : Z) : bool :=
  ((48 <=? c) && (c <=? 57)) || ((97 <=? c) && (c <=? 122)) || ((65 <=? c) && (c <=? 90)) || (c =? 95).

Definition re_space_char (c : Z) : bool :=
  (c =? 32) || (c =? 9) || (c =? 10) || (c =? 13) || (c =? 0x0b) || (c =? 0x0c).

(** The value after one more hex digit, when [c] is one. *)
Definition re_hex (c v : Z) : option Z :=
  if (48 <=? c) && (c <=? 57) then Some (v * 16 + (c - 48))
  else if (97 <=? c) && (c <=? 102) then Some (v * 16 + (c - 97 + 10))
  else if (65 <=? c) && (c <=? 70) then Some (v * 16 + (c - 65 + 10))
  else None.

(** [re_hex(..) && re_hex(..) && ..] on [k] bytes from [i]. *)
Fixpoint hex_run (k : nat) (z : bytes) (i v : Z) : res (option Z) :=
  match k with
  | O => Ok (Some v)
  | S k =>
      let* c := idx z i in
      match re_hex c v with
      | Some v => hex_run k z (i + 1) v
      | None => Ok None
      end
  end.

(** A state is kept in 16 bits. *)
Definition re_add_state (set : list Z) (state : Z) : list Z :=
  let s := wrap 16 state in
  if bool_decide (s ∈ set) then set else set ++ [s].

(** ** The compiler *)

Record Compiler : Type := mkCompiler {
  c_z : bytes;
  c_i : Z;
  c_nocase : bool;
  c_prog : Prog;
  c_err : option string
}.

Definition at_i (c : Compiler) (i : Z) : Compiler := mkCompiler (c_z c) i (c_nocase c) (c_prog c) (c_err c).
Definition with_prog (c : Compiler) (p : Prog) : Compiler := mkCompiler (c_z c) (c_i c) (c_nocase c) p (c_err c).
Definition with_err (c : Compiler) (e : string) : Compiler := mkCompiler (c_z c) (c_i c) (c_nocase c) (c_prog c) (Some e).

Definition n_state (c : Compiler) : Z := zlen (c_prog c).

(** Folding to lower case, for [regexpi]. *)
Definition fold_case (nocase : bool) (c : Z) : Z :=
  if nocase && ((65 <=? c) && (c <=? 90)) then c + 32 else c.

Definition next_char (c : Compiler) : res (Z * Compiler) :=
  let* (ch, i) := re_next_char (c_z c) (c_i c) in
  Ok (fold_case (c_nocase c) ch, at_i c i).

Definition peek (c : Compiler) : Z := default 0 (get (c_z c) (c_i c)).

(** The cast to [i32] of an argument. *)
Definition arg32 (a : Z) : Z := to_signed 32 (wrap 32 a).

Definition re_insert (c : Compiler) (i_before : Z) (op : Op) (arg : Z) : res Compiler :=
  if (0 <=? i_before) && (i_before <=? n_state c) then
    Ok (with_prog c (take (Z.to_nat i_before) (c_prog c) ++ (op, arg32 arg) :: drop (Z.to_nat i_before) (c_prog c)))
  else Panic.

Definition re_append (c : Compiler) (op : Op) (arg : Z) : Compiler := with_prog c (c_prog c ++ [(op, arg32 arg)]).

(** The [n] opcodes from [i_start] again at the end. *)
Fixpoint re_copy (n : nat) (c : Compiler) (i_start : Z) : res Compiler :=
  match n with
  | O => Ok c
  | S n =>
      let* x := idx (c_prog c) i_start in
      re_copy n (with_prog c (c_prog c ++ [x])) (i_start + 1)
  end.

(** [self.a_arg[i] = arg]. *)
Definition set_arg (c : Compiler) (i arg : Z) : res Compiler :=
  let* x := idx (c_prog c) i in
  let* p := set_idx (c_prog c) i (x.1, arg32 arg) in
  Ok (with_prog c p).

(** The characters that may follow a backslash, with what they stand for. *)
Definition ZESC : list Z := [97; 102; 110; 114; 116; 118; 92; 40; 41; 42; 46; 43; 63; 91; 36; 94; 123; 124; 125; 93].
Definition ZTRANS : list Z := [7; 12; 10; 13; 9; 11].

Fixpoint find_esc (c0 : Z) (zesc ztrans : list Z) : option Z :=
  match zesc with
  | [] => None
  | e :: zesc =>
      if e =? c0 then Some (match ztrans with t :: _ => t | [] => c0 end)
      else find_esc c0 zesc (match ztrans with _ :: ts => ts | [] => [] end)
  end.

(** [\uXXXX] or [\xXX] at the position after the backslash. *)
Definition hex_esc (c : Compiler) (letter : Z) (k : nat) : res (option (Z * Compiler)) :=
  let* c0 := idx (c_z c) (c_i c) in
  if (c0 =? letter) && (c_i c + Z.of_nat k <? zlen (c_z c)) then
    let* o := hex_run k (c_z c) (c_i c + 1) 0 in
    Ok (match o with Some v => Some (v, at_i c (c_i c + Z.of_nat k + 1)) | None => None end)
  else Ok None.

Definition esc_char (c : Compiler) : res (Z * Compiler) :=
  if zlen (c_z c) <=? c_i c then Ok (0, c)
  else
    let* c0 := idx (c_z c) (c_i c) in
    let* u := hex_esc c 117 4 in
    match u with
    | Some r => Ok r
    | None =>
        let* x := hex_esc c 120 2 in
        match x with
        | Some r => Ok r
        | None =>
            match find_esc c0 ZESC ZTRANS with
            | Some v => Ok (v, at_i c (c_i c + 1))
            | None => Ok (c0, with_err c "unknown \ escape")
            end
        end
    end.

(** The digits of a count in braces; [m] in 64 bits. *)
Fixpoint digits (fuel : nat) (c : Compiler) (m : Z) : res (Z * Compiler) :=
  if re_digit_char (peek c) then
    match fuel with
    | O => Panic
    | S fuel =>
        let m := m * 10 + (peek c - 48) in
        if 2 ^ 63 <=? m then Panic else digits fuel (at_i c (c_i c + 1)) m
    end
  else Ok (m, c).

(** [j < m]: [k] more copies of the operand. *)
Fixpoint copies (k : nat) (c : Compiler) (i_prev sz : Z) : res Compiler :=
  match k with
  | O => Ok c
  | S k =>
      let* c := re_copy (Z.to_nat sz) c i_prev in
      copies k c i_prev sz
  end.

(** [j < n]: [k] more optional copies. *)
Fixpoint optional_copies (k : nat) (c : Compiler) (i_prev sz : Z) : res Compiler :=
  match k with
  | O => Ok c
  | S k =>
      let* c := re_copy (Z.to_nat sz) (re_append c RE_OP_FORK (sz + 1)) i_prev in
      optional_copies k c i_prev sz
  end.

(** [X{m,n}], after the opening brace. *)
Definition braces (c : Compiler) (i_prev : Z) : res Compiler :=
  if i_prev <? 0 then Err (EError "'{m,n}' without operand")
  else
    let* (m, c) := digits (length (c_z c)) c 0 in
    let* (n, c) :=
      if peek c =? 44 then digits (length (c_z c)) (at_i c (c_i c + 1)) 0 else Ok (m, c) in
    if negb (peek c =? 125) then Err (EError "unmatched '{'")
    else if (0 <? n) && (n <? m) then Err (EError "n less than m in '{m,n}'")
    else
      let c := at_i c (c_i c + 1) in
      let sz := n_state c - i_prev in
      if m =? 0 then
        if n =? 0 then Err (EError "both m and n are zero in '{m,n}'")
        else
          let* c := re_insert c i_prev RE_OP_FORK (sz + 1) in
          optional_copies (Z.to_nat (n - 1)) c (i_prev + 1) sz
      else
        let* c := copies (Z.to_nat (m - 1)) c i_prev sz in
        let* c := optional_copies (Z.to_nat (n - m)) c i_prev sz in
        Ok (if n =? 0 then re_append c RE_OP_FORK (- sz) else c).

(** The members of a class, up to its closing bracket; the last character
    read. *)
Fixpoint class_loop (fuel : nat) (c : Compiler) : res (Z * Compiler) :=
  match fuel with
  | O => Panic
  | S fuel =>
      let* (cch, c) := next_char c in
      if cch =? 0 then Ok (cch, c)
      else if (cch =? 91) && (peek c =? 58) then Err (EError "POSIX character classes not supported")
      else
        let* (cch, c) := if cch =? 92 then esc_char c else Ok (cch, c) in
        let* (cch, c) :=
          if peek c =? 45 then
            let c := re_append c RE_OP_CC_RANGE cch in
            let* (cch, c) := next_char (at_i c (c_i c + 1)) in
            let* (cch, c) := if cch =? 92 then esc_char c else Ok (cch, c) in
            Ok (cch, re_append c RE_OP_CC_RANGE cch)
          else Ok (cch, re_append c RE_OP_CC_VALUE cch) in
        if peek c =? 93 then Ok (cch, at_i c (c_i c + 1)) else class_loop fuel c
  end.

(** [[...]], after the opening bracket. *)
Definition char_class (c : Compiler) : res Compiler :=
  let i_first := n_state c in
  let c :=
    if peek c =? 94 then at_i (re_append c RE_OP_CC_EXC 0) (c_i c + 1) else re_append c RE_OP_CC_INC 0 in
  let* (cch, c) := class_loop (S (length (c_z c))) c in
  if cch =? 0 then Err (EError "unclosed '['")
  else if i_first <? n_state c then set_arg c i_first (n_state c - i_first)
  else Ok c.

(** The classes written with a backslash. *)
Definition special_op (b : Z) : option Op :=
  if b =? 98 then Some RE_OP_BOUNDARY
  else if b =? 100 then Some RE_OP_DIGIT
  else if b =? 68 then Some RE_OP_NOTDIGIT
  else if b =? 115 then Some RE_OP_SPACE
  else if b =? 83 then Some RE_OP_NOTSPACE
  else if b =? 119 then Some RE_OP_WORD
  else if b =? 87 then Some RE_OP_NOTWORD
  else None.

Definition backslash (c : Compiler) : res Compiler :=
  match special_op (peek c) with
  | Some op => Ok (re_append (at_i c (c_i c + 1)) op 0)
  | None =>
      let* (ec, c) := esc_char c in
      Ok (re_append c RE_OP_MATCH ec)
  end.

(** [X*], [X+] and [X?]. *)
Definition star (c : Compiler) (i_prev : Z) : res Compiler :=
  if i_prev <? 0 then Err (EError "'*' without operand")
  else
    let* c := re_insert c i_prev RE_OP_GOTO (n_state c - i_prev + 1) in
    Ok (re_append c RE_OP_FORK (i_prev - n_state c + 1)).

Definition plus (c : Compiler) (i_prev : Z) : res Compiler :=
  if i_prev <? 0 then Err (EError "'+' without operand")
  else Ok (re_append c RE_OP_FORK (i_prev - n_state c)).

Definition question (c : Compiler) (i_prev : Z) : res Compiler :=
  if i_prev <? 0 then Err (EError "'?' without operand")
  else re_insert c i_prev RE_OP_FORK (n_state c - i_prev + 1).

(** The loop of [subcompile_string], given how to compile a group. *)
Fixpoint string_loop (re : Compiler -> res Compiler) (fuel : nat) (c : Compiler) (i_prev : Z) : res Compiler :=
  match fuel with
  | O => Panic
  | S fuel =>
      let* (ch, c) := next_char c in
      if ch =? 0 then Ok c
      else
        let i_start := n_state c in
        if (ch =? 124) || (ch =? 41) then Ok (at_i c (c_i c - 1))
        else
          let* c :=
            if ch =? 40 then
              let* c := re c in
              if negb (peek c =? 41) then Err (EError "unmatched '('") else Ok (at_i c (c_i c + 1))
            else if ch =? 46 then
              if peek c =? 42 then Ok (at_i (re_append c RE_OP_ANYSTAR 0) (c_i c + 1))
              else Ok (re_append c RE_OP_ANY 0)
            else if ch =? 42 then star c i_prev
            else if ch =? 43 then plus c i_prev
            else if ch =? 63 then question c i_prev
            else if ch =? 36 then Ok (re_append c RE_OP_MATCH RE_EOF)
            else if ch =? 94 then Ok (re_append c RE_OP_ATSTART 0)
            else if ch =? 123 then braces c i_prev
            else if ch =? 91 then char_class c
            else if ch =? 92 then backslash c
            else Ok (re_append c RE_OP_MATCH ch) in
          string_loop re fuel c i_start
  end.

(** The [while] of [subcompile_re]. *)
Fixpoint alt_loop (string : Compiler -> res Compiler) (fuel : nat) (c : Compiler) (i_start : Z) : res Compiler :=
  if peek c =? 124 then
    match fuel with
    | O => Panic
    | S fuel =>
        let i_end := n_state c in
        let* c := re_insert c i_start RE_OP_FORK (i_end + 2 - i_start) in
        let i_goto := n_state c in
        let c := re_append c RE_OP_GOTO 0 in
        let* c := string (at_i c (c_i c + 1)) in
        let* c := set_arg c i_goto (n_state c - i_goto) in
        alt_loop string fuel c i_start
    end
  else Ok c.

(** [subcompile_re]; the fuel bounds the nesting of groups. *)
Fixpoint subcompile_re (fuel : nat) (c : Compiler) : res Compiler :=
  match fuel with
  | O => Panic
  | S fuel =>
      let i_start := n_state c in
      let string c := string_loop (subcompile_re fuel) (S (length (c_z c))) c (-1) in
      let* c := string c in
      alt_loop string (length (c_z c)) c i_start
  end.

(** The pattern and the subject end at the first NUL. *)
Fixpoint c_string (z : bytes) : bytes :=
  match z with
  | [] => []
  | b :: z => if b =? 0 then [] else b :: c_string z
  end.

(** The bytes of a character of the literal prefix, below U+10000. *)
Definition prefix_bytes (x : Z) : option bytes :=
  if x <=? 0x7f then Some [wrap 8 x]
  else if x <=? 0x7ff then Some [wrap 8 (Z.lor 0xc0 (Z.shiftr x 6)); wrap 8 (Z.lor 0x80 (Z.land x 0x3f))]
  else if x <=? 0xffff then
    Some [wrap 8 (Z.lor 0xe0 (Z.shiftr x 12)); wrap 8 (Z.lor 0x80 (Z.land (Z.shiftr x 6) 0x3f)); wrap 8 (Z.lor 0x80 (Z.land x 0x3f))]
  else None.

(** The loop that collects the prefix: [z] is the part of [z_init] written. *)
Fixpoint prefix_loop (prog : Prog) (z : bytes) : bytes :=
  match prog with
  | (RE_OP_MATCH, arg) :: prog =>
      if zlen z <? 12 - 2 then
        match prefix_bytes (wrap 32 arg) with
        | Some bs => prefix_loop prog (z ++ bs)
        | None => z
        end
      else z
  | _ => z
  end.

(** A NUL at the end of the prefix is left out of its length. *)
Definition prefix_len (z : bytes) : Z :=
  match last z with Some 0 => zlen z - 1 | _ => zlen z end.

Definition compile (pattern : bytes) (nocase : bool) : res Regex :=
  let z := c_string pattern in
  let '(z, prog) :=
    match z with
    | 94 :: z => (z, [])
    | _ => (z, [(RE_OP_ANYSTAR, 0)])
    end in
  let* c := subcompile_re (S (length z)) (mkCompiler z 0 nocase prog None) in
  if c_i c <? zlen z then Err (EError "unrecognized character")
  else
    let c := re_append c RE_OP_ACCEPT 0 in
    let z_init :=
      match c_prog c with
      | (RE_OP_ANYSTAR, _) :: prog => if nocase then [] else prefix_loop prog []
      | _ => []
      end in
    match c_err c with
    | Some e => Err (EError e)
    | None => Ok (mkRegex (c_prog c) (z_init ++ zrep (12 - zlen z_init) 0) (prefix_len z_init))
    end.

(** ** The matcher *)

(** The [while] over the members of a class: is [c] one of them? *)
Fixpoint class_hit (fuel : nat) (prog : Prog) (x n j c : Z) : res bool :=
  if (0 <? j) && (j <? n) then
    match fuel with
    | O => Panic
    | S fuel =>
        let xi := x + j in
        let* e := idx prog xi in
        if bool_decide (e.1 = RE_OP_CC_VALUE) then
          if e.2 =? c then Ok true else class_hit fuel prog x n (j + 1) c
        else if e.2 <=? c then
          let* e' := idx prog (xi + 1) in
          if c <=? e'.2 then Ok true else class_hit fuel prog x n (j + 2) c
        else class_hit fuel prog x n (j + 2) c
    end
  else Ok false.

(** What one state does on the character [c]: [None] to accept, else the two
    sets of states. *)
Definition step_state (prog : Prog) (x c c_prev : Z) (this next : list Z) : res (option (list Z * list Z)) :=
  let* e := idx prog x in
  let '(op, arg) := e in
  let eat (b : bool) := Ok (Some (this, if b then re_add_state next (x + 1) else next)) in
  let go (b : bool) := Ok (Some (if b then re_add_state this (x + 1) else this, next)) in
  match op with
  | RE_OP_MATCH => eat (arg =? c)
  | RE_OP_ATSTART => go (c_prev =? RE_START)
  | RE_OP_ANY => eat (negb (c =? 0))
  | RE_OP_WORD => eat (re_word_char c)
  | RE_OP_NOTWORD => eat (negb (re_word_char c) && negb (c =? 0))
  | RE_OP_DIGIT => eat (re_digit_char c)
  | RE_OP_NOTDIGIT => eat (negb (re_digit_char c) && negb (c =? 0))
  | RE_OP_SPACE => eat (re_space_char c)
  | RE_OP_NOTSPACE => eat (negb (re_space_char c) && negb (c =? 0))
  | RE_OP_BOUNDARY => go (negb (Bool.eqb (re_word_char c) (re_word_char c_prev)))
  | RE_OP_ANYSTAR => Ok (Some (re_add_state this (x + 1), re_add_state next x))
  | RE_OP_FORK => Ok (Some (re_add_state (re_add_state this (x + arg)) (x + 1), next))
  | RE_OP_GOTO => Ok (Some (re_add_state this (x + arg), next))
  | RE_OP_ACCEPT => Ok None
  | RE_OP_CC_INC | RE_OP_CC_EXC =>
      let is_exc := bool_decide (op = RE_OP_CC_EXC) in
      if is_exc && (c =? 0) then Ok (Some (this, next))
      else
        let* hit := class_hit (Z.to_nat arg) prog x arg 1 c in
        let hit := if is_exc then negb hit else hit in
        Ok (Some (this, if hit then re_add_state next (x + arg) else next))
  | RE_OP_CC_VALUE | RE_OP_CC_RANGE => Ok (Some (this, next))
  end.

(** The states of [this] from [at_] on; every state is added once. *)
Fixpoint states_loop (fuel : nat) (prog : Prog) (at_ c c_prev : Z) (this next : list Z) : res (option (list Z)) :=
  if at_ <? zlen this then
    match fuel with
    | O => Panic
    | S fuel =>
        let* x := idx this at_ in
        let* r := step_state prog x c c_prev this next in
        match r with
        | None => Ok None
        | Some (this, next) => states_loop fuel prog (at_ + 1) c c_prev this next
        end
    end
  else Ok (Some next).

(** The characters of the subject; [None] is an explicit accept, else the last
    set of states. *)
Fixpoint input_loop (fuel : nat) (prog : Prog) (z : bytes) (in_i c : Z) (nocase : bool) (next : list Z) : res (option (list Z)) :=
  if (c =? RE_EOF) || bool_decide (next = []) then Ok (Some next)
  else
    match fuel with
    | O => Panic
    | S fuel =>
        let c_prev := c in
        let* (ch, in_i) := re_next_char z in_i in
        let c := fold_case nocase ch in
        let* r := states_loop (length prog) prog 0 c c_prev next [] in
        match r with
        | None => Ok None
        | Some next => input_loop fuel prog z in_i c nocase next
        end
    end.

(** The jumps from a state at the end of the input. *)
Fixpoint goto_chain (fuel : nat) (prog : Prog) (x : Z) : res bool :=
  let* e := idx prog x in
  match e.1 with
  | RE_OP_GOTO => match fuel with O => Panic | S fuel => goto_chain fuel prog (x + e.2) end
  | RE_OP_ACCEPT => Ok true
  | _ => Ok false
  end.

Fixpoint final_states (prog : Prog) (states : list Z) : res bool :=
  match states with
  | [] => Ok false
  | x :: states =>
      let* a := goto_chain (length prog) prog x in
      if a then Ok true else final_states prog states
  end.

(** The search for the literal prefix [p]: where it occurs first from [in_i]. *)
Fixpoint find_prefix (fuel : nat) (z p : bytes) (in_i : Z) : res (option Z) :=
  if zlen z <? in_i + zlen p then Ok None
  else
    match fuel with
    | O => Panic
    | S fuel =>
        let* s := slice z in_i (in_i + zlen p) in
        if bool_decide (s = p) then Ok (Some in_i) else find_prefix fuel z p (in_i + 1)
    end.

Definition matches (re : Regex) (z_in : bytes) (nocase : bool) : res bool :=
  let z := c_string z_in in
  let* start :=
    if 0 <? n_init re then
      let* p := slice (z_init re) 0 (n_init re) in
      let* o := find_prefix (S (length z)) z p 0 in
      Ok (match o with Some in_i => Some (in_i, RE_START - 1) | None => None end)
    else Ok (Some (0, RE_START)) in
  match start with
  | None => Ok false
  | Some (in_i, c) =>
      let* r := input_loop (S (S (length z))) (re_prog re) z in_i c nocase (re_add_state [] 0) in
      match r with
      | None => Ok true
      | Some next => final_states (re_prog re) next
      end
  end.

Definition regexp_match (pattern subject : bytes) : res bool :=
  let* re := compile pattern false in
  matches re subject false.

End Regex.
