(* ===== verification/RegexNfa.v ===== *)
(** The regular-expression matcher as a nondeterministic automaton: the
    simulation of [Regex.matches] is total on well-formed programs and decides
    whether some run accepts. *)

From S2P Require Import Prelude Regex.
Import Regex.
Local Open Scope Z_scope.

Module RegexNfa.

(** ** The automaton of a program *)

(** An opcode at [x] of a program of [N]: its successors exist, and a jump
    without a choice goes forward. *)
Definition op_ok (N x : Z) (e : Op * Z) : Prop :=
  match e.1 with
  | RE_OP_ACCEPT | RE_OP_CC_VALUE | RE_OP_CC_RANGE => True
  | RE_OP_FORK => 0 <= x + e.2 < N /\ x + 1 < N
  | RE_OP_GOTO => 0 < e.2 /\ x + e.2 < N
  | RE_OP_CC_INC | RE_OP_CC_EXC => 1 <= e.2 /\ x + e.2 < N
  | _ => x + 1 < N
  end.

Record wf (prog : Prog) : Prop := {
  wf_len : 0 < zlen prog <= 2 ^ 16;
  wf_op x e : get prog x = Some e -> op_ok (zlen prog) x e
}.

Definition hit (prog : Prog) (x n c : Z) : bool :=
  match class_hit (Z.to_nat n) prog x n 1 c with Ok b => b | _ => false end.

(** The states reached from [x] without and with eating [c]. *)
Definition eps_succ (prog : Prog) (c_prev c x : Z) : list Z :=
  match get prog x with
  | Some (RE_OP_FORK, arg) => [x + arg; x + 1]
  | Some (RE_OP_GOTO, arg) => [x + arg]
  | Some (RE_OP_ANYSTAR, _) => [x + 1]
  | Some (RE_OP_ATSTART, _) => if c_prev =? RE_START then [x + 1] else []
  | Some (RE_OP_BOUNDARY, _) => if negb (Bool.eqb (re_word_char c) (re_word_char c_prev)) then [x + 1] else []
  | _ => []
  end.

Definition eat_succ (prog : Prog) (c x : Z) : list Z :=
  let one (b : bool) := if b then [x + 1] else [] in
  match get prog x with
  | Some (RE_OP_MATCH, arg) => one (arg =? c)
  | Some (RE_OP_ANY, _) => one (negb (c =? 0))
  | Some (RE_OP_WORD, _) => one (re_word_char c)
  | Some (RE_OP_NOTWORD, _) => one (negb (re_word_char c) && negb (c =? 0))
  | Some (RE_OP_DIGIT, _) => one (re_digit_char c)
  | Some (RE_OP_NOTDIGIT, _) => one (negb (re_digit_char c) && negb (c =? 0))
  | Some (RE_OP_SPACE, _) => one (re_space_char c)
  | Some (RE_OP_NOTSPACE, _) => one (negb (re_space_char c) && negb (c =? 0))
  | Some (RE_OP_ANYSTAR, _) => [x]
  | Some (RE_OP_CC_INC, arg) => if hit prog x arg c then [x + arg] else []
  | Some (RE_OP_CC_EXC, arg) => if negb (c =? 0) && negb (hit prog x arg c) then [x + arg] else []
  | _ => []
  end.

Definition accepting (prog : Prog) (x : Z) : Prop := exists arg, get prog x = Some (RE_OP_ACCEPT, arg).

(** After the last character only jumps are followed. *)
Inductive goto_acc (prog : Prog) : Z -> Prop :=
  | goto_accept x : accepting prog x -> goto_acc prog x
  | goto_jump x arg : get prog x = Some (RE_OP_GOTO, arg) -> goto_acc prog (x + arg) -> goto_acc prog x.

(** A run from state [x] on the characters [cs], [c_prev] being the last one
    read, accepts in at most [n] steps. *)
Inductive accepted (prog : Prog) : nat -> Z -> list Z -> Z -> Prop :=
  | acc_now n c_prev cs x : accepting prog x -> accepted prog n c_prev cs x
  | acc_eps n c_prev cs x y : y ∈ eps_succ prog c_prev (hd 0 cs) x -> accepted prog n c_prev cs y -> accepted prog (S n) c_prev cs x
  | acc_eat n c_prev c cs x y : y ∈ eat_succ prog c x -> accepted prog n c cs y -> accepted prog (S n) c_prev (c :: cs) x
  | acc_end n c_prev x y : y ∈ eat_succ prog 0 x -> goto_acc prog y -> accepted prog n c_prev [] x.

Definition accepts (prog : Prog) (c_prev : Z) (cs : list Z) (x : Z) : Prop := exists n, accepted prog n c_prev cs x.

(** The characters from position [i] on. *)
Inductive spells (nocase : bool) (z : bytes) : Z -> list Z -> Prop :=
  | spells_end i : zlen z <= i -> spells nocase z i []
  | spells_char i c i' cs : i < zlen z -> re_next_char z i = Ok (c, i') -> c <> 0 -> spells nocase z i' cs -> spells nocase z i (fold_case nocase c :: cs).

(** ** Indexing *)

Lemma get_idx {A} (l : list A) i x : get l i = Some x -> idx l i = Ok x.
Proof. unfold get, idx. destruct (i <? 0); [done|]. by intros ->. Qed.

Lemma get_bounds {A} (l : list A) i x : get l i = Some x -> 0 <= i < zlen l.
Proof. unfold get. destruct (Z.ltb_spec i 0); [done|]. intros Hx%lookup_lt_Some. unfold zlen. lia. Qed.

Lemma get_in_range {A} (l : list A) i : 0 <= i < zlen l -> exists x, get l i = Some x.
Proof.
  unfold get, zlen. intros H. destruct (Z.ltb_spec i 0); [lia|]. destruct (lookup_lt_is_Some_2 l (Z.to_nat i)) as [x E]; [lia|]. by exists x.
Qed.

(** ** Sets of states *)

Definition add_all (set xs : list Z) : list Z := fold_left re_add_state xs set.

Definition states (N : Z) (set : list Z) : Prop := NoDup set /\ Forall (fun x => 0 <= x < N) set.

Lemma add_state_spec N set x : N <= 2 ^ 16 -> 0 <= x < N -> states N set ->
  states N (re_add_state set x) /\ (forall y, y ∈ re_add_state set x <-> y ∈ set \/ y = x) /\ exists l, re_add_state set x = set ++ l.
Proof.
  intros HN Hx [Hn Hf]. unfold re_add_state. rewrite wrap_small by (unfold is_uint; lia). case_bool_decide as Hin.
  - split; [done|]. split; [|exists []; by rewrite app_nil_r]. intros y. split; [by left|]. by intros [ | -> ].
  - split; [|split; [|by exists [x]]].
    + split; [|apply Forall_app; split; [done|by constructor]]. apply NoDup_app. split; [done|]. split; [|apply NoDup_singleton]. intros y Hy Hy'. apply list_elem_of_singleton in Hy' as ->. done.
    + intros y. by rewrite elem_of_app, list_elem_of_singleton.
Qed.

Lemma add_all_spec N xs : N <= 2 ^ 16 -> Forall (fun x => 0 <= x < N) xs -> forall set, states N set ->
  states N (add_all set xs) /\ (forall y, y ∈ add_all set xs <-> y ∈ set \/ y ∈ xs) /\ exists l, add_all set xs = set ++ l.
Proof.
  intros HN. unfold add_all. induction 1 as [|x xs Hx Hxs IH]; intros set Hs; cbn [fold_left].
  - split; [done|]. split; [|by exists []; rewrite app_nil_r]. intros y. rewrite elem_of_nil. tauto.
  - destruct (add_state_spec N set x HN Hx Hs) as (Hs' & Hy & l & El). destruct (IH _ Hs') as (H1 & H2 & l' & El'). split; [done|]. split.
    + intros y. rewrite H2, Hy, elem_of_cons. tauto.
    + exists (l ++ l'). by rewrite El', El, app_assoc.
Qed.

Lemma states_length N set : 0 <= N -> states N set -> zlen set <= N.
Proof.
  intros HN [Hn Hf]. pose proof (submseteq_length set (seqZ 0 N)) as H. rewrite length_seqZ in H. unfold zlen. assert (set ⊆+ seqZ 0 N) as Hs; [|specialize (H Hs); lia].
  apply NoDup_submseteq; [done|]. intros x Hx. rewrite Forall_forall in Hf. apply elem_of_seqZ. specialize (Hf x Hx). lia.
Qed.

(** ** One character *)

Section prog.
#[local] Set Default Proof Using "Type*".
Context (prog : Prog) (Hwf : wf prog).
Local Notation N := (zlen prog).

Lemma class_hit_ok x n c : 0 <= x -> x + n < N -> forall fuel j, 1 <= j -> n - j <= Z.of_nat fuel -> exists b, class_hit fuel prog x n j c = Ok b.
Proof.
  intros Hx Hn. assert (forall j, 1 <= j < n -> exists e, idx prog (x + j) = Ok e) as Hidx.
  { intros j Hj. destruct (get_in_range prog (x + j)) as [e E]; [lia|]. exists e. by apply get_idx. }
  assert (forall j, 1 <= j < n -> exists e, idx prog (x + j + 1) = Ok e) as Hidx'.
  { intros j Hj. destruct (get_in_range prog (x + j + 1)) as [e E]; [lia|]. exists e. by apply get_idx. }
  induction fuel as [|fuel IH]; intros j Hj Hf; cbn [class_hit].
  - destruct (Z.ltb_spec 0 j), (Z.ltb_spec j n); cbn [andb]; try lia; by exists false.
  - destruct (Z.ltb_spec 0 j), (Z.ltb_spec j n); cbn [andb]; try (by exists false).
    destruct (Hidx j ltac:(lia)) as (e & ->). bind_step. destruct (IH (j + 1) ltac:(lia) ltac:(lia)) as (b1 & E1). destruct (IH (j + 2) ltac:(lia) ltac:(lia)) as (b2 & E2).
    case_bool_decide; [destruct (e.2 =? c); [by exists true|by exists b1]|]. destruct (e.2 <=? c); [|by exists b2].
    destruct (Hidx' j ltac:(lia)) as (e' & ->). bind_step. destruct (c <=? e'.2); [by exists true|by exists b2].
Qed.

Lemma hit_ok x n c : 0 <= x -> 1 <= n -> x + n < N -> class_hit (Z.to_nat n) prog x n 1 c = Ok (hit prog x n c).
Proof. intros Hx H1 Hn. unfold hit. destruct (class_hit_ok x n c Hx Hn (Z.to_nat n) 1) as (b & ->); [lia|lia|done]. Qed.

Lemma op_at x e : get prog x = Some e -> op_ok N x e /\ 0 <= x < N.
Proof. intros H. split; [by apply (wf_op _ Hwf)|by eapply get_bounds]. Qed.

Lemma succ_range c_prev c x : Forall (fun y => 0 <= y < N) (eps_succ prog c_prev c x) /\ Forall (fun y => 0 <= y < N) (eat_succ prog c x).
Proof.
  unfold eps_succ, eat_succ. destruct (get prog x) as [[op arg]|] eqn:E; [|done]. destruct (op_at x _ E) as [Ho Hr].
  destruct op; cbn in Ho; split; repeat case_match; repeat constructor; lia.
Qed.

Lemma step_state_moves x c c_prev this next : 0 <= x < N ->
  (accepting prog x /\ step_state prog x c c_prev this next = Ok None) \/
  (~ accepting prog x /\ step_state prog x c c_prev this next = Ok (Some (add_all this (eps_succ prog c_prev c x), add_all next (eat_succ prog c x)))).
Proof.
  intros Hr. destruct (get_in_range prog x Hr) as [[op arg] E]. unfold step_state, eps_succ, eat_succ, accepting. rewrite (get_idx _ _ _ E), E. bind_step. destruct (op_at x _ E) as [Ho _].
  destruct op; try (left; split; [by exists arg|done]); right; (split; [by intros (? & [= ])|]); cbn [add_all fold_left];
    try (cbn in Ho; rewrite (hit_ok x arg c) by lia; try rewrite bool_decide_true by done; try rewrite bool_decide_false by done; destruct (c =? 0), (hit prog x arg c); done);
    repeat case_match; done.
Qed.

Definition eps (c_prev c : Z) (x y : Z) : Prop := y ∈ eps_succ prog c_prev c x.

(** What the processing of a set so far guarantees. *)
Record progress (c_prev c : Z) (S0 : list Z) (at_ : Z) (this next : list Z) : Prop := {
  pr_this : states N this;
  pr_next : states N next;
  pr_at : 0 <= at_ <= zlen this;
  pr_start s : s ∈ S0 -> s ∈ this;
  pr_reach x : x ∈ this -> exists s, s ∈ S0 /\ rtc (eps c_prev c) s x;
  pr_done j x : Z.of_nat j < at_ -> this !! j = Some x -> ~ accepting prog x /\ (forall y, eps c_prev c x y -> y ∈ this) /\ (forall y, y ∈ eat_succ prog c x -> y ∈ next);
  pr_eaten y : y ∈ next -> exists x, x ∈ this /\ y ∈ eat_succ prog c x
}.

(** What the states that a set leads to say about it. *)
Definition closed_result (c_prev c : Z) (S0 : list Z) (r : option (list Z)) : Prop :=
  match r with
  | None => exists s x, s ∈ S0 /\ rtc (eps c_prev c) s x /\ accepting prog x
  | Some next =>
      states N next /\ (forall s x, s ∈ S0 -> rtc (eps c_prev c) s x -> ~ accepting prog x) /\
      (forall y, y ∈ next <-> exists s x, s ∈ S0 /\ rtc (eps c_prev c) s x /\ y ∈ eat_succ prog c x)
  end.

Lemma progress_end c_prev c S0 this next : progress c_prev c S0 (zlen this) this next -> closed_result c_prev c S0 (Some next).
Proof.
  intros [Ht Hn Ha Hs Hr Hd He]. assert (forall s x, s ∈ S0 -> rtc (eps c_prev c) s x -> x ∈ this) as Hcl.
  { intros s x Hin Hrt. apply Hs in Hin. induction Hrt as [x|x y z Hxy _ IH]; [done|]. apply IH. apply list_elem_of_lookup in Hin as [j Hj].
    pose proof (lookup_lt_Some _ _ _ Hj). destruct (Hd j x ltac:(unfold zlen; lia) Hj) as (_ & Hsu & _). by apply Hsu. }
  assert (forall x, x ∈ this -> ~ accepting prog x /\ (forall y, y ∈ eat_succ prog c x -> y ∈ next)) as Hin.
  { intros x [j Hj]%list_elem_of_lookup. pose proof (lookup_lt_Some _ _ _ Hj). destruct (Hd j x ltac:(unfold zlen; lia) Hj) as (G1 & _ & G2). done. }
  split; [done|]. split.
  - intros s x H1 H2. by apply Hin, (Hcl s).
  - intros y. split.
    + intros (x & Hx & Hy)%He. destruct (Hr x Hx) as (s & H1 & H2). by exists s, x.
    + intros (s & x & H1 & H2 & Hy). by apply (Hin x (Hcl s x H1 H2)).
Qed.

Lemma progress_step c_prev c S0 at_ this next x : progress c_prev c S0 at_ this next -> get this at_ = Some x -> ~ accepting prog x ->
  progress c_prev c S0 (at_ + 1) (add_all this (eps_succ prog c_prev c x)) (add_all next (eat_succ prog c x)).
Proof.
  intros [Ht Hn Ha Hs Hr Hd He] Hx Hna. destruct (succ_range c_prev c x) as [Hr1 Hr2]. pose proof (wf_len _ Hwf) as Hlen.
  destruct (add_all_spec N _ ltac:(lia) Hr1 this Ht) as (T1 & T2 & l & T3). destruct (add_all_spec N _ ltac:(lia) Hr2 next Hn) as (N1 & N2 & _).
  pose proof (get_bounds _ _ _ Hx) as Hra. assert (this !! Z.to_nat at_ = Some x) as Hxl by (unfold get in Hx; by destruct (Z.ltb_spec at_ 0)). assert (x ∈ this) as Hin by (by eapply list_elem_of_lookup_2).
  split; try done.
  - rewrite T3, zlen_app. pose proof (zlen_nonneg l). lia.
  - intros s H. apply T2. left. by apply Hs.
  - intros y [Hy|Hy]%T2; [by apply Hr|]. destruct (Hr x Hin) as (s & H1 & H2). exists s. split; [done|]. by eapply rtc_r.
  - intros j y Hj Hy. rewrite T3, lookup_app_l in Hy by (unfold zlen in Hra; lia). destruct (decide (Z.of_nat j = at_)) as [Hja|Hja].
    + assert (y = x) as -> by (replace j with (Z.to_nat at_) in Hy by lia; congruence). split; [done|]. split; intros z Hz; [apply T2|apply N2]; by right.
    + destruct (Hd j y ltac:(lia) Hy) as (D1 & D2 & D3). split; [done|]. split; intros z Hz; [apply T2|apply N2]; left; auto.
  - intros y [Hy|Hy]%N2; [|exists x; split; [|done]; apply T2; by left]. destruct (He y Hy) as (z & H1 & H2). exists z. split; [|done]. apply T2. by left.
Qed.

Lemma states_loop_closed c_prev c S0 fuel : forall at_ this next, progress c_prev c S0 at_ this next -> N - at_ <= Z.of_nat fuel ->
  exists r, states_loop fuel prog at_ c c_prev this next = Ok r /\ closed_result c_prev c S0 r.
Proof.
  induction fuel as [|fuel IH]; intros at_ this next Hp Hf; pose proof (states_length N this ltac:(pose proof (zlen_nonneg prog); lia) (pr_this _ _ _ _ _ _ Hp)) as Hl; pose proof (pr_at _ _ _ _ _ _ Hp) as Hat; cbn [states_loop].
  - destruct (Z.ltb_spec at_ (zlen this)); [lia|]. exists (Some next). split; [done|]. apply (progress_end _ _ _ this). by replace (zlen this) with at_ by lia.
  - destruct (Z.ltb_spec at_ (zlen this)); [|exists (Some next); split; [done|]; apply (progress_end _ _ _ this); by replace (zlen this) with at_ by lia].
    destruct (get_in_range this at_ ltac:(lia)) as [x Hx]. rewrite (get_idx _ _ _ Hx). bind_step.
    assert (x ∈ this) as Hin by (unfold get in Hx; destruct (at_ <? 0); [done|by eapply list_elem_of_lookup_2]).
    destruct (pr_this _ _ _ _ _ _ Hp) as [_ Hfa]. rewrite Forall_forall in Hfa. destruct (step_state_moves x c c_prev this next (Hfa x Hin)) as [[Hacc ->]|[Hna ->]]; bind_step.
    + exists None. split; [done|]. destruct (pr_reach _ _ _ _ _ _ Hp x Hin) as (s & H1 & H2). by exists s, x.
    + apply IH; [|lia]. by apply progress_step.
Qed.

Lemma states_loop_spec c_prev c S0 : states N S0 -> exists r, states_loop (length prog) prog 0 c c_prev S0 [] = Ok r /\ closed_result c_prev c S0 r.
Proof.
  intros Hs. apply states_loop_closed; [|unfold zlen; lia]. pose proof (zlen_nonneg S0). split; try done; try lia.
  - split; [apply NoDup_nil_2|constructor].
  - intros x Hx. exists x. split; [done|apply rtc_refl].
  - intros y Hy. by apply elem_of_nil in Hy.
Qed.

(** ** The runs *)

Lemma accepts_eps c_prev cs x y : rtc (eps c_prev (hd 0 cs)) x y -> accepts prog c_prev cs y -> accepts prog c_prev cs x.
Proof. induction 1 as [|x z y Hxz _ IH]; [done|]. intros (n & Hn)%IH. exists (S n). by eapply acc_eps. Qed.

(** The first character of an accepting run. *)
Lemma accepts_unfold c_prev cs s : accepts prog c_prev cs s <->
  exists x, rtc (eps c_prev (hd 0 cs)) s x /\
    (accepting prog x \/ match cs with [] => exists y, y ∈ eat_succ prog 0 x /\ goto_acc prog y | c :: cs => exists y, y ∈ eat_succ prog c x /\ accepts prog c cs y end).
Proof.
  split.
  - intros (n & H). induction H as [n cp cs x Hx|n cp cs x y Hxy _ IH|n cp c cs x y Hy Ha _|n cp x y Hy Hg].
    + exists x. split; [apply rtc_refl|by left].
    + destruct IH as (z & Hz & H). exists z. split; [by eapply rtc_l|done].
    + exists x. split; [apply rtc_refl|]. right. exists y. split; [done|by exists n].
    + exists x. split; [apply rtc_refl|]. right. by exists y.
  - intros (x & Hx & H). apply (accepts_eps _ _ _ _ Hx). destruct H as [Ha|H]; [exists O; by apply acc_now|]. destruct cs as [|c cs].
    + destruct H as (y & Hy & Hg). exists O. by eapply acc_end.
    + destruct H as (y & Hy & n & Hn). exists (S n). by eapply acc_eat.
Qed.

Lemma goto_acc_inv x op arg : get prog x = Some (op, arg) -> goto_acc prog x -> op = RE_OP_ACCEPT \/ op = RE_OP_GOTO /\ goto_acc prog (x + arg).
Proof using.
  intros E H. inversion H as [y (a & Hy)|y a Hy Hg]; subst; rewrite E in Hy; injection Hy as -> ->; [by left|by right].
Qed.

Lemma goto_chain_ok fuel : forall x, 0 <= x < N -> N - x <= Z.of_nat fuel -> exists b, goto_chain fuel prog x = Ok b /\ (b = true <-> goto_acc prog x).
Proof.
  induction fuel as [|fuel IH]; intros x Hx Hf; [lia|]. destruct (get_in_range prog x Hx) as [[op arg] E]. cbn [goto_chain]. rewrite (get_idx _ _ _ E). bind_step. cbn [fst snd].
  assert (op <> RE_OP_GOTO -> op <> RE_OP_ACCEPT -> false = true <-> goto_acc prog x) as Hno by (intros H1 H2; split; [done|]; by intros [|[]]%(goto_acc_inv x op arg E)).
  destruct op; try (exists false; split; [done|by apply Hno]).
  - destruct (op_at x _ E) as [[H1 H2] _]. cbn in H1, H2. destruct (IH (x + arg) ltac:(lia) ltac:(lia)) as (b & -> & Hb). exists b. split; [done|]. rewrite Hb. split.
    + by apply goto_jump.
    + by intros [|[_ Hg]]%(goto_acc_inv x _ arg E).
  - exists true. split; [done|]. split; [|done]. intros _. apply goto_accept. by exists arg.
Qed.

Lemma final_states_ok xs : Forall (fun x => 0 <= x < N) xs -> exists b, final_states prog xs = Ok b /\ (b = true <-> exists x, x ∈ xs /\ goto_acc prog x).
Proof.
  induction 1 as [|x xs Hx _ IH]; cbn [final_states].
  - exists false. split; [done|]. split; [done|]. intros (x & Hx & _). by apply elem_of_nil in Hx.
  - destruct (goto_chain_ok (length prog) x Hx ltac:(unfold zlen; lia)) as ([] & -> & Hb); bind_step.
    + exists true. split; [done|]. split; [|done]. intros _. exists x. split; [by left|by apply Hb].
    + destruct IH as (b & -> & Hb'). exists b. split; [done|]. rewrite Hb'. split.
      * intros (y & Hy & Hg). exists y. split; [by right|done].
      * intros (y & [->|Hy]%elem_of_cons & Hg); [by apply Hb in Hg|by exists y].
Qed.

Lemma fold_case_nonzero nocase c : c <> 0 -> fold_case nocase c <> 0.
Proof. unfold fold_case. destruct (Z.leb_spec 65 c), (Z.leb_spec c 90), nocase; cbn [andb]; lia. Qed.

(** The loop over the subject decides acceptance from a set of states. *)
Lemma input_loop_decides nocase z cs : forall i c_prev next fuel, spells nocase z i cs -> c_prev <> 0 -> states N next -> (length cs + 1 <= fuel)%nat ->
  exists r b, input_loop fuel prog z i c_prev nocase next = Ok r /\ match r with None => b = true | Some nx => final_states prog nx = Ok b end /\
    (b = true <-> exists s, s ∈ next /\ accepts prog c_prev cs s).
Proof.
  induction cs as [|c0 cs IH]; intros i c_prev next fuel Hsp Hc Hst Hf; (destruct fuel as [|fuel]; [cbn in Hf; lia|]); cbn [input_loop]; unfold RE_EOF; rewrite (proj2 (Z.eqb_neq c_prev 0)) by done; cbn [orb].
  all: case_bool_decide as Hnil; [subst next; exists (Some []), false; split; [done|]; split; [done|]; split; [done|]; intros (s & Hs & _); by apply elem_of_nil in Hs|].
  - inversion Hsp as [i' Hend|]; subst. unfold re_next_char. destruct (Z.leb_spec (zlen z) i); [|lia]. bind_step.
    assert (fold_case nocase 0 = 0) as -> by (unfold fold_case; by destruct nocase). destruct (states_loop_spec c_prev 0 next Hst) as (r & -> & Hr). bind_step. destruct r as [nx|].
    + destruct Hr as ((Hnd & Hfa) & Hno & Hnx). destruct (final_states_ok nx Hfa) as (b & Eb & Hb). exists (Some nx), b. split; [by destruct fuel|]. split; [done|]. rewrite Hb. split.
      * intros (y & Hy & Hg). apply Hnx in Hy as (s & x & H1 & H2 & H3). exists s. split; [done|]. apply accepts_unfold. exists x. split; [done|]. right. by exists y.
      * intros (s & H1 & Ha). apply accepts_unfold in Ha as (x & H2 & [Hac|(y & Hy & Hg)]); [by destruct (Hno s x)|]. exists y. split; [|done]. apply Hnx. by exists s, x.
    + destruct Hr as (s & x & H1 & H2 & H3). exists None, true. split; [done|]. split; [done|]. split; [|done]. intros _. exists s. split; [done|]. apply accepts_unfold. exists x. split; [done|by left].
  - inversion Hsp as [|i0 c i' cs' Hlt Hnext Hc0 Hsp']; subst. rewrite Hnext. bind_step. destruct (states_loop_spec c_prev (fold_case nocase c) next Hst) as (r & -> & Hr). bind_step. destruct r as [nx|].
    + destruct Hr as (Hs' & Hno & Hnx).
      destruct (IH i' (fold_case nocase c) nx fuel Hsp' (fold_case_nonzero nocase c Hc0) Hs' ltac:(cbn in Hf; lia)) as (r & b & E & Hrb & Hb).
      exists r, b. split; [done|]. split; [done|]. rewrite Hb. split.
      * intros (y & Hy & Hg). apply Hnx in Hy as (s & x & H1 & H2 & H3). exists s. split; [done|]. apply accepts_unfold. exists x. split; [done|]. right. by exists y.
      * intros (s & H1 & Ha). apply accepts_unfold in Ha as (x & H2 & [Hac|(y & Hy & Hg)]); [by destruct (Hno s x)|]. exists y. split; [|done]. apply Hnx. by exists s, x.
    + destruct Hr as (s & x & H1 & H2 & H3). exists None, true. split; [done|]. split; [done|]. split; [|done]. intros _. exists s. split; [done|]. apply accepts_unfold. exists x. split; [done|by left].
Qed.

End prog.

End RegexNfa.
