(* ===== verification/RegexLang.v ===== *)
(** Regular expressions and their languages, and the programs that stand for
    them: a run of the code of an expression from its start to its end reads a
    word of its language, and every such word has a run. *)

From S2P Require Import Prelude Pattern Regex RegexNfa.
Import Regex RegexNfa.
Local Open Scope Z_scope.

Module RegexLang.

(** ** Expressions *)

Inductive member : Type := MValue (x : Z) | MRange (lo hi : Z).

(** What matches one character. *)
Inductive sym : Type :=
  | Chr (x : Z)
  | AnyChar
  | Word (neg : bool)
  | Digit (neg : bool)
  | Space (neg : bool)
  | Class (exc : bool) (ms : list member).

Inductive re : Type :=
  | Emp
  | Sym (s : sym)
  | AnyStar
  | Seq (a b : re)
  | Alt (a b : re)
  | Star (a : re)
  | Plus (a : re)
  | Opt (a : re).

Definition member_has (m : member) (c : Z) : bool :=
  match m with MValue x => x =? c | MRange lo hi => (lo <=? c) && (c <=? hi) end.

Definition sym_has (s : sym) (c : Z) : bool :=
  negb (c =? 0) &&
  match s with
  | Chr x => x =? c
  | AnyChar => true
  | Word neg => xorb neg (re_word_char c)
  | Digit neg => xorb neg (re_digit_char c)
  | Space neg => xorb neg (re_space_char c)
  | Class exc ms => xorb exc (existsb (fun m => member_has m c) ms)
  end.

(** Words that are a sequence of words of [P]. *)
Inductive iter (P : list Z -> Prop) : list Z -> Prop :=
  | iter_nil : iter P []
  | iter_app u v : P u -> iter P v -> iter P (u ++ v).

Fixpoint L (r : re) (w : list Z) : Prop :=
  match r with
  | Emp => w = []
  | Sym s => exists c, w = [c] /\ sym_has s c = true
  | AnyStar => True
  | Seq a b => exists u v, w = u ++ v /\ L a u /\ L b v
  | Alt a b => L a w \/ L b w
  | Star a => iter (L a) w
  | Plus a => exists u v, w = u ++ v /\ L a u /\ iter (L a) v
  | Opt a => w = [] \/ L a w
  end.

(** ** Their code *)

Definition member_code (m : member) : Prog :=
  match m with MValue x => [(RE_OP_CC_VALUE, x)] | MRange lo hi => [(RE_OP_CC_RANGE, lo); (RE_OP_CC_RANGE, hi)] end.

Definition members_code (ms : list member) : Prog := concat (member_code <$> ms).

Definition sym_code (s : sym) : Prog :=
  match s with
  | Chr x => [(RE_OP_MATCH, x)]
  | AnyChar => [(RE_OP_ANY, 0)]
  | Word neg => [(if neg then RE_OP_NOTWORD else RE_OP_WORD, 0)]
  | Digit neg => [(if neg then RE_OP_NOTDIGIT else RE_OP_DIGIT, 0)]
  | Space neg => [(if neg then RE_OP_NOTSPACE else RE_OP_SPACE, 0)]
  | Class exc ms => (if exc then RE_OP_CC_EXC else RE_OP_CC_INC, zlen (members_code ms) + 1) :: members_code ms
  end.

Fixpoint code (r : re) : Prog :=
  match r with
  | Emp => []
  | Sym s => sym_code s
  | AnyStar => [(RE_OP_ANYSTAR, 0)]
  | Seq a b => code a ++ code b
  | Alt a b => (RE_OP_FORK, zlen (code a) + 2) :: code a ++ (RE_OP_GOTO, zlen (code b) + 1) :: code b
  | Star a => (RE_OP_GOTO, zlen (code a) + 1) :: code a ++ [(RE_OP_FORK, - zlen (code a))]
  | Plus a => code a ++ [(RE_OP_FORK, - zlen (code a))]
  | Opt a => (RE_OP_FORK, zlen (code a) + 1) :: code a
  end.

(** A character of a text: a scalar value that is not NUL. *)
Definition letter (c : Z) : Prop := Pattern.is_scalar c /\ c <> 0.

(** No character of an expression is the NUL that ends a string. *)
Definition member_ok (m : member) : Prop := match m with MValue x => 0 < x | MRange lo hi => 0 < lo end.

Definition sym_ok (s : sym) : Prop :=
  match s with Chr x => letter x | Class _ ms => Forall member_ok ms | _ => True end.

Fixpoint re_ok (r : re) : Prop :=
  match r with
  | Sym s => sym_ok s
  | Seq a b | Alt a b => re_ok a /\ re_ok b
  | Star a | Plus a | Opt a => re_ok a
  | _ => True
  end.

(** ** Code inside a program *)

Definition code_at (prog : Prog) (pc : Z) (C : Prog) : Prop :=
  0 <= pc /\ forall i e, C !! i = Some e -> get prog (pc + Z.of_nat i) = Some e.

Lemma code_at_head prog pc e C : code_at prog pc (e :: C) -> get prog pc = Some e.
Proof. intros [_ H]. specialize (H 0%nat e eq_refl). by rewrite Z.add_0_r in H. Qed.

Lemma code_at_tail prog pc e C : code_at prog pc (e :: C) -> code_at prog (pc + 1) C.
Proof. intros [Hp H]. split; [lia|]. intros i x Hx. replace (pc + 1 + Z.of_nat i) with (pc + Z.of_nat (S i)) by lia. by apply H. Qed.

Lemma code_at_app prog pc C D : code_at prog pc (C ++ D) -> code_at prog pc C /\ code_at prog (pc + zlen C) D.
Proof.
  intros [Hp H]. split.
  - split; [done|]. intros i x Hx. apply H. by apply lookup_app_l_Some.
  - split; [unfold zlen; lia|]. intros i x Hx. replace (pc + zlen C + Z.of_nat i) with (pc + Z.of_nat (length C + i)) by (unfold zlen; lia). apply H.
    rewrite lookup_app_r by lia. by replace (length C + i - length C)%nat with i by lia.
Qed.

Lemma code_at_self pre C post : code_at (pre ++ C ++ post) (zlen pre) C.
Proof.
  split; [apply zlen_nonneg|]. intros i x Hx. unfold get, zlen. destruct (Z.ltb_spec (Z.of_nat (length pre) + Z.of_nat i) 0); [lia|].
  replace (Z.to_nat _) with (length pre + i)%nat by lia. rewrite lookup_app_r by lia. replace (length pre + i - length pre)%nat with i by lia. by apply lookup_app_l_Some.
Qed.

(** ** One character *)

Lemma class_hit_members prog x n c ms : forall fuel j, 1 <= j -> code_at prog (x + j) (members_code ms) -> n = j + zlen (members_code ms) -> n - j < Z.of_nat fuel ->
  class_hit fuel prog x n j c = Ok (existsb (fun m => member_has m c) ms).
Proof.
  induction ms as [|m ms IH]; intros fuel j Hj Hc Hn Hf.
  - assert (n = j) as -> by (rewrite Hn; unfold zlen; cbn; lia). destruct fuel; cbn [class_hit]; (rewrite Z.ltb_irrefl, andb_false_r; done).
  - destruct fuel as [|fuel]; [unfold zlen in *; lia|]. unfold members_code in Hc, Hn. cbn [fmap list_fmap concat] in Hc, Hn. rewrite zlen_app in Hn. apply code_at_app in Hc as [Hm Hms].
    fold (members_code ms) in *. pose proof (zlen_nonneg (members_code ms)). cbn [class_hit existsb]. destruct (Z.ltb_spec 0 j); [|lia]. cbn [andb].
    destruct m as [v|lo hi]; cbn [member_code member_has zlen length] in *; (destruct (Z.ltb_spec j n); [|unfold zlen in *; cbn in *; lia]).
    + apply code_at_head in Hm. rewrite (get_idx _ _ _ Hm). bind_step. cbn [fst snd]. rewrite bool_decide_true by done. destruct (v =? c); cbn [orb]; [done|].
      apply IH; [lia| |unfold zlen in *; cbn in *; lia|lia]. replace (x + (j + 1)) with (x + j + zlen [(RE_OP_CC_VALUE, v)]) by (unfold zlen; cbn; lia). done.
    + pose proof (code_at_head _ _ _ _ (code_at_tail _ _ _ _ Hm)) as Hh. apply code_at_head in Hm. rewrite (get_idx _ _ _ Hm). bind_step. cbn [fst snd]. rewrite bool_decide_false by done.
      assert (class_hit fuel prog x n (j + 2) c = Ok (existsb (fun m => member_has m c) ms)) as E.
      { apply IH; [lia| |unfold zlen in *; cbn in *; lia|lia]. replace (x + (j + 2)) with (x + j + zlen [(RE_OP_CC_RANGE, lo); (RE_OP_CC_RANGE, hi)]) by (unfold zlen; cbn; lia). done. }
      destruct (lo <=? c); cbn [andb orb]; [|done]. rewrite (get_idx _ _ _ Hh). bind_step. cbn [snd]. destruct (c <=? hi); cbn [orb]; done.
Qed.

Lemma members_no_nul ms : Forall member_ok ms -> existsb (fun m => member_has m 0) ms = false.
Proof.
  induction 1 as [|m ms Hm _ IH]; [done|]. cbn [existsb]. rewrite IH, orb_false_r. destruct m as [x|lo hi]; cbn in *; [destruct (Z.eqb_spec x 0); [lia|done]|destruct (Z.leb_spec lo 0); [lia|done]].
Qed.

Lemma sym_moves prog pc s : sym_ok s -> code_at prog pc (sym_code s) ->
  ~ accepting prog pc /\ (forall c_prev c, eps_succ prog c_prev c pc = []) /\ (forall c, eat_succ prog c pc = if sym_has s c then [pc + zlen (sym_code s)] else []).
Proof.
  intros Hok Hc. assert (exists op arg, get prog pc = Some (op, arg) /\ op <> RE_OP_ACCEPT) as (op & arg & E & Hop).
  { destruct s; cbn in Hc; apply code_at_head in Hc; eexists _, _; (split; [done|]); by try destruct neg; try destruct exc. }
  split; [|split].
  - intros (a & Ha). rewrite E in Ha. congruence.
  - intros cp c. unfold eps_succ. destruct s as [x| |neg|neg|neg|exc ms]; cbn in Hc; apply code_at_head in Hc; rewrite Hc; by try destruct neg; try destruct exc.
  - intros c. unfold eat_succ, sym_has. destruct s as [x| |neg|neg|neg|exc ms].
    1: { cbn in Hc. apply code_at_head in Hc. rewrite Hc. destruct Hok as [[Hx _] Hx0]. destruct (Z.eqb_spec x c), (Z.eqb_spec c 0); cbn [andb negb]; try done; lia. }
    1: { cbn in Hc. apply code_at_head in Hc. rewrite Hc. by destruct (c =? 0). }
    1-3: cbn in Hc; apply code_at_head in Hc; rewrite Hc; destruct neg; destruct (Z.eqb_spec c 0) as [->|]; try done; destruct (re_word_char c), (re_digit_char c), (re_space_char c); done.
    cbn [sym_ok] in Hok. pose proof (members_no_nul ms Hok) as Hnul. cbn [sym_code] in Hc. pose proof (code_at_head _ _ _ _ Hc) as Hh. apply code_at_tail in Hc. rewrite Hh. pose proof (zlen_nonneg (members_code ms)).
    assert (hit prog pc (zlen (members_code ms) + 1) c = existsb (fun m => member_has m c) ms) as Hhit.
    { unfold hit. rewrite (class_hit_members prog pc _ c ms); [done|lia|done|lia|lia]. }
    cbn [sym_code]. rewrite zlen_cons. destruct exc; rewrite Hhit; destruct (Z.eqb_spec c 0) as [->|]; cbn [andb negb xorb]; rewrite ?Hnul; try done; by destruct (existsb _ ms).
Qed.

(** ** Runs through the code of an expression *)

Section runs.
Context (prog : Prog).

Lemma accepts_step c_prev cs x y : y ∈ eps_succ prog c_prev (hd 0 cs) x -> accepts prog c_prev cs y -> accepts prog c_prev cs x.
Proof. intros Hy (n & Hn). exists (S n). by eapply acc_eps. Qed.

Lemma fork_succ c_prev c pc arg : get prog pc = Some (RE_OP_FORK, arg) -> eps_succ prog c_prev c pc = [pc + arg; pc + 1].
Proof. unfold eps_succ. by intros ->. Qed.

Lemma goto_succ c_prev c pc arg : get prog pc = Some (RE_OP_GOTO, arg) -> eps_succ prog c_prev c pc = [pc + arg].
Proof. unfold eps_succ. by intros ->. Qed.

(** Repeating from the fork at [pc + k] that goes back to [pc]. *)
Lemma loop_complete pc k (P : list Z -> Prop) cs :
  (forall w t, P w -> (forall cp, accepts prog cp t (pc + k)) -> forall cp, accepts prog cp (w ++ t) pc) ->
  get prog (pc + k) = Some (RE_OP_FORK, - k) -> (forall cp, accepts prog cp cs (pc + k + 1)) ->
  forall w, iter P w -> forall cp, accepts prog cp (w ++ cs) (pc + k).
Proof.
  intros HP Hf Hcs w H. induction H as [|u v Hu _ IH]; intros cp.
  - eapply accepts_step; [rewrite (fork_succ _ _ _ _ Hf)|apply (Hcs cp)]. by right; left.
  - rewrite <- app_assoc. eapply accepts_step; [rewrite (fork_succ _ _ _ _ Hf); left|]. replace (pc + k + - k) with pc by lia. by apply HP.
Qed.

Lemma runs_complete r : forall pc w cs, re_ok r -> code_at prog pc (code r) -> L r w -> (forall cp, accepts prog cp cs (pc + zlen (code r))) ->
  forall cp, accepts prog cp (w ++ cs) pc.
Proof.
  induction r as [|s| |a IHa b IHb|a IHa b IHb|a IHa|a IHa|a IHa]; intros pc w cs Hok Hc Hw Hcs cp; cbn [L code re_ok] in *.
  - subst w. specialize (Hcs cp). by rewrite zlen_nil, Z.add_0_r in Hcs.
  - destruct Hw as (c & -> & Hs). destruct (sym_moves prog pc s Hok Hc) as (_ & _ & He). destruct (Hcs c) as (n & Hn). exists (S n). eapply acc_eat; [|done]. rewrite He, Hs. by left.
  - pose proof (code_at_head _ _ _ _ Hc) as Hh. clear Hw. revert cp. induction w as [|c w IH]; intros cp; cbn [app].
    + eapply accepts_step; [|apply (Hcs cp)]. unfold eps_succ. rewrite Hh. by left.
    + destruct (IH c) as (n & Hn). exists (S n). eapply acc_eat; [|done]. unfold eat_succ. rewrite Hh. by left.
  - destruct Hw as (u & v & -> & Hu & Hv). destruct Hok as [Ha Hb]. apply code_at_app in Hc as [Hca Hcb]. rewrite <- app_assoc. apply IHa; try done. intros cp'. apply IHb; try done.
    intros cp''. specialize (Hcs cp''). by rewrite zlen_app, Z.add_assoc in Hcs.
  - destruct Hok as [Ha Hb]. pose proof (code_at_head _ _ _ _ Hc) as Hf. apply code_at_tail, code_at_app in Hc as [Hca Hcb]. pose proof (code_at_head _ _ _ _ Hcb) as Hg. apply code_at_tail in Hcb.
    rewrite zlen_cons, zlen_app, zlen_cons in Hcs. destruct Hw as [Hw|Hw].
    + eapply accepts_step; [rewrite (fork_succ _ _ _ _ Hf); by right; left|]. apply IHa; try done. intros cp'. eapply accepts_step; [rewrite (goto_succ _ _ _ _ Hg); by left|].
      replace (pc + 1 + zlen (code a) + (zlen (code b) + 1)) with (pc + (zlen (code a) + (zlen (code b) + 1) + 1)) by lia. apply Hcs.
    + eapply accepts_step; [rewrite (fork_succ _ _ _ _ Hf); by left|]. replace (pc + (zlen (code a) + 2)) with (pc + 1 + zlen (code a) + 1) by lia. apply IHb; try done. intros cp'.
      replace (pc + 1 + zlen (code a) + 1 + zlen (code b)) with (pc + (zlen (code a) + (zlen (code b) + 1) + 1)) by lia. apply Hcs.
  - pose proof (code_at_head _ _ _ _ Hc) as Hg. apply code_at_tail, code_at_app in Hc as [Hca Hf]. apply code_at_head in Hf. rewrite zlen_cons, zlen_snoc in Hcs.
    eapply accepts_step; [rewrite (goto_succ _ _ _ _ Hg); by left|]. replace (pc + (zlen (code a) + 1)) with (pc + 1 + zlen (code a)) by lia.
    apply (loop_complete (pc + 1) (zlen (code a)) (L a)); try done; [intros; by apply IHa|]. intros cp'. replace (pc + 1 + zlen (code a) + 1) with (pc + (zlen (code a) + 1 + 1)) by lia. apply Hcs.
  - destruct Hw as (u & v & -> & Hu & Hv). apply code_at_app in Hc as [Hca Hf]. apply code_at_head in Hf. rewrite zlen_snoc in Hcs. rewrite <- app_assoc. apply IHa; try done.
    apply (loop_complete pc (zlen (code a)) (L a)); try done; [intros; by apply IHa|]. intros cp'. rewrite <- Z.add_assoc. apply Hcs.
  - pose proof (code_at_head _ _ _ _ Hc) as Hf. apply code_at_tail in Hc. rewrite zlen_cons in Hcs. replace (pc + (zlen (code a) + 1)) with (pc + 1 + zlen (code a)) in Hcs by lia. destruct Hw as [->|Hw].
    + eapply accepts_step; [rewrite (fork_succ _ _ _ _ Hf); by left|]. replace (pc + (zlen (code a) + 1)) with (pc + 1 + zlen (code a)) by lia. apply Hcs.
    + eapply accepts_step; [rewrite (fork_succ _ _ _ _ Hf); by right; left|]. by apply IHa.
Qed.

(** A run of [n] steps from [pc] on [t] that leaves through [q] has read a
    word of [P] before. *)
Definition passes (P : list Z -> Prop) (n : nat) (t : list Z) (q : Z) : Prop :=
  exists w cs cp n', t = w ++ cs /\ P w /\ accepted prog n' cp cs q /\ (n' <= n)%nat.

(** The run at a jump. *)
Lemma jump_inv n cp t pc op arg : get prog pc = Some (op, arg) -> op = RE_OP_FORK \/ op = RE_OP_GOTO -> accepted prog n cp t pc ->
  exists m y, n = S m /\ (y = pc + arg \/ op = RE_OP_FORK /\ y = pc + 1) /\ accepted prog m cp t y.
Proof.
  intros E Hop H. assert (forall c, eat_succ prog c pc = []) as He by (intros c; unfold eat_succ; rewrite E; by destruct Hop as [->| ->]).
  inversion H as [? ? ? ? (a & Ha)|m ? ? ? y Hy Hm|? ? ? ? ? ? Hy|? ? ? ? Hy]; subst.
  - rewrite E in Ha. injection Ha as -> ->. by destruct Hop.
  - exists m, y. split; [done|]. split; [|done]. unfold eps_succ in Hy. rewrite E in Hy. destruct Hop as [->| ->].
    + apply elem_of_cons in Hy as [->|Hy]; [by left|]. apply list_elem_of_singleton in Hy as ->. by right.
    + apply list_elem_of_singleton in Hy as ->. by left.
  - rewrite He in Hy. by apply elem_of_nil in Hy.
  - rewrite He in Hy. by apply elem_of_nil in Hy.
Qed.

(** Runs from the fork at [pc + k] that goes back to [pc]. *)
Lemma loop_sound pc k (P : list Z -> Prop) : (forall n cp t, accepted prog n cp t pc -> passes P n t (pc + k)) -> get prog (pc + k) = Some (RE_OP_FORK, - k) ->
  forall n cp t, accepted prog n cp t (pc + k) -> passes (iter P) n t (pc + k + 1).
Proof.
  intros HP Hf n. induction (lt_wf n) as [n _ IH]. intros cp t H. destruct (jump_inv _ _ _ _ _ _ Hf (or_introl eq_refl) H) as (m & y & -> & [->|[_ ->]] & Hm).
  - replace (pc + k + - k) with pc in Hm by lia. destruct (HP _ _ _ Hm) as (u & t' & cp' & n' & -> & Hu & Hn' & Hle). destruct (IH n' ltac:(lia) _ _ Hn') as (v & cs & cp'' & n'' & -> & Hv & Hcs & Hle').
    exists (u ++ v), cs, cp'', n''. split; [by rewrite app_assoc|]. split; [by apply iter_app|]. split; [done|lia].
  - exists [], t, cp, m. split; [done|]. split; [apply iter_nil|]. split; [done|lia].
Qed.

Lemma runs_sound r : forall pc n cp t, re_ok r -> code_at prog pc (code r) -> accepted prog n cp t pc -> passes (L r) n t (pc + zlen (code r)).
Proof.
  induction r as [|s| |a IHa b IHb|a IHa b IHb|a IHa|a IHa|a IHa]; intros pc n cp t Hok Hc H; cbn [L code re_ok] in *.
  - exists [], t, cp, n. rewrite zlen_nil, Z.add_0_r. done.
  - destruct (sym_moves prog pc s Hok Hc) as (Ha & Hp & He). inversion H as [|m ? ? ? y Hy Hm|m ? c cs ? y Hy Hm|? ? ? y Hy]; subst; [done|by rewrite Hp in Hy; apply elem_of_nil in Hy| |].
    + rewrite He in Hy. destruct (sym_has s c) eqn:Es; [|by apply elem_of_nil in Hy]. apply list_elem_of_singleton in Hy as ->. exists [c], cs, c, m. split; [done|]. split; [by exists c|]. split; [done|lia].
    + rewrite He in Hy. by apply elem_of_nil in Hy.
  - pose proof (code_at_head _ _ _ _ Hc) as Hh. revert cp t H. induction n as [n IH] using lt_wf_ind. intros cp t H.
    inversion H as [? ? ? ? (a & Ha)|m ? ? ? y Hy Hm|m ? c cs ? y Hy Hm|? ? ? y Hy Hg]; subst; unfold eps_succ, eat_succ in *; rewrite Hh in *; [done|..]; apply list_elem_of_singleton in Hy as ->.
    + exists [], t, cp, m. split; [done|]. split; [done|]. split; [done|lia].
    + destruct (IH m ltac:(lia) _ _ Hm) as (w & cs' & cp' & n' & -> & _ & Hn' & Hle). exists (c :: w), cs', cp', n'. split; [done|]. split; [done|]. split; [done|lia].
    + by apply (goto_acc_inv prog pc _ _ Hh) in Hg as [|[]].
  - destruct Hok as [Ha Hb]. apply code_at_app in Hc as [Hca Hcb]. destruct (IHa _ _ _ _ Ha Hca H) as (u & t' & cp' & n' & -> & Hu & Hn' & Hle). destruct (IHb _ _ _ _ Hb Hcb Hn') as (v & cs & cp'' & n'' & -> & Hv & Hn'' & Hle').
    exists (u ++ v), cs, cp'', n''. split; [by rewrite app_assoc|]. split; [by exists u, v|]. rewrite zlen_app, Z.add_assoc. split; [done|lia].
  - destruct Hok as [Ha Hb]. pose proof (code_at_head _ _ _ _ Hc) as Hf. apply code_at_tail, code_at_app in Hc as [Hca Hcb]. pose proof (code_at_head _ _ _ _ Hcb) as Hg. apply code_at_tail in Hcb.
    rewrite zlen_cons, zlen_app, zlen_cons. destruct (jump_inv _ _ _ _ _ _ Hf (or_introl eq_refl) H) as (m & y & -> & [->|[_ ->]] & Hm).
    + replace (pc + (zlen (code a) + 2)) with (pc + 1 + zlen (code a) + 1) in Hm by lia. destruct (IHb _ _ _ _ Hb Hcb Hm) as (w & cs & cp' & n' & -> & Hw & Hn' & Hle).
      exists w, cs, cp', n'. split; [done|]. split; [by right|]. split; [|lia]. by replace (pc + (zlen (code a) + (zlen (code b) + 1) + 1)) with (pc + 1 + zlen (code a) + 1 + zlen (code b)) by lia.
    + destruct (IHa _ _ _ _ Ha Hca Hm) as (w & cs & cp' & n' & -> & Hw & Hn' & Hle). destruct (jump_inv _ _ _ _ _ _ Hg (or_intror eq_refl) Hn') as (m' & y & -> & [->|[? _]] & Hm'); [|done].
      exists w, cs, cp', m'. split; [done|]. split; [by left|]. split; [|lia]. by replace (pc + (zlen (code a) + (zlen (code b) + 1) + 1)) with (pc + 1 + zlen (code a) + (zlen (code b) + 1)) by lia.
  - pose proof (code_at_head _ _ _ _ Hc) as Hg. apply code_at_tail, code_at_app in Hc as [Hca Hf]. apply code_at_head in Hf. rewrite zlen_cons, zlen_snoc.
    destruct (jump_inv _ _ _ _ _ _ Hg (or_intror eq_refl) H) as (m & y & -> & [->|[? _]] & Hm); [|done]. replace (pc + (zlen (code a) + 1)) with (pc + 1 + zlen (code a)) in Hm by lia.
    destruct (loop_sound (pc + 1) (zlen (code a)) (L a) ltac:(intros; by eapply IHa) Hf _ _ _ Hm) as (w & cs & cp' & n' & -> & Hw & Hn' & Hle). exists w, cs, cp', n'. split; [done|]. split; [done|]. split; [|lia].
    by replace (pc + (zlen (code a) + 1 + 1)) with (pc + 1 + zlen (code a) + 1) by lia.
  - apply code_at_app in Hc as [Hca Hf]. apply code_at_head in Hf. rewrite zlen_snoc. destruct (IHa _ _ _ _ Hok Hca H) as (u & t' & cp' & n' & -> & Hu & Hn' & Hle).
    destruct (loop_sound pc (zlen (code a)) (L a) ltac:(intros; by eapply IHa) Hf _ _ _ Hn') as (v & cs & cp'' & n'' & -> & Hv & Hn'' & Hle'). exists (u ++ v), cs, cp'', n''.
    split; [by rewrite app_assoc|]. split; [by exists u, v|]. split; [by rewrite Z.add_assoc|lia].
  - pose proof (code_at_head _ _ _ _ Hc) as Hf. apply code_at_tail in Hc. rewrite zlen_cons. replace (pc + (zlen (code a) + 1)) with (pc + 1 + zlen (code a)) by lia.
    destruct (jump_inv _ _ _ _ _ _ Hf (or_introl eq_refl) H) as (m & y & -> & [->|[_ ->]] & Hm).
    + exists [], t, cp, m. split; [done|]. split; [by left|]. split; [|lia]. by replace (pc + 1 + zlen (code a)) with (pc + (zlen (code a) + 1)) by lia.
    + destruct (IHa _ _ _ _ Hok Hc Hm) as (w & cs & cp' & n' & -> & Hw & Hn' & Hle). exists w, cs, cp', n'. split; [done|]. split; [by right|]. split; [done|lia].
Qed.

End runs.

(** ** The code is well formed *)

Lemma op_ok_shift N M x j e : op_ok N x e -> 0 <= j -> N + j <= M -> op_ok M (x + j) e.
Proof. unfold op_ok. destruct e as [[] arg]; cbn; lia. Qed.

(** The jumps of a block stay inside it or go to its end. *)
Definition block (C : Prog) : Prop := forall x e, get C x = Some e -> op_ok (zlen C + 1) x e.

Lemma get_app {A} (C D : list A) x e : get (C ++ D) x = Some e -> get C x = Some e \/ get D (x - zlen C) = Some e.
Proof.
  unfold get, zlen. destruct (Z.ltb_spec x 0); [done|]. intros [Hl|[Hl Hx]]%lookup_app_Some; [by left|right].
  destruct (Z.ltb_spec (x - Z.of_nat (length C)) 0); [lia|]. by replace (Z.to_nat (x - Z.of_nat (length C))) with (Z.to_nat x - length C)%nat by lia.
Qed.

Lemma get_cons {A} (c : A) D x e : get (c :: D) x = Some e -> x = 0 /\ e = c \/ get D (x - 1) = Some e.
Proof.
  intros H. destruct (get_app [c] D x e H) as [H1|H1]; [left|by right]. unfold get in H1. destruct (Z.ltb_spec x 0); [done|]. apply list_lookup_singleton_Some in H1 as [H1 ->]. split; [lia|done].
Qed.

Lemma get_inside N C M x e j : block C -> get C (x - j) = Some e -> 0 <= j -> zlen C + 1 + j <= M -> N = M -> op_ok N x e.
Proof. intros Hb Hx Hj HM ->. replace x with (x - j + j) by lia. apply (op_ok_shift (zlen C + 1)); [by apply Hb|done|done]. Qed.

Lemma block_app C D : block C -> block D -> block (C ++ D).
Proof.
  intros HC HD x e. pose proof (zlen_nonneg C). pose proof (zlen_nonneg D). rewrite zlen_app. intros [Hx|Hx]%get_app.
  - apply (get_inside _ C (zlen C + zlen D + 1) _ _ 0); try done; [by rewrite Z.sub_0_r|lia].
  - apply (get_inside _ D (zlen C + zlen D + 1) _ _ (zlen C)); try done. lia.
Qed.

Lemma block_members C : Forall (fun e : Op * Z => e.1 = RE_OP_CC_VALUE \/ e.1 = RE_OP_CC_RANGE) C -> block C.
Proof.
  intros H x e Hx. unfold get in Hx. destruct (x <? 0); [done|]. rewrite Forall_forall in H. apply list_elem_of_lookup_2, H in Hx. unfold op_ok. by destruct Hx as [-> | ->].
Qed.

Lemma members_only ms : Forall (fun e : Op * Z => e.1 = RE_OP_CC_VALUE \/ e.1 = RE_OP_CC_RANGE) (members_code ms).
Proof. induction ms as [|m ms IH]; [constructor|]. unfold members_code. cbn [fmap list_fmap concat]. apply Forall_app. split; [|done]. destruct m; cbn [member_code]; rewrite ?Forall_cons, Forall_nil; cbn; auto. Qed.

Lemma block_cons e C : op_ok (zlen C + 2) 0 e -> block C -> block (e :: C).
Proof.
  intros He HC x y. rewrite zlen_cons. pose proof (zlen_nonneg C). intros [[-> ->]|Hx]%get_cons; [by replace (zlen C + 1 + 1) with (zlen C + 2) by lia|].
  apply (get_inside _ C (zlen C + 1 + 1) _ _ 1); done || lia.
Qed.

(** A jump back from the end. *)
Lemma block_loop C : block C -> block (C ++ [(RE_OP_FORK, - zlen C)]).
Proof.
  intros HC x y. rewrite zlen_snoc. pose proof (zlen_nonneg C). intros [Hx|Hx]%get_app.
  - apply (get_inside _ C (zlen C + 1 + 1) _ _ 0); try done; [by rewrite Z.sub_0_r|lia].
  - apply get_cons in Hx as [[Hx ->]|Hx]; [|unfold get in Hx; by destruct (_ <? 0)]. unfold op_ok. cbn. lia.
Qed.

Lemma code_block r : block (code r).
Proof.
  induction r as [|s| |a IHa b IHb|a IHa b IHb|a IHa|a IHa|a IHa]; cbn [code].
  - intros x e Hx. unfold get in Hx. by destruct (x <? 0).
  - assert (block []) as Hnil by (intros x e Hx; unfold get in Hx; by destruct (x <? 0)). destruct s as [x| |neg|neg|neg|exc ms]; cbn [sym_code].
    1-5: apply block_cons; [|done]; unfold op_ok; cbn; by try destruct neg.
    pose proof (zlen_nonneg (members_code ms)). apply block_cons; [destruct exc; unfold op_ok; cbn; lia|]. by apply block_members, members_only.
  - apply block_cons; [unfold op_ok, zlen; cbn; lia|]. intros x e Hx. unfold get in Hx. by destruct (x <? 0).
  - by apply block_app.
  - pose proof (zlen_nonneg (code a)). pose proof (zlen_nonneg (code b)). apply block_cons; [unfold op_ok; cbn; rewrite zlen_app, zlen_cons; lia|]. apply block_app; [done|]. apply block_cons; [unfold op_ok; cbn; lia|done].
  - pose proof (zlen_nonneg (code a)). apply block_cons; [unfold op_ok; cbn; rewrite zlen_snoc; lia|]. by apply block_loop.
  - by apply block_loop.
  - pose proof (zlen_nonneg (code a)). apply block_cons; [unfold op_ok; cbn; lia|done].
Qed.

Lemma block_wf C : block C -> zlen C < 2 ^ 16 -> wf (C ++ [(RE_OP_ACCEPT, 0)]).
Proof.
  intros HC Hl. pose proof (zlen_nonneg C). split; [rewrite zlen_snoc; lia|]. intros x e. rewrite zlen_snoc. intros [Hx|Hx]%get_app; [by apply HC|].
  apply get_cons in Hx as [[_ ->]|Hx]; [done|]. unfold get in Hx. by destruct (_ <? 0).
Qed.

End RegexLang.
