(* ===== verification/RegexMatch.v ===== *)
(** Matching a text: [Regex.matches] on UTF-8 text finds a word of the
    expression in it, and the search for the literal prefix changes nothing. *)

From S2P Require Import Prelude Pattern Regex RegexNfa RegexLang.
Import Regex RegexNfa RegexLang.
Local Open Scope Z_scope.

Module RegexMatch.

Abbreviation utf8 := Pattern.utf8.

(** ** Reading a text *)

Lemma idx_within (pre l suf : bytes) k x : l !! k = Some x -> idx (pre ++ l ++ suf) (zlen pre + Z.of_nat k) = Ok x.
Proof.
  intros H. apply get_idx. unfold get, zlen. destruct (Z.ltb_spec (Z.of_nat (length pre) + Z.of_nat k) 0); [lia|].
  replace (Z.to_nat _) with (length pre + k)%nat by lia. rewrite lookup_app_r by lia. replace (length pre + k - length pre)%nat with k by lia. by apply lookup_app_l_Some.
Qed.

Lemma idx_first (pre l suf : bytes) x : idx (pre ++ (x :: l) ++ suf) (zlen pre) = Ok x.
Proof. rewrite <- (idx_within pre (x :: l) suf 0 x eq_refl). f_equal. lia. Qed.

Lemma cont_at_ok z i : 0 <= i -> exists b, cont_at z i = Ok b.
Proof. intros Hi. unfold cont_at. destruct (Z.ltb_spec i (zlen z)); [|by exists false]. destruct (idx_in_range z i ltac:(lia)) as (b & ->). eexists. done. Qed.

Lemma cont_at_mid pre l suf k x : l !! k = Some (0x80 + x) -> 0 <= x < 64 -> cont_at (pre ++ l ++ suf) (zlen pre + Z.of_nat k) = Ok true /\ low6 (pre ++ l ++ suf) (zlen pre + Z.of_nat k) = Ok x.
Proof.
  intros H Hx. destruct (Pattern.cont_bits x Hx) as [E1 E2]. unfold cont_at, low6. rewrite (idx_within _ _ _ _ _ H). pose proof (lookup_lt_Some _ _ _ H).
  destruct (Z.ltb_spec (zlen pre + Z.of_nat k) (zlen (pre ++ l ++ suf))); [|rewrite !zlen_app in *; pose proof (zlen_nonneg suf); unfold zlen in *; lia]. rewrite !bind_Ok, E1, E2. done.
Qed.

Ltac bits_check N := refine (bool_decide_eq_true_1 _ _); match goal with x : Z, H : 0 <= ?x < _ |- _ => revert x H end;
  match goal with |- forall x, _ -> bool_decide (@?P x) = true => apply (seq_forall (fun x => bool_decide (P x)) N); vm_compute; done end.

Lemma lead2 x : 0 <= x < 32 -> Z.land (0xc0 + x) 0xe0 = 0xc0 /\ Z.land (0xc0 + x) 0x1f = x.
Proof. intros H. bits_check 32%nat. Qed.

Lemma lead3 x : 0 <= x < 16 -> Z.land (0xe0 + x) 0xe0 <> 0xc0 /\ Z.land (0xe0 + x) 0xf0 = 0xe0 /\ Z.land (0xe0 + x) 0x0f = x.
Proof. intros H. bits_check 16%nat. Qed.

Lemma lead4 x : 0 <= x < 8 -> Z.land (0xf0 + x) 0xe0 <> 0xc0 /\ Z.land (0xf0 + x) 0xf0 <> 0xe0 /\ Z.land (0xf0 + x) 0xf8 = 0xf0 /\ Z.land (0xf0 + x) 0x07 = x.
Proof. intros H. bits_check 8%nat. Qed.

Lemma lor6 a b : 0 <= a -> 0 <= b < 64 -> Z.lor (Z.shiftl a 6) b = a * 64 + b.
Proof. intros Ha Hb. by rewrite lor_shiftl_add by lia. Qed.

(** The sixty-fourths of a number. *)
Lemma by64 c : 0 <= c -> c = c / 64 * 64 + c mod 64 /\ 0 <= c mod 64 < 64 /\ 0 <= c / 64.
Proof. intros H. pose proof (Z.div_mod c 64). pose proof (Z.mod_pos_bound c 64). pose proof (Z.div_pos c 64). lia. Qed.

Lemma next_encoded pre c suf : Pattern.is_scalar c ->
  re_next_char (pre ++ Pattern.encode_utf8 c ++ suf) (zlen pre) = Ok (c, zlen pre + zlen (Pattern.encode_utf8 c)).
Proof.
  intros [Hr Hs]. pose proof (zlen_nonneg pre). pose proof (zlen_nonneg suf).
  destruct (by64 c ltac:(lia)) as (D1 & M1 & P1), (by64 (c / 64) ltac:(lia)) as (D2 & M2 & P2), (by64 (c / 4096) ltac:(apply Z.div_pos; lia)) as (D3 & M3 & P3).
  rewrite Z.div_div in D2, P2 by lia. rewrite Z.div_div in D3, P3 by lia. change (64 * 64) with 4096 in *. change (4096 * 64) with 262144 in *.
  unfold re_next_char, Pattern.encode_utf8. set (z := pre ++ _ ++ suf).
  assert (exists b bs, Pattern.encode_utf8 c = b :: bs) as (b & bs & Eb) by (unfold Pattern.encode_utf8; repeat case_match; by eexists _, _).
  assert (zlen pre < zlen z) as Hz. { unfold z. fold (Pattern.encode_utf8 c). rewrite Eb, !zlen_app, zlen_cons. pose proof (zlen_nonneg bs). lia. }
  destruct (Z.leb_spec (zlen z) (zlen pre)); [lia|]. destruct (cont_at_ok z (zlen pre + 1) ltac:(lia)) as (k0 & K0), (cont_at_ok z (zlen pre + 1 + 1) ltac:(lia)) as (k1 & K1), (cont_at_ok z (zlen pre + 1 + 2) ltac:(lia)) as (k2 & K2).
  destruct (Z.ltb_spec c 0x80); [|destruct (Z.ltb_spec c 0x800); [|destruct (Z.ltb_spec c 0x10000)]].
  - unfold z. rewrite idx_first. bind_step. destruct (Z.ltb_spec c 128); [done|lia].
  - set (l := [0xc0 + c / 64; 0x80 + c mod 64]) in z. unfold z at 1, l at 1. rewrite idx_first. bind_step. destruct (Z.ltb_spec (0xc0 + c / 64) 0x80); [lia|].
    destruct (cont_at_mid pre l suf 1 _ eq_refl M1) as [C1 L1]. fold z in C1, L1. change (Z.of_nat 1) with 1 in *. destruct (lead2 (c / 64) ltac:(lia)) as [E1 E2].
    rewrite C1, K1, K2, E1. repeat bind_step. rewrite Z.eqb_refl. cbn [andb]. rewrite L1. bind_step. rewrite E2, lor6, <- D1 by lia. destruct (Z.ltb_spec c 128); [lia|]. f_equal. f_equal. unfold zlen. cbn. lia.
  - set (l := [0xe0 + c / 4096; 0x80 + c / 64 mod 64; 0x80 + c mod 64]) in z. unfold z at 1, l at 1. rewrite idx_first. bind_step. destruct (Z.ltb_spec (0xe0 + c / 4096) 0x80); [lia|].
    destruct (cont_at_mid pre l suf 1 _ eq_refl M2) as [C1 L1], (cont_at_mid pre l suf 2 _ eq_refl M1) as [C2 L2]. fold z in C1, L1, C2, L2. replace (zlen pre + Z.of_nat 2) with (zlen pre + 1 + 1) in * by lia. change (Z.of_nat 1) with 1 in *.
    destruct (lead3 (c / 4096) ltac:(lia)) as (E1 & E2 & E3). rewrite C1, C2, K2. repeat bind_step. rewrite (proj2 (Z.eqb_neq _ _) E1), E2, Z.eqb_refl. cbn [andb]. rewrite L1, L2. repeat bind_step. rewrite E3.
    replace (Z.shiftl (c / 4096) 12) with (Z.shiftl (Z.shiftl (c / 4096) 6) 6) by (by rewrite Z.shiftl_shiftl by lia). rewrite <- Z.shiftl_lor, (lor6 (c / 4096)), <- D2, lor6, <- D1 by lia.
    destruct (Z.leb_spec c 0x7ff); [lia|]. cbn [orb]. destruct (Z.leb_spec 0xd800 c), (Z.leb_spec c 0xdfff); cbn [andb]; try lia; (f_equal; f_equal; unfold zlen; cbn; lia).
  - set (l := [0xf0 + c / 262144; 0x80 + c / 4096 mod 64; 0x80 + c / 64 mod 64; 0x80 + c mod 64]) in z. unfold z at 1, l at 1. rewrite idx_first. bind_step. destruct (Z.ltb_spec (0xf0 + c / 262144) 0x80); [lia|].
    destruct (cont_at_mid pre l suf 1 _ eq_refl M3) as [C1 L1], (cont_at_mid pre l suf 2 _ eq_refl M2) as [C2 L2], (cont_at_mid pre l suf 3 _ eq_refl M1) as [C3 L3]. fold z in C1, L1, C2, L2, C3, L3.
    replace (zlen pre + Z.of_nat 2) with (zlen pre + 1 + 1) in * by lia. replace (zlen pre + Z.of_nat 3) with (zlen pre + 1 + 2) in * by lia. change (Z.of_nat 1) with 1 in *.
    destruct (lead4 (c / 262144) ltac:(lia)) as (E1 & E2 & E3 & E4). rewrite C1, C2, C3. repeat bind_step. rewrite (proj2 (Z.eqb_neq _ _) E1), (proj2 (Z.eqb_neq _ _) E2), E3, Z.eqb_refl. cbn [andb]. rewrite L1, L2, L3. repeat bind_step. rewrite E4.
    replace (Z.shiftl (c / 262144) 18) with (Z.shiftl (Z.shiftl (Z.shiftl (c / 262144) 6) 6) 6) by (by rewrite !Z.shiftl_shiftl by lia).
    replace (Z.shiftl (c / 4096 mod 64) 12) with (Z.shiftl (Z.shiftl (c / 4096 mod 64) 6) 6) by (by rewrite Z.shiftl_shiftl by lia).
    rewrite <- !Z.shiftl_lor, (lor6 (c / 262144)), <- D3, (lor6 (c / 4096)), <- D2, lor6, <- D1 by lia. destruct (Z.leb_spec c 0xffff); [lia|]. destruct (Z.ltb_spec 0x10ffff c); [lia|]. cbn [orb]. f_equal. f_equal. unfold zlen. cbn. lia.
Qed.

Lemma utf8_cons c cs : utf8 (c :: cs) = Pattern.encode_utf8 c ++ utf8 cs.
Proof. done. Qed.

Lemma utf8_app cs ds : utf8 (cs ++ ds) = utf8 cs ++ utf8 ds.
Proof. unfold Pattern.utf8. by rewrite fmap_app, concat_app. Qed.

(** The first byte of a character is not a continuation, the others are. *)
Lemma encode_shape c : Pattern.is_scalar c -> exists b bs, Pattern.encode_utf8 c = b :: bs /\ (b < 0x80 \/ 0xc0 <= b) /\ Forall (fun x => 0x80 <= x < 0xc0) bs.
Proof.
  intros [Hr _]. unfold Pattern.encode_utf8. destruct (by64 c ltac:(lia)) as (D1 & M1 & P1), (by64 (c / 64) ltac:(lia)) as (D2 & M2 & P2), (by64 (c / 4096) ltac:(apply Z.div_pos; lia)) as (D3 & M3 & P3).
  rewrite Z.div_div in D2, P2 by lia. rewrite Z.div_div in D3, P3 by lia. change (64 * 64) with 4096 in *. change (4096 * 64) with 262144 in *.
  repeat case_match; eexists _, _; (split; [done|]); (split; [try (apply Z.ltb_lt in H); lia|]); repeat (apply Forall_cons; split; [lia|]); apply Forall_nil_2.
Qed.

Lemma encode_nonzero c : letter c -> Forall (fun b => b <> 0) (Pattern.encode_utf8 c).
Proof.
  intros [Hs Hc]. destruct (encode_shape c Hs) as (b & bs & E & Hb & Hbs). rewrite E. apply Forall_cons. split; [|eapply Forall_impl; [done|]; cbn; lia].
  intros ->. unfold Pattern.encode_utf8 in E. destruct Hs as [Hr _]. pose proof (Z.div_pos c 64). pose proof (Z.div_pos c 4096). pose proof (Z.div_pos c 262144). repeat case_match; injection E as E; lia.
Qed.

Lemma utf8_nonzero cs : Forall letter cs -> Forall (fun b => b <> 0) (utf8 cs).
Proof. induction 1 as [|c cs Hc _ IH]; [constructor|]. rewrite utf8_cons. apply Forall_app. split; [by apply encode_nonzero|done]. Qed.

Lemma c_string_id z : Forall (fun b => b <> 0) z -> c_string z = z.
Proof. induction 1 as [|b z Hb _ IH]; [done|]. cbn [c_string]. rewrite (proj2 (Z.eqb_neq b 0)) by done. by rewrite IH. Qed.

Lemma utf8_spells a cs : Forall letter cs -> spells false (a ++ utf8 cs) (zlen a) cs.
Proof.
  intros H. revert a. induction H as [|c cs [Hs Hc] _ IH]; intros a.
  - apply spells_end. rewrite zlen_app. unfold Pattern.utf8. cbn. unfold zlen. cbn. lia.
  - rewrite utf8_cons. change (c :: cs) with (fold_case false c :: cs). destruct (encode_shape c Hs) as (b & bs & E & _). apply (spells_char _ _ _ _ (zlen a + zlen (Pattern.encode_utf8 c))); [|by apply next_encoded|done|].
    + rewrite E, !zlen_app, zlen_cons. pose proof (zlen_nonneg bs). pose proof (zlen_nonneg (utf8 cs)). lia.
    + rewrite <- zlen_app, app_assoc. apply IH.
Qed.

(** ** The literal prefix *)

Lemma utf8_prefix ps : forall cs more, Forall letter ps -> Forall letter cs -> utf8 cs = utf8 ps ++ more -> exists w, cs = ps ++ w.
Proof.
  induction ps as [|p ps IH]; intros cs more Hp Hc E; [by exists cs|]. apply Forall_cons in Hp as [[Sp _] Hp]. rewrite utf8_cons, <- app_assoc in E. destruct cs as [|c cs].
  - destruct (encode_shape p Sp) as (b & bs & Eb & _). rewrite Eb in E. done.
  - apply Forall_cons in Hc as [[Sc _] Hc]. rewrite utf8_cons in E. pose proof (next_encoded [] c (utf8 cs) Sc) as N1. cbn [app] in N1. rewrite E in N1. rewrite (next_encoded [] p (utf8 ps ++ more) Sp : re_next_char (Pattern.encode_utf8 p ++ _) _ = _) in N1.
    injection N1 as -> _. apply app_inv_head in E. destruct (IH cs more Hp Hc E) as (w & ->). by exists w.
Qed.

(** A byte that is not a continuation starts a character. *)
Lemma boundary cs : forall i b, Forall letter cs -> utf8 cs !! i = Some b -> b < 0x80 \/ 0xc0 <= b -> exists u v, cs = u ++ v /\ i = length (utf8 u).
Proof.
  induction cs as [|c cs IH]; intros i b Hc Hi Hb; [by destruct i|]. apply Forall_cons in Hc as [[Sc _] Hc]. rewrite utf8_cons in Hi. destruct (encode_shape c Sc) as (b0 & bs & E & _ & Hbs).
  apply lookup_app_Some in Hi as [Hi|[Hl Hi]].
  - rewrite E in Hi. destruct i as [|i]; [by exists [], (c :: cs)|]. cbn in Hi. rewrite Forall_lookup in Hbs. specialize (Hbs i b Hi). lia.
  - destruct (IH _ _ Hc Hi Hb) as (u & v & -> & Hu). exists (c :: u), v. split; [done|]. rewrite utf8_cons, length_app. lia.
Qed.

Lemma find_prefix_spec z p fuel : forall i, 0 <= i -> zlen z - i < Z.of_nat fuel -> p <> [] ->
  exists o, find_prefix fuel z p i = Ok o /\
    match o with
    | None => forall j, i <= j -> j + zlen p <= zlen z -> sub z j (j + zlen p) <> p
    | Some k => i <= k /\ k + zlen p <= zlen z /\ sub z k (k + zlen p) = p /\ forall j, i <= j < k -> sub z j (j + zlen p) <> p
    end.
Proof.
  intros i Hi Hf Hp. revert i Hi Hf. pose proof (zlen_nonneg p) as Hz. induction fuel as [|fuel IH]; intros i Hi Hf; cbn [find_prefix].
  - destruct (Z.ltb_spec (zlen z) (i + zlen p)); [|lia]. exists None. split; [done|]. intros j Hj Hj'. lia.
  - destruct (Z.ltb_spec (zlen z) (i + zlen p)); [exists None; split; [done|]; intros j Hj Hj'; lia|]. rewrite slice_Ok by lia. bind_step. case_bool_decide as Hs.
    + exists (Some i). split; [done|]. split_and!; [lia|lia|done|]. intros j Hj. lia.
    + destruct (IH (i + 1) ltac:(lia) ltac:(lia)) as (o & -> & Ho). exists o. split; [done|]. destruct o as [k|].
      * destruct Ho as (H1 & H2 & H3 & H4). split_and!; [lia|done|done|]. intros j Hj. destruct (decide (j = i)) as [->|]; [done|]. apply H4. lia.
      * intros j Hj Hj'. destruct (decide (j = i)) as [->|]; [done|]. apply Ho; lia.
Qed.

Lemma sub_mid (a p b : bytes) : sub (a ++ p ++ b) (zlen a) (zlen a + zlen p) = p.
Proof. apply sub_app_exact; done. Qed.

(** Where the prefix [ps] occurs first in [cs]. *)
Lemma find_prefix_text cs ps : Forall letter cs -> Forall letter ps -> ps <> [] ->
  exists o, find_prefix (S (length (utf8 cs))) (utf8 cs) (utf8 ps) 0 = Ok o /\
    match o with
    | None => forall u w, cs <> u ++ ps ++ w
    | Some k => exists a b, cs = a ++ b /\ k = zlen (utf8 a) /\ forall u w, cs = u ++ ps ++ w -> exists u', u = a ++ u'
    end.
Proof.
  intros Hc Hp Hne. assert (exists b0 bs, utf8 ps = b0 :: bs /\ (b0 < 0x80 \/ 0xc0 <= b0)) as (b0 & bs & E0 & Hb0).
  { destruct ps as [|p ps]; [done|]. apply Forall_cons in Hp as [[Sp _] _]. destruct (encode_shape p Sp) as (b & bs & E & Hb & _). exists b, (bs ++ utf8 ps). by rewrite utf8_cons, E. }
  destruct (find_prefix_spec (utf8 cs) (utf8 ps) (S (length (utf8 cs))) 0) as (o & -> & Ho); [lia|unfold zlen; lia|by rewrite E0|]. exists o. split; [done|].
  assert (forall u w, cs = u ++ ps ++ w -> 0 <= zlen (utf8 u) /\ zlen (utf8 u) + zlen (utf8 ps) <= zlen (utf8 cs) /\ sub (utf8 cs) (zlen (utf8 u)) (zlen (utf8 u) + zlen (utf8 ps)) = utf8 ps) as Hocc.
  { intros u w ->. rewrite !utf8_app, !zlen_app. pose proof (zlen_nonneg (utf8 u)). pose proof (zlen_nonneg (utf8 w)). split; [done|]. split; [lia|apply sub_mid]. }
  destruct o as [k|].
  - destruct Ho as (H1 & H2 & H3 & H4). assert (utf8 cs !! Z.to_nat k = Some b0) as Hk.
    { rewrite E0 in H3. unfold sub in H3. assert ((drop (Z.to_nat k) (utf8 cs)) !! 0%nat = Some b0) as H; [|by rewrite lookup_drop, Nat.add_0_r in H].
      destruct (drop (Z.to_nat k) (utf8 cs)) as [|x l]; [by rewrite take_nil in H3|]. destruct (Z.to_nat (_ - k)); cbn in H3; [done|]. by injection H3 as ->. }
    destruct (boundary cs _ _ Hc Hk Hb0) as (a & b & -> & Ek). assert (k = zlen (utf8 a)) as -> by (unfold zlen; lia). exists a, b. split; [done|]. split; [done|]. intros u w E.
    destruct (Hocc u w E) as (O1 & O2 & O3). destruct (app_eq_app _ _ _ _ E) as (l & [[Ea _]|[Eu _]]).
    + destruct l as [|x l]; [exists []; by rewrite Ea, !app_nil_r|]. exfalso. apply (H4 (zlen (utf8 u))); [|done]. split; [done|]. rewrite Ea, utf8_app, zlen_app, utf8_cons, zlen_app.
      assert (letter x) as [Sx _] by (rewrite Ea in Hc; rewrite !Forall_app, Forall_cons in Hc; tauto). destruct (encode_shape x Sx) as (c & cs' & -> & _). rewrite zlen_cons. pose proof (zlen_nonneg cs'). pose proof (zlen_nonneg (utf8 l)). lia.
    + by exists l.
  - intros u w E. destruct (Hocc u w E) as (O1 & O2 & O3). by apply (Ho (zlen (utf8 u))).
Qed.

(** The bytes the compiler writes for a character are its encoding. *)
Lemma prefix_bytes_encode x : letter x -> prefix_bytes (wrap 32 x) = if x <? 0x10000 then Some (Pattern.encode_utf8 x) else None.
Proof.
  intros [[Hr _] _]. rewrite wrap_small by (unfold is_uint; lia). unfold prefix_bytes, Pattern.encode_utf8. rewrite !Z.shiftr_div_pow2 by lia. change 0x3f with (2 ^ 6 - 1). rewrite !land_ones_mod by lia. change (2 ^ 6) with 64. change (2 ^ 12) with 4096.
  destruct (by64 x ltac:(lia)) as (D1 & M1 & P1), (by64 (x / 64) ltac:(lia)) as (D2 & M2 & P2). rewrite Z.div_div in D2, P2 by lia. change (64 * 64) with 4096 in *.
  assert (forall y, 0 <= y < 32 -> Z.lor 0xc0 y = 0xc0 + y) as L2 by (intros y Hy; bits_check 32%nat). assert (forall y, 0 <= y < 16 -> Z.lor 0xe0 y = 0xe0 + y) as L3 by (intros y Hy; bits_check 16%nat).
  assert (forall y, 0 <= y < 64 -> Z.lor 0x80 y = 0x80 + y) as L1 by (intros y Hy; bits_check 64%nat).
  destruct (Z.leb_spec x 0x7f), (Z.ltb_spec x 0x80); try lia; [destruct (Z.ltb_spec x 0x10000); [|lia]; by rewrite wrap_small by (unfold is_uint; lia)|].
  destruct (Z.leb_spec x 0x7ff), (Z.ltb_spec x 0x800); try lia; [destruct (Z.ltb_spec x 0x10000); [|lia]; rewrite L2, L1 by lia; by rewrite !wrap_small by (unfold is_uint; lia)|].
  destruct (Z.leb_spec x 0xffff), (Z.ltb_spec x 0x10000); try lia; [|done]. rewrite L3, !L1 by lia. by rewrite !wrap_small by (unfold is_uint; lia).
Qed.

Definition lit (x : Z) : Op * Z := (RE_OP_MATCH, x).

(** The literals collected from code that is followed by a match of the end
    or by nothing. *)
Lemma literals_collected C tail : Forall (fun e : Op * Z => e.1 = RE_OP_MATCH -> letter e.2) C -> (tail = [(RE_OP_ACCEPT, 0)] \/ tail = [lit 0; (RE_OP_ACCEPT, 0)]) ->
  forall acc, exists ps zs rest, prefix_loop (C ++ tail) acc = acc ++ utf8 ps ++ zs /\ (zs = [] \/ zs = [0]) /\ C = (lit <$> ps) ++ rest /\ Forall letter ps.
Proof.
  intros HC Ht. assert (forall acc, exists zs, (zs = [] \/ zs = [0]) /\ prefix_loop tail acc = acc ++ zs) as Htl.
  { intros acc. destruct Ht as [-> | ->]; [exists []; rewrite app_nil_r; by split; [left|]|]. cbn [prefix_loop lit]. destruct (_ <? _); [exists [0]; split; [by right|done]|exists []; rewrite app_nil_r; by split; [left|]]. }
  assert (forall acc D, exists ps zs rest, acc = acc ++ utf8 ps ++ zs /\ (zs = [] \/ zs = [0]) /\ D = (lit <$> ps) ++ rest /\ Forall letter ps) as Hstop.
  { intros acc D. exists [], [], D. split_and!; [by rewrite !app_nil_r|by left|done|constructor]. }
  induction HC as [|[op x] C He _ IH]; intros acc.
  - destruct (Htl acc) as (zs & Hz & E). exists [], zs, []. split_and!; [done|done|done|constructor].
  - cbn [app prefix_loop]. destruct op; try apply Hstop. specialize (He eq_refl). cbn [snd] in He. destruct (zlen acc <? 12 - 2); [|apply Hstop]. rewrite prefix_bytes_encode by done. destruct (x <? 0x10000); [|apply Hstop].
    destruct (IH (acc ++ Pattern.encode_utf8 x)) as (ps & zs & rest & -> & Hz & -> & Hps). exists (x :: ps), zs, rest. rewrite utf8_cons, !app_assoc. split_and!; [done|done|done|by constructor].
Qed.

Lemma prefix_len_spec ps zs : Forall letter ps -> zs = [] \/ zs = [0] -> prefix_len (utf8 ps ++ zs) = zlen (utf8 ps).
Proof.
  intros Hp [-> | ->]; unfold prefix_len; [|rewrite last_snoc, zlen_snoc; lia]. rewrite app_nil_r. destruct (last (utf8 ps)) as [b|] eqn:E; [|done]. apply last_Some_elem_of in E.
  pose proof (utf8_nonzero ps Hp) as Hn. rewrite Forall_forall in Hn. specialize (Hn b E). by destruct b.
Qed.

(** ** Programs that ignore the character before *)

Definition plain (prog : Prog) : Prop := Forall (fun e : Op * Z => e.1 <> RE_OP_ATSTART /\ e.1 <> RE_OP_BOUNDARY) prog.

Lemma plain_at prog x op arg : plain prog -> get prog x = Some (op, arg) -> op <> RE_OP_ATSTART /\ op <> RE_OP_BOUNDARY.
Proof. unfold plain, get. rewrite Forall_forall. intros H. destruct (x <? 0); [done|]. intros E%list_elem_of_lookup_2. apply (H _ E). Qed.

Lemma plain_eps prog cp cp' c x : plain prog -> eps_succ prog cp c x = eps_succ prog cp' c x.
Proof. intros Hp. unfold eps_succ. destruct (get prog x) as [[op arg]|] eqn:E; [|done]. destruct (plain_at _ _ _ _ Hp E). by destruct op. Qed.

Lemma plain_accepts prog cp cp' cs x : plain prog -> accepts prog cp cs x -> accepts prog cp' cs x.
Proof.
  intros Hp (n & H). exists n. revert cp'. induction H as [n cp cs x Hx|n cp cs x y Hxy _ IH|n cp c cs x y Hy Ha _|n cp x y Hy Hg]; intros cp'.
  - by apply acc_now.
  - apply (acc_eps _ _ _ _ _ y); [by rewrite (plain_eps _ cp' cp)|apply IH].
  - by apply (acc_eat _ _ _ _ _ _ y).
  - by apply (acc_end _ _ _ _ y).
Qed.

Section skip.
Context (prog : Prog) (Hplain : plain prog) (arg : Z) (Hhead : get prog 0 = Some (RE_OP_ANYSTAR, arg)).

Lemma anystar_prepend cp cp' a b : accepts prog cp b 0 -> accepts prog cp' (a ++ b) 0.
Proof using Hplain Hhead.
  intros H. revert cp'. induction a as [|c a IH]; intros cp'; [by apply (plain_accepts _ cp)|]. destruct (IH c) as (n & Hn). exists (S n). apply (acc_eat _ _ _ _ _ _ 0); [|done]. unfold eat_succ. rewrite Hhead. by left.
Qed.

Lemma anystar_split cp t : accepts prog cp t 0 -> exists u v cp', t = u ++ v /\ accepts prog cp' v 1.
Proof using Hhead.
  intros (n & H). revert cp t H. induction n as [n IH] using lt_wf_ind. intros cp t H.
  inversion H as [? ? ? ? (a & Ha)|m ? ? ? y Hy Hm|m ? c cs ? y Hy Hm|? ? ? y Hy Hg]; subst; unfold eps_succ, eat_succ in *; rewrite Hhead in *; [done|..]; apply list_elem_of_singleton in Hy as ->.
  - exists [], t, cp. split; [done|by exists m].
  - destruct (IH m ltac:(lia) _ _ Hm) as (u & v & cp' & -> & Ha). by exists (c :: u), v, cp'.
  - by apply (goto_acc_inv prog 0 _ _ Hhead) in Hg as [|[]].
Qed.

(** A run through literals reads them. *)
Lemma literals_read ps : forall pc cp t, Forall letter ps -> code_at prog pc (lit <$> ps) -> accepts prog cp t pc -> exists w, t = ps ++ w.
Proof using.
  induction ps as [|p ps IH]; intros pc cp t Hp Hc H; [by exists t|]. apply Forall_cons in Hp as [[_ Hp0] Hp]. cbn [fmap list_fmap] in Hc. pose proof (code_at_head _ _ _ _ Hc) as Hh. apply code_at_tail in Hc. destruct H as (n & H).
  inversion H as [? ? ? ? (a & Ha)|m ? ? ? y Hy Hm|m ? c cs ? y Hy Hm|? ? ? y Hy Hg]; subst; unfold eps_succ, eat_succ in *; rewrite Hh in *; cbn [lit] in *.
  - done.
  - by apply elem_of_nil in Hy.
  - destruct (Z.eqb_spec p c) as [->|]; [|by apply elem_of_nil in Hy]. apply list_elem_of_singleton in Hy as ->. destruct (IH (pc + 1) c cs Hp Hc) as (w & ->); [by exists m|]. by exists w.
  - destruct (Z.eqb_spec p 0); [done|by apply elem_of_nil in Hy].
Qed.

(** Starting at the first occurrence of the prefix loses nothing. *)
Lemma skip_sound ps rest a b cp cp' : Forall letter ps -> code_at prog 1 ((lit <$> ps) ++ rest) -> (forall u w, a ++ b = u ++ ps ++ w -> exists u', u = a ++ u') ->
  accepts prog cp (a ++ b) 0 <-> accepts prog cp' b 0.
Proof using Hplain Hhead.
  intros Hp Hc Hfirst. split; [|apply anystar_prepend]. intros H. destruct (anystar_split _ _ H) as (u & v & cp1 & E & Hv).
  apply code_at_app in Hc as [Hc _]. destruct (literals_read ps 1 cp1 v Hp Hc Hv) as (w & ->). destruct (Hfirst u w E) as (u' & ->). rewrite <- app_assoc in E. apply app_inv_head in E as ->.
  assert (accepts prog cp1 (ps ++ w) 0) as H0 by (eapply accepts_step; [unfold eps_succ; rewrite Hhead; by left|done]). by apply (anystar_prepend cp1).
Qed.

End skip.

(** ** Whole programs *)

Definition tail_code (en : bool) : Prog := if en then [lit 0; (RE_OP_ACCEPT, 0)] else [(RE_OP_ACCEPT, 0)].

(** The expression with the search in front, unless the pattern is anchored. *)
Definition body (st : bool) (r : re) : re := if st then r else Seq AnyStar r.

Definition program (st en : bool) (r : re) : Prog := code (body st r) ++ tail_code en.

(** A text has a word of [r] in it, at its start and at its end when asked. *)
Definition found (st en : bool) (r : re) (cs : list Z) : Prop :=
  exists u v w, cs = u ++ v ++ w /\ L r v /\ (st = true -> u = []) /\ (en = true -> w = []).

Definition prefix_of (prog : Prog) : bytes := match prog with (RE_OP_ANYSTAR, _) :: p => prefix_loop p [] | _ => [] end.

Definition regex_of (prog : Prog) : Regex := mkRegex prog (prefix_of prog ++ zrep (12 - zlen (prefix_of prog)) 0) (prefix_len (prefix_of prog)).

Lemma body_ok st r : re_ok r -> re_ok (body st r).
Proof. by destruct st. Qed.

Lemma program_wf st en r : zlen (program st en r) <= 2 ^ 16 -> wf (program st en r).
Proof.
  unfold program. intros H. pose proof (code_block (body st r)) as Hb. destruct en; cbn [tail_code] in *.
  - change [lit 0; (RE_OP_ACCEPT, 0)] with ([lit 0] ++ [(RE_OP_ACCEPT, 0)]) in *. rewrite app_assoc in *. apply block_wf; [|rewrite zlen_snoc in H; lia]. apply block_app; [done|].
    apply block_cons; [unfold op_ok, zlen; cbn; lia|]. intros x e Hx. unfold get in Hx. by destruct (x <? 0).
  - apply block_wf; [done|]. rewrite zlen_snoc in H. lia.
Qed.

Lemma code_all (Q : Op * Z -> Prop) r : (forall op arg, op <> RE_OP_MATCH -> op <> RE_OP_ATSTART -> op <> RE_OP_BOUNDARY -> Q (op, arg)) -> (forall x, letter x -> Q (lit x)) -> re_ok r -> Forall Q (code r).
Proof.
  intros Hop Hl. induction r as [|s| |a IHa b IHb|a IHa b IHb|a IHa|a IHa|a IHa]; intros Hok; cbn [code re_ok] in *; rewrite ?Forall_cons, ?Forall_app, ?Forall_cons, ?Forall_nil; try tauto; try (split_and!; try apply Hop; tauto || done).
  destruct s as [x| |neg|neg|neg|exc ms]; cbn [sym_code sym_ok] in *; rewrite ?Forall_cons, ?Forall_nil; try (split; [by apply Hl || (apply Hop; by destruct neg) || by apply Hop|done]).
  split; [apply Hop; by destruct exc|]. eapply Forall_impl; [apply members_only|]. intros [op arg]. cbn. intros [-> | ->]; by apply Hop.
Qed.

Lemma accepts_found st en r cs cp : re_ok r -> Forall letter cs -> accepts (program st en r) cp cs 0 <-> found st en r cs.
Proof.
  intros Hok Hcs. pose proof (body_ok st r Hok) as Hb. unfold program. set (C := code (body st r)). set (prog := C ++ tail_code en).
  assert (code_at prog 0 C /\ code_at prog (zlen C) (tail_code en)) as [Hc Ht].
  { split; [apply (code_at_self [] C (tail_code en))|]. pose proof (code_at_self C (tail_code en) []) as H. by rewrite app_nil_r in H. }
  assert (found st en r cs <-> exists v w, cs = v ++ w /\ L (body st r) v /\ (en = true -> w = [])) as ->.
  { unfold found, body. destruct st; cbn [L]; split.
    - intros (u & v & w & -> & Hv & Hu & Hw). rewrite Hu by done. by exists v, w.
    - intros (v & w & -> & Hv & Hw). by exists [], v, w.
    - intros (u & v & w & -> & Hv & _ & Hw). exists (u ++ v), w. rewrite app_assoc. split; [done|]. split; [by exists u, v|done].
    - intros (? & w & -> & (u & v & -> & _ & Hv) & Hw). exists u, v, w. by rewrite app_assoc. }
  split.
  - intros (n & H). destruct (runs_sound prog (body st r) 0 n cp cs Hb Hc H) as (v & w & cp' & n' & -> & Hv & Hn' & _). exists v, w. split; [done|]. split; [done|]. intros ->.
    rewrite Z.add_0_l in Hn'. fold C in Hn'. cbn [tail_code] in Ht. apply code_at_head in Ht. apply Forall_app in Hcs as [_ Hw].
    inversion Hn' as [? ? ? ? (a & Ha)|m ? ? ? y Hy Hm|m ? c t ? y Hy Hm|]; subst; [by rewrite Ht in Ha| | |done]; unfold eps_succ, eat_succ in Hy; rewrite Ht in Hy; cbn [lit] in Hy; [by apply elem_of_nil in Hy|].
    apply Forall_cons in Hw as [[_ Hc0] _]. destruct (Z.eqb_spec 0 c); [by subst|by apply elem_of_nil in Hy].
  - intros (v & w & -> & Hv & Hw). apply (runs_complete prog (body st r) 0 v w Hb Hc Hv). intros cp'. rewrite Z.add_0_l. fold C. exists O. destruct en; cbn [tail_code] in Ht.
    + rewrite Hw by done. pose proof (code_at_head _ _ _ _ Ht) as Hm. apply code_at_tail, code_at_head in Ht. apply (acc_end _ _ _ _ (zlen C + 1)); [unfold eat_succ; rewrite Hm; by left|]. apply goto_accept. by exists 0.
    + apply acc_now. exists 0. by apply code_at_head in Ht.
Qed.

(** The literal prefix of a program. *)
Lemma prefix_cases st en r : re_ok r -> prefix_len (prefix_of (program st en r)) = 0 \/
  exists arg ps rest, get (program st en r) 0 = Some (RE_OP_ANYSTAR, arg) /\ code_at (program st en r) 1 ((lit <$> ps) ++ rest) /\ Forall letter ps /\ ps <> [] /\
    prefix_len (prefix_of (program st en r)) = zlen (utf8 ps) /\ slice (z_init (regex_of (program st en r))) 0 (zlen (utf8 ps)) = Ok (utf8 ps).
Proof.
  intros Hok. cbn [regex_of z_init]. unfold program. assert (Forall (fun e : Op * Z => e.1 = RE_OP_MATCH -> letter e.2) (code (body st r))) as HC by (apply code_all; [done|done|by apply body_ok]).
  destruct (code (body st r)) as [|[op arg] C] eqn:EC; [left; by destruct en|]. cbn [app prefix_of]. destruct op; try by left. apply Forall_cons in HC as [_ HC].
  destruct (literals_collected C (tail_code en) HC ltac:(destruct en; auto) []) as (ps & zs & rest & -> & Hz & -> & Hps). cbn [app]. rewrite prefix_len_spec by done.
  destruct ps as [|p0 ps]; [by left|]. right. exists arg, (p0 :: ps), (rest ++ tail_code en). split_and!; try done.
  - rewrite <- app_assoc. pose proof (code_at_self [(RE_OP_ANYSTAR, arg)] ((lit <$> p0 :: ps) ++ rest ++ tail_code en) []) as H. by rewrite app_nil_r in H.
  - rewrite slice_Ok; [|pose proof (zlen_nonneg (utf8 (p0 :: ps))); lia|rewrite !zlen_app; pose proof (zlen_nonneg zs); pose proof (zlen_nonneg (zrep (12 - (zlen (utf8 (p0 :: ps)) + zlen zs)) 0)); lia].
    f_equal. rewrite <- app_assoc. apply (sub_app_exact []); [done|done].
Qed.

(** The matcher on a text. *)
Lemma matches_found st en r cs : re_ok r -> Forall letter cs -> zlen (program st en r) <= 2 ^ 16 ->
  exists b, matches (regex_of (program st en r)) (utf8 cs) false = Ok b /\ (b = true <-> found st en r cs).
Proof.
  intros Hok Hcs Hlen. pose proof (program_wf st en r Hlen) as Hwf. pose proof (accepts_found st en r cs) as Hacc. pose proof (prefix_cases st en r Hok) as Hpre.
  assert (plain (program st en r)) as Hpl.
  { apply Forall_app. split; [apply code_all; [done|done|by apply body_ok]|]. destruct en; cbn [tail_code]; rewrite ?Forall_cons, Forall_nil; done. }
  set (prog := program st en r) in *.
  assert (forall a b cp, cs = a ++ b -> cp <> 0 -> (accepts prog cp b 0 <-> found st en r cs) ->
    exists x, (let* o := input_loop (S (S (length (utf8 cs)))) prog (utf8 cs) (zlen (utf8 a)) cp false (re_add_state [] 0) in match o with None => Ok true | Some nx => final_states prog nx end) = Ok x /\ (x = true <-> found st en r cs)) as Hrun.
  { intros a b cp E Hcp Hiff. assert (Forall letter b) as Hb by (rewrite E, Forall_app in Hcs; tauto). assert (length b <= length (utf8 cs))%nat as Hlb.
    { rewrite E, utf8_app, length_app. clear -Hb. induction Hb as [|c b [Sc _] _ IH]; [cbn; lia|]. rewrite utf8_cons, length_app. destruct (encode_shape c Sc) as (x & l & -> & _). cbn in *. lia. }
    assert (states (zlen prog) [0]) as Hst by (split; [apply NoDup_singleton|]; constructor; [|constructor]; pose proof (wf_len _ Hwf); lia).
    destruct (input_loop_decides prog Hwf false (utf8 cs) b (zlen (utf8 a)) cp [0] (S (S (length (utf8 cs))))) as (o & x & Eo & Hx & Hb'); [rewrite E, utf8_app; by apply utf8_spells|done|done|lia|].
    change (re_add_state [] 0) with [0]. rewrite Eo. bind_step. exists x. split; [destruct o; congruence|]. rewrite Hb', <- Hiff. split; [intros (s & Hs & H); by apply list_elem_of_singleton in Hs as ->|]. intros H. exists 0. split; [by left|done]. }
  unfold matches. rewrite c_string_id by (by apply utf8_nonzero). change (n_init (regex_of prog)) with (prefix_len (prefix_of prog)). change (re_prog (regex_of prog)) with prog.
  destruct Hpre as [-> |(arg & ps & rest & Hh & Hc & Hps & Hne & -> & Hsl)].
  - cbn [Z.ltb Z.compare]. bind_step. apply (Hrun [] cs); [done|done|by apply Hacc].
  - assert (0 < zlen (utf8 ps)) as Hpos. { destruct ps as [|p ps]; [done|]. apply Forall_cons in Hps as [[Sp _] _]. rewrite utf8_cons, zlen_app. destruct (encode_shape p Sp) as (x & l & -> & _). rewrite zlen_cons. pose proof (zlen_nonneg l). pose proof (zlen_nonneg (utf8 ps)). lia. }
    destruct (Z.ltb_spec 0 (zlen (utf8 ps))); [|lia]. rewrite Hsl. bind_step. destruct (find_prefix_text cs ps Hcs Hps Hne) as (o & -> & Ho). do 2 bind_step. destruct o as [k|].
    + destruct Ho as (a & b & E & -> & Hfirst). apply (Hrun a b); [done|done|]. rewrite <- (Hacc RE_START) by done. rewrite E. symmetry. rewrite E in Hfirst. by apply (skip_sound prog Hpl arg Hh ps rest).
    + exists false. split; [done|]. split; [done|]. intros Hf. apply (Hacc RE_START) in Hf; [|done..]. destruct (anystar_split prog arg Hh _ _ Hf) as (u & v & cp & E & Hv). apply code_at_app in Hc as [Hc _].
      destruct (literals_read prog ps 1 cp v Hps Hc Hv) as (w & ->). by destruct (Ho u w).
Qed.

End RegexMatch.
