(* ===== verification/RegexCompile.v ===== *)
(** The pattern syntax and its compiler. Module [RegexSyntax]: which byte
    strings denote which expressions, as an inductive grammar, and what its
    patterns have in common. Module [RegexCompile]: a pattern compiles to the
    code of the expression it denotes, so matching decides the language. *)

From S2P Require Import Prelude Pattern Regex RegexNfa RegexLang RegexMatch.
Import Regex RegexNfa RegexLang RegexMatch.
Local Open Scope Z_scope.

Module RegexSyntax.

(** ** The syntax *)

(** [X] repeated [m] times, and up to [k] times. *)
Fixpoint power (r : re) (m : nat) : re := match m with O => Emp | S m => Seq r (power r m) end.
Fixpoint opts (r : re) (k : nat) : re := match k with O => Emp | S k => Seq (Opt r) (opts r k) end.

(** A decimal numeral, possibly empty, below 2^63. *)
Definition numeral (ds : bytes) (m : Z) : Prop :=
  Forall (fun d => re_digit_char d = true) ds /\ fold_left (fun m d => m * 10 + (d - 48)) ds 0 = m /\ m < 2 ^ 63.

(** Characters with a meaning of their own outside and inside brackets. *)
Definition metachars : list Z := [124; 40; 41; 46; 42; 43; 63; 36; 94; 123; 91; 92].
Definition class_metachars : list Z := [91; 92; 93; 45; 94].

Inductive class_char : bytes -> Z -> Prop :=
  | cc_plain c : letter c -> c ∉ class_metachars -> class_char (Pattern.encode_utf8 c) c
  | cc_esc e v : find_esc e ZESC ZTRANS = Some v -> class_char [92; e] v.

Inductive member_of : bytes -> member -> Prop :=
  | mem_value b v : class_char b v -> member_of b (MValue v)
  | mem_range b lo b' hi : class_char b lo -> class_char b' hi -> member_of (b ++ 45 :: b') (MRange lo hi).

Inductive members_of : bytes -> list member -> Prop :=
  | mems_one b m : member_of b m -> members_of b [m]
  | mems_cons b m bs ms : member_of b m -> members_of bs ms -> members_of (b ++ bs) (m :: ms).

Definition special_sym (e : Z) : option sym :=
  if e =? 100 then Some (Digit false)
  else if e =? 68 then Some (Digit true)
  else if e =? 115 then Some (Space false)
  else if e =? 83 then Some (Space true)
  else if e =? 119 then Some (Word false)
  else if e =? 87 then Some (Word true)
  else None.

(** A pattern is alternatives of sequences of items, an item an atom with or
    without a repetition. *)
Inductive atom_of : bytes -> re -> Prop :=
  | atom_chr c : letter c -> c ∉ metachars -> atom_of (Pattern.encode_utf8 c) (Sym (Chr c))
  | atom_any : atom_of [46] (Sym AnyChar)
  | atom_esc e v : find_esc e ZESC ZTRANS = Some v -> atom_of [92; e] (Sym (Chr v))
  | atom_hex h1 h2 v1 v : re_hex h1 0 = Some v1 -> re_hex h2 v1 = Some v -> v <> 0 -> atom_of [92; 120; h1; h2] (Sym (Chr v))
  | atom_special e s : special_sym e = Some s -> atom_of [92; e] (Sym s)
  | atom_class (exc : bool) bs ms : members_of bs ms -> atom_of (91 :: (if exc then [94] else []) ++ bs ++ [93]) (Sym (Class exc ms))
  | atom_group p r : alt_of p r -> atom_of (40 :: p ++ [41]) r
with item_of : bytes -> re -> Prop :=
  | item_atom b r : atom_of b r -> item_of b r
  | item_dots : item_of [46; 42] AnyStar
  | item_star b r : atom_of b r -> b <> [46] -> item_of (b ++ [42]) (Star r)
  | item_plus b r : atom_of b r -> item_of (b ++ [43]) (Plus r)
  | item_opt b r : atom_of b r -> item_of (b ++ [63]) (Opt r)
  | item_exactly b r ds m : atom_of b r -> numeral ds m -> 1 <= m -> item_of (b ++ 123 :: ds ++ [125]) (Seq (power r (Z.to_nat m)) (opts r 0))
  | item_at_least b r ds m : atom_of b r -> numeral ds m -> 1 <= m -> item_of (b ++ 123 :: ds ++ [44; 125]) (Seq (power r (Z.to_nat (m - 1))) (Plus r))
  | item_between b r ds ds' m n : atom_of b r -> numeral ds m -> numeral ds' n -> 1 <= n -> 0 <= m <= n ->
      item_of (b ++ 123 :: ds ++ 44 :: ds' ++ [125]) (Seq (power r (Z.to_nat m)) (opts r (Z.to_nat (n - m))))
with seq_of : bytes -> re -> Prop :=
  | seq_nil : seq_of [] Emp
  | seq_cons b r p q : item_of b r -> seq_of p q -> seq_of (b ++ p) (Seq r q)
with alt_of : bytes -> re -> Prop :=
  | alt_one p r : seq_of p r -> alt_of p r
  | alt_or p r b q : alt_of p r -> seq_of b q -> alt_of (p ++ 124 :: b) (Alt r q).

Scheme atom_mut := Minimality for atom_of Sort Prop
  with item_mut := Minimality for item_of Sort Prop
  with seq_mut := Minimality for seq_of Sort Prop
  with alt_mut := Minimality for alt_of Sort Prop.
Combined Scheme pattern_mut from atom_mut, item_mut, seq_mut, alt_mut.

(** Whole patterns: [st] is an anchor at the start, [en] one at the end. *)
Inductive pattern_of : bytes -> bool -> bool -> re -> Prop :=
  | pat_open (st : bool) p r : alt_of p r -> pattern_of ((if st then [94] else []) ++ p) st false r
  | pat_end (st : bool) p r : seq_of p r -> pattern_of ((if st then [94] else []) ++ p ++ [36]) st true r.

(** ** Bytes of patterns *)

Lemma find_esc_values e v : find_esc e ZESC ZTRANS = Some v -> letter v /\ e <> 0 /\ e <> 117 /\ e <> 120 /\ special_op e = None.
Proof.
  intros H. assert (e ∈ ZESC) as He.
  { clear -H. revert H. generalize ZTRANS. induction ZESC as [|x l IH]; intros t H; [done|]. cbn in H. destruct (Z.eqb_spec x e) as [->|]; [by left|]. right. by eapply IH. }
  unfold ZESC in He. repeat (apply elem_of_cons in He as [->|He]; [cbn in H; injection H as <-; unfold letter, Pattern.is_scalar; repeat split; try done; lia|]). by apply elem_of_nil in He.
Qed.

(** The first byte of an item starts no repetition, and no byte is NUL. *)
Definition first_ok (b : bytes) : Prop := match b with [] => True | x :: _ => x <> 42 /\ x <> 94 end.

Definition nonzero (b : bytes) : Prop := Forall (fun x => x <> 0) b.

Lemma hex_nonzero h v v' : re_hex h v = Some v' -> h <> 0.
Proof. by intros H ->. Qed.

Lemma class_char_bytes b v : class_char b v -> nonzero b /\ letter v.
Proof.
  intros [c Hc _|e v' He]; [split; [by apply encode_nonzero|done]|]. destruct (find_esc_values _ _ He) as (Hv & H0 & _). split; [by repeat constructor|done].
Qed.

Lemma member_bytes b m : member_of b m -> nonzero b /\ member_ok m.
Proof.
  intros [b' v H%class_char_bytes|b1 lo b2 hi H1%class_char_bytes H2%class_char_bytes].
  - destruct H as [? [[? _] ?]]. split; [done|]. cbn. lia.
  - destruct H1 as [? [[? _] ?]], H2 as [? _]. split; [|cbn; lia]. apply Forall_app. split; [done|]. by apply Forall_cons.
Qed.

Lemma members_bytes bs ms : members_of bs ms -> nonzero bs /\ Forall member_ok ms.
Proof.
  induction 1 as [b m H%member_bytes|b m bs ms H%member_bytes _ [IH1 IH2]]; [split; [tauto|by repeat constructor; apply H]|].
  split; [apply Forall_app; tauto|]. constructor; tauto.
Qed.

Lemma numeral_nonzero ds m : numeral ds m -> nonzero ds.
Proof. intros [H _]. eapply Forall_impl; [done|]. by intros d Hd ->. Qed.

Lemma first_ok_app b c : b <> [] -> first_ok b -> first_ok (b ++ c).
Proof. by destruct b. Qed.

Lemma power_ok r m : re_ok r -> re_ok (power r m).
Proof. intros H. by induction m. Qed.

Lemma opts_ok r m : re_ok r -> re_ok (opts r m).
Proof. intros H. by induction m. Qed.

Lemma nonzero_app b c : nonzero b -> nonzero c -> nonzero (b ++ c).
Proof. intros. by apply Forall_app. Qed.

Lemma nonzero_cons x b : x <> 0 -> nonzero b -> nonzero (x :: b).
Proof. intros. by constructor. Qed.

Lemma encode_first c l : letter c -> c ∉ l -> Forall (fun x => 0 <= x < 0x80) l -> exists x bs, Pattern.encode_utf8 c = x :: bs /\ x ∉ l.
Proof.
  intros [Hs _] Hc Hl. destruct (encode_shape c Hs) as (x & bs & E & Hx & _). exists x, bs. split; [done|]. intros Hin. rewrite Forall_forall in Hl. specialize (Hl x Hin). unfold Pattern.encode_utf8 in E. destruct Hs as [Hr _].
  pose proof (Z.div_pos c 64). pose proof (Z.div_pos c 4096). pose proof (Z.div_pos c 262144). repeat case_match; injection E as E; subst; try done; lia.
Qed.

Lemma encode_first_ok c : letter c -> c ∉ metachars -> exists x bs, Pattern.encode_utf8 c = x :: bs /\ first_ok (x :: bs).
Proof.
  intros Hc Hm. destruct (encode_first c metachars Hc Hm) as (x & bs & E & Hx); [repeat constructor; lia|]. exists x, bs. split; [done|]. unfold metachars in Hx. cbn. split; intros ->; set_solver.
Qed.

Lemma special_sym_op e s : special_sym e = Some s -> e <> 0 /\ sym_ok s /\ exists op, special_op e = Some op /\ sym_code s = [(op, 0)].
Proof.
  unfold special_sym, special_op. intros H. repeat match type of H with (if ?x =? ?n then _ else _) = _ => destruct (Z.eqb_spec x n) as [->|] end; try done; injection H as <-; (split; [done|]; split; [done|]; by eexists).
Qed.

Lemma hex_range h v v' : re_hex h v = Some v' -> 0 <= v -> v * 16 <= v' < v * 16 + 16.
Proof. unfold re_hex. intros H Hv. repeat case_match; try done; injection H as <-; lia. Qed.

(** What every pattern satisfies. *)
Lemma pattern_facts : (forall b r, atom_of b r -> b <> [] /\ first_ok b /\ nonzero b /\ re_ok r) /\ (forall b r, item_of b r -> b <> [] /\ first_ok b /\ nonzero b /\ re_ok r) /\
  (forall p r, seq_of p r -> first_ok p /\ nonzero p /\ re_ok r) /\ (forall p r, alt_of p r -> first_ok p /\ nonzero p /\ re_ok r).
Proof.
  apply pattern_mut.
  - intros c Hc Hm. destruct (encode_first_ok c Hc Hm) as (x & bs & E & Hx). rewrite E. split_and!; [done|done| |done]. rewrite <- E. by apply encode_nonzero.
  - split_and!; try done. by repeat constructor.
  - intros e v He. destruct (find_esc_values _ _ He) as (Hv & H0 & _). split_and!; try done. by repeat constructor.
  - intros h1 h2 v1 v H1 H2 Hv. pose proof (hex_range _ _ _ H1 ltac:(lia)). pose proof (hex_range _ _ _ H2 ltac:(lia)). split_and!; try done; [repeat (apply nonzero_cons; [done || by eapply hex_nonzero|]); constructor|]. cbn. unfold letter, Pattern.is_scalar. lia.
  - intros e s Hs. destruct (special_sym_op _ _ Hs) as (H0 & Hok & _). split_and!; try done. by repeat constructor.
  - intros exc bs ms Hm. destruct (members_bytes _ _ Hm) as [Hn Hok]. split_and!; try done. apply nonzero_cons; [done|]. apply nonzero_app; [destruct exc; by repeat constructor|]. apply nonzero_app; [done|by repeat constructor].
  - intros p r _ (_ & Hn & Hok). split_and!; try done. apply nonzero_cons; [done|]. apply nonzero_app; [done|by repeat constructor].
  - intros b r _ H. done.
  - split_and!; try done. by repeat constructor.
  - intros b r _ (H1 & H2 & H3 & H4) _. split_and!; [by destruct b|by apply first_ok_app|apply nonzero_app; [done|by repeat constructor]|done].
  - intros b r _ (H1 & H2 & H3 & H4). split_and!; [by destruct b|by apply first_ok_app|apply nonzero_app; [done|by repeat constructor]|done].
  - intros b r _ (H1 & H2 & H3 & H4). split_and!; [by destruct b|by apply first_ok_app|apply nonzero_app; [done|by repeat constructor]|done].
  - intros b r ds m _ (H1 & H2 & H3 & H4) Hd%numeral_nonzero _. split_and!; [by destruct b|by apply first_ok_app| |cbn; by split; [apply power_ok|]].
    apply nonzero_app; [done|]. apply nonzero_cons; [done|]. apply nonzero_app; [done|by repeat constructor].
  - intros b r ds m _ (H1 & H2 & H3 & H4) Hd%numeral_nonzero _. split_and!; [by destruct b|by apply first_ok_app| |cbn; by split; [apply power_ok|]].
    apply nonzero_app; [done|]. apply nonzero_cons; [done|]. apply nonzero_app; [done|by repeat constructor].
  - intros b r ds ds' m n _ (H1 & H2 & H3 & H4) Hd%numeral_nonzero Hd'%numeral_nonzero _ _. split_and!; [by destruct b|by apply first_ok_app| |cbn; split; [by apply power_ok|by apply opts_ok]].
    apply nonzero_app; [done|]. apply nonzero_cons; [done|]. apply nonzero_app; [done|]. apply nonzero_cons; [done|]. apply nonzero_app; [done|by repeat constructor].
  - split_and!; try done. constructor.
  - intros b r p q _ (H1 & H2 & H3 & H4) _ (H5 & H6 & H7). split_and!; [by apply first_ok_app|by apply nonzero_app|done].
  - done.
  - intros p r b q _ (H1 & H2 & H3) _ (H4 & H5 & H6). split_and!; [destruct p; [done|by apply first_ok_app]|apply nonzero_app; [done|by apply nonzero_cons]|done].
Qed.

End RegexSyntax.

Import RegexSyntax.

Module RegexCompile.

(** The compiler at position [i] with the code [p] so far. *)
Abbreviation St z i p := (mkCompiler z i false p None).

(** Equality of concatenations. *)
Ltac assoc := repeat (progress (rewrite <- ?app_assoc; cbn [app])); done.

Lemma St_eq z z' i i' p p' : z = z' -> i = i' -> p = p' -> St z i p = St z' i' p'.
Proof. by intros -> -> ->. Qed.

Definition small (p : Prog) : Prop := zlen p + 2 < 2 ^ 31.

Lemma arg32_small a : - 2 ^ 31 <= a < 2 ^ 31 -> arg32 a = a.
Proof. intros H. unfold arg32. apply (to_signed_unsigned 32); [lia|exact H]. Qed.

Lemma small_app p q : small (p ++ q) -> small p /\ zlen q + 2 < 2 ^ 31.
Proof. unfold small. rewrite zlen_app. pose proof (zlen_nonneg p). pose proof (zlen_nonneg q). lia. Qed.

(** ** Reading the pattern *)

Lemma get_mid {A} (pre suf : list A) x : get (pre ++ x :: suf) (zlen pre) = Some x.
Proof. unfold get, zlen. destruct (Z.ltb_spec (Z.of_nat (length pre)) 0); [lia|]. rewrite Nat2Z.id. by rewrite list_lookup_middle. Qed.

Lemma peek_mid pre x suf p : peek (St (pre ++ x :: suf) (zlen pre) p) = x.
Proof. unfold peek. cbn [c_z c_i]. by rewrite get_mid. Qed.

Lemma peek_end pre p : peek (St pre (zlen pre) p) = 0.
Proof.
  unfold peek. cbn [c_z c_i]. unfold get, zlen. destruct (Z.ltb_spec (Z.of_nat (length pre)) 0); [done|]. rewrite Nat2Z.id. by rewrite lookup_ge_None_2.
Qed.

(** A position further on. *)
Lemma shift_pos (pre b suf : bytes) : pre ++ b ++ suf = (pre ++ b) ++ suf /\ zlen pre + zlen b = zlen (pre ++ b).
Proof. by rewrite app_assoc, zlen_app. Qed.

Lemma next_char_mid pre c suf p : Pattern.is_scalar c ->
  next_char (St (pre ++ Pattern.encode_utf8 c ++ suf) (zlen pre) p) = Ok (c, St (pre ++ Pattern.encode_utf8 c ++ suf) (zlen pre + zlen (Pattern.encode_utf8 c)) p).
Proof. intros Hc. unfold next_char. cbn [c_z c_i]. rewrite next_encoded by done. done. Qed.

Lemma next_char_ascii pre x suf p : 0 <= x < 0x80 -> next_char (St (pre ++ x :: suf) (zlen pre) p) = Ok (x, St (pre ++ x :: suf) (zlen pre + 1) p).
Proof.
  intros Hx. pose proof (next_char_mid pre x suf p) as H. assert (Pattern.encode_utf8 x = [x]) as E by (unfold Pattern.encode_utf8; destruct (Z.ltb_spec x 0x80); [done|lia]). rewrite E in H. apply H. split; lia.
Qed.

Lemma next_char_end z p : next_char (St z (zlen z) p) = Ok (0, St z (zlen z) p).
Proof. unfold next_char, re_next_char. cbn [c_z c_i]. by rewrite (proj2 (Z.leb_le (zlen z) (zlen z))) by lia. Qed.

Lemma append_small z i p op arg : - 2 ^ 31 <= arg < 2 ^ 31 -> re_append (St z i p) op arg = St z i (p ++ [(op, arg)]).
Proof. intros H. unfold re_append, with_prog. cbn. by rewrite arg32_small. Qed.

Lemma insert_small z i p q op arg : - 2 ^ 31 <= arg < 2 ^ 31 -> re_insert (St z i (p ++ q)) (zlen p) op arg = Ok (St z i (p ++ (op, arg) :: q)).
Proof.
  intros H. unfold re_insert, n_state, with_prog. cbn. pose proof (zlen_nonneg p). pose proof (zlen_nonneg q). rewrite zlen_app. destruct (Z.leb_spec 0 (zlen p)), (Z.leb_spec (zlen p) (zlen p + zlen q)); try lia. cbn [andb].
  rewrite arg32_small by done. unfold zlen. by rewrite Nat2Z.id, take_app_length, drop_app_length.
Qed.

Lemma idx_prog {A} (p q : list A) x : idx (p ++ x :: q) (zlen p) = Ok x.
Proof. apply get_idx, get_mid. Qed.

Lemma copy_block z i C : forall p q, re_copy (length C) (St z i (p ++ C ++ q)) (zlen p) = Ok (St z i (p ++ C ++ q ++ C)).
Proof.
  induction C as [|x C IH]; intros p q; cbn [length re_copy app]; [by rewrite app_nil_r|]. unfold with_prog. cbn [c_prog c_z c_i c_nocase c_err]. rewrite idx_prog. bind_step.
  replace ((p ++ x :: C ++ q) ++ [x]) with ((p ++ [x]) ++ C ++ (q ++ [x])) by assoc. replace (zlen p + 1) with (zlen (p ++ [x])) by apply zlen_snoc. rewrite IH. assoc.
Qed.

(** [k] copies of a block. *)
Fixpoint times (k : nat) (C : Prog) : Prog := match k with O => [] | S k => C ++ times k C end.

Lemma times_snoc k C : C ++ times k C = times k C ++ C.
Proof. induction k as [|k IH]; cbn [times]; [by rewrite app_nil_r|]. by rewrite <- app_assoc, <- IH. Qed.

Lemma copies_block z i C k : forall p q, copies k (St z i (p ++ C ++ q)) (zlen p) (zlen C) = Ok (St z i (p ++ C ++ q ++ times k C)).
Proof.
  induction k as [|k IH]; intros p q; cbn [copies times]; [by rewrite app_nil_r|]. replace (Z.to_nat (zlen C)) with (length C) by (unfold zlen; lia). rewrite copy_block. bind_step. rewrite IH. assoc.
Qed.

Lemma optional_block z i C k : forall p q, zlen C + 1 < 2 ^ 31 ->
  optional_copies k (St z i (p ++ C ++ q)) (zlen p) (zlen C) = Ok (St z i (p ++ C ++ q ++ times k ((RE_OP_FORK, zlen C + 1) :: C))).
Proof.
  intros p q H. pose proof (zlen_nonneg C). revert q. induction k as [|k IH]; intros q; cbn [optional_copies times]; [by rewrite app_nil_r|]. rewrite append_small by lia. replace (Z.to_nat (zlen C)) with (length C) by (unfold zlen; lia).
  replace ((p ++ C ++ q) ++ [(RE_OP_FORK, zlen C + 1)]) with (p ++ C ++ (q ++ [(RE_OP_FORK, zlen C + 1)])) by assoc. rewrite copy_block. bind_step. rewrite IH. assoc.
Qed.

Lemma power_code r m : code (power r m) = times m (code r).
Proof. induction m as [|m IH]; [done|]. cbn. by rewrite IH. Qed.

Lemma opts_code r k : code (opts r k) = times k ((RE_OP_FORK, zlen (code r) + 1) :: code r).
Proof. induction k as [|k IH]; [done|]. cbn. by rewrite IH. Qed.

(** ** Escapes and classes *)

Lemma esc_char_mid pre e v suf p : find_esc e ZESC ZTRANS = Some v -> esc_char (St (pre ++ e :: suf) (zlen pre) p) = Ok (v, St (pre ++ e :: suf) (zlen pre + 1) p).
Proof.
  intros He. destruct (find_esc_values _ _ He) as (_ & _ & Hu & Hx & _). unfold esc_char, hex_esc. cbn [c_z c_i]. rewrite zlen_app, zlen_cons. pose proof (zlen_nonneg suf).
  destruct (Z.leb_spec (zlen pre + (zlen suf + 1)) (zlen pre)); [lia|]. rewrite idx_prog. repeat bind_step. rewrite (proj2 (Z.eqb_neq e 117)), (proj2 (Z.eqb_neq e 120)) by done. cbn [andb]. repeat bind_step. by rewrite He.
Qed.

Lemma hex_run_two z i h1 h2 v1 v : idx z i = Ok h1 -> idx z (i + 1) = Ok h2 -> re_hex h1 0 = Some v1 -> re_hex h2 v1 = Some v -> hex_run 2 z i 0 = Ok (Some v).
Proof. intros E1 E2 H1 H2. cbn [hex_run]. rewrite E1. bind_step. rewrite H1, E2. bind_step. by rewrite H2. Qed.

Lemma esc_char_hex pre h1 h2 v1 v suf p : re_hex h1 0 = Some v1 -> re_hex h2 v1 = Some v ->
  esc_char (St (pre ++ 120 :: h1 :: h2 :: suf) (zlen pre) p) = Ok (v, St (pre ++ 120 :: h1 :: h2 :: suf) (zlen pre + 3) p).
Proof.
  intros H1 H2. unfold esc_char, hex_esc. cbn [c_z c_i]. rewrite zlen_app, !zlen_cons. pose proof (zlen_nonneg suf). destruct (Z.leb_spec (zlen pre + (zlen suf + 1 + 1 + 1)) (zlen pre)); [lia|]. rewrite idx_prog. repeat bind_step. cbn [Z.eqb Pos.eqb andb]. repeat bind_step.
  destruct (Z.ltb_spec (zlen pre + Z.of_nat 2) (zlen pre + (zlen suf + 1 + 1 + 1))); [|lia].
  rewrite (hex_run_two _ _ h1 h2 v1 v); [|..|done|done].
  - repeat bind_step. unfold at_i. cbn. by rewrite <- Z.add_assoc.
  - replace (zlen pre + 1) with (zlen (pre ++ [120])) by apply zlen_snoc. replace (pre ++ 120 :: h1 :: h2 :: suf) with ((pre ++ [120]) ++ h1 :: h2 :: suf) by assoc. apply idx_prog.
  - replace (zlen pre + 1 + 1) with (zlen (pre ++ [120; h1])) by (rewrite zlen_app; unfold zlen; cbn; lia). replace (pre ++ 120 :: h1 :: h2 :: suf) with ((pre ++ [120; h1]) ++ h2 :: suf) by assoc. apply idx_prog.
Qed.

Lemma class_char_read b v : class_char b v -> forall pre suf p, exists ch c1, next_char (St (pre ++ b ++ suf) (zlen pre) p) = Ok (ch, c1) /\ ch <> 0 /\ ch <> 91 /\
  (if ch =? 92 then esc_char c1 else Ok (ch, c1)) = Ok (v, St (pre ++ b ++ suf) (zlen pre + zlen b) p).
Proof.
  intros [c [Hs Hc] Hm|e v' He] pre suf p.
  - eexists _, _. split; [by apply next_char_mid|]. unfold class_metachars in Hm. split; [done|]. split; [intros ->; set_solver|]. destruct (Z.eqb_spec c 92) as [->|]; [set_solver|done].
  - eexists _, _. split; [cbn [app]; by apply next_char_ascii|]. split; [done|]. split; [done|]. cbn [Z.eqb Pos.eqb app].
    replace (pre ++ 92 :: e :: suf) with ((pre ++ [92]) ++ e :: suf) by assoc. replace (zlen pre + 1) with (zlen (pre ++ [92])) by apply zlen_snoc. rewrite (esc_char_mid _ _ _ _ _ He). f_equal. f_equal. f_equal. rewrite zlen_snoc. unfold zlen. cbn. lia.
Qed.

(** The byte after a member of a class starts another one or closes it. *)
Definition class_next (suf : bytes) : Prop := exists x l, suf = x :: l /\ x <> 45.

Lemma class_char_first b v : class_char b v -> exists x l, b = x :: l /\ x <> 45 /\ x <> 93 /\ x <> 94.
Proof.
  intros [c Hc Hm|e v' He]; [|by exists 92, [e]]. destruct (encode_first c class_metachars Hc Hm) as (x & l & E & Hx); [repeat constructor; lia|]. exists x, l. unfold class_metachars in Hx. split; [done|]. split_and!; intros ->; set_solver.
Qed.

Lemma member_first b m : member_of b m -> exists x l, b = x :: l /\ x <> 45 /\ x <> 93 /\ x <> 94.
Proof. intros [b' v H|b' lo b'' hi H _]; destruct (class_char_first _ _ H) as (x & l & -> & Hx); [by exists x, l|by exists x, (l ++ 45 :: b'')]. Qed.

Lemma members_first bs ms : members_of bs ms -> exists x l, bs = x :: l /\ x <> 45 /\ x <> 93 /\ x <> 94.
Proof. intros [b m H|b m bs' ms' H _]; destruct (member_first _ _ H) as (x & l & -> & Hx); [by exists x, l|by exists x, (l ++ bs')]. Qed.

Lemma scalar_arg v : letter v -> - 2 ^ 31 <= v < 2 ^ 31.
Proof. intros [[H _] _]. lia. Qed.

(** One turn of the loop over the members. *)
Lemma member_turn b m pre suf p fuel : member_of b m -> class_next suf -> exists cch, cch <> 0 /\
  class_loop (S fuel) (St (pre ++ b ++ suf) (zlen pre) p) =
    let c := St (pre ++ b ++ suf) (zlen pre + zlen b) (p ++ member_code m) in if peek c =? 93 then Ok (cch, at_i c (c_i c + 1)) else class_loop fuel c.
Proof.
  intros [b' v Hv|b1 lo b2 hi H1 H2] (x & l & -> & Hx); cbn [class_loop].
  - destruct (class_char_read _ _ Hv pre (x :: l) p) as (ch & c1 & -> & H0 & H91 & E). destruct (class_char_bytes _ _ Hv) as [_ Hl]. exists v. split; [apply Hl|]. bind_step.
    rewrite (proj2 (Z.eqb_neq ch 0)), (proj2 (Z.eqb_neq ch 91)) by done. cbn [andb]. rewrite E. bind_step. destruct (shift_pos pre b' (x :: l)) as [-> ->]. rewrite peek_mid, (proj2 (Z.eqb_neq x 45)) by done. bind_step. by rewrite append_small by (by apply scalar_arg).
  - rewrite <- app_assoc. cbn [app]. destruct (class_char_read _ _ H1 pre (45 :: b2 ++ x :: l) p) as (ch & c1 & -> & H0 & H91 & E). destruct (class_char_bytes _ _ H1) as [_ Hl1], (class_char_bytes _ _ H2) as [_ Hl2]. exists hi. split; [apply Hl2|]. bind_step.
    rewrite (proj2 (Z.eqb_neq ch 0)), (proj2 (Z.eqb_neq ch 91)) by done. cbn [andb]. rewrite E. bind_step. destruct (shift_pos pre b1 (45 :: b2 ++ x :: l)) as [-> ->]. rewrite peek_mid. cbn [Z.eqb Pos.eqb].
    rewrite append_small by (by apply scalar_arg). unfold at_i. cbn [c_z c_i c_nocase c_prog c_err]. replace ((pre ++ b1) ++ 45 :: b2 ++ x :: l) with ((pre ++ b1 ++ [45]) ++ b2 ++ x :: l) by assoc.
    replace (zlen (pre ++ b1) + 1) with (zlen (pre ++ b1 ++ [45])) by (by rewrite app_assoc, zlen_snoc). destruct (class_char_read _ _ H2 (pre ++ b1 ++ [45]) (x :: l) (p ++ [(RE_OP_CC_RANGE, lo)])) as (ch2 & c2 & -> & _ & _ & E2). bind_step. rewrite E2. do 2 bind_step.
    rewrite append_small by (by apply scalar_arg). cbn [member_code]. rewrite <- !app_assoc. cbn [app]. replace (zlen (pre ++ b1 ++ [45]) + zlen b2) with (zlen pre + zlen (b1 ++ 45 :: b2)) by (rewrite !zlen_app, !zlen_cons, zlen_nil; lia). done.
Qed.

Lemma class_loop_members bs ms : members_of bs ms -> forall pre suf p fuel, (length bs <= fuel)%nat -> exists cch, cch <> 0 /\
  class_loop fuel (St (pre ++ bs ++ 93 :: suf) (zlen pre) p) = Ok (cch, St (pre ++ bs ++ 93 :: suf) (zlen pre + zlen bs + 1) (p ++ members_code ms)).
Proof.
  induction 1 as [b m Hm|b m bs ms Hm Hms IH]; intros pre suf p fuel Hf; pose proof (member_first _ _ Hm) as (x & l & E & _).
  - destruct fuel as [|fuel]; [rewrite E in Hf; cbn in Hf; lia|]. destruct (member_turn b m pre (93 :: suf) p fuel Hm) as (cch & H0 & ->); [by exists 93, suf|]. exists cch. split; [done|]. cbv zeta. destruct (shift_pos pre b (93 :: suf)) as [-> ->]. rewrite peek_mid. cbn [Z.eqb Pos.eqb].
    unfold at_i, members_code. cbn. by rewrite app_nil_r.
  - destruct (members_first _ _ Hms) as (y & k & Ey & Hy1 & Hy2 & _). rewrite length_app in Hf. destruct fuel as [|fuel]; [rewrite E in Hf; cbn in Hf; lia|]. rewrite <- app_assoc.
    destruct (member_turn b m pre (bs ++ 93 :: suf) p fuel Hm) as (cch & H0 & ->); [exists y, (k ++ 93 :: suf); by rewrite Ey|]. cbv zeta. destruct (shift_pos pre b (bs ++ 93 :: suf)) as [-> ->].
    replace (peek _) with y by (rewrite Ey; cbn [app]; by rewrite peek_mid). rewrite (proj2 (Z.eqb_neq y 93)) by done. destruct (IH (pre ++ b) suf (p ++ member_code m) fuel) as (cch' & H0' & ->); [rewrite E in Hf; cbn in Hf; lia|].
    exists cch'. split; [done|]. unfold members_code. cbn [fmap list_fmap concat]. rewrite <- !app_assoc, !zlen_app. f_equal. f_equal. f_equal. lia.
Qed.

Lemma char_class_compiles (exc : bool) bs ms pre suf p : members_of bs ms -> small (p ++ sym_code (Class exc ms)) ->
  let z := pre ++ (if exc then [94] else []) ++ bs ++ 93 :: suf in
  char_class (St z (zlen pre) p) = Ok (St z (zlen pre + zlen (if exc then [94] else []) + zlen bs + 1) (p ++ sym_code (Class exc ms))).
Proof.
  intros Hm Hs z. pose proof (members_first _ _ Hm) as (x & l & Ex & _ & _ & Hx). unfold char_class. pose proof (zlen_nonneg p). pose proof (zlen_nonneg (members_code ms)).
  assert (zlen (members_code ms) + 1 < 2 ^ 31) as Hlen. { unfold small in Hs. cbn [sym_code] in Hs. rewrite zlen_app, zlen_cons in Hs. lia. }
  set (op := if exc then RE_OP_CC_EXC else RE_OP_CC_INC). set (neg := if exc then [94] else []).
  assert ((if peek (St z (zlen pre) p) =? 94 then at_i (re_append (St z (zlen pre) p) RE_OP_CC_EXC 0) (c_i (St z (zlen pre) p) + 1) else re_append (St z (zlen pre) p) RE_OP_CC_INC 0) = St ((pre ++ neg) ++ bs ++ 93 :: suf) (zlen (pre ++ neg)) (p ++ [(op, 0)])) as ->.
  { unfold z, neg, op. destruct exc; cbn [app].
    - rewrite peek_mid. cbn [Z.eqb Pos.eqb]. rewrite append_small by lia. unfold at_i. cbn. by rewrite <- app_assoc, zlen_snoc.
    - rewrite Ex at 1. cbn [app]. rewrite peek_mid, (proj2 (Z.eqb_neq x 94)) by done. rewrite append_small by lia. by rewrite app_nil_r. }
  destruct (class_loop_members bs ms Hm (pre ++ neg) suf (p ++ [(op, 0)]) (S (length ((pre ++ neg) ++ bs ++ 93 :: suf)))) as (cch & Hcch & E).
  { rewrite !length_app. lia. }
  cbn [c_z]. rewrite E. bind_step. rewrite (proj2 (Z.eqb_neq cch 0)) by done. unfold n_state. cbn [c_prog]. rewrite !zlen_app. change (zlen [(op, 0)]) with 1. destruct (Z.ltb_spec (zlen p) (zlen p + 1 + zlen (members_code ms))); [|lia].
  unfold set_arg. cbn [c_prog]. rewrite <- app_assoc. cbn [app]. rewrite idx_prog. bind_step. rewrite set_idx_Ok by (rewrite zlen_app, zlen_cons; lia). bind_step. unfold with_prog. cbn [c_z c_i c_nocase c_err fst].
  rewrite arg32_small by lia. replace (Z.to_nat (zlen p)) with (length p) by (unfold zlen; lia). rewrite insert_app_r_alt, Nat.sub_diag by lia. cbn. unfold z. rewrite <- app_assoc. fold neg. f_equal. f_equal. f_equal. f_equal. unfold op. f_equal. lia.
Qed.

(** ** Repetitions *)

Section loop.
Context (f : nat).
Local Notation run := (string_loop (subcompile_re f)).

Ltac read_ascii := cbn [string_loop]; rewrite next_char_ascii by lia; bind_step; cbn [Z.eqb Pos.eqb orb]; cbv zeta; unfold n_state; cbn [c_prog].

Lemma state_size (p q : Prog) : zlen (p ++ q) - zlen p = zlen q.
Proof. rewrite zlen_app. lia. Qed.

Lemma run_star F pre suf p C : zlen C + 1 < 2 ^ 31 ->
  run (S F) (St (pre ++ 42 :: suf) (zlen pre) (p ++ C)) (zlen p) = run F (St (pre ++ 42 :: suf) (zlen pre + 1) (p ++ (RE_OP_GOTO, zlen C + 1) :: C ++ [(RE_OP_FORK, - zlen C)])) (zlen (p ++ C)).
Proof.
  intros H. pose proof (zlen_nonneg p). pose proof (zlen_nonneg C). read_ascii. unfold star. rewrite (proj2 (Z.ltb_ge (zlen p) 0)) by lia. unfold n_state. cbn [c_prog]. rewrite state_size, insert_small by lia. do 2 bind_step. cbn [c_prog].
  replace (zlen p - zlen (p ++ (RE_OP_GOTO, zlen C + 1) :: C) + 1) with (- zlen C) by (rewrite zlen_app, zlen_cons; lia). rewrite append_small by lia. f_equal. f_equal. assoc.
Qed.

Lemma run_plus F pre suf p C : zlen C < 2 ^ 31 ->
  run (S F) (St (pre ++ 43 :: suf) (zlen pre) (p ++ C)) (zlen p) = run F (St (pre ++ 43 :: suf) (zlen pre + 1) (p ++ C ++ [(RE_OP_FORK, - zlen C)])) (zlen (p ++ C)).
Proof.
  intros H. pose proof (zlen_nonneg p). pose proof (zlen_nonneg C). read_ascii. unfold plus. rewrite (proj2 (Z.ltb_ge (zlen p) 0)) by lia. bind_step. unfold n_state. cbn [c_prog].
  replace (zlen p - zlen (p ++ C)) with (- zlen C) by (rewrite zlen_app; lia). rewrite append_small by lia. f_equal. f_equal. assoc.
Qed.

Lemma run_question F pre suf p C : zlen C + 1 < 2 ^ 31 ->
  run (S F) (St (pre ++ 63 :: suf) (zlen pre) (p ++ C)) (zlen p) = run F (St (pre ++ 63 :: suf) (zlen pre + 1) (p ++ (RE_OP_FORK, zlen C + 1) :: C)) (zlen (p ++ C)).
Proof.
  intros H. pose proof (zlen_nonneg p). pose proof (zlen_nonneg C). read_ascii. unfold question. rewrite (proj2 (Z.ltb_ge (zlen p) 0)) by lia. unfold n_state. cbn [c_prog]. rewrite state_size, insert_small by lia. by bind_step.
Qed.

(** The digits of a numeral. *)
Lemma fold_digits ds : forall m, Forall (fun d => re_digit_char d = true) ds -> 0 <= m -> m <= fold_left (fun m d => m * 10 + (d - 48)) ds m.
Proof.
  induction ds as [|d ds IH]; intros m Hd Hm; [done|]. apply Forall_cons in Hd as [Hd Hds]. cbn [fold_left]. unfold re_digit_char in Hd. apply andb_true_iff in Hd as [H1%Z.leb_le H2%Z.leb_le]. specialize (IH (m * 10 + (d - 48)) Hds ltac:(lia)). lia.
Qed.

Lemma digits_read p x suf ds : re_digit_char x = false -> forall pre m fuel, Forall (fun d => re_digit_char d = true) ds -> 0 <= m -> fold_left (fun m d => m * 10 + (d - 48)) ds m < 2 ^ 63 -> (length ds <= fuel)%nat ->
  digits fuel (St (pre ++ ds ++ x :: suf) (zlen pre) p) m = Ok (fold_left (fun m d => m * 10 + (d - 48)) ds m, St (pre ++ ds ++ x :: suf) (zlen pre + zlen ds) p).
Proof.
  intros Hx. induction ds as [|d ds IH]; intros pre m fuel Hd Hm Hf Hl; cbn [app fold_left] in *.
  - assert (digits fuel (St (pre ++ x :: suf) (zlen pre) p) m = Ok (m, St (pre ++ x :: suf) (zlen pre) p)) as -> by (destruct fuel; cbn [digits]; by rewrite peek_mid, Hx). by rewrite zlen_nil, Z.add_0_r.
  - apply Forall_cons in Hd as [Hd Hds]. destruct fuel as [|fuel]; [cbn in Hl; lia|]. cbn [digits]. rewrite peek_mid, Hd. assert (0 <= m * 10 + (d - 48)) as H0 by (unfold re_digit_char in Hd; apply andb_true_iff in Hd as [H1%Z.leb_le _]; lia).
    pose proof (fold_digits ds _ Hds H0). destruct (Z.leb_spec (2 ^ 63) (m * 10 + (d - 48))); [lia|]. unfold at_i. cbn [c_z c_i c_nocase c_prog c_err].
    replace (pre ++ d :: ds ++ x :: suf) with ((pre ++ [d]) ++ ds ++ x :: suf) by assoc. rewrite <- (zlen_snoc pre d). rewrite IH by (try done; cbn in Hl; lia). rewrite zlen_snoc, zlen_cons. by replace (zlen pre + (zlen ds + 1)) with (zlen pre + 1 + zlen ds) by lia.
Qed.

Lemma numeral_read p x suf ds m pre fuel : re_digit_char x = false -> numeral ds m -> (length ds <= fuel)%nat ->
  digits fuel (St (pre ++ ds ++ x :: suf) (zlen pre) p) 0 = Ok (m, St (pre ++ ds ++ x :: suf) (zlen pre + zlen ds) p).
Proof. intros Hx (Hd & <- & Hm) Hl. by apply digits_read. Qed.

Lemma numeral_nonneg ds m : numeral ds m -> 0 <= m.
Proof. intros (Hd & <- & _). by apply fold_digits. Qed.

(** After the counts [m] and [n] have been read. *)
Lemma braces_copies z i p C m n : 0 <= m < 2 ^ 63 -> zlen C + 1 < 2 ^ 31 -> (1 <= m /\ (n = 0 \/ m <= n)) \/ (m = 0 /\ 1 <= n) ->
  (if m =? 0 then
     if n =? 0 then Err (EError "both m and n are zero in '{m,n}'")
     else let* c := re_insert (St z i (p ++ C)) (zlen p) RE_OP_FORK (zlen C + 1) in optional_copies (Z.to_nat (n - 1)) c (zlen p + 1) (zlen C)
   else
     let* c := copies (Z.to_nat (m - 1)) (St z i (p ++ C)) (zlen p) (zlen C) in
     let* c := optional_copies (Z.to_nat (n - m)) c (zlen p) (zlen C) in
     Ok (if n =? 0 then re_append c RE_OP_FORK (- zlen C) else c))
  = Ok (St z i (p ++ if n =? 0 then times (Z.to_nat (m - 1)) C ++ C ++ [(RE_OP_FORK, - zlen C)] else times (Z.to_nat m) C ++ times (Z.to_nat (n - m)) ((RE_OP_FORK, zlen C + 1) :: C))).
Proof.
  intros Hm HC Hmn. pose proof (zlen_nonneg C). destruct (Z.eqb_spec m 0) as [->|Hm0].
  - destruct Hmn as [|[_ Hn]]; [lia|]. rewrite (proj2 (Z.eqb_neq n 0)) by lia. rewrite insert_small by lia. bind_step. replace (p ++ (RE_OP_FORK, zlen C + 1) :: C) with ((p ++ [(RE_OP_FORK, zlen C + 1)]) ++ C ++ []) by (rewrite app_nil_r; assoc).
    rewrite <- (zlen_snoc p (RE_OP_FORK, zlen C + 1)). rewrite optional_block by lia. replace (Z.to_nat (n - 0)) with (S (Z.to_nat (n - 1))) by lia. cbn [Z.to_nat times]. do 2 f_equal. assoc.
  - destruct Hmn as [[_ Hn]|]; [|lia]. replace (p ++ C) with (p ++ C ++ []) by (by rewrite app_nil_r). rewrite copies_block. bind_step. cbn [app]. rewrite optional_block by lia. bind_step.
    assert (C ++ times (Z.to_nat (m - 1)) C = times (Z.to_nat m) C) as Et by (by replace (Z.to_nat m) with (S (Z.to_nat (m - 1))) by lia). destruct (Z.eqb_spec n 0) as [->|Hn0].
    + replace (Z.to_nat (0 - m)) with 0%nat by lia. cbn [times]. rewrite app_nil_r, append_small by lia. rewrite times_snoc. do 2 f_equal. assoc.
    + do 2 f_equal. rewrite <- Et. assoc.
Qed.

(** Braces with the counts [m] and [n], [n = m] when there is only one. *)
Lemma run_braces F pre ds ds2 suf p C m n : numeral ds m -> (ds2 = [] /\ n = m \/ exists ds', ds2 = 44 :: ds' /\ numeral ds' n) -> zlen C + 1 < 2 ^ 31 -> (1 <= m /\ (n = 0 \/ m <= n)) \/ (m = 0 /\ 1 <= n) ->
  let z := pre ++ 123 :: ds ++ ds2 ++ 125 :: suf in
  run (S F) (St z (zlen pre) (p ++ C)) (zlen p) = run F (St z (zlen pre + 1 + zlen ds + zlen ds2 + 1)
    (p ++ if n =? 0 then times (Z.to_nat (m - 1)) C ++ C ++ [(RE_OP_FORK, - zlen C)] else times (Z.to_nat m) C ++ times (Z.to_nat (n - m)) ((RE_OP_FORK, zlen C + 1) :: C))) (zlen (p ++ C)).
Proof.
  intros Hd Hd2 HC Hmn z. pose proof (zlen_nonneg p). pose proof (numeral_nonneg _ _ Hd) as Hm0. pose proof (proj2 (proj2 Hd)) as Hm. unfold z. read_ascii. unfold braces. rewrite (proj2 (Z.ltb_ge (zlen p) 0)) by lia.
  replace (pre ++ 123 :: ds ++ ds2 ++ 125 :: suf) with ((pre ++ [123]) ++ ds ++ ds2 ++ 125 :: suf) by assoc. rewrite <- (zlen_snoc pre 123). set (pre1 := pre ++ [123]).
  set (z1 := pre1 ++ ds ++ ds2 ++ 125 :: suf). set (c2 := St z1 (zlen (pre1 ++ ds ++ ds2)) (p ++ C)).
  assert ((let* (m, c) := digits (length (c_z (St z1 (zlen pre1) (p ++ C)))) (St z1 (zlen pre1) (p ++ C)) 0 in
           let* (n, c) := if peek c =? 44 then digits (length (c_z c)) (at_i c (c_i c + 1)) 0 else Ok (m, c) in Ok (m, (n, c))) = Ok (m, (n, c2))) as E.
  { assert (length ds <= length z1)%nat as Hl1 by (unfold z1; rewrite !length_app; lia). destruct Hd2 as [[-> ->]|(ds' & -> & Hd')].
    - unfold z1, c2. cbn [app c_z]. rewrite (numeral_read _ _ _ _ m) by done. bind_step. destruct (shift_pos pre1 ds (125 :: suf)) as [-> ->]. rewrite peek_mid. cbn [Z.eqb Pos.eqb]. bind_step. do 3 f_equal. apply St_eq; [unfold z1; assoc|by rewrite app_nil_r|done].
    - unfold z1, c2. cbn [app c_z]. rewrite (numeral_read _ _ _ _ m) by done. bind_step. destruct (shift_pos pre1 ds (44 :: ds' ++ 125 :: suf)) as [-> ->]. rewrite peek_mid. cbn [Z.eqb Pos.eqb c_z c_i]. unfold at_i. cbn [c_z c_i c_nocase c_prog c_err].
      replace ((pre1 ++ ds) ++ 44 :: ds' ++ 125 :: suf) with ((pre1 ++ ds ++ [44]) ++ ds' ++ 125 :: suf) by assoc. replace (zlen (pre1 ++ ds) + 1) with (zlen (pre1 ++ ds ++ [44])) by (by rewrite app_assoc, zlen_snoc).
      rewrite (numeral_read _ _ _ _ n) by (done || rewrite !length_app; lia). bind_step. do 3 f_equal. apply St_eq; [unfold z1; assoc|rewrite <- zlen_app; f_equal; assoc|done]. }
  destruct (digits (length (c_z (St z1 (zlen pre1) (p ++ C)))) (St z1 (zlen pre1) (p ++ C)) 0) as [[m' c']| |]; [|done|done]. rewrite bind_Ok in E. bind_step. cbv beta iota in E |- *.
  destruct (if peek c' =? 44 then _ else _) as [[n' c'']| |]; [|done|done]. rewrite bind_Ok in E. bind_step. injection E as -> -> ->. cbv beta iota.
  assert (peek c2 = 125) as ->. { unfold c2, z1. replace (pre1 ++ ds ++ ds2 ++ 125 :: suf) with ((pre1 ++ ds ++ ds2) ++ 125 :: suf) by assoc. apply peek_mid. }
  cbn [Z.eqb Pos.eqb negb]. assert ((0 <? n) && (n <? m) = false) as ->. { destruct (Z.ltb_spec 0 n), (Z.ltb_spec n m); try done. lia. }
  unfold at_i, n_state, c2. cbn [c_z c_i c_nocase c_prog c_err]. rewrite state_size, braces_copies by (done || lia). bind_step. f_equal. apply St_eq; [done|rewrite !zlen_app; lia|done].
Qed.

(** ** Atoms, items, sequences *)

Definition no_star (suf : bytes) : Prop := match suf with x :: _ => x <> 42 | [] => True end.

Definition stop (suf : bytes) : Prop := match suf with x :: _ => x = 124 \/ x = 41 | [] => True end.

(** From before [b] to behind it, in one turn of the loop or in at most as
    many as it has bytes. *)
Definition turn (b : bytes) (r : re) : Prop := forall pre suf p ip F, (b = [46] -> no_star suf) -> small (p ++ code r) ->
  run (S F) (St (pre ++ b ++ suf) (zlen pre) p) ip = run F (St (pre ++ b ++ suf) (zlen pre + zlen b) (p ++ code r)) (zlen p).

Definition turns (b : bytes) (r : re) : Prop := forall pre suf p ip, no_star suf -> small (p ++ code r) ->
  exists k ip', (k <= length b)%nat /\ forall F, run (k + F) (St (pre ++ b ++ suf) (zlen pre) p) ip = run F (St (pre ++ b ++ suf) (zlen pre + zlen b) (p ++ code r)) ip'.

Lemma not_special c : c ∉ metachars -> forall x, x ∈ metachars -> (c =? x) = false.
Proof using. intros Hc x Hx. apply Z.eqb_neq. by intros ->. Qed.

Lemma turn_chr c : letter c -> c ∉ metachars -> turn (Pattern.encode_utf8 c) (Sym (Chr c)).
Proof.
  intros [Hs Hc] Hm pre suf p ip F _ Hsm. cbn [string_loop]. rewrite next_char_mid by done. bind_step. rewrite (proj2 (Z.eqb_neq c 0)) by done. pose proof (not_special c Hm) as Hn. cbv zeta.
  rewrite !Hn by (unfold metachars; set_solver). cbn [orb]. bind_step. cbn [code sym_code]. rewrite append_small by (by apply scalar_arg). done.
Qed.

Lemma turn_any : turn [46] (Sym AnyChar).
Proof.
  intros pre suf p ip F Hns Hsm. cbn [app]. read_ascii. specialize (Hns eq_refl). assert (peek (St (pre ++ 46 :: suf) (zlen pre + 1) p) =? 42 = false) as ->.
  { apply Z.eqb_neq. rewrite <- (zlen_snoc pre 46). replace (pre ++ 46 :: suf) with ((pre ++ [46]) ++ suf) by assoc. destruct suf as [|x suf]; [by rewrite app_nil_r, peek_end|by rewrite peek_mid]. }
  rewrite append_small by lia. by bind_step.
Qed.

(** The byte after a backslash. *)
Lemma turn_backslash b r : (forall pre suf p, small (p ++ code r) -> backslash (St (pre ++ 92 :: b ++ suf) (zlen (pre ++ [92])) p) = Ok (St (pre ++ 92 :: b ++ suf) (zlen (pre ++ [92]) + zlen b) (p ++ code r))) -> turn (92 :: b) r.
Proof.
  intros H pre suf p ip F _ Hsm. cbn [app]. read_ascii. rewrite <- (zlen_snoc pre 92), H by done. bind_step. rewrite zlen_snoc, zlen_cons. f_equal. apply St_eq; [done|lia|done].
Qed.

Lemma special_none e : special_op e = None -> forall pre suf p, special_op (peek (St (pre ++ e :: suf) (zlen pre) p)) = None.
Proof using. intros H pre suf p. by rewrite peek_mid. Qed.

Lemma turn_esc e v : find_esc e ZESC ZTRANS = Some v -> turn [92; e] (Sym (Chr v)).
Proof.
  intros He. destruct (find_esc_values _ _ He) as (Hv & _ & _ & _ & Hsp). apply turn_backslash. intros pre suf p Hsm. cbn [app]. unfold backslash. replace (pre ++ 92 :: e :: suf) with ((pre ++ [92]) ++ e :: suf) by assoc.
  rewrite (special_none e Hsp), (esc_char_mid _ _ _ _ _ He). bind_step. rewrite append_small by (by apply scalar_arg). done.
Qed.

Lemma turn_hex h1 h2 v1 v : re_hex h1 0 = Some v1 -> re_hex h2 v1 = Some v -> turn [92; 120; h1; h2] (Sym (Chr v)).
Proof.
  intros H1 H2. apply turn_backslash. intros pre suf p Hsm. cbn [app]. unfold backslash. replace (pre ++ 92 :: 120 :: h1 :: h2 :: suf) with ((pre ++ [92]) ++ 120 :: h1 :: h2 :: suf) by assoc.
  rewrite special_none by done. rewrite (esc_char_hex _ _ _ v1 v) by done. bind_step. pose proof (hex_range _ _ _ H1 ltac:(lia)). pose proof (hex_range _ _ _ H2 ltac:(lia)). rewrite append_small by lia. done.
Qed.

Lemma turn_special e s : special_sym e = Some s -> turn [92; e] (Sym s).
Proof.
  intros Hs. destruct (special_sym_op _ _ Hs) as (_ & _ & op & Hop & Hc). apply turn_backslash. intros pre suf p Hsm. cbn [app]. unfold backslash. replace (pre ++ 92 :: e :: suf) with ((pre ++ [92]) ++ e :: suf) by assoc.
  rewrite peek_mid, Hop. cbn [code]. rewrite Hc. unfold at_i. cbn [c_z c_i c_nocase c_prog c_err]. by rewrite append_small by lia.
Qed.

Lemma turn_class (exc : bool) bs ms : members_of bs ms -> turn (91 :: (if exc then [94] else []) ++ bs ++ [93]) (Sym (Class exc ms)).
Proof.
  intros Hm pre suf p ip F _ Hsm. set (neg := if exc then [94] else []). cbn [app]. read_ascii. rewrite <- (zlen_snoc pre 91).
  replace (pre ++ 91 :: (neg ++ bs ++ [93]) ++ suf) with ((pre ++ [91]) ++ neg ++ bs ++ 93 :: suf) by assoc. unfold neg. rewrite (char_class_compiles exc bs ms) by done. bind_step. fold neg. f_equal. apply St_eq; [done| |done].
  rewrite !zlen_cons, !zlen_app, !zlen_cons, !zlen_nil. lia.
Qed.

Lemma turn_group s r : (forall pre suf p, small (p ++ code r) -> subcompile_re f (St (pre ++ s ++ 41 :: suf) (zlen pre) p) = Ok (St (pre ++ s ++ 41 :: suf) (zlen pre + zlen s) (p ++ code r))) -> turn (40 :: s ++ [41]) r.
Proof.
  intros H pre suf p ip F _ Hsm. cbn [app]. read_ascii. rewrite <- (zlen_snoc pre 40). replace (pre ++ 40 :: (s ++ [41]) ++ suf) with ((pre ++ [40]) ++ s ++ 41 :: suf) by assoc. rewrite H by done. bind_step.
  destruct (shift_pos (pre ++ [40]) s (41 :: suf)) as [-> ->]. rewrite peek_mid. cbn [Z.eqb Pos.eqb negb]. bind_step. unfold at_i. cbn [c_z c_i c_nocase c_prog c_err]. f_equal. apply St_eq; [done| |done].
  rewrite !zlen_cons, !zlen_app, !zlen_cons, !zlen_nil. lia.
Qed.

Lemma turns_atom b r : b <> [] -> turn b r -> turns b r.
Proof. intros Hb H pre suf p ip Hns Hsm. exists 1%nat, (zlen p). split; [destruct b; [done|cbn; lia]|]. intros F. apply (H pre suf p ip F); [by intros _|done]. Qed.

Lemma turns_dots : turns [46; 42] AnyStar.
Proof.
  intros pre suf p ip Hns Hsm. exists 1%nat, (zlen p). split; [cbn; lia|]. intros F. cbn [Nat.add app]. read_ascii. rewrite <- (zlen_snoc pre 46). replace (pre ++ 46 :: 42 :: suf) with ((pre ++ [46]) ++ 42 :: suf) by assoc. rewrite peek_mid. cbn [Z.eqb Pos.eqb].
  rewrite append_small by lia. bind_step. unfold at_i. cbn [c_z c_i c_nocase c_prog c_err code]. f_equal. apply St_eq; [done| |done]. rewrite zlen_snoc. unfold zlen. cbn. lia.
Qed.

(** An atom followed by a repetition [q], which replaces its code. *)
Lemma turns_quantified b q r r' : b <> [] -> turn b r -> q <> [] -> hd 0 q <> 42 \/ b <> [46] -> (forall p, small (p ++ code r') -> small (p ++ code r)) ->
  (forall pre suf p F, small (p ++ code r') -> run (S F) (St (pre ++ q ++ suf) (zlen pre) (p ++ code r)) (zlen p) = run F (St (pre ++ q ++ suf) (zlen pre + zlen q) (p ++ code r')) (zlen (p ++ code r))) ->
  turns (b ++ q) r'.
Proof.
  intros Hb Ht Hq Hqb Hsz H pre suf p ip _ Hsm. exists 2%nat, (zlen (p ++ code r)). split; [rewrite length_app; destruct b, q; [done..|cbn; lia]|]. intros F. cbn [Nat.add]. rewrite <- app_assoc.
  rewrite (Ht pre (q ++ suf) p ip (S F)); [|intros ->; destruct Hqb as [Hqb|]; [|done]; by destruct q|by apply Hsz]. destruct (shift_pos pre b (q ++ suf)) as [-> ->]. rewrite H by done. f_equal. apply St_eq; [done|rewrite !zlen_app; lia|done].
Qed.

Lemma small_sub p C D : zlen C <= zlen D -> small (p ++ D) -> small (p ++ C).
Proof using. unfold small. rewrite !zlen_app. lia. Qed.

Lemma turns_star b r : b <> [] -> turn b r -> b <> [46] -> turns (b ++ [42]) (Star r).
Proof.
  intros Hb Ht Hd. apply (turns_quantified b [42] r); try done; [by right| |]; cbn [code].
  - intros p. apply small_sub. rewrite zlen_cons, zlen_snoc. lia.
  - intros pre suf p F [_ Hsm]%small_app. rewrite zlen_cons, zlen_snoc in Hsm. cbn [app]. rewrite run_star by lia. done.
Qed.

Lemma turns_plus b r : b <> [] -> turn b r -> turns (b ++ [43]) (Plus r).
Proof.
  intros Hb Ht. apply (turns_quantified b [43] r); try done; [by left| |]; cbn [code].
  - intros p. apply small_sub. rewrite zlen_snoc. lia.
  - intros pre suf p F [_ Hsm]%small_app. rewrite zlen_snoc in Hsm. cbn [app]. rewrite run_plus by lia. done.
Qed.

Lemma turns_opt b r : b <> [] -> turn b r -> turns (b ++ [63]) (Opt r).
Proof.
  intros Hb Ht. apply (turns_quantified b [63] r); try done; [by left| |]; cbn [code].
  - intros p. apply small_sub. rewrite zlen_cons. lia.
  - intros pre suf p F [_ Hsm]%small_app. rewrite zlen_cons in Hsm. cbn [app]. rewrite run_question by lia. done.
Qed.

Lemma times_zlen k C : zlen (times k C) = Z.of_nat k * zlen C.
Proof using. induction k as [|k IH]; [done|]. cbn [times]. rewrite zlen_app, IH. lia. Qed.

(** The code that braces leave of the operand's. *)
Definition braced (C : Prog) (m n : Z) : Prog :=
  if n =? 0 then times (Z.to_nat (m - 1)) C ++ C ++ [(RE_OP_FORK, - zlen C)] else times (Z.to_nat m) C ++ times (Z.to_nat (n - m)) ((RE_OP_FORK, zlen C + 1) :: C).

Lemma braced_size C m n : (1 <= m /\ (n = 0 \/ m <= n)) \/ (m = 0 /\ 1 <= n) -> zlen C <= zlen (braced C m n).
Proof using.
  intros H. pose proof (zlen_nonneg C). unfold braced. destruct (Z.eqb_spec n 0); rewrite !zlen_app, !times_zlen; [rewrite zlen_cons, zlen_nil; nia|]. rewrite zlen_cons. destruct H; nia.
Qed.

Lemma turns_braces b ds ds2 r r' m n : b <> [] -> turn b r -> numeral ds m -> (ds2 = [] /\ n = m \/ exists ds', ds2 = 44 :: ds' /\ numeral ds' n) -> (1 <= m /\ (n = 0 \/ m <= n)) \/ (m = 0 /\ 1 <= n) ->
  code r' = braced (code r) m n -> turns (b ++ 123 :: ds ++ ds2 ++ [125]) r'.
Proof.
  intros Hb Ht Hd Hd2 Hmn Hc. pose proof (braced_size (code r) m n Hmn) as Hsz. rewrite <- Hc in Hsz. apply (turns_quantified b _ r); try done; [by left| |].
  - intros p. by apply small_sub.
  - intros pre suf p F [_ Hsm]%small_app. replace (pre ++ (123 :: ds ++ ds2 ++ [125]) ++ suf) with (pre ++ 123 :: ds ++ ds2 ++ 125 :: suf) by assoc. rewrite (run_braces F pre ds ds2 suf p (code r) m n) by (done || lia).
    rewrite Hc. f_equal. apply St_eq; [done| |done]. rewrite zlen_cons, !zlen_app, zlen_cons, zlen_nil. lia.
Qed.

Lemma turns_nil : turns [] Emp.
Proof. intros pre suf p ip _ _. exists 0%nat, ip. split; [done|]. intros F. cbn [code app]. by rewrite zlen_nil, Z.add_0_r, app_nil_r. Qed.

Lemma turns_cons b r s q : turns b r -> turns s q -> first_ok s -> turns (b ++ s) (Seq r q).
Proof.
  intros Hb Hs Hf pre suf p ip Hns Hsm. cbn [code] in *. rewrite app_assoc in Hsm. destruct (small_app _ _ Hsm) as [Hsm' _]. destruct (Hb pre (s ++ suf) p ip) as (k & ip' & Hk & E); [destruct s; [done|apply Hf]|done|].
  destruct (Hs (pre ++ b) suf (p ++ code r) ip' Hns Hsm) as (k' & ip'' & Hk' & E'). exists (k + k')%nat, ip''. split; [rewrite length_app; lia|]. intros F. rewrite <- app_assoc, <- Nat.add_assoc, E.
  destruct (shift_pos pre b (s ++ suf)) as [-> ->]. rewrite E'. f_equal. apply St_eq; [done|rewrite !zlen_app; lia|assoc].
Qed.

(** A sequence up to the end of the string. *)
Lemma run_string s r pre suf p ip F : turns s r -> stop suf -> small (p ++ code r) -> (length s < F)%nat ->
  run F (St (pre ++ s ++ suf) (zlen pre) p) ip = Ok (St (pre ++ s ++ suf) (zlen pre + zlen s) (p ++ code r)).
Proof.
  intros Hs Hst Hsm HF. destruct (Hs pre suf p ip) as (k & ip' & Hk & E); [destruct suf as [|x suf]; [done|destruct Hst as [-> | ->]; done]|done|]. replace F with (k + S (F - k - 1))%nat by lia. rewrite E. clear E.
  destruct (shift_pos pre s suf) as [-> ->]. cbn [string_loop]. destruct suf as [|x suf].
  - rewrite app_nil_r, next_char_end. by bind_step.
  - destruct Hst as [-> | ->]; rewrite next_char_ascii by lia; bind_step; cbn [Z.eqb Pos.eqb orb]; unfold at_i; cbn [c_z c_i c_nocase c_prog c_err]; do 2 f_equal; lia.
Qed.

(** ** Alternatives *)

Definition string_of (c : Compiler) : res Compiler := run (S (length (c_z c))) c (-1).

(** The first alternative is compiled, and the loop gets to the end of [s]. *)
Definition alternatives (s : bytes) (r : re) : Prop := forall pre suf p, stop suf -> small (p ++ code r) ->
  let z := pre ++ s ++ suf in
  exists c1 k, string_of (St z (zlen pre) p) = Ok c1 /\ c_z c1 = z /\ (k <= length s)%nat /\
    forall G, alt_loop string_of (k + G) c1 (zlen p) = alt_loop string_of G (St z (zlen pre + zlen s) (p ++ code r)) (zlen p).

Lemma alternatives_one s r : turns s r -> alternatives s r.
Proof.
  intros Hs pre suf p Hst Hsm z. exists (St z (zlen pre + zlen s) (p ++ code r)), 0%nat. split; [|split; [done|split; [lia|done]]]. unfold string_of. cbn [c_z]. apply run_string; try done. unfold z. rewrite !length_app. lia.
Qed.

Lemma alternatives_or s r b q : alternatives s r -> turns b q -> alternatives (s ++ 124 :: b) (Alt r q).
Proof.
  intros Ha Hb pre suf p Hst Hsm z. cbn [code] in Hsm. destruct (small_app _ _ Hsm) as [_ Hl]. rewrite zlen_cons, zlen_app, zlen_cons in Hl. pose proof (zlen_nonneg (code r)). pose proof (zlen_nonneg (code q)).
  assert (z = pre ++ s ++ 124 :: b ++ suf) as Ez by (unfold z; assoc). destruct (Ha pre (124 :: b ++ suf) p) as (c1 & k & E1 & Hz & Hk & E); [by left| |].
  { apply (small_sub _ _ _) with (2 := Hsm). rewrite zlen_cons, zlen_app. pose proof (zlen_nonneg ((RE_OP_GOTO, zlen (code q) + 1) :: code q)). lia. }
  rewrite <- Ez in *. exists c1, (k + 1)%nat. split; [done|]. split; [done|]. split; [rewrite length_app; cbn; lia|]. intros G. rewrite <- Nat.add_assoc, E.
  set (pre2 := pre ++ s). replace (St z (zlen pre + zlen s) (p ++ code r)) with (St (pre2 ++ 124 :: b ++ suf) (zlen pre2) (p ++ code r)) by (apply St_eq; [rewrite Ez; unfold pre2; assoc|apply zlen_app|done]). cbn [Nat.add alt_loop]. rewrite peek_mid. cbn [Z.eqb Pos.eqb].
  cbv zeta. unfold n_state at 1. cbn [c_prog]. replace (zlen (p ++ code r) + 2 - zlen p) with (zlen (code r) + 2) by (rewrite zlen_app; lia). rewrite insert_small by lia. bind_step. cbv zeta. rewrite append_small by lia. unfold at_i, n_state at 1. cbn [c_z c_i c_nocase c_prog c_err].
  set (p1 := p ++ (RE_OP_FORK, zlen (code r) + 2) :: code r). rewrite <- (zlen_snoc pre2 124). replace (pre2 ++ 124 :: b ++ suf) with ((pre2 ++ [124]) ++ b ++ suf) by assoc.
  assert (string_of (St ((pre2 ++ [124]) ++ b ++ suf) (zlen (pre2 ++ [124])) (p1 ++ [(RE_OP_GOTO, 0)])) = Ok (St ((pre2 ++ [124]) ++ b ++ suf) (zlen (pre2 ++ [124]) + zlen b) ((p1 ++ [(RE_OP_GOTO, 0)]) ++ code q))) as ->.
  { unfold string_of. cbn [c_z]. apply run_string; try done; [|rewrite !length_app; lia]. unfold small in *. unfold p1. rewrite !zlen_app, !zlen_cons, !zlen_app, !zlen_cons in *. rewrite ?zlen_nil. lia. }
  bind_step. unfold set_arg, n_state. cbn [c_prog]. rewrite <- app_assoc. cbn [app]. rewrite idx_prog. bind_step. rewrite set_idx_Ok by (pose proof (zlen_nonneg p1); rewrite zlen_app, zlen_cons; lia). bind_step. unfold with_prog. cbn [c_z c_i c_nocase c_err fst].
  replace (zlen (p1 ++ (RE_OP_GOTO, 0) :: code q) - zlen p1) with (zlen (code q) + 1) by (rewrite zlen_app, zlen_cons; lia). rewrite arg32_small by lia. replace (Z.to_nat (zlen p1)) with (length p1) by (unfold zlen; lia). rewrite insert_app_r_alt, Nat.sub_diag by lia. cbn [list_insert insert].
  bind_step. f_equal. apply St_eq; [unfold z, pre2; assoc|unfold pre2; rewrite !zlen_app, !zlen_cons, !zlen_nil; lia|unfold p1; cbn [code]; assoc].
Qed.

Lemma alternatives_compile s r pre suf p : alternatives s r -> suf = [] \/ (exists l, suf = 41 :: l) -> small (p ++ code r) ->
  subcompile_re (S f) (St (pre ++ s ++ suf) (zlen pre) p) = Ok (St (pre ++ s ++ suf) (zlen pre + zlen s) (p ++ code r)).
Proof.
  intros Ha Hsuf Hsm. destruct (Ha pre suf p) as (c1 & k & E1 & Hz & Hk & E); [destruct Hsuf as [->|(l & ->)]; [done|by right]|done|]. cbn [subcompile_re]. cbv zeta. fold string_of. unfold string_of in E1 at 1. rewrite E1. bind_step. unfold n_state. cbn [c_prog]. rewrite Hz.
  replace (length (pre ++ s ++ suf)) with (k + (length (pre ++ s ++ suf) - k))%nat by (rewrite !length_app in *; lia). rewrite E. destruct (_ - k)%nat eqn:EG; cbn [alt_loop];
    (assert (peek (St (pre ++ s ++ suf) (zlen pre + zlen s) (p ++ code r)) =? 124 = false) as ->; [|done]; destruct (shift_pos pre s suf) as [-> ->]; destruct Hsuf as [->|(l & ->)]; [by rewrite app_nil_r, peek_end|by rewrite peek_mid]).
Qed.

End loop.

(** ** All patterns *)

Lemma group_compiles f s r : (forall f, (length s <= f)%nat -> alternatives f s r) -> (length s < f)%nat -> forall pre suf p, small (p ++ code r) ->
  subcompile_re f (St (pre ++ s ++ 41 :: suf) (zlen pre) p) = Ok (St (pre ++ s ++ 41 :: suf) (zlen pre + zlen s) (p ++ code r)).
Proof.
  intros Ha Hf pre suf p Hsm. destruct f as [|f]; [lia|]. apply alternatives_compile; [apply Ha; lia|right; by exists suf|done].
Qed.

Lemma pattern_compiles : (forall b r, atom_of b r -> forall f, (length b <= f)%nat -> turn f b r) /\ (forall b r, item_of b r -> forall f, (length b <= f)%nat -> turns f b r) /\
  (forall s r, seq_of s r -> forall f, (length s <= f)%nat -> turns f s r) /\ (forall s r, alt_of s r -> forall f, (length s <= f)%nat -> alternatives f s r).
Proof.
  destruct pattern_facts as (Fa & Fi & Fs & Fal). apply pattern_mut.
  - intros c Hc Hm f _. by apply turn_chr.
  - intros f _. apply turn_any.
  - intros e v He f _. by apply turn_esc.
  - intros h1 h2 v1 v H1 H2 _ f _. by apply (turn_hex _ _ _ v1).
  - intros e s Hs f _. by apply turn_special.
  - intros exc bs ms Hm f _. by apply turn_class.
  - intros s r _ IH f Hf. apply turn_group. apply group_compiles; [done|]. cbn in Hf. rewrite length_app in Hf. cbn in Hf. lia.
  - intros b r Ha IH f Hf. apply turns_atom; [apply (Fa b r Ha)|by apply IH].
  - intros f _. apply turns_dots.
  - intros b r Ha IH Hd f Hf. rewrite length_app in Hf. apply turns_star; [apply (Fa b r Ha)|apply IH; lia|done].
  - intros b r Ha IH f Hf. rewrite length_app in Hf. apply turns_plus; [apply (Fa b r Ha)|apply IH; lia].
  - intros b r Ha IH f Hf. rewrite length_app in Hf. apply turns_opt; [apply (Fa b r Ha)|apply IH; lia].
  - intros b r ds m Ha IH Hd Hm f Hf. rewrite length_app in Hf. apply (turns_braces f b ds [] r _ m m); [apply (Fa b r Ha)|apply IH; lia|done|by left|lia|].
    unfold braced. rewrite (proj2 (Z.eqb_neq m 0)) by lia. cbn [code]. rewrite power_code, opts_code. by rewrite Z.sub_diag.
  - intros b r ds m Ha IH Hd Hm f Hf. rewrite length_app in Hf. apply (turns_braces f b ds [44] r _ m 0); [apply (Fa b r Ha)|apply IH; lia|done|right; exists []; split; [done|by split; [|split]]|lia|].
    unfold braced. cbn [Z.eqb code]. by rewrite power_code.
  - intros b r ds ds' m n Ha IH Hd Hd' Hn Hmn f Hf. rewrite length_app in Hf. apply (turns_braces f b ds (44 :: ds') r _ m n); [apply (Fa b r Ha)|apply IH; lia|done|right; by exists ds'|lia|].
    unfold braced. rewrite (proj2 (Z.eqb_neq n 0)) by lia. cbn [code]. by rewrite power_code, opts_code.
  - intros f _. apply turns_nil.
  - intros b r s q _ IHb Hs IHs f Hf. rewrite length_app in Hf. apply turns_cons; [apply IHb; lia|apply IHs; lia|apply (Fs s q Hs)].
  - intros s r _ IH f Hf. apply alternatives_one. by apply IH.
  - intros s r b q _ IHs _ IHb f Hf. rewrite length_app in Hf. cbn in Hf. apply alternatives_or; [apply IHs; lia|apply IHb; lia].
Qed.

(** ** Whole patterns *)

Lemma turns_dollar f : turns f [36] (Sym (Chr 0)).
Proof.
  intros pre suf p ip _ Hsm. exists 1%nat, (zlen p). split; [done|]. intros F. cbn [Nat.add app string_loop]. rewrite next_char_ascii by lia. bind_step. cbn [Z.eqb Pos.eqb orb]. cbv zeta. bind_step. unfold RE_EOF. by rewrite append_small by lia.
Qed.

Lemma alternatives_whole s r p0 : alternatives (length s) s r -> small (p0 ++ code r) ->
  subcompile_re (S (length s)) (St s 0 p0) = Ok (St s (zlen s) (p0 ++ code r)).
Proof. intros Ha Hs. pose proof (alternatives_compile (length s) s r [] [] p0 Ha (or_introl eq_refl) Hs) as H. cbn [app] in H. by rewrite app_nil_r in H. Qed.

(** What [compile] does once it has taken off the anchor. *)
Lemma compile_body (st : bool) s r prog : nonzero s -> first_ok s -> alternatives (length s) s r -> prog = code (body st r) ++ [(RE_OP_ACCEPT, 0)] -> zlen prog <= 2 ^ 16 ->
  compile ((if st then [94] else []) ++ s) false = Ok (regex_of prog).
Proof.
  intros Hn Hf Ha Hp Hlen. unfold compile. rewrite c_string_id by (apply Forall_app; split; [destruct st; by repeat constructor|done]). set (p0 := if st then [] else [(RE_OP_ANYSTAR, 0)] : Prog).
  assert ((match (if st then [94] else []) ++ s with 94 :: z => (z, [] : Prog) | _ => ((if st then [94] else []) ++ s, [(RE_OP_ANYSTAR, 0)]) end) = (s, p0)) as ->.
  { unfold p0. destruct st; cbn [app]; [done|]. destruct s as [|x s]; [done|]. destruct Hf as [_ Hx]. repeat (destruct x as [|x|x]; try done). }
  assert (p0 ++ code r = code (body st r)) as Hc by (unfold p0; by destruct st). rewrite (alternatives_whole s r); [|done|unfold small; rewrite Hc; rewrite Hp, zlen_snoc in Hlen; lia].
  bind_step. cbn [c_i]. rewrite Z.ltb_irrefl, Hc. unfold re_append, with_prog. cbn [c_prog c_z c_i c_nocase c_err]. change (arg32 0) with 0. rewrite <- Hp. unfold regex_of, prefix_of. by destruct prog as [|[[] ?] ?].
Qed.

Lemma compile_pattern pat st en r : pattern_of pat st en r -> zlen (program st en r) <= 2 ^ 16 -> compile pat false = Ok (regex_of (program st en r)).
Proof.
  destruct pattern_facts as (_ & _ & Fs & Fal). destruct pattern_compiles as (_ & _ & Cs & Cal). intros [st' p r' Ha|st' p r' Hs] Hlen.
  - destruct (Fal p r' Ha) as (H1 & H2 & _). apply (compile_body st' p r'); try done. by apply Cal.
  - destruct (Fs p r' Hs) as (H1 & H2 & _). apply (compile_body st' (p ++ [36]) (Seq r' (Sym (Chr 0)))); try done.
    + apply nonzero_app; [done|by repeat constructor].
    + destruct p; [done|by apply first_ok_app].
    + apply alternatives_one, turns_cons; [apply (Cs p r' Hs); rewrite length_app; lia|apply turns_dollar|done].
    + unfold program, tail_code, body. destruct st'; cbn [code sym_code]; unfold lit; assoc.
Qed.

(** C24: a pattern matches a text exactly when the text contains a word of the
    language the pattern denotes. For every pattern of the grammar [pattern_of]
    (characters, escapes, classes, groups, alternatives, all repetitions,
    anchors) whose program has at most 65536 opcodes, and every UTF-8 text
    without NUL, [regexp_match] terminates with an answer, never with an error
    or a panic, and the answer is yes exactly when some part of the text is in
    the language: at the start of the text under a leading anchor, up to its
    end under a trailing one. The insertion of jumps in the compiler, the
    simultaneous simulation of all states and the search for the literal prefix
    are all covered. *)
Theorem regexp_match_correct pat st en r cs (Hp : pattern_of pat st en r) (Hcs : Forall letter cs) (Hlen : zlen (program st en r) <= 2 ^ 16) :
  exists b, regexp_match pat (utf8 cs) = Ok b /\
    (b = true <-> exists u v w, cs = u ++ v ++ w /\ L r v /\ (st = true -> u = []) /\ (en = true -> w = [])).
Proof.
  destruct pattern_facts as (_ & _ & Fs & Fal). unfold regexp_match. rewrite (compile_pattern _ _ _ _ Hp Hlen). bind_step. apply matches_found; try done. destruct Hp as [st p r Ha|st p r Hs]; [apply (Fal p r Ha)|apply (Fs p r Hs)].
Qed.

(** [^a(b|[c-e])*$] on [abd]. *)
Definition demo_pattern : bytes := [94; 97; 40; 98; 124; 91; 99; 45; 101; 93; 41; 42; 36].
Definition demo_re : re := Seq (Sym (Chr 97)) (Seq (Star (Alt (Seq (Sym (Chr 98)) Emp) (Seq (Sym (Class false [MRange 99 101])) Emp))) Emp).

Lemma letter_ascii x : 0 < x < 0x80 -> letter x.
Proof. unfold letter, Pattern.is_scalar. lia. Qed.

Lemma demo_denotes : pattern_of demo_pattern true true demo_re.
Proof.
  assert (forall x, 0 < x < 0x80 -> x ∉ metachars -> item_of [x] (Sym (Chr x))) as Hchr.
  { intros x Hx Hm. pose proof (atom_chr x (letter_ascii x Hx) Hm) as H. unfold Pattern.encode_utf8 in H. destruct (Z.ltb_spec x 0x80); [|lia]. by apply item_atom. }
  assert (forall x, 0 < x < 0x80 -> x ∉ class_metachars -> class_char [x] x) as Hcls.
  { intros x Hx Hm. pose proof (cc_plain x (letter_ascii x Hx) Hm) as H. unfold Pattern.encode_utf8 in H. by destruct (Z.ltb_spec x 0x80); [|lia]. }
  apply (pat_end true ([97] ++ ((40 :: ([98] ++ 124 :: (91 :: [] ++ ([99] ++ 45 :: [101]) ++ [93]) ++ []) ++ [41]) ++ [42]) ++ [])).
  apply seq_cons; [apply Hchr; [lia|unfold metachars; set_solver]|]. apply seq_cons; [|apply seq_nil]. apply item_star; [|done]. apply atom_group. apply (alt_or ([98] ++ [])).
  - apply alt_one, seq_cons; [apply Hchr; [lia|unfold metachars; set_solver]|apply seq_nil].
  - apply seq_cons; [|apply seq_nil]. apply item_atom, (atom_class false), mems_one, mem_range; apply Hcls; try lia; unfold class_metachars; set_solver.
Qed.

Lemma regexp_match_correct_witness : exists b, regexp_match demo_pattern (utf8 [97; 98; 100]) = Ok b /\
  (b = true <-> exists u v w, [97; 98; 100] = u ++ v ++ w /\ L demo_re v /\ (true = true -> u = []) /\ (true = true -> w = [])).
Proof.
  apply (regexp_match_correct demo_pattern true true demo_re [97; 98; 100]); [exact demo_denotes|repeat (constructor; [by apply letter_ascii|]); constructor|by vm_compute].
Defined.

Example demo_matches : regexp_match demo_pattern (utf8 [97; 98; 100]) = Ok true /\ regexp_match demo_pattern (utf8 [97; 98; 102]) = Ok false.
Proof. split; vm_compute; reflexivity. Qed.

(** A repetition of a repetition is outside the grammar: the second operator
    takes the last opcode of the first for the start of its operand. So
    [^(ab)*?$], which should match the empty text, does not, and matches [b]. *)
Example stacked_repetition :
  let pat := [94; 40; 97; 98; 41; 42; 63; 36] in regexp_match pat [] = Ok false /\ regexp_match pat [98] = Ok true.
Proof. split; vm_compute; reflexivity. Qed.

End RegexCompile.
