(* ===== verification/RegexSafe.v ===== *)
(** The regular-expression engine on arbitrary bytes: neither the compiler nor
    the matcher can panic or run forever. *)

From S2P Require Import Prelude Regex RegexNfa RegexLang RegexMatch RegexCompile.
Import Regex RegexNfa RegexLang RegexMatch RegexCompile.
Local Open Scope Z_scope.

Module RegexSafe.

(** No nineteen digits in a row: the counts in braces fit in 63 bits. *)
Definition short_counts (z : bytes) : Prop := forall a ds b, z = a ++ ds ++ b -> Forall (fun d => re_digit_char d = true) ds -> (length ds <= 18)%nat.

(** Code small enough for 16-bit states jumps inside itself. *)
Definition okb (q : Prog) : Prop := zlen q < 2 ^ 16 -> block q.

(** ** Reading *)

Lemma low6_ok z i : 0 <= i < zlen z -> exists b, low6 z i = Ok b.
Proof. intros Hi. unfold low6. destruct (idx_in_range z i Hi) as (b & ->). by eexists. Qed.

Lemma cont_at_true z i : cont_at z i = Ok true -> i < zlen z.
Proof. unfold cont_at. by destruct (Z.ltb_spec i (zlen z)). Qed.

(** A character is read without a panic, and it takes at least one byte. *)
Lemma next_total z i : 0 <= i -> exists c i', re_next_char z i = Ok (c, i') /\ (if zlen z <=? i then c = 0 /\ i' = i else i < i' <= zlen z /\ (Forall (fun b => b <> 0) z -> c <> 0)).
Proof.
  intros Hi. unfold re_next_char. destruct (Z.leb_spec (zlen z) i); [by exists 0, i|]. destruct (idx_in_range z i ltac:(lia)) as (c & Ec). rewrite Ec. bind_step.
  destruct (Z.ltb_spec c 0x80). { exists c, (i + 1). split; [done|]. split; [lia|]. intros Hz. apply idx_Ok in Ec as [_ Ec]. by apply (Forall_lookup_1 _ _ _ _ Hz Ec). }
  destruct (cont_at_ok z (i + 1) ltac:(lia)) as (k0 & K0), (cont_at_ok z (i + 1 + 1) ltac:(lia)) as (k1 & K1), (cont_at_ok z (i + 1 + 2) ltac:(lia)) as (k2 & K2). rewrite K0, K1, K2. do 3 bind_step.
  assert (exists c' i', Ok (0xfffd, i + 1) = Ok (c', i') /\ i < i' <= zlen z /\ (Forall (fun b => b <> 0) z -> c' <> 0)) as Hbad by (exists 0xfffd, (i + 1); split; [done|split; [lia|done]]).
  destruct ((Z.land c 0xe0 =? 0xc0) && k0) eqn:E1.
  { apply andb_true_iff in E1 as [_ ->]. apply cont_at_true in K0. destruct (low6_ok z (i + 1) ltac:(lia)) as (b0 & ->). bind_step. eexists _, _. split; [done|]. split; [lia|]. intros _. destruct (Z.ltb_spec (Z.lor (Z.shiftl (Z.land c 31) 6) b0) 0x80); [done|lia]. }
  destruct ((Z.land c 0xf0 =? 0xe0) && (k0 && k1)) eqn:E2.
  { apply andb_true_iff in E2 as [_ [-> ->]%andb_true_iff]. apply cont_at_true in K0, K1. destruct (low6_ok z (i + 1) ltac:(lia)) as (b0 & ->), (low6_ok z (i + 1 + 1) ltac:(lia)) as (b1 & ->). do 2 bind_step. eexists _, _. split; [done|]. split; [lia|]. intros _.
    destruct (Z.leb_spec (Z.lor (Z.lor (Z.shiftl (Z.land c 15) 12) (Z.shiftl b0 6)) b1) 0x7ff); [done|]. cbn [orb]. case_match; [done|lia]. }
  destruct ((Z.land c 0xf8 =? 0xf0) && (k0 && k1 && k2)) eqn:E3; [|done].
  apply andb_true_iff in E3 as [_ [[-> ->]%andb_true_iff ->]%andb_true_iff]. apply cont_at_true in K0, K1, K2. destruct (low6_ok z (i + 1) ltac:(lia)) as (b0 & ->), (low6_ok z (i + 1 + 1) ltac:(lia)) as (b1 & ->), (low6_ok z (i + 1 + 2) ltac:(lia)) as (b2 & ->).
  do 3 bind_step. eexists _, _. split; [done|]. split; [lia|]. intros _. destruct (Z.leb_spec (Z.lor (Z.lor (Z.lor (Z.shiftl (Z.land c 7) 18) (Z.shiftl b0 12)) (Z.shiftl b1 6)) b2) 0xffff); [done|]. cbn [orb]. case_match; [done|lia].
Qed.

Lemma spells_total nocase z : Forall (fun b => b <> 0) z -> forall n i, 0 <= i -> zlen z - i <= Z.of_nat n -> exists cs, spells nocase z i cs /\ (length cs <= n)%nat.
Proof.
  intros Hz. induction n as [|n IH]; intros i Hi Hn; [exists []; split; [apply spells_end; lia|done]|]. destruct (next_total z i Hi) as (c & i' & E & H). destruct (Z.leb_spec (zlen z) i); [exists []; split; [by apply spells_end|cbn; lia]|].
  destruct H as [Hi' Hc]. destruct (IH i' ltac:(lia) ltac:(lia)) as (cs & Hcs & Hl). exists (fold_case nocase c :: cs). split; [by apply (spells_char _ _ _ _ i'); auto|cbn; lia].
Qed.

(** ** The compiler's state *)

(** From [c] to [c']: the same pattern, not further back, and [p ++ q] has
    become [p ++ q'] for some sound [q']. *)
Record goes (p : Prog) (c c' : Compiler) : Prop := {
  go_z : c_z c' = c_z c;
  go_i : c_i c <= c_i c' <= zlen (c_z c);
  go_prog : exists q', c_prog c' = p ++ q' /\ zlen (c_prog c) <= zlen (c_prog c') /\ forall q, c_prog c = p ++ q -> okb q -> okb q'
}.

Definition inside (c : Compiler) : Prop := 0 <= c_i c <= zlen (c_z c).

Lemma okb_app q q' : okb q -> okb q' -> okb (q ++ q').
Proof. unfold okb. rewrite zlen_app. intros H H' Hl. pose proof (zlen_nonneg q). pose proof (zlen_nonneg q'). apply block_app; [apply H; lia|apply H'; lia]. Qed.

Lemma goes_refl p c q : inside c -> c_prog c = p ++ q -> goes p c c.
Proof. intros Hi E. split; [done|unfold inside in Hi; lia|]. exists q. split; [done|]. split; [lia|]. intros q0 E'. rewrite E in E'. by apply app_inv_head in E' as ->. Qed.

Lemma goes_trans p c1 c2 c3 : goes p c1 c2 -> goes p c2 c3 -> goes p c1 c3.
Proof.
  intros [Z1 I1 (q2 & E2 & L2 & O2)] [Z2 I2 (q3 & E3 & L3 & O3)]. split; [congruence|rewrite Z1 in I2; lia|]. exists q3. split; [done|]. split; [lia|]. eauto.
Qed.

(** Appending sound code. *)
Lemma goes_append p c i q d e : inside c -> c_i c <= i <= zlen (c_z c) -> c_prog c = p ++ q -> okb d -> goes p c (mkCompiler (c_z c) i (c_nocase c) (c_prog c ++ d) e).
Proof.
  intros Hin Hi E Hd. split; [done|done|]. cbn [c_prog]. rewrite E, <- app_assoc. exists (q ++ d). split; [done|]. split; [rewrite !zlen_app; pose proof (zlen_nonneg d); lia|]. intros q0 E0 Ho. apply app_inv_head in E0 as <-. by apply okb_app.
Qed.

Lemma okb_one op arg : op <> RE_OP_FORK -> op <> RE_OP_GOTO -> op <> RE_OP_CC_INC -> op <> RE_OP_CC_EXC -> okb [(op, arg)].
Proof. intros H1 H2 H3 H4 _ x e Hx. apply get_cons in Hx as [[-> ->]|Hx]; [by destruct op|]. unfold get in Hx. by destruct (_ <? 0). Qed.

Lemma okb_block q : block q -> okb q.
Proof. by intros H _. Qed.

Lemma next_char_safe c : inside c -> exists ch i', next_char c = Ok (ch, at_i c i') /\ (c_i c < i' <= zlen (c_z c) \/ ch = 0 /\ i' = c_i c).
Proof.
  intros [Hi Hle]. unfold next_char. destruct (next_total (c_z c) (c_i c) Hi) as (ch & i' & -> & H). bind_step. exists (fold_case (c_nocase c) ch), i'. split; [done|]. destruct (_ <=? _); [right|left; tauto]. destruct H as [-> ->]. split; [|done]. unfold fold_case. by destruct (c_nocase c).
Qed.

(** ** Inserting and copying *)

Lemma insert_raw c p q op arg : c_prog c = p ++ q -> re_insert c (zlen p) op arg = Ok (with_prog c (p ++ (op, arg32 arg) :: q)).
Proof.
  intros E. unfold re_insert, n_state. rewrite E, zlen_app. pose proof (zlen_nonneg p). pose proof (zlen_nonneg q). destruct (Z.leb_spec 0 (zlen p)), (Z.leb_spec (zlen p) (zlen p + zlen q)); try lia. cbn [andb]. unfold zlen. by rewrite Nat2Z.id, take_app_length, drop_app_length.
Qed.

Lemma copy_raw n c a C d : c_prog c = a ++ C ++ d -> n = length C -> re_copy n c (zlen a) = Ok (with_prog c (a ++ C ++ d ++ C)).
Proof.
  intros E ->. revert c a d E. induction C as [|x C IH]; intros c a d E; cbn [length re_copy app]; [rewrite app_nil_r; destruct c; cbn in *; by subst|]. rewrite E. cbn [app]. rewrite idx_prog. bind_step.
  rewrite <- (zlen_snoc a x). rewrite (IH (with_prog c ((a ++ x :: C ++ d) ++ [x])) (a ++ [x]) (d ++ [x])) by (cbn; assoc). unfold with_prog. cbn [c_z c_i c_nocase c_err]. do 2 f_equal. assoc.
Qed.

(** The operand and what follows it: the jumps of [C] reach at most its end. *)
Definition operand (a C : Prog) : Prop := forall x e, get C x = Some e -> op_ok (zlen a + zlen C + 1) (zlen a + x) e.

Lemma block_operand a C : block (a ++ C) -> operand a C.
Proof.
  intros H x e Hx. rewrite <- zlen_app. apply H. pose proof (get_bounds _ _ _ Hx). pose proof (zlen_nonneg a). unfold get in *. destruct (Z.ltb_spec x 0); [lia|]. destruct (Z.ltb_spec (zlen a + x) 0); [lia|].
  rewrite lookup_app_r by (unfold zlen in *; lia). replace (Z.to_nat (zlen a + x) - length a)%nat with (Z.to_nat x) by (unfold zlen in *; lia). done.
Qed.

Lemma block_copy a C d : operand a C -> block (a ++ C ++ d) -> block (a ++ C ++ d ++ C).
Proof.
  intros Ho Hb x e Hx. pose proof (zlen_nonneg C). pose proof (zlen_nonneg a). pose proof (zlen_nonneg d). replace (a ++ C ++ d ++ C) with ((a ++ C ++ d) ++ C) in Hx by assoc. apply get_app in Hx as [Hx|Hx].
  - rewrite <- (Z.add_0_r x). apply (op_ok_shift (zlen (a ++ C ++ d) + 1)); [by apply Hb|lia|rewrite !zlen_app; lia].
  - replace x with (zlen a + (x - zlen (a ++ C ++ d)) + (zlen C + zlen d)) by (rewrite !zlen_app; lia). apply (op_ok_shift (zlen a + zlen C + 1)); [by apply Ho|lia|rewrite !zlen_app; lia].
Qed.

(** Inserting an opcode that jumps inside the result. *)
Lemma block_insert a q e : block (a ++ q) -> op_ok (zlen a + zlen q + 2) (zlen a) e -> block (a ++ e :: q).
Proof.
  intros Hb He x y Hx. pose proof (zlen_nonneg a). pose proof (zlen_nonneg q). rewrite zlen_app, zlen_cons. pose proof (get_bounds _ _ _ Hx) as Hr. unfold get in Hx. destruct (Z.ltb_spec x 0); [done|].
  apply lookup_app_Some in Hx as [Hx|[Hl Hx]].
  - rewrite <- (Z.add_0_r x). apply (op_ok_shift (zlen (a ++ q) + 1)); [|lia|rewrite zlen_app; lia]. apply Hb. unfold get. destruct (Z.ltb_spec x 0); [lia|]. by apply lookup_app_l_Some.
  - destruct (Z.to_nat x - length a)%nat as [|k] eqn:Ek; cbn in Hx.
    + injection Hx as <-. replace x with (zlen a) by (unfold zlen in *; lia). by replace (zlen a + (zlen q + 1) + 1) with (zlen a + zlen q + 2) by lia.
    + replace x with (zlen a + Z.of_nat k + 1) by (unfold zlen in *; lia). apply (op_ok_shift (zlen (a ++ q) + 1)); [|lia|rewrite zlen_app; lia]. apply Hb. unfold get. destruct (Z.ltb_spec (zlen a + Z.of_nat k) 0); [lia|].
      rewrite lookup_app_r by (unfold zlen in *; lia). by replace (Z.to_nat (zlen a + Z.of_nat k) - length a)%nat with k by (unfold zlen in *; lia).
Qed.

Lemma block_append q e : block q -> op_ok (zlen q + 2) (zlen q) e -> block (q ++ [e]).
Proof. intros Hb He. apply block_insert; [by rewrite app_nil_r|]. by rewrite zlen_nil, Z.add_0_r. Qed.

(** ** The operators *)

(** The operand starts at [ip]. *)
Definition prev_ok (p : Prog) (c : Compiler) (ip : Z) : Prop := ip < 0 \/ exists a C, c_prog c = p ++ a ++ C /\ ip = zlen (p ++ a).

Lemma prev_split p q ip c : c_prog c = p ++ q -> zlen p <= ip <= zlen (p ++ q) -> prev_ok p c ip.
Proof.
  intros E H. right. rewrite zlen_app in H. exists (take (Z.to_nat (ip - zlen p)) q), (drop (Z.to_nat (ip - zlen p)) q). rewrite take_drop. split; [done|]. rewrite zlen_app. unfold zlen in *. rewrite length_take. lia.
Qed.

(** [c'] differs from [c] in the code, which is now [p ++ q']. *)
Lemma goes_prog p q q' c : inside c -> c_prog c = p ++ q -> zlen q <= zlen q' -> (zlen q' < 2 ^ 16 -> block q -> block q') -> goes p c (with_prog c (p ++ q')).
Proof.
  intros Hi E Hl Hb. split; [done|unfold inside in Hi; cbn; lia|]. exists q'. cbn [c_prog with_prog]. split; [done|]. split; [rewrite E, !zlen_app; lia|]. intros q0 E0 Ho Hs. rewrite E in E0. apply app_inv_head in E0 as <-. apply Hb; [done|]. apply Ho. lia.
Qed.

Lemma goes_at p q c i : inside c -> c_prog c = p ++ q -> c_i c <= i <= zlen (c_z c) -> goes p c (at_i c i).
Proof.
  intros Hin E Hi. split; [done|done|]. exists q. cbn. split; [done|]. split; [lia|]. intros q0 E0. rewrite E in E0. by apply app_inv_head in E0 as <-.
Qed.

Lemma arg_small a : - 2 ^ 16 <= a <= 2 ^ 17 -> arg32 a = a.
Proof. intros H. apply arg32_small. lia. Qed.

(** The three single-character operators, the operand [C] behind [b]. *)
Section operators.
Context (c : Compiler) (b C : Prog) (E : c_prog c = b ++ C).

Lemma n_state_split : n_state c = zlen b + zlen C.
Proof using E. unfold n_state. by rewrite E, zlen_app. Qed.

Lemma no_operand : (zlen b <? 0) = false.
Proof using. pose proof (zlen_nonneg b). by destruct (Z.ltb_spec (zlen b) 0); [lia|]. Qed.

Lemma star_raw : star c (zlen b) = Ok (with_prog c (b ++ ((RE_OP_GOTO, arg32 (zlen C + 1)) :: C) ++ [(RE_OP_FORK, arg32 (- zlen C))])).
Proof using E.
  unfold star. rewrite no_operand, n_state_split. replace (zlen b + zlen C - zlen b + 1) with (zlen C + 1) by lia. rewrite (insert_raw c b C) by done. bind_step. unfold re_append, n_state, with_prog. cbn [c_prog c_z c_i c_nocase c_err].
  rewrite zlen_app, zlen_cons. replace (zlen b - (zlen b + (zlen C + 1)) + 1) with (- zlen C) by lia. do 2 f_equal. assoc.
Qed.

Lemma plus_raw : plus c (zlen b) = Ok (with_prog c (b ++ C ++ [(RE_OP_FORK, arg32 (- zlen C))])).
Proof using E.
  unfold plus. rewrite no_operand, n_state_split. unfold re_append. rewrite E. replace (zlen b - (zlen b + zlen C)) with (- zlen C) by lia. do 2 f_equal. assoc.
Qed.

Lemma question_raw : question c (zlen b) = Ok (with_prog c (b ++ (RE_OP_FORK, arg32 (zlen C + 1)) :: C)).
Proof using E.
  unfold question. rewrite no_operand, n_state_split. replace (zlen b + zlen C - zlen b + 1) with (zlen C + 1) by lia. by rewrite (insert_raw c b C).
Qed.

End operators.

Lemma block_question a C : zlen (a ++ C) < 2 ^ 16 -> block (a ++ C) -> block (a ++ (RE_OP_FORK, arg32 (zlen C + 1)) :: C).
Proof.
  intros Hs Hb. rewrite zlen_app in Hs. pose proof (zlen_nonneg a). pose proof (zlen_nonneg C). rewrite arg_small by lia. apply block_insert; [done|]. unfold op_ok. cbn [fst snd]. lia.
Qed.

Lemma block_back a C : zlen (a ++ C) < 2 ^ 16 -> block (a ++ C) -> block ((a ++ C) ++ [(RE_OP_FORK, arg32 (- zlen C))]).
Proof.
  intros Hs Hb. rewrite zlen_app in Hs. pose proof (zlen_nonneg a). pose proof (zlen_nonneg C). rewrite arg_small by lia. apply block_append; [done|]. unfold op_ok. cbn [fst snd]. rewrite zlen_app. lia.
Qed.

Lemma star_safe p c ip : inside c -> prev_ok p c ip -> safe (star c ip) (goes p c).
Proof.
  intros Hi [Hip|(a & C & E & ->)]; [unfold star; by rewrite (proj2 (Z.ltb_lt ip 0))|]. rewrite app_assoc in E. rewrite (star_raw c (p ++ a) C E). cbn [safe]. rewrite <- app_assoc. pose proof (zlen_nonneg a). pose proof (zlen_nonneg C).
  apply (goes_prog p (a ++ C)); [done|by rewrite E, app_assoc|rewrite !zlen_app, !zlen_cons, ?zlen_nil; pose proof (zlen_nonneg C); lia|]. intros Hs Hb. rewrite !zlen_app, !zlen_cons, zlen_nil in Hs. rewrite app_assoc.
  assert (zlen (a ++ C) < 2 ^ 16) as Hs' by (rewrite zlen_app; lia). assert (block (a ++ (RE_OP_GOTO, arg32 (zlen C + 1)) :: C)) as Hg.
  { rewrite arg_small by lia. apply block_insert; [done|]. unfold op_ok. cbn [fst snd]. lia. }
  apply block_append; [done|]. rewrite (arg_small (- zlen C)) by lia. unfold op_ok. cbn [fst snd]. rewrite !zlen_app, !zlen_cons. lia.
Qed.

Lemma plus_safe p c ip : inside c -> prev_ok p c ip -> safe (plus c ip) (goes p c).
Proof.
  intros Hi [Hip|(a & C & E & ->)]; [unfold plus; by rewrite (proj2 (Z.ltb_lt ip 0))|]. rewrite app_assoc in E. rewrite (plus_raw c (p ++ a) C E). cbn [safe]. rewrite <- app_assoc.
  apply (goes_prog p (a ++ C)); [done|by rewrite E, app_assoc|rewrite !zlen_app, zlen_cons, zlen_nil; lia|]. intros Hs Hb. rewrite app_assoc in *. rewrite zlen_snoc in Hs. apply block_back; [lia|done].
Qed.

Lemma question_safe p c ip : inside c -> prev_ok p c ip -> safe (question c ip) (goes p c).
Proof.
  intros Hi [Hip|(a & C & E & ->)]; [unfold question; by rewrite (proj2 (Z.ltb_lt ip 0))|]. rewrite app_assoc in E. rewrite (question_raw c (p ++ a) C E). cbn [safe]. rewrite <- app_assoc.
  apply (goes_prog p (a ++ C)); [done|by rewrite E, app_assoc|rewrite !zlen_app, zlen_cons; lia|]. intros Hs Hb. rewrite zlen_app, zlen_cons in Hs. apply block_question; [rewrite zlen_app; lia|done].
Qed.

(** ** Counts *)

Lemma peek_some c : inside c -> peek c <> 0 -> c_i c < zlen (c_z c) /\ c_z c !! Z.to_nat (c_i c) = Some (peek c).
Proof.
  intros [Hi _] H. unfold peek in *. destruct (get (c_z c) (c_i c)) as [x|] eqn:E; [|done]. pose proof (get_bounds _ _ _ E). unfold get in E. destruct (Z.ltb_spec (c_i c) 0); [lia|]. by split; [lia|].
Qed.

Lemma digits_safe z fuel : short_counts z -> forall c m k, c_z c = z -> inside c -> zlen z - c_i c <= Z.of_nat fuel -> 0 <= m < 10 ^ Z.of_nat k ->
  (exists a ds b, z = a ++ ds ++ b /\ length ds = k /\ zlen (a ++ ds) = c_i c /\ Forall (fun d => re_digit_char d = true) ds) ->
  safe (digits fuel c m) (fun r => exists i, r.2 = at_i c i /\ c_i c <= i <= zlen z /\ 0 <= r.1).
Proof.
  intros Hz. induction fuel as [|fuel IH]; intros c m k Ez Hin Hf Hm (a & ds & b & Esplit & Hk & Hi & Hd); cbn [digits]; destruct (re_digit_char (peek c)) eqn:Ed.
  2,4: cbn; exists (c_i c); split; [by destruct c|unfold inside in Hin; rewrite Ez in Hin; cbn; lia].
  all: assert (peek c <> 0) as Hp by (intros E; by rewrite E in Ed); destruct (peek_some c Hin Hp) as [Hlt Hl]; rewrite Ez in Hlt.
  { lia. }
  rewrite Ez, Esplit in Hl. assert (exists b', b = peek c :: b') as (b' & Eb).
  { rewrite app_assoc in Hl. rewrite lookup_app_r in Hl by (unfold zlen in Hi; lia). replace (Z.to_nat (c_i c) - length (a ++ ds))%nat with 0%nat in Hl by (unfold zlen in Hi; lia). destruct b as [|x b']; [done|]. injection Hl as <-. by exists b'. }
  assert (k + 1 <= 18)%nat as Hk'. { rewrite <- Hk. replace (length ds + 1)%nat with (length (ds ++ [peek c])) by (rewrite length_app; done). apply (Hz a _ b'); [rewrite Esplit, Eb; assoc|]. apply Forall_app. by split; [|repeat constructor]. }
  assert (48 <= peek c <= 57) as Hr by (unfold re_digit_char in Ed; apply andb_true_iff in Ed as [?%Z.leb_le ?%Z.leb_le]; lia).
  assert (m * 10 + (peek c - 48) < 10 ^ Z.of_nat (k + 1)) as Hm'. { rewrite Nat2Z.inj_add, Z.pow_add_r by lia. change (10 ^ Z.of_nat 1) with 10. lia. }
  assert (10 ^ Z.of_nat (k + 1) <= 10 ^ 18) as H18 by (apply Z.pow_le_mono_r; lia). destruct (Z.leb_spec (2 ^ 63) (m * 10 + (peek c - 48))); [change (10 ^ 18) with 1000000000000000000 in H18; lia|].
  pose proof (IH (at_i c (c_i c + 1)) (m * 10 + (peek c - 48)) (k + 1)%nat) as Hrec. eapply safe_mono; [apply Hrec; try done; cbn; unfold inside; cbn; rewrite ?Ez; try lia|].
  - unfold inside in Hin. lia.
  - exists a, (ds ++ [peek c]), b'. split; [rewrite Esplit, Eb; assoc|]. split; [rewrite length_app; cbn; lia|]. split; [rewrite app_assoc, zlen_snoc; lia|]. apply Forall_app. by split; [|repeat constructor].
  - intros r (i & E & Hi' & Hr'). cbn in Hi'. exists i. split; [by rewrite E|]. lia.
Qed.

Lemma count_safe c : short_counts (c_z c) -> inside c -> safe (digits (length (c_z c)) c 0) (fun r => exists i, r.2 = at_i c i /\ c_i c <= i <= zlen (c_z c) /\ 0 <= r.1).
Proof.
  intros Hz Hin. apply (digits_safe (c_z c) _ Hz c 0 0); try done; [unfold inside in Hin; unfold zlen; lia|]. exists (take (Z.to_nat (c_i c)) (c_z c)), [], (drop (Z.to_nat (c_i c)) (c_z c)). cbn [app]. rewrite take_drop, app_nil_r. split_and!; try done.
  unfold inside, zlen in *. rewrite length_take. lia.
Qed.

(** ** Braces *)

Lemma copies_raw k : forall c b C d, c_prog c = b ++ C ++ d -> copies k c (zlen b) (zlen C) = Ok (with_prog c (b ++ C ++ d ++ times k C)).
Proof.
  induction k as [|k IH]; intros c b C d E; cbn [copies times]; [rewrite app_nil_r, <- E; by destruct c|]. rewrite (copy_raw _ c b C d E) by (unfold zlen; lia). bind_step. rewrite (IH _ b C (d ++ C)) by (cbn; assoc). unfold with_prog. cbn. do 2 f_equal. assoc.
Qed.

Lemma optional_raw k : forall c b C d, c_prog c = b ++ C ++ d -> optional_copies k c (zlen b) (zlen C) = Ok (with_prog c (b ++ C ++ d ++ times k ((RE_OP_FORK, arg32 (zlen C + 1)) :: C))).
Proof.
  induction k as [|k IH]; intros c b C d E; cbn [optional_copies times]; [rewrite app_nil_r, <- E; by destruct c|]. rewrite (copy_raw _ _ b C (d ++ [(RE_OP_FORK, arg32 (zlen C + 1))])); [|cbn; rewrite E; assoc|unfold zlen; lia].
  bind_step. rewrite (IH _ b C (d ++ (RE_OP_FORK, arg32 (zlen C + 1)) :: C)) by (cbn; assoc). unfold with_prog. cbn. do 2 f_equal. assoc.
Qed.

Lemma block_times k a C : forall d, operand a C -> block (a ++ C ++ d) -> block (a ++ C ++ d ++ times k C).
Proof.
  induction k as [|k IH]; intros d Ho Hb; cbn [times]; [by rewrite app_nil_r|]. pose proof (IH (d ++ C) Ho) as H. rewrite <- app_assoc in H. apply H. by apply block_copy.
Qed.

Lemma block_optional k a C : zlen C < 2 ^ 16 -> forall d, operand a C -> block (a ++ C ++ d) -> block (a ++ C ++ d ++ times k ((RE_OP_FORK, arg32 (zlen C + 1)) :: C)).
Proof.
  intros Hs. pose proof (zlen_nonneg C). pose proof (zlen_nonneg a). induction k as [|k IH]; intros d Ho Hb; cbn [times]; [by rewrite app_nil_r|]. pose proof (IH (d ++ (RE_OP_FORK, arg32 (zlen C + 1)) :: C) Ho) as H1. rewrite <- app_assoc in H1. apply H1.
  replace (a ++ C ++ d ++ (RE_OP_FORK, arg32 (zlen C + 1)) :: C) with ((a ++ C ++ d) ++ (RE_OP_FORK, arg32 (zlen C + 1)) :: C) by assoc. apply block_insert; [rewrite <- !app_assoc; by apply block_copy|].
  rewrite arg_small by lia. pose proof (zlen_nonneg d). unfold op_ok. cbn [fst snd]. rewrite !zlen_app. lia.
Qed.

Lemma times_size k (C : Prog) : 0 <= zlen (times k C).
Proof. apply zlen_nonneg. Qed.

(** The code of a repetition with counts. *)
Lemma counted_safe p c a C m n : inside c -> c_prog c = p ++ a ++ C -> 0 <= m ->
  safe (if m =? 0 then
     if n =? 0 then Err (EError "both m and n are zero in '{m,n}'")
     else let* c := re_insert c (zlen (p ++ a)) RE_OP_FORK (zlen C + 1) in optional_copies (Z.to_nat (n - 1)) c (zlen (p ++ a) + 1) (zlen C)
   else
     let* c := copies (Z.to_nat (m - 1)) c (zlen (p ++ a)) (zlen C) in
     let* c := optional_copies (Z.to_nat (n - m)) c (zlen (p ++ a)) (zlen C) in
     Ok (if n =? 0 then re_append c RE_OP_FORK (- zlen C) else c)) (goes p c).
Proof.
  intros Hin E Hm. pose proof (zlen_nonneg a). pose proof (zlen_nonneg C). set (F := (RE_OP_FORK, arg32 (zlen C + 1))). destruct (m =? 0).
  - destruct (n =? 0); [done|]. rewrite (insert_raw c (p ++ a) C) by (rewrite E; assoc). bind_step. fold F. rewrite <- (zlen_snoc (p ++ a) F). rewrite (optional_raw _ _ ((p ++ a) ++ [F]) C []) by (cbn; rewrite app_nil_r; assoc). cbn [safe app]. fold F. set (T := times _ _).
    replace (with_prog _ _) with (with_prog c (p ++ (a ++ [F]) ++ C ++ [] ++ T)) by (unfold with_prog; cbn; f_equal; assoc). pose proof (zlen_nonneg T). apply (goes_prog p (a ++ C)); [done|done|rewrite !zlen_app, zlen_cons, !zlen_nil; lia|].
    rewrite !zlen_app, zlen_cons, zlen_nil. intros Hs Hb. assert (block ((a ++ [F]) ++ C)) as Hb' by (rewrite <- app_assoc; apply block_question; [rewrite zlen_app; lia|done]).
    apply block_optional; [lia|by apply block_operand|by rewrite app_nil_r].
  - rewrite (copies_raw _ c (p ++ a) C []) by (rewrite E, app_nil_r; assoc). bind_step. cbn [app]. rewrite (optional_raw _ _ (p ++ a) C (times (Z.to_nat (m - 1)) C)) by done. bind_step. cbn [safe]. fold F. set (D := times (Z.to_nat (m - 1)) C). set (T := times (Z.to_nat (n - m)) (F :: C)).
    pose proof (zlen_nonneg D). pose proof (zlen_nonneg T). assert (zlen (a ++ C ++ D ++ T) < 2 ^ 16 -> block (a ++ C) -> block (a ++ C ++ D ++ T)) as Hall.
    { rewrite !zlen_app. intros Hs Hb. apply block_optional; [lia|by apply block_operand|]. apply (block_times _ a C []); [by apply block_operand|by rewrite app_nil_r]. }
    destruct (n =? 0).
    + unfold re_append, with_prog. cbn [c_prog c_z c_i c_nocase c_err]. match goal with |- goes p c ?x => replace x with (with_prog c (p ++ (a ++ C ++ D ++ T) ++ [(RE_OP_FORK, arg32 (- zlen C))])) by (unfold with_prog; f_equal; assoc) end.
      apply (goes_prog p (a ++ C)); [done|done|rewrite zlen_snoc, !zlen_app; lia|]. rewrite zlen_snoc. intros Hs Hb. apply block_append; [apply Hall; [lia|done]|]. rewrite !zlen_app in Hs. rewrite arg_small by lia. unfold op_ok. cbn [fst snd]. rewrite !zlen_app. lia.
    + match goal with |- goes p c ?x => replace x with (with_prog c (p ++ (a ++ C ++ D ++ T))) by (unfold with_prog; cbn; f_equal; assoc) end. apply (goes_prog p (a ++ C)); [done|done|rewrite !zlen_app; lia|done].
Qed.

Lemma braces_safe p c ip : short_counts (c_z c) -> inside c -> prev_ok p c ip -> safe (braces c ip) (goes p c).
Proof.
  intros Hz Hin [Hip|(a & C & E & ->)]; unfold braces; [by rewrite (proj2 (Z.ltb_lt ip 0))|]. rewrite no_operand. apply (safe_bind _ _ _ _ (count_safe c Hz Hin)). intros [m c1] (i1 & E1 & Hi1 & Hm). cbn [fst snd] in E1, Hm. subst c1.
  assert (inside (at_i c i1)) as Hin1 by (unfold inside in *; cbn; lia). eapply (safe_bind _ _ (fun r => exists i, r.2 = at_i c i /\ i1 <= i <= zlen (c_z c))).
  { destruct (Z.eqb_spec (peek (at_i c i1)) 44) as [H44|]; [|cbn; exists i1; by split; [|lia]]. destruct (peek_some _ Hin1 ltac:(by rewrite H44)) as [Hlt _]. cbn in Hlt.
    eapply safe_mono; [apply (count_safe (at_i (at_i c i1) (c_i (at_i c i1) + 1)) Hz)|]; [unfold inside in *; cbn in *; lia|]. intros r (i & Er & Hi & _). cbn in Hi. exists i. split; [by rewrite Er|lia]. }
  intros [n c2] (i2 & E2 & Hi2). cbn [snd] in E2. subst c2. assert (inside (at_i c i2)) as Hin2 by (unfold inside in *; cbn; lia). destruct (Z.eqb_spec (peek (at_i c i2)) 125) as [H125|]; [|done]. cbn [negb]. destruct (_ && _); [done|].
  destruct (peek_some _ Hin2 ltac:(by rewrite H125)) as [Hlt _]. cbn in Hlt. cbv zeta. set (c3 := at_i (at_i c i2) (c_i (at_i c i2) + 1)). assert (n_state c3 - zlen (p ++ a) = zlen C) as -> by (unfold n_state; cbn; rewrite E, app_assoc, zlen_app; lia).
  eapply safe_mono; [apply (counted_safe p c3 a C m n); [unfold inside in *; cbn; lia|done|done]|]. intros c4 H. eapply goes_trans; [|apply H]. change c3 with (at_i c (i2 + 1)). apply (goes_at p (a ++ C)); [done|done|lia].
Qed.

(** ** Escapes and classes *)

(** Only the position and the pending error have changed. *)
Definition moved (c c' : Compiler) : Prop := exists i e, c' = mkCompiler (c_z c) i (c_nocase c) (c_prog c) e /\ c_i c <= i <= zlen (c_z c).

Lemma hex_run_safe z k : forall i v, 0 <= i -> i + Z.of_nat k <= zlen z -> exists o, hex_run k z i v = Ok o.
Proof.
  induction k as [|k IH]; intros i v Hi Hk; cbn [hex_run]; [by eexists|]. destruct (idx_in_range z i ltac:(lia)) as (x & ->). bind_step. destruct (re_hex x v) as [v'|]; [apply IH; lia|by eexists].
Qed.

Lemma hex_esc_safe c letter k : inside c -> c_i c < zlen (c_z c) -> exists o, hex_esc c letter k = Ok o /\ match o with Some r => moved c r.2 | None => True end.
Proof.
  intros Hin Hlt. unfold hex_esc. destruct (idx_in_range (c_z c) (c_i c)) as (c0 & ->); [unfold inside in Hin; lia|]. bind_step. destruct (c0 =? letter); cbn [andb]; [|by exists None].
  destruct (Z.ltb_spec (c_i c + Z.of_nat k) (zlen (c_z c))); [|by exists None]. destruct (hex_run_safe (c_z c) k (c_i c + 1) 0) as (o & ->); [unfold inside in Hin; lia|lia|]. bind_step. eexists. split; [done|]. destruct o; [|done]. cbn. eexists _, _. split; [done|lia].
Qed.

Lemma esc_char_safe c : inside c -> safe (esc_char c) (fun r => moved c r.2).
Proof.
  intros Hin. unfold esc_char. destruct (Z.leb_spec (zlen (c_z c)) (c_i c)).
  { exists (c_i c), (c_err c). unfold inside in Hin. cbn. split; [by destruct c|lia]. }
  destruct (idx_in_range (c_z c) (c_i c)) as (c0 & ->); [unfold inside in Hin; lia|]. bind_step. destruct (hex_esc_safe c 117 4 Hin ltac:(lia)) as (o1 & -> & H1). bind_step. destruct o1 as [r|]; [done|].
  destruct (hex_esc_safe c 120 2 Hin ltac:(lia)) as (o2 & -> & H2). bind_step. destruct o2 as [r|]; [done|]. destruct (find_esc c0 ZESC ZTRANS); cbn; eexists _, _; (split; [done|lia]).
Qed.

Lemma moved_inside c c' : inside c -> moved c c' -> inside c'.
Proof. unfold inside. intros H (i & e & -> & Hi). cbn. lia. Qed.

Lemma moved_trans c1 c2 c3 : moved c1 c2 -> moved c2 c3 -> moved c1 c3.
Proof. intros (i & e & -> & Hi) (i' & e' & -> & Hi'). cbn in Hi'. exists i', e'. cbn. split; [done|lia]. Qed.

Definition class_ops (ms : Prog) : Prop := Forall (fun e : Op * Z => e.1 = RE_OP_CC_VALUE \/ e.1 = RE_OP_CC_RANGE) ms.

(** Members have been appended. *)
Definition enlarged (c c' : Compiler) : Prop := exists i e ms, c' = mkCompiler (c_z c) i (c_nocase c) (c_prog c ++ ms) e /\ c_i c <= i <= zlen (c_z c) /\ class_ops ms.

Lemma moved_enlarged c c' : moved c c' -> enlarged c c'.
Proof. intros (i & e & -> & Hi). exists i, e, []. rewrite app_nil_r. split; [done|]. split; [done|constructor]. Qed.

Lemma enlarged_trans c1 c2 c3 : enlarged c1 c2 -> enlarged c2 c3 -> enlarged c1 c3.
Proof. intros (i & e & ms & -> & Hi & Hm) (i' & e' & ms' & -> & Hi' & Hm'). cbn in Hi'. exists i', e', (ms ++ ms'). cbn. rewrite app_assoc. split; [done|]. split; [lia|by apply Forall_app]. Qed.

Lemma enlarged_append c op arg : inside c -> op = RE_OP_CC_VALUE \/ op = RE_OP_CC_RANGE -> enlarged c (re_append c op arg).
Proof. intros Hin Hop. exists (c_i c), (c_err c), [(op, arg32 arg)]. unfold inside in Hin. split; [done|]. split; [lia|]. apply Forall_cons. split; [done|apply Forall_nil_2]. Qed.

Lemma enlarged_inside c c' : inside c -> enlarged c c' -> inside c'.
Proof. unfold inside. intros H (i & e & ms & -> & Hi & _). cbn. lia. Qed.

Lemma next_moved c : inside c -> safe (next_char c) (fun r => moved c r.2 /\ (r.1 = 0 \/ c_i c < c_i r.2)).
Proof.
  intros Hin. destruct (next_char_safe c Hin) as (ch & i & -> & H). cbn. split; [|destruct H; [right; lia|left; tauto]]. exists i, (c_err c). split; [done|]. unfold inside in Hin. destruct H as [|[_ ->]]; lia.
Qed.

Lemma moved_at c i : c_i c <= i <= zlen (c_z c) -> moved c (at_i c i).
Proof. intros H. by exists i, (c_err c). Qed.

(** An escape or the character itself. *)
Lemma unescape_safe c ch : inside c -> safe (if ch =? 92 then esc_char c else Ok (ch, c)) (fun r => moved c r.2).
Proof. intros Hin. destruct (ch =? 92); [by apply esc_char_safe|]. exists (c_i c), (c_err c). unfold inside in Hin. cbn. split; [by destruct c|lia]. Qed.

Lemma class_loop_safe fuel : forall c, inside c -> zlen (c_z c) - c_i c < Z.of_nat fuel -> safe (class_loop fuel c) (fun r => enlarged c r.2).
Proof.
  induction fuel as [|fuel IH]; intros c Hin Hf; [unfold inside in Hin; lia|]. cbn [class_loop]. apply (safe_bind _ _ _ _ (next_moved c Hin)). intros [ch c1] [M1 Hadv]. cbn [fst snd] in *. destruct (Z.eqb_spec ch 0) as [->|Hch]; [by apply moved_enlarged|].
  destruct Hadv as [|Hadv]; [done|]. destruct (_ && _); [done|]. pose proof (moved_inside _ _ Hin M1) as In1. apply (safe_bind _ _ _ _ (unescape_safe c1 ch In1)). intros [ch2 c2] M2. cbn [snd] in M2. pose proof (moved_inside _ _ In1 M2) as In2.
  assert (enlarged c c2) as E2 by (eapply enlarged_trans; by apply moved_enlarged). apply (safe_bind _ _ (fun r => enlarged c2 r.2)).
  - destruct (Z.eqb_spec (peek c2) 45) as [H45|]; [|apply enlarged_append; [done|by left]]. destruct (peek_some c2 In2 ltac:(by rewrite H45)) as [Hlt _]. cbv zeta. set (c3 := re_append c2 RE_OP_CC_RANGE ch2).
    assert (enlarged c2 c3) as E3 by (apply enlarged_append; [done|by right]). assert (inside c3) as In3 by (by eapply enlarged_inside). assert (moved c3 (at_i c3 (c_i c3 + 1))) as M3 by (apply moved_at; cbn; lia). pose proof (moved_inside _ _ In3 M3) as In4.
    apply (safe_bind _ _ _ _ (next_moved _ In4)). intros [ch5 c5] [M5 _]. cbn [snd] in M5. pose proof (moved_inside _ _ In4 M5) as In5. apply (safe_bind _ _ _ _ (unescape_safe c5 ch5 In5)). intros [ch6 c6] M6. cbn [snd safe] in *.
    pose proof (moved_inside _ _ In5 M6) as In6. eapply enlarged_trans; [apply E3|]. eapply enlarged_trans; [apply moved_enlarged, M3|]. eapply enlarged_trans; [apply moved_enlarged, M5|]. eapply enlarged_trans; [apply moved_enlarged, M6|]. apply enlarged_append; [done|by right].
  - intros [ch3 c3] E3. cbn [snd] in E3. pose proof (enlarged_inside _ _ In2 E3) as In3. destruct (Z.eqb_spec (peek c3) 93) as [H93|].
    + destruct (peek_some c3 In3 ltac:(by rewrite H93)) as [Hlt _]. cbn. eapply enlarged_trans; [apply E2|]. eapply enlarged_trans; [apply E3|]. apply moved_enlarged, moved_at. lia.
    + assert (c_z c3 = c_z c /\ c_i c1 <= c_i c3) as [Ez Ei]. { destruct M1 as (i1 & e1 & -> & _), M2 as (i2 & e2 & -> & ?), E3 as (i3 & e3 & m3 & -> & ? & _). cbn in *. split; [done|lia]. }
      eapply safe_mono; [apply IH; [done|rewrite Ez; lia]|]. intros r Hr. eapply enlarged_trans; [apply E2|]. by eapply enlarged_trans.
Qed.

Lemma block_class op n ms : op = RE_OP_CC_INC \/ op = RE_OP_CC_EXC -> class_ops ms -> n = zlen ms + 1 -> block ((op, n) :: ms).
Proof. intros Hop Hm ->. pose proof (zlen_nonneg ms). apply block_cons; [|by apply block_members]. unfold op_ok. destruct Hop as [-> | ->]; cbn; lia. Qed.

Lemma char_class_safe p q c : inside c -> c_prog c = p ++ q -> safe (char_class c) (goes p c).
Proof.
  intros Hin E. unfold char_class. cbv zeta. set (c1 := if peek c =? 94 then _ else _). assert (exists op i, (op = RE_OP_CC_INC \/ op = RE_OP_CC_EXC) /\ c1 = mkCompiler (c_z c) i (c_nocase c) (c_prog c ++ [(op, arg32 0)]) (c_err c) /\ c_i c <= i <= zlen (c_z c)) as (op & i & Hop & E1 & Hi).
  { unfold c1. destruct (Z.eqb_spec (peek c) 94) as [H94|]; [|exists RE_OP_CC_INC, (c_i c); unfold inside in Hin; split; [by left|]; split; [done|lia]]. destruct (peek_some c Hin ltac:(by rewrite H94)) as [Hlt _]. exists RE_OP_CC_EXC, (c_i c + 1). split; [by right|]. split; [done|lia]. }
  rewrite E1. cbn [c_z]. assert (inside (mkCompiler (c_z c) i (c_nocase c) (c_prog c ++ [(op, arg32 0)]) (c_err c))) as In1 by (unfold inside in *; cbn; lia).
  apply (safe_bind _ _ _ _ (class_loop_safe (S (length (c_z c))) _ In1 ltac:(cbn; unfold inside, zlen in *; lia))). intros [cch c2] (i2 & e2 & ms & E2 & Hi2 & Hm). cbn [snd] in E2. subst c2. destruct (cch =? 0); [done|]. unfold n_state. cbn [c_prog c_z c_i c_nocase c_err] in *. pose proof (zlen_nonneg ms).
  rewrite !zlen_app. change (zlen [(op, arg32 0)]) with 1. destruct (Z.ltb_spec (zlen (c_prog c)) (zlen (c_prog c) + 1 + zlen ms)); [|lia]. unfold set_arg. cbn [c_prog]. rewrite <- app_assoc. cbn [app]. rewrite idx_prog. bind_step.
  pose proof (zlen_nonneg (c_prog c)). rewrite set_idx_Ok by (rewrite zlen_app, zlen_cons; lia). bind_step. unfold with_prog. cbn [safe c_z c_i c_nocase c_err fst]. replace (Z.to_nat (zlen (c_prog c))) with (length (c_prog c)) by (unfold zlen; lia).
  rewrite insert_app_r_alt, Nat.sub_diag by lia. cbn [list_insert insert]. apply (goes_append p c i2 q); [done|lia|done|]. intros Hs. rewrite zlen_cons in Hs. rewrite arg_small by lia. apply block_class; [done|done|lia].
Qed.

Lemma backslash_safe p q c : inside c -> c_prog c = p ++ q -> safe (backslash c) (goes p c).
Proof.
  intros Hin E. unfold backslash. destruct (special_op (peek c)) as [op|] eqn:Eop.
  - destruct (peek_some c Hin) as [Hlt _]; [intros E0; by rewrite E0 in Eop|]. cbn [safe]. apply (goes_append p c (c_i c + 1) q); [done|unfold inside in Hin; lia|done|]. unfold special_op in Eop. repeat case_match; try done; injection Eop as <-; by apply okb_one.
  - apply (safe_bind _ _ _ _ (esc_char_safe c Hin)). intros [ec c2] (i & e & E2 & Hi). cbn [snd] in E2. subst c2. cbn [safe]. apply (goes_append p c i q); [done|done|done|]. by apply okb_one.
Qed.

(** ** The recursion *)

(** A group, from code [p], appends sound code. *)
Definition group_ok (re : Compiler -> res Compiler) (n : Z) : Prop := forall c, inside c -> short_counts (c_z c) -> zlen (c_z c) - c_i c < n -> safe (re c) (goes (c_prog c) c).

Lemma okb_nil : okb [].
Proof. intros _ x e Hx. unfold get in Hx. by destruct (_ <? 0). Qed.

Lemma goes_base p q c c' : c_prog c = p ++ q -> goes (c_prog c) c c' -> goes p c c'.
Proof.
  intros E [Hz Hi (g & Eg & Hl & Hg)]. split; [done|done|]. exists (q ++ g). rewrite Eg, E. split; [assoc|]. split; [rewrite Eg, E in Hl; done|]. intros q0 E0 Ho. apply app_inv_head in E0 as <-. apply okb_app; [done|]. apply (Hg []); [by rewrite app_nil_r|apply okb_nil].
Qed.

Lemma goes_inside p c c' : inside c -> goes p c c' -> inside c'.
Proof. unfold inside. intros H [Hz Hi _]. rewrite Hz. lia. Qed.

Lemma goes_code p c c' : goes p c c' -> exists q, c_prog c' = p ++ q.
Proof. intros [_ _ (q & E & _)]. by exists q. Qed.

(** One character of a string, after it has been read. *)
Lemma atom_safe re n p q c ch ip : inside c -> short_counts (c_z c) -> zlen (c_z c) - c_i c < n -> group_ok re n -> c_prog c = p ++ q -> prev_ok p c ip ->
  safe (if ch =? 40 then
          let* c := re c in
          if negb (peek c =? 41) then Err (EError "unmatched '('") else Ok (at_i c (c_i c + 1))
        else if ch =? 46 then
          if peek c =? 42 then Ok (at_i (re_append c RE_OP_ANYSTAR 0) (c_i c + 1))
          else Ok (re_append c RE_OP_ANY 0)
        else if ch =? 42 then star c ip
        else if ch =? 43 then plus c ip
        else if ch =? 63 then question c ip
        else if ch =? 36 then Ok (re_append c RE_OP_MATCH RE_EOF)
        else if ch =? 94 then Ok (re_append c RE_OP_ATSTART 0)
        else if ch =? 123 then braces c ip
        else if ch =? 91 then char_class c
        else if ch =? 92 then backslash c
        else Ok (re_append c RE_OP_MATCH ch)) (goes p c).
Proof.
  intros Hin Hz Hn Hre E Hp. assert (forall op arg, op <> RE_OP_FORK -> op <> RE_OP_GOTO -> op <> RE_OP_CC_INC -> op <> RE_OP_CC_EXC -> goes p c (re_append c op arg)) as Happ.
  { intros op arg H1 H2 H3 H4. apply (goes_append p c (c_i c) q); [done|unfold inside in Hin; lia|done|by apply okb_one]. }
  destruct (ch =? 40).
  { apply (safe_bind _ _ _ _ (Hre c Hin Hz Hn)). intros c2 G. destruct (Z.eqb_spec (peek c2) 41) as [H41|]; [|done]. pose proof (goes_base p q c c2 E G) as G'. pose proof (goes_inside _ _ _ Hin G') as In2. destruct (peek_some c2 In2 ltac:(by rewrite H41)) as [Hlt _].
    destruct (goes_code _ _ _ G') as (q2 & E2). cbn. eapply goes_trans; [apply G'|]. apply (goes_at p q2); [done|done|lia]. }
  destruct (ch =? 46).
  { destruct (Z.eqb_spec (peek c) 42) as [H42|]; [|by apply Happ]. destruct (peek_some c Hin ltac:(by rewrite H42)) as [Hlt _]. cbn. apply (goes_append p c (c_i c + 1) q); [done|unfold inside in Hin; lia|done|by apply okb_one]. }
  destruct (ch =? 42); [by apply star_safe|]. destruct (ch =? 43); [by apply plus_safe|]. destruct (ch =? 63); [by apply question_safe|]. destruct (ch =? 36); [by apply Happ|]. destruct (ch =? 94); [by apply Happ|].
  destruct (ch =? 123); [by apply braces_safe|]. destruct (ch =? 91); [by eapply char_class_safe|]. destruct (ch =? 92); [by eapply backslash_safe|]. by apply Happ.
Qed.

Lemma string_loop_safe re n fuel : group_ok re n -> forall c p q ip, inside c -> short_counts (c_z c) -> zlen (c_z c) - c_i c <= n -> zlen (c_z c) - c_i c < Z.of_nat fuel -> c_prog c = p ++ q -> prev_ok p c ip ->
  safe (string_loop re fuel c ip) (goes p c).
Proof.
  intros Hre. induction fuel as [|fuel IH]; intros c p q ip Hin Hz Hn Hf E Hp; [unfold inside in Hin; lia|]. cbn [string_loop]. destruct (next_char_safe c Hin) as (ch & i & -> & H). bind_step. destruct (Z.eqb_spec ch 0) as [->|Hch].
  { cbn. apply (goes_at p q); [done|done|]. unfold inside in Hin. destruct H as [|[_ ->]]; lia. }
  destruct H as [Hi|[]]; [|done]. cbv zeta. destruct ((ch =? 124) || (ch =? 41)); [cbn; change (at_i (at_i c i) (i - 1)) with (at_i c (i - 1)); apply (goes_at p q); [done|done|lia]|].
  all: assert (goes p c (at_i c i)) as G1 by (apply (goes_at p q); [done|done|lia]); assert (inside (at_i c i)) as In1 by (by eapply goes_inside).
  eapply (safe_bind _ _ _ _ (atom_safe re n p q (at_i c i) ch ip In1 Hz ltac:(cbn; lia) Hre E ltac:(destruct Hp as [|(a & C & ? & ?)]; [by left|right; by exists a, C]))).
  intros c2 G2. pose proof (goes_trans _ _ _ _ G1 G2) as G. pose proof (goes_inside _ _ _ Hin G) as In2. destruct (goes_code _ _ _ G) as (q2 & E2). destruct G2 as [Gz Gi (q2' & Eq2 & Hl & _)]. cbn in Gz, Gi, Hl.
  eapply safe_mono; [apply (IH c2 p q2); try done; [by rewrite Gz|rewrite Gz; lia|rewrite Gz; lia|]|].
  - apply (prev_split p q2); [done|]. unfold n_state. cbn. rewrite E2 in Hl. rewrite E in *. rewrite !zlen_app in *. pose proof (zlen_nonneg q). lia.
  - intros c3 G3. by eapply goes_trans.
Qed.

Lemma block_alt a b : zlen a + zlen b + 2 < 2 ^ 16 -> block a -> block b -> block ((RE_OP_FORK, arg32 (zlen a + 2)) :: a ++ (RE_OP_GOTO, arg32 (zlen b + 1)) :: b).
Proof.
  intros Hs Ha Hb. pose proof (zlen_nonneg a). pose proof (zlen_nonneg b). rewrite !arg_small by lia. apply block_cons; [unfold op_ok; cbn [fst snd]; rewrite zlen_app, zlen_cons; lia|]. apply block_app; [done|]. apply block_cons; [unfold op_ok; cbn [fst snd]; lia|done].
Qed.

Lemma alt_loop_safe str fuel n : (forall c, inside c -> short_counts (c_z c) -> zlen (c_z c) - c_i c <= n -> safe (str c) (goes (c_prog c) c)) ->
  forall c p q, inside c -> short_counts (c_z c) -> zlen (c_z c) - c_i c <= n -> zlen (c_z c) - c_i c <= Z.of_nat fuel -> c_prog c = p ++ q -> safe (alt_loop str fuel c (zlen p)) (goes p c).
Proof.
  intros Hstr. induction fuel as [|fuel IH]; intros c p q Hin Hz Hn Hf E; cbn [alt_loop]; (destruct (Z.eqb_spec (peek c) 124) as [H124|]; [|by apply (goes_refl p c q)]); destruct (peek_some c Hin ltac:(by rewrite H124)) as [Hlt _]; [lia|].
  cbv zeta. replace (n_state c + 2 - zlen p) with (zlen q + 2) by (unfold n_state; rewrite E, zlen_app; lia). rewrite (insert_raw c p q) by done. bind_step. cbv zeta. set (F := (RE_OP_FORK, arg32 (zlen q + 2))). replace (n_state (with_prog c (p ++ F :: q))) with (zlen (p ++ F :: q)) by done.
  set (c1 := at_i _ _). assert (c1 = mkCompiler (c_z c) (c_i c + 1) (c_nocase c) ((p ++ F :: q) ++ [(RE_OP_GOTO, arg32 0)]) (c_err c)) as E1 by done. clearbody c1. subst c1. set (p1 := p ++ F :: q). set (c1 := mkCompiler _ _ _ _ _). assert (inside c1) as In1 by (unfold inside in *; cbn; lia).
  eapply safe_bind; [apply (Hstr c1); [done|done|cbn; lia]|]. intros c2 [Gz Gi (g & Eg & _ & Hg)]. cbn [c1 c_z c_i c_prog] in *. rewrite <- app_assoc in Eg. cbn [app] in Eg. assert (okb g) as Hog by (apply (Hg []); [by rewrite app_nil_r|apply okb_nil]).
  unfold set_arg. rewrite Eg, idx_prog. bind_step. pose proof (zlen_nonneg p1). pose proof (zlen_nonneg g). rewrite set_idx_Ok by (rewrite zlen_app, zlen_cons; lia). bind_step. unfold n_state. rewrite Eg. replace (zlen (p1 ++ (RE_OP_GOTO, arg32 0) :: g) - zlen p1) with (zlen g + 1) by (rewrite zlen_app, zlen_cons; lia).
  replace (Z.to_nat (zlen p1)) with (length p1) by (unfold zlen; lia). rewrite insert_app_r_alt, Nat.sub_diag by lia. cbn [list_insert insert fst]. set (Q := (F :: q) ++ (RE_OP_GOTO, arg32 (zlen g + 1)) :: g). set (c3 := with_prog c2 _). assert (c_prog c3 = p ++ Q) as E3 by (unfold c3, Q, p1; cbn [c_prog with_prog]; assoc).
  assert (goes p c c3) as G3.
  { split; [done|cbn; lia|]. exists Q. split; [done|]. unfold Q. split; [rewrite E3, E; unfold Q; rewrite !zlen_app, !zlen_cons; lia|]. intros q0 E0 Ho. rewrite E in E0. apply app_inv_head in E0 as <-. cbn [app]. intros Hs. rewrite zlen_cons, zlen_app, zlen_cons in Hs. apply block_alt; [lia|apply Ho; lia|apply Hog; pose proof (zlen_nonneg q); lia]. }
  eapply safe_mono; [apply (IH c3 p Q); [apply (goes_inside p c c3 Hin G3)|by rewrite (go_z _ _ _ G3)|rewrite (go_z _ _ _ G3); change (c_i c3) with (c_i c2); lia|rewrite (go_z _ _ _ G3); change (c_i c3) with (c_i c2); lia|done]|]. intros c4 G4. by eapply goes_trans.
Qed.

Lemma subcompile_safe fuel : group_ok (subcompile_re fuel) (Z.of_nat fuel).
Proof.
  induction fuel as [|fuel IH]; intros c Hin Hz Hn; [unfold inside in Hin; lia|]. cbn [subcompile_re]. cbv zeta. set (str := fun c => string_loop (subcompile_re fuel) (S (length (c_z c))) c (-1)).
  assert (forall c, inside c -> short_counts (c_z c) -> zlen (c_z c) - c_i c <= Z.of_nat fuel -> safe (str c) (goes (c_prog c) c)) as Hstr.
  { intros c' Hin' Hz' Hn'. apply (string_loop_safe _ (Z.of_nat fuel) _ IH c' (c_prog c') []); try done; [unfold inside, zlen in *; lia|by rewrite app_nil_r|left; lia]. }
  eapply safe_bind; [apply (Hstr c Hin Hz); lia|]. intros c1 G. pose proof (goes_inside _ _ _ Hin G) as In1. destruct (goes_code _ _ _ G) as (q1 & E1). pose proof (go_z _ _ _ G) as Ez. pose proof (go_i _ _ _ G).
  eapply safe_mono; [apply (alt_loop_safe str (length (c_z c1)) (Z.of_nat fuel) Hstr c1 (c_prog c) q1); [done|by rewrite Ez|rewrite Ez; lia|unfold inside, zlen in *; lia|done]|]. intros c2 G2. by eapply goes_trans.
Qed.

(** ** Compiling and matching *)

Lemma c_string_prefix z : exists rest, z = c_string z ++ rest.
Proof. induction z as [|b z (rest & IH)]; [by exists []|]. cbn [c_string]. destruct (b =? 0); [by exists (b :: z)|]. exists rest. cbn. by rewrite <- IH. Qed.

Lemma c_string_nonzero z : Forall (fun b => b <> 0) (c_string z).
Proof. induction z as [|b z IH]; [constructor|]. cbn [c_string]. destruct (Z.eqb_spec b 0); [constructor|by constructor]. Qed.

Lemma short_counts_part a z b : short_counts (a ++ z ++ b) -> short_counts z.
Proof. intros H a' ds b' ->. apply (H (a ++ a') ds (b' ++ b)). by rewrite <- !app_assoc. Qed.

Lemma short_pattern z : (length z <= 18)%nat -> short_counts z.
Proof. intros H a ds b -> _. rewrite !length_app in H. lia. Qed.

(** What the compiler makes of any pattern. *)
Definition sound_regex (re : Regex) : Prop := (exists C, re_prog re = C ++ [(RE_OP_ACCEPT, 0)] /\ okb C) /\ n_init re <= zlen (z_init re).

Lemma prefix_len_le z : prefix_len z <= zlen z.
Proof. unfold prefix_len. destruct (last z) as [[]|]; lia. Qed.

Lemma compile_safe pattern nocase : short_counts pattern -> safe (compile pattern nocase) sound_regex.
Proof.
  intros Hsc. unfold compile. destruct (c_string_prefix pattern) as (rest & Er). assert (short_counts (c_string pattern)) as Hs by (apply (short_counts_part [] _ rest); cbn; by rewrite <- Er).
  assert (exists z p0, (match c_string pattern with 94 :: z => (z, [] : Prog) | _ => (c_string pattern, [(RE_OP_ANYSTAR, 0)]) end) = (z, p0) /\ short_counts z /\ okb p0) as (z & p0 & -> & Hz & Hp0).
  { assert (okb [(RE_OP_ANYSTAR, 0)]) as Ho by (by apply okb_one). destruct (c_string pattern) as [|x z]; [by eexists _, _|]. destruct (Z.eq_dec x 94) as [->|Hx].
    - exists z, []. split; [done|]. split; [|apply okb_nil]. apply (short_counts_part [94] z []). by rewrite app_nil_r.
    - exists (x :: z), [(RE_OP_ANYSTAR, 0)]. split; [|done]. repeat (destruct x as [|x|x]; try done). }
  set (c0 := mkCompiler z 0 nocase p0 None). assert (inside c0) as Hin by (unfold inside; cbn; pose proof (zlen_nonneg z); lia).
  apply (safe_bind _ _ _ _ (subcompile_safe (S (length z)) c0 Hin Hz ltac:(cbn; unfold zlen; lia))). intros c1 [Gz Gi (q & Eq & _ & Hq)]. cbn [c0 c_z c_prog] in Gz, Eq, Hq. destruct (c_i c1 <? zlen z); [done|].
  destruct (c_err (re_append c1 RE_OP_ACCEPT 0)); [done|]. cbn [safe]. match goal with |- context [prefix_len ?x] => set (zi := x) end. split; cbn [re_prog z_init n_init].
  - exists (p0 ++ q). cbn. rewrite Eq. split; [done|]. apply okb_app; [done|]. apply (Hq []); [by rewrite app_nil_r|apply okb_nil].
  - rewrite zlen_app. pose proof (zlen_nonneg (zrep (12 - zlen zi) 0)). pose proof (prefix_len_le zi). lia.
Qed.

Lemma matches_safe re subject nocase : sound_regex re -> zlen (re_prog re) <= 2 ^ 16 -> exists b, matches re subject nocase = Ok b.
Proof.
  intros [(C & EC & HC) Hn] Hlen. assert (wf (re_prog re)) as Hwf. { rewrite EC in *. rewrite zlen_snoc in Hlen. apply block_wf; [apply HC; lia|lia]. }
  unfold matches. set (z := c_string subject). pose proof (c_string_nonzero subject) as Hz. fold z in Hz. assert (states (zlen (re_prog re)) [0]) as Hst by (split; [apply NoDup_singleton|]; constructor; [|constructor]; pose proof (wf_len _ Hwf); lia).
  assert (forall i cp, 0 <= i -> cp <> 0 -> exists b, (let* o := input_loop (S (S (length z))) (re_prog re) z i cp nocase (re_add_state [] 0) in match o with None => Ok true | Some nx => final_states (re_prog re) nx end) = Ok b) as Hrun.
  { intros i cp Hi Hcp. destruct (spells_total nocase z Hz (length z) i Hi ltac:(unfold zlen; lia)) as (cs & Hcs & Hl). destruct (input_loop_decides _ Hwf nocase z cs i cp [0] (S (S (length z))) Hcs Hcp Hst ltac:(lia)) as (o & b & E & Hb & _).
    change (re_add_state [] 0) with [0]. rewrite E. bind_step. exists b. destruct o; congruence. }
  destruct (Z.ltb_spec 0 (n_init re)) as [Hpos|]; [|bind_step; by apply Hrun]. rewrite slice_Ok by lia. bind_step. set (p := sub (z_init re) 0 (n_init re)). assert (zlen p = n_init re) as Hp by (unfold p; rewrite zlen_sub; lia).
  destruct (find_prefix_spec z p (S (length z)) 0) as (o & -> & Ho); [lia|unfold zlen; lia|intros E; rewrite E, zlen_nil in Hp; lia|]. do 2 bind_step. destruct o as [k|]; [apply Hrun; [lia|done]|by exists false].
Qed.

(** C35: the regular-expression engine is safe and terminates on arbitrary
    bytes. Whatever the pattern (no run of nineteen digits in it, so that the
    counts in braces fit an [i64]), compiling it ends in a program or an error
    message, never in a panic; and when the program has at most 65536 opcodes,
    matching it against any bytes, case-folded or not, ends with an answer: no
    state is out of range, no vector is indexed past its end, and neither the
    simulation nor the final chain of jumps runs forever. *)
Theorem regexp_total pattern subject nocase (Hc : short_counts pattern) :
  match compile pattern nocase with
  | Ok re => zlen (re_prog re) <= 2 ^ 16 -> exists b, matches re subject nocase = Ok b
  | Err _ => True
  | Panic => False
  end.
Proof.
  pose proof (compile_safe pattern nocase Hc) as H. destruct (compile pattern nocase); [|done|done]. intros Hl. by apply matches_safe.
Qed.

(** [(ab)*?x{2,3}[^a-] on bytes that are not UTF-8. *)
Definition wild_pattern : bytes := [40; 97; 98; 41; 42; 63; 120; 123; 50; 44; 51; 125; 91; 94; 97; 45; 93].

Lemma regexp_total_witness :
  match compile wild_pattern true with
  | Ok re => zlen (re_prog re) <= 2 ^ 16 -> exists b, matches re [195; 255; 120] true = Ok b
  | Err _ => True
  | Panic => False
  end.
Proof. apply (regexp_total wild_pattern [195; 255; 120] true). apply short_pattern. vm_compute. lia. Defined.

(** A count of twenty digits overflows. *)
Example count_overflow : compile ([97; 123] ++ replicate 20 57 ++ [125]) false = Panic.
Proof. vm_compute. reflexivity. Qed.

End RegexSafe.
