(* ===== verification/Session.v ===== *)
(** Change-tracking sessions ([src/src/session.rs]): the recorder, the
    changeset and patchset writer, and the reader of both formats.

    The recorder keeps, per table, a hash table of the first change of every
    row; its buckets are lists in the source's order (newest first), because
    that order is the order of the records in the blob. The writer's [out]
    only grows, so each [append_*] is given as the bytes it appends. The
    reader is a parser over the whole blob and a position. *)

From S2P Require Import Prelude Varint Value.
Import Varint Value.
Local Open Scope Z_scope.

Module Session.

Definition OP_INSERT : Z := 18.
Definition OP_UPDATE : Z := 23.
Definition OP_DELETE : Z := 9.

Definition T_INT : Z := 1.
Definition T_FLOAT : Z := 2.
Definition T_TEXT : Z := 3.
Definition T_BLOB : Z := 4.
Definition T_NULL : Z := 5.
Definition T_OMIT : Z := 0.

Inductive ChangeOp : Type := Insert | Update | Delete.

#[export] Instance ChangeOp_eq_dec : EqDecision ChangeOp.
Proof. solve_decision. Defined.

(** ** The recorder *)

Record Change : Type := mkChange {
  c_op : ChangeOp;
  c_pk : list Value;
  c_old : list Value;
  c_indirect : bool }.

(** [HASH_APPEND] on [u32]. *)
Definition hash_append (h add : Z) : Z := Z.lxor (Z.lxor (wrap 32 (Z.shiftl h 3)) h) add.

Definition hash_i64 (h i : Z) : Z :=
  let u := to_unsigned 64 i in
  let h := hash_append h (Z.land u 0xFFFFFFFF) in
  hash_append h (Z.land (Z.shiftr u 32) 0xFFFFFFFF).

Definition hash_blob (h : Z) (b : bytes) : Z := fold_left hash_append b h.

Definition hash_pk_value (h : Z) (v : Value) : Z :=
  match v with
  | Null => hash_append h T_NULL
  | Integer i => hash_i64 (hash_append h T_INT) i
  | Real r => hash_i64 (hash_append h T_FLOAT) r
  | Text s => hash_blob (hash_append h T_TEXT) s
  | Blob b => hash_blob (hash_append h T_BLOB) b
  end.

Definition hash_pk (pk : list Value) : Z := fold_left hash_pk_value pk 0.

(** [h % n as u32]: the cast wraps, and a zero divisor panics. *)
Definition rem_u32 (h n : Z) : res Z := if wrap 32 n =? 0 then Panic else Ok (h mod wrap 32 n).

(** [buckets[idx].insert(0, c)]. *)
Definition prepend {A} (bs : list (list A)) (i : Z) (c : A) : res (list (list A)) :=
  let* b := idx bs i in
  set_idx bs i (c :: b).

(** The rehash loops of [maybe_grow]: every chain from head to tail, each
    change prepended to its new bucket; [h] is the bucket of a change. *)
Fixpoint rehash_chain {A} (h : A -> res Z) (l : list A) (nb : list (list A)) : res (list (list A)) :=
  match l with
  | [] => Ok nb
  | c :: l =>
      let* i := h c in
      let* nb := prepend nb i c in
      rehash_chain h l nb
  end.

Fixpoint rehash {A} (h : A -> res Z) (bs nb : list (list A)) : res (list (list A)) :=
  match bs with
  | [] => Ok nb
  | b :: bs =>
      let* nb := rehash_chain h b nb in
      rehash h bs nb
  end.

Record TableChanges : Type := mkTable {
  t_name : bytes;
  t_ncol : Z;
  t_pk_flags : bytes;
  t_buckets : list (list Change);
  t_nentry : Z }.

Definition new_table (name : bytes) (ncol : Z) (pk_flags : bytes) : TableChanges := mkTable name ncol pk_flags [] 0.

Definition bucket (t : TableChanges) (pk : list Value) : res Z := rem_u32 (hash_pk pk) (zlen (t_buckets t)).

Definition maybe_grow (t : TableChanges) : res TableChanges :=
  let n := zlen (t_buckets t) in
  if (n =? 0) || (n / 2 <=? t_nentry t) then
    let new_n := if n =? 0 then 256 else n * 2 in
    let* nb := rehash (fun c => rem_u32 (hash_pk (c_pk c)) new_n) (t_buckets t) (zrep new_n []) in
    Ok (mkTable (t_name t) (t_ncol t) (t_pk_flags t) nb (t_nentry t))
  else Ok t.

(** One column of [pk_eq]: reals are compared by their bit patterns. *)
Definition pk_value_eq (x y : Value) : bool :=
  match x, y with
  | Null, Null => true
  | Integer i, Integer j => i =? j
  | Real i, Real j => i =? j
  | Text i, Text j => bool_decide (i = j)
  | Blob i, Blob j => bool_decide (i = j)
  | _, _ => false
  end.

Definition pk_eq (a b : list Value) : bool :=
  if negb (zlen a =? zlen b) then false else forallb (fun '(x, y) => pk_value_eq x y) (zip a b).

(** The search of [record] in one chain: the chain with the indirect flag of
    the first change for [pk] updated, or [None] when there is none. *)
Fixpoint touch (l : list Change) (pk : list Value) (indirect : bool) : option (list Change) :=
  match l with
  | [] => None
  | c :: l =>
      if pk_eq (c_pk c) pk then
        Some ((if c_indirect c && negb indirect then mkChange (c_op c) (c_pk c) (c_old c) false else c) :: l)
      else
        match touch l pk indirect with
        | Some l => Some (c :: l)
        | None => None
        end
  end.

Definition record_change (t : TableChanges) (op : ChangeOp) (pk old : list Value) (indirect : bool) : res TableChanges :=
  let* t := maybe_grow t in
  let* i := bucket t pk in
  let* b := idx (t_buckets t) i in
  match touch b pk indirect with
  | Some b =>
      let* bs := set_idx (t_buckets t) i b in
      Ok (mkTable (t_name t) (t_ncol t) (t_pk_flags t) bs (t_nentry t))
  | None =>
      let* bs := prepend (t_buckets t) i (mkChange op pk old indirect) in
      Ok (mkTable (t_name t) (t_ncol t) (t_pk_flags t) bs (t_nentry t + 1))
  end.

Record SessionState : Type := mkState {
  enabled : bool;
  attach_all : bool;
  attached : list bytes;
  indirect_mode : bool;
  tables : list TableChanges }.

Definition default_state : SessionState := mkState false false [] false [].

Definition set_tables (s : SessionState) (ts : list TableChanges) : SessionState :=
  mkState (enabled s) (attach_all s) (attached s) (indirect_mode s) ts.

(** The update of the table named [table], or of a new one pushed at the end. *)
Fixpoint record_in (ts : list TableChanges) (table : bytes) (ncol : Z) (pk_flags : bytes)
    (op : ChangeOp) (pk old : list Value) (indirect : bool) : res (list TableChanges) :=
  match ts with
  | [] =>
      let* t := record_change (new_table table ncol pk_flags) op pk old indirect in
      Ok [t]
  | t :: ts =>
      if bool_decide (t_name t = table) then
        let* t := record_change t op pk old indirect in
        Ok (t :: ts)
      else
        let* ts := record_in ts table ncol pk_flags op pk old indirect in
        Ok (t :: ts)
  end.

Definition is_null (v : Value) : bool := match v with Null => true | _ => false end.

Definition record (s : SessionState) (table : bytes) (ncol : Z) (pk_flags : bytes)
    (op : ChangeOp) (pk old : list Value) (indirect : bool) : res SessionState :=
  if negb (enabled s) then Ok s
  else
    let indirect := indirect || indirect_mode s in
    if negb (attach_all s) && negb (existsb (fun t => bool_decide (t = table)) (attached s)) then Ok s
    else if existsb is_null pk then Ok s
    else
      let* ts := record_in (tables s) table ncol pk_flags op pk old indirect in
      Ok (set_tables s ts).

Definition attach (s : SessionState) : SessionState :=
  mkState true true (attached s) (indirect_mode s) (tables s).

Definition attach_table (s : SessionState) (table : bytes) : SessionState :=
  mkState true (attach_all s)
    (if existsb (fun t => bool_decide (t = table)) (attached s) then attached s else attached s ++ [table])
    (indirect_mode s) (tables s).

Definition set_indirect (s : SessionState) (indirect : bool) : SessionState * bool :=
  (mkState (enabled s) (attach_all s) (attached s) indirect (tables s), indirect).

Definition table_is_empty (t : TableChanges) : bool := t_nentry t =? 0.

Definition is_empty (s : SessionState) : bool := forallb table_is_empty (tables s).

(** ** The write-path hook ([Connection::record_session_change]) *)

(** The primary-key layout of a table: the flags, the positions of the key
    columns in column order, and the rowid-alias column. *)
Record Layout : Type := mkLayout {
  l_flags : bytes;
  l_positions : list Z;
  l_ipk : option Z }.

(** [pk_values]: the key columns of a row; the rowid stands in for a rowid
    alias that holds no integer. *)
Fixpoint key_columns (ps : list Z) (ipk : option Z) (rowid : Z) (row : list Value) : res (list Value) :=
  match ps with
  | [] => Ok []
  | p :: ps =>
      let* v := idx row p in
      let v := if bool_decide (Some p = ipk) then
                 match v with Integer i => Integer i | _ => Integer rowid end
               else v in
      let* vs := key_columns ps ipk rowid row in
      Ok (v :: vs)
  end.

Definition pk_values (ly : Layout) (rowid : Z) (row : list Value) : res (option (list Value)) :=
  if zlen row <? zlen (l_flags ly) then Ok None
  else
    let* vs := key_columns (l_positions ly) (l_ipk ly) rowid row in
    Ok (Some vs).

Definition record_session_change (s : SessionState) (table : bytes) (layout : option Layout)
    (op : ChangeOp) (rowid : Z) (old_row new_row : option (list Value)) (indirect : bool) : res SessionState :=
  match layout with
  | None => Ok s
  | Some ly =>
      let ncol := zlen (l_flags ly) in
      match op with
      | Insert =>
          match new_row with
          | None => Ok s
          | Some row =>
              let* pk := pk_values ly rowid row in
              match pk with
              | None => Ok s
              | Some pk => record s table ncol (l_flags ly) op pk (zrep ncol Null) indirect
              end
          end
      | Delete =>
          match old_row with
          | None => Ok s
          | Some row =>
              if zlen row <? ncol then Ok s
              else
                let* pk := pk_values ly rowid row in
                match pk with
                | None => Ok s
                | Some pk =>
                    let* old := slice row 0 ncol in
                    record s table ncol (l_flags ly) op pk old indirect
                end
          end
      | Update =>
          match old_row, new_row with
          | Some oldr, Some newr =>
              if (zlen oldr <? ncol) || (zlen newr <? ncol) then Ok s
              else
                let* old_pk := pk_values ly rowid oldr in
                let* new_pk := pk_values ly rowid newr in
                match old_pk, new_pk with
                | Some old_pk, Some new_pk =>
                    let* old := slice oldr 0 ncol in
                    let* s := record s table ncol (l_flags ly) Update old_pk old indirect in
                    record s table ncol (l_flags ly) Insert new_pk (zrep ncol Null) indirect
                | _, _ => Ok s
                end
          | _, _ => Ok s
          end
      end
  end.

(** ** The writer *)

(** The 7-bit groups of [while val != 0], least significant first; ten
    rounds exceed the 64 bits of [val], and [buf[n]] is in range. *)
Fixpoint low_groups (fuel : nat) (val : Z) : bytes :=
  match fuel with
  | O => []
  | S fuel => if val =? 0 then [] else Z.land val 0x7f :: low_groups fuel (Z.shiftr val 7)
  end.

(** The loop [for i in (0..9).rev()] of the long form: the groups in front of
    the last byte. *)
Fixpoint long_groups (k : nat) (val : Z) (acc : bytes) : bytes :=
  match k with
  | O => acc
  | S k => long_groups k (Z.shiftr val 7) (Z.lor (Z.land val 0x7f) 0x80 :: acc)
  end.

(** The bytes [append_varint] appends: every group but the last carries the
    high bit; a value with a non-zero top byte takes the long form. *)
Definition append_varint (v : Z) : bytes :=
  if v <=? 0x7f then [v]
  else if negb (Z.land v 0xff00000000000000 =? 0) then
    long_groups 9 (Z.shiftr v 8) [Z.land v 0xff]
  else
    match low_groups 10 v with
    | [] => []
    | last :: high => map (fun b => Z.lor b 0x80) (rev high) ++ [last]
    end.

Definition append_value (v : Value) : bytes :=
  match v with
  | Null => [T_NULL]
  | Integer i => T_INT :: be_bytes 8 (to_unsigned 64 i)
  | Real r => T_FLOAT :: be_bytes 8 r
  | Text s => T_TEXT :: append_varint (zlen s) ++ s
  | Blob b => T_BLOB :: append_varint (zlen b) ++ b
  end.

(** [PartialEq for Value]: derived, with the comparison of [f64] on reals. *)
Definition value_eq (x y : Value) : bool :=
  match x, y with
  | Null, Null => true
  | Integer i, Integer j => i =? j
  | Real i, Real j => match f64_partial_cmp i j with Some Eq => true | _ => false end
  | Text i, Text j => bool_decide (i = j)
  | Blob i, Blob j => bool_decide (i = j)
  | _, _ => false
  end.

(** [pk_flags.get(i).copied().unwrap_or(0) != 0]. *)
Definition is_pk (pk_flags : bytes) (i : Z) : bool := negb (default 0 (get pk_flags i) =? 0).

Definition bool_byte (b : bool) : Z := if b then 1 else 0.

(** [for (i, v) in old.iter().enumerate()] of [append_delete]. *)
Fixpoint delete_cols (pk_flags : bytes) (patchset : bool) (i : Z) (old : list Value) : bytes :=
  match old with
  | [] => []
  | v :: old =>
      (if patchset then if is_pk pk_flags i then append_value v else [] else append_value v)
      ++ delete_cols pk_flags patchset (i + 1) old
  end.

Definition append_delete (old : list Value) (pk_flags : bytes) (patchset indirect : bool) : bytes :=
  [OP_DELETE; bool_byte indirect] ++ delete_cols pk_flags patchset 0 old.

(** [for i in 0..ncol] of [append_update]: the bytes pushed to [out], those
    pushed to [new_rec], and whether a column changed. *)
Fixpoint update_cols (pk_flags : bytes) (patchset : bool) (i : Z) (old new : list Value) : bytes * bytes * bool :=
  match old, new with
  | o :: old, n :: new =>
      let is_pk := is_pk pk_flags i in
      let changed := negb (value_eq o n) in
      let out := if patchset then [] else if changed || is_pk then append_value o else [T_OMIT] in
      let rec := if changed || (patchset && is_pk) then append_value n else [T_OMIT] in
      let '(outs, recs, any) := update_cols pk_flags patchset (i + 1) old new in
      (out ++ outs, rec ++ recs, changed || any)
  | _, _ => ([], [], false)
  end.

(** [append_update]: [None] when nothing changed and [out] is truncated. *)
Definition append_update (old new : list Value) (pk_flags : bytes) (patchset indirect : bool) : option bytes :=
  let '(out, new_rec, changed_any) := update_cols pk_flags patchset 0 old new in
  if negb changed_any then None
  else Some ([OP_UPDATE; bool_byte indirect] ++ out ++ new_rec).

Section serialize.
Context (read_row : bytes -> list Value -> option (list Value)).

(** The body of the loop over the changes: the bytes written, [None] when the
    change contributes nothing. *)
Definition change_bytes (t : TableChanges) (patchset : bool) (c : Change) : option bytes :=
  match c_op c, read_row (t_name t) (c_pk c) with
  | Insert, Some row => Some ([OP_INSERT; bool_byte (c_indirect c)] ++ concat (append_value <$> row))
  | Insert, None => None
  | (Update | Delete), Some row => append_update (c_old c) row (t_pk_flags t) patchset (c_indirect c)
  | (Update | Delete), None => Some (append_delete (c_old c) (t_pk_flags t) patchset (c_indirect c))
  end.

Fixpoint changes_bytes (t : TableChanges) (patchset : bool) (cs : list Change) : bytes * bool :=
  match cs with
  | [] => ([], false)
  | c :: cs =>
      let '(rest, any) := changes_bytes t patchset cs in
      match change_bytes t patchset c with
      | Some b => (b ++ rest, true)
      | None => (rest, any)
      end
  end.

Definition table_header (marker ncol : Z) (pk_flags name : bytes) : bytes :=
  [marker] ++ append_varint ncol ++ pk_flags ++ name ++ [0].

(** One iteration of the loop over the tables; the header is dropped when no
    change was written. *)
Definition table_bytes (patchset : bool) (t : TableChanges) : bytes :=
  if table_is_empty t then []
  else
    let '(body, wrote_any) := changes_bytes t patchset (concat (t_buckets t)) in
    if wrote_any then table_header (if patchset then 80 else 84) (t_ncol t) (t_pk_flags t) (t_name t) ++ body
    else [].

Definition serialize_impl (s : SessionState) (patchset : bool) : bytes :=
  concat (table_bytes patchset <$> tables s).

Definition serialize (s : SessionState) : bytes := serialize_impl s false.
Definition serialize_patchset (s : SessionState) : bytes := serialize_impl s true.

End serialize.

(** ** The reader *)

Definition parser (A : Type) : Type := bytes -> Z -> res (A * Z).

Definition p_ret {A} (a : A) : parser A := fun _ pos => Ok (a, pos).
Definition p_err {A} (e : Error) : parser A := fun _ _ => Err e.
Definition p_bind {A B} (m : parser A) (f : A -> parser B) : parser B :=
  fun data pos =>
    let* r := m data pos in
    f r.1 data r.2.

Notation "'let^' x := m 'in' k" := (p_bind m (fun x => k)) 
  (at level 10, x pattern, m at level 200, k at level 200).

Definition corrupt (msg : string) : Error := ECorrupt ("changeset: " +:+ msg).

Definition read_u8 : parser Z := fun data pos =>
  match get data pos with
  | Some b => Ok (b, pos + 1)
  | None => Err (corrupt "unexpected end of changeset")
  end.

Definition peek : parser Z := fun data pos =>
  match get data pos with
  | Some b => Ok (b, pos)
  | None => Err (corrupt "unexpected end of changeset")
  end.

(** [take]: the sum is checked, and an overflow is the same error as an end
    behind the data, whose length is below [2^64]. *)
Definition read_take (n : Z) : parser bytes := fun data pos =>
  if pos + n <=? zlen data then
    let* s := slice data pos (pos + n) in
    Ok (s, pos + n)
  else Err (corrupt "truncated changeset field").

(** [varint]: [i] counts the bytes left of the nine. *)
Fixpoint varint_loop (left_ : nat) (result : Z) : parser Z :=
  match left_ with
  | O => p_ret result
  | S left' =>
      let^ byte := read_u8 in
      match left' with
      | O => p_ret (Z.lor (wrap 64 (Z.shiftl result 8)) byte)
      | _ =>
          let result := Z.lor (wrap 64 (Z.shiftl result 7)) (Z.land byte 0x7f) in
          if Z.land byte 0x80 =? 0 then p_ret result else varint_loop left' result
      end
  end.

Definition read_varint : parser Z := varint_loop 9 0.

Definition read_value : parser (option Value) :=
  let^ t := read_u8 in
  if t =? T_OMIT then p_ret None
  else if t =? T_NULL then p_ret (Some Null)
  else if t =? T_INT then
    let^ b := read_take 8 in
    p_ret (Some (Integer (to_signed 64 (be_val b))))
  else if t =? T_FLOAT then
    let^ b := read_take 8 in
    p_ret (Some (Real (be_val b)))
  else if t =? T_TEXT then
    let^ n := read_varint in
    let^ b := read_take n in
    if utf8_valid b then p_ret (Some (Text b)) else p_err (corrupt "non-UTF-8 text in changeset")
  else if t =? T_BLOB then
    let^ n := read_varint in
    let^ b := read_take n in
    p_ret (Some (Blob b))
  else p_err (corrupt ("unknown changeset value type " +:+ fmt_Z t)).

Fixpoint read_record (ncol : nat) : parser (list (option Value)) :=
  match ncol with
  | O => p_ret []
  | S ncol =>
      let^ v := read_value in
      let^ vs := read_record ncol in
      p_ret (v :: vs)
  end.

(** [pk_only_record]: the columns from [i] on. *)
Fixpoint pk_only_record (ncol : nat) (pk_flags : bytes) (i : Z) : parser (list (option Value)) :=
  match ncol with
  | O => p_ret []
  | S ncol =>
      if is_pk pk_flags i then
        let^ v := read_value in
        let^ vs := pk_only_record ncol pk_flags (i + 1) in
        p_ret (v :: vs)
      else
        let^ vs := pk_only_record ncol pk_flags (i + 1) in
        p_ret (None :: vs)
  end.

Record ChangeRecord : Type := mkRecord {
  r_op : ChangeOp;
  r_old : list (option Value);
  r_new : list (option Value) }.

Record TableChangeset : Type := mkTableChangeset {
  tc_name : bytes;
  tc_ncol : Z;
  tc_pk_flags : bytes;
  tc_changes : list ChangeRecord }.

(** [Vec::<u8>::with_capacity(n)] panics above [isize::MAX]. *)
Definition with_capacity (n : Z) : parser unit := fun _ pos => if 2 ^ 63 <=? n then Panic else Ok ((), pos).

Fixpoint read_flags (ncol : nat) : parser bytes :=
  match ncol with
  | O => p_ret []
  | S ncol =>
      let^ b := read_u8 in
      let^ bs := read_flags ncol in
      p_ret (b :: bs)
  end.

(** The loop that reads up to the NUL; a byte is read on every round, so the
    length of the data bounds them. *)
Fixpoint nul_loop (fuel : nat) : parser unit :=
  match fuel with
  | O => fun _ _ => Panic
  | S fuel =>
      let^ b := read_u8 in
      if b =? 0 then p_ret () else nul_loop fuel
  end.

Definition read_name : parser bytes := fun data start =>
  let* r := nul_loop (S (length data)) data start in
  let* s := slice data start (r.2 - 1) in
  Ok (s, r.2).

(** [ncol], the flags and the name of a table header, the marker byte read. *)
Definition read_header (zero : string) : parser (Z * bytes * bytes) :=
  let^ ncol := read_varint in
  if ncol =? 0 then p_err (corrupt zero)
  else
    let^ _ := with_capacity ncol in
    let^ pk_flags := read_flags (Z.to_nat ncol) in
    let^ name := read_name in
    p_ret (ncol, pk_flags, name).

(** The [old.*] a patchset update synthesises: the key columns of [new]. *)
Fixpoint pk_part (pk_flags : bytes) (new : list (option Value)) : list (option Value) :=
  match new, pk_flags with
  | v :: new, f :: flags => (if f =? 0 then None else v) :: pk_part flags new
  | _ :: new, [] => None :: pk_part [] new
  | [], _ => []
  end.

Definition parse_record (patchset : bool) (ncol : Z) (pk_flags : bytes) : parser ChangeRecord :=
  let^ op := read_u8 in
  let^ _indirect := read_u8 in
  if op =? OP_INSERT then
    let^ new := read_record (Z.to_nat ncol) in
    p_ret (mkRecord Insert [] new)
  else if op =? OP_DELETE then
    let^ old := if patchset then pk_only_record (Z.to_nat ncol) pk_flags 0 else read_record (Z.to_nat ncol) in
    p_ret (mkRecord Delete old [])
  else if patchset then
    let^ new := read_record (Z.to_nat ncol) in
    p_ret (mkRecord Update (pk_part pk_flags new) new)
  else
    let^ old := read_record (Z.to_nat ncol) in
    let^ new := read_record (Z.to_nat ncol) in
    p_ret (mkRecord Update old new).

(** [{other:#x}] of a byte. *)
Definition hex_digit (d : Z) : string := String (Ascii.ascii_of_nat (Z.to_nat (if d <? 10 then 48 + d else 87 + d))) EmptyString.
Definition fmt_hex (b : Z) : string :=
  "0x" +:+ (if b <? 16 then "" else hex_digit (b / 16)) +:+ hex_digit (b mod 16).

(** [while !r.eof()]: the tables read so far, the current one last, and the
    kind of its header. Every round reads a byte. *)
Fixpoint parse_loop (fuel : nat) (data : bytes) (pos : Z) (tables : list TableChangeset) (patchset : bool) :
    res (list TableChangeset) :=
  if zlen data <=? pos then Ok tables
  else
    match fuel with
    | O => Panic
    | S fuel =>
        let* m := peek data pos in
        let marker := m.1 in
        if (marker =? 84) || (marker =? 80) then
          let patchset := marker =? 80 in
          let* u := read_u8 data pos in
          let* h := read_header "table has zero columns" data u.2 in
          let '(ncol, pk_flags, name) := h.1 in
          if utf8_valid name then
            parse_loop fuel data h.2 (tables ++ [mkTableChangeset name ncol pk_flags []]) patchset
          else Err (corrupt "non-UTF-8 table name")
        else if (marker =? OP_INSERT) || (marker =? OP_UPDATE) || (marker =? OP_DELETE) then
          match rev tables with
          | [] => Err (corrupt "change record before any table header")
          | t :: before =>
              let* r := parse_record patchset (tc_ncol t) (tc_pk_flags t) data pos in
              parse_loop fuel data r.2
                (rev before ++ [mkTableChangeset (tc_name t) (tc_ncol t) (tc_pk_flags t) (tc_changes t ++ [r.1])])
                patchset
          end
        else Err (corrupt ("unexpected marker byte " +:+ fmt_hex marker))
    end.

Definition parse_changeset (data : bytes) : res (list TableChangeset) :=
  parse_loop (length data) data 0 [] false.

End Session.
