(* ===== verification/SessionRead.v ===== *)
(** What the writer of [Session.v] writes, the reader reads back: fields,
    records, table headers and whole blobs, changesets and patchsets alike.

    [reads p b x] says that the parser [p], standing in front of the bytes [b]
    anywhere in a blob, consumes exactly them and answers [x]; it composes
    along [p_bind], so that each lemma follows the shape of its parser. *)

From S2P Require Import Prelude Varint Value Session.
Import Varint Value Session.
Local Open Scope Z_scope.

Module SessionRead.

Definition reads {A} (p : parser A) (b : bytes) (x : A) : Prop :=
  forall pre rest, p (pre ++ b ++ rest) (zlen pre) = Ok (x, zlen (pre ++ b)).

(** A value the format can carry: its text is UTF-8 and its length is below
    the range in which [append_varint] writes ten bytes. *)
Definition storable (v : Value) : Prop :=
  wf_value v /\
  match v with
  | Text s => utf8_valid s = true /\ zlen s < 2 ^ 56
  | Blob b => zlen b < 2 ^ 56
  | _ => True
  end.

(** ** The records a blob stands for *)

(** [columns f i l]: [f] on the columns of [l], numbered from [i]. *)
Fixpoint columns {A B} (f : Z -> A -> B) (i : Z) (l : list A) : list B :=
  match l with
  | [] => []
  | x :: l => f i x :: columns f (i + 1) l
  end.

Definition delete_field (pk_flags : bytes) (patchset : bool) (i : Z) (v : Value) : option Value :=
  if patchset && negb (is_pk pk_flags i) then None else Some v.

Definition delete_record (pk_flags : bytes) (patchset : bool) (old : list Value) : list (option Value) :=
  columns (delete_field pk_flags patchset) 0 old.

(** The columns of an update: what the [old.*] and [new.*] records carry. *)
Definition old_field (pk_flags : bytes) (patchset : bool) (i : Z) (c : Value * Value) : option Value :=
  if patchset then if is_pk pk_flags i then Some c.2 else None
  else if negb (value_eq c.1 c.2) || is_pk pk_flags i then Some c.1 else None.

Definition new_field (pk_flags : bytes) (patchset : bool) (i : Z) (c : Value * Value) : option Value :=
  if negb (value_eq c.1 c.2) || (patchset && is_pk pk_flags i) then Some c.2 else None.

Definition update_old (pk_flags : bytes) (patchset : bool) (old new : list Value) : list (option Value) :=
  columns (old_field pk_flags patchset) 0 (zip old new).

Definition update_new (pk_flags : bytes) (patchset : bool) (old new : list Value) : list (option Value) :=
  columns (new_field pk_flags patchset) 0 (zip old new).

Definition rows_differ (old new : list Value) : bool := existsb (fun '(o, n) => negb (value_eq o n)) (zip old new).

Section expected.
Context (read_row : bytes -> list Value -> option (list Value)).

(** The record of one recorded change. *)
Definition change_record (t : TableChanges) (patchset : bool) (c : Change) : option ChangeRecord :=
  match c_op c, read_row (t_name t) (c_pk c) with
  | Insert, Some row => Some (mkRecord Insert [] (Some <$> row))
  | Insert, None => None
  | (Update | Delete), Some row =>
      if rows_differ (c_old c) row then
        Some (mkRecord Update (update_old (t_pk_flags t) patchset (c_old c) row) (update_new (t_pk_flags t) patchset (c_old c) row))
      else None
  | (Update | Delete), None => Some (mkRecord Delete (delete_record (t_pk_flags t) patchset (c_old c)) [])
  end.

Definition table_records (patchset : bool) (t : TableChanges) : list TableChangeset :=
  if table_is_empty t then []
  else
    match omap (change_record t patchset) (concat (t_buckets t)) with
    | [] => []
    | rs => [mkTableChangeset (t_name t) (t_ncol t) (t_pk_flags t) rs]
    end.

Definition session_records (s : SessionState) (patchset : bool) : list TableChangeset :=
  concat (table_records patchset <$> tables s).

(** The shape of a recorded table: flags for every column, a name that ends
    at its NUL, and rows of that width, the ones read included. *)
Definition wf_row (ncol : Z) (row : list Value) : Prop := zlen row = ncol /\ Forall storable row.

Definition wf_changes (t : TableChanges) : Prop :=
  0 < t_ncol t < 2 ^ 56 /\ zlen (t_pk_flags t) = t_ncol t /\ is_bytes (t_name t) /\
  utf8_valid (t_name t) = true /\ 0 ∉ t_name t /\
  Forall (fun c => wf_row (t_ncol t) (c_old c) /\ (forall row, read_row (t_name t) (c_pk c) = Some row -> wf_row (t_ncol t) row))
    (concat (t_buckets t)).
End expected.

(** ** Composition *)

Lemma reads_ret {A} (x : A) : reads (p_ret x) [] x.
Proof. intros pre rest. unfold p_ret. by rewrite app_nil_r. Qed.

Lemma reads_bind {A B} (p : parser A) (f : A -> parser B) b c x y :
  reads p b x -> reads (f x) c y -> reads (p_bind p f) (b ++ c) y.
Proof.
  intros H K pre rest. unfold p_bind. specialize (H pre (c ++ rest)). specialize (K (pre ++ b) rest).
  rewrite <- !(assoc_L app) in *. rewrite H. bind_step. simpl. exact K.
Qed.

Lemma reads_bind_ret {A B} (p : parser A) (g : A -> B) b x : reads p b x -> reads (p_bind p (fun a => p_ret (g a))) b (g x).
Proof. intros H. rewrite <- (app_nil_r b). eapply reads_bind; [exact H|apply reads_ret]. Qed.

Lemma get_at {A} (pre rest : list A) b : get (pre ++ b :: rest) (zlen pre) = Some b.
Proof.
  unfold get. rewrite (proj2 (Z.ltb_ge _ _)) by apply zlen_nonneg. unfold zlen. rewrite Nat2Z.id. by apply list_lookup_middle.
Qed.

Lemma reads_u8 b : reads read_u8 [b] b.
Proof. intros pre rest. unfold read_u8. simpl. rewrite get_at. by rewrite zlen_snoc. Qed.

Lemma reads_cons {B} (f : Z -> parser B) b c y : reads (f b) c y -> reads (p_bind read_u8 f) (b :: c) y.
Proof. intros K. change (b :: c) with ([b] ++ c). eapply reads_bind; [apply reads_u8|exact K]. Qed.

Lemma reads_take b n : n = zlen b -> reads (read_take n) b b.
Proof.
  intros -> pre rest. unfold read_take. rewrite !zlen_app.
  pose proof (zlen_nonneg pre). pose proof (zlen_nonneg b). pose proof (zlen_nonneg rest).
  rewrite (proj2 (Z.leb_le _ _)) by lia.
  rewrite slice_Ok by (rewrite ?zlen_app; lia). bind_step. by rewrite (sub_app_exact pre b rest).
Qed.

(** ** Varints *)

Definition high (b : Z) : Z := Z.lor b 0x80.

Lemma low_groups_spec fuel v : 0 <= v < 128 ^ Z.of_nat fuel ->
  Forall (fun b => 0 <= b < 128) (low_groups fuel v) /\
  fold_left (fun acc b => acc * 128 + b) (rev (low_groups fuel v)) 0 = v /\ (length (low_groups fuel v) <= fuel)%nat.
Proof.
  revert v. induction fuel as [|fuel IH]; intros v Hv; [simpl in *; split_and!; [constructor|lia|lia]|].
  simpl. destruct (v =? 0) eqn:E; [apply Z.eqb_eq in E; subst; split_and!; [constructor|done|simpl; lia]|].
  rewrite shiftr_7, land_127. euclid v 128.
  destruct (IH (v / 128)) as (F & S & L); [rewrite pow128_S in Hv|].
  - split; [apply Z.div_pos; lia|]. apply Z.div_lt_upper_bound; lia.
  - split_and!; [by constructor|simpl; rewrite fold_left_app; simpl; lia|simpl; lia].
Qed.

Lemma low_groups_length fuel (k : nat) v : 0 <= v < 128 ^ Z.of_nat k -> (length (low_groups fuel v) <= k)%nat.
Proof.
  revert k v. induction fuel as [|fuel IH]; intros k v Hv; simpl; [lia|].
  destruct (v =? 0) eqn:E; [simpl; lia|]. destruct k as [|k]; [simpl in Hv; lia|]. simpl.
  rewrite shiftr_7. specialize (IH k (v / 128)). euclid v 128. rewrite pow128_S in Hv.
  assert (0 <= v / 128 < 128 ^ Z.of_nat k) as B by (split; [apply Z.div_pos; lia|apply Z.div_lt_upper_bound; lia]).
  specialize (IH B). lia.
Qed.

Lemma high_byte b : 0 <= b < 128 -> high b = b + 128.
Proof. intros. unfold high. change 0x80 with (2 ^ 7). by rewrite lor_pow2_add by lia. Qed.

Lemma varint_acc r b (k : nat) : (k <= 7)%nat -> 0 <= r < 128 ^ Z.of_nat k -> 0 <= b < 128 ->
  0 <= r * 128 + b < 128 ^ Z.of_nat (S k) /\ Z.lor (wrap 64 (Z.shiftl r 7)) (Z.land b 127) = r * 128 + b.
Proof.
  intros Hk Hr Hb. pose proof (pow128_le k ltac:(lia)). split; [rewrite pow128_S; lia|].
  rewrite decode_acc by lia. by rewrite Z.mod_small.
Qed.

Lemma reads_varint_loop hs last left_ (k : nat) r :
  Forall (fun b => 0 <= b < 128) hs -> 0 <= last < 128 -> (length hs + 2 <= left_)%nat ->
  (k + left_ = 9)%nat -> 0 <= r < 128 ^ Z.of_nat k ->
  reads (varint_loop left_ r) (map high hs ++ [last]) (fold_left (fun acc b => acc * 128 + b) (hs ++ [last]) r).
Proof.
  intros F L. revert left_ k r. induction F as [|b hs B F IH]; intros left_ k r HL Hk Hr;
    (destruct left_ as [|[|left_]]; [simpl in HL; lia..|]); simpl; apply reads_cons.
  - destruct (varint_acc r last k ltac:(lia) Hr L) as (B & ->).
    rewrite land_128 by (unfold is_u8, is_uint; lia). rewrite (proj2 (Z.ltb_lt _ _)) by lia. simpl. apply reads_ret.
  - destruct (varint_acc r b k ltac:(lia) Hr B) as (B' & E).
    rewrite high_byte by done. rewrite land_128 by (unfold is_u8, is_uint; lia).
    rewrite (proj2 (Z.ltb_ge _ _)) by lia. simpl.
    replace (Z.land (b + 128) 127) with (Z.land b 127).
    2:{ rewrite !land_127. replace (b + 128) with (b + 1 * 128) by lia. by rewrite Z.mod_add by lia. }
    rewrite E. apply (IH (S left_) (S k)); [simpl in HL; lia|lia|done].
Qed.

Lemma reads_varint v : 0 <= v < 2 ^ 56 -> reads read_varint (append_varint v) v.
Proof.
  intros Hv. unfold append_varint, read_varint.
  assert (fold_left (fun acc b => acc * 128 + b) [v] 0 = v) as E0 by (simpl; lia).
  destruct (v <=? 127) eqn:E1.
  - apply Z.leb_le in E1. rewrite <- E0 at 2. apply (reads_varint_loop [] v 9 0); simpl; lia || constructor.
  - apply Z.leb_gt in E1.
    replace (Z.land v 18374686479671623680 =? 0) with true.
    2:{ symmetry. apply Z.eqb_eq. apply Z.bits_inj'. intros n Hn. rewrite Z.land_spec, Z.bits_0.
        destruct (Z.lt_ge_cases n 56).
        - change 18374686479671623680 with (Z.shiftl 255 56). rewrite Z.shiftl_spec_low by done. apply andb_false_r.
        - by rewrite (testbit_above_width v 56) by lia. }
    simpl negb. cbv iota.
    destruct (low_groups_spec 10 v) as (F & S & _); [simpl; lia|].
    pose proof (low_groups_length 10 8 v ltac:(simpl; lia)) as L.
    destruct (low_groups 10 v) as [|last hs] eqn:E; [simpl in S; lia|].
    simpl in S. rewrite <- S. apply (reads_varint_loop (rev hs) last 9 0).
    + inversion F; subst. by apply Forall_rev.
    + by inversion F.
    + rewrite length_rev. simpl in L. lia.
    + lia.
    + simpl; lia.
Qed.

(** ** Values and records *)

Lemma be64 x : is_u64 x -> be_val (be_bytes 8 x) = x.
Proof. intros. rewrite be_val_be_bytes. by apply Z.mod_small. Qed.

Lemma reads_value v : storable v -> reads read_value (append_value v) (Some v).
Proof.
  intros (W & S). unfold read_value.
  destruct v as [|i|r|s|b]; simpl append_value; apply reads_cons; cbn -[p_bind read_take read_varint be_bytes];
    [apply reads_ret|..].
  - pose proof (reads_bind_ret (read_take 8) (fun b => Some (Integer (to_signed 64 (be_val b)))) (be_bytes 8 (to_unsigned 64 i)) _
      (reads_take (be_bytes 8 _) 8 eq_refl)) as R. cbv beta in R. rewrite be64, to_signed_unsigned in R by (exact W || lia || apply wrap_range; lia). exact R.
  - pose proof (reads_bind_ret (read_take 8) (fun b => Some (Real (be_val b))) (be_bytes 8 r) _ (reads_take (be_bytes 8 _) 8 eq_refl)) as R.
    cbv beta in R. rewrite be64 in R by exact W. exact R.
  - destruct S as (U & L). eapply reads_bind; [apply reads_varint; pose proof (zlen_nonneg s); lia|].
    rewrite <- (app_nil_r s) at 2. eapply reads_bind; [by apply reads_take|]. rewrite U. apply reads_ret.
  - eapply reads_bind; [apply reads_varint; pose proof (zlen_nonneg b); lia|].
    apply (reads_bind_ret (read_take (zlen b)) (fun b => Some (Blob b))). by apply reads_take.
Qed.

(** One field of a record, omitted or not. *)
Definition field_bytes (f : option Value) : bytes := match f with Some v => append_value v | None => [T_OMIT] end.

Definition storable_field (f : option Value) : Prop := match f with Some v => storable v | None => True end.

Lemma reads_field f : storable_field f -> reads read_value (field_bytes f) f.
Proof. destruct f as [v|]; [apply reads_value|]. intros _. apply reads_cons, reads_ret. Qed.

Lemma reads_record fs : Forall storable_field fs -> reads (read_record (length fs)) (concat (field_bytes <$> fs)) fs.
Proof.
  induction 1 as [|f fs F _ IH]; [apply reads_ret|]. simpl.
  eapply reads_bind; [by apply reads_field|]. by apply (reads_bind_ret _ (fun vs => f :: vs)).
Qed.

(** ** Change records *)

Lemma delete_cols_full pk_flags i old : delete_cols pk_flags false i old = concat (field_bytes <$> columns (delete_field pk_flags false) i old).
Proof. revert i. induction old as [|v old IH]; intros i; [done|]. simpl. by rewrite IH. Qed.

Lemma delete_record_full pk_flags old : delete_record pk_flags false old = Some <$> old.
Proof.
  unfold delete_record. generalize 0. induction old as [|v old IH]; intros i; [done|]. simpl. by rewrite IH.
Qed.

Lemma reads_pk_only pk_flags i old : Forall storable old ->
  reads (pk_only_record (length old) pk_flags i) (delete_cols pk_flags true i old) (columns (delete_field pk_flags true) i old).
Proof.
  intros F. revert i. induction F as [|v old W _ IH]; intros i; [apply reads_ret|].
  simpl. unfold delete_field at 1. destruct (is_pk pk_flags i); simpl.
  - eapply reads_bind; [by apply reads_value|]. by apply (reads_bind_ret _ (fun vs => Some v :: vs)).
  - by apply (reads_bind_ret _ (fun vs => None :: vs)).
Qed.

Lemma update_cols_spec pk_flags patchset i old new :
  update_cols pk_flags patchset i old new =
  (if patchset then [] else concat (field_bytes <$> columns (old_field pk_flags patchset) i (zip old new)),
   concat (field_bytes <$> columns (new_field pk_flags patchset) i (zip old new)),
   rows_differ old new).
Proof.
  revert i new. induction old as [|o old IH]; intros i [|n new]; [by destruct patchset..|].
  cbn [update_cols]. rewrite IH. simpl. unfold old_field at 2, new_field at 2. simpl.
  f_equal. f_equal; [destruct patchset; [done|]|]; f_equal; by destruct (_ || _).
Qed.

Lemma is_pk_drop pk_flags (i : nat) :
  is_pk pk_flags (Z.of_nat i) = match drop i pk_flags with f :: _ => negb (f =? 0) | [] => false end.
Proof.
  unfold is_pk, get. rewrite (proj2 (Z.ltb_ge _ _)) by lia. rewrite Nat2Z.id.
  rewrite <- (Nat.add_0_r i) at 1. rewrite <- lookup_drop. by destruct (drop i pk_flags).
Qed.

Lemma pk_part_spec pk_flags (i : nat) l :
  pk_part (drop i pk_flags) (columns (new_field pk_flags true) (Z.of_nat i) l) = columns (old_field pk_flags true) (Z.of_nat i) l.
Proof.
  revert i. induction l as [|c l IH]; intros i; [done|]. cbn [columns pk_part].
  specialize (IH (S i)). rewrite Nat2Z.inj_succ in IH. unfold Z.succ in IH.
  pose proof (is_pk_drop pk_flags i) as K. destruct (drop i pk_flags) as [|f fl] eqn:D.
  - rewrite drop_ge in IH; [rewrite IH; unfold old_field at 2; by rewrite K|]. apply (f_equal length) in D. rewrite length_drop in D. simpl in D. lia.
  - replace (S i) with (i + 1)%nat in IH by lia. rewrite <- drop_drop, D in IH. simpl in IH. rewrite drop_0 in IH. rewrite IH.
    f_equal. unfold old_field, new_field. rewrite K. destruct (f =? 0); simpl; [done|]. by rewrite orb_true_r.
Qed.

Lemma length_columns {A B} (f : Z -> A -> B) i l : length (columns f i l) = length l.
Proof. revert i. induction l as [|x l IH]; intros i; [done|]. simpl. by rewrite IH. Qed.

Lemma Forall_columns {A B} (P : A -> Prop) (Q : B -> Prop) (f : Z -> A -> B) i l :
  (forall k x, P x -> Q (f k x)) -> Forall P l -> Forall Q (columns f i l).
Proof. intros H F. revert i. induction F; intros i; constructor; auto. Qed.

Lemma reads_fields ncol fs : zlen fs = ncol -> Forall storable_field fs ->
  reads (read_record (Z.to_nat ncol)) (concat (field_bytes <$> fs)) fs.
Proof. intros <- F. unfold zlen. rewrite Nat2Z.id. by apply reads_record. Qed.

Lemma storable_delete pk_flags patchset i old : Forall storable old -> Forall storable_field (columns (delete_field pk_flags patchset) i old).
Proof. apply Forall_columns. intros k v S. unfold delete_field. by destruct (_ && _). Qed.

Lemma storable_update pk_flags patchset i old new : Forall storable old -> Forall storable new ->
  Forall storable_field (columns (old_field pk_flags patchset) i (zip old new)) /\
  Forall storable_field (columns (new_field pk_flags patchset) i (zip old new)).
Proof.
  intros F G.
  assert (Forall (fun c => storable c.1 /\ storable c.2) (zip old new)) as Z.
  { revert new G. induction F as [|o old Ho F IH]; intros [|n new] G; simpl; constructor; inversion G; subst; auto. }
  split; (eapply Forall_columns; [|exact Z]); intros k [o n] (A & B); unfold old_field, new_field;
    destruct patchset; simpl; repeat case_match; done.
Qed.

Lemma concat_append_values (row : list Value) : concat (append_value <$> row) = concat (field_bytes <$> (Some <$> row)).
Proof. rewrite <- list_fmap_compose. done. Qed.

Section changes.
Context (read_row : bytes -> list Value -> option (list Value)) (t : TableChanges) (patchset : bool).

Definition wf_change (c : Change) : Prop :=
  wf_row (t_ncol t) (c_old c) /\ (forall row, read_row (t_name t) (c_pk c) = Some row -> wf_row (t_ncol t) row).

(** One change: the bytes written are read back as its record. *)
Definition is_op (b : Z) : Prop := b = OP_INSERT \/ b = OP_UPDATE \/ b = OP_DELETE.

Definition reads_change (b : bytes) (r : ChangeRecord) : Prop :=
  (exists op rest, b = op :: rest /\ is_op op) /\ reads (parse_record patchset (t_ncol t) (t_pk_flags t)) b r.

Lemma update_case old row i b :
  wf_row (t_ncol t) old -> wf_row (t_ncol t) row -> append_update old row (t_pk_flags t) patchset i = Some b ->
  rows_differ old row = true /\
  reads_change b (mkRecord Update (update_old (t_pk_flags t) patchset old row) (update_new (t_pk_flags t) patchset old row)).
Proof.
  intros (L & F) (L' & F') E. unfold append_update in E. rewrite update_cols_spec in E. destruct (rows_differ old row); [|done].
  split; [done|]. simpl in E. injection E as <-.
  assert (length (zip old row) = length old) as LZ. { rewrite length_zip_with. unfold zlen in *. lia. }
  destruct (storable_update (t_pk_flags t) patchset 0 old row F F') as (G & G').
  split; [eexists _, _; split; [done|]; right; left; done|].
  unfold parse_record. apply reads_cons, reads_cons. simpl (OP_UPDATE =? _). cbv iota. unfold update_old, update_new.
  assert (forall f : Z -> Value * Value -> option Value, zlen (columns f 0 (zip old row)) = t_ncol t) as LC.
  { intros f. unfold zlen in *. rewrite length_columns, LZ. exact L. }
  destruct patchset.
  - simpl. rewrite <- (pk_part_spec (t_pk_flags t) 0). rewrite drop_0.
    apply (reads_bind_ret _ (fun new => mkRecord Update (pk_part (t_pk_flags t) new) new)). apply reads_fields; [apply LC|done].
  - eapply reads_bind; [apply reads_fields; [apply LC|done]|].
    apply (reads_bind_ret _ (fun new => mkRecord Update (columns (old_field (t_pk_flags t) false) 0 (zip old row)) new)).
    apply reads_fields; [apply LC|done].
Qed.

Lemma delete_case old i : wf_row (t_ncol t) old ->
  reads_change (append_delete old (t_pk_flags t) patchset i) (mkRecord Delete (delete_record (t_pk_flags t) patchset old) []).
Proof.
  intros (L & F). split; [eexists _, _; split; [done|]; right; right; done|].
  unfold parse_record. apply reads_cons, reads_cons. simpl (OP_DELETE =? _). cbv iota.
  apply (reads_bind_ret _ (fun old => mkRecord Delete old [])). unfold delete_record. destruct patchset.
  - rewrite <- L. unfold zlen. rewrite Nat2Z.id. by apply reads_pk_only.
  - rewrite delete_cols_full. apply reads_fields; [unfold zlen in *; by rewrite length_columns|by apply storable_delete].
Qed.

Lemma insert_case row i : wf_row (t_ncol t) row ->
  reads_change ([OP_INSERT; bool_byte i] ++ concat (append_value <$> row)) (mkRecord Insert [] (Some <$> row)).
Proof.
  intros (L & F). split; [eexists _, _; split; [done|]; left; done|].
  unfold parse_record. apply reads_cons, reads_cons. simpl (OP_INSERT =? _). cbv iota.
  apply (reads_bind_ret _ (fun new => mkRecord Insert [] new)). rewrite concat_append_values.
  apply reads_fields; [by rewrite <- L; unfold zlen; rewrite length_fmap|]. by apply Forall_fmap.
Qed.

Lemma change_reads c : wf_change c ->
  match change_bytes read_row t patchset c with
  | Some b => exists r, change_record read_row t patchset c = Some r /\ reads_change b r
  | None => change_record read_row t patchset c = None
  end.
Proof.
  intros (W & R). unfold change_bytes, change_record.
  assert (forall row, read_row (t_name t) (c_pk c) = Some row ->
    match append_update (c_old c) row (t_pk_flags t) patchset (c_indirect c) with
    | Some b => exists r, (if rows_differ (c_old c) row
        then Some (mkRecord Update (update_old (t_pk_flags t) patchset (c_old c) row) (update_new (t_pk_flags t) patchset (c_old c) row))
        else None) = Some r /\ reads_change b r
    | None => (if rows_differ (c_old c) row
        then Some (mkRecord Update (update_old (t_pk_flags t) patchset (c_old c) row) (update_new (t_pk_flags t) patchset (c_old c) row))
        else None) = None
    end) as U.
  { intros row Hr. destruct (append_update (c_old c) row (t_pk_flags t) patchset (c_indirect c)) as [b|] eqn:E.
    - destruct (update_case _ _ _ _ W (R _ Hr) E) as (-> & H). eauto.
    - unfold append_update in E. rewrite update_cols_spec in E. by destruct (rows_differ (c_old c) row). }
  destruct (c_op c); destruct (read_row (t_name t) (c_pk c)) as [row|] eqn:Hr;
    try done; try (by apply U); (eexists; split; [done|]); [apply insert_case; auto|by apply delete_case..].
Qed.

End changes.

(** ** Table headers and whole blobs *)

Lemma reads_flags fl : reads (read_flags (length fl)) fl fl.
Proof. induction fl as [|b fl IH]; [apply reads_ret|]. simpl. apply reads_cons. by apply (reads_bind_ret _ (fun bs => b :: bs)). Qed.

Lemma reads_nul_loop name fuel : (length name < fuel)%nat -> 0 ∉ name -> reads (nul_loop fuel) (name ++ [0]) ().
Proof.
  revert fuel. induction name as [|b name IH]; intros [|fuel] L N; [simpl in L; lia..| |simpl in L; lia|]; simpl; apply reads_cons.
  - apply reads_ret.
  - rewrite (proj2 (Z.eqb_neq _ _)); [|intros ->; apply N; left]. apply IH; [simpl in L; lia|]. intros I. apply N. by right.
Qed.

Lemma reads_name name : 0 ∉ name -> reads read_name (name ++ [0]) name.
Proof.
  intros N pre rest. unfold read_name. rewrite reads_nul_loop; [|rewrite !length_app; simpl; lia|done].
  bind_step. simpl. rewrite zlen_app, zlen_snoc. pose proof (zlen_nonneg pre). pose proof (zlen_nonneg name).
  rewrite slice_Ok by (pose proof (zlen_nonneg rest); rewrite ?zlen_app, ?zlen_cons, ?zlen_nil; lia).
  bind_step. rewrite <- (assoc_L app). by rewrite (sub_app_exact pre name) by lia.
Qed.

Lemma reads_header zero ncol pk_flags name : 0 < ncol < 2 ^ 56 -> zlen pk_flags = ncol -> 0 ∉ name ->
  reads (read_header zero) (append_varint ncol ++ pk_flags ++ name ++ [0]) (ncol, pk_flags, name).
Proof.
  intros H L N. unfold read_header. eapply reads_bind; [apply reads_varint; lia|].
  rewrite (proj2 (Z.eqb_neq _ _)) by lia. change (pk_flags ++ name ++ [0]) with ([] ++ pk_flags ++ name ++ [0]).
  eapply (reads_bind _ _ [] _ ()).
  - intros pre rest. unfold with_capacity. rewrite (proj2 (Z.leb_gt _ _)) by lia. by rewrite app_nil_r.
  - eapply reads_bind; [rewrite <- L; unfold zlen; rewrite Nat2Z.id; apply reads_flags|].
    apply (reads_bind_ret _ (fun name => (ncol, pk_flags, name))). by apply reads_name.
Qed.

(** The parser in front of [b]: the loop moves behind it with the tables
    [ts'], whatever stands in front and behind. *)
Definition parses (b : bytes) (ts : list TableChangeset) (patchset : bool) (ts' : list TableChangeset) (patchset' : bool) : Prop :=
  forall fuel pre rest, (length b + length rest <= fuel)%nat -> exists fuel', (length rest <= fuel')%nat /\
    parse_loop fuel (pre ++ b ++ rest) (zlen pre) ts patchset = parse_loop fuel' (pre ++ b ++ rest) (zlen (pre ++ b)) ts' patchset'.

Lemma parses_nil ts ps : parses [] ts ps ts ps.
Proof. intros fuel pre rest L. exists fuel. split; [simpl in L; lia|]. by rewrite app_nil_r. Qed.

Lemma parses_app b c ts ps ts' ps' ts'' ps'' : parses b ts ps ts' ps' -> parses c ts' ps' ts'' ps'' -> parses (b ++ c) ts ps ts'' ps''.
Proof.
  intros H K fuel pre rest L. destruct (H fuel pre (c ++ rest)) as (f & Lf & E); [rewrite !length_app in *; lia|].
  destruct (K f (pre ++ b) rest) as (f' & Lf' & E'); [rewrite !length_app in *; lia|].
  exists f'. split; [done|]. rewrite <- !(assoc_L app) in *. congruence.
Qed.

(** One round at a byte [m] in front of [b]. *)
Lemma loop_unfold fuel pre m b rest ts ps :
  parse_loop (S fuel) (pre ++ (m :: b) ++ rest) (zlen pre) ts ps =
  (if (m =? 84) || (m =? 80) then
     let patchset := m =? 80 in
     let* u := read_u8 (pre ++ (m :: b) ++ rest) (zlen pre) in
     let* h := read_header "table has zero columns" (pre ++ (m :: b) ++ rest) u.2 in
     let '(ncol, pk_flags, name) := h.1 in
     if utf8_valid name then
       parse_loop fuel (pre ++ (m :: b) ++ rest) h.2 (ts ++ [mkTableChangeset name ncol pk_flags []]) patchset
     else Err (corrupt "non-UTF-8 table name")
   else if (m =? OP_INSERT) || (m =? OP_UPDATE) || (m =? OP_DELETE) then
     match rev ts with
     | [] => Err (corrupt "change record before any table header")
     | t :: before =>
         let* r := parse_record ps (tc_ncol t) (tc_pk_flags t) (pre ++ (m :: b) ++ rest) (zlen pre) in
         parse_loop fuel (pre ++ (m :: b) ++ rest) r.2
           (rev before ++ [mkTableChangeset (tc_name t) (tc_ncol t) (tc_pk_flags t) (tc_changes t ++ [r.1])]) ps
     end
   else Err (corrupt ("unexpected marker byte " +:+ fmt_hex m))).
Proof.
  cbn [parse_loop]. rewrite (proj2 (Z.leb_gt _ _)) by (rewrite !zlen_app, zlen_cons; pose proof (zlen_nonneg b); pose proof (zlen_nonneg rest); lia).
  unfold peek at 1. rewrite <- app_comm_cons, get_at. bind_step. done.
Qed.

Lemma parses_header ts ps patchset ncol pk_flags name : 0 < ncol < 2 ^ 56 -> zlen pk_flags = ncol -> 0 ∉ name -> utf8_valid name = true ->
  parses (table_header (if patchset : bool then 80 else 84) ncol pk_flags name) ts ps (ts ++ [mkTableChangeset name ncol pk_flags []]) patchset.
Proof.
  intros H L N U fuel pre rest Lf. unfold table_header in *.
  set (m := if patchset then 80 else 84) in *. set (b := append_varint ncol ++ pk_flags ++ name ++ [0]) in *.
  destruct fuel as [|fuel]; [simpl in Lf; lia|]. exists fuel. split; [simpl in Lf; rewrite ?length_app in Lf; lia|].
  change ([m] ++ b) with (m :: b). rewrite loop_unfold.
  replace ((m =? 84) || (m =? 80)) with true by (by destruct patchset). replace (m =? 80) with patchset by (by destruct patchset).
  cbv zeta. pose proof (reads_u8 m pre (b ++ rest)) as E1. change ([m] ++ b ++ rest) with ((m :: b) ++ rest) in E1.
  rewrite E1. bind_step. simpl snd.
  pose proof (reads_header "table has zero columns" _ _ _ H L N (pre ++ [m]) rest) as E. fold b in E. rewrite <- !(assoc_L app) in E.
  change ([m] ++ b ++ rest) with ((m :: b) ++ rest) in E. rewrite E. bind_step. simpl snd. cbv iota beta. simpl. by rewrite U.
Qed.

Lemma parses_change t patchset b r ts :
  reads_change t patchset b r ->
  forall name rs, parses b (ts ++ [mkTableChangeset name (t_ncol t) (t_pk_flags t) rs]) patchset
    (ts ++ [mkTableChangeset name (t_ncol t) (t_pk_flags t) (rs ++ [r])]) patchset.
Proof.
  intros ((op & b' & -> & Hop) & R) name rs fuel pre rest Lf.
  destruct fuel as [|fuel]; [simpl in Lf; lia|]. exists fuel. split; [simpl in Lf; lia|].
  rewrite loop_unfold. replace ((op =? 84) || (op =? 80)) with false by (by destruct Hop as [ -> | [ -> | -> ]]).
  replace ((op =? OP_INSERT) || (op =? OP_UPDATE) || (op =? OP_DELETE)) with true by (by destruct Hop as [ -> | [ -> | -> ]]).
  rewrite rev_app_distr. simpl rev. cbn [app tc_ncol tc_pk_flags tc_name tc_changes]. 
  pose proof (R pre rest) as E. cbn [app] in E. rewrite E. bind_step. simpl. by rewrite rev_involutive.
Qed.

Section blob.
Context (read_row : bytes -> list Value -> option (list Value)) (patchset : bool).

Lemma parses_changes t cs : Forall (wf_change read_row t) cs -> forall ts rs,
  parses (changes_bytes read_row t patchset cs).1
    (ts ++ [mkTableChangeset (t_name t) (t_ncol t) (t_pk_flags t) rs]) patchset
    (ts ++ [mkTableChangeset (t_name t) (t_ncol t) (t_pk_flags t) (rs ++ omap (change_record read_row t patchset) cs)]) patchset /\
  (changes_bytes read_row t patchset cs).2 = negb (bool_decide (omap (change_record read_row t patchset) cs = [])).
Proof.
  induction 1 as [|c cs W _ IH]; intros ts rs; [split; [rewrite app_nil_r; apply parses_nil|done]|].
  pose proof (change_reads read_row t patchset c W) as K. simpl.
  destruct (changes_bytes read_row t patchset cs) as [rest any]. simpl in IH.
  destruct (change_bytes read_row t patchset c) as [b|].
  - destruct K as (r & -> & R). simpl. split; [|done]. destruct (IH ts (rs ++ [r])) as (P & _).
    eapply parses_app; [by apply parses_change|]. by rewrite <- (assoc_L app) in P.
  - rewrite K. apply IH.
Qed.

Lemma parses_table t ts ps : wf_changes read_row t ->
  exists ps', parses (table_bytes read_row patchset t) ts ps (ts ++ table_records read_row patchset t) ps'.
Proof.
  intros (B & L & _ & U & N & F). unfold table_bytes, table_records.
  destruct (table_is_empty t); [exists ps; rewrite app_nil_r; apply parses_nil|].
  destruct (parses_changes t (concat (t_buckets t)) F ts []) as (P & E).
  destruct (changes_bytes read_row t patchset (concat (t_buckets t))) as [body any]. simpl in P, E. subst any.
  destruct (omap _ _) as [|r rs]; [exists ps; rewrite app_nil_r; apply parses_nil|].
  exists patchset. eapply parses_app; [by apply parses_header|exact P].
Qed.

Lemma parses_tables tbls ts ps : Forall (wf_changes read_row) tbls ->
  exists ps', parses (concat (table_bytes read_row patchset <$> tbls)) ts ps (ts ++ concat (table_records read_row patchset <$> tbls)) ps'.
Proof.
  intros F. revert ts ps. induction F as [|t tbls W _ IH]; intros ts ps.
  - exists ps. rewrite app_nil_r. apply parses_nil.
  - destruct (parses_table t ts ps W) as (ps1 & P1). destruct (IH (ts ++ table_records read_row patchset t) ps1) as (ps2 & P2).
    exists ps2. simpl. rewrite (assoc_L app). by eapply parses_app.
Qed.

(** A blob of the writer is parsed into the records it stands for. *)
Lemma serialize_parses s : Forall (wf_changes read_row) (tables s) ->
  parse_changeset (serialize_impl read_row s patchset) = Ok (session_records read_row s patchset).
Proof.
  intros F. destruct (parses_tables (tables s) [] false F) as (ps & P). unfold parse_changeset, serialize_impl.
  destruct (P (length (concat (table_bytes read_row patchset <$> tables s))) [] [] ltac:(simpl; lia)) as (f & _ & E).
  rewrite app_nil_r in E. simpl in E. change (zlen (@nil Z)) with 0 in E. rewrite E. destruct f; simpl; by rewrite Z.leb_refl.
Qed.

End blob.

(** ** Blobs of the unit tests, and what the format cannot carry *)

Definition recorded_blob (patchset : bool) (ncol : Z) (fl : bytes) (op : ChangeOp) (pk old : list Value) (row : option (list Value)) : res bytes :=
  let* s := record (attach default_state) [116] ncol fl op pk old false in
  Ok (serialize_impl (fun _ _ => row) s patchset).

(** [insert_matches_oracle]. *)
Example insert_matches_oracle :
  recorded_blob false 2 [1; 0] Insert [Integer 1] [Integer 1; Null] (Some [Integer 1; Integer 2]) =
  Ok [84; 2; 1; 0; 116; 0; 18; 0; 1; 0; 0; 0; 0; 0; 0; 0; 1; 1; 0; 0; 0; 0; 0; 0; 0; 2].
Proof. vm_compute. reflexivity. Qed.

(** [patchset_composite_update_matches_oracle]. *)
Example patchset_composite_update_matches_oracle :
  recorded_blob true 3 [1; 2; 0] Update [Integer 1; Integer 2] [Integer 1; Integer 2; Integer 3] (Some [Integer 1; Integer 2; Integer 30]) =
  Ok ([80; 3; 1; 2; 0; 116; 0; 23; 0] ++ [1; 0; 0; 0; 0; 0; 0; 0; 1] ++ [1; 0; 0; 0; 0; 0; 0; 0; 2] ++ [1; 0; 0; 0; 0; 0; 0; 0; 30]).
Proof. vm_compute. reflexivity. Qed.

(** [patchset_composite_delete_matches_oracle]. *)
Example patchset_composite_delete_matches_oracle :
  recorded_blob true 3 [1; 2; 0] Delete [Integer 1; Integer 2] [Integer 1; Integer 2; Integer 3] None =
  Ok ([80; 3; 1; 2; 0; 116; 0; 9; 0] ++ [1; 0; 0; 0; 0; 0; 0; 0; 1] ++ [1; 0; 0; 0; 0; 0; 0; 0; 2]).
Proof. vm_compute. reflexivity. Qed.

(** The long form of [append_varint] has ten bytes, and the reader takes nine. *)
Example long_varint_misread :
  length (append_varint (2 ^ 56)) = 10%nat /\ read_varint (append_varint (2 ^ 56)) 0 = Ok (562949953421440, 9).
Proof. vm_compute. done. Qed.

(** A row whose text is not UTF-8 is written, and the blob is refused. *)
Example non_utf8_text_refused :
  (let* b := recorded_blob false 2 [1; 0] Insert [Integer 1] [Integer 1; Null] (Some [Integer 1; Text [255]]) in parse_changeset b) =
  Err (corrupt "non-UTF-8 text in changeset").
Proof. vm_compute. reflexivity. Qed.

(** A header that claims [2^63] columns panics instead of being refused. *)
Example huge_column_count_panics : parse_changeset [84; 192; 128; 128; 128; 128; 128; 128; 128; 0] = Panic.
Proof. vm_compute. reflexivity. Qed.

End SessionRead.
