(* ===== verification/SessionProps.v ===== *)
(** The recorder's hash tables: whatever the buckets, a table is a set of
    changes with distinct keys, and [record_change] keeps the first change of
    a row. Growing and rehashing only permute the entries.

    The bucket lemmas are stated for any entries and any bucket function, and
    serve the tables of [concat] ([ChangesetConcat.v]) too. *)

From S2P Require Import Prelude Varint Value Session.
Import Varint Value Session.
Local Open Scope Z_scope.

Module SessionProps.

(** ** Buckets *)

(** Every entry lies in the bucket its hash names. *)
Definition placed {A} (h : A -> res Z) (bs : list (list A)) : Prop :=
  forall (i : nat) b c, bs !! i = Some b -> c ∈ b -> h c = Ok (Z.of_nat i).

Lemma concat_update {A} (bs : list (list A)) (i : nat) b :
  bs !! i = Some b -> exists l, concat bs ≡ₚ b ++ l /\ forall b', concat (<[i := b']> bs) ≡ₚ b' ++ l.
Proof.
  intros E. rewrite <- (take_drop_middle bs i b E).
  assert (length (take i bs) = i) as L by (rewrite length_take; apply lookup_lt_Some in E; lia).
  exists (concat (take i bs) ++ concat (drop (S i) bs)). split.
  - rewrite concat_app. simpl. rewrite !(assoc_L app). by rewrite (comm app b).
  - intros b'. rewrite insert_app_r_alt by lia. rewrite L, Nat.sub_diag. simpl. rewrite concat_app. simpl.
    rewrite !(assoc_L app). by rewrite (comm app b').
Qed.

Lemma placed_insert {A} (h : A -> res Z) bs (i : nat) b b' :
  placed h bs -> bs !! i = Some b -> (forall c, c ∈ b' -> h c = Ok (Z.of_nat i)) -> placed h (<[i := b']> bs).
Proof.
  intros P Hb H j b0 c Hj Hc. apply list_lookup_insert_Some in Hj as [(-> & -> & _)|(_ & Hj)]; [by apply H|by eapply P].
Qed.

Lemma set_bucket {A} (bs : list (list A)) (i : nat) b' : (i < length bs)%nat -> set_idx bs (Z.of_nat i) b' = Ok (<[i := b']> bs).
Proof. intros. rewrite set_idx_Ok by (unfold zlen; lia). by rewrite Nat2Z.id. Qed.

Lemma prepend_spec {A} (bs : list (list A)) (i : nat) c : (i < length bs)%nat ->
  exists bs', prepend bs (Z.of_nat i) c = Ok bs' /\ length bs' = length bs /\ concat bs' ≡ₚ c :: concat bs /\
    forall h, placed h bs -> h c = Ok (Z.of_nat i) -> placed h bs'.
Proof.
  intros Hi. destruct (lookup_lt_is_Some_2 bs i Hi) as (b & Hb).
  exists (<[i := c :: b]> bs). unfold prepend. rewrite (idx_lookup bs i b Hb). bind_step. rewrite set_bucket by done.
  split; [done|]. rewrite length_insert. split; [done|]. split.
  - destruct (concat_update bs i b Hb) as (l & E & E'). by rewrite E', E.
  - intros h P Hc. apply (placed_insert h bs i b); [done..|]. intros c' [ -> |Hc']%elem_of_cons; [done|]. by eapply P.
Qed.

(** A bucket function that answers in range on the entries [l]. *)
Definition in_range {A} (h : A -> res Z) (n : nat) (l : list A) : Prop :=
  Forall (fun c => exists i, (i < n)%nat /\ h c = Ok (Z.of_nat i)) l.

Definition rehashed {A} (h : A -> res Z) (l : list A) (nb nb' : list (list A)) : Prop :=
  length nb' = length nb /\ concat nb' ≡ₚ l ++ concat nb /\ (placed h nb -> placed h nb').

Lemma rehash_chain_spec {A} (h : A -> res Z) l nb : in_range h (length nb) l ->
  exists nb', rehash_chain h l nb = Ok nb' /\ rehashed h l nb nb'.
Proof.
  revert nb. induction l as [|c l IH]; intros nb R; [exists nb; done|].
  apply Forall_cons in R as ((i & Hi & Hc) & R). simpl. rewrite Hc. bind_step.
  destruct (prepend_spec nb i c Hi) as (nb1 & -> & L & E & P). bind_step.
  destruct (IH nb1) as (nb' & -> & L' & E' & P'); [by rewrite L|].
  exists nb'. split; [done|]. split_and!; [congruence|rewrite E', E; by rewrite <- Permutation_middle|auto].
Qed.

Lemma rehash_spec {A} (h : A -> res Z) bs nb : in_range h (length nb) (concat bs) ->
  exists nb', rehash h bs nb = Ok nb' /\ rehashed h (concat bs) nb nb'.
Proof.
  revert nb. induction bs as [|b bs IH]; intros nb R; [exists nb; done|].
  apply Forall_app in R as (Rb & R). simpl.
  destruct (rehash_chain_spec h b nb Rb) as (nb1 & -> & L & E & P). bind_step.
  destruct (IH nb1) as (nb' & -> & L' & E' & P'); [by rewrite L|].
  exists nb'. split; [done|]. split_and!; [congruence| |auto].
  rewrite E', E. rewrite !(assoc_L app). by rewrite (comm app (concat bs)).
Qed.

Lemma placed_empty {A} (h : A -> res Z) n : placed h (zrep n []).
Proof. intros i b c Hb. apply lookup_replicate in Hb as (-> & _). by intros ?%elem_of_nil. Qed.

Lemma concat_empty {A} n : concat (zrep n (@nil A)) = [].
Proof. unfold zrep. induction (Z.to_nat n); [done|done]. Qed.

Lemma rehash_fresh {A} (h : A -> res Z) bs n : 0 <= n -> in_range h (Z.to_nat n) (concat bs) ->
  exists nb, rehash h bs (zrep n []) = Ok nb /\ zlen nb = n /\ concat nb ≡ₚ concat bs /\ placed h nb.
Proof.
  intros Hn R. destruct (rehash_spec h bs (zrep n [])) as (nb & E & L & P & Q); [by unfold zrep; rewrite length_replicate|].
  exists nb. split; [done|]. unfold zlen. rewrite L. unfold zrep at 1. rewrite length_replicate.
  split_and!; [lia|by rewrite concat_empty, app_nil_r in P|apply Q, placed_empty].
Qed.

(** ** Keys and chains *)

Lemma pk_value_eq_spec x y : pk_value_eq x y = bool_decide (x = y).
Proof.
  assert (forall (i j : Z) (P : Prop) (d : Decision P), (P <-> i = j) -> (i =? j) = bool_decide P) as Z.
  { intros i j P d E. destruct (Z.eqb_spec i j); symmetry; [apply bool_decide_eq_true|apply bool_decide_eq_false]; tauto. }
  destruct x, y; simpl; try done; try (by apply Z; split; congruence); apply bool_decide_ext; split; congruence.
Qed.

Lemma pk_eq_spec a b : pk_eq a b = bool_decide (a = b).
Proof.
  unfold pk_eq. destruct (Z.eqb_spec (zlen a) (zlen b)) as [L|L]; simpl.
  2:{ symmetry. apply bool_decide_eq_false. by intros ->. }
  assert (length a = length b) as L' by (unfold zlen in L; lia). clear L. revert b L'.
  induction a as [|x a IH]; intros [|y b] L; simpl in L; try done. simpl.
  rewrite pk_value_eq_spec, IH by lia. repeat case_bool_decide; simpl; congruence.
Qed.

(** What a later change of the same row does to the recorded one. *)
Definition retouch (indirect : bool) (c : Change) : Change := mkChange (c_op c) (c_pk c) (c_old c) (c_indirect c && indirect).

Lemma touch_spec l pk indirect :
  match touch l pk indirect with
  | Some l' => exists l1 c l2, l = l1 ++ c :: l2 /\ c_pk c = pk /\ l' = l1 ++ retouch indirect c :: l2
  | None => pk ∉ c_pk <$> l
  end.
Proof.
  induction l as [|c l IH]; simpl; [by intros ?%elem_of_nil|]. rewrite pk_eq_spec. case_bool_decide as E.
  - exists [], c, l. split_and!; [done..|]. simpl. f_equal. unfold retouch. destruct c as [op k old [|]], indirect; done.
  - destruct (touch l pk indirect) as [l'|].
    + destruct IH as (l1 & c' & l2 & -> & Hk & ->). by exists (c :: l1), c', l2.
    + intros [Hk|Hk]%elem_of_cons; [by apply E|by apply IH].
Qed.

(** ** The table of one recorded table *)

Definition entries (t : TableChanges) : list Change := concat (t_buckets t).

Definition change_hash (n : Z) (c : Change) : res Z := rem_u32 (hash_pk (c_pk c)) n.

Record wf_hash (t : TableChanges) : Prop := {
  wh_size : zlen (t_buckets t) = 0 \/
    256 <= zlen (t_buckets t) <= Z.max 256 (4 * t_nentry t) /\ zlen (t_buckets t) mod 2 = 0;
  wh_placed : placed (change_hash (zlen (t_buckets t))) (t_buckets t);
  wh_count : t_nentry t = zlen (entries t);
  wh_keys : NoDup (c_pk <$> entries t) }.

Lemma change_hash_ok n pk : 0 < n < 2 ^ 32 -> exists i, (i < Z.to_nat n)%nat /\ rem_u32 (hash_pk pk) n = Ok (Z.of_nat i).
Proof.
  intros Hn. unfold rem_u32. rewrite wrap_small by (unfold is_uint; lia). rewrite (proj2 (Z.eqb_neq _ _)) by lia.
  pose proof (Z.mod_pos_bound (hash_pk pk) n ltac:(lia)). exists (Z.to_nat (hash_pk pk mod n)). split; [lia|]. rewrite Z2Nat.id by lia. done.
Qed.

Lemma in_range_hash n l : 0 < n < 2 ^ 32 -> in_range (change_hash n) (Z.to_nat n) l.
Proof. intros Hn. apply Forall_forall. intros c _. by apply change_hash_ok. Qed.

Definition same_table (t t' : TableChanges) : Prop :=
  t_name t' = t_name t /\ t_ncol t' = t_ncol t /\ t_pk_flags t' = t_pk_flags t.

Lemma maybe_grow_spec t : wf_hash t -> t_nentry t < 2 ^ 29 ->
  exists t', maybe_grow t = Ok t' /\ wf_hash t' /\ same_table t t' /\ t_nentry t' = t_nentry t /\
    256 <= zlen (t_buckets t') < 2 ^ 32 /\ entries t' ≡ₚ entries t.
Proof.
  intros [S P C K] B. unfold maybe_grow. set (n := zlen (t_buckets t)) in *.
  assert (0 <= t_nentry t) by (rewrite C; apply zlen_nonneg).
  destruct ((n =? 0) || (n / 2 <=? t_nentry t)) eqn:G.
  - set (new_n := if n =? 0 then 256 else n * 2).
    assert (256 <= new_n < 2 ^ 32 /\ new_n <= Z.max 256 (4 * t_nentry t) /\ new_n mod 2 = 0) as (N & N').
    { subst new_n. destruct (Z.eqb_spec n 0); [split_and!; [lia..|done]|]. simpl in G. apply Z.leb_le in G. euclid n 2. split_and!; [lia..|by rewrite Z.mod_mul]. }
    destruct (rehash_fresh (change_hash new_n) (t_buckets t) new_n) as (nb & E & L & Pm & Pl); [lia|apply in_range_hash; lia|].
    unfold change_hash in E. rewrite E. bind_step. eexists. split; [done|].
    split; [|split_and!; simpl; try done; lia].
    constructor; simpl; [right; rewrite L; tauto || lia|by rewrite L| |].
    + rewrite C. unfold entries, zlen. simpl. by rewrite Pm.
    + unfold entries. simpl. by rewrite Pm.
  - apply orb_false_iff in G as (G0 & G). apply Z.eqb_neq in G0.
    exists t. split; [done|]. split_and!; try done; lia.
Qed.

(** [record_change] keeps the first change of a row and adds a new row's. *)
Definition recorded (t t' : TableChanges) (op : ChangeOp) (pk old : list Value) (indirect : bool) : Prop :=
  (exists c l, c_pk c = pk /\ entries t ≡ₚ c :: l /\ entries t' ≡ₚ retouch indirect c :: l) \/
  (pk ∉ c_pk <$> entries t /\ entries t' ≡ₚ mkChange op pk old indirect :: entries t).

Lemma record_change_spec t op pk old indirect : wf_hash t -> t_nentry t < 2 ^ 29 ->
  exists t', record_change t op pk old indirect = Ok t' /\ wf_hash t' /\ same_table t t' /\
    t_nentry t <= t_nentry t' <= t_nentry t + 1 /\ t_nentry t' <> 0 /\ recorded t t' op pk old indirect.
Proof.
  intros W B. unfold record_change. destruct (maybe_grow_spec t W B) as (u & -> & Wu & Su & Nu & Lu & Eu). bind_step.
  unfold bucket. destruct (change_hash_ok (zlen (t_buckets u)) pk ltac:(lia)) as (i & Hi & Hh). rewrite Hh. bind_step.
  assert (i < length (t_buckets u))%nat as Hi' by (unfold zlen in Hi; lia).
  destruct (lookup_lt_is_Some_2 _ _ Hi') as (b & Hb). rewrite (idx_lookup _ _ _ Hb). bind_step.
  destruct Wu as [S P C K]. assert (0 <= t_nentry u) by (rewrite C; apply zlen_nonneg).
  destruct (concat_update _ _ _ Hb) as (l & E & E').
  pose proof (touch_spec b pk indirect) as T. destruct (touch b pk indirect) as [b'|].
  - destruct T as (l1 & c & l2 & -> & Hk & ->). rewrite set_bucket by done. bind_step. eexists. split; [done|].
    assert (entries u ≡ₚ c :: l1 ++ l2 ++ l) as Pu.
    { unfold entries. rewrite E, <- (assoc_L app). simpl. by rewrite <- Permutation_middle. }
    assert (concat (<[i := l1 ++ retouch indirect c :: l2]> (t_buckets u)) ≡ₚ retouch indirect c :: l1 ++ l2 ++ l) as Pt.
    { rewrite E', <- (assoc_L app). simpl. by rewrite <- Permutation_middle. }
    split; [|split_and!; simpl; try apply Su; try lia].
    + constructor; simpl.
      * by rewrite zlen_insert.
      * rewrite zlen_insert. eapply placed_insert; [done..|]. intros c' Hc'.
        assert (forall d, d ∈ l1 ++ c :: l2 -> change_hash (zlen (t_buckets u)) d = Ok (Z.of_nat i)) as Hd by (intros d; by apply (P i _ d Hb)).
        apply elem_of_app in Hc' as [Hc'|[ -> |Hc']%elem_of_cons].
        -- apply Hd. apply elem_of_app. by left.
        -- unfold change_hash. simpl. rewrite Hk. done.
        -- apply Hd. apply elem_of_app. right. by right.
      * rewrite C. unfold zlen. unfold entries at 2. simpl. by rewrite Pu, Pt.
      * unfold entries at 1. simpl. rewrite Pt. rewrite Pu in K. exact K.
    + rewrite C. unfold zlen. rewrite Pu. simpl. lia.
    + left. exists c, (l1 ++ l2 ++ l). rewrite <- Eu. done.
  - destruct (prepend_spec (t_buckets u) i (mkChange op pk old indirect) Hi') as (bs & -> & L & Pm & Pl). bind_step.
    assert (pk ∉ c_pk <$> entries u) as New.
    { intros (d & Hd & Hin)%list_elem_of_fmap. unfold entries in Hin.
      apply list_elem_of_In, in_concat in Hin as (b' & Hb' & Hin). apply list_elem_of_In, list_elem_of_lookup in Hb' as (j & Hj).
      apply list_elem_of_In in Hin. pose proof (P j b' d Hj Hin) as Hh'. unfold change_hash in Hh'. rewrite <- Hd, Hh in Hh'.
      apply Ok_inj in Hh'. assert (j = i) as -> by lia. rewrite Hj in Hb. injection Hb as ->. apply T. rewrite Hd. by apply list_elem_of_fmap_2. }
    eexists. split; [done|]. split; [|split_and!; simpl; try apply Su; try lia].
    + constructor; simpl.
      * unfold zlen in *. rewrite L. destruct S as [S|S]; lia.
      * unfold zlen. rewrite L. apply Pl; [done|]. exact Hh.
      * rewrite C. unfold zlen. unfold entries at 2. simpl. rewrite Pm. simpl. unfold entries. lia.
      * unfold entries at 1. simpl. rewrite Pm. simpl. constructor; [exact New|exact K].
    + right. split; [|unfold entries at 1; simpl; rewrite Pm; by rewrite <- Eu].
      intros Hin. apply New. by rewrite Eu.
Qed.

Lemma wf_new_table name ncol pk_flags : wf_hash (new_table name ncol pk_flags).
Proof. constructor; simpl; [by left|by intros i b c|done|constructor]. Qed.

End SessionProps.
