(* ===== verification/SessionApply.v ===== *)
(** Applying a changeset ([Connection::changeset_apply] and the functions it
    calls, [src/src/exec/mod.rs]) and writing the rebase blob of its conflicts
    ([serialize_rebase], [src/src/session.rs]).

    The statements these functions run are built as text in the source; here
    they are calls to a [Store], which is what the statements ask of the SQL
    engine: an [INSERT] of a full row, a [DELETE] and an [UPDATE] under a
    conjunction of [column IS value] terms with the number of rows changed,
    and the [SELECT 1 ... LIMIT 1] that asks whether such a row exists. *)

From S2P Require Import Prelude Value Session.
Import Value Session.
Local Open Scope Z_scope.

Module SessionApply.

(** A conjunction of [column IS value], or the [column = value] of a [SET]. *)
Definition terms : Type := list (Z * Value).

Class Store (D : Type) : Type := {
  st_insert : D -> bytes -> list Value -> res D;
  st_delete : D -> bytes -> terms -> res (Z * D);
  st_update : D -> bytes -> terms -> terms -> res (Z * D);
  st_exists : D -> bytes -> terms -> res bool }.

Inductive ConflictType : Type := Data | NotFound | Conflict | Constraint.
Inductive ConflictAction : Type := Omit | Replace | Abort.

#[export] Instance ConflictAction_eq_dec : EqDecision ConflictAction.
Proof. solve_decision. Defined.

Record RebaseEntry : Type := mkEntry {
  e_table : bytes;
  e_ncol : Z;
  e_pk_flags : bytes;
  e_op : ChangeOp;
  e_replace : bool;
  e_values : list (option Value) }.

(** ** The layout of a table's primary key *)

(** What [session_pk_layout] reads of the schema: the number of visible
    columns, the rowid alias, and the positions of the key columns in the order
    of the PRIMARY KEY clause, [None] when the schema has no CREATE TABLE text
    for the table. *)
Record TableMeta : Type := mkMeta {
  m_ncol : Z;
  m_ipk : option Z;
  m_pk_decl : option (list Z) }.

(** [for (ordinal, &pos) in pk_decl.iter().enumerate()]. *)
Fixpoint mark_ordinals (pk_decl : list Z) (ordinal : Z) (flags : bytes) : bytes :=
  match pk_decl with
  | [] => flags
  | pos :: pk_decl =>
      mark_ordinals pk_decl (ordinal + 1)
        (if pos <? zlen flags then <[Z.to_nat pos := wrap 8 (ordinal + 1)]> flags else flags)
  end.

Definition column_range (n : Z) : list Z := Z.of_nat <$> seq 0 (Z.to_nat n).

Definition session_pk_layout (m : TableMeta) : option Layout :=
  match m_ipk m with
  | Some ipk =>
      if m_ncol m <=? ipk then None
      else Some (mkLayout ((fun i => bool_byte (i =? ipk)) <$> column_range (m_ncol m)) [ipk] (Some ipk))
  | None =>
      match m_pk_decl m with
      | None | Some [] => None
      | Some pk_decl =>
          let flags := mark_ordinals pk_decl 0 (zrep (m_ncol m) 0) in
          let pk_positions := filter (fun i => is_pk flags i = true) (column_range (m_ncol m)) in
          match pk_positions with
          | [] => None
          | _ => Some (mkLayout flags pk_positions None)
          end
      end
  end.

(** ** One change *)

(** [source.get(i).cloned().flatten()]. *)
Definition field (source : list (option Value)) (i : Z) : option Value := match get source i with Some f => f | None => None end.

(** The terms of the key columns, with NULL for a missing one: [pk_where], and
    the loop of [session_pk_row_exists]. *)
Definition pk_where (pk_flags : bytes) (ncol : Z) (source : list (option Value)) : terms :=
  omap (fun i => if is_pk pk_flags i then Some (i, default Null (field source i)) else None) (column_range ncol).

(** [let old = &change.old[i]] over the columns: the key columns, and every
    column the record holds. *)
Fixpoint full_where (pk_flags : bytes) (cols : list Z) (old : list (option Value)) : res terms :=
  match cols with
  | [] => Ok []
  | i :: cols =>
      let* o := idx old i in
      let* ws := full_where pk_flags cols old in
      if is_pk pk_flags i then Ok ((i, default Null o) :: ws)
      else match o with Some v => Ok ((i, v) :: ws) | None => Ok ws end
  end.

(** The SET list: the non-key columns [new] holds. *)
Fixpoint set_list (pk_flags : bytes) (cols : list Z) (new : list (option Value)) : res terms :=
  match cols with
  | [] => Ok []
  | i :: cols =>
      if is_pk pk_flags i then set_list pk_flags cols new
      else
        let* n := idx new i in
        let* ss := set_list pk_flags cols new in
        match n with Some v => Ok ((i, v) :: ss) | None => Ok ss end
  end.

Section apply.
Context {D : Type} `{!Store D}.

(** The conflict handler, a closure with state [K]. *)
Context {K : Type} (on_conflict : K -> ConflictType -> ConflictAction * K).

(** The state the calls share: the database, the handler's state, and the
    entries collected for a rebase blob. *)
Record ApplyState : Type := mkApply {
  a_db : D;
  a_handler : K;
  a_rebase : option (list RebaseEntry) }.

Definition with_db (st : ApplyState) (db : D) : ApplyState := mkApply db (a_handler st) (a_rebase st).

(** The record of [capture]: [old] for a delete or a key column of an update,
    else [new]. *)
Definition captured (pk_flags : bytes) (ncol : Z) (c : ChangeRecord) : list (option Value) :=
  (fun i =>
     let use_old := bool_decide (r_op c = Delete) || (bool_decide (r_op c = Update) && is_pk pk_flags i) in
     field (if use_old then r_old c else r_new c) i) <$> column_range ncol.

(** A call of the handler and of [capture] on its answer. *)
Definition ask (table : bytes) (ncol : Z) (pk_flags : bytes) (c : ChangeRecord) (kind : ConflictType) (st : ApplyState) :
    ConflictAction * ApplyState :=
  let '(action, h) := on_conflict (a_handler st) kind in
  let rebase :=
    match a_rebase st, action with
    | Some entries, (Omit | Replace) =>
        Some (entries ++ [mkEntry table ncol pk_flags (r_op c) (bool_decide (action = Replace)) (captured pk_flags ncol c)])
    | r, _ => r
    end in
  (action, mkApply (a_db st) h rebase).

Definition abort_err : Error := EConstraint "changeset apply aborted by conflict".

Definition session_pk_row_exists (db : D) (table : bytes) (ncol : Z) (pk_flags : bytes) (source : list (option Value)) : res bool :=
  match pk_where pk_flags ncol source with
  | [] => Ok false
  | ws => st_exists db table ws
  end.

Section change.
Context (table : bytes) (ncol : Z) (pk_flags : bytes) (c : ChangeRecord).

Definition apply_insert (st : ApplyState) : res ApplyState :=
  let positional := default Null <$> r_new c in
  match st_insert (a_db st) table positional with
  | Ok db => Ok (with_db st db)
  | Err (EConstraint m) =>
      let* pk_exists := session_pk_row_exists (a_db st) table ncol pk_flags (r_new c) in
      let kind := if pk_exists then Conflict else Constraint in
      let '(action, st) := ask table ncol pk_flags c kind st in
      match action with
      | Omit => Ok st
      | Abort => Err (EConstraint m)
      | Replace =>
          if pk_exists then
            let* r := st_delete (a_db st) table (pk_where pk_flags ncol (r_new c)) in
            let st := with_db st r.2 in
            match st_insert (a_db st) table positional with
            | Ok db => Ok (with_db st db)
            | Err (EConstraint m2) =>
                let '(a2, st) := ask table ncol pk_flags c Constraint st in
                match a2 with Omit => Ok st | _ => Err (EConstraint m2) end
            | Err e => Err e
            | Panic => Panic
            end
          else Err (EConstraint m)
      end
  | Err e => Err e
  | Panic => Panic
  end.

(** The tail both other kinds share: no row changed, so the target is there
    with other values or is missing; [force] is the statement a replacement
    runs. *)
Definition no_match (force : ApplyState -> res ApplyState) (st : ApplyState) : res ApplyState :=
  let* found := session_pk_row_exists (a_db st) table ncol pk_flags (r_old c) in
  let kind := if found then Data else NotFound in
  let '(action, st) := ask table ncol pk_flags c kind st in
  match action with
  | Omit => Ok st
  | Replace => if found then force st else Err abort_err
  | Abort => Err abort_err
  end.

Definition apply_delete (st : ApplyState) : res ApplyState :=
  let* ws := full_where pk_flags (column_range ncol) (r_old c) in
  let* r := st_delete (a_db st) table ws in
  let st := with_db st r.2 in
  if 1 <=? r.1 then Ok st
  else
    no_match (fun st =>
      let* r := st_delete (a_db st) table (pk_where pk_flags ncol (r_old c)) in
      Ok (with_db st r.2)) st.

Definition apply_update (st : ApplyState) : res ApplyState :=
  let* sets := set_list pk_flags (column_range ncol) (r_new c) in
  match sets with
  | [] => Ok st
  | _ =>
      let* ws := full_where pk_flags (column_range ncol) (r_old c) in
      let* r := st_update (a_db st) table sets ws in
      let st := with_db st r.2 in
      if 1 <=? r.1 then Ok st
      else
        no_match (fun st =>
          match st_update (a_db st) table sets (pk_where pk_flags ncol (r_old c)) with
          | Ok r => Ok (with_db st r.2)
          | Err (EConstraint m) =>
              let '(a2, st) := ask table ncol pk_flags c Constraint st in
              match a2 with Omit => Ok st | _ => Err (EConstraint m) end
          | Err e => Err e
          | Panic => Panic
          end) st
  end.

Definition apply_one_change (st : ApplyState) : res ApplyState :=
  match r_op c with
  | Insert => apply_insert st
  | Delete => apply_delete st
  | Update => apply_update st
  end.
End change.

(** ** A whole blob *)

Context (schema : bytes -> option TableMeta).

Fixpoint apply_changes (table : bytes) (ncol : Z) (pk_flags : bytes) (cs : list ChangeRecord) (st : ApplyState) : res ApplyState :=
  match cs with
  | [] => Ok st
  | c :: cs =>
      let* st := apply_one_change table ncol pk_flags c st in
      apply_changes table ncol pk_flags cs st
  end.

Fixpoint changeset_apply_inner (tables : list TableChangeset) (st : ApplyState) : res ApplyState :=
  match tables with
  | [] => Ok st
  | tbl :: tables =>
      match schema (tc_name tbl) with
      | None => changeset_apply_inner tables st
      | Some meta =>
          match session_pk_layout meta with
          | None => changeset_apply_inner tables st
          | Some ly =>
              if negb (m_ncol meta =? tc_ncol tbl) || negb (bool_decide (l_flags ly = tc_pk_flags tbl)) then
                changeset_apply_inner tables st
              else
                let* st := apply_changes (tc_name tbl) (tc_ncol tbl) (tc_pk_flags tbl) (tc_changes tbl) st in
                changeset_apply_inner tables st
          end
      end
  end.

(** The savepoint around it: the database as it was when the apply fails. *)
Definition run_in_savepoint (db : D) (h : K) (rebase : option (list RebaseEntry)) (tables : list TableChangeset) :
    res (option (list RebaseEntry)) * D :=
  match changeset_apply_inner tables (mkApply db h rebase) with
  | Ok st => (Ok (a_rebase st), a_db st)
  | Err e => (Err e, db)
  | Panic => (Panic, db)
  end.

Definition changeset_apply_with (db : D) (h : K) (changeset : bytes) : res unit * D :=
  match parse_changeset changeset with
  | Ok [] => (Ok (), db)
  | Ok tables => let '(r, db) := run_in_savepoint db h None tables in (let* _ := r in Ok (), db)
  | Err e => (Err e, db)
  | Panic => (Panic, db)
  end.

(** [serialize_rebase]: a header at the first entry of each table. *)
Fixpoint rebase_entries (entries : list RebaseEntry) (seen : list bytes) : bytes :=
  match entries with
  | [] => []
  | e :: entries =>
      let is_new := negb (existsb (fun t => bool_decide (t = e_table e)) seen) in
      (if is_new then table_header 84 (e_ncol e) (e_pk_flags e) (e_table e) else [])
      ++ [if bool_decide (e_op e = Delete) then OP_DELETE else OP_INSERT; bool_byte (e_replace e)]
      ++ concat ((fun f => match f with Some v => append_value v | None => [T_OMIT] end) <$> e_values e)
      ++ rebase_entries entries (if is_new then seen ++ [e_table e] else seen)
  end.

Definition serialize_rebase (entries : list RebaseEntry) : bytes := rebase_entries entries [].

Definition changeset_apply_rebase (db : D) (h : K) (changeset : bytes) : res bytes * D :=
  match parse_changeset changeset with
  | Ok [] => (Ok [], db)
  | Ok tables =>
      let '(r, db) := run_in_savepoint db h (Some []) tables in
      (let* rebase := r in Ok (serialize_rebase (default [] rebase)), db)
  | Err e => (Err e, db)
  | Panic => (Panic, db)
  end.

End apply.

(** The default handler of [changeset_apply]. *)
Definition default_handler (h : unit) (kind : ConflictType) : ConflictAction * unit :=
  match kind with
  | Data | NotFound => (Omit, h)
  | Conflict | Constraint => (Abort, h)
  end.

Definition changeset_apply {D} `{Store D} (schema : bytes -> option TableMeta) (db : D) (changeset : bytes) : res unit * D :=
  changeset_apply_with default_handler schema db () changeset.

(** An update that hits another constraint fails the whole apply; the handler
    is not asked. *)
Lemma update_constraint_not_asked {D} `{!Store D} {K} (on_conflict : K -> ConflictType -> ConflictAction * K)
    table ncol pk_flags c st sets ws m :
  r_op c = Update -> set_list pk_flags (column_range ncol) (r_new c) = Ok sets -> sets <> [] ->
  full_where pk_flags (column_range ncol) (r_old c) = Ok ws -> st_update (a_db st) table sets ws = Err (EConstraint m) ->
  apply_one_change on_conflict table ncol pk_flags c st = Err (EConstraint m).
Proof.
  intros Hop Hs Hne Hw Hu. unfold apply_one_change, apply_update. rewrite Hop, Hs. bind_step.
  destruct sets as [|s0 sets]; [done|]. rewrite Hw. bind_step. by rewrite Hu.
Qed.

End SessionApply.
