(* ===== verification/SessionStore.v ===== *)
(** The store a changeset is applied to, as a keyed table.

    [KeyedStore] states what the statements of [SessionApply.v] promise on a
    table whose only constraint is its primary key: an insert adds a row with
    a new key, and a statement whose terms name the whole key touches that row
    or none. [keyed_db], finite maps from keys to rows, is an instance.

    The comparison of values the writer uses ([value_eq]) is finer than
    equality on canonical values only: a NaN differs from itself, and the two
    zeros are equal. *)

From S2P Require Import Prelude Value Session SessionProps SessionApply.
From stdpp Require Import gmap.
Import Value Session SessionProps SessionApply.
Local Open Scope Z_scope.

Module SessionStore.

(** ** Canonical values *)

Definition canonical (v : Value) : Prop :=
  match v with Real r => is_u64 r /\ f64_key r <> None /\ r <> 2 ^ 63 | _ => True end.

(** The magnitude of the double with exponent field [ex] and fraction [frac],
    scaled as in [f64_key]. *)
Definition magnitude (ex frac : Z) : Z :=
  if ex =? 2047 then 2 ^ 2100 else if ex =? 0 then frac else (2 ^ 52 + frac) * 2 ^ (ex - 1).

Lemma magnitude_bounds ex frac : 0 <= ex <= 2047 -> 0 <= frac < 2 ^ 52 ->
  0 <= magnitude ex frac < 2 ^ (52 + (if ex =? 2047 then 2049 else ex)) /\ (ex <> 0 -> 2 ^ (51 + ex) <= magnitude ex frac).
Proof.
  intros He Hf. unfold magnitude. destruct (Z.eqb_spec ex 2047) as [ -> |N].
  { split; [split; [lia|apply Z.pow_lt_mono_r; lia]|]. intros _. apply Z.pow_le_mono_r; lia. }
  destruct (Z.eqb_spec ex 0) as [ -> |N0]; [split; [|done]; change (52 + 0) with 52; lia|].
  assert (2 ^ (52 + ex) = 2 ^ 53 * 2 ^ (ex - 1)) as -> by (rewrite <- Z.pow_add_r by lia; f_equal; lia).
  assert (2 ^ (51 + ex) = 2 ^ 52 * 2 ^ (ex - 1)) as -> by (rewrite <- Z.pow_add_r by lia; f_equal; lia).
  assert (0 < 2 ^ (ex - 1)) by (apply Z.pow_pos_nonneg; lia).
  split; [|intros _; nia]. split; [nia|]. apply Z.mul_lt_mono_pos_r; lia.
Qed.

Lemma magnitude_lt ex frac ex' frac' : 0 <= ex < ex' -> ex' <= 2047 -> 0 <= frac < 2 ^ 52 -> 0 <= frac' < 2 ^ 52 ->
  magnitude ex frac < magnitude ex' frac'.
Proof.
  intros H H' Hf Hf'. destruct (magnitude_bounds ex frac) as ((_ & U) & _); [lia..|].
  destruct (magnitude_bounds ex' frac') as (_ & L); [lia..|]. specialize (L ltac:(lia)).
  rewrite (proj2 (Z.eqb_neq ex 2047)) in U by lia.
  eapply Z.lt_le_trans; [exact U|]. etrans; [|exact L]. apply Z.pow_le_mono_r; lia.
Qed.

Lemma magnitude_inj ex frac ex' frac' : 0 <= ex <= 2047 -> 0 <= ex' <= 2047 -> 0 <= frac < 2 ^ 52 -> 0 <= frac' < 2 ^ 52 ->
  (ex = 2047 -> frac = 0) -> (ex' = 2047 -> frac' = 0) ->
  magnitude ex frac = magnitude ex' frac' -> ex = ex' /\ frac = frac'.
Proof.
  intros He He' Hf Hf' Hi Hi' E. destruct (Z.lt_trichotomy ex ex') as [L|[ <- |L]].
  - pose proof (magnitude_lt ex frac ex' frac'). lia.
  - split; [done|]. unfold magnitude in E. destruct (Z.eqb_spec ex 2047); [naive_solver|]. destruct (Z.eqb_spec ex 0); [done|].
    apply Z.mul_reg_r in E; [lia|]. pose proof (Z.pow_pos_nonneg 2 (ex - 1)). lia.
  - pose proof (magnitude_lt ex' frac' ex frac). lia.
Qed.

(** The three fields of a bit pattern, and the key in their terms. *)
Lemma f64_split r k : is_u64 r -> f64_key r = Some k -> exists (neg : bool) ex frac,
  r = (if neg then 2 ^ 63 else 0) + ex * 2 ^ 52 + frac /\ 0 <= ex <= 2047 /\ 0 <= frac < 2 ^ 52 /\ (ex = 2047 -> frac = 0) /\
  k = (if neg then - magnitude ex frac else magnitude ex frac).
Proof.
  intros Hr. unfold f64_key, f64_class.
  assert (Z.land (Z.shiftr r 52) 2047 = r / 2 ^ 52 mod 2 ^ 11) as ->.
  { change 2047 with (2 ^ 11 - 1). rewrite land_ones_mod by lia. by rewrite Z.shiftr_div_pow2 by lia. }
  rewrite land_ones_mod by lia. intros E.
  exists (Z.testbit r 63), (r / 2 ^ 52 mod 2 ^ 11), (r mod 2 ^ 52).
  pose proof (Z.mod_pos_bound (r / 2 ^ 52) (2 ^ 11) ltac:(lia)) as B1. pose proof (Z.mod_pos_bound r (2 ^ 52) ltac:(lia)) as B2.
  split.
  { rewrite Z.testbit_eqb by lia. unfold is_u64, is_uint in Hr.
    pose proof (Z.div_mod r (2 ^ 52) ltac:(lia)) as D1. pose proof (Z.div_mod (r / 2 ^ 52) (2 ^ 11) ltac:(lia)) as D2.
    rewrite Z.div_div in D2 by lia. change (2 ^ 52 * 2 ^ 11) with (2 ^ 63) in D2.
    assert (0 <= r / 2 ^ 63 < 2) as B by (split; [apply Z.div_pos; lia|apply Z.div_lt_upper_bound; lia]).
    assert (r / 2 ^ 63 = 0 \/ r / 2 ^ 63 = 1) as [Q|Q] by lia; rewrite Q in *; simpl; lia. }
  set (ex := r / 2 ^ 52 mod 2 ^ 11) in *. set (frac := r mod 2 ^ 52) in *.
  revert E. generalize (Z.testbit r 63). intros neg E.
  split; [lia|]. split; [done|]. unfold magnitude.
  destruct (Z.eqb_spec ex 2047) as [X|X].
  - destruct (Z.eqb_spec frac 0); [|done]. split; [done|]. by destruct neg; injection E as <-.
  - split; [done|]. destruct (Z.eqb_spec ex 0) as [X0|X0]; cbv iota beta in E; injection E as <-.
    + change (-1074 + 1074) with 0. rewrite Z.mul_1_r. done.
    + replace (ex - 1075 + 1074) with (ex - 1) by lia. destruct neg; [apply Z.mul_opp_l|done].
Qed.

Lemma f64_key_inj r r' k : is_u64 r -> is_u64 r' -> r <> 2 ^ 63 -> r' <> 2 ^ 63 -> f64_key r = Some k -> f64_key r' = Some k -> r = r'.
Proof.
  intros Hr Hr' N N' K K'.
  destruct (f64_split r k Hr K) as (s & ex & frac & E & He & Hf & Hi & Hk).
  destruct (f64_split r' k Hr' K') as (s' & ex' & frac' & E' & He' & Hf' & Hi' & Hk').
  destruct (magnitude_bounds ex frac He Hf) as ((B & _) & L). destruct (magnitude_bounds ex' frac' He' Hf') as ((B' & _) & L').
  assert (forall e f, 0 <= e <= 2047 -> 0 <= f < 2 ^ 52 -> magnitude e f = 0 -> e = 0 /\ f = 0) as Z0.
  { intros e f H1 H2 M. destruct (magnitude_bounds e f H1 H2) as (_ & Lb). destruct (Z.eq_dec e 0) as [ -> |Ne]; [done|].
    specialize (Lb Ne). pose proof (Z.pow_pos_nonneg 2 (51 + e)). lia. }
  destruct (Z.eq_dec (magnitude ex frac) 0) as [M|M].
  - assert (magnitude ex' frac' = 0) as M' by (destruct s, s'; lia).
    destruct (Z0 _ _ He Hf M) as (-> & ->). destruct (Z0 _ _ He' Hf' M') as (-> & ->). destruct s, s'; lia.
  - assert (s = s' /\ magnitude ex frac = magnitude ex' frac') as (-> & M').
    { destruct s, s'; split; try done; lia. }
    destruct (magnitude_inj ex frac ex' frac') as (-> & ->); first [done|lia|congruence].
Qed.

Lemma real_eq_canonical r r' : canonical (Real r) -> canonical (Real r') ->
  match f64_partial_cmp r r' with Some Eq => true | _ => false end = bool_decide (r = r').
Proof.
  intros (U & K & N) (U' & K' & N'). unfold f64_partial_cmp.
  destruct (f64_key r) as [k|] eqn:E; [|by destruct K]. destruct (f64_key r') as [k'|] eqn:E'; [|by destruct K'].
  destruct (Z.compare_spec k k') as [ -> |L|L]; symmetry.
  - apply bool_decide_eq_true. by eapply f64_key_inj.
  - apply bool_decide_eq_false. intros ->. rewrite E in E'. injection E' as ->. lia.
  - apply bool_decide_eq_false. intros ->. rewrite E in E'. injection E' as ->. lia.
Qed.

Lemma value_eq_canonical x y : canonical x -> canonical y -> value_eq x y = bool_decide (x = y).
Proof.
  intros C C'. rewrite <- pk_value_eq_spec.
  destruct x, y; try reflexivity. unfold value_eq, pk_value_eq. rewrite real_eq_canonical by done.
  destruct (Z.eqb_spec bits bits0); [by apply bool_decide_eq_true|by apply bool_decide_eq_false].
Qed.

(** ** Keyed tables *)

#[export] Instance Value_countable : Countable Value.
Proof.
  apply (inj_countable'
    (fun v => match v with
      | Null => inl None | Integer i => inl (Some i)
      | Real r => inr (inl r) | Text t => inr (inr (inl t)) | Blob b => inr (inr (inr b))
      end)
    (fun s => match s with
      | inl None => Null | inl (Some i) => Integer i
      | inr (inl r) => Real r | inr (inr (inl t)) => Text t | inr (inr (inr b)) => Blob b
      end)). by intros [].
Defined.

Notation rows_of := (gmap (list Value) (list Value)).
Notation keyed_db := (gmap bytes rows_of).

(** The key columns of a row, the columns numbered from [i]. *)
Fixpoint key_from (pk_flags : bytes) (i : Z) (row : list Value) : list Value :=
  match row with
  | [] => []
  | v :: row => (if is_pk pk_flags i then [v] else []) ++ key_from pk_flags (i + 1) row
  end.

Definition row_key (pk_flags : bytes) (row : list Value) : list Value := key_from pk_flags 0 row.

(** [column IS value AND ...] and [SET column = value, ...]. *)
Definition row_matches (ws : terms) (row : list Value) : bool :=
  forallb (fun '(i, v) => bool_decide (get row i = Some v)) ws.

Definition assign (sets : terms) (row : list Value) : list Value :=
  fold_left (fun row '(i, v) => <[Z.to_nat i := v]> row) sets row.

(** Terms that pin every key column down to [k]. *)
Definition names_key (pk_flags : bytes) (ws : terms) (k : list Value) : Prop :=
  forall row, zlen row = zlen pk_flags -> row_matches ws row = true -> row_key pk_flags row = k.

Section keyed.
Context {D : Type} (rows : D -> bytes -> rows_of).

Definition updated (db db' : D) (t : bytes) (m : rows_of) : Prop :=
  rows db' t = m /\ forall t', t' <> t -> rows db' t' = rows db t'.

Class KeyedStore (S : Store D) (flags : bytes -> bytes) (valid : D -> Prop) : Prop := {
  ks_rows db t k row : valid db -> rows db t !! k = Some row -> zlen row = zlen (flags t) /\ row_key (flags t) row = k;
  ks_insert db t row : valid db -> zlen row = zlen (flags t) ->
    match rows db t !! row_key (flags t) row with
    | None => exists db', st_insert db t row = Ok db' /\ valid db' /\ updated db db' t (<[row_key (flags t) row := row]> (rows db t))
    | Some _ => exists m, st_insert db t row = Err (EConstraint m)
    end;
  ks_delete db t ws k : valid db -> names_key (flags t) ws k ->
    match rows db t !! k with
    | Some row =>
        if row_matches ws row then exists db', st_delete db t ws = Ok (1, db') /\ valid db' /\ updated db db' t (delete k (rows db t))
        else st_delete db t ws = Ok (0, db)
    | None => st_delete db t ws = Ok (0, db)
    end;
  ks_update db t sets ws k : valid db -> names_key (flags t) ws k -> Forall (fun s => is_pk (flags t) s.1 = false /\ 0 <= s.1) sets ->
    match rows db t !! k with
    | Some row =>
        if row_matches ws row then
          exists db', st_update db t sets ws = Ok (1, db') /\ valid db' /\ updated db db' t (<[k := assign sets row]> (rows db t))
        else st_update db t sets ws = Ok (0, db)
    | None => st_update db t sets ws = Ok (0, db)
    end;
  ks_exists db t ws k : valid db -> names_key (flags t) ws k ->
    st_exists db t ws = Ok (match rows db t !! k with Some row => row_matches ws row | None => false end) }.
End keyed.

(** ** Finite maps as a keyed store *)

Section keyed_db.
Context (flags : bytes -> bytes).

Definition db_rows (db : keyed_db) (t : bytes) : rows_of := default ∅ (db !! t).

Definition matching (ws : terms) (m : rows_of) : rows_of := filter (fun kr => row_matches ws kr.2 = true) m.

#[export] Instance keyed_db_store : Store keyed_db := {
  st_insert db t row :=
    match db_rows db t !! row_key (flags t) row with
    | None => Ok (<[t := <[row_key (flags t) row := row]> (db_rows db t)]> db)
    | Some _ => Err (EConstraint "UNIQUE constraint failed")
    end;
  st_delete db t ws :=
    let hit := matching ws (db_rows db t) in
    Ok (Z.of_nat (size hit), if decide (hit = ∅) then db else <[t := db_rows db t ∖ hit]> db);
  st_update db t sets ws :=
    let hit := matching ws (db_rows db t) in
    Ok (Z.of_nat (size hit), if decide (hit = ∅) then db else <[t := (assign sets <$> hit) ∪ db_rows db t]> db);
  st_exists db t ws := Ok (bool_decide (matching ws (db_rows db t) <> ∅)) }.

Definition keyed_valid (db : keyed_db) : Prop :=
  forall t k row, db_rows db t !! k = Some row -> zlen row = zlen (flags t) /\ row_key (flags t) row = k.

Lemma db_rows_insert db t m : updated db_rows db (<[t := m]> db) t m.
Proof.
  unfold updated, db_rows. split; [by rewrite lookup_insert_eq|]. intros t' N. by rewrite lookup_insert_ne.
Qed.

Lemma keyed_valid_insert db t m : keyed_valid db ->
  (forall k row, m !! k = Some row -> zlen row = zlen (flags t) /\ row_key (flags t) row = k) -> keyed_valid (<[t := m]> db).
Proof.
  intros V H t' k row. destruct (db_rows_insert db t m) as (E & E').
  destruct (decide (t' = t)) as [ -> |N]; [rewrite E; apply H|rewrite E' by done; apply V].
Qed.

(** Terms that name a key hit that row or none. *)
Lemma matching_key db t ws k : keyed_valid db -> names_key (flags t) ws k ->
  matching ws (db_rows db t) =
  match db_rows db t !! k with Some row => if row_matches ws row then {[k := row]} else ∅ | None => ∅ end.
Proof.
  intros V N. apply map_eq. intros k'. unfold matching. rewrite map_lookup_filter.
  destruct (db_rows db t !! k') as [row'|] eqn:E'; simpl.
  - destruct (V _ _ _ E') as (L & K). destruct (row_matches ws row') eqn:M.
    + assert (k' = k) as -> by (rewrite <- K; by apply N). rewrite E', M. rewrite option_guard_True by done. by rewrite lookup_singleton_eq.
    + rewrite option_guard_False by congruence.
      destruct (db_rows db t !! k) as [row|] eqn:E; [|by rewrite lookup_empty].
      destruct (row_matches ws row) eqn:M'; [|by rewrite lookup_empty].
      destruct (decide (k' = k)) as [ -> |]; [congruence|by rewrite lookup_singleton_ne].
  - destruct (db_rows db t !! k) as [row|] eqn:E; [|by rewrite lookup_empty].
    destruct (row_matches ws row) eqn:M'; [|by rewrite lookup_empty].
    destruct (decide (k' = k)) as [ -> |]; [congruence|by rewrite lookup_singleton_ne].
Qed.

Lemma key_from_insert pk_flags i row (n : nat) v : is_pk pk_flags (i + Z.of_nat n) = false ->
  key_from pk_flags i (<[n := v]> row) = key_from pk_flags i row.
Proof.
  revert i n. induction row as [|x row IH]; intros i [|n] E; [done..| |]; simpl.
  - rewrite Z.add_0_r in E. by rewrite E.
  - f_equal. apply IH. rewrite <- E. f_equal. lia.
Qed.

Lemma assign_key pk_flags sets row : Forall (fun s => is_pk pk_flags s.1 = false /\ 0 <= s.1) sets ->
  zlen (assign sets row) = zlen row /\ row_key pk_flags (assign sets row) = row_key pk_flags row.
Proof.
  intros F. revert row. induction F as [|[i v] sets (E & P) _ IH]; intros row; [done|]. simpl in *.
  destruct (IH (<[Z.to_nat i := v]> row)) as (L & K). unfold assign in *. simpl.
  rewrite L, K, zlen_insert. split; [done|]. apply key_from_insert. rewrite Z2Nat.id by lia. done.
Qed.

Lemma difference_singleton (m : rows_of) k row : m ∖ {[k := row]} = delete k m.
Proof.
  apply map_eq. intros k'. rewrite lookup_difference. destruct (decide (k' = k)) as [ -> |N].
  - by rewrite lookup_singleton_eq, lookup_delete_eq.
  - by rewrite lookup_singleton_ne, lookup_delete_ne by done.
Qed.

#[export] Instance keyed_db_keyed : KeyedStore db_rows keyed_db_store flags keyed_valid.
Proof.
  split.
  - intros db t k row V E. by apply (V t).
  - intros db t row V L. simpl. destruct (db_rows db t !! _); [by eexists|]. eexists. split; [done|]. split; [|apply db_rows_insert].
    apply keyed_valid_insert; [done|]. intros k row' [(<- & <-)|(_ & E)]%lookup_insert_Some; [done|by apply (V t)].
  - intros db t ws k V N. simpl. rewrite (matching_key db t ws k V N).
    destruct (db_rows db t !! k) as [row|] eqn:E; [|done]. destruct (row_matches ws row); [|done].
    rewrite map_size_singleton. rewrite decide_False by apply map_non_empty_singleton. rewrite difference_singleton.
    eexists. split; [done|]. split; [|apply db_rows_insert]. apply keyed_valid_insert; [done|].
    intros k' row' (_ & E')%lookup_delete_Some. by apply (V t).
  - intros db t sets ws k V N F. simpl. rewrite (matching_key db t ws k V N).
    destruct (db_rows db t !! k) as [row|] eqn:E; [|done]. destruct (row_matches ws row); [|done].
    rewrite map_size_singleton. rewrite decide_False by apply map_non_empty_singleton. rewrite map_fmap_singleton, <- insert_union_singleton_l.
    eexists. split; [done|]. split; [|apply db_rows_insert]. apply keyed_valid_insert; [done|].
    intros k' row' [(<- & <-)|(_ & E')]%lookup_insert_Some; [|by apply (V t)].
    destruct (V t k row E) as (L & K). destruct (assign_key (flags t) sets row F) as (-> & ->). done.
  - intros db t ws k V N. simpl. rewrite (matching_key db t ws k V N). f_equal.
    destruct (db_rows db t !! k) as [row|]; [|done]. destruct (row_matches ws row); [|done].
    apply bool_decide_eq_true. apply map_non_empty_singleton.
Qed.

End keyed_db.

End SessionStore.
