(* ===== verification/SessionStep.v ===== *)
(** One change record applied to a keyed store: a clean change turns the row
    it was recorded from into the row it was written for, and touches no other
    row, for changesets and patchsets alike.

    The terms of the statements are first given column by column
    ([where_of], [sets_of]); what they match and assign then follows from the
    fields of the record. *)

From S2P Require Import Prelude Value Session SessionRead SessionProps SessionApply SessionStore.
From stdpp Require Import gmap.
Import Value Session SessionRead SessionProps SessionApply SessionStore.
Local Open Scope Z_scope.

Module SessionStep.

(** ** Columns *)

Lemma get_nat {A} (l : list A) (n : nat) : get l (Z.of_nat n) = l !! n.
Proof. unfold get. rewrite (proj2 (Z.ltb_ge _ _)) by lia. by rewrite Nat2Z.id. Qed.

Lemma elem_of_column_range n i : i ∈ column_range n <-> 0 <= i < n.
Proof.
  unfold column_range. rewrite list_elem_of_fmap. split.
  - intros (k & -> & Hk). apply elem_of_seq in Hk. lia.
  - intros H. exists (Z.to_nat i). split; [lia|]. apply elem_of_seq. lia.
Qed.

Lemma NoDup_column_range n : NoDup (column_range n).
Proof. apply NoDup_fmap; [intros a b; lia|]. apply NoDup_seq. Qed.

Lemma lookup_columns {A B} (f : Z -> A -> B) i l (n : nat) : columns f i l !! n = f (i + Z.of_nat n) <$> l !! n.
Proof.
  revert i n. induction l as [|x l IH]; intros i [|n]; simpl; [done..|by rewrite Z.add_0_r|]. rewrite IH. do 2 f_equal. lia.
Qed.

Lemma lookup_zip {A B} (l : list A) (k : list B) n x y : l !! n = Some x -> k !! n = Some y -> zip l k !! n = Some (x, y).
Proof. intros H K. rewrite lookup_zip_with, H, K. done. Qed.

Lemma row_ext (row row' : list Value) : zlen row = zlen row' -> (forall (n : nat) v v', row !! n = Some v -> row' !! n = Some v' -> v = v') -> row = row'.
Proof.
  intros L H. apply list_eq. intros n. destruct (row !! n) as [v|] eqn:E.
  - destruct (lookup_lt_is_Some_2 row' n) as (v' & E'); [apply lookup_lt_Some in E; unfold zlen in L; lia|].
    rewrite E'. f_equal. by eapply H.
  - symmetry. apply lookup_ge_None in E. apply lookup_ge_None. unfold zlen in L. lia.
Qed.

Lemma key_agree pk_flags i row row' : length row = length row' ->
  (forall (n : nat), is_pk pk_flags (i + Z.of_nat n) = true -> row !! n = row' !! n) -> key_from pk_flags i row = key_from pk_flags i row'.
Proof.
  revert i row'. induction row as [|v row IH]; intros i [|v' row'] L H; simpl in L; try done. simpl.
  rewrite (IH (i + 1) row'); [|lia|].
  - f_equal. destruct (is_pk pk_flags i) eqn:E; [|done]. specialize (H 0%nat). rewrite Z.add_0_r in H. specialize (H E). simpl in H. congruence.
  - intros n Hn. apply (H (S n)). rewrite <- Hn. f_equal. lia.
Qed.

Lemma key_agree_inv pk_flags i row row' (n : nat) : length row = length row' ->
  key_from pk_flags i row = key_from pk_flags i row' -> is_pk pk_flags (i + Z.of_nat n) = true -> row !! n = row' !! n.
Proof.
  revert i row' n. induction row as [|v row IH]; intros i [|v' row'] n L E P; simpl in L; try done. simpl in E.
  assert (length (if is_pk pk_flags i then [v] else []) = length (if is_pk pk_flags i then [v'] else [])) as Ll by (by destruct (is_pk pk_flags i)).
  apply app_inj_1 in E as (E0 & E); [|done]. destruct n as [|n]; simpl.
  - rewrite Z.add_0_r in P. rewrite P in E0. congruence.
  - apply (IH (i + 1)); [lia|done|]. rewrite <- P. f_equal. lia.
Qed.

(** ** The terms of a record *)

Definition where_field (pk_flags : bytes) (fs : list (option Value)) (i : Z) : option (Z * Value) :=
  if is_pk pk_flags i then Some (i, default Null (field fs i)) else pair i <$> field fs i.

Definition sets_field (pk_flags : bytes) (fs : list (option Value)) (i : Z) : option (Z * Value) :=
  if is_pk pk_flags i then None else pair i <$> field fs i.

Lemma idx_field (fs : list (option Value)) i : 0 <= i < zlen fs -> idx fs i = Ok (field fs i).
Proof. intros H. destruct (idx_in_range fs i H) as (f & E). rewrite E. apply idx_Ok in E as (_ & E). unfold field, get. rewrite (proj2 (Z.ltb_ge _ _)) by lia. by rewrite E. Qed.

Lemma full_where_ok pk_flags cols fs : Forall (fun i => 0 <= i < zlen fs) cols ->
  full_where pk_flags cols fs = Ok (omap (where_field pk_flags fs) cols).
Proof.
  induction 1 as [|i cols Hi _ IH]; [done|]. simpl. rewrite idx_field by done. bind_step. rewrite IH. bind_step.
  assert (where_field pk_flags fs i = if is_pk pk_flags i then Some (i, default Null (field fs i)) else pair i <$> field fs i) as -> by done.
  destruct (is_pk pk_flags i); [done|]. by destruct (field fs i).
Qed.

Lemma set_list_ok pk_flags cols fs : Forall (fun i => 0 <= i < zlen fs) cols ->
  set_list pk_flags cols fs = Ok (omap (sets_field pk_flags fs) cols).
Proof.
  induction 1 as [|i cols Hi _ IH]; [done|]. simpl.
  assert (sets_field pk_flags fs i = if is_pk pk_flags i then None else pair i <$> field fs i) as -> by done.
  destruct (is_pk pk_flags i); [exact IH|].
  rewrite idx_field by done. bind_step. rewrite IH. bind_step. by destruct (field fs i).
Qed.

Lemma row_matches_spec ws row : row_matches ws row = true <-> forall i v, (i, v) ∈ ws -> get row i = Some v.
Proof.
  unfold row_matches. rewrite forallb_forall. split.
  - intros H i v Hi. apply list_elem_of_In in Hi. specialize (H _ Hi). simpl in H. by apply bool_decide_eq_true in H.
  - intros H [i v] Hi. apply list_elem_of_In in Hi. apply bool_decide_eq_true. by apply H.
Qed.

(** Terms that hold the key columns of [row]. *)
Lemma names_key_of pk_flags ws row : zlen row = zlen pk_flags ->
  (forall (n : nat) v, is_pk pk_flags (Z.of_nat n) = true -> row !! n = Some v -> (Z.of_nat n, v) ∈ ws) -> names_key pk_flags ws (row_key pk_flags row).
Proof.
  intros L H row' L' M. apply key_agree; [unfold zlen in *; lia|]. intros n P. simpl in P.
  destruct (row !! n) as [v|] eqn:E.
  - specialize (H n v P E). apply (proj1 (row_matches_spec ws row') M) in H. by rewrite get_nat in H.
  - apply lookup_ge_None in E. apply lookup_ge_None. unfold zlen in *. lia.
Qed.

Lemma elem_where pk_flags fs n i v : (i, v) ∈ omap (where_field pk_flags fs) (column_range n) <->
  0 <= i < n /\ where_field pk_flags fs i = Some (i, v).
Proof.
  rewrite list_elem_of_omap. split.
  - intros (j & Hj & E). apply elem_of_column_range in Hj.
    assert (j = i) as -> by (unfold where_field in E; destruct (is_pk pk_flags j); [congruence|]; destruct (field fs j); simpl in E; congruence). done.
  - intros (Hi & E). exists i. split; [by apply elem_of_column_range|done].
Qed.

(** What the assignments leave in a column. *)
Lemma assign_app a b row : assign (a ++ b) row = assign b (assign a row).
Proof. unfold assign. by rewrite fold_left_app. Qed.

Lemma lookup_assign (F : Z -> option (Z * Value)) cols row (n : nat) :
  (forall i w, F i = Some w -> w.1 = i) -> NoDup cols -> Forall (fun i => 0 <= i) cols -> (n < length row)%nat ->
  assign (omap F cols) row !! n =
    (if bool_decide (Z.of_nat n ∈ cols) then match F (Z.of_nat n) with Some w => Some w.2 | None => row !! n end else row !! n).
Proof.
  intros HF. revert row. induction cols as [|i cols IH]; intros row N P L; [by rewrite bool_decide_eq_false_2 by apply not_elem_of_nil|].
  apply NoDup_cons in N as (Ni & N). apply Forall_cons in P as (Pi & P). simpl.
  destruct (F i) as [[j v]|] eqn:E.
  - pose proof (HF i _ E) as Ej. simpl in Ej. subst j. unfold assign. simpl. fold (assign (omap F cols) (<[Z.to_nat i := v]> row)).
    rewrite IH by (try rewrite length_insert; done). destruct (decide (Z.of_nat n = i)) as [ <- |Nn].
    + rewrite (bool_decide_eq_false_2 _ Ni), bool_decide_eq_true_2 by left. rewrite E. simpl. rewrite Nat2Z.id. by apply list_lookup_insert_eq.
    + rewrite list_lookup_insert_ne by lia. rewrite (bool_decide_ext (Z.of_nat n ∈ i :: cols) (Z.of_nat n ∈ cols)); [done|]. rewrite elem_of_cons. naive_solver.
  - rewrite IH by done. destruct (decide (Z.of_nat n = i)) as [ <- |Nn].
    + rewrite (bool_decide_eq_false_2 _ Ni), bool_decide_eq_true_2 by left. by rewrite E.
    + rewrite (bool_decide_ext (Z.of_nat n ∈ i :: cols) (Z.of_nat n ∈ cols)); [done|]. rewrite elem_of_cons. naive_solver.
Qed.

Lemma field_columns {A} (f : Z -> A -> option Value) l (n : nat) x : l !! n = Some x -> field (columns f 0 l) (Z.of_nat n) = f (Z.of_nat n) x.
Proof. intros E. unfold field. rewrite get_nat, lookup_columns, E. done. Qed.

Lemma zlen_columns {A B} (f : Z -> A -> B) i l : zlen (columns f i l) = zlen l.
Proof. unfold zlen. by rewrite length_columns. Qed.

Lemma column_nat (row : list Value) i : 0 <= i < zlen row -> exists (n : nat) v, i = Z.of_nat n /\ row !! n = Some v.
Proof.
  intros H. destruct (lookup_lt_is_Some_2 row (Z.to_nat i)) as (v & E); [unfold zlen in H; lia|]. exists (Z.to_nat i), v. split; [lia|done].
Qed.

Lemma in_columns n i : Forall (fun i => 0 <= i < n) (column_range n) /\ (i ∈ column_range n -> 0 <= i).
Proof. split; [apply Forall_forall; intros k Hk; by apply elem_of_column_range|]. intros Hk. apply elem_of_column_range in Hk. lia. Qed.

(** The WHERE of a record whose fields agree with [old] and hold its key: it
    names the key of [old], and [old] satisfies it. *)
Lemma where_of_old pk_flags old fs : zlen old = zlen pk_flags -> zlen fs = zlen old ->
  (forall (n : nat) v, old !! n = Some v -> field fs (Z.of_nat n) = Some v \/ (field fs (Z.of_nat n) = None /\ is_pk pk_flags (Z.of_nat n) = false)) ->
  exists ws, full_where pk_flags (column_range (zlen old)) fs = Ok ws /\ names_key pk_flags ws (row_key pk_flags old) /\ row_matches ws old = true.
Proof.
  intros L Lf H. eexists. split; [apply full_where_ok; rewrite Lf; apply (in_columns _ 0)|]. split.
  - apply names_key_of; [done|]. intros n v P E. apply elem_where. split; [apply lookup_lt_Some in E; unfold zlen; lia|].
    unfold where_field. rewrite P. destruct (H n v E) as [ -> |(_ & N)]; [done|congruence].
  - apply row_matches_spec. intros i v (Hi & E)%elem_where. destruct (column_nat old i Hi) as (n & v' & -> & En). rewrite get_nat, En.
    unfold where_field in E. destruct (H n v' En) as [F|(F & N)]; rewrite F in E.
    + destruct (is_pk _ _); simpl in E; congruence.
    + by rewrite N in E.
Qed.

Section step.
Context {D : Type} {S : Store D} {rows : D -> bytes -> rows_of} {flags : bytes -> bytes} {valid : D -> Prop}.
Context {KS : KeyedStore rows S flags valid}.
Context {K : Type} (on_conflict : K -> ConflictType -> ConflictAction * K) (t : bytes).

Notation n := (zlen (flags t)).
Notation key := (row_key (flags t)).

(** The change went through without a conflict: only the store moved. *)
Definition moved (st : ApplyState) (r : res (@ApplyState D K)) (m : rows_of) : Prop :=
  exists db', r = Ok (with_db st db') /\ valid db' /\ updated rows (a_db st) db' t m.

Lemma apply_insert_clean st row : valid (a_db st) -> zlen row = n -> rows (a_db st) t !! key row = None ->
  moved st (apply_one_change on_conflict t n (flags t) (mkRecord Insert [] (Some <$> row)) st) (<[key row := row]> (rows (a_db st) t)).
Proof using KS.
  intros V L E. unfold apply_one_change, apply_insert. simpl.
  assert (default Null <$> (Some <$> row) = row) as ->.
  { rewrite <- list_fmap_compose. rewrite <- (list_fmap_id row) at 2. by apply list_fmap_ext. }
  pose proof (ks_insert rows (a_db st) t row V L) as I. rewrite E in I. destruct I as (db' & -> & V' & U). by exists db'.
Qed.

Lemma apply_delete_clean st patchset old : valid (a_db st) -> rows (a_db st) t !! key old = Some old ->
  moved st (apply_one_change on_conflict t n (flags t) (mkRecord Delete (delete_record (flags t) patchset old) []) st)
    (delete (key old) (rows (a_db st) t)).
Proof using KS.
  intros V E. destruct (ks_rows rows _ _ _ _ V E) as (L & _). unfold apply_one_change, apply_delete. simpl.
  destruct (where_of_old (flags t) old (delete_record (flags t) patchset old)) as (ws & W & N & M); [done|apply zlen_columns| |].
  { intros k v Ek. unfold delete_record. rewrite (field_columns _ _ _ _ Ek). unfold delete_field.
    destruct patchset; simpl; [|by left]. destruct (is_pk (flags t) (Z.of_nat k)) eqn:P; [by left|by right]. }
  rewrite <- L, W. bind_step. pose proof (ks_delete rows (a_db st) t ws _ V N) as I. rewrite E, M in I. destruct I as (db' & -> & V' & U). bind_step.
  by exists db'.
Qed.

(** The fields of an update: what the terms and the assignments use. *)
Lemma update_fields patchset old row : zlen old = n -> zlen row = n -> key row = key old ->
  Forall canonical old -> Forall canonical row ->
  (forall (k : nat) v, old !! k = Some v -> field (update_old (flags t) patchset old row) (Z.of_nat k) = Some v \/
     (field (update_old (flags t) patchset old row) (Z.of_nat k) = None /\ is_pk (flags t) (Z.of_nat k) = false)) /\
  (forall (k : nat) v w, is_pk (flags t) (Z.of_nat k) = false -> old !! k = Some v -> row !! k = Some w ->
     field (update_new (flags t) patchset old row) (Z.of_nat k) = if bool_decide (v = w) then None else Some w) /\
  (forall (k : nat), is_pk (flags t) (Z.of_nat k) = true -> old !! k = row !! k).
Proof.
  intros L L' Ek C C'.
  assert (forall (k : nat), is_pk (flags t) (Z.of_nat k) = true -> old !! k = row !! k) as P.
  { intros k Pk. symmetry. apply (key_agree_inv (flags t) 0); [unfold zlen in *; lia|done..]. }
  assert (forall (k : nat) v w, old !! k = Some v -> row !! k = Some w -> value_eq v w = bool_decide (v = w)) as Q.
  { intros k v w Hv Hw. apply value_eq_canonical; [by apply (Forall_lookup_1 canonical old k)|by apply (Forall_lookup_1 canonical row k)]. }
  split_and!; [| |done].
  - intros k v Hv. destruct (column_nat row (Z.of_nat k)) as (k' & w & Hk & Hw); [apply lookup_lt_Some in Hv; unfold zlen in *; lia|].
    assert (k' = k) as -> by lia. unfold update_old. rewrite (field_columns _ _ _ _ (lookup_zip _ _ _ _ _ Hv Hw)). unfold old_field. simpl.
    rewrite (Q k v w) by done. destruct (is_pk (flags t) (Z.of_nat k)) eqn:Pk.
    + left. rewrite orb_true_r. destruct patchset; [|done]. rewrite (P k Pk) in Hv. congruence.
    + rewrite orb_false_r. destruct patchset; [by right|]. case_bool_decide; simpl; [by right|by left].
  - intros k v w Pk Hv Hw. unfold update_new. rewrite (field_columns _ _ _ _ (lookup_zip _ _ _ _ _ Hv Hw)). unfold new_field. simpl.
    rewrite (Q k v w) by done. rewrite Pk, andb_false_r, orb_false_r. by case_bool_decide.
Qed.

Lemma rows_differ_spec old row : zlen old = zlen row -> Forall canonical old -> Forall canonical row ->
  rows_differ old row = true -> exists (k : nat) v w, old !! k = Some v /\ row !! k = Some w /\ v <> w.
Proof.
  intros L C C'. unfold rows_differ. rewrite existsb_exists. intros ([v w] & Hi & Hd). apply list_elem_of_In, list_elem_of_lookup in Hi as (k & Hk).
  apply lookup_zip_with_Some in Hk as (v' & w' & [= <- <-] & Hv & Hw). exists k, v, w. split_and!; [done..|].
  rewrite value_eq_canonical in Hd; [|by apply (Forall_lookup_1 canonical old k)|by apply (Forall_lookup_1 canonical row k)]. intros ->. by rewrite bool_decide_eq_true_2 in Hd.
Qed.

Lemma rows_same old row : zlen old = zlen row -> Forall canonical old -> Forall canonical row -> rows_differ old row = false -> old = row.
Proof.
  intros L C C' E. apply row_ext; [done|]. intros k v w Hv Hw. destruct (decide (v = w)) as [ -> |N]; [done|]. exfalso.
  assert (rows_differ old row = true) as T; [|congruence]. unfold rows_differ. apply existsb_exists. exists (v, w). split.
  - apply list_elem_of_In. eapply list_elem_of_lookup_2. by apply lookup_zip.
  - rewrite value_eq_canonical; [|by apply (Forall_lookup_1 canonical old k)|by apply (Forall_lookup_1 canonical row k)]. by rewrite bool_decide_eq_false_2.
Qed.

Lemma apply_update_clean st patchset old row : valid (a_db st) -> rows (a_db st) t !! key old = Some old -> zlen row = n -> key row = key old ->
  Forall canonical old -> Forall canonical row -> rows_differ old row = true ->
  moved st (apply_one_change on_conflict t n (flags t)
      (mkRecord Update (update_old (flags t) patchset old row) (update_new (flags t) patchset old row)) st)
    (<[key old := row]> (rows (a_db st) t)).
Proof using KS.
  intros V E L' Ek C C' Df. destruct (ks_rows rows _ _ _ _ V E) as (L & _).
  destruct (update_fields patchset old row L L' Ek C C') as (Fo & Fn & Fp).
  assert (length (zip old row) = length old) as LZ by (rewrite length_zip_with; unfold zlen in *; lia).
  assert (zlen (update_old (flags t) patchset old row) = n /\ zlen (update_new (flags t) patchset old row) = n) as (Lo & Ln).
  { unfold update_old, update_new. rewrite !zlen_columns. unfold zlen in *. lia. }
  unfold apply_one_change, apply_update. simpl.
  rewrite set_list_ok by (rewrite Ln; apply (in_columns _ 0)). bind_step.
  set (sets := omap (sets_field (flags t) (update_new (flags t) patchset old row)) (column_range n)).
  assert (forall i w, sets_field (flags t) (update_new (flags t) patchset old row) i = Some w -> w.1 = i /\ is_pk (flags t) i = false) as Sf.
  { intros i w Hw. unfold sets_field in Hw. destruct (is_pk (flags t) i); [done|]. destruct (field _ i); simplify_eq/=. done. }
  assert (assign sets old = row) as A.
  { apply row_ext; [rewrite L'; rewrite <- L; apply (assign_key (flags t))|].
    - apply Forall_forall. intros w Hw. apply list_elem_of_omap in Hw as (i & Hi & Hw). destruct (Sf _ _ Hw) as (-> & ?). split; [done|]. by apply (in_columns n i).
    - intros k v w Hv Hw. assert (k < length old)%nat as Hk by (apply lookup_lt_Some in Hw; unfold zlen in *; lia).
      destruct (lookup_lt_is_Some_2 old k Hk) as (u & Hu).
      unfold sets in Hv. rewrite lookup_assign in Hv; [|by intros i w' H'; apply Sf|apply NoDup_column_range| |done].
      2:{ apply Forall_forall. intros i Hi. by apply (in_columns n i). }
      rewrite bool_decide_eq_true_2 in Hv by (apply elem_of_column_range; unfold zlen in *; lia).
      unfold sets_field in Hv. destruct (is_pk (flags t) (Z.of_nat k)) eqn:P; [rewrite (Fp k P) in Hv; congruence|].
      rewrite (Fn k u w P Hu Hw) in Hv. case_bool_decide; simpl in Hv; congruence. }
  assert (sets <> []) as Ne.
  { intros Z. rewrite Z in A. simpl in A. subst row. destruct (rows_differ_spec old old eq_refl C C' Df) as (k & v & w & Hv & Hw & N). congruence. }
  destruct sets as [|s0 sets0] eqn:Es; [done|]. rewrite <- Es in *.
  destruct (where_of_old (flags t) old (update_old (flags t) patchset old row)) as (ws & W & N & M); [done|congruence|exact Fo|].
  rewrite <- L, W. bind_step.
  pose proof (ks_update rows (a_db st) t sets ws _ V N) as I. rewrite E, M, A in I.
  destruct I as (db' & -> & V' & U).
  { apply Forall_forall. intros w Hw. apply list_elem_of_omap in Hw as (i & Hi & Hw). destruct (Sf _ _ Hw) as (-> & ?). split; [done|]. by apply (in_columns n i). }
  bind_step. by exists db'.
Qed.

End step.

End SessionStep.
