(* ===== verification/SessionNet.v ===== *)
(** What a session promises: its blob carries the difference between the
    database at its start and the database when the blob is written.

    [dml] is one row operation of the engine, [run] its effect on the tables
    and [record_dml] what the write-path hook records for it. [session_net_effect]
    says that after any sequence of row operations, the changeset (or the
    patchset) applied to any store holding the original rows turns them into
    the final ones. *)

From S2P Require Import Prelude Value Session SessionRead SessionProps SessionApply SessionStore SessionStep.
From stdpp Require Import gmap.
Import Value Session SessionRead SessionProps SessionApply SessionStore SessionStep.
Local Open Scope Z_scope.

Module SessionNet.

(** ** Layouts *)

Definition wf_meta (m : TableMeta) : Prop :=
  0 <= m_ncol m < 2 ^ 56 /\ match m_ipk m with Some p => 0 <= p | None => True end.

Definition layout_ok (m : TableMeta) (ly : Layout) : Prop :=
  0 < m_ncol m < 2 ^ 56 /\ zlen (l_flags ly) = m_ncol m /\
  l_positions ly = filter (fun i => is_pk (l_flags ly) i = true) (column_range (m_ncol m)).

Lemma zlen_mark_ordinals pk_decl ordinal fl : zlen (mark_ordinals pk_decl ordinal fl) = zlen fl.
Proof.
  revert ordinal fl. induction pk_decl as [|p pk_decl IH]; intros o fl; [done|]. simpl. rewrite IH. by case_match; [rewrite zlen_insert|].
Qed.

Lemma zlen_column_range n : 0 <= n -> zlen (column_range n) = n.
Proof. intros. unfold zlen, column_range. rewrite length_fmap, length_seq. lia. Qed.

Lemma lookup_column_range n (k : nat) : Z.of_nat k < n -> column_range n !! k = Some (Z.of_nat k).
Proof. intros. unfold column_range. rewrite list_lookup_fmap, lookup_seq_lt by lia. done. Qed.

Lemma session_pk_layout_ok m ly : wf_meta m -> session_pk_layout m = Some ly -> layout_ok m ly.
Proof.
  intros (N & P) E. unfold session_pk_layout in E. destruct (m_ipk m) as [p|].
  - destruct (Z.leb_spec (m_ncol m) p); [done|]. injection E as <-. unfold layout_ok. simpl. split; [lia|].
    assert (zlen ((fun i => bool_byte (i =? p)) <$> column_range (m_ncol m)) = m_ncol m) as L.
    { unfold zlen. rewrite length_fmap. apply zlen_column_range. lia. }
    split; [exact L|].
    assert (forall i, 0 <= i < m_ncol m -> is_pk ((fun i => bool_byte (i =? p)) <$> column_range (m_ncol m)) i = (i =? p)) as Q.
    { intros i Hi. unfold is_pk. rewrite <- (Z2Nat.id i) at 1 by lia. rewrite get_nat, list_lookup_fmap, lookup_column_range by lia.
      simpl. rewrite Z2Nat.id by lia. by destruct (i =? p). }
    assert (forall k : nat, Z.of_nat k <= m_ncol m ->
      filter (fun i => is_pk ((fun i => bool_byte (i =? p)) <$> column_range (m_ncol m)) i = true) (Z.of_nat <$> seq 0 k) =
      if Z.of_nat k <=? p then [] else [p]) as F.
    { induction k as [|k IH]; intros Hk; [simpl; by rewrite (proj2 (Z.leb_le _ _)) by lia|].
      rewrite seq_S, fmap_app, filter_app, IH by lia. simpl. rewrite filter_cons, filter_nil. rewrite Q by lia.
      destruct (Z.eqb_spec (Z.of_nat k) p), (Z.leb_spec (Z.of_nat k) p), (Z.leb_spec (Z.of_nat (S k)) p); try lia;
        simpl; congruence || done. }
    specialize (F (Z.to_nat (m_ncol m)) ltac:(lia)). rewrite (proj2 (Z.leb_gt _ _)) in F by lia. symmetry. exact F.
  - destruct (m_pk_decl m) as [[|p0 pk_decl]|]; [done| |done].
    set (fl := mark_ordinals _ _ _) in E.
    assert (zlen fl = m_ncol m) as L by (subst fl; rewrite zlen_mark_ordinals; apply zlen_zrep; lia).
    destruct (filter (fun i => is_pk fl i = true) (column_range (m_ncol m))) as [|q qs] eqn:F; [done|]. injection E as <-.
    unfold layout_ok. simpl. split_and!; try done; try lia.
    assert (q ∈ column_range (m_ncol m)) as Hq.
    { eapply (list_elem_of_filter (fun i => is_pk fl i = true)). rewrite F. left. }
    apply elem_of_column_range in Hq. lia.
Qed.

(** The hook reads the key columns of a row; a rowid alias holds an integer. *)
Definition alias_ok (ly : Layout) (row : list Value) : Prop :=
  forall p, l_ipk ly = Some p -> exists i, get row p = Some (Integer i).

Lemma key_columns_spec ly rowid row (k : nat) ps :
  alias_ok ly row -> (k <= length row)%nat -> ps = filter (fun i => is_pk (l_flags ly) i = true) (Z.of_nat <$> seq k (length row - k)) ->
  key_columns ps (l_ipk ly) rowid row = Ok (key_from (l_flags ly) (Z.of_nat k) (drop k row)).
Proof.
  intros A. revert k ps. assert (forall (m k : nat), (length row - k = m)%nat -> (k <= length row)%nat -> forall ps,
    ps = filter (fun i => is_pk (l_flags ly) i = true) (Z.of_nat <$> seq k m) ->
    key_columns ps (l_ipk ly) rowid row = Ok (key_from (l_flags ly) (Z.of_nat k) (drop k row))) as G; [|intros k ps Lk; by apply G].
  induction m as [|m IH]; intros k Hm Lk ps E.
  - subst ps. by rewrite drop_ge by lia.
  - destruct (lookup_lt_is_Some_2 row k) as (v & Hv); [lia|]. rewrite (drop_S row v k Hv).
    change (Z.of_nat <$> seq k (S m)) with (Z.of_nat k :: (Z.of_nat <$> seq (S k) m)) in E. rewrite filter_cons in E.
    specialize (IH (S k) ltac:(lia) ltac:(lia) _ eq_refl). revert IH E. generalize (filter (fun i => is_pk (l_flags ly) i = true) (Z.of_nat <$> seq (S k) m)).
    intros rest IH E. cbn [key_from]. replace (Z.of_nat k + 1) with (Z.of_nat (S k)) by lia.
    destruct (is_pk (l_flags ly) (Z.of_nat k)); [rewrite decide_True in E by done|rewrite decide_False in E by done; by subst].
    subst ps. cbn [key_columns]. rewrite (idx_lookup row k v Hv). bind_step. rewrite IH. bind_step.
    case_bool_decide as B; [|done]. destruct (A _ (eq_sym B)) as (i & Hi). rewrite get_nat in Hi. rewrite Hv in Hi. by injection Hi as ->.
Qed.

Lemma pk_values_spec m ly rowid row : layout_ok m ly -> zlen row = m_ncol m -> alias_ok ly row ->
  pk_values ly rowid row = Ok (Some (row_key (l_flags ly) row)).
Proof.
  intros (B & L & P) Lr A. unfold pk_values. rewrite L, Lr, Z.ltb_irrefl.
  rewrite (key_columns_spec ly rowid row 0 _ A); [by bind_step|lia|]. rewrite P. unfold column_range. do 2 f_equal.
  rewrite Nat.sub_0_r. f_equal. unfold zlen in Lr. lia.
Qed.

(** ** What one table's recorder tracks *)

(** The recorded change of a row against the original rows [base]. *)
Definition entry_ok (base : rows_of) (c : Change) : Prop :=
  match c_op c with
  | Insert => base !! c_pk c = None
  | Update | Delete => base !! c_pk c = Some (c_old c)
  end.

(** The rows that have no change are as they were. *)
Definition tracks (base cur : rows_of) (tbl : TableChanges) : Prop :=
  wf_hash tbl /\ Forall (entry_ok base) (entries tbl) /\ forall k, k ∉ c_pk <$> entries tbl -> cur !! k = base !! k.

(** The row [k] is about to be inserted, or holds [old]. *)
Definition op_ready (op : ChangeOp) (cur : rows_of) (k old : list Value) : Prop :=
  match op with Insert => cur !! k = None | Update | Delete => cur !! k = Some old end.

Lemma record_tracks base cur cur' tbl op k old indirect :
  tracks base cur tbl -> t_nentry tbl < 2 ^ 29 -> op_ready op cur k old -> (forall k', k' <> k -> cur' !! k' = cur !! k') ->
  exists tbl', record_change tbl op k old indirect = Ok tbl' /\ same_table tbl tbl' /\ t_nentry tbl' <= t_nentry tbl + 1 /\
    t_nentry tbl' <> 0 /\ tracks base cur' tbl' /\
    (forall P : Change -> Prop, (forall i c, P c -> P (retouch i c)) -> P (mkChange op k old indirect) ->
       Forall P (entries tbl) -> Forall P (entries tbl')).
Proof.
  intros (W & F & T) B R Hc. destruct (record_change_spec tbl op k old indirect W B) as (tbl' & E & W' & S & N & NZ & Rec).
  exists tbl'. split_and!; [done..|lia|done| |].
  - split; [done|]. destruct Rec as [(c & l & Hk & P & P')|(New & P')].
    + rewrite P in F. apply Forall_cons in F as (Fc & F). split.
      * rewrite P'. constructor; [|done]. exact Fc.
      * intros k'. rewrite P'. simpl. intros N'. rewrite Hc; [apply T; rewrite P; exact N'|].
        intros ->. apply N'. rewrite <- Hk. left.
    + split.
      * rewrite P'. constructor; [|done]. unfold entry_ok. simpl. unfold op_ready in R. specialize (T k New). destruct op; congruence.
      * intros k'. rewrite P'. simpl. intros N'%not_elem_of_cons. rewrite Hc by naive_solver. apply T. tauto.
  - intros P HP H0 HF. destruct Rec as [(c & l & Hk & Pm & P')|(New & P')].
    + rewrite Pm in HF. rewrite P'. apply Forall_cons in HF as (? & ?). constructor; auto.
    + rewrite P'. by constructor.
Qed.

(** ** Row operations *)

Section net.
Context (schema : bytes -> option TableMeta).

Definition table_layout (t : bytes) : option Layout := schema t ≫= session_pk_layout.
Definition table_flags (t : bytes) : bytes := match table_layout t with Some ly => l_flags ly | None => [] end.

Inductive dml : Type :=
  | DInsert (t : bytes) (rowid : Z) (row : list Value) (indirect : bool)
  | DDelete (t : bytes) (rowid : Z) (row : list Value) (indirect : bool)
  | DUpdate (t : bytes) (rowid : Z) (old new : list Value) (indirect : bool).

Definition dml_apply (db : keyed_db) (op : dml) : option keyed_db :=
  match op with
  | DInsert t _ row _ =>
      let key := row_key (table_flags t) in
      match db_rows db t !! key row with
      | None => Some (<[t := <[key row := row]> (db_rows db t)]> db)
      | Some _ => None
      end
  | DDelete t _ row _ =>
      let key := row_key (table_flags t) in
      if decide (db_rows db t !! key row = Some row) then Some (<[t := delete (key row) (db_rows db t)]> db) else None
  | DUpdate t _ old new _ =>
      let key := row_key (table_flags t) in
      if decide (db_rows db t !! key old = Some old /\ delete (key old) (db_rows db t) !! key new = None) then
        Some (<[t := <[key new := new]> (delete (key old) (db_rows db t))]> db)
      else None
  end.

Definition record_dml (s : SessionState) (op : dml) : res SessionState :=
  match op with
  | DInsert t rowid row indirect => record_session_change s t (table_layout t) Insert rowid None (Some row) indirect
  | DDelete t rowid row indirect => record_session_change s t (table_layout t) Delete rowid (Some row) None indirect
  | DUpdate t rowid old new indirect => record_session_change s t (table_layout t) Update rowid (Some old) (Some new) indirect
  end.

Fixpoint run (db : keyed_db) (ops : list dml) : option keyed_db :=
  match ops with
  | [] => Some db
  | op :: ops => match dml_apply db op with Some db => run db ops | None => None end
  end.

Fixpoint record_all (s : SessionState) (ops : list dml) : res SessionState :=
  match ops with
  | [] => Ok s
  | op :: ops =>
      let* s := record_dml s op in
      record_all s ops
  end.

(** A row of a recorded table: its width, values the format carries, a key
    without NULLs. *)
Definition good_row (t : bytes) (row : list Value) : Prop :=
  exists m ly, schema t = Some m /\ session_pk_layout m = Some ly /\ zlen row = m_ncol m /\ Forall storable row /\ Forall canonical row /\
    alias_ok ly row /\ existsb is_null (row_key (l_flags ly) row) = false.

Definition good_dml (op : dml) : Prop :=
  match op with
  | DInsert t _ row _ | DDelete t _ row _ => good_row t row
  | DUpdate t _ old new _ => good_row t old /\ good_row t new
  end.

Definition good_db (db : keyed_db) : Prop :=
  forall t k row, db_rows db t !! k = Some row -> good_row t row /\ row_key (table_flags t) row = k.

Definition wf_schema : Prop := forall t m, schema t = Some m -> wf_meta m /\ is_bytes t /\ utf8_valid t = true /\ 0 ∉ t.

(** ** The invariant of recording *)

Record table_ok (base cur : rows_of) (bound : Z) (tbl : TableChanges) : Prop := {
  to_layout : exists m ly, schema (t_name tbl) = Some m /\ session_pk_layout m = Some ly /\ t_ncol tbl = m_ncol m /\ t_pk_flags tbl = l_flags ly;
  to_count : t_nentry tbl <> 0 /\ t_nentry tbl <= bound;
  to_rows : Forall (fun c => wf_row (t_ncol tbl) (c_old c)) (entries tbl);
  to_tracks : tracks base cur tbl }.

Record recording (base db : keyed_db) (bound : Z) (s : SessionState) : Prop := {
  rc_on : enabled s = true /\ attach_all s = true;
  rc_names : NoDup (t_name <$> tables s);
  rc_tables : Forall (fun tbl => table_ok (db_rows base (t_name tbl)) (db_rows db (t_name tbl)) bound tbl) (tables s);
  rc_rest : forall t, t ∉ t_name <$> tables s -> db_rows db t = db_rows base t }.

(** What the records of a table need: where the invariant of the recorder also
    speaks of its hash table, this is about the entries alone. *)
Record table_carries (base cur : rows_of) (tbl : TableChanges) : Prop := {
  cr_layout : exists m ly, schema (t_name tbl) = Some m /\ session_pk_layout m = Some ly /\ t_ncol tbl = m_ncol m /\ t_pk_flags tbl = l_flags ly;
  cr_count : t_nentry tbl = zlen (entries tbl);
  cr_rows : Forall (fun c => wf_row (t_ncol tbl) (c_old c)) (entries tbl);
  cr_keys : NoDup (c_pk <$> entries tbl);
  cr_entries : Forall (entry_ok base) (entries tbl);
  cr_rest : forall k, k ∉ c_pk <$> entries tbl -> cur !! k = base !! k }.

Record carries (base db : keyed_db) (s : SessionState) : Prop := {
  ca_names : NoDup (t_name <$> tables s);
  ca_tables : Forall (fun tbl => table_carries (db_rows base (t_name tbl)) (db_rows db (t_name tbl)) tbl) (tables s);
  ca_rest : forall t, t ∉ t_name <$> tables s -> db_rows db t = db_rows base t }.

Lemma recording_carries base db bound s : recording base db bound s -> carries base db s.
Proof.
  intros [_ N F R]. constructor; [done| |done]. eapply Forall_impl; [exact F|]. intros tbl [L _ Rw (W & Fe & T)]. constructor; try done; apply W.
Qed.

Lemma record_table base cur cur' bound m ly tbl op k old indirect :
  wf_meta m -> schema (t_name tbl) = Some m -> session_pk_layout m = Some ly -> t_ncol tbl = m_ncol m -> t_pk_flags tbl = l_flags ly ->
  t_nentry tbl <= bound -> Forall (fun c => wf_row (t_ncol tbl) (c_old c)) (entries tbl) -> tracks base cur tbl ->
  bound < 2 ^ 29 -> op_ready op cur k old -> wf_row (m_ncol m) old -> (forall k', k' <> k -> cur' !! k' = cur !! k') ->
  exists tbl', record_change tbl op k old indirect = Ok tbl' /\ t_name tbl' = t_name tbl /\ table_ok base cur' (bound + 1) tbl'.
Proof.
  intros Wm Hs Hl Hn Hf Hc Hr T B R W Hcur.
  destruct (record_tracks base cur cur' tbl op k old indirect T ltac:(lia) R Hcur) as (tbl' & E & (S1 & S2 & S3) & N & NZ & T' & HF).
  exists tbl'. split; [done|]. split; [done|]. constructor.
  - exists m, ly. rewrite S1, S2, S3. done.
  - split; [done|lia].
  - rewrite S2. apply HF; [done| |done]. simpl. by rewrite Hn.
  - done.
Qed.

(** One call of [record] on the row [k] of [t]: the rows of [t] other than [k]
    do not change. *)
Lemma record_step base db db' bound s t m ly op k old indirect :
  recording base db bound s -> bound < 2 ^ 29 -> 0 <= bound -> wf_schema -> schema t = Some m -> session_pk_layout m = Some ly ->
  op_ready op (db_rows db t) k old -> wf_row (m_ncol m) old -> existsb is_null k = false ->
  (forall k', k' <> k -> db_rows db' t !! k' = db_rows db t !! k') -> (forall t', t' <> t -> db_rows db' t' = db_rows db t') ->
  exists s', record s t (zlen (l_flags ly)) (l_flags ly) op k old indirect = Ok s' /\ recording base db' (bound + 1) s'.
Proof.
  intros [(En & At) Nm Tb Rs] B B0 WS Hs Hl R W Nk Hk Ht. destruct (WS t m Hs) as (Wm & _).
  destruct (session_pk_layout_ok m ly Wm Hl) as (_ & Lf & _).
  unfold record. rewrite En, At, Nk. simpl. set (ind := indirect || indirect_mode s).
  assert (forall ts, NoDup (t_name <$> ts) ->
    Forall (fun tbl => table_ok (db_rows base (t_name tbl)) (db_rows db (t_name tbl)) bound tbl) ts ->
    (t ∉ t_name <$> ts -> db_rows db t = db_rows base t) ->
    exists ts', record_in ts t (zlen (l_flags ly)) (l_flags ly) op k old ind = Ok ts' /\ (t ∈ t_name <$> ts') /\
      (forall t', t' ∈ t_name <$> ts' <-> t' = t \/ t' ∈ t_name <$> ts) /\ NoDup (t_name <$> ts') /\
      Forall (fun tbl => table_ok (db_rows base (t_name tbl)) (db_rows db' (t_name tbl)) (bound + 1) tbl) ts') as G.
  { assert (forall ts, t ∉ t_name <$> ts -> Forall (fun tbl => table_ok (db_rows base (t_name tbl)) (db_rows db (t_name tbl)) bound tbl) ts ->
      Forall (fun tbl => table_ok (db_rows base (t_name tbl)) (db_rows db' (t_name tbl)) (bound + 1) tbl) ts) as Off.
    { intros ts N F. apply Forall_forall. intros tbl Hin. rewrite Forall_forall in F. destruct (F tbl Hin) as [A1 (A2 & A3) A4 A5].
      rewrite Ht; [constructor; try done; split; [done|lia]|]. intros <-. apply N. by apply list_elem_of_fmap_2. }
    induction ts as [|tbl ts IH]; intros N F Hn; simpl.
    - destruct (record_table (db_rows base t) (db_rows db t) (db_rows db' t) bound m ly (new_table t (zlen (l_flags ly)) (l_flags ly)) op k old ind)
        as (tbl' & -> & Nt & Ok'); try done.
      + split; [apply wf_new_table|]. split; [constructor|]. intros k' _. by rewrite Hn by (simpl; apply not_elem_of_nil).
      + bind_step. exists [tbl']. simpl in *. rewrite Nt. split; [done|]. split; [left|]. split.
        { intros t'. rewrite list_elem_of_singleton. split; [by left|]. intros [ -> |H]; [done|by apply elem_of_nil in H]. }
        split; [apply NoDup_singleton|]. constructor; [|constructor]. by rewrite Nt.
    - apply NoDup_cons in N as (N1 & N). apply Forall_cons in F as ([(m' & ly' & A1 & A1' & A2 & A3) (A4 & A5) A6 A7] & F).
      case_bool_decide as Et.
      + subst t. rewrite Hs in A1. injection A1 as <-. rewrite Hl in A1'. injection A1' as <-.
        destruct (record_table _ (db_rows db (t_name tbl)) (db_rows db' (t_name tbl)) bound m ly tbl op k old ind Wm Hs Hl A2 A3 A5 A6 A7 B R W Hk)
          as (tbl' & -> & Nt & Ok'). bind_step. exists (tbl' :: ts). simpl. rewrite Nt. split; [done|]. split; [left|].
        split; [intros t'; rewrite elem_of_cons; tauto|]. split; [by constructor|]. constructor; [by rewrite Nt|]. by apply Off.
      + destruct (IH N F) as (ts' & -> & I1 & I2 & I3 & I4).
        { intros Nt. apply Hn. simpl. rewrite not_elem_of_cons. split; [congruence|done]. }
        bind_step. exists (tbl :: ts'). simpl. split; [done|]. split; [by right|].
        split; [intros t'; rewrite !elem_of_cons, I2; tauto|]. split.
        * constructor; [|done]. rewrite I2. intros [H|H]; [congruence|done].
        * constructor; [|done]. rewrite Ht by congruence. constructor; [by exists m', ly'|split; [done|lia]|done|done]. }
  destruct (G (tables s) Nm Tb (Rs t)) as (ts' & -> & I1 & I2 & I3 & I4). bind_step. eexists. split; [done|].
  constructor; simpl; [by rewrite En|done|done|].
  intros t' N'. rewrite I2 in N'. rewrite Ht by tauto. apply Rs. tauto.
Qed.

Lemma wf_null_row n : 0 <= n -> wf_row n (zrep n Null).
Proof. intros. split; [by apply zlen_zrep|]. apply Forall_forall. intros v Hv. apply elem_of_replicate in Hv as (-> & _). by split. Qed.

Lemma recording_mono base db b b' s : recording base db b s -> b <= b' -> recording base db b' s.
Proof.
  intros [A B C E] L. constructor; try done. eapply Forall_impl; [exact C|]. intros tbl [C1 (C2 & C3) C4 C5]. constructor; try done. split; [done|lia].
Qed.

Lemma table_flags_eq t m ly : schema t = Some m -> session_pk_layout m = Some ly -> table_layout t = Some ly /\ table_flags t = l_flags ly.
Proof. intros Hs Hl. unfold table_flags, table_layout. rewrite Hs. simpl. by rewrite Hl. Qed.

Lemma good_db_update db t m' : good_db db -> (forall k row, m' !! k = Some row -> good_row t row /\ row_key (table_flags t) row = k) ->
  good_db (<[t := m']> db).
Proof.
  intros G H t' k row. destruct (db_rows_insert db t m') as (E & E'). destruct (decide (t' = t)) as [ -> |N]; [rewrite E; apply H|rewrite E' by done; apply G].
Qed.

Lemma dml_good db db' op : good_db db -> good_dml op -> dml_apply db op = Some db' -> good_db db'.
Proof.
  intros G Gd E. destruct op as [t rowid row ind|t rowid row ind|t rowid old new ind]; simpl in *.
  - destruct (db_rows db t !! _); [done|]. injection E as <-. apply good_db_update; [done|].
    intros k r [(<- & <-)|(_ & H)]%lookup_insert_Some; [done|by apply G].
  - destruct (decide _); [|done]. injection E as <-. apply good_db_update; [done|]. intros k r (_ & H)%lookup_delete_Some. by apply G.
  - destruct (decide _); [|done]. injection E as <-. apply good_db_update; [done|].
    intros k r [(<- & <-)|(_ & H)]%lookup_insert_Some; [by split; [apply Gd|]|]. apply lookup_delete_Some in H as (_ & H). by apply G.
Qed.

Lemma record_put base db bound s t m ly op k old indirect m' :
  recording base db bound s -> bound < 2 ^ 29 -> 0 <= bound -> wf_schema -> schema t = Some m -> session_pk_layout m = Some ly ->
  op_ready op (db_rows db t) k old -> wf_row (m_ncol m) old -> existsb is_null k = false ->
  (forall k', k' <> k -> m' !! k' = db_rows db t !! k') ->
  exists s', record s t (zlen (l_flags ly)) (l_flags ly) op k old indirect = Ok s' /\ recording base (<[t := m']> db) (bound + 1) s'.
Proof.
  intros R B B0 WS Hs Hl Rd W Nk Hk. destruct (db_rows_insert db t m') as (U & U').
  eapply record_step; try done. intros k' N. rewrite U. by apply Hk.
Qed.

(** What the hook reads of a good row: its key, and its columns. *)
Lemma good_row_hook t row rowid : wf_schema -> good_row t row ->
  exists m ly, schema t = Some m /\ session_pk_layout m = Some ly /\ table_layout t = Some ly /\ table_flags t = l_flags ly /\
    0 < m_ncol m /\ zlen (l_flags ly) = m_ncol m /\ zlen row = m_ncol m /\ wf_row (m_ncol m) row /\
    pk_values ly rowid row = Ok (Some (row_key (l_flags ly) row)) /\ slice row 0 (zlen (l_flags ly)) = Ok row /\
    existsb is_null (row_key (l_flags ly) row) = false.
Proof.
  intros WS (m & ly & Hs & Hl & Lr & Fs & Fc & Al & Nn). destruct (WS t m Hs) as (Wm & _). destruct (table_flags_eq t m ly Hs Hl) as (Et & Ef).
  pose proof (session_pk_layout_ok m ly Wm Hl) as Lo. pose proof (pk_values_spec m ly rowid row Lo Lr Al) as Pk. destruct Lo as (B & Lf & _).
  exists m, ly. split_and!; try done; [lia|]. rewrite Lf, <- Lr. rewrite slice_Ok by (pose proof (zlen_nonneg row); lia). by rewrite sub_full, drop_0.
Qed.

Lemma record_dml_ok base db db' bound s op :
  recording base db bound s -> bound + 1 < 2 ^ 29 -> 0 <= bound -> wf_schema -> good_dml op -> dml_apply db op = Some db' ->
  exists s', record_dml s op = Ok s' /\ recording base db' (bound + 2) s'.
Proof.
  intros R B B0 WS G E. destruct op as [t rowid row ind|t rowid row ind|t rowid old new ind]; simpl in *.
  - destruct (good_row_hook t row rowid WS G) as (m & ly & Hs & Hl & -> & Ef & P0 & Lf & Lr & W & Pk & _ & Nn). rewrite Ef in E.
    destruct (db_rows db t !! _) eqn:Ek; [done|]. injection E as <-.
    unfold record_session_change. rewrite Pk. bind_step. cbn iota beta.
    destruct (record_put base db bound s t m ly Insert (row_key (l_flags ly) row) (zrep (zlen (l_flags ly)) Null) ind
      (<[row_key (l_flags ly) row := row]> (db_rows db t))) as (s' & -> & R'); try done; try lia.
    { rewrite Lf. apply wf_null_row. lia. }
    { intros k' N. by rewrite lookup_insert_ne. }
    exists s'. split; [done|]. eapply recording_mono; [exact R'|lia].
  - destruct (good_row_hook t row rowid WS G) as (m & ly & Hs & Hl & -> & Ef & P0 & Lf & Lr & W & Pk & Sl & Nn). rewrite Ef in E.
    destruct (decide _) as [Ek|]; [|done]. injection E as <-.
    unfold record_session_change. rewrite (proj2 (Z.ltb_ge (zlen row) _)) by lia. rewrite Pk. bind_step. rewrite Sl. bind_step.
    destruct (record_put base db bound s t m ly Delete (row_key (l_flags ly) row) row ind
      (delete (row_key (l_flags ly) row) (db_rows db t))) as (s' & -> & R'); try done; try lia.
    { intros k' N. by rewrite lookup_delete_ne. }
    exists s'. split; [done|]. eapply recording_mono; [exact R'|lia].
  - destruct G as (Go & Gn). destruct (good_row_hook t old rowid WS Go) as (m & ly & Hs & Hl & Et & Ef & P0 & Lf & Lr & W & Pk & Sl & Nn).
    destruct (good_row_hook t new rowid WS Gn) as (m2 & ly2 & Hs2 & Hl2 & _ & _ & _ & _ & Lr2 & W2 & Pk2 & _ & Nn2).
    rewrite Hs in Hs2. injection Hs2 as <-. rewrite Hl in Hl2. injection Hl2 as <-. rewrite Et. rewrite Ef in E.
    destruct (decide _) as [(Ek & Ek2)|]; [|done]. injection E as <-.
    unfold record_session_change. rewrite (proj2 (Z.ltb_ge (zlen old) _)), (proj2 (Z.ltb_ge (zlen new) _)) by lia. simpl orb. cbv iota.
    rewrite Pk. bind_step. rewrite Pk2. bind_step. rewrite Sl. bind_step.
    destruct (record_put base db bound s t m ly Update (row_key (l_flags ly) old) old ind
      (delete (row_key (l_flags ly) old) (db_rows db t))) as (s1 & -> & R1); try done; try lia.
    { intros k' N. by rewrite lookup_delete_ne. }
    bind_step. destruct (db_rows_insert db t (delete (row_key (l_flags ly) old) (db_rows db t))) as (U1 & _).
    destruct (record_put base _ (bound + 1) s1 t m ly Insert (row_key (l_flags ly) new) (zrep (zlen (l_flags ly)) Null) ind
      (<[row_key (l_flags ly) new := new]> (delete (row_key (l_flags ly) old) (db_rows db t))) R1) as (s2 & -> & R2); try done; try lia.
    { simpl. by rewrite U1. }
    { rewrite Lf. apply wf_null_row. lia. }
    { intros k' N. rewrite U1. by rewrite lookup_insert_ne. }
    exists s2. split; [done|]. rewrite insert_insert_eq in R2. by replace (bound + 2) with (bound + 1 + 1) by lia.
Qed.

Lemma record_all_ok base ops : forall db db' bound s,
  recording base db bound s -> bound + 2 * zlen ops < 2 ^ 29 -> 0 <= bound -> wf_schema -> good_db db -> Forall good_dml ops -> run db ops = Some db' ->
  exists s', record_all s ops = Ok s' /\ recording base db' (bound + 2 * zlen ops) s' /\ good_db db'.
Proof.
  induction ops as [|op ops IH]; intros db db' bound s R B B0 WS Gd G E; simpl in E |- *.
  - injection E as <-. exists s. split; [done|]. split; [|done]. eapply recording_mono; [exact R|]. change (zlen (@nil dml)) with 0. lia.
  - apply Forall_cons in G as (G1 & G). destruct (dml_apply db op) as [db1|] eqn:E1; [|done]. rewrite zlen_cons in B. pose proof (zlen_nonneg ops).
    destruct (record_dml_ok base db db1 bound s op R) as (s1 & -> & R1); try done; try lia. bind_step.
    destruct (IH db1 db' (bound + 2) s1 R1) as (s' & E' & R' & Gd'); try done; try lia; [by eapply dml_good|].
    exists s'. split; [done|]. split; [|done]. rewrite zlen_cons. by replace (bound + 2 * (zlen ops + 1)) with (bound + 2 + 2 * zlen ops) by lia.
Qed.

(** ** Applying the records *)

Section apply.
Context {D : Type} {S : Store D} {rows : D -> bytes -> rows_of} {valid : D -> Prop}.
Context {KS : KeyedStore rows S table_flags valid}.
Context {K : Type} (on_conflict : K -> ConflictType -> ConflictAction * K).
Context (base db : keyed_db) (Gbase : good_db base) (Gdb : good_db db) (patchset : bool).

Definition live (t : bytes) (k : list Value) : option (list Value) := db_rows db t !! k.

Lemma good_canonical t row : good_row t row -> Forall canonical row.
Proof using Type. intros (m & ly & _ & _ & _ & _ & C & _). exact C. Qed.

Lemma good_width t row : wf_schema -> good_row t row -> zlen row = zlen (table_flags t).
Proof using Type.
  intros WS G. destruct (good_row_hook t row 0 WS G) as (m & ly & _ & _ & _ & -> & _ & -> & -> & _). done.
Qed.

(** The store's row [k] of [t] is the live one, and nothing else moved. *)
Definition applied (t : bytes) (ks : list (list Value)) (st : @ApplyState D K) (r : res (@ApplyState D K)) : Prop :=
  exists db', r = Ok (with_db st db') /\ valid db' /\ (forall k, k ∈ ks -> rows db' t !! k = live t k) /\
    (forall k, k ∉ ks -> rows db' t !! k = rows (a_db st) t !! k) /\ (forall t', t' <> t -> rows db' t' = rows (a_db st) t').

Lemma applied_nothing t k st : valid (a_db st) -> rows (a_db st) t !! k = live t k -> applied t [k] st (Ok st).
Proof using Type.
  intros V E. exists (a_db st). split; [by destruct st|]. split_and!; try done. by intros k' ->%list_elem_of_singleton.
Qed.

Lemma applied_moved t k st r m : moved (rows := rows) (valid := valid) t st r m -> m !! k = live t k ->
  (forall k', k' <> k -> m !! k' = rows (a_db st) t !! k') -> applied t [k] st (let* st := r in Ok st).
Proof using Type.
  intros (db' & -> & V & U & U') E N. exists db'. bind_step. split_and!; try done.
  - intros k' ->%list_elem_of_singleton. by rewrite U.
  - intros k' Nk. rewrite U. apply N. intros ->. apply Nk. left.
Qed.

(** One entry. *)
Lemma apply_entry tbl c (st : @ApplyState D K) :
  wf_schema -> t_ncol tbl = zlen (table_flags (t_name tbl)) -> t_pk_flags tbl = table_flags (t_name tbl) ->
  entry_ok (db_rows base (t_name tbl)) c -> valid (a_db st) -> rows (a_db st) (t_name tbl) !! c_pk c = db_rows base (t_name tbl) !! c_pk c ->
  applied (t_name tbl) [c_pk c] st
    (apply_changes on_conflict (t_name tbl) (t_ncol tbl) (t_pk_flags tbl) (option_list (change_record live tbl patchset c)) st).
Proof using KS Gbase Gdb.
  intros WS Hn Hf Hc V E. unfold change_record. rewrite Hn, Hf. set (t := t_name tbl) in *.
  assert (forall old, db_rows base t !! c_pk c = Some old ->
    rows (a_db st) t !! row_key (table_flags t) old = Some old /\ row_key (table_flags t) old = c_pk c /\
    zlen old = zlen (table_flags t) /\ Forall canonical old) as Ho.
  { intros old Ho. destruct (Gbase _ _ _ Ho) as (G & Ek). split_and!; [rewrite Ek; congruence|done|by apply good_width|by eapply good_canonical]. }
  assert (forall row, live t (c_pk c) = Some row -> row_key (table_flags t) row = c_pk c /\ zlen row = zlen (table_flags t) /\ Forall canonical row) as Hr.
  { intros row Hr. destruct (Gdb _ _ _ Hr) as (G & Ek). split_and!; [done|by apply good_width|by eapply good_canonical]. }
  unfold entry_ok in Hc. destruct (c_op c).
  1: { destruct (live t (c_pk c)) as [row|] eqn:L; [|apply applied_nothing; congruence].
    destruct (Hr row eq_refl) as (Ek & W & _). rewrite <- Ek in *. eapply applied_moved; [apply apply_insert_clean; [done..|congruence]| |].
    + rewrite lookup_insert_eq. done.
    + intros k' N. by rewrite lookup_insert_ne. }
  all: destruct (Ho _ Hc) as (Es & Ek & W & C); destruct (live t (c_pk c)) as [row|] eqn:L.
  2, 4: eapply applied_moved; [by apply apply_delete_clean| |]; rewrite Ek; [by rewrite lookup_delete_eq|];
    intros k' N; by rewrite lookup_delete_ne.
  all: destruct (Hr row eq_refl) as (Ek' & W' & C'); destruct (rows_differ (c_old c) row) eqn:Df.
  2, 4: apply applied_nothing; [done|]; rewrite E, L, Hc; f_equal; apply rows_same; [congruence|done..].
  all: eapply applied_moved; [apply apply_update_clean; try done; congruence| |]; rewrite Ek; [by rewrite lookup_insert_eq|];
    intros k' N; by rewrite lookup_insert_ne.
Qed.

Lemma apply_changes_app t n fl cs cs' (st : @ApplyState D K) :
  apply_changes on_conflict t n fl (cs ++ cs') st = (let* st := apply_changes on_conflict t n fl cs st in apply_changes on_conflict t n fl cs' st).
Proof using Type.
  revert st. induction cs as [|c cs IH]; intros st; [done|]. simpl. destruct (apply_one_change _ _ _ _ _ _); simpl; [apply IH|done..].
Qed.

(** The entries of one table, whose keys are distinct. *)
Lemma apply_entries tbl cs : forall st : @ApplyState D K,
  wf_schema -> t_ncol tbl = zlen (table_flags (t_name tbl)) -> t_pk_flags tbl = table_flags (t_name tbl) ->
  Forall (entry_ok (db_rows base (t_name tbl))) cs -> NoDup (c_pk <$> cs) -> valid (a_db st) ->
  (forall k, k ∈ c_pk <$> cs -> rows (a_db st) (t_name tbl) !! k = db_rows base (t_name tbl) !! k) ->
  applied (t_name tbl) (c_pk <$> cs) st
    (apply_changes on_conflict (t_name tbl) (t_ncol tbl) (t_pk_flags tbl) (omap (change_record live tbl patchset) cs) st).
Proof using KS Gbase Gdb.
  induction cs as [|c cs IH]; intros st WS Hn Hf F N V E.
  - exists (a_db st). split; [by destruct st|]. split_and!; try done. by intros k ?%elem_of_nil.
  - apply Forall_cons in F as (Fc & F). simpl in N. apply NoDup_cons in N as (Nc & N).
    assert (omap (change_record live tbl patchset) (c :: cs) =
      option_list (change_record live tbl patchset c) ++ omap (change_record live tbl patchset) cs) as ->.
    { simpl. by destruct (change_record live tbl patchset c). }
    rewrite apply_changes_app.
    destruct (apply_entry tbl c st WS Hn Hf Fc V) as (db1 & -> & V1 & L1 & O1 & T1); [apply E; left|]. bind_step.
    destruct (IH (with_db st db1) WS Hn Hf F N V1) as (db2 & -> & V2 & L2 & O2 & T2).
    { intros k Hk. simpl. rewrite O1; [apply E; by right|]. intros ->%list_elem_of_singleton. done. }
    exists db2. split; [done|]. split; [done|]. split_and!.
    + intros k [ -> |Hk]%elem_of_cons; [|by apply L2]. rewrite O2 by done. simpl. apply L1. left.
    + intros k Hk. simpl in Hk. apply not_elem_of_cons in Hk as (Hk1 & Hk2). rewrite O2 by done. simpl. apply O1. by rewrite list_elem_of_singleton.
    + intros t' Ht. rewrite T2 by done. simpl. by apply T1.
Qed.

(** The tables one after the other. *)
Lemma apply_tables tbls : forall st : @ApplyState D K,
  wf_schema -> NoDup (t_name <$> tbls) -> Forall (fun tbl => table_carries (db_rows base (t_name tbl)) (db_rows db (t_name tbl)) tbl) tbls ->
  valid (a_db st) -> (forall tbl, tbl ∈ tbls -> rows (a_db st) (t_name tbl) = db_rows base (t_name tbl)) ->
  exists db', changeset_apply_inner on_conflict schema (concat (table_records live patchset <$> tbls)) st = Ok (with_db st db') /\
    valid db' /\ (forall t, t ∈ t_name <$> tbls -> rows db' t = db_rows db t) /\ (forall t, t ∉ t_name <$> tbls -> rows db' t = rows (a_db st) t).
Proof using KS Gbase Gdb.
  induction tbls as [|tbl tbls IH]; intros st WS N F V E.
  - exists (a_db st). split; [by destruct st|]. split_and!; try done. by intros t ?%elem_of_nil.
  - apply Forall_cons in F as ([(m & ly & Hs & Hl & Hn & Hf) Hc _ Nk Fe Tr] & F). simpl in N. apply NoDup_cons in N as (Nt & N).
    destruct (table_flags_eq _ m ly Hs Hl) as (_ & Ef). destruct (WS _ _ Hs) as (Wm & _).
    destruct (session_pk_layout_ok m ly Wm Hl) as (_ & Lf & _).
    assert (exists db1, (forall rest, changeset_apply_inner on_conflict schema (table_records live patchset tbl ++ rest) st =
        changeset_apply_inner on_conflict schema rest (with_db st db1)) /\ valid db1 /\ rows db1 (t_name tbl) = db_rows db (t_name tbl) /\
        (forall t', t' <> t_name tbl -> rows db1 t' = rows (a_db st) t')) as (db1 & E1 & V1 & L1 & T1).
    { destruct (apply_entries tbl (entries tbl) st WS) as (db1 & E1 & V1 & L1 & O1 & T1); try done; try congruence.
      { intros k _. rewrite E; [done|left]. }
      exists db1. split; [|split; [done|]].
      - intros rest. unfold table_records, table_is_empty. fold (entries tbl). destruct (Z.eqb_spec (t_nentry tbl) 0) as [Z0|Z0].
        { rewrite Z0 in Hc. assert (entries tbl = []) as En by (destruct (entries tbl); [done|]; rewrite zlen_cons in Hc; pose proof (zlen_nonneg l); lia).
          rewrite En in E1. simpl in E1. injection E1 as E1. simpl. by rewrite <- E1. }
        destruct (omap (change_record live tbl patchset) (entries tbl)) as [|r rs] eqn:Er.
        + simpl in E1. injection E1 as E1. simpl. by rewrite <- E1.
        + simpl. rewrite Hs, Hl. rewrite Hn, Z.eqb_refl, bool_decide_eq_true_2 by done. cbn [negb orb]. rewrite <- Hn.
          cbn [apply_changes] in E1. rewrite E1. by bind_step.
      - split; [|done]. apply map_eq. intros k. destruct (decide (k ∈ c_pk <$> entries tbl)) as [Hk|Hk]; [by apply L1|].
        rewrite O1 by done. rewrite E by left. symmetry. by apply Tr. }
    destruct (IH (with_db st db1) WS N F V1) as (db2 & E2 & V2 & L2 & T2).
    { intros tbl' Ht. simpl. rewrite T1; [apply E; by right|]. intros Et. apply Nt. rewrite <- Et. by apply list_elem_of_fmap_2. }
    exists db2. change (concat (table_records live patchset <$> tbl :: tbls)) with
      (table_records live patchset tbl ++ concat (table_records live patchset <$> tbls)). rewrite E1, E2. split; [done|]. split; [done|]. split.
    + intros t [ -> |Ht]%elem_of_cons; [|by apply L2]. rewrite T2 by done. exact L1.
    + intros t (Ht1 & Ht2)%not_elem_of_cons. rewrite T2 by done. simpl. by apply T1.
Qed.

Lemma carried_wf s : wf_schema -> carries base db s -> Forall (wf_changes live) (tables s).
Proof using Gdb.
  intros WS [_ Tb _]. eapply Forall_impl; [exact Tb|]. intros tbl [(m & ly & Hs & Hl & Hn & Hf) _ Hr _ _ _].
  destruct (WS _ _ Hs) as (Wm & Nb & U & N0). destruct (session_pk_layout_ok m ly Wm Hl) as (B & Lf & _).
  split_and!; try done; try (rewrite Hn; lia); [rewrite Hf; congruence|].
  eapply Forall_impl; [exact Hr|]. intros c W. split; [done|]. intros row Hrow.
  destruct (Gdb _ _ _ Hrow) as ((m' & ly' & Hs' & _ & Lr & St & _) & _). rewrite Hs in Hs'. injection Hs' as <-. split; [by rewrite Hn|done].
Qed.

Lemma blob_applies s d h : wf_schema -> carries base db s -> valid d -> (forall t, rows d t = db_rows base t) ->
  exists d', changeset_apply_with on_conflict schema d h (serialize_impl live s patchset) = (Ok (), d') /\ valid d' /\ forall t, rows d' t = db_rows db t.
Proof using KS Gbase Gdb.
  intros WS R V E. unfold changeset_apply_with. rewrite serialize_parses by (by apply carried_wf).
  destruct R as [N Tb Rs].
  destruct (apply_tables (tables s) (mkApply d h None) WS N Tb V) as (d' & E' & V' & L & T); [intros; apply E|].
  assert (forall t, rows d' t = db_rows db t) as Rd.
  { intros t. destruct (decide (t ∈ t_name <$> tables s)) as [Ht|Ht]; [by apply L|]. rewrite T by done. simpl. rewrite E. symmetry. by apply Rs. }
  fold (session_records live s patchset) in E'. unfold run_in_savepoint.
  destruct (session_records live s patchset) as [|r rs] eqn:Er.
  - simpl in E'. injection E' as E'. exists d'. by rewrite E'.
  - rewrite E'. simpl. exists d'. done.
Qed.

End apply.

Lemma recording_start base : recording base base 0 (attach default_state).
Proof. constructor; simpl; [done|constructor|constructor|done]. Qed.

End net.

(** ** The net effect *)

(** C16: a session records what its connection does. After any sequence of
    valid row operations on recorded tables, taken from any database, the
    recorder has not failed, and the blob it writes, a changeset or a patchset,
    applies without a conflict to every store that holds the original rows and
    leaves exactly the final rows there: inserts, updates, deletes, key
    changes and their combinations on one row, over any number of tables, with
    the hash tables growing on the way. *)
Theorem session_net_effect (schema : bytes -> option TableMeta) {D : Type} (S : Store D) (rows : D -> bytes -> rows_of) (valid : D -> Prop)
    (KS : KeyedStore rows S (table_flags schema) valid) {K : Type} (on_conflict : K -> ConflictType -> ConflictAction * K) (h : K)
    (base db : keyed_db) (ops : list dml) (patchset : bool) (d : D)
    (WS : wf_schema schema) (Gb : good_db schema base) (Go : Forall (good_dml schema) ops) (Hops : zlen ops < 2 ^ 28)
    (E : run schema base ops = Some db) (V : valid d) (Hd : forall t, rows d t = db_rows base t) :
  exists s d', record_all schema (attach default_state) ops = Ok s /\
    changeset_apply_with on_conflict schema d h (serialize_impl (live db) s patchset) = (Ok (), d') /\
    forall t, rows d' t = db_rows db t.
Proof.
  destruct (record_all_ok schema base ops base db 0 (attach default_state)) as (s & Es & R & Gd); try done; try lia; [apply recording_start|].
  destruct (blob_applies schema on_conflict base db Gb Gd patchset s d h WS (recording_carries _ _ _ _ _ R) V Hd) as (d' & Ed & _ & Rd). by exists s, d'.
Qed.

(** [CREATE TABLE t(a INTEGER PRIMARY KEY, b)]. *)
Definition example_schema (t : bytes) : option TableMeta :=
  if bool_decide (t = [116]) then Some (mkMeta 2 (Some 0) None) else None.

Definition example_base : keyed_db := {[ [116] := {[ [Integer 1] := [Integer 1; Text [97]] ]} ]}.

Definition example_ops : list dml :=
  [DUpdate [116] 1 [Integer 1; Text [97]] [Integer 1; Text [98]] false;
   DInsert [116] 2 [Integer 2; Null] true;
   DUpdate [116] 2 [Integer 2; Null] [Integer 3; Real (2 ^ 62)] false;
   DInsert [116] 4 [Integer 4; Null] false;
   DDelete [116] 4 [Integer 4; Null] false].

Definition example_final : keyed_db :=
  {[ [116] := <[ [Integer 3] := [Integer 3; Real (2 ^ 62)] ]> {[ [Integer 1] := [Integer 1; Text [98]] ]} ]}.

Lemma example_row (i : Z) v : is_i64 i -> storable v -> canonical v -> good_row example_schema [116] [Integer i; v].
Proof.
  intros Hi S C. exists (mkMeta 2 (Some 0) None), (mkLayout [1; 0] [0] (Some 0)). split_and!; try done.
  - apply Forall_cons; split; [by split|]. by apply Forall_singleton.
  - apply Forall_cons; split; [done|]. by apply Forall_singleton.
  - intros p [= <-]. by exists i.
Qed.

Lemma example_wf_schema : wf_schema example_schema.
Proof.
  intros t m E. unfold example_schema in E. case_bool_decide; [|done]. injection E as <-. subst t. split_and!; simpl; try lia; try done.
  - repeat constructor; unfold is_u8, is_uint; lia.
  - intros H%list_elem_of_singleton. done.
Qed.

Lemma example_good_base : good_db example_schema example_base.
Proof.
  intros t k row E. unfold db_rows, example_base in E. destruct (decide (t = [116])) as [ -> |N].
  - rewrite lookup_singleton_eq in E. simpl in E. apply lookup_singleton_Some in E as (<- & <-). split; [|done].
    apply example_row; [unfold is_i64, is_sint; lia|split; [repeat constructor; unfold is_u8, is_uint; lia|done]|done].
  - rewrite lookup_singleton_ne in E by done. simpl in E. by rewrite lookup_empty in E.
Qed.

Lemma example_good_ops : Forall (good_dml example_schema) example_ops.
Proof.
  assert (forall i, 0 <= i < 10 -> is_i64 i) as I by (intros; unfold is_i64, is_sint; lia).
  assert (storable (Real (2 ^ 62)) /\ canonical (Real (2 ^ 62))) as (R & R').
  { split; [split; [simpl; unfold is_u64, is_uint; lia|done]|]. split; [unfold is_u64, is_uint; lia|]. by split. }
  repeat constructor; apply example_row; try (apply I; lia); try done; split; try done; repeat constructor; unfold is_u8, is_uint; lia.
Qed.

(** The second row's insert and its key change become one insert, the fourth
    row's insert and delete nothing. *)
Lemma session_net_effect_witness : exists s d', record_all example_schema (attach default_state) example_ops = Ok s /\
  @changeset_apply _ (keyed_db_store (table_flags example_schema)) example_schema example_base (serialize (live example_final) s) = (Ok (), d') /\
  forall t, db_rows d' t = db_rows example_final t.
Proof.
  refine (session_net_effect example_schema (keyed_db_store (table_flags example_schema)) db_rows _ (keyed_db_keyed (table_flags example_schema))
    default_handler () example_base example_final example_ops false example_base
    example_wf_schema example_good_base example_good_ops _ _ _ _).
  - reflexivity.
  - vm_compute. reflexivity.
  - intros t k row E. destruct (example_good_base t k row E) as (G & K). split; [|exact K].
    exact (good_width example_schema t row example_wf_schema G).
  - reflexivity.
Defined.

End SessionNet.
