(* ===== verification/Changeset.v ===== *)
(** The two transforms of changesets, [invert] and [concat]
    ([src/src/session.rs]), byte for byte, without a database (Module
    [Changeset]); and the byte-level view of records (Module
    [ChangesetFields]): the fields the writer of [Session.v] writes are found
    again by [serial_len] and [split_record], with the header of a table in
    front of them. *)

From S2P Require Import Prelude Varint Value Session SessionRead.
Import Varint Value Session.
Local Open Scope Z_scope.

Module Changeset.

(** ** Fields *)

(** [serial_len]: the length of the serialized field at the start of [a]. *)
Definition serial_len (a : bytes) : res Z :=
  match a with
  | [] => Err (corrupt "truncated record field")
  | e :: _ =>
      if (e =? 0x00) || (e =? 0xFF) || (e =? T_NULL) then Ok 1
      else if (e =? T_INT) || (e =? T_FLOAT) then
        if zlen a <? 9 then Err (corrupt "truncated int/float field") else Ok 9
      else if (e =? T_TEXT) || (e =? T_BLOB) then
        let* r := read_varint a 1 in
        let nvar := r.2 - 1 in
        if r.2 + r.1 <=? zlen a then Ok (1 + nvar + r.1) else Err (corrupt "truncated text/blob field")
      else Err (corrupt ("unknown changeset value type " +:+ fmt_Z e))
  end.

(** The loop of [split_record], from [off] on. *)
Fixpoint split_loop (a : bytes) (ncol : nat) (off : Z) : res (list bytes * Z) :=
  match ncol with
  | O => Ok ([], off)
  | S ncol =>
      let* tail := slice_from a off in
      let* n := serial_len tail in
      let* f := slice a off (off + n) in
      let* r := split_loop a ncol (off + n) in
      Ok (f :: r.1, r.2)
  end.

Definition split_record (a : bytes) (ncol : Z) : res (list bytes * Z) := split_loop a (Z.to_nat ncol) 0.

(** [TableHdr] with the bytes of the header. *)
Record TableHdr : Type := mkHdr {
  h_ncol : Z;
  h_pk_flags : bytes;
  h_name : bytes;
  h_raw : bytes }.

Definition read_table_hdr (data : bytes) (start : Z) : res (TableHdr * Z) :=
  let* t := read_u8 data start in
  let* r := read_header "table has zero columns" data t.2 in
  let '(ncol, pk_flags, name) := r.1 in
  let* raw := slice data start r.2 in
  Ok (mkHdr ncol pk_flags name raw, r.2).

(** ** [invert] *)

(** The inverted records of an update, column by column from [i]. *)
Fixpoint invert_old (pk_flags : bytes) (i : Z) (old new : list bytes) : bytes :=
  match old, new with
  | o :: old, n :: new => (if is_pk pk_flags i then o else n) ++ invert_old pk_flags (i + 1) old new
  | _, _ => []
  end.

Fixpoint invert_new (pk_flags : bytes) (i : Z) (old : list bytes) : bytes :=
  match old with
  | o :: old => (if is_pk pk_flags i then [T_OMIT] else o) ++ invert_new pk_flags (i + 1) old
  | [] => []
  end.

(** [while !r.eof()]: the output, and the layout of the current table. *)
Fixpoint invert_loop (fuel : nat) (data : bytes) (pos : Z) (out : bytes) (ncol : Z) (pk_flags : bytes) : res bytes :=
  if zlen data <=? pos then Ok out
  else
    match fuel with
    | O => Panic
    | S fuel =>
        let* m := peek data pos in
        let op := m.1 in
        if op =? 84 then
          let* h := read_table_hdr data pos in
          invert_loop fuel data h.2 (out ++ h_raw h.1) (h_ncol h.1) (h_pk_flags h.1)
        else if (op =? OP_INSERT) || (op =? OP_DELETE) then
          let* o := read_u8 data pos in
          let* indirect := read_u8 data o.2 in
          let* tail := slice_from data indirect.2 in
          let* s := split_record tail ncol in
          let* rec := read_take s.2 data indirect.2 in
          invert_loop fuel data rec.2
            (out ++ [if op =? OP_INSERT then OP_DELETE else OP_INSERT; indirect.1] ++ rec.1) ncol pk_flags
        else if op =? OP_UPDATE then
          let* o := read_u8 data pos in
          let* indirect := read_u8 data o.2 in
          let* tail := slice_from data indirect.2 in
          let* old := split_record tail ncol in
          let pos := indirect.2 + old.2 in
          let* tail := slice_from data pos in
          let* new := split_record tail ncol in
          let pos := pos + new.2 in
          invert_loop fuel data pos
            (out ++ [OP_UPDATE; indirect.1] ++ invert_old pk_flags 0 old.1 new.1 ++ invert_new pk_flags 0 old.1) ncol pk_flags
        else Err (corrupt ("unexpected marker byte " +:+ fmt_hex op))
    end.

Definition invert (changeset : bytes) : res bytes := invert_loop (length changeset) changeset 0 [] 0 [].

(** ** [concat] *)

Record ConcatChange : Type := mkConcat {
  cc_op : Z;
  cc_indirect : Z;
  cc_record : bytes }.

Record ConcatTable : Type := mkConcatTable {
  ct_ncol : Z;
  ct_pk_flags : bytes;
  ct_name : bytes;
  ct_hdr : bytes;
  ct_buckets : list (list ConcatChange);
  ct_nentry : Z }.

Definition new_concat_table (hdr : TableHdr) : ConcatTable :=
  mkConcatTable (h_ncol hdr) (h_pk_flags hdr) (h_name hdr) (h_raw hdr) [] 0.

(** One key field of [ConcatTable::hash]: the type byte, then the payload. *)
Definition hash_field (h : Z) (f : bytes) : res Z :=
  let* ty := idx f 0 in
  let h := hash_append h ty in
  if (ty =? T_INT) || (ty =? T_FLOAT) then
    let* a := slice f 1 9 in
    Ok (hash_i64 h (to_signed 64 (be_val a)))
  else if (ty =? T_TEXT) || (ty =? T_BLOB) then
    let* r := read_varint f 1 in
    let* b := slice f r.2 (r.2 + r.1) in
    Ok (hash_blob h b)
  else Ok h.

(** The loop over the columns of [hash], from column [i] at [off]. *)
Fixpoint hash_loop (pk_flags record : bytes) (ncol : nat) (i off h : Z) : res Z :=
  match ncol with
  | O => Ok h
  | S ncol =>
      let* tail := slice_from record off in
      let* n := serial_len tail in
      let* f := slice record off (off + n) in
      let* h := (if is_pk pk_flags i then hash_field h f else Ok h) in
      hash_loop pk_flags record ncol (i + 1) (off + n) h
  end.

Definition record_hash (t : ConcatTable) (record : bytes) (nbucket : Z) : res Z :=
  let* h := hash_loop (ct_pk_flags t) record (Z.to_nat (ct_ncol t)) 0 0 0 in
  rem_u32 h nbucket.

(** [pk_equal]. *)
Fixpoint pk_equal_loop (pk_flags a b : bytes) (ncol : nat) (i oa ob : Z) : res bool :=
  match ncol with
  | O => Ok true
  | S ncol =>
      let* ta := slice_from a oa in
      let* na := serial_len ta in
      let* tb := slice_from b ob in
      let* nb := serial_len tb in
      let* fa := slice a oa (oa + na) in
      let* fb := slice b ob (ob + nb) in
      if is_pk pk_flags i && (negb (na =? nb) || negb (bool_decide (fa = fb))) then Ok false
      else pk_equal_loop pk_flags a b ncol (i + 1) (oa + na) (ob + nb)
  end.

Definition pk_equal (t : ConcatTable) (a b : bytes) : res bool :=
  pk_equal_loop (ct_pk_flags t) a b (Z.to_nat (ct_ncol t)) 0 0 0.

Definition with_buckets (t : ConcatTable) (bs : list (list ConcatChange)) (n : Z) : ConcatTable :=
  mkConcatTable (ct_ncol t) (ct_pk_flags t) (ct_name t) (ct_hdr t) bs n.

Definition concat_maybe_grow (t : ConcatTable) : res ConcatTable :=
  let n := zlen (ct_buckets t) in
  if (n =? 0) || (n / 2 <=? ct_nentry t) then
    let new_n := if n =? 0 then 256 else n * 2 in
    let* nb := rehash (fun c => record_hash t (cc_record c) new_n) (ct_buckets t) (zrep new_n []) in
    Ok (with_buckets t nb (ct_nentry t))
  else Ok t.

(** [merge_value]: the field of the current column and the two cursors moved
    behind theirs. *)
Definition merge_value (one : bytes) (co : Z) (two : option bytes) (ct : Z) : res (bytes * Z * Z) :=
  let* t1 := slice_from one co in
  let* n1 := serial_len t1 in
  let* f1 := slice one co (co + n1) in
  match two with
  | None => Ok (f1, co + n1, ct)
  | Some two =>
      let* t2 := slice_from two ct in
      let* n2 := serial_len t2 in
      let* f2 := slice two ct (ct + n2) in
      let* b := idx f2 0 in
      Ok (if negb (b =? 0) then f2 else f1, co + n1, ct + n2)
  end.

(** [merge_record]: the right field when present, else the left one. *)
Fixpoint merge_record (left_ right_ : bytes) (ncol : nat) (lo ro : Z) : res bytes :=
  match ncol with
  | O => Ok []
  | S ncol =>
      let* tl := slice_from left_ lo in
      let* nl := serial_len tl in
      let* tr := slice_from right_ ro in
      let* nr := serial_len tr in
      let* b := idx right_ ro in
      let* f := (if negb (b =? 0) then slice right_ ro (ro + nr) else slice left_ lo (lo + nl)) in
      let* rest := merge_record left_ right_ ncol (lo + nl) (ro + nr) in
      Ok (f ++ rest)
  end.

(** The two column loops of [merge_update]: the old record with the flag
    [required], and the new record. *)
Fixpoint merge_old_loop (pk_flags old1 : bytes) (old2 : option bytes) (new1 : bytes) (new2 : option bytes) (ncol : nat)
    (i co1 co2 cn1 cn2 : Z) : res (bytes * bool) :=
  match ncol with
  | O => Ok ([], false)
  | S ncol =>
      let* o := merge_value old1 co1 old2 co2 in
      let '(old, co1, co2) := o in
      let* n := merge_value new1 cn1 new2 cn2 in
      let '(new, cn1, cn2) := n in
      let is_pk := is_pk pk_flags i in
      let differ := negb (bool_decide (old = new)) in
      let* r := merge_old_loop pk_flags old1 old2 new1 new2 ncol (i + 1) co1 co2 cn1 cn2 in
      if is_pk || differ then Ok (old ++ r.1, negb is_pk || r.2) else Ok ([T_OMIT] ++ r.1, r.2)
  end.

Fixpoint merge_new_loop (pk_flags old1 : bytes) (old2 : option bytes) (new1 : bytes) (new2 : option bytes) (ncol : nat)
    (i co1 co2 cn1 cn2 : Z) : res bytes :=
  match ncol with
  | O => Ok []
  | S ncol =>
      let* o := merge_value old1 co1 old2 co2 in
      let '(old, co1, co2) := o in
      let* n := merge_value new1 cn1 new2 cn2 in
      let '(new, cn1, cn2) := n in
      let is_pk := is_pk pk_flags i in
      let* r := merge_new_loop pk_flags old1 old2 new1 new2 ncol (i + 1) co1 co2 cn1 cn2 in
      Ok ((if is_pk || bool_decide (old = new) then [T_OMIT] else new) ++ r)
  end.

(** [merge_update]: [None] when the merged update has no effect. *)
Definition merge_update (t : ConcatTable) (old1 : bytes) (old2 : option bytes) (new1 : bytes) (new2 : option bytes) : res (option bytes) :=
  let n := Z.to_nat (ct_ncol t) in
  let* o := merge_old_loop (ct_pk_flags t) old1 old2 new1 new2 n 0 0 0 0 0 in
  if negb o.2 then Ok None
  else
    let* nw := merge_new_loop (ct_pk_flags t) old1 old2 new1 new2 n 0 0 0 0 0 in
    Ok (Some (o.1 ++ nw)).

(** [merge]: the coalesced change, [None] when the pair annihilates. *)
Definition merge (t : ConcatTable) (existing : option ConcatChange) (op2 indirect2 : Z) (rec2 : bytes) : res (option ConcatChange) :=
  match existing with
  | None => Ok (Some (mkConcat op2 indirect2 rec2))
  | Some pexist =>
      let op1 := cc_op pexist in
      let n := Z.to_nat (ct_ncol t) in
      if ((op1 =? OP_INSERT) && (op2 =? OP_INSERT)) || ((op1 =? OP_UPDATE) && (op2 =? OP_INSERT))
         || ((op1 =? OP_DELETE) && (op2 =? OP_UPDATE)) || ((op1 =? OP_DELETE) && (op2 =? OP_DELETE)) then
        Ok (Some pexist)
      else if (op1 =? OP_INSERT) && (op2 =? OP_DELETE) then Ok None
      else
        let indirect := bool_byte (negb (indirect2 =? 0) && negb (cc_indirect pexist =? 0)) in
        if op1 =? OP_INSERT then
          let* s := split_record rec2 (ct_ncol t) in
          let* new_part := slice_from rec2 s.2 in
          let* out := merge_record (cc_record pexist) new_part n 0 0 in
          Ok (Some (mkConcat OP_INSERT indirect out))
        else if op1 =? OP_DELETE then
          let* out := merge_update t (cc_record pexist) None rec2 None in
          match out with
          | None => Ok None
          | Some out => Ok (Some (mkConcat OP_UPDATE indirect out))
          end
        else if op2 =? OP_UPDATE then
          let* se := split_record (cc_record pexist) (ct_ncol t) in
          let* exist_old := slice (cc_record pexist) 0 se.2 in
          let* exist_new := slice_from (cc_record pexist) se.2 in
          let* si := split_record rec2 (ct_ncol t) in
          let* in_old := slice rec2 0 si.2 in
          let* in_new := slice_from rec2 si.2 in
          let* out := merge_update t in_old (Some exist_old) exist_new (Some in_new) in
          match out with
          | None => Ok None
          | Some out => Ok (Some (mkConcat OP_UPDATE indirect out))
          end
        else
          let* s := split_record (cc_record pexist) (ct_ncol t) in
          let* old1 := slice (cc_record pexist) 0 s.2 in
          let* out := merge_record rec2 old1 n 0 0 in
          Ok (Some (mkConcat OP_DELETE indirect out))
  end.

(** The search of [add] in one chain: the change of the same row and the chain
    without it. *)
Fixpoint take_existing (t : ConcatTable) (record : bytes) (l : list ConcatChange) : res (option (ConcatChange * list ConcatChange)) :=
  match l with
  | [] => Ok None
  | c :: l =>
      let* e := pk_equal t (cc_record c) record in
      if e then Ok (Some (c, l))
      else
        let* r := take_existing t record l in
        match r with
        | None => Ok None
        | Some (e, l) => Ok (Some (e, c :: l))
        end
  end.

Definition concat_add (t : ConcatTable) (op indirect : Z) (record : bytes) : res ConcatTable :=
  let* t := concat_maybe_grow t in
  let* i := record_hash t record (zlen (ct_buckets t)) in
  let* b := idx (ct_buckets t) i in
  let* e := take_existing t record b in
  let* r :=
    match e with
    | None => Ok (t, None)
    | Some (c, b) =>
        let* bs := set_idx (ct_buckets t) i b in
        Ok (with_buckets t bs (ct_nentry t - 1), Some c)
    end in
  let '(t, existing) := r in
  let* merged := merge t existing op indirect record in
  match merged with
  | None => Ok t
  | Some c =>
      let* bs := prepend (ct_buckets t) i c in
      Ok (with_buckets t bs (ct_nentry t + 1))
  end.

(** [tables.iter().position(|t| t.name == hdr.name)]. *)
Fixpoint table_position (tables : list ConcatTable) (name : bytes) (i : Z) : option Z :=
  match tables with
  | [] => None
  | t :: tables => if bool_decide (ct_name t = name) then Some i else table_position tables name (i + 1)
  end.

(** [while !r.eof()] of [concat_absorb]: the tables and the current one. *)
Fixpoint absorb_loop (fuel : nat) (data : bytes) (pos : Z) (tables : list ConcatTable) (cur : option Z) : res (list ConcatTable) :=
  if zlen data <=? pos then Ok tables
  else
    match fuel with
    | O => Panic
    | S fuel =>
        let* m := peek data pos in
        let op := m.1 in
        if op =? 84 then
          let* h := read_table_hdr data pos in
          match table_position tables (h_name h.1) 0 with
          | Some i =>
              let* t := idx tables i in
              if negb (ct_ncol t =? h_ncol h.1) || negb (bool_decide (ct_pk_flags t = h_pk_flags h.1)) then
                Err (corrupt "incompatible table definition in concat")
              else absorb_loop fuel data h.2 tables (Some i)
          | None => absorb_loop fuel data h.2 (tables ++ [new_concat_table h.1]) (Some (zlen tables))
          end
        else if (op =? OP_INSERT) || (op =? OP_DELETE) || (op =? OP_UPDATE) then
          match cur with
          | None => Err (corrupt "change record before any table header")
          | Some ti =>
              let* t := idx tables ti in
              let* o := read_u8 data pos in
              let* indirect := read_u8 data o.2 in
              let nfields := if op =? OP_UPDATE then ct_ncol t * 2 else ct_ncol t in
              let* tail := slice_from data indirect.2 in
              let* s := split_record tail nfields in
              let* record := read_take s.2 data indirect.2 in
              let* t := concat_add t op indirect.1 record.1 in
              let* tables := set_idx tables ti t in
              absorb_loop fuel data record.2 tables cur
          end
        else Err (corrupt ("unexpected marker byte " +:+ fmt_hex op))
    end.

Definition concat_absorb (changeset : bytes) (tables : list ConcatTable) : res (list ConcatTable) :=
  absorb_loop (length changeset) changeset 0 tables None.

Definition concat_change_bytes (c : ConcatChange) : bytes := [cc_op c; cc_indirect c] ++ cc_record c.

Definition concat_table_bytes (t : ConcatTable) : bytes :=
  if ct_nentry t =? 0 then []
  else ct_hdr t ++ concat (concat_change_bytes <$> concat (ct_buckets t)).

Definition changeset_concat (a b : bytes) : res bytes :=
  let* tables := concat_absorb a [] in
  let* tables := concat_absorb b tables in
  Ok (concat (concat_table_bytes <$> tables)).

End Changeset.

Import SessionRead Changeset.

Module ChangesetFields.

(** The bytes of a record. *)
Definition record_bytes (fs : list (option Value)) : bytes := concat (field_bytes <$> fs).

Lemma record_bytes_cons f fs : record_bytes (f :: fs) = field_bytes f ++ record_bytes fs.
Proof. done. Qed.

Lemma read_varint_at pre v rest : 0 <= v < 2 ^ 56 -> read_varint (pre ++ append_varint v ++ rest) (zlen pre) = Ok (v, zlen (pre ++ append_varint v)).
Proof. intros H. apply (reads_varint v H pre rest). Qed.

Lemma slice_from_app {A} (pre rest : list A) : slice_from (pre ++ rest) (zlen pre) = Ok rest.
Proof.
  unfold slice_from. rewrite slice_Ok by (rewrite ?zlen_app; pose proof (zlen_nonneg pre); pose proof (zlen_nonneg rest); lia).
  rewrite sub_full. unfold zlen. rewrite Nat2Z.id. by rewrite drop_app_length.
Qed.

Lemma slice_app {A} (pre m rest : list A) : slice (pre ++ m ++ rest) (zlen pre) (zlen pre + zlen m) = Ok m.
Proof.
  rewrite slice_Ok; [by rewrite (sub_app_exact pre m rest)|..];
    rewrite ?zlen_app; pose proof (zlen_nonneg pre); pose proof (zlen_nonneg m); pose proof (zlen_nonneg rest); lia.
Qed.

Lemma serial_len_value v rest : storable v -> serial_len (append_value v ++ rest) = Ok (zlen (append_value v)).
Proof.
  assert (forall ty s, (ty = T_TEXT \/ ty = T_BLOB) -> zlen s < 2 ^ 56 ->
    serial_len ((ty :: append_varint (zlen s) ++ s) ++ rest) = Ok (zlen (ty :: append_varint (zlen s) ++ s))) as V.
  { intros ty s Ht Hs. unfold serial_len. pose proof (zlen_nonneg s). pose proof (zlen_nonneg rest).
    pose proof (read_varint_at [ty] (zlen s) (s ++ rest) ltac:(lia)) as R. change (zlen [ty]) with 1 in R. simpl app in R.
    rewrite <- app_comm_cons, <- (assoc_L app). pose proof (zlen_nonneg (append_varint (zlen s))) as N.
    destruct Ht as [ -> | -> ]; simpl; simpl in R; rewrite R; bind_step; simpl;
      rewrite !zlen_cons, !zlen_app, (proj2 (Z.leb_le _ _)) by lia; f_equal; lia. }
  intros (W & S). destruct v as [|i|r|s|b]; [done|..].
  - unfold serial_len. simpl. rewrite (proj2 (Z.ltb_ge _ _)); [done|]. rewrite !zlen_cons. pose proof (zlen_nonneg rest). lia.
  - unfold serial_len. simpl. rewrite (proj2 (Z.ltb_ge _ _)); [done|]. rewrite !zlen_cons. pose proof (zlen_nonneg rest). lia.
  - apply V; [by left|apply S].
  - apply V; [by right|apply S].
Qed.

Lemma serial_len_field f rest : storable_field f -> serial_len (field_bytes f ++ rest) = Ok (zlen (field_bytes f)).
Proof. destruct f as [v|]; [apply serial_len_value|done]. Qed.

Lemma split_loop_spec fs : Forall storable_field fs -> forall pre rest,
  split_loop (pre ++ record_bytes fs ++ rest) (length fs) (zlen pre) = Ok (field_bytes <$> fs, zlen (pre ++ record_bytes fs)).
Proof.
  induction 1 as [|f fs F _ IH]; intros pre rest.
  - simpl. by rewrite app_nil_r.
  - rewrite record_bytes_cons. cbn [split_loop length]. rewrite slice_from_app. bind_step.
    rewrite <- (assoc_L app). rewrite serial_len_field by done. bind_step. rewrite slice_app. bind_step.
    rewrite <- zlen_app. pose proof (IH (pre ++ field_bytes f) rest) as I. rewrite <- !(assoc_L app) in I. rewrite I. bind_step. done.
Qed.

Lemma split_record_spec fs n rest : Forall storable_field fs -> zlen fs = n ->
  split_record (record_bytes fs ++ rest) n = Ok (field_bytes <$> fs, zlen (record_bytes fs)).
Proof. intros F <-. unfold split_record, zlen at 1. rewrite Nat2Z.id. apply (split_loop_spec fs F [] rest). Qed.

(** The header at a ['T']. *)
Lemma read_table_hdr_spec ncol fl name pre rest : 0 < ncol < 2 ^ 56 -> zlen fl = ncol -> 0 ∉ name ->
  read_table_hdr (pre ++ table_header 84 ncol fl name ++ rest) (zlen pre) =
  Ok (mkHdr ncol fl name (table_header 84 ncol fl name), zlen (pre ++ table_header 84 ncol fl name)).
Proof.
  intros H L N. unfold read_table_hdr. set (b := append_varint ncol ++ fl ++ name ++ [0]).
  change (table_header 84 ncol fl name) with (84 :: b).
  pose proof (reads_u8 84 pre (b ++ rest)) as E1. change ([84] ++ b ++ rest) with ((84 :: b) ++ rest) in E1. rewrite E1. bind_step. simpl snd.
  pose proof (reads_header "table has zero columns" ncol fl name H L N (pre ++ [84]) rest) as R. fold b in R. rewrite <- !(assoc_L app) in R.
  change ([84] ++ b ++ rest) with ((84 :: b) ++ rest) in R. rewrite R. bind_step. simpl fst. simpl snd. cbv iota beta.
  change ([84] ++ b) with (84 :: b). rewrite zlen_app, slice_app. by bind_step.
Qed.

(** [append_value] is injective on the values the format carries. *)
Lemma append_value_inj v w rest rest' : storable v -> storable w -> append_value v ++ rest = append_value w ++ rest' -> v = w.
Proof.
  intros S S' E. pose proof (reads_value v S [] rest) as R. pose proof (reads_value w S' [] rest') as R'. simpl in R, R'. rewrite E, R' in R.
  by injection R as ->.
Qed.

Lemma append_value_head v : storable v -> exists b l, append_value v = b :: l /\ b <> 0.
Proof. intros _. destruct v; eexists _, _; (split; [reflexivity|done]). Qed.

Lemma field_bytes_inj f g : storable_field f -> storable_field g -> field_bytes f = field_bytes g -> f = g.
Proof.
  destruct f as [v|], g as [w|]; simpl; intros S S' E; [|..|done].
  - f_equal. eapply (append_value_inj v w [] []); [done..|by rewrite E].
  - destruct (append_value_head v S) as (b & l & H & N). rewrite H in E. by injection E as ->.
  - destruct (append_value_head w S') as (b & l & H & N). rewrite H in E. by injection E as <-.
Qed.

End ChangesetFields.
