(* ===== verification/ChangesetInvert.v ===== *)
(** Inverting a changeset undoes it: the inverted blob of a session is, byte
    for byte, the blob of the session that goes from the final rows back to
    the original ones ([flip_state]), so it applies there without a conflict;
    inverting twice gives the blob back. *)

From S2P Require Import Prelude Varint Value Session SessionRead SessionProps SessionApply SessionStore SessionStep SessionNet Changeset.
From stdpp Require Import gmap.
Import Varint Value Session SessionRead SessionProps SessionApply SessionStore SessionStep SessionNet Changeset ChangesetFields.
Local Open Scope Z_scope.

Module ChangesetInvert.

(** ** Records *)

(** Two rows with the same key columns, from column [i] on. *)
Definition same_key_from (fl : bytes) (i : Z) (old new : list Value) : Prop :=
  length old = length new /\ forall n : nat, is_pk fl (i + Z.of_nat n) = true -> old !! n = new !! n.

Lemma same_key_cons fl i o old n new : same_key_from fl i (o :: old) (n :: new) ->
  (is_pk fl i = true -> o = n) /\ same_key_from fl (i + 1) old new.
Proof.
  intros (L & H). split.
  - intros P. specialize (H 0%nat). rewrite Z.add_0_r in H. specialize (H P). simpl in H. congruence.
  - split; [simpl in L; lia|]. intros k P. apply (H (S k)). rewrite <- P. f_equal. lia.
Qed.

Lemma value_eq_refl v : canonical v -> value_eq v v = true.
Proof. intros C. rewrite value_eq_canonical by done. by apply bool_decide_eq_true. Qed.

Lemma value_eq_sym v w : canonical v -> canonical w -> value_eq v w = value_eq w v.
Proof. intros C C'. rewrite !value_eq_canonical by done. apply bool_decide_ext. split; congruence. Qed.

Lemma invert_records fl i old new : Forall canonical old -> Forall canonical new -> same_key_from fl i old new ->
  invert_old fl i (field_bytes <$> columns (old_field fl false) i (zip old new)) (field_bytes <$> columns (new_field fl false) i (zip old new)) =
    record_bytes (columns (old_field fl false) i (zip new old)) /\
  invert_new fl i (field_bytes <$> columns (old_field fl false) i (zip old new)) = record_bytes (columns (new_field fl false) i (zip new old)).
Proof.
  intros C. revert i new. induction C as [|o old Co C IH]; intros i [|n new] C' K; try done.
  apply Forall_cons in C' as (Cn & C'). apply same_key_cons in K as (Ko & K).
  destruct (IH (i + 1) new C' K) as (I1 & I2).
  change (zip (o :: old) (n :: new)) with ((o, n) :: zip old new). change (zip (n :: new) (o :: old)) with ((n, o) :: zip new old).
  cbn [columns]. rewrite !fmap_cons, !record_bytes_cons. cbn [invert_old invert_new]. rewrite I1, I2.
  unfold old_field at 1 3, new_field at 1 3. simpl. rewrite (value_eq_sym n o) by done.
  destruct (is_pk fl i) eqn:P.
  - rewrite (Ko eq_refl), value_eq_refl by done. done.
  - by destruct (value_eq o n).
Qed.

Lemma rows_differ_sym old new : Forall canonical old -> Forall canonical new -> rows_differ old new = rows_differ new old.
Proof.
  intros C. revert new. induction C as [|o old Co C IH]; intros [|n new] C'; try done. apply Forall_cons in C' as (Cn & C').
  unfold rows_differ in *. simpl. rewrite IH by done. by rewrite (value_eq_sym o n).
Qed.

(** ** The loop *)

(** The inverter in front of [b]: it appends [b'] and ends with the layout
    [n'], [fl']. *)
Definition inverts (b : bytes) (n : Z) (fl : bytes) (b' : bytes) (n' : Z) (fl' : bytes) : Prop :=
  forall fuel pre rest out, (length b + length rest <= fuel)%nat -> exists fuel', (length rest <= fuel')%nat /\
    invert_loop fuel (pre ++ b ++ rest) (zlen pre) out n fl = invert_loop fuel' (pre ++ b ++ rest) (zlen (pre ++ b)) (out ++ b') n' fl'.

Lemma inverts_nil n fl : inverts [] n fl [] n fl.
Proof. intros fuel pre rest out L. exists fuel. split; [simpl in L; lia|]. by rewrite !app_nil_r. Qed.

Lemma inverts_app b c n fl b' n' fl' c' n'' fl'' : inverts b n fl b' n' fl' -> inverts c n' fl' c' n'' fl'' -> inverts (b ++ c) n fl (b' ++ c') n'' fl''.
Proof.
  intros H K fuel pre rest out L. destruct (H fuel pre (c ++ rest) out) as (f & Lf & E); [rewrite !length_app in *; lia|].
  destruct (K f (pre ++ b) rest (out ++ b')) as (f' & Lf' & E'); [rewrite !length_app in *; lia|].
  exists f'. split; [done|]. rewrite <- !(assoc_L app) in *. congruence.
Qed.

(** The test of the loop in front of a non-empty rest, and its marker. *)
Lemma loop_at {A} (pre : list A) m b rest : (zlen (pre ++ (m :: b) ++ rest) <=? zlen pre) = false.
Proof. apply Z.leb_gt. rewrite !zlen_app, zlen_cons. pose proof (zlen_nonneg b). pose proof (zlen_nonneg rest). lia. Qed.

Lemma peek_at pre m b rest : peek (pre ++ (m :: b) ++ rest) (zlen pre) = Ok (m, zlen pre).
Proof. unfold peek. rewrite <- app_comm_cons. by rewrite get_at. Qed.

Lemma inverts_header ncol fl name n0 fl0 : 0 < ncol < 2 ^ 56 -> zlen fl = ncol -> 0 ∉ name ->
  inverts (table_header 84 ncol fl name) n0 fl0 (table_header 84 ncol fl name) ncol fl.
Proof.
  intros H L N fuel pre rest out Lf. pose proof (read_table_hdr_spec ncol fl name pre rest H L N) as R.
  set (b := append_varint ncol ++ fl ++ name ++ [0]). change (table_header 84 ncol fl name) with (84 :: b) in *.
  destruct fuel as [|fuel]; [simpl in Lf; lia|]. exists fuel. split; [simpl in Lf; lia|].
  cbn [invert_loop]. rewrite loop_at, peek_at. bind_step. simpl fst. rewrite Z.eqb_refl, R. bind_step. done.
Qed.

(** The two bytes in front of every record. *)
Lemma read_two pre op ind rest : read_u8 (pre ++ op :: ind :: rest) (zlen pre) = Ok (op, zlen pre + 1) /\
  read_u8 (pre ++ op :: ind :: rest) (zlen pre + 1) = Ok (ind, zlen (pre ++ [op; ind])) /\
  slice_from (pre ++ op :: ind :: rest) (zlen (pre ++ [op; ind])) = Ok rest.
Proof.
  split_and!.
  - pose proof (reads_u8 op pre (ind :: rest)) as R. simpl in R. by rewrite R, zlen_snoc.
  - pose proof (reads_u8 ind (pre ++ [op]) rest) as R. rewrite <- !(assoc_L app) in R. simpl in R. by rewrite zlen_snoc in R.
  - replace (pre ++ op :: ind :: rest) with ((pre ++ [op; ind]) ++ rest) by by rewrite <- (assoc_L app). apply slice_from_app.
Qed.

Lemma inverts_full op ind fs n fl : (op = OP_INSERT \/ op = OP_DELETE) -> Forall storable_field fs -> zlen fs = n ->
  inverts ([op; ind] ++ record_bytes fs) n fl ([if op =? OP_INSERT then OP_DELETE else OP_INSERT; ind] ++ record_bytes fs) n fl.
Proof.
  intros Hop F L fuel pre rest out Lf. destruct fuel as [|fuel]; [simpl in Lf; lia|]. exists fuel. split; [simpl in Lf; lia|].
  change ([op; ind] ++ record_bytes fs) with (op :: ind :: record_bytes fs) in *. cbn [invert_loop]. rewrite loop_at, peek_at. bind_step. simpl fst.
  replace (op =? 84) with false by (by destruct Hop as [ -> | -> ]).
  replace ((op =? OP_INSERT) || (op =? OP_DELETE)) with true by (by destruct Hop as [ -> | -> ]).
  rewrite <- !app_comm_cons. destruct (read_two pre op ind (record_bytes fs ++ rest)) as (-> & R2 & R3). bind_step. simpl snd. rewrite R2. bind_step. simpl snd. rewrite R3. bind_step.
  rewrite split_record_spec by done. bind_step. simpl snd.
  pose proof (reads_take (record_bytes fs) _ eq_refl (pre ++ [op; ind]) rest) as R4. rewrite <- !(assoc_L app) in R4. simpl in R4. rewrite R4. bind_step.
  simpl fst. simpl snd. done.
Qed.

Lemma inverts_update ind fo fn n fl : Forall storable_field fo -> Forall storable_field fn -> zlen fo = n -> zlen fn = n ->
  inverts ([OP_UPDATE; ind] ++ record_bytes fo ++ record_bytes fn) n fl
    ([OP_UPDATE; ind] ++ invert_old fl 0 (field_bytes <$> fo) (field_bytes <$> fn) ++ invert_new fl 0 (field_bytes <$> fo)) n fl.
Proof.
  intros Fo Fn Lo Ln fuel pre rest out Lf. destruct fuel as [|fuel]; [simpl in Lf; lia|]. exists fuel. split; [simpl in Lf; rewrite ?length_app in Lf; lia|].
  change ([OP_UPDATE; ind] ++ record_bytes fo ++ record_bytes fn) with (OP_UPDATE :: ind :: (record_bytes fo ++ record_bytes fn)) in *.
  cbn [invert_loop]. rewrite loop_at, peek_at. bind_step. simpl fst. simpl (_ =? _). cbv iota. simpl orb. cbv iota.
  rewrite <- !app_comm_cons. destruct (read_two pre OP_UPDATE ind ((record_bytes fo ++ record_bytes fn) ++ rest)) as (-> & R2 & R3).
  bind_step. simpl snd. rewrite R2. bind_step. simpl snd. rewrite R3. bind_step. rewrite <- (assoc_L app), split_record_spec by done. bind_step. simpl snd.
  replace (pre ++ OP_UPDATE :: ind :: record_bytes fo ++ record_bytes fn ++ rest) with ((pre ++ OP_UPDATE :: ind :: record_bytes fo) ++ record_bytes fn ++ rest)
    by by rewrite <- (assoc_L app).
  replace (zlen (pre ++ [OP_UPDATE; ind]) + zlen (record_bytes fo)) with (zlen (pre ++ OP_UPDATE :: ind :: record_bytes fo))
    by (rewrite !zlen_app, !zlen_cons, zlen_nil; lia).
  rewrite slice_from_app. bind_step. rewrite split_record_spec by done. bind_step. simpl fst. simpl snd.
  rewrite <- zlen_app. by rewrite <- !(assoc_L app).
Qed.

(** ** The session that goes back *)

Lemma concat_fmap_map {A B} (f : A -> B) (bs : list (list A)) : concat (map f <$> bs) = f <$> concat bs.
Proof. induction bs as [|b bs IH]; [done|]. rewrite fmap_cons. cbn [concat]. by rewrite IH, fmap_app. Qed.

Section flip.
Context (schema : bytes -> option TableMeta) (base db : keyed_db).
Context (WS : wf_schema schema) (Gbase : good_db schema base) (Gdb : good_db schema db).

(** The change that leads from the final row back to the original one. *)
Definition flip_change (t : TableChanges) (c : Change) : Change :=
  match live db (t_name t) (c_pk c) with
  | Some row => mkChange Update (c_pk c) row (c_indirect c)
  | None => mkChange Insert (c_pk c) (zrep (t_ncol t) Null) (c_indirect c)
  end.

Definition flip_table (t : TableChanges) : TableChanges :=
  mkTable (t_name t) (t_ncol t) (t_pk_flags t) (map (flip_change t) <$> t_buckets t) (t_nentry t).

Definition flip_state (s : SessionState) : SessionState := set_tables s (flip_table <$> tables s).

Lemma entries_flip t : entries (flip_table t) = flip_change t <$> entries t.
Proof. apply concat_fmap_map. Qed.

Lemma flip_pk t c : c_pk (flip_change t c) = c_pk c.
Proof. unfold flip_change. by destruct (live _ _ _). Qed.

Lemma flip_pks t : c_pk <$> entries (flip_table t) = c_pk <$> entries t.
Proof. rewrite entries_flip, <- list_fmap_compose. apply list_fmap_ext. intros i c _. apply flip_pk. Qed.

Lemma table_carries_flip t : table_carries schema (db_rows base (t_name t)) (db_rows db (t_name t)) t ->
  table_carries schema (db_rows db (t_name t)) (db_rows base (t_name t)) (flip_table t).
Proof using WS Gdb.
  intros [L C R K F T]. constructor; simpl.
  - exact L.
  - rewrite C, entries_flip. unfold zlen. by rewrite length_fmap.
  - rewrite entries_flip. apply Forall_fmap. eapply Forall_impl; [exact R|]. intros c Wc. unfold compose, flip_change.
    destruct L as (m & ly & Hs & Hl & Hn & Hf). destruct (WS _ _ Hs) as (Wm & _). destruct (session_pk_layout_ok m ly Wm Hl) as (B & Lf & _).
    destruct (live db (t_name t) (c_pk c)) as [row|] eqn:E; simpl.
    + destruct (Gdb _ _ _ E) as ((m' & ly' & Hs' & _ & Lr & St & _) & _). rewrite Hs in Hs'. injection Hs' as <-. split; [by rewrite Hn|done].
    + apply wf_null_row. lia.
  - by rewrite flip_pks.
  - rewrite entries_flip. apply Forall_fmap, Forall_forall. intros c _. unfold entry_ok, compose, flip_change.
    by destruct (live db (t_name t) (c_pk c)) as [row|] eqn:E.
  - intros k Hk. rewrite flip_pks in Hk. symmetry. by apply T.
Qed.

Lemma carries_flip s : carries schema base db s -> carries schema db base (flip_state s).
Proof using WS Gdb.
  intros [N F R]. assert (t_name <$> tables (flip_state s) = t_name <$> tables s) as E.
  { simpl. rewrite <- list_fmap_compose. by apply list_fmap_ext. }
  constructor; [by rewrite E| |].
  - simpl. apply Forall_fmap. eapply Forall_impl; [exact F|]. intros t. apply table_carries_flip.
  - intros t Ht. rewrite E in Ht. symmetry. by apply R.
Qed.

(** One change: its bytes are inverted into those of the flipped change. *)
Lemma inverts_change t c :
  table_carries schema (db_rows base (t_name t)) (db_rows db (t_name t)) t -> c ∈ entries t ->
  match change_bytes (live db) t false c, change_bytes (live base) (flip_table t) false (flip_change t c) with
  | Some b, Some b' => inverts b (t_ncol t) (t_pk_flags t) b' (t_ncol t) (t_pk_flags t)
  | None, None => True
  | _, _ => False
  end.
Proof using WS Gbase Gdb.
  intros [(m & ly & Hs & Hl & Hn & Hf) _ _ _ F _] Hc.
  destruct (table_flags_eq schema _ m ly Hs Hl) as (_ & Ef). rewrite Forall_forall in F. pose proof (F c Hc) as Ec.
  assert (forall d k row, good_db schema d -> live d (t_name t) k = Some row ->
    zlen row = t_ncol t /\ Forall storable row /\ Forall canonical row /\ row_key (t_pk_flags t) row = k) as G.
  { intros d k row Gd E. destruct (Gd _ _ _ E) as ((m' & ly' & Hs' & _ & Lr & St & Cn & _) & K). rewrite Hs in Hs'. injection Hs' as <-.
    rewrite Hn, Hf, <- Ef. done. }
  assert (forall b row, zlen row = t_ncol t -> Forall storable row ->
    inverts ([OP_INSERT; b] ++ concat (append_value <$> row)) (t_ncol t) (t_pk_flags t) ([OP_DELETE; b] ++ concat (append_value <$> row)) (t_ncol t) (t_pk_flags t) /\
    inverts ([OP_DELETE; b] ++ concat (append_value <$> row)) (t_ncol t) (t_pk_flags t) ([OP_INSERT; b] ++ concat (append_value <$> row)) (t_ncol t) (t_pk_flags t)) as Full.
  { intros b row L St. rewrite concat_append_values.
    assert (Forall storable_field (Some <$> row) /\ zlen (Some <$> row) = t_ncol t) as (Sf & Lf).
    { split; [by apply Forall_fmap|]. unfold zlen in *. by rewrite length_fmap. }
    split; [apply (inverts_full OP_INSERT b (Some <$> row)); auto|apply (inverts_full OP_DELETE b (Some <$> row)); auto]. }
  assert (forall b row, append_delete row (t_pk_flags t) false b = [OP_DELETE; bool_byte b] ++ concat (append_value <$> row)) as Del.
  { intros b row. unfold append_delete. rewrite delete_cols_full, concat_append_values. do 3 f_equal. apply (delete_record_full (t_pk_flags t) row). }
  assert (forall old row k, live db (t_name t) k = Some row -> live base (t_name t) k = Some old ->
    match append_update old row (t_pk_flags t) false (c_indirect c), append_update row old (t_pk_flags t) false (c_indirect c) with
    | Some b, Some b' => inverts b (t_ncol t) (t_pk_flags t) b' (t_ncol t) (t_pk_flags t)
    | None, None => True
    | _, _ => False
    end) as Upd.
  { intros old row k E E'. destruct (G db k row Gdb E) as (L & St & Cn & K). destruct (G base k old Gbase E') as (L' & St' & Cn' & K').
    unfold append_update. rewrite !update_cols_spec, (rows_differ_sym row old) by done. destruct (rows_differ old row); [|done].
    simpl negb. cbv iota. destruct (storable_update (t_pk_flags t) false 0 old row St' St) as (So & Sn).
    assert (same_key_from (t_pk_flags t) 0 old row) as Sk.
    { split; [unfold zlen in *; lia|]. intros n P. apply (key_agree_inv (t_pk_flags t) 0); [unfold zlen in *; lia|unfold row_key in *; congruence|done]. }
    destruct (invert_records (t_pk_flags t) 0 old row Cn' Cn Sk) as (I1 & I2).
    assert (length (zip old row) = length old) as LZ by (rewrite length_zip_with; unfold zlen in *; lia).
    pose proof (inverts_update (bool_byte (c_indirect c)) _ _ (t_ncol t) (t_pk_flags t) So Sn) as I.
    rewrite I1, I2 in I. unfold record_bytes in I. apply I; unfold zlen in *; rewrite length_columns; lia. }
  unfold change_bytes at 2. simpl t_name. rewrite flip_pk. unfold flip_change. unfold change_bytes. simpl t_pk_flags.
  unfold entry_ok in Ec. change (db_rows base (t_name t) !! c_pk c) with (live base (t_name t) (c_pk c)) in Ec.
  destruct (live db (t_name t) (c_pk c)) as [row|] eqn:E; simpl c_op; simpl c_old; simpl c_indirect; cbv iota.
  - destruct (G db _ row Gdb E) as (L & St & _). destruct (c_op c); simpl; rewrite ?Ec; simpl.
    + rewrite Del. by apply Full.
    + by apply (Upd _ _ _ E Ec).
    + by apply (Upd _ _ _ E Ec).
  - destruct (c_op c); simpl; rewrite ?Ec; simpl; [done|..]; destruct (G base _ _ Gbase Ec) as (L & St & _); rewrite Del; by apply Full.
Qed.

Lemma inverts_changes t cs :
  table_carries schema (db_rows base (t_name t)) (db_rows db (t_name t)) t -> (forall c, c ∈ cs -> c ∈ entries t) ->
  inverts (changes_bytes (live db) t false cs).1 (t_ncol t) (t_pk_flags t)
    (changes_bytes (live base) (flip_table t) false (flip_change t <$> cs)).1 (t_ncol t) (t_pk_flags t) /\
  (changes_bytes (live base) (flip_table t) false (flip_change t <$> cs)).2 = (changes_bytes (live db) t false cs).2.
Proof using WS Gbase Gdb.
  intros Ok. induction cs as [|c cs IH]; intros H; [split; [apply inverts_nil|done]|].
  destruct IH as (I & E); [intros c' Hc'; apply H; by right|]. pose proof (inverts_change t c Ok (H c ltac:(left))) as K.
  rewrite fmap_cons. cbn [changes_bytes].
  destruct (changes_bytes (live db) t false cs) as [rest any], (changes_bytes (live base) (flip_table t) false (flip_change t <$> cs)) as [rest' any'].
  simpl in I, E. destruct (change_bytes (live db) t false c), (change_bytes (live base) (flip_table t) false (flip_change t c)); try done.
  simpl. split; [|done]. by eapply inverts_app.
Qed.

Lemma inverts_table t n0 fl0 : table_carries schema (db_rows base (t_name t)) (db_rows db (t_name t)) t ->
  exists n fl, inverts (table_bytes (live db) false t) n0 fl0 (table_bytes (live base) false (flip_table t)) n fl.
Proof using WS Gbase Gdb.
  intros Ok. destruct (inverts_changes t (entries t) Ok) as (I & E); [done|].
  destruct Ok as [(m & ly & Hs & Hl & Hn & Hf) _ _ _ _ _]. destruct (WS _ _ Hs) as (Wm & _ & _ & N0). destruct (session_pk_layout_ok m ly Wm Hl) as (B & Lf & _).
  unfold table_bytes. change (table_is_empty (flip_table t)) with (table_is_empty t). fold (entries t) (entries (flip_table t)). rewrite entries_flip.
  destruct (table_is_empty t); [exists n0, fl0; apply inverts_nil|].
  destruct (changes_bytes (live db) t false (entries t)) as [body any], (changes_bytes (live base) (flip_table t) false (flip_change t <$> entries t)) as [body' any'].
  simpl in I, E. subst any'. destruct any; [|exists n0, fl0; apply inverts_nil].
  exists (t_ncol t), (t_pk_flags t). eapply inverts_app; [|exact I]. apply inverts_header; [lia|congruence|done].
Qed.

Lemma inverts_tables ts n0 fl0 : Forall (fun t => table_carries schema (db_rows base (t_name t)) (db_rows db (t_name t)) t) ts ->
  exists n fl, inverts (concat (table_bytes (live db) false <$> ts)) n0 fl0 (concat (table_bytes (live base) false <$> (flip_table <$> ts))) n fl.
Proof using WS Gbase Gdb.
  intros F. revert n0 fl0. induction F as [|t ts Ok _ IH]; intros n0 fl0; [exists n0, fl0; apply inverts_nil|].
  destruct (inverts_table t n0 fl0 Ok) as (n1 & fl1 & I1). destruct (IH n1 fl1) as (n2 & fl2 & I2). exists n2, fl2.
  rewrite !fmap_cons. cbn [concat]. by eapply inverts_app.
Qed.

(** The inverted blob is the blob of the way back. *)
Lemma invert_serialize s : carries schema base db s ->
  invert (serialize (live db) s) = Ok (serialize (live base) (flip_state s)).
Proof using WS Gbase Gdb.
  intros [_ F _]. destruct (inverts_tables (tables s) 0 [] F) as (n & fl & I). unfold invert, serialize, serialize_impl. simpl.
  destruct (I (length (concat (table_bytes (live db) false <$> tables s))) [] [] []) as (f & _ & E); [simpl; lia|].
  rewrite app_nil_r in E. simpl in E. change (zlen (@nil Z)) with 0 in E. rewrite E. destruct f; simpl; by rewrite Z.leb_refl.
Qed.

End flip.

(** Going there, back and there again is going there: the bytes agree change
    by change. *)
Lemma serialize_flip_flip schema base db s : carries schema base db s -> serialize (live db) (flip_state base (flip_state db s)) = serialize (live db) s.
Proof.
  intros [_ F _]. unfold serialize, serialize_impl. simpl. f_equal. rewrite <- !list_fmap_compose.
  apply list_fmap_ext. intros i t Ht. unfold compose.
  assert (table_carries schema (db_rows base (t_name t)) (db_rows db (t_name t)) t) as [_ _ _ _ Fe _].
  { rewrite Forall_forall in F. apply F. by eapply list_elem_of_lookup_2. }
  unfold table_bytes. change (table_is_empty (flip_table base (flip_table db t))) with (table_is_empty t). destruct (table_is_empty t); [done|].
  fold (entries t) (entries (flip_table base (flip_table db t))). rewrite !entries_flip, <- list_fmap_compose.
  assert (forall cs, Forall (entry_ok (db_rows base (t_name t))) cs ->
    changes_bytes (live db) (flip_table base (flip_table db t)) false (flip_change base (flip_table db t) ∘ flip_change db t <$> cs) =
    changes_bytes (live db) t false cs) as ->; [|done|exact Fe].
  induction 1 as [|c cs Hc _ IH]; [done|]. rewrite fmap_cons. cbn [changes_bytes]. rewrite IH.
  assert (change_bytes (live db) (flip_table base (flip_table db t)) false ((flip_change base (flip_table db t) ∘ flip_change db t) c) =
    change_bytes (live db) t false c) as ->; [|done].
  unfold compose, flip_change at 1. simpl t_name. rewrite flip_pk. unfold change_bytes, flip_change. simpl.
  unfold entry_ok in Hc. change (db_rows base (t_name t) !! c_pk c) with (live base (t_name t) (c_pk c)) in Hc.
  destruct (c_op c) eqn:Ho; rewrite Hc; simpl; by destruct (live db (t_name t) (c_pk c)).
Qed.

(** C18: inverting a changeset undoes it. For the changeset of any session,
    [invert] succeeds; the inverted changeset applies without a conflict to
    every store that holds the final rows, under any conflict handler, and
    leaves exactly the original rows; and inverting it once more gives the
    changeset back byte for byte. *)
Theorem changeset_invert_undoes (schema : bytes -> option TableMeta) {D : Type} (S : Store D) (rows : D -> bytes -> rows_of) (valid : D -> Prop)
    (KS : KeyedStore rows S (table_flags schema) valid) {K : Type} (on_conflict : K -> ConflictType -> ConflictAction * K) (h : K)
    (base db : keyed_db) (ops : list dml) (d : D)
    (WS : wf_schema schema) (Gb : good_db schema base) (Go : Forall (good_dml schema) ops) (Hops : zlen ops < 2 ^ 28)
    (E : run schema base ops = Some db) (V : valid d) (Hd : forall t, rows d t = db_rows db t) :
  exists s b d', record_all schema (attach default_state) ops = Ok s /\
    invert (serialize (live db) s) = Ok b /\ invert b = Ok (serialize (live db) s) /\
    changeset_apply_with on_conflict schema d h b = (Ok (), d') /\ forall t, rows d' t = db_rows base t.
Proof.
  destruct (record_all_ok schema base ops base db 0 (attach default_state)) as (s & Es & R & Gd); try done; try lia; [apply recording_start|].
  apply recording_carries in R. pose proof (carries_flip schema base db WS Gd s R) as R'.
  destruct (blob_applies schema on_conflict db base Gd Gb false (flip_state db s) d h WS R' V Hd) as (d' & Ed & _ & Rd).
  exists s, (serialize (live base) (flip_state db s)), d'. split_and!; try done.
  - by apply (invert_serialize schema).
  - rewrite (invert_serialize schema db base WS Gd Gb (flip_state db s) R'). by rewrite (serialize_flip_flip schema).
Qed.

Lemma run_good schema ops : forall base db, good_db schema base -> Forall (good_dml schema) ops -> run schema base ops = Some db -> good_db schema db.
Proof.
  induction ops as [|op ops IH]; intros base db G F E; simpl in E; [by injection E as <-|]. apply Forall_cons in F as (F1 & F).
  destruct (dml_apply schema base op) as [db1|] eqn:E1; [|done]. eapply (IH db1); [by eapply dml_good|done..].
Qed.

(** The example session of [SessionNet.v], undone on its final rows. *)
Lemma changeset_invert_undoes_witness : exists s b d', record_all example_schema (attach default_state) example_ops = Ok s /\
  invert (serialize (live example_final) s) = Ok b /\ invert b = Ok (serialize (live example_final) s) /\
  @changeset_apply _ (keyed_db_store (table_flags example_schema)) example_schema example_final b = (Ok (), d') /\
  forall t, db_rows d' t = db_rows example_base t.
Proof.
  assert (run example_schema example_base example_ops = Some example_final) as E by (vm_compute; reflexivity).
  refine (changeset_invert_undoes example_schema (keyed_db_store (table_flags example_schema)) db_rows _ (keyed_db_keyed (table_flags example_schema))
    default_handler () example_base example_final example_ops example_final example_wf_schema example_good_base example_good_ops _ E _ _).
  - reflexivity.
  - intros t k row Er. destruct (run_good _ _ _ _ example_good_base example_good_ops E t k row Er) as (G & K). split; [|exact K].
    exact (good_width example_schema t row example_wf_schema G).
  - reflexivity.
Defined.

(** A change in front of every header is not refused: it is read as a record
    without columns. *)
Example invert_headless : invert [18; 0] = Ok [9; 0].
Proof. reflexivity. Qed.

End ChangesetInvert.
