(* ===== verification/ChangesetMerge.v ===== *)
(** The record arithmetic of [concat]: reading two or four records side by
    side, and the rules that merge two changes of one row.

    [diff fl x y] is the change that leads from the row [x] to the row [y], as
    the bytes of a changeset; [merge_diff] says that the code's merge of
    [diff x y] and [diff y z] is [diff x z]. *)

From S2P Require Import Prelude Varint Value Session SessionRead SessionStore SessionStep Changeset ChangesetInvert.
Import Varint Value Session SessionRead SessionStore SessionStep Changeset ChangesetFields ChangesetInvert.
Local Open Scope Z_scope.

Module ChangesetMerge.

(** ** Cursors *)

(** The cursor [off] stands in front of the fields [fs] in [a]. *)
Definition stream (a : bytes) (off : Z) (fs : list (option Value)) : Prop :=
  exists pre rest, a = pre ++ record_bytes fs ++ rest /\ off = zlen pre /\ Forall storable_field fs.

Definition present (f : option Value) : bool := match f with Some _ => true | None => false end.

Lemma stream_start fs rest : Forall storable_field fs -> stream (record_bytes fs ++ rest) 0 fs.
Proof. intros F. by exists [], rest. Qed.

Lemma stream_start_exact fs : Forall storable_field fs -> stream (record_bytes fs) 0 fs.
Proof. intros F. rewrite <- (app_nil_r (record_bytes fs)). by apply stream_start. Qed.

Lemma stream_step a off f fs : stream a off (f :: fs) ->
  (exists tail, slice_from a off = Ok tail /\ serial_len tail = Ok (zlen (field_bytes f))) /\
  slice a off (off + zlen (field_bytes f)) = Ok (field_bytes f) /\
  (exists b, idx a off = Ok b /\ negb (b =? 0) = present f) /\ stream a (off + zlen (field_bytes f)) fs.
Proof.
  intros (pre & rest & -> & -> & F). apply Forall_cons in F as (Ff & F). rewrite record_bytes_cons, <- (assoc_L app).
  split_and!.
  - exists (field_bytes f ++ record_bytes fs ++ rest). split; [apply slice_from_app|by apply serial_len_field].
  - apply slice_app.
  - assert (exists b l, field_bytes f = b :: l /\ negb (b =? 0) = present f) as (b & l & -> & E).
    { destruct f as [v|]; [|by exists 0, []]. destruct (append_value_head v Ff) as (b & l & H & N). exists b, l.
      split; [exact H|]. simpl. by rewrite (proj2 (Z.eqb_neq _ _)). }
    exists b. split; [|done]. unfold zlen. apply idx_lookup. rewrite <- app_comm_cons. by apply list_lookup_middle.
  - exists (pre ++ field_bytes f), rest. by rewrite zlen_app, <- (assoc_L app).
Qed.

(** The field of the second record when present, else of the first. *)
Definition pick (two one : option Value) : option Value := if present two then two else one.

Lemma idx_field_bytes f : storable_field f -> exists b, idx (field_bytes f) 0 = Ok b /\ negb (b =? 0) = present f.
Proof.
  intros S. destruct (stream_step (record_bytes [f]) 0 f []) as (_ & _ & (b & E & P) & _); [apply stream_start_exact; by constructor|].
  exists b. split; [|done]. unfold record_bytes in E. simpl in E. by rewrite app_nil_r in E.
Qed.

Definition stream2 (two : option bytes) (off : Z) (fs : list (option Value)) : Prop :=
  match two with Some a => stream a off fs | None => Forall (fun f => f = None) fs end.

Lemma merge_value_spec one co f fs two ct g gs : stream one co (f :: fs) -> stream2 two ct (g :: gs) ->
  exists co' ct', merge_value one co two ct = Ok (field_bytes (pick g f), co', ct') /\ stream one co' fs /\ stream2 two ct' gs.
Proof.
  intros S T. destruct (stream_step _ _ _ _ S) as ((t1 & E1 & L1) & S1 & _ & N1). unfold merge_value. rewrite E1. bind_step. rewrite L1. bind_step. rewrite S1. bind_step.
  destruct two as [two|].
  - destruct (stream_step _ _ _ _ T) as ((t2 & E2 & L2) & S2 & _ & N2). rewrite E2. bind_step. rewrite L2. bind_step. rewrite S2. bind_step.
    destruct (idx_field_bytes g) as (b & Eb & P); [destruct T as (pre & rest & _ & _ & F); by apply Forall_cons in F as (? & _)|].
    rewrite Eb. bind_step. rewrite P. eexists _, _. split; [|done]. unfold pick. by destruct (present g).
  - simpl in T. apply Forall_cons in T as (-> & T). eexists _, ct. done.
Qed.

(** ** Merging two records *)

Lemma merge_record_spec l r : length l = length r -> forall a b lo ro, stream a lo l -> stream b ro r ->
  merge_record a b (length l) lo ro = Ok (record_bytes (zip_with (fun f g => pick g f) l r)).
Proof.
  revert r. induction l as [|f l IH]; intros [|g r] L a b lo ro S T; simpl in L; try done. cbn [merge_record length].
  destruct (stream_step _ _ _ _ S) as ((t1 & E1 & L1) & S1 & _ & N1). destruct (stream_step _ _ _ _ T) as ((t2 & E2 & L2) & S2 & (x & Ex & P) & N2).
  rewrite E1. bind_step. rewrite L1. bind_step. rewrite E2. bind_step. rewrite L2. bind_step. rewrite Ex. bind_step. rewrite P, S1, S2.
  cbn [zip_with]. rewrite record_bytes_cons. unfold pick at 1. destruct (present g); bind_step; rewrite (IH r) by (done || lia); by bind_step.
Qed.

(** ** Merging two updates *)

(** The merged fields of the columns from [i] on, given the field pairs. *)
Definition merged_old (fl : bytes) (i : Z) (c : option Value * option Value) : option Value :=
  if is_pk fl i || negb (bool_decide (c.1 = c.2)) then c.1 else None.

Definition merged_new (fl : bytes) (i : Z) (c : option Value * option Value) : option Value :=
  if is_pk fl i || bool_decide (c.1 = c.2) then None else c.2.

(** Whether some column outside the key differs. *)
Fixpoint update_required (fl : bytes) (i : Z) (cs : list (option Value * option Value)) : bool :=
  match cs with
  | [] => false
  | c :: cs => (negb (is_pk fl i) && negb (bool_decide (c.1 = c.2))) || update_required fl (i + 1) cs
  end.

Definition picks (twos ones : list (option Value)) : list (option Value) := zip_with pick twos ones.

Lemma storable_pick g f : storable_field g -> storable_field f -> storable_field (pick g f).
Proof. unfold pick. by destruct (present g). Qed.

Lemma field_bytes_eq f g : storable_field f -> storable_field g -> bool_decide (field_bytes f = field_bytes g) = bool_decide (f = g).
Proof. intros S T. apply bool_decide_ext. split; [by apply field_bytes_inj|congruence]. Qed.

Lemma merge_loops_spec fl fo1 : forall fo2 fn1 fn2 old1 old2 new1 new2 i co1 co2 cn1 cn2,
  length fo2 = length fo1 -> length fn1 = length fo1 -> length fn2 = length fo1 ->
  stream old1 co1 fo1 -> stream2 old2 co2 fo2 -> stream new1 cn1 fn1 -> stream2 new2 cn2 fn2 ->
  Forall storable_field fo2 -> Forall storable_field fn2 ->
  merge_old_loop fl old1 old2 new1 new2 (length fo1) i co1 co2 cn1 cn2 =
    Ok (record_bytes (columns (merged_old fl) i (zip (picks fo2 fo1) (picks fn2 fn1))), update_required fl i (zip (picks fo2 fo1) (picks fn2 fn1))) /\
  merge_new_loop fl old1 old2 new1 new2 (length fo1) i co1 co2 cn1 cn2 =
    Ok (record_bytes (columns (merged_new fl) i (zip (picks fo2 fo1) (picks fn2 fn1)))).
Proof.
  induction fo1 as [|o1 fo1 IH]; intros [|o2 fo2] [|n1 fn1] [|n2 fn2] old1 old2 new1 new2 i co1 co2 cn1 cn2 L1 L2 L3 S1 S2 S3 S4 F2 F4; try done.
  cbn [merge_old_loop merge_new_loop length].
  apply Forall_cons in F2 as (Fo2 & F2). apply Forall_cons in F4 as (Fn2 & F4).
  assert (storable_field o1 /\ storable_field n1) as (Fo1 & Fn1).
  { destruct S1 as (? & ? & _ & _ & G1), S3 as (? & ? & _ & _ & G3). apply Forall_cons in G1 as (? & _). by apply Forall_cons in G3 as (? & _). }
  destruct (merge_value_spec _ _ _ _ _ _ _ _ S1 S2) as (co1' & co2' & -> & S1' & S2'). destruct (merge_value_spec _ _ _ _ _ _ _ _ S3 S4) as (cn1' & cn2' & -> & S3' & S4').
  destruct (IH fo2 fn1 fn2 old1 old2 new1 new2 (i + 1) co1' co2' cn1' cn2') as (I1 & I2); try done; try (simpl in *; lia).
  do 4 bind_step. rewrite I1, I2. do 2 bind_step. simpl fst. simpl snd.
  change (zip (picks (o2 :: fo2) (o1 :: fo1)) (picks (n2 :: fn2) (n1 :: fn1))) with ((pick o2 o1, pick n2 n1) :: zip (picks fo2 fo1) (picks fn2 fn1)).
  cbn [columns update_required]. rewrite !record_bytes_cons.
  assert (forall o n, merged_old fl i (o, n) = if is_pk fl i || negb (bool_decide (o = n)) then o else None) as -> by done.
  assert (forall o n, merged_new fl i (o, n) = if is_pk fl i || bool_decide (o = n) then None else n) as -> by done.
  simpl fst. simpl snd. rewrite (field_bytes_eq (pick o2 o1) (pick n2 n1)) by by apply storable_pick.
  destruct (is_pk fl i), (bool_decide (pick o2 o1 = pick n2 n1)); simpl; done.
Qed.

(** ** Keys of records *)

(** The key fields of a record, the columns numbered from [i]. *)
Fixpoint key_fields (fl : bytes) (i : Z) (fs : list (option Value)) : list (option Value) :=
  match fs with
  | [] => []
  | f :: fs => (if is_pk fl i then [f] else []) ++ key_fields fl (i + 1) fs
  end.

Lemma hash_field_spec h v : storable v -> hash_field h (append_value v) = Ok (hash_pk_value h v).
Proof.
  assert (forall ty s, zlen s < 2 ^ 56 ->
    (let* r := read_varint (ty :: append_varint (zlen s) ++ s) 1 in
     let* b := slice (ty :: append_varint (zlen s) ++ s) r.2 (r.2 + r.1) in Ok (hash_blob (hash_append h ty) b)) =
    Ok (hash_blob (hash_append h ty) s)) as V.
  { intros ty s Hs. pose proof (zlen_nonneg s). pose proof (read_varint_at [ty] (zlen s) s ltac:(lia)) as R. change (zlen [ty]) with 1 in R.
    change ([ty] ++ append_varint (zlen s) ++ s) with (ty :: append_varint (zlen s) ++ s) in R. rewrite R. bind_step. simpl fst. simpl snd.
    pose proof (slice_app ([ty] ++ append_varint (zlen s)) s []) as Sl. rewrite app_nil_r, <- (assoc_L app) in Sl.
    simpl app in Sl. rewrite Sl. by bind_step. }
  assert (forall ty w, slice (ty :: be_bytes 8 w) 1 9 = Ok (be_bytes 8 w)) as B.
  { intros ty w. pose proof (slice_app [ty] (be_bytes 8 w) []) as Sl. rewrite app_nil_r, zlen_be_bytes in Sl. exact Sl. }
  intros (W & S). unfold hash_field. destruct v as [|i|r|s|b]; cbn [append_value].
  - done.
  - change (idx (T_INT :: be_bytes 8 (to_unsigned 64 i)) 0) with (Ok T_INT). bind_step. simpl (_ || _). cbv iota. rewrite B. bind_step.
    rewrite be64 by (apply wrap_range; lia). by rewrite to_signed_unsigned.
  - change (idx (T_FLOAT :: be_bytes 8 r) 0) with (Ok T_FLOAT). bind_step. simpl (_ || _). cbv iota. rewrite B. bind_step.
    rewrite be64 by done. simpl. f_equal. unfold hash_i64. rewrite to_unsigned_signed by (done || lia). assert (to_unsigned 64 r = r) as -> by (by apply wrap_small). done.
  - change (idx (T_TEXT :: append_varint (zlen s) ++ s) 0) with (Ok T_TEXT). bind_step. simpl (_ || _). cbv iota. apply V, S.
  - change (idx (T_BLOB :: append_varint (zlen b) ++ b) 0) with (Ok T_BLOB). bind_step. simpl (_ || _). cbv iota. apply V, S.
Qed.

Lemma hash_loop_spec fl record fs : forall i off h k, stream record off fs -> key_fields fl i fs = Some <$> k ->
  hash_loop fl record (length fs) i off h = Ok (fold_left hash_pk_value k h).
Proof.
  induction fs as [|f fs IH]; intros i off h k S K; [by destruct k|]. cbn [hash_loop length].
  destruct (stream_step _ _ _ _ S) as ((t1 & E1 & L1) & S1 & _ & N1). rewrite E1. bind_step. rewrite L1. bind_step. rewrite S1. bind_step.
  simpl in K. destruct (is_pk fl i).
  - destruct k as [|v k]; [done|]. simpl in K. injection K as -> K. simpl field_bytes in *.
    rewrite hash_field_spec by (destruct S as (? & ? & _ & _ & F); by apply Forall_cons in F as (? & _)). bind_step. exact (IH _ _ _ k N1 K).
  - bind_step. exact (IH _ _ _ k N1 K).
Qed.

Lemma pk_equal_loop_spec fl a b fs : forall gs i oa ob k k', length gs = length fs -> stream a oa fs -> stream b ob gs ->
  key_fields fl i fs = Some <$> k -> key_fields fl i gs = Some <$> k' ->
  pk_equal_loop fl a b (length fs) i oa ob = Ok (bool_decide (k = k')).
Proof.
  induction fs as [|f fs IH]; intros [|g gs] i oa ob k k' L S T K K'; try done.
  { destruct k, k'; try done. }
  cbn [pk_equal_loop length].
  assert (storable_field f /\ storable_field g) as (Sf & Sg).
  { destruct S as (? & ? & _ & _ & F), T as (? & ? & _ & _ & G). apply Forall_cons in F as (? & _). by apply Forall_cons in G as (? & _). }
  destruct (stream_step _ _ _ _ S) as ((t1 & E1 & L1) & S1 & _ & N1). destruct (stream_step _ _ _ _ T) as ((t2 & E2 & L2) & S2 & _ & N2).
  rewrite E1. bind_step. rewrite L1. bind_step. rewrite E2. bind_step. rewrite L2. bind_step. rewrite S1. bind_step. rewrite S2. bind_step.
  assert (negb (zlen (field_bytes f) =? zlen (field_bytes g)) || negb (bool_decide (field_bytes f = field_bytes g)) = negb (bool_decide (f = g))) as ->.
  { rewrite field_bytes_eq by done. case_bool_decide; [subst; by rewrite Z.eqb_refl|]. apply orb_true_r. }
  simpl in K, K'. simpl in L. destruct (is_pk fl i); simpl.
  - destruct k as [|v k], k' as [|v' k']; try done. simpl in K, K'. injection K as -> K. injection K' as -> K'.
    rewrite (bool_decide_ext (Some v = Some v') (v = v')) by (split; congruence). case_bool_decide as E; simpl.
    + rewrite (IH gs _ _ _ k k') by (done || lia). f_equal. apply bool_decide_ext. split; congruence.
    + f_equal. symmetry. apply bool_decide_eq_false. congruence.
  - exact (IH gs _ _ _ k k' ltac:(lia) N1 N2 K K').
Qed.

(** ** Changes of a row *)

Definition update_fields_old (fl : bytes) (x y : list Value) : list (option Value) := columns (old_field fl false) 0 (zip x y).
Definition update_fields_new (fl : bytes) (x y : list Value) : list (option Value) := columns (new_field fl false) 0 (zip x y).

(** The change from [x] to [y]: the operation and the record. *)
Definition diff (fl : bytes) (x y : option (list Value)) : option (Z * bytes) :=
  match x, y with
  | None, None => None
  | None, Some row => Some (OP_INSERT, record_bytes (Some <$> row))
  | Some old, None => Some (OP_DELETE, record_bytes (Some <$> old))
  | Some old, Some row =>
      if rows_differ old row then Some (OP_UPDATE, record_bytes (update_fields_old fl old row) ++ record_bytes (update_fields_new fl old row))
      else None
  end.

(** A row with the key [k]. *)
Definition keyed_row (fl : bytes) (k row : list Value) : Prop :=
  zlen row = zlen fl /\ Forall storable row /\ Forall canonical row /\ row_key fl row = k.

Definition keyed_opt (fl : bytes) (k : list Value) (x : option (list Value)) : Prop :=
  match x with Some row => keyed_row fl k row | None => True end.

Lemma key_fields_full fl i row : key_fields fl i (Some <$> row) = Some <$> key_from fl i row.
Proof. revert i. induction row as [|v row IH]; intros i; [done|]. rewrite fmap_cons. cbn [key_fields key_from]. rewrite IH, fmap_app. by destruct (is_pk fl i). Qed.

Lemma key_fields_old fl i x y : length x = length y -> key_fields fl i (columns (old_field fl false) i (zip x y)) = Some <$> key_from fl i x.
Proof.
  revert i y. induction x as [|v x IH]; intros i [|w y] L; try done. change (zip (v :: x) (w :: y)) with ((v, w) :: zip x y).
  cbn [columns key_fields key_from]. rewrite fmap_app, IH by (simpl in L; lia). unfold old_field. simpl.
  destruct (is_pk fl i); [by rewrite orb_true_r|done].
Qed.

(** The first record of a change holds the key. *)
Lemma diff_record fl k x y op rec : keyed_opt fl k x -> keyed_opt fl k y -> diff fl x y = Some (op, rec) ->
  exists fs, zlen fs = zlen fl /\ stream rec 0 fs /\ key_fields fl 0 fs = Some <$> k.
Proof.
  assert (forall row, keyed_row fl k row -> zlen (Some <$> row) = zlen fl /\ stream (record_bytes (Some <$> row)) 0 (Some <$> row) /\
    key_fields fl 0 (Some <$> row) = Some <$> k) as Full.
  { intros row (L & St & _ & K). split_and!; [unfold zlen in *; by rewrite length_fmap|apply stream_start_exact; by apply Forall_fmap|].
    rewrite key_fields_full. by rewrite <- K. }
  intros Kx Ky E. destruct x as [x|], y as [y|]; simpl in E; [|injection E as <- <-; eexists; by apply Full..|done].
  destruct (rows_differ x y); [|done]. injection E as <- <-. destruct Kx as (L & St & _ & K), Ky as (L' & St' & _ & _).
  assert (length x = length y) as Le by (unfold zlen in *; lia).
  exists (update_fields_old fl x y). split_and!.
  - unfold update_fields_old, zlen in *. rewrite length_columns, length_zip_with. lia.
  - apply stream_start. by apply storable_update.
  - unfold update_fields_old. rewrite key_fields_old by done. by rewrite <- K.
Qed.

(** ** The merge rules, column by column *)

Lemma zip_picks_cons a la b lb c lc d ld :
  zip (picks (a :: la) (b :: lb)) (picks (c :: lc) (d :: ld)) = (pick a b, pick c d) :: zip (picks la lb) (picks lc ld).
Proof. done. Qed.

(** Update then update. *)
Lemma merge_columns fl x : forall i y z, Forall canonical x -> Forall canonical y -> Forall canonical z ->
  same_key_from fl i x y -> same_key_from fl i y z ->
  let pairs := zip (picks (columns (old_field fl false) i (zip x y)) (columns (old_field fl false) i (zip y z)))
                   (picks (columns (new_field fl false) i (zip y z)) (columns (new_field fl false) i (zip x y))) in
  columns (merged_old fl) i pairs = columns (old_field fl false) i (zip x z) /\
  columns (merged_new fl) i pairs = columns (new_field fl false) i (zip x z) /\
  update_required fl i pairs = rows_differ x z.
Proof.
  induction x as [|u x IH]; intros i [|v y] [|w z] Cx Cy Cz K1 K2; try done; try (by destruct K1 as (? & _)); try (by destruct K2 as (? & _)).
  apply Forall_cons in Cx as (Cu & Cx), Cy as (Cv & Cy), Cz as (Cw & Cz).
  apply same_key_cons in K1 as (P1 & K1), K2 as (P2 & K2). destruct (IH (i + 1) y z Cx Cy Cz K1 K2) as (I1 & I2 & I3).
  change (zip (u :: x) (v :: y)) with ((u, v) :: zip x y). change (zip (v :: y) (w :: z)) with ((v, w) :: zip y z). change (zip (u :: x) (w :: z)) with ((u, w) :: zip x z).
  cbn [columns]. rewrite zip_picks_cons. cbv zeta in *.
  set (o := pick (old_field fl false i (u, v)) (old_field fl false i (v, w))). set (n := pick (new_field fl false i (v, w)) (new_field fl false i (u, v))).
  cbn [columns update_required fst snd]. rewrite I1, I2, I3.
  assert (rows_differ (u :: x) (w :: z) = negb (value_eq u w) || rows_differ x z) as -> by done.
  assert (merged_old fl i (o, n) = old_field fl false i (u, w) /\ merged_new fl i (o, n) = new_field fl false i (u, w) /\
    negb (is_pk fl i) && negb (bool_decide (o = n)) = negb (value_eq u w)) as (-> & -> & ->); [|done].
  subst o n. unfold merged_old, merged_new, old_field, new_field, pick. simpl. rewrite !value_eq_canonical by done.
  destruct (is_pk fl i) eqn:P; simpl.
  - rewrite <- (P2 eq_refl), <- (P1 eq_refl), orb_true_r, bool_decide_eq_true_2 by done. done.
  - assert (forall a b : Value, bool_decide (Some a = Some b) = bool_decide (a = b)) as Sb by (intros; apply bool_decide_ext; split; congruence).
    destruct (bool_decide (u = v)) eqn:E1, (bool_decide (v = w)) eqn:E2, (bool_decide (u = w)) eqn:E3; simpl; rewrite ?Sb, ?E1, ?E2, ?E3; simpl;
      try done; rewrite ?bool_decide_eq_true, ?bool_decide_eq_false in *; split_and!; congruence.
Qed.

(** Delete then insert. *)
Lemma replace_columns fl x : forall i z, Forall canonical x -> Forall canonical z -> same_key_from fl i x z ->
  columns (merged_old fl) i (zip (Some <$> x) (Some <$> z)) = columns (old_field fl false) i (zip x z) /\
  columns (merged_new fl) i (zip (Some <$> x) (Some <$> z)) = columns (new_field fl false) i (zip x z) /\
  update_required fl i (zip (Some <$> x) (Some <$> z)) = rows_differ x z.
Proof.
  induction x as [|u x IH]; intros i [|w z] Cx Cz K; try done.
  apply Forall_cons in Cx as (Cu & Cx), Cz as (Cw & Cz). apply same_key_cons in K as (P & K). destruct (IH (i + 1) z Cx Cz K) as (I1 & I2 & I3).
  rewrite !fmap_cons. change (zip (Some u :: (Some <$> x)) (Some w :: (Some <$> z))) with ((Some u, Some w) :: zip (Some <$> x) (Some <$> z)).
  change (zip (u :: x) (w :: z)) with ((u, w) :: zip x z). cbn [columns update_required]. rewrite I1, I2, I3.
  assert (rows_differ (u :: x) (w :: z) = negb (value_eq u w) || rows_differ x z) as -> by done.
  assert (merged_old fl i (Some u, Some w) = old_field fl false i (u, w) /\ merged_new fl i (Some u, Some w) = new_field fl false i (u, w) /\
    negb (is_pk fl i) && negb (bool_decide (Some u = Some w)) = negb (value_eq u w)) as (-> & -> & E); [|cbn [fst snd]; by rewrite E].
  unfold merged_old, merged_new, old_field, new_field. simpl. rewrite !value_eq_canonical by done.
  rewrite (bool_decide_ext (Some u = Some w) (u = w)) by (split; congruence).
  destruct (is_pk fl i) eqn:E; simpl.
  - rewrite (P eq_refl), bool_decide_eq_true_2, orb_true_r by done. done.
  - rewrite !orb_false_r. by destruct (bool_decide (u = w)).
Qed.

(** Insert then update, and update then delete: the full row and the partial
    record give a full row. *)
Lemma pick_columns fl x : forall i y, Forall canonical x -> Forall canonical y -> same_key_from fl i x y ->
  zip_with (fun f g => pick g f) (Some <$> x) (columns (new_field fl false) i (zip x y)) = Some <$> y /\
  zip_with (fun f g => pick g f) (Some <$> y) (columns (old_field fl false) i (zip x y)) = Some <$> x.
Proof.
  induction x as [|u x IH]; intros i [|w y] Cx Cy K; try done; try (by destruct K).
  apply Forall_cons in Cx as (Cu & Cx), Cy as (Cw & Cy). apply same_key_cons in K as (P & K). destruct (IH (i + 1) y Cx Cy K) as (I1 & I2).
  rewrite !fmap_cons. change (zip (u :: x) (w :: y)) with ((u, w) :: zip x y). cbn [columns zip_with]. rewrite I1, I2.
  assert (pick (new_field fl false i (u, w)) (Some u) = Some w /\ pick (old_field fl false i (u, w)) (Some w) = Some u) as (-> & ->); [|done].
  unfold new_field, old_field, pick. simpl. rewrite !value_eq_canonical by done.
  destruct (is_pk fl i) eqn:E; simpl.
  - rewrite (P eq_refl), bool_decide_eq_true_2 by done. done.
  - case_bool_decide; simpl; [subst; done|done].
Qed.

(** ** Merging two changes of a row *)

Section merge.
Context (t : ConcatTable) (k : list Value).
Notation fl := (ct_pk_flags t).
Context (Hn : ct_ncol t = zlen fl).

Lemma keyed_same x y : keyed_row fl k x -> keyed_row fl k y -> length x = length y /\ same_key_from fl 0 x y.
Proof using Type.
  intros (L & _ & _ & K) (L' & _ & _ & K'). assert (length x = length y) as E by (unfold zlen in *; lia). split; [done|]. split; [done|].
  intros n P. apply (key_agree_inv fl 0); [done|unfold row_key in *; congruence|done].
Qed.

Lemma keyed_lengths x y : keyed_row fl k x -> keyed_row fl k y ->
  length x = Z.to_nat (ct_ncol t) /\ zlen (update_fields_old fl x y) = ct_ncol t /\ zlen (update_fields_new fl x y) = ct_ncol t /\
  Forall storable_field (update_fields_old fl x y) /\ Forall storable_field (update_fields_new fl x y).
Proof using Hn.
  intros (L & St & _) (L' & St' & _). unfold update_fields_old, update_fields_new. unfold zlen in *.
  rewrite !length_columns, length_zip_with. split_and!; try lia; by apply storable_update.
Qed.

(** The full record of a row. *)
Lemma full_stream x : keyed_row fl k x -> stream (record_bytes (Some <$> x)) 0 (Some <$> x) /\ length (Some <$> x) = Z.to_nat (ct_ncol t).
Proof using Hn.
  intros (L & St & _). split; [apply stream_start_exact; by apply Forall_fmap|]. rewrite length_fmap. unfold zlen in *. lia.
Qed.

(** The halves of an update. *)
Lemma split_update x y : keyed_row fl k x -> keyed_row fl k y ->
  let rec := record_bytes (update_fields_old fl x y) ++ record_bytes (update_fields_new fl x y) in
  exists fs, split_record rec (ct_ncol t) = Ok (fs, zlen (record_bytes (update_fields_old fl x y))) /\
    slice rec 0 (zlen (record_bytes (update_fields_old fl x y))) = Ok (record_bytes (update_fields_old fl x y)) /\
    slice_from rec (zlen (record_bytes (update_fields_old fl x y))) = Ok (record_bytes (update_fields_new fl x y)).
Proof using Hn.
  intros Kx Ky. destruct (keyed_lengths x y Kx Ky) as (_ & Lo & _ & So & _). simpl. eexists. split_and!.
  - by apply split_record_spec.
  - pose proof (slice_app [] (record_bytes (update_fields_old fl x y)) (record_bytes (update_fields_new fl x y))) as S. exact S.
  - apply slice_from_app.
Qed.

Lemma none_stream2 (n : nat) ct : stream2 None ct (replicate n None) /\ Forall storable_field (replicate n None).
Proof. split; apply Forall_replicate; done. Qed.

Lemma picks_none (n : nat) (l : list (option Value)) : length l = n -> picks (replicate n None) l = l.
Proof. intros <-. induction l as [|f l IH]; [done|]. unfold picks in *. simpl. by rewrite IH. Qed.

(** Insert, then update. *)
Lemma merge_insert_update y z i1 i2 : keyed_row fl k y -> keyed_row fl k z ->
  merge t (Some (mkConcat OP_INSERT i1 (record_bytes (Some <$> y)))) OP_UPDATE i2 (record_bytes (update_fields_old fl y z) ++ record_bytes (update_fields_new fl y z)) =
  Ok (Some (mkConcat OP_INSERT (bool_byte (negb (i2 =? 0) && negb (i1 =? 0))) (record_bytes (Some <$> z)))).
Proof using Hn.
  intros Ky Kz. unfold merge. simpl orb. cbn [cc_op cc_indirect cc_record andb orb]. simpl (_ || _). cbv iota. simpl (_ && _). cbv iota. simpl (_ =? _). cbv iota.
  destruct (split_update y z Ky Kz) as (fs & E1 & _ & E2). rewrite E1. bind_step. simpl snd. rewrite E2. bind_step.
  destruct (full_stream y Ky) as (S & L). destruct (keyed_lengths y z Ky Kz) as (_ & _ & Ln & _ & Sn). destruct (keyed_same y z Ky Kz) as (Le & Sk).
  rewrite <- L. rewrite (merge_record_spec _ (update_fields_new fl y z)); [|unfold zlen in *; rewrite L; lia|done|by apply stream_start_exact]. bind_step.
  unfold update_fields_new. destruct (pick_columns fl y 0 z) as (-> & _); [apply Ky|apply Kz|done|]. done.
Qed.

(** Update, then delete. *)
Lemma merge_update_delete x y i1 i2 : keyed_row fl k x -> keyed_row fl k y ->
  merge t (Some (mkConcat OP_UPDATE i1 (record_bytes (update_fields_old fl x y) ++ record_bytes (update_fields_new fl x y)))) OP_DELETE i2 (record_bytes (Some <$> y)) =
  Ok (Some (mkConcat OP_DELETE (bool_byte (negb (i2 =? 0) && negb (i1 =? 0))) (record_bytes (Some <$> x)))).
Proof using Hn.
  intros Kx Ky. unfold merge. cbn [cc_op cc_indirect cc_record]. simpl (_ || _). cbv iota. simpl (_ && _). cbv iota. simpl (_ =? _). cbv iota.
  destruct (split_update x y Kx Ky) as (fs & E1 & E2 & _). rewrite E1. bind_step. simpl snd. rewrite E2. bind_step.
  destruct (full_stream y Ky) as (S & L). destruct (keyed_lengths x y Kx Ky) as (_ & Lo & _ & So & _). destruct (keyed_same x y Kx Ky) as (Le & Sk).
  rewrite <- L. rewrite (merge_record_spec _ (update_fields_old fl x y)); [|unfold zlen in *; rewrite L; lia|done|by apply stream_start_exact]. bind_step.
  unfold update_fields_old. destruct (pick_columns fl x 0 y) as (_ & ->); [apply Kx|apply Ky|done|]. done.
Qed.

(** Delete, then insert. *)
Lemma merge_delete_insert x z i1 i2 : keyed_row fl k x -> keyed_row fl k z ->
  merge t (Some (mkConcat OP_DELETE i1 (record_bytes (Some <$> x)))) OP_INSERT i2 (record_bytes (Some <$> z)) =
  Ok (match diff fl (Some x) (Some z) with
      | Some (op, rec) => Some (mkConcat op (bool_byte (negb (i2 =? 0) && negb (i1 =? 0))) rec)
      | None => None
      end).
Proof using Hn.
  intros Kx Kz. unfold merge. cbn [cc_op cc_indirect cc_record]. simpl (_ || _). cbv iota. simpl (_ && _). cbv iota. simpl (_ =? _). cbv iota.
  destruct (full_stream x Kx) as (S & L). destruct (full_stream z Kz) as (T & M). destruct (keyed_same x z Kx Kz) as (Le & Sk).
  set (n := Z.to_nat (ct_ncol t)) in *. destruct (none_stream2 n 0) as (N1 & N2).
  destruct (merge_loops_spec fl (Some <$> x) (replicate n None) (Some <$> z) (replicate n None)
    (record_bytes (Some <$> x)) None (record_bytes (Some <$> z)) None 0 0 0 0 0) as (E1 & E2); try done;
    try (rewrite length_replicate; congruence); [congruence|].
  rewrite !picks_none in E1, E2 by done. unfold merge_update. fold n. rewrite L in E1, E2. rewrite E1. bind_step. simpl snd.
  destruct (replace_columns fl x 0 z) as (R1 & R2 & ->); [apply Kx|apply Kz|done|]. simpl diff.
  destruct (rows_differ x z); simpl negb; cbv iota; [|by bind_step]. rewrite E2. bind_step. bind_step. simpl fst. by rewrite R1, R2.
Qed.

(** Update, then update. *)
Lemma merge_update_update x y z i1 i2 : keyed_row fl k x -> keyed_row fl k y -> keyed_row fl k z ->
  merge t (Some (mkConcat OP_UPDATE i1 (record_bytes (update_fields_old fl x y) ++ record_bytes (update_fields_new fl x y)))) OP_UPDATE i2
    (record_bytes (update_fields_old fl y z) ++ record_bytes (update_fields_new fl y z)) =
  Ok (match diff fl (Some x) (Some z) with
      | Some (op, rec) => Some (mkConcat op (bool_byte (negb (i2 =? 0) && negb (i1 =? 0))) rec)
      | None => None
      end).
Proof using Hn.
  intros Kx Ky Kz. unfold merge. cbn [cc_op cc_indirect cc_record]. simpl (_ || _). cbv iota. simpl (_ && _). cbv iota. simpl (_ =? _). cbv iota.
  destruct (split_update x y Kx Ky) as (fs & E1 & E2 & E3). rewrite E1. bind_step. simpl snd. rewrite E2. bind_step. rewrite E3. bind_step.
  destruct (split_update y z Ky Kz) as (gs & F1 & F2 & F3). rewrite F1. bind_step. simpl snd. rewrite F2. bind_step. rewrite F3. bind_step.
  destruct (keyed_lengths x y Kx Ky) as (Lx & Lo1 & Ln1 & So1 & Sn1). destruct (keyed_lengths y z Ky Kz) as (_ & Lo2 & Ln2 & So2 & Sn2).
  destruct (keyed_same x y Kx Ky) as (_ & K1). destruct (keyed_same y z Ky Kz) as (_ & K2).
  unfold zlen in Lo1, Ln1, Lo2, Ln2.
  destruct (merge_loops_spec fl (update_fields_old fl y z) (update_fields_old fl x y) (update_fields_new fl x y) (update_fields_new fl y z)
    (record_bytes (update_fields_old fl y z)) (Some (record_bytes (update_fields_old fl x y)))
    (record_bytes (update_fields_new fl x y)) (Some (record_bytes (update_fields_new fl y z))) 0 0 0 0 0) as (M1 & M2);
    try lia; try done; try (by apply stream_start_exact).
  unfold merge_update. replace (Z.to_nat (ct_ncol t)) with (length (update_fields_old fl y z)) by lia. rewrite M1. bind_step. simpl snd.
  unfold update_fields_old, update_fields_new.
  destruct (merge_columns fl x 0 y z) as (R1 & R2 & R3); [apply Kx|apply Ky|apply Kz|done..|]. cbv zeta in R1, R2, R3. rewrite R3. simpl diff.
  destruct (rows_differ x z); simpl negb; cbv iota; [|by bind_step].
  unfold update_fields_old, update_fields_new in M2. rewrite M2. bind_step. bind_step. simpl fst. by rewrite R1, R2.
Qed.

(** The merge of two consecutive changes. *)
Lemma merge_diff x y z op1 i1 rec1 op2 i2 rec2 : keyed_opt fl k x -> keyed_opt fl k y -> keyed_opt fl k z ->
  diff fl x y = Some (op1, rec1) -> diff fl y z = Some (op2, rec2) ->
  merge t (Some (mkConcat op1 i1 rec1)) op2 i2 rec2 =
  Ok (match diff fl x z with
      | Some (op, rec) => Some (mkConcat op (bool_byte (negb (i2 =? 0) && negb (i1 =? 0))) rec)
      | None => None
      end).
Proof using Hn.
  intros Kx Ky Kz E1 E2. destruct x as [x|], y as [y|]; simpl in E1; try done.
  - destruct (rows_differ x y); [|done]. injection E1 as <- <-. destruct z as [z|]; simpl in E2.
    + destruct (rows_differ y z); [|done]. injection E2 as <- <-. by apply merge_update_update.
    + injection E2 as <- <-. by apply merge_update_delete.
  - injection E1 as <- <-. destruct z as [z|]; simpl in E2; [|done]. injection E2 as <- <-. by apply merge_delete_insert.
  - injection E1 as <- <-. destruct z as [z|]; simpl in E2.
    + destruct (rows_differ y z); [|done]. injection E2 as <- <-. by apply merge_insert_update.
    + injection E2 as <- <-. done.
Qed.

End merge.

End ChangesetMerge.
