(* ===== verification/ChangesetConcat.v ===== *)
(** Concatenating changesets composes them. The tables of [concat] hold, for
    every row touched, the change from its original to its current value
    ([ent]); adding a change merges it in ([concat_add_spec]); so after two
    blobs they hold the changes from the first database to the last, and the
    blob written is, byte for byte, one a session going there directly writes. *)

From S2P Require Import Prelude Varint Value Session SessionRead SessionProps SessionApply SessionStore SessionStep SessionNet.
From S2P Require Import Changeset ChangesetInvert ChangesetMerge.
From stdpp Require Import gmap.
Import Varint Value Session SessionRead SessionProps SessionApply SessionStore SessionStep SessionNet.
Import Changeset ChangesetFields ChangesetInvert ChangesetMerge.
Local Open Scope Z_scope.

Module ChangesetConcat.

(** ** Related hash tables *)

Section related.
Context {A B : Type} (R : A -> B -> Prop).

Lemma prepend_rel bs bs' i c e bs1 : Forall2 (Forall2 R) bs bs' -> R c e -> prepend bs i c = Ok bs1 ->
  exists bs1', prepend bs' i e = Ok bs1' /\ Forall2 (Forall2 R) bs1 bs1'.
Proof.
  intros F Rc E. unfold prepend in *. destruct (idx bs i) as [b| |] eqn:Eb; try done. cbn [res_bind] in E.
  apply idx_Ok in Eb as (Hi & Eb). destruct (Forall2_lookup_l _ _ _ _ _ F Eb) as (b' & Eb' & Fb).
  unfold set_idx in E. destruct ((0 <=? i) && (i <? zlen bs)) eqn:G; [|done]. injection E as <-.
  assert (idx bs' i = Ok b') as -> by (apply idx_Ok; done). bind_step. unfold set_idx.
  replace (zlen bs') with (zlen bs) by (unfold zlen; by rewrite (Forall2_length _ _ _ F)). rewrite G. eexists. split; [done|].
  apply Forall2_insert; [done|]. by constructor.
Qed.

Context (h : A -> res Z) (h' : B -> res Z) (Hh : forall c e, R c e -> h' e = h c).

Lemma rehash_chain_rel l l' nb nb' nb1 : Forall2 R l l' -> Forall2 (Forall2 R) nb nb' -> rehash_chain h l nb = Ok nb1 ->
  exists nb1', rehash_chain h' l' nb' = Ok nb1' /\ Forall2 (Forall2 R) nb1 nb1'.
Proof using Hh.
  intros F. revert nb nb' nb1. induction F as [|c e l l' Rc _ IH]; intros nb nb' nb1 G E.
  - injection E as <-. by exists nb'.
  - simpl in E |- *. rewrite (Hh c e Rc). destruct (h c) as [i| |]; try done. cbn [res_bind] in E |- *.
    destruct (prepend nb i c) as [nb2| |] eqn:E2; try done. destruct (prepend_rel _ _ _ _ _ _ G Rc E2) as (nb2' & -> & G2).
    cbn [res_bind] in E |- *. by eapply IH.
Qed.

Lemma rehash_rel bs bs' nb nb' nb1 : Forall2 (Forall2 R) bs bs' -> Forall2 (Forall2 R) nb nb' -> rehash h bs nb = Ok nb1 ->
  exists nb1', rehash h' bs' nb' = Ok nb1' /\ Forall2 (Forall2 R) nb1 nb1'.
Proof using Hh.
  intros F. revert nb nb' nb1. induction F as [|b b' bs bs' Rb _ IH]; intros nb nb' nb1 G E.
  - injection E as <-. by exists nb'.
  - simpl in E |- *. destruct (rehash_chain h b nb) as [nb2| |] eqn:E2; try done.
    destruct (rehash_chain_rel _ _ _ _ _ Rb G E2) as (nb2' & -> & G2). cbn [res_bind] in E |- *. by eapply IH.
Qed.

Lemma empty_rel n : Forall2 (Forall2 R) (zrep n []) (zrep n []).
Proof. apply Forall2_replicate. constructor. Qed.

Lemma concat_rel bs bs' : Forall2 (Forall2 R) bs bs' -> Forall2 R (concat bs) (concat bs').
Proof. induction 1; [constructor|]. by apply Forall2_app. Qed.
End related.

(** ** One table *)

Section table.
Context (schema : bytes -> option TableMeta) (WS : wf_schema schema) (base : rows_of).

(** The entry of the row [c_pk c]: the change from its original value. *)
Definition ent (fl : bytes) (cur : rows_of) (c : Change) (e : ConcatChange) : Prop :=
  diff fl (base !! c_pk c) (cur !! c_pk c) = Some (cc_op e, cc_record e) /\ cc_indirect e = bool_byte (c_indirect c).

(** A table of [concat] and the recorder's table that writes the same bytes. *)
Record concat_ok (cur : rows_of) (bound : Z) (ct : ConcatTable) (tc : TableChanges) : Prop := {
  co_shape : ct_ncol ct = t_ncol tc /\ ct_pk_flags ct = t_pk_flags tc /\ ct_name ct = t_name tc /\
    ct_hdr ct = table_header 84 (t_ncol tc) (t_pk_flags tc) (t_name tc) /\ ct_nentry ct = t_nentry tc;
  co_width : t_ncol tc = zlen (t_pk_flags tc);
  co_carries : table_carries schema base cur tc;
  co_buckets : Forall2 (Forall2 (ent (t_pk_flags tc) cur)) (t_buckets tc) (ct_buckets ct);
  co_size : zlen (t_buckets tc) = 0 \/ 256 <= zlen (t_buckets tc) <= Z.max 256 (4 * bound + 2);
  co_placed : placed (change_hash (zlen (t_buckets tc))) (t_buckets tc);
  co_bound : t_nentry tc <= bound }.

Lemma concat_ok_mono cur b b' ct tc : concat_ok cur b ct tc -> b <= b' -> concat_ok cur b' ct tc.
Proof using Type.
  intros [A1 A2 A3 A4 A5 A6 A7] L. constructor; [exact A1|exact A2|exact A3|exact A4| |exact A6|lia]. destruct A5; [by left|right; lia].
Qed.

(** All rows of the table at hand are keyed rows. *)
Definition keyed_table (fl : bytes) (m : rows_of) : Prop := forall k, keyed_opt fl k (m !! k).

Context (fl : bytes) (Kbase : keyed_table fl base).

Lemma ent_record cur ct c e n : keyed_table fl cur -> ct_pk_flags ct = fl -> ct_ncol ct = zlen fl -> ent fl cur c e ->
  record_hash ct (cc_record e) n = change_hash n c.
Proof using Kbase.
  intros Kc Hf Hn (E & _). destruct (diff_record fl (c_pk c) _ _ _ _ (Kbase _) (Kc _) E) as (fs & L & S & K).
  unfold record_hash, change_hash, hash_pk. rewrite Hf, Hn. replace (Z.to_nat (zlen fl)) with (length fs) by (unfold zlen in *; lia).
  rewrite (hash_loop_spec fl (cc_record e) fs 0 0 0 (c_pk c) S K). by bind_step.
Qed.

Lemma take_existing_spec cur ct k y z op rec l l' : keyed_table fl cur -> ct_pk_flags ct = fl -> ct_ncol ct = zlen fl ->
  keyed_opt fl k y -> keyed_opt fl k z -> diff fl y z = Some (op, rec) -> Forall2 (ent fl cur) l l' ->
  (k ∉ c_pk <$> l /\ take_existing ct rec l' = Ok None) \/
  exists l1 c l2 e r, l = l1 ++ c :: l2 /\ c_pk c = k /\ ent fl cur c e /\ Forall2 (ent fl cur) (l1 ++ l2) r /\ take_existing ct rec l' = Ok (Some (e, r)).
Proof using Kbase.
  intros Kc Hf Hn Ky Kz Ed. destruct (diff_record fl k _ _ _ _ Ky Kz Ed) as (gs & Lg & Sg & Kg).
  induction 1 as [|c e l l' Hce F IH]; [left; split; [by apply not_elem_of_nil|done]|].
  destruct (diff_record fl (c_pk c) _ _ _ _ (Kbase _) (Kc _) (proj1 Hce)) as (fs & L & S & K).
  assert (pk_equal ct (cc_record e) rec = Ok (bool_decide (c_pk c = k))) as P.
  { unfold pk_equal. rewrite Hf, Hn. replace (Z.to_nat (zlen fl)) with (length fs) by (unfold zlen in *; lia).
    apply (pk_equal_loop_spec fl _ _ fs gs); [unfold zlen in *; lia|done..]. }
  simpl. rewrite P. bind_step. case_bool_decide as E.
  - right. by exists [], c, l, e, l'.
  - destruct IH as [(N & ->)|(l1 & c' & l2 & e' & r & -> & Hk & He & Fr & ->)]; bind_step.
    + left. split; [|done]. simpl. rewrite not_elem_of_cons. split; [congruence|done].
    + right. exists (c :: l1), c', l2, e', (e :: r). split_and!; try done. by constructor.
Qed.

Lemma ent_agree cur cur' l l' : Forall2 (ent fl cur) l l' -> (forall c, c ∈ l -> cur' !! c_pk c = cur !! c_pk c) -> Forall2 (ent fl cur') l l'.
Proof using Type.
  induction 1 as [|c e l l' (E & I) F IH]; intros H; constructor.
  - split; [|done]. rewrite H by left. exact E.
  - apply IH. intros c' Hc'. apply H. by right.
Qed.

Lemma ents_agree cur cur' bs bs' : Forall2 (Forall2 (ent fl cur)) bs bs' -> (forall c, c ∈ concat bs -> cur' !! c_pk c = cur !! c_pk c) ->
  Forall2 (Forall2 (ent fl cur')) bs bs'.
Proof using Type.
  induction 1 as [|b b' bs bs' F1 F IH]; intros H; constructor.
  - eapply ent_agree; [exact F1|]. intros c Hc. apply H. simpl. apply elem_of_app. by left.
  - apply IH. intros c Hc. apply H. simpl. apply elem_of_app. by right.
Qed.

(** No change is no difference. *)
Lemma diff_none k x y : keyed_opt fl k x -> keyed_opt fl k y -> diff fl x y = None -> x = y.
Proof using Type.
  destruct x as [x|], y as [y|]; simpl; try done. intros (L & _ & C & _) (L' & _ & C' & _) E.
  destruct (rows_differ x y) eqn:D; [done|]. f_equal. apply rows_same; [congruence|done..].
Qed.

(** The rows with the row [k] set to [z]. *)
Definition upd (cur : rows_of) (k : list Value) (z : option (list Value)) : rows_of := partial_alter (fun _ => z) k cur.

Lemma upd_eq cur k z : upd cur k z !! k = z.
Proof using Type. apply lookup_partial_alter_eq. Qed.

Lemma upd_ne cur k z k' : k' <> k -> upd cur k z !! k' = cur !! k'.
Proof using Type. intros. by apply lookup_partial_alter_ne. Qed.

Lemma upd_upd cur k z z' : upd (upd cur k z) k z' = upd cur k z'.
Proof using Type.
  apply map_eq. intros k'. destruct (decide (k' = k)) as [ -> |N]; [by rewrite !upd_eq|]. by rewrite !upd_ne.
Qed.

Lemma upd_same cur k : upd cur k (cur !! k) = cur.
Proof using Type. apply map_eq. intros k'. destruct (decide (k' = k)) as [ -> |N]; [by rewrite upd_eq|by rewrite upd_ne]. Qed.

Lemma keyed_upd cur k z : keyed_table fl cur -> keyed_opt fl k z -> keyed_table fl (upd cur k z).
Proof using Type. intros K Kz k'. destruct (decide (k' = k)) as [ -> |N]; [by rewrite upd_eq|]. rewrite upd_ne by done. apply K. Qed.

(** The same table with other buckets. *)
Definition rebucket (tc : TableChanges) (bs : list (list Change)) (n : Z) : TableChanges :=
  mkTable (t_name tc) (t_ncol tc) (t_pk_flags tc) bs n.

Definition with_hash_room (bs : list (list Change)) : Prop := 256 <= zlen bs < 2 ^ 32.

Lemma concat_grow_spec cur bound ct tc : keyed_table fl cur -> t_pk_flags tc = fl -> 0 <= bound < 2 ^ 29 -> concat_ok cur bound ct tc ->
  exists ct' bs, concat_maybe_grow ct = Ok ct' /\ concat_ok cur bound ct' (rebucket tc bs (t_nentry tc)) /\ with_hash_room bs.
Proof using Kbase.
  intros Kc Hf B [(S1 & S2 & S3 & S4 & S5) W C Rb Sz P Bd]. unfold concat_maybe_grow.
  assert (zlen (ct_buckets ct) = zlen (t_buckets tc)) as -> by (unfold zlen; by rewrite (Forall2_length _ _ _ Rb)).
  rewrite S5. set (n := zlen (t_buckets tc)) in *. destruct C as [L Cn Rw K F T].
  destruct ((n =? 0) || (n / 2 <=? t_nentry tc)) eqn:G.
  - set (new_n := if n =? 0 then 256 else n * 2).
    assert (256 <= new_n < 2 ^ 32 /\ new_n <= Z.max 256 (4 * bound + 2)) as (N1 & N2).
    { subst new_n. destruct (Z.eqb_spec n 0); [lia|]. simpl in G. apply Z.leb_le in G. euclid n 2. lia. }
    destruct (rehash_fresh (change_hash new_n) (t_buckets tc) new_n) as (nb & E & Ln & Pm & Pl); [lia|apply in_range_hash; lia|].
    destruct (rehash_rel (ent fl cur) (change_hash new_n) (fun c => record_hash ct (cc_record c) new_n)) with (bs := t_buckets tc) (bs' := ct_buckets ct)
      (nb := zrep new_n (@nil Change)) (nb' := zrep new_n (@nil ConcatChange)) (nb1 := nb) as (nb' & E' & R'); try done.
    { intros c e He. apply (ent_record cur); [done|congruence..|done]. }
    { by rewrite <- Hf. }
    { apply empty_rel. }
    rewrite E'. bind_step. eexists _, nb. split; [done|]. split; [|unfold with_hash_room; lia].
    constructor; simpl; try done; [|rewrite Hf; exact R'|rewrite Ln; lia|by rewrite Ln].
    constructor; unfold entries; simpl; try done; try (rewrite Pm; done).
    + rewrite Cn. unfold zlen, entries. by rewrite Pm.
    + intros k Hk. apply T. unfold entries. by rewrite <- Pm.
  - apply orb_false_iff in G as (G0 & G). apply Z.eqb_neq in G0. exists ct, (t_buckets tc). split; [done|].
    split; [|unfold with_hash_room; lia]. by destruct tc.
Qed.

(** Taking the entry of the row [k] out: the row is as it was at first. *)
Lemma concat_drop_spec cur bound ct tc (i : nat) l1 c l2 r k : t_pk_flags tc = fl -> concat_ok cur bound ct tc ->
  t_buckets tc !! i = Some (l1 ++ c :: l2) -> c_pk c = k -> Forall2 (ent fl cur) (l1 ++ l2) r ->
  concat_ok (upd cur k (base !! k)) bound (with_buckets ct (<[i := r]> (ct_buckets ct)) (ct_nentry ct - 1))
    (rebucket tc (<[i := l1 ++ l2]> (t_buckets tc)) (t_nentry tc - 1)) /\
  k ∉ c_pk <$> entries (rebucket tc (<[i := l1 ++ l2]> (t_buckets tc)) (t_nentry tc - 1)).
Proof using Type.
  intros Hf [(S1 & S2 & S3 & S4 & S5) W [L Cn Rw K F T] Rb Sz P Bd] Hb Hk Fr.
  destruct (concat_update _ _ _ Hb) as (l & E & E'). fold (entries tc) in E.
  assert (entries tc ≡ₚ c :: l1 ++ l2 ++ l) as Pe by (rewrite E, <- (assoc_L app); simpl; by rewrite <- Permutation_middle).
  assert (concat (<[i := l1 ++ l2]> (t_buckets tc)) ≡ₚ l1 ++ l2 ++ l) as Pn by (rewrite E'; by rewrite <- (assoc_L app)).
  assert (k ∉ c_pk <$> l1 ++ l2 ++ l) as Nk by (rewrite Pe in K; apply NoDup_cons in K as (N & _); by rewrite <- Hk).
  assert (k ∉ c_pk <$> concat (<[i := l1 ++ l2]> (t_buckets tc))) as Nk' by by rewrite Pn.
  split; [|exact Nk'].
  constructor; simpl; try done.
  - split_and!; try done. lia.
  - rewrite Pe in Rw, K, F. apply Forall_cons in Rw as (_ & Rw), F as (_ & F). simpl in K. apply NoDup_cons in K as (_ & K).
    constructor; unfold entries; simpl; try done; try (rewrite Pn; done).
    + rewrite Cn. unfold zlen. rewrite Pn, Pe. simpl. lia.
    + intros k' Hk'. destruct (decide (k' = k)) as [ -> |N]; [by rewrite upd_eq|]. rewrite upd_ne by done. apply T. rewrite Pe. simpl.
      rewrite not_elem_of_cons. split; [congruence|]. by rewrite <- Pn.
  - rewrite Hf in *. apply (ents_agree cur).
    + by apply Forall2_insert.
    + intros c' Hc'. apply upd_ne. intros Ek. apply Nk'. rewrite <- Ek. by apply list_elem_of_fmap_2.
  - by rewrite zlen_insert.
  - rewrite zlen_insert. eapply placed_insert; [done..|]. intros c' Hc'. apply (P i _ c' Hb). apply elem_of_app in Hc' as [H|H]; apply elem_of_app; [by left|right; by right].
  - lia.
Qed.

(** Putting in the change of a row that has none. *)
Lemma concat_put_spec cur bound ct tc (i : nat) k z op rec b : t_pk_flags tc = fl -> concat_ok cur bound ct tc -> keyed_opt fl k z ->
  (i < length (t_buckets tc))%nat -> change_hash (zlen (t_buckets tc)) (mkChange Insert k [] false) = Ok (Z.of_nat i) ->
  k ∉ c_pk <$> entries tc -> diff fl (base !! k) z = Some (op, rec) ->
  exists bs bs', prepend (ct_buckets ct) (Z.of_nat i) (mkConcat op (bool_byte b) rec) = Ok bs' /\
    concat_ok (upd cur k z) (bound + 1) (with_buckets ct bs' (ct_nentry ct + 1)) (rebucket tc bs (t_nentry tc + 1)).
Proof using Kbase.
  intros Hf [(S1 & S2 & S3 & S4 & S5) W [L Cn Rw K F T] Rb Sz P Bd] Kz Hi Hh Nk Ed.
  set (c := mkChange (match base !! k with Some _ => Update | None => Insert end) k (match base !! k with Some row => row | None => zrep (t_ncol tc) Null end) b).
  destruct (prepend_spec (t_buckets tc) i c Hi) as (bs & Ep & Ln & Pm & Pl).
  assert (Forall2 (Forall2 (ent fl (upd cur k z))) (t_buckets tc) (ct_buckets ct)) as Rb'.
  { rewrite Hf in Rb. apply (ents_agree cur); [done|]. intros c' Hc'. apply upd_ne. intros Ek. apply Nk. rewrite <- Ek. by apply list_elem_of_fmap_2. }
  destruct (prepend_rel (ent fl (upd cur k z)) _ _ (Z.of_nat i) c (mkConcat op (bool_byte b) rec) bs Rb') as (bs' & Ep' & Rn); [|exact Ep|].
  { split; [|done]. simpl. by rewrite upd_eq. }
  exists bs, bs'. split; [exact Ep'|].
  constructor; simpl; try done.
  - split_and!; try done. lia.
  - constructor; unfold entries; simpl; try done; try rewrite Pm.
    + rewrite Cn. unfold zlen, entries. rewrite Pm. simpl. lia.
    + constructor; [|done]. simpl. pose proof (Kbase k) as Kb. destruct (base !! k) as [row|].
      * destruct Kb as (Lr & St & _). split; [congruence|done].
      * apply wf_null_row. rewrite W. apply zlen_nonneg.
    + simpl. constructor; [exact Nk|done].
    + constructor; [|done]. unfold entry_ok. simpl. by destruct (base !! k).
    + intros k'. rewrite Pm. simpl. intros (N1 & N2)%not_elem_of_cons. rewrite upd_ne by done. by apply T.
  - by rewrite Hf.
  - unfold zlen in *. rewrite Ln. lia.
  - unfold zlen. rewrite Ln. by apply Pl.
  - lia.
Qed.

(** Adding the change of the row [k] from its current value to [z]. *)
Lemma concat_add_spec cur bound ct tc k z op b rec : keyed_table fl cur -> keyed_opt fl k z -> t_pk_flags tc = fl -> 0 <= bound < 2 ^ 29 -> concat_ok cur bound ct tc ->
  diff fl (cur !! k) z = Some (op, rec) ->
  exists ct' bs n, concat_add ct op (bool_byte b) rec = Ok ct' /\ concat_ok (upd cur k z) (bound + 1) ct' (rebucket tc bs n).
Proof using Kbase.
  intros Kc Kz Hf B Ok0 Ed. unfold concat_add.
  destruct (concat_grow_spec cur bound ct tc Kc Hf B Ok0) as (ct1 & bs & -> & Ok1 & Room). bind_step. clear Ok0 ct.
  rename ct1 into ct. set (tc1 := rebucket tc bs (t_nentry tc)) in *. assert (t_pk_flags tc1 = fl) as Hf1 by done.
  pose proof Ok1 as [(S1 & S2 & S3 & S4 & S5) W [L Cn Rw K F T] Rb Sz P Bd].
  assert (zlen (ct_buckets ct) = zlen bs) as Lb by (unfold zlen; by rewrite <- (Forall2_length _ _ _ Rb)).
  destruct (change_hash_ok (zlen bs) k) as (i & Hi & Hh); [unfold with_hash_room in Room; lia|].
  assert (i < length bs)%nat as Hi' by (unfold zlen in Hi; lia).
  destruct (diff_record fl k _ _ _ _ (Kc k) Kz Ed) as (fs & Lf & Sf & Kf).
  assert (record_hash ct rec (zlen (ct_buckets ct)) = Ok (Z.of_nat i)) as ->.
  { unfold record_hash. rewrite S2, Hf1, S1, W, Hf1, Lb. replace (Z.to_nat (zlen fl)) with (length fs) by (unfold zlen in *; lia).
    rewrite (hash_loop_spec fl rec fs 0 0 0 k Sf Kf). bind_step. exact Hh. }
  bind_step. destruct (lookup_lt_is_Some_2 _ _ Hi') as (l & Hl). destruct (Forall2_lookup_l _ _ _ _ _ Rb Hl) as (l' & Hl' & Fl).
  rewrite (idx_lookup _ _ _ Hl'). bind_step. rewrite Hf1 in Fl.
  destruct (take_existing_spec cur ct k _ z op rec l l' Kc ltac:(congruence) ltac:(congruence) (Kc k) Kz Ed Fl) as [(N & ->)|(l1 & c & l2 & e & r & -> & Hk & He & Fr & ->)];
    bind_step; cbv iota beta.
  - bind_step. assert (k ∉ c_pk <$> entries tc1) as Nk.
    { intros (d & Hd & Hin)%list_elem_of_fmap. unfold entries in Hin.
      apply list_elem_of_In, in_concat in Hin as (b' & Hb' & Hin). apply list_elem_of_In, list_elem_of_lookup in Hb' as (j & Hj).
      apply list_elem_of_In in Hin. pose proof (P j b' d Hj Hin) as Hh'. unfold change_hash in Hh'. rewrite <- Hd in Hh'. simpl in Hh'. rewrite Hh in Hh'.
      apply Ok_inj in Hh'. assert (j = i) as -> by lia. simpl in Hj. rewrite Hj in Hl. injection Hl as ->. apply N. rewrite Hd. by apply list_elem_of_fmap_2. }
    simpl merge. bind_step. rewrite (T k Nk) in Ed.
    destruct (concat_put_spec cur bound ct tc1 i k z op rec b Hf1 Ok1 Kz Hi' Hh Nk Ed) as (bs1 & bs1' & -> & Ok2). bind_step.
    by exists (with_buckets ct bs1' (ct_nentry ct + 1)), bs1, (t_nentry tc1 + 1).
  - rewrite set_bucket by (rewrite <- (Forall2_length _ _ _ Rb); exact Hi'). bind_step. bind_step.
    destruct (concat_drop_spec cur bound ct tc1 i l1 c l2 r k Hf1 Ok1 Hl Hk Fr) as (Ok2 & Nk).
    destruct He as (Ee & Ei). rewrite Hk in Ee. destruct e as [op1 i1 rec1]. simpl in Ee, Ei. subst i1.
    rewrite (merge_diff _ k) with (x := base !! k) (y := cur !! k) (z := z);
      try (simpl; congruence); try (simpl; rewrite S2, Hf1; first [apply Kbase|apply Kc|done]).
    simpl ct_pk_flags. rewrite S2, Hf1. bind_step. destruct (diff fl (base !! k) z) as [(op3, rec3)|] eqn:E3.
    + destruct (concat_put_spec (upd cur k (base !! k)) bound _ (rebucket tc1 (<[i := l1 ++ l2]> (t_buckets tc1)) (t_nentry tc1 - 1)) i k z op3 rec3 (b && c_indirect c) Hf1 Ok2 Kz) as (bs1 & bs1' & Ep & Ok3).
      { simpl. by rewrite length_insert. }
      { simpl t_buckets. rewrite zlen_insert. exact Hh. }
      { exact Nk. }
      { exact E3. }
      assert (forall b1 b2, bool_byte (negb (bool_byte b1 =? 0) && negb (bool_byte b2 =? 0)) = bool_byte (b1 && b2)) as -> by (by intros [|] [|]).
      rewrite Ep. bind_step. rewrite upd_upd in Ok3. eexists _, bs1, _. split; [done|exact Ok3].
    + apply (diff_none k) in E3; [|apply Kbase|done]. subst z. eexists _, _, _. split; [done|].
      apply (concat_ok_mono _ bound); [exact Ok2|lia].
Qed.

End table.

End ChangesetConcat.
