(* ===== verification/ChangesetCompose.v ===== *)
(** The absorb loop of [concat] over the blobs of sessions: after the blob of
    a session the tables hold the changes up to its last database
    ([absorb_tables]), and the bytes written from them are those of a session
    that goes there directly ([changeset_concat_composes]). *)

From S2P Require Import Prelude Varint Value Session SessionRead SessionProps SessionApply SessionStore SessionStep SessionNet.
From S2P Require Import Changeset ChangesetInvert ChangesetMerge ChangesetConcat.
From stdpp Require Import gmap.
Import Varint Value Session SessionRead SessionProps SessionApply SessionStore SessionStep SessionNet.
Import Changeset ChangesetFields ChangesetInvert ChangesetMerge ChangesetConcat.
Local Open Scope Z_scope.

Module ChangesetCompose.

(** ** The loop *)

(** [concat_absorb] in front of [b] turns the tables [ts] with the current
    table [cur] into [ts'] with [cur']. *)
Definition absorbs (b : bytes) (ts : list ConcatTable) (cur : option Z) (ts' : list ConcatTable) (cur' : option Z) : Prop :=
  forall fuel pre rest, (length b + length rest <= fuel)%nat -> exists fuel', (length rest <= fuel')%nat /\
    absorb_loop fuel (pre ++ b ++ rest) (zlen pre) ts cur = absorb_loop fuel' (pre ++ b ++ rest) (zlen (pre ++ b)) ts' cur'.

Lemma absorbs_nil ts cur : absorbs [] ts cur ts cur.
Proof. intros fuel pre rest L. exists fuel. split; [simpl in L; lia|]. by rewrite app_nil_r. Qed.

Lemma absorbs_app b c ts cur ts1 cur1 ts2 cur2 : absorbs b ts cur ts1 cur1 -> absorbs c ts1 cur1 ts2 cur2 -> absorbs (b ++ c) ts cur ts2 cur2.
Proof.
  intros H K fuel pre rest L. destruct (H fuel pre (c ++ rest)) as (f & Lf & E); [rewrite !length_app in *; lia|].
  destruct (K f (pre ++ b) rest) as (f' & Lf' & E'); [rewrite !length_app in *; lia|].
  exists f'. split; [done|]. rewrite <- !(assoc_L app) in *. congruence.
Qed.

(** A header of a new table, or of one seen before. *)
Lemma absorbs_header ncol fl name ts cur : 0 < ncol < 2 ^ 56 -> zlen fl = ncol -> 0 ∉ name ->
  match table_position ts name 0 with
  | None => absorbs (table_header 84 ncol fl name) ts cur (ts ++ [new_concat_table (mkHdr ncol fl name (table_header 84 ncol fl name))]) (Some (zlen ts))
  | Some i => forall t, idx ts i = Ok t -> ct_ncol t = ncol -> ct_pk_flags t = fl -> absorbs (table_header 84 ncol fl name) ts cur ts (Some i)
  end.
Proof.
  intros H L N. assert (forall fuel n, (length (table_header 84 ncol fl name) + n <= fuel)%nat -> exists f, fuel = S f /\ (n <= f)%nat) as Fuel.
  { intros fuel n Lf. destruct fuel as [|fuel]; [simpl in Lf; lia|]. exists fuel. split; [done|]. simpl in Lf. lia. }
  destruct (table_position ts name 0) as [i|] eqn:E; [intros t Ht Hn Hf|];
    intros fuel pre rest Lf; pose proof (read_table_hdr_spec ncol fl name pre rest H L N) as R;
    destruct (Fuel fuel _ Lf) as (f & -> & Lf'); exists f; (split; [done|]);
    set (b := append_varint ncol ++ fl ++ name ++ [0]); change (table_header 84 ncol fl name) with (84 :: b) in *;
    cbn [absorb_loop]; rewrite loop_at, peek_at; bind_step; simpl fst; rewrite Z.eqb_refl, R; bind_step; simpl h_name; rewrite E.
  - rewrite Ht. bind_step. simpl h_ncol. simpl h_pk_flags. rewrite Hn, Hf, Z.eqb_refl, bool_decide_eq_true_2 by done. done.
  - done.
Qed.

(** A change record of the current table. *)
Lemma absorbs_change op ind fs ts (i : nat) t t' : (op = OP_INSERT \/ op = OP_DELETE \/ op = OP_UPDATE) -> Forall storable_field fs ->
  zlen fs = (if op =? OP_UPDATE then ct_ncol t * 2 else ct_ncol t) -> ts !! i = Some t -> concat_add t op ind (record_bytes fs) = Ok t' ->
  absorbs ([op; ind] ++ record_bytes fs) ts (Some (Z.of_nat i)) (<[i := t']> ts) (Some (Z.of_nat i)).
Proof.
  intros Hop F L Ht Ea fuel pre rest Lf. destruct fuel as [|fuel]; [simpl in Lf; lia|]. exists fuel. split; [simpl in Lf; lia|].
  change ([op; ind] ++ record_bytes fs) with (op :: ind :: record_bytes fs) in *. cbn [absorb_loop]. rewrite loop_at, peek_at. bind_step. simpl fst.
  replace (op =? 84) with false by (by destruct Hop as [ -> |[ -> | -> ]]).
  replace ((op =? OP_INSERT) || (op =? OP_DELETE) || (op =? OP_UPDATE)) with true by (by destruct Hop as [ -> |[ -> | -> ]]).
  rewrite (idx_lookup _ _ _ Ht). bind_step.
  rewrite <- !app_comm_cons. destruct (read_two pre op ind (record_bytes fs ++ rest)) as (-> & R2 & R3). bind_step. simpl snd. rewrite R2. bind_step. simpl snd. rewrite R3. bind_step.
  rewrite split_record_spec by done. bind_step. simpl snd.
  pose proof (reads_take (record_bytes fs) _ eq_refl (pre ++ [op; ind]) rest) as R4. rewrite <- !(assoc_L app) in R4. simpl in R4. rewrite R4. bind_step.
  simpl fst. rewrite Ea. bind_step. rewrite set_idx_Ok by (apply lookup_lt_Some in Ht; unfold zlen; lia). bind_step. rewrite Nat2Z.id. done.
Qed.

(** The search for a table. *)
Lemma table_position_from ts name (k : Z) :
  match table_position ts name k with
  | Some i => exists (j : nat) t, i = k + Z.of_nat j /\ ts !! j = Some t /\ ct_name t = name
  | None => name ∉ ct_name <$> ts
  end.
Proof.
  revert k. induction ts as [|t ts IH]; intros k; simpl; [apply not_elem_of_nil|]. case_bool_decide as E.
  - exists 0%nat, t. split_and!; [lia|done..].
  - specialize (IH (k + 1)). destruct (table_position ts name (k + 1)) as [i|].
    + destruct IH as (j & t' & -> & Hj & En). exists (S j), t'. split_and!; [lia|done..].
    + rewrite not_elem_of_cons. split; [congruence|done].
Qed.

(** ** What a session writes for one change *)

Lemma good_keyed schema db t : wf_schema schema -> good_db schema db -> keyed_table (table_flags schema t) (db_rows db t).
Proof.
  intros WS G k. destruct (db_rows db t !! k) as [row|] eqn:E; [|done]. destruct (G t k row E) as (Gr & K).
  split_and!; [by apply good_width|by destruct Gr as (m & ly & _ & _ & _ & St & _)|by eapply good_canonical|done].
Qed.

Lemma diff_fields fl k x y op rec : keyed_opt fl k x -> keyed_opt fl k y -> diff fl x y = Some (op, rec) ->
  exists fs, rec = record_bytes fs /\ Forall storable_field fs /\ zlen fs = (if op =? OP_UPDATE then zlen fl * 2 else zlen fl) /\
    (op = OP_INSERT \/ op = OP_DELETE \/ op = OP_UPDATE).
Proof.
  assert (forall row, keyed_row fl k row -> Forall storable_field (Some <$> row) /\ zlen (Some <$> row) = zlen fl) as Full.
  { intros row (L & St & _). split; [by apply Forall_fmap|]. unfold zlen in *. by rewrite length_fmap. }
  intros Kx Ky E. destruct x as [x|], y as [y|]; simpl in E.
  - destruct (rows_differ x y); [|done]. injection E as <- <-. destruct Kx as (L & St & _), Ky as (L' & St' & _).
    destruct (storable_update fl false 0 x y St St') as (So & Sn). exists (update_fields_old fl x y ++ update_fields_new fl x y).
    split_and!; [unfold record_bytes; by rewrite fmap_app, concat_app|by apply Forall_app| |by right; right].
    unfold update_fields_old, update_fields_new. rewrite zlen_app, !zlen_columns. simpl. unfold zlen in *. rewrite length_zip_with. lia.
  - injection E as <- <-. destruct (Full x Kx). exists (Some <$> x). split_and!; [done..|by right; left].
  - injection E as <- <-. destruct (Full y Ky). exists (Some <$> y). split_and!; [done..|by left].
  - done.
Qed.

Section blob.
Context (schema : bytes -> option TableMeta) (WS : wf_schema schema).

(** The bytes of a change are the difference of its row. *)
Lemma change_diff d1 d2 t c : t_pk_flags t = table_flags schema (t_name t) -> entry_ok (db_rows d1 (t_name t)) c ->
  change_bytes (live d2) t false c =
  (fun r => [r.1; bool_byte (c_indirect c)] ++ r.2) <$> diff (t_pk_flags t) (db_rows d1 (t_name t) !! c_pk c) (db_rows d2 (t_name t) !! c_pk c).
Proof using Type.
  intros Hf Ec.
  assert (forall b row, append_delete row (t_pk_flags t) false b = [OP_DELETE; bool_byte b] ++ record_bytes (Some <$> row)) as Del.
  { intros b row. unfold append_delete. rewrite delete_cols_full. unfold record_bytes. do 4 f_equal. apply (delete_record_full (t_pk_flags t) row). }
  assert (forall b old row, append_update old row (t_pk_flags t) false b =
    (fun r => [r.1; bool_byte b] ++ r.2) <$> diff (t_pk_flags t) (Some old) (Some row)) as Upd.
  { intros b old row. unfold append_update. rewrite update_cols_spec. simpl diff. by destruct (rows_differ old row). }
  unfold change_bytes, live. unfold entry_ok in Ec. destruct (c_op c); rewrite Ec.
  - destruct (db_rows d2 (t_name t) !! c_pk c) as [row|]; [|done]. simpl. by rewrite concat_append_values.
  - destruct (db_rows d2 (t_name t) !! c_pk c) as [row|]; [apply Upd|simpl; by rewrite Del].
  - destruct (db_rows d2 (t_name t) !! c_pk c) as [row|]; [apply Upd|simpl; by rewrite Del].
Qed.

Context (base d1 d2 : keyed_db) (Gbase : good_db schema base) (G1 : good_db schema d1) (G2 : good_db schema d2).

(** The changes of one table, absorbed into its table of [concat]. *)
Lemma absorb_changes t (i : nat) cs : table_carries schema (db_rows d1 (t_name t)) (db_rows d2 (t_name t)) t ->
  (forall c, c ∈ cs -> c ∈ entries t) -> NoDup (c_pk <$> cs) -> forall cts ct tc cur bound,
  cts !! i = Some ct -> t_name tc = t_name t -> t_pk_flags tc = table_flags schema (t_name t) ->
  keyed_table (table_flags schema (t_name t)) cur -> concat_ok schema (db_rows base (t_name t)) cur bound ct tc ->
  0 <= bound -> bound + zlen cs < 2 ^ 29 -> (forall k, k ∈ c_pk <$> cs -> cur !! k = db_rows d1 (t_name t) !! k) ->
  exists ct' bs n cur', absorbs (changes_bytes (live d2) t false cs).1 cts (Some (Z.of_nat i)) (<[i := ct']> cts) (Some (Z.of_nat i)) /\
    concat_ok schema (db_rows base (t_name t)) cur' (bound + zlen cs) ct' (rebucket tc bs n) /\
    (forall k, k ∈ c_pk <$> cs -> cur' !! k = db_rows d2 (t_name t) !! k) /\ (forall k, k ∉ c_pk <$> cs -> cur' !! k = cur !! k).
Proof using WS Gbase G1 G2.
  intros Car. set (fl := table_flags schema (t_name t)). set (r1 := db_rows d1 (t_name t)) in *. set (r2 := db_rows d2 (t_name t)) in *.
  assert (t_pk_flags t = fl) as Hfl.
  { destruct Car as [(m & ly & Hs & Hl & Hn & Hf) _ _ _ _ _]. destruct (table_flags_eq schema _ m ly Hs Hl) as (_ & Ef). by rewrite Hf, <- Ef. }
  pose proof (good_keyed schema base (t_name t) WS Gbase) as Kb. pose proof (good_keyed schema d1 (t_name t) WS G1) as K1.
  pose proof (good_keyed schema d2 (t_name t) WS G2) as K2. fold fl in Kb, K1, K2. fold r1 in K1. fold r2 in K2.
  induction cs as [|c cs IH]; intros Sub ND cts ct tc cur bound Hct Hname Hf Kc Ok B0 B Agree.
  - exists ct, (t_buckets tc), (t_nentry tc), cur. rewrite list_insert_id by done. split_and!; [apply absorbs_nil| | |done].
    + rewrite zlen_nil, Z.add_0_r. by destruct tc.
    + by intros k ?%elem_of_nil.
  - rewrite zlen_cons in B |- *. pose proof (zlen_nonneg cs) as Zc. rewrite fmap_cons in ND, Agree |- *. apply NoDup_cons in ND as (Nc & ND).
    assert (entry_ok r1 c) as Ec.
    { destruct Car as [_ _ _ _ F _]. rewrite Forall_forall in F. apply F, Sub. left. }
    pose proof (change_diff d1 d2 t c Hfl Ec) as Cd. rewrite Hfl in Cd. fold r1 r2 in Cd.
    pose proof (Agree (c_pk c) ltac:(left)) as Ac. cbn [changes_bytes].
    destruct (changes_bytes (live d2) t false cs) as [rest any] eqn:Eb. rewrite Cd.
    destruct (diff fl (r1 !! c_pk c) (r2 !! c_pk c)) as [(op, rec)|] eqn:Ed; cbn [fmap option_fmap option_map fst snd].
    + destruct (diff_fields fl (c_pk c) _ _ op rec (K1 _) (K2 _) Ed) as (fs & -> & Sf & Lf & Hop).
      rewrite <- Ac in Ed.
      destruct (concat_add_spec schema (db_rows base (t_name t)) fl Kb cur bound ct tc (c_pk c) (r2 !! c_pk c) op (c_indirect c) (record_bytes fs))
        as (ct1 & bs1 & n1 & Ea & Ok1); [done|apply K2|done|lia|done|done|].
      pose proof Ok as [(S1 & S2 & _) W _ _ _ _ _]. rewrite Hf in W.
      assert (i < length cts)%nat as Hi by by eapply lookup_lt_Some.
      destruct (IH (fun c' H => Sub c' (list_elem_of_further _ _ _ H)) ND (<[i := ct1]> cts) ct1 (rebucket tc bs1 n1) (upd cur (c_pk c) (r2 !! c_pk c)) (bound + 1))
        as (ct2 & bs2 & n2 & cur2 & Ab & Ok2 & Ag2 & Ot2); try done; try lia.
      { by apply list_lookup_insert_eq. }
      { apply keyed_upd; [done|apply K2]. }
      { intros k Hk. rewrite upd_ne by (intros ->; done). apply Agree. by right. }
      exists ct2, bs2, n2, cur2. split_and!.
      * eapply absorbs_app; [eapply absorbs_change; try done; by rewrite S1, W|]. simpl in Ab. by rewrite list_insert_insert_eq in Ab.
      * by replace (bound + (zlen cs + 1)) with (bound + 1 + zlen cs) by lia.
      * intros k [ -> |Hk]%elem_of_cons; [|by apply Ag2]. rewrite Ot2 by done. apply upd_eq.
      * intros k (N1 & N2)%not_elem_of_cons. rewrite Ot2 by done. by apply upd_ne.
    + apply (diff_none fl (c_pk c)) in Ed; [|apply K1|apply K2].
      destruct (IH (fun c' H => Sub c' (list_elem_of_further _ _ _ H)) ND cts ct tc cur bound) as (ct2 & bs2 & n2 & cur2 & Ab & Ok2 & Ag2 & Ot2); try done; try lia.
      { intros k Hk. apply Agree. by right. }
      exists ct2, bs2, n2, cur2. split_and!; [exact Ab|apply (concat_ok_mono _ _ _ (bound + zlen cs)); [exact Ok2|lia]| |].
      * intros k [ -> |Hk]%elem_of_cons; [|by apply Ag2]. rewrite Ot2 by done. by rewrite Ac.
      * intros k (N1 & N2)%not_elem_of_cons. by apply Ot2.
Qed.

(** The tables of [concat] against the rows [cur] of every table. *)
Definition one_ok (cur : bytes -> rows_of) (bnd : bytes -> Z) (ct : ConcatTable) (tc : TableChanges) : Prop :=
  concat_ok schema (db_rows base (t_name tc)) (cur (t_name tc)) (bnd (t_name tc)) ct tc /\ t_pk_flags tc = table_flags schema (t_name tc).

Record absorbed (cur : bytes -> rows_of) (bnd : bytes -> Z) (cts : list ConcatTable) (tcs : list TableChanges) : Prop := {
  ab_tables : Forall2 (one_ok cur bnd) cts tcs;
  ab_names : NoDup (t_name <$> tcs);
  ab_rest : forall t, t ∉ t_name <$> tcs -> cur t = db_rows base t;
  ab_bound : forall t, 0 <= bnd t }.

Lemma absorbed_names cur bnd cts tcs : Forall2 (one_ok cur bnd) cts tcs -> ct_name <$> cts = t_name <$> tcs.
Proof using Type. induction 1 as [|ct tc cts tcs ([(_ & _ & E & _) _ _ _ _ _ _] & _) _ IH]; [done|]. rewrite !fmap_cons. by rewrite IH, E. Qed.

Lemma absorbed_mono cur cur' bnd bnd' cts tcs : absorbed cur bnd cts tcs -> (forall t, cur' t = cur t) -> (forall t, bnd t <= bnd' t) -> absorbed cur' bnd' cts tcs.
Proof using Type.
  intros [F N R B] Hc Hb. constructor; try done.
  - eapply Forall2_impl; [exact F|]. intros ct tc (C & E). split; [|done]. rewrite Hc. by eapply concat_ok_mono.
  - intros t Ht. rewrite Hc. by apply R.
  - intros t. specialize (Hb t). specialize (B t). lia.
Qed.

(** Replacing the table at one place. *)
Lemma absorbed_set cur bnd cts tcs (i : nat) tc ct' tc' r b :
  absorbed cur bnd cts tcs -> tcs !! i = Some tc -> t_name tc' = t_name tc -> t_pk_flags tc' = t_pk_flags tc ->
  concat_ok schema (db_rows base (t_name tc)) r b ct' tc' -> bnd (t_name tc) <= b ->
  absorbed (fun t => if decide (t = t_name tc) then r else cur t) (fun t => if decide (t = t_name tc) then b else bnd t) (<[i := ct']> cts) (<[i := tc']> tcs).
Proof using Type.
  intros [F N R B] Ht En Ef Ok Lb. assert (t_name <$> <[i := tc']> tcs = t_name <$> tcs) as Nm.
  { rewrite list_fmap_insert, En. apply list_insert_id. by rewrite list_lookup_fmap, Ht. }
  constructor.
  - apply Forall2_same_length_lookup. split; [rewrite !length_insert; by eapply Forall2_length|]. intros j c d Hc Hd.
    pose proof (Forall2_length _ _ _ F) as Len. apply lookup_lt_Some in Ht as Li.
    destruct (decide (j = i)) as [ -> |Nj].
    + rewrite list_lookup_insert_eq in Hc by lia. rewrite list_lookup_insert_eq in Hd by lia. injection Hc as <-. injection Hd as <-. unfold one_ok. rewrite En, !decide_True by done.
      split; [exact Ok|]. rewrite Ef. destruct (Forall2_lookup_r _ _ _ _ _ F Ht) as (x & _ & _ & E). exact E.
    + rewrite list_lookup_insert_ne in Hc by done. rewrite list_lookup_insert_ne in Hd by done. assert (t_name d <> t_name tc) as Nd.
      { intros E. apply Nj. eapply (NoDup_lookup _ _ _ (t_name d) N); [by rewrite list_lookup_fmap, Hd|by rewrite list_lookup_fmap, Ht, E]. }
      unfold one_ok. rewrite !decide_False by done. by eapply (Forall2_lookup_lr _ _ _ _ _ _ F).
  - by rewrite Nm.
  - intros t Hn. rewrite Nm in Hn. rewrite decide_False; [by apply R|]. intros ->. apply Hn. apply list_elem_of_fmap_2. by eapply list_elem_of_lookup_2.
  - intros t. destruct (decide _); [|done]. specialize (B (t_name tc)). lia.
Qed.

(** A new table at the end. *)
Lemma absorbed_snoc cur bnd cts tcs ct tc : absorbed cur bnd cts tcs -> t_name tc ∉ t_name <$> tcs ->
  concat_ok schema (db_rows base (t_name tc)) (db_rows base (t_name tc)) 0 ct tc -> t_pk_flags tc = table_flags schema (t_name tc) ->
  absorbed cur bnd (cts ++ [ct]) (tcs ++ [tc]).
Proof using Type.
  intros [F N R B] Nt Ok Ef. constructor; [| | |done].
  - apply Forall2_app; [done|]. constructor; [|constructor]. split; [|done]. rewrite R by done. by apply (concat_ok_mono _ _ _ 0).
  - rewrite fmap_app. simpl. apply NoDup_app. split_and!; [done| |apply NoDup_singleton]. intros t Ht ->%list_elem_of_singleton. done.
  - intros t Ht. apply R. intros H. apply Ht. rewrite fmap_app. apply elem_of_app. by left.
Qed.

Lemma new_concat_ok name ncol fl r : (exists m ly, schema name = Some m /\ session_pk_layout m = Some ly /\ ncol = m_ncol m /\ fl = l_flags ly) -> ncol = zlen fl ->
  concat_ok schema r r 0 (new_concat_table (mkHdr ncol fl name (table_header 84 ncol fl name))) (new_table name ncol fl).
Proof using Type.
  intros L W. constructor; simpl; try done; [|by left].
  constructor; simpl; try done; constructor.
Qed.

(** One table of a blob. *)
Lemma absorb_table cur bnd cts tcs ci t : absorbed cur bnd cts tcs -> table_carries schema (db_rows d1 (t_name t)) (db_rows d2 (t_name t)) t ->
  cur (t_name t) = db_rows d1 (t_name t) -> bnd (t_name t) + t_nentry t < 2 ^ 29 ->
  exists cts' tcs' ci', absorbs (table_bytes (live d2) false t) cts ci cts' ci' /\
    absorbed (fun t' => if decide (t' = t_name t) then db_rows d2 (t_name t) else cur t')
      (fun t' => if decide (t' = t_name t) then bnd (t_name t) + t_nentry t else bnd t') cts' tcs'.
Proof using WS Gbase G1 G2.
  intros Ab Car Ecur Bd. pose proof Car as [Lay Cn _ K _ Tr]. pose proof Lay as (m & ly & Hs & Hl & Hn & Hf).
  destruct (WS _ _ Hs) as (Wm & _ & _ & N0). destruct (session_pk_layout_ok m ly Wm Hl) as (Bn & Lf & _). destruct (table_flags_eq schema _ m ly Hs Hl) as (_ & Ef).
  assert (t_pk_flags t = table_flags schema (t_name t)) as Hfl by congruence.
  assert (forall cs, (changes_bytes (live d2) t false cs).2 = false -> (forall c, c ∈ cs -> c ∈ entries t) ->
    forall c, c ∈ cs -> db_rows d1 (t_name t) !! c_pk c = db_rows d2 (t_name t) !! c_pk c) as Still.
  { induction cs as [|c cs IH]; intros E Sub c' Hc'; [by apply elem_of_nil in Hc'|]. cbn [changes_bytes] in E.
    assert (entry_ok (db_rows d1 (t_name t)) c) as Ec by (destruct Car as [_ _ _ _ F _]; rewrite Forall_forall in F; apply F, Sub; left).
    rewrite (change_diff d1 d2 t c Hfl Ec) in E. destruct (changes_bytes (live d2) t false cs) as [rest any].
    destruct (diff (t_pk_flags t) _ _) as [r|] eqn:Ed; simpl in E; [done|]. apply elem_of_cons in Hc' as [ -> |Hc'].
    - rewrite Hfl in Ed. eapply (diff_none _ (c_pk c)); [by apply good_keyed..|exact Ed].
    - apply IH; [done| |done]. intros c'' H. apply Sub. by right. }
  assert (0 <= t_nentry t) as Nz by (rewrite Cn; apply zlen_nonneg).
  assert ((forall c, c ∈ entries t -> db_rows d1 (t_name t) !! c_pk c = db_rows d2 (t_name t) !! c_pk c) ->
    exists cts' tcs' ci', absorbs [] cts ci cts' ci' /\
    absorbed (fun t' => if decide (t' = t_name t) then db_rows d2 (t_name t) else cur t')
      (fun t' => if decide (t' = t_name t) then bnd (t_name t) + t_nentry t else bnd t') cts' tcs') as Nothing.
  { intros H. exists cts, tcs, ci. split; [apply absorbs_nil|]. apply (absorbed_mono cur _ bnd); [done| |intros t'; destruct (decide _); subst; lia].
    intros t'. destruct (decide (t' = t_name t)) as [ -> |]; [|done]. rewrite Ecur. apply map_eq. intros k.
    destruct (decide (k ∈ c_pk <$> entries t)) as [(c & -> & Hc)%list_elem_of_fmap|Nk]; [symmetry; by apply H|by apply Tr]. }
  unfold table_bytes, table_is_empty. fold (entries t). destruct (Z.eqb_spec (t_nentry t) 0) as [Z0|Z0].
  { apply Nothing. rewrite Z0 in Cn. destruct (entries t); [by intros c ?%elem_of_nil|]. rewrite zlen_cons in Cn. pose proof (zlen_nonneg l). lia. }
  destruct (changes_bytes (live d2) t false (entries t)) as [body any] eqn:Eb. destruct any.
  2:{ apply Nothing. apply (Still (entries t)); [by rewrite Eb|done]. }
  clear Nothing Still.
  assert (exists (i : nat) cts1 tcs1 ct tc, absorbs (table_header 84 (t_ncol t) (t_pk_flags t) (t_name t)) cts ci cts1 (Some (Z.of_nat i)) /\
    absorbed cur bnd cts1 tcs1 /\ cts1 !! i = Some ct /\ tcs1 !! i = Some tc /\ t_name tc = t_name t) as (i & cts1 & tcs1 & ct & tc & A1 & Ab1 & Hct & Htc & En).
  { pose proof (absorbs_header (t_ncol t) (t_pk_flags t) (t_name t) cts ci ltac:(lia) ltac:(congruence) N0) as H.
    pose proof (table_position_from cts (t_name t) 0) as P. pose proof Ab as [F _ _ _]. pose proof (absorbed_names _ _ _ _ F) as Nm.
    destruct (table_position cts (t_name t) 0) as [i|].
    - destruct P as (j & ct & -> & Hj & En). destruct (Forall2_lookup_l _ _ _ _ _ F Hj) as (tc & Htc & ([(S1 & S2 & S3 & _) _ [(m' & ly' & Hs' & Hl' & Hn' & Hf') _ _ _ _ _] _ _ _ _] & _)).
      rewrite S3 in En. rewrite En, Hs in Hs'. injection Hs' as <-. rewrite Hl in Hl'. injection Hl' as <-.
      exists j, cts, tcs, ct, tc. split_and!; try done. replace (0 + Z.of_nat j) with (Z.of_nat j) in H by lia.
      apply (H ct); [by apply idx_lookup|congruence..].
    - exists (length cts), (cts ++ [new_concat_table (mkHdr (t_ncol t) (t_pk_flags t) (t_name t) (table_header 84 (t_ncol t) (t_pk_flags t) (t_name t)))]),
        (tcs ++ [new_table (t_name t) (t_ncol t) (t_pk_flags t)]), (new_concat_table (mkHdr (t_ncol t) (t_pk_flags t) (t_name t) (table_header 84 (t_ncol t) (t_pk_flags t) (t_name t)))),
        (new_table (t_name t) (t_ncol t) (t_pk_flags t)).
      split_and!; [exact H| |by apply list_lookup_middle|by apply list_lookup_middle; erewrite Forall2_length|done].
      apply absorbed_snoc; [done|by rewrite <- Nm|by apply new_concat_ok; [exact Lay|congruence]|done]. }
  pose proof Ab1 as [F1 _ _ Bp]. destruct (Forall2_lookup_lr _ _ _ _ _ _ F1 Hct Htc) as (Ok1 & Ef1). rewrite En in Ok1, Ef1.
  destruct (absorb_changes t i (entries t) Car (fun c H => H) K cts1 ct tc (cur (t_name t)) (bnd (t_name t))) as (ct' & bs & n & cur' & A2 & Ok2 & Ag & Ot);
    try done; try (rewrite <- ?Cn; lia).
  { rewrite Ecur. by apply good_keyed. }
  { intros k _. by rewrite Ecur. }
  rewrite Eb in A2. simpl in A2. exists (<[i := ct']> cts1), (<[i := rebucket tc bs n]> tcs1), (Some (Z.of_nat i)).
  split; [by eapply absorbs_app|].
  assert (cur' = db_rows d2 (t_name t)) as ->.
  { apply map_eq. intros k. destruct (decide (k ∈ c_pk <$> entries t)) as [Hk|Hk]; [by apply Ag|]. rewrite Ot by done. rewrite Ecur. symmetry. by apply Tr. }
  rewrite Cn. rewrite <- En. apply (absorbed_set cur bnd cts1 tcs1 i tc); try done; rewrite En; [done|pose proof (zlen_nonneg (entries t)); lia].
Qed.

(** All tables of a blob, whose names are distinct. *)
Lemma absorb_tables ts N B : NoDup (t_name <$> ts) -> B + N < 2 ^ 29 ->
  Forall (fun t => table_carries schema (db_rows d1 (t_name t)) (db_rows d2 (t_name t)) t /\ t_nentry t <= N) ts ->
  forall cur bnd cts tcs ci, absorbed cur bnd cts tcs -> (forall t, t ∈ t_name <$> ts -> cur t = db_rows d1 t /\ bnd t <= B) ->
  exists cts' tcs' ci' cur' bnd', absorbs (concat (table_bytes (live d2) false <$> ts)) cts ci cts' ci' /\ absorbed cur' bnd' cts' tcs' /\
    (forall t, t ∈ t_name <$> ts -> cur' t = db_rows d2 t /\ bnd' t <= B + N) /\ (forall t, t ∉ t_name <$> ts -> cur' t = cur t /\ bnd' t = bnd t).
Proof using WS Gbase G1 G2.
  intros ND BN F. induction F as [|t ts (Car & Ln) F IH]; intros cur bnd cts tcs ci Ab H.
  - exists cts, tcs, ci, cur, bnd. split; [apply absorbs_nil|]. split; [done|]. split; [|done]. by intros t ?%elem_of_nil.
  - rewrite fmap_cons in ND, H |- *. apply NoDup_cons in ND as (Nt & ND). destruct (H (t_name t) ltac:(left)) as (Hc & Hb).
    destruct (absorb_table cur bnd cts tcs ci t Ab Car Hc ltac:(lia)) as (cts1 & tcs1 & ci1 & A1 & Ab1).
    destruct (IH ND _ _ _ _ ci1 Ab1) as (cts2 & tcs2 & ci2 & cur2 & bnd2 & A2 & Ab2 & In2 & Out2).
    { intros t' Ht'. rewrite !decide_False by (intros ->; done). apply H. by right. }
    exists cts2, tcs2, ci2, cur2, bnd2. split; [cbn [concat]; by eapply absorbs_app|]. split; [done|]. split.
    + intros t' [ -> |Ht']%elem_of_cons; [|by apply In2]. destruct (Out2 _ Nt) as (-> & ->). rewrite !decide_True by done. split; [done|lia].
    + intros t' (N1 & N2)%not_elem_of_cons. destruct (Out2 _ N2) as (-> & ->). by rewrite !decide_False.
Qed.

Lemma absorb_blob s N B cur bnd cts tcs : carries schema d1 d2 s -> Forall (fun t => t_nentry t <= N) (tables s) -> 0 <= N -> B + N < 2 ^ 29 ->
  absorbed cur bnd cts tcs -> (forall t, cur t = db_rows d1 t /\ bnd t <= B) ->
  exists cts' tcs' cur' bnd', concat_absorb (serialize (live d2) s) cts = Ok cts' /\ absorbed cur' bnd' cts' tcs' /\
    forall t, cur' t = db_rows d2 t /\ bnd' t <= B + N.
Proof using WS Gbase G1 G2.
  intros [ND F R] FN N0 BN Ab H. destruct (absorb_tables (tables s) N B ND BN) with (cur := cur) (bnd := bnd) (cts := cts) (tcs := tcs) (ci := @None Z)
    as (cts' & tcs' & ci' & cur' & bnd' & A & Ab' & In & Out); [|done|by intros t _|].
  { apply Forall_forall. intros t Ht. rewrite Forall_forall in F, FN. auto. }
  exists cts', tcs', cur', bnd'. split; [|split; [done|]].
  - unfold concat_absorb, serialize, serialize_impl. destruct (A (length (concat (table_bytes (live d2) false <$> tables s))) [] []) as (f & _ & E); [simpl; lia|].
    rewrite app_nil_r in E. simpl in E. change (zlen (@nil Z)) with 0 in E. rewrite E. destruct f; simpl; by rewrite Z.leb_refl.
  - intros t. destruct (decide (t ∈ t_name <$> tables s)) as [Ht|Ht]; [by apply In|]. destruct (Out t Ht) as (-> & ->). rewrite (R t Ht). destruct (H t). split; [done|lia].
Qed.

(** ** What is written *)

(** The bytes of a table of [concat] are those of the recorder's. *)
Lemma concat_table_written ct tc b : concat_ok schema (db_rows d1 (t_name tc)) (db_rows d2 (t_name tc)) b ct tc -> t_pk_flags tc = table_flags schema (t_name tc) ->
  concat_table_bytes ct = table_bytes (live d2) false tc.
Proof using Type.
  intros [(S1 & S2 & S3 & S4 & S5) W Car Rb _ _ _] Hf. unfold concat_table_bytes, table_bytes, table_is_empty. rewrite S5, S4. destruct (Z.eqb_spec (t_nentry tc) 0) as [Z0|Z0]; [done|].
  destruct Car as [_ Cn _ _ F _]. unfold entries in Cn, F. apply concat_rel in Rb.
  assert (changes_bytes (live d2) tc false (concat (t_buckets tc)) =
    (concat (concat_change_bytes <$> concat (ct_buckets ct)), negb (bool_decide (concat (t_buckets tc) = [])))) as ->.
  { clear Cn. induction Rb as [|c e l l' (E & I) _ IH]; [done|]. apply Forall_cons in F as (Fc & F). cbn [changes_bytes]. rewrite (IH F).
    rewrite (change_diff d1 d2 tc c Hf Fc), E. rewrite fmap_cons.
    change (concat_change_bytes e) with ([cc_op e; cc_indirect e] ++ cc_record e). by rewrite I. }
  rewrite bool_decide_eq_false_2; [done|]. intros E. rewrite E in Cn. by rewrite Cn in Z0.
Qed.

End blob.

Lemma absorbed_start schema base : absorbed schema base (db_rows base) (fun _ => 0) [] [].
Proof. constructor; [constructor|constructor|done|done]. Qed.

(** The tables of [concat] are what a recorder would carry. *)
Lemma absorbed_carries schema base db bnd cur cts tcs : absorbed schema base cur bnd cts tcs -> (forall t, cur t = db_rows db t) ->
  carries schema base db (set_tables default_state tcs) /\ concat (concat_table_bytes <$> cts) = serialize (live db) (set_tables default_state tcs).
Proof.
  intros [F N R B] E. split.
  - constructor; simpl; [done| |].
    + apply Forall_forall. intros tc Htc. apply list_elem_of_lookup in Htc as (i & Hi). destruct (Forall2_lookup_r _ _ _ _ _ F Hi) as (ct & _ & ([_ _ Car _ _ _ _] & _)).
      by rewrite E in Car.
    + intros t Ht. rewrite <- E. by apply R.
  - unfold serialize, serialize_impl. simpl. f_equal. clear N R. induction F as [|ct tc cts tcs (Ok & Hf) _ IH]; [done|]. rewrite !fmap_cons, IH. f_equal.
    rewrite E in Ok. by eapply (concat_table_written schema base db).
Qed.

(** A row that is as it was has no entry. *)
Lemma unchanged_written schema base cur bnd cts tcs : good_db schema base -> (forall t, cur t = db_rows base t) -> Forall2 (one_ok schema base cur bnd) cts tcs ->
  concat (concat_table_bytes <$> cts) = [].
Proof.
  intros G E. induction 1 as [|ct tc cts tcs ([(_ & _ & _ & _ & S5) W [_ Cn _ _ F _] Rb _ _ _] & Hf) _ IH]; [done|].
  rewrite fmap_cons. cbn [concat]. rewrite IH, app_nil_r. unfold concat_table_bytes. rewrite S5, Cn.
  apply concat_rel in Rb. fold (entries tc) in Rb. rewrite E in Rb.
  destruct (entries tc) as [|c l]; [done|]. apply Forall2_cons_inv_l in Rb as (e & l' & (D & _) & _ & _).
  destruct (db_rows base (t_name tc) !! c_pk c) as [row|] eqn:Er; [|done]. simpl in D.
  destruct (G _ _ _ Er) as (Gr & _). assert (rows_differ row row = false) as Rd; [|by rewrite Rd in D].
  destruct (rows_differ row row) eqn:Rd; [|done]. apply rows_differ_spec in Rd as (k & v & w & Hv & Hw & N); [congruence|done|by eapply good_canonical..].
Qed.

(** ** Composition *)

(** C17: concatenating changesets composes them. For a session that leads from
    the original rows to the middle ones and a second session from there to
    the final rows, [changeset_concat] succeeds; the concatenated blob applies
    without a conflict to every store that holds the original rows, under any
    conflict handler, and leaves exactly the final rows; and when the second
    session undoes the first, nothing is left to write. *)
Theorem changeset_concat_composes (schema : bytes -> option TableMeta) {D : Type} (S : Store D) (rows : D -> bytes -> rows_of) (valid : D -> Prop)
    (KS : KeyedStore rows S (table_flags schema) valid) {K : Type} (on_conflict : K -> ConflictType -> ConflictAction * K) (h : K)
    (base mid db : keyed_db) (ops ops' : list dml) (d : D)
    (WS : wf_schema schema) (Gb : good_db schema base) (Go : Forall (good_dml schema) ops) (Go' : Forall (good_dml schema) ops')
    (Hops : zlen ops + zlen ops' < 2 ^ 28) (E : run schema base ops = Some mid) (E' : run schema mid ops' = Some db)
    (V : valid d) (Hd : forall t, rows d t = db_rows base t) :
  exists s s' b d', record_all schema (attach default_state) ops = Ok s /\ record_all schema (attach default_state) ops' = Ok s' /\
    changeset_concat (serialize (live mid) s) (serialize (live db) s') = Ok b /\
    changeset_apply_with on_conflict schema d h b = (Ok (), d') /\ (forall t, rows d' t = db_rows db t) /\
    ((forall t, db_rows db t = db_rows base t) -> b = []).
Proof.
  pose proof (zlen_nonneg ops). pose proof (zlen_nonneg ops').
  destruct (record_all_ok schema base ops base mid 0 (attach default_state)) as (s & Es & R & Gm); try done; try lia; [apply recording_start|].
  destruct (record_all_ok schema mid ops' mid db 0 (attach default_state)) as (s' & Es' & R' & Gd); try done; try lia; [apply recording_start|].
  assert (forall base db n s, recording schema base db n s -> Forall (fun t => t_nentry t <= n) (tables s)) as Cnt.
  { intros b0 d0 n s0 [_ _ F _]. eapply Forall_impl; [exact F|]. by intros t [_ (_ & L) _ _]. }
  destruct (absorb_blob schema WS base base mid Gb Gb Gm s (2 * zlen ops) 0 (db_rows base) (fun _ => 0) [] [])
    as (cts1 & tcs1 & cur1 & bnd1 & A1 & Ab1 & C1); try lia; [by eapply recording_carries|by eapply Cnt|apply absorbed_start|done|].
  destruct (absorb_blob schema WS base mid db Gb Gm Gd s' (2 * zlen ops') (2 * zlen ops) cur1 bnd1 cts1 tcs1)
    as (cts2 & tcs2 & cur2 & bnd2 & A2 & Ab2 & C2); try lia; [by eapply recording_carries|by eapply Cnt|done|exact C1|].
  destruct (absorbed_carries schema base db bnd2 cur2 cts2 tcs2 Ab2) as (Car & Ser); [apply C2|].
  destruct (blob_applies schema on_conflict base db Gb Gd false (set_tables default_state tcs2) d h WS Car V Hd) as (d' & Ed & _ & Rd).
  exists s, s', (concat (concat_table_bytes <$> cts2)), d'. split_and!; try done.
  - unfold changeset_concat. rewrite A1. bind_step. rewrite A2. by bind_step.
  - by rewrite Ser.
  - intros Same. destruct Ab2 as [F _ _ _]. apply (unchanged_written schema base cur2 bnd2 cts2 tcs2); [done| |done]. intros t. by rewrite (proj1 (C2 t)), Same.
Qed.

(** A second session: the third row goes, the first row gets its old text
    back, and a new second row appears. *)
Definition second_ops : list dml :=
  [DDelete [116] 3 [Integer 3; Real (2 ^ 62)] false;
   DUpdate [116] 1 [Integer 1; Text [98]] [Integer 1; Text [97]] true;
   DInsert [116] 2 [Integer 2; Blob [0; 255]] false].

Definition second_final : keyed_db :=
  {[ [116] := <[ [Integer 2] := [Integer 2; Blob [0; 255]] ]> {[ [Integer 1] := [Integer 1; Text [97]] ]} ]}.

Lemma second_good_ops : Forall (good_dml example_schema) second_ops.
Proof.
  assert (forall i, 0 <= i < 10 -> is_i64 i) as I by (intros; unfold is_i64, is_sint; lia).
  assert (storable (Real (2 ^ 62)) /\ canonical (Real (2 ^ 62))) as (R & R').
  { split; [split; [simpl; unfold is_u64, is_uint; lia|done]|]. split; [unfold is_u64, is_uint; lia|]. by split. }
  repeat constructor; apply example_row; try (apply I; lia); try done; split; try done; repeat constructor; unfold is_u8, is_uint; lia.
Qed.

Lemma changeset_concat_composes_witness : exists s s' b d', record_all example_schema (attach default_state) example_ops = Ok s /\
  record_all example_schema (attach default_state) second_ops = Ok s' /\
  changeset_concat (serialize (live example_final) s) (serialize (live second_final) s') = Ok b /\
  @changeset_apply _ (keyed_db_store (table_flags example_schema)) example_schema example_base b = (Ok (), d') /\
  (forall t, db_rows d' t = db_rows second_final t) /\ ((forall t, db_rows second_final t = db_rows example_base t) -> b = []).
Proof.
  refine (changeset_concat_composes example_schema (keyed_db_store (table_flags example_schema)) db_rows _ (keyed_db_keyed (table_flags example_schema))
    default_handler () example_base example_final second_final example_ops second_ops example_base
    example_wf_schema example_good_base example_good_ops second_good_ops _ _ _ _ _).
  - reflexivity.
  - vm_compute. reflexivity.
  - vm_compute. reflexivity.
  - intros t k row E. destruct (example_good_base t k row E) as (G & K). split; [|exact K].
    exact (good_width example_schema t row example_wf_schema G).
  - reflexivity.
Defined.

(** The two blobs and their concatenation: one insert is left. *)
Example concat_example :
  (let* s := record_all example_schema (attach default_state) example_ops in
   let* s' := record_all example_schema (attach default_state) second_ops in
   changeset_concat (serialize (live example_final) s) (serialize (live second_final) s')) =
  Ok [84; 2; 1; 0; 116; 0; 18; 0; 1; 0; 0; 0; 0; 0; 0; 0; 2; 4; 2; 0; 255].
Proof. vm_compute. reflexivity. Qed.

End ChangesetCompose.
