(* ===== verification/Rebase.v ===== *)
(** The rebaser ([src/src/session.rs], the third transform of changesets): it
    collects how the conflicts of remote changesets were resolved and rewrites
    local changesets so that they apply on top of the remote changes. *)

From S2P Require Import Prelude Varint Value Session SessionRead SessionApply.
Import Varint Value Session SessionRead SessionApply.
Local Open Scope Z_scope.

Module Rebase.

(** ** Resolutions *)

Inductive RField : Type := Undefined | Replaced | Val (v : Value).

Record RebaseChange : Type := mkChangeR {
  rb_op : ChangeOp;
  rb_replace : bool;
  rb_fields : list RField }.

Record RebaseHashTable : Type := mkTableR {
  rt_name : bytes;
  rt_ncol : Z;
  rt_pk_flags : bytes;
  rt_rows : list (list Value * RebaseChange) }.

(** [Rebaser]: its tables. *)
Definition Rebaser : Type := list RebaseHashTable.

Definition rebaser_new : Rebaser := [].

(** The key of a record: its key columns, NULL for a missing one, the columns
    numbered from [i]. *)
Fixpoint key_part (pk_flags : bytes) (i : Z) (rec : list (option Value)) : list Value :=
  match rec with
  | [] => []
  | v :: rec => (if is_pk pk_flags i then [default Null v] else []) ++ key_part pk_flags (i + 1) rec
  end.

(** One field of [raw] in [configure]. *)
Definition rebase_field (pk_flags : bytes) (replace : bool) (i : Z) (v : option Value) : RField :=
  match v with
  | None => Undefined
  | Some val => if replace && negb (is_pk pk_flags i) then Replaced else Val val
  end.

(** One field of [merge_into]. *)
Definition merge_field (pk_flags : bytes) (newc : RebaseChange) (i : Z) (ef : RField) : RField :=
  let non_pk := negb (is_pk pk_flags i) in
  let nf := default Undefined (get (rb_fields newc) i) in
  match ef with
  | Replaced => Replaced
  | _ => if non_pk && rb_replace newc then Replaced else match nf with Undefined => ef | _ => nf end
  end.

(** [merge_into]: the first row with the key, or a new one at the end. *)
Fixpoint merge_into (pk_flags : bytes) (pk : list Value) (newc : RebaseChange) (rows : list (list Value * RebaseChange)) :
    list (list Value * RebaseChange) :=
  match rows with
  | [] => [(pk, newc)]
  | (k, existing) :: rows =>
      if pk_eq k pk then
        if bool_decide (rb_op existing = Delete) && rb_replace existing then (k, existing) :: rows
        else
          (k, mkChangeR (rb_op newc) (rb_replace newc || rb_replace existing)
                (columns (merge_field pk_flags newc) 0 (rb_fields existing))) :: rows
      else (k, existing) :: merge_into pk_flags pk newc rows
  end.

(** ** [configure] *)

Fixpoint rebase_position (tables : Rebaser) (name : bytes) (i : Z) : option Z :=
  match tables with
  | [] => None
  | t :: tables => if bool_decide (rt_name t = name) then Some i else rebase_position tables name (i + 1)
  end.

(** A result with the tables as they are when the loop ends: an error keeps
    what was read before it. *)
Definition at_tables {A} (m : res A) (tables : Rebaser) (k : A -> res unit * Rebaser) : res unit * Rebaser :=
  match m with
  | Ok a => k a
  | Err e => (Err e, tables)
  | Panic => (Panic, tables)
  end.

Fixpoint configure_loop (fuel : nat) (data : bytes) (pos : Z) (tables : Rebaser) (cur : option Z) : res unit * Rebaser :=
  if zlen data <=? pos then (Ok (), tables)
  else
    match fuel with
    | O => (Panic, tables)
    | S fuel =>
        at_tables (peek data pos) tables (fun m =>
        let marker := m.1 in
        if marker =? 84 then
          at_tables (read_u8 data pos) tables (fun u =>
          at_tables (read_header "rebase table has zero columns" data u.2) tables (fun h =>
          let '(ncol, pk_flags, name) := h.1 in
          if utf8_valid name then
            match rebase_position tables name 0 with
            | Some i => configure_loop fuel data h.2 tables (Some i)
            | None => configure_loop fuel data h.2 (tables ++ [mkTableR name ncol pk_flags []]) (Some (zlen tables))
            end
          else (Err (corrupt "non-UTF-8 table name"), tables)))
        else if (marker =? OP_INSERT) || (marker =? OP_DELETE) then
          let op := if marker =? OP_DELETE then Delete else Insert in
          at_tables (read_u8 data pos) tables (fun u =>
          at_tables (read_u8 data u.2) tables (fun rep =>
          let replace := negb (rep.1 =? 0) in
          match cur with
          | None => (Err (corrupt "rebase record before table header"), tables)
          | Some ti =>
              at_tables (idx tables ti) tables (fun t =>
              at_tables (read_record (Z.to_nat (rt_ncol t)) data rep.2) tables (fun raw =>
              let pk := key_part (rt_pk_flags t) 0 raw.1 in
              let fields := columns (rebase_field (rt_pk_flags t) replace) 0 raw.1 in
              let rows := merge_into (rt_pk_flags t) pk (mkChangeR op replace fields) (rt_rows t) in
              at_tables (set_idx tables ti (mkTableR (rt_name t) (rt_ncol t) (rt_pk_flags t) rows)) tables (fun tables =>
              configure_loop fuel data raw.2 tables cur)))
          end))
        else (Err (corrupt ("bad rebase op byte " +:+ fmt_Z marker)), tables))
    end.

Definition configure (tables : Rebaser) (rebase : bytes) : res unit * Rebaser :=
  configure_loop (length rebase) rebase 0 tables None.

(** ** Records *)

Definition write_field (f : option Value) : bytes := match f with Some v => append_value v | None => [T_OMIT] end.

Definition write_record (rec : list (option Value)) : bytes := concat (write_field <$> rec).

Definition emit_insert (new : list (option Value)) : bytes := [OP_INSERT; 0] ++ write_record new.

Definition emit_delete (old : list (option Value)) : bytes := [OP_DELETE; 0] ++ write_record old.

Definition emit_update_raw (old new : list (option Value)) : bytes := [OP_UPDATE; 0] ++ write_record old ++ write_record new.

(** [old[i] != new[i]] on [Option<Value>]. *)
Definition field_differs (o n : option Value) : bool :=
  match o, n with
  | None, None => false
  | Some o, Some n => negb (value_eq o n)
  | _, _ => true
  end.

(** The two columns loops of [emit_update] in one. *)
Fixpoint emit_cols (pk_flags : bytes) (i : Z) (old new : list (option Value)) : list (option Value) * list (option Value) :=
  match old, new with
  | o :: old, n :: new =>
      let changed := field_differs o n in
      let '(os, ns) := emit_cols pk_flags (i + 1) old new in
      ((if changed || is_pk pk_flags i then o else None) :: os, (if changed then n else None) :: ns)
  | _, _ => ([], [])
  end.

Definition emit_update (pk_flags : bytes) (old new : list (option Value)) : bytes :=
  let '(o, n) := emit_cols pk_flags 0 old new in
  emit_update_raw o n.

Definition field_value (f : RField) : option Value := match f with Val v => Some v | _ => None end.

Definition fields_to_record (fields : list RField) : list (option Value) := field_value <$> fields.

(** [fields.get(i)], with what a missing one counts as. *)
Definition rfield (fields : list RField) (i : Z) : RField := default Undefined (get fields i).

Definition record_merge_fields (local_ : list (option Value)) (fields : list RField) : list (option Value) :=
  (fun i => match field local_ i with Some v => Some v | None => field_value (rfield fields i) end)
  <$> column_range (Z.max (zlen local_) (zlen fields)).

Definition record_merge_local (fields : list RField) (local_ : list (option Value)) : list (option Value) :=
  (fun i => match rfield fields i with Val v => Some v | _ => field local_ i end)
  <$> column_range (Z.max (zlen fields) (zlen local_)).

(** One column of the first loop of [emit_partial_update]. *)
Definition partial_old (pk_flags : bytes) (old : list (option Value)) (fields : list RField) (i : Z) : option Value * bool :=
  let o := field old i in
  let some := match o with Some _ => true | None => false end in
  match rfield fields i with
  | Undefined => (o, negb (is_pk pk_flags i) && some)
  | _ as f =>
      if is_pk pk_flags i then (o, false)
      else
        match f with
        | Val v => if some then (Some v, true) else (None, false)
        | _ => (None, false)
        end
  end.

Definition partial_new (pk_flags : bytes) (new : list (option Value)) (fields : list RField) (i : Z) : option Value :=
  let replaced := match rfield fields i with Replaced => true | _ => false end in
  if is_pk pk_flags i || negb replaced then field new i else None.

Definition emit_partial_update (pk_flags : bytes) (old new : list (option Value)) (fields : list RField) : option bytes :=
  let cols := partial_old pk_flags old fields <$> column_range (zlen pk_flags) in
  if negb (existsb snd cols) then None
  else Some (emit_update_raw (fst <$> cols) (partial_new pk_flags new fields <$> column_range (zlen pk_flags))).

(** ** [rebase] *)

Definition emit_unchanged (pk_flags : bytes) (change : ChangeRecord) : bytes :=
  match r_op change with
  | Insert => emit_insert (r_new change)
  | Delete => emit_delete (r_old change)
  | Update => emit_update pk_flags (r_old change) (r_new change)
  end.

(** [rows.iter().find]. *)
Fixpoint find_row (pk : list Value) (rows : list (list Value * RebaseChange)) : option RebaseChange :=
  match rows with
  | [] => None
  | (k, c) :: rows => if pk_eq k pk then Some c else find_row pk rows
  end.

Fixpoint find_table (name : bytes) (tables : Rebaser) : option RebaseHashTable :=
  match tables with
  | [] => None
  | t :: tables => if bool_decide (rt_name t = name) then Some t else find_table name tables
  end.

Definition rebase_one (pk_flags : bytes) (rt : option RebaseHashTable) (change : ChangeRecord) : option bytes :=
  let key_src := match r_op change with Insert => r_new change | _ => r_old change end in
  let pk := key_part pk_flags 0 key_src in
  match (match rt with Some t => find_row pk (rt_rows t) | None => None end) with
  | None => Some (emit_unchanged pk_flags change)
  | Some c =>
      match r_op change with
      | Insert =>
          if bool_decide (rb_op c = Insert) then
            if rb_replace c then None else Some (emit_update_raw (fields_to_record (rb_fields c)) (r_new change))
          else Some (emit_unchanged pk_flags change)
      | Update =>
          if bool_decide (rb_op c = Delete) then
            if rb_replace c then None else Some (emit_insert (record_merge_fields (r_new change) (rb_fields c)))
          else emit_partial_update pk_flags (r_old change) (r_new change) (rb_fields c)
      | Delete =>
          if bool_decide (rb_op c = Insert) then Some (emit_delete (record_merge_local (rb_fields c) (r_old change)))
          else None
      end
  end.

(** The output for one table: its header, even when every change is dropped. *)
Definition rebase_table (tables : Rebaser) (tbl : TableChangeset) : bytes :=
  match tc_changes tbl with
  | [] => []
  | changes =>
      table_header 84 (tc_ncol tbl) (tc_pk_flags tbl) (tc_name tbl)
      ++ concat (omap (rebase_one (tc_pk_flags tbl) (find_table (tc_name tbl) tables)) changes)
  end.

Definition rebase (tables : Rebaser) (changeset : bytes) : res bytes :=
  let* ts := parse_changeset changeset in
  Ok (concat (rebase_table tables <$> ts)).

(** ** What the documentation says otherwise *)

(** A patchset is rebased like a changeset. *)
Example patchset_rebased : rebase rebaser_new [80; 1; 1; 116; 0; 9; 0; 5] = Ok [84; 1; 1; 116; 0; 9; 0; 5].
Proof. reflexivity. Qed.

(** A change that no resolution concerns loses its indirect flag. *)
Example indirect_flag_lost : rebase rebaser_new [84; 1; 1; 116; 0; 18; 1; 5] = Ok [84; 1; 1; 116; 0; 18; 0; 5].
Proof. reflexivity. Qed.


(** The tables the entries of a rebase blob belong to are told apart by headers
    that are written once: an entry of a table that comes back after another
    one is read as an entry of that other one. *)
Example rebase_header_misplaced :
  let e t v := mkEntry t 1 [1] Insert false [Some (Integer v)] in
  let r := configure rebaser_new (serialize_rebase [e [97] 1; e [98] 2; e [97] 3]) in
  r.1 = Ok () /\ (fun t => (rt_name t, fst <$> rt_rows t)) <$> r.2 = [([97], [[Integer 1]]); ([98], [[Integer 2]; [Integer 3]])].
Proof. vm_compute. done. Qed.

End Rebase.
