(* ===== verification/RebaseRows.v ===== *)
(** One row under two changes: what the resolution of a conflict leaves
    ([resolved]), and what the rebased local change makes of the remote row
    ([rebase_row]). *)

From S2P Require Import Prelude Varint Value Session SessionRead SessionProps SessionApply SessionStore SessionStep SessionNet.
From S2P Require Import Changeset ChangesetMerge Rebase.
Import Varint Value Session SessionRead SessionProps SessionApply SessionStore SessionStep SessionNet.
Import Changeset ChangesetFields ChangesetMerge Rebase.
Local Open Scope Z_scope.

Module RebaseRows.

(** ** Fields by their number *)

Lemma field_nat (fs : list (option Value)) (n : nat) : field fs (Z.of_nat n) = match fs !! n with Some f => f | None => None end.
Proof. unfold field. by rewrite get_nat. Qed.

Lemma field_lt fs (n : nat) v : field fs (Z.of_nat n) = Some v -> Z.of_nat n < zlen fs.
Proof. rewrite field_nat. destruct (fs !! n) eqn:E; [|done]. intros _. apply lookup_lt_Some in E. unfold zlen. lia. Qed.

Lemma field_some (row : list Value) (n : nat) : field (Some <$> row) (Z.of_nat n) = row !! n.
Proof. rewrite field_nat, list_lookup_fmap. by destruct (row !! n). Qed.

Lemma field_range (g : Z -> option Value) m (n : nat) : Z.of_nat n < m -> field (g <$> column_range m) (Z.of_nat n) = g (Z.of_nat n).
Proof. intros H. rewrite field_nat, list_lookup_fmap, lookup_column_range by done. done. Qed.

Lemma zlen_range {A} (g : Z -> A) m : 0 <= m -> zlen (g <$> column_range m) = m.
Proof. intros H. unfold zlen. rewrite length_fmap. by apply zlen_column_range. Qed.

Lemma rfield_columns fl b vs (n : nat) : (n < length vs)%nat ->
  rfield (columns (rebase_field fl b) 0 vs) (Z.of_nat n) = rebase_field fl b (Z.of_nat n) (field vs (Z.of_nat n)).
Proof.
  intros H. unfold rfield. rewrite get_nat, lookup_columns, field_nat. destruct (lookup_lt_is_Some_2 vs n H) as (f & ->). done.
Qed.

(** Records are equal when their fields are. *)
Lemma record_ext (a b : list (option Value)) : length a = length b -> (forall n : nat, (n < length b)%nat -> field a (Z.of_nat n) = field b (Z.of_nat n)) -> a = b.
Proof.
  intros L H. apply (list_eq_same_length _ _ (length b)); [done..|]. intros n f g Hn Hf Hg. specialize (H n Hn). rewrite !field_nat, Hf, Hg in H. congruence.
Qed.

Lemma storable_record (fs : list (option Value)) : (forall (n : nat) v, field fs (Z.of_nat n) = Some v -> storable v) -> Forall storable_field fs.
Proof.
  intros H. apply Forall_lookup. intros n [v|] E; [|done]. apply (H n). by rewrite field_nat, E.
Qed.

Section rows.
Context (fl : bytes).
Notation n := (zlen fl).

(** The row [y] with the columns that differ between [x] and [z] set as in
    [z]. *)
Definition three_way (x y z : list Value) : list Value :=
  zip_with (fun v xz => if decide (xz.1 = xz.2) then v else xz.2) y (zip x z).

(** The record of the change from [x] to [y]. *)
Definition row_change (x y : option (list Value)) : option ChangeRecord :=
  match x, y with
  | None, None => None
  | None, Some row => Some (mkRecord Insert [] (Some <$> row))
  | Some old, None => Some (mkRecord Delete (Some <$> old) [])
  | Some old, Some row =>
      if rows_differ old row then Some (mkRecord Update (update_old fl false old row) (update_new fl false old row)) else None
  end.

(** The change from [x] to [z] applies to [y] without a conflict and leaves
    [w]; or it is forced through. *)
Definition clean (x y z w : option (list Value)) : Prop :=
  match x, z with
  | None, None => False
  | None, Some _ => y = None /\ w = z
  | Some _, None => y = x /\ w = None
  | Some x, Some z => exists y', y = Some y' /\ w = Some (three_way x y' z) /\
      forall (i : nat) u v, x !! i = Some u -> z !! i = Some v -> u <> v -> y' !! i = Some u
  end.

Definition forced (x y z w : option (list Value)) : Prop :=
  match x, y, z with
  | None, Some _, Some _ => w = z
  | Some _, Some _, None => w = None
  | Some x, Some y, Some z => w = Some (three_way x y z)
  | _, _, _ => False
  end.

(** What the remote change from [x] to [z] makes of the local row [y], and how
    a conflict was resolved: replaced or omitted. *)
Inductive resolved (x y z : option (list Value)) : option (list Value) -> option bool -> Prop :=
  | rs_same : x = z -> resolved x y z y None
  | rs_clean w : x <> z -> clean x y z w -> resolved x y z w None
  | rs_forced w : x <> z -> forced x y z w -> resolved x y z w (Some true)
  | rs_omitted : x <> z -> y <> x -> resolved x y z y (Some false).

(** The resolution in the rebaser: the remote change [r], replaced or not. *)
Definition resolution (r : ChangeRecord) (b : bool) : RebaseChange :=
  mkChangeR (if bool_decide (r_op r = Delete) then Delete else Insert) b (columns (rebase_field fl b) 0 (captured fl n r)).

(** The record [r] applies to the row [z] without a conflict and leaves [f]. *)
Definition takes (r : ChangeRecord) (z f : option (list Value)) : Prop :=
  match r_op r with
  | Insert => z = None /\ exists row, r = mkRecord Insert [] (Some <$> row) /\ f = Some row
  | Delete => f = None /\ exists old, r = mkRecord Delete (Some <$> old) [] /\ z = Some old
  | Update => exists old row fo fn, r = mkRecord Update fo fn /\ z = Some old /\ f = Some row /\ zlen fo = n /\ zlen fn = n /\
      Forall storable_field fo /\ Forall storable_field fn /\
      (forall (i : nat) v, old !! i = Some v -> field fo (Z.of_nat i) = Some v \/ (field fo (Z.of_nat i) = None /\ is_pk fl (Z.of_nat i) = false)) /\
      (forall (i : nat) v, old !! i = Some v -> row !! i = Some (if is_pk fl (Z.of_nat i) then v else default v (field fn (Z.of_nat i))))
  end.

(** The bytes of a record. *)
Definition emitted (r : ChangeRecord) : bytes :=
  match r_op r with
  | Insert => emit_insert (r_new r)
  | Delete => emit_delete (r_old r)
  | Update => emit_update_raw (r_old r) (r_new r)
  end.

(** ** Keys *)

Lemma key_part_full i row : key_part fl i (Some <$> row) = key_from fl i row.
Proof. revert i. induction row as [|v row IH]; intros i; [done|]. rewrite fmap_cons. cbn [key_part key_from]. by rewrite IH. Qed.

Lemma key_part_old i x y : length x = length y -> key_part fl i (columns (old_field fl false) i (zip x y)) = key_from fl i x.
Proof.
  revert i y. induction x as [|v x IH]; intros i [|w y] L; try done. change (zip (v :: x) (w :: y)) with ((v, w) :: zip x y).
  cbn [columns key_part key_from]. rewrite IH by (simpl in L; lia). unfold old_field. simpl. destruct (is_pk fl i); [by rewrite orb_true_r|done].
Qed.

Lemma change_key k x y r : keyed_opt fl k x -> keyed_opt fl k y -> row_change x y = Some r ->
  key_part fl 0 (match r_op r with Insert => r_new r | _ => r_old r end) = k.
Proof.
  intros Kx Ky E. destruct x as [x|], y as [y|]; simpl in E; [|injection E as <-; simpl..|done].
  - destruct (rows_differ x y); [|done]. injection E as <-. simpl. destruct Kx as (L & _ & _ & K), Ky as (L' & _).
    unfold update_old. rewrite key_part_old by (unfold zlen in *; lia). exact K.
  - rewrite key_part_full. apply Kx.
  - rewrite key_part_full. apply Ky.
Qed.

(** ** Unchanged records *)

Lemma emit_cols_update l i : emit_cols fl i (columns (old_field fl false) i l) (columns (new_field fl false) i l) =
  (columns (old_field fl false) i l, columns (new_field fl false) i l).
Proof.
  revert i. induction l as [|[u w] l IH]; intros i; [done|]. cbn [columns emit_cols]. rewrite IH.
  assert (old_field fl false i (u, w) = if negb (value_eq u w) || is_pk fl i then Some u else None) as -> by done.
  assert (new_field fl false i (u, w) = if negb (value_eq u w) then Some w else None) as -> by (unfold new_field; simpl; by rewrite orb_false_r).
  destruct (value_eq u w) eqn:E, (is_pk fl i) eqn:P; cbn [negb orb field_differs]; rewrite ?E, ?P; done.
Qed.

Lemma emit_unchanged_bytes x y r : row_change x y = Some r -> emit_unchanged fl r = emitted r.
Proof.
  destruct x as [x|], y as [y|]; simpl; intros E; [|injection E as <-; done..|done].
  destruct (rows_differ x y); [|done]. injection E as <-. unfold emit_unchanged, emit_update. simpl. unfold update_old, update_new. by rewrite emit_cols_update.
Qed.

(** ** Columns of keyed rows *)

Context (k : list Value).

Lemma keyed_at row (i : nat) : keyed_row fl k row -> Z.of_nat i < n -> exists v, row !! i = Some v /\ storable v /\ canonical v.
Proof.
  intros (L & St & Cn & _) Hi. destruct (lookup_lt_is_Some_2 row i) as (v & E); [unfold zlen in *; lia|]. exists v. split; [done|].
  split; [by apply (Forall_lookup_1 storable row i)|by apply (Forall_lookup_1 canonical row i)].
Qed.

Lemma keyed_pk x y (i : nat) : keyed_row fl k x -> keyed_row fl k y -> is_pk fl (Z.of_nat i) = true -> x !! i = y !! i.
Proof.
  intros (L & _ & _ & K) (L' & _ & _ & K') P. apply (key_agree_inv fl 0); [unfold zlen in *; lia|unfold row_key in *; congruence|done].
Qed.

Lemma keyed_same_row x y : keyed_row fl k x -> keyed_row fl k y -> (forall (i : nat) u v, x !! i = Some u -> y !! i = Some v -> u = v) -> x = y.
Proof. intros (L & _) (L' & _) H. apply row_ext; [congruence|done]. Qed.

Lemma keyed_differ x y : keyed_row fl k x -> keyed_row fl k y -> rows_differ x y = negb (bool_decide (x = y)).
Proof.
  intros (L & _ & C & _) (L' & _ & C' & _). case_bool_decide as E.
  - subst y. destruct (rows_differ x x) eqn:D; [|done]. apply rows_differ_spec in D as (i & u & v & Hu & Hv & N); [congruence|done..].
  - destruct (rows_differ x y) eqn:D; [done|]. exfalso. apply E. apply rows_same; [congruence|done..].
Qed.

Lemma change_exists x y : keyed_opt fl k x -> keyed_opt fl k y -> (row_change x y = None <-> x = y).
Proof.
  intros Kx Ky. destruct x as [x|], y as [y|]; simpl; try done. rewrite (keyed_differ x y Kx Ky). case_bool_decide as E; simpl.
  - by subst y.
  - split; [done|]. intros [= ->]. done.
Qed.

Lemma old_at x y (i : nat) u v : keyed_row fl k x -> keyed_row fl k y -> x !! i = Some u -> y !! i = Some v ->
  field (update_old fl false x y) (Z.of_nat i) = if is_pk fl (Z.of_nat i) || negb (bool_decide (u = v)) then Some u else None.
Proof.
  intros (_ & _ & C & _) (_ & _ & C' & _) Hu Hv. unfold update_old. rewrite (field_columns _ _ _ _ (lookup_zip _ _ _ _ _ Hu Hv)). unfold old_field. simpl.
  rewrite value_eq_canonical by (first [by apply (Forall_lookup_1 canonical x i)|by apply (Forall_lookup_1 canonical y i)]). by rewrite orb_comm.
Qed.

Lemma new_at x y (i : nat) u v : keyed_row fl k x -> keyed_row fl k y -> x !! i = Some u -> y !! i = Some v ->
  field (update_new fl false x y) (Z.of_nat i) = if bool_decide (u = v) then None else Some v.
Proof.
  intros (_ & _ & C & _) (_ & _ & C' & _) Hu Hv. unfold update_new. rewrite (field_columns _ _ _ _ (lookup_zip _ _ _ _ _ Hu Hv)). unfold new_field. simpl.
  rewrite value_eq_canonical by (first [by apply (Forall_lookup_1 canonical x i)|by apply (Forall_lookup_1 canonical y i)]). rewrite orb_false_r. by case_bool_decide.
Qed.

Lemma update_width x y : keyed_row fl k x -> keyed_row fl k y -> zlen (update_old fl false x y) = n /\ zlen (update_new fl false x y) = n /\
  Forall storable_field (update_old fl false x y) /\ Forall storable_field (update_new fl false x y).
Proof.
  intros (L & St & _) (L' & St' & _). unfold update_old, update_new. rewrite !zlen_columns. unfold zlen in *. rewrite length_zip_with.
  split_and!; try lia; by apply storable_update.
Qed.

Lemma three_way_at x y z (i : nat) u v w : x !! i = Some u -> y !! i = Some v -> z !! i = Some w ->
  three_way x y z !! i = Some (if bool_decide (u = w) then v else w).
Proof.
  intros Hu Hv Hw. unfold three_way. rewrite lookup_zip_with, Hv, (lookup_zip _ _ _ _ _ Hu Hw). simpl. by rewrite bool_decide_decide; destruct (decide _).
Qed.

Lemma three_way_keyed x y z : keyed_row fl k x -> keyed_row fl k y -> keyed_row fl k z -> keyed_row fl k (three_way x y z).
Proof.
  intros Kx Ky Kz. assert (zlen (three_way x y z) = n) as L.
  { destruct Kx as (L1 & _), Ky as (L2 & _), Kz as (L3 & _). unfold three_way, zlen in *. rewrite !length_zip_with. lia. }
  assert (forall (i : nat) v, three_way x y z !! i = Some v -> exists u v' w, x !! i = Some u /\ y !! i = Some v' /\ z !! i = Some w /\
    storable v' /\ canonical v' /\ storable w /\ canonical w /\ v = if bool_decide (u = w) then v' else w) as At.
  { intros i v E. assert (Z.of_nat i < n) as Hi by (apply lookup_lt_Some in E; unfold zlen in *; lia).
    destruct (keyed_at x i Kx Hi) as (u & Hu & _), (keyed_at y i Ky Hi) as (v' & Hv & ? & ?), (keyed_at z i Kz Hi) as (w & Hw & ? & ?).
    rewrite (three_way_at x y z i u v' w Hu Hv Hw) in E. injection E as <-. by exists u, v', w. }
  split_and!; [done| | |].
  - apply Forall_lookup. intros i v E. destruct (At i v E) as (u & v' & w & _ & _ & _ & ? & _ & ? & _ & ->). by case_bool_decide.
  - apply Forall_lookup. intros i v E. destruct (At i v E) as (u & v' & w & _ & _ & _ & _ & ? & _ & ? & ->). by case_bool_decide.
  - rewrite <- (proj2 (proj2 (proj2 Kz))). destruct Kz as (Lz & Kz). apply key_agree; [unfold zlen in *; lia|]. intros i P. simpl in P.
    destruct (three_way x y z !! i) as [v|] eqn:E.
    + destruct (At i v E) as (u & v' & w & Hu & Hv & Hw & _ & _ & _ & _ & ->). rewrite Hw.
      rewrite (keyed_pk y z i Ky (conj Lz Kz) P) in Hv. rewrite Hw in Hv. injection Hv as ->. by case_bool_decide.
    + symmetry. apply lookup_ge_None in E. apply lookup_ge_None. unfold zlen in *. lia.
Qed.

(** ** Records on the remote row *)

(** An update applies to a row that holds its old values. *)
Lemma takes_update x y z : keyed_row fl k x -> keyed_row fl k y -> keyed_row fl k z ->
  (forall (i : nat) u v, x !! i = Some u -> z !! i = Some v -> u <> v -> y !! i = Some u) ->
  takes (mkRecord Update (update_old fl false x y) (update_new fl false x y)) (Some z) (Some (three_way x y z)).
Proof.
  intros Kx Ky Kz H. unfold takes. simpl. destruct (update_width x y Kx Ky) as (W1 & W2 & S1 & S2). pose proof Kz as (Lz & _).
  exists z, (three_way x y z), (update_old fl false x y), (update_new fl false x y). split_and!; try done.
  - intros i w Hw. assert (Z.of_nat i < n) as Hi by (apply lookup_lt_Some in Hw; unfold zlen in *; lia).
    destruct (keyed_at x i Kx Hi) as (u & Hu & _), (keyed_at y i Ky Hi) as (v & Hv & _). rewrite (old_at x y i u v) by done.
    destruct (is_pk fl (Z.of_nat i)) eqn:P; simpl.
    + left. rewrite (keyed_pk x z i Kx Kz P) in Hu. congruence.
    + case_bool_decide as E; simpl; [by right|]. left. destruct (decide (u = w)) as [ -> |N]; [done|]. specialize (H i u w Hu Hw N). congruence.
  - intros i w Hw. assert (Z.of_nat i < n) as Hi by (apply lookup_lt_Some in Hw; unfold zlen in *; lia).
    destruct (keyed_at x i Kx Hi) as (u & Hu & _), (keyed_at y i Ky Hi) as (v & Hv & _).
    rewrite (three_way_at x y z i u v w), (new_at x y i u v) by done. f_equal. destruct (is_pk fl (Z.of_nat i)) eqn:P.
    + rewrite (keyed_pk x y i Kx Ky P) in Hu. rewrite (keyed_pk y z i Ky Kz P) in Hv. case_bool_decide; congruence.
    + destruct (decide (u = w)) as [ -> |N]; [rewrite bool_decide_eq_true_2 by done; case_bool_decide; simpl; congruence|].
      rewrite bool_decide_eq_false_2 by done. specialize (H i u w Hu Hw N). rewrite Hv in H. injection H as ->. by rewrite bool_decide_eq_true_2.
Qed.

Lemma three_way_base x y : keyed_row fl k x -> keyed_row fl k y -> three_way x y x = y.
Proof.
  intros Kx Ky. apply keyed_same_row; [by apply three_way_keyed|done|]. intros i u v Hu Hv.
  assert (Z.of_nat i < n) as Hi by (apply lookup_lt_Some in Hv; destruct Ky as (Ly & _); unfold zlen in *; lia).
  destruct (keyed_at x i Kx Hi) as (w & Hw & _). rewrite (three_way_at x y x i w v w), bool_decide_eq_true_2 in Hu by done. congruence.
Qed.

Lemma three_way_self x z : keyed_row fl k x -> keyed_row fl k z -> three_way x x z = z.
Proof.
  intros Kx Kz. apply keyed_same_row; [by apply three_way_keyed|done|]. intros i u v Hu Hv.
  assert (Z.of_nat i < n) as Hi by (apply lookup_lt_Some in Hv; destruct Kz as (Lz & _); unfold zlen in *; lia).
  destruct (keyed_at x i Kx Hi) as (w & Hw & _). rewrite (three_way_at x x z i w w v) in Hu by done. case_bool_decide; congruence.
Qed.

(** The local change applies where the remote change leaves its columns
    alone. *)
Lemma takes_change x y z w r : keyed_opt fl k x -> keyed_opt fl k y -> keyed_opt fl k z -> row_change x y = Some r ->
  (x = z /\ w = y \/ clean x y z w) -> takes r z w.
Proof.
  intros Kx Ky Kz E H. destruct x as [x|], y as [y|]; simpl in E.
  - rewrite (keyed_differ x y Kx Ky) in E. case_bool_decide as D; [done|]. injection E as <-.
    destruct H as [( <- & ->)|H].
    { pose proof (takes_update x y x Kx Ky Kx) as T. rewrite three_way_base in T by done. apply T. congruence. }
    destruct z as [z|]; simpl in H; [|destruct H as ([= ->] & _); done]. destruct H as (y' & [= <-] & -> & C). by apply takes_update.
  - injection E as <-. unfold takes. simpl. destruct H as [( <- & ->)|H]; [by split; [|exists x]|].
    destruct z as [z|]; simpl in H; [destruct H as (? & ? & _); done|by destruct H].
  - injection E as <-. unfold takes. simpl. destruct H as [( <- & ->)|H]; [by split; [|exists y]|].
    destruct z as [z|]; simpl in H; [by destruct H|done].
  - done.
Qed.

Lemma takes_full_update y z : keyed_row fl k y -> keyed_row fl k z -> takes (mkRecord Update (Some <$> z) (Some <$> y)) (Some z) (Some y).
Proof.
  intros Ky Kz. unfold takes. simpl. exists z, y, (Some <$> z), (Some <$> y). pose proof Ky as (Ly & Sy & _). pose proof Kz as (Lz & Sz & _).
  assert (forall row : list Value, zlen (Some <$> row) = zlen row) as W by (intros; unfold zlen; by rewrite length_fmap).
  split_and!; try done; rewrite ?W; try done; try (by apply Forall_fmap).
  - intros i v E. left. by rewrite field_some.
  - intros i v E. assert (Z.of_nat i < n) as Hi by (apply lookup_lt_Some in E; unfold zlen in *; lia).
    destruct (keyed_at y i Ky Hi) as (u & Hu & _). rewrite field_some, Hu. simpl. destruct (is_pk fl (Z.of_nat i)) eqn:P; [|done].
    rewrite <- (keyed_pk y z i Ky Kz P) in E. congruence.
Qed.

(** ** The fields of a resolution *)

Lemma captured_at r (i : nat) : Z.of_nat i < n ->
  field (captured fl n r) (Z.of_nat i) =
  field (if bool_decide (r_op r = Delete) || (bool_decide (r_op r = Update) && is_pk fl (Z.of_nat i)) then r_old r else r_new r) (Z.of_nat i).
Proof. intros Hi. unfold captured. by rewrite field_range. Qed.

Lemma captured_width r : zlen (captured fl n r) = n.
Proof. unfold captured. apply zlen_range, zlen_nonneg. Qed.

Lemma resolution_at r b (i : nat) : Z.of_nat i < n ->
  rfield (rb_fields (resolution r b)) (Z.of_nat i) = rebase_field fl b (Z.of_nat i) (field (captured fl n r) (Z.of_nat i)).
Proof. intros Hi. simpl. apply rfield_columns. pose proof (captured_width r). unfold zlen in *. lia. Qed.

Lemma resolution_width r b : zlen (rb_fields (resolution r b)) = n.
Proof. simpl. rewrite zlen_columns. apply captured_width. Qed.

(** What was captured of a remote update. *)
Lemma captured_update x z (i : nat) u w : keyed_row fl k x -> keyed_row fl k z -> x !! i = Some u -> z !! i = Some w -> Z.of_nat i < n ->
  field (captured fl n (mkRecord Update (update_old fl false x z) (update_new fl false x z))) (Z.of_nat i) =
  if is_pk fl (Z.of_nat i) then Some u else if bool_decide (u = w) then None else Some w.
Proof.
  intros Kx Kz Hu Hw Hi. rewrite captured_at by done. simpl. destruct (is_pk fl (Z.of_nat i)) eqn:P.
  - rewrite (old_at x z i u w), P by done. done.
  - by rewrite (new_at x z i u w).
Qed.

Lemma zlen_length {A} (l : list A) m : zlen l = m -> length l = Z.to_nat m.
Proof. unfold zlen. lia. Qed.

(** A local insert against a remote one. *)
Lemma insert_record z : keyed_row fl k z ->
  fields_to_record (rb_fields (resolution (mkRecord Insert [] (Some <$> z)) false)) = Some <$> z.
Proof.
  intros Kz. pose proof Kz as (Lz & _). set (r := mkRecord Insert [] (Some <$> z)). pose proof (resolution_width r false) as W.
  apply record_ext; [unfold fields_to_record; rewrite !length_fmap; unfold zlen in *; lia|]. intros i Hi. rewrite length_fmap in Hi.
  assert (Z.of_nat i < n) as Hi' by (unfold zlen in *; lia). pose proof (resolution_at r false i Hi') as R.
  rewrite captured_at in R by done. simpl r_op in R. simpl r_new in R. rewrite bool_decide_eq_false_2, bool_decide_eq_false_2 in R by done. cbn [orb andb] in R.
  rewrite field_some in R |- *. unfold fields_to_record. rewrite field_nat, list_lookup_fmap. unfold rfield in R. rewrite get_nat in R.
  destruct (keyed_at z i Kz Hi') as (v & Hv & _). rewrite Hv in R |- *. simpl in R. destruct (_ !! i); simpl in R; [by subst|done].
Qed.

(** A local update against a remote delete. *)
Lemma merge_fields_record x y : keyed_row fl k x -> keyed_row fl k y ->
  record_merge_fields (update_new fl false x y) (rb_fields (resolution (mkRecord Delete (Some <$> x) []) false)) = Some <$> y.
Proof.
  intros Kx Ky. pose proof Kx as (Lx & _). pose proof Ky as (Ly & _). set (r := mkRecord Delete (Some <$> x) []). pose proof (resolution_width r false) as W.
  destruct (update_width x y Kx Ky) as (_ & Wn & _). unfold record_merge_fields. rewrite Wn, W, Z.max_id.
  pose proof (zlen_nonneg fl). assert (forall g : Z -> option Value, length (g <$> column_range n) = Z.to_nat n) as Lr by (intros g; by apply zlen_length, zlen_range).
  apply record_ext; [rewrite Lr, length_fmap; unfold zlen in *; lia|]. intros i Hi. rewrite length_fmap in Hi.
  assert (Z.of_nat i < n) as Hi' by (unfold zlen in *; lia). rewrite field_range, field_some by done.
  destruct (keyed_at x i Kx Hi') as (u & Hu & _), (keyed_at y i Ky Hi') as (v & Hv & _). rewrite (new_at x y i u v), Hv by done.
  case_bool_decide as E; [|done]. rewrite resolution_at, captured_at by done. simpl. rewrite field_some, Hu. simpl. congruence.
Qed.

(** A local delete against a remote update. *)
Lemma merge_local_record x z : keyed_row fl k x -> keyed_row fl k z ->
  record_merge_local (rb_fields (resolution (mkRecord Update (update_old fl false x z) (update_new fl false x z)) false)) (Some <$> x) = Some <$> z.
Proof.
  intros Kx Kz. pose proof Kx as (Lx & _). pose proof Kz as (Lz & _). set (r := mkRecord Update _ _). pose proof (resolution_width r false) as W.
  assert (zlen (Some <$> x) = n) as Wx by (unfold zlen in *; by rewrite length_fmap). unfold record_merge_local. rewrite Wx, W, Z.max_id.
  pose proof (zlen_nonneg fl). assert (forall g : Z -> option Value, length (g <$> column_range n) = Z.to_nat n) as Lr by (intros g; by apply zlen_length, zlen_range).
  apply record_ext; [rewrite Lr, length_fmap; unfold zlen in *; lia|]. intros i Hi. rewrite length_fmap in Hi.
  assert (Z.of_nat i < n) as Hi' by (unfold zlen in *; lia). rewrite field_range, !field_some by done.
  destruct (keyed_at x i Kx Hi') as (u & Hu & _), (keyed_at z i Kz Hi') as (w & Hw & _). rewrite resolution_at by done. unfold r.
  rewrite (captured_update x z i u w), Hu, Hw by done. destruct (is_pk fl (Z.of_nat i)) eqn:P; simpl.
  - rewrite (keyed_pk x z i Kx Kz P) in Hu. congruence.
  - case_bool_decide; simpl; congruence.
Qed.

(** ** A local update against a remote update *)

Section partial.
Context (x y z : list Value) (b : bool) (Kx : keyed_row fl k x) (Ky : keyed_row fl k y) (Kz : keyed_row fl k z).

Notation fields := (rb_fields (resolution (mkRecord Update (update_old fl false x z) (update_new fl false x z)) b)).
Notation olds := (partial_old fl (update_old fl false x y) fields).
Notation news := (partial_new fl (update_new fl false x y) fields).

(** The columns of the rebased update. *)
Lemma partial_at (i : nat) u v w : x !! i = Some u -> y !! i = Some v -> z !! i = Some w -> Z.of_nat i < n ->
  olds (Z.of_nat i) =
    (if is_pk fl (Z.of_nat i) then (Some u, false)
     else if bool_decide (u = v) || (b && negb (bool_decide (u = w))) then (None, false) else (Some w, true)) /\
  news (Z.of_nat i) =
    (if is_pk fl (Z.of_nat i) || bool_decide (u = v) || (b && negb (bool_decide (u = w))) then None else Some v).
Proof using Kx Ky Kz.
  intros Hu Hv Hw Hi. unfold partial_old, partial_new. rewrite !resolution_at, !(captured_update x z i u w), (old_at x y i u v), (new_at x y i u v) by done.
  destruct (is_pk fl (Z.of_nat i)) eqn:P; unfold rebase_field; rewrite ?P.
  - rewrite andb_false_r. simpl. rewrite (keyed_pk x y i Kx Ky P) in Hu. rewrite bool_decide_eq_true_2 by congruence. done.
  - simpl. rewrite andb_true_r. destruct (decide (u = w)) as [ <- |N].
    + rewrite (bool_decide_eq_true_2 (u = u)) by done. rewrite andb_false_r, !orb_false_r. by case_bool_decide.
    + rewrite (bool_decide_eq_false_2 (u = w)) by done. rewrite andb_true_r. destruct b; simpl; [by rewrite orb_true_r|]. rewrite !orb_false_r. by case_bool_decide.
Qed.

Lemma rebase_update : x <> y -> exists o f, emit_partial_update fl (update_old fl false x y) (update_new fl false x y) fields = emitted <$> o /\
  match o with Some r => takes r (Some z) f | None => f = Some z end /\ f = Some (if b then three_way x y z else three_way x z y).
Proof using Kx Ky Kz.
  intros N. unfold emit_partial_update. pose proof (zlen_nonneg fl). set (cols := olds <$> column_range n).
  assert (forall i : nat, Z.of_nat i < n -> exists u v w, x !! i = Some u /\ y !! i = Some v /\ z !! i = Some w /\ storable v /\ storable u /\ storable w) as At.
  { intros i Hi. destruct (keyed_at x i Kx Hi) as (u & Hu & ? & _), (keyed_at y i Ky Hi) as (v & Hv & ? & _), (keyed_at z i Kz Hi) as (w & Hw & ? & _). by exists u, v, w. }
  assert (forall row (i : nat), keyed_row fl k row -> (i < length row)%nat -> Z.of_nat i < n) as In by (intros row i (L & _) Hi; unfold zlen in *; lia).
  destruct (existsb snd cols) eqn:Ex; simpl.
  - exists (Some (mkRecord Update (fst <$> cols) (news <$> column_range n))), (Some (if b then three_way x y z else three_way x z y)). split; [done|]. split; [|done].
    unfold takes. simpl. exists z, (if b then three_way x y z else three_way x z y), (fst <$> cols), (news <$> column_range n).
    assert (forall i : nat, Z.of_nat i < n -> field (fst <$> cols) (Z.of_nat i) = (olds (Z.of_nat i)).1) as Fo.
    { intros i Hi. unfold cols. rewrite <- list_fmap_compose. by rewrite (field_range (fst ∘ olds)). }
    assert (zlen (fst <$> cols) = n) as Lo by (unfold zlen, cols; rewrite !length_fmap; by apply zlen_column_range).
    assert (zlen (news <$> column_range n) = n) as Ln by by apply zlen_range.
    split_and!; try done.
    + apply storable_record. intros i v E. assert (Z.of_nat i < n) as Hi by (rewrite <- Lo; by eapply field_lt).
      destruct (At i Hi) as (u & v' & w & Hu & Hv & Hw & ? & ? & ?). rewrite Fo, (proj1 (partial_at i u v' w Hu Hv Hw Hi)) in E by done.
      destruct (is_pk _ _); simpl in E; [congruence|]. destruct (_ || _); simpl in E; congruence.
    + apply storable_record. intros i v E. assert (Z.of_nat i < n) as Hi by (pose proof (field_lt _ _ _ E); lia).
      destruct (At i Hi) as (u & v' & w & Hu & Hv & Hw & ? & ? & ?). rewrite field_range, (proj2 (partial_at i u v' w Hu Hv Hw Hi)) in E by done.
      destruct (_ || _ || _); simpl in E; congruence.
    + intros i w' Hw'. assert (Z.of_nat i < n) as Hi by (apply (In z); [done|by eapply lookup_lt_Some]).
      destruct (At i Hi) as (u & v & w & Hu & Hv & Hw & _). rewrite Hw in Hw'. injection Hw' as <-. rewrite Fo, (proj1 (partial_at i u v w Hu Hv Hw Hi)) by done.
      destruct (is_pk fl (Z.of_nat i)) eqn:P; simpl; [left; rewrite (keyed_pk x z i Kx Kz P) in Hu; congruence|]. destruct (_ || _); simpl; [by right|by left].
    + intros i w' Hw'. assert (Z.of_nat i < n) as Hi by (apply (In z); [done|by eapply lookup_lt_Some]).
      destruct (At i Hi) as (u & v & w & Hu & Hv & Hw & _). rewrite Hw in Hw'. injection Hw' as <-. rewrite field_range, (proj2 (partial_at i u v w Hu Hv Hw Hi)) by done.
      assert ((if b then three_way x y z else three_way x z y) !! i = Some (if b then (if bool_decide (u = w) then v else w) else (if bool_decide (u = v) then w else v))) as ->.
      { destruct b; by apply three_way_at. }
      destruct (is_pk fl (Z.of_nat i)) eqn:P; simpl.
      * rewrite (keyed_pk x y i Kx Ky P) in Hu. rewrite (keyed_pk y z i Ky Kz P) in Hv. rewrite Hw in Hv. injection Hv as <-. destruct b; by case_bool_decide.
      * destruct b; simpl; repeat case_bool_decide; simpl; congruence.
  - assert (forall (i : nat) u v w, x !! i = Some u -> y !! i = Some v -> z !! i = Some w -> Z.of_nat i < n -> is_pk fl (Z.of_nat i) = false ->
      bool_decide (u = v) || (b && negb (bool_decide (u = w))) = true) as Quiet.
    { intros i u v w Hu Hv Hw Hi P. destruct (bool_decide (u = v) || _) eqn:E; [done|]. exfalso.
      assert (existsb snd cols = true) as T; [|congruence]. apply existsb_exists. exists (olds (Z.of_nat i)). split.
      - apply list_elem_of_In. unfold cols. apply list_elem_of_fmap_2. apply elem_of_column_range. lia.
      - rewrite (proj1 (partial_at i u v w Hu Hv Hw Hi)), P, E. done. }
    destruct b.
    + exists None, (Some z). split; [done|]. split; [done|]. f_equal. apply keyed_same_row; [done|by apply three_way_keyed|]. intros i w' v' Hw' Hv'.
      assert (Z.of_nat i < n) as Hi by (apply (In z); [done|by eapply lookup_lt_Some]). destruct (At i Hi) as (u & v & w & Hu & Hv & Hw & _).
      rewrite (three_way_at x y z i u v w) in Hv' by done. injection Hv' as <-. rewrite Hw in Hw'. injection Hw' as <-.
      destruct (is_pk fl (Z.of_nat i)) eqn:P.
      * rewrite (keyed_pk y z i Ky Kz P) in Hv. case_bool_decide; congruence.
      * specialize (Quiet i u v w Hu Hv Hw Hi P). simpl in Quiet. repeat case_bool_decide; simpl in Quiet; congruence.
    + exfalso. apply N, keyed_same_row; [done|done|]. intros i u v Hu Hv. assert (Z.of_nat i < n) as Hi by (apply (In x); [done|by eapply lookup_lt_Some]).
      destruct (is_pk fl (Z.of_nat i)) eqn:P; [rewrite (keyed_pk x y i Kx Ky P) in Hu; congruence|].
      destruct (At i Hi) as (u' & v' & w & Hu' & Hv' & Hw & _). rewrite Hu in Hu'. rewrite Hv in Hv'. injection Hu' as <-. injection Hv' as <-.
      specialize (Quiet i u v w Hu Hv Hw Hi P). rewrite orb_false_r in Quiet. by apply bool_decide_eq_true in Quiet.
Qed.

End partial.

(** ** One row *)

(** The resolution the rebaser finds for the row. *)
Definition found_resolution (x z : option (list Value)) (e : option bool) : option RebaseChange :=
  match e, row_change x z with Some b, Some r => Some (resolution r b) | _, _ => None end.

(** The rebased local change turns the remote row into the row the resolution
    left; only where both updated the row and the remote update was omitted, the
    rebased change keeps the remote columns it does not set itself. *)
Lemma rebase_row x y z w e r rt : keyed_opt fl k x -> keyed_opt fl k y -> keyed_opt fl k z -> resolved x y z w e -> row_change x y = Some r ->
  (match rt with Some t => find_row k (rt_rows t) | None => None end) = found_resolution x z e ->
  exists o f, rebase_one fl rt r = emitted <$> o /\ match o with Some r' => takes r' z f | None => f = z end /\
    (f = w \/ e = Some false /\ w = y /\ exists x' y' z', x = Some x' /\ y = Some y' /\ z = Some z' /\ f = Some (three_way x' z' y')).
Proof.
  intros Kx Ky Kz R Er Hf. unfold rebase_one. rewrite (change_key k x y r Kx Ky Er), Hf.
  assert (x <> y) as Nxy by (intros E; apply (change_exists x y Kx Ky) in E; congruence).
  assert (x <> z -> forall b, found_resolution x z (Some b) = (fun r' => resolution r' b) <$> row_change x z) as Found by (intros _ b; simpl; by destruct (row_change x z)).
  destruct R as [E|w N C|w N F|N _].
  - simpl. exists (Some r), y. split; [by rewrite (emit_unchanged_bytes x y r Er)|]. split; [|by left]. apply (takes_change x y z y r); auto.
  - simpl. exists (Some r), w. split; [by rewrite (emit_unchanged_bytes x y r Er)|]. split; [|by left]. apply (takes_change x y z w r); auto.
  - rewrite (Found N). clear Found. destruct x as [x|], y as [y|], z as [z|]; simpl in F; try done; simpl in Er.
    + rewrite (keyed_differ x y Kx Ky), bool_decide_eq_false_2 in Er by congruence. injection Er as <-. simpl.
      rewrite (keyed_differ x z Kx Kz), bool_decide_eq_false_2 by congruence. simpl.
      destruct (rebase_update x y z true Kx Ky Kz) as (o & f & E & T & Ef); [congruence|]. simpl in E. exists o, f. split; [exact E|]. split; [exact T|]. left. by rewrite Ef.
    + rewrite (keyed_differ x y Kx Ky), bool_decide_eq_false_2 in Er by congruence. injection Er as <-. simpl. by exists None, None; split_and!; [..|left].
    + injection Er as <-. simpl. by exists None, (Some z); split_and!; [..|left].
  - rewrite (Found N). clear Found. destruct x as [x|], y as [y|], z as [z|]; try done; simpl in Er.
    + rewrite (keyed_differ x y Kx Ky), bool_decide_eq_false_2 in Er by congruence. injection Er as <-. simpl.
      rewrite (keyed_differ x z Kx Kz), bool_decide_eq_false_2 by congruence. simpl.
      destruct (rebase_update x y z false Kx Ky Kz) as (o & f & E & T & Ef); [congruence|]. simpl in E. exists o, f. split; [exact E|]. split; [exact T|]. right.
      split; [done|]. split; [done|]. by exists x, y, z.
    + rewrite (keyed_differ x y Kx Ky), bool_decide_eq_false_2 in Er by congruence. injection Er as <-. simpl.
      pose proof (merge_fields_record x y Kx Ky) as M. simpl in M. rewrite M. exists (Some (mkRecord Insert [] (Some <$> y))), (Some y). split; [done|]. split; [|by left].
      split; [done|]. by exists y.
    + injection Er as <-. simpl. rewrite (keyed_differ x z Kx Kz), bool_decide_eq_false_2 by congruence. simpl.
      pose proof (merge_local_record x z Kx Kz) as M. simpl in M. rewrite M. exists (Some (mkRecord Delete (Some <$> z) [])), None. split; [done|]. split; [|by left].
      split; [done|]. by exists z.
    + injection Er as <-. simpl. by exists None, None; split_and!; [..|left].
    + injection Er as <-. simpl. pose proof (insert_record z Kz) as M. simpl in M. rewrite M.
      exists (Some (mkRecord Update (Some <$> z) (Some <$> y))), (Some y). split; [done|]. split; [by apply takes_full_update|by left].
Qed.

End rows.

End RebaseRows.
