(* ===== verification/RebaseApply.v ===== *)
(** The two halves of rebasing beside the rows. Module [RebaseApply]: changes
    applied to a keyed store row by row, a record that fits the row
    ([apply_takes]), and a record against a row that was changed locally, with
    the conflict resolved by the handler and captured ([apply_resolves]). Module
    [RebaseBlob]: the bytes of the rebaser, where a rebase blob configures the
    tables of its entries ([configure_groups]) and the records [rebase] writes
    are read back ([reads_emitted]). *)

From stdpp Require Import gmap.
From S2P Require Import Prelude Varint Value Session SessionRead SessionProps SessionApply SessionStore SessionStep SessionNet Changeset ChangesetInvert ChangesetMerge.
From S2P Require Import ChangesetConcat Rebase RebaseRows.
Import Varint Value Session SessionRead SessionProps SessionApply SessionStore SessionStep SessionNet.
Import Changeset ChangesetFields ChangesetMerge ChangesetConcat Rebase RebaseRows.
Local Open Scope Z_scope.

Module RebaseApply.

(** ** The terms of a record *)

(** The terms of the key columns name the row. *)
Lemma pk_where_spec fl row source : zlen row = zlen fl ->
  (forall (i : nat) v, is_pk fl (Z.of_nat i) = true -> row !! i = Some v -> field source (Z.of_nat i) = Some v) ->
  names_key fl (pk_where fl (zlen fl) source) (row_key fl row) /\
  (forall row', zlen row' = zlen fl -> row_key fl row' = row_key fl row -> row_matches (pk_where fl (zlen fl) source) row' = true) /\
  ((exists i, 0 <= i < zlen fl /\ is_pk fl i = true) -> pk_where fl (zlen fl) source <> []).
Proof.
  intros L H. assert (forall i v, (i, v) ∈ pk_where fl (zlen fl) source <-> 0 <= i < zlen fl /\ is_pk fl i = true /\ v = default Null (field source i)) as El.
  { intros i v. unfold pk_where. rewrite list_elem_of_omap. split.
    - intros (j & Hj & E). apply elem_of_column_range in Hj. destruct (is_pk fl j) eqn:P; [|done]. injection E as <- <-. done.
    - intros (Hi & P & ->). exists i. split; [by apply elem_of_column_range|]. by rewrite P. }
  split_and!.
  - apply names_key_of; [done|]. intros i v P E. apply El. split; [apply lookup_lt_Some in E; unfold zlen in *; lia|]. split; [done|]. by rewrite (H i v P E).
  - intros row' L' K. apply row_matches_spec. intros i v (Hi & P & ->)%El. destruct (column_nat row i) as (j & u & -> & E); [lia|].
    rewrite get_nat, (H j u P E). simpl. rewrite <- E. apply (key_agree_inv fl 0); [unfold zlen in *; lia|exact K|exact P].
  - intros (i & Hi & P) E. pose proof (proj2 (El i (default Null (field source i)))) as M. rewrite E in M. apply (elem_of_nil (A := Z * Value) (i, default Null (field source i))). by apply M.
Qed.

Lemma full_where_row fl row : zlen row = zlen fl ->
  exists ws, full_where fl (column_range (zlen fl)) (Some <$> row) = Ok ws /\ names_key fl ws (row_key fl row) /\
    forall row', zlen row' = zlen fl -> (row_matches ws row' = true <-> row' = row).
Proof.
  intros L. assert (zlen (Some <$> row) = zlen row) as W by (unfold zlen; by rewrite length_fmap).
  destruct (where_of_old fl row (Some <$> row) L W) as (ws & E & N & M); [intros i v Hv; left; by rewrite field_some|].
  rewrite L in E. exists ws. split; [done|]. split; [done|]. intros row' L'. split; [|by intros ->].
  intros M'. apply row_ext; [congruence|]. intros i v' v Hv' Hv.
  rewrite full_where_ok in E by (rewrite W, L; apply (in_columns _ 0)). injection E as <-.
  assert ((Z.of_nat i, v) ∈ omap (where_field fl (Some <$> row)) (column_range (zlen fl))) as Hi.
  { apply elem_where. split; [apply lookup_lt_Some in Hv; unfold zlen in *; lia|]. unfold where_field. rewrite field_some, Hv. by destruct (is_pk _ _). }
  apply (proj1 (row_matches_spec _ _) M') in Hi. rewrite get_nat in Hi. congruence.
Qed.

(** The terms and assignments of an update. *)
Definition update_terms (fl : bytes) (fo : list (option Value)) : terms := omap (where_field fl fo) (column_range (zlen fl)).
Definition update_sets (fl : bytes) (fn : list (option Value)) : terms := omap (sets_field fl fn) (column_range (zlen fl)).

Lemma update_sets_safe fl fn : Forall (fun s => is_pk fl s.1 = false /\ 0 <= s.1) (update_sets fl fn).
Proof.
  apply Forall_forall. intros w Hw. apply list_elem_of_omap in Hw as (i & Hi & Hw). unfold sets_field in Hw.
  destruct (is_pk fl i) eqn:P; [done|]. destruct (field fn i); simplify_eq/=. split; [done|]. by apply (in_columns (zlen fl) i).
Qed.

Lemma update_assigns fl fn row (i : nat) v : zlen row = zlen fl -> row !! i = Some v ->
  assign (update_sets fl fn) row !! i = Some (if is_pk fl (Z.of_nat i) then v else default v (field fn (Z.of_nat i))).
Proof.
  intros L E. unfold update_sets. assert (i < length row)%nat as Hi by by eapply lookup_lt_Some.
  rewrite lookup_assign; [| |apply NoDup_column_range| |done].
  - rewrite bool_decide_eq_true_2 by (apply elem_of_column_range; unfold zlen in *; lia). unfold sets_field.
    destruct (is_pk fl (Z.of_nat i)); [done|]. destruct (field fn (Z.of_nat i)); [done|]. exact E.
  - intros j w Hw. unfold sets_field in Hw. destruct (is_pk fl j); [done|]. destruct (field fn j); by simplify_eq/=.
  - apply Forall_forall. intros j Hj. by apply (in_columns (zlen fl) j).
Qed.

Lemma update_terms_ok fl fo : zlen fo = zlen fl -> full_where fl (column_range (zlen fl)) fo = Ok (update_terms fl fo).
Proof. intros L. apply full_where_ok. rewrite L. apply (in_columns _ 0). Qed.

Lemma update_sets_ok fl fn : zlen fn = zlen fl -> set_list fl (column_range (zlen fl)) fn = Ok (update_sets fl fn).
Proof. intros L. apply set_list_ok. rewrite L. apply (in_columns _ 0). Qed.

Section apply.
Context {D : Type} {S : Store D} {rows : D -> bytes -> rows_of} {flags : bytes -> bytes} {valid : D -> Prop}.
Context {KS : KeyedStore rows S flags valid}.
Context {K : Type} (on_conflict : K -> ConflictType -> ConflictAction * K) (t : bytes) (k : list Value).

Notation fl := (flags t).
Notation n := (zlen (flags t)).
Notation m st := (rows (a_db st) t).

(** ** A record that fits *)

Lemma apply_takes (st : @ApplyState D K) r f : valid (a_db st) -> takes fl r (m st !! k) f -> keyed_opt fl k f ->
  moved (rows := rows) (valid := valid) t st (apply_one_change on_conflict t n fl r st) (upd (m st) k f).
Proof using KS.
  intros V T Kf. unfold takes in T. destruct (r_op r) eqn:Op.
  - destruct T as (E & row & -> & ->). destruct Kf as (L & _ & _ & Ek).
    destruct (apply_insert_clean on_conflict t st row V L) as (db' & Ed & V' & U & O); [by rewrite Ek|].
    exists db'. split; [exact Ed|]. split; [done|]. split; [|done]. rewrite U, Ek. done.
  - destruct T as (old & row & fo & fn & -> & E & -> & Lo & Ln & _ & _ & Ho & Hn). destruct (ks_rows rows _ _ _ _ V E) as (L & Ek).
    unfold apply_one_change, apply_update. simpl. rewrite update_sets_ok by done. bind_step.
    assert (assign (update_sets fl fn) old = row) as A.
    { pose proof (assign_key fl _ old (update_sets_safe fl fn)) as (La & _). apply row_ext; [destruct Kf as (Lr & _); congruence|]. intros i u v Hu Hv.
      assert (i < length old)%nat as Hi by (apply lookup_lt_Some in Hu; unfold zlen in *; lia). destruct (lookup_lt_is_Some_2 old i Hi) as (v0 & Hv0).
      rewrite (update_assigns fl fn old i v0 L Hv0) in Hu. rewrite (Hn i v0 Hv0) in Hv. congruence. }
    destruct (update_sets fl fn) as [|s0 sets0] eqn:Es.
    { simpl in A. subst row. exists (a_db st). split; [by destruct st|]. split; [done|]. split; [|done]. apply map_eq. intros k'.
      destruct (decide (k' = k)) as [ -> |N]; [by rewrite upd_eq|by rewrite upd_ne]. }
    rewrite <- Es in *. rewrite update_terms_ok by done. bind_step.
    destruct (where_of_old fl old fo L) as (ws & W & Nk & M); [congruence|exact Ho|]. rewrite L, update_terms_ok in W by done. injection W as <-.
    pose proof (ks_update rows (a_db st) t (update_sets fl fn) _ _ V Nk (update_sets_safe fl fn)) as I. rewrite Ek, E, M, A in I.
    destruct I as (db' & -> & V' & U & O). bind_step. exists db'. split; [done|]. split; [done|]. split; [|done]. exact U.
  - destruct T as (-> & old & -> & E). destruct (ks_rows rows _ _ _ _ V E) as (L & Ek).
    rewrite <- (delete_record_full fl). destruct (apply_delete_clean on_conflict t st false old V) as (db' & Ed & V' & U & O); [by rewrite Ek|].
    exists db'. split; [exact Ed|]. split; [done|]. split; [|done]. rewrite U, Ek. done.
Qed.

(** ** A record against a changed row *)

(** The handler resolves every conflict it may. *)
Definition resolves : Prop := forall h kind,
  (on_conflict h kind).1 = Omit \/ (on_conflict h kind).1 = Replace /\ (kind = Data \/ kind = Conflict).

Definition always_replaces : Prop := forall h, (on_conflict h Data).1 = Replace.

Definition captures (r : ChangeRecord) (e : option bool) : list RebaseEntry :=
  match e with Some b => [mkEntry t n fl (r_op r) b (captured fl n r)] | None => [] end.

Lemma ask_resolves r kind (st : @ApplyState D K) es : resolves -> a_rebase st = Some es -> exists h' a, (a = Omit \/ a = Replace /\ (kind = Data \/ kind = Conflict)) /\
  ask on_conflict t n fl r kind st = (a, mkApply (a_db st) h' (Some (es ++ captures r (Some (bool_decide (a = Replace)))))) /\ a = (on_conflict (a_handler st) kind).1.
Proof using Type.
  intros H E. unfold ask. specialize (H (a_handler st) kind). destruct (on_conflict (a_handler st) kind) as [a h'] eqn:Ec. simpl in H.
  exists h', a. split; [done|]. rewrite E. split; [|done]. by destruct H as [ -> |( -> & _)].
Qed.

(** What one remote change leaves: the row [w], with the capture [e]. *)
Definition resolves_to (st : @ApplyState D K) (es : list RebaseEntry) (r : ChangeRecord) (w : option (list Value)) (e : option bool) (res : res (@ApplyState D K)) : Prop :=
  exists db' h', res = Ok (mkApply db' h' (Some (es ++ captures r e))) /\ valid db' /\ updated rows (a_db st) db' t (upd (m st) k w).

Lemma resolves_same (st : @ApplyState D K) es r db' h' e : db' = a_db st -> valid db' -> resolves_to st es r (m st !! k) e (Ok (mkApply db' h' (Some (es ++ captures r e)))).
Proof using Type. intros -> V. exists (a_db st), h'. split; [done|]. split; [done|]. split; [by rewrite upd_same|done]. Qed.

Lemma resolves_moved (st : @ApplyState D K) es r w res : a_rebase st = Some es -> moved (rows := rows) (valid := valid) t st res (upd (m st) k w) -> resolves_to st es r w None res.
Proof using Type.
  intros E (db' & -> & V & U). exists db', (a_handler st). simpl. rewrite app_nil_r. split; [|done]. destruct st as [d h rb]. simpl in *. by rewrite E.
Qed.

(** The tail of a delete or an update that matched no row; [g] is the row the
    forced statement leaves. *)
Lemma no_match_resolves (st : @ApplyState D K) es r x g force : resolves -> a_rebase st = Some es -> valid (a_db st) -> zlen x = n -> row_key fl x = k ->
  (exists i, 0 <= i < n /\ is_pk fl i = true) ->
  (forall (i : nat) v, is_pk fl (Z.of_nat i) = true -> x !! i = Some v -> field (r_old r) (Z.of_nat i) = Some v) ->
  (forall y st', m st !! k = Some y -> a_db st' = a_db st ->
     exists db', force st' = Ok (with_db st' db') /\ valid db' /\ updated rows (a_db st) db' t (upd (m st) k (g y))) ->
  exists w e, resolves_to st es r w e (no_match on_conflict t n fl r force st) /\
    (e = Some false /\ w = m st !! k /\ (always_replaces -> m st !! k = None) \/ e = Some true /\ exists y, m st !! k = Some y /\ w = g y).
Proof using KS.
  intros H Er V L Ek Pk Hf F. unfold no_match, session_pk_row_exists.
  destruct (pk_where_spec fl x (r_old r) L Hf) as (Nk & Mt & Ne). rewrite Ek in Nk, Mt. specialize (Ne Pk).
  destruct (pk_where fl n (r_old r)) as [|w0 ws0] eqn:Ew; [done|]. rewrite <- Ew in *.
  rewrite (ks_exists rows (a_db st) t _ k V Nk). bind_step.
  destruct (m st !! k) as [y|] eqn:Ey.
  - destruct (ks_rows rows _ _ _ _ V Ey) as (Ly & Ky). rewrite (Mt y Ly Ky).
    destruct (ask_resolves r Data st es H Er) as (h' & a & Ha & -> & Hh). destruct Ha as [ -> |( -> & _)]; cbv iota beta.
    + exists (Some y), (Some false). split; [rewrite <- Ey; by apply resolves_same|]. left. split; [done|]. split; [done|]. intros A. rewrite A in Hh. done.
    + exists (g y), (Some true). split; [|by right; split; [|exists y]].
      destruct (F y (mkApply (a_db st) h' (Some (es ++ captures r (Some (bool_decide (Replace = Replace)))))) eq_refl eq_refl) as (db' & -> & V' & U). by exists db', h'.
  - destruct (ask_resolves r NotFound st es H Er) as (h' & a & Ha & -> & Hh). destruct Ha as [ -> |( -> & [N|N])]; [|done..]. cbv iota beta.
    exists None, (Some false). split; [rewrite <- Ey; by apply resolves_same|]. by left.
Qed.

(** The remote change from [x] to [z] against the local row. *)
Lemma apply_resolves (st : @ApplyState D K) es x z r : resolves -> a_rebase st = Some es -> valid (a_db st) ->
  (exists i, 0 <= i < n /\ is_pk fl i = true) -> keyed_opt fl k x -> keyed_opt fl k z -> row_change fl x z = Some r ->
  exists w e, resolves_to st es r w e (apply_one_change on_conflict t n fl r st) /\ resolved x (m st !! k) z w e /\
    (always_replaces -> e = Some false -> x = None \/ m st !! k = None \/ z = None).
Proof using KS.
  intros H Er V Pk Kx Kz Ec. assert (x <> z) as N by (intros E; apply (change_exists fl k x z Kx Kz) in E; congruence).
  destruct x as [x|], z as [z|]; simpl in Ec; [| | |done].
  - (* update *)
    rewrite (keyed_differ fl k x z Kx Kz), bool_decide_eq_false_2 in Ec by congruence. injection Ec as <-.
    pose proof Kx as (Lx & _ & _ & Ek). destruct (update_width fl k x z Kx Kz) as (Lo & Ln & _).
    set (fo := update_old fl false x z) in *. set (fn := update_new fl false x z) in *.
    assert (forall y, zlen y = n -> row_key fl y = k -> assign (update_sets fl fn) y = three_way x y z) as A.
    { intros y Ly Ky. pose proof (assign_key fl (update_sets fl fn) y (update_sets_safe fl fn)) as (La & _).
      pose proof Kz as (Lz & _). apply row_ext; [unfold three_way, zlen in *; rewrite !length_zip_with; lia|]. intros i u v Hu Hv.
      assert (Z.of_nat i < n) as Hi by (apply lookup_lt_Some in Hu; unfold zlen in *; lia).
      destruct (keyed_at fl k x i Kx Hi) as (ux & Hux & _), (keyed_at fl k z i Kz Hi) as (uz & Huz & _).
      destruct (lookup_lt_is_Some_2 y i) as (uy & Huy); [unfold zlen in *; lia|].
      rewrite (update_assigns fl fn y i uy Ly Huy) in Hu. rewrite (three_way_at x y z i ux uy uz) in Hv by done. unfold fn in Hu. rewrite (new_at fl k x z i ux uz) in Hu by done.
      destruct (is_pk fl (Z.of_nat i)) eqn:P; [|case_bool_decide; simpl in *; congruence].
      rewrite (keyed_pk fl k x z i Kx Kz P) in Hux. rewrite bool_decide_eq_true_2 in Hv; congruence. }
    assert (update_sets fl fn <> []) as Ne.
    { intros E. specialize (A x Lx Ek). rewrite E in A. simpl in A. apply N. f_equal. rewrite A. apply (keyed_same_row fl k); [by apply three_way_keyed|done|].
      intros i u v Hu Hv. assert (Z.of_nat i < n) as Hi by (apply lookup_lt_Some in Hv; destruct Kz as (Lz & _); unfold zlen in *; lia).
      destruct (keyed_at fl k x i Kx Hi) as (ux & Hux & _). rewrite (three_way_at x x z i ux ux v) in Hu by done. case_bool_decide; congruence. }
    destruct (where_of_old fl x fo Lx) as (ws & W & Nk & M).
    { rewrite Lx. exact Lo. }
    { intros i v Hv. assert (Z.of_nat i < n) as Hi by (apply lookup_lt_Some in Hv; unfold zlen in *; lia).
      destruct (keyed_at fl k z i Kz Hi) as (uz & Huz & _). unfold fo. rewrite (old_at fl k x z i v uz) by done.
      destruct (is_pk fl (Z.of_nat i)) eqn:P; simpl; [by left|]. case_bool_decide; simpl; [by right|by left]. }
    rewrite Lx, update_terms_ok in W by done. injection W as <-. rewrite Ek in Nk.
    assert (forall y, row_matches (update_terms fl fo) y = true -> forall (i : nat) u v, x !! i = Some u -> z !! i = Some v -> u <> v -> y !! i = Some u) as Compat.
    { intros y My i u v Hu Hv Nv. apply (proj1 (row_matches_spec _ _)) with (i := Z.of_nat i) (v := u) in My; [by rewrite get_nat in My|].
      apply elem_where. split; [apply lookup_lt_Some in Hu; unfold zlen in *; lia|]. unfold where_field, fo. rewrite (old_at fl k x z i u v) by done.
      rewrite bool_decide_eq_false_2, orb_true_r by done. by destruct (is_pk _ _). }
    unfold apply_one_change, apply_update. simpl. rewrite update_sets_ok by done. bind_step.
    destruct (update_sets fl fn) as [|s0 sets0] eqn:Es; [done|]. rewrite <- Es in *. rewrite update_terms_ok by done. bind_step.
    pose proof (ks_update rows (a_db st) t (update_sets fl fn) _ k V Nk (update_sets_safe fl fn)) as I.
    assert (st_update (a_db st) t (update_sets fl fn) (update_terms fl fo) = Ok (0, a_db st) -> m st !! k <> Some x ->
      exists w e, resolves_to st es (mkRecord Update fo fn) w e
        (let* r := st_update (a_db st) t (update_sets fl fn) (update_terms fl fo) in
         let st := with_db st r.2 in
         if 1 <=? r.1 then Ok st
         else no_match on_conflict t n fl (mkRecord Update fo fn) (fun st =>
           match st_update (a_db st) t (update_sets fl fn) (pk_where fl n fo) with
           | Ok r => Ok (with_db st r.2)
           | Err (EConstraint m) =>
               let '(a2, st) := ask on_conflict t n fl (mkRecord Update fo fn) Constraint st in
               match a2 with Omit => Ok st | _ => Err (EConstraint m) end
           | Err e => Err e
           | Panic => Panic
           end) st) /\ resolved (Some x) (m st !! k) (Some z) w e /\ (always_replaces -> e = Some false -> Some x = None \/ m st !! k = None \/ Some z = None)) as Miss.
    { intros -> Bad. bind_step. simpl (1 <=? _). cbv iota. replace (with_db st (a_db st)) with st by by destruct st. simpl snd.
      assert (forall (i : nat) v, is_pk fl (Z.of_nat i) = true -> x !! i = Some v -> field fo (Z.of_nat i) = Some v) as Hk.
      { intros i v P Hv. assert (Z.of_nat i < n) as Hi by (apply lookup_lt_Some in Hv; unfold zlen in *; lia).
        destruct (keyed_at fl k z i Kz Hi) as (uz & Huz & _). unfold fo. by rewrite (old_at fl k x z i v uz), P by done. }
      destruct (pk_where_spec fl x fo Lx Hk) as (Nk' & Mt & _). rewrite Ek in Nk', Mt.
      edestruct (no_match_resolves st es (mkRecord Update fo fn) x (fun y => Some (three_way x y z))) as (w & e & R & O); [done|done|done|done|exact Ek|done|exact Hk| |].
      2:{ exists w, e. split; [exact R|]. destruct O as [( -> & -> & Al)|( -> & y & Ey & ->)].
          - split; [by apply rs_omitted|]. intros A2 _. right. left. by apply Al.
          - split; [|done]. rewrite Ey. by apply rs_forced. }
      intros y st' Ey Edb. cbv beta. rewrite Edb. pose proof (ks_update rows (a_db st) t (update_sets fl fn) _ k V Nk' (update_sets_safe fl fn)) as I'.
      destruct (ks_rows rows _ _ _ _ V Ey) as (Ly & Ky). rewrite Ey, (Mt y Ly Ky), (A y Ly Ky) in I'. destruct I' as (db' & -> & V' & U & O). exists db'. split; [done|]. by split. }
    destruct (m st !! k) as [y|] eqn:Ey; [destruct (row_matches (update_terms fl fo) y) eqn:My|].
    + destruct I as (db' & -> & V' & U & O). bind_step. simpl (1 <=? _). cbv iota. destruct (ks_rows rows _ _ _ _ V Ey) as (Ly & Ky). rewrite (A y Ly Ky) in U.
      exists (Some (three_way x y z)), None. split; [apply resolves_moved; [done|]; by exists db'|]. split; [|done]. apply rs_clean; [done|].
      exists y. split; [done|]. split; [done|]. by apply Compat.
    + apply Miss; [done|]. intros [= ->]. congruence.
    + apply Miss; done.
  - (* delete *)
    injection Ec as <-. pose proof Kx as (Lx & _ & _ & Ek). destruct (full_where_row fl x Lx) as (ws & W & Nk & M). rewrite Ek in Nk.
    unfold apply_one_change, apply_delete. simpl. rewrite W. bind_step. pose proof (ks_delete rows (a_db st) t ws k V Nk) as I.
    assert (st_delete (a_db st) t ws = Ok (0, a_db st) -> m st !! k <> Some x ->
      exists w e, resolves_to st es (mkRecord Delete (Some <$> x) []) w e
        (let* r := st_delete (a_db st) t ws in
         let st := with_db st r.2 in
         if 1 <=? r.1 then Ok st
         else no_match on_conflict t n fl (mkRecord Delete (Some <$> x) []) (fun st =>
           let* r := st_delete (a_db st) t (pk_where fl n (Some <$> x)) in Ok (with_db st r.2)) st) /\
        resolved (Some x) (m st !! k) None w e /\ (always_replaces -> e = Some false -> Some x = None \/ m st !! k = None \/ @None (list Value) = None)) as Miss.
    { intros -> Bad. bind_step. simpl (1 <=? _). cbv iota. replace (with_db st (a_db st)) with st by by destruct st. simpl snd.
      assert (forall (i : nat) v, is_pk fl (Z.of_nat i) = true -> x !! i = Some v -> field (Some <$> x) (Z.of_nat i) = Some v) as Hk by (intros i v _ Hv; by rewrite field_some).
      destruct (pk_where_spec fl x (Some <$> x) Lx Hk) as (Nk' & Mt & _). rewrite Ek in Nk', Mt.
      edestruct (no_match_resolves st es (mkRecord Delete (Some <$> x) []) x (fun y => None)) as (w & e & R & O); [done|done|done|done|exact Ek|done|exact Hk| |].
      2:{ exists w, e. split; [exact R|]. split; [|by right; right]. destruct O as [( -> & -> & Al)|( -> & y & Ey & ->)]; [by apply rs_omitted|].
          rewrite Ey. by apply rs_forced. }
      intros y st' Ey Edb. cbv beta. rewrite Edb. pose proof (ks_delete rows (a_db st) t _ k V Nk') as I'.
      destruct (ks_rows rows _ _ _ _ V Ey) as (Ly & Ky). rewrite Ey, (Mt y Ly Ky) in I'. destruct I' as (db' & -> & V' & U & O). bind_step. exists db'. split; [done|]. by split. }
    destruct (m st !! k) as [y|] eqn:Ey; [destruct (row_matches ws y) eqn:My|].
    + destruct I as (db' & -> & V' & U & O). bind_step. simpl (1 <=? _). cbv iota. destruct (ks_rows rows _ _ _ _ V Ey) as (Ly & _). apply (M y Ly) in My as ->.
      exists None, None. split; [apply resolves_moved; [done|]; by exists db'|]. split; [|done]. by apply rs_clean.
    + apply Miss; [done|]. intros [= ->]. destruct (M x Lx) as (_ & Mx). rewrite Mx in My; done.
    + by apply Miss.
  - (* insert *)
    injection Ec as <-. pose proof Kz as (Lz & _ & _ & Ek). unfold apply_one_change, apply_insert. simpl.
    assert (default Null <$> (Some <$> z) = z) as ->.
    { rewrite <- list_fmap_compose. rewrite <- (list_fmap_id z) at 2. by apply list_fmap_ext. }
    pose proof (ks_insert rows (a_db st) t z V Lz) as I. rewrite Ek in I. destruct (m st !! k) as [y|] eqn:Ey.
    2:{ destruct I as (db' & -> & V' & U & O). exists (Some z), None. split; [apply resolves_moved; [done|]; by exists db'|]. split; [|done]. by apply rs_clean. }
    destruct I as (msg & ->). unfold session_pk_row_exists.
    destruct (pk_where_spec fl z (Some <$> z) Lz) as (Nk & Mt & Ne); [intros i v _ Hv; by rewrite field_some|]. rewrite Ek in Nk, Mt. specialize (Ne Pk).
    destruct (pk_where fl n (Some <$> z)) as [|w0 ws0] eqn:Ew; [done|]. rewrite <- Ew in *. clear w0 ws0 Ew.
    destruct (ks_rows rows _ _ _ _ V Ey) as (Ly & Ky). rewrite (ks_exists rows (a_db st) t _ k V Nk), Ey, (Mt y Ly Ky). bind_step.
    destruct (ask_resolves (mkRecord Insert [] (Some <$> z)) Conflict st es H Er) as (h' & a & Ha & -> & _). destruct Ha as [ -> |( -> & _)]; cbv iota beta.
    + exists (Some y), (Some false). split; [rewrite <- Ey; by apply resolves_same|]. split; [by apply rs_omitted|]. by left.
    + pose proof (ks_delete rows (a_db st) t _ k V Nk) as Id. rewrite Ey, (Mt y Ly Ky) in Id. destruct Id as (db1 & Ed & V1 & U1 & O1). simpl a_db. rewrite Ed. bind_step. simpl.
      pose proof (ks_insert rows db1 t z V1 Lz) as I1. rewrite Ek, U1, lookup_delete_eq in I1. destruct I1 as (db2 & -> & V2 & U2 & O2).
      exists (Some z), (Some true). split.
      * exists db2, h'. split; [done|]. split; [done|]. split; [|intros t' Nt; rewrite O2, O1; done]. rewrite U2. apply map_eq. intros k'.
        destruct (decide (k' = k)) as [ -> |Nk']; [by rewrite lookup_insert_eq, upd_eq|]. by rewrite lookup_insert_ne, lookup_delete_ne, upd_ne.
      * split; [by apply rs_forced|done].
Qed.

End apply.

End RebaseApply.

Import ChangesetInvert.

Module RebaseBlob.

(** ** Entries *)

Lemma write_record_bytes fs : write_record fs = record_bytes fs.
Proof. done. Qed.

Definition entry_key (e : RebaseEntry) : list Value := key_part (e_pk_flags e) 0 (e_values e).

(** The rebaser's change of an entry. *)
Definition entry_change (e : RebaseEntry) : RebaseChange :=
  mkChangeR (if bool_decide (e_op e = Delete) then Delete else Insert) (e_replace e) (columns (rebase_field (e_pk_flags e) (e_replace e)) 0 (e_values e)).

Definition entry_bytes (e : RebaseEntry) : bytes :=
  [if bool_decide (e_op e = Delete) then OP_DELETE else OP_INSERT; bool_byte (e_replace e)] ++ record_bytes (e_values e).

(** The entries of one table. *)
Definition group_ok (g : bytes * list RebaseEntry) (fl : bytes) : Prop :=
  0 < zlen fl < 2 ^ 56 /\ 0 ∉ g.1 /\ utf8_valid g.1 = true /\ NoDup (entry_key <$> g.2) /\
  Forall (fun e => e_table e = g.1 /\ e_ncol e = zlen fl /\ e_pk_flags e = fl /\ zlen (e_values e) = zlen fl /\ Forall storable_field (e_values e)) g.2.

Definition group_bytes (fl : bytes) (g : bytes * list RebaseEntry) : bytes :=
  match g.2 with [] => [] | es => table_header 84 (zlen fl) fl g.1 ++ concat (entry_bytes <$> es) end.

Definition group_table (fl : bytes) (g : bytes * list RebaseEntry) : option RebaseHashTable :=
  match g.2 with [] => None | es => Some (mkTableR g.1 (zlen fl) fl ((fun e => (entry_key e, entry_change e)) <$> es)) end.

Lemma existsb_seen (seen : list bytes) t : existsb (fun t' => bool_decide (t' = t)) seen = bool_decide (t ∈ seen).
Proof.
  apply eq_true_iff_eq. rewrite existsb_exists, bool_decide_eq_true. split.
  - intros (t' & Hin & E). apply bool_decide_eq_true in E as ->. by apply list_elem_of_In.
  - intros Hin. exists t. split; [by apply list_elem_of_In|by apply bool_decide_eq_true].
Qed.

Lemma rebase_entries_seen t es rest seen : Forall (fun e => e_table e = t) es -> t ∈ seen ->
  rebase_entries (es ++ rest) seen = concat (entry_bytes <$> es) ++ rebase_entries rest seen.
Proof.
  intros F Hs. induction F as [|e es <- _ IH]; [done|]. rewrite fmap_cons. cbn [app rebase_entries concat].
  rewrite existsb_seen, bool_decide_eq_true_2 by done. cbn [negb]. rewrite IH. unfold entry_bytes at 2. rewrite <- !(assoc_L app). done.
Qed.

(** The groups of distinct tables, one header each. *)
Lemma serialize_groups (flags : bytes -> bytes) gs seen : NoDup gs.*1 -> (forall t, t ∈ gs.*1 -> t ∉ seen) ->
  Forall (fun g => group_ok g (flags g.1)) gs -> rebase_entries (concat gs.*2) seen = concat ((fun g => group_bytes (flags g.1) g) <$> gs).
Proof.
  intros ND Hs F. revert seen Hs ND. induction F as [|[t es] gs (_ & _ & _ & _ & Fe) _ IH]; intros seen Hs ND; [done|].
  rewrite !fmap_cons in *. cbn [concat fst snd] in *. apply NoDup_cons in ND as (Nt & ND).
  unfold group_bytes at 1. simpl snd. simpl fst. destruct es as [|e es].
  - apply IH; [|done]. intros t' Ht'. apply Hs. by right.
  - apply Forall_cons in Fe as ((Et & En & Ef & _) & Fe). cbn [app rebase_entries]. rewrite Et, existsb_seen, bool_decide_eq_false_2 by (apply Hs; left).
    cbn [negb]. rewrite (rebase_entries_seen t).
    + rewrite IH; [|intros t' Ht' [H|H%list_elem_of_singleton]%elem_of_app; [apply (Hs t'); [by right|done]|by subst]|done].
      rewrite En, Ef. rewrite fmap_cons. cbn [concat]. unfold entry_bytes at 2. rewrite <- !(assoc_L app). done.
    + eapply Forall_impl; [exact Fe|]. by intros e' (E & _).
    + apply elem_of_app. right. by apply list_elem_of_singleton.
Qed.

(** ** [configure] *)

Definition configures (b : bytes) (ts : list RebaseHashTable) (cur : option Z) (ts' : list RebaseHashTable) (cur' : option Z) : Prop :=
  forall fuel pre rest, (length b + length rest <= fuel)%nat -> exists fuel', (length rest <= fuel')%nat /\
    configure_loop fuel (pre ++ b ++ rest) (zlen pre) ts cur = configure_loop fuel' (pre ++ b ++ rest) (zlen (pre ++ b)) ts' cur'.

Lemma configures_nil ts cur : configures [] ts cur ts cur.
Proof. intros fuel pre rest L. exists fuel. split; [simpl in L; lia|]. by rewrite app_nil_r. Qed.

Lemma configures_app b c ts cur ts1 cur1 ts2 cur2 : configures b ts cur ts1 cur1 -> configures c ts1 cur1 ts2 cur2 -> configures (b ++ c) ts cur ts2 cur2.
Proof.
  intros H K fuel pre rest L. destruct (H fuel pre (c ++ rest)) as (f & Lf & E); [rewrite !length_app in *; lia|].
  destruct (K f (pre ++ b) rest) as (f' & Lf' & E'); [rewrite !length_app in *; lia|].
  exists f'. split; [done|]. rewrite <- !(assoc_L app) in *. congruence.
Qed.

Lemma at_Ok {A} (a : A) ts k : at_tables (Ok a) ts k = k a.
Proof. done. Qed.

Lemma configures_header fl name ts cur : 0 < zlen fl < 2 ^ 56 -> 0 ∉ name -> utf8_valid name = true -> rebase_position ts name 0 = None ->
  configures (table_header 84 (zlen fl) fl name) ts cur (ts ++ [mkTableR name (zlen fl) fl []]) (Some (zlen ts)).
Proof.
  intros H N U P fuel pre rest Lf. set (b := append_varint (zlen fl) ++ fl ++ name ++ [0]). change (table_header 84 (zlen fl) fl name) with (84 :: b) in *.
  destruct fuel as [|fuel]; [simpl in Lf; lia|]. exists fuel. split; [simpl in Lf; lia|]. cbn [configure_loop]. rewrite loop_at, peek_at, at_Ok. simpl fst. rewrite Z.eqb_refl.
  pose proof (reads_u8 84 pre (b ++ rest)) as E1. change ([84] ++ b ++ rest) with ((84 :: b) ++ rest) in E1. rewrite E1, at_Ok. simpl snd.
  pose proof (reads_header "rebase table has zero columns" (zlen fl) fl name H eq_refl N (pre ++ [84]) rest) as R. fold b in R. rewrite <- !(assoc_L app) in R.
  change ([84] ++ b ++ rest) with ((84 :: b) ++ rest) in R. rewrite R, at_Ok. simpl fst. cbv iota beta. rewrite U, P. done.
Qed.

Lemma configures_entry e ts (i : nat) t : ts !! i = Some t -> rt_pk_flags t = e_pk_flags e -> rt_ncol t = zlen (e_values e) -> Forall storable_field (e_values e) ->
  configures (entry_bytes e) ts (Some (Z.of_nat i))
    (<[i := mkTableR (rt_name t) (rt_ncol t) (rt_pk_flags t) (merge_into (rt_pk_flags t) (entry_key e) (entry_change e) (rt_rows t))]> ts) (Some (Z.of_nat i)).
Proof.
  intros Ht Hf Hn F fuel pre rest Lf. destruct fuel as [|fuel]; [simpl in Lf; lia|]. exists fuel. split; [simpl in Lf; lia|].
  set (op := if bool_decide (e_op e = Delete) then OP_DELETE else OP_INSERT). change (entry_bytes e) with (op :: bool_byte (e_replace e) :: record_bytes (e_values e)) in *.
  cbn [configure_loop]. rewrite loop_at, peek_at, at_Ok. simpl fst.
  replace (op =? 84) with false by (by subst op; case_bool_decide). replace ((op =? OP_INSERT) || (op =? OP_DELETE)) with true by (by subst op; case_bool_decide).
  rewrite <- !app_comm_cons. destruct (read_two pre op (bool_byte (e_replace e)) (record_bytes (e_values e) ++ rest)) as (-> & R2 & _). rewrite at_Ok. simpl snd. rewrite R2, at_Ok.
  rewrite (idx_lookup _ _ _ Ht), at_Ok. pose proof (reads_fields (rt_ncol t) (e_values e) (eq_sym Hn) F (pre ++ [op; bool_byte (e_replace e)]) rest) as R.
  rewrite <- !(assoc_L app) in R. change ([op; bool_byte (e_replace e)] ++ concat (field_bytes <$> e_values e) ++ rest) with (op :: bool_byte (e_replace e) :: record_bytes (e_values e) ++ rest) in R.
  simpl snd. rewrite R, at_Ok. simpl fst. rewrite set_idx_Ok by (apply lookup_lt_Some in Ht; unfold zlen; lia). rewrite at_Ok, Nat2Z.id. unfold entry_key, entry_change. rewrite <- Hf.
  replace (if op =? OP_DELETE then Delete else Insert) with (if bool_decide (e_op e = Delete) then Delete else Insert) by (by subst op; case_bool_decide).
  replace (negb (bool_byte (e_replace e) =? 0)) with (e_replace e) by (by destruct (e_replace e)). done.
Qed.

Lemma merge_into_new fl pk c rows : pk ∉ rows.*1 -> merge_into fl pk c rows = rows ++ [(pk, c)].
Proof.
  induction rows as [|[k d] rows IH]; intros N; [done|]. rewrite fmap_cons in N. apply not_elem_of_cons in N as (N1 & N2). cbn [merge_into app].
  rewrite pk_eq_spec, bool_decide_eq_false_2 by done. by rewrite IH.
Qed.

Lemma configures_entries fl name es : Forall (fun e => e_pk_flags e = fl /\ zlen (e_values e) = zlen fl /\ Forall storable_field (e_values e)) es ->
  forall ts (i : nat) rows, ts !! i = Some (mkTableR name (zlen fl) fl rows) -> NoDup (rows.*1 ++ (entry_key <$> es)) ->
  configures (concat (entry_bytes <$> es)) ts (Some (Z.of_nat i))
    (<[i := mkTableR name (zlen fl) fl (rows ++ ((fun e => (entry_key e, entry_change e)) <$> es))]> ts) (Some (Z.of_nat i)).
Proof.
  induction 1 as [|e es (Ef & El & Es) _ IH]; intros ts i rows Ht ND.
  - simpl. rewrite app_nil_r, list_insert_id by done. apply configures_nil.
  - rewrite fmap_cons in ND. rewrite fmap_cons. cbn [concat]. assert (i < length ts)%nat as Hi by by eapply lookup_lt_Some.
    pose proof (configures_entry e ts i _ Ht (eq_sym Ef) (eq_sym El) Es) as C. cbn [rt_name rt_ncol rt_pk_flags rt_rows] in C.
    rewrite merge_into_new in C by (apply NoDup_app in ND as (_ & H & _); intros Hin; apply (H _ Hin); left).
    eapply configures_app; [exact C|].
    pose proof (IH (<[i := mkTableR name (zlen fl) fl (rows ++ [(entry_key e, entry_change e)])]> ts) i (rows ++ [(entry_key e, entry_change e)])) as I.
    rewrite list_insert_insert_eq, <- (assoc_L app) in I. rewrite fmap_cons. apply I; [by apply list_lookup_insert_eq|]. rewrite fmap_app, <- (assoc_L app). exact ND.
Qed.

Lemma rebase_position_from ts name (j : Z) : name ∉ rt_name <$> ts -> rebase_position ts name j = None.
Proof.
  revert j. induction ts as [|t ts IH]; intros j N; [done|]. rewrite fmap_cons in N. apply not_elem_of_cons in N as (N1 & N2). simpl. rewrite bool_decide_eq_false_2 by done. by apply IH.
Qed.

Lemma configures_groups (flags : bytes -> bytes) gs : Forall (fun g => group_ok g (flags g.1)) gs -> NoDup gs.*1 -> forall ts cur, (forall t, t ∈ gs.*1 -> t ∉ rt_name <$> ts) ->
  exists cur', configures (concat ((fun g => group_bytes (flags g.1) g) <$> gs)) ts cur (ts ++ omap (fun g => group_table (flags g.1) g) gs) cur'.
Proof.
  induction 1 as [|[t es] gs (B & N0 & U & NK & Fe) _ IH]; intros ND ts cur Hn; [exists cur; rewrite app_nil_r; apply configures_nil|].
  rewrite !fmap_cons in *. cbn [concat fst snd] in *. apply NoDup_cons in ND as (Nt & ND).
  destruct es as [|e es].
  - destruct (IH ND ts cur) as (cur' & C); [intros t' Ht'; apply Hn; by right|]. by exists cur'.
  - set (g := (t, e :: es)) in *. set (tb := mkTableR t (zlen (flags t)) (flags t) ((fun e => (entry_key e, entry_change e)) <$> e :: es)).
    destruct (IH ND (ts ++ [tb]) (Some (zlen ts))) as (cur' & C).
    { intros t' Ht'. rewrite fmap_app, not_elem_of_app. split; [apply Hn; by right|]. intros E%list_elem_of_singleton. simpl in E. by subst. }
    exists cur'. assert (omap (fun g => group_table (flags g.1) g) (g :: gs) = tb :: omap (fun g => group_table (flags g.1) g) gs) as -> by done.
    rewrite <- (assoc_L app) in C. simpl app in C. eapply configures_app; [|exact C].
    change (group_bytes (flags t) g) with (table_header 84 (zlen (flags t)) (flags t) t ++ concat (entry_bytes <$> e :: es)).
    eapply configures_app; [apply configures_header; try done; apply rebase_position_from, Hn; left|].
    pose proof (configures_entries (flags t) t (e :: es)) as Ce. specialize (Ce ltac:(eapply Forall_impl; [exact Fe|]; naive_solver) (ts ++ [mkTableR t (zlen (flags t)) (flags t) []]) (length ts) []).
    rewrite (insert_app_r_alt ts) in Ce by done. rewrite Nat.sub_diag in Ce. apply Ce; [by apply list_lookup_middle|]. exact NK.
Qed.

Lemma configure_groups (flags : bytes -> bytes) gs : Forall (fun g => group_ok g (flags g.1)) gs -> NoDup gs.*1 ->
  configure rebaser_new (serialize_rebase (concat gs.*2)) = (Ok (), omap (fun g => group_table (flags g.1) g) gs).
Proof.
  intros F ND. unfold serialize_rebase. rewrite (serialize_groups flags) by (done || intros t _; apply not_elem_of_nil).
  destruct (configures_groups flags gs F ND [] None) as (cur' & C); [intros t _; apply not_elem_of_nil|].
  set (b := concat _) in *. unfold configure. destruct (C (length b) [] []) as (f & _ & E); [simpl; lia|].
  rewrite app_nil_r in E. simpl in E. change (zlen (@nil Z)) with 0 in E. unfold rebaser_new. rewrite E. destruct f; simpl; by rewrite Z.leb_refl.
Qed.

(** ** Looking resolutions up *)

Definition lookup_resolution (rb : Rebaser) (t : bytes) (k : list Value) : option RebaseChange :=
  match find_table t rb with Some tb => find_row k (rt_rows tb) | None => None end.

Lemma find_row_entries es k : NoDup (entry_key <$> es) ->
  (forall e, e ∈ es -> entry_key e = k -> find_row k ((fun e => (entry_key e, entry_change e)) <$> es) = Some (entry_change e)) /\
  ((forall e, e ∈ es -> entry_key e <> k) -> find_row k ((fun e => (entry_key e, entry_change e)) <$> es) = None).
Proof.
  induction es as [|e es IH]; intros ND; [split; [by intros e ?%elem_of_nil|done]|]. rewrite fmap_cons in ND. rewrite fmap_cons. apply NoDup_cons in ND as (N & ND).
  destruct (IH ND) as (I1 & I2). cbn [find_row]. rewrite pk_eq_spec. split.
  - intros e' [ -> |He]%elem_of_cons Ek; [by rewrite bool_decide_eq_true_2|]. rewrite bool_decide_eq_false_2; [by apply I1|].
    intros Ek'. apply N. rewrite Ek', <- Ek. by apply list_elem_of_fmap_2.
  - intros H. rewrite bool_decide_eq_false_2 by (apply H; left). apply I2. intros e' He. apply H. by right.
Qed.

Lemma lookup_groups (flags : bytes -> bytes) gs t es k : NoDup gs.*1 -> (t, es) ∈ gs -> NoDup (entry_key <$> es) ->
  (forall e, e ∈ es -> entry_key e = k -> lookup_resolution (omap (fun g => group_table (flags g.1) g) gs) t k = Some (entry_change e)) /\
  ((forall e, e ∈ es -> entry_key e <> k) -> lookup_resolution (omap (fun g => group_table (flags g.1) g) gs) t k = None).
Proof.
  intros ND Hin NK. assert (find_table t (omap (fun g => group_table (flags g.1) g) gs) = group_table (flags t) (t, es)) as E.
  { assert (forall gs, t ∉ gs.*1 -> find_table t (omap (fun g => group_table (flags g.1) g) gs) = None) as Off.
    { clear. induction gs as [|[t' es'] gs IH]; intros N; [done|]. rewrite fmap_cons in N. apply not_elem_of_cons in N as (N1 & N2). simpl in N1.
      destruct es' as [|e' es']; simpl; [by apply IH|]. rewrite bool_decide_eq_false_2 by done. by apply IH. }
    induction gs as [|[t' es'] gs IH]; [by apply elem_of_nil in Hin|]. rewrite fmap_cons in ND. apply NoDup_cons in ND as (N1 & ND). simpl in N1.
    apply elem_of_cons in Hin as [[= <- <-]|Hin].
    - destruct es as [|e es]; simpl; [by apply Off|]. by rewrite bool_decide_eq_true_2.
    - assert (t' <> t) as Nt by (intros ->; apply N1; by apply (list_elem_of_fmap_2 fst _ (t, es))).
      destruct es' as [|e' es']; simpl; [by apply IH|]. rewrite bool_decide_eq_false_2 by done. by apply IH. }
  unfold lookup_resolution. rewrite E. destruct es as [|e es]; simpl; [split; [by intros e ?%elem_of_nil|done]|]. by apply (find_row_entries (e :: es) k).
Qed.

Lemma lookup_groups_none (flags : bytes -> bytes) gs t k : t ∉ gs.*1 -> lookup_resolution (omap (fun g => group_table (flags g.1) g) gs) t k = None.
Proof.
  intros N. unfold lookup_resolution. assert (find_table t (omap (fun g => group_table (flags g.1) g) gs) = None) as ->; [|done].
  induction gs as [|[t' es'] gs IH]; [done|]. rewrite fmap_cons in N. apply not_elem_of_cons in N as (N1 & N2). simpl in N1.
  destruct es' as [|e' es']; simpl; [by apply IH|]. rewrite bool_decide_eq_false_2 by done. by apply IH.
Qed.

(** ** The records written *)

Lemma reads_emitted name fl k r z f : keyed_opt fl k z -> keyed_opt fl k f -> takes fl r z f ->
  reads_change (new_table name (zlen fl) fl) false (emitted r) r.
Proof.
  intros Kz Kf T. unfold takes in T. destruct (r_op r) eqn:Op.
  - destruct T as (_ & row & -> & ->). destruct Kf as (L & St & _). pose proof (insert_case (new_table name (zlen fl) fl) false row false (conj L St)) as R.
    by rewrite concat_append_values in R.
  - destruct T as (old & row & fo & fn & -> & _ & _ & Lo & Ln & So & Sn & _). unfold emitted. simpl. split; [eexists _, _; split; [done|]; right; left; done|].
    unfold parse_record. apply reads_cons, reads_cons. simpl (OP_UPDATE =? _). cbv iota. simpl. unfold write_record.
    eapply reads_bind; [by apply reads_fields|]. apply (reads_bind_ret _ (fun new => mkRecord Update fo new)). by apply reads_fields.
  - destruct T as (_ & old & -> & ->). destruct Kz as (L & St & _). unfold emitted. simpl. split; [eexists _, _; split; [done|]; right; right; done|].
    unfold parse_record. apply reads_cons, reads_cons. simpl (OP_DELETE =? _). cbv iota. simpl.
    apply (reads_bind_ret _ (fun old => mkRecord Delete old [])). apply reads_fields; [unfold zlen in *; by rewrite length_fmap|by apply Forall_fmap].
Qed.

(** The records of one table behind its header. *)
Lemma parses_table_records name fl rs ts ps : 0 < zlen fl < 2 ^ 56 -> 0 ∉ name -> utf8_valid name = true ->
  Forall (fun r => reads_change (new_table name (zlen fl) fl) false (emitted r) r) rs ->
  parses (table_header 84 (zlen fl) fl name ++ concat (emitted <$> rs)) ts ps (ts ++ [mkTableChangeset name (zlen fl) fl rs]) false.
Proof.
  intros B N U F. eapply parses_app; [by apply (parses_header ts ps false)|].
  assert (forall rs0, parses (concat (emitted <$> rs)) (ts ++ [mkTableChangeset name (zlen fl) fl rs0]) false (ts ++ [mkTableChangeset name (zlen fl) fl (rs0 ++ rs)]) false) as P; [|exact (P [])].
  induction F as [|r rs R _ IH]; intros rs0; [rewrite app_nil_r; apply parses_nil|]. rewrite fmap_cons. cbn [concat].
  eapply parses_app; [exact (parses_change (new_table name (zlen fl) fl) false (emitted r) r ts R name rs0)|]. specialize (IH (rs0 ++ [r])). by rewrite <- (assoc_L app) in IH.
Qed.

End RebaseBlob.
