(* ===== verification/RebaseRemote.v ===== *)
(** A remote changeset on a store that was changed locally: what the records
    of a session's blob say row by row ([carried_view]), and that the rows, the
    captured entries and the rebaser they configure agree on how every row was
    resolved ([remote_applied]). *)

From S2P Require Import Prelude Varint Value Session SessionRead SessionProps SessionApply SessionStore SessionStep SessionNet.
From S2P Require Import Changeset ChangesetMerge ChangesetConcat ChangesetCompose Rebase RebaseRows RebaseApply.
From stdpp Require Import gmap.
Import Varint Value Session SessionRead SessionProps SessionApply SessionStore SessionStep SessionNet.
Import Changeset ChangesetFields ChangesetMerge ChangesetConcat ChangesetCompose Rebase RebaseRows RebaseApply RebaseBlob.
Local Open Scope Z_scope.

Module RebaseRemote.

Section view.
Context (schema : bytes -> option TableMeta) (WS : wf_schema schema).
Notation flags := (table_flags schema).

(** ** The records of a blob, row by row *)

(** The change of each key in [ks] from [r1] to [r2] is the record at its
    place in [rs]; the other rows are the same. *)
Definition changes_are (t : bytes) (r1 r2 : rows_of) (ks : list (list Value)) (rs : list ChangeRecord) : Prop :=
  NoDup ks /\ Forall2 (fun k r => row_change (flags t) (r1 !! k) (r2 !! k) = Some r) ks rs.

Definition table_viewed (d1 d2 : keyed_db) (tc : TableChangeset) : Prop :=
  (exists m ly, schema (tc_name tc) = Some m /\ session_pk_layout m = Some ly /\ tc_ncol tc = m_ncol m /\ tc_pk_flags tc = l_flags ly) /\
  tc_changes tc <> [] /\
  exists ks, changes_are (tc_name tc) (db_rows d1 (tc_name tc)) (db_rows d2 (tc_name tc)) ks (tc_changes tc) /\
    forall k, k ∉ ks -> db_rows d1 (tc_name tc) !! k = db_rows d2 (tc_name tc) !! k.

Record viewed (d1 d2 : keyed_db) (tcs : list TableChangeset) : Prop := {
  vw_names : NoDup (tc_name <$> tcs);
  vw_tables : Forall (table_viewed d1 d2) tcs;
  vw_rest : forall t, t ∉ tc_name <$> tcs -> db_rows d1 t = db_rows d2 t }.

Lemma changes_are_some t r1 r2 ks rs k : changes_are t r1 r2 ks rs -> k ∈ ks -> exists r, r ∈ rs /\ row_change (flags t) (r1 !! k) (r2 !! k) = Some r.
Proof using Type.
  intros (_ & F) (i & Hi)%list_elem_of_lookup. destruct (Forall2_lookup_l _ _ _ _ _ F Hi) as (r & Hr & E). exists r. split; [by eapply list_elem_of_lookup_2|done].
Qed.

(** Every recorded table has a key column. *)
Lemma layout_key m ly : wf_meta m -> session_pk_layout m = Some ly -> exists i, 0 <= i < zlen (l_flags ly) /\ is_pk (l_flags ly) i = true.
Proof using Type.
  intros W E. destruct (session_pk_layout_ok m ly W E) as (B & L & P). assert (l_positions ly <> []) as N.
  { unfold session_pk_layout in E. destruct (m_ipk m); [destruct (_ <=? _); [done|]; by injection E as <-|].
    destruct (m_pk_decl m) as [[|p0 pk]|]; [done| |done]. destruct (filter _ _) as [|q qs]; [done|]. by injection E as <-. }
  destruct (l_positions ly) as [|i l] eqn:El; [done|]. exists i. rewrite L.
  assert (i ∈ filter (fun i => is_pk (l_flags ly) i = true) (column_range (m_ncol m))) as Hi by (rewrite <- P; left).
  apply list_elem_of_filter in Hi as (Pi & Hi). split; [by apply elem_of_column_range|done].
Qed.

Context (d1 d2 : keyed_db) (G1 : good_db schema d1) (G2 : good_db schema d2).

(** A recorded change is the change of its row. *)
Lemma record_is_change t c : t_pk_flags t = flags (t_name t) -> entry_ok (db_rows d1 (t_name t)) c ->
  change_record (live d2) t false c = row_change (flags (t_name t)) (db_rows d1 (t_name t) !! c_pk c) (db_rows d2 (t_name t) !! c_pk c).
Proof using Type.
  intros Hf Ec. unfold change_record, live. rewrite Hf. unfold entry_ok in Ec. destruct (c_op c); rewrite Ec; destruct (db_rows d2 (t_name t) !! c_pk c); simpl; try done;
    by rewrite (delete_record_full (flags (t_name t))).
Qed.

Lemma table_view t : table_carries schema (db_rows d1 (t_name t)) (db_rows d2 (t_name t)) t ->
  match table_records (live d2) false t with
  | [] => db_rows d1 (t_name t) = db_rows d2 (t_name t)
  | tc :: tcs => tcs = [] /\ tc_name tc = t_name t /\ table_viewed d1 d2 tc
  end.
Proof using WS G1 G2.
  intros [(m & ly & Hs & Hl & Hn & Hf) Cn _ K F Tr]. destruct (table_flags_eq schema _ m ly Hs Hl) as (_ & Ef).
  pose proof (good_keyed schema d1 (t_name t) WS G1) as K1. pose proof (good_keyed schema d2 (t_name t) WS G2) as K2.
  assert (exists ks, changes_are (t_name t) (db_rows d1 (t_name t)) (db_rows d2 (t_name t)) ks (omap (change_record (live d2) t false) (entries t)) /\
    (forall k, k ∈ ks -> k ∈ c_pk <$> entries t) /\
    forall k, k ∈ c_pk <$> entries t -> k ∉ ks -> db_rows d1 (t_name t) !! k = db_rows d2 (t_name t) !! k) as (ks & Are & Sub & Rest).
  { clear Cn Tr. induction (entries t) as [|c cs IH].
    - exists []. split; [by split; constructor|]. split; [done|]. by intros k ?%elem_of_nil.
    - apply Forall_cons in F as (Fc & F). rewrite fmap_cons in K. apply NoDup_cons in K as (Nc & K). destruct (IH K F) as (ks & (ND & F2) & Sub & Rest).
      pose proof (record_is_change t c ltac:(congruence) Fc) as Rc. simpl. rewrite Rc.
      destruct (row_change _ _ _) as [r|] eqn:Er.
      + exists (c_pk c :: ks). split; [split; [constructor; [|done]; by intros H%Sub|by constructor]|]. split.
        * intros k [ -> |Hk]%elem_of_cons; [left|right; by apply Sub].
        * intros k [ -> |Hk]%elem_of_cons N; [exfalso; apply N; left|]. apply Rest; [done|]. intros H. apply N. by right.
      + exists ks. split; [done|]. split; [intros k Hk; right; by apply Sub|]. intros k [ -> |Hk]%elem_of_cons N; [|by apply Rest].
        apply (change_exists (flags (t_name t)) (c_pk c)) in Er; [done|apply K1|apply K2]. }
  unfold table_records, table_is_empty. fold (entries t). rewrite Cn.
  assert (omap (change_record (live d2) t false) (entries t) = [] -> db_rows d1 (t_name t) = db_rows d2 (t_name t)) as Nothing.
  { intros E. apply map_eq. intros k. destruct (decide (k ∈ c_pk <$> entries t)) as [Hk|Hk]; [|symmetry; by apply Tr].
    apply Rest; [done|]. intros H. destruct (changes_are_some _ _ _ _ _ k Are H) as (r & Hr & _). rewrite E in Hr. by apply elem_of_nil in Hr. }
  destruct (zlen (entries t) =? 0) eqn:Z0.
  { apply Nothing. apply Z.eqb_eq in Z0. destruct (entries t); [done|]. rewrite zlen_cons in Z0. pose proof (zlen_nonneg l). lia. }
  destruct (omap _ _) as [|r rs] eqn:Er; [by apply Nothing|]. split; [done|]. split; [done|]. split; [by exists m, ly|]. split; [done|].
  exists ks. split; [exact Are|]. intros k Hk. simpl in Hk |- *. destruct (decide (k ∈ c_pk <$> entries t)); [by apply Rest|symmetry; by apply Tr].
Qed.

Lemma tables_view ts : NoDup (t_name <$> ts) -> Forall (fun t => table_carries schema (db_rows d1 (t_name t)) (db_rows d2 (t_name t)) t) ts ->
  let tcs := concat (table_records (live d2) false <$> ts) in
  NoDup (tc_name <$> tcs) /\ Forall (table_viewed d1 d2) tcs /\ (forall t, t ∈ tc_name <$> tcs -> t ∈ t_name <$> ts) /\
  forall t, t ∈ t_name <$> ts -> t ∉ tc_name <$> tcs -> db_rows d1 t = db_rows d2 t.
Proof using WS G1 G2.
  intros N F. induction F as [|t ts C _ IH]; intros tcs; [split_and!; [constructor|constructor|done|by intros t ?%elem_of_nil]|].
  rewrite fmap_cons in N. apply NoDup_cons in N as (Nt & N). destruct (IH N) as (I1 & I2 & I3 & I4). subst tcs. rewrite !fmap_cons. cbn [concat].
  pose proof (table_view t C) as V. destruct (table_records (live d2) false t) as [|tc l].
  - split_and!; [done..|intros t' H; right; by apply I3|]. intros t' [ -> |Ht]%elem_of_cons Hn; [done|by apply I4].
  - destruct V as (-> & En & V). cbn [app]. rewrite fmap_cons, En. split_and!.
    + constructor; [|done]. by intros H%I3.
    + by constructor.
    + intros t' [ -> |Ht]%elem_of_cons; [left|right; by apply I3].
    + intros t' [ -> |Ht]%elem_of_cons Hn; [exfalso; apply Hn; left|]. apply I4; [done|]. intros H. apply Hn. by right.
Qed.

(** What the records of a blob say. *)
Lemma carried_view s : carries schema d1 d2 s -> viewed d1 d2 (session_records (live d2) s false).
Proof using WS G1 G2.
  intros [N F R]. destruct (tables_view (tables s) N F) as (H1 & H2 & H3 & H4). constructor; [done..|].
  intros t Ht. destruct (decide (t ∈ t_name <$> tables s)); [by apply H4|symmetry; by apply R].
Qed.

End view.

(** ** The captured entries *)

Lemma key_part_agree fl i (a b : list (option Value)) : length a = length b ->
  (forall n : nat, is_pk fl (i + Z.of_nat n) = true -> a !! n = b !! n) -> key_part fl i a = key_part fl i b.
Proof.
  revert i b. induction a as [|u a IH]; intros i [|v b] L H; simpl in L; try done. cbn [key_part]. rewrite (IH (i + 1) b); [|lia|].
  - f_equal. destruct (is_pk fl i) eqn:P; [|done]. specialize (H 0%nat). rewrite Z.add_0_r in H. specialize (H P). simpl in H. congruence.
  - intros n P. apply (H (S n)). rewrite <- P. f_equal. lia.
Qed.

Lemma zlen_some (row : list Value) : zlen (Some <$> row) = zlen row.
Proof. unfold zlen. by rewrite length_fmap. Qed.

Section captured.
Context (fl : bytes) (k : list Value).

(** What is captured of a change names its row and can be written. *)
Lemma captured_spec x z r : keyed_opt fl k x -> keyed_opt fl k z -> row_change fl x z = Some r ->
  key_part fl 0 (captured fl (zlen fl) r) = k /\ Forall storable_field (captured fl (zlen fl) r).
Proof.
  intros Kx Kz E. pose proof (captured_width fl r) as W.
  set (src := match r_op r with Insert => r_new r | _ => r_old r end).
  assert (zlen src = zlen fl /\ Forall storable_field src /\ (r_op r = Update -> Forall storable_field (r_new r))) as (Ws & Ss & Sn).
  { destruct x as [x|], z as [z|]; simpl in E; [|injection E as <-; subst src; simpl; rewrite zlen_some..|done].
    - destruct (rows_differ x z); [|done]. injection E as <-. destruct (update_width fl k x z Kx Kz) as (W1 & W2 & S1 & S2). done.
    - destruct Kx as (L & St & _). split_and!; [done|by apply Forall_fmap|done].
    - destruct Kz as (L & St & _). split_and!; [done|by apply Forall_fmap|done]. }
  assert (forall (i : nat), Z.of_nat i < zlen fl -> exists fs, field (captured fl (zlen fl) r) (Z.of_nat i) = field fs (Z.of_nat i) /\
    (fs = src \/ fs = r_new r /\ r_op r = Update /\ is_pk fl (Z.of_nat i) = false)) as At.
  { intros i Hi. rewrite captured_at by done. subst src. destruct (r_op r) eqn:Op; simpl; [eauto..| |eauto].
    destruct (is_pk fl (Z.of_nat i)) eqn:P; simpl; eauto 6. }
  split.
  - rewrite <- (change_key fl k x z r Kx Kz E). fold src. apply key_part_agree; [unfold zlen in *; lia|]. intros i P. rewrite Z.add_0_l in P.
    destruct (Z.lt_ge_cases (Z.of_nat i) (zlen fl)) as [Hi|Hi].
    + destruct (At i Hi) as (fs & Ef & [ -> |(_ & _ & N)]); [|congruence]. rewrite !field_nat in Ef.
      destruct (lookup_lt_is_Some_2 (captured fl (zlen fl) r) i) as (a & Ha); [unfold zlen in *; lia|].
      destruct (lookup_lt_is_Some_2 src i) as (c & Hc); [unfold zlen in *; lia|]. rewrite Ha, Hc in Ef |- *. congruence.
    + rewrite !lookup_ge_None_2; [done|unfold zlen in *; lia..].
  - apply storable_record. intros i v Ev. assert (Z.of_nat i < zlen fl) as Hi by (rewrite <- W; by eapply field_lt).
    destruct (At i Hi) as (fs & Ef & H). rewrite Ef, field_nat in Ev. destruct (fs !! i) as [[u|]|] eqn:Eu; [|done..]. injection Ev as <-.
    assert (Forall storable_field fs) as F by (destruct H as [ -> |( -> & Op & _)]; auto). exact (Forall_lookup_1 storable_field fs i (Some u) F Eu).
Qed.

End captured.

(** ** Applying the remote changeset *)

Section remote.
Context (schema : bytes -> option TableMeta) (WS : wf_schema schema).
Context {D : Type} {S : Store D} {rows : D -> bytes -> rows_of} {valid : D -> Prop} {KS : KeyedStore rows S (table_flags schema) valid}.
Context {K : Type} (on_conflict : K -> ConflictType -> ConflictAction * K) (Res : resolves on_conflict).
Context (base rem : keyed_db) (Gb : good_db schema base) (Gr : good_db schema rem).
Notation flags := (table_flags schema).
Notation x t := (db_rows base t).
Notation z t := (db_rows rem t).

(** How the row [k] of [t], [y] before the remote change and [w] after it, was
    resolved. *)
Definition row_resolved (t : bytes) (k : list Value) (y w : option (list Value)) (e : option bool) : Prop :=
  resolved (x t !! k) y (z t !! k) w e /\
  (always_replaces on_conflict -> e = Some false -> x t !! k = None \/ y = None \/ z t !! k = None).

Definition captured_entries (t : bytes) (E : list Value -> option bool) (ks : list (list Value)) (rs : list ChangeRecord) : list RebaseEntry :=
  concat (zip_with (fun k r => captures (flags := flags) t r (E k)) ks rs).

Lemma captured_entries_ext t E E' ks rs : (forall k, k ∈ ks -> E k = E' k) -> captured_entries t E ks rs = captured_entries t E' ks rs.
Proof using Type.
  intros H. unfold captured_entries. revert rs. induction ks as [|k ks IH]; intros [|r rs]; [done..|]. simpl.
  rewrite H by left. f_equal. apply IH. intros k' Hk. apply H. by right.
Qed.

Lemma apply_keys t ks rs : (exists i, 0 <= i < zlen (flags t) /\ is_pk (flags t) i = true) -> changes_are schema t (x t) (z t) ks rs ->
  forall (st : @ApplyState D K) es, a_rebase st = Some es -> valid (a_db st) ->
  exists db' h' E, apply_changes on_conflict t (zlen (flags t)) (flags t) rs st = Ok (mkApply db' h' (Some (es ++ captured_entries t E ks rs))) /\
    valid db' /\ (forall t', t' <> t -> rows db' t' = rows (a_db st) t') /\
    (forall k, k ∉ ks -> rows db' t !! k = rows (a_db st) t !! k /\ E k = None) /\
    forall k, k ∈ ks -> row_resolved t k (rows (a_db st) t !! k) (rows db' t !! k) (E k).
Proof using WS KS Res Gb Gr.
  intros Pk (ND & F). induction F as [|k r ks rs Er F IH]; intros st es Es V.
  - exists (a_db st), (a_handler st), (fun _ => None). split; [simpl; rewrite app_nil_r; destruct st; simpl in *; by subst|].
    split_and!; try done. by intros k ?%elem_of_nil.
  - apply NoDup_cons in ND as (Nk & ND).
    pose proof (good_keyed schema base t WS Gb k) as Kx. pose proof (good_keyed schema rem t WS Gr k) as Kz.
    destruct (apply_resolves (rows := rows) (valid := valid) on_conflict t k st es _ _ r Res Es V Pk Kx Kz Er) as (w & e & (db1 & h1 & E1 & V1 & U1 & O1) & R1 & A1).
    destruct (IH ND (mkApply db1 h1 (Some (es ++ captures (flags := flags) t r e))) _ eq_refl V1) as (db2 & h2 & E & E2 & V2 & O2 & N2 & R2).
    destruct (N2 k Nk) as (Nr & Ne). simpl in O2, N2, R2, Nr.
    exists db2, h2, (fun k' => if decide (k' = k) then e else E k'). split_and!.
    + cbn [apply_changes]. rewrite E1. bind_step. rewrite E2. do 3 f_equal. rewrite <- (assoc_L app). f_equal. unfold captured_entries at 2. simpl.
      rewrite decide_True by done. f_equal. apply captured_entries_ext. intros k' Hk. rewrite decide_False; [done|]. by intros ->.
    + done.
    + intros t' Nt. rewrite O2 by done. by apply O1.
    + intros k' (N1 & N3)%not_elem_of_cons. destruct (N2 k' N3) as (-> & ->). rewrite decide_False by done. split; [|done]. rewrite U1. by apply upd_ne.
    + intros k' [ -> |Hk]%elem_of_cons.
      * rewrite decide_True by done. rewrite Nr, U1, upd_eq. by split.
      * assert (k' <> k) as Nkk by by intros ->. rewrite decide_False by done. specialize (R2 k' Hk). rewrite U1, upd_ne in R2 by done. done.
Qed.

(** The entries of a table tell the resolution of its rows. *)
Definition tells (t : bytes) (E : list Value -> option bool) (es : list RebaseEntry) : Prop :=
  (forall k b r, E k = Some b -> row_change (flags t) (x t !! k) (z t !! k) = Some r ->
     exists e, e ∈ es /\ entry_key e = k /\ entry_change e = resolution (flags t) r b) /\
  (forall k, E k = None -> forall e, e ∈ es -> entry_key e <> k).

Lemma captured_tells t E ks rs m ly : schema t = Some m -> session_pk_layout m = Some ly -> changes_are schema t (x t) (z t) ks rs ->
  (forall k, k ∉ ks -> E k = None) -> group_ok (t, captured_entries t E ks rs) (flags t) /\ tells t E (captured_entries t E ks rs).
Proof using WS Gb Gr.
  intros Hs Hl (ND & F) Off. destruct (WS t m Hs) as (Wm & _ & U & N0). destruct (session_pk_layout_ok m ly Wm Hl) as (B & Lf & _).
  destruct (table_flags_eq schema t m ly Hs Hl) as (_ & Ef). rewrite <- Ef in Lf.
  set (entry := fun (b : bool) r => mkEntry t (zlen (flags t)) (flags t) (r_op r) b (captured (flags t) (zlen (flags t)) r)).
  assert (forall k b r, row_change (flags t) (x t !! k) (z t !! k) = Some r -> entry_key (entry b r) = k /\ Forall storable_field (e_values (entry b r))) as Sp.
  { intros k b r Er. apply (captured_spec (flags t) k (x t !! k) (z t !! k)); [by apply good_keyed..|done]. }
  assert ((forall e, e ∈ captured_entries t E ks rs -> exists k b r, k ∈ ks /\ E k = Some b /\ row_change (flags t) (x t !! k) (z t !! k) = Some r /\ e = entry b r) /\
    (forall k b r, k ∈ ks -> E k = Some b -> row_change (flags t) (x t !! k) (z t !! k) = Some r -> entry b r ∈ captured_entries t E ks rs) /\
    NoDup (entry_key <$> captured_entries t E ks rs)) as (In & Out & NK).
  { clear Off. induction F as [|k r ks rs Er F IH]; [split_and!; [by intros e ?%elem_of_nil|by intros k b r ?%elem_of_nil|constructor]|].
    apply NoDup_cons in ND as (Nk & ND). destruct (IH ND) as (I1 & I2 & I3). unfold captured_entries. simpl. fold (captured_entries t E ks rs). split_and!.
    - intros e [He|He]%elem_of_app.
      + destruct (E k) as [b|] eqn:Ek; [|by apply elem_of_nil in He]. apply list_elem_of_singleton in He as ->. exists k, b, r. split_and!; [left|done..].
      + destruct (I1 e He) as (k' & b & r' & Hk & Hr). exists k', b, r'. split; [by right|done].
    - intros k' b r' [ -> |Hk]%elem_of_cons Eb Er'; apply elem_of_app; [left|right; by eapply I2]. rewrite Eb. apply list_elem_of_singleton. by assert (r' = r) as -> by congruence.
    - destruct (E k) as [b|] eqn:Ek; [|done]. simpl. constructor; [|done]. intros (e & Ek' & He)%list_elem_of_fmap. destruct (I1 e He) as (k' & b' & r' & Hk' & _ & Er' & ->).
      apply Nk. change (entry_key (entry b r) = entry_key (entry b' r')) in Ek'. rewrite (proj1 (Sp k b r Er)), (proj1 (Sp k' b' r' Er')) in Ek'. by subst. }
  split.
  - split; [lia|]. split_and!; try done. apply Forall_forall. intros e He. destruct (In e He) as (k & b & r & _ & _ & Er & ->).
    split_and!; [done..|apply captured_width|]. by apply (Sp k).
  - split.
    + intros k b r Eb Er. exists (entry b r). split; [|split; [by apply (Sp k)|done]]. apply (Out k); [|done..].
      destruct (decide (k ∈ ks)) as [Hk|Hk]; [done|]. rewrite Off in Eb; done.
    + intros k En e He Ek. destruct (In e He) as (k' & b & r & _ & Eb & Er & ->). rewrite (proj1 (Sp k' b r Er)) in Ek. congruence.
Qed.

Definition group_resolved (db db' : D) (g : bytes * list RebaseEntry) : Prop :=
  group_ok g (flags g.1) /\ exists E, (forall k, row_resolved g.1 k (rows db g.1 !! k) (rows db' g.1 !! k) (E k)) /\ tells g.1 E g.2.

Lemma apply_remote tcs : NoDup (tc_name <$> tcs) -> Forall (table_viewed schema base rem) tcs ->
  forall (st : @ApplyState D K) es, a_rebase st = Some es -> valid (a_db st) ->
  exists db' h' gs, changeset_apply_inner on_conflict schema tcs st = Ok (mkApply db' h' (Some (es ++ concat gs.*2))) /\ valid db' /\
    gs.*1 = tc_name <$> tcs /\ (forall t, t ∉ tc_name <$> tcs -> rows db' t = rows (a_db st) t) /\ Forall (group_resolved (a_db st) db') gs.
Proof using WS KS Res Gb Gr.
  intros ND F. induction F as [|tc tcs ((m & ly & Hs & Hl & Hn & Hf) & Ne & ks & Are & Rest) F IH]; intros st es Es V.
  - exists (a_db st), (a_handler st), []. split; [simpl; rewrite app_nil_r; destruct st; simpl in *; by subst|]. by split_and!.
  - rewrite fmap_cons in ND. apply NoDup_cons in ND as (Nt & ND). set (t := tc_name tc) in *. destruct (WS t m Hs) as (Wm & _).
    destruct (session_pk_layout_ok m ly Wm Hl) as (_ & Lf & _). destruct (table_flags_eq schema t m ly Hs Hl) as (_ & Ef).
    destruct (apply_keys t ks (tc_changes tc)) with (st := st) (es := es) as (db1 & h1 & E & E1 & V1 & O1 & N1 & R1); [|done..|].
    { rewrite Ef. by eapply layout_key. }
    destruct (captured_tells t E ks (tc_changes tc) m ly Hs Hl Are) as (Ok1 & T1); [intros k Hk; by apply N1|].
    set (es1 := captured_entries t E ks (tc_changes tc)) in *.
    destruct (IH ND (mkApply db1 h1 (Some (es ++ es1))) _ eq_refl V1) as (db2 & h2 & gs & E2 & V2 & En & O2 & G2). simpl in O2, G2.
    exists db2, h2, ((t, es1) :: gs). split_and!; [|done|by rewrite !fmap_cons, En| |].
    + cbn [changeset_apply_inner]. fold t. rewrite Hs, Hl, Hn, Z.eqb_refl, bool_decide_eq_true_2 by done. cbn [negb orb]. rewrite Hf, <- Lf, <- Ef, E1. bind_step.
      rewrite E2. rewrite <- (assoc_L app). done.
    + intros t' (N2 & N3)%not_elem_of_cons. rewrite O2 by done. by apply O1.
    + constructor.
      * split; [done|]. exists E. simpl. split; [|done]. intros k. rewrite (O2 t Nt). destruct (decide (k ∈ ks)) as [Hk|Hk]; [by apply R1|].
        destruct (N1 k Hk) as (-> & ->). split; [|done]. apply rs_same. by apply Rest.
      * assert (Forall (fun g => g.1 <> t) gs) as Ng.
        { apply Forall_forall. intros g Hg Eg. apply Nt. rewrite <- En, <- Eg. by apply list_elem_of_fmap_2. }
        rewrite Forall_forall in G2, Ng |- *. intros g Hg. specialize (G2 g Hg). unfold group_resolved in *. by rewrite (O1 _ (Ng g Hg)) in G2.
Qed.

(** A remote changeset on a local store: its rows are resolved, and the
    rebaser finds how. *)
Lemma remote_applied s d h : carries schema base rem s -> valid d ->
  exists b d' rb, changeset_apply_rebase on_conflict schema d h (serialize (live rem) s) = (Ok b, d') /\ valid d' /\
    configure rebaser_new b = (Ok (), rb) /\
    forall t k, exists e, row_resolved t k (rows d t !! k) (rows d' t !! k) e /\
      lookup_resolution rb t k = found_resolution (flags t) (x t !! k) (z t !! k) e.
Proof using WS KS Res Gb Gr.
  intros C V. destruct (carried_view schema WS base rem Gb Gr s C) as [N F R].
  assert (parse_changeset (serialize (live rem) s) = Ok (session_records (live rem) s false)) as P.
  { apply serialize_parses. by apply (carried_wf schema base rem). }
  set (tcs := session_records (live rem) s false) in *.
  destruct (apply_remote tcs N F (mkApply d h (Some [])) [] eq_refl V) as (d' & h' & gs & E & V' & En & O & G). simpl in E, O, G.
  assert (Forall (fun g => group_ok g (flags g.1)) gs) as Gok by (eapply Forall_impl; [exact G|]; by intros g (? & _)).
  assert (NoDup gs.*1) as Ng by by rewrite En.
  exists (serialize_rebase (concat gs.*2)), d', (omap (fun g => group_table (flags g.1) g) gs). split_and!; [|done|by apply configure_groups|].
  - unfold changeset_apply_rebase. rewrite P. destruct tcs as [|tc tcs].
    + simpl in E. injection E as <- _ E. by rewrite <- E.
    + unfold run_in_savepoint. rewrite E. by bind_step.
  - intros t k. destruct (decide (t ∈ tc_name <$> tcs)) as [Ht|Ht].
    + rewrite <- En in Ht. apply list_elem_of_fmap in Ht as (g & -> & Hg). rewrite Forall_forall in G. destruct (G g Hg) as ((_ & _ & _ & NK & _) & E0 & Rr & T1 & T2).
      exists (E0 k). split; [apply Rr|]. destruct g as [t es]. simpl in *. destruct (lookup_groups flags gs t es k Ng Hg NK) as (L1 & L2).
      destruct (E0 k) as [b|] eqn:Eb; [|by apply L2, T2].
      assert (x t !! k <> z t !! k) as Nx by (destruct (Rr k) as (Rk & _); rewrite Eb in Rk; by inversion Rk).
      destruct (row_change (flags t) (x t !! k) (z t !! k)) as [r|] eqn:Er.
      2:{ apply (change_exists (flags t) k) in Er; [done|by apply good_keyed..]. }
      destruct (T1 k b r Eb Er) as (e & He & Ek & Ee). unfold found_resolution. rewrite Er, <- Ee. by apply L1.
    + exists None. split; [split; [|done]; rewrite O by done; apply rs_same; by rewrite R|]. simpl.
      apply lookup_groups_none. by rewrite En.
Qed.

End remote.

End RebaseRemote.
