(* ===== verification/RebaseDiamond.v ===== *)
(** Rebasing closes the diamond ([rebase_diamond]): a local changeset that is
    rebased over the conflicts of a remote one applies on top of the remote
    rows, and both sides end with the same rows. *)

From S2P Require Import Prelude Varint Value Session SessionRead SessionProps SessionApply SessionStore SessionStep SessionNet.
From S2P Require Import Changeset ChangesetInvert ChangesetMerge ChangesetConcat ChangesetCompose Rebase RebaseRows RebaseApply RebaseRemote.
From stdpp Require Import gmap.
Import Varint Value Session SessionRead SessionProps SessionApply SessionStore SessionStep SessionNet.
Import Changeset ChangesetFields ChangesetInvert ChangesetMerge ChangesetConcat ChangesetCompose Rebase RebaseRows RebaseApply RebaseBlob RebaseRemote.
Local Open Scope Z_scope.

Module RebaseDiamond.

Lemma omap_app_cons {A B} (f : A -> option B) a l : omap f (a :: l) = option_list (f a) ++ omap f l.
Proof. simpl. by destruct (f a). Qed.

Section rows.
Context (fl : bytes) (k : list Value) (x y z : option (list Value)) (Kx : keyed_opt fl k x) (Ky : keyed_opt fl k y) (Kz : keyed_opt fl k z).

Lemma resolved_keyed w e : resolved x y z w e -> keyed_opt fl k w.
Proof using Kx Ky Kz.
  intros [E|w' N C|w' N F|N N']; try done.
  - unfold clean in C. destruct x as [x0|], z as [z0|]; [|by destruct C as (_ & -> )..|done].
    destruct C as (y' & E & -> & _). rewrite E in Ky. by apply three_way_keyed.
  - unfold forced in F. destruct x as [x0|], y as [y0|], z as [z0|]; try done; subst w'; [by apply three_way_keyed|done..].
Qed.

(** A row the local side left alone takes the remote change. *)
Lemma resolved_untouched w e : x = y -> resolved x y z w e -> w = z.
Proof using Kx Ky Kz.
  intros Exy R. destruct R as [E|w' N C|w' N F|N N']; [congruence| | |congruence].
  - unfold clean in C. destruct x as [x0|], z as [z0|]; [|by destruct C as (_ & -> )..|done].
    destruct C as (y' & E & -> & _). rewrite E in Exy. injection Exy as <-. f_equal. by apply (three_way_self fl k).
  - unfold forced in F. subst y. destruct x as [x0|], z as [z0|]; try done. subst w'. f_equal. by apply (three_way_self fl k).
Qed.

End rows.

Section local.
Context (schema : bytes -> option TableMeta) (WS : wf_schema schema).
Context (base loc rem : keyed_db) (Gb : good_db schema base) (Gl : good_db schema loc) (Gr : good_db schema rem).
Notation flags := (table_flags schema).
Notation x t := (db_rows base t).
Notation y t := (db_rows loc t).
Notation z t := (db_rows rem t).

(** The rows [w] the remote changeset left on the local side, and what the
    rebaser knows of them. *)
Context {K0 : Type} (remote_handler : K0 -> ConflictType -> ConflictAction * K0) (w : bytes -> rows_of) (rb : Rebaser).
Context (Hw : forall t k, exists e, row_resolved remote_handler base rem t k (y t !! k) (w t !! k) e /\
  lookup_resolution rb t k = found_resolution (flags t) (x t !! k) (z t !! k) e).

(** The row [f] is the one the local side has; where the handler omitted a
    remote update of a row that was updated locally, it may be the remote row
    with the local update instead. *)
Definition landed (t : bytes) (k : list Value) (f : option (list Value)) : Prop :=
  f = w t !! k \/ ~ always_replaces remote_handler /\
  exists x' y' z', x t !! k = Some x' /\ y t !! k = Some y' /\ z t !! k = Some z' /\ w t !! k = Some y' /\ f = Some (three_way x' z' y').

Lemma landed_untouched t k : x t !! k = y t !! k -> landed t k (z t !! k).
Proof using WS Gb Gl Gr Hw.
  intros E. destruct (Hw t k) as (e & (R & _) & _). left. symmetry. by apply (resolved_untouched (flags t) k _ _ _ (good_keyed schema base t WS Gb k) (good_keyed schema loc t WS Gl k) (good_keyed schema rem t WS Gr k) _ e).
Qed.

Lemma rebase_key t k r : row_change (flags t) (x t !! k) (y t !! k) = Some r ->
  exists o f, rebase_one (flags t) (find_table t rb) r = emitted <$> o /\
    match o with Some r' => takes (flags t) r' (z t !! k) f | None => f = z t !! k end /\ keyed_opt (flags t) k f /\ landed t k f.
Proof using WS Gb Gl Gr Hw.
  intros Er. destruct (Hw t k) as (e & (R & A) & Ef). pose proof (good_keyed schema base t WS Gb k) as Kx. pose proof (good_keyed schema loc t WS Gl k) as Ky.
  pose proof (good_keyed schema rem t WS Gr k) as Kz. destruct (rebase_row (flags t) k _ _ _ _ e r (find_table t rb) Kx Ky Kz R Er Ef) as (o & f & Eo & T & L).
  exists o, f. split_and!; [done..| |].
  - destruct L as [ -> |(_ & _ & x' & y' & z' & Ex & Ey & Ez & ->)]; [exact (resolved_keyed (flags t) k _ _ _ Kx Ky Kz _ e R)|].
    rewrite Ex in Kx. rewrite Ey in Ky. rewrite Ez in Kz. by apply three_way_keyed.
  - destruct L as [ -> |(Ee & Ewy & x' & y' & z' & Ex & Ey & Ez & ->)]; [by left|]. right. split.
    + intros Al. destruct (A Al Ee) as [H|[H|H]]; congruence.
    + exists x', y', z'. by rewrite Ewy.
Qed.

Context {D : Type} {S : Store D} {rows : D -> bytes -> rows_of} {valid : D -> Prop} {KS : KeyedStore rows S (table_flags schema) valid}.
Context {K : Type} (on_conflict : K -> ConflictType -> ConflictAction * K).

(** The rebased changes of one table on the remote rows. *)
Lemma rebase_keys t ks rs : changes_are schema t (x t) (y t) ks rs ->
  exists outs, omap (rebase_one (flags t) (find_table t rb)) rs = emitted <$> outs /\
    Forall (fun r => reads_change (new_table t (zlen (flags t)) (flags t)) false (emitted r) r) outs /\
    forall st : @ApplyState D K, valid (a_db st) -> (forall k, k ∈ ks -> rows (a_db st) t !! k = z t !! k) ->
    exists db', apply_changes on_conflict t (zlen (flags t)) (flags t) outs st = Ok (with_db st db') /\ valid db' /\
      (forall t', t' <> t -> rows db' t' = rows (a_db st) t') /\ (forall k, k ∉ ks -> rows db' t !! k = rows (a_db st) t !! k) /\
      forall k, k ∈ ks -> landed t k (rows db' t !! k).
Proof using WS Gb Gl Gr Hw KS.
  intros (ND & F). induction F as [|k r ks rs Er F IH].
  - exists []. split_and!; [done|constructor|]. intros st V _. exists (a_db st). split; [by destruct st|]. split_and!; try done. by intros k ?%elem_of_nil.
  - apply NoDup_cons in ND as (Nk & ND). destruct (IH ND) as (outs & Eo & Rd & Ap). destruct (rebase_key t k r Er) as (o & f & E1 & T & Kf & L).
    pose proof (good_keyed schema rem t WS Gr k) as Kz.
    assert (forall (st : @ApplyState D K) db1, valid db1 -> updated rows (a_db st) db1 t (upd (rows (a_db st) t) k f) ->
      (forall k', k' ∈ k :: ks -> rows (a_db st) t !! k' = z t !! k') ->
      exists db', apply_changes on_conflict t (zlen (flags t)) (flags t) outs (with_db st db1) = Ok (with_db st db') /\ valid db' /\
        (forall t', t' <> t -> rows db' t' = rows (a_db st) t') /\ (forall k', k' ∉ k :: ks -> rows db' t !! k' = rows (a_db st) t !! k') /\
        forall k', k' ∈ k :: ks -> landed t k' (rows db' t !! k')) as Next.
    { intros st db1 V1 (U1 & O1) Hz. destruct (Ap (with_db st db1) V1) as (db' & E & V' & O & N & H).
      { intros k' Hk. simpl. rewrite U1, upd_ne by by intros ->. apply Hz. by right. }
      simpl in O, N. exists db'. split_and!; [exact E|done|intros t' Nt; rewrite O by done; by apply O1| |].
      - intros k' (N1 & N2)%not_elem_of_cons. rewrite N by done. rewrite U1. by apply upd_ne.
      - intros k' [ -> |Hk]%elem_of_cons; [|by apply H]. rewrite N, U1, upd_eq by done. done. }
    destruct o as [r'|].
    + exists (r' :: outs). split_and!; [by rewrite omap_app_cons, E1, Eo|constructor; [exact (reads_emitted t (flags t) k r' _ f Kz Kf T)|done]|]. intros st V Hz.
      assert (rows (a_db st) t !! k = z t !! k) as Ez by (apply Hz; left). rewrite <- Ez in T.
      destruct (apply_takes (rows := rows) (valid := valid) on_conflict t k st r' f V T Kf) as (db1 & Ed & V1 & U1).
      cbn [apply_changes]. rewrite Ed. bind_step. by apply Next.
    + exists outs. split_and!; [by rewrite omap_app_cons, E1|done|]. intros st V Hz. subst f.
      pose proof (Next st (a_db st) V) as X. replace (with_db st (a_db st)) with st in X by by destruct st. apply X; [|done]. split; [|done]. rewrite <- (Hz k) by left. symmetry. apply upd_same.
Qed.

Lemma rebase_tables tcs : NoDup (tc_name <$> tcs) -> Forall (table_viewed schema base loc) tcs ->
  exists tcs', (forall ts ps, exists ps', parses (concat (rebase_table rb <$> tcs)) ts ps (ts ++ tcs') ps') /\
    forall st : @ApplyState D K, valid (a_db st) -> (forall t, t ∈ tc_name <$> tcs -> rows (a_db st) t = z t) ->
    exists db', changeset_apply_inner on_conflict schema tcs' st = Ok (with_db st db') /\ valid db' /\
      (forall t, t ∉ tc_name <$> tcs -> rows db' t = rows (a_db st) t) /\ forall t k, t ∈ tc_name <$> tcs -> landed t k (rows db' t !! k).
Proof using WS Gb Gl Gr Hw KS.
  intros ND F. induction F as [|tc tcs ((m & ly & Hs & Hl & Hn & Hf) & Ne & ks & Are & Rest) F IH].
  - exists []. split; [intros ts ps; exists ps; rewrite app_nil_r; apply parses_nil|]. intros st V _. exists (a_db st). split; [by destruct st|].
    split_and!; try done. by intros t k ?%elem_of_nil.
  - rewrite fmap_cons in ND. apply NoDup_cons in ND as (Nt & ND). destruct (IH ND) as (tcs' & P & Ap). set (t := tc_name tc) in *. destruct (WS t m Hs) as (Wm & _ & U & N0).
    destruct (session_pk_layout_ok m ly Wm Hl) as (B & Lf & _). destruct (table_flags_eq schema t m ly Hs Hl) as (_ & Ef). rewrite <- Ef in Lf, Hf.
    destruct (rebase_keys t ks (tc_changes tc) Are) as (outs & Eo & Rd & Apk).
    exists (mkTableChangeset t (zlen (flags t)) (flags t) outs :: tcs'). split.
    + intros ts ps. destruct (P (ts ++ [mkTableChangeset t (zlen (flags t)) (flags t) outs]) false) as (ps' & P'). exists ps'. rewrite fmap_cons. cbn [concat].
      rewrite <- (assoc_L app) in P'. eapply parses_app; [|exact P']. unfold rebase_table. destruct (tc_changes tc) as [|c cs]; [done|].
      change (tc_name tc) with t. rewrite Hn, Hf, <- Lf, Eo. apply parses_table_records; [lia|done..].
    + intros st V Hz. assert (rows (a_db st) t = z t) as Ez by (apply Hz; left).
      destruct (Apk st V) as (db1 & E1 & V1 & O1 & N1 & L1); [intros k _; by rewrite Ez|].
      destruct (Ap (with_db st db1) V1) as (db' & E & V' & O & L).
      { intros t' Ht. simpl. rewrite O1; [apply Hz; by right|]. by intros ->. }
      simpl in O. exists db'. split_and!; [|done| |].
      * cbn [changeset_apply_inner tc_name tc_ncol tc_pk_flags tc_changes]. rewrite Hs, Hl, Ef, <- Ef, Lf, Z.eqb_refl, bool_decide_eq_true_2 by done. cbn [negb orb].
        rewrite <- Lf, E1. bind_step. exact E.
      * intros t' (N2 & N3)%not_elem_of_cons. rewrite O by done. by apply O1.
      * intros t' k [ -> |Ht]%elem_of_cons; [|by apply L]. fold t. rewrite O by done. simpl. destruct (decide (k ∈ ks)) as [Hk|Hk]; [by apply L1|].
        rewrite N1 by done. rewrite Ez. apply landed_untouched. by apply Rest.
Qed.

(** The rebased local changeset on the remote side. *)
Lemma rebased_applied s d h : carries schema base loc s -> valid d -> (forall t, rows d t = z t) ->
  exists b d', rebase rb (serialize (live loc) s) = Ok b /\ changeset_apply_with on_conflict schema d h b = (Ok (), d') /\
    valid d' /\ forall t k, landed t k (rows d' t !! k).
Proof using WS Gb Gl Gr Hw KS.
  intros C V Hz. destruct (carried_view schema WS base loc Gb Gl s C) as [N F R].
  assert (parse_changeset (serialize (live loc) s) = Ok (session_records (live loc) s false)) as P.
  { apply serialize_parses. by apply (carried_wf schema base loc). }
  set (tcs := session_records (live loc) s false) in *.
  destruct (rebase_tables tcs N F) as (tcs' & P' & Ap). destruct (P' [] false) as (ps' & P0).
  set (b := concat (rebase_table rb <$> tcs)) in *.
  assert (parse_changeset b = Ok tcs') as Pb.
  { unfold parse_changeset. destruct (P0 (length b) [] []) as (f & _ & E); [simpl; lia|]. rewrite app_nil_r in E. simpl in E. change (zlen (@nil Z)) with 0 in E.
    rewrite E. destruct f; simpl; by rewrite Z.leb_refl. }
  destruct (Ap (mkApply d h None) V) as (d' & E & V' & O & L); [intros t _; apply Hz|].
  exists b, d'. split_and!; [unfold rebase; rewrite P; by bind_step| |done|].
  - unfold changeset_apply_with. rewrite Pb. destruct tcs' as [|tc tcs']; [simpl in E; injection E as E; by rewrite E|]. unfold run_in_savepoint. rewrite E. by bind_step.
  - intros t k. destruct (decide (t ∈ tc_name <$> tcs)) as [Ht|Ht]; [by apply L|]. rewrite O by done. simpl. rewrite Hz. apply landed_untouched. by rewrite R.
Qed.

End local.

(** ** The diamond *)

(** C19: rebasing closes the diamond. A local and a remote session start from
    the same rows. The remote changeset is applied to the local rows, with
    every conflict resolved by a handler that omits or replaces; the rebase
    blob this writes configures the rebaser, which rebases the local changeset;
    and the rebased changeset applies without a conflict to every store that
    holds the remote rows. Both stores then hold the same rows, each the one
    the resolution of its conflict says; only where the handler omitted a remote
    update of a row that was also updated locally may the remote side keep the
    remote values of the columns the local update does not set. When the handler
    always replaces, nothing differs. *)
Theorem rebase_diamond (schema : bytes -> option TableMeta) {D : Type} (S : Store D) (rows : D -> bytes -> rows_of) (valid : D -> Prop)
    (KS : KeyedStore rows S (table_flags schema) valid)
    {K : Type} (on_conflict : K -> ConflictType -> ConflictAction * K) (h : K) {K' : Type} (on_conflict' : K' -> ConflictType -> ConflictAction * K') (h' : K')
    (base loc rem : keyed_db) (opsL opsR : list dml) (dl dr : D)
    (WS : wf_schema schema) (Gb : good_db schema base) (GL : Forall (good_dml schema) opsL) (GR : Forall (good_dml schema) opsR)
    (HL : zlen opsL < 2 ^ 28) (HR : zlen opsR < 2 ^ 28) (EL : run schema base opsL = Some loc) (ER : run schema base opsR = Some rem)
    (Res : resolves on_conflict) (Vl : valid dl) (Vr : valid dr) (Hl : forall t, rows dl t = db_rows loc t) (Hr : forall t, rows dr t = db_rows rem t) :
  exists sl sr blob dl' rb b dr',
    record_all schema (attach default_state) opsL = Ok sl /\ record_all schema (attach default_state) opsR = Ok sr /\
    changeset_apply_rebase on_conflict schema dl h (serialize (live rem) sr) = (Ok blob, dl') /\
    configure rebaser_new blob = (Ok (), rb) /\ rebase rb (serialize (live loc) sl) = Ok b /\
    changeset_apply_with on_conflict' schema dr h' b = (Ok (), dr') /\
    (forall t k, exists e, resolved (db_rows base t !! k) (db_rows loc t !! k) (db_rows rem t !! k) (rows dl' t !! k) e) /\
    (forall t k, rows dr' t !! k = rows dl' t !! k \/
       exists x y z, db_rows base t !! k = Some x /\ db_rows loc t !! k = Some y /\ db_rows rem t !! k = Some z /\
         rows dl' t !! k = Some y /\ rows dr' t !! k = Some (three_way x z y)) /\
    (always_replaces on_conflict -> forall t, rows dr' t = rows dl' t).
Proof.
  destruct (record_all_ok schema base opsL base loc 0 (attach default_state)) as (sl & Esl & Rl & Gl); try done; try lia; [apply recording_start|].
  destruct (record_all_ok schema base opsR base rem 0 (attach default_state)) as (sr & Esr & Rr & Gr); try done; try lia; [apply recording_start|].
  destruct (remote_applied (rows := rows) (valid := valid) schema WS on_conflict Res base rem Gb Gr sr dl h (recording_carries _ _ _ _ _ Rr) Vl)
    as (blob & dl' & rb & Ea & _ & Ec & Rv).
  assert (forall t k, exists e, row_resolved on_conflict base rem t k (db_rows loc t !! k) (rows dl' t !! k) e /\
    lookup_resolution rb t k = found_resolution (table_flags schema t) (db_rows base t !! k) (db_rows rem t !! k) e) as Hw.
  { intros t k. rewrite <- Hl. apply Rv. }
  destruct (rebased_applied schema WS base loc rem Gb Gl Gr on_conflict (rows dl') rb Hw (rows := rows) (valid := valid) on_conflict' sl dr h')
    as (b & dr' & Eb & Ed & _ & L); [by eapply recording_carries|done..|].
  exists sl, sr, blob, dl', rb, b, dr'. split_and!; try done.
  - intros t k. destruct (Hw t k) as (e & (R & _) & _). by exists e.
  - intros t k. destruct (L t k) as [E|(_ & E)]; [by left|by right].
  - intros A t. apply map_eq. intros k. destruct (L t k) as [E|(N & _)]; done.
Qed.

(** Both sides change the first row and insert the second; the local side also
    takes the third row the remote side leaves alone, and the remote side adds
    a fourth. *)
Definition diamond_base : keyed_db :=
  {[ [116] := <[ [Integer 3] := [Integer 3; Null] ]> {[ [Integer 1] := [Integer 1; Text [97]] ]} ]}.

Definition local_ops : list dml :=
  [DUpdate [116] 1 [Integer 1; Text [97]] [Integer 1; Text [98]] false;
   DInsert [116] 2 [Integer 2; Null] false;
   DDelete [116] 3 [Integer 3; Null] false].

Definition remote_ops : list dml :=
  [DUpdate [116] 1 [Integer 1; Text [97]] [Integer 1; Text [99]] false;
   DInsert [116] 2 [Integer 2; Text [100]] false;
   DInsert [116] 4 [Integer 4; Text [101]] true].

Definition local_final : keyed_db := {[ [116] := <[ [Integer 2] := [Integer 2; Null] ]> {[ [Integer 1] := [Integer 1; Text [98]] ]} ]}.

Definition remote_final : keyed_db :=
  {[ [116] := <[ [Integer 4] := [Integer 4; Text [101]] ]> (<[ [Integer 2] := [Integer 2; Text [100]] ]>
    (<[ [Integer 3] := [Integer 3; Null] ]> {[ [Integer 1] := [Integer 1; Text [99]] ]})) ]}.

(** A handler that lets the remote side win. *)
Definition remote_wins (h : unit) (kind : ConflictType) : ConflictAction * unit :=
  (match kind with Data | Conflict => Replace | NotFound | Constraint => Omit end, h).

Lemma diamond_good_base : good_db example_schema diamond_base.
Proof.
  intros t k row E. unfold db_rows, diamond_base in E. destruct (decide (t = [116])) as [ -> |N].
  - rewrite lookup_singleton_eq in E. simpl in E. apply lookup_insert_Some in E as [(<- & <-)|(_ & E)].
    + split; [|done]. by apply example_row; [unfold is_i64, is_sint; lia|..].
    + apply lookup_singleton_Some in E as (<- & <-). split; [|done].
      apply example_row; [unfold is_i64, is_sint; lia|split; [repeat constructor; unfold is_u8, is_uint; lia|done]|done].
  - rewrite lookup_singleton_ne in E by done. simpl in E. by rewrite lookup_empty in E.
Qed.

Lemma diamond_good_ops : Forall (good_dml example_schema) local_ops /\ Forall (good_dml example_schema) remote_ops.
Proof.
  assert (forall i, 0 <= i < 10 -> is_i64 i) as I by (intros; unfold is_i64, is_sint; lia).
  split; repeat constructor; apply example_row; try (apply I; lia); try done; split; try done; repeat constructor; unfold is_u8, is_uint; lia.
Qed.

Lemma keyed_good db : good_db example_schema db -> keyed_valid (table_flags example_schema) db.
Proof. intros G t k row E. destruct (G t k row E) as (R & Ek). split; [|exact Ek]. exact (good_width example_schema t row example_wf_schema R). Qed.

(** Both sides end with the remote values of the first two rows, the fourth
    row, and without the third. *)
Lemma rebase_diamond_witness : exists sl sr blob dl' rb b dr',
  record_all example_schema (attach default_state) local_ops = Ok sl /\ record_all example_schema (attach default_state) remote_ops = Ok sr /\
  @changeset_apply_rebase _ (keyed_db_store (table_flags example_schema)) _ remote_wins example_schema local_final () (serialize (live remote_final) sr) = (Ok blob, dl') /\
  configure rebaser_new blob = (Ok (), rb) /\ rebase rb (serialize (live local_final) sl) = Ok b /\
  @changeset_apply_with _ (keyed_db_store (table_flags example_schema)) _ default_handler example_schema remote_final () b = (Ok (), dr') /\
  forall t, db_rows dr' t = db_rows dl' t.
Proof.
  assert (run example_schema diamond_base local_ops = Some local_final) as EL by (vm_compute; reflexivity).
  assert (run example_schema diamond_base remote_ops = Some remote_final) as ER by (vm_compute; reflexivity).
  destruct (rebase_diamond example_schema (keyed_db_store (table_flags example_schema)) db_rows _ (keyed_db_keyed (table_flags example_schema))
    remote_wins () default_handler () diamond_base local_final remote_final local_ops remote_ops local_final remote_final
    example_wf_schema diamond_good_base (proj1 diamond_good_ops) (proj2 diamond_good_ops) eq_refl eq_refl EL ER) as (sl & sr & blob & dl' & rb & b & dr' & H1 & H2 & H3 & H4 & H5 & H6 & _ & _ & H7).
  - intros [] []; simpl; auto.
  - apply keyed_good, (run_good _ _ _ _ diamond_good_base (proj1 diamond_good_ops) EL).
  - apply keyed_good, (run_good _ _ _ _ diamond_good_base (proj2 diamond_good_ops) ER).
  - reflexivity.
  - reflexivity.
  - exists sl, sr, blob, dl', rb, b, dr'. split_and!; try assumption. apply H7. intros []. reflexivity.
Defined.

(** The rebase blob and the rebased changeset: the two conflicts are the remote
    side's, so only the delete is left. *)
Example rebase_example :
  (let* sr := record_all example_schema (attach default_state) remote_ops in
   (@changeset_apply_rebase _ (keyed_db_store (table_flags example_schema)) _ remote_wins example_schema local_final () (serialize (live remote_final) sr)).1) =
    Ok [84; 2; 1; 0; 116; 0; 18; 1; 1; 0; 0; 0; 0; 0; 0; 0; 1; 3; 1; 99; 18; 1; 1; 0; 0; 0; 0; 0; 0; 0; 2; 3; 1; 100] /\
  (let* sl := record_all example_schema (attach default_state) local_ops in
   rebase (configure rebaser_new [84; 2; 1; 0; 116; 0; 18; 1; 1; 0; 0; 0; 0; 0; 0; 0; 1; 3; 1; 99; 18; 1; 1; 0; 0; 0; 0; 0; 0; 0; 2; 3; 1; 100]).2 (serialize (live local_final) sl)) =
    Ok [84; 2; 1; 0; 116; 0; 9; 0; 1; 0; 0; 0; 0; 0; 0; 0; 3; 5].
Proof. vm_compute. split; reflexivity. Qed.

End RebaseDiamond.
